(* ===== verification/_CoqProject ===== *)
-Q . S2P
Prelude.v
ByteIO.v
SerialArith.v
Crc32.v
Sha256.v
Cobs.v
Codec.v
Frame.v
Estop.v
Collect.v
Raw.v
Fragmentation.v
Blob.v
StreamBundle.v
CborItem.v
CborReader.v
CborWriter.v
CborMessage.v
MsgNack.v
MsgIntent.v
MsgWish.v
MsgTrust.v
MsgHello.v
MsgWelcome.v
Tables.v
Slots.v
Crypto.v
Safety.v
Pairing.v
PairingLedger.v
Shedding.v
Catalog.v
Queues.v
StateChannel.v
RateLimiter.v
Subscription.v
Registry.v
CatalogCodec.v
CatalogWire.v
CatalogTyped.v
CatalogDecode.v
MsgBlob.v
StateM.v
HubSession.v
HubState.v
HubWorld.v
HubCore.v
HubSafety.v
HubPump.v
HubHello.v
HubWish.v
HubPairing.v
HubIntent.v
HubStream.v
HubUpdate.v
HubCatalog.v
HubSteps.v
HubWalk.v
HubWalkMotion.v
HubWalkAll.v
HubWithdraw.v
HubBench.v
HubLatch.v
HubGates.v
HubRevoke.v
HubLiveness.v
ClientState.v
ClientParts.v
ClientWorld.v
Client.v
ClientSteps.v
ClientWalk.v
ClientLife.v
ClientCatalog.v
ClientEstop.v
ClientSends.v
ClientBench.v
SavedNetworks.v
VisibleNetworks.v
InProcessLink.v
