(* ===== verification/Prelude.v ===== *)
(** * Valence: a verification library for the protocol's reference C++ code

    Valence is a hub-and-clients protocol for machines that move: a hub owns the machine, clients see its
    channels (STATE, STREAM, INTENT, EVENT, STORE) and may control it in sessions.  The reference code is a
    header-only C++ library, src/lib/valence/include/valence (below: paths without that prefix).  This
    library models it as executable functions, component by component and from the wire up to the whole hub,
    and proves what makes each component correct.

    ** How the code is put together, and what models it

    - Bytes and time: util/byte_io.hpp (ByteIO), util/serial_arithmetic.hpp (SerialArith: the wrapping
      comparisons every deadline and sequence number uses), core/result.hpp (this file, which also holds the list,
      byte and integer lemmas all files share, the tactics and hint databases, and record update syntax).
    - Checksums and keys: wire/crc32.hpp (Crc32), wire/sha256.hpp and wire/hmac_sha256.hpp (Sha256),
      core/crypto.hpp, core/rng.hpp, util/bounded_string.hpp (Crypto: the interfaces as classes with the laws
      the code documents, and the software implementations as instances that satisfy them).
    - Frames: wire/frame_header.hpp, wire/frame_buffer.hpp (Frame), wire/serial_cobs.hpp (Cobs),
      wire/estop_frame.hpp (Estop), the fixed-layout frames of wire/raw and the discovery datagrams of
      wire/messages/discover.hpp (Raw; Codec is the class their codecs are instances of), wire/fragmentation.hpp
      (Fragmentation), wire/blob_chunks.hpp (Blob), wire/stream_bundle.hpp (StreamBundle).
    - CBOR: CborItem is the profile as a datatype with its canonical encoding; CborReader and CborWriter are
      wire/cbor, the reader's cursor and depth stack and the writer's span included.  CborMessage has what the
      messages share: fold readers over maps and arrays, fuel by the bytes unread, and the tactics that
      derive a message's round trip from its fields'.
    - Messages: MsgNack, MsgIntent, MsgWish, MsgTrust, MsgHello, MsgWelcome, MsgBlob (with the
      store item) are wire/messages.  A
      theorem [..._contract] says: every well-formed message is encoded whenever the span is large enough,
      0 is reported exactly when it is not, and decoding gives the message back, also past unknown keys.
    - Channels: Catalog (channel/catalog.hpp: entries, pools, authoring, user space), StateChannel (the
      retained store and the shadow at the other end), Queues (event queue, intent ring, log ring),
      Subscription and RateLimiter (what a grant lets through), Shedding (session/shedding.hpp).
    - The catalog on the wire: CatalogCodec is wire/catalog_codec.hpp and wire/catalog_etag.hpp, CatalogWire what
      an entry's content stands for and that the encoder writes exactly that, CatalogTyped what the decoder
      makes of arbitrary bytes, CatalogDecode the round trip.
    - Trust: Pairing and PairingLedger (session/pairing.hpp), Safety (session/safety.hpp: who owns a source).
    - The hub (hub/hub.hpp, hub/hub_impl.hpp): HubSession and HubState are its records, HubWorld the
      monad its functions run in, HubCore what every handler uses, HubSafety the ESTOP and PAUSE latches,
      HubPump the tick's duties, HubHello joining and AUTH, HubWish subscriptions and small frames,
      HubPairing, HubIntent, HubStream (streams and blobs), HubUpdate dispatch and the tick, HubCatalog the
      constructor and the live change of the catalog.
      Functions keep their C++ names; a block of a long function has a name of its own and is mapped to
      its lines.
    - The client (client/client.hpp, client/client_impl.hpp): ClientState is its record, ClientParts what it computes
      without acting (with session/static_profile.hpp), ClientWorld its monad and the calls it makes, Client its
      functions, from [connect] and the small sends to the dispatch and [update].
    - Around the client: SavedNetworks and VisibleNetworks (net/saved_networks.hpp: the list an adapter keeps, its
      blob, the order it joins in, the table of a scan), [ClientEstop.EstopDatagram]
      (client/estop_datagram.hpp).
    - InProcessLink (transport/inprocess_binding.hpp): the fault-injecting link between a hub and a client of one
      process.
    - Tables and Slots are the list reasoning the bounded tables share; RateLimiter also holds the binary32
      arithmetic on rates; Collect what the two reassemblers share; StateM the state monad of the hub and the
      client; Registry the generated constants they use.

    ** The two worlds

    A function of the hub runs on a [World]: the [Hub] record, the catalog, the environment, the random
    generator and the trace.  The environment answers the calls the hub makes outside the library - its
    transports, clock, delegate and signer, one constructor of [Call] each, typed by [Answer] - and may change
    by answering; every call is put on the trace.  Next to each call [w_seen], which is not the code's, keeps the
    hub and the catalog as they were when it was made.  So a theorem holds for every delegate, transport and client,
    and speaks of what they were asked.  What is assumed of them: a delegate does not call back into the hub
    from a callback, and a transport pointer the code holds is not null where the code dereferences it.

    HubSteps states what the hub may do to its core (safety word, owners, sessions, the snapshot shown) as
    an inductive step relation, [Step]; HubWalk, HubWalkMotion and HubWalkAll prove that every function of the
    hub, from sending a frame to the application's calls, is a sequence of such steps.  [Quiet] adds what a live
    change of the catalog does besides, [Turn] the reading of a frame, which only a tick does, and a [Move] is
    any of these ([life_moves], [life_keeps]).  The theorems about a whole life of
    a hub are then inductions on them: HubLatch (the ESTOP latch, ESTOP frames, the snapshot), HubGates (owners are
    active sessions; what an intent and a bundle are entitled to, in the hub as it is when the delegate is
    called), with HubLiveness on single functions;
    HubWithdraw and HubRevoke say what a live change of the catalog finds, leaves alone and takes back.
    HubBench is a concrete environment on which whole lives are run inside the kernel.

    The client is treated alike: ClientSteps is its step relation, ClientWalk the proof that every function is a
    sequence of steps, ClientLife the theorems about whole lives by induction on them, where the key, the nonce
    and the ids of a session are followed from where they come from ([sourced]); ClientCatalog, ClientEstop
    and ClientSends are on single functions, ClientBench is its concrete environment.  Its calls are those of
    [ClientWorld]: transport, clock, delegate, generator, verifier, allocator.  Assumed of them: a delegate does
    not call back, the allocator answers by the size asked for, and [_catalogReqSentCount] does not wrap.

    ** What the theorems show

    Safety of control: [intents_are_applied_by_right], [bundles_are_delivered_by_right],
    [owners_are_active_sessions], [estop_latch_is_what_the_delegate_was_told], [wire_estops_are_heard],
    [safety_snapshot_is_current],
    [deadman_takes_control_away], [stalled_link_is_parked], [trials_end], [ownership_refines],
    [live_change_takes_back].
    The client: [intents_only_when_live_and_genuine] and [verdicts_are_the_verifiers] (to whom it sends control,
    whom it believes), [session_follows_its_machine], [client_stays_well_formed], [catalog_reaches_the_client] in
    any order of the chunks, [estop_repeats_then_fails], [connect_says_hello], [intent_outcome];
    [edits_refine_the_list], [blob_roundtrip], [join_order_obeys_the_rule], [table_keeps_the_best] for the
    networks, [validUtf8_exact] for the check of names.
    Trust: [authority_needs_grant], [pin_three_strikes], [ledger_refines], [ledger_roundtrip].
    The wire: the profile is exactly what the reader accepts ([skipValue_exact]) and the writer produces
    ([writer_exact]); messages survive the wire; fragments, blobs, bundles and COBS frames are put together
    again in any order the link allows; the ESTOP scanner misses nothing; a discovery datagram is taken only
    when it is the encoding of what is read from it ([discovery_exact]); a store item is verified by its digest
    ([store_item_verified]).
    The catalog: [encodeCatalog_exact], [catalog_roundtrip], [etag_is_of_content], and [decoded_catalog_typed] for
    bytes no encoder wrote.
    Flow: grants are met and never exceeded ([pace_met], [pace_ceiling]), queues drop the oldest and count
    it, a device's shadow follows the hub's state under loss and reordering; the in-process link keeps what its
    properties promise ([link_keeps_its_promises], [link_delivers_everything]).
    Faults of the code, each shown by a theorem or described in the manifest's findings: a session whose
    WELCOME could not be written escapes the deadman; a safety operation is compared in 64 bits and latched in
    8; an expired pairing window reads as open again after 2^31 ms; an integer beyond int64 changes sign; the
    last repeat of a client's ESTOP gets no interval; a signature asked for in mid-session is verified over a
    stale nonce, and a grant nobody asked for pins its sender's key; an entry of the ledger that is imported
    twice is revoked once; a stray catalog snapshot hides the refusal of a catalog
    the client cannot hold; an in-process link with a large MTU delivers an oversized frame empty.

    ** Bounds and fuel

    Loops over arrays and spans are structural recursion on lists. Where the C++ loops on a condition, fuel is a
    bound the proofs show to be enough: the reader's value skipping has one level per depth of the profile (5),
    folds over CBOR maps one turn per unread byte, the UTF-8 check one per byte, the search for a free network
    id one per value of the byte, the join order one per saved network, [endSessionTrials] one turn per entry
    and one more ([trials_end]), the signing loop one turn per slot and one more. [pumpSlot] takes the number of
    frames it may read in one turn, which the code leaves to the transport; so does the client's [update]. [do
    ... while (v == 0)] on the random generator recurses on accessibility ([FairRandom]). Integers are Z with
    the wrap of their width written out (u8, u16, u32, u64); floats on the wire are their bit patterns.

    ** Not modelled

    - wire/packed/layout_codec.hpp: a codec for tooling, which rounds products of floats with the platform's
      [lround]; neither the hub nor the client calls it.
    - conformance/: a checker over finished catalogs and its fixture, run by the conformance tool and the tests.
    - the functions of channel/*_channel.hpp that add the core channels to a catalog: sequences of calls of the
      modelled authoring operations.  The payloads and constants of those files that the hub and the client use
      are modelled with them.
    - core/allocator.hpp and the platform's clocks: interfaces; the model's functions take what they answer.
    - transport bindings of the devices, hub/bench, tests, tools and the clients in other languages: outside the
      library, or code that only drives it.
    - the generated constants are modelled where a model uses them; small getters of [Hub] and the test hook
      [regrantForTest] are not. *)

From Stdlib Require Import Strings.Byte.
From Stdlib Require Export ZArith Lia.
From stdpp Require Export base tactics list numbers option.
Abbreviation byte := Corelib.Init.Byte.byte.

#[global] Open Scope Z_scope.

(** ** Result and decode errors (core/result.hpp) *)

Inductive DecodeError :=
  | Truncated | Malformed | ProfileViolation | DepthExceeded
  | BadCrc | UnknownVersion | CapacityExceeded.

Inductive Result (A E : Type) :=
  | ok (v : A)
  | err (e : E).
Arguments ok {A E} v.
Arguments err {A E} e.

Abbreviation decoded A := (Result A DecodeError).

Definition isOk {A E} (r : Result A E) : bool :=
  match r with ok _ => true | err _ => false end.

Definition valueOr {A E} (r : Result A E) (fallback : A) : A :=
  match r with ok v => v | err _ => fallback end.

Definition result_bind {A B E} (r : Result A E) (k : A -> Result B E) : Result B E :=
  match r with ok v => k v | err e => err e end.

Declare Scope valence_scope.
Delimit Scope valence_scope with valence.
Notation "'let?' p ':=' r 'in' k" := (result_bind r (fun p => k))
  (at level 10, p pattern, r at level 100, k at level 200) : valence_scope.
#[global] Open Scope valence_scope.

#[export] Instance DecodeError_eq_dec : EqDecision DecodeError.
Proof. solve_decision. Defined.

#[export] Instance Result_eq_dec {A E} `{EqDecision A, EqDecision E} : EqDecision (Result A E).
Proof. solve_decision. Defined.

(** ** Machine integers: a [w]-bit unsigned integer is a [Z] reduced mod 2^w *)

Definition wrap (w z : Z) : Z := z mod 2 ^ w.

Abbreviation u8 := (wrap 8).
Abbreviation u16 := (wrap 16).
Abbreviation u32 := (wrap 32).
Abbreviation u64 := (wrap 64).

(** The two's-complement reading of the low [w] bits ([int8_t(x)], [int32_t(x)]). *)
Definition swrap (w z : Z) : Z := (z + 2 ^ (w - 1)) mod 2 ^ w - 2 ^ (w - 1).

Abbreviation i8 := (swrap 8).
Abbreviation i16 := (swrap 16).
Abbreviation i32 := (swrap 32).
Abbreviation i64 := (swrap 64).

Definition in_u (w z : Z) : Prop := 0 <= z < 2 ^ w.

#[export] Instance in_u_dec w z : Decision (in_u w z).
Proof. unfold in_u. apply _. Defined.

(** ** Bytes *)

Definition b2z (b : byte) : Z := Z.of_N (Byte.to_N b).

Definition z2b (z : Z) : byte :=
  match Byte.of_N (Z.to_N (z mod 256)) with Some b => b | None => Byte.x00 end.

#[export] Instance byte_eq_dec : EqDecision byte.
Proof. intros x y. destruct (Byte.eqb x y) eqn:E.
  - left. by apply Byte.byte_dec_bl.
  - right. intros ->. by rewrite Byte.byte_dec_lb in E.
Defined.

Definition byte_eqb (x y : byte) : bool := bool_decide (x = y).

(** ** Spans: a destination span is the list of its current bytes *)

(** [memcpy(out + off, bs, |bs|)]; the callers check [off + |bs| <= |out|] first. *)
Definition splice (off : nat) (bs out : list byte) : list byte :=
  take off out ++ bs ++ drop (off + length bs) out.

(** A writer over a sub-span [out.subspan(k)] of a larger one. *)
Definition on_subspan (k : nat) (put : list byte -> list byte * nat) (out : list byte)
  : list byte * nat :=
  let '(o, n) := put (drop k out) in (take k out ++ o, n).

(** The bytes an encoder leaves in a buffer of [cap] bytes. *)
Definition encoded (cap : nat) (encode : list byte -> list byte * nat) : list byte :=
  let '(o, n) := encode (replicate cap Byte.x00) in take n o.

Definition blank {A} (l : list A) : bool := match l with [] => true | _ => false end.

(** [out.subspan(k, n)] for reading. *)
Definition subspan {A} (k n : nat) (l : list A) : list A := take n (drop k l).

(** Little- and big-endian byte strings of [n] bytes (reference forms). *)
Fixpoint le_bytes (n : nat) (v : Z) : list byte :=
  match n with O => [] | S n' => z2b v :: le_bytes n' (v / 256) end.

Fixpoint of_le (l : list byte) : Z :=
  match l with [] => 0 | b :: t => b2z b + 256 * of_le t end.

Definition be_bytes (n : nat) (v : Z) : list byte := rev (le_bytes n v).

Definition of_be (l : list byte) : Z := of_le (rev l).

(** ** Lemmas: integers *)

Lemma b2z_range b : 0 <= b2z b < 256.
Proof.
  unfold b2z. pose proof (Byte.to_N_bounded b). lia.
Qed.

Lemma b2z_z2b z : b2z (z2b z) = z mod 256.
Proof.
  unfold b2z, z2b. pose proof (Z.mod_pos_bound z 256 eq_refl) as Hb.
  destruct (Byte.of_N _) eqn:E.
  - apply Byte.to_of_N in E. rewrite E. lia.
  - apply Byte.of_N_None_iff in E. lia.
Qed.

Lemma z2b_b2z b : z2b (b2z b) = b.
Proof.
  unfold z2b. pose proof (b2z_range b). rewrite Z.mod_small by lia.
  unfold b2z. rewrite N2Z.id. by rewrite Byte.of_to_N.
Qed.

#[export] Instance b2z_inj : Inj (=) (=) b2z.
Proof. intros x y H. rewrite <- (z2b_b2z x), <- (z2b_b2z y). by rewrite H. Qed.

Lemma b2z_z2b_small z : 0 <= z < 256 -> b2z (z2b z) = z.
Proof. intros. rewrite b2z_z2b. by apply Z.mod_small. Qed.

Lemma z2b_eq x y : x mod 256 = y mod 256 -> z2b x = z2b y.
Proof. intros H. apply b2z_inj. by rewrite !b2z_z2b. Qed.

Lemma z2b_mod z : z2b (z mod 256) = z2b z.
Proof. apply z2b_eq. by rewrite Z.mod_mod by lia. Qed.

Lemma wrap_small w z : in_u w z -> wrap w z = z.
Proof. apply Z.mod_small. Qed.

Lemma wrap_range w z : 0 <= w -> in_u w (wrap w z).
Proof. intros. apply Z.mod_pos_bound. by apply Z.pow_pos_nonneg. Qed.

Lemma wrap_wrap w z : wrap w (wrap w z) = wrap w z.
Proof. unfold wrap. apply Zmod_mod. Qed.

Lemma shiftr8 v : Z.shiftr v 8 = v / 256.
Proof. by rewrite Z.shiftr_div_pow2. Qed.

Lemma testbit_high w z i : in_u w z -> w <= i -> 0 <= w -> Z.testbit z i = false.
Proof.
  intros Hz Hi Hw. rewrite <- (Z.mod_small z (2 ^ w)) by exact Hz. by apply Z.mod_pow2_bits_high.
Qed.

Lemma lor_range w a b : 0 <= w -> in_u w a -> in_u w b -> in_u w (Z.lor a b).
Proof.
  intros Hw Ha Hb. unfold in_u. replace (Z.lor a b) with (Z.lor a b mod 2 ^ w).
  - apply Z.mod_pos_bound. by apply Z.pow_pos_nonneg.
  - apply Z.bits_inj'. intros i Hi. destruct (Z.lt_ge_cases i w).
    + by rewrite Z.mod_pow2_bits_low by done.
    + rewrite Z.mod_pow2_bits_high, Z.lor_spec by done.
      rewrite !(testbit_high w) by done. done.
Qed.

Lemma lxor_range w a b : 0 <= w -> in_u w a -> in_u w b -> in_u w (Z.lxor a b).
Proof.
  intros Hw Ha Hb. unfold in_u. replace (Z.lxor a b) with (Z.lxor a b mod 2 ^ w).
  - apply Z.mod_pos_bound. by apply Z.pow_pos_nonneg.
  - apply Z.bits_inj'. intros i Hi. destruct (Z.lt_ge_cases i w).
    + by rewrite Z.mod_pow2_bits_low by done.
    + rewrite Z.mod_pow2_bits_high, Z.lxor_spec by done. by rewrite !(testbit_high w) by done.
Qed.

Lemma bit_range w i : 0 <= i < w -> in_u w (2 ^ i).
Proof. intros Hi. split; [lia|]. apply Z.pow_lt_mono_r; lia. Qed.

Lemma u32_bit i : 0 <= i < 32 -> u32 (Z.shiftl 1 i) = 2 ^ i.
Proof. intros Hi. rewrite Z.shiftl_1_l. apply wrap_small. by apply bit_range. Qed.

Lemma land_bit m i : 0 <= i -> (Z.land m (2 ^ i) =? 0) = negb (Z.testbit m i).
Proof.
  intros Hi. destruct (Z.testbit m i) eqn:E; cbn.
  - apply Z.eqb_neq. intros H0. assert (Z.testbit (Z.land m (2 ^ i)) i = true) as Ht.
    { rewrite Z.land_spec, E, Z.pow2_bits_eqb by lia. by rewrite Z.eqb_refl. }
    by rewrite H0, Z.bits_0 in Ht.
  - apply Z.eqb_eq, Z.bits_inj'. intros j Hj. rewrite Z.land_spec, Z.bits_0, Z.pow2_bits_eqb by lia.
    destruct (Z.eqb_spec i j) as [->|]; [by rewrite E|apply andb_false_r].
Qed.

(** Disjoint bit fields: or-ing in a shifted field is addition. *)
Lemma lor_shiftl_add a b n : 0 <= n -> 0 <= a < 2 ^ n -> Z.lor a (Z.shiftl b n) = a + b * 2 ^ n.
Proof.
  intros Hn Ha. pose proof (Z.add_lor_land a (Z.shiftl b n)) as Hadd.
  assert (Z.land a (Z.shiftl b n) = 0) as Hland.
  { apply Z.bits_inj'. intros i Hi. rewrite Z.land_spec, Z.bits_0.
    destruct (Z.lt_ge_cases i n).
    - rewrite (Z.shiftl_spec_low b) by lia. by rewrite andb_false_r.
    - rewrite <- (Z.mod_small a (2 ^ n)) by done. rewrite Z.mod_pow2_bits_high by lia. done. }
  rewrite Z.shiftl_mul_pow2 in * by lia. lia.
Qed.

Lemma shiftl_lor_add a b n : 0 <= n -> 0 <= a < 2 ^ n -> Z.lor (Z.shiftl b n) a = b * 2 ^ n + a.
Proof. intros. rewrite Z.lor_comm, lor_shiftl_add by done. lia. Qed.

Lemma swrap_range w z : 0 < w -> - 2 ^ (w - 1) <= swrap w z < 2 ^ (w - 1).
Proof.
  intros Hw. unfold swrap.
  replace (2 ^ w) with (2 * 2 ^ (w - 1)) by (rewrite <- Z.pow_succ_r by lia; f_equal; lia).
  pose proof (Z.pow_pos_nonneg 2 (w - 1) ltac:(lia) ltac:(lia)).
  pose proof (Z.mod_pos_bound (z + 2 ^ (w - 1)) (2 * 2 ^ (w - 1)) ltac:(lia)). lia.
Qed.

Lemma swrap_small w z : 0 < w -> - 2 ^ (w - 1) <= z < 2 ^ (w - 1) -> swrap w z = z.
Proof.
  intros Hw Hz. unfold swrap.
  replace (2 ^ w) with (2 * 2 ^ (w - 1)) by (rewrite <- Z.pow_succ_r by lia; f_equal; lia).
  rewrite Z.mod_small by lia. lia.
Qed.

Lemma swrap_wrap w z : swrap w (wrap w z) = swrap w z.
Proof. unfold swrap, wrap. by rewrite Zplus_mod_idemp_l. Qed.

(** ** Lemmas: byte strings *)

Lemma length_le_bytes n v : length (le_bytes n v) = n.
Proof. revert v. induction n; intros; simpl; auto. Qed.

Lemma of_le_bytes n v : of_le (le_bytes n v) = v mod 256 ^ Z.of_nat n.
Proof.
  revert v. induction n as [|n IH]; intros v; cbn [le_bytes of_le].
  - by rewrite Z.mod_1_r.
  - rewrite IH, b2z_z2b, Nat2Z.inj_succ, Z.pow_succ_r by lia.
    rewrite Z.rem_mul_r by lia. lia.
Qed.

Lemma of_le_range l : 0 <= of_le l < 256 ^ Z.of_nat (length l).
Proof.
  induction l as [|b l IH]; cbn [of_le length]; [lia|].
  rewrite Nat2Z.inj_succ, Z.pow_succ_r by lia. pose proof (b2z_range b). lia.
Qed.

Lemma le_bytes_of_le l : le_bytes (length l) (of_le l) = l.
Proof.
  induction l as [|b l IH]; cbn [of_le length le_bytes]; [done|]. pose proof (b2z_range b).
  f_equal.
  - rewrite <- (z2b_b2z b) at 2. apply z2b_eq. rewrite Z.mul_comm, Z.mod_add by lia. done.
  - rewrite Z.mul_comm, Z.div_add by lia. rewrite Z.div_small by lia. done.
Qed.

Lemma le_bytes_of_le_take n l : (n <= length l)%nat -> le_bytes n (of_le (take n l)) = take n l.
Proof.
  intros H. rewrite <- (le_bytes_of_le (take n l)) at 2. f_equal. rewrite length_take. lia.
Qed.

Lemma le_bytes_mod n v : le_bytes n (v mod 256 ^ Z.of_nat n) = le_bytes n v.
Proof.
  rewrite <- (of_le_bytes n v). rewrite <- (length_le_bytes n v) at 1. apply le_bytes_of_le.
Qed.

Lemma length_be_bytes n v : length (be_bytes n v) = n.
Proof. unfold be_bytes. by rewrite length_rev, length_le_bytes. Qed.

Lemma of_be_bytes n v : of_be (be_bytes n v) = v mod 256 ^ Z.of_nat n.
Proof. unfold of_be, be_bytes. by rewrite rev_involutive, of_le_bytes. Qed.

Lemma be_bytes_of_be l : be_bytes (length l) (of_be l) = l.
Proof.
  unfold of_be, be_bytes. rewrite <- (length_rev l), le_bytes_of_le. apply rev_involutive.
Qed.

Lemma of_be_range l : 0 <= of_be l < 256 ^ Z.of_nat (length l).
Proof. unfold of_be. rewrite <- (length_rev l). apply of_le_range. Qed.

(** ** Lemmas: spans *)

Lemma length_splice off bs out :
  (off + length bs <= length out)%nat -> length (splice off bs out) = length out.
Proof. intros. unfold splice. rewrite !length_app, length_take, length_drop. lia. Qed.

Lemma take_splice off bs out :
  (off + length bs <= length out)%nat -> take (off + length bs) (splice off bs out) = take off out ++ bs.
Proof.
  intros. unfold splice. rewrite app_assoc. apply take_app_length'.
  rewrite length_app, length_take. lia.
Qed.

Lemma drop_splice off bs out :
  (off + length bs <= length out)%nat ->
  drop (off + length bs) (splice off bs out) = drop (off + length bs) out.
Proof.
  intros. unfold splice. rewrite app_assoc. apply drop_app_length'.
  rewrite length_app, length_take. lia.
Qed.

Lemma take_splice_before k off bs out :
  (k <= off)%nat -> (off <= length out)%nat -> take k (splice off bs out) = take k out.
Proof.
  intros. unfold splice. rewrite take_app_le by (rewrite length_take; lia).
  rewrite take_take. f_equal. lia.
Qed.

Lemma subspan_splice off bs out :
  (off + length bs <= length out)%nat -> subspan off (length bs) (splice off bs out) = bs.
Proof.
  intros. unfold subspan, splice.
  rewrite drop_app_length' by (rewrite length_take; lia).
  by rewrite take_app_length.
Qed.

Lemma length_subspan {A} k n (l : list A) : length (subspan k n l) = (n `min` (length l - k))%nat.
Proof. unfold subspan. rewrite length_take, length_drop. lia. Qed.

Lemma splice_0 bs out : splice 0 bs out = bs ++ drop (length bs) out.
Proof. done. Qed.

Lemma byte_eqb_spec x y : reflect (x = y) (byte_eqb x y).
Proof. unfold byte_eqb. destruct (bool_decide_reflect (x = y)); by constructor. Qed.

Lemma byte_eqb_eq x y : byte_eqb x y = true <-> x = y.
Proof. destruct (byte_eqb_spec x y); naive_solver. Qed.

(** ** Automation *)

Create HintDb valence.
Create Rewrite HintDb valence.
Create Rewrite HintDb lens.
#[export] Hint Resolve b2z_range wrap_range of_le_range of_be_range : valence.
#[export] Hint Rewrite b2z_z2b z2b_b2z wrap_wrap length_le_bytes length_be_bytes shiftr8 : valence.
#[export] Hint Rewrite @length_app @length_take @length_drop @length_replicate @length_insert
  @length_rev @length_fmap @length_subspan : lens.

(** [expose_cells l n]: a list known to have at least [n] cells is written [x0 :: ... :: l]. *)
Ltac expose_cells l n :=
  lazymatch n with
  | O => idtac
  | S ?m =>
      let x := fresh "x" in
      destruct l as [|x l]; [exfalso; cbn [length] in *; lia | expose_cells l m]
  end.

(** Case analysis on the test of the innermost [if]/[match] of the goal, closing absurd cases. *)
Ltac split_test :=
  match goal with
  | |- context [if ?b then _ else _] => let E := fresh "E" in destruct b eqn:E
  end.

(** [lia] with divisions and remainders by constants turned into equations. *)
Ltac dlia := Z.to_euclidean_division_equations; lia.

Ltac znat := repeat rewrite ?Nat2Z.inj_add, ?Nat2Z.inj_mul, ?Nat2Z.inj_succ in *; lia.

(** ** Records: functional update of a field

    A record of the model declares how it is rebuilt from its fields ([Fields]); each field that the code
    assigns is then an instance of [Field], found by the projection's name. *)

Class Fields (R : Type) := rebuild : R -> R.

Class Field {R E : Type} (proj : R -> E) := update_field : (E -> E) -> R -> R.

Ltac field_setter :=
  lazymatch goal with
  | |- @Field ?R ?E ?p =>
      let inst := constr:(_ : Fields R) in
      let i := match inst with ?i => i end in
      let body := eval cbv beta delta [i rebuild] in (fun r : R => @rebuild R i r) in
      lazymatch body with
      | (fun r => @?b r) =>
          let k := constr:(fun (f : E -> E) (r : R) =>
            ltac:(let t := eval cbv beta in (b r) in
                  lazymatch eval pattern (p r) in t with
                  | ?g _ => let u := eval cbv beta in (g (f (p r))) in exact u
                  end)) in
          exact k
      end
  end.

Declare Scope record_scope.
Notation "r <| p := v |>" := (update_field (proj := p) (fun _ => v) r)
  (at level 1, left associativity, p at level 0, v at level 200, format "r <| p  :=  v |>") : record_scope.
Notation "r <| p ::= f |>" := (update_field (proj := p) f r)
  (at level 1, left associativity, p at level 0, f at level 200, format "r <| p  ::=  f |>") : record_scope.
#[global] Open Scope record_scope.
