(* ===== verification/ByteIO.v ===== *)
(** * ByteIO: the little-endian span primitives of util/byte_io.hpp

    Every codec of the library reads and writes through these functions; a
    destination span is a [list byte], a writer returns the updated span and the
    number of bytes written (0 when the span is too small).  A [float] is carried by
    its 32-bit pattern, which is what [putF32]/[getF32] move. *)

From S2P Require Import Prelude.

Definition putU8 (out : list byte) (v : Z) : list byte * nat :=
  if (length out <? 1)%nat then (out, 0%nat)
  else (<[0%nat := z2b v]> out, 1%nat).

Definition putU16 (out : list byte) (v : Z) : list byte * nat :=
  if (length out <? 2)%nat then (out, 0%nat)
  else (<[1%nat := z2b (Z.shiftr v 8)]> (<[0%nat := z2b v]> out), 2%nat).

Definition putU32 (out : list byte) (v : Z) : list byte * nat :=
  if (length out <? 4)%nat then (out, 0%nat)
  else (foldl (fun o i => <[i := z2b (Z.shiftr v (8 * Z.of_nat i))]> o) out (seq 0 4), 4%nat).

Definition putF32 (out : list byte) (bits : Z) : list byte * nat := putU32 out bits.

(** The readers' precondition is that [bs] holds the bytes they read. *)
Definition at_ (bs : list byte) (i : nat) : Z := b2z (nth i bs Byte.x00).

Definition getU8 (bs : list byte) : Z := at_ bs 0.

Definition getU16 (bs : list byte) : Z := u16 (Z.lor (at_ bs 0) (Z.shiftl (at_ bs 1) 8)).

Definition getU32 (bs : list byte) : Z :=
  foldl (fun v i => Z.lor v (u32 (Z.shiftl (at_ bs i) (8 * Z.of_nat i)))) 0 (seq 0 4).

Definition getF32 (bs : list byte) : Z := getU32 bs.

#[global] Arguments putU32 : simpl never.
#[global] Arguments getU32 : simpl never.
#[global] Arguments getU16 : simpl never.
#[global] Arguments getU8 : simpl never.

(** ** Reference forms *)

Lemma putU8_spec out v :
  (1 <= length out)%nat -> putU8 out v = (le_bytes 1 v ++ drop 1 out, 1%nat).
Proof. intros. by expose_cells out 1%nat. Qed.

Lemma putU16_spec out v :
  (2 <= length out)%nat -> putU16 out v = (le_bytes 2 v ++ drop 2 out, 2%nat).
Proof.
  intros. expose_cells out 2%nat. unfold putU16. simpl. by rewrite shiftr8.
Qed.

Lemma putU32_spec out v :
  (4 <= length out)%nat -> putU32 out v = (le_bytes 4 v ++ drop 4 out, 4%nat).
Proof.
  intros. expose_cells out 4%nat. unfold putU32. cbn [length Nat.ltb Nat.leb seq foldl list_insert insert app skipn le_bytes].
  rewrite !Z.shiftr_div_pow2 by lia. rewrite !Z.div_div by lia. rewrite Z.div_1_r. done.
Qed.

Lemma putU8_short out v : (length out < 1)%nat -> putU8 out v = (out, 0%nat).
Proof. intros. unfold putU8. by rewrite (proj2 (Nat.ltb_lt _ _)). Qed.

Lemma putU16_short out v : (length out < 2)%nat -> putU16 out v = (out, 0%nat).
Proof. intros. unfold putU16. by rewrite (proj2 (Nat.ltb_lt _ _)). Qed.

Lemma putU32_short out v : (length out < 4)%nat -> putU32 out v = (out, 0%nat).
Proof. intros. unfold putU32. by rewrite (proj2 (Nat.ltb_lt _ _)). Qed.

(** Writing a field of [w] bytes at offset [k] of a larger span. *)
Lemma on_subspan_put (k w : nat) put (out bs : list byte) :
  (forall o, (w <= length o)%nat -> put o = (bs ++ drop w o, w)) ->
  (k + w <= length out)%nat ->
  on_subspan k put out = (take k out ++ bs ++ drop (k + w) out, w).
Proof.
  intros Hput Hlen. unfold on_subspan.
  rewrite Hput by (rewrite length_drop; lia). by rewrite drop_drop, ?(Nat.add_comm w k).
Qed.

Lemma on_subspan_putU32 k out v :
  (k + 4 <= length out)%nat ->
  on_subspan k (fun o => putU32 o v) out = (take k out ++ le_bytes 4 v ++ drop (k + 4) out, 4%nat).
Proof. intros. apply on_subspan_put; [|done]. intros. by apply putU32_spec. Qed.

Lemma on_subspan_putU16 k out v :
  (k + 2 <= length out)%nat ->
  on_subspan k (fun o => putU16 o v) out = (take k out ++ le_bytes 2 v ++ drop (k + 2) out, 2%nat).
Proof. intros. apply on_subspan_put; [|done]. intros. by apply putU16_spec. Qed.

Lemma on_subspan_putU8 k out v :
  (k + 1 <= length out)%nat ->
  on_subspan k (fun o => putU8 o v) out = (take k out ++ le_bytes 1 v ++ drop (k + 1) out, 1%nat).
Proof. intros. apply on_subspan_put; [|done]. intros. by apply putU8_spec. Qed.

Lemma getU8_spec bs : (1 <= length bs)%nat -> getU8 bs = of_le (take 1 bs).
Proof. intros. expose_cells bs 1%nat. unfold getU8, at_. simpl. lia. Qed.

Lemma getU16_spec bs : (2 <= length bs)%nat -> getU16 bs = of_le (take 2 bs).
Proof.
  intros. expose_cells bs 2%nat. unfold getU16, at_. simpl.
  pose proof (b2z_range x). pose proof (b2z_range x0).
  rewrite lor_shiftl_add by lia. rewrite wrap_small; [lia|]. unfold in_u. lia.
Qed.

Lemma getU32_spec bs : (4 <= length bs)%nat -> getU32 bs = of_le (take 4 bs).
Proof.
  intros. expose_cells bs 4%nat. unfold getU32, at_. simpl take; cbn [of_le nth seq foldl].
  pose proof (b2z_range x). pose proof (b2z_range x0).
  pose proof (b2z_range x1). pose proof (b2z_range x2).
  change (8 * Z.of_nat 0) with 0. change (8 * Z.of_nat 1) with 8.
  change (8 * Z.of_nat 2) with 16. change (8 * Z.of_nat 3) with 24.
  rewrite Z.lor_0_l, Z.shiftl_0_r.
  rewrite !(wrap_small 32) by (unfold in_u; rewrite ?Z.shiftl_mul_pow2 by lia; nia).
  rewrite (lor_shiftl_add (b2z x)), (lor_shiftl_add (_ + _)), (lor_shiftl_add (_ + _)) by lia.
  change (take 0 bs) with (@nil byte). cbn [of_le]. lia.
Qed.

Lemma getU8_bytes v rest : getU8 (le_bytes 1 v ++ rest) = u8 v.
Proof. rewrite getU8_spec by (simpl; lia). simpl. rewrite b2z_z2b. unfold wrap. change (2 ^ 8) with 256. dlia. Qed.

Lemma getU16_bytes v rest : getU16 (le_bytes 2 v ++ rest) = u16 v.
Proof.
  rewrite getU16_spec by (simpl; lia).
  rewrite take_app_length'; [apply of_le_bytes | by rewrite length_le_bytes].
Qed.

Lemma getU32_bytes v rest : getU32 (le_bytes 4 v ++ rest) = u32 v.
Proof.
  rewrite getU32_spec by (simpl; lia).
  rewrite take_app_length'; [apply of_le_bytes | by rewrite length_le_bytes].
Qed.

(** The same, with the field's bytes exposed as cells. *)
Lemma getU8_cells v rest : getU8 (z2b v :: rest) = u8 v.
Proof. apply (getU8_bytes v rest). Qed.

Lemma getU16_cells v rest : getU16 (z2b v :: z2b (v / 256) :: rest) = u16 v.
Proof. apply (getU16_bytes v rest). Qed.

Lemma getU32_cells v rest :
  getU32 (z2b v :: z2b (v / 256) :: z2b (v / 256 / 256) :: z2b (v / 256 / 256 / 256) :: rest) = u32 v.
Proof. apply (getU32_bytes v rest). Qed.

Create Rewrite HintDb wire.
#[export] Hint Rewrite getU8_cells getU16_cells getU32_cells : wire.

(** Reads of fields laid out by [le_bytes]: expose the cells, then drop the width. *)
Ltac read_fields :=
  cbn [app le_bytes]; simpl drop; autorewrite with wire;
  repeat (rewrite wrap_small by assumption).

(** Writes of fields at fixed offsets of a span known to be long enough. *)
Ltac span_fits := repeat progress rewrite ?length_app, ?length_le_bytes, ?length_take, ?length_drop; lia.

(** The innermost write first. *)
Ltac write_fields :=
  repeat (match goal with
          | |- context [on_subspan ?k _ ?o] =>
              lazymatch o with context [on_subspan] => fail | _ => idtac end;
              first [rewrite (on_subspan_putU32 k o) by span_fits | rewrite (on_subspan_putU16 k o) by span_fits
                    | rewrite (on_subspan_putU8 k o) by span_fits]
          end; cbn [fst]).

Lemma getU8_range bs : in_u 8 (getU8 bs).
Proof. unfold getU8, at_, in_u. pose proof (b2z_range (nth 0 bs Byte.x00)). lia. Qed.

Lemma getU16_range bs : in_u 16 (getU16 bs).
Proof. by apply wrap_range. Qed.

Lemma getU32_range bs : (4 <= length bs)%nat -> in_u 32 (getU32 bs).
Proof.
  intros. rewrite getU32_spec by done. pose proof (of_le_range (take 4 bs)) as Hr.
  rewrite length_take in Hr. replace (4 `min` length bs)%nat with 4%nat in Hr by lia. apply Hr.
Qed.

#[export] Hint Resolve getU8_range getU16_range getU32_range : valence.

(** ** Properties *)

(**  Every integer written by a [put] primitive is read back by the matching [get]
    primitive modulo its width, whatever follows it in the span; the bytes after the
    field are untouched; and a span too small for the field is left as it was with 0
    reported. *)
Theorem put_get_roundtrip (out : list byte) (v : Z) :
  (let '(o, n) := putU8 out v in
   if (1 <=? length out)%nat then n = 1%nat /\ getU8 o = u8 v /\ drop 1 o = drop 1 out
   else n = 0%nat /\ o = out)
  /\ (let '(o, n) := putU16 out v in
      if (2 <=? length out)%nat then n = 2%nat /\ getU16 o = u16 v /\ drop 2 o = drop 2 out
      else n = 0%nat /\ o = out)
  /\ (let '(o, n) := putU32 out v in
      if (4 <=? length out)%nat then n = 4%nat /\ getU32 o = u32 v /\ drop 4 o = drop 4 out
      else n = 0%nat /\ o = out).
Proof.
  repeat split.
  - destruct (Nat.leb_spec 1 (length out)).
    + rewrite putU8_spec, getU8_bytes by done. done.
    + by rewrite putU8_short by lia.
  - destruct (Nat.leb_spec 2 (length out)).
    + rewrite putU16_spec, getU16_bytes by done. done.
    + by rewrite putU16_short by lia.
  - destruct (Nat.leb_spec 4 (length out)).
    + rewrite putU32_spec, getU32_bytes by done. done.
    + by rewrite putU32_short by lia.
Qed.
