(* ===== verification/SerialArith.v ===== *)
(** * SerialArith: wrap-around comparison of util/serial_arithmetic.hpp *)

From S2P Require Import Prelude.

Definition seqIsNewer (a b : Z) : bool :=
  let d := u16 (a - b) in negb (d =? 0) && (d <? 0x8000).

Definition timeDelta (t reference : Z) : Z := i32 (u32 (t - reference)).

Definition timeReached (now deadline : Z) : bool := 0 <=? timeDelta now deadline.

(** The [MonotonicMs] class: [advance] returns the new state and the returned count. *)
Record MonotonicMs := mkMonotonicMs {
  mm_lastUs : Z; mm_ms : Z; mm_rem : Z; mm_init : bool }.

Definition MonotonicMs_new : MonotonicMs := mkMonotonicMs 0 0 0 false.

Definition advance (m : MonotonicMs) (nowUs : Z) : MonotonicMs * Z :=
  if negb (mm_init m) then
    let ms := nowUs / 1000 in
    (mkMonotonicMs nowUs ms (u16 (nowUs mod 1000)) true, ms)
  else
    let total := u32 (u32 (nowUs - mm_lastUs m) + mm_rem m) in
    let ms := u32 (mm_ms m + total / 1000) in
    (mkMonotonicMs nowUs ms (u16 (total mod 1000)) true, ms).

(** A run of [advance] calls at the listed (unwrapped) times; the clock it reads is the
    low 32 bits. Returns the last count. *)
Fixpoint advance_run (m : MonotonicMs) (ms : Z) (ts : list Z) : Z :=
  match ts with
  | [] => ms
  | t :: ts' => let '(m', ms') := advance m (u32 t) in advance_run m' ms' ts'
  end.

(** Consecutive samples of an unwrapped clock, each at most [gap] after the one before. *)
Fixpoint samples_within (gap t : Z) (ts : list Z) : Prop :=
  match ts with
  | [] => True
  | t' :: ts' => t <= t' <= t + gap /\ samples_within gap t' ts'
  end.

(** ** Lemmas *)

Lemma seqIsNewer_offset b k :
  0 <= k < 0x10000 -> seqIsNewer (u16 (b + k)) b = (0 <? k) && (k <? 0x8000).
Proof.
  intros Hk. unfold seqIsNewer, wrap. rewrite Zminus_mod_idemp_l.
  replace (b + k - b) with k by lia. rewrite Z.mod_small by lia. lia.
Qed.

Lemma timeDelta_offset t d :
  - 2 ^ 31 <= d < 2 ^ 31 -> timeDelta (u32 (t + d)) t = d.
Proof.
  intros Hd. unfold timeDelta. rewrite swrap_wrap. unfold wrap, swrap.
  change (32 - 1) with 31.
  replace ((t + d) mod 2 ^ 32 - t + 2 ^ 31) with ((t + d) mod 2 ^ 32 - (t - 2 ^ 31)) by lia.
  rewrite Zminus_mod_idemp_l. replace (t + d - (t - 2 ^ 31)) with (d + 2 ^ 31) by lia.
  rewrite Z.mod_small by lia. lia.
Qed.

Lemma timeDelta_wraps t u : timeDelta (u32 t) (u32 u) = timeDelta t u.
Proof.
  unfold timeDelta. f_equal. unfold wrap. by rewrite <- Zminus_mod.
Qed.

Lemma timeReached_elapsed start dur e :
  - 2 ^ 31 <= e - dur < 2 ^ 31 ->
  timeReached (u32 (start + e)) (u32 (start + dur)) = (dur <=? e).
Proof.
  intros H. unfold timeReached.
  replace (u32 (start + e)) with (u32 (u32 (start + dur) + (e - dur))).
  - rewrite timeDelta_offset by done. lia.
  - unfold wrap. rewrite Zplus_mod_idemp_l. f_equal. lia.
Qed.

Lemma last_irrelevant {A} (l : list A) x d d' : last (x :: l) d = last (x :: l) d'.
Proof. revert x. induction l as [|y l IH]; intros x; [done|]. apply (IH y). Qed.

Lemma last_shift {A} (x d : A) l : last (x :: l) d = last l x.
Proof. destruct l as [|y l]; [done|]. exact (last_irrelevant l y d x). Qed.

(** The invariant of [advance]: the exact elapsed microseconds since the first call. *)
Definition mm_tracks (m : MonotonicMs) (us clock : Z) : Prop :=
  mm_init m = true /\ mm_lastUs m = u32 clock /\ mm_ms m = u32 (us / 1000)
  /\ mm_rem m = us mod 1000.

Lemma advance_tracks m us clock d :
  mm_tracks m us clock -> 0 <= d <= 2 ^ 32 - 1000 ->
  exists m', advance m (u32 (clock + d)) = (m', u32 ((us + d) / 1000))
             /\ mm_tracks m' (us + d) (clock + d).
Proof.
  intros (Hi & Hl & Hm & Hr) Hd. unfold advance. rewrite Hi, Hl, Hm, Hr. cbn [negb].
  pose proof (Z.mod_pos_bound us 1000 ltac:(lia)) as Hb.
  assert (u32 (u32 (u32 (clock + d) - u32 clock) + us mod 1000) = d + us mod 1000) as ->.
  { unfold wrap. rewrite <- Zminus_mod. replace (clock + d - clock) with d by lia.
    rewrite Zplus_mod_idemp_l, Z.mod_small by lia. done. }
  assert ((us + d) / 1000 = us / 1000 + (d + us mod 1000) / 1000
          /\ (us + d) mod 1000 = (d + us mod 1000) mod 1000) as [Hq Hm'].
  { rewrite (Z_div_mod_eq_full us 1000) at 1 4.
    replace (1000 * (us / 1000) + us mod 1000 + d) with (d + us mod 1000 + us / 1000 * 1000) by lia.
    rewrite Z.div_add, Z.mod_add by lia. lia. }
  eexists. split.
  - f_equal. unfold wrap. rewrite Zplus_mod_idemp_l, Hq. done.
  - repeat split; cbn [mm_init mm_lastUs mm_ms mm_rem].
    + unfold wrap. rewrite Zplus_mod_idemp_l, Hq. done.
    + rewrite Hm'. apply wrap_small. unfold in_u.
      pose proof (Z.mod_pos_bound (d + us mod 1000) 1000). lia.
Qed.

Lemma advance_run_tracks ts : forall m ms us clock,
  mm_tracks m us clock -> ms = u32 (us / 1000) -> samples_within (2 ^ 32 - 1000) clock ts ->
  advance_run m ms ts = u32 ((us + (last ts clock - clock)) / 1000).
Proof.
  induction ts as [|t ts IH]; intros m ms us clock Ht Hms Hs; cbn [advance_run].
  - simpl. rewrite Hms. f_equal. f_equal. lia.
  - destruct Hs as [Ht1 Hs]. destruct (advance_tracks m us clock (t - clock) Ht) as (m' & E & Ht').
    { lia. }
    replace (clock + (t - clock)) with t in * by lia. rewrite E.
    rewrite (IH _ _ _ _ Ht' eq_refl Hs). f_equal. f_equal.
    destruct ts as [|t' ts]; [cbn [last]; lia|].
    change (last (t :: t' :: ts) clock) with (last (t' :: ts) clock).
    rewrite (last_irrelevant ts t' clock t). lia.
Qed.

(** Two offsets below 2^16 of the same base agree only when they are equal. *)
Lemma u16_offset_inj b j k :
  0 <= j < 0x10000 -> 0 <= k < 0x10000 -> u16 (b + j) = u16 (b + k) -> j = k.
Proof.
  intros Hj Hk E. unfold wrap in E.
  assert ((j - k) mod 2 ^ 16 = 0) as Hz.
  { replace (j - k) with (b + j - (b + k)) by lia. by rewrite Zminus_mod, E, Z.sub_diag. }
  apply Z.mod_divide in Hz as [q Hq]; nia.
Qed.

Lemma u16_offset_ex a b : in_u 16 a -> exists k, 0 <= k < 0x10000 /\ a = u16 (b + k).
Proof.
  intros Ha. exists (u16 (a - b)). split; [by apply (wrap_range 16)|].
  unfold wrap. rewrite Zplus_mod_idemp_r. replace (b + (a - b)) with a by lia.
  symmetry. by apply Z.mod_small.
Qed.

Lemma seqIsNewer_offset_rev b k :
  in_u 16 b -> 0 <= k < 0x10000 -> seqIsNewer b (u16 (b + k)) = (0x8000 <? k).
Proof.
  intros Hb Hk. unfold seqIsNewer, wrap. rewrite Zminus_mod_idemp_r.
  replace (b - (b + k)) with (- k) by lia.
  destruct (decide (k = 0)) as [->|]; [done|].
  rewrite Z.mod_opp_l_nz; rewrite ?Z.mod_small; lia.
Qed.

(** ** Properties *)

(**  [seqIsNewer] is the serial order of the 16-bit circle: [a] is newer than [b] exactly
    when [a] is [b] advanced by 1 to 2^15-1; it never holds both ways, and fails both ways
    only for equal or antipodal numbers. *)
Theorem seqIsNewer_serial_order (a b : Z) :
  in_u 16 a -> in_u 16 b ->
  (seqIsNewer a b = true <-> exists k, 0 < k < 0x8000 /\ a = u16 (b + k))
  /\ (seqIsNewer a b = true -> seqIsNewer b a = false)
  /\ (seqIsNewer a b = false /\ seqIsNewer b a = false <-> a = b \/ a = u16 (b + 0x8000)).
Proof.
  intros Ha Hb. destruct (u16_offset_ex a b Ha) as (k & Hk & ->).
  assert (b = u16 (b + 0)) as Hb0 by (rewrite Z.add_0_r; symmetry; by apply wrap_small).
  rewrite seqIsNewer_offset_rev, seqIsNewer_offset by done. split; [|split; [lia|]].
  - split; [intros H; exists k; split; [lia|done]|].
    intros (j & Hj & E). apply u16_offset_inj in E; lia.
  - split.
    + intros [H1 H2]. assert (k = 0 \/ k = 0x8000) as [-> | ->] by lia; [by left|by right].
    + intros [E | E]; [rewrite Hb0 in E at 2|]; apply u16_offset_inj in E; lia.
Qed.

Lemma seqIsNewer_serial_order_witness :
  seqIsNewer 0x0003 0xFFFE = true /\ seqIsNewer 0xFFFE 0x0003 = false.
Proof.
  destruct (seqIsNewer_serial_order 0x0003 0xFFFE) as (H1 & H2 & _).
  - split; reflexivity || discriminate.
  - split; reflexivity || discriminate.
  - split; [reflexivity|]. apply H2. reflexivity.
Defined.

(**  A deadline [dur] after [start] is reported reached exactly when the elapsed time is
    at least [dur], across any wrap of the 32-bit clock, as long as the distance to the
    deadline is within half the clock range. *)
Theorem timeReached_exact (start dur elapsed : Z) :
  - 2 ^ 31 <= elapsed - dur < 2 ^ 31 ->
  timeReached (u32 (start + elapsed)) (u32 (start + dur)) = (dur <=? elapsed).
Proof. apply timeReached_elapsed. Qed.

Lemma timeReached_exact_witness :
  timeReached (u32 (0xFFFFFF00 + 5000)) (u32 (0xFFFFFF00 + 5000)) = (5000 <=? 5000).
Proof. apply timeReached_exact. lia. Defined.

(**  The millisecond counter does not jump when the microsecond clock wraps: after any run
    of [advance] calls at most 2^32 - 1000 us apart it reads exactly the elapsed
    milliseconds since the first call's clock, modulo 2^32. *)
Theorem MonotonicMs_exact (t0 : Z) (ts : list Z) :
  samples_within (2 ^ 32 - 1000) t0 ts ->
  advance_run MonotonicMs_new 0 (t0 :: ts)
  = u32 ((u32 t0 + (last ts t0 - t0)) / 1000).
Proof.
  intros Hs. cbn [advance_run]. unfold advance at 1, MonotonicMs_new. cbn [mm_init negb].
  pose proof (wrap_range 32 t0 ltac:(lia)) as [Hr1 Hr2].
  apply advance_run_tracks; [|symmetry; apply wrap_small; unfold in_u; dlia|done].
  repeat split; cbn [mm_ms mm_rem].
  - symmetry. apply wrap_small. unfold in_u. dlia.
  - apply wrap_small. unfold in_u. dlia.
Qed.

Lemma MonotonicMs_exact_witness :
  advance_run MonotonicMs_new 0 [4294967000; 4294968000; 8589934000] = 8589934.
Proof.
  rewrite MonotonicMs_exact; [reflexivity|]. cbn [samples_within]. lia.
Defined.
