(* ===== verification/Crc32.v ===== *)
(** * Crc32: the table-driven CRC-32/ISO-HDLC of wire/crc32.hpp

    The table is the one the C++ [constexpr] initializer computes.  The reference is the
    bit-serial shift register; the two agree, and the register is linear and injective,
    which gives the error-detection property the ESTOP gate relies on. *)

From S2P Require Import Prelude.

(** One step of the inner loop of [makeCrc32Table]. *)
Definition crc32Bit (c : Z) : Z :=
  if Z.land c 1 =? 0 then Z.shiftr c 1 else Z.lxor 0xEDB88320 (Z.shiftr c 1).

Definition makeCrc32Table : list Z :=
  map (fun i => Nat.iter 8 crc32Bit (Z.of_nat i)) (seq 0 256).

Definition kCrc32Table : list Z := Eval vm_compute in makeCrc32Table.

Definition crc32Init : Z := 0xFFFFFFFF.

Definition crc32Step (state : Z) (b : byte) : Z :=
  Z.lxor (nth (Z.to_nat (Z.land (Z.lxor state (b2z b)) 0xFF)) kCrc32Table 0) (Z.shiftr state 8).

Definition crc32Update (state : Z) (data : list byte) : Z := foldl crc32Step state data.

Definition crc32Final (state : Z) : Z := Z.lxor state 0xFFFFFFFF.

Definition crc32 (data : list byte) : Z := crc32Final (crc32Update crc32Init data).

(** The bit-serial reference: shift the message in, least significant bit first. *)
Definition crc32_ref_byte (state : Z) (b : byte) : Z := Nat.iter 8 crc32Bit (Z.lxor state (b2z b)).

Definition crc32_ref (data : list byte) : Z :=
  Z.lxor (foldl crc32_ref_byte 0xFFFFFFFF data) 0xFFFFFFFF.

#[global] Arguments crc32 : simpl never.

(** ** Lemmas *)

Lemma land1_testbit c : Z.land c 1 = Z.b2z (Z.testbit c 0).
Proof. change 1 with (Z.ones 1). by rewrite Z.land_ones, Z.bit0_mod by lia. Qed.

Lemma crc32Bit_bit c :
  crc32Bit c = if Z.testbit c 0 then Z.lxor 0xEDB88320 (Z.shiftr c 1) else Z.shiftr c 1.
Proof. unfold crc32Bit. rewrite land1_testbit. by destruct (Z.testbit c 0). Qed.

Lemma crc32Bit_lxor x y : crc32Bit (Z.lxor x y) = Z.lxor (crc32Bit x) (crc32Bit y).
Proof.
  rewrite !crc32Bit_bit, Z.lxor_spec, Z.shiftr_lxor.
  set (p := 0xEDB88320). set (a := Z.shiftr x 1). set (b := Z.shiftr y 1).
  destruct (Z.testbit x 0), (Z.testbit y 0); cbn [xorb]; [|by rewrite Z.lxor_assoc| |done].
  - rewrite <- !Z.lxor_assoc, (Z.lxor_comm p a), (Z.lxor_assoc a p p), Z.lxor_nilpotent.
    by rewrite Z.lxor_0_r.
  - by rewrite <- !Z.lxor_assoc, (Z.lxor_comm p a).
Qed.

Lemma crc32_iter_lxor n x y :
  Nat.iter n crc32Bit (Z.lxor x y) = Z.lxor (Nat.iter n crc32Bit x) (Nat.iter n crc32Bit y).
Proof. induction n as [|n IH]; [done|]. rewrite !Nat.iter_succ, IH. apply crc32Bit_lxor. Qed.

(** Zeros shifted out below leave no trace. *)
Lemma crc32_iter_shiftl n y : Nat.iter n crc32Bit (Z.shiftl y (Z.of_nat n)) = y.
Proof.
  revert y. induction n as [|n IH]; intros y; [apply Z.shiftl_0_r|].
  rewrite Nat.iter_succ_r, crc32Bit_bit, Z.shiftl_spec_low by lia.
  rewrite Z.shiftr_shiftl_l by lia. replace (Z.of_nat (S n) - 1) with (Z.of_nat n) by lia. apply IH.
Qed.

Lemma lxor_in_u w a b : 0 <= w -> in_u w a -> in_u w b -> in_u w (Z.lxor a b).
Proof.
  unfold in_u. intros Hw Ha Hb. split; [apply Z.lxor_nonneg; lia|].
  destruct (decide (Z.lxor a b = 0)) as [->|Hne]; [lia|].
  apply Z.log2_lt_pow2; [pose proof (Z.lxor_nonneg a b); lia|].
  eapply Z.le_lt_trans; [apply Z.log2_lxor; lia|].
  destruct (decide (w = 0)) as [->|]; [replace a with 0 in * by lia; replace b with 0 in * by lia; done|].
  assert (forall x, 0 <= x < 2 ^ w -> Z.log2 x < w) as Hlog.
  { intros x Hx. destruct (decide (x = 0)) as [->|]; [simpl; lia|]. apply Z.log2_lt_pow2; lia. }
  pose proof (Hlog a Ha). pose proof (Hlog b Hb). lia.
Qed.

Lemma crc32Bit_range c : in_u 32 c -> in_u 32 (crc32Bit c).
Proof.
  intros Hc. rewrite crc32Bit_bit.
  assert (in_u 32 (Z.shiftr c 1)) as Hs.
  { unfold in_u in *. rewrite Z.shiftr_div_pow2 by lia. change (2 ^ 1) with 2. dlia. }
  destruct (Z.testbit c 0); [|done]. by apply lxor_in_u.
Qed.

Lemma crc32_iter_range n c : in_u 32 c -> in_u 32 (Nat.iter n crc32Bit c).
Proof. intros. induction n as [|n IH]; [done|]. rewrite Nat.iter_succ. by apply crc32Bit_range. Qed.

(** The bit shifted out reappears as bit 31, so no information is lost. *)
Lemma crc32Bit_inj x y : in_u 32 x -> in_u 32 y -> crc32Bit x = crc32Bit y -> x = y.
Proof.
  intros Hx Hy E.
  assert (forall c, in_u 32 c -> Z.testbit (crc32Bit c) 31 = Z.testbit c 0) as Htop.
  { intros c Hc. rewrite crc32Bit_bit.
    assert (Z.testbit (Z.shiftr c 1) 31 = false) as Hs.
    { rewrite Z.shiftr_spec by lia. unfold in_u in Hc. rewrite <- (Z.mod_small c (2 ^ 32)) by lia.
      by apply Z.mod_pow2_bits_high. }
    destruct (Z.testbit c 0); [|done]. by rewrite Z.lxor_spec, Hs. }
  assert (Z.testbit x 0 = Z.testbit y 0) as Hb by (rewrite <- !Htop by done; by rewrite E).
  assert (Z.shiftr x 1 = Z.shiftr y 1) as Hs.
  { rewrite !crc32Bit_bit, Hb in E. destruct (Z.testbit y 0); [|done].
    apply (f_equal (Z.lxor 0xEDB88320)) in E.
    by rewrite <- !Z.lxor_assoc, Z.lxor_nilpotent, !Z.lxor_0_l in E. }
  rewrite <- !Z.div2_spec in Hs.
  rewrite (Z.div2_odd x), (Z.div2_odd y), Hs. by rewrite <- !Z.bit0_odd, Hb.
Qed.

Lemma crc32_iter_inj n x y :
  in_u 32 x -> in_u 32 y -> Nat.iter n crc32Bit x = Nat.iter n crc32Bit y -> x = y.
Proof.
  intros Hx Hy. induction n as [|n IH]; [done|]. rewrite !Nat.iter_succ. intros E. apply IH.
  apply crc32Bit_inj; [by apply crc32_iter_range..|done].
Qed.

Lemma kCrc32Table_make : kCrc32Table = makeCrc32Table.
Proof. vm_compute. reflexivity. Qed.

Lemma kCrc32Table_nth i : 0 <= i < 256 -> nth (Z.to_nat i) kCrc32Table 0 = Nat.iter 8 crc32Bit i.
Proof.
  intros Hi. rewrite kCrc32Table_make. unfold makeCrc32Table.
  rewrite (nth_indep _ _ (Nat.iter 8 crc32Bit (Z.of_nat 0))) by (rewrite length_map, length_seq; lia).
  rewrite (map_nth (fun i => Nat.iter 8 crc32Bit (Z.of_nat i)) (seq 0 256) 0%nat), seq_nth by lia.
  f_equal. lia.
Qed.

Lemma split_low_byte x : Z.lxor (Z.land x 0xFF) (Z.shiftl (Z.shiftr x 8) 8) = x.
Proof.
  apply Z.bits_inj'. intros i Hi. change 0xFF with (Z.ones 8).
  rewrite Z.lxor_spec, Z.land_spec, Z.testbit_ones_nonneg by lia.
  destruct (Z.ltb_spec i 8).
  - rewrite (Z.shiftl_spec_low _ 8) by lia. by rewrite andb_true_r, xorb_false_r.
  - rewrite Z.shiftl_spec, Z.shiftr_spec by lia. rewrite andb_false_r. cbn [xorb].
    f_equal. lia.
Qed.

Lemma crc32Step_ref s b : crc32Step s b = crc32_ref_byte s b.
Proof.
  unfold crc32Step, crc32_ref_byte. set (x := Z.lxor s (b2z b)).
  assert (Z.shiftr s 8 = Z.shiftr x 8) as ->.
  { unfold x. rewrite Z.shiftr_lxor. rewrite (Z.shiftr_div_pow2 (b2z b)) by lia.
    pose proof (b2z_range b). rewrite (Z.div_small (b2z b)) by lia. by rewrite Z.lxor_0_r. }
  rewrite kCrc32Table_nth.
  - rewrite <- (split_low_byte x) at 3. rewrite crc32_iter_lxor.
    by rewrite (crc32_iter_shiftl 8).
  - change 0xFF with (Z.ones 8). rewrite Z.land_ones by lia. change (2 ^ 8) with 256. dlia.
Qed.

Lemma crc32Update_ref s data : crc32Update s data = foldl crc32_ref_byte s data.
Proof.
  revert s. unfold crc32Update. induction data as [|b d IH]; intros s; [done|].
  cbn [foldl]. by rewrite crc32Step_ref, IH.
Qed.

Lemma crc32Update_app s a b : crc32Update s (a ++ b) = crc32Update (crc32Update s a) b.
Proof. apply foldl_app. Qed.

(** A block of at most four bytes is one xor into the register, then shifts. *)
Lemma crc32_block s bs :
  (length bs <= 4)%nat -> crc32Update s bs = Nat.iter (8 * length bs) crc32Bit (Z.lxor s (of_le bs)).
Proof.
  rewrite crc32Update_ref. revert s. induction bs as [|b t IH]; intros s Hl.
  - cbn. by rewrite Z.lxor_0_r.
  - cbn [length] in Hl. cbn [foldl]. rewrite IH by lia. unfold crc32_ref_byte.
    rewrite <- (crc32_iter_shiftl 8 (of_le t)), <- crc32_iter_lxor.
    replace (8 * length (b :: t))%nat with (8 * length t + 8)%nat by (cbn [length]; lia).
    rewrite Nat.iter_add. do 2 f_equal. rewrite Z.lxor_assoc. f_equal.
    cbn [of_le]. pose proof (b2z_range b).
    rewrite Z.shiftl_mul_pow2 by lia. replace (256 * of_le t) with (of_le t * 2 ^ 8) by lia.
    rewrite <- (lor_shiftl_add (b2z b) (of_le t) 8) by lia.
    rewrite <- Z.lxor_lor; [by rewrite Z.shiftl_mul_pow2 by lia|].
    apply Z.bits_inj'. intros i Hi. rewrite Z.land_spec, Z.bits_0.
    destruct (Z.lt_ge_cases i 8).
    + rewrite (Z.shiftl_spec_low (of_le t)) by lia. by rewrite andb_false_r.
    + rewrite <- (Z.mod_small (b2z b) (2 ^ 8)) by lia. by rewrite Z.mod_pow2_bits_high by lia.
Qed.

Lemma crc32Update_range s data : in_u 32 s -> in_u 32 (crc32Update s data).
Proof.
  rewrite crc32Update_ref. revert s. induction data as [|b d IH]; intros s Hs; [done|].
  apply IH. apply crc32_iter_range. apply lxor_in_u; [lia|done|].
  unfold in_u. pose proof (b2z_range b). lia.
Qed.

Lemma crc32_range data : in_u 32 (crc32 data).
Proof. apply lxor_in_u; [lia| |done]. by apply crc32Update_range. Qed.

Lemma crc32Update_inj_state x y data :
  in_u 32 x -> in_u 32 y -> crc32Update x data = crc32Update y data -> x = y.
Proof.
  rewrite !crc32Update_ref. revert x y. induction data as [|b d IH]; intros x y Hx Hy E; [done|].
  assert (in_u 32 (b2z b)) by (unfold in_u; pose proof (b2z_range b); lia).
  cbn [foldl] in E. apply IH in E; [|by apply crc32_iter_range, lxor_in_u..].
  apply crc32_iter_inj in E; [|by apply lxor_in_u..].
  apply (f_equal (fun z => Z.lxor z (b2z b))) in E.
  by rewrite !Z.lxor_assoc, Z.lxor_nilpotent, !Z.lxor_0_r in E.
Qed.

Lemma crc32Update_inj_block s a b :
  in_u 32 s -> length a = length b -> (length a <= 4)%nat ->
  crc32Update s a = crc32Update s b -> a = b.
Proof.
  intros Hs Hlen Hl E. rewrite !crc32_block in E by lia. rewrite Hlen in E.
  assert (forall l : list byte, (length l <= 4)%nat -> in_u 32 (of_le l)) as Hr.
  { intros l Hll. pose proof (of_le_range l). unfold in_u. split; [lia|].
    eapply Z.lt_le_trans; [apply (of_le_range l)|].
    change (2 ^ 32) with (256 ^ 4). apply Z.pow_le_mono_r; lia. }
  apply crc32_iter_inj in E; [|apply lxor_in_u; [lia|done|apply Hr; lia]..].
  apply (f_equal (Z.lxor s)) in E.
  rewrite <- !Z.lxor_assoc, Z.lxor_nilpotent, !Z.lxor_0_l in E.
  rewrite <- (le_bytes_of_le a), <- (le_bytes_of_le b). by rewrite E, Hlen.
Qed.

Lemma crc32Final_inj x y : crc32Final x = crc32Final y -> x = y.
Proof.
  unfold crc32Final. intros E. apply (f_equal (fun z => Z.lxor z 0xFFFFFFFF)) in E.
  by rewrite !Z.lxor_assoc, Z.lxor_nilpotent, !Z.lxor_0_r in E.
Qed.

(** A burst of at most four bytes anywhere in a message changes the checksum. *)
Lemma crc32_detects pre a b post :
  length a = length b -> (length a <= 4)%nat -> a <> b ->
  crc32 (pre ++ a ++ post) <> crc32 (pre ++ b ++ post).
Proof.
  intros Hlen Hl Hne E. apply Hne. apply crc32Final_inj in E.
  assert (in_u 32 crc32Init) as Hi by done.
  rewrite !crc32Update_app in E. apply crc32Update_inj_state in E;
    [|by repeat apply crc32Update_range..].
  apply crc32Update_inj_block in E; [done| |lia..]. by apply crc32Update_range.
Qed.

(** ** Properties *)

(**  The table-driven routine computes the bit-serial CRC-32 of its input, piecewise
    feeding gives the checksum of the concatenation, the published check value holds, and
    two messages that differ only inside one window of at most four bytes never have the
    same checksum. *)
Theorem crc32_correct (pre a b post : list byte) :
  crc32 pre = crc32_ref pre
  /\ crc32Final (crc32Update (crc32Update crc32Init pre) post) = crc32 (pre ++ post)
  /\ crc32 (map z2b [49; 50; 51; 52; 53; 54; 55; 56; 57]) = 0xCBF43926
  /\ (length a = length b -> (length a <= 4)%nat -> a <> b ->
      crc32 (pre ++ a ++ post) <> crc32 (pre ++ b ++ post)).
Proof.
  split; [|split; [|split]].
  - unfold crc32, crc32_ref. by rewrite crc32Update_ref.
  - unfold crc32. by rewrite crc32Update_app.
  - vm_compute. reflexivity.
  - apply crc32_detects.
Qed.

Lemma crc32_correct_witness :
  crc32 (map z2b [1; 2; 3; 9]) <> crc32 (map z2b [1; 7; 8; 9]).
Proof.
  apply (crc32_correct (map z2b [1]) (map z2b [2; 3]) (map z2b [7; 8]) (map z2b [9])).
  - reflexivity.
  - simpl. lia.
  - vm_compute. discriminate.
Defined.
