(* ===== verification/Sha256.v ===== *)
(** * Sha256: the incremental hasher of wire/sha256.hpp and HMAC of wire/hmac_sha256.hpp

    [transform] is the block function; the hasher buffers a partial block between calls.
    The reference pads the whole message at once and folds [transform] over its blocks. *)

From S2P Require Import Prelude.

Definition kDigestBytes : nat := 32.
Definition kBlockBytes : nat := 64.

Definition rotr (x n : Z) : Z := Z.lor (Z.shiftr x n) (u32 (Z.shiftl x (32 - n))).

Definition kK : list Z := Eval cbv [app] in
  [0x428a2f98; 0x71374491; 0xb5c0fbcf; 0xe9b5dba5] ++
  [0x3956c25b; 0x59f111f1; 0x923f82a4; 0xab1c5ed5] ++
  [0xd807aa98; 0x12835b01; 0x243185be; 0x550c7dc3] ++
  [0x72be5d74; 0x80deb1fe; 0x9bdc06a7; 0xc19bf174] ++
  [0xe49b69c1; 0xefbe4786; 0x0fc19dc6; 0x240ca1cc] ++
  [0x2de92c6f; 0x4a7484aa; 0x5cb0a9dc; 0x76f988da] ++
  [0x983e5152; 0xa831c66d; 0xb00327c8; 0xbf597fc7] ++
  [0xc6e00bf3; 0xd5a79147; 0x06ca6351; 0x14292967] ++
  [0x27b70a85; 0x2e1b2138; 0x4d2c6dfc; 0x53380d13] ++
  [0x650a7354; 0x766a0abb; 0x81c2c92e; 0x92722c85] ++
  [0xa2bfe8a1; 0xa81a664b; 0xc24b8b70; 0xc76c51a3] ++
  [0xd192e819; 0xd6990624; 0xf40e3585; 0x106aa070] ++
  [0x19a4c116; 0x1e376c08; 0x2748774c; 0x34b0bcb5] ++
  [0x391c0cb3; 0x4ed8aa4a; 0x5b9cca4f; 0x682e6ff3] ++
  [0x748f82ee; 0x78a5636f; 0x84c87814; 0x8cc70208] ++
  [0x90befffa; 0xa4506ceb; 0xbef9a3f7; 0xc67178f2].

Definition word_at (block : list byte) (j : nat) : Z :=
  let at_ i := b2z (nth i block Byte.x00) in
  Z.lor (Z.lor (Z.lor (Z.shiftl (at_ j) 24) (Z.shiftl (at_ (j + 1)%nat) 16))
               (Z.shiftl (at_ (j + 2)%nat) 8)) (at_ (j + 3)%nat).

(** The schedule [m[0..63]]: sixteen message words, then the recurrence. *)
Definition schedule (block : list byte) : list Z :=
  foldl (fun m i =>
           let w k := nth (i - k)%nat m 0 in
           let s0 := Z.lxor (Z.lxor (rotr (w 15%nat) 7) (rotr (w 15%nat) 18)) (Z.shiftr (w 15%nat) 3) in
           let s1 := Z.lxor (Z.lxor (rotr (w 2%nat) 17) (rotr (w 2%nat) 19)) (Z.shiftr (w 2%nat) 10) in
           m ++ [u32 (w 16%nat + s0 + w 7%nat + s1)])
        (map (fun i => word_at block (i * 4)) (seq 0 16)) (seq 16 48).

Record Vars := mkVars { va : Z; vb : Z; vc : Z; vd : Z; ve : Z; vf : Z; vg : Z; vh : Z }.

Definition round (m : list Z) (v : Vars) (i : nat) : Vars :=
  let '(mkVars a b c d e f g h) := v in
  let ep1 := Z.lxor (Z.lxor (rotr e 6) (rotr e 11)) (rotr e 25) in
  let ch := Z.lxor (Z.land e f) (Z.land (u32 (Z.lnot e)) g) in
  let t1 := u32 (h + ep1 + ch + nth i kK 0 + nth i m 0) in
  let ep0 := Z.lxor (Z.lxor (rotr a 2) (rotr a 13)) (rotr a 22) in
  let maj := Z.lxor (Z.lxor (Z.land a b) (Z.land a c)) (Z.land b c) in
  let t2 := u32 (ep0 + maj) in
  mkVars (u32 (t1 + t2)) a b c (u32 (d + t1)) e f g.

Definition transform (st : Vars) (block : list byte) : Vars :=
  let m := schedule block in
  let v := foldl (round m) st (seq 0 64) in
  mkVars (u32 (va st + va v)) (u32 (vb st + vb v)) (u32 (vc st + vc v)) (u32 (vd st + vd v))
         (u32 (ve st + ve v)) (u32 (vf st + vf v)) (u32 (vg st + vg v)) (u32 (vh st + vh v)).

Record Sha256 := mkSha256 {
  sh_state : Vars; sh_bitlen : Z; sh_buf : list byte; sh_bufLen : nat }.

Definition init_state : Vars :=
  mkVars 0x6a09e667 0xbb67ae85 0x3c6ef372 0xa54ff53a 0x510e527f 0x9b05688c 0x1f83d9ab 0x5be0cd19.

Definition reset (s : Sha256) : Sha256 := mkSha256 init_state 0 (sh_buf s) 0.

Definition Sha256_new : Sha256 := reset (mkSha256 init_state 0 (replicate kBlockBytes Byte.x00) 0).

Definition bump (bitlen : Z) : Z := u64 (bitlen + Z.of_nat kBlockBytes * 8).

(** First part of [update]: top up a pending partial block. Returns the offset reached. *)
Definition top_up (s : Sha256) (data : list byte) : Sha256 * nat :=
  if (0 <? sh_bufLen s)%nat then
    let need := (kBlockBytes - sh_bufLen s)%nat in
    let tk := if (length data <? need)%nat then length data else need in
    let buf := splice (sh_bufLen s) (take tk data) (sh_buf s) in
    let bufLen := (sh_bufLen s + tk)%nat in
    if (bufLen =? kBlockBytes)%nat
    then (mkSha256 (transform (sh_state s) buf) (bump (sh_bitlen s)) buf 0, tk)
    else (mkSha256 (sh_state s) (sh_bitlen s) buf bufLen, tk)
  else (s, 0%nat).

(** The loop over full blocks; each turn advances the offset by 64, so [length data] turns
    are more than enough. *)
Fixpoint full_blocks (fuel : nat) (s : Sha256) (data : list byte) (offset : nat) : Sha256 * nat :=
  match fuel with
  | O => (s, offset)
  | S fuel' =>
      if (kBlockBytes <=? length data - offset)%nat then
        full_blocks fuel'
          (mkSha256 (transform (sh_state s) (subspan offset kBlockBytes data)) (bump (sh_bitlen s))
                    (sh_buf s) (sh_bufLen s))
          data (offset + kBlockBytes)
      else (s, offset)
  end.

Definition update (s : Sha256) (data : list byte) : Sha256 :=
  let '(s, offset) := top_up s data in
  let '(s, offset) := full_blocks (length data) s data offset in
  let rem := (length data - offset)%nat in
  if (0 <? rem)%nat
  then mkSha256 (sh_state s) (sh_bitlen s) (splice 0 (drop offset data) (sh_buf s)) rem
  else s.

(** [while (i < to) buf[i++] = 0] after [buf[i++] = 0x80]. *)
Definition pad_to (to : nat) (s : Sha256) : list byte :=
  splice (sh_bufLen s) (z2b 0x80 :: replicate (to - (sh_bufLen s + 1)) Byte.x00) (sh_buf s).

Definition put_word (w : Z) : list byte :=
  [z2b (Z.shiftr w 24); z2b (Z.shiftr w 16); z2b (Z.shiftr w 8); z2b w].

Definition digest (st : Vars) : list byte :=
  let '(mkVars a b c d e f g h) := st in
  put_word a ++ put_word b ++ put_word c ++ put_word d
  ++ put_word e ++ put_word f ++ put_word g ++ put_word h.

Definition final (s : Sha256) : list byte :=
  let '(st, buf) :=
    if (sh_bufLen s <? 56)%nat then (sh_state s, pad_to 56 s)
    else let buf := pad_to kBlockBytes s in
         (transform (sh_state s) buf, splice 0 (replicate 56 Byte.x00) buf) in
  let bitlen := u64 (sh_bitlen s + u64 (Z.of_nat (sh_bufLen s)) * 8) in
  let buf := foldl (fun bf b => <[(63 - b)%nat := z2b (Z.shiftr bitlen (8 * Z.of_nat b))]> bf) buf (seq 0 8) in
  digest (transform st buf).

Definition hash (data : list byte) : list byte := final (update Sha256_new data).

(** HMAC (RFC 2104) and the truncated PIN proof. *)
Definition xor_byte (x : Z) (b : byte) : byte := z2b (Z.lxor (b2z b) x).

Definition hmacSha256 (key msg : list byte) : list byte :=
  let k0 := replicate kBlockBytes Byte.x00 in
  let k := if (kBlockBytes <? length key)%nat then splice 0 (hash key) k0 else splice 0 key k0 in
  let ipad := map (xor_byte 0x36) k in
  let opad := map (xor_byte 0x5C) k in
  let innerHash := final (update (update Sha256_new ipad) msg) in
  final (update (update Sha256_new opad) innerHash).

Definition pairingPinProof (pinAscii nonce : list byte) : list byte :=
  take 16 (hmacSha256 pinAscii nonce).

(** ** The reference: FIPS 180-4 on the whole message *)

Definition compress (k : nat) (m : list byte) : Vars :=
  foldl (fun st i => transform st (subspan (64 * i) 64 m)) init_state (seq 0 k).

Definition sha_pad (msg : list byte) : list byte :=
  msg ++ z2b 0x80 :: replicate ((119 - length msg mod 64) mod 64) Byte.x00
  ++ be_bytes 8 (8 * Z.of_nat (length msg)).

Definition sha256_ref (msg : list byte) : list byte :=
  digest (compress (length (sha_pad msg) / 64) (sha_pad msg)).

Definition hmac_key (key : list byte) : list byte :=
  let k := if (64 <? length key)%nat then sha256_ref key else key in
  k ++ replicate (64 - length k) Byte.x00.

Definition hmac_ref (key msg : list byte) : list byte :=
  sha256_ref (map (xor_byte 0x5C) (hmac_key key)
              ++ sha256_ref (map (xor_byte 0x36) (hmac_key key) ++ msg)).

#[global] Arguments transform : simpl never.

(** ** Lemmas *)

Lemma compress_S k m : compress (S k) m = transform (compress k m) (subspan (64 * k) 64 m).
Proof. unfold compress. by rewrite seq_S, foldl_app. Qed.

Lemma compress_app k a b : (64 * k <= length a)%nat -> compress k (a ++ b) = compress k a.
Proof.
  induction k as [|k IH]; intros Hk; [done|].
  rewrite !compress_S, IH by lia. f_equal. unfold subspan.
  rewrite drop_app_le by lia. rewrite take_app_le by (rewrite length_drop; lia). done.
Qed.

(** The hasher's state after absorbing [msg]. *)
Definition sha_inv (s : Sha256) (msg : list byte) : Prop :=
  exists k, length msg = (64 * k + sh_bufLen s)%nat /\ (sh_bufLen s < 64)%nat
    /\ length (sh_buf s) = 64%nat /\ take (sh_bufLen s) (sh_buf s) = drop (64 * k) msg
    /\ sh_state s = compress k msg /\ sh_bitlen s = u64 (512 * Z.of_nat k).

Lemma sha_inv_new : sha_inv Sha256_new [].
Proof. exists 0%nat. repeat split; simpl; lia. Qed.

Lemma bump_blocks k : bump (u64 (512 * Z.of_nat k)) = u64 (512 * Z.of_nat (S k)).
Proof.
  unfold bump, wrap, kBlockBytes. rewrite Zplus_mod_idemp_l. f_equal. lia.
Qed.

(** Completing the pending block with [n] more bytes. *)
Lemma sha_inv_block s msg chunk buf :
  sha_inv s msg -> (sh_bufLen s + length chunk = 64)%nat -> length buf = 64%nat ->
  sha_inv (mkSha256 (transform (sh_state s) (take (sh_bufLen s) (sh_buf s) ++ chunk))
                    (bump (sh_bitlen s)) buf 0) (msg ++ chunk).
Proof.
  intros (k & Hl & Hb & Hbuf & Ht & Hs & Hbit) Hc Hbl. exists (S k).
  cbn [sh_bufLen sh_buf sh_state sh_bitlen]. rewrite length_app.
  split; [lia|]. split; [lia|]. split; [done|]. split; [|split].
  - rewrite drop_ge by (rewrite length_app; lia). done.
  - rewrite compress_S, compress_app by lia. rewrite Hs, Ht. f_equal.
    unfold subspan. rewrite drop_app_le by lia. rewrite take_ge; [done|].
    rewrite length_app, length_drop. lia.
  - rewrite Hbit. apply bump_blocks.
Qed.

(** Appending [n] bytes that do not complete the block. *)
Lemma sha_inv_partial s msg chunk buf :
  sha_inv s msg -> (sh_bufLen s + length chunk < 64)%nat ->
  length buf = 64%nat -> take (sh_bufLen s + length chunk) buf = take (sh_bufLen s) (sh_buf s) ++ chunk ->
  sha_inv (mkSha256 (sh_state s) (sh_bitlen s) buf (sh_bufLen s + length chunk)) (msg ++ chunk).
Proof.
  intros (k & Hl & Hb & Hbuf & Ht & Hs & Hbit) Hc Hbl Htk. exists k.
  cbn [sh_bufLen sh_buf sh_state sh_bitlen]. rewrite length_app.
  split; [lia|]. split; [lia|]. split; [done|]. split; [|split; [|done]].
  - rewrite Htk, Ht. rewrite drop_app_le by lia. done.
  - rewrite compress_app by lia. done.
Qed.

Lemma top_up_inv s msg data :
  sha_inv s msg ->
  let '(s', off) := top_up s data in
  (off <= length data)%nat /\ sha_inv s' (msg ++ take off data)
  /\ (sh_bufLen s' = 0%nat \/ off = length data).
Proof.
  intros Hinv. unfold top_up. destruct (Nat.ltb_spec 0 (sh_bufLen s)) as [Hp|Hp].
  2: { rewrite take_0, app_nil_r. split; [lia|]. split; [done|]. left; lia. }
  pose proof Hinv as (k & _ & Hb & Hbuf & _). unfold kBlockBytes.
  set (tk := if (length data <? 64 - sh_bufLen s)%nat then length data else (64 - sh_bufLen s)%nat).
  assert ((tk <= length data)%nat /\ (sh_bufLen s + tk <= 64)%nat /\ ((sh_bufLen s + tk = 64)%nat \/ tk = length data))
    as (Htk & Hle & Hor) by (unfold tk; destruct (Nat.ltb_spec (length data) (64 - sh_bufLen s)); lia).
  assert (length (take tk data) = tk) as Hlt by (rewrite length_take; lia).
  set (buf := splice (sh_bufLen s) (take tk data) (sh_buf s)).
  assert (length buf = 64%nat) as Hlb by (unfold buf; rewrite length_splice; lia).
  assert (take (sh_bufLen s + tk) buf = take (sh_bufLen s) (sh_buf s) ++ take tk data) as Htb.
  { unfold buf. rewrite <- Hlt at 1. apply take_splice. lia. }
  destruct (Nat.eqb_spec (sh_bufLen s + tk) 64) as [E|E]; split; try lia.
  - split; [|by left]. replace buf with (take (sh_bufLen s) (sh_buf s) ++ take tk data) at 1.
    + apply sha_inv_block; [done|lia|done].
    + rewrite <- Htb. apply take_ge. lia.
  - split; [|right; lia]. rewrite <- Hlt at 1. apply sha_inv_partial; [done|lia|done|by rewrite Hlt].
Qed.

Lemma full_blocks_inv fuel : forall s msg data off,
  (off <= length data)%nat -> (length data - off < 64 * S fuel)%nat ->
  sh_bufLen s = 0%nat \/ off = length data ->
  sha_inv s (msg ++ take off data) ->
  let '(s', off') := full_blocks fuel s data off in
  (off' <= length data)%nat /\ (length data - off' < 64)%nat
  /\ (sh_bufLen s' = 0%nat \/ off' = length data) /\ sha_inv s' (msg ++ take off' data).
Proof.
  induction fuel as [|fuel IH]; intros s msg data off Hoff Hf Hor Hinv; cbn [full_blocks].
  { repeat split; lia || done. }
  unfold kBlockBytes. destruct (Nat.leb_spec 64 (length data - off)); [|repeat split; lia || done].
  destruct Hor as [Hz|]; [|lia].
  assert (length (subspan off 64 data) = 64%nat) as Hls by (rewrite length_subspan; lia).
  apply IH; [lia|lia|by left|].
  assert (take (off + 64) data = take off data ++ subspan off 64 data) as ->.
  { unfold subspan. by rewrite take_take_drop. }
  rewrite app_assoc, Hz.
  pose proof Hinv as (k & _ & _ & Hbuf & _).
  replace (subspan off 64 data) with (take (sh_bufLen s) (sh_buf s) ++ subspan off 64 data) at 1
    by (by rewrite Hz, take_0).
  apply sha_inv_block; [done|lia|done].
Qed.

Lemma update_inv s msg data : sha_inv s msg -> sha_inv (update s data) (msg ++ data).
Proof.
  intros Hinv. unfold update. pose proof (top_up_inv s msg data Hinv) as H1.
  destruct (top_up s data) as [s1 off1]. destruct H1 as (Ho1 & Hi1 & Hor1).
  pose proof (full_blocks_inv (length data) s1 msg data off1 Ho1 ltac:(lia) Hor1 Hi1) as H2.
  destruct (full_blocks (length data) s1 data off1) as [s2 off2]. destruct H2 as (Ho2 & Hlt & Hor2 & Hi2).
  destruct (Nat.ltb_spec 0 (length data - off2)) as [Hr|Hr].
  - destruct Hor2 as [Hz|]; [|lia].
    replace (msg ++ data) with ((msg ++ take off2 data) ++ drop off2 data)
      by (by rewrite <- app_assoc, take_drop).
    assert (length data - off2 = sh_bufLen s2 + length (drop off2 data))%nat as ->
      by (rewrite length_drop; lia).
    pose proof Hi2 as (k & _ & _ & Hbuf & _).
    apply sha_inv_partial; [done| | |].
    + rewrite length_drop. lia.
    + rewrite length_splice; [done|]. rewrite length_drop. lia.
    + rewrite Hz, take_0. cbn [Nat.add app]. rewrite splice_0. by rewrite take_app_length.
  - rewrite take_ge in Hi2 by lia. done.
Qed.

(** The loop that stores the bit length big-endian in the last eight bytes. *)
Lemma put_bitlen buf v :
  length buf = 64%nat ->
  foldl (fun bf b => <[(63 - b)%nat := z2b (Z.shiftr v (8 * Z.of_nat b))]> bf) buf (seq 0 8)
  = take 56 buf ++ be_bytes 8 v.
Proof.
  intros Hl. rewrite <- (take_drop 56 buf) at 1.
  assert (length (take 56 buf) = 56%nat) as H56 by (rewrite length_take; lia).
  assert (length (drop 56 buf) = 8%nat) as H8 by (rewrite length_drop; lia).
  revert H56 H8. generalize (take 56 buf) (drop 56 buf). intros pre l H56 H8.
  do 8 (destruct l as [|? l]; [done|]). destruct l; [|done].
  cbn [seq foldl]. rewrite !insert_app_r_alt by lia. rewrite H56. f_equal.
  cbn. rewrite !Z.shiftr_div_pow2 by lia. rewrite !Z.div_div by lia. by rewrite Z.div_1_r.
Qed.

Lemma length_pad (msg : list byte) k r :
  length msg = (64 * k + r)%nat -> (r < 64)%nat ->
  ((119 - length msg mod 64) mod 64 = if (r <? 56)%nat then 55 - r else 119 - r)%nat.
Proof.
  intros Hl Hr. rewrite Hl, (Nat.mul_comm 64 k), Nat.add_comm, Nat.Div0.mod_add.
  rewrite (Nat.mod_small r) by lia.
  destruct (Nat.ltb_spec r 56).
  - replace (119 - r)%nat with (55 - r + 1 * 64)%nat by lia. rewrite Nat.Div0.mod_add, Nat.mod_small; lia.
  - apply Nat.mod_small. lia.
Qed.

Lemma bitlen_bytes k r :
  be_bytes 8 (u64 (u64 (512 * Z.of_nat k) + u64 (Z.of_nat r) * 8))
  = be_bytes 8 (8 * Z.of_nat (64 * k + r)).
Proof.
  unfold be_bytes. f_equal. rewrite <- (le_bytes_mod 8 (8 * Z.of_nat (64 * k + r))).
  f_equal. unfold wrap. change (256 ^ Z.of_nat 8) with (2 ^ 64).
  rewrite Zplus_mod_idemp_l, <- Zplus_mod_idemp_r, Zmult_mod_idemp_l, Zplus_mod_idemp_r.
  f_equal. lia.
Qed.

Lemma pad_to_spec to s :
  (sh_bufLen s < to <= 64)%nat -> length (sh_buf s) = 64%nat ->
  length (pad_to to s) = 64%nat
  /\ take to (pad_to to s)
     = take (sh_bufLen s) (sh_buf s) ++ z2b 0x80 :: replicate (to - (sh_bufLen s + 1)) Byte.x00.
Proof.
  intros Hto Hb. unfold pad_to. set (p := z2b 0x80 :: _).
  assert (length p = (to - sh_bufLen s)%nat) as Hp by (unfold p; cbn [length]; rewrite length_replicate; lia).
  split; [rewrite length_splice; lia|].
  replace to with (sh_bufLen s + length p)%nat at 1 by lia. apply take_splice. lia.
Qed.

Lemma compress_snoc k p l :
  length p = (64 * k)%nat -> length l = 64%nat ->
  compress (S k) (p ++ l) = transform (compress k p) l.
Proof.
  intros Hp Hl. rewrite compress_S, compress_app by lia. f_equal. unfold subspan.
  rewrite drop_app_length' by lia. apply take_ge. lia.
Qed.

Lemma compress_take k msg :
  (64 * k <= length msg)%nat -> compress k (take (64 * k) msg) = compress k msg.
Proof.
  intros H. rewrite <- (take_drop (64 * k) msg) at 2. rewrite compress_app; [done|].
  rewrite length_take. lia.
Qed.

(** The reference on a padded message given as its blocks. *)
Lemma sha256_ref_blocks msg k p l :
  sha_pad msg = p ++ l -> length p = (64 * k)%nat -> length l = 64%nat ->
  sha256_ref msg = digest (transform (compress k p) l).
Proof.
  intros E Hp Hl. unfold sha256_ref. rewrite E.
  replace (length (p ++ l) / 64)%nat with (S k).
  - by rewrite compress_snoc.
  - rewrite length_app, Hp, Hl. replace (64 * k + 64)%nat with (S k * 64)%nat by lia.
    symmetry. apply Nat.div_mul. lia.
Qed.

Lemma final_ref s msg : sha_inv s msg -> final s = sha256_ref msg.
Proof.
  intros (k & Hl & Hr & Hb & Ht & Hs & Hbit). unfold final.
  rewrite <- (compress_take k msg) in Hs by lia.
  assert (length (take (64 * k) msg) = (64 * k)%nat) as Hlp by (rewrite length_take; lia).
  pose proof (take_drop (64 * k) msg) as Hmsg. pose proof (length_pad msg k _ Hl Hr) as Hz.
  destruct (Nat.ltb_spec (sh_bufLen s) 56) as [H56|H56].
  - destruct (pad_to_spec 56 s) as [Hpl Hpt]; [lia|done|].
    rewrite put_bitlen by done. rewrite Hpt, Hbit, bitlen_bytes, <- Hl, Ht, Hs.
    symmetry. apply sha256_ref_blocks; [|done|].
    + unfold sha_pad. rewrite Hz, <- Hmsg at 1. rewrite <- !app_assoc. cbn [app].
      do 4 f_equal. f_equal. lia.
    + rewrite !length_app, length_drop, length_be_bytes. cbn [length]. rewrite length_replicate. lia.
  - destruct (pad_to_spec 64 s) as [Hpl Hpt]; [lia|done|]. rewrite take_ge in Hpt by lia.
    rewrite put_bitlen by (rewrite length_splice; rewrite ?length_replicate; unfold kBlockBytes; lia).
    rewrite splice_0, take_app_length' by by rewrite length_replicate.
    rewrite Hbit, bitlen_bytes, <- Hl. unfold kBlockBytes. rewrite Hpt, Ht, Hs.
    assert (length (drop (64 * k) msg ++ z2b 0x80 :: replicate (64 - (sh_bufLen s + 1)) Byte.x00) = 64%nat) as Hl1.
    { rewrite length_app, length_drop. cbn [length]. rewrite length_replicate. lia. }
    rewrite <- compress_snoc by done. symmetry. apply sha256_ref_blocks.
    + unfold sha_pad. rewrite Hz, <- Hmsg at 1. rewrite <- !app_assoc. cbn [app].
      do 3 f_equal. rewrite app_assoc, <- replicate_add. do 2 f_equal. lia.
    + rewrite length_app, Hl1, Hlp. lia.
    + by rewrite length_app, length_replicate, length_be_bytes.
Qed.

Lemma length_digest st : length (digest st) = 32%nat.
Proof. by destruct st. Qed.

Lemma length_hash msg : length (hash msg) = 32%nat.
Proof. unfold hash, final. destruct (if (_ <? 56)%nat then _ else _). apply length_digest. Qed.

Lemma length_hmacSha256 key msg : length (hmacSha256 key msg) = 32%nat.
Proof. unfold hmacSha256, final. destruct (if (_ <? 56)%nat then _ else _). apply length_digest. Qed.

Lemma hash_ref msg : hash msg = sha256_ref msg.
Proof. apply final_ref. apply (update_inv _ []). apply sha_inv_new. Qed.

Lemma final_two a b : final (update (update Sha256_new a) b) = sha256_ref (a ++ b).
Proof. apply final_ref, update_inv. apply (update_inv _ []). apply sha_inv_new. Qed.

Lemma update_all chunks : forall s msg,
  sha_inv s msg -> sha_inv (foldl update s chunks) (msg ++ concat chunks).
Proof.
  induction chunks as [|c cs IH]; intros s msg H; cbn [foldl concat].
  - by rewrite app_nil_r.
  - rewrite app_assoc. by apply IH, update_inv.
Qed.

Lemma hmac_ref_eq key msg : hmacSha256 key msg = hmac_ref key msg.
Proof.
  unfold hmacSha256, hmac_ref, hmac_key, kBlockBytes. rewrite !final_two, hash_ref.
  assert (forall k : list byte, splice 0 k (replicate 64 Byte.x00) = k ++ replicate (64 - length k) Byte.x00) as Hk.
  { intros k. by rewrite splice_0, drop_replicate. }
  destruct (64 <? length key)%nat; by rewrite Hk.
Qed.

(** ** Properties *)

(**  The incremental hasher computes SHA-256 of everything fed to it, whatever the chunking:
    any sequence of [update] calls followed by [final] gives the FIPS 180-4 digest of the
    concatenated input, and the two published test vectors of the file header hold. *)
Theorem sha256_chunking (chunks : list (list byte)) :
  final (foldl update Sha256_new chunks) = sha256_ref (concat chunks)
  /\ of_be (hash []) = 0xe3b0c44298fc1c149afbf4c8996fb92427ae41e4649b934ca495991b7852b855
  /\ of_be (hash (map z2b [97; 98; 99])) = 0xba7816bf8f01cfea414140de5dae2223b00361a396177a9cb410ff61f20015ad.
Proof.
  split; [|split; vm_compute; reflexivity].
  apply final_ref. apply (update_all chunks _ []). apply sha_inv_new.
Qed.

(**  [hmacSha256] is RFC 2104's HMAC over SHA-256 for keys of every length (long keys are
    hashed first, short ones zero-padded), the pairing proof is its first 16 bytes, and
    the RFC 4231 test case 2 holds. *)
Theorem hmac_rfc2104 (key msg : list byte) :
  hmacSha256 key msg = hmac_ref key msg
  /\ pairingPinProof key msg = take 16 (hmac_ref key msg)
  /\ of_be (hmacSha256 (map z2b [74; 101; 102; 101])
       (map z2b [119; 104; 97; 116; 32; 100; 111; 32; 121; 97; 32; 119; 97; 110; 116; 32; 102; 111;
                 114; 32; 110; 111; 116; 104; 105; 110; 103; 63]))
     = 0x5bdcc146bf60754e6a042426089575c75a003f089d2739839dec58b964ec3843.
Proof.
  split; [apply hmac_ref_eq|]. split; [|vm_compute; reflexivity].
  unfold pairingPinProof. by rewrite hmac_ref_eq.
Qed.
