(* ===== verification/Cobs.v ===== *)
(** * Cobs: consistent overhead byte stuffing of wire/serial_cobs.hpp

    The encoder and decoder work on spans with explicit read and write indices; the
    reference functions work on lists.  Both directions are refined to the reference, and
    the round trip, the absence of zero bytes and the size bound are proved there. *)

From S2P Require Import Prelude.

Record EncState := mkEncState {
  e_dst : list byte; e_write : nat; e_codeIdx : nat; e_code : Z; e_finalZero : bool }.

(** One turn of the encoder's loop; [err dst] is the [return 0] of an exhausted span. *)
Definition enc_step (s : EncState) (b : byte) : Result EncState (list byte) :=
  if b2z b =? 0 then
    let dst := <[e_codeIdx s := z2b (e_code s)]> (e_dst s) in
    if (length dst <=? e_write s)%nat then err dst
    else ok (mkEncState dst (S (e_write s)) (e_write s) 1 true)
  else if (length (e_dst s) <=? e_write s)%nat then err (e_dst s)
  else
    let dst := <[e_write s := b]> (e_dst s) in
    let wr := S (e_write s) in
    let code := u8 (e_code s + 1) in
    if code =? 0xFF then
      let dst := <[e_codeIdx s := z2b code]> dst in
      if (length dst <=? wr)%nat then err dst
      else ok (mkEncState dst (S wr) wr 1 false)
    else ok (mkEncState dst wr (e_codeIdx s) code (e_finalZero s)).

Fixpoint enc_loop (s : EncState) (src : list byte) : Result EncState (list byte) :=
  match src with
  | [] => ok s
  | b :: src' => match enc_step s b with ok s' => enc_loop s' src' | err d => err d end
  end.

Definition cobsEncode (src dst : list byte) : list byte * nat :=
  match dst with
  | [] => (dst, 0%nat)
  | _ =>
      match enc_loop (mkEncState dst 1 0 1 true) src with
      | err d => (d, 0%nat)
      | ok s =>
          if e_finalZero s || negb (e_code s =? 1)
          then (<[e_codeIdx s := z2b (e_code s)]> (e_dst s), e_write s)
          else (e_dst s, (e_write s - 1)%nat)
      end
  end.

(** The decoder's inner copy loop: [n] bytes from [src[ri..]] to [dst[wi..]]. *)
Fixpoint copy_run (n : nat) (src : list byte) (ri : nat) (dst : list byte) (wi : nat)
  : decoded (nat * list byte * nat) :=
  match n with
  | O => ok (ri, dst, wi)
  | S n' =>
      if (length src <=? ri)%nat then err Truncated else
      if (length dst <=? wi)%nat then err CapacityExceeded else
      copy_run n' src (S ri) (<[wi := nth ri src Byte.x00]> dst) (S wi)
  end.

(** The outer loop; every turn consumes at least the code byte, so [length src] turns of
    fuel always suffice. *)
Fixpoint dec_loop (fuel : nat) (src : list byte) (ri : nat) (dst : list byte) (wi : nat)
  : decoded (list byte * nat) :=
  match fuel with
  | O => ok (dst, wi)
  | S fuel' =>
      if (length src <=? ri)%nat then ok (dst, wi) else
      let code := b2z (nth ri src Byte.x00) in
      if code =? 0 then err Malformed else
      let? (ri, dst, wi) := copy_run (Z.to_nat (code - 1)) src (S ri) dst wi in
      if negb (code =? 0xFF) && (ri <? length src)%nat then
        if (length dst <=? wi)%nat then err CapacityExceeded
        else dec_loop fuel' src ri (<[wi := Byte.x00]> dst) (S wi)
      else dec_loop fuel' src ri dst wi
  end.

(** The destination's contents are only meaningful on success. *)
Definition cobsDecode (src dst : list byte) : decoded (list byte * nat) :=
  dec_loop (length src) src 0 dst 0.

(** ** Reference functions on lists *)

Definition group (run : list byte) : list byte := z2b (Z.of_nat (length run) + 1) :: run.

(** [run]: the non-zero bytes since the last flush; [fz]: a closing group is owed. *)
Fixpoint cobs_enc (run : list byte) (fz : bool) (src : list byte) : list byte :=
  match src with
  | [] => match run with [] => if fz then group [] else [] | _ => group run end
  | b :: src' =>
      if b2z b =? 0 then group run ++ cobs_enc [] true src'
      else if (length run =? 253)%nat then group (run ++ [b]) ++ cobs_enc [] false src'
      else cobs_enc (run ++ [b]) fz src'
  end.

Definition cobs (src : list byte) : list byte := cobs_enc [] true src.

(** The decoder on lists: [src] is what is left to read, [cap] the room left to write. *)
Fixpoint copy_ref (n : nat) (src : list byte) (cap : nat) : decoded (list byte) :=
  match n with
  | O => ok []
  | S n' => match src with
            | [] => err Truncated
            | b :: src' => match cap with
                           | O => err CapacityExceeded
                           | S cap' => let? out := copy_ref n' src' cap' in ok (b :: out)
                           end
            end
  end.

Fixpoint dec_ref (fuel : nat) (src : list byte) (cap : nat) : decoded (list byte) :=
  match fuel, src with
  | O, _ | _, [] => ok []
  | S fuel', c :: src' =>
      if b2z c =? 0 then err Malformed else
      let n := Z.to_nat (b2z c - 1) in
      let? run := copy_ref n src' cap in
      if negb (b2z c =? 0xFF) && (n <? length src')%nat then
        if (cap <=? n)%nat then err CapacityExceeded
        else let? out := dec_ref fuel' (drop n src') (cap - n - 1) in ok (run ++ Byte.x00 :: out)
      else let? out := dec_ref fuel' (drop n src') (cap - n) in ok (run ++ out)
  end.

(** ** Lemmas: the reference *)

Definition nonzero (b : byte) : Prop := b2z b <> 0.

Lemma z2b_len_nonzero (run : list byte) : (length run <= 254)%nat -> nonzero (z2b (Z.of_nat (length run) + 1)).
Proof. intros H. unfold nonzero. rewrite b2z_z2b_small; lia. Qed.

Lemma group_nonzero run : (length run <= 254)%nat -> Forall nonzero run -> Forall nonzero (group run).
Proof. intros. constructor; [by apply z2b_len_nonzero|done]. Qed.

Lemma cobs_enc_nonzero src : forall run fz,
  (length run <= 253)%nat -> Forall nonzero run -> Forall nonzero (cobs_enc run fz src).
Proof.
  induction src as [|b src IH]; intros run fz Hl Hr; cbn [cobs_enc].
  - destruct run; [destruct fz; [|constructor]|]; apply group_nonzero; simpl in *; lia || done.
  - destruct (Z.eqb_spec (b2z b) 0).
    + apply Forall_app. split; [apply group_nonzero; [lia|done]|]. apply IH; [simpl; lia|constructor].
    + assert (Forall nonzero (run ++ [b])) as Hrb by (apply Forall_app; split; [done|by repeat constructor]).
      destruct (Nat.eqb_spec (length run) 253).
      * apply Forall_app. split; [apply group_nonzero; [rewrite length_app; simpl; lia|done]|].
        apply IH; [simpl; lia|constructor].
      * apply IH; [rewrite length_app; simpl; lia|done].
Qed.

Lemma length_group run : length (group run) = S (length run).
Proof. done. Qed.

Lemma div254_mono n m : (n <= m)%nat -> (n / 254 <= m / 254)%nat.
Proof. intros. by apply Nat.Div0.div_le_mono. Qed.

Lemma div254_full n : ((254 + n) / 254 = S (n / 254))%nat.
Proof. replace (254 + n)%nat with (n + 1 * 254)%nat by lia. rewrite Nat.div_add by lia. lia. Qed.

(** One overhead byte per started 254-byte run, whatever the bytes. *)
Lemma cobs_enc_length src : forall run fz,
  (length run <= 253)%nat ->
  (length (cobs_enc run fz src) <= length run + length src + (length run + length src) / 254 + 1)%nat.
Proof.
  induction src as [|b src IH]; intros run fz Hl; cbn [cobs_enc].
  - cbn [length]. destruct run; [destruct fz; cbn; lia|]. rewrite length_group. lia.
  - cbn [length]. destruct (Z.eqb_spec (b2z b) 0).
    + rewrite length_app, length_group. specialize (IH [] true ltac:(simpl; lia)). cbn [length] in IH.
      pose proof (div254_mono (0 + length src) (length run + S (length src)) ltac:(lia)). lia.
    + destruct (Nat.eqb_spec (length run) 253) as [E|].
      * rewrite length_app, length_group, length_app. specialize (IH [] false ltac:(simpl; lia)).
        pose proof (div254_full (length src)). rewrite E. cbn [length] in *. rewrite Nat.add_0_l in IH.
        replace (253 + S (length src))%nat with (254 + length src)%nat by lia. lia.
      * specialize (IH (run ++ [b]) fz). rewrite length_app in IH. cbn [length] in IH.
        replace (length run + S (length src))%nat with (length run + 1 + length src)%nat by lia.
        apply IH. lia.
Qed.

Lemma cobs_enc_true_nonempty run src : cobs_enc run true src <> [].
Proof.
  revert run. induction src as [|b src IH]; intros run; cbn [cobs_enc].
  - by destruct run.
  - destruct (_ =? _); [done|]. destruct (_ =? _)%nat; [done|]. apply IH.
Qed.

(** ** Lemmas: the encoder refines the reference *)

(** The encoder mid-run: [pre] is finished output, [run] sits behind the reserved code slot. *)
Definition enc_at (d0 : list byte) (s : EncState) (pre run : list byte) : Prop :=
  (length pre + 1 + length run <= length d0)%nat /\ (length run <= 253)%nat
  /\ e_codeIdx s = length pre /\ e_write s = (length pre + 1 + length run)%nat
  /\ e_code s = Z.of_nat (length run) + 1
  /\ exists slot, drop (length pre) d0 = slot :: drop (S (length pre)) d0
      /\ e_dst s = pre ++ slot :: run ++ drop (length pre + 1 + length run) d0.

Lemma insert_slot (pre run tail : list byte) slot x :
  <[length pre := x]> (pre ++ slot :: run ++ tail) = pre ++ x :: run ++ tail.
Proof. rewrite insert_app_r_alt by lia. by rewrite Nat.sub_diag. Qed.

Lemma drop_cell (d : list byte) n : (n < length d)%nat -> exists y, drop n d = y :: drop (S n) d.
Proof.
  intros H. destruct (lookup_lt_is_Some_2 d n H) as [y Hy]. exists y. by apply drop_S.
Qed.

Lemma insert_next d0 (pre run : list byte) slot b :
  (length pre + 1 + length run < length d0)%nat ->
  <[(length pre + 1 + length run)%nat := b]> (pre ++ slot :: run ++ drop (length pre + 1 + length run) d0)
  = pre ++ slot :: (run ++ [b]) ++ drop (length pre + 1 + length (run ++ [b])) d0.
Proof.
  intros H. destruct (drop_cell d0 _ H) as [y ->]. rewrite insert_app_r_alt by lia.
  replace (length pre + 1 + length run - length pre)%nat with (S (length run)) by lia. f_equal.
  change (<[S (length run):=b]> (slot :: ?l)) with (slot :: <[length run:=b]> l). f_equal.
  rewrite insert_app_r_alt, Nat.sub_diag, length_app, <- app_assoc by lia. cbn [length app].
  by replace (length pre + 1 + (length run + 1))%nat with (S (length pre + 1 + length run)) by lia.
Qed.

Lemma enc_at_flush d0 (pre run : list byte) fz :
  (length (pre ++ group run) < length d0)%nat ->
  enc_at d0 (mkEncState (pre ++ group run ++ drop (length pre + 1 + length run) d0)
               (S (length pre + 1 + length run)) (length pre + 1 + length run) 1 fz)
         (pre ++ group run) [].
Proof.
  rewrite length_app, length_group. intros H. unfold enc_at.
  cbn [e_codeIdx e_write e_code e_dst]. rewrite length_app, length_group. cbn [length].
  repeat (split; [lia|]).
  replace (length pre + S (length run))%nat with (length pre + 1 + length run)%nat by lia.
  replace (length pre + 1 + length run + 1 + 0)%nat with (S (length pre + 1 + length run)) by lia.
  destruct (drop_cell d0 (length pre + 1 + length run)) as [y E]; [lia|].
  exists y. split; [done|]. by rewrite E, <- app_assoc.
Qed.

Lemma length_enc_at d0 s pre run : enc_at d0 s pre run -> length (e_dst s) = length d0.
Proof.
  intros (Hl & _ & _ & _ & _ & slot & _ & ->). rewrite length_app. cbn [length].
  rewrite length_app, length_drop. lia.
Qed.

(** The output of the whole encoder continued from a state [enc_at]. *)
Definition enc_finish (r : Result EncState (list byte)) : list byte * nat :=
  match r with
  | err d => (d, 0%nat)
  | ok s => if e_finalZero s || negb (e_code s =? 1)
            then (<[e_codeIdx s := z2b (e_code s)]> (e_dst s), e_write s)
            else (e_dst s, (e_write s - 1)%nat)
  end.

(** Finished output of length [|out|], or 0 because the span is below the documented bound. *)
Definition enc_outcome (d0 out : list byte) (bound : nat) (r : list byte * nat) : Prop :=
  r = (out ++ drop (length out) d0, length out) \/ (snd r = 0%nat /\ (length d0 < bound)%nat).

Definition bound_of (pre run src : list byte) : nat :=
  length pre + length run + length src + (length run + length src) / 254 + 1.

Lemma enc_finish_refines d0 s (pre run : list byte) :
  enc_at d0 s pre run ->
  enc_outcome d0 (pre ++ cobs_enc run (e_finalZero s) []) (bound_of pre run []) (enc_finish (ok s)).
Proof.
  intros (Hl & Hr & Hci & Hw & Hc & slot & Hs & Hd). left. cbn [enc_finish cobs_enc].
  assert (forall r : list byte, r = run ->
    (<[e_codeIdx s:=z2b (e_code s)]> (e_dst s), e_write s)
    = ((pre ++ group r) ++ drop (length (pre ++ group r)) d0, length (pre ++ group r))) as Hgroup.
  { intros r ->. rewrite Hci, Hd, Hw, Hc, insert_slot. rewrite length_app, length_group, <- app_assoc.
    replace (length pre + S (length run))%nat with (length pre + 1 + length run)%nat by lia. done. }
  destruct run as [|r0 run].
  - destruct (e_finalZero s); cbn [orb]; [by apply Hgroup|].
    rewrite Hc. cbn [length Z.of_nat Z.add Z.eqb negb Pos.eqb]. rewrite app_nil_r, Hd, Hw. cbn [length app].
    replace (length pre + 1 + 0)%nat with (S (length pre)) by lia. rewrite <- Hs.
    f_equal. lia.
  - rewrite (proj2 (Z.eqb_neq (e_code s) 1)) by (rewrite Hc; cbn [length]; lia).
    rewrite orb_true_r. by apply Hgroup.
Qed.

(** One turn keeps the invariant, or stops because the span is below the bound. *)
Lemma enc_step_zero d0 s (pre run : list byte) b :
  enc_at d0 s pre run -> b2z b = 0 ->
  if (length d0 <=? length pre + 1 + length run)%nat then exists d, enc_step s b = err d
  else exists s', enc_step s b = ok s' /\ enc_at d0 s' (pre ++ group run) [] /\ e_finalZero s' = true.
Proof.
  intros Hat Hb. pose proof (length_enc_at _ _ _ _ Hat) as Hlen.
  destruct Hat as (Hl & Hr & Hci & Hw & Hc & slot & Hs & Hd). unfold enc_step. rewrite Hb. cbn [Z.eqb].
  rewrite length_insert, Hlen, Hw.
  destruct (Nat.leb_spec (length d0) (length pre + 1 + length run)); [by eexists|].
  eexists. split; [done|]. split; [|done]. rewrite Hci, Hd, Hc, insert_slot.
  apply (enc_at_flush d0 pre run true). rewrite length_app, length_group. lia.
Qed.

Lemma enc_step_max d0 s (pre run : list byte) b :
  enc_at d0 s pre run -> nonzero b -> length run = 253%nat ->
  if (length d0 <=? length pre + 255)%nat then exists d, enc_step s b = err d
  else exists s', enc_step s b = ok s' /\ enc_at d0 s' (pre ++ group (run ++ [b])) [] /\ e_finalZero s' = false.
Proof.
  intros Hat Hb Hr. pose proof (length_enc_at _ _ _ _ Hat) as Hlen.
  destruct Hat as (Hl & _ & Hci & Hw & Hc & slot & Hs & Hd). unfold enc_step.
  rewrite (proj2 (Z.eqb_neq _ _)) by exact Hb. rewrite Hlen, Hw, Hr.
  destruct (Nat.leb_spec (length d0) (length pre + 1 + 253)).
  { rewrite (proj2 (Nat.leb_le _ _)) by lia. by eexists. }
  cbv zeta. rewrite Hc, Hr. change (u8 (Z.of_nat 253 + 1 + 1) =? 255) with true. cbv iota.
  rewrite !length_insert, Hlen.
  replace (S (length pre + 1 + 253)) with (length pre + 255)%nat by lia.
  destruct (Nat.leb_spec (length d0) (length pre + 255)); [by eexists|].
  eexists. split; [done|]. split; [|done]. rewrite Hci, Hd, <- Hr, insert_next, insert_slot by lia.
  pose proof (enc_at_flush d0 pre (run ++ [b]) false) as Hf. rewrite !length_app, length_group in Hf.
  rewrite length_app, Hr in *. cbn [length] in *.
  replace (length pre + 255)%nat with (length pre + 1 + (253 + 1))%nat by lia.
  assert (group (run ++ [b]) = z2b (u8 (Z.of_nat 253 + 1 + 1)) :: run ++ [b]) as Hg
    by (unfold group; by rewrite length_app, Hr).
  rewrite Hg in *. apply Hf. lia.
Qed.

Lemma enc_step_data d0 s (pre run : list byte) b :
  enc_at d0 s pre run -> nonzero b -> (length run < 253)%nat ->
  if (length d0 <=? length pre + 1 + length run)%nat then exists d, enc_step s b = err d
  else exists s', enc_step s b = ok s' /\ enc_at d0 s' pre (run ++ [b]) /\ e_finalZero s' = e_finalZero s.
Proof.
  intros Hat Hb Hr. pose proof (length_enc_at _ _ _ _ Hat) as Hlen.
  destruct Hat as (Hl & _ & Hci & Hw & Hc & slot & Hs & Hd). unfold enc_step.
  rewrite (proj2 (Z.eqb_neq _ _)) by exact Hb. rewrite Hlen, Hw.
  destruct (Nat.leb_spec (length d0) (length pre + 1 + length run)); [by eexists|].
  cbv zeta. rewrite Hc. rewrite (wrap_small 8) by (unfold in_u; lia).
  rewrite (proj2 (Z.eqb_neq _ _)) by lia. eexists. split; [done|]. split; [|done].
  unfold enc_at. cbn [e_codeIdx e_write e_code e_dst]. rewrite length_app. cbn [length].
  repeat (split; [lia|]). exists slot. split; [done|]. rewrite Hd, insert_next by done.
  by rewrite length_app.
Qed.

Lemma enc_loop_refines d0 src : forall s (pre run : list byte),
  enc_at d0 s pre run ->
  enc_outcome d0 (pre ++ cobs_enc run (e_finalZero s) src) (bound_of pre run src)
              (enc_finish (enc_loop s src)).
Proof.
  induction src as [|b src IH]; intros s pre run Hat; [by apply enc_finish_refines|].
  cbn [enc_loop cobs_enc]. pose proof Hat as (Hl & Hr & _).
  assert (forall s' pre' run', enc_at d0 s' pre' run' ->
            (bound_of pre' run' src <= bound_of pre run (b :: src))%nat ->
            enc_outcome d0 (pre' ++ cobs_enc run' (e_finalZero s') src) (bound_of pre run (b :: src))
              (enc_finish (enc_loop s' src))) as Hnext.
  { intros s' pre' run' Hat' Hb. destruct (IH _ _ _ Hat') as [?|[? ?]]; [by left|right; split; [done|lia]]. }
  assert (forall d, (length d0 < bound_of pre run (b :: src))%nat -> forall out,
            enc_outcome d0 out (bound_of pre run (b :: src)) (enc_finish (err d))) as Hstop
    by (intros; by right).
  unfold bound_of in *. cbn [length] in *.
  destruct (Z.eqb_spec (b2z b) 0) as [E|E].
  - pose proof (enc_step_zero _ _ _ _ _ Hat E) as H. destruct (Nat.leb_spec (length d0) (length pre + 1 + length run)).
    + destruct H as [d ->]. apply Hstop. lia.
    + destruct H as (s' & -> & Hat' & Hfz). rewrite app_assoc, <- Hfz. apply Hnext; [done|].
      rewrite length_app, length_group. cbn [length].
      pose proof (div254_mono (0 + length src) (length run + S (length src)) ltac:(lia)). lia.
  - destruct (Nat.eqb_spec (length run) 253) as [R|R].
    + pose proof (enc_step_max _ _ _ _ _ Hat E R) as H. pose proof (div254_full (length src)).
      replace (length run + S (length src))%nat with (254 + length src)%nat in * by lia.
      destruct (Nat.leb_spec (length d0) (length pre + 255)).
      * destruct H as [d ->]. apply Hstop. lia.
      * destruct H as (s' & -> & Hat' & Hfz). rewrite app_assoc, <- Hfz. apply Hnext; [done|].
        rewrite length_app, length_group, length_app. cbn [length]. rewrite Nat.add_0_l. lia.
    + pose proof (enc_step_data _ _ _ _ _ Hat E ltac:(lia)) as H.
      destruct (Nat.leb_spec (length d0) (length pre + 1 + length run)).
      * destruct H as [d ->]. apply Hstop. lia.
      * destruct H as (s' & -> & Hat' & Hfz). rewrite <- Hfz. apply Hnext; [done|].
        rewrite length_app. cbn [length]. replace (length run + 1 + length src)%nat with (length run + S (length src))%nat by lia. lia.
Qed.

(** ** Lemmas: the decoder refines its list form *)

Lemma splice_cons wi b (out dst : list byte) :
  (wi < length dst)%nat -> splice (S wi) out (<[wi := b]> dst) = splice wi (b :: out) dst.
Proof.
  intros H. unfold splice. rewrite drop_insert_lt by lia.
  rewrite (take_S_r _ _ b) by by apply list_lookup_insert_eq. rewrite take_insert_ge by lia.
  rewrite <- app_assoc. cbn [app length].
  by replace (wi + S (length out))%nat with (S wi + length out)%nat by lia.
Qed.

Lemma copy_ref_length n src cap run : copy_ref n src cap = ok run -> length run = n /\ (n <= cap)%nat /\ (n <= length src)%nat.
Proof.
  revert src cap run. induction n as [|n IH]; intros src cap run; cbn [copy_ref].
  - intros [= <-]. cbn. lia.
  - destruct src as [|b src]; [done|]. destruct cap as [|cap]; [done|].
    destruct (copy_ref n src cap) as [r|] eqn:E; cbn; [|done]. intros [= <-].
    apply IH in E. cbn. lia.
Qed.

Lemma copy_run_refines n src : forall ri dst wi,
  (ri <= length src)%nat -> (wi <= length dst)%nat ->
  copy_run n src ri dst wi =
  let? run := copy_ref n (drop ri src) (length dst - wi) in
  ok ((ri + n)%nat, splice wi run dst, (wi + n)%nat).
Proof.
  induction n as [|n IH]; intros ri dst wi Hri Hwi; cbn [copy_run copy_ref result_bind].
  - unfold splice. cbn [app length]. by rewrite !Nat.add_0_r, take_drop.
  - destruct (Nat.leb_spec (length src) ri).
    { by rewrite drop_ge by lia. }
    destruct (drop_cell src ri) as [y Ey]; [done|]. rewrite Ey.
    destruct (Nat.leb_spec (length dst) wi).
    { by replace (length dst - wi)%nat with 0%nat by lia. }
    assert (nth ri src Byte.x00 = y) as ->.
    { transitivity (nth 0 (drop ri src) Byte.x00); [by rewrite nth_skipn, Nat.add_0_r|by rewrite Ey]. }
    rewrite IH by (rewrite ?length_insert; lia). rewrite length_insert.
    replace (length dst - wi)%nat with (S (length dst - S wi)) by lia.
    destruct (copy_ref n (drop (S ri) src) (length dst - S wi)); cbn [result_bind]; [|done].
    rewrite splice_cons by done. by rewrite <- !Nat.add_succ_comm.
Qed.

Lemma splice_splice wi (run out dst : list byte) :
  (wi + length run <= length dst)%nat ->
  splice (wi + length run) out (splice wi run dst) = splice wi (run ++ out) dst.
Proof.
  intros H. unfold splice at 1. rewrite take_splice by done.
  rewrite <- drop_drop, drop_splice, drop_drop by done. unfold splice.
  rewrite <- app_assoc, length_app. by rewrite <- app_assoc, Nat.add_assoc.
Qed.

Lemma dec_loop_refines fuel src : forall ri dst wi,
  (ri <= length src)%nat -> (wi <= length dst)%nat ->
  dec_loop fuel src ri dst wi =
  let? out := dec_ref fuel (drop ri src) (length dst - wi) in ok (splice wi out dst, (wi + length out)%nat).
Proof.
  assert (forall dst wi, splice wi [] dst = dst) as Hnil.
  { intros. unfold splice. cbn [app length]. by rewrite Nat.add_0_r, take_drop. }
  induction fuel as [|fuel IH]; intros ri dst wi Hri Hwi; cbn [dec_loop dec_ref].
  { cbn. by rewrite Hnil, Nat.add_0_r. }
  destruct (Nat.leb_spec (length src) ri).
  { rewrite drop_ge by lia. cbn. by rewrite Hnil, Nat.add_0_r. }
  destruct (drop_cell src ri) as [c Ec]; [done|]. rewrite Ec.
  assert (nth ri src Byte.x00 = c) as ->.
  { transitivity (nth 0 (drop ri src) Byte.x00); [by rewrite nth_skipn, Nat.add_0_r|by rewrite Ec]. }
  destruct (b2z c =? 0); [done|]. cbv zeta. set (n := Z.to_nat (b2z c - 1)).
  rewrite copy_run_refines by lia.
  destruct (copy_ref n (drop (S ri) src) (length dst - wi)) as [run|] eqn:Er; cbn [result_bind]; [|done].
  apply copy_ref_length in Er as (Hlr & Hcap & Hn). rewrite length_drop in Hn.
  assert (length (splice wi run dst) = length dst) as Hls by (apply length_splice; lia).
  rewrite drop_drop, length_drop, Hls.
  replace (S ri + n <? length src)%nat with (n <? length src - S ri)%nat
    by (destruct (Nat.ltb_spec n (length src - S ri)), (Nat.ltb_spec (S ri + n) (length src)); lia).
  replace (length dst - wi <=? n)%nat with (length dst <=? wi + n)%nat
    by (destruct (Nat.leb_spec (length dst - wi) n), (Nat.leb_spec (length dst) (wi + n)); lia).
  destruct (negb (b2z c =? 255) && (n <? length src - S ri)%nat).
  - destruct (Nat.leb_spec (length dst) (wi + n)); [done|].
    rewrite IH by (rewrite ?length_insert, ?Hls; lia). rewrite length_insert, Hls.
    replace (length dst - S (wi + n))%nat with (length dst - wi - n - 1)%nat by lia.
    destruct (dec_ref _ _ _); cbn [result_bind]; [|done].
    rewrite splice_cons by (rewrite Hls; lia). rewrite <- Hlr, splice_splice by lia.
    rewrite length_app. cbn [length]. do 2 f_equal. lia.
  - rewrite IH by (rewrite ?Hls; lia). rewrite Hls.
    replace (length dst - (wi + n))%nat with (length dst - wi - n)%nat by lia.
    destruct (dec_ref _ _ _); cbn [result_bind]; [|done].
    rewrite <- Hlr, splice_splice, length_app by lia. do 2 f_equal. lia.
Qed.

Lemma copy_ref_run (run rest : list byte) cap :
  copy_ref (length run) (run ++ rest) cap
  = if (length run <=? cap)%nat then ok run else err CapacityExceeded.
Proof.
  revert cap. induction run as [|b run IH]; intros [|cap]; cbn [length copy_ref app]; try done.
  rewrite IH. cbn [Nat.leb]. by destruct (length run <=? cap)%nat.
Qed.

Lemma dec_ref_group fuel (run rest : list byte) cap :
  (length run <= 254)%nat ->
  dec_ref (S fuel) (group run ++ rest) cap =
  if (cap <? length run)%nat then err CapacityExceeded else
  if ((length run <? 254) && (0 <? length rest))%nat then
    if (cap <=? length run)%nat then err CapacityExceeded
    else let? out := dec_ref fuel rest (cap - length run - 1) in ok (run ++ Byte.x00 :: out)
  else let? out := dec_ref fuel rest (cap - length run) in ok (run ++ out).
Proof.
  intros Hl. unfold group. cbn [app dec_ref].
  rewrite b2z_z2b_small, (proj2 (Z.eqb_neq (Z.of_nat _ + 1) 0)) by lia. cbv zeta.
  replace (Z.to_nat (Z.of_nat (length run) + 1 - 1)) with (length run) by lia.
  rewrite copy_ref_run, drop_app_length, length_app.
  destruct (Nat.leb_spec (length run) cap), (Nat.ltb_spec cap (length run)); try lia; [|done].
  cbn [result_bind].
  replace (negb (Z.of_nat (length run) + 1 =? 255) && (length run <? length run + length rest)%nat)
    with ((length run <? 254) && (0 <? length rest))%nat; [done|].
  destruct (Nat.ltb_spec (length run) 254), (Nat.ltb_spec 0 (length rest)),
    (Nat.ltb_spec (length run) (length run + length rest)), (Z.eqb_spec (Z.of_nat (length run) + 1) 255); lia.
Qed.

Lemma dec_ref_nil fuel cap : dec_ref fuel [] cap = ok [].
Proof. by destruct fuel. Qed.

Lemma byte_zero b : b2z b = 0 -> b = Byte.x00.
Proof. intros H. by apply b2z_inj. Qed.

Lemma dec_ref_cobs_enc src : forall (run : list byte) fz cap fuel,
  (length run <= 253)%nat -> (length (cobs_enc run fz src) <= fuel)%nat ->
  dec_ref fuel (cobs_enc run fz src) cap =
  if (length run + length src <=? cap)%nat then ok (run ++ src) else err CapacityExceeded.
Proof.
  assert (forall (run rest : list byte) fuel, (length (group run ++ rest) <= fuel)%nat ->
            exists f, fuel = S f /\ (length rest <= f)%nat) as Hf.
  { intros run rest [|f] H; rewrite length_app, length_group in H; [lia|]. exists f. split; [done|lia]. }
  induction src as [|b src IH]; intros run fz cap fuel Hr Hfuel; cbn [cobs_enc] in *.
  - assert (dec_ref fuel (group run) cap =
            (if (length run <=? cap)%nat then ok run else err CapacityExceeded) \/ (fuel < S (length run))%nat) as Hg.
    { destruct (Nat.le_gt_cases (S (length run)) fuel) as [Hg|]; [left|by right].
      destruct fuel as [|f]; [lia|]. rewrite <- (app_nil_r (group run)), dec_ref_group, andb_false_r by lia.
      rewrite dec_ref_nil. cbn [result_bind]. rewrite app_nil_r.
      by destruct (Nat.leb_spec (length run) cap), (Nat.ltb_spec cap (length run)); try lia. }
    cbn [length]. rewrite Nat.add_0_r, app_nil_r.
    destruct run as [|r0 run]; [destruct fz|]; [|by rewrite dec_ref_nil|];
      rewrite length_group in Hfuel; destruct Hg; done || lia.
  - destruct (Z.eqb_spec (b2z b) 0) as [E|E]; [|destruct (Nat.eqb_spec (length run) 253) as [R|R]].
    + destruct (Hf _ _ _ Hfuel) as (f & -> & Hf'). rewrite dec_ref_group by lia.
      destruct (cobs_enc [] true src) as [|x t] eqn:Et; [by apply cobs_enc_true_nonempty in Et|]. rewrite <- Et in *.
      rewrite (proj2 (Nat.ltb_lt (length run) 254)), (proj2 (Nat.ltb_lt 0 (length _))) by (rewrite ?Et; cbn; lia).
      cbn [andb]. rewrite IH by (cbn [length]; lia). cbn [length]. rewrite (byte_zero _ E).
      destruct (Nat.ltb_spec cap (length run)), (Nat.leb_spec cap (length run)),
        (Nat.leb_spec (length run + S (length src)) cap),
        (Nat.leb_spec (0 + length src) (cap - length run - 1)); done || lia.
    + destruct (Hf _ _ _ Hfuel) as (f & -> & Hf').
      assert (length (run ++ [b]) = 254%nat) as Hrb by (rewrite length_app; cbn; lia).
      rewrite dec_ref_group, Hrb by lia. change (254 <? 254)%nat with false. cbn [andb].
      rewrite IH by (cbn [length]; lia). cbn [length app].
      destruct (Nat.ltb_spec cap 254), (Nat.leb_spec (length run + S (length src)) cap),
        (Nat.leb_spec (0 + length src) (cap - 254)); cbn [result_bind]; rewrite <- ?app_assoc; done || lia.
    + rewrite IH by (rewrite ?length_app; cbn [length]; lia || done).
      rewrite length_app, <- app_assoc. cbn [length app]. by rewrite <- Nat.add_assoc.
Qed.

Lemma cobsEncode_refines (src dst : list byte) :
  enc_outcome dst (cobs src) (length src + length src / 254 + 1) (cobsEncode src dst).
Proof.
  destruct dst as [|x dst]; [right; cbn; lia|].
  pose proof (enc_loop_refines (x :: dst) src (mkEncState (x :: dst) 1 0 1 true) [] []) as H.
  apply H. unfold enc_at. cbn [length e_codeIdx e_write e_code e_dst]. repeat (split; [lia|]). by exists x.
Qed.

Lemma cobs_bound (src : list byte) : (length (cobs src) <= length src + length src / 254 + 1)%nat.
Proof. pose proof (cobs_enc_length src [] true ltac:(cbn; lia)) as H. exact H. Qed.

Lemma cobsDecode_cobs (src dst : list byte) :
  cobsDecode (cobs src) dst =
  if (length src <=? length dst)%nat then ok (src ++ drop (length src) dst, length src) else err CapacityExceeded.
Proof.
  unfold cobsDecode. rewrite dec_loop_refines by lia. rewrite drop_0, Nat.sub_0_r.
  unfold cobs. rewrite dec_ref_cobs_enc by (cbn [length]; lia). cbn [length app]. rewrite Nat.add_0_l.
  destruct (length src <=? length dst)%nat; cbn [result_bind]; [|done]. by rewrite splice_0.
Qed.

Lemma dec_ref_zero fuel (src : list byte) cap out :
  (length src <= fuel)%nat -> dec_ref fuel src cap = ok out -> (length out <= length src)%nat /\ (length out <= cap)%nat.
Proof.
  revert src cap out. induction fuel as [|fuel IH]; intros src cap out Hf; cbn [dec_ref].
  { destruct src; [|cbn in Hf; lia]. intros [= <-]. cbn. lia. }
  destruct src as [|c src]; [intros [= <-]; cbn; lia|]. cbn [length] in *.
  destruct (b2z c =? 0); [done|]. cbv zeta.
  destruct (copy_ref _ src cap) as [run|] eqn:Er; cbn [result_bind]; [|done].
  apply copy_ref_length in Er as (Hlr & Hcap & Hn).
  destruct (_ && _).
  - destruct (Nat.leb_spec cap (Z.to_nat (b2z c - 1))); [done|].
    destruct (dec_ref _ _ _) as [o|] eqn:E; cbn [result_bind]; [|done]. intros [= <-].
    apply IH in E; rewrite ?length_drop in *; [|lia]. rewrite length_app. cbn [length]. lia.
  - destruct (dec_ref _ _ _) as [o|] eqn:E; cbn [result_bind]; [|done]. intros [= <-].
    apply IH in E; rewrite ?length_drop in *; [|lia]. rewrite length_app. lia.
Qed.

(** ** Properties *)

(** C32.  COBS framing is loss-free: into any span of the documented size the encoder writes at
    most [n + n/254 + 1] bytes, none of them zero, leaves the rest of the span alone, and the
    decoder recovers exactly the source, or reports that its own span is too small. *)
Theorem cobs_roundtrip (src dst out : list byte) :
  (length src + length src / 254 + 1 <= length dst)%nat ->
  exists body,
    cobsEncode src dst = (body ++ drop (length body) dst, length body)
    /\ (length body <= length src + length src / 254 + 1)%nat
    /\ Forall (fun b => b2z b <> 0) body
    /\ cobsDecode body out =
         if (length src <=? length out)%nat then ok (src ++ drop (length src) out, length src)
         else err CapacityExceeded.
Proof.
  intros Hl. exists (cobs src). split; [|split; [|split]].
  - destruct (cobsEncode_refines src dst) as [->|[_ H]]; [done|lia].
  - apply cobs_bound.
  - apply cobs_enc_nonzero; [cbn; lia|constructor].
  - apply cobsDecode_cobs.
Qed.

Lemma cobs_roundtrip_witness :
  exists body,
    cobsEncode (map z2b [1; 0; 2; 3]) (replicate 8 Byte.xff) = (body ++ drop (length body) (replicate 8 Byte.xff), length body)
    /\ cobsDecode body (replicate 4 Byte.x00) = ok (map z2b [1; 0; 2; 3], 4%nat).
Proof.
  destruct (cobs_roundtrip (map z2b [1; 0; 2; 3]) (replicate 8 Byte.xff) (replicate 4 Byte.x00)) as (b & H1 & _ & _ & H2).
  { vm_compute. lia. }
  exists b. split; [exact H1|exact H2].
Defined.

(**  Whatever its span, the encoder never reports a partial frame: the count is either 0
    (and then the span was below the documented size) or the length of the complete
    encoding.  On arbitrary input the decoder stays inside both spans: a successful decode
    writes no more than the input's length nor the span's, and leaves the rest untouched. *)
Theorem cobs_bounded (src dst : list byte) :
  (snd (cobsEncode src dst) = 0%nat -> (length dst < length src + length src / 254 + 1)%nat)
  /\ (snd (cobsEncode src dst) <> 0%nat ->
      take (snd (cobsEncode src dst)) (fst (cobsEncode src dst)) = cobs src)
  /\ (forall d n, cobsDecode src dst = ok (d, n) ->
       length d = length dst /\ (n <= length src)%nat /\ (n <= length dst)%nat /\ drop n d = drop n dst).
Proof.
  split; [|split].
  - intros Hz. destruct (cobsEncode_refines src dst) as [E|[_ H]]; [|done].
    rewrite E in Hz. cbn in Hz. by apply length_zero_iff_nil, cobs_enc_true_nonempty in Hz.
  - intros Hz. destruct (cobsEncode_refines src dst) as [->|[H _]]; [|done]. by apply take_app_length.
  - intros d n. unfold cobsDecode. rewrite dec_loop_refines by lia. rewrite drop_0, Nat.sub_0_r.
    destruct (dec_ref _ _ _) as [out|] eqn:E; cbn [result_bind]; [|done]. intros [= <- <-].
    apply dec_ref_zero in E as [? ?]; [|done]. rewrite splice_0, length_app, length_drop.
    split; [lia|]. split; [lia|]. split; [lia|]. by apply drop_app_length.
Qed.

Lemma cobs_bounded_witness :
  cobsEncode (map z2b [1; 0; 2]) (replicate 3 Byte.x00) = (map z2b [2; 1; 0], 0%nat)
  /\ (3 < 3 + 3 / 254 + 1)%nat.
Proof.
  split; [reflexivity|]. exact (proj1 (cobs_bounded (map z2b [1; 0; 2]) (replicate 3 Byte.x00)) eq_refl).
Defined.
