(* ===== verification/Codec.v ===== *)
(** * Codec: what a fixed-size wire structure promises to its users

    Every raw structure of the protocol (frame header, ESTOP frame, CLOCK, ACKMASK, BEACON,
    BLOB_DONE, blob chunk header, ...) is written into a caller's span and read back from
    one.  The class states the contract once; each component proves its instance and the
    generic facts below hold for all of them. *)

From S2P Require Import Prelude.

Definition to_option {A E} (r : Result A E) : option A :=
  match r with ok v => Some v | err _ => None end.

Class WireCodec (A : Type) := {
  wire_size : nat;
  wire_ok : A -> Prop;
  wire_bytes : A -> list byte;
  wire_encode : A -> list byte -> list byte * nat;
  wire_decode : list byte -> option A;
  wire_size_pos : (0 < wire_size)%nat;
  wire_length a : wire_ok a -> length (wire_bytes a) = wire_size;
  wire_encode_fits a out :
    wire_ok a -> (wire_size <= length out)%nat ->
    wire_encode a out = (wire_bytes a ++ drop wire_size out, wire_size);
  wire_encode_short a out :
    (length out < wire_size)%nat -> wire_encode a out = (out, 0%nat);
  wire_decode_bytes a : wire_ok a -> wire_decode (wire_bytes a) = Some a;
  wire_decode_ok l a : wire_decode l = Some a -> wire_ok a
}.

#[global] Arguments wire_size A {_}.

Section codec.
Context {A : Type} `{WireCodec A}.

(** A sender encodes into a span of [cap] bytes and hands over exactly what was written. *)
Definition transmit (cap : nat) (a : A) : list byte :=
  let '(o, n) := wire_encode a (replicate cap Byte.x00) in take n o.

Lemma transmit_bytes cap a :
  wire_ok a -> transmit cap a = if (wire_size A <=? cap)%nat then wire_bytes a else [].
Proof.
  intros Hok. unfold transmit. destruct (Nat.leb_spec (wire_size A) cap).
  - rewrite wire_encode_fits by (by rewrite ?length_replicate).
    rewrite take_app_length'; [done|]. by rewrite wire_length.
  - by rewrite wire_encode_short by (by rewrite length_replicate).
Qed.

Lemma transmit_decode cap a :
  wire_ok a -> (wire_size A <= cap)%nat -> wire_decode (transmit cap a) = Some a.
Proof.
  intros Hok Hcap. rewrite transmit_bytes, (proj2 (Nat.leb_le _ _)) by done.
  by apply wire_decode_bytes.
Qed.

(** Distinct valid values never share an encoding. *)
Lemma wire_bytes_inj a b : wire_ok a -> wire_ok b -> wire_bytes a = wire_bytes b -> a = b.
Proof.
  intros Ha Hb E. apply wire_decode_bytes in Ha, Hb. rewrite E in Ha. congruence.
Qed.

(** The encoder's only effect is on the bytes of the structure itself. *)
Lemma wire_encode_frame a out :
  wire_ok a ->
  drop (wire_size A) (fst (wire_encode a out)) = drop (wire_size A) out
  /\ length (fst (wire_encode a out)) = length out.
Proof.
  intros Hok. destruct (le_lt_dec (wire_size A) (length out)).
  - rewrite wire_encode_fits by done. cbn [fst]. split.
    + apply drop_app_length'. by rewrite wire_length.
    + rewrite length_app, wire_length, length_drop by done. lia.
  - by rewrite wire_encode_short.
Qed.
End codec.
