(* ===== verification/Frame.v ===== *)
(** * Frame: the 8-byte frame header and the owned frame buffer
    (wire/frame_header.hpp, wire/frame_buffer.hpp) *)

From S2P Require Import Prelude ByteIO Codec.

(** ** FrameHeader *)

Definition kHeaderBytes : nat := 8.
Definition FRAG_START : Z := Z.shiftl 1 0.
Definition FRAG_MORE : Z := Z.shiftl 1 1.

Record FrameHeader := mkFrameHeader {
  fh_type : Z; fh_flags : Z; fh_channel : Z; fh_seq : Z; fh_len : Z }.

Definition fragStart (h : FrameHeader) : bool := negb (Z.land (fh_flags h) FRAG_START =? 0).
Definition fragMore (h : FrameHeader) : bool := negb (Z.land (fh_flags h) FRAG_MORE =? 0).

Definition encodeFrameHeader (h : FrameHeader) (out : list byte) : list byte * nat :=
  if (length out <? kHeaderBytes)%nat then (out, 0%nat) else
  let out := fst (on_subspan 0 (fun o => putU8 o (fh_type h)) out) in
  let out := fst (on_subspan 1 (fun o => putU8 o (fh_flags h)) out) in
  let out := fst (on_subspan 2 (fun o => putU16 o (fh_channel h)) out) in
  let out := fst (on_subspan 4 (fun o => putU16 o (fh_seq h)) out) in
  let out := fst (on_subspan 6 (fun o => putU16 o (fh_len h)) out) in
  (out, kHeaderBytes).

Definition decodeFrameHeader (bs : list byte) : option FrameHeader :=
  if (length bs <? kHeaderBytes)%nat then None else
  Some (mkFrameHeader (getU8 (drop 0 bs)) (getU8 (drop 1 bs)) (getU16 (drop 2 bs))
                      (getU16 (drop 4 bs)) (getU16 (drop 6 bs))).

Definition FrameHeader_ok (h : FrameHeader) : Prop :=
  in_u 8 (fh_type h) /\ in_u 8 (fh_flags h) /\ in_u 16 (fh_channel h)
  /\ in_u 16 (fh_seq h) /\ in_u 16 (fh_len h).

Definition FrameHeader_bytes (h : FrameHeader) : list byte :=
  le_bytes 1 (fh_type h) ++ le_bytes 1 (fh_flags h) ++ le_bytes 2 (fh_channel h)
  ++ le_bytes 2 (fh_seq h) ++ le_bytes 2 (fh_len h).

#[export] Instance FrameHeader_eq_dec : EqDecision FrameHeader.
Proof. solve_decision. Defined.

(** ** FrameBuffer: an owned frame of at most [kFrameBufferCapacity] bytes *)

Definition kFrameBufferCapacity : nat := 512.

Record FrameBuffer := mkFrameBuffer { fb_data : list byte; fb_size : Z }.

Definition FrameBuffer_new : FrameBuffer :=
  mkFrameBuffer (replicate kFrameBufferCapacity Byte.x00) 0.

Definition FrameBuffer_from (frame : list byte) : FrameBuffer :=
  if (length frame <=? kFrameBufferCapacity)%nat then
    mkFrameBuffer (splice 0 frame (fb_data FrameBuffer_new)) (u16 (Z.of_nat (length frame)))
  else FrameBuffer_new.

(** [writable()] hands out the whole data array; the caller stores into it and calls
    [setSize]. *)
Definition writable (b : FrameBuffer) : list byte := fb_data b.

Definition store (b : FrameBuffer) (data : list byte) : FrameBuffer :=
  mkFrameBuffer data (fb_size b).

Definition setSize (b : FrameBuffer) (n : nat) : FrameBuffer :=
  mkFrameBuffer (fb_data b) (u16 (if (n <=? kFrameBufferCapacity)%nat then Z.of_nat n else 0)).

Definition fb_bytes (b : FrameBuffer) : list byte := take (Z.to_nat (fb_size b)) (fb_data b).

Definition fb_empty (b : FrameBuffer) : bool := fb_size b =? 0.

Definition fb_header (b : FrameBuffer) : option FrameHeader := decodeFrameHeader (fb_bytes b).

Definition fb_payload (b : FrameBuffer) : list byte :=
  if Z.of_nat kHeaderBytes <=? fb_size b then drop kHeaderBytes (fb_bytes b) else [].

Definition FrameBuffer_ok (b : FrameBuffer) : Prop :=
  length (fb_data b) = kFrameBufferCapacity /\ 0 <= fb_size b <= Z.of_nat kFrameBufferCapacity.

(** ** Lemmas *)

Lemma encodeFrameHeader_spec h out :
  (8 <= length out)%nat ->
  encodeFrameHeader h out = (FrameHeader_bytes h ++ drop 8 out, 8%nat).
Proof.
  intros Hl. expose_cells out 8%nat. unfold encodeFrameHeader, on_subspan.
  cbn -[putU8 putU16]. simpl. by rewrite !shiftr8.
Qed.

Lemma encodeFrameHeader_short h out :
  (length out < 8)%nat -> encodeFrameHeader h out = (out, 0%nat).
Proof. intros. unfold encodeFrameHeader. by rewrite (proj2 (Nat.ltb_lt _ _)). Qed.

Lemma decodeFrameHeader_bytes h rest :
  FrameHeader_ok h -> decodeFrameHeader (FrameHeader_bytes h ++ rest) = Some h.
Proof.
  destruct h as [t f c s l]. intros (H1 & H2 & H3 & H4 & H5). cbn in *.
  unfold decodeFrameHeader, FrameHeader_bytes. cbn -[getU8 getU16]. by read_fields.
Qed.

Lemma decodeFrameHeader_ok l h : decodeFrameHeader l = Some h -> FrameHeader_ok h.
Proof.
  unfold decodeFrameHeader. destruct (_ <? _)%nat; [done|]. intros [= <-].
  repeat split; apply getU8_range || apply getU16_range.
Qed.

Lemma decodeFrameHeader_reencode l h :
  decodeFrameHeader l = Some h -> FrameHeader_bytes h = take 8 l.
Proof.
  unfold decodeFrameHeader. destruct (Nat.ltb_spec (length l) kHeaderBytes) as [|Hl]; [done|].
  unfold kHeaderBytes in Hl. intros [= <-]. expose_cells l 8%nat.
  unfold FrameHeader_bytes. cbn [fh_type fh_flags fh_channel fh_seq fh_len].
  simpl drop. rewrite !getU8_spec, !getU16_spec by (simpl; lia).
  rewrite !le_bytes_of_le_take by (simpl; lia). done.
Qed.

#[export] Program Instance FrameHeader_codec : WireCodec FrameHeader := {|
  wire_size := kHeaderBytes;
  wire_ok := FrameHeader_ok;
  wire_bytes := FrameHeader_bytes;
  wire_encode := encodeFrameHeader;
  wire_decode := decodeFrameHeader |}.
Next Obligation. unfold kHeaderBytes. lia. Qed.
Next Obligation. done. Qed.
Next Obligation. intros. by apply encodeFrameHeader_spec. Qed.
Next Obligation. intros. by apply encodeFrameHeader_short. Qed.
Next Obligation. intros h Hh. rewrite <- (app_nil_r (FrameHeader_bytes h)). by apply decodeFrameHeader_bytes. Qed.
Next Obligation. intros. by eapply decodeFrameHeader_ok. Qed.

Lemma length_fb_new : length (fb_data FrameBuffer_new) = kFrameBufferCapacity.
Proof. done. Qed.

Lemma FrameBuffer_from_ok frame : FrameBuffer_ok (FrameBuffer_from frame).
Proof.
  unfold FrameBuffer_from, FrameBuffer_ok. destruct (Nat.leb_spec (length frame) kFrameBufferCapacity) as [H|H].
  - cbn [fb_data fb_size]. rewrite length_splice by by rewrite length_fb_new. split; [done|].
    rewrite wrap_small; unfold in_u, kFrameBufferCapacity in *; lia.
  - split; [done|]. cbn. lia.
Qed.

Lemma FrameBuffer_from_bytes frame :
  (length frame <= kFrameBufferCapacity)%nat -> fb_bytes (FrameBuffer_from frame) = frame.
Proof.
  intros H. unfold FrameBuffer_from. rewrite (proj2 (Nat.leb_le _ _)) by done.
  unfold fb_bytes. cbn [fb_data fb_size].
  rewrite wrap_small by (unfold in_u, kFrameBufferCapacity in *; lia).
  rewrite Nat2Z.id, splice_0. by apply take_app_length.
Qed.

Lemma setSize_bytes data n :
  (n <= kFrameBufferCapacity)%nat ->
  fb_bytes (setSize (store FrameBuffer_new data) n) = take n data.
Proof.
  intros H. unfold fb_bytes, setSize, store. cbn [fb_data fb_size].
  rewrite (proj2 (Nat.leb_le _ _)) by done.
  rewrite wrap_small by (unfold in_u, kFrameBufferCapacity in *; lia). by rewrite Nat2Z.id.
Qed.

(** ** Properties *)

(**  The frame header is a faithful 8-byte codec: a header decodes from its own encoding
    whatever payload follows; decoding fails only on inputs shorter than 8 bytes; and
    re-encoding a decoded header gives back the very bytes it was read from. *)
Theorem frame_header_codec (h : FrameHeader) (out payload l : list byte) :
  (FrameHeader_ok h -> (8 <= length out)%nat ->
   let '(o, n) := encodeFrameHeader h out in
   n = 8%nat /\ decodeFrameHeader (take n o ++ payload) = Some h /\ drop 8 o = drop 8 out)
  /\ (decodeFrameHeader l = None <-> (length l < 8)%nat)
  /\ (decodeFrameHeader l = Some h -> (8 <= length out)%nat ->
      fst (encodeFrameHeader h out) = take 8 l ++ drop 8 out).
Proof.
  split; [|split].
  - intros Hh Hl. rewrite encodeFrameHeader_spec by done.
    rewrite (take_app_length' (FrameHeader_bytes h)) by done. rewrite decodeFrameHeader_bytes by done. done.
  - unfold decodeFrameHeader. destruct (Nat.ltb_spec (length l) kHeaderBytes); unfold kHeaderBytes in *;
      split; (done || lia).
  - intros Hd Hl. rewrite encodeFrameHeader_spec by done. cbn [fst].
    by erewrite decodeFrameHeader_reencode.
Qed.

Lemma frame_header_codec_witness :
  decodeFrameHeader
    (take 8 (fst (encodeFrameHeader (mkFrameHeader 0x0D 3 0x0102 0xFFFF 7) (replicate 12 Byte.x00))))
  = Some (mkFrameHeader 0x0D 3 0x0102 0xFFFF 7).
Proof.
  pose proof (frame_header_codec (mkFrameHeader 0x0D 3 0x0102 0xFFFF 7)
                (replicate 12 Byte.x00) [] []) as (H & _ & _).
  cbn [length replicate] in H. destruct H as (_ & H & _).
  - repeat split; discriminate || reflexivity.
  - lia.
  - rewrite app_nil_r in H. exact H.
Defined.
