(* ===== verification/Estop.v ===== *)
(** * Estop: the 12-byte ESTOP frame and the byte-serial scanner (wire/estop_frame.hpp) *)

From S2P Require Import Prelude ByteIO Crc32 Codec.

Definition kEstopFrameBytes : nat := 12.
Definition kEstopCrcOffset : nat := 8.
Definition kEstopMagicByte : byte := z2b 0xE5.

Record EstopFrame := mkEstopFrame { ef_cause : Z; ef_origin : Z; ef_seq : Z }.

#[export] Instance EstopFrame_eq_dec : EqDecision EstopFrame.
Proof. solve_decision. Defined.

Definition EstopFrame_default : EstopFrame := mkEstopFrame 0 0 0.

Definition encodeEstop (frame : EstopFrame) (out : list byte) : list byte * nat :=
  if (length out <? kEstopFrameBytes)%nat then (out, 0%nat) else
  let out := <[0%nat := kEstopMagicByte]> out in
  let out := <[1%nat := kEstopMagicByte]> out in
  let out := <[2%nat := kEstopMagicByte]> out in
  let out := <[3%nat := kEstopMagicByte]> out in
  let out := fst (on_subspan 4 (fun o => putU8 o (ef_cause frame)) out) in
  let out := fst (on_subspan 5 (fun o => putU8 o (ef_origin frame)) out) in
  let out := fst (on_subspan 6 (fun o => putU16 o (ef_seq frame)) out) in
  let crc := crc32 (subspan 0 kEstopCrcOffset out) in
  let out := fst (on_subspan kEstopCrcOffset (fun o => putU32 o crc) out) in
  (out, kEstopFrameBytes).

(** The four magic tests at offset [i]. *)
Definition magic_at (bs : list byte) (i : nat) : bool :=
  byte_eqb (nth i bs Byte.x00) kEstopMagicByte && byte_eqb (nth (i + 1) bs Byte.x00) kEstopMagicByte
  && byte_eqb (nth (i + 2) bs Byte.x00) kEstopMagicByte && byte_eqb (nth (i + 3) bs Byte.x00) kEstopMagicByte.

Definition decodeEstop (bs : list byte) : decoded EstopFrame :=
  if (length bs <? kEstopFrameBytes)%nat then err Truncated else
  if negb (magic_at bs 0) then err Malformed else
  let crc := getU32 (subspan kEstopCrcOffset 4 bs) in
  if negb (crc32 (subspan 0 kEstopCrcOffset bs) =? crc) then err BadCrc else
  ok (mkEstopFrame (getU8 (drop 4 bs)) (getU8 (drop 5 bs)) (getU16 (drop 6 bs))).

Record EstopScanResult := mkEstopScanResult {
  es_found : bool; es_offset : nat; es_frame : EstopFrame }.

Definition EstopScanResult_default : EstopScanResult :=
  mkEstopScanResult false 0 EstopFrame_default.

(** The scan loop from offset [i]; [n] offsets are left to visit. *)
Fixpoint scan_loop (stream : list byte) (n i : nat) : EstopScanResult :=
  match n with
  | O => EstopScanResult_default
  | S n' =>
      if negb (magic_at stream i) then scan_loop stream n' (S i) else
      if (length stream <? i + kEstopFrameBytes)%nat then EstopScanResult_default else
      match decodeEstop (subspan i kEstopFrameBytes stream) with
      | ok f => mkEstopScanResult true i f
      | err _ => scan_loop stream n' (S i)
      end
  end.

Definition scanForEstop (stream : list byte) : EstopScanResult :=
  if (length stream <? 4)%nat then EstopScanResult_default
  else scan_loop stream (length stream - 3) 0.

Definition EstopFrame_ok (f : EstopFrame) : Prop :=
  in_u 8 (ef_cause f) /\ in_u 8 (ef_origin f) /\ in_u 16 (ef_seq f).

Definition estop_prefix (f : EstopFrame) : list byte :=
  replicate 4 kEstopMagicByte ++ le_bytes 1 (ef_cause f) ++ le_bytes 1 (ef_origin f)
  ++ le_bytes 2 (ef_seq f).

Definition EstopFrame_bytes (f : EstopFrame) : list byte :=
  estop_prefix f ++ le_bytes 4 (crc32 (estop_prefix f)).

(** ** Lemmas *)

Lemma encodeEstop_spec f out :
  (12 <= length out)%nat -> encodeEstop f out = (EstopFrame_bytes f ++ drop 12 out, 12%nat).
Proof.
  intros Hl. unfold encodeEstop, kEstopFrameBytes. rewrite (proj2 (Nat.ltb_ge _ _)) by done.
  cbv zeta. match goal with |- context [subspan 0 _ ?b] =>
    assert (b = estop_prefix f ++ drop 8 out) as -> end.
  { expose_cells out 12%nat. unfold on_subspan. simpl. by rewrite shiftr8. }
  change (subspan 0 kEstopCrcOffset (estop_prefix f ++ drop 8 out)) with (estop_prefix f).
  unfold kEstopCrcOffset. rewrite on_subspan_putU32 by (rewrite length_app, length_drop; simpl; lia).
  cbn [fst]. unfold EstopFrame_bytes. rewrite <- app_assoc. do 2 f_equal.
  f_equal. rewrite drop_app_ge by (simpl; lia). rewrite drop_drop. done.
Qed.

Lemma encodeEstop_short f out : (length out < 12)%nat -> encodeEstop f out = (out, 0%nat).
Proof. intros. unfold encodeEstop. by rewrite (proj2 (Nat.ltb_lt _ _)). Qed.

Lemma magic_at_drop bs i : magic_at (drop i bs) 0 = magic_at bs i.
Proof.
  unfold magic_at. rewrite !nth_skipn.
  replace (i + 0)%nat with i by lia. by replace (i + (0 + 1))%nat with (i + 1)%nat by lia.
Qed.

Lemma magic_at_take bs n : (4 <= n)%nat -> magic_at (take n bs) 0 = magic_at bs 0.
Proof.
  intros. unfold magic_at. rewrite !nth_firstn.
  by rewrite !(proj2 (Nat.ltb_lt _ _)) by lia.
Qed.

Lemma decodeEstop_bytes f : EstopFrame_ok f -> decodeEstop (EstopFrame_bytes f) = ok f.
Proof.
  intros (H1 & H2 & H3). unfold decodeEstop.
  change (length (EstopFrame_bytes f) <? kEstopFrameBytes)%nat with false. cbv beta iota.
  change (magic_at (EstopFrame_bytes f) 0) with true. cbn [negb].
  change (subspan 0 kEstopCrcOffset (EstopFrame_bytes f)) with (estop_prefix f).
  change (subspan kEstopCrcOffset 4 (EstopFrame_bytes f)) with (le_bytes 4 (crc32 (estop_prefix f)) ++ []).
  rewrite getU32_bytes, wrap_small by apply crc32_range. rewrite Z.eqb_refl. cbn [negb].
  destruct f as [c o s]. cbn in *. unfold EstopFrame_bytes, estop_prefix. f_equal.
  simpl drop. cbn [ef_cause ef_origin ef_seq]. by read_fields.
Qed.

Lemma decodeEstop_ok l f : decodeEstop l = ok f -> EstopFrame_ok f /\ (12 <= length l)%nat /\ magic_at l 0 = true.
Proof.
  unfold decodeEstop, kEstopFrameBytes. destruct (Nat.ltb_spec (length l) 12); [done|].
  destruct (magic_at l 0); [|done]. destruct (_ =? _); [|done]. intros [= <-].
  split; [|done]. repeat split; apply getU8_range || apply getU16_range.
Qed.

#[export] Program Instance EstopFrame_codec : WireCodec EstopFrame := {|
  wire_size := kEstopFrameBytes;
  wire_ok := EstopFrame_ok;
  wire_bytes := EstopFrame_bytes;
  wire_encode := encodeEstop;
  wire_decode := fun l => to_option (decodeEstop l) |}.
Next Obligation. unfold kEstopFrameBytes. lia. Qed.
Next Obligation. done. Qed.
Next Obligation. intros. by apply encodeEstop_spec. Qed.
Next Obligation. intros. by apply encodeEstop_short. Qed.
Next Obligation. intros f Hf. cbv beta. by rewrite decodeEstop_bytes. Qed.
Next Obligation.
  intros l f Hd. cbn in Hd. destruct (decodeEstop l) eqn:E; [|done]. injection Hd as <-. by eapply decodeEstop_ok.
Qed.

(** The scanner's contract from offset [i] on. *)
Definition scan_contract (stream : list byte) (i : nat) (r : EstopScanResult) : Prop :=
  let valid j f := decodeEstop (subspan j kEstopFrameBytes stream) = ok f in
  if es_found r then
    (i <= es_offset r)%nat /\ valid (es_offset r) (es_frame r)
    /\ forall j f, (i <= j < es_offset r)%nat -> ~ valid j f
  else r = EstopScanResult_default /\ forall j f, (i <= j)%nat -> ~ valid j f.

Lemma valid_at stream j f :
  decodeEstop (subspan j kEstopFrameBytes stream) = ok f ->
  magic_at stream j = true /\ (j + 12 <= length stream)%nat.
Proof.
  intros H. apply decodeEstop_ok in H as (_ & Hl & Hm).
  rewrite length_subspan in Hl. unfold subspan, kEstopFrameBytes in *.
  rewrite magic_at_take, magic_at_drop in Hm by lia. split; [done|lia].
Qed.

Lemma scan_loop_contract stream n i :
  (length stream <= n + i + 3)%nat -> scan_contract stream i (scan_loop stream n i).
Proof.
  revert i. induction n as [|n IH]; intros i Hn; cbn [scan_loop].
  { split; [done|]. intros j f Hj H. apply valid_at in H. lia. }
  assert (forall r, (forall f, decodeEstop (subspan i kEstopFrameBytes stream) <> ok f) ->
            scan_contract stream (S i) r -> scan_contract stream i r) as Hstep.
  { intros r Hno. unfold scan_contract. destruct (es_found r).
    - intros (Ho & Hv & Hb). split; [lia|]. split; [done|]. intros j f Hj.
      destruct (decide (j = i)) as [->|]; [apply Hno|]. apply Hb. lia.
    - intros (Hr & Hb). split; [done|]. intros j f Hj.
      destruct (decide (j = i)) as [->|]; [apply Hno|]. apply Hb. lia. }
  destruct (magic_at stream i) eqn:Hm; cbn [negb].
  2: { apply Hstep; [|apply IH; lia]. intros f H. apply valid_at in H as [H _]. congruence. }
  destruct (Nat.ltb_spec (length stream) (i + kEstopFrameBytes)) as [Hs|Hs].
  { unfold kEstopFrameBytes in Hs. split; [done|]. intros j f Hj H. apply valid_at in H. lia. }
  destruct (decodeEstop (subspan i kEstopFrameBytes stream)) as [f|e] eqn:Hd.
  - unfold scan_contract. cbn [es_found es_offset es_frame]. split; [lia|]. split; [done|]. lia.
  - apply Hstep; [|apply IH; lia]. intros f H. congruence.
Qed.

Lemma scanForEstop_contract stream : scan_contract stream 0 (scanForEstop stream).
Proof.
  unfold scanForEstop. destruct (Nat.ltb_spec (length stream) 4).
  - split; [done|]. intros j f _ Hv. apply valid_at in Hv. lia.
  - apply scan_loop_contract. lia.
Qed.

Lemma subspan_middle (a m b : list byte) : subspan (length a) (length m) (a ++ m ++ b) = m.
Proof. unfold subspan. by rewrite drop_app_length, take_app_length. Qed.

(** An accepted 12-byte frame carries the checksum of its first eight bytes. *)
Lemma decodeEstop_crc l g :
  decodeEstop l = ok g -> length l = 12%nat -> crc32 (take 8 l) = of_le (drop 8 l).
Proof.
  intros Hd Hl. unfold decodeEstop in Hd.
  destruct (_ <? _)%nat; [done|]. destruct (negb (magic_at _ _)); [done|].
  destruct (Z.eqb_spec (crc32 (subspan 0 kEstopCrcOffset l)) (getU32 (subspan kEstopCrcOffset 4 l))) as [E|]; [|done].
  unfold subspan, kEstopCrcOffset in E. rewrite drop_0 in E. rewrite E.
  rewrite getU32_spec by (rewrite length_take, length_drop; lia).
  rewrite take_take. f_equal. apply take_ge. rewrite length_drop. lia.
Qed.

(** A burst inside the checked prefix, or inside the checksum itself, breaks that equation. *)
Lemma estop_burst_prefix (pre a b post : list byte) :
  length a = length b -> (length a <= 4)%nat -> a <> b -> (length pre + length a <= 8)%nat ->
  crc32 (take 8 (pre ++ a ++ post)) = of_le (drop 8 (pre ++ a ++ post)) ->
  crc32 (take 8 (pre ++ b ++ post)) <> of_le (drop 8 (pre ++ b ++ post)).
Proof.
  intros Hlen Hl Hne Hpos Ha E.
  assert (forall m : list byte, length m = length a ->
     take 8 (pre ++ m ++ post) = pre ++ m ++ take (8 - length pre - length a) post
     /\ drop 8 (pre ++ m ++ post) = drop (8 - length pre - length a) post) as Hsplit.
  { intros m Hm. rewrite !take_app, !drop_app.
    rewrite (take_ge pre), (drop_ge pre), (take_ge m), (drop_ge m) by lia. by rewrite Hm. }
  destruct (Hsplit a eq_refl) as [Ta Da], (Hsplit b ltac:(done)) as [Tb Db].
  rewrite Ta, Da in Ha. rewrite Tb, Db, <- Ha in E.
  by apply crc32_detects in E; [|lia..|].
Qed.

Lemma estop_burst_crc (pre a b post : list byte) :
  length a = length b -> a <> b -> (8 <= length pre)%nat ->
  crc32 (take 8 (pre ++ a ++ post)) = of_le (drop 8 (pre ++ a ++ post)) ->
  crc32 (take 8 (pre ++ b ++ post)) <> of_le (drop 8 (pre ++ b ++ post)).
Proof.
  intros Hlen Hne Hpos Ha E. rewrite !take_app_le, !drop_app_le in * by done.
  rewrite Ha in E. apply (f_equal (le_bytes (length (drop 8 pre ++ a ++ post)))) in E.
  rewrite le_bytes_of_le in E.
  replace (length (drop 8 pre ++ a ++ post)) with (length (drop 8 pre ++ b ++ post)) in E
    by (rewrite !length_app; lia).
  rewrite le_bytes_of_le in E. by simplify_list_eq.
Qed.

(** ** Properties *)

(** C28.  The scanner is exact: it reports the first offset of the stream at which twelve bytes
    form a frame with the magic and a matching CRC, and reports nothing only when there is
    none; in particular a frame sitting anywhere in a stream, behind any garbage and before
    any tail, makes it fire at or before that frame. *)
Theorem scanForEstop_exact (stream pre post : list byte) (f : EstopFrame) :
  (let r := scanForEstop stream in
   let valid j g := decodeEstop (subspan j kEstopFrameBytes stream) = ok g in
   (es_found r = true ->
      valid (es_offset r) (es_frame r) /\ forall j g, (j < es_offset r)%nat -> ~ valid j g)
   /\ (es_found r = false -> forall j g, ~ valid j g))
  /\ (EstopFrame_ok f ->
      let r := scanForEstop (pre ++ EstopFrame_bytes f ++ post) in
      es_found r = true /\ (es_offset r <= length pre)%nat
      /\ (es_offset r = length pre -> es_frame r = f)).
Proof.
  split.
  - pose proof (scanForEstop_contract stream) as H. unfold scan_contract in H. cbv zeta in *.
    destruct (es_found (scanForEstop stream)).
    + destruct H as (_ & Hv & Hb). split; [|done]. intros _. split; [done|].
      intros j g Hj. apply Hb. lia.
    + destruct H as (_ & Hb). split; [done|]. intros _ j g. apply Hb. lia.
  - intros Hf. set (s := pre ++ EstopFrame_bytes f ++ post).
    assert (decodeEstop (subspan (length pre) kEstopFrameBytes s) = ok f) as Hv.
    { unfold s. change kEstopFrameBytes with (length (EstopFrame_bytes f)).
      rewrite subspan_middle. by apply decodeEstop_bytes. }
    pose proof (scanForEstop_contract s) as H. unfold scan_contract in H. cbv zeta in *.
    destruct (es_found (scanForEstop s)).
    + destruct H as (_ & Hv' & Hb). split; [done|]. split.
      * destruct (le_lt_dec (es_offset (scanForEstop s)) (length pre)); [done|].
        exfalso. by apply (Hb (length pre) f); [lia|].
      * intros E. rewrite E in Hv'. congruence.
    + destruct H as (_ & Hb). exfalso. by apply (Hb (length pre) f); [lia|].
Qed.

Lemma scanForEstop_exact_witness :
  let r := scanForEstop (map z2b [0xE5; 0xE5; 7] ++ EstopFrame_bytes (mkEstopFrame 1 2 0x0304) ++ [Byte.x00]) in
  es_found r = true /\ (es_offset r <= 3)%nat.
Proof.
  destruct (scanForEstop_exact [] (map z2b [0xE5; 0xE5; 7]) [Byte.x00] (mkEstopFrame 1 2 0x0304)) as [_ H].
  destruct H as (H1 & H2 & _); [repeat split; discriminate || reflexivity|]. split; [exact H1|exact H2].
Defined.

(**  An ESTOP frame is accepted exactly as sent, and a frame hit by any error burst of at
    most four bytes inside its magic, cause, origin and sequence fields, or inside its CRC
    field, is refused. *)
Theorem estop_integrity (f : EstopFrame) (pre a b post : list byte) :
  EstopFrame_ok f ->
  decodeEstop (EstopFrame_bytes f) = ok f
  /\ (EstopFrame_bytes f = pre ++ a ++ post -> length a = length b -> (length a <= 4)%nat -> a <> b ->
      (length pre + length a <= 8 \/ 8 <= length pre)%nat ->
      forall g, decodeEstop (pre ++ b ++ post) <> ok g).
Proof.
  intros Hf. split; [by apply decodeEstop_bytes|].
  intros Ef Hlen Hl Hne Hpos g Hd.
  assert (length (pre ++ a ++ post) = 12%nat) as Hl12 by (by rewrite <- Ef).
  apply decodeEstop_crc in Hd; [|rewrite !length_app in *; lia].
  pose proof (decodeEstop_crc _ _ (decodeEstop_bytes f Hf) eq_refl) as Ha. rewrite Ef in Ha.
  revert Hd. destruct Hpos; [by apply (estop_burst_prefix pre a)|by apply (estop_burst_crc pre a)].
Qed.

Lemma estop_integrity_witness :
  decodeEstop (take 4 (EstopFrame_bytes (mkEstopFrame 1 2 3)) ++ map z2b [9; 2]
               ++ drop 6 (EstopFrame_bytes (mkEstopFrame 1 2 3))) <> ok (mkEstopFrame 9 2 3).
Proof.
  refine (proj2 (estop_integrity (mkEstopFrame 1 2 3) (take 4 (EstopFrame_bytes (mkEstopFrame 1 2 3)))
    (map z2b [1; 2]) (map z2b [9; 2]) (drop 6 (EstopFrame_bytes (mkEstopFrame 1 2 3))) _) _ _ _ _ _ _).
  - repeat split; discriminate || reflexivity.
  - vm_compute. reflexivity.
  - reflexivity.
  - simpl. lia.
  - vm_compute. discriminate.
  - left. vm_compute. lia.
Defined.
