(* ===== verification/Collect.v ===== *)
(** * Collect: assembling a byte string from equal-sized pieces placed by index

    Both reassemblers of the protocol (control-plane fragments, blob chunks) copy piece [i] of
    a message to offset [i * U] of a buffer.  [collected U p D data] says that the pieces of
    the index set [D] are in place. *)

From S2P Require Import Prelude.
From stdpp Require Import gmap fin_sets.
#[local] Open Scope Z_scope.

Definition piece (U : nat) (p : list byte) (i : nat) : list byte := subspan (i * U) U p.

Definition collected (U : nat) (p : list byte) (D : gset nat) (data : list byte) : Prop :=
  forall j, (j < length p)%nat -> (j / U)%nat ∈ D -> data !! j = p !! j.

Lemma lookup_splice off (bs out : list byte) j :
  (off + length bs <= length out)%nat ->
  splice off bs out !! j =
  if decide (off <= j < off + length bs)%nat then bs !! (j - off)%nat else out !! j.
Proof.
  intros Hl. unfold splice. destruct (decide (off <= j < off + length bs)%nat) as [Hin|Hout].
  - rewrite lookup_app_r by (rewrite length_take; lia). rewrite length_take, Nat.min_l by lia.
    by rewrite lookup_app_l by lia.
  - destruct (decide (j < off)%nat).
    + rewrite lookup_app_l by (rewrite length_take; lia). by rewrite lookup_take_lt by lia.
    + rewrite lookup_app_r by (rewrite length_take; lia). rewrite length_take, Nat.min_l by lia.
      rewrite lookup_app_r by lia. rewrite lookup_drop. f_equal. lia.
Qed.

Lemma length_piece U p i : length (piece U p i) = Nat.min U (length p - i * U).
Proof. unfold piece. by rewrite length_subspan. Qed.

Lemma collected_empty U p data : collected U p ∅ data.
Proof. intros j _ Hj. by apply not_elem_of_empty in Hj. Qed.

Lemma collected_place U p D data i :
  (0 < U)%nat -> collected U p D data -> (i * U + length (piece U p i) <= length data)%nat ->
  collected U p ({[i]} ∪ D) (splice (i * U) (piece U p i) data).
Proof.
  intros HU Hc Hl j Hj Hin. rewrite lookup_splice by done. rewrite length_piece in *.
  pose proof (Nat.div_mod_eq j U). pose proof (Nat.mod_upper_bound j U ltac:(lia)).
  apply elem_of_union in Hin as [E%elem_of_singleton|E]; destruct (decide _) as [Hr|Hr].
  - unfold piece, subspan. rewrite lookup_take_lt, lookup_drop by lia. f_equal. lia.
  - nia.
  - unfold piece, subspan. rewrite lookup_take_lt, lookup_drop by lia. f_equal. lia.
  - by apply Hc.
Qed.

Lemma collected_full U N p D data :
  (forall i, (i < N)%nat -> i ∈ D) -> (length p <= N * U)%nat -> (length p <= length data)%nat ->
  collected U p D data -> take (length p) data = p.
Proof.
  intros HD HN Hl Hc. apply list_eq. intros j. destruct (decide (j < length p)%nat) as [Hj|Hj].
  - rewrite lookup_take_lt by done. apply Hc; [done|]. apply HD. apply Nat.Div0.div_lt_upper_bound. lia.
  - rewrite lookup_take_ge by lia. symmetry. apply lookup_ge_None_2. lia.
Qed.

(** Indices below [N]: a set of them is full exactly when it has [N] elements. *)
Lemma index_set_size N (P : gset nat) : (forall i, i ∈ P -> (i < N)%nat) -> (size P <= N)%nat.
Proof.
  intros Hd. assert (P ⊆ set_seq 0 N) as Hs.
  { intros i Hi. apply elem_of_set_seq. specialize (Hd i Hi). lia. }
  apply subseteq_size in Hs. by rewrite size_set_seq in Hs.
Qed.

Lemma index_set_full N (D : gset nat) : (forall i, i ∈ D -> (i < N)%nat) -> size D = N -> D = set_seq 0 N.
Proof.
  intros Hd Hs. apply leibniz_equiv. apply set_subseteq_size_equiv.
  - intros i Hi. apply elem_of_set_seq. specialize (Hd i Hi). lia.
  - by rewrite size_set_seq, Hs.
Qed.

Lemma ceil_div_bounds n U : (0 < U)%nat -> (0 < n)%nat ->
  (((n + U - 1) / U - 1) * U < n <= (n + U - 1) / U * U)%nat /\ (0 < (n + U - 1) / U)%nat.
Proof.
  intros HU Hn. pose proof (Nat.div_mod_eq (n + U - 1) U). pose proof (Nat.mod_upper_bound (n + U - 1) U ltac:(lia)).
  nia.
Qed.
