(* ===== verification/Raw.v ===== *)
(** * Raw: the small raw-plane frames of wire/raw/*.hpp

    ACKMASK and its receive-side tracker, BEACON, CATALOG_READY, CLOCK and the clock-offset
    computation, PING/PONG and PROBE, and the DISCOVER datagrams of wire/messages/discover.hpp.  The
    fixed-size structures are [WireCodec] instances. *)

From Stdlib Require Import String.
From S2P Require Import Prelude ByteIO SerialArith Codec.
#[local] Open Scope Z_scope.

(** ** ACKMASK (raw/ackmask.hpp) *)

Record AckMask := mkAckMask { am_base_seq : Z; am_mask : Z }.

Definition kAckMaskBytes : nat := 6.
Definition kAckMaskWindow : nat := 32.

Definition encodeAckMask (m : AckMask) (out : list byte) : list byte * nat :=
  if (length out <? kAckMaskBytes)%nat then (out, 0%nat) else
  let out := fst (on_subspan 0 (fun o => putU16 o (am_base_seq m)) out) in
  let out := fst (on_subspan 2 (fun o => putU32 o (am_mask m)) out) in
  (out, kAckMaskBytes).

Definition decodeAckMask (bs : list byte) : decoded AckMask :=
  if (length bs <? kAckMaskBytes)%nat then err Truncated
  else ok (mkAckMask (getU16 (drop 0 bs)) (getU32 (drop 2 bs))).

(** The sequence numbers handed to the callback, in order. *)
Definition unpackAckMask (base mask : Z) : list Z :=
  omap (fun i => if negb (Z.land mask (Z.shiftl 1 (Z.of_nat i)) =? 0)
                 then Some (u16 (base + Z.of_nat i)) else None) (seq 0 kAckMaskWindow).

(** [AckTracker] keeps the pair it would send next. *)
Definition AckTracker_new (base : Z) : AckMask := mkAckMask base 0.

Definition ack_record (t : AckMask) (seq : Z) : AckMask :=
  if negb (seq =? am_base_seq t) && negb (seqIsNewer seq (am_base_seq t)) then t else
  let offset := i16 (u16 (seq - am_base_seq t)) in
  if Z.of_nat kAckMaskWindow <=? offset then
    let shift := u16 (offset - Z.of_nat kAckMaskWindow + 1) in
    let base := u16 (am_base_seq t + shift) in
    let mask := if Z.of_nat kAckMaskWindow <=? shift then 0 else Z.shiftr (am_mask t) shift in
    mkAckMask base (Z.lor mask (u32 (Z.shiftl 1 (Z.of_nat kAckMaskWindow - 1))))
  else mkAckMask (am_base_seq t) (Z.lor (am_mask t) (u32 (Z.shiftl 1 offset))).

Definition ack_snapshot (t : AckMask) : AckMask := mkAckMask (am_base_seq t) (am_mask t).

Definition ack_reset (t : AckMask) (base : Z) : AckMask := mkAckMask base 0.

(** ** BEACON (raw/beacon.hpp) *)

Definition etag_bytes : nat := 8.
Definition kBeaconFrameBytes : nat := 4 + etag_bytes + 1.

Record BeaconFrame := mkBeaconFrame { bf_boot_id : Z; bf_etag : list byte; bf_pairing_open : bool }.

Definition encodeBeacon (b : BeaconFrame) (out : list byte) : list byte * nat :=
  if (length out <? kBeaconFrameBytes)%nat then (out, 0%nat) else
  let out := fst (on_subspan 0 (fun o => putU32 o (bf_boot_id b)) out) in
  let out := splice 4 (bf_etag b) out in
  let out := fst (on_subspan (4 + length (bf_etag b)) (fun o => putU8 o (if bf_pairing_open b then 1 else 0)) out) in
  (out, kBeaconFrameBytes).

Definition decodeBeacon (bs : list byte) : decoded BeaconFrame :=
  if (length bs <? kBeaconFrameBytes)%nat then err Truncated
  else ok (mkBeaconFrame (getU32 (drop 0 bs)) (subspan 4 etag_bytes bs)
             (negb (getU8 (drop (4 + etag_bytes) bs) =? 0))).

(** ** CATALOG_READY (raw/catalog_ready.hpp) *)

Definition kCatalogReadyBytes : nat := etag_bytes.

Definition encodeCatalogReady (etag out : list byte) : list byte * nat :=
  if negb (length etag =? kCatalogReadyBytes)%nat then (out, 0%nat) else
  if (length out <? kCatalogReadyBytes)%nat then (out, 0%nat) else
  (splice 0 etag out, kCatalogReadyBytes).

Definition decodeCatalogReady (payload : list byte) : option (list byte) :=
  if negb (length payload =? kCatalogReadyBytes)%nat then None else Some payload.

(** ** CLOCK (raw/clock_frame.hpp) *)

Definition kClockRequestBytes : nat := 4.
Definition kClockReplyBytes : nat := 12.

Record ClockReply := mkClockReply { ck_t0 : Z; ck_t1 : Z; ck_t2 : Z }.

Definition encodeClockRequest (t0 : Z) (out : list byte) : list byte * nat :=
  if (length out <? kClockRequestBytes)%nat then (out, 0%nat) else putU32 out t0.

Definition decodeClockRequest (bs : list byte) : decoded Z :=
  if (length bs <? kClockRequestBytes)%nat then err Truncated else ok (getU32 (drop 0 bs)).

Definition encodeClockReply (r : ClockReply) (out : list byte) : list byte * nat :=
  if (length out <? kClockReplyBytes)%nat then (out, 0%nat) else
  let out := fst (on_subspan 0 (fun o => putU32 o (ck_t0 r)) out) in
  let out := fst (on_subspan 4 (fun o => putU32 o (ck_t1 r)) out) in
  let out := fst (on_subspan 8 (fun o => putU32 o (ck_t2 r)) out) in
  (out, kClockReplyBytes).

Definition decodeClockReply (bs : list byte) : decoded ClockReply :=
  if (length bs <? kClockReplyBytes)%nat then err Truncated
  else ok (mkClockReply (getU32 (drop 0 bs)) (getU32 (drop 4 bs)) (getU32 (drop 8 bs))).

Record ClockSync := mkClockSync { cs_offsetUs : Z; cs_rttUs : Z }.

Definition computeClockSync (t0 t1 t2 t3 : Z) : ClockSync :=
  let d1 := timeDelta t1 t0 in
  let d2 := timeDelta t2 t3 in
  let offset := Z.quot (d1 + d2) 2 in
  let dRttObserved := timeDelta t3 t0 in
  let dHubHold := timeDelta t2 t1 in
  let rtt := dRttObserved - dHubHold in
  mkClockSync (i32 offset) (u32 rtt).

(** ** PING/PONG and PROBE (raw/ping_pong.hpp, raw/probe.hpp) *)

Definition encodePing (payload out : list byte) : list byte * nat :=
  if (length out <? length payload)%nat then (out, 0%nat)
  else (splice 0 payload out, length payload).

Definition encodePong (pingPayload out : list byte) : list byte * nat := encodePing pingPayload out.

Definition kProbeIndexBytes : nat := 2.

Definition encodeProbeFrame (probeIndex : Z) (out : list byte) : list byte * nat :=
  if (length out <? kProbeIndexBytes)%nat then (out, 0%nat) else
  let out := fst (on_subspan 0 (fun o => putU16 o probeIndex) out) in
  (splice kProbeIndexBytes (replicate (length out - kProbeIndexBytes) Byte.x00) out, length out).

Definition decodeProbeFrame (bs : list byte) : decoded Z :=
  if (length bs <? kProbeIndexBytes)%nat then err Truncated else ok (getU16 (drop 0 bs)).

(** ** Codec instances *)

Lemma decode_size_guard {A} (n : nat) (bs : list byte) (a x : A) (E : DecodeError) :
  to_option (if (length bs <? n)%nat then err E else ok a) = Some x -> (n <= length bs)%nat /\ a = x.
Proof. destruct (Nat.ltb_spec (length bs) n); [done|]. intros [= ->]. done. Qed.

Definition AckMask_ok (m : AckMask) : Prop := in_u 16 (am_base_seq m) /\ in_u 32 (am_mask m).
Definition AckMask_bytes (m : AckMask) : list byte := le_bytes 2 (am_base_seq m) ++ le_bytes 4 (am_mask m).

#[export] Program Instance AckMask_codec : WireCodec AckMask := {|
  wire_size := kAckMaskBytes; wire_ok := AckMask_ok; wire_bytes := AckMask_bytes;
  wire_encode := encodeAckMask; wire_decode := fun l => to_option (decodeAckMask l) |}.
Next Obligation. unfold kAckMaskBytes. lia. Qed.
Next Obligation. done. Qed.
Next Obligation.
  unfold kAckMaskBytes. intros m out _ Hl. unfold encodeAckMask, kAckMaskBytes. rewrite (proj2 (Nat.ltb_ge _ _)) by done.
  write_fields. by expose_cells out 6%nat.
Qed.
Next Obligation. intros. unfold encodeAckMask. by rewrite (proj2 (Nat.ltb_lt _ _)). Qed.
Next Obligation.
  intros [b m] [H1 H2]. cbn in *. unfold decodeAckMask, AckMask_bytes. cbn -[getU16 getU32]. by read_fields.
Qed.
Next Obligation.
  intros l m [Hl <-]%decode_size_guard. unfold kAckMaskBytes in Hl. split; [apply getU16_range|].
  apply getU32_range. rewrite length_drop. lia.
Qed.

Definition ClockReply_ok (r : ClockReply) : Prop := in_u 32 (ck_t0 r) /\ in_u 32 (ck_t1 r) /\ in_u 32 (ck_t2 r).
Definition ClockReply_bytes (r : ClockReply) : list byte :=
  le_bytes 4 (ck_t0 r) ++ le_bytes 4 (ck_t1 r) ++ le_bytes 4 (ck_t2 r).

#[export] Program Instance ClockReply_codec : WireCodec ClockReply := {|
  wire_size := kClockReplyBytes; wire_ok := ClockReply_ok; wire_bytes := ClockReply_bytes;
  wire_encode := encodeClockReply; wire_decode := fun l => to_option (decodeClockReply l) |}.
Next Obligation. unfold kClockReplyBytes. lia. Qed.
Next Obligation. done. Qed.
Next Obligation.
  unfold kClockReplyBytes. intros r out _ Hl. unfold encodeClockReply, kClockReplyBytes. rewrite (proj2 (Nat.ltb_ge _ _)) by done.
  write_fields. by expose_cells out 12%nat.
Qed.
Next Obligation. intros. unfold encodeClockReply. by rewrite (proj2 (Nat.ltb_lt _ _)). Qed.
Next Obligation.
  intros [a b c] (H1 & H2 & H3). cbn in *. unfold decodeClockReply, ClockReply_bytes. cbn -[getU16 getU32]. by read_fields.
Qed.
Next Obligation.
  intros l m [Hl <-]%decode_size_guard. unfold kClockReplyBytes in Hl.
  repeat split; apply getU32_range; rewrite length_drop; lia.
Qed.

Definition BeaconFrame_ok (b : BeaconFrame) : Prop := in_u 32 (bf_boot_id b) /\ length (bf_etag b) = etag_bytes.
Definition BeaconFrame_bytes (b : BeaconFrame) : list byte :=
  le_bytes 4 (bf_boot_id b) ++ bf_etag b ++ [z2b (if bf_pairing_open b then 1 else 0)].

#[export] Program Instance BeaconFrame_codec : WireCodec BeaconFrame := {|
  wire_size := kBeaconFrameBytes; wire_ok := BeaconFrame_ok; wire_bytes := BeaconFrame_bytes;
  wire_encode := encodeBeacon; wire_decode := fun l => to_option (decodeBeacon l) |}.
Next Obligation. unfold kBeaconFrameBytes. lia. Qed.
Next Obligation. intros b [_ He]. unfold BeaconFrame_bytes. rewrite !length_app, length_le_bytes, He. done. Qed.
Next Obligation.
  change kBeaconFrameBytes with 13%nat. intros b out [_ He] Hl. unfold encodeBeacon. change kBeaconFrameBytes with 13%nat.
  rewrite (proj2 (Nat.ltb_ge _ _)) by done. unfold etag_bytes in *. write_fields. rewrite take_0. cbn [app]. rewrite He.
  rewrite on_subspan_putU8 by (rewrite length_splice; rewrite ?He; span_fits). cbn [fst].
  pose proof (take_splice 4 (bf_etag b) (le_bytes 4 (bf_boot_id b) ++ drop (0 + 4) out)) as Ht.
  rewrite He in Ht. rewrite Ht by span_fits.
  unfold BeaconFrame_bytes. rewrite take_app_length' by by rewrite length_le_bytes.
  rewrite <- !app_assoc. do 3 f_equal.
  pose proof (drop_splice 4 (bf_etag b) (le_bytes 4 (bf_boot_id b) ++ drop (0 + 4) out)) as Hd.
  rewrite He in Hd. rewrite <- (drop_drop _ _ (4 + 8)), Hd by span_fits.
  rewrite <- (drop_drop _ 8 4), drop_app_length' by by rewrite length_le_bytes. by rewrite !drop_drop.
Qed.
Next Obligation. intros. unfold encodeBeacon. by rewrite (proj2 (Nat.ltb_lt _ _)). Qed.
Next Obligation.
  intros [i e po] [H1 H2]. cbn [bf_boot_id bf_etag] in *. unfold etag_bytes in H2.
  unfold decodeBeacon, BeaconFrame_bytes. cbn [bf_boot_id bf_etag bf_pairing_open].
  do 8 (destruct e as [|? e]; [done|]). destruct e; [|done]. cbn. read_fields. by destruct po.
Qed.
Next Obligation.
  intros l b [Hl <-]%decode_size_guard. change kBeaconFrameBytes with 13%nat in Hl. split.
  - apply getU32_range. rewrite length_drop. lia.
  - cbn [bf_etag]. rewrite length_subspan. unfold etag_bytes. lia.
Qed.

(** ** Lemmas: ACKMASK tracking *)

(** Bit [i] of the mask says whether base+i was received. *)
Definition window_max (b : Z) (ss : list Z) : Z := foldl (fun b s => Z.max b (s - 31)) b ss.

(** Every sequence number is within half the cycle of the window base it meets. *)
Fixpoint near (b : Z) (ss : list Z) : Prop :=
  match ss with
  | [] => True
  | s :: ss' => b - 0x8000 < s < b + 0x8000 /\ near (Z.max b (s - 31)) ss'
  end.

Definition tracks (b : Z) (seen : Z -> Prop) (t : AckMask) : Prop :=
  am_base_seq t = u16 b /\ in_u 32 (am_mask t)
  /\ (forall x, seen x -> x <= b + 31)
  /\ forall i, 0 <= i < 32 -> Z.testbit (am_mask t) i = true <-> seen (b + i).

Lemma u16_sub s b : u16 (u16 s - u16 b) = u16 (s - b).
Proof. unfold wrap. by rewrite <- Zminus_mod. Qed.

(** The acceptance test of [record], on the unwrapped numbers. *)
Lemma record_stale s b :
  b - 0x8000 < s < b + 0x8000 ->
  negb (u16 s =? u16 b) && negb (seqIsNewer (u16 s) (u16 b)) = (s <? b).
Proof.
  intros Hs. unfold seqIsNewer. rewrite u16_sub.
  assert ((u16 s =? u16 b) = (s =? b)) as ->.
  { unfold wrap. change (2 ^ 16) with 65536. destruct (Z.eqb_spec s b) as [->|]; [apply Z.eqb_refl|].
    apply Z.eqb_neq. dlia. }
  unfold wrap. change (2 ^ 16) with 65536.
  assert ((s - b) mod 65536 = if s <? b then s - b + 65536 else s - b) as ->.
  { destruct (Z.ltb_spec s b); dlia. }
  destruct (Z.eqb_spec s b), (Z.ltb_spec s b); cbn; lia.
Qed.

Lemma testbit_lor_bit m d i :
  0 <= d -> 0 <= i -> Z.testbit (Z.lor m (2 ^ d)) i = true <-> Z.testbit m i = true \/ i = d.
Proof.
  intros Hd Hi. rewrite Z.lor_spec, Z.pow2_bits_eqb, orb_true_iff, Z.eqb_eq by done. naive_solver.
Qed.

Lemma record_tracks b seen t s :
  tracks b seen t -> b - 0x8000 < s < b + 0x8000 ->
  tracks (Z.max b (s - 31)) (fun x => seen x \/ x = s) (ack_record t (u16 s)).
Proof.
  intros (Hb & Hm & Hs & Hbits) Hnear. unfold ack_record. rewrite Hb, record_stale by done.
  destruct (Z.ltb_spec s b) as [Hlt|Hge].
  { rewrite Z.max_l by lia. split; [done|]. split; [done|]. split; [intros x [?| ->]; [by apply Hs|lia]|].
    intros i Hi. rewrite (Hbits i Hi). split; [by left|intros [?|?]; [done|lia]]. }
  rewrite u16_sub, swrap_wrap, swrap_small by lia. unfold kAckMaskWindow. change (Z.of_nat 32) with 32.
  destruct (Z.leb_spec 32 (s - b)) as [Hfar|Hin].
  - rewrite Z.max_r by lia. rewrite (wrap_small 16 (s - b - 32 + 1)) by (unfold in_u; lia).
    rewrite u32_bit by lia. set (m := if _ <=? _ then 0 else _).
    assert (in_u 32 m /\ forall i, 0 <= i -> Z.testbit m i = true <-> seen (s - 31 + i)) as [Hmr Hmb].
    { unfold m. destruct (Z.leb_spec 32 (s - b - 32 + 1)).
      - split; [by vm_compute|]. intros i Hi. rewrite Z.bits_0. split; [done|]. intros Hx%Hs. lia.
      - split.
        + rewrite Z.shiftr_div_pow2 by lia. destruct Hm as [Hm0 Hm1]. split; [by apply Z.div_pos; lia|].
          apply Z.le_lt_trans with (am_mask t); [|done]. apply Z.div_le_upper_bound; [lia|].
          pose proof (Z.pow_pos_nonneg 2 (s - b - 32 + 1)). nia.
        + intros i Hi. rewrite Z.shiftr_spec by lia. destruct (Z.lt_ge_cases (i + (s - b - 32 + 1)) 32).
          * rewrite Hbits by lia. by replace (b + (i + (s - b - 32 + 1))) with (s - 31 + i) by lia.
          * rewrite (testbit_high 32) by (done || lia). split; [done|]. intros Hx%Hs. lia. }
    split; [|split; [|split]]; cbn [am_base_seq am_mask].
    + unfold wrap. rewrite Zplus_mod_idemp_l. f_equal. lia.
    + apply lor_range; [lia|done|by apply bit_range].
    + intros x [Hx%Hs| ->]; lia.
    + intros i Hi. rewrite testbit_lor_bit, Hmb by lia. split; (intros [?|?]; [by left|right; lia]).
  - rewrite Z.max_l by lia. rewrite u32_bit by lia. split; [|split; [|split]]; cbn [am_base_seq am_mask].
    + done.
    + apply lor_range; [lia|done|by apply bit_range; lia].
    + intros x [?| ->]; [by apply Hs|lia].
    + intros i Hi. rewrite testbit_lor_bit, Hbits by lia. split; (intros [?|?]; [by left|right; lia]).
Qed.

Lemma records_track ss : forall b seen t,
  tracks b seen t -> near b ss ->
  tracks (window_max b ss) (fun x => seen x \/ x ∈ ss) (foldl ack_record t (map u16 ss)).
Proof.
  induction ss as [|s ss IH]; intros b seen t Ht Hn; cbn [foldl map window_max].
  - destruct Ht as (H1 & H2 & H3 & H4). split; [done|]. split; [done|]. split.
    + intros x [?|H%not_elem_of_nil]; [by apply H3|done].
    + intros i Hi. rewrite (H4 i Hi). split; [by left|]. by intros [?|H%not_elem_of_nil].
  - destruct Hn as [Hs Hn]. specialize (IH _ _ _ (record_tracks _ _ _ _ Ht Hs) Hn).
    destruct IH as (H1 & H2 & H3 & H4). split; [done|]. split; [done|].
    assert (forall x, (seen x \/ x = s) \/ x ∈ ss <-> seen x \/ x ∈ s :: ss) as Hiff
      by (intros x; rewrite elem_of_cons; tauto).
    split; [intros x Hx%Hiff; by apply H3|]. intros i Hi. by rewrite (H4 i Hi), Hiff.
Qed.

Lemma elem_unpackAckMask q b m :
  q ∈ unpackAckMask b m <-> exists i, 0 <= i < 32 /\ Z.testbit m i = true /\ q = u16 (b + i).
Proof.
  unfold unpackAckMask, kAckMaskWindow. rewrite list_elem_of_omap. split.
  - intros (n & Hn%elem_of_seq & Hq). rewrite Z.shiftl_1_l, land_bit, negb_involutive in Hq by lia.
    destruct (Z.testbit m (Z.of_nat n)) eqn:E; [|done]. injection Hq as <-.
    exists (Z.of_nat n). split; [lia|done].
  - intros (i & Hi & Hb & ->). exists (Z.to_nat i). split; [apply elem_of_seq; lia|].
    rewrite Z.shiftl_1_l, land_bit, negb_involutive, Z2Nat.id, Hb by lia. done.
Qed.

Lemma AckTracker_new_tracks b : tracks b (fun _ => False) (AckTracker_new (u16 b)).
Proof.
  split; [done|]. split; [by vm_compute|]. split; [done|]. intros i Hi. cbn. by rewrite Z.bits_0.
Qed.

(** ** Properties *)

(**  The ACKMASK window is exact: after any arrivals, each within half the sequence cycle
    of the window base it meets, the base is the largest of the start and every arrival less
    31, and a sender that decodes the transmitted mask and unpacks it obtains exactly the
    sequence numbers received inside the window, wrap-around included. *)
Theorem ackmask_exact (b : Z) (ss : list Z) (cap : nat) :
  near b ss -> (kAckMaskBytes <= cap)%nat ->
  let t := foldl ack_record (AckTracker_new (u16 b)) (map u16 ss) in
  let B := window_max b ss in
  am_base_seq t = u16 B
  /\ exists m, wire_decode (transmit cap (ack_snapshot t)) = Some m
       /\ forall q, q ∈ unpackAckMask (am_base_seq m) (am_mask m) <->
                    exists x, x ∈ ss /\ B <= x < B + 32 /\ q = u16 x.
Proof.
  intros Hn Hcap t B. destruct (records_track ss b _ _ (AckTracker_new_tracks b) Hn) as (H1 & H2 & _ & H4).
  change (foldl ack_record _ _) with t in H1, H2, H4. change (window_max b ss) with B in H1, H4. split; [done|]. exists (ack_snapshot t). split.
  - apply transmit_decode; [|done]. split; [|done]. cbn. rewrite H1. by apply wrap_range.
  - intros q. cbn [ack_snapshot am_base_seq am_mask]. rewrite elem_unpackAckMask, H1. split.
    + intros (i & Hi & Hb & ->). apply H4 in Hb as [[]|Hx]; [|done]. exists (B + i).
      split; [done|]. split; [lia|]. unfold wrap. by rewrite Zplus_mod_idemp_l.
    + intros (x & Hx & HB & ->). exists (x - B). split; [lia|]. split.
      * apply H4; [lia|]. right. by replace (B + (x - B)) with x by lia.
      * unfold wrap. rewrite Zplus_mod_idemp_l. f_equal. lia.
Qed.

Lemma ackmask_exact_witness :
  let t := foldl ack_record (AckTracker_new (u16 65530)) (map u16 [65531; 65540; 65535; 65570; 65539]) in
  am_base_seq t = 3
  /\ exists m, wire_decode (transmit 16 (ack_snapshot t)) = Some m
       /\ forall q, q ∈ unpackAckMask (am_base_seq m) (am_mask m) <->
            exists x, x ∈ [65531; 65540; 65535; 65570; 65539] /\ 65539 <= x < 65539 + 32 /\ q = u16 x.
Proof.
  apply (ackmask_exact 65530 [65531; 65540; 65535; 65570; 65539] 16).
  - cbn. lia.
  - unfold kAckMaskBytes. lia.
Defined.

(**  The clock exchange measures what it says: with client and hub clocks wrapping
    independently and the hub ahead by [theta], an exchange with uplink delay [d1], hold time
    [h] and downlink delay [d2] yields the round trip [d1 + d2] exactly and an offset whose
    error is at most half the asymmetry of the two delays, up to the half-unit of the
    truncating division. *)
Theorem clock_sync_bounds (c theta d1 h d2 : Z) :
  0 <= d1 -> 0 <= h -> 0 <= d2 -> d1 + h + d2 < 2 ^ 31 -> Z.abs theta + d1 + d2 < 2 ^ 31 ->
  let s := computeClockSync (u32 c) (u32 (c + d1 + theta)) (u32 (c + d1 + h + theta)) (u32 (c + d1 + h + d2)) in
  cs_rttUs s = d1 + d2 /\ Z.abs (2 * (cs_offsetUs s - theta)) <= Z.abs (d1 - d2) + 1
  /\ (d1 = d2 -> cs_offsetUs s = theta).
Proof.
  intros H1 H2 H3 H4 H5. unfold computeClockSync.
  assert (forall x y d, x = y + d -> - 2 ^ 31 <= d < 2 ^ 31 -> timeDelta (u32 x) (u32 y) = d) as Hd.
  { intros x y d -> Hr. rewrite <- (timeDelta_offset y d Hr) at 2.
    by rewrite <- (timeDelta_wraps (u32 (y + d)) y), wrap_wrap. }
  rewrite (Hd _ _ (d1 + theta)), (Hd _ _ (theta - d2)), (Hd _ _ (d1 + h + d2)), (Hd _ _ h) by lia.
  cbv zeta. cbn [cs_rttUs cs_offsetUs].
  pose proof (Z.quot_rem' (d1 + theta + (theta - d2)) 2) as Hq.
  pose proof (Z.rem_bound_abs (d1 + theta + (theta - d2)) 2 ltac:(lia)) as Hr.
  rewrite swrap_small by lia. rewrite wrap_small by (unfold in_u; lia). split; [lia|]. split; [lia|].
  intros ->. replace (d2 + theta + (theta - d2)) with (theta * 2) by lia. by apply Z.quot_mul.
Qed.

Lemma clock_sync_bounds_witness :
  cs_rttUs (computeClockSync (u32 4294967000) (u32 (4294967000 + 200 + 5000)) (u32 (4294967000 + 200 + 50 + 5000))
              (u32 (4294967000 + 200 + 50 + 300))) = 500.
Proof.
  apply (clock_sync_bounds 4294967000 5000 200 50 300); lia.
Defined.

(**  Every raw structure survives the wire: an ACKMASK, CLOCK reply or BEACON written into
    any span large enough for it is read back unchanged, as is a CATALOG_READY etag of eight
    bytes, the sequence of a padded PROBE frame and the payload a PONG echoes; and each
    encoder refuses a span that is too small without touching it. *)
Theorem raw_frames_roundtrip (m : AckMask) (r : ClockReply) (b : BeaconFrame) (etag out : list byte) (i : Z) :
  AckMask_ok m -> ClockReply_ok r -> BeaconFrame_ok b -> length etag = kCatalogReadyBytes -> in_u 16 i ->
  (16 <= length out)%nat ->
  wire_decode (transmit (length out) m) = Some m
  /\ wire_decode (transmit (length out) r) = Some r
  /\ wire_decode (transmit (length out) b) = Some b
  /\ (let '(o, n) := encodeCatalogReady etag out in decodeCatalogReady (take n o) = Some etag)
  /\ (let '(o, n) := encodeProbeFrame i out in n = length out /\ decodeProbeFrame (take n o) = ok i)
  /\ (let '(o, n) := encodePong etag out in take n o = etag)
  /\ (forall small, (length small < 2)%nat ->
       encodeAckMask m small = (small, 0%nat) /\ encodeClockReply r small = (small, 0%nat)
       /\ encodeBeacon b small = (small, 0%nat) /\ encodeCatalogReady etag small = (small, 0%nat)
       /\ encodeProbeFrame i small = (small, 0%nat) /\ encodePong etag small = (small, 0%nat)).
Proof.
  intros Hm Hr Hb He Hi Hl. unfold kCatalogReadyBytes, etag_bytes in He.
  split; [apply transmit_decode; [done|cbn; unfold kAckMaskBytes; lia]|].
  split; [apply transmit_decode; [done|cbn; unfold kClockReplyBytes; lia]|].
  split; [apply transmit_decode; [done|cbn; lia]|].
  split; [|split; [|split]].
  - unfold encodeCatalogReady, decodeCatalogReady, kCatalogReadyBytes, etag_bytes. rewrite He.
    rewrite (proj2 (Nat.ltb_ge _ _)) by lia. cbn [Nat.eqb negb]. rewrite splice_0, take_app_length' by done.
    by rewrite He.
  - unfold encodeProbeFrame, decodeProbeFrame, kProbeIndexBytes.
    rewrite (proj2 (Nat.ltb_ge _ _)) by lia. write_fields. rewrite take_0. cbn [app].
    assert (length (le_bytes 2 i ++ drop (0 + 2) out) = length out) as Hlen by span_fits.
    rewrite Hlen. split; [done|]. rewrite take_ge by (rewrite length_splice; rewrite ?length_replicate, ?Hlen; lia).
    rewrite length_splice by (rewrite length_replicate, Hlen; lia). rewrite Hlen, (proj2 (Nat.ltb_ge _ _)) by lia.
    rewrite drop_0. unfold splice. rewrite take_app_length' by by rewrite length_le_bytes.
    by rewrite getU16_bytes, wrap_small.
  - unfold encodePong, encodePing. rewrite (proj2 (Nat.ltb_ge _ _)) by lia.
    by rewrite splice_0, take_app_length.
  - intros small Hs. unfold encodeAckMask, encodeClockReply, encodeBeacon, encodeCatalogReady, encodeProbeFrame,
      encodePong, encodePing, kCatalogReadyBytes, etag_bytes, kAckMaskBytes, kClockReplyBytes, kProbeIndexBytes.
    change kBeaconFrameBytes with 13%nat. rewrite He. cbn [Nat.eqb negb].
    rewrite !(proj2 (Nat.ltb_lt _ _)) by lia. done.
Qed.

Lemma raw_frames_roundtrip_witness :
  wire_decode (transmit 20 (mkClockReply 1 2 3)) = Some (mkClockReply 1 2 3).
Proof.
  refine (proj1 (proj2 (raw_frames_roundtrip (mkAckMask 5 6) (mkClockReply 1 2 3)
    (mkBeaconFrame 7 (replicate 8 Byte.xff) true) (replicate 8 Byte.x01) (replicate 20 Byte.x00) 9 _ _ _ _ _ _))).
  - by split.
  - by repeat split.
  - by split.
  - reflexivity.
  - by split.
  - cbn. lia.
Defined.

(** ** DISCOVER_PROBE and DISCOVER_REPLY (messages/discover.hpp)

    The two datagrams by which a client finds a hub on the network; both layouts are fixed. *)

Module Discover.

Definition magic : list byte := [Byte.x56; Byte.x4c; Byte.x4e; Byte.x43].
Definition kDiscoverMagicBytes : nat := 4.
Definition kDiscoverHubNameBytes : nat := 32.
Definition kDiscoverFwVersionBytes : nat := 16.
Definition kDiscoverProbeBytes : nat := 9.
Definition kDiscoverReplyBytes : nat := 76.

Record DiscoverProbe := mkDiscoverProbe { dp_proto_ver : Z; dp_nonce : Z }.

Record DiscoverReply := mkDiscoverReply {
  dr_nonce : Z; dr_hub_name : list byte; dr_hub_instance_id : Z; dr_proto_ver : Z; dr_ws_port : Z;
  dr_fw_version : list byte; dr_catalog_etag : list byte; dr_flags : Z }.

(** A fixed-width string of [N] bytes: what does not fit is cut byte-wise, the rest is zero. *)
Definition setDiscoverString (N : nat) (text : list byte) : list byte :=
  let n := if (length text <? N)%nat then length text else N in
  take n text ++ replicate (N - n) Byte.x00.

(** Up to the first NUL. *)
Fixpoint discoverString (field : list byte) : list byte :=
  match field with
  | [] => []
  | b :: t => if b2z b =? 0 then [] else b :: discoverString t
  end.

Definition putDiscoverMagic (out : list byte) : list byte := splice 0 magic out.

Definition hasDiscoverMagic (inp : list byte) : bool := bool_decide (take kDiscoverMagicBytes inp = magic).

Definition putDiscoverU64 (out : list byte) (v : Z) : list byte :=
  let out := fst (on_subspan 0 (fun o => putU32 o (u32 v)) out) in
  fst (on_subspan 4 (fun o => putU32 o (u32 (Z.shiftr v 32))) out).

Definition getDiscoverU64 (inp : list byte) : Z :=
  Z.lor (getU32 (subspan 0 4 inp)) (u64 (Z.shiftl (getU32 (subspan 4 4 inp)) 32)).

Definition encodeDiscoverProbe (p : DiscoverProbe) (out : list byte) : list byte * nat :=
  if (length out <? kDiscoverProbeBytes)%nat then (out, 0%nat) else
  let out := putDiscoverMagic out in
  let out := fst (on_subspan 4 (fun o => putU8 o (dp_proto_ver p)) out) in
  let out := fst (on_subspan 5 (fun o => putU32 o (dp_nonce p)) out) in
  (out, kDiscoverProbeBytes).

Definition decodeDiscoverProbe (inp : list byte) : decoded DiscoverProbe :=
  if (length inp <? kDiscoverProbeBytes)%nat then err Truncated else
  if negb (length inp =? kDiscoverProbeBytes)%nat || negb (hasDiscoverMagic inp) then err Malformed else
  ok (mkDiscoverProbe (getU8 (subspan 4 1 inp)) (getU32 (subspan 5 4 inp))).

Definition encodeDiscoverReply (r : DiscoverReply) (out : list byte) : list byte * nat :=
  if (length out <? kDiscoverReplyBytes)%nat then (out, 0%nat) else
  let out := putDiscoverMagic out in
  let out := fst (on_subspan 4 (fun o => putU32 o (dr_nonce r)) out) in
  let out := splice 8 (dr_hub_name r) out in
  let out := fst (on_subspan 40 (fun o => (putDiscoverU64 o (dr_hub_instance_id r), 8%nat)) out) in
  let out := fst (on_subspan 48 (fun o => putU8 o (dr_proto_ver r)) out) in
  let out := fst (on_subspan 49 (fun o => putU16 o (dr_ws_port r)) out) in
  let out := splice 51 (dr_fw_version r) out in
  let out := splice 67 (dr_catalog_etag r) out in
  let out := fst (on_subspan 75 (fun o => putU8 o (dr_flags r)) out) in
  (out, kDiscoverReplyBytes).

Definition decodeDiscoverReply (inp : list byte) : decoded DiscoverReply :=
  if (length inp <? kDiscoverReplyBytes)%nat then err Truncated else
  if negb (length inp =? kDiscoverReplyBytes)%nat || negb (hasDiscoverMagic inp) then err Malformed else
  ok {| dr_nonce := getU32 (subspan 4 4 inp);
        dr_hub_name := subspan 8 kDiscoverHubNameBytes inp;
        dr_hub_instance_id := getDiscoverU64 (subspan 40 8 inp);
        dr_proto_ver := getU8 (subspan 48 1 inp);
        dr_ws_port := getU16 (subspan 49 2 inp);
        dr_fw_version := subspan 51 kDiscoverFwVersionBytes inp;
        dr_catalog_etag := subspan 67 etag_bytes inp;
        dr_flags := getU8 (subspan 75 1 inp) |}.

(** The golden vectors the file ends with. *)
Definition kU01Probe : list byte := map z2b [0x56; 0x4C; 0x4E; 0x43; 0x01; 0xA4; 0xA3; 0xA2; 0xA1].

Definition kU02Reply : list byte :=
  map z2b [0x56; 0x4C; 0x4E; 0x43; 0xA4; 0xA3; 0xA2; 0xA1;
           0x76; 0x61; 0x6C; 0x65; 0x6E; 0x63; 0x65; 0x2D; 0x66; 0x69; 0x78; 0x74; 0x75; 0x72; 0x65]
  ++ replicate 17 Byte.x00
  ++ map z2b [0x08; 0x07; 0x06; 0x05; 0x04; 0x03; 0x02; 0x01; 0x01; 0x52; 0x00; 0x31; 0x2E; 0x30; 0x2E; 0x30]
  ++ replicate 11 Byte.x00
  ++ map z2b [0x8C; 0x5D; 0x68; 0xF4; 0x1A; 0xD0; 0x32; 0x5E; 0x01].

Definition u01 : DiscoverProbe := mkDiscoverProbe 1 0xA1A2A3A4.

Definition u02 : DiscoverReply :=
  {| dr_nonce := 0xA1A2A3A4; dr_hub_name := setDiscoverString 32 (list_byte_of_string "valence-fixture"%string);
     dr_hub_instance_id := 0x0102030405060708; dr_proto_ver := 1; dr_ws_port := 82;
     dr_fw_version := setDiscoverString 16 (list_byte_of_string "1.0.0"%string);
     dr_catalog_etag := map z2b [0x8C; 0x5D; 0x68; 0xF4; 0x1A; 0xD0; 0x32; 0x5E]; dr_flags := 1 |}.

Example golden_vectors :
  fst (encodeDiscoverProbe u01 (replicate 9 Byte.x00)) = kU01Probe /\ decodeDiscoverProbe kU01Probe = ok u01
  /\ fst (encodeDiscoverReply u02 (replicate 76 Byte.xff)) = kU02Reply /\ decodeDiscoverReply kU02Reply = ok u02
  /\ decodeDiscoverProbe (take 8 kU01Probe) = err Truncated
  /\ decodeDiscoverProbe (kU01Probe ++ [Byte.x00]) = err Malformed
  /\ decodeDiscoverProbe (Byte.x00 :: tail kU01Probe) = err Malformed.
Proof. vm_compute. done. Qed.

(** *** Writing fields one after the other *)

Lemma on_subspan_next k put bs w pre rest :
  length pre = k -> (w <= length rest)%nat ->
  (forall o, (w <= length o)%nat -> put o = (bs ++ drop w o, w)) ->
  fst (on_subspan k put (pre ++ rest)) = (pre ++ bs) ++ drop w rest.
Proof.
  intros <- Hw Hput. unfold on_subspan. rewrite drop_app_length, Hput, take_app_length by done.
  cbn [fst]. by rewrite app_assoc.
Qed.

Lemma splice_next k bs pre rest :
  length pre = k -> splice k bs (pre ++ rest) = (pre ++ bs) ++ drop (length bs) rest.
Proof.
  intros <-. unfold splice. rewrite take_app_length, <- drop_drop, drop_app_length. by rewrite app_assoc.
Qed.

Lemma putDiscoverU64_spec o v :
  (8 <= length o)%nat -> putDiscoverU64 o v = le_bytes 4 (u32 v) ++ le_bytes 4 (u32 (Z.shiftr v 32)) ++ drop 8 o.
Proof.
  intros Hl. unfold putDiscoverU64. rewrite (on_subspan_next 0 _ (le_bytes 4 (u32 v)) 4 [] o)
    by (done || lia || (intros; by apply putU32_spec)).
  rewrite (on_subspan_next 4 _ (le_bytes 4 (u32 (Z.shiftr v 32))) 4)
    by (rewrite ?length_drop; done || lia || (intros; by apply putU32_spec)).
  by rewrite drop_drop, <- app_assoc.
Qed.

Lemma getDiscoverU64_range l : (8 <= length l)%nat -> in_u 64 (getDiscoverU64 l).
Proof.
  intros. apply lor_range; [lia| |by apply wrap_range].
  pose proof (getU32_range (subspan 0 4 l)) as Hr. rewrite length_subspan in Hr. specialize (Hr ltac:(lia)).
  unfold in_u in *. lia.
Qed.

Lemma u64_halves a b : in_u 32 a -> in_u 32 b ->
  let v := Z.lor a (u64 (Z.shiftl b 32)) in u32 v = a /\ u32 (Z.shiftr v 32) = b.
Proof.
  intros [Ha1 Ha2] [Hb1 Hb2]. cbv zeta. rewrite (wrap_small 64) by (unfold in_u; rewrite Z.shiftl_mul_pow2 by lia; lia).
  rewrite lor_shiftl_add by lia. rewrite Z.shiftr_div_pow2 by lia. unfold wrap. split; dlia.
Qed.

Lemma halves_u64 v : in_u 64 v -> Z.lor (u32 v) (u64 (Z.shiftl (u32 (Z.shiftr v 32)) 32)) = v.
Proof.
  intros [H1 H2]. rewrite Z.shiftr_div_pow2 by lia. rewrite (wrap_small 32 (v / _)) by (unfold in_u; dlia).
  rewrite (wrap_small 64) by (unfold in_u; rewrite Z.shiftl_mul_pow2 by lia; dlia).
  rewrite lor_shiftl_add by (unfold wrap; dlia). unfold wrap. dlia.
Qed.

(** *** Codec instances *)

Definition DiscoverProbe_ok (p : DiscoverProbe) : Prop := in_u 8 (dp_proto_ver p) /\ in_u 32 (dp_nonce p).
Definition DiscoverProbe_bytes (p : DiscoverProbe) : list byte :=
  magic ++ le_bytes 1 (dp_proto_ver p) ++ le_bytes 4 (dp_nonce p).

Definition DiscoverReply_ok (r : DiscoverReply) : Prop :=
  in_u 32 (dr_nonce r) /\ length (dr_hub_name r) = 32%nat /\ in_u 64 (dr_hub_instance_id r) /\ in_u 8 (dr_proto_ver r)
  /\ in_u 16 (dr_ws_port r) /\ length (dr_fw_version r) = 16%nat /\ length (dr_catalog_etag r) = 8%nat /\ in_u 8 (dr_flags r).

Definition DiscoverReply_bytes (r : DiscoverReply) : list byte :=
  magic ++ le_bytes 4 (dr_nonce r) ++ dr_hub_name r
  ++ le_bytes 4 (u32 (dr_hub_instance_id r)) ++ le_bytes 4 (u32 (Z.shiftr (dr_hub_instance_id r) 32))
  ++ le_bytes 1 (dr_proto_ver r) ++ le_bytes 2 (dr_ws_port r) ++ dr_fw_version r ++ dr_catalog_etag r ++ le_bytes 1 (dr_flags r).

(** What the decoder's guards leave. *)
Lemma fixed_guard {A} (n : nat) (inp : list byte) (a x : A) (E1 E2 : DecodeError) :
  (if (length inp <? n)%nat then err E1 else
   if negb (length inp =? n)%nat || negb (hasDiscoverMagic inp) then err E2 else ok a) = ok x <->
  length inp = n /\ take 4 inp = magic /\ a = x.
Proof.
  unfold hasDiscoverMagic, kDiscoverMagicBytes. destruct (Nat.ltb_spec (length inp) n); [split; [done|lia]|].
  destruct (Nat.eqb_spec (length inp) n); cbn [negb orb]; [|split; [done|tauto]].
  case_bool_decide; cbn; split; try tauto; try done; [intros [= ->]; tauto|intros (_ & _ & ->); done].
Qed.

Lemma subspan_app_skip {A} k n (a b : list A) :
  (length a <= k)%nat -> subspan k n (a ++ b) = subspan (k - length a) n b.
Proof. intros. unfold subspan. by rewrite drop_app_ge. Qed.

Lemma subspan_app_here {A} n (a b : list A) : length a = n -> subspan 0 n (a ++ b) = a.
Proof. intros. unfold subspan. rewrite drop_0. by apply take_app_length'. Qed.

(** A span cut at its fields. *)
Lemma cut_field {A} k n m (l : list A) : m = (k + n)%nat -> drop k l = subspan k n l ++ drop m l.
Proof. intros ->. unfold subspan. rewrite <- (drop_drop _ n k). by rewrite take_drop. Qed.

(** Reading a field and writing it back. *)
Lemma le_getU8 s : length s = 1%nat -> le_bytes 1 (getU8 s) = s.
Proof. intros H. rewrite getU8_spec, take_ge by lia. rewrite <- H. apply le_bytes_of_le. Qed.

Lemma le_getU16 s : length s = 2%nat -> le_bytes 2 (getU16 s) = s.
Proof. intros H. rewrite getU16_spec, take_ge by lia. rewrite <- H. apply le_bytes_of_le. Qed.

Lemma le_getU32 s : length s = 4%nat -> le_bytes 4 (getU32 s) = s.
Proof. intros H. rewrite getU32_spec, take_ge by lia. rewrite <- H. apply le_bytes_of_le. Qed.

Lemma le_getU64 s : length s = 8%nat ->
  le_bytes 4 (u32 (getDiscoverU64 s)) ++ le_bytes 4 (u32 (Z.shiftr (getDiscoverU64 s) 32)) = s.
Proof.
  intros H. unfold getDiscoverU64.
  destruct (u64_halves (getU32 (subspan 0 4 s)) (getU32 (subspan 4 4 s))) as [-> ->];
    [apply getU32_range; rewrite length_subspan; lia..|].
  rewrite !le_getU32 by (rewrite length_subspan; lia). unfold subspan. rewrite drop_0.
  rewrite (take_ge (drop 4 s)) by (rewrite length_drop; lia). apply take_drop.
Qed.

Ltac sub_len := rewrite ?length_subspan; unfold etag_bytes; lia.

Lemma decodeDiscoverProbe_exact l p :
  decodeDiscoverProbe l = ok p <-> DiscoverProbe_ok p /\ l = DiscoverProbe_bytes p.
Proof.
  unfold decodeDiscoverProbe. rewrite fixed_guard. unfold kDiscoverProbeBytes. split.
  - intros (Hl & Hm & <-). split; [split; [apply getU8_range|apply getU32_range; sub_len]|].
    unfold DiscoverProbe_bytes. cbn [dp_proto_ver dp_nonce]. rewrite le_getU8, le_getU32 by sub_len.
    rewrite <- Hm. rewrite <- (take_drop 4 l) at 1. f_equal.
    rewrite (cut_field 4 1 5), (cut_field 5 4 9), drop_ge, app_nil_r by (done || lia). done.
  - destruct p as [v n]. intros ([H1 H2] & ->). cbn in *. unfold DiscoverProbe_bytes, subspan.
    cbn [dp_proto_ver dp_nonce]. split; [done|]. split; [done|]. cbn -[getU8 getU32]. by read_fields.
Qed.

(** The reply's bytes, field after field. *)
Lemma reply_fields r : DiscoverReply_ok r ->
  let l := DiscoverReply_bytes r in
  length l = 76%nat /\ take 4 l = magic
  /\ subspan 4 4 l = le_bytes 4 (dr_nonce r) /\ subspan 8 32 l = dr_hub_name r
  /\ subspan 40 8 l = le_bytes 4 (u32 (dr_hub_instance_id r)) ++ le_bytes 4 (u32 (Z.shiftr (dr_hub_instance_id r) 32))
  /\ subspan 48 1 l = le_bytes 1 (dr_proto_ver r) /\ subspan 49 2 l = le_bytes 2 (dr_ws_port r)
  /\ subspan 51 16 l = dr_fw_version r /\ subspan 67 8 l = dr_catalog_etag r /\ subspan 75 1 l = le_bytes 1 (dr_flags r).
Proof.
  intros (_ & Hn & _ & _ & _ & Hf & He & _). unfold DiscoverReply_bytes.
  set (lo := le_bytes 4 (u32 _)). set (hi := le_bytes 4 (u32 (Z.shiftr _ _))). rewrite (app_assoc lo hi).
  assert (length (lo ++ hi) = 8%nat) as H8 by (rewrite length_app; unfold lo, hi; by rewrite !length_le_bytes).
  set (u := lo ++ hi) in *. set (a := le_bytes 4 (dr_nonce r)). set (b := le_bytes 1 (dr_proto_ver r)).
  set (c := le_bytes 2 (dr_ws_port r)). set (d := le_bytes 1 (dr_flags r)).
  assert (length magic = 4%nat) as Hm by done. assert (length a = 4%nat) as Ha by by apply length_le_bytes.
  assert (length b = 1%nat) as Hb by by apply length_le_bytes. assert (length c = 2%nat) as Hc by by apply length_le_bytes.
  assert (length d = 1%nat) as Hd by by apply length_le_bytes.
  cbv zeta. split; [rewrite !length_app; lia|]. split; [by apply take_app_length'|].
  clearbody a b c d u. clear lo hi.
  split_and!.
  all: repeat (rewrite subspan_app_skip by lia).
  all: rewrite ?Hm, ?Ha, ?Hb, ?Hc, ?Hd, ?H8, ?Hn, ?Hf, ?He.
  all: cbn [Nat.sub].
  all: first [by apply subspan_app_here | unfold subspan; rewrite drop_0; by apply take_ge; lia].
Qed.

Lemma decodeDiscoverReply_exact l r :
  decodeDiscoverReply l = ok r <-> DiscoverReply_ok r /\ l = DiscoverReply_bytes r.
Proof.
  unfold decodeDiscoverReply. rewrite fixed_guard.
  unfold kDiscoverReplyBytes, kDiscoverHubNameBytes, kDiscoverFwVersionBytes, etag_bytes. split.
  - intros (Hl & Hm & <-). split.
    { unfold DiscoverReply_ok. cbn. rewrite !length_subspan.
      split_and!; auto with valence; try (apply getU32_range || apply getDiscoverU64_range; sub_len); lia. }
    unfold DiscoverReply_bytes. cbn [dr_nonce dr_hub_name dr_hub_instance_id dr_proto_ver dr_ws_port dr_fw_version dr_catalog_etag dr_flags].
    rewrite !le_getU8, le_getU16, le_getU32 by sub_len.
    rewrite (app_assoc (le_bytes 4 (u32 _))), le_getU64 by sub_len.
    rewrite <- Hm. rewrite <- (take_drop 4 l) at 1. f_equal.
    rewrite (cut_field 4 4 8), (cut_field 8 32 40), (cut_field 40 8 48), (cut_field 48 1 49), (cut_field 49 2 51),
      (cut_field 51 16 67), (cut_field 67 8 75), (cut_field 75 1 76), (drop_ge l 76), app_nil_r by (done || lia). done.
  - intros (Hok & ->). pose proof (reply_fields r Hok) as (H0 & H1 & H2 & H3 & H4 & H5 & H6 & H7 & H8 & H9).
    split; [done|]. split; [done|]. rewrite H2, H3, H4, H5, H6, H7, H8, H9.
    destruct Hok as (R1 & _ & R2 & R3 & R4 & _ & _ & R5).
    rewrite <- (app_nil_r (le_bytes 4 (dr_nonce r))), <- (app_nil_r (le_bytes 1 (dr_proto_ver r))),
      <- (app_nil_r (le_bytes 2 (dr_ws_port r))), <- (app_nil_r (le_bytes 1 (dr_flags r))).
    rewrite getU32_bytes, !getU8_bytes, getU16_bytes.
    unfold getDiscoverU64, subspan. rewrite drop_0, take_app_length', drop_app_length' by by rewrite length_le_bytes.
    rewrite <- (app_nil_r (le_bytes 4 (u32 (dr_hub_instance_id r)))), take_ge by by rewrite length_le_bytes.
    rewrite <- (app_nil_r (le_bytes 4 (u32 (Z.shiftr _ _)))), !getU32_bytes, !wrap_wrap.
    rewrite halves_u64, (wrap_small 32 (dr_nonce r)), (wrap_small 16), !(wrap_small 8) by done. by destruct r.
Qed.

Lemma putDiscoverMagic_spec out : putDiscoverMagic out = magic ++ drop 4 out.
Proof. exact (splice_next 0 magic [] out eq_refl). Qed.

Ltac next_field :=
  first [ rewrite (on_subspan_next _ _ (le_bytes 4 _) 4) by (try (intros; apply putU32_spec; lia); span_lens)
        | rewrite (on_subspan_next _ _ (le_bytes 2 _) 2) by (try (intros; apply putU16_spec; lia); span_lens)
        | rewrite (on_subspan_next _ _ (le_bytes 1 _) 1) by (try (intros; apply putU8_spec; lia); span_lens)
        | rewrite splice_next by span_lens ]
with span_lens := rewrite ?length_drop, ?length_app, ?length_le_bytes; cbn [length magic app] in *; lia.

Lemma encodeDiscoverProbe_fits p out :
  (9 <= length out)%nat -> encodeDiscoverProbe p out = (DiscoverProbe_bytes p ++ drop 9 out, 9%nat).
Proof.
  intros Hl. unfold encodeDiscoverProbe, kDiscoverProbeBytes. rewrite (proj2 (Nat.ltb_ge _ _)) by done.
  rewrite putDiscoverMagic_spec. cbv zeta.
  repeat next_field. cbn [length magic]. rewrite !drop_drop. f_equal.
Qed.

Lemma encodeDiscoverReply_fits r out :
  DiscoverReply_ok r -> (76 <= length out)%nat ->
  encodeDiscoverReply r out = (DiscoverReply_bytes r ++ drop 76 out, 76%nat).
Proof.
  intros (_ & Hn & _ & _ & _ & Hf & He & _) Hl. unfold encodeDiscoverReply, kDiscoverReplyBytes.
  rewrite (proj2 (Nat.ltb_ge _ _)) by done.
  rewrite putDiscoverMagic_spec. cbv zeta.
  next_field. next_field.
  rewrite (on_subspan_next 40 _ (le_bytes 4 (u32 (dr_hub_instance_id r)) ++ le_bytes 4 (u32 (Z.shiftr (dr_hub_instance_id r) 32))) 8);
    [|span_lens..|intros; rewrite putDiscoverU64_spec by done; by rewrite <- app_assoc].
  repeat next_field. cbn [length magic]. rewrite Hn, Hf, He, !drop_drop. f_equal. unfold DiscoverReply_bytes. by rewrite <- !app_assoc.
Qed.

Lemma discoverString_set N text :
  discoverString (setDiscoverString N text) = discoverString (take N text) /\ length (setDiscoverString N text) = N.
Proof.
  unfold setDiscoverString. assert ((if (length text <? N)%nat then length text else N) = length text `min` N)%nat as ->.
  { destruct (Nat.ltb_spec (length text) N); lia. }
  assert (take (length text `min` N) text = take N text) as ->.
  { destruct (le_lt_dec (length text) N); [|f_equal; lia]. by rewrite Nat.min_l, !take_ge by lia. }
  split; [|rewrite length_app, length_take, length_replicate; lia].
  set (z := replicate _ _). assert (discoverString z = []) as Hz by (unfold z; by destruct (N - _)%nat).
  induction (take N text) as [|b t IH]; [done|]. cbn. by rewrite IH.
Qed.

#[export] Program Instance DiscoverProbe_codec : WireCodec DiscoverProbe := {|
  wire_size := kDiscoverProbeBytes; wire_ok := DiscoverProbe_ok; wire_bytes := DiscoverProbe_bytes;
  wire_encode := encodeDiscoverProbe; wire_decode := fun l => to_option (decodeDiscoverProbe l) |}.
Next Obligation. unfold kDiscoverProbeBytes. lia. Qed.
Next Obligation. done. Qed.
Next Obligation. intros. by apply encodeDiscoverProbe_fits. Qed.
Next Obligation. intros. unfold encodeDiscoverProbe. by rewrite (proj2 (Nat.ltb_lt _ _)). Qed.
Next Obligation. intros p Hp. cbv beta. by rewrite (proj2 (decodeDiscoverProbe_exact (DiscoverProbe_bytes p) p) (conj Hp eq_refl)). Qed.
Next Obligation.
  intros l p. cbv beta. destruct (decodeDiscoverProbe l) eqn:E; [|done]. intros [= ->]. by apply decodeDiscoverProbe_exact in E as [? _].
Qed.

#[export] Program Instance DiscoverReply_codec : WireCodec DiscoverReply := {|
  wire_size := kDiscoverReplyBytes; wire_ok := DiscoverReply_ok; wire_bytes := DiscoverReply_bytes;
  wire_encode := encodeDiscoverReply; wire_decode := fun l => to_option (decodeDiscoverReply l) |}.
Next Obligation. unfold kDiscoverReplyBytes. lia. Qed.
Next Obligation. intros r Hr. by apply reply_fields. Qed.
Next Obligation. intros. by apply encodeDiscoverReply_fits. Qed.
Next Obligation. intros. unfold encodeDiscoverReply. by rewrite (proj2 (Nat.ltb_lt _ _)). Qed.
Next Obligation. intros r Hr. cbv beta. by rewrite (proj2 (decodeDiscoverReply_exact (DiscoverReply_bytes r) r) (conj Hr eq_refl)). Qed.
Next Obligation.
  intros l r. cbv beta. destruct (decodeDiscoverReply l) eqn:E; [|done]. intros [= ->]. by apply decodeDiscoverReply_exact in E as [? _].
Qed.

(** *** Properties *)

(** Discovery is exact: a probe and a reply survive the wire, a datagram is taken as one of them only when it is,
    byte for byte, what the encoder writes for the message read from it, none is taken for both, a span too small is
    left alone, and a name is read back up to its first NUL, cut to its field. *)
Theorem discovery_exact (p : DiscoverProbe) (r : DiscoverReply) (l name out : list byte) :
  DiscoverProbe_ok p -> DiscoverReply_ok r -> (76 <= length out)%nat ->
  decodeDiscoverProbe (transmit (length out) p) = ok p /\ decodeDiscoverReply (transmit (length out) r) = ok r
  /\ (forall q, decodeDiscoverProbe l = ok q -> l = fst (encodeDiscoverProbe q (replicate 9 Byte.x00)))
  /\ (forall q, decodeDiscoverReply l = ok q ->
        l = fst (encodeDiscoverReply q (replicate 76 Byte.x00)) /\ forall q', decodeDiscoverProbe l <> ok q')
  /\ (forall small, (length small < 9)%nat -> encodeDiscoverProbe p small = (small, 0%nat) /\ encodeDiscoverReply r small = (small, 0%nat))
  /\ discoverString (setDiscoverString 32 name) = discoverString (take 32 name).
Proof.
  intros Hp Hr Hl.
  assert (forall q, DiscoverProbe_ok q -> length (DiscoverProbe_bytes q) = 9%nat) as Hlp by by intros q [_ _].
  split_and!.
  - rewrite transmit_bytes, (proj2 (Nat.leb_le _ _)) by (done || (change (wire_size DiscoverProbe) with 9%nat; lia)).
    by apply decodeDiscoverProbe_exact.
  - rewrite transmit_bytes, (proj2 (Nat.leb_le _ _)) by done. by apply decodeDiscoverReply_exact.
  - intros q [Hq ->]%decodeDiscoverProbe_exact. rewrite encodeDiscoverProbe_fits by done. cbn [fst].
    by rewrite drop_ge, app_nil_r by done.
  - intros q [Hq ->]%decodeDiscoverReply_exact. split.
    + rewrite encodeDiscoverReply_fits by done. cbn [fst]. by rewrite drop_ge, app_nil_r by done.
    + intros q' [Hq' E]%decodeDiscoverProbe_exact. apply (f_equal length) in E.
      rewrite (proj1 (reply_fields q Hq)), Hlp in E by done. done.
  - intros small Hs. unfold encodeDiscoverProbe, encodeDiscoverReply, kDiscoverProbeBytes, kDiscoverReplyBytes.
    by rewrite !(proj2 (Nat.ltb_lt _ _)) by lia.
  - apply discoverString_set.
Qed.

Lemma discovery_exact_witness :
  decodeDiscoverReply (transmit 100 u02) = ok u02.
Proof.
  refine (proj1 (proj2 (discovery_exact u01 u02 [] [] (replicate 100 Byte.x00) _ _ _))).
  - by split.
  - by repeat split.
  - cbn. lia.
Defined.

End Discover.
