(* ===== verification/Fragmentation.v ===== *)
(** * Fragmentation: control-plane fragmentation and reassembly (wire/fragmentation.hpp)

    The fragmenter threads its scratch buffer from one emitted fragment to the next, the
    reassembler is a table of two slots with explicit counters.  The main theorem takes the
    fragmenter's output through the reassembler in any order, with duplicates, while an
    arbitrary second message is being reassembled. *)

From S2P Require Import Prelude ByteIO SerialArith Frame Estop Collect.
From stdpp Require Import gmap fin_sets.
#[local] Open Scope Z_scope.

Definition kFragIndexBytes : nat := 2.
Definition frag_reassembly_timeout_ms : Z := 5000.
Definition frag_max_concurrent_per_session : nat := 2.
Definition kMaxFragmentsPerMessage : Z := 32.
Definition kMaxSlotPayload : nat := kFrameBufferCapacity - kHeaderBytes.

(** ** The fragmenter *)

Definition looksLikeEstop (f : list byte) : bool := (length f =? kEstopFrameBytes)%nat && magic_at f 0.

(** Fragment [i]: the scratch buffer after it, and the emitted span. *)
Definition fragment_at (header : FrameHeader) (payload : list byte) (budget numFragments i : nat)
    (scratch : list byte) : list byte * list byte :=
  let total := length payload in
  let offset := (i * budget)%nat in
  let len := Nat.min budget (total - offset) in
  let fl := 0 in
  let fl := if (i =? 0)%nat then Z.lor fl FRAG_START else fl in
  let fl := if (i + 1 <? numFragments)%nat then Z.lor fl FRAG_MORE else fl in
  let fh := mkFrameHeader (fh_type header) fl (fh_channel header) (fh_seq header)
              (u16 (Z.of_nat (kFragIndexBytes + len))) in
  let '(out, pos) := encodeFrameHeader fh scratch in
  let '(out, n) := on_subspan pos (fun o => putU16 o (u16 (Z.of_nat i))) out in
  let pos := (pos + n)%nat in
  let out := splice pos (subspan offset len payload) out in
  let pos := (pos + len)%nat in
  (out, take pos out).

Fixpoint emit_loop (header : FrameHeader) (payload : list byte) (budget numFragments : nat)
    (fuel i : nat) (scratch : list byte) : list (list byte) :=
  match fuel with
  | O => []
  | S fuel' =>
      let '(scratch, f) := fragment_at header payload budget numFragments i scratch in
      f :: emit_loop header payload budget numFragments fuel' (S i) scratch
  end.

(** [None] is [return false]; [Some fs] the spans handed to [emit], in order.  The debug
    build's assert on the ESTOP shape is the release build's [return false]. *)
Definition fragmentFrame (wholeFrame : list byte) (maxFrameBytes : nat) : option (list (list byte)) :=
  if (kFrameBufferCapacity <? maxFrameBytes)%nat then None else
  if (length wholeFrame <=? maxFrameBytes)%nat then Some [wholeFrame] else
  if looksLikeEstop wholeFrame then None else
  match decodeFrameHeader wholeFrame with
  | None => None
  | Some header =>
      if (maxFrameBytes <=? kHeaderBytes + kFragIndexBytes)%nat then None else
      let payload := drop kHeaderBytes wholeFrame in
      let budget := (maxFrameBytes - kHeaderBytes - kFragIndexBytes)%nat in
      let numFragments := ((length payload + budget - 1) / budget)%nat in
      Some (emit_loop header payload budget numFragments numFragments 0
              (replicate kFrameBufferCapacity Byte.x00))
  end.

(** ** The reassembler *)

Record Slot := mkSlot {
  s_active : bool; s_type : Z; s_channel : Z; s_seq : Z; s_startMs : Z;
  s_unitLen : Z; s_totalFragments : Z; s_lastFragLen : Z; s_receivedMask : Z; s_receivedCount : Z;
  s_havePendingLast : bool; s_pendingLastIndex : Z; s_pendingLastLen : Z;
  s_pendingLastBytes : list byte; s_data : list byte }.

Definition Slot_new : Slot :=
  mkSlot false 0 0 0 0 0 0 0 0 0 false 0 0
    (replicate kMaxSlotPayload Byte.x00) (replicate kMaxSlotPayload Byte.x00).

Definition Slot_open (type seq nowMs : Z) : Slot :=
  mkSlot true type 0 seq nowMs 0 0 0 0 0 false 0 0
    (replicate kMaxSlotPayload Byte.x00) (replicate kMaxSlotPayload Byte.x00).

Definition set_channel (s : Slot) (c : Z) : Slot :=
  mkSlot (s_active s) (s_type s) c (s_seq s) (s_startMs s) (s_unitLen s) (s_totalFragments s)
    (s_lastFragLen s) (s_receivedMask s) (s_receivedCount s) (s_havePendingLast s)
    (s_pendingLastIndex s) (s_pendingLastLen s) (s_pendingLastBytes s) (s_data s).

Definition set_unitLen (s : Slot) (u : Z) : Slot :=
  mkSlot (s_active s) (s_type s) (s_channel s) (s_seq s) (s_startMs s) u (s_totalFragments s)
    (s_lastFragLen s) (s_receivedMask s) (s_receivedCount s) (s_havePendingLast s)
    (s_pendingLastIndex s) (s_pendingLastLen s) (s_pendingLastBytes s) (s_data s).

Definition set_total (s : Slot) (n l : Z) : Slot :=
  mkSlot (s_active s) (s_type s) (s_channel s) (s_seq s) (s_startMs s) (s_unitLen s) n
    l (s_receivedMask s) (s_receivedCount s) (s_havePendingLast s)
    (s_pendingLastIndex s) (s_pendingLastLen s) (s_pendingLastBytes s) (s_data s).

Definition set_placed (s : Slot) (mask count : Z) (data : list byte) : Slot :=
  mkSlot (s_active s) (s_type s) (s_channel s) (s_seq s) (s_startMs s) (s_unitLen s)
    (s_totalFragments s) (s_lastFragLen s) mask count (s_havePendingLast s)
    (s_pendingLastIndex s) (s_pendingLastLen s) (s_pendingLastBytes s) data.

Definition set_pending (s : Slot) (have : bool) (i l : Z) (bs : list byte) : Slot :=
  mkSlot (s_active s) (s_type s) (s_channel s) (s_seq s) (s_startMs s) (s_unitLen s)
    (s_totalFragments s) (s_lastFragLen s) (s_receivedMask s) (s_receivedCount s) have
    i l bs (s_data s).

(** [None] is the capacity overflow. *)
Definition placeFragment (s : Slot) (index : Z) (bytes : list byte) : option Slot :=
  if negb (Z.land (s_receivedMask s) (u32 (Z.shiftl 1 index)) =? 0) then Some s else
  let offset := Z.to_nat (index * s_unitLen s) in
  if (length (s_data s) <? offset + length bytes)%nat then None else
  Some (set_placed s (Z.lor (s_receivedMask s) (u32 (Z.shiftl 1 index)))
          (u16 (s_receivedCount s + 1)) (splice offset bytes (s_data s))).

Record Stats := mkStats { st_completed : Z; st_timeouts : Z; st_evictions : Z }.

Record Reassembler := mkReassembler { r_slots : list Slot; r_stats : Stats }.

Definition Reassembler_new : Reassembler :=
  mkReassembler (replicate frag_max_concurrent_per_session Slot_new) (mkStats 0 0 0).

Definition slot_matches (type seq : Z) (s : Slot) : bool :=
  s_active s && (s_type s =? type) && (s_seq s =? seq).

Definition findSlot (ss : list Slot) (type seq : Z) : option (nat * Slot) :=
  list_find (fun s => slot_matches type seq s) ss.

Definition expireOne (r : Reassembler) (type seq nowMs : Z) : Reassembler :=
  match findSlot (r_slots r) type seq with
  | None => r
  | Some (i, s) =>
      if timeReached nowMs (u32 (s_startMs s + frag_reassembly_timeout_ms))
      then mkReassembler (<[i := Slot_new]> (r_slots r))
             (mkStats (st_completed (r_stats r)) (u32 (st_timeouts (r_stats r) + 1)) (st_evictions (r_stats r)))
      else r
  end.

(** The eviction scan: [best] is the position and age of the oldest slot so far. *)
Fixpoint oldest_loop (ss : list Slot) (nowMs : Z) (i : nat) (best : nat * Z) : nat :=
  match ss with
  | [] => fst best
  | s :: ss' =>
      let age := timeDelta nowMs (s_startMs s) in
      oldest_loop ss' nowMs (S i) (if snd best <? age then (i, age) else best)
  end.

Definition allocSlot (r : Reassembler) (type seq nowMs : Z) : Reassembler * nat :=
  let s' := Slot_open type seq nowMs in
  match list_find (fun s => negb (s_active s)) (r_slots r) with
  | Some (i, _) => (mkReassembler (<[i := s']> (r_slots r)) (r_stats r), i)
  | None =>
      let age0 := match r_slots r with s :: _ => timeDelta nowMs (s_startMs s) | [] => 0 end in
      let i := oldest_loop (r_slots r) nowMs 0 (0%nat, age0) in
      (mkReassembler (<[i := s']> (r_slots r))
         (mkStats (st_completed (r_stats r)) (st_timeouts (r_stats r)) (u32 (st_evictions (r_stats r) + 1))), i)
  end.

(** The three-way branch of [accept]; [None] is [overflowed]. *)
Definition slot_accept (s : Slot) (header : FrameHeader) (index : Z) (slice : list byte) : option Slot :=
  let len := u16 (Z.of_nat (length slice)) in
  if fragStart header && negb (fragMore header) then
    placeFragment (set_total s 1 len) 0 slice
  else if fragMore header then
    let s := if s_unitLen s =? 0 then set_unitLen s len else s in
    match placeFragment s index slice with
    | None => None
    | Some s =>
        if s_havePendingLast s && negb (s_unitLen s =? 0) then
          match placeFragment s (s_pendingLastIndex s)
                  (take (Z.to_nat (s_pendingLastLen s)) (s_pendingLastBytes s)) with
          | None => None
          | Some s => Some (set_pending s false (s_pendingLastIndex s) (s_pendingLastLen s) (s_pendingLastBytes s))
          end
        else Some s
    end
  else
    let s := set_total s (u16 (index + 1)) len in
    if negb (s_unitLen s =? 0) then placeFragment s index slice
    else if (length (s_pendingLastBytes s) <? length slice)%nat then None
    else Some (set_pending s true index len (splice 0 slice (s_pendingLastBytes s))).

(** The reply of [checkComplete] and what becomes of the slot. *)
Definition checkComplete (s : Slot) : Slot * decoded (option FrameBuffer) :=
  if (s_totalFragments s =? 0) || negb (s_receivedCount s =? s_totalFragments s) then (s, ok None) else
  let totalLen := (s_totalFragments s - 1) * s_unitLen s + s_lastFragLen s in
  if Z.of_nat (kFrameBufferCapacity - kHeaderBytes) <? totalLen then (Slot_new, err CapacityExceeded) else
  let outHeader := mkFrameHeader (s_type s) 0 (s_channel s) (s_seq s) (u16 totalLen) in
  let '(out, pos) := encodeFrameHeader outHeader (writable FrameBuffer_new) in
  let out := splice pos (take (Z.to_nat totalLen) (s_data s)) out in
  let fb := setSize (store FrameBuffer_new out) (pos + Z.to_nat totalLen) in
  (Slot_new, ok (Some fb)).

(** The lookup half of [accept]: lazy expiry, then the key's slot or a newly allocated one. *)
Definition acquireSlot (r : Reassembler) (type seq nowMs : Z) : Reassembler * nat :=
  let r := expireOne r type seq nowMs in
  match findSlot (r_slots r) type seq with
  | Some (i, _) => (r, i)
  | None => allocSlot r type seq nowMs
  end.

Definition accept (r : Reassembler) (header : FrameHeader) (fragPayload : list byte) (nowMs : Z)
  : Reassembler * decoded (option FrameBuffer) :=
  if (length fragPayload <? kFragIndexBytes)%nat then (r, ok None) else
  let index := getU16 (subspan 0 2 fragPayload) in
  if kMaxFragmentsPerMessage <=? index then (r, err CapacityExceeded) else
  let slice := drop kFragIndexBytes fragPayload in
  let '(r, i) := acquireSlot r (fh_type header) (fh_seq header) nowMs in
  match r_slots r !! i with
  | None => (r, ok None)
  | Some s =>
      let s := set_channel s (fh_channel header) in
      match slot_accept s header index slice with
      | None => (mkReassembler (<[i := Slot_new]> (r_slots r)) (r_stats r), err CapacityExceeded)
      | Some s =>
          let '(s, res) := checkComplete s in
          let st := r_stats r in
          let st := match res with
                    | ok (Some _) => mkStats (u32 (st_completed st + 1)) (st_timeouts st) (st_evictions st)
                    | _ => st
                    end in
          (mkReassembler (<[i := s]> (r_slots r)) st, res)
      end
  end.

(** The sweep visits the slots in place, each by its own (type, seq). *)
Definition expireStale (r : Reassembler) (nowMs : Z) : Reassembler :=
  foldl (fun r i => match r_slots r !! i with
                    | Some s => if s_active s then expireOne r (s_type s) (s_seq s) nowMs else r
                    | None => r
                    end) r (seq 0 frag_max_concurrent_per_session).

(** ** Lemmas: the fragmenter's output *)

(** A message of header [h] and payload [p] cut into [N] fragments of budget [U]. *)
Definition frag_message (h : FrameHeader) (p : list byte) (U N : nat) : Prop :=
  FrameHeader_ok h /\ (0 < U)%nat /\ (length p <= kMaxSlotPayload)%nat
  /\ N = ((length p + U - 1) / U)%nat /\ (2 <= N <= 32)%nat.

Section message.
Context (h : FrameHeader) (p : list byte) (U N : nat).
Context (Hm : frag_message h p U N).

Definition frag_flags (i : nat) : Z :=
  (if (i =? 0)%nat then FRAG_START else 0) + (if (i + 1 <? N)%nat then FRAG_MORE else 0).

Definition frag_header (i : nat) : FrameHeader :=
  mkFrameHeader (fh_type h) (frag_flags i) (fh_channel h) (fh_seq h) (2 + Z.of_nat (length (piece U p i))).

Definition frag_payload (i : nat) : list byte := le_bytes 2 (Z.of_nat i) ++ piece U p i.

Definition frag_bytes (i : nat) : list byte := FrameHeader_bytes (frag_header i) ++ frag_payload i.

Lemma ceil_bounds : ((N - 1) * U < length p <= N * U)%nat.
Proof.
  destruct Hm as (_ & HU & _ & HN & HN2). pose proof (Nat.div_mod_eq (length p + U - 1) U) as Hd.
  pose proof (Nat.mod_upper_bound (length p + U - 1) U ltac:(lia)) as Hr. rewrite <- HN in Hd. nia.
Qed.

Lemma message_bounds : (0 < U)%nat /\ (length p <= kMaxSlotPayload)%nat /\ (2 <= N <= 32)%nat.
Proof. destruct Hm as (_ & ? & ? & _ & ?). lia. Qed.

Lemma slice_full i : (i + 1 < N)%nat -> length (piece U p i) = U.
Proof. intros. pose proof message_bounds. rewrite length_piece. pose proof ceil_bounds. nia. Qed.

Lemma slice_last : length (piece U p (N - 1)) = (length p - (N - 1) * U)%nat.
Proof. pose proof message_bounds. rewrite length_piece. pose proof ceil_bounds. nia. Qed.

Lemma U_bound : (U <= kMaxSlotPayload)%nat.
Proof. pose proof message_bounds. pose proof ceil_bounds. nia. Qed.

Lemma slice_bound i : (i < N)%nat -> (0 < length (piece U p i) <= U)%nat /\ (i * U + length (piece U p i) <= length p)%nat.
Proof. intros. pose proof message_bounds. rewrite length_piece. pose proof ceil_bounds. nia. Qed.

Lemma frag_header_ok i : (i < N)%nat -> FrameHeader_ok (frag_header i).
Proof.
  intros Hi. destruct Hm as ((H1 & _ & H3 & H4 & _) & _ & Hp & _ & HN2). unfold FrameHeader_ok, frag_header.
  cbn [fh_type fh_flags fh_channel fh_seq fh_len]. pose proof (slice_bound i Hi).
  unfold kMaxSlotPayload, kFrameBufferCapacity, kHeaderBytes in *.
  split; [done|]. split; [|split; [done|split; [done|unfold in_u; lia]]].
  unfold frag_flags, in_u, FRAG_START, FRAG_MORE. destruct (i =? 0)%nat, (i + 1 <? N)%nat; by vm_compute.
Qed.

Lemma length_frag_bytes i : length (frag_bytes i) = (10 + length (piece U p i))%nat.
Proof. unfold frag_bytes, frag_payload. rewrite !length_app, length_le_bytes. cbn. lia. Qed.

Lemma slice_min i : subspan (i * U) (length (piece U p i)) p = piece U p i.
Proof.
  unfold piece, subspan. rewrite length_take.
  destruct (Nat.min_spec U (length (drop (i * U) p))) as [[? ->]|[? ->]]; [done|].
  by rewrite !take_ge by lia.
Qed.

Lemma fragment_at_spec i scratch :
  (i < N)%nat -> length scratch = kFrameBufferCapacity -> (10 + U <= kFrameBufferCapacity)%nat ->
  exists scratch', fragment_at h p U N i scratch = (scratch', frag_bytes i)
                   /\ length scratch' = kFrameBufferCapacity.
Proof.
  intros Hi Hs HU'. unfold fragment_at, kFrameBufferCapacity in *. pose proof (slice_bound i Hi) as [Hsb Hsb'].
  cbv zeta. assert (Nat.min U (length p - i * U) = length (piece U p i)) as -> by (by rewrite length_piece).
  rewrite slice_min.
  match goal with |- context [encodeFrameHeader ?fh] => assert (fh = frag_header i) as -> end.
  { unfold frag_header. f_equal.
    - unfold frag_flags. by destruct (i =? 0)%nat, (i + 1 <? N)%nat.
    - unfold kFragIndexBytes. rewrite wrap_small; unfold in_u; [lia|]. pose proof message_bounds.
      unfold kMaxSlotPayload, kFrameBufferCapacity in *. lia. }
  rewrite encodeFrameHeader_spec by lia. cbv beta iota.
  rewrite on_subspan_putU16 by (rewrite length_app, length_drop; cbn; lia). cbv beta iota.
  rewrite (take_app_length' (FrameHeader_bytes _)) by done.
  rewrite (wrap_small 16) by (unfold in_u; pose proof message_bounds; lia).
  assert (length (FrameHeader_bytes (frag_header i) ++ le_bytes 2 (Z.of_nat i) ++
            drop (8 + 2) (FrameHeader_bytes (frag_header i) ++ drop 8 scratch)) = 512%nat) as Hl.
  { rewrite !length_app, length_drop, length_app, length_drop, Hs. reflexivity. }
  eexists. split.
  - f_equal. rewrite take_splice by (rewrite Hl; lia). unfold frag_bytes, frag_payload.
    rewrite app_assoc, take_app_length' by done. by rewrite <- app_assoc.
  - rewrite length_splice by (rewrite Hl; lia). exact Hl.
Qed.

Lemma emit_loop_spec fuel i scratch :
  (i + fuel <= N)%nat -> length scratch = kFrameBufferCapacity -> (10 + U <= kFrameBufferCapacity)%nat ->
  emit_loop h p U N fuel i scratch = map frag_bytes (seq i fuel).
Proof.
  revert i scratch. induction fuel as [|fuel IH]; intros i scratch Hi Hs HU; [done|].
  cbn [emit_loop seq map]. destruct (fragment_at_spec i scratch) as (s' & -> & Hs'); [lia|done..|].
  rewrite IH by (lia || done). done.
Qed.

(** ** Lemmas: one slot collecting the message *)

(** The fragments of [P] are in the slot's data, mask and count. *)
Record placed (P : gset nat) (s : Slot) : Prop := {
  pl_dom : forall i, i ∈ P -> (i < N)%nat;
  pl_mask : forall i, Z.testbit (s_receivedMask s) (Z.of_nat i) = bool_decide (i ∈ P);
  pl_count : s_receivedCount s = Z.of_nat (size P);
  pl_cap : length (s_data s) = kMaxSlotPayload;
  pl_data : collected U p P (s_data s) }.

(** What the slot holds after the fragments of [D] arrived, in any order: until a full
    fragment shows the unit length, only the last one is held back. *)
Record slot_inv (t0 : Z) (D : gset nat) (s : Slot) : Prop := {
  si_key : slot_matches (fh_type h) (fh_seq h) s = true;
  si_channel : s_channel s = fh_channel h;
  si_start : s_startMs s = u32 t0;
  si_dom : forall i, i ∈ D -> (i < N)%nat;
  si_unit : s_unitLen s = if decide (D ⊆ {[(N - 1)%nat]}) then 0 else Z.of_nat U;
  si_placed : placed (if decide (D ⊆ {[(N - 1)%nat]}) then ∅ else D) s;
  si_total : s_totalFragments s = if decide ((N - 1)%nat ∈ D) then Z.of_nat N else 0;
  si_last : (N - 1)%nat ∈ D -> s_lastFragLen s = Z.of_nat (length (piece U p (N - 1)));
  si_pending : s_havePendingLast s = bool_decide (D = {[(N - 1)%nat]});
  si_pending_at : D = {[(N - 1)%nat]} ->
      s_pendingLastIndex s = Z.of_nat (N - 1)
      /\ take (Z.to_nat (s_pendingLastLen s)) (s_pendingLastBytes s) = piece U p (N - 1);
  si_pending_cap : length (s_pendingLastBytes s) = kMaxSlotPayload }.

Lemma bit_u32 i : (i < 32)%nat -> u32 (Z.shiftl 1 (Z.of_nat i)) = 2 ^ Z.of_nat i.
Proof.
  intros Hi. rewrite Z.shiftl_1_l. apply wrap_small. split; [lia|]. apply Z.pow_lt_mono_r; lia.
Qed.

Lemma place_spec (P : gset nat) s i :
  placed P s -> s_unitLen s = Z.of_nat U -> (i < N)%nat ->
  exists mask count data,
    placeFragment s (Z.of_nat i) (piece U p i) = Some (set_placed s mask count data)
    /\ placed ({[i]} ∪ P) (set_placed s mask count data).
Proof.
  intros [Hdom Hmask Hcount Hcap Hdata] Hu Hi. pose proof message_bounds as (HU & Hp & HN).
  pose proof (slice_bound i Hi) as [Hsb Hsb']. unfold placeFragment.
  rewrite bit_u32, land_bit, negb_involutive, Hmask by lia.
  destruct (bool_decide_reflect (i ∈ P)) as [Hin|Hnin].
  - exists (s_receivedMask s), (s_receivedCount s), (s_data s).
    split; [by destruct s|]. replace ({[i]} ∪ P) with P by set_solver. by destruct s.
  - rewrite Hu. replace (Z.to_nat (Z.of_nat i * Z.of_nat U)) with (i * U)%nat by lia. cbv zeta.
    rewrite Hcap, (proj2 (Nat.ltb_ge _ _)) by lia. do 3 eexists. split; [done|].
    pose proof (index_set_size N P Hdom). split; cbn [s_receivedMask s_receivedCount s_data set_placed].
    + intros k. rewrite elem_of_union, elem_of_singleton. intros [->|]; auto.
    + intros k. rewrite Z.lor_spec, Hmask, Z.pow2_bits_eqb by lia.
      destruct (Z.eqb_spec (Z.of_nat i) (Z.of_nat k)) as [E|E];
        [apply Nat2Z.inj in E as ->|assert (i <> k) by congruence];
        destruct (bool_decide_reflect (k ∈ P)); cbn; symmetry;
        (apply bool_decide_eq_true_2; set_solver) || (apply bool_decide_eq_false_2; set_solver).
    + rewrite Hcount, wrap_small by (unfold in_u; lia). rewrite size_union, size_singleton by set_solver. lia.
    + rewrite length_splice; lia.
    + apply collected_place; [lia|done|lia].
Qed.

Lemma frag_start_spec i : fragStart (frag_header i) = (i =? 0)%nat.
Proof.
  unfold fragStart, frag_header, frag_flags. cbn [fh_flags].
  by destruct (i =? 0)%nat, (i + 1 <? N)%nat.
Qed.

Lemma frag_more_spec i : fragMore (frag_header i) = (i + 1 <? N)%nat.
Proof.
  unfold fragMore, frag_header, frag_flags. cbn [fh_flags].
  by destruct (i =? 0)%nat, (i + 1 <? N)%nat.
Qed.

Lemma len_u16 i : (i < N)%nat -> u16 (Z.of_nat (length (piece U p i))) = Z.of_nat (length (piece U p i)).
Proof.
  intros Hi. pose proof (slice_bound i Hi). pose proof message_bounds.
  apply wrap_small. unfold in_u, kMaxSlotPayload, kFrameBufferCapacity in *. lia.
Qed.

Lemma placed_ext (P : gset nat) s s' :
  s_receivedMask s' = s_receivedMask s -> s_receivedCount s' = s_receivedCount s ->
  s_data s' = s_data s -> placed P s -> placed P s'.
Proof. intros E1 E2 E3 [? ? ? ? ?]. by split; rewrite ?E1, ?E2, ?E3. Qed.

(** The fields a placement leaves alone. *)
Definition same_message (s s' : Slot) : Prop :=
  s_active s' = s_active s /\ s_type s' = s_type s /\ s_channel s' = s_channel s
  /\ s_seq s' = s_seq s /\ s_startMs s' = s_startMs s
  /\ s_pendingLastBytes s' = s_pendingLastBytes s.

Lemma not_only_last (D : gset nat) i : (i + 1 < N)%nat -> i ∈ D -> ~ D ⊆ {[(N - 1)%nat]}.
Proof. intros Hi Hin Hs. specialize (Hs i Hin). apply elem_of_singleton in Hs. lia. Qed.

(** Once the unit length is known, the slot is described by [placed] alone. *)
Lemma slot_inv_known t0 (D D' : gset nat) s s' :
  slot_inv t0 D s -> same_message s s' -> ~ D' ⊆ {[(N - 1)%nat]} ->
  s_unitLen s' = Z.of_nat U -> placed D' s' -> s_havePendingLast s' = false ->
  s_totalFragments s' = (if decide ((N - 1)%nat ∈ D') then Z.of_nat N else 0) ->
  ((N - 1)%nat ∈ D' -> s_lastFragLen s' = Z.of_nat (length (piece U p (N - 1)))) ->
  slot_inv t0 D' s'.
Proof.
  intros [] (E1 & E2 & E3 & E4 & E5 & E6) Hbig Hu Hpl Hpend Htot Hlast.
  split; rewrite ?E3, ?E5, ?E6; try done.
  - unfold slot_matches in *. by rewrite E1, E2, E4.
  - by apply Hpl.
  - by rewrite decide_False.
  - by rewrite decide_False.
  - rewrite Hpend. symmetry. apply bool_decide_eq_false_2. intros ->. by apply Hbig.
  - intros ->. by destruct Hbig.
Qed.

(** A full fragment (first or middle). *)
Lemma slot_accept_full t0 D s i :
  slot_inv t0 D s -> (i + 1 < N)%nat ->
  exists s', slot_accept s (frag_header i) (Z.of_nat i) (piece U p i) = Some s' /\ slot_inv t0 ({[i]} ∪ D) s'.
Proof.
  intros Hinv Hi. pose proof message_bounds as (HU & Hp & HN). pose proof Hinv as [].
  unfold slot_accept. rewrite frag_start_spec, frag_more_spec, (proj2 (Nat.ltb_lt _ _)), andb_false_r by done.
  cbv zeta. rewrite len_u16, slice_full by lia.
  pose proof (not_only_last ({[i]} ∪ D) i Hi ltac:(set_solver)) as Hbig.
  set (s1 := if s_unitLen s =? 0 then set_unitLen s (Z.of_nat U) else s).
  assert (s_unitLen s1 = Z.of_nat U) as Hu1.
  { unfold s1. destruct (decide (D ⊆ {[(N - 1)%nat]})); rewrite si_unit0; [done|].
    by rewrite (proj2 (Z.eqb_neq _ _)) by lia. }
  assert (exists u, s1 = set_unitLen s u) as [u Es1].
  { unfold s1. destruct (_ =? _); [by eexists|]. exists (s_unitLen s). by destruct s. }
  clearbody s1. subst s1. cbn in Hu1. subst u.
  set (P := if decide (D ⊆ {[(N - 1)%nat]}) then ∅ else D) in *.
  destruct (place_spec P (set_unitLen s (Z.of_nat U)) i) as (mask & count & data & -> & Hpl2);
    [by apply (placed_ext P s)|done|lia|].
  cbn [set_placed set_unitLen s_havePendingLast s_unitLen s_pendingLastIndex s_pendingLastLen s_pendingLastBytes].
  rewrite (proj2 (Z.eqb_neq _ 0)), andb_true_r, si_pending0 by lia.
  assert ((N - 1)%nat ∈ {[i]} ∪ D <-> (N - 1)%nat ∈ D) as Hlast
    by (rewrite elem_of_union, elem_of_singleton; split; [intros [?|?]; [lia|done]|auto]).
  destruct (bool_decide_reflect (D = {[(N - 1)%nat]})) as [HD|HD].
  - destruct si_pending_at0 as [-> ->]; [done|].
    destruct (place_spec _ _ (N - 1) Hpl2 eq_refl) as (mask3 & count3 & data3 & -> & Hpl3); [lia|].
    eexists. split; [done|].
    apply (slot_inv_known t0 D ({[i]} ∪ D) s); cbn; try done.
    + apply (placed_ext _ (set_placed (set_unitLen s (Z.of_nat U)) mask3 count3 data3)); try done.
      unfold P in Hpl3. rewrite HD, decide_True in Hpl3 by done.
      replace ({[(N - 1)%nat]} ∪ ({[i]} ∪ ∅)) with ({[i]} ∪ D) in Hpl3 by set_solver. exact Hpl3.
    + rewrite si_total0. by rewrite (decide_ext _ _ _ _ Hlast).
    + rewrite Hlast. exact si_last0.
  - eexists. split; [done|].
    apply (slot_inv_known t0 D ({[i]} ∪ D) s); cbn; try done.
    + replace ({[i]} ∪ D) with ({[i]} ∪ P); [exact Hpl2|]. unfold P. destruct (decide _) as [Hs|]; [|done].
      assert (D = ∅) as ->; [|set_solver].
      apply set_eq. intros k. split; [|set_solver]. intros Hk. destruct HD. apply set_eq.
      intros k'. split; [set_solver|]. intros ->%elem_of_singleton.
      pose proof (Hs k Hk) as ->%elem_of_singleton. done.
    + rewrite si_total0. by rewrite (decide_ext _ _ _ _ Hlast).
    + rewrite Hlast. exact si_last0.
Qed.

(** The last fragment, held back when the unit length is not known yet. *)
Lemma slot_accept_last t0 D s i :
  slot_inv t0 D s -> (i + 1 = N)%nat ->
  exists s', slot_accept s (frag_header i) (Z.of_nat i) (piece U p i) = Some s' /\ slot_inv t0 ({[i]} ∪ D) s'.
Proof.
  intros Hinv Hi. pose proof message_bounds as (HU & Hp & HN). pose proof Hinv as [].
  replace i with (N - 1)%nat in * by lia. pose proof (slice_bound (N - 1) ltac:(lia)) as Hsb.
  pose proof U_bound as HUb. unfold slot_accept. rewrite frag_start_spec, frag_more_spec, (proj2 (Nat.ltb_ge _ _)), andb_true_r by lia.
  rewrite (proj2 (Nat.eqb_neq _ 0)) by lia. cbv zeta. rewrite len_u16, wrap_small by (unfold in_u; lia).
  replace (Z.of_nat (N - 1) + 1) with (Z.of_nat N) by lia.
  cbn [set_total s_unitLen s_pendingLastBytes]. rewrite si_unit0.
  destruct (decide (D ⊆ {[(N - 1)%nat]})) as [Hs|Hs].
  - cbn [Z.eqb negb]. rewrite si_pending_cap0, (proj2 (Nat.ltb_ge _ _)) by lia. eexists. split; [done|].
    assert ({[(N - 1)%nat]} ∪ D = {[(N - 1)%nat]}) as -> by set_solver.
    split; cbn; try done.
    + intros k. rewrite elem_of_singleton. intros ->. lia.
    + rewrite decide_True by done. exact si_unit0.
    + rewrite decide_True by done. by apply (placed_ext ∅ s).
    + by rewrite decide_True by set_solver.
    + by rewrite bool_decide_eq_true_2.
    + intros _. split; [done|]. by rewrite Nat2Z.id, splice_0, take_app_length.
    + rewrite length_splice; [done|]. rewrite si_pending_cap0. lia.
  - rewrite (proj2 (Z.eqb_neq _ 0)) by lia. cbn [negb].
    destruct (place_spec D (set_total s (Z.of_nat N) (Z.of_nat (length (piece U p (N - 1))))) (N - 1))
      as (mask & count & data & -> & Hpl2); [by apply (placed_ext D s)|done|lia|].
    eexists. split; [done|]. apply (slot_inv_known t0 D _ s); cbn; try done.
    + intros Hs'. apply Hs. set_solver.
    + rewrite si_pending0. apply bool_decide_eq_false_2. intros ->. by apply Hs.
    + by rewrite decide_True by set_solver.
Qed.

Lemma slot_accept_spec t0 D s i :
  slot_inv t0 D s -> (i < N)%nat ->
  exists s', slot_accept s (frag_header i) (Z.of_nat i) (piece U p i) = Some s' /\ slot_inv t0 ({[i]} ∪ D) s'.
Proof.
  intros Hinv Hi. destruct (decide (i + 1 = N)%nat).
  - by apply slot_accept_last.
  - apply slot_accept_full; [done|lia].
Qed.

Lemma slot_inv_open t0 : slot_inv t0 ∅ (set_channel (Slot_open (fh_type h) (fh_seq h) (u32 t0)) (fh_channel h)).
Proof.
  split; cbn [s_channel s_startMs s_unitLen s_totalFragments s_havePendingLast s_pendingLastBytes
              set_channel Slot_open]; try done.
  - unfold slot_matches. cbn. by rewrite !Z.eqb_refl.
  - by rewrite decide_True by set_solver.
  - rewrite decide_True by set_solver. split; cbn; try done. intros k. by rewrite Z.bits_0.
Qed.

(** The reassembled frame: the original header without fragment flags, and the payload. *)
Definition whole_header : FrameHeader :=
  mkFrameHeader (fh_type h) 0 (fh_channel h) (fh_seq h) (Z.of_nat (length p)).

Lemma data_full t0 s : slot_inv t0 (set_seq 0 N) s -> take (length p) (s_data s) = p.
Proof.
  intros []. pose proof message_bounds as (HU & Hp & HN).
  assert (~ (set_seq 0 N : gset nat) ⊆ {[(N - 1)%nat]}) as Hbig.
  { apply (not_only_last _ 0); [lia|]. apply elem_of_set_seq. lia. }
  rewrite decide_False in si_placed0 by done. destruct si_placed0. pose proof ceil_bounds.
  apply (collected_full U N p (set_seq 0 N)); [|lia..|done]. intros i Hi. apply elem_of_set_seq. lia.
Qed.

Lemma checkComplete_spec t0 D s :
  slot_inv t0 D s ->
  if decide (size D = N) then
    fst (checkComplete s) = Slot_new
    /\ exists fb, snd (checkComplete s) = ok (Some fb) /\ fb_bytes fb = FrameHeader_bytes whole_header ++ p
  else checkComplete s = (s, ok None).
Proof.
  intros Hinv. pose proof Hinv as []. pose proof message_bounds as (HU & Hp & HN).
  pose proof ceil_bounds as Hceil. unfold checkComplete. destruct (decide (size D = N)) as [Hs|Hs].
  - pose proof (index_set_full N D si_dom0 Hs) as ->.
    assert ((N - 1)%nat ∈ (set_seq 0 N : gset nat)) as Hin by (apply elem_of_set_seq; lia).
    assert (~ (set_seq 0 N : gset nat) ⊆ {[(N - 1)%nat]}) as Hbig.
    { apply (not_only_last _ 0); [lia|]. apply elem_of_set_seq. lia. }
    rewrite decide_False in si_unit0 by done. rewrite decide_False in si_placed0 by done. rewrite decide_True in si_total0 by done.
    rewrite si_total0, (pl_count _ _ si_placed0), Hs, Z.eqb_refl, (proj2 (Z.eqb_neq _ 0)) by lia.
    cbn [orb negb]. cbv zeta. rewrite si_unit0, (si_last0 Hin), slice_last.
    replace ((Z.of_nat N - 1) * Z.of_nat U + Z.of_nat (length p - (N - 1) * U)) with (Z.of_nat (length p)) by nia.
    unfold kMaxSlotPayload in Hp. rewrite (proj2 (Z.ltb_ge _ _)) by lia.
    rewrite wrap_small by (unfold in_u, kFrameBufferCapacity in *; lia).
    rewrite encodeFrameHeader_spec by (cbn; lia). split; [done|]. eexists. split; [done|].
    unfold slot_matches in si_key0. apply andb_prop in si_key0 as [[_ E2%Z.eqb_eq]%andb_prop E3%Z.eqb_eq].
    rewrite Nat2Z.id, (data_full t0 s Hinv), E2, E3, si_channel0. fold whole_header.
    unfold kFrameBufferCapacity, kHeaderBytes in Hp.
    rewrite setSize_bytes by (unfold kFrameBufferCapacity; lia).
    rewrite take_splice by (rewrite length_app, length_drop; cbn; lia).
    by rewrite take_app_length' by done.
  - destruct (decide (D ⊆ {[(N - 1)%nat]})) as [Hd|Hd].
    + rewrite (pl_count _ _ si_placed0), size_empty. rewrite si_total0.
      destruct (decide ((N - 1)%nat ∈ D)); [|done].
      rewrite (proj2 (Z.eqb_neq (Z.of_nat 0) _)) by lia. by rewrite orb_true_r.
    + rewrite (pl_count _ _ si_placed0), si_total0. destruct (decide ((N - 1)%nat ∈ D)); [|done].
      rewrite (proj2 (Z.eqb_neq (Z.of_nat (size D)) _)) by lia. by rewrite orb_true_r.
Qed.

End message.

(** ** Lemmas: the two-slot table *)

(** The table holds exactly the slots [x] and [y], in either position. *)
Definition two (r : Reassembler) (x y : Slot) : Prop :=
  r_slots r = [x; y] \/ r_slots r = [y; x].

Lemma two_sym r x y : two r x y -> two r y x.
Proof. unfold two. tauto. Qed.

(** The position [i] of a slot [x] beside [y]. *)
Definition at_slot (r : Reassembler) (i : nat) (x y : Slot) : Prop :=
  r_slots r !! i = Some x /\ forall s st, two (mkReassembler (<[i := s]> (r_slots r)) st) s y.

Lemma at_slot_two r i x y : at_slot r i x y -> two r x y.
Proof.
  intros [Hi H]. specialize (H x (r_stats r)). unfold two in *. cbn in H.
  by rewrite list_insert_id in H by done.
Qed.

Lemma findSlot_two r x y t q :
  two r x y -> slot_matches t q y = false ->
  if slot_matches t q x then exists i, findSlot (r_slots r) t q = Some (i, x) /\ at_slot r i x y
  else findSlot (r_slots r) t q = None.
Proof.
  intros Ht Hy. unfold findSlot, at_slot. destruct Ht as [-> | ->]; cbn [list_find];
    rewrite ?Hy; destruct (slot_matches t q x) eqn:Hx; cbn; rewrite ?Hx, ?Hy; cbn; try done.
  - exists 0%nat. split; [done|]. split; [done|]. intros. by left.
  - exists 1%nat. split; [done|]. split; [done|]. intros. by right.
Qed.

Lemma allocSlot_two r x y t q now :
  two r x y -> s_active x = false ->
  exists i z, snd (allocSlot r t q now) = i
    /\ at_slot (fst (allocSlot r t q now)) i (Slot_open t q now) z
    /\ (z = y \/ (s_active y = false /\ z = x)).
Proof.
  intros Ht Hx. unfold allocSlot, at_slot. destruct Ht as [-> | ->]; cbn [list_find].
  - rewrite Hx. cbn. exists 0%nat, y. split; [done|]. split; [|by left].
    split; [done|]. intros. by left.
  - destruct (s_active y) eqn:Hy; cbn [negb decide]; rewrite ?Hx; cbn.
    + exists 1%nat, y. split; [done|]. split; [|by left]. split; [done|]. intros. by right.
    + exists 0%nat, x. split; [done|]. split; [|by right]. split; [done|]. intros. by left.
Qed.

(** A live slot is found; a free one is opened when the key has none. *)
Lemma acquire_hit r x y t q now :
  two r x y -> slot_matches t q x = true -> slot_matches t q y = false ->
  timeReached now (u32 (s_startMs x + frag_reassembly_timeout_ms)) = false ->
  exists i, acquireSlot r t q now = (r, i) /\ at_slot r i x y.
Proof.
  intros Ht Hx Hy Hlive. pose proof (findSlot_two _ _ _ _ _ Ht Hy) as H. rewrite Hx in H.
  destruct H as (i & Hf & Hat). exists i. split; [|done].
  unfold acquireSlot, expireOne. by rewrite Hf, Hlive, Hf.
Qed.

Lemma acquire_miss r x y t q now :
  two r x y -> s_active x = false -> slot_matches t q y = false ->
  exists r' i z, acquireSlot r t q now = (r', i) /\ at_slot r' i (Slot_open t q now) z
    /\ (z = y \/ (s_active y = false /\ z = x)).
Proof.
  intros Ht Hx Hy. pose proof (findSlot_two _ _ _ _ _ Ht Hy) as H.
  assert (slot_matches t q x = false) as Hmx by (unfold slot_matches; by rewrite Hx).
  rewrite Hmx in H. unfold acquireSlot, expireOne. rewrite H, H.
  destruct (allocSlot_two r x y t q now Ht Hx) as (i & z & Hi & Hat & Hz).
  exists (fst (allocSlot r t q now)), i, z. split; [|done]. by rewrite <- Hi, <- surjective_pairing.
Qed.

(** Whatever its state, a key finds or opens a slot beside the other one. *)
Lemma acquire_any r x y t q now :
  two r x y -> s_active x = false \/ slot_matches t q x = true -> slot_matches t q y = false ->
  exists r' i x' z, acquireSlot r t q now = (r', i) /\ at_slot r' i x' z /\ slot_matches t q x' = true
    /\ (z = y \/ (s_active y = false /\ s_active z = false)).
Proof.
  intros Ht Hx Hy.
  assert (forall r x, two r x y -> s_active x = false ->
    exists r' i x' z, acquireSlot r t q now = (r', i) /\ at_slot r' i x' z /\ slot_matches t q x' = true
    /\ (z = y \/ (s_active y = false /\ s_active z = false))) as Hmiss.
  { intros r0 x0 Ht0 Hx0. destruct (acquire_miss r0 x0 y t q now Ht0 Hx0 Hy) as (r' & i & z & E & Hat & Hz).
    exists r', i, (Slot_open t q now), z. split; [done|]. split; [done|]. split.
    - unfold slot_matches. cbn. by rewrite !Z.eqb_refl.
    - destruct Hz as [?|[? ->]]; [by left|by right]. }
  destruct Hx as [Hx|Hx]; [by apply (Hmiss r x)|].
  destruct (timeReached now (u32 (s_startMs x + frag_reassembly_timeout_ms))) eqn:E.
  - pose proof (findSlot_two _ _ _ _ _ Ht Hy) as H. rewrite Hx in H. destruct H as (i & Hf & Hat).
    destruct Hat as [Hi Htwo]. set (r1 := expireOne r t q now).
    assert (two r1 Slot_new y) as Ht1 by (unfold r1, expireOne; rewrite Hf, E; apply Htwo).
    destruct (Hmiss r1 Slot_new Ht1 eq_refl) as (r' & j & x' & z & Ea & Hrest).
    exists r', j, x', z. split; [|done]. rewrite <- Ea. unfold acquireSlot at 1 2.
    assert (expireOne r1 t q now = r1) as ->; [|done].
    unfold expireOne. pose proof (findSlot_two r1 Slot_new y t q Ht1 Hy) as H1. cbn in H1. by rewrite H1.
  - destruct (acquire_hit r x y t q now Ht Hx Hy E) as (i & Ea & Hat).
    exists r, i, x, y. by split; [|split; [|split; [|left]]].
Qed.

(** What no arrival changes in a slot. *)
Definition key_of (s : Slot) : bool * Z * Z * Z := (s_active s, s_type s, s_seq s, s_channel s).

Lemma placeFragment_key s i bs s' : placeFragment s i bs = Some s' -> key_of s' = key_of s.
Proof.
  unfold placeFragment. destruct (negb _); [by intros [= ->]|]. cbv zeta.
  destruct (_ <? _)%nat; [done|]. by intros [= <-].
Qed.

Lemma slot_accept_key s hd i bs s' : slot_accept s hd i bs = Some s' -> key_of s' = key_of s.
Proof.
  unfold slot_accept. cbv zeta. destruct (_ && _).
  { intros H. by apply placeFragment_key in H as ->. }
  destruct (fragMore hd).
  - set (s1 := if s_unitLen s =? 0 then _ else s). assert (key_of s1 = key_of s) as <-
      by (unfold s1; by destruct (_ =? _)).
    destruct (placeFragment s1 i bs) as [s2|] eqn:E; [|done].
    apply placeFragment_key in E as <-. destruct (_ && _); [|by intros [= ->]].
    destruct (placeFragment s2 _ _) as [s3|] eqn:E; [|done].
    apply placeFragment_key in E as <-. by intros [= <-].
  - destruct (negb _).
    + intros H. by apply placeFragment_key in H as ->.
    + destruct (_ <? _)%nat; [done|]. by intros [= <-].
Qed.

Lemma key_matches t q s s' : key_of s' = key_of s -> slot_matches t q s' = slot_matches t q s.
Proof. unfold key_of, slot_matches. by intros [= -> -> -> _]. Qed.

Lemma checkComplete_slot s : fst (checkComplete s) = s \/ fst (checkComplete s) = Slot_new.
Proof.
  unfold checkComplete. destruct (_ || _); [by left|]. cbv zeta.
  destruct (_ <? _); [by right|]. destruct (encodeFrameHeader _ _). by right.
Qed.

(** ** Lemmas: a message under way while another key sends anything *)

Inductive Arrival :=
  | Ours (i : nat)
  | Theirs (hd : FrameHeader) (pl : list byte).

(** The receive path: decode the header, hand the rest to [accept]. *)
Definition receive (r : Reassembler) (frame : list byte) (now : Z)
  : Reassembler * decoded (option FrameBuffer) :=
  match decodeFrameHeader frame with
  | Some hd => accept r hd (drop kHeaderBytes frame) now
  | None => (r, ok None)
  end.

Definition deliver (frags : list (list byte)) (r : Reassembler) (ev : Arrival) (now : Z)
  : Reassembler * decoded (option FrameBuffer) :=
  match ev with
  | Ours i => receive r (nth i frags []) now
  | Theirs hd pl => accept r hd pl now
  end.

(** A run of arrivals: the final table and the results of our fragments. *)
Fixpoint run (frags : list (list byte)) (r : Reassembler) (evs : list (Arrival * Z))
  : Reassembler * list (decoded (option FrameBuffer)) :=
  match evs with
  | [] => (r, [])
  | (ev, now) :: evs' =>
      let '(r', res) := deliver frags r ev (u32 now) in
      let '(r'', out) := run frags r' evs' in
      (r'', match ev with Ours _ => res :: out | Theirs _ _ => out end)
  end.

Definition ours (evs : list (Arrival * Z)) : gset nat :=
  list_to_set (omap (fun e => match fst e with Ours i => Some i | Theirs _ _ => None end) evs).

Section table.
Context (h : FrameHeader) (p : list byte) (U N : nat) (ot oq T : Z).
Context (Hm : frag_message h p U N) (Hkey : (fh_type h, fh_seq h) <> (ot, oq)).

Definition in_window (now : Z) : Prop := T <= now < T + 5000.

(** Arrivals of the other key, and of our fragments, within the timeout. *)
Definition arrival_ok (e : Arrival * Z) : Prop :=
  in_window (snd e) /\ match fst e with
                       | Ours i => (i < N)%nat
                       | Theirs hd _ => fh_type hd = ot /\ fh_seq hd = oq
                       end.

Definition mine (D : gset nat) (x : Slot) : Prop :=
  if decide (D = ∅) then s_active x = false else exists t0, in_window t0 /\ slot_inv h p U N t0 D x.

Definition theirs (y : Slot) : Prop := s_active y = false \/ slot_matches ot oq y = true.

Definition table_inv (D : gset nat) (r : Reassembler) : Prop :=
  exists x y, two r x y /\ mine D x /\ theirs y.

Lemma match_other t q t' q' s :
  (t, q) <> (t', q') -> slot_matches t q s = true -> slot_matches t' q' s = false.
Proof.
  intros Hne. unfold slot_matches. destruct (s_active s); [|done]. cbn.
  intros [->%Z.eqb_eq ->%Z.eqb_eq]%andb_prop.
  destruct (Z.eqb_spec t t'), (Z.eqb_spec q q'); cbn; congruence.
Qed.

Lemma inactive_no_match t q s : s_active s = false -> slot_matches t q s = false.
Proof. unfold slot_matches. by intros ->. Qed.

Lemma theirs_not_ours y : theirs y -> slot_matches (fh_type h) (fh_seq h) y = false.
Proof.
  intros [?|?]; [by apply inactive_no_match|]. by eapply match_other.
Qed.

Lemma mine_not_theirs D x : mine D x -> slot_matches ot oq x = false.
Proof.
  unfold mine. destruct (decide _); [apply inactive_no_match|].
  intros (t0 & _ & []). by eapply match_other.
Qed.

Lemma not_reached t0 now : in_window t0 -> in_window now ->
  timeReached (u32 now) (u32 (u32 t0 + frag_reassembly_timeout_ms)) = false.
Proof.
  unfold in_window, frag_reassembly_timeout_ms. intros H0 H1.
  replace (u32 (u32 t0 + 5000)) with (u32 (t0 + 5000)) by (unfold wrap; by rewrite Zplus_mod_idemp_l).
  replace now with (t0 + (now - t0)) by lia. rewrite timeReached_elapsed by lia. lia.
Qed.

(** The rest of [accept] once the slot is found. *)
Lemma accept_at r hd (pl : list byte) now r' i x y :
  acquireSlot r (fh_type hd) (fh_seq hd) now = (r', i) -> at_slot r' i x y ->
  (2 <= length pl)%nat -> getU16 (subspan 0 2 pl) < 32 ->
  exists r'', accept r hd pl now =
    match slot_accept (set_channel x (fh_channel hd)) hd (getU16 (subspan 0 2 pl)) (drop 2 pl) with
    | None => (r'', err CapacityExceeded)
    | Some s => (r'', snd (checkComplete s))
    end
    /\ two r'' (match slot_accept (set_channel x (fh_channel hd)) hd (getU16 (subspan 0 2 pl)) (drop 2 pl) with
                | None => Slot_new
                | Some s => fst (checkComplete s)
                end) y.
Proof.
  intros Ha [Hi Hat] Hl Hx. unfold accept, kFragIndexBytes, kMaxFragmentsPerMessage.
  rewrite (proj2 (Nat.ltb_ge _ _)), (proj2 (Z.leb_gt _ _)) by done. rewrite Ha, Hi.
  destruct (slot_accept _ _ _ _) as [s|]; [|eexists; split; [done|apply Hat]].
  destruct (checkComplete s) as [s' res]. eexists. split; [done|]. apply Hat.
Qed.

Lemma accept_refused r hd (pl : list byte) now :
  ~ ((2 <= length pl)%nat /\ getU16 (subspan 0 2 pl) < 32) -> fst (accept r hd pl now) = r.
Proof.
  intros Hno. unfold accept, kFragIndexBytes, kMaxFragmentsPerMessage.
  destruct (Nat.ltb_spec (length pl) 2); [done|].
  destruct (Z.leb_spec 32 (getU16 (subspan 0 2 pl))); [done|]. lia.
Qed.

Lemma theirs_step D r hd pl now :
  table_inv D r -> fh_type hd = ot -> fh_seq hd = oq -> table_inv D (fst (accept r hd pl now)).
Proof.
  intros Hinv Ht Hq.
  destruct (decide ((2 <= length pl)%nat /\ getU16 (subspan 0 2 pl) < 32)) as [[Hl Hi]|Hno];
    [|by rewrite accept_refused].
  destruct Hinv as (x & y & Htwo & Hx & Hy). pose proof (mine_not_theirs _ _ Hx) as Hnx.
  destruct (acquire_any r y x ot oq now) as (r' & i & y' & z & Ea & Hat & Hy' & Hz);
    [by apply two_sym|done..|].
  assert (mine D z) as Hmz.
  { destruct Hz as [->|[H1 H2]]; [done|]. unfold mine in *. destruct (decide _); [done|].
    destruct Hx as (t0 & _ & []). unfold slot_matches in si_key0. by rewrite H1 in si_key0. }
  rewrite <- Ht, <- Hq in Ea. destruct (accept_at r hd pl now r' i y' z Ea Hat Hl Hi) as (r'' & E & Htwo'').
  rewrite E. destruct (slot_accept _ _ _ _) as [s|] eqn:Es; apply two_sym in Htwo'';
    eexists z, _; (split; [exact Htwo''|split; [exact Hmz|]]); [|by left].
  apply slot_accept_key, (key_matches ot oq) in Es.
  destruct (checkComplete_slot s) as [->| ->]; [right; by rewrite Es|by left].
Qed.

Lemma frag_index i : (i < N)%nat -> getU16 (subspan 0 2 (frag_payload p U i)) = Z.of_nat i.
Proof.
  intros Hi. pose proof (message_bounds h p U N Hm). unfold frag_payload, subspan. rewrite drop_0.
  rewrite take_app_length' by by rewrite length_le_bytes.
  rewrite <- (app_nil_r (le_bytes 2 _)), getU16_bytes. apply wrap_small. unfold in_u. lia.
Qed.

Lemma ours_step D r i now :
  table_inv D r -> (i < N)%nat -> in_window now ->
  (D = ∅ \/ size D < N)%nat ->
  let '(r', res) := accept r (frag_header h p U N i) (frag_payload p U i) (u32 now) in
  if decide (size ({[i]} ∪ D) = N) then
    table_inv ∅ r' /\ exists fb, res = ok (Some fb) /\ fb_bytes fb = FrameHeader_bytes (whole_header h p) ++ p
  else table_inv ({[i]} ∪ D) r' /\ res = ok None.
Proof.
  intros (x & y & Htwo & Hx & Hy) Hi Hnow _. pose proof (theirs_not_ours _ Hy) as Hny.
  set (hd := frag_header h p U N i).
  assert (exists r' j x' z t0, acquireSlot r (fh_type hd) (fh_seq hd) (u32 now) = (r', j)
    /\ at_slot r' j x' z /\ theirs z /\ in_window t0 /\ slot_inv h p U N t0 D (set_channel x' (fh_channel hd)))
    as (r' & j & x' & z & t0 & Ea & Hat & Hz & Ht0 & Hinv).
  { unfold mine in Hx. destruct (decide (D = ∅)) as [->|HD].
    - destruct (acquire_miss r x y (fh_type hd) (fh_seq hd) (u32 now) Htwo Hx Hny) as (r' & j & z & E & Hat & Hz).
      exists r', j, (Slot_open (fh_type h) (fh_seq h) (u32 now)), z, now. split; [done|]. split; [done|].
      split; [destruct Hz as [->|[_ ->]]; [done|by left]|]. split; [done|]. by apply (slot_inv_open h p U N).
    - destruct Hx as (t0 & Ht0 & Hinv). pose proof Hinv as [].
      destruct (acquire_hit r x y (fh_type hd) (fh_seq hd) (u32 now) Htwo si_key0 Hny) as (j & E & Hat).
      { rewrite si_start0. by apply not_reached. }
      exists r, j, x, y, t0. split; [done|]. split; [done|]. split; [done|]. split; [done|].
      replace (set_channel x (fh_channel hd)) with x; [done|]. destruct x. cbn in *. unfold set_channel. cbn. by rewrite si_channel0. }
  destruct (accept_at r hd (frag_payload p U i) (u32 now) r' j x' z Ea Hat) as (r'' & E & Htwo'').
  { unfold frag_payload. rewrite length_app, length_le_bytes. lia. }
  { rewrite frag_index by done. pose proof (message_bounds h p U N Hm). lia. }
  destruct (slot_accept_spec h p U N Hm t0 D _ i Hinv Hi) as (s' & Es & Hinv').
  rewrite frag_index in E, Htwo'' by done. change (drop 2 (frag_payload p U i)) with (piece U p i) in *.
  fold hd in Es. rewrite Es in E, Htwo''. rewrite E.
  pose proof (checkComplete_spec h p U N Hm t0 _ s' Hinv') as Hc. destruct (decide _).
  - destruct Hc as [Hc1 Hc2]. split; [|done]. rewrite Hc1 in Htwo''.
    exists Slot_new, z. split; [done|]. split; [|done]. unfold mine. by rewrite decide_True.
  - rewrite Hc in *. split; [|done]. exists s', z. split; [done|]. split; [|done].
    unfold mine. rewrite decide_False by set_solver. by exists t0.
Qed.

Lemma receive_frag r i now :
  (i < N)%nat -> receive r (nth i (map (frag_bytes h p U N) (seq 0 N)) []) now
  = accept r (frag_header h p U N i) (frag_payload p U i) now.
Proof.
  intros Hi. rewrite (nth_indep _ [] (frag_bytes h p U N 0)) by by rewrite length_map, length_seq.
  rewrite map_nth, seq_nth by done. cbn [plus]. unfold receive, frag_bytes.
  rewrite decodeFrameHeader_bytes by by apply frag_header_ok.
  by rewrite drop_app_length' by done.
Qed.

Lemma run_spec evs : forall r D,
  table_inv D r -> Forall arrival_ok evs -> (size (ours evs ∪ D) < N)%nat ->
  let '(r', out) := run (map (frag_bytes h p U N) (seq 0 N)) r evs in
  table_inv (ours evs ∪ D) r' /\ Forall (fun res => res = ok None) out.
Proof.
  induction evs as [|[ev now] evs IH]; intros r D Hinv Hok Hsz; cbn [run].
  { replace (ours [] ∪ D) with D by (unfold ours; cbn; set_solver). done. }
  apply Forall_cons in Hok as [[Hnow Hev] Hok]. cbn [fst snd] in *. destruct ev as [i|hd pl]; cbn [deliver].
  - assert (ours ((Ours i, now) :: evs) ∪ D = ours evs ∪ ({[i]} ∪ D)) as E by (unfold ours; cbn; set_solver).
    rewrite E in *. rewrite receive_frag by done.
    assert (size ({[i]} ∪ D) <= size (ours evs ∪ ({[i]} ∪ D)))%nat by (apply subseteq_size; set_solver).
    assert (size D <= size ({[i]} ∪ D))%nat by (apply subseteq_size; set_solver).
    pose proof (ours_step D r i now Hinv Hev Hnow ltac:(lia)) as Hs.
    destruct (accept _ _ _ _) as [r' res]. rewrite decide_False in Hs by lia. destruct Hs as [Hs ->].
    specialize (IH r' _ Hs Hok Hsz). destruct (run _ _ _) as [r'' out]. split; [apply IH|].
    constructor; [done|apply IH].
  - destruct Hev as [Ht Hq]. pose proof (theirs_step D r hd pl (u32 now) Hinv Ht Hq) as Hs.
    destruct (accept _ _ _ _) as [r' res]. specialize (IH r' D Hs Hok Hsz).
    by destruct (run _ _ _) as [r'' out].
Qed.

Lemma table_inv_new : table_inv ∅ Reassembler_new.
Proof.
  exists Slot_new, Slot_new. split; [by left|]. split; [|by left]. unfold mine. by rewrite decide_True.
Qed.
End table.

Lemma fragmentFrame_spec h p m :
  let U := (m - 10)%nat in let N := ((length p + U - 1) / U)%nat in
  frag_message h p U N -> (10 < m <= kFrameBufferCapacity)%nat -> (m < 8 + length p)%nat -> 
  looksLikeEstop (FrameHeader_bytes h ++ p) = false ->
  fragmentFrame (FrameHeader_bytes h ++ p) m = Some (map (frag_bytes h p U N) (seq 0 N)).
Proof.
  intros U N Hm Hb Hl He. unfold fragmentFrame. rewrite (proj2 (Nat.ltb_ge _ _)) by lia.
  rewrite (proj2 (Nat.leb_gt _ _)) by (rewrite length_app; cbn; lia). rewrite He.
  rewrite decodeFrameHeader_bytes by apply Hm.
  unfold kHeaderBytes, kFragIndexBytes. rewrite (proj2 (Nat.leb_gt _ _)) by lia.
  rewrite (drop_app_length' (FrameHeader_bytes h)) by done.
  replace (m - 8 - 2)%nat with U by (unfold U; lia). cbv zeta. fold N. f_equal.
  rewrite (emit_loop_spec h p U N Hm); [done|lia|done|]. unfold U, kFrameBufferCapacity in *. lia.
Qed.

Lemma run_app frags evs1 evs2 r :
  run frags r (evs1 ++ evs2) =
  let '(r1, out1) := run frags r evs1 in
  let '(r2, out2) := run frags r1 evs2 in (r2, out1 ++ out2).
Proof.
  revert r. induction evs1 as [|[ev now] evs1 IH]; intros r; cbn [run app].
  { by destruct (run frags r evs2). }
  destruct (deliver frags r ev (u32 now)) as [r' res]. rewrite IH.
  destruct (run frags r' evs1) as [r1 out1]. destruct (run frags r1 evs2) as [r2 out2]. by destruct ev.
Qed.

Lemma ours_app evs1 evs2 : ours (evs1 ++ evs2) = ours evs1 ∪ ours evs2.
Proof. unfold ours. by rewrite omap_app, list_to_set_app_L. Qed.

Lemma frag_message_intro h p m :
  let U := (m - 10)%nat in let N := ((length p + U - 1) / U)%nat in
  FrameHeader_ok h -> (length p <= kMaxSlotPayload)%nat -> (10 < m < 8 + length p)%nat -> (N <= 32)%nat ->
  frag_message h p U N.
Proof.
  intros U N Hh Hp Hm HN. split; [done|]. split; [lia|]. split; [done|]. split; [done|]. split; [|done].
  apply Nat.div_le_lower_bound; lia.
Qed.

(** ** Lemmas: arbitrary traffic *)

Definition Slot_ok (s : Slot) : Prop :=
  length (s_data s) = kMaxSlotPayload /\ length (s_pendingLastBytes s) = kMaxSlotPayload
  /\ 0 <= s_unitLen s /\ 0 <= s_totalFragments s /\ 0 <= s_lastFragLen s.

Definition table_ok (r : Reassembler) : Prop :=
  length (r_slots r) = frag_max_concurrent_per_session /\ Forall Slot_ok (r_slots r).

Lemma Slot_new_ok : Slot_ok Slot_new.
Proof. by vm_compute. Qed.

Lemma Slot_open_ok t q now : Slot_ok (Slot_open t q now).
Proof. apply Slot_new_ok. Qed.

Lemma table_ok_insert r i s st :
  table_ok r -> Slot_ok s -> table_ok (mkReassembler (<[i := s]> (r_slots r)) st).
Proof.
  intros [Hl Hf] Hs. split; cbn; [by rewrite length_insert|]. by apply Forall_insert.
Qed.

Lemma expireOne_ok r t q now : table_ok r -> table_ok (expireOne r t q now).
Proof.
  intros Hr. unfold expireOne. destruct (findSlot _ _ _) as [[i s]|]; [|done].
  destruct (timeReached _ _); [|done]. by apply table_ok_insert, Slot_new_ok.
Qed.

Lemma oldest_loop_bound ss now i best :
  (fst best < i + length ss)%nat -> (oldest_loop ss now i best < i + length ss)%nat.
Proof.
  revert i best. induction ss as [|s ss IH]; intros i best H; cbn [oldest_loop length] in *; [lia|].
  replace (i + S (length ss))%nat with (S i + length ss)%nat by lia. apply IH.
  destruct (_ <? _); cbn [fst]; lia.
Qed.

Lemma acquireSlot_ok r t q now :
  table_ok r -> exists r' i s, acquireSlot r t q now = (r', i) /\ table_ok r'
    /\ r_slots r' !! i = Some s /\ slot_matches t q s = true.
Proof.
  intros Hr. apply (expireOne_ok r t q now) in Hr. unfold acquireSlot. set (r1 := expireOne r t q now) in *.
  assert (slot_matches t q (Slot_open t q now) = true) as Hopen by (unfold slot_matches; cbn; by rewrite !Z.eqb_refl).
  destruct (findSlot (r_slots r1) t q) as [[i s]|] eqn:E.
  { apply list_find_Some in E as (Hi & Hs & _). exists r1, i, s. split_and!; try done. by apply Is_true_true. }
  assert (forall i st, (i < length (r_slots r1))%nat ->
    exists r' j s, (mkReassembler (<[i := Slot_open t q now]> (r_slots r1)) st, i) = (r', j)
    /\ table_ok r' /\ r_slots r' !! j = Some s /\ slot_matches t q s = true) as Hput.
  { intros i st Hi. do 2 eexists. exists (Slot_open t q now). split; [done|].
    split; [by apply table_ok_insert, Slot_open_ok|]. split; [|done]. cbn. by apply list_lookup_insert_eq. }
  unfold allocSlot. destruct (list_find _ _) as [[i s]|] eqn:Ef.
  - apply list_find_Some in Ef as (Hi & _). apply Hput. by eapply lookup_lt_Some.
  - apply Hput. destruct Hr as [Hl _]. apply (oldest_loop_bound _ _ 0). cbn [fst]. rewrite Hl.
    unfold frag_max_concurrent_per_session. lia.
Qed.

Lemma placeFragment_ok s i bs s' : placeFragment s i bs = Some s' -> Slot_ok s -> Slot_ok s'.
Proof.
  unfold placeFragment. destruct (negb _); [by intros [= ->]|]. cbv zeta.
  destruct (Nat.ltb_spec (length (s_data s)) (Z.to_nat (i * s_unitLen s) + length bs)); [done|].
  intros [= <-] (H1 & H2 & H3). split; [|done]. cbn. by rewrite length_splice.
Qed.

Lemma slot_accept_ok s hd i bs s' : slot_accept s hd i bs = Some s' -> Slot_ok s -> Slot_ok s'.
Proof.
  intros Ha Hs. pose proof Hs as (H1 & H2 & H3 & H4 & H5). unfold slot_accept in Ha. cbv zeta in Ha.
  pose proof (wrap_range 16 (Z.of_nat (length bs)) ltac:(lia)) as [Hu _].
  destruct (_ && _); [by apply placeFragment_ok in Ha|]. destruct (fragMore hd).
  - destruct (placeFragment _ i bs) as [s2|] eqn:E; [|done].
    apply placeFragment_ok in E; [|by destruct (_ =? _)].
    destruct (_ && _); [|by injection Ha as <-].
    destruct (placeFragment s2 _ _) as [s3|] eqn:E3; [|done].
    apply placeFragment_ok in E3; [|done]. by injection Ha as <-.
  - pose proof (wrap_range 16 (i + 1) ltac:(lia)) as [Hw _].
    destruct (negb _); [by apply placeFragment_ok in Ha|]. cbn [s_pendingLastBytes set_total] in Ha.
    destruct (Nat.ltb_spec (length (s_pendingLastBytes s)) (length bs)); [done|].
    injection Ha as <-. split; [done|]. split; [|done]. cbn. by rewrite length_splice.
Qed.

Lemma ok_Some_inj {A E} (a b : A) : (ok (Some a) : Result (option A) E) = ok (Some b) -> a = b.
Proof. congruence. Qed.

Lemma checkComplete_frame s fb :
  Slot_ok s -> snd (checkComplete s) = ok (Some fb) ->
  exists pl, fb_bytes fb = FrameHeader_bytes (mkFrameHeader (s_type s) 0 (s_channel s) (s_seq s) (Z.of_nat (length pl))) ++ pl
    /\ (length pl <= kMaxSlotPayload)%nat.
Proof.
  intros (H1 & _ & H3 & H4 & H5). unfold checkComplete, kMaxSlotPayload in *.
  destruct (Z.eqb_spec (s_totalFragments s) 0); [done|]. destruct (negb _); [done|]. cbn [orb]. cbv zeta.
  set (tl := (s_totalFragments s - 1) * s_unitLen s + s_lastFragLen s).
  assert (0 <= tl) as Htl by (unfold tl; nia).
  destruct (Z.ltb_spec (Z.of_nat (kFrameBufferCapacity - kHeaderBytes)) tl); [done|].
  unfold kFrameBufferCapacity, kHeaderBytes in *. cbn [Nat.sub] in *.
  rewrite encodeFrameHeader_spec by (cbn; lia). cbn [snd]. intros <-%ok_Some_inj.
  assert (length (take (Z.to_nat tl) (s_data s)) = Z.to_nat tl) as Hlt by (rewrite length_take; lia).
  set (pl := take (Z.to_nat tl) (s_data s)) in *. clearbody pl. exists pl.
  rewrite setSize_bytes by (unfold kFrameBufferCapacity; lia). rewrite <- Hlt.
  rewrite take_splice by (rewrite length_app, length_drop, Hlt; cbn; lia).
  rewrite take_app_length' by done. rewrite wrap_small by (unfold in_u; lia).
  split; [|lia]. by replace (Z.of_nat (length pl)) with tl by lia.
Qed.

Lemma accept_total r hd (pl : list byte) now :
  table_ok r ->
  table_ok (fst (accept r hd pl now))
  /\ forall fb, snd (accept r hd pl now) = ok (Some fb) ->
       exists p, (length p <= kMaxSlotPayload)%nat
         /\ fb_bytes fb = FrameHeader_bytes (mkFrameHeader (fh_type hd) 0 (fh_channel hd) (fh_seq hd) (Z.of_nat (length p))) ++ p.
Proof.
  intros Hr. unfold accept. destruct (_ <? _)%nat; [done|]. destruct (_ <=? _); [done|].
  destruct (acquireSlot_ok r (fh_type hd) (fh_seq hd) now Hr) as (r' & i & s & -> & Hr' & Hi & Hs).
  rewrite Hi. destruct (slot_accept _ _ _ _) as [s'|] eqn:E.
  2: { cbn. split; [|done]. by apply table_ok_insert, Slot_new_ok. }
  assert (Slot_ok s) as Hsok by (destruct Hr' as [_ Hf]; by eapply Forall_lookup_1).
  pose proof (slot_accept_key _ _ _ _ _ E) as Hk. apply slot_accept_ok in E; [|exact Hsok].
  pose proof (checkComplete_slot s') as Hslot. pose proof (checkComplete_frame s') as Hframe.
  destruct (checkComplete s') as [s2 res]. cbn [fst snd] in *. split.
  - apply table_ok_insert; [done|]. destruct Hslot as [->| ->]; [done|apply Slot_new_ok].
  - intros fb ->. destruct (Hframe fb E eq_refl) as (p & Hb & Hl). exists p. split; [done|]. rewrite Hb.
    unfold key_of, slot_matches in *. cbn in Hk. injection Hk as Ha Ht Hq Hc. rewrite Hc.
    apply andb_prop in Hs as [[_ E2%Z.eqb_eq]%andb_prop E3%Z.eqb_eq]. by rewrite Ht, Hq, E2, E3.
Qed.

(** ** Properties *)

(** C26.  Fragmentation is loss-free under reordering: the fragments of an oversized control
    frame each fit the binding, and delivered in any order, with any duplicates, within the
    five-second window and while another sender's arbitrary traffic occupies the other slot,
    they yield nothing until the last missing one arrives, and then exactly the original
    message with its fragment flags cleared. *)
Theorem reassembly_any_order h p m evs k now ot oq T :
  let N := ((length p + (m - 10) - 1) / (m - 10))%nat in
  FrameHeader_ok h -> (length p <= kMaxSlotPayload)%nat ->
  (10 < m < 8 + length p)%nat -> (m <= kFrameBufferCapacity)%nat -> (N <= 32)%nat ->
  looksLikeEstop (FrameHeader_bytes h ++ p) = false ->
  (fh_type h, fh_seq h) <> (ot, oq) ->
  Forall (arrival_ok N ot oq T) (evs ++ [(Ours k, now)]) ->
  ours (evs ++ [(Ours k, now)]) = set_seq 0 N -> k ∉ ours evs ->
  exists frags, fragmentFrame (FrameHeader_bytes h ++ p) m = Some frags
    /\ Forall (fun f => (length f <= m)%nat) frags
    /\ exists outs fb, snd (run frags Reassembler_new (evs ++ [(Ours k, now)])) = outs ++ [ok (Some fb)]
       /\ Forall (fun res => res = ok None) outs
       /\ fb_bytes fb = FrameHeader_bytes (mkFrameHeader (fh_type h) 0 (fh_channel h) (fh_seq h) (Z.of_nat (length p))) ++ p.
Proof.
  intros N Hh Hp Hm1 Hm2 HN He Hkey Hok Hall Hk.
  pose proof (frag_message_intro h p m Hh Hp Hm1 HN) as Hm. fold N in Hm.
  eexists. split; [apply fragmentFrame_spec; done || lia|]. fold N. split.
  { apply Forall_fmap, Forall_seq. intros i Hi. cbn.
    change (length (frag_bytes h p (m - 10) N i) <= m)%nat. rewrite length_frag_bytes.
    pose proof (slice_bound h p (m - 10) N Hm i ltac:(lia)). lia. }
  apply Forall_app in Hok as [Hok Hk1]. apply Forall_singleton in Hk1 as [Hnow Hki]. cbn [fst snd] in *.
  rewrite ours_app in Hall. replace (ours [(Ours k, now)]) with ({[k]} : gset nat) in Hall by (unfold ours; cbn; set_solver).
  assert (size (ours evs) + 1 = N)%nat as Hsz.
  { rewrite <- (size_set_seq (C := gset nat) 0 N), <- Hall, size_union, size_singleton by set_solver. done. }
  rewrite run_app. pose proof (run_spec h p (m - 10) N ot oq T Hm Hkey evs Reassembler_new ∅
    (table_inv_new h p (m - 10) N ot oq T) Hok) as Hrun.
  rewrite (union_empty_r_L (ours evs)) in Hrun. specialize (Hrun ltac:(lia)).
  destruct (run _ Reassembler_new evs) as [r1 outs]. destruct Hrun as [Hinv Houts].
  cbn [run deliver]. rewrite (receive_frag h p (m - 10) N Hm) by done.
  pose proof (ours_step h p (m - 10) N ot oq T Hm Hkey _ r1 k now Hinv Hki Hnow ltac:(lia)) as Hs.
  destruct (accept _ _ _ _) as [r2 res]. rewrite decide_True in Hs.
  - destruct Hs as (_ & fb & -> & Hfb). exists outs, fb. by split.
  - rewrite size_union, size_singleton by set_solver. lia.
Qed.

Definition frag_example_header : FrameHeader := mkFrameHeader 0x11 0 7 300 30.
Definition frag_example_payload : list byte := map (fun i => z2b (Z.of_nat i)) (seq 0 30).

Lemma reassembly_any_order_witness :
  exists frags, fragmentFrame (FrameHeader_bytes frag_example_header ++ frag_example_payload) 21 = Some frags
    /\ exists outs fb,
      snd (run frags Reassembler_new
             ([(Ours 2, 100); (Theirs (mkFrameHeader 5 2 0 9 4) [Byte.x00; Byte.x00; Byte.xff], 150);
               (Ours 0, 180); (Ours 2, 190)] ++ [(Ours 1, 4000)])) = outs ++ [ok (Some fb)]
      /\ drop 8 (fb_bytes fb) = frag_example_payload.
Proof.
  destruct (reassembly_any_order frag_example_header frag_example_payload 21
    [(Ours 2, 100); (Theirs (mkFrameHeader 5 2 0 9 4) [Byte.x00; Byte.x00; Byte.xff], 150);
               (Ours 0, 180); (Ours 2, 190)] 1 4000 5 9 100) as (frags & E & _ & outs & fb & Er & _ & Eb).
  - repeat split; discriminate || reflexivity.
  - vm_compute. lia.
  - vm_compute. lia.
  - vm_compute. lia.
  - vm_compute. lia.
  - reflexivity.
  - discriminate.
  - repeat constructor; cbn; lia.
  - reflexivity.
  - vm_compute. intros H. inversion H.
  - exists frags. split; [exact E|]. exists outs, fb. split; [exact Er|]. by rewrite Eb.
Defined.

(**  On arbitrary traffic the reassembler stays inside its buffers: it keeps two slots of
    504 bytes, and any frame it completes has cleared flags, the type, channel and sequence of
    the completing fragment, a length field equal to its payload, and at most 504 bytes. *)
Theorem reassembler_total (traffic : list (FrameHeader * list byte * Z)) hd pl now :
  let r := foldl (fun r e => fst (accept r (fst (fst e)) (snd (fst e)) (snd e))) Reassembler_new traffic in
  table_ok r
  /\ forall fb, snd (accept r hd pl now) = ok (Some fb) ->
       exists p, (length p <= kMaxSlotPayload)%nat
         /\ fb_bytes fb = FrameHeader_bytes (mkFrameHeader (fh_type hd) 0 (fh_channel hd) (fh_seq hd) (Z.of_nat (length p))) ++ p.
Proof.
  intros r. assert (table_ok r) as Hr.
  { unfold r. generalize (conj eq_refl (Forall_replicate _ 2 Slot_new Slot_new_ok) : table_ok Reassembler_new).
    generalize Reassembler_new. induction traffic as [|[[hd' pl'] now'] tr IH]; intros r0 Hr0; [done|].
    cbn [foldl]. apply IH. by apply accept_total. }
  split; [done|]. by apply accept_total.
Qed.
