(* ===== verification/Blob.v ===== *)
(** * Blob: namespaced blob transfer (wire/blob_chunks.hpp, wire/raw/blob_done.hpp)

    The identity shared by BLOB_REQ, BLOB_CHUNK and BLOB_DONE, the chunk header and payload,
    the two chunk storages behind one interface, and the reassembler over any storage. *)

From S2P Require Import Prelude ByteIO SerialArith Codec Collect.
From stdpp Require Import gmap fin_sets.
#[local] Open Scope Z_scope.

(** ** Identity (wire/messages/blob_req.hpp) *)

Record BlobId := mkBlobId {
  bi_ns : Z; bi_has_store_id : bool; bi_store_id : Z; bi_has_slot : bool; bi_slot : Z;
  bi_has_generation : bool; bi_generation : Z }.

#[export] Instance BlobId_eq_dec : EqDecision BlobId.
Proof. solve_decision. Defined.

Definition blob_ns_catalog : Z := 0.

Definition isCatalog (i : BlobId) : bool := bi_ns i =? blob_ns_catalog.

Definition sameTarget (a b : BlobId) : bool :=
  (bi_ns a =? bi_ns b) && (bi_store_id a =? bi_store_id b) && (bi_slot a =? bi_slot b).

(** The identity the raw frames carry: the [has_] flags are derived on receipt. *)
Definition wire_id (ns store slot generation : Z) : BlobId :=
  mkBlobId ns (negb (ns =? blob_ns_catalog)) store (negb (ns =? blob_ns_catalog)) slot
    (negb (generation =? 0)) generation.

(** ** BLOB_DONE *)

Definition kBlobDoneBytes : nat := 7.

Module BlobDoneStatus.
Definition VerifiedComplete : Z := 0.
Definition HashMismatch : Z := 1.
Definition Aborted : Z := 2.
End BlobDoneStatus.

Record BlobDoneMsg := mkBlobDoneMsg { bd_id : BlobId; bd_status : Z }.

Definition encodeBlobDone (m : BlobDoneMsg) (out : list byte) : list byte * nat :=
  if (length out <? kBlobDoneBytes)%nat then (out, 0%nat) else
  let out := fst (on_subspan 0 (fun o => putU8 o (bi_ns (bd_id m))) out) in
  let out := fst (on_subspan 1 (fun o => putU8 o (bi_store_id (bd_id m))) out) in
  let out := fst (on_subspan 2 (fun o => putU8 o (bi_slot (bd_id m))) out) in
  let out := fst (on_subspan 3 (fun o => putU8 o 0) out) in
  let out := fst (on_subspan 4 (fun o => putU16 o (bi_generation (bd_id m))) out) in
  let out := fst (on_subspan 6 (fun o => putU8 o (bd_status m)) out) in
  (out, kBlobDoneBytes).

Definition decodeBlobDone (bs : list byte) : option BlobDoneMsg :=
  if negb (length bs =? kBlobDoneBytes)%nat then None else
  Some (mkBlobDoneMsg
          (wire_id (getU8 (drop 0 bs)) (getU8 (drop 1 bs)) (getU8 (drop 2 bs)) (getU16 (drop 4 bs)))
          (getU8 (drop 6 bs))).

(** ** BLOB_CHUNK *)

Definition catalog_chunk_payload : nat := 192.
Definition kBlobChunkHeaderBytes : nat := 14.

Record BlobChunkHeader := mkBlobChunkHeader {
  bc_id : BlobId; bc_chunk_index : Z; bc_chunk_count : Z; bc_total_bytes : Z }.

Definition chunkCount (totalBytes : nat) : nat :=
  if (totalBytes =? 0)%nat then 0%nat
  else ((totalBytes + catalog_chunk_payload - 1) / catalog_chunk_payload)%nat.

Definition putBlobChunkHeader (h : BlobChunkHeader) (out : list byte) : list byte * nat :=
  if (length out <? kBlobChunkHeaderBytes)%nat then (out, 0%nat) else
  let out := fst (on_subspan 0 (fun o => putU8 o (bi_ns (bc_id h))) out) in
  let out := fst (on_subspan 1 (fun o => putU8 o (bi_store_id (bc_id h))) out) in
  let out := fst (on_subspan 2 (fun o => putU8 o (bi_slot (bc_id h))) out) in
  let out := fst (on_subspan 3 (fun o => putU8 o 0) out) in
  let out := fst (on_subspan 4 (fun o => putU16 o (bi_generation (bc_id h))) out) in
  let out := fst (on_subspan 6 (fun o => putU16 o (bc_chunk_index h)) out) in
  let out := fst (on_subspan 8 (fun o => putU16 o (bc_chunk_count h)) out) in
  let out := fst (on_subspan 10 (fun o => putU32 o (bc_total_bytes h)) out) in
  (out, kBlobChunkHeaderBytes).

Definition getBlobChunkHeader (bs : list byte) : option BlobChunkHeader :=
  if (length bs <? kBlobChunkHeaderBytes)%nat then None else
  Some (mkBlobChunkHeader
          (wire_id (getU8 (drop 0 bs)) (getU8 (drop 1 bs)) (getU8 (drop 2 bs)) (getU16 (drop 4 bs)))
          (getU16 (drop 6 bs)) (getU16 (drop 8 bs)) (getU32 (drop 10 bs))).

Definition fillBlobChunk (id : BlobId) (encoded : list byte) (index : nat) (out : list byte)
  : list byte * nat :=
  let cc := chunkCount (length encoded) in
  if ((cc =? 0) || (cc <=? index))%nat then (out, 0%nat) else
  let offset := (index * catalog_chunk_payload)%nat in
  let payloadLen := (length encoded - offset)%nat in
  let payloadLen := if (catalog_chunk_payload <? payloadLen)%nat then catalog_chunk_payload else payloadLen in
  let total := (kBlobChunkHeaderBytes + payloadLen)%nat in
  if (length out <? total)%nat then (out, 0%nat) else
  let h := mkBlobChunkHeader id (Z.of_nat index) (u16 (Z.of_nat cc)) (u32 (Z.of_nat (length encoded))) in
  let '(out, _) := putBlobChunkHeader h out in
  (splice kBlobChunkHeaderBytes (subspan offset payloadLen encoded) out, total).

(** ** Chunk storage *)

(** What a reassembler needs of its storage: after a successful [acquire] for [c] chunks and
    [n] bytes, a data area holding both and a flag per chunk, kept by every store into them. *)
Class ChunkStorage (S : Type) := {
  cst_max : nat;
  cst_acquire : S -> nat -> nat -> S * bool;
  cst_release : S -> S;
  cst_bytes : S -> list byte;
  cst_received : S -> list byte;
  cst_set : S -> list byte -> list byte -> S;
  cst_inv : S -> Prop;
  cst_ok : S -> nat -> nat -> Prop;
  cst_acquire_inv s c n s' b : cst_inv s -> cst_acquire s c n = (s', b) -> cst_inv s';
  cst_acquire_ok s c n s' :
    cst_inv s -> (0 < c <= cst_max)%nat -> (n <= cst_max * catalog_chunk_payload)%nat ->
    cst_acquire s c n = (s', true) -> cst_ok s' c n;
  cst_release_inv s : cst_inv s -> cst_inv (cst_release s);
  cst_ok_sizes s c n : cst_ok s c n ->
    (c * catalog_chunk_payload <= length (cst_bytes s))%nat /\ (n <= length (cst_bytes s))%nat
    /\ (c <= length (cst_received s))%nat;
  cst_set_ok s c n d r : cst_ok s c n -> length d = length (cst_bytes s) -> length r = length (cst_received s) ->
    cst_ok (cst_set s d r) c n /\ cst_bytes (cst_set s d r) = d /\ cst_received (cst_set s d r) = r
}.

#[global] Arguments cst_max S {_}.

(** [InlineChunkStorage<MaxChunks>]: both arrays inside the object. *)
Record InlineChunkStorage := mkInline { in_buf : list byte; in_seen : list byte }.

Definition InlineChunkStorage_new (MaxChunks : nat) : InlineChunkStorage :=
  mkInline (replicate (MaxChunks * catalog_chunk_payload) Byte.x00) (replicate MaxChunks Byte.x00).

Definition Inline_ok (MaxChunks : nat) (s : InlineChunkStorage) : Prop :=
  length (in_buf s) = (MaxChunks * catalog_chunk_payload)%nat /\ length (in_seen s) = MaxChunks.

Definition Inline_acquire (s : InlineChunkStorage) (_ _ : nat) : InlineChunkStorage * bool := (s, true).
Definition Inline_release (s : InlineChunkStorage) : InlineChunkStorage := s.

#[export] Program Instance Inline_storage (MaxChunks : nat) : ChunkStorage InlineChunkStorage := {|
  cst_max := MaxChunks;
  cst_acquire := Inline_acquire;
  cst_release := Inline_release;
  cst_bytes := in_buf;
  cst_received := in_seen;
  cst_set := fun _ d r => mkInline d r;
  cst_inv := Inline_ok MaxChunks;
  cst_ok := fun s c n => Inline_ok MaxChunks s /\ (c <= MaxChunks)%nat /\ (n <= MaxChunks * catalog_chunk_payload)%nat |}.
Next Obligation. intros M s c n s' b Hs [= <- <-]. done. Qed.
Next Obligation. intros M s c n s' Hs Hc Hn [= <-]. split; [done|lia]. Qed.
Next Obligation. done. Qed.
Next Obligation. intros M s c n ([H1 H2] & H3 & H4). unfold catalog_chunk_payload in *. cbn. lia. Qed.
Next Obligation. intros M s c n d r ([H1 H2] & H3) Hd Hr. split; [|done]. split; [|done]. split; cbn; lia. Qed.

(** [AllocatedChunkStorage]: one block holding the data area and then the flags. *)
Section allocated_storage.
Context (MaxChunks : nat) (allocate : nat -> option (list byte)).
Context (allocate_size : forall n b, allocate n = Some b -> length b = n).

Record AllocatedChunkStorage := mkAllocated { al_block : list byte; al_dataBytes : nat }.

Definition Allocated_release (_ : AllocatedChunkStorage) : AllocatedChunkStorage := mkAllocated [] 0.

Definition Allocated_acquire (s : AllocatedChunkStorage) (chunkCount totalBytes : nat)
  : AllocatedChunkStorage * bool :=
  let data := Nat.max (chunkCount * catalog_chunk_payload) totalBytes in
  let need := (data + chunkCount)%nat in
  if (length (al_block s) <? need)%nat then
    match allocate need with
    | None => (Allocated_release s, false)
    | Some block => (mkAllocated block data, true)
    end
  else (mkAllocated (al_block s) data, true).

Program Definition Allocated_storage : ChunkStorage AllocatedChunkStorage := {|
  cst_max := MaxChunks;
  cst_acquire := Allocated_acquire;
  cst_release := Allocated_release;
  cst_bytes := fun s => take (al_dataBytes s) (al_block s);
  cst_received := fun s => drop (al_dataBytes s) (al_block s);
  cst_set := fun s d r => mkAllocated (d ++ r) (al_dataBytes s);
  cst_inv := fun _ => True;
  cst_ok := fun s c n => al_dataBytes s = Nat.max (c * catalog_chunk_payload) n
                         /\ (al_dataBytes s + c <= length (al_block s))%nat |}.
Next Obligation. done. Qed.
Next Obligation.
  intros s c n s' _ Hc Hn. unfold Allocated_acquire. destruct (Nat.ltb_spec (length (al_block s))
    (Nat.max (c * catalog_chunk_payload) n + c)).
  - destruct (allocate _) as [b|] eqn:E; [|done]. apply allocate_size in E. intros [= <-]. cbn. lia.
  - intros [= <-]. cbn. lia.
Qed.
Next Obligation. done. Qed.
Next Obligation. intros s c n [H1 H2]. cbn. rewrite length_take, length_drop. lia. Qed.
Next Obligation.
  intros s c n d r [H1 H2] Hd Hr. cbn in *. rewrite length_take in Hd. rewrite length_drop in Hr.
  split; [split; [done|rewrite length_app; lia]|].
  rewrite take_app_length' by lia. by rewrite drop_app_length' by lia.
Qed.
End allocated_storage.

(** ** The reassembler over any storage *)

Section reassembler.
Context {S : Type} `{ChunkStorage S}.

Record ChunkReassembler := mkChunkReassembler {
  cr_store : S; cr_id : BlobId; cr_chunkCount : nat; cr_receivedCount : Z; cr_totalBytes : nat;
  cr_startMs : Z; cr_lastProgressMs : Z; cr_active : bool }.

Definition BlobId_default : BlobId := mkBlobId blob_ns_catalog false 0 false 0 false 0.

Definition ChunkReassembler_new (store : S) : ChunkReassembler :=
  mkChunkReassembler store BlobId_default 0 0 0 0 0 false.

Definition kMaxTotalBytes : nat := cst_max S * catalog_chunk_payload.

(** [&&] short-circuits: the storage is asked only for a transfer within bounds. *)
Definition cr_begin (r : ChunkReassembler) (id : BlobId) (chunkCount totalBytes : nat) (nowMs : Z)
  : ChunkReassembler :=
  let '(store, active) :=
    if ((0 <? chunkCount) && (chunkCount <=? cst_max S) && (totalBytes <=? kMaxTotalBytes))%nat
    then cst_acquire (cr_store r) chunkCount totalBytes else (cr_store r, false) in
  let chunkCount := if active then chunkCount else 0%nat in
  let totalBytes := if active then totalBytes else 0%nat in
  let store := if active
               then cst_set store (cst_bytes store)
                      (splice 0 (replicate chunkCount Byte.x00) (cst_received store))
               else store in
  mkChunkReassembler store id chunkCount 0 totalBytes nowMs nowMs active.

Definition cr_begin_header (r : ChunkReassembler) (h : BlobChunkHeader) (nowMs : Z) : ChunkReassembler :=
  cr_begin r (bc_id h) (Z.to_nat (bc_chunk_count h)) (Z.to_nat (bc_total_bytes h)) nowMs.

Definition cr_reset (r : ChunkReassembler) : ChunkReassembler :=
  mkChunkReassembler (cst_release (cr_store r)) (cr_id r) 0 0 0 (cr_startMs r) (cr_lastProgressMs r) false.

Definition cr_insert (r : ChunkReassembler) (chunkPayload : list byte) (nowMs : Z) : ChunkReassembler * bool :=
  if negb (cr_active r) then (r, false) else
  match getBlobChunkHeader chunkPayload with
  | None => (r, false)
  | Some h =>
      if negb (sameTarget (bc_id h) (cr_id r)) then (r, false) else
      if negb (bc_chunk_count h =? Z.of_nat (cr_chunkCount r))
         || (Z.of_nat (cr_chunkCount r) <=? bc_chunk_index h) then (r, false) else
      let index := Z.to_nat (bc_chunk_index h) in
      let payload := drop kBlobChunkHeaderBytes chunkPayload in
      let offset := (index * catalog_chunk_payload)%nat in
      let buf := cst_bytes (cr_store r) in
      if (length buf <? offset + length payload)%nat then (r, false) else
      let received := cst_received (cr_store r) in
      let fresh := byte_eqb (nth index received Byte.x00) Byte.x00 in
      let received := if fresh then <[index := Byte.x01]> received else received in
      let count := if fresh then u32 (cr_receivedCount r + 1) else cr_receivedCount r in
      (mkChunkReassembler (cst_set (cr_store r) (splice offset payload buf) received) (cr_id r)
         (cr_chunkCount r) count (cr_totalBytes r) (cr_startMs r) nowMs true, true)
  end.

Definition cr_complete (r : ChunkReassembler) : bool :=
  cr_active r && (cr_receivedCount r =? Z.of_nat (cr_chunkCount r)).

(** [cap] is [out.size()]; the indices are written in ascending order. *)
Fixpoint missing_loop (received : list byte) (i : nat) (n cap : nat) : list nat :=
  match n with
  | O => []
  | Datatypes.S n' =>
      match cap with
      | O => []
      | Datatypes.S cap' =>
          if byte_eqb (nth i received Byte.x00) Byte.x00
          then i :: missing_loop received (Datatypes.S i) n' cap'
          else missing_loop received (Datatypes.S i) n' cap
      end
  end.

Definition missingIndices (r : ChunkReassembler) (cap : nat) : list nat :=
  if negb (cr_active r) then []
  else missing_loop (cst_received (cr_store r)) 0 (Nat.min (cr_chunkCount r) (cst_max S)) cap.

Definition blob_timeout_ms : Z := 5000.
Definition catalog_chunk_gap_timeout_ms : Z := 500.

Definition timedOut (r : ChunkReassembler) (nowMs : Z) : bool :=
  cr_active r && timeReached nowMs (u32 (cr_startMs r + blob_timeout_ms)).

Definition gapElapsed (r : ChunkReassembler) (nowMs : Z) : bool :=
  cr_active r && negb (cr_complete r)
  && timeReached nowMs (u32 (cr_lastProgressMs r + catalog_chunk_gap_timeout_ms)).

Definition assembled (r : ChunkReassembler) : list byte :=
  let buf := cst_bytes (cr_store r) in
  if negb (cr_active r) || (length buf <? cr_totalBytes r)%nat then []
  else take (cr_totalBytes r) buf.
End reassembler.

(** ** Codec instances *)

Definition BlobId_ok (i : BlobId) : Prop :=
  in_u 8 (bi_ns i) /\ in_u 8 (bi_store_id i) /\ in_u 8 (bi_slot i) /\ in_u 16 (bi_generation i).

Definition BlobId_bytes (i : BlobId) : list byte :=
  le_bytes 1 (bi_ns i) ++ le_bytes 1 (bi_store_id i) ++ le_bytes 1 (bi_slot i) ++ le_bytes 1 0
  ++ le_bytes 2 (bi_generation i).

(** The identity as the receiver rebuilds it. *)
Definition canonical_id (i : BlobId) : BlobId := wire_id (bi_ns i) (bi_store_id i) (bi_slot i) (bi_generation i).

Definition BlobDoneMsg_ok (m : BlobDoneMsg) : Prop :=
  BlobId_ok (bd_id m) /\ canonical_id (bd_id m) = bd_id m /\ in_u 8 (bd_status m).

Definition BlobDoneMsg_bytes (m : BlobDoneMsg) : list byte := BlobId_bytes (bd_id m) ++ le_bytes 1 (bd_status m).

#[export] Program Instance BlobDone_codec : WireCodec BlobDoneMsg := {|
  wire_size := kBlobDoneBytes; wire_ok := BlobDoneMsg_ok; wire_bytes := BlobDoneMsg_bytes;
  wire_encode := encodeBlobDone; wire_decode := decodeBlobDone |}.
Next Obligation. unfold kBlobDoneBytes. lia. Qed.
Next Obligation. done. Qed.
Next Obligation.
  unfold kBlobDoneBytes. intros m out _ Hl. unfold encodeBlobDone, kBlobDoneBytes.
  rewrite (proj2 (Nat.ltb_ge _ _)) by done. write_fields. by expose_cells out 7%nat.
Qed.
Next Obligation. intros. unfold encodeBlobDone. by rewrite (proj2 (Nat.ltb_lt _ _)). Qed.
Next Obligation.
  intros [[n hs s hl l hg g] st] ((H1 & H2 & H3 & H4) & Hc & H5).
  cbn [bd_id bd_status bi_ns bi_store_id bi_slot bi_generation] in *.
  unfold decodeBlobDone, BlobDoneMsg_bytes, BlobId_bytes.
  cbn [bd_id bd_status bi_ns bi_store_id bi_slot bi_generation length app le_bytes Nat.eqb negb kBlobDoneBytes].
  cbn. read_fields. unfold canonical_id in Hc. cbn in Hc. by rewrite Hc.
Qed.
Next Obligation.
  intros l m. unfold decodeBlobDone. destruct (negb _); [done|]. intros [= <-].
  split; [|split; [done|apply getU8_range]]. repeat split; apply getU8_range || apply getU16_range.
Qed.

Definition BlobChunkHeader_ok (h : BlobChunkHeader) : Prop :=
  BlobId_ok (bc_id h) /\ canonical_id (bc_id h) = bc_id h /\ in_u 16 (bc_chunk_index h)
  /\ in_u 16 (bc_chunk_count h) /\ in_u 32 (bc_total_bytes h).

Definition BlobChunkHeader_bytes (h : BlobChunkHeader) : list byte :=
  BlobId_bytes (bc_id h) ++ le_bytes 2 (bc_chunk_index h) ++ le_bytes 2 (bc_chunk_count h)
  ++ le_bytes 4 (bc_total_bytes h).

Lemma putBlobChunkHeader_spec h out :
  (14 <= length out)%nat -> putBlobChunkHeader h out = (BlobChunkHeader_bytes h ++ drop 14 out, 14%nat).
Proof.
  intros Hl. unfold putBlobChunkHeader, kBlobChunkHeaderBytes.
  rewrite (proj2 (Nat.ltb_ge _ _)) by done. write_fields. by expose_cells out 14%nat.
Qed.

Lemma getBlobChunkHeader_bytes id i c n rest :
  BlobId_ok id -> in_u 16 i -> in_u 16 c -> in_u 32 n ->
  getBlobChunkHeader (BlobChunkHeader_bytes (mkBlobChunkHeader id i c n) ++ rest)
  = Some (mkBlobChunkHeader (canonical_id id) i c n).
Proof.
  intros (H1 & H2 & H3 & H4) Hi Hc Hn. destruct id as [ns hs s hl l hg g].
  cbn [bi_ns bi_store_id bi_slot bi_generation] in *.
  unfold getBlobChunkHeader, BlobChunkHeader_bytes, BlobId_bytes. cbn. by read_fields.
Qed.

#[export] Program Instance BlobChunkHeader_codec : WireCodec BlobChunkHeader := {|
  wire_size := kBlobChunkHeaderBytes; wire_ok := BlobChunkHeader_ok; wire_bytes := BlobChunkHeader_bytes;
  wire_encode := putBlobChunkHeader; wire_decode := getBlobChunkHeader |}.
Next Obligation. unfold kBlobChunkHeaderBytes. lia. Qed.
Next Obligation. done. Qed.
Next Obligation. intros h out _. by apply putBlobChunkHeader_spec. Qed.
Next Obligation. intros. unfold putBlobChunkHeader. by rewrite (proj2 (Nat.ltb_lt _ _)). Qed.
Next Obligation.
  intros [id i c n] (H1 & H2 & H3 & H4 & H5). cbn [bc_id bc_chunk_index bc_chunk_count bc_total_bytes] in *.
  rewrite <- (app_nil_r (BlobChunkHeader_bytes _)), getBlobChunkHeader_bytes by done. by rewrite H2.
Qed.
Next Obligation.
  intros l m. unfold getBlobChunkHeader, kBlobChunkHeaderBytes. destruct (Nat.ltb_spec (length l) 14); [done|].
  intros [= <-]. split; [repeat split; apply getU8_range || apply getU16_range|]. split; [done|].
  split; [apply getU16_range|]. split; [apply getU16_range|]. apply getU32_range. cbn. rewrite length_drop. lia.
Qed.

(** ** Lemmas: chunks *)

Lemma chunkCount_spec n : (0 < n)%nat ->
  ((chunkCount n - 1) * catalog_chunk_payload < n <= chunkCount n * catalog_chunk_payload)%nat
  /\ (0 < chunkCount n)%nat.
Proof.
  intros Hn. unfold chunkCount. rewrite (proj2 (Nat.eqb_neq n 0)) by lia.
  apply ceil_div_bounds; unfold catalog_chunk_payload; lia.
Qed.

Definition chunk_bytes (id : BlobId) (enc : list byte) (i : nat) : list byte :=
  BlobChunkHeader_bytes (mkBlobChunkHeader id (Z.of_nat i) (Z.of_nat (chunkCount (length enc))) (Z.of_nat (length enc)))
  ++ piece catalog_chunk_payload enc i.

(** A blob whose chunk count and length fit the header's fields. *)
Definition blob_fits (id : BlobId) (enc : list byte) : Prop :=
  BlobId_ok id /\ (0 < length enc)%nat /\ Z.of_nat (chunkCount (length enc)) < 2 ^ 16
  /\ Z.of_nat (length enc) < 2 ^ 32.

Lemma fillBlobChunk_spec id enc i out :
  blob_fits id enc -> (i < chunkCount (length enc))%nat -> (length (chunk_bytes id enc i) <= length out)%nat ->
  let '(o, n) := fillBlobChunk id enc i out in take n o = chunk_bytes id enc i.
Proof.
  intros (_ & Hn & Hc & Hl) Hi Hout. pose proof (chunkCount_spec (length enc) Hn) as [Hb _].
  unfold chunk_bytes in *. rewrite length_app, length_piece in Hout. unfold fillBlobChunk.
  set (cc := chunkCount (length enc)) in *. 
  change (length (BlobChunkHeader_bytes _)) with 14%nat in Hout.
  rewrite (proj2 (Nat.eqb_neq cc 0)), (proj2 (Nat.leb_gt cc i)) by lia. cbn [orb]. cbv zeta.
  assert ((if (catalog_chunk_payload <? length enc - i * catalog_chunk_payload)%nat then catalog_chunk_payload
           else (length enc - i * catalog_chunk_payload)%nat) = length (piece catalog_chunk_payload enc i)) as ->.
  { rewrite length_piece. destruct (Nat.ltb_spec catalog_chunk_payload (length enc - i * catalog_chunk_payload)); lia. }
  rewrite length_piece in *. unfold kBlobChunkHeaderBytes. rewrite (proj2 (Nat.ltb_ge _ _)) by lia.
  rewrite putBlobChunkHeader_spec by lia. rewrite !wrap_small by (unfold in_u; lia).
  assert (subspan (i * catalog_chunk_payload) (Nat.min catalog_chunk_payload (length enc - i * catalog_chunk_payload)) enc
          = piece catalog_chunk_payload enc i) as ->.
  { unfold piece, subspan. destruct (Nat.min_spec catalog_chunk_payload (length enc - i * catalog_chunk_payload)) as [[? ->]|[? ->]]; [done|].
    by rewrite !take_ge by (rewrite length_drop; lia). }
  rewrite <- (length_piece catalog_chunk_payload enc i).
  rewrite take_splice by (rewrite length_app, length_drop, length_piece; change (length (BlobChunkHeader_bytes _)) with 14%nat; lia).
  by rewrite take_app_length' by done.
Qed.

(** ** Lemmas: a transfer under way *)

Section transfer.
Context {S : Type} `{ChunkStorage S} (id : BlobId) (enc : list byte).
Context (Hfit : blob_fits id enc).

#[local] Abbreviation cc := (chunkCount (length enc)).
#[local] Abbreviation W := catalog_chunk_payload.

Record xfer (D : gset nat) (r : ChunkReassembler (S := S)) : Prop := {
  xf_active : cr_active r = true;
  xf_target : sameTarget (canonical_id id) (cr_id r) = true;
  xf_count : cr_chunkCount r = cc;
  xf_total : cr_totalBytes r = length enc;
  xf_store : cst_ok (cr_store r) cc (length enc);
  xf_dom : forall i, i ∈ D -> (i < cc)%nat;
  xf_received : cr_receivedCount r = Z.of_nat (size D);
  xf_flags : forall i, (i < cc)%nat ->
      cst_received (cr_store r) !! i = Some (if decide (i ∈ D) then Byte.x01 else Byte.x00);
  xf_data : collected W enc D (cst_bytes (cr_store r)) }.

Lemma xfer_sizes D r : xfer D r ->
  (cc * W <= length (cst_bytes (cr_store r)))%nat /\ (length enc <= length (cst_bytes (cr_store r)))%nat
  /\ (cc <= length (cst_received (cr_store r)))%nat.
Proof. intros []. by apply cst_ok_sizes. Qed.

Lemma lookup_nth_byte (l : list byte) i b : l !! i = Some b -> nth i l Byte.x00 = b.
Proof. revert i. induction l as [|x l IH]; intros [|i]; cbn; naive_solver. Qed.

Lemma insert_ours D r i now :
  xfer D r -> (i < cc)%nat ->
  exists r', cr_insert r (chunk_bytes id enc i) now = (r', true) /\ xfer ({[i]} ∪ D) r'.
Proof.
  intros Hx Hi. pose proof (xfer_sizes D r Hx) as (Hs1 & Hs2 & Hs3). destruct Hx.
  destruct Hfit as (Hid & Hn & Hc & Hl). unfold cr_insert. rewrite xf_active0. cbn [negb].
  unfold chunk_bytes at 1. rewrite getBlobChunkHeader_bytes by (try done; unfold in_u; lia).
  cbn [bc_id bc_chunk_index bc_chunk_count bc_total_bytes]. rewrite xf_target0, xf_count0, Z.eqb_refl. cbn [negb orb].
  rewrite (proj2 (Z.leb_gt _ _)), Nat2Z.id by lia. cbv zeta.
  change (drop kBlobChunkHeaderBytes (chunk_bytes id enc i)) with (piece W enc i).
  pose proof (length_piece W enc i) as Hlp.
  rewrite (proj2 (Nat.ltb_ge _ _)) by nia.
  pose proof (xf_flags0 i Hi) as Hflag. rewrite (lookup_nth_byte _ _ _ Hflag).
  set (seen' := if byte_eqb _ _ then <[i:=Byte.x01]> (cst_received (cr_store r)) else cst_received (cr_store r)).
  assert (length seen' = length (cst_received (cr_store r))) as Hls
    by (unfold seen'; destruct (byte_eqb _ _); [apply length_insert|done]).
  destruct (cst_set_ok (cr_store r) cc (length enc) (splice (i * W) (piece W enc i) (cst_bytes (cr_store r))) seen'
    xf_store0) as (Hok & Hb & Hr); [apply length_splice; nia|done|].
  eexists. split; [done|]. split; cbn [cr_active cr_id cr_chunkCount cr_receivedCount cr_totalBytes cr_store]; try done.
  - intros k [->%elem_of_singleton|Hk]%elem_of_union; [done|by apply xf_dom0].
  - rewrite xf_received0. destruct (decide (i ∈ D)) as [Hin|Hnin].
    + replace ({[i]} ∪ D) with D by set_solver. done.
    + change (byte_eqb Byte.x00 Byte.x00) with true. cbv iota. pose proof (index_set_size cc D xf_dom0). rewrite wrap_small by (unfold in_u; lia).
      rewrite size_union, size_singleton by set_solver. lia.
  - intros k Hk. rewrite Hr. unfold seen'.
    destruct (decide (k ∈ {[i]} ∪ D)) as [Hin|Hnin]; destruct (decide (i ∈ D)) as [HiD|HiD]; cbn [byte_eqb];
      change (byte_eqb Byte.x01 Byte.x00) with false; change (byte_eqb Byte.x00 Byte.x00) with true; cbv iota.
    + rewrite (xf_flags0 k Hk), decide_True by set_solver. done.
    + destruct (decide (k = i)) as [->|Hne]; [apply list_lookup_insert_eq; lia|].
      rewrite list_lookup_insert_ne, (xf_flags0 k Hk), decide_True by (done || set_solver). done.
    + rewrite (xf_flags0 k Hk), decide_False by set_solver. done.
    + assert (k <> i) by set_solver.
      rewrite list_lookup_insert_ne, (xf_flags0 k Hk), decide_False by (done || set_solver). done.
  - rewrite Hb. apply collected_place; [unfold catalog_chunk_payload; lia|done|nia].
Qed.

(** A payload that is no chunk of this transfer's target. *)
Definition foreign (pl : list byte) : Prop :=
  match getBlobChunkHeader pl with
  | None => True
  | Some h => sameTarget (bc_id h) (canonical_id id) = false
  end.

Lemma sameTarget_eq a b : sameTarget a b = true <->
  bi_ns a = bi_ns b /\ bi_store_id a = bi_store_id b /\ bi_slot a = bi_slot b.
Proof. unfold sameTarget. rewrite !andb_true_iff, !Z.eqb_eq. tauto. Qed.

Lemma insert_foreign D r pl now : xfer D r -> foreign pl -> cr_insert r pl now = (r, false).
Proof.
  intros [] Hf. unfold cr_insert, foreign in *. rewrite xf_active0. cbn [negb].
  destruct (getBlobChunkHeader pl) as [h|]; [|done].
  destruct (sameTarget (bc_id h) (cr_id r)) eqn:E; [|done]. exfalso. apply not_true_iff_false in Hf. apply Hf.
  apply sameTarget_eq in E, xf_target0. apply sameTarget_eq. intuition congruence.
Qed.

Lemma begin_xfer (r : ChunkReassembler (S := S)) now s' :
  cst_inv (cr_store r) -> (length enc <= kMaxTotalBytes (S := S))%nat ->
  cst_acquire (cr_store r) cc (length enc) = (s', true) ->
  xfer ∅ (cr_begin_header r (mkBlobChunkHeader (canonical_id id) 0 (Z.of_nat cc) (Z.of_nat (length enc))) now).
Proof.
  intros Hinv Hmax Hacq. destruct Hfit as (Hid & Hn & Hc & Hl).
  pose proof (chunkCount_spec (length enc) Hn) as [Hb Hpos].
  assert (cc <= cst_max S)%nat as Hcm by (unfold kMaxTotalBytes, catalog_chunk_payload in *; lia).
  unfold cr_begin_header, cr_begin. cbn [bc_chunk_count bc_total_bytes bc_id]. rewrite !Nat2Z.id.
  rewrite (proj2 (Nat.ltb_lt _ _)), !(proj2 (Nat.leb_le _ _)) by done. cbn [andb]. rewrite Hacq.
  pose proof (cst_acquire_ok _ _ _ _ Hinv (conj Hpos Hcm) Hmax Hacq) as Hok.
  pose proof (cst_ok_sizes _ _ _ Hok) as (Hs1 & Hs2 & Hs3).
  destruct (cst_set_ok s' cc (length enc) (cst_bytes s') (splice 0 (replicate cc Byte.x00) (cst_received s')) Hok)
    as (Hok' & Hbs & Hrs); [done|apply length_splice; rewrite length_replicate; lia|].
  split; cbn [cr_active cr_id cr_chunkCount cr_receivedCount cr_totalBytes cr_store]; try done.
  - by apply sameTarget_eq.
  - intros i Hi. rewrite Hrs, decide_False by set_solver. rewrite splice_0, lookup_app_l by by rewrite length_replicate.
    by apply lookup_replicate_2.
Qed.

Lemma xfer_complete D r : xfer D r -> cr_complete r = bool_decide (D = set_seq 0 cc).
Proof.
  intros []. unfold cr_complete. rewrite xf_active0, xf_received0, xf_count0. cbn [andb].
  destruct (bool_decide_reflect (D = set_seq 0 cc)) as [->|Hne].
  - rewrite size_set_seq. apply Z.eqb_refl.
  - apply Z.eqb_neq. intros E%Nat2Z.inj. by apply Hne, index_set_full.
Qed.

Lemma xfer_assembled D r : xfer D r -> D = set_seq 0 cc -> assembled r = enc.
Proof.
  intros Hx Hfull. pose proof (xfer_sizes D r Hx) as (Hs1 & Hs2 & Hs3). destruct Hx.
  destruct Hfit as (_ & Hn & Hc & Hl). pose proof (chunkCount_spec (length enc) Hn) as [Hb Hpos]. unfold assembled.
  rewrite xf_active0, xf_total0, (proj2 (Nat.ltb_ge _ _)) by done. cbn [negb orb].
  apply (collected_full catalog_chunk_payload cc enc D); [|lia..|done].
  rewrite Hfull. intros i Hi. apply elem_of_set_seq. lia.
Qed.

Lemma missing_loop_spec received : forall n i cap D,
  (forall k, (i <= k < i + n)%nat -> received !! k = Some (if decide (k ∈ D) then Byte.x01 else Byte.x00)) ->
  missing_loop received i n cap = take cap (filter (fun k => k ∉ (D : gset nat)) (seq i n)).
Proof.
  induction n as [|n IH]; intros i cap D Hf; cbn [missing_loop seq]; [by rewrite filter_nil, take_nil|].
  rewrite filter_cons. pose proof (Hf i ltac:(lia)) as Hi. apply lookup_nth_byte in Hi. rewrite Hi.
  destruct cap as [|cap]; [done|]. destruct (decide (i ∈ D)) as [Hin|Hin].
  - rewrite decide_False by tauto. change (byte_eqb Byte.x01 Byte.x00) with false. cbv iota.
    apply IH. intros k Hk. apply Hf. lia.
  - rewrite decide_True by done. change (byte_eqb Byte.x00 Byte.x00) with true. cbv iota.
    simpl. f_equal. apply IH. intros k Hk. apply Hf. lia.
Qed.
End transfer.

(** ** Transfers as event sequences *)

Inductive BlobEvent :=
  | Chunk (i : nat)
  | Other (pl : list byte).

Definition blob_feed {S} `{ChunkStorage S} (id : BlobId) (enc : list byte)
    (r : ChunkReassembler (S := S)) (e : BlobEvent * Z) : ChunkReassembler :=
  match e with
  | (Chunk i, now) => fst (cr_insert r (chunk_bytes id enc i) now)
  | (Other pl, now) => fst (cr_insert r pl now)
  end.

Definition chunks_of (evs : list (BlobEvent * Z)) : gset nat :=
  list_to_set (omap (fun e => match fst e with Chunk i => Some i | Other _ => None end) evs).

Definition event_ok (id : BlobId) (enc : list byte) (e : BlobEvent * Z) : Prop :=
  match fst e with Chunk i => (i < chunkCount (length enc))%nat | Other pl => foreign id pl end.

Lemma feed_xfer {S} `{ChunkStorage S} id enc evs : forall D (r : ChunkReassembler (S := S)),
  blob_fits id enc -> xfer id enc D r -> Forall (event_ok id enc) evs ->
  xfer id enc (chunks_of evs ∪ D) (foldl (blob_feed id enc) r evs).
Proof.
  induction evs as [|[[i|pl] now] evs IH]; intros D r Hf Hx Hok; cbn [foldl].
  - replace (chunks_of [] ∪ D) with D by (unfold chunks_of; cbn; set_solver). done.
  - apply Forall_cons in Hok as [Hi Hok]. cbn [blob_feed].
    replace (chunks_of ((Chunk i, now) :: evs) ∪ D) with (chunks_of evs ∪ ({[i]} ∪ D)) by (unfold chunks_of; cbn; set_solver).
    destruct (insert_ours id enc Hf D r i now Hx Hi) as (r' & -> & Hx'). by apply IH.
  - apply Forall_cons in Hok as [Hp Hok]. cbn [blob_feed]. cbn in Hp.
    rewrite (insert_foreign id enc D r pl now Hx Hp). by apply IH.
Qed.

Lemma gapElapsed_spec {S} `{ChunkStorage S} (r : ChunkReassembler (S := S)) t e :
  cr_active r = true -> cr_lastProgressMs r = u32 t -> - 2 ^ 31 <= e - 500 < 2 ^ 31 ->
  gapElapsed r (u32 (t + e)) = negb (cr_complete r) && (500 <=? e).
Proof.
  intros Ha Hl He. unfold gapElapsed. rewrite Ha, Hl. cbn [andb]. f_equal.
  unfold catalog_chunk_gap_timeout_ms. replace (u32 (u32 t + 500)) with (u32 (t + 500))
    by (unfold wrap; by rewrite Zplus_mod_idemp_l). by apply timeReached_elapsed.
Qed.

(** ** Lemmas: arbitrary input *)

Definition cr_ok {S} `{ChunkStorage S} (r : ChunkReassembler (S := S)) : Prop :=
  (cr_totalBytes r <= kMaxTotalBytes (S := S))%nat /\ (cr_chunkCount r <= cst_max S)%nat
  /\ (if cr_active r then cst_ok (cr_store r) (cr_chunkCount r) (cr_totalBytes r)
      else cr_chunkCount r = 0%nat /\ cr_totalBytes r = 0%nat).

Lemma begin_ok {S} `{ChunkStorage S} (r : ChunkReassembler (S := S)) id c n now :
  cst_inv (cr_store r) -> cr_ok (cr_begin r id c n now).
Proof.
  intros Hinv. unfold cr_begin. destruct (_ && _) eqn:E; [|by repeat split; cbn; lia].
  apply andb_prop in E as [[H1%Nat.ltb_lt H2%Nat.leb_le]%andb_prop H3%Nat.leb_le].
  destruct (cst_acquire _ _ _) as [s' []] eqn:Ea; [|by repeat split; cbn; lia].
  pose proof (cst_acquire_ok _ _ _ _ Hinv (conj H1 H2) H3 Ea) as Hok.
  pose proof (cst_ok_sizes _ _ _ Hok) as (_ & _ & Hs).
  split; [done|]. split; [done|]. cbn. apply cst_set_ok; [done|done|].
  apply length_splice. rewrite length_replicate. lia.
Qed.

Lemma insert_ok {S} `{ChunkStorage S} (r : ChunkReassembler (S := S)) pl now :
  cr_ok r -> cr_ok (fst (cr_insert r pl now)).
Proof.
  intros Hr. pose proof Hr as (H1 & H2 & H3). unfold cr_insert. destruct (cr_active r) eqn:Ha; [|done].
  destruct (getBlobChunkHeader pl) as [h|]; [|done]. cbn [negb]. destruct (negb _); [done|].
  destruct (_ || _); [done|]. cbv zeta.
  destruct (Nat.ltb_spec (length (cst_bytes (cr_store r)))
    (Z.to_nat (bc_chunk_index h) * catalog_chunk_payload + length (drop kBlobChunkHeaderBytes pl))); [done|].
  split; [done|]. split; [done|]. cbn [fst cr_active cr_store cr_chunkCount cr_totalBytes].
  apply cst_set_ok; [done|by apply length_splice|]. destruct (byte_eqb _ _); [by rewrite length_insert|done].
Qed.

(** ** Properties *)

(** C27.  A blob of any namespace crosses the wire intact over any conforming storage: begun
    from a chunk's own header, fed its chunks in any order with duplicates and with foreign
    chunks in between, the reassembler is complete exactly when every index has arrived, the
    assembled bytes are then the blob, and until then the missing indices it reports are
    exactly the absent ones, ascending, cut to the caller's array. *)
Theorem blob_transfer {S} `{ChunkStorage S} (id : BlobId) (enc : list byte)
    (r : ChunkReassembler (S := S)) (s' : S) (evs : list (BlobEvent * Z)) (t0 : Z) (cap : nat) :
  blob_fits id enc -> cst_inv (cr_store r) -> (length enc <= kMaxTotalBytes (S := S))%nat ->
  cst_acquire (cr_store r) (chunkCount (length enc)) (length enc) = (s', true) ->
  Forall (event_ok id enc) evs ->
  let cc := chunkCount (length enc) in
  let h := mkBlobChunkHeader (canonical_id id) 0 (Z.of_nat cc) (Z.of_nat (length enc)) in
  let r' := foldl (blob_feed id enc) (cr_begin_header r h t0) evs in
  cr_complete r' = bool_decide (chunks_of evs = set_seq 0 cc)
  /\ (cr_complete r' = true -> assembled r' = enc)
  /\ missingIndices r' cap = take cap (filter (fun i => i ∉ chunks_of evs) (seq 0 cc)).
Proof.
  intros Hf Hinv Hmax Hacq Hok cc h r'.
  pose proof (feed_xfer id enc evs ∅ _ Hf (begin_xfer id enc Hf r t0 s' Hinv Hmax Hacq) Hok) as Hx.
  rewrite union_empty_r_L in Hx. change (foldl _ _ evs) with r' in Hx.
  pose proof (xfer_complete id enc _ _ Hx) as Hcomplete. split; [done|]. split.
  { rewrite Hcomplete. intros Hfull%bool_decide_eq_true. by eapply (xfer_assembled id enc Hf). }
  pose proof Hx as []. destruct Hf as (_ & Hn & Hc & Hl). pose proof (chunkCount_spec (length enc) Hn) as [Hb Hpos].
  unfold missingIndices. rewrite xf_active0, xf_count0. cbn [negb].
  assert (cc <= cst_max S)%nat by (unfold kMaxTotalBytes, catalog_chunk_payload, cc in *; lia).
  rewrite Nat.min_l by done. apply missing_loop_spec. intros k Hk. apply xf_flags0. lia.
Qed.

#[local] Instance inline4 : ChunkStorage InlineChunkStorage := Inline_storage 4.

Definition blob_example_id : BlobId := mkBlobId 1 true 3 true 7 true 12.
Definition blob_example : list byte := map (fun i => z2b (Z.of_nat i)) (seq 0 400).

Lemma blob_transfer_witness :
  assembled
    (foldl (blob_feed blob_example_id blob_example)
       (cr_begin_header (ChunkReassembler_new (InlineChunkStorage_new 4))
          (mkBlobChunkHeader (canonical_id blob_example_id) 0 3 400) 10)
       [(Chunk 2, 11); (Other [Byte.x00], 12); (Chunk 0, 13); (Chunk 2, 14); (Chunk 1, 15)])
  = blob_example.
Proof.
  refine (proj1 (proj2 (blob_transfer blob_example_id blob_example
    (ChunkReassembler_new (InlineChunkStorage_new 4)) (InlineChunkStorage_new 4)
    [(Chunk 2, 11); (Other [Byte.x00], 12); (Chunk 0, 13); (Chunk 2, 14); (Chunk 1, 15)] 10 0 _ _ _ _ _)) _).
  - split; [by repeat split|]. split; [vm_compute; lia|]. by split.
  - by split.
  - vm_compute. lia.
  - reflexivity.
  - repeat (apply Forall_cons; split); try apply Forall_nil; vm_compute; exact I || lia.
  - vm_compute. reflexivity.
Defined.

(**  Whatever headers and payloads arrive, over any conforming storage, the reassembler
    stays within its buffers: a refused transfer leaves no counts behind, the bytes it exposes
    never exceed the storage and number exactly the declared total of the transfer in
    progress, and the missing indices it reports are below the chunk count. *)
Theorem blob_total {S} `{ChunkStorage S} (r : ChunkReassembler (S := S)) (id : BlobId) (c n : nat)
    (t0 : Z) (pls : list (list byte * Z)) (cap : nat) :
  cst_inv (cr_store r) ->
  let r' := foldl (fun r p => fst (cr_insert r (fst p) (snd p))) (cr_begin r id c n t0) pls in
  cr_ok r'
  /\ length (assembled r') = (if cr_active r' then cr_totalBytes r' else 0%nat)
  /\ Forall (fun i => (i < cr_chunkCount r')%nat) (missingIndices r' cap)
  /\ cr_ok (cr_reset r') /\ assembled (cr_reset r') = [].
Proof.
  intros Hinv r'. assert (cr_ok r') as Hr.
  { unfold r'. pose proof (begin_ok r id c n t0 Hinv) as Hb. revert Hb. generalize (cr_begin r id c n t0).
    induction pls as [|p pls IH]; intros r0 Hr0; [done|]. cbn [foldl]. by apply IH, insert_ok. }
  split; [done|]. pose proof Hr as (H1 & H2 & H3). split; [|split; [|split]].
  - unfold assembled. destruct (cr_active r'); [|done]. apply cst_ok_sizes in H3 as (_ & Hs & _).
    rewrite (proj2 (Nat.ltb_ge _ _)) by done. cbn [negb orb]. rewrite length_take. lia.
  - unfold missingIndices. destruct (cr_active r'); [|constructor]. cbn [negb].
    assert (forall n i cap, Forall (fun k => (k < i + n)%nat) (missing_loop (cst_received (cr_store r')) i n cap)) as Hm.
    { intros m. induction m as [|m IH]; intros i [|cap']; cbn [missing_loop]; try constructor.
      - destruct (byte_eqb _ _); [constructor; [lia|]|]; (eapply Forall_impl; [apply IH|]; cbn; lia). }
    eapply Forall_impl; [apply Hm|]. cbn. lia.
  - repeat split; cbn; lia.
  - done.
Qed.

Lemma blob_total_witness :
  cr_ok
    (foldl (fun r p => fst (cr_insert r (fst p) (snd p)))
       (cr_begin (ChunkReassembler_new (InlineChunkStorage_new 4)) blob_example_id 65535 4000000 0)
       [(chunk_bytes blob_example_id blob_example 2, 5)]).
Proof.
  refine (proj1 (blob_total
    (ChunkReassembler_new (InlineChunkStorage_new 4)) blob_example_id 65535 4000000 0
    [(chunk_bytes blob_example_id blob_example 2, 5)] 0 _)).
  by split.
Defined.
