(* ===== verification/StreamBundle.v ===== *)
(** * StreamBundle: the STREAM bundle of wire/stream_bundle.hpp

    The writer keeps the destination valid after every sample by shifting the sample block in
    place; the reference form is the field-by-field layout.  The view is the validating parser,
    its accessors and the lead clamp. *)

From S2P Require Import Prelude ByteIO SerialArith.
From stdpp Require Import list.
#[local] Open Scope Z_scope.

Definition bundle_max_samples : nat := 32.
Definition bundle_max_span_ms : Z := 20.
Definition kStreamBundleHeaderBytes : nat := 6.
Definition kStreamBundleTOffBytes : nat := 2.

Definition default_spanCapUs : Z := bundle_max_span_ms * 1000.

(** ** The writer *)

Record BundleWriter := mkBundleWriter {
  bw_out : list byte; bw_tBase : Z; bw_sampleSize : nat; bw_tOffUnitUs : Z; bw_spanCapUs : Z;
  bw_valid : bool; bw_n : nat; bw_tOffs : list Z }.

Definition BundleWriter_new (out : list byte) (tBase : Z) (sampleSize : nat) (tOffUnitUs spanCapUs : Z)
  : BundleWriter :=
  let tOffs := replicate bundle_max_samples 0 in
  if (kStreamBundleHeaderBytes <=? length out)%nat then
    let out := fst (on_subspan 0 (fun o => putU32 o tBase) out) in
    let out := fst (on_subspan 5 (fun o => putU8 o 0) out) in
    mkBundleWriter out tBase sampleSize tOffUnitUs spanCapUs true 0 tOffs
  else mkBundleWriter out tBase sampleSize tOffUnitUs spanCapUs false 0 tOffs.

(** [memmove(out + dst, out + src, len)]. *)
Definition memmove (dst src len : nat) (out : list byte) : list byte :=
  splice dst (subspan src len out) out.

Definition addSample (w : BundleWriter) (tOff : Z) (sample : list byte) : BundleWriter * bool :=
  if negb (bw_valid w) then (w, false) else
  if negb (length sample =? bw_sampleSize w)%nat then (w, false) else
  if (bundle_max_samples <=? bw_n w)%nat then (w, false) else
  if (if (bw_n w =? 0)%nat then negb (tOff =? 0) else tOff <=? nth (bw_n w - 1) (bw_tOffs w) 0) then (w, false) else
  if bw_spanCapUs w <? u64 (tOff * bw_tOffUnitUs w) then (w, false) else
  let oldHeaderSize := (kStreamBundleHeaderBytes + kStreamBundleTOffBytes * bw_n w)%nat in
  let newHeaderSize := (oldHeaderSize + kStreamBundleTOffBytes)%nat in
  let newTotal := (newHeaderSize + (bw_n w + 1) * bw_sampleSize w)%nat in
  if (length (bw_out w) <? newTotal)%nat then (w, false) else
  let out := if (0 <? bw_n w)%nat
             then memmove newHeaderSize oldHeaderSize (bw_n w * bw_sampleSize w) (bw_out w)
             else bw_out w in
  let out := fst (on_subspan oldHeaderSize (fun o => putU16 o tOff) out) in
  let out := splice (newHeaderSize + bw_n w * bw_sampleSize w) sample out in
  let n := S (bw_n w) in
  let out := fst (on_subspan 4 (fun o => putU8 o (Z.of_nat n)) out) in
  (mkBundleWriter out (bw_tBase w) (bw_sampleSize w) (bw_tOffUnitUs w) (bw_spanCapUs w) true n
     (<[bw_n w := tOff]> (bw_tOffs w)), true).

Definition bw_finalize (w : BundleWriter) : nat :=
  if negb (bw_valid w) then 0%nat
  else (kStreamBundleHeaderBytes + kStreamBundleTOffBytes * bw_n w + bw_n w * bw_sampleSize w)%nat.

Definition bw_sampleCount (w : BundleWriter) : Z := Z.of_nat (bw_n w).

(** ** The view *)

Record BundleView := mkBundleView {
  bv_in : list byte; bv_tBase : Z; bv_n : nat; bv_sampleSize : nat; bv_tOffUnitUs : Z }.

Definition tOff_at (bs : list byte) (i : nat) : Z :=
  getU16 (drop (kStreamBundleHeaderBytes + kStreamBundleTOffBytes * i) bs).

(** The walk over the t_off array from element [i] on; [None] is Malformed. *)
Fixpoint tOff_walk (bs : list byte) (k i : nat) (lastTOff : Z) : option Z :=
  match k with
  | O => Some lastTOff
  | S k' =>
      let tOff := tOff_at bs i in
      if (if (i =? 0)%nat then negb (tOff =? 0) else tOff <=? lastTOff) then None
      else tOff_walk bs k' (S i) tOff
  end.

Definition BundleView_parse (bs : list byte) (sampleSize : nat) (tOffUnitUs spanCapUs : Z) : decoded BundleView :=
  if (length bs <? kStreamBundleHeaderBytes)%nat then err Truncated else
  let tBase := getU32 (drop 0 bs) in
  let n := Z.to_nat (getU8 (drop 4 bs)) in
  if (bundle_max_samples <? n)%nat then err Malformed else
  let tOffEnd := (kStreamBundleHeaderBytes + kStreamBundleTOffBytes * n)%nat in
  if (length bs <? tOffEnd)%nat then err Truncated else
  match tOff_walk bs n 0 0 with
  | None => err Malformed
  | Some lastTOff =>
      if (0 <? n)%nat && (spanCapUs <? u64 (lastTOff * tOffUnitUs)) then err Malformed else
      let total := (tOffEnd + n * sampleSize)%nat in
      if (length bs <? total)%nat then err Truncated
      else ok (mkBundleView bs tBase n sampleSize tOffUnitUs)
  end.

Definition sampleTimeUs (v : BundleView) (i : nat) : Z :=
  u32 (bv_tBase v + u32 (tOff_at (bv_in v) i * bv_tOffUnitUs v)).

Definition clampLead (v : BundleView) (nowUs capUs : Z) : BundleView * bool :=
  if (bv_n v =? 0)%nat then (v, false) else
  let overUs := i32 (i32 (u32 (sampleTimeUs v (bv_n v - 1) - nowUs)) - i32 capUs) in
  if overUs <=? 0 then (v, false)
  else (mkBundleView (bv_in v) (u32 (bv_tBase v - u32 overUs)) (bv_n v) (bv_sampleSize v) (bv_tOffUnitUs v), true).

Definition bv_sample (v : BundleView) (i : nat) : list byte :=
  let samplesStart := (kStreamBundleHeaderBytes + kStreamBundleTOffBytes * bv_n v)%nat in
  subspan (samplesStart + i * bv_sampleSize v) (bv_sampleSize v) (bv_in v).

(** ** The reference layout *)

Definition bundle_bytes (tBase : Z) (samples : list (Z * list byte)) : list byte :=
  le_bytes 4 tBase ++ le_bytes 1 (Z.of_nat (length samples)) ++ le_bytes 1 0
  ++ concat (map (fun s => le_bytes 2 (fst s)) samples) ++ concat (map snd samples).

(** Offsets start at zero, increase strictly, and the last stays within the span cap. *)
Fixpoint offsets_ok (unitUs capUs : Z) (prev : option Z) (offs : list Z) : Prop :=
  match offs with
  | [] => True
  | t :: offs' => match prev with None => t = 0 | Some p => p < t end
                  /\ u64 (t * unitUs) <= capUs /\ offsets_ok unitUs capUs (Some t) offs'
  end.

(** ** Lemmas: the writer *)

Lemma splice_at (pre mid post bs : list byte) :
  length mid = length bs -> splice (length pre) bs (pre ++ mid ++ post) = pre ++ bs ++ post.
Proof.
  intros H. unfold splice. rewrite take_app_length, <- drop_drop, drop_app_length.
  by rewrite <- H, drop_app_length.
Qed.

Lemma put16_at (pre mid post : list byte) v :
  length mid = 2%nat ->
  fst (on_subspan (length pre) (fun o => putU16 o v) (pre ++ mid ++ post)) = pre ++ le_bytes 2 v ++ post.
Proof.
  intros H. rewrite on_subspan_putU16 by (rewrite !length_app; lia). cbn [fst].
  rewrite <- (splice_at pre mid post (le_bytes 2 v)) by by rewrite length_le_bytes.
  unfold splice. by rewrite length_le_bytes.
Qed.

Definition header_bytes (tBase : Z) (count : byte) : list byte := le_bytes 4 tBase ++ [count] ++ le_bytes 1 0.

Definition offs_bytes (samples : list (Z * list byte)) : list byte :=
  concat (map (fun s => le_bytes 2 (fst s)) samples).

Definition data_bytes (samples : list (Z * list byte)) : list byte := concat (map snd samples).

Lemma bundle_bytes_eq tBase samples :
  bundle_bytes tBase samples
  = header_bytes tBase (z2b (Z.of_nat (length samples))) ++ offs_bytes samples ++ data_bytes samples.
Proof. unfold bundle_bytes, header_bytes. by rewrite <- !app_assoc. Qed.

Lemma length_offs samples : length (offs_bytes samples) = (2 * length samples)%nat.
Proof.
  induction samples as [|[t s] l IH]; [done|]. unfold offs_bytes in *. cbn [map concat length fst].
  rewrite length_app, length_le_bytes, IH. lia.
Qed.

Definition sized (S : nat) (samples : list (Z * list byte)) : Prop := Forall (fun s => length (snd s) = S) samples.

Lemma length_data S samples : sized S samples -> length (data_bytes samples) = (length samples * S)%nat.
Proof.
  induction 1 as [|[t s] l Hs Hl IH]; [done|]. unfold data_bytes in *. cbn [map concat length snd] in *.
  rewrite length_app, IH, Hs. lia.
Qed.

Lemma offs_snoc samples t s : offs_bytes (samples ++ [(t, s)]) = offs_bytes samples ++ le_bytes 2 t.
Proof. unfold offs_bytes. rewrite map_app, concat_app. cbn [map concat fst]. by rewrite app_nil_r. Qed.

Lemma data_snoc samples t s : data_bytes (samples ++ [(t, s)]) = data_bytes samples ++ s.
Proof. unfold data_bytes. rewrite map_app, concat_app. cbn [map concat snd]. by rewrite app_nil_r. Qed.

(** The destination holds the encoding of the samples added so far; the count byte is first
    written by the first [addSample]. *)
Record writes (w : BundleWriter) (samples : list (Z * list byte)) : Prop := {
  wr_valid : bw_valid w = true;
  wr_n : bw_n w = length samples;
  wr_cap : (length samples <= bundle_max_samples)%nat;
  wr_sized : sized (bw_sampleSize w) samples;
  wr_tOffs : length (bw_tOffs w) = bundle_max_samples;
  wr_last : forall i, (i < length samples)%nat -> nth i (bw_tOffs w) 0 = fst (nth i samples (0, []));
  wr_out : exists c tail,
    bw_out w = header_bytes (bw_tBase w) c ++ offs_bytes samples ++ data_bytes samples ++ tail
    /\ (samples <> [] -> c = z2b (Z.of_nat (length samples))) }.

Lemma BundleWriter_new_writes out tBase S unit cap :
  (6 <= length out)%nat ->
  writes (BundleWriter_new out tBase S unit cap) [] /\ length (bw_out (BundleWriter_new out tBase S unit cap)) = length out.
Proof.
  intros Hl. unfold BundleWriter_new, kStreamBundleHeaderBytes. rewrite (proj2 (Nat.leb_le _ _)) by done.
  write_fields. expose_cells out 6%nat. split; [|done].
  split; cbn [bw_valid bw_n bw_sampleSize bw_tOffs bw_out bw_tBase length]; try done.
  - unfold bundle_max_samples. lia.
  - constructor.
  - intros i Hi. lia.
  - by exists x3, out.
Qed.

(** The shift, the offset, the sample and the count, as one block rewrite. *)
Lemma add_block (w : BundleWriter) samples tOff sample :
  writes w samples -> length sample = bw_sampleSize w ->
  (6 + 2 * (length samples + 1) + (length samples + 1) * bw_sampleSize w <= length (bw_out w))%nat ->
  let S := bw_sampleSize w in let n := length samples in
  let oldH := (6 + 2 * n)%nat in
  let out := if (0 <? n)%nat then memmove (oldH + 2) oldH (n * S) (bw_out w) else bw_out w in
  let out := fst (on_subspan oldH (fun o => putU16 o tOff) out) in
  let out := splice (oldH + 2 + n * S) sample out in
  exists c tail, out = header_bytes (bw_tBase w) c ++ offs_bytes (samples ++ [(tOff, sample)])
                     ++ data_bytes (samples ++ [(tOff, sample)]) ++ tail
               /\ length out = length (bw_out w).
Proof.
  intros [] Hs Hroom S n oldH. destruct wr_out0 as (c & tail & Hout & _).
  pose proof (length_offs samples) as Hlo. pose proof (length_data _ _ wr_sized0) as Hld. fold n S in Hld, Hlo, Hs.
  assert (oldH = 6 + 2 * n)%nat as HoldH by done. clearbody oldH.
  set (H0 := header_bytes (bw_tBase w) c) in *. assert (length H0 = 6%nat) as Hlh by done.
  set (T := offs_bytes samples) in *. set (D := data_bytes samples) in *. fold n S in Hroom.
  assert (length (bw_out w) = 6 + 2 * n + n * S + length tail)%nat as Hlen
    by (rewrite Hout, !length_app, Hlh, Hlo, Hld; lia).
  assert (2 + S <= length tail)%nat as Htail by nia.
  assert (exists x2 xr, D ++ take 2 tail = x2 ++ xr /\ length x2 = 2%nat /\ length xr = (n * S)%nat)
    as (x2 & xr & Hx & Hl2 & Hlr).
  { exists (take 2 (D ++ take 2 tail)), (drop 2 (D ++ take 2 tail)). rewrite take_drop.
    rewrite length_take, length_drop, !length_app, !length_take. split; [done|]. lia. }
  set (ts := take S (drop 2 tail)). set (rest := drop (2 + S) tail).
  assert (bw_out w = (H0 ++ T ++ x2) ++ xr ++ (ts ++ rest)) as Hout1.
  { rewrite Hout. rewrite <- !app_assoc. do 2 f_equal. rewrite (app_assoc x2), <- Hx, <- app_assoc.
    f_equal. unfold ts, rest. rewrite <- (drop_drop tail S 2), take_drop. by rewrite take_drop. }
  assert ((if (0 <? n)%nat then memmove (oldH + 2) oldH (n * S) (bw_out w) else bw_out w)
          = (H0 ++ T ++ x2) ++ D ++ (ts ++ rest)) as ->.
  { destruct (Nat.ltb_spec 0 n) as [Hn|Hn].
    - unfold memmove. assert (subspan oldH (n * S) (bw_out w) = D) as ->.
      { rewrite Hout. unfold subspan.
        rewrite (app_assoc H0), drop_app_length' by (rewrite length_app; lia). by apply take_app_length'. }
      rewrite Hout1. replace (oldH + 2)%nat with (length (H0 ++ T ++ x2)) by (rewrite !length_app; lia).
      apply splice_at. lia.
    - assert (n = 0%nat) as E by lia. rewrite E in *. cbn [Nat.mul] in *.
      apply length_zero_iff_nil in Hlr, Hld. rewrite Hld. by rewrite Hout1, Hlr. }
  cbv zeta. replace oldH with (length (H0 ++ T)) by (rewrite length_app; lia).
  replace ((H0 ++ T ++ x2) ++ D ++ ts ++ rest) with ((H0 ++ T) ++ x2 ++ (D ++ ts ++ rest)) by by rewrite <- !app_assoc.
  rewrite put16_at by done. exists c, rest. rewrite offs_snoc, data_snoc. fold T D.
  replace ((H0 ++ T) ++ le_bytes 2 tOff ++ D ++ ts ++ rest) with (((H0 ++ T) ++ le_bytes 2 tOff ++ D) ++ ts ++ rest)
    by by rewrite <- !app_assoc.
  replace (length (H0 ++ T) + 2 + n * S)%nat with (length ((H0 ++ T) ++ le_bytes 2 tOff ++ D))
    by (rewrite !length_app, length_le_bytes; lia).
  assert (length ts = length sample) as Hts by (unfold ts; rewrite length_take, length_drop; lia).
  rewrite splice_at by done. split; [by rewrite <- !app_assoc|].
  rewrite Hlen, !length_app, length_le_bytes, <- Hts. unfold ts, rest. rewrite length_take, !length_drop. lia.
Qed.

Definition prev_of (samples : list (Z * list byte)) : option Z := fst <$> last samples.

(** The rule every added offset must satisfy. *)
Definition offset_ok (prev : option Z) (t : Z) : Prop :=
  match prev with None => t = 0 | Some p => p < t end.

Lemma nth_last (samples : list (Z * list byte)) :
  (0 < length samples)%nat -> prev_of samples = Some (fst (nth (length samples - 1) samples (0, []))).
Proof.
  intros H. unfold prev_of. rewrite last_lookup. destruct (lookup_lt_is_Some_2 samples (pred (length samples))) as [x Hx]; [lia|].
  rewrite Hx. cbn. f_equal. f_equal. symmetry. apply nth_lookup_Some with (d := (0, [])) in Hx.
  by replace (length samples - 1)%nat with (pred (length samples)) by lia.
Qed.

Lemma offset_test w samples t :
  writes w samples ->
  (if (bw_n w =? 0)%nat then negb (t =? 0) else t <=? nth (bw_n w - 1) (bw_tOffs w) 0) = false <->
  offset_ok (prev_of samples) t.
Proof.
  intros []. rewrite wr_n0. destruct (Nat.eqb_spec (length samples) 0) as [E|E].
  - apply length_zero_iff_nil in E as ->. cbn. rewrite negb_false_iff. apply Z.eqb_eq.
  - rewrite (nth_last samples) by lia. rewrite wr_last0 by lia. cbn. rewrite Z.leb_gt. done.
Qed.

Lemma addSample_accepts w samples t s :
  writes w samples -> length s = bw_sampleSize w -> (length samples < bundle_max_samples)%nat ->
  offset_ok (prev_of samples) t -> u64 (t * bw_tOffUnitUs w) <= bw_spanCapUs w ->
  (6 + 2 * (length samples + 1) + (length samples + 1) * bw_sampleSize w <= length (bw_out w))%nat ->
  exists w', addSample w t s = (w', true) /\ writes w' (samples ++ [(t, s)])
    /\ length (bw_out w') = length (bw_out w) /\ bw_tBase w' = bw_tBase w
    /\ bw_sampleSize w' = bw_sampleSize w /\ bw_tOffUnitUs w' = bw_tOffUnitUs w /\ bw_spanCapUs w' = bw_spanCapUs w.
Proof.
  intros Hw Hs Hn Ht Hspan Hroom. pose proof (add_block w samples t s Hw Hs Hroom) as Hblock. pose proof Hw as [].
  unfold addSample. rewrite wr_valid0, (proj2 (Nat.eqb_eq _ _) Hs). cbn [negb].
  rewrite (proj2 (Nat.leb_gt bundle_max_samples (bw_n w))) by lia.
  apply (offset_test _ _ _ Hw) in Ht. rewrite Ht. rewrite (proj2 (Z.ltb_ge _ _)) by done.
  rewrite wr_n0. unfold kStreamBundleHeaderBytes, kStreamBundleTOffBytes. cbv zeta.
  rewrite (proj2 (Nat.ltb_ge _ _)) by lia. eexists. split; [done|].
  cbv zeta in Hblock. destruct Hblock as (c & tail & Eout & Elen). rewrite Eout in *.
  rewrite on_subspan_putU8 by (rewrite !length_app; cbn; lia). cbn [fst].
  split; [|split; [|done]]; [|cbn [bw_out]; rewrite <- Elen, !length_app, length_take, length_drop, !length_app; cbn; lia].
  split; cbn [bw_valid bw_n bw_sampleSize bw_tOffs bw_out bw_tBase]; rewrite ?length_app; cbn [length]; try done.
  - lia.
  - lia.
  - apply Forall_app. split; [done|by constructor].
  - by rewrite length_insert.
  - intros i Hi. destruct (decide (i = length samples)) as [->|Hne].
    + rewrite app_nth2, Nat.sub_diag by lia. cbn.
      apply nth_lookup_Some. apply list_lookup_insert_eq. rewrite wr_tOffs0. lia.
    + rewrite app_nth1 by lia. rewrite <- wr_last0 by lia.
      rewrite !nth_lookup. by rewrite list_lookup_insert_ne.
  - exists (z2b (Z.of_nat (length samples + 1))), tail. split; [|done].
    replace (S (length samples)) with (length samples + 1)%nat by lia. reflexivity.
Qed.

(** A refused sample changes nothing. *)
Lemma addSample_refuses w t s : snd (addSample w t s) = false -> fst (addSample w t s) = w.
Proof.
  unfold addSample. destruct (negb _); [done|]. destruct (negb _); [done|]. destruct (_ <=? _)%nat; [done|].
  destruct (if (_ =? _)%nat then _ else _); [done|]. destruct (_ <? _); [done|]. cbv zeta.
  by destruct (_ <? _)%nat.
Qed.

Fixpoint add_all (w : BundleWriter) (samples : list (Z * list byte)) : BundleWriter * list bool :=
  match samples with
  | [] => (w, [])
  | (t, s) :: rest => let '(w, b) := addSample w t s in let '(w, bs) := add_all w rest in (w, b :: bs)
  end.

Lemma add_all_accepts rest : forall w samples,
  writes w samples -> sized (bw_sampleSize w) rest -> (length samples + length rest <= bundle_max_samples)%nat ->
  offsets_ok (bw_tOffUnitUs w) (bw_spanCapUs w) (prev_of samples) (map fst rest) ->
  (6 + 2 * (length samples + length rest) + (length samples + length rest) * bw_sampleSize w <= length (bw_out w))%nat ->
  exists w', add_all w rest = (w', replicate (length rest) true) /\ writes w' (samples ++ rest)
    /\ bw_tBase w' = bw_tBase w /\ bw_sampleSize w' = bw_sampleSize w.
Proof.
  induction rest as [|[t s] rest IH]; intros w samples Hw Hs Hn Ho Hroom; cbn [add_all].
  { exists w. by rewrite app_nil_r. }
  apply Forall_cons_1 in Hs as [Hs1 Hs]. cbn [length map offsets_ok snd fst] in *. destruct Ho as (Ho1 & Hspan & Ho).
  destruct (addSample_accepts w samples t s Hw Hs1) as (w1 & -> & Hw1 & E1 & E2 & E3 & E4 & E5); [lia|done|done|nia|].
  destruct (IH w1 (samples ++ [(t, s)]) Hw1) as (w' & -> & Hw' & F1 & F2).
  - by rewrite E3.
  - rewrite length_app. cbn. lia.
  - unfold prev_of. rewrite last_snoc, E4, E5. exact Ho.
  - rewrite length_app, E1, E3. cbn [length]. nia.
  - exists w'. rewrite <- app_assoc in Hw'. split; [done|]. split; [done|]. by rewrite F1, F2.
Qed.

(** ** Lemmas: the view *)

Fixpoint chain (prev : option Z) (offs : list Z) : Prop :=
  match offs with [] => True | t :: offs' => offset_ok prev t /\ chain (Some t) offs' end.

Lemma offsets_ok_split unit cap prev offs :
  offsets_ok unit cap prev offs <-> chain prev offs /\ Forall (fun t => u64 (t * unit) <= cap) offs.
Proof.
  revert prev. induction offs as [|t offs IH]; intros prev; cbn [offsets_ok chain]; [by split|].
  pose proof (Forall_cons (fun t => u64 (t * unit) <= cap) t offs). specialize (IH (Some t)).
  unfold offset_ok. destruct prev; tauto.
Qed.

(** In a chain the last offset is the largest, so the cap on it caps them all. *)
Lemma chain_cap unit cap offs : forall prev d,
  chain prev offs -> Forall (in_u 16) offs -> in_u 32 unit ->
  (offs <> [] -> u64 (default d (last offs) * unit) <= cap) -> Forall (fun t => u64 (t * unit) <= cap) offs.
Proof.
  induction offs as [|t offs IH]; intros prev d Hc Hr Hu Hcap; [constructor|].
  destruct Hc as [_ Hc]. apply Forall_cons in Hr as [Ht Hr]. destruct offs as [|t' offs].
  { constructor; [by apply Hcap|constructor]. }
  assert (Forall (fun t => u64 (t * unit) <= cap) (t' :: offs)) as Hall.
  { apply (IH (Some t) d); [done..|]. intros _. by apply Hcap. }
  constructor; [|done]. apply Forall_cons in Hall as [Hcap' _]. destruct Hc as [Hlt _]. cbn in Hlt.
  apply Forall_cons in Hr as [Ht' _]. unfold in_u in *.
  rewrite wrap_small in Hcap' by (unfold in_u; nia). rewrite wrap_small by (unfold in_u; nia). nia.
Qed.

Lemma tOff_walk_spec bs k : forall i lst l,
  tOff_walk bs k i lst = Some l <->
  chain (if (i =? 0)%nat then None else Some lst) (map (tOff_at bs) (seq i k))
  /\ l = default lst (last (map (tOff_at bs) (seq i k))).
Proof.
  induction k as [|k IH]; intros i lst l; cbn [tOff_walk seq map chain].
  { cbn. split; [intros [= ->]; done|by intros [_ ->]]. }
  assert ((if (i =? 0)%nat then negb (tOff_at bs i =? 0) else tOff_at bs i <=? lst) = false <->
          offset_ok (if (i =? 0)%nat then None else Some lst) (tOff_at bs i)) as Htest.
  { destruct (i =? 0)%nat; cbn; [rewrite negb_false_iff; apply Z.eqb_eq|rewrite Z.leb_gt; done]. }
  assert (default lst (last (tOff_at bs i :: map (tOff_at bs) (seq (S i) k)))
          = default (tOff_at bs i) (last (map (tOff_at bs) (seq (S i) k)))) as ->
    by (rewrite last_cons; by destruct (last _)).
  destruct (if (i =? 0)%nat then _ else _).
  - split; [done|]. intros [[H _] _]. apply Htest in H. done.
  - rewrite (IH (S i)). cbn [Nat.eqb]. tauto.
Qed.

Lemma tOff_at_range bs i : in_u 16 (tOff_at bs i).
Proof. apply getU16_range. Qed.

(** A successful parse: the count, the offsets, the span cap and the room for every sample. *)
Lemma parse_sound bs S unit cap v :
  BundleView_parse bs S unit cap = ok v -> in_u 32 unit ->
  v = mkBundleView bs (getU32 bs) (Z.to_nat (getU8 (drop 4 bs))) S unit
  /\ (bv_n v <= bundle_max_samples)%nat
  /\ offsets_ok unit cap None (map (tOff_at bs) (seq 0 (bv_n v)))
  /\ (6 + 2 * bv_n v + bv_n v * S <= length bs)%nat.
Proof.
  unfold BundleView_parse, kStreamBundleHeaderBytes, kStreamBundleTOffBytes. intros H Hu.
  destruct (Nat.ltb_spec (length bs) 6); [done|]. cbv zeta in H. rewrite drop_0 in H.
  set (n := Z.to_nat (getU8 (drop 4 bs))) in *. destruct (Nat.ltb_spec bundle_max_samples n); [done|].
  destruct (Nat.ltb_spec (length bs) (6 + 2 * n)); [done|].
  destruct (tOff_walk bs n 0 0) as [l|] eqn:Ew; [|done]. apply tOff_walk_spec in Ew as [Hc ->].
  destruct (Nat.ltb_spec 0 n) as [Hn|Hn]; cbn [andb] in H.
  - destruct (Z.ltb_spec cap (u64 (default 0 (last (map (tOff_at bs) (seq 0 n))) * unit))) as [|Hspan]; [done|].
    destruct (Nat.ltb_spec (length bs) (6 + 2 * n + n * S)); [done|]. injection H as <-.
    cbn [bv_n]. split; [done|]. split; [done|]. split; [|done]. apply offsets_ok_split. split; [done|].
    apply (chain_cap unit cap _ None 0); try done.
    apply Forall_forall. intros t Ht. apply list_elem_of_fmap in Ht as (i & -> & _). apply tOff_at_range.
  - destruct (Nat.ltb_spec (length bs) (6 + 2 * n + n * S)); [done|]. injection H as <-.
    cbn [bv_n]. split; [done|]. split; [done|]. split; [|done]. by replace n with 0%nat by lia.
Qed.

Lemma concat_piece {A} (S : nat) (l : list (list A)) i post :
  Forall (fun x => length x = S) l -> (i < length l)%nat ->
  take S (drop (i * S) (concat l ++ post)) = nth i l [].
Proof.
  revert i. induction l as [|x l IH]; intros i Hl Hi; cbn [length] in Hi; [lia|].
  apply Forall_cons in Hl as [Hx Hl]. cbn [concat]. rewrite <- app_assoc. destruct i as [|i]; cbn [nth].
  - rewrite drop_0. rewrite <- Hx. apply take_app_length.
  - replace (Datatypes.S i * S)%nat with (length x + i * S)%nat by (rewrite Hx; lia).
    rewrite <- drop_drop, drop_app_length. apply IH; [done|lia].
Qed.

Section parsed.
Context (tBase : Z) (samples : list (Z * list byte)) (S : nat) (rest : list byte).
Context (HtB : in_u 32 tBase) (Hsized : sized S samples) (Hcap : (length samples <= bundle_max_samples)%nat).
Context (Hoffs : Forall (in_u 16) (map fst samples)).

#[local] Abbreviation bs := (bundle_bytes tBase samples ++ rest).
#[local] Abbreviation n := (length samples).

Lemma bundle_length : length bs = (6 + 2 * n + n * S + length rest)%nat.
Proof.
  rewrite bundle_bytes_eq, !length_app, length_offs, (length_data S) by done. cbn. lia.
Qed.

Lemma bundle_count : Z.to_nat (getU8 (drop 4 bs)) = n.
Proof.
  rewrite bundle_bytes_eq. unfold header_bytes. rewrite <- !app_assoc, drop_app_length' by by rewrite length_le_bytes.
  cbn [app]. rewrite getU8_cells, wrap_small; [lia|]. unfold in_u, bundle_max_samples in *. lia.
Qed.

Lemma bundle_tBase : getU32 bs = tBase.
Proof.
  rewrite bundle_bytes_eq. unfold header_bytes. rewrite <- !app_assoc, getU32_bytes. by apply wrap_small.
Qed.

Lemma bundle_body : drop 6 bs = offs_bytes samples ++ data_bytes samples ++ rest.
Proof. rewrite bundle_bytes_eq, <- !app_assoc. by apply drop_app_length'. Qed.

Lemma bundle_tOff i : (i < n)%nat -> tOff_at bs i = fst (nth i samples (0, [])).
Proof.
  intros Hi. unfold tOff_at, kStreamBundleHeaderBytes, kStreamBundleTOffBytes.
  rewrite <- drop_drop, bundle_body. rewrite getU16_spec.
  2: { rewrite length_drop, length_app, length_offs. lia. }
  replace (2 * i)%nat with (i * 2)%nat by lia. unfold offs_bytes.
  rewrite (concat_piece 2) by (rewrite ?length_map; try done; apply Forall_fmap, Forall_true; intros; apply length_le_bytes).
  rewrite (nth_indep _ [] (le_bytes 2 (fst (0, @nil byte)))) by by rewrite length_map.
  rewrite (map_nth (fun s => le_bytes 2 (fst s))), of_le_bytes. apply (wrap_small 16).
  eapply Forall_lookup_1; [exact Hoffs|]. rewrite list_lookup_fmap.
  destruct (lookup_lt_is_Some_2 samples i Hi) as [x Hx]. rewrite Hx. cbn. by rewrite (nth_lookup_Some _ _ _ _ Hx).
Qed.

Lemma bundle_sample i : (i < n)%nat ->
  subspan (6 + 2 * n + i * S) S bs = snd (nth i samples (0, [])).
Proof.
  intros Hi. unfold subspan. rewrite <- (drop_drop _ (i * S)), <- (drop_drop _ (2 * n) 6), bundle_body.
  rewrite drop_app_length' by by rewrite length_offs. unfold data_bytes.
  rewrite (concat_piece S) by (rewrite ?length_map; try done; by apply Forall_fmap).
  change (@nil byte) with (snd (0, @nil byte)) at 1. by rewrite map_nth.
Qed.

Lemma bundle_tOffs : map (tOff_at bs) (seq 0 n) = map fst samples.
Proof.
  apply list_eq. intros i. rewrite !list_lookup_fmap. destruct (decide (i < n)%nat) as [Hi|Hi].
  - rewrite lookup_seq_lt by done. destruct (lookup_lt_is_Some_2 samples i Hi) as [x Hx]. rewrite Hx. cbn.
    rewrite bundle_tOff by done. by rewrite (nth_lookup_Some _ _ _ _ Hx).
  - rewrite lookup_seq_ge by lia. rewrite (lookup_ge_None_2 samples) by lia. done.
Qed.

Lemma parse_complete unit cap :
  offsets_ok unit cap None (map fst samples) ->
  BundleView_parse bs S unit cap = ok (mkBundleView bs tBase n S unit).
Proof.
  intros [Hc Hspan]%offsets_ok_split. unfold BundleView_parse, kStreamBundleHeaderBytes, kStreamBundleTOffBytes.
  pose proof bundle_length as Hl. rewrite (proj2 (Nat.ltb_ge _ _)) by lia. cbv zeta.
  rewrite drop_0, bundle_count, bundle_tBase. rewrite (proj2 (Nat.ltb_ge _ _)) by done.
  rewrite (proj2 (Nat.ltb_ge _ _)) by lia.
  assert (tOff_walk bs n 0 0 = Some (default 0 (last (map fst samples)))) as ->.
  { apply tOff_walk_spec. by rewrite bundle_tOffs. }
  assert ((0 <? n)%nat && (cap <? u64 (default 0 (last (map fst samples)) * unit)) = false) as ->.
  { destruct (Nat.ltb_spec 0 n) as [Hn|]; [|done]. cbn [andb]. apply Z.ltb_ge.
    destruct (last (map fst samples)) as [t|] eqn:Et.
    - rewrite Forall_forall in Hspan. apply Hspan. by apply last_Some_elem_of.
    - apply last_None in Et. apply (f_equal length) in Et. rewrite length_map in Et. cbn in Et. lia. }
  rewrite (proj2 (Nat.ltb_ge _ _)) by lia. done.
Qed.
End parsed.

(** A truncated bundle is always noticed. *)
Lemma parse_truncated tBase samples S unit cap k :
  in_u 32 tBase -> sized S samples -> (length samples <= bundle_max_samples)%nat ->
  Forall (in_u 16) (map fst samples) -> offsets_ok unit cap None (map fst samples) ->
  (k < length (bundle_bytes tBase samples))%nat ->
  BundleView_parse (take k (bundle_bytes tBase samples)) S unit cap = err Truncated.
Proof.
  intros HtB Hs Hcap Hoffs Hok Hk. set (bs := bundle_bytes tBase samples) in *.
  pose proof (bundle_length tBase samples S [] Hs) as Hl. rewrite app_nil_r in Hl. cbn [length] in Hl.
  fold bs in Hl. set (n := length samples) in *.
  unfold BundleView_parse, kStreamBundleHeaderBytes, kStreamBundleTOffBytes.
  assert (length (take k bs) = k) as Hlk by (rewrite length_take; lia). rewrite Hlk.
  destruct (Nat.ltb_spec k 6) as [|H6]; [done|]. cbv zeta.
  assert (Z.to_nat (getU8 (drop 4 (take k bs))) = n) as ->.
  { pose proof (bundle_count tBase samples [] Hcap) as Hc. rewrite app_nil_r in Hc.
    transitivity (Z.to_nat (getU8 (drop 4 bs))); [|exact Hc].
    rewrite !getU8_spec by (rewrite length_drop, ?Hlk; lia). do 2 f_equal.
    rewrite skipn_firstn_comm, take_take. f_equal. lia. }
  rewrite (proj2 (Nat.ltb_ge _ _)) by done. destruct (Nat.ltb_spec k (6 + 2 * n)) as [|Hk2]; [done|].
  pose proof (parse_complete tBase samples S [] HtB Hs Hcap Hoffs unit cap Hok) as Hp.
  rewrite app_nil_r in Hp. fold bs n in Hp.
  assert (tOff_walk (take k bs) n 0 0 = tOff_walk bs n 0 0) as ->.
  { assert (forall m i l, (i + m <= n)%nat -> tOff_walk (take k bs) m i l = tOff_walk bs m i l) as Hw; [|apply Hw; lia].
    induction m as [|m IH]; intros i l Hi; cbn [tOff_walk]; [done|].
    assert (tOff_at (take k bs) i = tOff_at bs i) as ->; [|by rewrite IH by lia].
    unfold tOff_at, kStreamBundleHeaderBytes, kStreamBundleTOffBytes.
    rewrite !getU16_spec by (rewrite length_drop, ?Hlk; lia). f_equal.
    rewrite skipn_firstn_comm, take_take. f_equal. lia. }
  unfold BundleView_parse, kStreamBundleHeaderBytes, kStreamBundleTOffBytes in Hp.
  rewrite (proj2 (Nat.ltb_ge (length bs) _)) in Hp by lia. cbv zeta in Hp.
  pose proof (bundle_count tBase samples [] Hcap) as Hc. rewrite app_nil_r in Hc. fold bs n in Hc. rewrite Hc in Hp.
  rewrite (proj2 (Nat.ltb_ge _ n)), (proj2 (Nat.ltb_ge (length bs) _)) in Hp by (done || lia).
  destruct (tOff_walk bs n 0 0); [|done]. destruct (_ && _); [done|]. by rewrite (proj2 (Nat.ltb_lt _ _)) by lia.
Qed.

(** The time of a sample after the base moved. *)
Lemma sampleTime_shift v d i :
  sampleTimeUs (mkBundleView (bv_in v) (u32 (bv_tBase v - u32 d)) (bv_n v) (bv_sampleSize v) (bv_tOffUnitUs v)) i
  = u32 (sampleTimeUs v i - d).
Proof.
  unfold sampleTimeUs. cbn [bv_in bv_tBase bv_tOffUnitUs]. set (o := u32 (tOff_at _ _ * _)). unfold wrap.
  rewrite Zplus_mod_idemp_l, Zminus_mod_idemp_l.
  replace (bv_tBase v - d mod 2 ^ 32 + o) with (bv_tBase v + o - d mod 2 ^ 32) by lia.
  by rewrite Zminus_mod_idemp_r.
Qed.

(** ** Properties *)

(** C31.  A STREAM bundle round-trips: samples of the declared size at offsets that start at
    zero, increase strictly and stay within the span cap are all accepted by the writer, the
    finished prefix of its buffer is the reference layout, and the parser reads back from it,
    whatever follows, the base time, every sample and every sample's wrapping timestamp. *)
Theorem bundle_roundtrip (out rest : list byte) (tBase : Z) (S : nat) (unit cap : Z) (samples : list (Z * list byte)) :
  samples <> [] -> (length samples <= bundle_max_samples)%nat -> sized S samples ->
  Forall (in_u 16) (map fst samples) -> in_u 32 tBase -> offsets_ok unit cap None (map fst samples) ->
  (6 + 2 * length samples + length samples * S <= length out)%nat ->
  let '(w, flags) := add_all (BundleWriter_new out tBase S unit cap) samples in
  flags = replicate (length samples) true
  /\ take (bw_finalize w) (bw_out w) = bundle_bytes tBase samples
  /\ exists v, BundleView_parse (take (bw_finalize w) (bw_out w) ++ rest) S unit cap = ok v
       /\ bv_n v = length samples /\ bv_tBase v = tBase
       /\ forall i, (i < length samples)%nat ->
            bv_sample v i = snd (nth i samples (0, []))
            /\ sampleTimeUs v i = u32 (tBase + fst (nth i samples (0, [])) * unit).
Proof.
  intros Hne Hcap Hs Hoffs HtB Hok Hroom.
  destruct (BundleWriter_new_writes out tBase S unit cap) as [Hw Hlen]; [lia|].
  assert (forall w, w = BundleWriter_new out tBase S unit cap ->
    bw_tBase w = tBase /\ bw_sampleSize w = S /\ bw_tOffUnitUs w = unit /\ bw_spanCapUs w = cap) as Hpar.
  { intros w ->. unfold BundleWriter_new. by destruct (_ <=? _)%nat. }
  destruct (Hpar _ eq_refl) as (P1 & P2 & P3 & P4).
  destruct (add_all_accepts samples _ [] Hw) as (w' & -> & Hw' & F1 & F2); [by rewrite P2|done|by rewrite P3, P4|by rewrite P2, Hlen|].
  split; [done|]. destruct Hw'. cbn [app] in *. rewrite P1 in F1. rewrite P2 in F2.
  assert (take (bw_finalize w') (bw_out w') = bundle_bytes tBase samples) as E.
  { destruct wr_out0 as (c & tail & -> & Hc). rewrite (Hc Hne), F1. unfold bw_finalize. rewrite wr_valid0, wr_n0, F2. cbn [negb].
    pose proof (bundle_length tBase samples S [] Hs) as Hl. rewrite app_nil_r in Hl. cbn [length] in Hl.
    replace (header_bytes tBase (z2b (Z.of_nat (length samples))) ++ offs_bytes samples ++ data_bytes samples ++ tail)
      with (bundle_bytes tBase samples ++ tail) by (by rewrite bundle_bytes_eq, <- !app_assoc).
    apply take_app_length'. unfold kStreamBundleHeaderBytes, kStreamBundleTOffBytes. lia. }
  split; [done|]. rewrite E. eexists. split; [by apply parse_complete|]. split; [done|]. split; [done|].
  intros i Hi. unfold bv_sample, sampleTimeUs. cbn [bv_in bv_n bv_sampleSize bv_tBase bv_tOffUnitUs].
  split; [by apply bundle_sample|]. rewrite (bundle_tOff tBase samples rest) by done.
  unfold wrap. by rewrite Zplus_mod_idemp_r.
Qed.

Definition bundle_example : list (Z * list byte) :=
  [(0, map z2b [1; 2; 3]); (700, map z2b [4; 5; 6]); (9000, map z2b [7; 8; 9])].

Lemma bundle_roundtrip_witness :
  take 21 (bw_out (fst (add_all (BundleWriter_new (replicate 40 Byte.xff) 0xFFFFFFF0 3 1 20000) bundle_example)))
  = bundle_bytes 0xFFFFFFF0 bundle_example.
Proof.
  refine (proj1 (proj2 (bundle_roundtrip (replicate 40 Byte.xff) [] 0xFFFFFFF0 3 1 20000 bundle_example _ _ _ _ _ _ _))).
  - discriminate.
  - vm_compute. lia.
  - repeat constructor.
  - repeat constructor; vm_compute; congruence.
  - by vm_compute.
  - repeat split; vm_compute; congruence.
  - vm_compute. lia.
Defined.

(**  The parser never hands out a bundle it should have refused: on any input, success
    means at most 32 samples, offsets from zero, strictly increasing and all within the span
    cap, and every sample inside the input at its declared size; and every proper prefix of a
    well-formed bundle is refused as truncated. *)
Theorem bundle_parse_sound (bs : list byte) (S : nat) (unit cap tBase : Z) (samples : list (Z * list byte)) (k : nat) :
  in_u 32 unit ->
  (forall v, BundleView_parse bs S unit cap = ok v ->
     (bv_n v <= bundle_max_samples)%nat
     /\ offsets_ok unit cap None (map (tOff_at bs) (seq 0 (bv_n v)))
     /\ forall i, (i < bv_n v)%nat -> length (bv_sample v i) = S)
  /\ (in_u 32 tBase -> sized S samples -> (length samples <= bundle_max_samples)%nat ->
      Forall (in_u 16) (map fst samples) -> offsets_ok unit cap None (map fst samples) ->
      (k < length (bundle_bytes tBase samples))%nat ->
      BundleView_parse (take k (bundle_bytes tBase samples)) S unit cap = err Truncated).
Proof.
  intros Hu. split; [|intros; by apply parse_truncated].
  intros v Hv. apply parse_sound in Hv as (Ev & Hn & Ho & Hl); [|done]. split; [done|]. split; [done|].
  intros i Hi. unfold bv_sample. rewrite length_subspan. rewrite Ev in *. cbn [bv_n bv_in bv_sampleSize] in *.
  unfold kStreamBundleHeaderBytes, kStreamBundleTOffBytes. nia.
Qed.

Lemma bundle_parse_sound_witness :
  BundleView_parse (take 20 (bundle_bytes 5 bundle_example)) 3 1 20000 = err Truncated.
Proof.
  refine (proj2 (bundle_parse_sound [] 3 1 20000 5 bundle_example 20 _) _ _ _ _ _ _).
  - by vm_compute.
  - by vm_compute.
  - repeat constructor.
  - vm_compute. lia.
  - repeat constructor; vm_compute; congruence.
  - repeat split; vm_compute; congruence.
  - vm_compute. lia.
Defined.

(**  The lead clamp moves the whole bundle by one amount: with the last stamp [d]
    microseconds ahead of the clock (negative in the past) and no overflow of the signed
    difference, a bundle within the cap is left alone, and one beyond it is moved earlier so
    that its last sample lands exactly [cap] ahead and every other sample keeps its spacing. *)
Theorem clampLead_exact (v : BundleView) (now d cap : Z) :
  (0 < bv_n v)%nat -> sampleTimeUs v (bv_n v - 1) = u32 (now + d) ->
  - 2 ^ 31 <= d < 2 ^ 31 -> 0 <= cap < 2 ^ 31 -> - 2 ^ 31 <= d - cap ->
  let '(v', moved) := clampLead v (u32 now) cap in
  moved = (cap <? d)
  /\ (forall i, sampleTimeUs v' i = u32 (sampleTimeUs v i - (if moved then d - cap else 0)))
  /\ sampleTimeUs v' (bv_n v' - 1) = u32 (now + Z.min d cap)
  /\ bv_in v' = bv_in v /\ bv_n v' = bv_n v.
Proof.
  intros Hn Hlast Hd Hc Hnov. unfold clampLead. rewrite (proj2 (Nat.eqb_neq _ _)) by lia. rewrite Hlast. cbv zeta.
  assert (i32 (u32 (u32 (now + d) - u32 now)) = d) as ->.
  { rewrite swrap_wrap. unfold wrap, swrap. change (32 - 1) with 31.
    replace ((now + d) mod 2 ^ 32 - now mod 2 ^ 32 + 2 ^ 31) with ((now + d) mod 2 ^ 32 - (now mod 2 ^ 32 - 2 ^ 31)) by lia.
    rewrite Zminus_mod_idemp_l. replace (now + d - (now mod 2 ^ 32 - 2 ^ 31)) with (now + d + 2 ^ 31 - now mod 2 ^ 32) by lia.
    rewrite Zminus_mod_idemp_r. replace (now + d + 2 ^ 31 - now) with (d + 2 ^ 31) by lia.
    rewrite Z.mod_small by lia. lia. }
  rewrite (swrap_small 32 cap), (swrap_small 32 (d - cap)) by lia.
  destruct (Z.leb_spec (d - cap) 0) as [Hle|Hgt].
  - split; [symmetry; apply Z.ltb_ge; lia|]. split; [|split; [|done]].
    + intros i. rewrite Z.sub_0_r. unfold sampleTimeUs. by rewrite wrap_wrap.
    + rewrite Hlast. f_equal. lia.
  - split; [symmetry; apply Z.ltb_lt; lia|]. split; [|split; [|done]].
    + intros i. apply sampleTime_shift.
    + cbn [bv_n]. rewrite sampleTime_shift, Hlast. unfold wrap. rewrite Zminus_mod_idemp_l. f_equal. lia.
Qed.

Lemma clampLead_exact_witness :
  let '(v', moved) := clampLead (mkBundleView (bundle_bytes 100000 bundle_example) 100000 3 3 1) (u32 4000) 50000 in
  moved = true /\ sampleTimeUs v' (bv_n v' - 1) = u32 (4000 + 50000).
Proof.
  pose proof (clampLead_exact (mkBundleView (bundle_bytes 100000 bundle_example) 100000 3 3 1) 4000 105000 50000) as H.
  cbn [bv_n] in H. destruct (clampLead _ _ _) as [v' moved].
  destruct H as (H1 & _ & H2 & _); [lia|by vm_compute|lia|lia|lia|]. split; [exact H1|exact H2].
Defined.

(**  At the far edge of the window the lead clamp misjudges the past: a bundle whose last
    stamp lies 2^31 microseconds behind the clock, the furthest past the signed difference can
    express, is moved, although a stamp in the past must never move (the subtraction of the
    cap leaves the signed 32-bit range). *)
Theorem clampLead_past_moves (v : BundleView) (now cap : Z) :
  (0 < bv_n v)%nat -> sampleTimeUs v (bv_n v - 1) = u32 (now - 2 ^ 31) -> 0 < cap < 2 ^ 31 ->
  snd (clampLead v (u32 now) cap) = true.
Proof.
  intros Hn Hlast Hc. unfold clampLead. rewrite (proj2 (Nat.eqb_neq _ _)) by lia. rewrite Hlast. cbv zeta.
  assert (i32 (u32 (u32 (now - 2 ^ 31) - u32 now)) = - 2 ^ 31) as ->.
  { rewrite swrap_wrap. unfold wrap, swrap. change (32 - 1) with 31. dlia. }
  rewrite (swrap_small 32 cap) by lia. unfold swrap. change (32 - 1) with 31.
  rewrite (proj2 (Z.leb_gt _ 0)); [done|]. dlia.
Qed.

Lemma clampLead_past_moves_witness :
  snd (clampLead (mkBundleView (bundle_bytes 0 [(0, [])]) 0 1 0 1) (u32 (2 ^ 31)) 50000) = true.
Proof.
  apply clampLead_past_moves; [cbn; lia|by vm_compute|lia].
Defined.

(**  A writer that was given no sample reports six finished bytes although it never wrote
    the count byte: what the span held at offset four is what would be sent. *)
Theorem empty_bundle_count_unwritten (out : list byte) (tBase : Z) (S : nat) (unit cap : Z) :
  (6 <= length out)%nat ->
  let w := BundleWriter_new out tBase S unit cap in
  bw_finalize w = 6%nat /\ nth 4 (bw_out w) Byte.x00 = nth 4 out Byte.x00.
Proof.
  intros Hl w. unfold w, BundleWriter_new, kStreamBundleHeaderBytes. rewrite (proj2 (Nat.leb_le _ _)) by done.
  write_fields. split; [done|]. by expose_cells out 6%nat.
Qed.

Lemma empty_bundle_count_unwritten_witness :
  nth 4 (bw_out (BundleWriter_new (replicate 12 Byte.xff) 7 3 1 20000)) Byte.x00 = Byte.xff.
Proof. apply (empty_bundle_count_unwritten (replicate 12 Byte.xff) 7 3 1 20000). cbn. lia. Defined.
