(* ===== verification/CborItem.v ===== *)
(** * CborItem: the deterministic CBOR profile of SPEC 5.3 as a data type

    [Item] is the abstract syntax of the values the profile admits, [encode] the one byte string
    each of them has (shortest-form big-endian heads, binary32 floats, definite lengths), [wf] the
    ranges and the strictly ascending map keys, [nest] the container depth.  The second half is the
    container bookkeeping that wire/cbor/cbor_writer.hpp and cbor_reader.hpp share line by line: the
    stack of open frames with the slots each has left. *)

From S2P Require Import Prelude.

Inductive Item :=
  | IUint (v : Z)
  | INeg (n : Z)                 (* the integer -1 - n *)
  | IBstr (b : list byte)
  | ITstr (s : list byte)
  | IArr (l : list Item)
  | IMap (kvs : list (Z * Item))
  | IBool (b : bool)
  | INull
  | IF32 (bits : Z).

Section item_ind.
Variable P : Item -> Prop.
Hypothesis HUint : forall v, P (IUint v).
Hypothesis HNeg : forall v, P (INeg v).
Hypothesis HBstr : forall v, P (IBstr v).
Hypothesis HTstr : forall v, P (ITstr v).
Hypothesis HArr : forall l, Forall P l -> P (IArr l).
Hypothesis HMap : forall kvs, Forall (fun kv => P (snd kv)) kvs -> P (IMap kvs).
Hypothesis HBool : forall b, P (IBool b).
Hypothesis HNull : P INull.
Hypothesis HF32 : forall v, P (IF32 v).

Fixpoint Item_nested_ind (i : Item) : P i :=
  match i with
  | IUint v => HUint v
  | INeg v => HNeg v
  | IBstr v => HBstr v
  | ITstr v => HTstr v
  | IArr l => HArr l ((fix go (l : list Item) : Forall P l :=
      match l with [] => Forall_nil P | x :: t => Forall_cons P x t (Item_nested_ind x) (go t) end) l)
  | IMap kvs => HMap kvs ((fix go (l : list (Z * Item)) : Forall (fun kv => P (snd kv)) l :=
      match l with
      | [] => Forall_nil _
      | x :: t => Forall_cons _ x t (Item_nested_ind (snd x)) (go t)
      end) kvs)
  | IBool b => HBool b
  | INull => HNull
  | IF32 v => HF32 v
  end.
End item_ind.

(** Big-endian argument of a head, in the shortest form. *)
Definition head (major v : Z) : list byte :=
  let ib0 := Z.shiftl major 5 in
  if v <=? 23 then [z2b (Z.lor ib0 v)]
  else if v <=? 0xFF then z2b (Z.lor ib0 24) :: be_bytes 1 v
  else if v <=? 0xFFFF then z2b (Z.lor ib0 25) :: be_bytes 2 v
  else if v <=? 0xFFFFFFFF then z2b (Z.lor ib0 26) :: be_bytes 4 v
  else z2b (Z.lor ib0 27) :: be_bytes 8 v.

Definition len {A} (l : list A) : Z := Z.of_nat (length l).

Fixpoint encode (i : Item) : list byte :=
  match i with
  | IUint v => head 0 v
  | INeg n => head 1 n
  | IBstr b => head 2 (len b) ++ b
  | ITstr s => head 3 (len s) ++ s
  | IArr l => head 4 (len l) ++ concat (map encode l)
  | IMap kvs => head 5 (len kvs) ++ concat (map (fun kv => head 0 (fst kv) ++ encode (snd kv)) kvs)
  | IBool b => [z2b (if b then 0xF5 else 0xF4)]
  | INull => [z2b 0xF6]
  | IF32 bits => z2b 0xFA :: be_bytes 4 bits
  end.

Definition encode_pair (kv : Z * Item) : list byte := head 0 (fst kv) ++ encode (snd kv).

(** Keys strictly above [lk] and strictly ascending. *)
Fixpoint above (lk : option Z) (ks : list Z) : bool :=
  match ks with
  | [] => true
  | k :: t => match lk with Some l => l <? k | None => true end && above (Some k) t
  end.

Definition in_ub (w z : Z) : bool := (0 <=? z) && (z <? 2 ^ w).

Fixpoint wf (i : Item) : bool :=
  match i with
  | IUint v | INeg v => in_ub 64 v
  | IBstr b | ITstr b => in_ub 64 (len b)
  | IArr l => in_ub 32 (len l) && forallb wf l
  | IMap kvs =>
      in_ub 32 (len kvs) && above None (map fst kvs)
      && forallb (fun kv => in_ub 64 (fst kv) && wf (snd kv)) kvs
  | IBool _ | INull => true
  | IF32 bits => in_ub 32 bits
  end.

Fixpoint nest (i : Item) : nat :=
  match i with
  | IArr l => S (list_max (map nest l))
  | IMap kvs => S (list_max (map (fun kv => nest (snd kv)) kvs))
  | _ => 0
  end.

(** ** The stack of open containers, innermost first ([_stack[0 .. _depth)]) *)

Definition kMaxDepth : nat := 4.

Record CborFrame := { isMap : bool; remaining : Z; lastKey : option Z }.

Definition dec (f : CborFrame) : CborFrame :=
  if 0 <? remaining f then {| isMap := isMap f; remaining := remaining f - 1; lastKey := lastKey f |}
  else f.

(** [afterConsume()]: pop every frame with no slots left, each pop being a slot of its parent. *)
Fixpoint settle (f : CborFrame) (stk : list CborFrame) : list CborFrame :=
  if remaining f =? 0 then
    match stk with [] => [] | g :: stk' => settle (dec g) stk' end
  else f :: stk.

Definition afterConsume (stk : list CborFrame) : list CborFrame :=
  match stk with [] => [] | f :: stk' => settle f stk' end.

Definition consumeOne (stk : list CborFrame) : list CborFrame :=
  match stk with [] => [] | f :: stk' => afterConsume (dec f :: stk') end.

Definition mark_key (k : Z) (f : CborFrame) : CborFrame :=
  {| isMap := isMap f; remaining := remaining f; lastKey := Some k |}.

Definition mapFrame (r : Z) (lk : option Z) : CborFrame := {| isMap := true; remaining := r; lastKey := lk |}.
Definition arrFrame (r : Z) : CborFrame := {| isMap := false; remaining := r; lastKey := None |}.

(** Every open frame still has a slot to fill. *)
Definition live (stk : list CborFrame) : Prop := Forall (fun f => 0 < remaining f) stk.

(** ** Lemmas: the stack *)

Lemma settle_live f stk : 0 <= remaining f -> live stk -> live (settle f stk).
Proof.
  revert f. induction stk as [|g stk IH]; intros f Hf Hs; cbn [settle].
  all: destruct (Z.eqb_spec (remaining f) 0).
  - constructor.
  - repeat constructor. lia.
  - inversion Hs; subst. apply IH; [|done]. unfold dec. case_match; cbn; lia.
  - constructor; [lia|done].
Qed.

Lemma settle_pos f stk : 0 < remaining f -> settle f stk = f :: stk.
Proof. intros. destruct stk; cbn [settle]; by rewrite (proj2 (Z.eqb_neq _ _)) by lia. Qed.

Lemma settle_zero f stk : remaining f = 0 -> settle f stk = consumeOne stk.
Proof. intros H. destruct stk; cbn [settle]; by rewrite H. Qed.

Lemma consumeOne_live stk : live stk -> live (consumeOne stk).
Proof.
  intros H. destruct stk as [|f stk]; [done|]. cbn [consumeOne afterConsume]. inversion H; subst.
  apply settle_live; [|done]. unfold dec. case_match; cbn; lia.
Qed.

Lemma settle_length f stk : (length (settle f stk) <= S (length stk))%nat.
Proof.
  revert f. induction stk as [|g stk IH]; intros f; cbn [settle]; case_match; cbn [length]; try lia.
  specialize (IH (dec g)). lia.
Qed.

Lemma consumeOne_length stk : (length (consumeOne stk) <= length stk)%nat.
Proof. destruct stk; [done|]. cbn [consumeOne afterConsume]. apply settle_length. Qed.

Lemma consumeOne_cons f stk :
  0 < remaining f ->
  consumeOne (f :: stk)
  = settle {| isMap := isMap f; remaining := remaining f - 1; lastKey := lastKey f |} stk.
Proof. intros. cbn [consumeOne afterConsume]. unfold dec. by rewrite (proj2 (Z.ltb_lt _ _)). Qed.

(** ** Lemmas: encodings *)

Lemma in_ub_spec w z : in_ub w z = true <-> in_u w z.
Proof. unfold in_ub, in_u. rewrite andb_true_iff, Z.leb_le, Z.ltb_lt. done. Qed.

Lemma encode_map kvs : encode (IMap kvs) = head 5 (len kvs) ++ concat (map encode_pair kvs).
Proof. done. Qed.

Lemma encode_arr l : encode (IArr l) = head 4 (len l) ++ concat (map encode l).
Proof. done. Qed.

Lemma head_cons m v : exists b t, head m v = b :: t.
Proof. unfold head. repeat case_match; eauto. Qed.

Lemma head_length m v : (1 <= length (head m v) <= 9)%nat.
Proof. unfold head. repeat case_match; cbn [length]; rewrite ?length_be_bytes; lia. Qed.

(** The short heads. *)
Lemma head_length_23 m v : v <= 23 -> length (head m v) = 1%nat.
Proof. intros. unfold head. by rewrite (proj2 (Z.leb_le _ _)). Qed.

Lemma head_length_255 m v : v <= 0xFF -> (length (head m v) <= 2)%nat.
Proof. intros. unfold head. repeat case_match; cbn [length]; rewrite ?length_be_bytes; lia. Qed.

Lemma head_length_u32 m v : v <= 0xFFFFFFFF -> (length (head m v) <= 5)%nat.
Proof. intros. unfold head. repeat case_match; cbn [length]; rewrite ?length_be_bytes; lia. Qed.

Lemma encode_length_pos i : (1 <= length (encode i))%nat.
Proof.
  destruct i; cbn [encode]; rewrite ?length_app; cbn [length]; try lia.
  all: match goal with |- context [head ?m ?v] => pose proof (head_length m v); lia end.
Qed.

Lemma encode_pair_pos kv : (1 <= length (encode_pair kv))%nat.
Proof.
  unfold encode_pair. rewrite length_app. pose proof (head_length 0 (fst kv)). lia.
Qed.

Lemma concat_length_ge {A} (f : A -> list byte) l :
  (forall a, (1 <= length (f a))%nat) -> (length l <= length (concat (map f l)))%nat.
Proof.
  intros Hf. induction l as [|a l IH]; [done|]. cbn. rewrite length_app. specialize (Hf a). lia.
Qed.

Lemma len_nonneg {A} (l : list A) : 0 <= len l.
Proof. unfold len. lia. Qed.

Lemma len_cons {A} (x : A) l : len (x :: l) = len l + 1.
Proof. unfold len. cbn [length]. lia. Qed.

Lemma len_app {A} (l l' : list A) : len (l ++ l') = len l + len l'.
Proof. unfold len. rewrite length_app. lia. Qed.

Lemma above_weaken lk ks k : above (Some k) ks = true -> (forall l, lk = Some l -> l <= k) -> above lk ks = true.
Proof.
  destruct ks as [|k' ks]; [done|]. cbn [above]. intros [Hk Hks]%andb_prop Hl. apply andb_true_intro. split; [|done].
  destruct lk as [l|]; [|done]. specialize (Hl l eq_refl). apply Z.ltb_lt in Hk. apply Z.ltb_lt. lia.
Qed.

Lemma above_last lk ks : 
  above lk ks = true -> forall k, In k ks -> forall l, lk = Some l -> l < k.
Proof.
  revert lk. induction ks as [|x ks IH]; intros lk Ha k Hin l ->; [done|]. cbn [above] in Ha.
  apply andb_prop in Ha as [Hx%Z.ltb_lt Hks]. destruct Hin as [->|Hin]; [done|].
  specialize (IH _ Hks k Hin x eq_refl). lia.
Qed.

(** The key a map has reached after the keys [ks]. *)
Fixpoint reached (lk : option Z) (ks : list Z) : option Z :=
  match ks with [] => lk | k :: t => reached (Some k) t end.

Lemma above_app lk ks ks' : above lk (ks ++ ks') = above lk ks && above (reached lk ks) ks'.
Proof.
  revert lk. induction ks as [|k ks IH]; intros lk; [done|]. cbn [above app reached].
  by rewrite IH, andb_assoc.
Qed.

Lemma reached_app lk ks ks' : reached lk (ks ++ ks') = reached (reached lk ks) ks'.
Proof. revert lk. induction ks as [|k ks IH]; intros lk; [done|]. apply IH. Qed.
