(* ===== verification/CborReader.v ===== *)
(** * CborReader: wire/cbor/cbor_reader.hpp, the strict decoder of the CBOR profile

    The reader is a cursor over the input span and the stack of open containers.  [Reads] is the
    interface the message decoders are proved against: an operation that consumes exactly one item,
    with its meaning on every item of the profile, and that consumes nothing else. *)

From S2P Require Import Prelude CborItem.

Inductive MajorType := MT_UInt | MT_NegInt | MT_ByteString | MT_TextString | MT_Array | MT_Map | MT_Tag | MT_Simple.

Record CborReader := { rd_in : list byte; rd_pos : nat; rd_stack : list CborFrame }.

Definition CborReader_new (inp : list byte) : CborReader :=
  {| rd_in := inp; rd_pos := 0; rd_stack := [] |}.

Definition bytesConsumed (r : CborReader) : nat := rd_pos r.

(** [_in.subspan(_pos)]: empty exactly when [_pos >= _in.size()]. *)
Definition unread (r : CborReader) : list byte := drop (rd_pos r) (rd_in r).

(** [_pos += n; consumeOne();] *)
Definition consume (n : nat) (r : CborReader) : CborReader :=
  {| rd_in := rd_in r; rd_pos := rd_pos r + n; rd_stack := consumeOne (rd_stack r) |}.

Definition peekType (r : CborReader) : decoded MajorType :=
  match unread r with
  | [] => err Truncated
  | b :: _ =>
      ok (match Z.shiftr (b2z b) 5 with
          | 0 => MT_UInt | 1 => MT_NegInt | 2 => MT_ByteString | 3 => MT_TextString
          | 4 => MT_Array | 5 => MT_Map | 6 => MT_Tag | _ => MT_Simple
          end)
  end.

Record Head := { h_major : Z; h_arg : Z; h_totalBytes : nat }.

(** [for (i < nbytes) v = (v << 8) | in[...]], at [w] bits. *)
Definition be_accumulate (w : Z) (l : list byte) : Z :=
  fold_left (fun v b => Z.lor (wrap w (Z.shiftl v 8)) (b2z b)) l 0.

Definition parseHeadRaw (r : CborReader) : decoded Head :=
  match unread r with
  | [] => err Truncated
  | ib :: t =>
      let major := Z.shiftr (b2z ib) 5 in
      let ai := Z.land (b2z ib) 0x1F in
      if major =? 6 then err ProfileViolation
      else if major =? 7 then err Malformed
      else if ai <=? 23 then ok {| h_major := major; h_arg := ai; h_totalBytes := 1 |}
      else
        let nbytes := if ai =? 24 then 1%nat else if ai =? 25 then 2%nat
                      else if ai =? 26 then 4%nat else if ai =? 27 then 8%nat else 0%nat in
        if (nbytes =? 0)%nat then err (if ai =? 31 then ProfileViolation else Malformed)
        else if (length (ib :: t) <? 1 + nbytes)%nat then err Truncated
        else
          let v := be_accumulate 64 (take nbytes t) in
          let minForSize := if (nbytes =? 1)%nat then 24 else if (nbytes =? 2)%nat then 256
                            else if (nbytes =? 4)%nat then 65536 else 4294967296 in
          if v <? minForSize then err ProfileViolation
          else ok {| h_major := major; h_arg := v; h_totalBytes := 1 + nbytes |}
  end.

Inductive SimpleKind := SK_False | SK_True | SK_Null | SK_Float32.

Record SimpleHead := { s_kind : SimpleKind; s_floatBits : Z; s_totalBytes : nat }.

Definition parseSimpleRaw (r : CborReader) : decoded SimpleHead :=
  match unread r with
  | [] => err Truncated
  | ib :: t =>
      if negb (Z.shiftr (b2z ib) 5 =? 7) then err Malformed
      else
        match Z.land (b2z ib) 0x1F with
        | 20 => ok {| s_kind := SK_False; s_floatBits := 0; s_totalBytes := 1 |}
        | 21 => ok {| s_kind := SK_True; s_floatBits := 0; s_totalBytes := 1 |}
        | 22 => ok {| s_kind := SK_Null; s_floatBits := 0; s_totalBytes := 1 |}
        | 26 =>
            if (length (ib :: t) <? 5)%nat then err Truncated
            else ok {| s_kind := SK_Float32; s_floatBits := be_accumulate 32 (take 4 t); s_totalBytes := 5 |}
        | 28 | 29 | 30 => err Malformed
        | _ => err ProfileViolation
        end
  end.

Definition enterContainer (expectedMajor : Z) (ismap : bool) (r : CborReader)
  : decoded (Z * CborReader) :=
  let? h := parseHeadRaw r in
  if negb (h_major h =? expectedMajor) then err Malformed
  else if (kMaxDepth <? length (rd_stack r) + 1)%nat then err DepthExceeded
  else if 0xFFFFFFFF <? h_arg h then err Malformed
  else
    let f := {| isMap := ismap; remaining := if ismap then u64 (h_arg h * 2) else h_arg h;
                lastKey := None |} in
    ok (u32 (h_arg h),
        {| rd_in := rd_in r; rd_pos := rd_pos r + h_totalBytes h;
           rd_stack := afterConsume (f :: rd_stack r) |}).

Definition readMapHeader := enterContainer 5 true.
Definition readArrayHeader := enterContainer 4 false.

Definition readKey (r : CborReader) : decoded (Z * CborReader) :=
  let? h := parseHeadRaw r in
  if negb (h_major h =? 0) then err Malformed
  else
    match rd_stack r with
    | [] => err Malformed
    | f :: stk =>
        if negb (isMap f) then err Malformed
        else if match lastKey f with Some l => h_arg h <=? l | None => false end
        then err ProfileViolation
        else ok (h_arg h, {| rd_in := rd_in r; rd_pos := rd_pos r + h_totalBytes h;
                             rd_stack := consumeOne (mark_key (h_arg h) f :: stk) |})
    end.

Definition readUint (r : CborReader) : decoded (Z * CborReader) :=
  let? h := parseHeadRaw r in
  if negb (h_major h =? 0) then err Malformed
  else ok (h_arg h, consume (h_totalBytes h) r).

Definition readInt (r : CborReader) : decoded (Z * CborReader) :=
  let? h := parseHeadRaw r in
  if h_major h =? 0 then ok (i64 (h_arg h), consume (h_totalBytes h) r)
  else if h_major h =? 1 then ok (-1 - i64 (h_arg h), consume (h_totalBytes h) r)
  else err Malformed.

Definition readBool (r : CborReader) : decoded (bool * CborReader) :=
  let? s := parseSimpleRaw r in
  match s_kind s with
  | SK_True => ok (true, consume (s_totalBytes s) r)
  | SK_False => ok (false, consume (s_totalBytes s) r)
  | _ => err Malformed
  end.

Definition readNull (r : CborReader) : decoded (bool * CborReader) :=
  let? s := parseSimpleRaw r in
  match s_kind s with
  | SK_Null => ok (true, consume (s_totalBytes s) r)
  | _ => err Malformed
  end.

(** A binary32 is its bit pattern. *)
Definition readF32 (r : CborReader) : decoded (Z * CborReader) :=
  let? s := parseSimpleRaw r in
  match s_kind s with
  | SK_Float32 => ok (s_floatBits s, consume (s_totalBytes s) r)
  | _ => err Malformed
  end.

Definition readString (major : Z) (r : CborReader) : decoded (list byte * CborReader) :=
  let? h := parseHeadRaw r in
  if negb (h_major h =? major) then err Malformed
  else
    let start := (rd_pos r + h_totalBytes h)%nat in
    if len (rd_in r) - Z.of_nat start <? h_arg h then err Truncated
    else
      let n := Z.to_nat (h_arg h) in
      ok (subspan start n (rd_in r), consume (h_totalBytes h + n) r).

Definition readTstr := readString 3.
Definition readBstr := readString 2.

(** [for (i = 0; i < n; ++i) body], [n] straight off the wire: every iteration that does not fail
    consumes a byte, so [loopN] with the unread bytes as fuel is the loop (see [loopN_fuel]). *)
Fixpoint loopN {A} (fuel : nat) (n : Z) (body : A -> CborReader -> decoded (A * CborReader))
  (a : A) (r : CborReader) : decoded (A * CborReader) :=
  if n <=? 0 then ok (a, r)
  else
    match fuel with
    | O => err Truncated
    | S fuel' => let? (a', r') := body a r in loopN fuel' (n - 1) body a' r'
    end.

Definition for_each {A} (n : Z) body (a : A) (r : CborReader) := loopN (length (unread r)) n body a r.

Definition to_simple (r : CborReader) : decoded (unit * CborReader) :=
  let? s := parseSimpleRaw r in ok (tt, consume (s_totalBytes s) r).

Fixpoint skipValue_at (levels : nat) (r : CborReader) : decoded (unit * CborReader) :=
  match levels with
  | O => err DepthExceeded
  | S levels' =>
      let? t := peekType r in
      match t with
      | MT_UInt => let? (_, r') := readUint r in ok (tt, r')
      | MT_NegInt => let? (_, r') := readInt r in ok (tt, r')
      | MT_ByteString => let? (_, r') := readBstr r in ok (tt, r')
      | MT_TextString => let? (_, r') := readTstr r in ok (tt, r')
      | MT_Tag => err ProfileViolation
      | MT_Array =>
          let? (n, r') := readArrayHeader r in
          for_each n (fun _ r => skipValue_at levels' r) tt r'
      | MT_Map =>
          let? (n, r') := readMapHeader r in
          for_each n (fun _ r => let? (_, r1) := readKey r in skipValue_at levels' r1) tt r'
      | MT_Simple => to_simple r
      end
  end.

(** One level per frame the stack can still take, plus the value itself. *)
Definition skipValue (r : CborReader) : decoded (unit * CborReader) := skipValue_at (S kMaxDepth) r.

(** ** Lemmas: heads *)

Lemma of_le_app l l' : of_le (l ++ l') = of_le l + 256 ^ len l * of_le l'.
Proof.
  unfold len. induction l as [|b l IH]; cbn [of_le app length]; [lia|].
  rewrite IH, Nat2Z.inj_succ, Z.pow_succ_r by lia. lia.
Qed.

Lemma of_be_cons b l : of_be (b :: l) = b2z b * 256 ^ len l + of_be l.
Proof.
  unfold of_be. cbn [rev]. rewrite of_le_app. unfold len. rewrite length_rev. cbn [of_le]. lia.
Qed.

Lemma be_accumulate_aux w l v :
  0 <= w -> 0 <= v -> v * 256 ^ len l + of_be l < 2 ^ w ->
  fold_left (fun v b => Z.lor (wrap w (Z.shiftl v 8)) (b2z b)) l v = v * 256 ^ len l + of_be l.
Proof.
  intros Hw. revert v. induction l as [|b l IH]; intros v Hv Hb; cbn [fold_left].
  - change (of_be []) with 0. change (256 ^ len []) with 1. lia.
  - rewrite of_be_cons, len_cons, (Z.pow_add_r 256 (len l) 1) in Hb |- * by (try apply len_nonneg; lia).
    pose proof (b2z_range b). pose proof (of_be_range l) as Hr. fold (len l) in Hr.
    pose proof (Z.pow_pos_nonneg 256 (len l) ltac:(lia) (len_nonneg l)).
    assert (wrap w (Z.shiftl v 8) = v * 256) as E.
    { rewrite Z.shiftl_mul_pow2 by lia. apply wrap_small. split; [lia|]. nia. }
    rewrite E, Z.lor_comm. replace (v * 256) with (Z.shiftl v 8) by (by rewrite Z.shiftl_mul_pow2).
    rewrite lor_shiftl_add by lia. rewrite IH; nia.
Qed.

Lemma be_accumulate_exact w l : 0 <= w -> 8 * len l <= w -> be_accumulate w l = of_be l.
Proof.
  intros Hw Hl. unfold be_accumulate. rewrite be_accumulate_aux; [lia|done..|].
  pose proof (of_be_range l) as Hr. fold (len l) in Hr. change 256 with (2 ^ 8) in Hr.
  rewrite <- Z.pow_mul_r in Hr by (try apply len_nonneg; lia).
  pose proof (Z.pow_le_mono_r 2 (8 * len l) w ltac:(lia) Hl). lia.
Qed.

Lemma ib_range mj ai : 0 <= mj <= 7 -> 0 <= ai < 32 -> Z.lor (Z.shiftl mj 5) ai = mj * 32 + ai.
Proof. intros. by rewrite shiftl_lor_add. Qed.

Lemma ib_major mj ai :
  0 <= mj <= 7 -> 0 <= ai < 32 -> Z.shiftr (b2z (z2b (Z.lor (Z.shiftl mj 5) ai))) 5 = mj.
Proof.
  intros. rewrite ib_range, b2z_z2b_small, Z.shiftr_div_pow2 by lia. change (2 ^ 5) with 32. dlia.
Qed.

Lemma ib_ai mj ai :
  0 <= mj <= 7 -> 0 <= ai < 32 -> Z.land (b2z (z2b (Z.lor (Z.shiftl mj 5) ai))) 0x1F = ai.
Proof.
  intros. rewrite ib_range, b2z_z2b_small by lia. change 0x1F with (Z.ones 5).
  rewrite Z.land_ones by lia. change (2 ^ 5) with 32. dlia.
Qed.

Lemma ib_split b :
  0 <= Z.shiftr (b2z b) 5 <= 7 /\ 0 <= Z.land (b2z b) 0x1F < 32
  /\ b = z2b (Z.lor (Z.shiftl (Z.shiftr (b2z b) 5) 5) (Z.land (b2z b) 0x1F)).
Proof.
  pose proof (b2z_range b). change 0x1F with (Z.ones 5).
  rewrite Z.land_ones, Z.shiftr_div_pow2 by lia. change (2 ^ 5) with 32.
  assert (0 <= b2z b / 32 <= 7) by dlia. assert (0 <= b2z b mod 32 < 32) by dlia.
  split_and!; try lia. rewrite ib_range by lia.
  rewrite <- (z2b_b2z b) at 1. f_equal. dlia.
Qed.

Lemma of_be_small n v : 0 <= v < 256 ^ Z.of_nat n -> of_be (be_bytes n v) = v.
Proof. intros. rewrite of_be_bytes. by apply Z.mod_small. Qed.

(** The multi-byte forms of a head, once each. *)
Lemma parseHead_long r ib t n rest mj ai v :
  unread r = ib :: t -> t = be_bytes n v ++ rest ->
  0 <= mj <= 5 -> ib = z2b (Z.lor (Z.shiftl mj 5) ai) ->
  In (ai, n) [(24, 1%nat); (25, 2%nat); (26, 4%nat); (27, 8%nat)] ->
  0 <= v < 256 ^ Z.of_nat n ->
  parseHeadRaw r
  = if v <? (if (n =? 1)%nat then 24 else if (n =? 2)%nat then 256
             else if (n =? 4)%nat then 65536 else 4294967296)
    then err ProfileViolation
    else ok {| h_major := mj; h_arg := v; h_totalBytes := 1 + n |}.
Proof.
  intros Hu -> Hmj -> Hai Hv. unfold parseHeadRaw. rewrite Hu.
  assert (24 <= ai <= 27 /\ (n <= 8)%nat) as [Hrange Hn].
  { cbn [In] in Hai. naive_solver lia. }
  cbv zeta. rewrite ib_major, ib_ai by lia.
  rewrite (proj2 (Z.eqb_neq mj 6)), (proj2 (Z.eqb_neq mj 7)), (proj2 (Z.leb_gt ai 23)) by lia.
  assert (take n (be_bytes n v ++ rest) = be_bytes n v) as Htk
    by (apply take_app_length'; by rewrite length_be_bytes).
  pose proof (length_be_bytes n v) as Hlen.
  assert (8 * len (be_bytes n v) <= 64) as Hw.
  { unfold len. rewrite Hlen. lia. }
  repeat (destruct Hai as [[= <- <-]|Hai]); [..|destruct Hai].
  all: cbn -[Z.ltb be_bytes be_accumulate take app length Nat.ltb].
  all: rewrite (proj2 (Nat.ltb_ge _ _)) by (cbn [length]; rewrite length_app, Hlen; lia).
  all: by rewrite Htk, be_accumulate_exact, of_be_small by done.
Qed.

Lemma parseHead_head r mj v rest :
  unread r = head mj v ++ rest -> 0 <= mj <= 5 -> in_u 64 v ->
  parseHeadRaw r = ok {| h_major := mj; h_arg := v; h_totalBytes := length (head mj v) |}.
Proof.
  intros Hu Hmj Hv. unfold in_u in Hv. unfold head in *. cbv zeta in Hu.
  destruct (Z.leb_spec v 23).
  { unfold parseHeadRaw. rewrite Hu. cbn [app]. cbv zeta. rewrite ib_major, ib_ai by lia.
    rewrite (proj2 (Z.eqb_neq mj 6)), (proj2 (Z.eqb_neq mj 7)), (proj2 (Z.leb_le v 23)) by lia. done. }
  repeat match type of Hu with context [if ?b <=? ?c then _ else _] => destruct (Z.leb_spec b c) end;
    cbn [app] in Hu.
  all: erewrite parseHead_long by (first [exact Hu | reflexivity | exact Hmj | cbn [In]; tauto | lia]).
  all: cbn -[Z.ltb be_bytes length]; rewrite (proj2 (Z.ltb_ge _ _)) by lia.
  all: cbn [length]; by rewrite length_be_bytes.
Qed.

Lemma result_bind_ok {A B E} (x : Result A E) (k : A -> Result B E) b :
  result_bind x k = ok b -> exists a, x = ok a /\ k a = ok b.
Proof. destruct x; cbn; [eauto|done]. Qed.

Lemma take_be n t : (n <= length t)%nat -> be_bytes n (of_be (take n t)) = take n t.
Proof.
  intros H. rewrite <- (be_bytes_of_be (take n t)) at 2. f_equal. rewrite length_take. lia.
Qed.

Lemma parseHead_inv r h :
  parseHeadRaw r = ok h ->
  0 <= h_major h <= 5 /\ in_u 64 (h_arg h)
  /\ h_totalBytes h = length (head (h_major h) (h_arg h))
  /\ unread r = head (h_major h) (h_arg h) ++ drop (h_totalBytes h) (unread r).
Proof.
  unfold parseHeadRaw. destruct (unread r) as [|ib t] eqn:Hu; [done|]. cbv zeta.
  pose proof (ib_split ib) as (Hmj & Hai & Hib).
  set (mj := Z.shiftr (b2z ib) 5) in *. set (ai := Z.land (b2z ib) 0x1F) in *.
  clearbody mj ai. intros H.
  destruct (Z.eqb_spec mj 6) as [|Hm6]; [done|]. destruct (Z.eqb_spec mj 7) as [|Hm7]; [done|].
  destruct (Z.leb_spec ai 23).
  { injection H as <-. cbn [h_major h_arg h_totalBytes].
    unfold head. rewrite (proj2 (Z.leb_le ai 23)) by lia. cbv zeta. rewrite <- Hib.
    unfold in_u. split_and!; try done; lia. }
  assert (ai = 24 \/ ai = 25 \/ ai = 26 \/ ai = 27 \/ 28 <= ai) as Hcases by lia.
  assert (exists n lo hi, (n <= length t)%nat /\ lo <= of_be (take n t) < hi /\ 0 <= lo
    /\ hi <= 2 ^ 64
    /\ h = {| h_major := mj; h_arg := of_be (take n t); h_totalBytes := 1 + n |}
    /\ forall v, lo <= v < hi -> head mj v = z2b (Z.lor (Z.shiftl mj 5) ai) :: be_bytes n v)
    as (n & lo & hi & Hn & Hv & Hlo & Hhi & -> & Hhead).
  { destruct Hcases as [->|[->|[->|[->|Hbig]]]].
    5: { destruct (Z.eqb_spec ai 24), (Z.eqb_spec ai 25), (Z.eqb_spec ai 26), (Z.eqb_spec ai 27); try lia. done. }
    all: cbn -[Z.ltb be_bytes be_accumulate take length Nat.ltb] in H.
    all: match type of H with context [(?a <? ?b)%nat] => destruct (Nat.ltb_spec a b) as [|Hlen]; [done|] end.
    all: cbn [length] in Hlen; rewrite be_accumulate_exact in H
      by (rewrite ?len_cons; unfold len; rewrite ?length_take; lia).
    all: match type of H with context [?a <? ?b] => destruct (Z.ltb_spec a b) as [|Hmin]; [done|] end.
    all: injection H as <-.
    1: exists 1%nat, 24, 256. 2: exists 2%nat, 256, 65536. 3: exists 4%nat, 65536, 4294967296.
    4: exists 8%nat, 4294967296, (2 ^ 64).
    all: match goal with |- (?n <= _)%nat /\ _ =>
      pose proof (of_be_range (take n t)) as Hr; rewrite length_take in Hr;
      replace (n `min` length t)%nat with n in Hr by lia end.
    all: split_and!; try done; try lia.
    all: intros v Hv; unfold head; cbv zeta.
    all: rewrite ?(proj2 (Z.leb_gt v _)) by lia; rewrite ?(proj2 (Z.leb_le v _)) by lia; done. }
  cbn [h_major h_arg h_totalBytes]. rewrite Hhead by lia. split_and!.
  - lia.
  - lia.
  - unfold in_u. lia.
  - cbn [length]. by rewrite length_be_bytes.
  - rewrite take_be, <- Hib by lia. cbn [app drop Nat.add]. by rewrite take_drop.
Qed.

(** ** Lemmas: what the two head parsers see of an item *)

Definition item_head (i : Item) : option (Z * Z) :=
  match i with
  | IUint v => Some (0, v)
  | INeg n => Some (1, n)
  | IBstr b => Some (2, len b)
  | ITstr s => Some (3, len s)
  | IArr l => Some (4, len l)
  | IMap kvs => Some (5, len kvs)
  | _ => None
  end.

Definition item_simple (i : Item) : option SimpleHead :=
  match i with
  | IBool true => Some {| s_kind := SK_True; s_floatBits := 0; s_totalBytes := 1 |}
  | IBool false => Some {| s_kind := SK_False; s_floatBits := 0; s_totalBytes := 1 |}
  | INull => Some {| s_kind := SK_Null; s_floatBits := 0; s_totalBytes := 1 |}
  | IF32 bits => Some {| s_kind := SK_Float32; s_floatBits := bits; s_totalBytes := 5 |}
  | _ => None
  end.

Definition simple_item (s : SimpleHead) : Item :=
  match s_kind s with
  | SK_False => IBool false
  | SK_True => IBool true
  | SK_Null => INull
  | SK_Float32 => IF32 (s_floatBits s)
  end.

Definition item_type (i : Item) : MajorType :=
  match i with
  | IUint _ => MT_UInt | INeg _ => MT_NegInt | IBstr _ => MT_ByteString | ITstr _ => MT_TextString
  | IArr _ => MT_Array | IMap _ => MT_Map | _ => MT_Simple
  end.

Lemma wf_head i mj v : wf i = true -> item_head i = Some (mj, v) -> 0 <= mj <= 5 /\ in_u 64 v.
Proof.
  intros Hw H. destruct i; cbn in H; try done; injection H as <- <-; cbn [wf] in Hw;
    rewrite ?andb_true_iff, ?in_ub_spec in Hw; unfold in_u in *; lia.
Qed.

Lemma encode_head i mj v :
  item_head i = Some (mj, v) -> exists body, encode i = head mj v ++ body.
Proof.
  intros H. destruct i; cbn in H; try done; injection H as <- <-; cbn [encode]; eauto.
  all: exists []; by rewrite app_nil_r.
Qed.

Lemma parseHead_item r i rest :
  wf i = true -> unread r = encode i ++ rest ->
  parseHeadRaw r
  = match item_head i with
    | Some (mj, v) => ok {| h_major := mj; h_arg := v; h_totalBytes := length (head mj v) |}
    | None => err Malformed
    end.
Proof.
  intros Hw Hu. destruct (item_head i) as [[mj v]|] eqn:Hh.
  - destruct (wf_head _ _ _ Hw Hh) as [Hmj Hv]. destruct (encode_head _ _ _ Hh) as [body E].
    rewrite E, <- app_assoc in Hu. by eapply parseHead_head.
  - unfold parseHeadRaw. destruct i as [| | | | | |b| |bits]; try done; cbn [encode app] in Hu; rewrite Hu; [by destruct b|done..].
Qed.

Lemma ib_head_major mj v :
  0 <= mj <= 7 -> in_u 64 v ->
  exists b t, head mj v = b :: t /\ Z.shiftr (b2z b) 5 = mj.
Proof.
  intros Hmj Hv. unfold in_u in Hv. unfold head. cbv zeta. repeat case_match.
  all: eexists _, _; split; [reflexivity|apply ib_major; lia].
Qed.

Lemma parseSimple_item r i rest :
  wf i = true -> unread r = encode i ++ rest ->
  parseSimpleRaw r = match item_simple i with Some s => ok s | None => err Malformed end.
Proof.
  intros Hw Hu. unfold parseSimpleRaw. destruct (item_head i) as [[mj v]|] eqn:Hh.
  - destruct (wf_head _ _ _ Hw Hh) as [Hmj Hv]. destruct (encode_head _ _ _ Hh) as [body E].
    destruct (ib_head_major mj v ltac:(lia) Hv) as (b & t & Eh & Hb).
    rewrite E, Eh in Hu. rewrite Hu. cbn [app]. rewrite Hb.
    rewrite (proj2 (Z.eqb_neq mj 7)) by lia. by destruct i.
  - destruct i as [| | | | | |b| |bits]; try done; cbn [encode app] in Hu; rewrite Hu; [by destruct b|done|].
    cbn [wf] in Hw. apply in_ub_spec in Hw. pose proof (length_be_bytes 4 bits) as Hlen.
    change (Z.shiftr (b2z (z2b 0xFA)) 5) with 7. change (Z.land (b2z (z2b 0xFA)) 0x1F) with 26.
    cbn -[be_accumulate take be_bytes length Nat.ltb].
    rewrite (proj2 (Nat.ltb_ge _ _)) by (cbn [length]; rewrite length_app, Hlen; lia).
    rewrite take_app_length' by done.
    rewrite be_accumulate_exact by (unfold len; rewrite ?Hlen; lia). by rewrite of_be_small.
Qed.

Lemma peekType_item r i rest :
  wf i = true -> unread r = encode i ++ rest -> peekType r = ok (item_type i).
Proof.
  intros Hw Hu. unfold peekType. destruct (item_head i) as [[mj v]|] eqn:Hh.
  - destruct (wf_head _ _ _ Hw Hh) as [Hmj Hv]. destruct (encode_head _ _ _ Hh) as [body E].
    destruct (ib_head_major mj v ltac:(lia) Hv) as (b & t & Eh & Hb).
    rewrite E, Eh in Hu. rewrite Hu. cbn [app]. rewrite Hb.
    destruct i; cbn in Hh; try done; by injection Hh as <- <-.
  - destruct i as [| | | | | |b| |bits]; try done; cbn [encode app] in Hu; rewrite Hu; [by destruct b|done..].
Qed.

Lemma be4_range t : (4 <= length t)%nat -> in_u 32 (of_be (take 4 t)).
Proof.
  intros H. pose proof (of_be_range (take 4 t)) as Hr. rewrite length_take in Hr.
  by replace (4 `min` length t)%nat with 4%nat in Hr by lia.
Qed.

Lemma parseSimple_inv r s :
  parseSimpleRaw r = ok s ->
  let i := simple_item s in
  wf i = true /\ item_simple i = Some s /\ s_totalBytes s = length (encode i)
  /\ unread r = encode i ++ drop (s_totalBytes s) (unread r).
Proof.
  unfold parseSimpleRaw. destruct (unread r) as [|ib t] eqn:Hu; [done|].
  pose proof (ib_split ib) as (Hmj & Hai & Hib).
  set (mj := Z.shiftr (b2z ib) 5) in *. set (ai := Z.land (b2z ib) 0x1F) in *.
  clearbody mj ai. intros H.
  destruct (Z.eqb_spec mj 7) as [->|]; [|done]. cbn [negb] in H.
  assert (ai = 20 \/ ai = 21 \/ ai = 22 \/ ai = 26
          \/ (ai <> 20 /\ ai <> 21 /\ ai <> 22 /\ ai <> 26)) as Hc by lia.
  destruct Hc as [->|[->|[->|[->|Hno]]]].
  1-3: injection H as <-; cbn -[take drop]; rewrite Hib; done.
  - destruct (Nat.ltb_spec (length (ib :: t)) 5) as [|Hlen]; [done|]. injection H as <-.
    cbn [length] in Hlen. rewrite be_accumulate_exact by (unfold len; rewrite ?length_take; lia).
    cbn -[be_bytes of_be take drop length]. split_and!; try done.
    + apply in_ub_spec, be4_range. lia.
    + rewrite take_be, Hib by lia. cbn [drop]. by rewrite take_drop.
  - exfalso. repeat match type of H with
    | match ?x with _ => _ end = _ => destruct x; try discriminate H; try lia end.
Qed.

(** ** The interface: an operation that reads exactly one item

    [sem b i] is the operation's meaning on item [i] when [b] more containers may still be opened.
    On well-formed input the operation is exactly its meaning, errors included; and whenever it
    succeeds, on any bytes at all, it has consumed one well-formed item and nothing more. *)

Definition budget (r : CborReader) : nat := kMaxDepth - length (rd_stack r).

Definition ready (r : CborReader) : Prop := live (rd_stack r) /\ (length (rd_stack r) <= kMaxDepth)%nat.

Record Reads {A} (rd : CborReader -> decoded (A * CborReader)) (sem : nat -> Item -> decoded A) : Prop := {
  reads_item r i rest :
    ready r -> wf i = true -> unread r = encode i ++ rest ->
    rd r = (let? a := sem (budget r) i in ok (a, consume (length (encode i)) r));
  reads_sound r a r' :
    ready r -> rd r = ok (a, r') ->
    exists i rest, wf i = true /\ unread r = encode i ++ rest
      /\ r' = consume (length (encode i)) r /\ sem (budget r) i = ok a
}.

Definition sem_uint (b : nat) (i : Item) : decoded Z :=
  match i with IUint v => ok v | _ => err Malformed end.
Definition sem_int (b : nat) (i : Item) : decoded Z :=
  match i with IUint v => ok (i64 v) | INeg n => ok (-1 - i64 n) | _ => err Malformed end.
Definition sem_bool (b : nat) (i : Item) : decoded bool :=
  match i with IBool v => ok v | _ => err Malformed end.
Definition sem_null (b : nat) (i : Item) : decoded bool :=
  match i with INull => ok true | _ => err Malformed end.
Definition sem_f32 (b : nat) (i : Item) : decoded Z :=
  match i with IF32 v => ok v | _ => err Malformed end.
Definition sem_tstr (b : nat) (i : Item) : decoded (list byte) :=
  match i with ITstr s => ok s | _ => err Malformed end.
Definition sem_bstr (b : nat) (i : Item) : decoded (list byte) :=
  match i with IBstr s => ok s | _ => err Malformed end.
Definition sem_skip (b : nat) (i : Item) : decoded unit :=
  if (nest i <=? b)%nat then ok tt else err DepthExceeded.

Lemma unread_advance r n stk :
  unread {| rd_in := rd_in r; rd_pos := rd_pos r + n; rd_stack := stk |} = drop n (unread r).
Proof. unfold unread. cbn. by rewrite drop_drop. Qed.

Lemma unread_consume r n : unread (consume n r) = drop n (unread r).
Proof. apply unread_advance. Qed.

Lemma unread_consume_app r l rest : unread r = l ++ rest -> unread (consume (length l) r) = rest.
Proof. intros H. by rewrite unread_consume, H, drop_app_length. Qed.

Lemma ready_consume r n : ready r -> ready (consume n r).
Proof.
  intros [Hl Hn]. split; cbn; [by apply consumeOne_live|].
  pose proof (consumeOne_length (rd_stack r)). lia.
Qed.

(** Scalars whose head is their whole encoding. *)
Lemma Reads_head {A} (rd : CborReader -> decoded (A * CborReader)) sem (f : Z -> Z -> decoded A) :
  (forall r, rd r = (let? h := parseHeadRaw r in
                     let? a := f (h_major h) (h_arg h) in ok (a, consume (h_totalBytes h) r))) ->
  (forall b i, sem b i = match item_head i with Some (mj, v) => f mj v | None => err Malformed end) ->
  (forall mj v a, f mj v = ok a -> mj = 0 \/ mj = 1) ->
  Reads rd sem.
Proof.
  intros Hrd Hsem Hf. split.
  - intros r i rest _ Hw Hu. rewrite Hrd, Hsem, (parseHead_item r i rest Hw Hu).
    destruct (item_head i) as [[mj v]|] eqn:Hh; [|done]. cbn [result_bind h_major h_arg h_totalBytes].
    destruct (f mj v) as [a|] eqn:Ef; [|done]. cbn. do 3 f_equal.
    destruct (Hf _ _ _ Ef) as [-> | ->]; destruct i; cbn in Hh; try done; by injection Hh as <-.
  - intros r a r' _ H. rewrite Hrd in H. apply result_bind_ok in H as (h & Hp & H).
    apply result_bind_ok in H as (a' & Ha & [= <- <-]).
    apply parseHead_inv in Hp as (Hmj & Hv & Hn & Hu).
    destruct h as [mj v n]. cbn [h_major h_arg h_totalBytes] in *. subst n.
    destruct (Hf _ _ _ Ha) as [-> | ->].
    + exists (IUint v), (drop (length (head 0 v)) (unread r)).
      split_and!; [by apply in_ub_spec|done|done|]. by rewrite Hsem.
    + exists (INeg v), (drop (length (head 1 v)) (unread r)).
      split_and!; [by apply in_ub_spec|done|done|]. by rewrite Hsem.
Qed.

Lemma Reads_uint : Reads readUint sem_uint.
Proof.
  apply Reads_head with (f := fun mj v => if mj =? 0 then ok v else err Malformed).
  - intros r. unfold readUint. destruct (parseHeadRaw r) as [h|]; [|done]. cbn. by destruct (_ =? 0).
  - by intros b [].
  - intros mj v a. destruct (Z.eqb_spec mj 0); [auto|done].
Qed.

Lemma Reads_int : Reads readInt sem_int.
Proof.
  apply Reads_head with (f := fun mj v => if mj =? 0 then ok (i64 v) else if mj =? 1 then ok (-1 - i64 v) else err Malformed).
  - intros r. unfold readInt. destruct (parseHeadRaw r) as [h|]; [|done]. cbn.
    destruct (_ =? 0); [done|]. by destruct (_ =? 1).
  - by intros b [].
  - intros mj v a. destruct (Z.eqb_spec mj 0); [auto|]. destruct (Z.eqb_spec mj 1); [auto|done].
Qed.

(** Major 7. *)
Lemma Reads_simple {A} (rd : CborReader -> decoded (A * CborReader)) sem (f : SimpleHead -> decoded A) :
  (forall r, rd r = (let? s := parseSimpleRaw r in
                     let? a := f s in ok (a, consume (s_totalBytes s) r))) ->
  (forall b i, sem b i = match item_simple i with Some s => f s | None => err Malformed end) ->
  Reads rd sem.
Proof.
  intros Hrd Hsem. split.
  - intros r i rest _ Hw Hu. rewrite Hrd, Hsem, (parseSimple_item r i rest Hw Hu).
    destruct (item_simple i) as [s|] eqn:Hs; [|done]. cbn [result_bind].
    destruct (f s); [|done]. cbn. do 3 f_equal.
    destruct i as [| | | | | |[]| |]; cbn in Hs; try done; by injection Hs as <-.
  - intros r a r' _ H. rewrite Hrd in H. apply result_bind_ok in H as (s & Hp & H).
    apply result_bind_ok in H as (a' & Ha & [= <- <-]).
    apply parseSimple_inv in Hp as (Hw & Hi & Hn & Hu).
    exists (simple_item s), (drop (s_totalBytes s) (unread r)). rewrite <- Hn.
    split_and!; try done. by rewrite Hsem, Hi.
Qed.

Lemma Reads_bool : Reads readBool sem_bool.
Proof.
  apply Reads_simple with (f := fun s => match s_kind s with SK_True => ok true | SK_False => ok false | _ => err Malformed end).
  - intros r. unfold readBool. destruct (parseSimpleRaw r) as [s|]; [|done]. cbn. by destruct (s_kind s).
  - by intros b [| | | | | |[]| |].
Qed.

Lemma Reads_null : Reads readNull sem_null.
Proof.
  apply Reads_simple with (f := fun s => match s_kind s with SK_Null => ok true | _ => err Malformed end).
  - intros r. unfold readNull. destruct (parseSimpleRaw r) as [s|]; [|done]. cbn. by destruct (s_kind s).
  - by intros b [| | | | | |[]| |].
Qed.

Lemma Reads_f32 : Reads readF32 sem_f32.
Proof.
  apply Reads_simple with (f := fun s => match s_kind s with SK_Float32 => ok (s_floatBits s) | _ => err Malformed end).
  - intros r. unfold readF32. destruct (parseSimpleRaw r) as [s|]; [|done]. cbn. by destruct (s_kind s).
  - by intros b [| | | | | |[]| |].
Qed.

(** Byte and text strings: [mk] is the constructor, 2 or 3 its major type. *)
Lemma string_view r h s rest :
  (1 <= length h)%nat -> unread r = h ++ s ++ rest ->
  len (rd_in r) - Z.of_nat (rd_pos r + length h) = len (s ++ rest)
  /\ forall n, subspan (rd_pos r + length h) n (rd_in r) = take n (s ++ rest).
Proof.
  intros Hh Hu. split.
  - apply (f_equal (@length byte)) in Hu. unfold unread, len in *. rewrite length_drop in Hu.
    rewrite !length_app in *. lia.
  - intros n. unfold subspan. rewrite <- drop_drop. fold (unread r).
    by rewrite Hu, drop_app_length.
Qed.

Lemma Reads_string major (mk : list byte -> Item) sem :
  (forall b, item_head (mk b) = Some (major, len b)) ->
  (forall b, encode (mk b) = head major (len b) ++ b) ->
  (forall b, wf (mk b) = in_ub 64 (len b)) ->
  (forall d b, sem d (mk b) = ok b) ->
  (forall d i, (exists b, i = mk b) \/
     (sem d i = err Malformed /\ forall mj v, item_head i = Some (mj, v) -> mj <> major)) ->
  Reads (readString major) sem.
Proof.
  intros Hhd Henc Hwf Hsem Hother. split.
  - intros r i rest _ Hw Hu. unfold readString. rewrite (parseHead_item r i rest Hw Hu).
    destruct (Hother (budget r) i) as [[b ->]|[-> Hne]].
    + rewrite Hhd, Hsem. cbn [result_bind h_major h_arg h_totalBytes]. rewrite Z.eqb_refl.
      rewrite Henc, <- app_assoc in Hu.
      destruct (string_view r _ b rest ltac:(apply head_length) Hu) as [-> ->].
      cbn [negb]. rewrite (proj2 (Z.ltb_ge _ _)) by (rewrite len_app; pose proof (len_nonneg rest); lia).
      unfold len. rewrite !Nat2Z.id, take_app_length, Henc, length_app. done.
    + destruct (item_head i) as [[mj v]|]; [|done]. cbn. specialize (Hne mj v eq_refl).
      by rewrite (proj2 (Z.eqb_neq mj major)) by done.
  - intros r a r' _ H. unfold readString in H. apply result_bind_ok in H as (h & Hp & H).
    apply parseHead_inv in Hp as (Hmj & Hv & Hn & Hu). destruct h as [mj v n].
    cbn [h_major h_arg h_totalBytes] in *. destruct (Z.eqb_spec mj major) as [->|]; [|done].
    cbn [negb] in H. subst n.
    destruct (string_view r _ [] _ ltac:(apply head_length) Hu) as [E1 E2].
    cbn [app] in E1, E2. rewrite E1, E2 in H.
    set (t := drop (length (head major v)) (unread r)) in *. clearbody t.
    destruct (Z.ltb_spec (len t) v) as [|Hlt]; [done|]. injection H as <- <-.
    unfold in_u in Hv. assert (len (take (Z.to_nat v) t) = v) as Hlen.
    { unfold len in *. rewrite length_take. lia. }
    exists (mk (take (Z.to_nat v) t)), (drop (Z.to_nat v) t).
    rewrite Hwf, Henc, Hsem, Hlen, <- app_assoc, take_drop, length_app.
    split_and!; [by apply in_ub_spec|done| |done]. do 2 f_equal. unfold len in Hlen. lia.
Qed.

Lemma Reads_tstr : Reads readTstr sem_tstr.
Proof.
  apply Reads_string with (mk := ITstr); try done.
  intros d []; eauto; right; split; try done; cbn; congruence.
Qed.

Lemma Reads_bstr : Reads readBstr sem_bstr.
Proof.
  apply Reads_string with (mk := IBstr); try done.
  intros d []; eauto; right; split; try done; cbn; congruence.
Qed.

(** ** Closure properties *)

(** Pure post-processing of what was read. *)
Lemma Reads_then {A B} rd sem (g : A -> decoded B) :
  Reads rd sem ->
  Reads (fun r => let? (a, r') := rd r in let? b := g a in ok (b, r'))
        (fun d i => let? a := sem d i in g a).
Proof.
  intros [Hi Hs]. split.
  - intros r i rest Hr Hw Hu. rewrite (Hi r i rest Hr Hw Hu).
    destruct (sem (budget r) i); [|done]. done.
  - intros r b r' Hr H. apply result_bind_ok in H as ([a r1] & Hrd & H).
    apply result_bind_ok in H as (b' & Hg & [= <- <-]).
    destruct (Hs _ _ _ Hr Hrd) as (i & rest & Hw & Hu & -> & He).
    exists i, rest. by rewrite He.
Qed.

Lemma Reads_ext {A} rd rd' (sem sem' : nat -> Item -> decoded A) :
  (forall r, rd' r = rd r) -> (forall b i, sem' b i = sem b i) -> Reads rd sem -> Reads rd' sem'.
Proof.
  intros E E' [Hi Hs]. split.
  - intros r i rest Hr Hw Hu. rewrite E, E'. eauto.
  - intros r a r' Hr H. rewrite E in H. destruct (Hs _ _ _ Hr H) as (i & rest & Hw & Hu & -> & He).
    exists i, rest. by rewrite E'.
Qed.

(** Two readers of which one is chosen by a pure test. *)
Lemma Reads_if {A} (b : bool) (rd rd' : CborReader -> decoded (A * CborReader)) sem sem' :
  Reads rd sem -> Reads rd' sem' ->
  Reads (fun r => if b then rd r else rd' r) (fun d i => if b then sem d i else sem' d i).
Proof. by destruct b. Qed.

(** ** Containers *)

Fixpoint fold_fields {A} (sem : Z -> A -> Item -> decoded A) (kvs : list (Z * Item)) (a : A) : decoded A :=
  match kvs with
  | [] => ok a
  | (k, i) :: t => let? a' := sem k a i in fold_fields sem t a'
  end.

Fixpoint fold_items {A} (sem : A -> Item -> decoded A) (l : list Item) (a : A) : decoded A :=
  match l with
  | [] => ok a
  | i :: t => let? a' := sem a i in fold_items sem t a'
  end.

(** The loop every map decoder of the library writes: one key, then the code that handles it. *)
Definition map_body {A} (field : Z -> A -> CborReader -> decoded (A * CborReader))
  : A -> CborReader -> decoded (A * CborReader) :=
  fun a r => let? (k, r') := readKey r in field k a r'.

(** A reader in the middle of the container that [r] was about to read. *)
Definition mid (r : CborReader) (n : nat) (stk : list CborFrame) : CborReader :=
  {| rd_in := rd_in r; rd_pos := rd_pos r + n; rd_stack := stk |}.

Lemma consume_mid r n m stk : consume m (mid r n stk) = mid r (n + m) (consumeOne stk).
Proof. unfold consume, mid. cbn. by rewrite Nat.add_assoc. Qed.

Lemma unread_mid r n stk : unread (mid r n stk) = drop n (unread r).
Proof. apply unread_advance. Qed.

Lemma enterContainer_at r major ismap n rest :
  unread r = head major n ++ rest -> 0 <= major <= 5 -> in_u 32 n ->
  enterContainer major ismap r
  = if (budget r =? 0)%nat then err DepthExceeded
    else ok (n, mid r (length (head major n))
                  (settle (if ismap then mapFrame (2 * n) None else arrFrame n) (rd_stack r))).
Proof.
  intros Hu Hm Hn. unfold in_u in Hn. unfold enterContainer.
  rewrite (parseHead_head r major n rest) by (unfold in_u; first [done|lia]).
  cbn [result_bind h_major h_arg h_totalBytes]. rewrite Z.eqb_refl. cbn [negb].
  unfold budget. destruct (Nat.ltb_spec kMaxDepth (length (rd_stack r) + 1)), (Nat.eqb_spec (kMaxDepth - length (rd_stack r)) 0); try lia; [done|].
  rewrite (proj2 (Z.ltb_ge _ _)) by lia. unfold mid. cbn [afterConsume].
  rewrite (wrap_small 32), (wrap_small 64), (Z.mul_comm n) by (unfold in_u; lia). by destruct ismap.
Qed.

Lemma enterContainer_inv r major ismap n r' :
  enterContainer major ismap r = ok (n, r') ->
  exists rest, unread r = head major n ++ rest /\ 0 <= major <= 5 /\ in_u 32 n /\ budget r <> 0%nat
    /\ r' = mid r (length (head major n))
              (settle (if ismap then mapFrame (2 * n) None else arrFrame n) (rd_stack r)).
Proof.
  intros H. pose proof H as H0. unfold enterContainer in H0.
  apply result_bind_ok in H0 as (h & Hp & H0). apply parseHead_inv in Hp as (Hm & Hv & Hn & Hu).
  destruct h as [mj v m]. cbn [h_major h_arg h_totalBytes] in *.
  destruct (Z.eqb_spec mj major) as [->|]; [|done]. cbn [negb] in H0.
  destruct (Nat.ltb_spec kMaxDepth (length (rd_stack r) + 1)); [done|].
  destruct (Z.ltb_spec 0xFFFFFFFF v); [done|].
  unfold in_u in Hv. assert (in_u 32 v) as Hv' by (unfold in_u; lia).
  rewrite (enterContainer_at r major ismap v _ Hu Hm Hv') in H.
  destruct (Nat.eqb_spec (budget r) 0); [done|]. injection H as <- <-. eauto 10.
Qed.

Lemma readKey_at r n r0 lk stk k rest :
  unread (mid r n (mapFrame r0 lk :: stk)) = head 0 k ++ rest -> in_u 64 k -> above lk [k] = true ->
  readKey (mid r n (mapFrame r0 lk :: stk))
  = ok (k, mid r (n + length (head 0 k)) (consumeOne (mapFrame r0 (Some k) :: stk))).
Proof.
  intros Hu Hk Ha. unfold readKey. rewrite (parseHead_head _ 0 k rest Hu) by (done || lia).
  cbn [result_bind h_major h_arg h_totalBytes mid rd_stack rd_in rd_pos]. cbn [Z.eqb negb isMap mapFrame lastKey].
  destruct lk as [l|].
  - cbn [above] in Ha. rewrite andb_true_r in Ha. apply Z.ltb_lt in Ha.
    rewrite (proj2 (Z.leb_gt _ _)) by done. unfold mid. by rewrite Nat.add_assoc.
  - unfold mid. by rewrite Nat.add_assoc.
Qed.

Lemma readKey_inv r n r0 lk stk k r' :
  readKey (mid r n (mapFrame r0 lk :: stk)) = ok (k, r') ->
  exists rest, unread (mid r n (mapFrame r0 lk :: stk)) = head 0 k ++ rest /\ in_u 64 k
    /\ above lk [k] = true
    /\ r' = mid r (n + length (head 0 k)) (consumeOne (mapFrame r0 (Some k) :: stk)).
Proof.
  unfold readKey. intros H. apply result_bind_ok in H as (h & Hp & H).
  apply parseHead_inv in Hp as (Hm & Hv & Hn & Hu). destruct h as [mj v m].
  cbn [h_major h_arg h_totalBytes rd_stack mid rd_in rd_pos] in *.
  destruct (Z.eqb_spec mj 0) as [->|]; [|done]. cbn [negb isMap mapFrame lastKey] in H.
  destruct lk as [l|]; [destruct (Z.leb_spec v l) as [|Hl]; [done|]|]; injection H as <- <-; subst m.
  - exists (drop (length (head 0 v)) (unread (mid r n (mapFrame r0 (Some l) :: stk)))).
    split_and!; [done|done| |by unfold mid; rewrite Nat.add_assoc].
    cbn [above]. by rewrite (proj2 (Z.ltb_lt _ _)).
  - exists (drop (length (head 0 v)) (unread (mid r n (mapFrame r0 None :: stk)))).
    split_and!; [done|done|done|by unfold mid; rewrite Nat.add_assoc].
Qed.

Section loops.
Context {A : Type} (r : CborReader).
Hypothesis Hready : ready r.
Hypothesis Hroom : budget r <> 0%nat.

Let inner : nat := budget r - 1.

Lemma inner_ready n f : 0 < remaining f -> ready (mid r n (f :: rd_stack r)).
Proof.
  intros Hf. destruct Hready as [Hl Hn]. split; cbn [mid rd_stack]; [by constructor|].
  unfold budget in Hroom. cbn [length]. lia.
Qed.

Lemma inner_budget n f : budget (mid r n (f :: rd_stack r)) = inner.
Proof. unfold inner, budget. cbn [mid rd_stack length]. lia. Qed.

Context (field : Z -> A -> CborReader -> decoded (A * CborReader)).
Context (fsem : Z -> A -> nat -> Item -> decoded A).
Hypothesis Hfield : forall k a, Reads (field k a) (fsem k a).

Lemma map_loop_item kvs : forall fuel lk a n rest,
  above lk (map fst kvs) = true ->
  forallb (fun kv => in_ub 64 (fst kv) && wf (snd kv)) kvs = true ->
  drop n (unread r) = concat (map encode_pair kvs) ++ rest -> (length kvs <= fuel)%nat ->
  loopN fuel (len kvs) (map_body field) a (mid r n (settle (mapFrame (2 * len kvs) lk) (rd_stack r)))
  = (let? a' := fold_fields (fun k a => fsem k a inner) kvs a in
     ok (a', mid r (n + length (concat (map encode_pair kvs))) (consumeOne (rd_stack r)))).
Proof.
  induction kvs as [|[k i] kvs IH]; intros fuel lk a n rest Ha Hw Hu Hf.
  - rewrite settle_zero by done. cbn. rewrite Nat.add_0_r. destruct fuel; done.
  - destruct fuel as [|fuel]; cbn [length] in Hf; [lia|].
    cbn [map fst above] in Ha. apply andb_prop in Ha as [Hk Ha].
    cbn [forallb fst snd] in Hw. apply andb_prop in Hw as [[Hk64%in_ub_spec Hwi]%andb_prop Hw].
    cbn [map concat] in Hu. unfold encode_pair at 1 in Hu. cbn [fst snd] in Hu.
    rewrite <- !app_assoc in Hu. rewrite len_cons. pose proof (len_nonneg kvs).
    cbn [loopN]. rewrite (proj2 (Z.leb_gt _ _)) by lia.
    rewrite settle_pos by (cbn [remaining mapFrame]; lia). unfold map_body at 1.
    rewrite (readKey_at r n _ lk _ k _ ltac:(rewrite unread_mid; exact Hu) Hk64)
      by (cbn [above]; by rewrite andb_true_r).
    cbn [result_bind]. rewrite consumeOne_cons by (cbn; lia). cbn [isMap lastKey remaining mapFrame].
    rewrite settle_pos by (cbn; lia).
    assert (drop (n + length (head 0 k)) (unread r) = encode i ++ concat (map encode_pair kvs) ++ rest) as Hu1.
    { by rewrite <- drop_drop, Hu, drop_app_length. }
    rewrite (reads_item _ _ (Hfield k a) _ i (concat (map encode_pair kvs) ++ rest)) by
      (first [apply inner_ready; cbn; lia | done | by rewrite unread_mid]).
    rewrite inner_budget. cbn [fold_fields].
    destruct (fsem k a inner i) as [a'|]; [|done]. cbn [result_bind].
    rewrite consume_mid, consumeOne_cons by (cbn; lia). cbn [isMap lastKey remaining].
    replace (len kvs + 1 - 1) with (len kvs) by lia.
    change {| isMap := true; remaining := 2 * (len kvs + 1) - 1 - 1; lastKey := Some k |}
      with (mapFrame (2 * (len kvs + 1) - 1 - 1) (Some k)).
    replace (2 * (len kvs + 1) - 1 - 1) with (2 * len kvs) by lia.
    rewrite (IH fuel (Some k) a' _ rest Ha Hw) by
      (first [lia | by rewrite <- (drop_drop _ (length (encode i))), Hu1, drop_app_length]).
    destruct (fold_fields _ _ _); [|done]. cbn [result_bind]. do 2 f_equal.
    cbn [map concat]. unfold encode_pair at 2. cbn [fst snd]. rewrite !length_app. f_equal. lia.
Qed.

Lemma map_loop_sound : forall fuel N lk a n a' r',
  0 <= N ->
  loopN fuel N (map_body field) a (mid r n (settle (mapFrame (2 * N) lk) (rd_stack r))) = ok (a', r') ->
  exists kvs rest, len kvs = N /\ above lk (map fst kvs) = true
    /\ forallb (fun kv => in_ub 64 (fst kv) && wf (snd kv)) kvs = true
    /\ drop n (unread r) = concat (map encode_pair kvs) ++ rest
    /\ r' = mid r (n + length (concat (map encode_pair kvs))) (consumeOne (rd_stack r))
    /\ fold_fields (fun k a => fsem k a inner) kvs a = ok a'.
Proof.
  induction fuel as [|fuel IH]; intros N lk a n a' r' HN H; cbn [loopN] in H.
  all: destruct (Z.leb_spec N 0) as [Hz|Hz].
  1, 3: replace N with 0 in H |- * by lia; injection H as <- <-; rewrite settle_zero by done;
    exists [], (drop n (unread r)); cbn; rewrite Nat.add_0_r; done.
  - done.
  - apply result_bind_ok in H as ([a1 r1] & Hb & H).
    rewrite settle_pos in Hb by (cbn [remaining mapFrame]; lia). unfold map_body in Hb.
    apply result_bind_ok in Hb as ([k r2] & Hk & Hb).
    apply readKey_inv in Hk as (rest & Hu & Hk64 & Hlk & ->).
    rewrite consumeOne_cons in Hb by (cbn; lia). cbn [isMap lastKey remaining mapFrame] in Hb.
    rewrite settle_pos in Hb by (cbn; lia).
    pose proof (inner_ready (n + length (head 0 k))
      {| isMap := true; remaining := 2 * N - 1; lastKey := Some k |} ltac:(cbn; lia)) as Hr.
    destruct (reads_sound _ _ (Hfield k a) _ _ _ Hr Hb) as (i & rest1 & Hwi & Hu1 & -> & Hs).
    rewrite inner_budget in Hs. rewrite unread_mid in Hu, Hu1.
    rewrite consume_mid, consumeOne_cons in H by (cbn; lia). cbn [isMap lastKey remaining] in H.
    change {| isMap := true; remaining := 2 * N - 1 - 1; lastKey := Some k |}
      with (mapFrame (2 * N - 1 - 1) (Some k)) in H.
    replace (2 * N - 1 - 1) with (2 * (N - 1)) in H by lia.
    apply IH in H as (kvs & rest2 & Hlen & Hab & Hwk & Hu2 & -> & Hfold); [|lia].
    rewrite <- drop_drop, Hu1, drop_app_length in Hu2. subst rest1.
    exists ((k, i) :: kvs), rest2. cbn [map fst snd concat forallb above fold_fields].
    change (encode_pair (k, i)) with (head 0 k ++ encode i). split_and!.
    + rewrite len_cons. lia.
    + cbn [above] in Hlk. rewrite andb_true_r in Hlk. by rewrite Hlk.
    + rewrite Hwi, Hwk. by rewrite (proj2 (in_ub_spec 64 k)).
    + rewrite Hu. rewrite <- (drop_drop _ _ n), Hu, drop_app_length in Hu1. rewrite Hu1.
      by rewrite <- !app_assoc.
    + rewrite !length_app. f_equal. lia.
    + rewrite Hs. done.
Qed.

Context (body : A -> CborReader -> decoded (A * CborReader)).
Context (bsem : A -> nat -> Item -> decoded A).
Hypothesis Hbody : forall a, Reads (body a) (bsem a).

Lemma arr_loop_item l : forall fuel a n rest,
  forallb wf l = true -> drop n (unread r) = concat (map encode l) ++ rest -> (length l <= fuel)%nat ->
  loopN fuel (len l) body a (mid r n (settle (arrFrame (len l)) (rd_stack r)))
  = (let? a' := fold_items (fun a => bsem a inner) l a in
     ok (a', mid r (n + length (concat (map encode l))) (consumeOne (rd_stack r)))).
Proof.
  induction l as [|i l IH]; intros fuel a n rest Hw Hu Hf.
  - rewrite settle_zero by done. cbn. rewrite Nat.add_0_r. destruct fuel; done.
  - destruct fuel as [|fuel]; cbn [length] in Hf; [lia|].
    cbn [forallb] in Hw. apply andb_prop in Hw as [Hwi Hw].
    cbn [map concat] in Hu. rewrite <- app_assoc in Hu. rewrite len_cons. pose proof (len_nonneg l).
    cbn [loopN]. rewrite (proj2 (Z.leb_gt _ _)) by lia.
    rewrite settle_pos by (cbn [remaining arrFrame]; lia).
    rewrite (reads_item _ _ (Hbody a) _ i (concat (map encode l) ++ rest)) by
      (first [apply inner_ready; cbn; lia | done | by rewrite unread_mid]).
    rewrite inner_budget. cbn [fold_items]. destruct (bsem a inner i) as [a'|]; [|done]. cbn [result_bind].
    rewrite consume_mid, consumeOne_cons by (cbn; lia). cbn [isMap lastKey remaining arrFrame].
    change {| isMap := false; remaining := len l + 1 - 1; lastKey := None |} with (arrFrame (len l + 1 - 1)).
    replace (len l + 1 - 1) with (len l) by lia.
    rewrite (IH fuel a' _ rest Hw) by (first [lia | by rewrite <- drop_drop, Hu, drop_app_length]).
    destruct (fold_items _ _ _); [|done]. cbn [result_bind map concat]. do 2 f_equal.
    rewrite length_app. f_equal. lia.
Qed.

Lemma arr_loop_sound : forall fuel N a n a' r',
  0 <= N ->
  loopN fuel N body a (mid r n (settle (arrFrame N) (rd_stack r))) = ok (a', r') ->
  exists l rest, len l = N /\ forallb wf l = true
    /\ drop n (unread r) = concat (map encode l) ++ rest
    /\ r' = mid r (n + length (concat (map encode l))) (consumeOne (rd_stack r))
    /\ fold_items (fun a => bsem a inner) l a = ok a'.
Proof.
  induction fuel as [|fuel IH]; intros N a n a' r' HN H; cbn [loopN] in H.
  all: destruct (Z.leb_spec N 0) as [Hz|Hz].
  1, 3: replace N with 0 in H |- * by lia; injection H as <- <-; rewrite settle_zero by done;
    exists [], (drop n (unread r)); cbn; rewrite Nat.add_0_r; done.
  - done.
  - apply result_bind_ok in H as ([a1 r1] & Hb & H).
    rewrite settle_pos in Hb by (cbn [remaining arrFrame]; lia).
    pose proof (inner_ready n (arrFrame N) ltac:(cbn; lia)) as Hr.
    destruct (reads_sound _ _ (Hbody a) _ _ _ Hr Hb) as (i & rest1 & Hwi & Hu1 & -> & Hs).
    rewrite inner_budget in Hs. rewrite unread_mid in Hu1.
    rewrite consume_mid, consumeOne_cons in H by (cbn; lia). cbn [isMap lastKey remaining arrFrame] in H.
    change {| isMap := false; remaining := N - 1; lastKey := None |} with (arrFrame (N - 1)) in H.
    apply IH in H as (l & rest2 & Hlen & Hwk & Hu2 & -> & Hfold); [|lia].
    rewrite <- drop_drop, Hu1, drop_app_length in Hu2. subst rest1.
    exists (i :: l), rest2. cbn [map concat forallb fold_items]. split_and!.
    + rewrite len_cons. lia.
    + by rewrite Hwi.
    + by rewrite Hu1, <- app_assoc.
    + rewrite length_app. f_equal. lia.
    + by rewrite Hs.
Qed.
End loops.

(** [n = readMapHeader(); <init>; for (i < n) { k = readKey(); <field k> }]. *)
Definition read_map {A} (init : Z -> decoded A) (field : Z -> A -> CborReader -> decoded (A * CborReader))
  (r : CborReader) : decoded (A * CborReader) :=
  let? (n, r1) := readMapHeader r in
  let? a := init n in
  for_each n (map_body field) a r1.

(** [n = readArrayHeader(); <init>; for (i < n) <body>]. *)
Definition read_array {A} (init : Z -> decoded A) (body : A -> CborReader -> decoded (A * CborReader))
  (r : CborReader) : decoded (A * CborReader) :=
  let? (n, r1) := readArrayHeader r in
  let? a := init n in
  for_each n body a r1.

Definition sem_map {A} (init : Z -> decoded A) (fsem : Z -> A -> nat -> Item -> decoded A)
  (b : nat) (i : Item) : decoded A :=
  match i with
  | IMap kvs =>
      if (b =? 0)%nat then err DepthExceeded
      else let? a := init (len kvs) in fold_fields (fun k a => fsem k a (b - 1)%nat) kvs a
  | _ => err Malformed
  end.

Definition sem_array {A} (init : Z -> decoded A) (bsem : A -> nat -> Item -> decoded A)
  (b : nat) (i : Item) : decoded A :=
  match i with
  | IArr l =>
      if (b =? 0)%nat then err DepthExceeded
      else let? a := init (len l) in fold_items (fun a => bsem a (b - 1)%nat) l a
  | _ => err Malformed
  end.

Lemma len_lt_fuel {A} (f : A -> list byte) l rest :
  (forall a, (1 <= length (f a))%nat) -> (length l <= length (concat (map f l) ++ rest))%nat.
Proof. intros Hf. rewrite length_app. pose proof (concat_length_ge f l Hf). lia. Qed.

Lemma enterContainer_other r major ismap i rest :
  wf i = true -> unread r = encode i ++ rest -> 
  (forall mj v, item_head i = Some (mj, v) -> mj <> major) ->
  enterContainer major ismap r = err Malformed.
Proof.
  intros Hw Hu Hne. unfold enterContainer. rewrite (parseHead_item r i rest Hw Hu).
  destruct (item_head i) as [[mj v]|]; [|done]. cbn.
  by rewrite (proj2 (Z.eqb_neq mj major)) by eauto.
Qed.

Lemma Reads_map {A} (init : Z -> decoded A) field fsem :
  (forall k a, Reads (field k a) (fsem k a)) -> Reads (read_map init field) (sem_map init fsem).
Proof.
  intros Hf. split.
  - intros r i rest Hr Hw Hu. unfold read_map, readMapHeader.
    assert ((exists kvs, i = IMap kvs) \/ (sem_map init fsem (budget r) i = err Malformed
      /\ forall mj v, item_head i = Some (mj, v) -> mj <> 5)) as [[kvs ->]|[-> Hne]].
    { destruct i; eauto; right; split; try done; cbn; congruence. }
    2: by rewrite (enterContainer_other r 5 true i rest).
    cbn [wf] in Hw. apply andb_prop in Hw as [[Hlen%in_ub_spec Hab]%andb_prop Hwk].
    rewrite encode_map, <- app_assoc in Hu.
    rewrite (enterContainer_at r 5 true (len kvs) _ Hu) by (done || lia). cbn [sem_map].
    destruct (Nat.eqb_spec (budget r) 0) as [|Hroom]; [done|]. cbn [result_bind].
    destruct (init (len kvs)) as [a|]; [|done]. cbn [result_bind]. unfold for_each.
    assert (drop (length (head 5 (len kvs))) (unread r) = concat (map encode_pair kvs) ++ rest) as Hu1
      by by rewrite Hu, drop_app_length.
    rewrite unread_mid, Hu1.
    rewrite (map_loop_item r Hr Hroom field fsem Hf kvs _ None a _ rest Hab Hwk Hu1)
      by apply len_lt_fuel, encode_pair_pos.
    destruct (fold_fields _ _ _); [|done]. cbn [result_bind]. do 2 f_equal.
    unfold consume, mid. by rewrite encode_map, length_app.
  - intros r a r' Hr H. unfold read_map in H. apply result_bind_ok in H as ([n r1] & Hh & H).
    apply result_bind_ok in H as (a0 & Hi & H).
    apply enterContainer_inv in Hh as (rest & Hu & _ & Hn & Hroom & ->).
    apply (map_loop_sound r Hr Hroom field fsem Hf) in H
      as (kvs & rest1 & Hlen & Hab & Hwk & Hu1 & -> & Hfold); [|apply Hn].
    rewrite Hu, drop_app_length in Hu1. subst rest. rewrite <- Hlen in *.
    exists (IMap kvs), rest1. split_and!.
    + cbn [wf]. rewrite Hab, Hwk, !andb_true_r. by apply in_ub_spec.
    + by rewrite encode_map, <- app_assoc.
    + unfold consume, mid. by rewrite encode_map, length_app.
    + cbn [sem_map]. rewrite (proj2 (Nat.eqb_neq _ _)) by done. by rewrite Hi.
Qed.

Lemma Reads_array {A} (init : Z -> decoded A) body bsem :
  (forall a, Reads (body a) (bsem a)) -> Reads (read_array init body) (sem_array init bsem).
Proof.
  intros Hf. split.
  - intros r i rest Hr Hw Hu. unfold read_array, readArrayHeader.
    assert ((exists l, i = IArr l) \/ (sem_array init bsem (budget r) i = err Malformed
      /\ forall mj v, item_head i = Some (mj, v) -> mj <> 4)) as [[l ->]|[-> Hne]].
    { destruct i; eauto; right; split; try done; cbn; congruence. }
    2: by rewrite (enterContainer_other r 4 false i rest).
    cbn [wf] in Hw. apply andb_prop in Hw as [Hlen%in_ub_spec Hwk].
    rewrite encode_arr, <- app_assoc in Hu.
    rewrite (enterContainer_at r 4 false (len l) _ Hu) by (done || lia). cbn [sem_array].
    destruct (Nat.eqb_spec (budget r) 0) as [|Hroom]; [done|]. cbn [result_bind].
    destruct (init (len l)) as [a|]; [|done]. cbn [result_bind]. unfold for_each.
    assert (drop (length (head 4 (len l))) (unread r) = concat (map encode l) ++ rest) as Hu1
      by by rewrite Hu, drop_app_length.
    rewrite unread_mid, Hu1.
    rewrite (arr_loop_item r Hr Hroom body bsem Hf l _ a _ rest Hwk Hu1)
      by apply len_lt_fuel, encode_length_pos.
    destruct (fold_items _ _ _); [|done]. cbn [result_bind]. do 2 f_equal.
    unfold consume, mid. by rewrite encode_arr, length_app.
  - intros r a r' Hr H. unfold read_array in H. apply result_bind_ok in H as ([n r1] & Hh & H).
    apply result_bind_ok in H as (a0 & Hi & H).
    apply enterContainer_inv in Hh as (rest & Hu & _ & Hn & Hroom & ->).
    apply (arr_loop_sound r Hr Hroom body bsem Hf) in H
      as (l & rest1 & Hlen & Hwk & Hu1 & -> & Hfold); [|apply Hn].
    rewrite Hu, drop_app_length in Hu1. subst rest. rewrite <- Hlen in *.
    exists (IArr l), rest1. split_and!.
    + cbn [wf]. rewrite Hwk, !andb_true_r. by apply in_ub_spec.
    + by rewrite encode_arr, <- app_assoc.
    + unfold consume, mid. by rewrite encode_arr, length_app.
    + cbn [sem_array]. rewrite (proj2 (Nat.eqb_neq _ _)) by done. by rewrite Hi.
Qed.

(** ** Skipping: the recursion levels are never exhausted before the depth budget is *)

Fixpoint levels (i : Item) : nat :=
  match i with
  | IArr l => S (list_max (map levels l))
  | IMap kvs => S (list_max (map (fun kv => levels (snd kv)) kvs))
  | _ => 1
  end.

Lemma list_max_le_map {A} (f g : A -> nat) l m :
  Forall (fun a => (f a <= g a)%nat) l -> (list_max (map g l) <= m)%nat -> (list_max (map f l) <= m)%nat.
Proof.
  induction 1 as [|a l Ha _ IH]; [done|]. cbn [map]. unfold list_max in *. cbn [fold_right]. lia.
Qed.

Lemma levels_nest i : (levels i <= S (nest i))%nat.
Proof.
  induction i as [| | | |l IH|kvs IH| | |] using Item_nested_ind; cbn [levels nest]; try lia.
  all: apply le_n_S.
  all: match goal with |- (_ <= S ?m)%nat => assert (forall x, (list_max x <= m)%nat -> (list_max x <= S m)%nat) as Hs by lia end.
  - clear Hs. induction IH as [|i l Hi _ IHl]; [cbn; lia|]. cbn [map]. unfold list_max in *. cbn [fold_right]. lia.
  - clear Hs. induction IH as [|i l Hi _ IHl]; [cbn; lia|]. cbn [map]. unfold list_max in *. cbn [fold_right]. lia.
Qed.

Definition sem_skip_at (lv b : nat) (i : Item) : decoded unit :=
  if (levels i <=? lv)%nat && (nest i <=? b)%nat then ok tt else err DepthExceeded.

Lemma list_max_cons x l m : (list_max (x :: l) <=? m)%nat = (x <=? m)%nat && (list_max l <=? m)%nat.
Proof.
  unfold list_max. cbn [fold_right]. fold (list_max l).
  destruct (Nat.leb_spec (x `max` list_max l) m), (Nat.leb_spec x m), (Nat.leb_spec (list_max l) m); try done; lia.
Qed.

Lemma skip_items lv b l :
  fold_items (fun _ => sem_skip_at lv b) l tt
  = if (list_max (map levels l) <=? lv)%nat && (list_max (map nest l) <=? b)%nat
    then ok tt else err DepthExceeded.
Proof.
  induction l as [|i l IH]; [done|]. cbn [fold_items map]. rewrite !list_max_cons. unfold sem_skip_at at 1.
  destruct (levels i <=? lv)%nat, (nest i <=? b)%nat; cbn; rewrite ?andb_false_r; try done.
Qed.

Lemma skip_fields lv b kvs :
  fold_fields (fun _ _ => sem_skip_at lv b) kvs tt
  = if (list_max (map (fun kv => levels (snd kv)) kvs) <=? lv)%nat
       && (list_max (map (fun kv => nest (snd kv)) kvs) <=? b)%nat
    then ok tt else err DepthExceeded.
Proof.
  induction kvs as [|[k i] kvs IH]; [done|]. cbn [fold_fields map snd]. rewrite !list_max_cons.
  unfold sem_skip_at at 1.
  destruct (levels i <=? lv)%nat, (nest i <=? b)%nat; cbn; rewrite ?andb_false_r; try done.
Qed.

Lemma skip_array_sem lv b l :
  sem_array (fun _ => ok tt) (fun _ => sem_skip_at lv) b (IArr l) = sem_skip_at (S lv) b (IArr l).
Proof.
  cbn [sem_array]. unfold sem_skip_at at 2. cbn [levels nest Nat.leb]. destruct b as [|b].
  - cbn. by rewrite andb_false_r.
  - cbn [Nat.eqb result_bind]. rewrite skip_items. cbn [Nat.leb]. by rewrite Nat.sub_succ, Nat.sub_0_r.
Qed.

Lemma skip_map_sem lv b kvs :
  sem_map (fun _ => ok tt) (fun _ _ => sem_skip_at lv) b (IMap kvs) = sem_skip_at (S lv) b (IMap kvs).
Proof.
  cbn [sem_map]. unfold sem_skip_at at 2. cbn [levels nest Nat.leb]. destruct b as [|b].
  - cbn. by rewrite andb_false_r.
  - cbn [Nat.eqb result_bind]. rewrite skip_fields. cbn [Nat.leb]. by rewrite Nat.sub_succ, Nat.sub_0_r.
Qed.

Definition skip_array_at lv := read_array (fun _ => ok tt) (fun _ => skipValue_at lv).
Definition skip_map_at lv := read_map (fun _ => ok tt) (fun _ _ => skipValue_at lv).

Lemma skip_as_combinators lv r :
  skipValue_at (S lv) r
  = (let? t := peekType r in
     match t with
     | MT_UInt => let? (_, r') := readUint r in ok (tt, r')
     | MT_NegInt => let? (_, r') := readInt r in ok (tt, r')
     | MT_ByteString => let? (_, r') := readBstr r in ok (tt, r')
     | MT_TextString => let? (_, r') := readTstr r in ok (tt, r')
     | MT_Tag => err ProfileViolation
     | MT_Array => skip_array_at lv r
     | MT_Map => skip_map_at lv r
     | MT_Simple => to_simple r
     end).
Proof. done. Qed.

Definition sem_simple (b : nat) (i : Item) : decoded unit :=
  match item_simple i with Some _ => ok tt | None => err Malformed end.

Lemma Reads_to_simple : Reads to_simple sem_simple.
Proof.
  apply Reads_simple with (f := fun _ => ok tt); [done|].
  intros b i. unfold sem_simple. by destruct (item_simple i).
Qed.

Definition discard {A} (rd : CborReader -> decoded (A * CborReader)) (r : CborReader) : decoded (unit * CborReader) :=
  let? (_, r') := rd r in ok (tt, r').

Lemma Reads_discard {A} rd (sem : nat -> Item -> decoded A) :
  Reads rd sem -> Reads (discard rd) (fun b i => let? _ := sem b i in ok tt).
Proof. intros H. apply (Reads_then rd sem (fun _ => ok tt) H). Qed.

Lemma Reads_skip_at lv : Reads (skipValue_at lv) (sem_skip_at lv).
Proof.
  induction lv as [|lv IH].
  { split; [|done]. intros r i rest _ _ _. cbn [skipValue_at]. unfold sem_skip_at. by destruct i. }
  pose proof (Reads_array (fun _ => ok tt) (fun _ => skipValue_at lv) (fun _ => sem_skip_at lv)
    (fun _ => IH)) as HA.
  pose proof (Reads_map (fun _ => ok tt) (fun _ _ => skipValue_at lv) (fun _ _ => sem_skip_at lv)
    (fun _ _ => IH)) as HM.
  pose proof (Reads_discard _ _ Reads_uint) as HU. pose proof (Reads_discard _ _ Reads_int) as HI.
  pose proof (Reads_discard _ _ Reads_bstr) as HB. pose proof (Reads_discard _ _ Reads_tstr) as HT.
  pose proof Reads_to_simple as HS. split.
  - intros r i rest Hr Hw Hu. rewrite skip_as_combinators, (peekType_item r i rest Hw Hu). cbn [result_bind].
    destruct i; cbn [item_type].
    + exact (reads_item _ _ HU r _ rest Hr Hw Hu).
    + exact (reads_item _ _ HI r _ rest Hr Hw Hu).
    + exact (reads_item _ _ HB r _ rest Hr Hw Hu).
    + exact (reads_item _ _ HT r _ rest Hr Hw Hu).
    + rewrite <- skip_array_sem. exact (reads_item _ _ HA r _ rest Hr Hw Hu).
    + rewrite <- skip_map_sem. exact (reads_item _ _ HM r _ rest Hr Hw Hu).
    + destruct b; exact (reads_item _ _ HS r _ rest Hr Hw Hu).
    + exact (reads_item _ _ HS r _ rest Hr Hw Hu).
    + exact (reads_item _ _ HS r _ rest Hr Hw Hu).
  - intros r [] r' Hr H. rewrite skip_as_combinators in H.
    apply result_bind_ok in H as (t & _ & H).
    assert (forall sem : nat -> Item -> decoded unit, (exists i rest, wf i = true /\ unread r = encode i ++ rest
        /\ r' = consume (length (encode i)) r /\ sem (budget r) i = ok tt) ->
      (forall i, sem (budget r) i = ok tt -> sem_skip_at (S lv) (budget r) i = ok tt) ->
      exists i rest, wf i = true /\ unread r = encode i ++ rest
        /\ r' = consume (length (encode i)) r /\ sem_skip_at (S lv) (budget r) i = ok tt) as Hgo
      by naive_solver.
    destruct t; [| | | | | |done|].
    + apply (Hgo _ (reads_sound _ _ HU r tt r' Hr H)). by intros [].
    + apply (Hgo _ (reads_sound _ _ HI r tt r' Hr H)). by intros [].
    + apply (Hgo _ (reads_sound _ _ HB r tt r' Hr H)). by intros [].
    + apply (Hgo _ (reads_sound _ _ HT r tt r' Hr H)). by intros [].
    + apply (Hgo _ (reads_sound _ _ HA r tt r' Hr H)). intros [] Hs; try done. by rewrite <- skip_array_sem.
    + apply (Hgo _ (reads_sound _ _ HM r tt r' Hr H)). intros [] Hs; try done. by rewrite <- skip_map_sem.
    + apply (Hgo _ (reads_sound _ _ HS r tt r' Hr H)). by intros [].
Qed.

Lemma Reads_skip : Reads skipValue sem_skip.
Proof.
  destruct (Reads_skip_at (S kMaxDepth)) as [Hi Hs].
  assert (forall r i, sem_skip_at (S kMaxDepth) (budget r) i = sem_skip (budget r) i) as E.
  { intros r i. unfold sem_skip_at, sem_skip. pose proof (levels_nest i).
    assert (budget r <= kMaxDepth)%nat by (unfold budget; lia).
    destruct (Nat.leb_spec (levels i) (S kMaxDepth)), (Nat.leb_spec (nest i) (budget r)); try done; lia. }
  split.
  - intros r i rest Hr Hw Hu. rewrite <- E. by apply (Hi r i rest).
  - intros r a r' Hr H. destruct (Hs r a r' Hr H) as (i & rest & ? & ? & ? & He).
    rewrite E in He. eauto 10.
Qed.

(** ** Canonicity: no two values share an encoding, and none is a prefix of another *)

Definition on (l : list byte) : CborReader := CborReader_new l.

Lemma unread_on l : unread (on l) = l.
Proof. done. Qed.

Lemma ready_on l : ready (on l).
Proof. split; cbn; [constructor|lia]. Qed.

Lemma budget_on l : budget (on l) = kMaxDepth.
Proof. done. Qed.

Lemma head_prefix_free mj v mj' v' r r' :
  0 <= mj <= 5 -> 0 <= mj' <= 5 -> in_u 64 v -> in_u 64 v' ->
  head mj v ++ r = head mj' v' ++ r' -> mj = mj' /\ v = v' /\ r = r'.
Proof.
  intros Hm Hm' Hv Hv' E.
  pose proof (parseHead_head (on (head mj v ++ r)) mj v r eq_refl Hm Hv) as H.
  rewrite (parseHead_head (on (head mj v ++ r)) mj' v' r' E Hm' Hv') in H.
  injection H as -> -> _. split_and!; [done..|]. by apply app_inv_head in E.
Qed.

Lemma concat_prefix_free {A} (f : A -> list byte) (P : A -> bool) l :
  Forall (fun a => forall a' r r', P a = true -> P a' = true -> f a ++ r = f a' ++ r' -> a = a' /\ r = r') l ->
  forall l' r r', forallb P l = true -> forallb P l' = true -> length l = length l' ->
  concat (map f l) ++ r = concat (map f l') ++ r' -> l = l' /\ r = r'.
Proof.
  induction 1 as [|a l Ha _ IH]; intros [|a' l'] r r' Hl Hl' Hlen E; try done.
  cbn [map concat forallb length] in *. rewrite <- !app_assoc in E.
  apply andb_prop in Hl as [Hpa Hl], Hl' as [Hpa' Hl'].
  destruct (Ha _ _ _ Hpa Hpa' E) as [-> E1].
  destruct (IH l' r r' Hl Hl' ltac:(lia) E1) as [-> ->]. done.
Qed.

Lemma encode_type i i' r r' :
  wf i = true -> wf i' = true -> encode i ++ r = encode i' ++ r' ->
  match item_head i, item_head i' with
  | Some (mj, v), Some (mj', v') => mj = mj' /\ v = v'
  | None, None => item_simple i = item_simple i'
  | _, _ => False
  end.
Proof.
  intros Hw Hw' E.
  pose proof (parseHead_item (on (encode i ++ r)) i r Hw eq_refl) as H.
  rewrite (parseHead_item (on (encode i ++ r)) i' r' Hw' E) in H.
  pose proof (parseSimple_item (on (encode i ++ r)) i r Hw eq_refl) as H2.
  rewrite (parseSimple_item (on (encode i ++ r)) i' r' Hw' E) in H2.
  destruct (item_head i) as [[mj v]|] eqn:E1, (item_head i') as [[mj' v']|] eqn:E2; try done.
  - injection H as -> -> _. done.
  - destruct (item_simple i) eqn:E3, (item_simple i') eqn:E4; try done; congruence.
Qed.

Lemma simple_item_inv i s : item_simple i = Some s -> simple_item s = i.
Proof. destruct i as [| | | | | |[]| |]; cbn; try done; by intros [= <-]. Qed.

Lemma app_eq_len (l1 l2 r1 r2 : list byte) : len l1 = len l2 -> l1 ++ r1 = l2 ++ r2 -> l1 = l2 /\ r1 = r2.
Proof. intros Hl E. apply app_inj_1 in E; [done|]. unfold len in Hl. lia. Qed.

Lemma encode_prefix_free i : forall i' r r',
  wf i = true -> wf i' = true -> encode i ++ r = encode i' ++ r' -> i = i' /\ r = r'.
Proof.
  induction i as [| | | |l IH|kvs IH| | |] using Item_nested_ind; intros i' r r' Hw Hw' E;
    pose proof (encode_type _ _ _ _ Hw Hw' E) as Ht.
  1-6: destruct i'; cbn [item_head] in Ht; try (by destruct Ht; discriminate); try done;
    destruct Ht as [_ Hv].
  - subst. by apply app_inv_head in E.
  - subst. by apply app_inv_head in E.
  - cbn [encode] in E. rewrite <- Hv, <- !app_assoc in E. apply app_inv_head in E.
    apply app_eq_len in E as [-> ->]; done.
  - cbn [encode] in E. rewrite <- Hv, <- !app_assoc in E. apply app_inv_head in E.
    apply app_eq_len in E as [-> ->]; done.
  - rewrite !encode_arr, <- Hv, <- !app_assoc in E. apply app_inv_head in E.
    cbn [wf] in Hw, Hw'. apply andb_prop in Hw as [_ Hw], Hw' as [_ Hw'].
    destruct (concat_prefix_free encode wf l IH l0 r r' Hw Hw' ltac:(unfold len in Hv; lia) E) as [-> ->].
    done.
  - rewrite !encode_map, <- Hv, <- !app_assoc in E. apply app_inv_head in E.
    cbn [wf] in Hw, Hw'. apply andb_prop in Hw as [_ Hw], Hw' as [_ Hw'].
    destruct (concat_prefix_free encode_pair (fun kv => in_ub 64 (fst kv) && wf (snd kv)) kvs) 
      with (l' := kvs0) (r := r) (r' := r') as [-> ->]; try done; [|unfold len in Hv; lia].
    eapply Forall_impl; [|exact IH]. intros [k i] Hi [k' i'] q q' [Hk%in_ub_spec Hwi]%andb_prop [Hk'%in_ub_spec Hwi']%andb_prop Eq.
    unfold encode_pair in Eq. cbn [fst snd] in *. rewrite <- !app_assoc in Eq.
    apply head_prefix_free in Eq as (_ & -> & Eq); [|done || lia..].
    destruct (Hi _ _ _ Hwi Hwi' Eq) as [-> ->]. done.
  - destruct i'; try done; cbn in Ht; destruct b; try destruct b0; try done; injection E as ->; done.
  - destruct i' as [| | | | | |b| |]; try done; [by destruct b|]. by injection E as ->.
  - destruct i' as [| | | | | |[]| |]; try done. injection Ht as ->. by apply app_inv_head in E.
Qed.

(** ** The loop equation: the fuel of [for_each] is never what stops it *)

Definition progress {A} (body : A -> CborReader -> decoded (A * CborReader)) : Prop :=
  (forall a r a' r', body a r = ok (a', r') -> (length (unread r') < length (unread r))%nat)
  /\ (forall a r, unread r = [] -> body a r = err Truncated).

Lemma loopN_fuel {A} (body : A -> CborReader -> decoded (A * CborReader)) : progress body ->
  forall fuel fuel' n a r, (length (unread r) <= fuel)%nat -> (length (unread r) <= fuel')%nat ->
  loopN fuel n body a r = loopN fuel' n body a r.
Proof.
  intros [Hp He] fuel. induction fuel as [|fuel IH]; intros [|fuel'] n a r Hf Hf'; cbn [loopN];
    destruct (n <=? 0); try done.
  - rewrite He; [done|]. apply nil_length_inv. lia.
  - rewrite He; [done|]. apply nil_length_inv. lia.
  - destruct (body a r) as [[a' r']|] eqn:E; [|done]. cbn [result_bind].
    apply Hp in E. apply IH; lia.
Qed.

Lemma for_each_eq {A} (body : A -> CborReader -> decoded (A * CborReader)) n a r : progress body ->
  for_each n body a r
  = if n <=? 0 then ok (a, r) else let? (a', r') := body a r in for_each (n - 1) body a' r'.
Proof.
  intros Hp. unfold for_each. rewrite (loopN_fuel body Hp _ (S (length (unread r))) n a r) by lia.
  cbn [loopN]. destruct (n <=? 0); [done|]. destruct (body a r) as [[a' r']|] eqn:E; [|done].
  cbn [result_bind]. apply (proj1 Hp) in E. apply loopN_fuel; [done|lia..].
Qed.

(** ** Any sequence of reads on any input *)

Inductive ReadOp :=
  | OpMapHeader | OpArrayHeader | OpKey | OpUint | OpInt | OpBool | OpNull | OpF32 | OpTstr | OpBstr | OpSkip.

Definition then_state {A} (x : decoded (A * CborReader)) : decoded CborReader :=
  let? (_, r') := x in ok r'.

Definition read_op (o : ReadOp) (r : CborReader) : decoded CborReader :=
  match o with
  | OpMapHeader => then_state (readMapHeader r)
  | OpArrayHeader => then_state (readArrayHeader r)
  | OpKey => then_state (readKey r)
  | OpUint => then_state (readUint r)
  | OpInt => then_state (readInt r)
  | OpBool => then_state (readBool r)
  | OpNull => then_state (readNull r)
  | OpF32 => then_state (readF32 r)
  | OpTstr => then_state (readTstr r)
  | OpBstr => then_state (readBstr r)
  | OpSkip => then_state (skipValue r)
  end.

Fixpoint read_ops (os : list ReadOp) (r : CborReader) : decoded CborReader :=
  match os with
  | [] => ok r
  | o :: os' => let? r' := read_op o r in read_ops os' r'
  end.

Definition reader_inv (r : CborReader) : Prop := (rd_pos r <= length (rd_in r))%nat /\ ready r.

Lemma unread_fits r l rest :
  (rd_pos r <= length (rd_in r))%nat -> unread r = l ++ rest -> (rd_pos r + length l <= length (rd_in r))%nat.
Proof.
  intros Hp Hu. apply (f_equal (@length byte)) in Hu. unfold unread in Hu.
  rewrite length_drop, length_app in Hu. lia.
Qed.

Definition advanced (r r' : CborReader) : Prop :=
  rd_in r' = rd_in r /\ (rd_pos r < rd_pos r')%nat /\ reader_inv r'.

Lemma Reads_advanced {A} rd (sem : nat -> Item -> decoded A) r r' :
  Reads rd sem -> reader_inv r -> then_state (rd r) = ok r' -> advanced r r'.
Proof.
  intros HR [Hp Hr] H. apply result_bind_ok in H as ([a r1] & H & [= <-]).
  destruct (reads_sound _ _ HR _ _ _ Hr H) as (i & rest & Hw & Hu & -> & _).
  pose proof (unread_fits _ _ _ Hp Hu). pose proof (encode_length_pos i).
  split_and!; cbn; [done|lia|]. split; [cbn; lia|]. by apply ready_consume.
Qed.

Lemma enter_advanced major ismap r r' :
  reader_inv r -> then_state (enterContainer major ismap r) = ok r' -> advanced r r'.
Proof.
  intros [Hp [Hl Hn]] H. apply result_bind_ok in H as ([n r1] & H & [= <-]).
  apply enterContainer_inv in H as (rest & Hu & _ & Hn32 & Hb & ->). unfold in_u in Hn32.
  pose proof (unread_fits _ _ _ Hp Hu). pose proof (head_length major n). unfold budget in Hb.
  split_and!; cbn; [done|lia|]. split; [cbn; lia|]. split; cbn [mid rd_stack].
  - apply settle_live; [destruct ismap; cbn; lia|done].
  - etransitivity; [apply settle_length|]. lia.
Qed.

Lemma readKey_advanced r r' : reader_inv r -> then_state (readKey r) = ok r' -> advanced r r'.
Proof.
  intros [Hp Hr] H. apply result_bind_ok in H as ([n r1] & H & [= <-]).
  destruct r as [inp pos [|[[] rem lk] stk]]; [unfold readKey in H; cbn [rd_stack] in H; apply result_bind_ok in H as (h & _ & H); by destruct (negb _)..| |].
  2: { unfold readKey in H. cbn [rd_stack] in H. apply result_bind_ok in H as (h & _ & H). by destruct (negb _). }
  set (r0 := {| rd_in := inp; rd_pos := pos; rd_stack := [] |}).
  assert ({| rd_in := inp; rd_pos := pos; rd_stack := {| isMap := true; remaining := rem; lastKey := lk |} :: stk |}
    = mid r0 0 (mapFrame rem lk :: stk)) as E by (unfold mid; cbn; by rewrite Nat.add_0_r).
  rewrite E in H, Hp, Hr. apply readKey_inv in H as (rest & Hu & Hk & _ & ->).
  pose proof (unread_fits _ _ _ Hp Hu). pose proof (head_length 0 n).
  cbn in *. split_and!; cbn; [done|lia|]. split; [cbn; lia|].
  destruct Hr as [Hl Hd]. cbn [mid rd_stack] in *. split; cbn [mid rd_stack].
  - apply (consumeOne_live (mapFrame rem (Some n) :: stk)). inversion Hl; subst. constructor; done.
  - etransitivity; [apply (consumeOne_length (mapFrame rem (Some n) :: stk))|]. cbn [length] in *. lia.
Qed.

Lemma read_op_advanced o r r' : reader_inv r -> read_op o r = ok r' -> advanced r r'.
Proof.
  intros Hi H. destruct o; cbn [read_op] in H.
  1, 2: by eapply enter_advanced. 1: by apply readKey_advanced.
  all: eapply Reads_advanced; [|exact Hi|exact H].
  - exact Reads_uint. - exact Reads_int. - exact Reads_bool. - exact Reads_null.
  - exact Reads_f32. - exact Reads_tstr. - exact Reads_bstr. - exact Reads_skip.
Qed.

(** C29. [skipValue] is an exact recogniser of the profile.  On the encoding of any value, followed
    by anything, it consumes precisely that value when the container depth fits and answers
    [DepthExceeded] when it does not; and whatever the bytes are, when it succeeds there is one and
    only one value of the profile whose encoding it consumed, nested within the depth bound.  So
    indefinite lengths, longer-than-necessary heads, tags, other simple values, unsorted or
    repeated keys, and truncation are never accepted. *)
Theorem skipValue_exact (inp : list byte) :
  (forall i rest, inp = encode i ++ rest -> wf i = true ->
     skipValue (CborReader_new inp)
     = if (nest i <=? kMaxDepth)%nat then ok (tt, consume (length (encode i)) (CborReader_new inp))
       else err DepthExceeded)
  /\ (forall r', skipValue (CborReader_new inp) = ok (tt, r') ->
     exists i, wf i = true /\ (nest i <= kMaxDepth)%nat /\ bytesConsumed r' = length (encode i)
       /\ take (bytesConsumed r') inp = encode i
       /\ forall i', wf i' = true -> take (length (encode i')) inp = encode i' -> i' = i).
Proof.
  split.
  - intros i rest E Hw. fold (on inp).
    rewrite (reads_item _ _ Reads_skip _ i rest (ready_on inp) Hw E).
    unfold sem_skip. rewrite budget_on. by destruct (_ <=? _)%nat.
  - intros r' H. destruct (reads_sound _ _ Reads_skip _ _ _ (ready_on inp) H)
      as (i & rest & Hw & Hu & -> & Hs).
    rewrite unread_on in Hu. exists i. unfold sem_skip in Hs. rewrite budget_on in Hs.
    destruct (Nat.leb_spec (nest i) kMaxDepth); [|done]. cbn [bytesConsumed consume rd_pos on CborReader_new Nat.add].
    split_and!; [done..| |]; [by rewrite Hu, take_app_length|].
    intros i' Hw' E'. pose proof (take_drop (length (encode i')) inp) as Ed. rewrite E', Hu in Ed.
    by destruct (encode_prefix_free i' i _ _ Hw' Hw Ed).
Qed.

Lemma skipValue_exact_witness :
  let i := IMap [(1, IArr [IUint 300; INeg 4; INull]); (9, ITstr [Byte.x61])] in
  let inp := encode i ++ [Byte.xff] in
  skipValue (CborReader_new inp)
  = (if (nest i <=? kMaxDepth)%nat then ok (tt, consume (length (encode i)) (CborReader_new inp))
     else err DepthExceeded).
Proof.
  exact (proj1 (skipValue_exact _) (IMap [(1, IArr [IUint 300; INeg 4; INull]); (9, ITstr [Byte.x61])])
           [Byte.xff] eq_refl eq_refl).
Defined.

(** Totality on hostile input: through any sequence of reads, typed or skipping, the cursor
    only moves forward and never past the span, at most four containers are open and each of them
    still has a slot to fill. *)
Theorem reader_never_overruns (inp : list byte) (os : list ReadOp) (r : CborReader) :
  read_ops os (CborReader_new inp) = ok r ->
  rd_in r = inp /\ (length os <= bytesConsumed r <= length inp)%nat
  /\ (length (rd_stack r) <= kMaxDepth)%nat /\ live (rd_stack r).
Proof.
  assert (forall os r0, reader_inv r0 -> read_ops os r0 = ok r ->
    rd_in r = rd_in r0 /\ (rd_pos r0 + length os <= rd_pos r)%nat /\ reader_inv r) as Hgen.
  { clear. induction os as [|o os IH]; intros r0 Hi H; cbn [read_ops] in H.
    - injection H as <-. cbn. split_and!; [done|lia|done].
    - apply result_bind_ok in H as (r1 & H1 & H). apply read_op_advanced in H1 as (E & Hp & Hi1); [|done].
      apply IH in H as (E2 & Hp2 & Hi2); [|done]. cbn [length]. split_and!; [congruence|lia|done]. }
  intros H. apply Hgen in H as (E & Hp & Hle & Hl & Hd); [|split; [cbn; lia|apply ready_on]].
  cbn in *. unfold bytesConsumed. rewrite E in *. split_and!; [done|lia|lia|done|done].
Qed.

Lemma reader_never_overruns_witness :
  exists r, read_ops [OpMapHeader; OpKey; OpSkip; OpKey; OpTstr]
    (CborReader_new (encode (IMap [(1, IArr [IUint 300]); (9, ITstr [Byte.x61])]))) = ok r
  /\ bytesConsumed r = 9%nat /\ rd_stack r = []
  /\ (length (rd_stack r) <= kMaxDepth)%nat.
Proof.
  eexists. split; [vm_compute; reflexivity|]. split; [reflexivity|]. split; [reflexivity|].
  refine (proj1 (proj2 (proj2 (reader_never_overruns
    (encode (IMap [(1, IArr [IUint 300]); (9, ITstr [Byte.x61])]))
    [OpMapHeader; OpKey; OpSkip; OpKey; OpTstr] _ _)))). vm_compute. reflexivity.
Defined.

(** The CBOR integer [z]. *)
Definition int_item (z : Z) : Item := if 0 <=? z then IUint z else INeg (-1 - z).

(** [readInt] returns every integer an [int64_t] can hold; the remaining integers CBOR can
    express come back with the opposite sign instead of an error. *)
Theorem readInt_exact (z : Z) (rest : list byte) (H : - 2 ^ 64 <= z < 2 ^ 64) :
  exists v r', readInt (CborReader_new (encode (int_item z) ++ rest)) = ok (v, r')
  /\ bytesConsumed r' = length (encode (int_item z))
  /\ (- 2 ^ 63 <= z < 2 ^ 63 -> v = z)
  /\ (z < - 2 ^ 63 -> 0 <= v) /\ (2 ^ 63 <= z -> v < 0).
Proof.
  assert (wf (int_item z) = true) as Hw.
  { unfold int_item. destruct (Z.leb_spec 0 z); cbn [wf]; apply in_ub_spec; unfold in_u; lia. }
  fold (on (encode (int_item z) ++ rest)).
  rewrite (reads_item _ _ Reads_int _ _ rest (ready_on _) Hw eq_refl).
  unfold int_item. destruct (Z.leb_spec 0 z); cbn [sem_int result_bind].
  all: eexists _, _; split; [reflexivity|]; split; [done|]; unfold swrap; change (64 - 1) with 63.
  all: split_and!; intros; dlia.
Qed.

Lemma readInt_exact_witness :
  exists v r', readInt (CborReader_new (encode (int_item (- 2 ^ 63 - 1)) ++ [])) = ok (v, r')
  /\ bytesConsumed r' = length (encode (int_item (- 2 ^ 63 - 1)))
  /\ (- 2 ^ 63 <= - 2 ^ 63 - 1 < 2 ^ 63 -> v = - 2 ^ 63 - 1)
  /\ (- 2 ^ 63 - 1 < - 2 ^ 63 -> 0 <= v) /\ (2 ^ 63 <= - 2 ^ 63 - 1 -> v < 0).
Proof. apply (readInt_exact (- 2 ^ 63 - 1) []). lia. Defined.
