(* ===== verification/CborWriter.v ===== *)
(** * CborWriter: wire/cbor/cbor_writer.hpp, the streaming encoder of the CBOR profile

    A writer is the destination span, a cursor, a sticky failure flag and the stack of open
    containers.  [emits] is what an operation promises: which bytes it appends and how it moves the
    stack, or failure when they do not fit; [writes_item] and [writes_fields] are the forms the
    message encoders are proved with. *)

From S2P Require Import Prelude CborItem.

Record CborWriter := { w_out : list byte; w_pos : nat; w_failed : bool; w_stack : list CborFrame }.

Definition CborWriter_new (out : list byte) : CborWriter :=
  {| w_out := out; w_pos := 0; w_failed := false; w_stack := [] |}.

Definition w_size (w : CborWriter) : nat := if w_failed w then 0 else w_pos w.
Definition failed (w : CborWriter) : bool := w_failed w.

Definition fail_writer (w : CborWriter) : CborWriter :=
  {| w_out := w_out w; w_pos := w_pos w; w_failed := true; w_stack := w_stack w |}.

Definition with_stack (stk : list CborFrame) (w : CborWriter) : CborWriter :=
  {| w_out := w_out w; w_pos := w_pos w; w_failed := w_failed w; w_stack := stk |}.

(** [if (!ensure(n)) return;] then the stores at [_out[_pos ..]] and [_pos += n]. *)
Definition ensure (n : nat) (w : CborWriter) : CborWriter * bool :=
  if w_failed w then (w, false)
  else if (length (w_out w) <? w_pos w + n)%nat then (fail_writer w, false)
  else (w, true).

Definition append (bs : list byte) (w : CborWriter) : CborWriter :=
  let '(w', fits) := ensure (length bs) w in
  if fits then {| w_out := splice (w_pos w') bs (w_out w'); w_pos := w_pos w' + length bs;
                  w_failed := w_failed w'; w_stack := w_stack w' |}
  else w'.

Definition w_consumeOne (w : CborWriter) : CborWriter := with_stack (consumeOne (w_stack w)) w.

Definition openContainer (ismap : bool) (slots : Z) (w : CborWriter) : CborWriter :=
  if w_failed w then w
  else if (kMaxDepth <? length (w_stack w) + 1)%nat then fail_writer w
  else with_stack (afterConsume ({| isMap := ismap; remaining := slots; lastKey := None |} :: w_stack w)) w.

(** [uint8_t(v >> (8 * k))] for [k = n-1 .. 0]: the big-endian stores of the head. *)
Definition be_stores (n : nat) (v : Z) : list byte :=
  map (fun i => z2b (Z.shiftr v (8 * (Z.of_nat n - 1 - Z.of_nat i)))) (seq 0 n).

Definition writeHead (major v : Z) : CborWriter -> CborWriter :=
  let ib0 := u8 (Z.shiftl major 5) in
  if v <=? 23 then append [z2b (Z.lor ib0 (u8 v))]
  else if v <=? 0xFF then append (z2b (Z.lor ib0 24) :: be_stores 1 v)
  else if v <=? 0xFFFF then append (z2b (Z.lor ib0 25) :: be_stores 2 v)
  else if v <=? 0xFFFFFFFF then append (z2b (Z.lor ib0 26) :: be_stores 4 v)
  else append (z2b (Z.lor ib0 27) :: be_stores 8 v).

Definition writeSimple (additionalInfo : Z) : CborWriter -> CborWriter :=
  append [z2b (Z.lor (u8 (Z.shiftl 7 5)) additionalInfo)].

Definition mapHeader (nPairs : Z) (w : CborWriter) : CborWriter :=
  writeHead 5 nPairs (openContainer true (u64 (nPairs * 2)) w).

Definition arrayHeader (n : Z) (w : CborWriter) : CborWriter :=
  writeHead 4 n (openContainer false n w).

Definition keyRaw (kv : Z) (w : CborWriter) : CborWriter :=
  if w_failed w then w
  else
    match w_stack w with
    | [] => fail_writer w
    | f :: stk =>
        if negb (isMap f) then fail_writer w
        else if match lastKey f with Some l => kv <=? l | None => false end then fail_writer w
        else w_consumeOne (writeHead 0 kv (with_stack (mark_key kv f :: stk) w))
    end.

Definition key := keyRaw.

Definition uintVal (v : Z) (w : CborWriter) : CborWriter := w_consumeOne (writeHead 0 v w).

Definition intVal (v : Z) (w : CborWriter) : CborWriter :=
  w_consumeOne (if 0 <=? v then writeHead 0 (u64 v) w else writeHead 1 (u64 (-1 - v)) w).

Definition boolVal (v : bool) (w : CborWriter) : CborWriter :=
  w_consumeOne (writeSimple (if v then 21 else 20) w).

Definition nullVal (w : CborWriter) : CborWriter := w_consumeOne (writeSimple 22 w).

(** The argument is the bit pattern of the binary32. *)
Definition f32Val (bits : Z) (w : CborWriter) : CborWriter :=
  let '(w', fits) := ensure 5 w in
  if fits then w_consumeOne (append (z2b 0xFA :: be_stores 4 bits) w') else w'.

Definition stringVal (major : Z) (s : list byte) (w : CborWriter) : CborWriter :=
  let w1 := writeHead major (len s) w in
  if w_failed w1 then fail_writer w1
  else
    let '(w2, fits) := ensure (length s) w1 in
    if fits then w_consumeOne (append s w2) else fail_writer w2.

Definition tstrVal := stringVal 3.
Definition bstrVal := stringVal 2.

(** [w.f().g()]: the writer's methods return the writer. *)
Definition w_then (f g : CborWriter -> CborWriter) (w : CborWriter) : CborWriter := g (f w).
Notation "f ;;; g" := (w_then f g) (at level 62, right associativity) : valence_scope.

(** [if (c) { f }] in an encoder. *)
Definition w_if (c : bool) (f : CborWriter -> CborWriter) (w : CborWriter) : CborWriter :=
  if c then f w else w.

(** An optional field: [if (m.has_x) w.key(k).xVal(m.x)]. *)
Definition w_opt {A} (o : option A) (f : A -> CborWriter -> CborWriter) (w : CborWriter) : CborWriter :=
  match o with Some a => f a w | None => w end.

(** [for (x : l) { f x }] in an encoder. *)
Fixpoint w_each {A} (f : A -> CborWriter -> CborWriter) (l : list A) (w : CborWriter) : CborWriter :=
  match l with [] => w | x :: t => w_each f t (f x w) end.

(** What an encoder hands back: the span as it left it, and [w.size()]. *)
Definition finish (w : CborWriter) : list byte * nat := (w_out w, w_size w).

(** ** What an operation promises *)

(** The writer after [bs] was appended to [pre] bytes of [out], or a failed one. *)
Definition wrote (out pre : list byte) (stk : list CborFrame) : CborWriter :=
  {| w_out := pre ++ drop (length pre) out; w_pos := length pre; w_failed := false; w_stack := stk |}.

Definition broken (n : nat) (w : CborWriter) : Prop := w_failed w = true /\ length (w_out w) = n.

Record emits (f : CborWriter -> CborWriter) (bs : list byte) (stk stk' : list CborFrame) : Prop := {
  emits_broken w n : broken n w -> broken n (f w);
  emits_fits out pre : (length pre + length bs <= length out)%nat ->
    f (wrote out pre stk) = wrote out (pre ++ bs) stk';
  emits_full out pre : (length pre <= length out < length pre + length bs)%nat ->
    broken (length out) (f (wrote out pre stk))
}.

Lemma emits_id stk : emits (fun w => w) [] stk stk.
Proof.
  split; [done| |].
  - intros. by rewrite app_nil_r.
  - cbn. lia.
Qed.

Lemma emits_seq f g bs bs' s1 s2 s3 :
  emits f bs s1 s2 -> emits g bs' s2 s3 -> emits (f ;;; g) (bs ++ bs') s1 s3.
Proof.
  intros [F1 F2 F3] [G1 G2 G3]. unfold w_then. split.
  - eauto.
  - intros out pre. rewrite length_app. intros H. rewrite F2 by lia.
    rewrite G2 by (rewrite length_app; lia). by rewrite app_assoc.
  - intros out pre. rewrite length_app. intros H.
    destruct (le_lt_dec (length pre + length bs) (length out)).
    + rewrite F2 by lia. apply G3. rewrite length_app. lia.
    + apply G1, F3. lia.
Qed.

Lemma emits_eq f bs bs' s s1 s2 : emits f bs s s1 -> bs = bs' -> s1 = s2 -> emits f bs' s s2.
Proof. by intros H <- <-. Qed.

Lemma broken_fail n w : length (w_out w) = n -> broken n (fail_writer w).
Proof. done. Qed.

Lemma broken_with_stack n s w : broken n w -> broken n (with_stack s w).
Proof. done. Qed.

Lemma wrote_length out pre stk : (length pre <= length out)%nat -> length (w_out (wrote out pre stk)) = length out.
Proof. intros. cbn. rewrite length_app, length_drop. lia. Qed.

Lemma emits_append bs stk : emits (append bs) bs stk stk.
Proof.
  split.
  - intros w n [Hf Ho]. unfold append, ensure. rewrite Hf. done.
  - intros out pre H. unfold append, ensure. cbn [wrote w_failed w_out w_pos w_stack].
    rewrite (proj2 (Nat.ltb_ge _ _)) by (rewrite length_app, length_drop; lia). unfold wrote. cbn [w_out w_pos w_failed w_stack].
    f_equal; [|by rewrite length_app]. unfold splice.
    rewrite take_app_length, drop_app_ge, drop_drop, length_app by lia.
    replace (length pre + (length pre + length bs - length pre))%nat with (length pre + length bs)%nat by lia.
    by rewrite <- app_assoc.
  - intros out pre H. unfold append, ensure. cbn [wrote w_failed w_out w_pos w_stack].
    rewrite (proj2 (Nat.ltb_lt _ _)) by (rewrite length_app, length_drop; lia).
    apply broken_fail. apply wrote_length. lia.
Qed.

(** ** The operations *)

Lemma be_stores_eq n v : (n <= 8)%nat -> be_stores n v = be_bytes n v.
Proof.
  intros Hn. unfold be_stores, be_bytes.
  destruct n as [|[|[|[|[|[|[|[|[|n]]]]]]]]]; [..|lia].
  all: cbn [seq map le_bytes rev app]; rewrite ?Z.shiftr_div_pow2 by lia; rewrite ?Z.div_div by lia.
  all: cbn -[z2b Z.div]; rewrite ?Z.div_1_r; reflexivity.
Qed.

Lemma writeHead_eq mj v : 0 <= mj <= 5 -> 0 <= v -> writeHead mj v = append (head mj v).
Proof.
  intros Hm Hv. unfold writeHead, head. cbv zeta. rewrite !be_stores_eq by lia.
  assert (u8 (Z.shiftl mj 5) = Z.shiftl mj 5) as ->.
  { apply wrap_small. rewrite Z.shiftl_mul_pow2 by lia. unfold in_u. lia. }
  destruct (Z.leb_spec v 23).
  - rewrite wrap_small by (unfold in_u; lia). done.
  - by repeat case_match.
Qed.

Lemma emits_head mj v stk : 0 <= mj <= 5 -> 0 <= v -> emits (writeHead mj v) (head mj v) stk stk.
Proof. intros. rewrite writeHead_eq by done. apply emits_append. Qed.

Lemma emits_consume f bs s s' : emits f bs s s' -> emits (fun w => w_consumeOne (f w)) bs s (consumeOne s').
Proof.
  intros [F1 F2 F3]. split.
  - intros w n H. apply broken_with_stack. eauto.
  - intros out pre H. by rewrite F2.
  - intros out pre H. apply broken_with_stack. eauto.
Qed.

(** An operation that writes one whole item. *)
Definition writes_item (f : CborWriter -> CborWriter) (i : Item) : Prop :=
  forall stk, live stk -> (length stk + nest i <= kMaxDepth)%nat -> emits f (encode i) stk (consumeOne stk).

Lemma writes_uint v : in_u 64 v -> writes_item (uintVal v) (IUint v).
Proof. intros [Hv _] stk _ _. apply emits_consume, emits_head; lia. Qed.

Lemma writes_int z :
  - 2 ^ 63 <= z < 2 ^ 63 -> writes_item (intVal z) (if 0 <=? z then IUint z else INeg (-1 - z)).
Proof.
  intros Hz stk _ _. unfold intVal. destruct (Z.leb_spec 0 z); apply emits_consume; cbn [encode].
  - rewrite wrap_small by (unfold in_u; lia). apply emits_head; lia.
  - rewrite wrap_small by (unfold in_u; lia). apply emits_head; lia.
Qed.

Lemma writes_bool v : writes_item (boolVal v) (IBool v).
Proof. intros stk _ _. apply emits_consume. destruct v; apply emits_append. Qed.

Lemma writes_null : writes_item nullVal INull.
Proof. intros stk _ _. apply emits_consume, emits_append. Qed.

Lemma ensure_wrote n out pre stk :
  (length pre <= length out)%nat ->
  ensure n (wrote out pre stk)
  = if (length out <? length pre + n)%nat then (fail_writer (wrote out pre stk), false) else (wrote out pre stk, true).
Proof.
  intros H. unfold ensure. cbn [wrote w_failed w_out w_pos]. by rewrite length_app, length_drop,
    Nat.add_comm, Nat.sub_add by lia.
Qed.

Lemma writes_f32 bits : in_u 32 bits -> writes_item (f32Val bits) (IF32 bits).
Proof.
  intros Hb stk _ _. cbn [encode]. rewrite <- be_stores_eq by lia.
  pose proof (emits_append (z2b 0xFA :: be_stores 4 bits) stk) as [A1 A2 A3].
  assert (length (z2b 0xFA :: be_stores 4 bits) = 5%nat) as Hl by done.
  set (bs := z2b 0xFA :: be_stores 4 bits) in *. unfold f32Val. fold bs. clearbody bs. split.
  - intros w n [Hf Ho]. unfold ensure. by rewrite Hf.
  - intros out pre H. rewrite ensure_wrote, (proj2 (Nat.ltb_ge _ _)), A2 by lia. done.
  - intros out pre H. rewrite ensure_wrote, (proj2 (Nat.ltb_lt _ _)) by lia.
    apply broken_fail, wrote_length. lia.
Qed.

Lemma writes_string mj s stk :
  0 <= mj <= 5 -> emits (stringVal mj s) (head mj (len s) ++ s) stk (consumeOne stk).
Proof.
  intros Hm. pose proof (emits_head mj (len s) stk Hm (len_nonneg s)) as [H1 H2 H3].
  pose proof (emits_append s stk) as [A1 A2 A3]. split.
  - intros w n Hw. unfold stringVal. specialize (H1 w n Hw) as [E Ho]. by rewrite E.
  - intros out pre. rewrite length_app. intros H. unfold stringVal. rewrite H2 by lia. cbn [wrote w_failed].
    fold (wrote out (pre ++ head mj (len s)) stk).
    rewrite ensure_wrote by (rewrite length_app; lia).
    rewrite (proj2 (Nat.ltb_ge _ _)) by (rewrite length_app; lia). rewrite A2 by (rewrite length_app; lia).
    rewrite <- app_assoc. reflexivity.
  - intros out pre. rewrite length_app. intros H. unfold stringVal.
    destruct (le_lt_dec (length pre + length (head mj (len s))) (length out)).
    + rewrite H2 by lia. cbn [wrote w_failed]. fold (wrote out (pre ++ head mj (len s)) stk).
      rewrite ensure_wrote by (rewrite length_app; lia).
      rewrite (proj2 (Nat.ltb_lt _ _)) by (rewrite length_app; lia).
      apply broken_fail. apply wrote_length. rewrite length_app. lia.
    + destruct (H3 out pre) as [E Ho]; [lia|]. by rewrite E.
Qed.

Lemma writes_tstr s : writes_item (tstrVal s) (ITstr s).
Proof. intros stk _ _. by apply writes_string. Qed.

Lemma writes_bstr s : writes_item (bstrVal s) (IBstr s).
Proof. intros stk _ _. by apply writes_string. Qed.

(** ** Maps and arrays *)

Lemma emits_open ismap slots stk :
  (length stk < kMaxDepth)%nat ->
  emits (openContainer ismap slots) [] stk
    (settle {| isMap := ismap; remaining := slots; lastKey := None |} stk).
Proof.
  intros Hd. split.
  - intros w n [Hf Ho]. unfold openContainer. by rewrite Hf.
  - intros out pre _. unfold openContainer. cbn [wrote w_failed w_stack].
    rewrite (proj2 (Nat.ltb_ge _ _)) by lia. by rewrite app_nil_r.
  - cbn. lia.
Qed.

Lemma emits_mapHeader n stk :
  in_u 32 n -> (length stk < kMaxDepth)%nat ->
  emits (mapHeader n) (head 5 n) stk (settle (mapFrame (2 * n) None) stk).
Proof.
  intros Hn Hd. unfold in_u in Hn. apply (emits_seq (openContainer true (u64 (n * 2))) (writeHead 5 n) [] (head 5 n) _ (settle (mapFrame (2 * n) None) stk)).
  - rewrite wrap_small, Z.mul_comm by (unfold in_u; lia). by apply emits_open.
  - apply emits_head; lia.
Qed.

Lemma emits_arrayHeader n stk :
  in_u 32 n -> (length stk < kMaxDepth)%nat ->
  emits (arrayHeader n) (head 4 n) stk (settle (arrFrame n) stk).
Proof.
  intros Hn Hd. unfold in_u in Hn. apply (emits_seq (openContainer false n) (writeHead 4 n) [] (head 4 n) _ (settle (arrFrame n) stk)).
  - by apply emits_open.
  - apply emits_head; lia.
Qed.

Lemma emits_key k rem lk stk :
  in_u 64 k -> above lk [k] = true ->
  emits (key k) (head 0 k) (mapFrame rem lk :: stk) (consumeOne (mapFrame rem (Some k) :: stk)).
Proof.
  intros [Hk _] Ha. pose proof (emits_head 0 k (mapFrame rem (Some k) :: stk) ltac:(lia) Hk) as [H1 H2 H3].
  assert ((match lk with Some l => k <=? l | None => false end) = false) as Hlt.
  { destruct lk as [l|]; [|done]. cbn [above] in Ha. rewrite andb_true_r in Ha.
    apply Z.ltb_lt in Ha. apply Z.leb_gt. lia. }
  split.
  - intros w n [Hf Ho]. unfold key, keyRaw. by rewrite Hf.
  - intros out pre H. unfold key, keyRaw. cbn [wrote w_failed w_stack mapFrame isMap negb lastKey].
    rewrite Hlt. change (with_stack _ _) with (wrote out pre (mapFrame rem (Some k) :: stk)).
    by rewrite H2.
  - intros out pre H. unfold key, keyRaw. cbn [wrote w_failed w_stack mapFrame isMap negb lastKey].
    rewrite Hlt. change (with_stack _ _) with (wrote out pre (mapFrame rem (Some k) :: stk)).
    apply broken_with_stack. by apply H3.
Qed.

(** An operation that writes the key-value pairs [kvs] into the open map. *)
Definition writes_fields (f : CborWriter -> CborWriter) (kvs : list (Z * Item)) : Prop :=
  forall stk rem lk,
    live stk -> Forall (fun kv => (length stk + 1 + nest (snd kv) <= kMaxDepth)%nat) kvs ->
    above lk (map fst kvs) = true -> 2 * len kvs <= rem ->
    emits f (concat (map encode_pair kvs)) (settle (mapFrame rem lk) stk)
      (settle (mapFrame (rem - 2 * len kvs) (reached lk (map fst kvs))) stk).

Lemma fields_nil : writes_fields (fun w => w) [].
Proof.
  intros stk rem lk _ _ _ _. eapply emits_eq; [apply emits_id|done|].
  cbn [map reached]. change (len []) with 0. by rewrite Z.sub_0_r.
Qed.

Lemma fields_one k f i : in_u 64 k -> writes_item f i -> writes_fields (key k ;;; f) [(k, i)].
Proof.
  intros Hk Hf stk rem lk Hl Hn Ha Hrem. cbn [map fst] in Ha.
  change (len [(k, i)]) with 1 in *. apply Forall_cons_1 in Hn as [Hn _]. cbn [snd] in Hn.
  rewrite settle_pos by (cbn; lia).
  cbn [map concat encode_pair]. rewrite app_nil_r. unfold encode_pair. cbn [fst snd].
  eapply emits_seq; [by apply emits_key|].
  rewrite consumeOne_cons by (cbn; lia). cbn [isMap remaining lastKey mapFrame].
  change {| isMap := true; remaining := rem - 1; lastKey := Some k |} with (mapFrame (rem - 1) (Some k)).
  rewrite settle_pos by (cbn; lia).
  eapply emits_eq; [apply Hf|done|].
  - constructor; [cbn; lia|done].
  - cbn [length]. lia.
  - rewrite consumeOne_cons by (cbn; lia). cbn [reached map fst]. unfold mapFrame. cbn. do 2 f_equal. lia.
Qed.

Lemma fields_seq f g kvs kvs' :
  writes_fields f kvs -> writes_fields g kvs' -> writes_fields (f ;;; g) (kvs ++ kvs').
Proof.
  intros Hf Hg stk rem lk Hl Hn Ha Hrem. rewrite map_app, above_app in Ha.
  apply andb_prop in Ha as [Ha Ha']. apply Forall_app in Hn as [Hn Hn'].
  rewrite len_app in *. pose proof (len_nonneg kvs'). rewrite map_app, concat_app.
  eapply emits_seq; [apply Hf; first [done|lia]|].
  eapply emits_eq; [apply Hg; first [done|lia]|done|].
  rewrite map_app, reached_app. do 2 f_equal. lia.
Qed.

Lemma fields_if c f kvs : writes_fields f kvs -> writes_fields (w_if c f) (if c then kvs else []).
Proof. destruct c; [done|]. intros _. apply fields_nil. Qed.

Lemma fields_opt {A} (o : option A) f (kvs : A -> list (Z * Item)) :
  (forall a, o = Some a -> writes_fields (f a) (kvs a)) ->
  writes_fields (w_opt o f) (match o with Some a => kvs a | None => [] end).
Proof. destruct o as [a|]; intros H; [by apply H|apply fields_nil]. Qed.

Lemma fields_each {A} (f : A -> CborWriter -> CborWriter) (kvs : A -> list (Z * Item)) l :
  Forall (fun a => writes_fields (f a) (kvs a)) l ->
  writes_fields (w_each f l) (concat (map kvs l)).
Proof.
  induction 1 as [|a l Ha _ IH]; cbn [w_each map concat]; [apply fields_nil|].
  by apply (fields_seq (f a) (w_each f l)).
Qed.

Lemma fields_ext f g kvs kvs' : writes_fields f kvs -> (forall w, g w = f w) -> kvs = kvs' -> writes_fields g kvs'.
Proof.
  intros H E <- stk rem lk H1 H2 H3 H4. destruct (H stk rem lk H1 H2 H3 H4) as [F1 F2 F3].
  split; intros; rewrite E; eauto.
Qed.

Lemma list_max_le {A} (f : A -> nat) l m : (list_max (map f l) <= m)%nat <-> Forall (fun a => (f a <= m)%nat) l.
Proof.
  induction l as [|a l IH]; cbn [map].
  - split; [constructor|cbn; lia].
  - unfold list_max in *. cbn [fold_right]. rewrite Forall_cons_iff, <- IH. lia.
Qed.

Lemma writes_map n f kvs :
  n = len kvs -> in_u 32 n -> above None (map fst kvs) = true -> writes_fields f kvs ->
  writes_item (mapHeader n ;;; f) (IMap kvs).
Proof.
  intros -> Hn Ha Hf stk Hl Hd. cbn [nest] in Hd. rewrite encode_map.
  eapply (emits_seq (mapHeader (len kvs)) f); [apply emits_mapHeader; [done|lia]|].
  eapply emits_eq; [apply Hf; first [done|lia|idtac]|done|].
  - apply Forall_forall. intros kv Hkv.
    assert (Forall (fun kv => (nest (snd kv) <= list_max (map (fun kv => nest (snd kv)) kvs))%nat) kvs) as HF
      by (by apply (list_max_le (fun kv => nest (snd kv)))).
    eapply Forall_forall in HF; [|exact Hkv]. cbn in HF. lia.
  - rewrite settle_zero; [done|]. cbn. lia.
Qed.

(** The elements of an open array. *)
Definition writes_items (f : CborWriter -> CborWriter) (l : list Item) : Prop :=
  forall stk rem,
    live stk -> Forall (fun i => (length stk + 1 + nest i <= kMaxDepth)%nat) l -> len l <= rem ->
    emits f (concat (map encode l)) (settle (arrFrame rem) stk) (settle (arrFrame (rem - len l)) stk).

Lemma items_each {A} (f : A -> CborWriter -> CborWriter) (item : A -> Item) l :
  Forall (fun a => writes_item (f a) (item a)) l -> writes_items (w_each f l) (map item l).
Proof.
  induction 1 as [|a l Ha _ IH]; intros stk rem Hl Hn Hrem; cbn [w_each map concat] in *.
  - eapply emits_eq; [apply emits_id|done|]. change (len []) with 0. by rewrite Z.sub_0_r.
  - apply Forall_cons_1 in Hn as [Hn Hn']. rewrite len_cons in *. pose proof (len_nonneg (map item l)).
    rewrite settle_pos by (cbn; lia).
    eapply (emits_seq (f a) (w_each f l)).
    + apply Ha; [constructor; [cbn; lia|done]|cbn [length]; lia].
    + rewrite consumeOne_cons by (cbn; lia). cbn [isMap remaining lastKey arrFrame].
      change {| isMap := false; remaining := rem - 1; lastKey := None |} with (arrFrame (rem - 1)).
      eapply emits_eq; [apply IH; first [done|lia]|done|]. do 2 f_equal. lia.
Qed.

Lemma writes_array n f l :
  n = len l -> in_u 32 n -> writes_items f l -> writes_item (arrayHeader n ;;; f) (IArr l).
Proof.
  intros -> Hn Hf stk Hl Hd. cbn [nest] in Hd. rewrite encode_arr.
  eapply (emits_seq (arrayHeader (len l)) f); [apply emits_arrayHeader; [done|lia]|].
  eapply emits_eq; [apply Hf; first [done|lia|idtac]|done|].
  - apply Forall_forall. intros i Hi.
    assert (Forall (fun i => (nest i <= list_max (map nest l))%nat) l) as HF by (by apply (list_max_le nest)).
    eapply Forall_forall in HF; [|exact Hi]. cbn in HF. lia.
  - rewrite settle_zero; [done|]. cbn. lia.
Qed.

(** A whole message: all of its bytes, or size 0 and a span of the same length. *)
Definition encodes (enc : list byte -> list byte * nat) (i : Item) : Prop :=
  forall out,
    if (length (encode i) <=? length out)%nat
    then enc out = (encode i ++ drop (length (encode i)) out, length (encode i))
    else snd (enc out) = 0%nat /\ length (fst (enc out)) = length out.

Lemma encodes_item f i :
  writes_item f i -> (nest i <= kMaxDepth)%nat -> encodes (fun out => finish (f (CborWriter_new out))) i.
Proof.
  intros Hf Hn out. destruct (Hf [] ltac:(constructor) Hn) as [F1 F2 F3].
  change (CborWriter_new out) with (wrote out [] []). destruct (Nat.leb_spec (length (encode i)) (length out)).
  - rewrite F2 by done. done.
  - destruct (F3 out []) as [E Ho]; [cbn; lia|]. unfold finish, w_size. by rewrite E.
Qed.

(** A count check before the writer is even made. *)
Lemma encodes_guard (c : bool) (enc : list byte -> list byte * nat) i :
  c = false -> encodes enc i -> encodes (fun out => if c then (out, 0%nat) else enc out) i.
Proof. by intros ->. Qed.

(** ** Writing a whole value, and writing anything at all *)

Fixpoint write_value (i : Item) : CborWriter -> CborWriter :=
  match i with
  | IUint v => uintVal v
  | INeg n => intVal (-1 - n)
  | IBstr b => bstrVal b
  | ITstr s => tstrVal s
  | IArr l => arrayHeader (len l) ;;; fun w => fold_left (fun w x => x w) (map write_value l) w
  | IMap kvs =>
      mapHeader (len kvs) ;;;
      fun w => fold_left (fun w x => x w) (map (fun kv => key (fst kv) ;;; write_value (snd kv)) kvs) w
  | IBool b => boolVal b
  | INull => nullVal
  | IF32 bits => f32Val bits
  end.

(** Negative integers the writer's [int64_t] argument can carry. *)
Fixpoint int64_item (i : Item) : bool :=
  match i with
  | INeg n => n <? 2 ^ 63
  | IArr l => forallb int64_item l
  | IMap kvs => forallb (fun kv => int64_item (snd kv)) kvs
  | _ => true
  end.

Lemma fold_w_each {A} (f : A -> CborWriter -> CborWriter) l w :
  fold_left (fun w x => x w) (map f l) w = w_each f l w.
Proof. revert w. induction l as [|a l IH]; intros w; [done|]. apply IH. Qed.

Lemma emits_ext f g bs s s' : (forall w, g w = f w) -> emits f bs s s' -> emits g bs s s'.
Proof. intros E [F1 F2 F3]. split; intros; rewrite E; eauto. Qed.

Lemma writes_value i : wf i = true -> int64_item i = true -> writes_item (write_value i) i.
Proof.
  induction i as [| | | |l IH|kvs IH| | |] using Item_nested_ind; cbn [wf int64_item write_value]; intros Hw Hi.
  - apply writes_uint. by apply in_ub_spec.
  - apply in_ub_spec in Hw. apply Z.ltb_lt in Hi. unfold in_u in Hw.
    pose proof (writes_int (-1 - v) ltac:(lia)) as H. rewrite (proj2 (Z.leb_gt _ _)) in H by lia.
    by replace (-1 - (-1 - v)) with v in H by lia.
  - apply writes_bstr.
  - apply writes_tstr.
  - apply andb_prop in Hw as [Hn%in_ub_spec Hw].
    assert (writes_item (arrayHeader (len l) ;;; w_each write_value l) (IArr (map (fun i => i) l))) as H.
    { apply writes_array; [by rewrite map_id|done|]. apply items_each.
      rewrite forallb_forall in Hw, Hi. apply Forall_forall. intros i Hin.
      eapply Forall_forall in IH; [|exact Hin]. auto. }
    rewrite map_id in H. intros stk Hl Hd. eapply emits_ext; [|by apply H]. intros w. apply fold_w_each.
  - apply andb_prop in Hw as [[Hn%in_ub_spec Ha]%andb_prop Hw].
    assert (writes_item (mapHeader (len kvs) ;;; w_each (fun kv => key (fst kv) ;;; write_value (snd kv)) kvs) (IMap kvs)) as H.
    { apply writes_map; [done|done|done|]. 
      replace kvs with (concat (map (fun kv => [(fst kv, snd kv)]) kvs)) at 2
        by (clear; induction kvs as [|[k i] kvs IHk]; [done|]; cbn; by rewrite IHk).
      apply fields_each. rewrite forallb_forall in Hw, Hi. apply Forall_forall. intros [k i] Hin.
      eapply Forall_forall in IH; [|exact Hin].
      specialize (Hw _ Hin). apply andb_prop in Hw as [Hk%in_ub_spec Hwi].
      apply fields_one; [done|]. apply IH; [done|]. by apply (Hi (k, i)). }
    intros stk Hl Hd. eapply emits_ext; [|by apply H]. intros w. apply fold_w_each.
  - apply writes_bool.
  - apply writes_null.
  - apply writes_f32. by apply in_ub_spec.
Qed.

Inductive WriteOp :=
  | WMap (n : Z) | WArr (n : Z) | WKey (k : Z) | WUint (v : Z) | WInt (v : Z) | WBool (b : bool)
  | WNull | WF32 (bits : Z) | WTstr (s : list byte) | WBstr (s : list byte).

Definition write_op (o : WriteOp) : CborWriter -> CborWriter :=
  match o with
  | WMap n => mapHeader n | WArr n => arrayHeader n | WKey k => key k | WUint v => uintVal v
  | WInt v => intVal v | WBool b => boolVal b | WNull => nullVal | WF32 bits => f32Val bits
  | WTstr s => tstrVal s | WBstr s => bstrVal s
  end.

(** What every operation keeps: the span's length, the bytes past the cursor, a sticky failure. *)
Definition within (w0 w : CborWriter) : Prop :=
  length (w_out w) = length (w_out w0) /\ (w_pos w0 <= w_pos w <= length (w_out w))%nat
  /\ drop (w_pos w) (w_out w) = drop (w_pos w) (w_out w0)
  /\ take (w_pos w0) (w_out w) = take (w_pos w0) (w_out w0)
  /\ (w_failed w0 = true -> w_failed w = true).

Lemma within_refl w : (w_pos w <= length (w_out w))%nat -> within w w.
Proof. intros. unfold within. split_and!; try done; lia. Qed.

Lemma within_trans a b c : within a b -> within b c -> within a c.
Proof.
  intros (L1 & P1 & D1 & T1 & F1) (L2 & P2 & D2 & T2 & F2). unfold within. split_and!; try lia; auto.
  - rewrite D2. replace (w_pos c) with (w_pos b + (w_pos c - w_pos b))%nat by lia.
    by rewrite <- !drop_drop, D1.
  - replace (w_pos a) with (w_pos a `min` w_pos b)%nat by lia.
    by rewrite <- !take_take, T2, !take_take, Nat.min_l by lia.
Qed.

Lemma within_with_stack a s b : within a b -> within a (with_stack s b).
Proof. done. Qed.

Lemma within_fail a b : within a b -> within a (fail_writer b).
Proof. intros (?&?&?&?&?). unfold within. cbn. split_and!; try done; lia. Qed.

Lemma within_append bs w : (w_pos w <= length (w_out w))%nat -> within w (append bs w).
Proof.
  intros H. unfold append, ensure. destruct (w_failed w) eqn:E; [by apply within_refl|].
  destruct (Nat.ltb_spec (length (w_out w)) (w_pos w + length bs)).
  - by apply within_fail, within_refl.
  - unfold within. cbn. rewrite length_splice by lia. split_and!; try done; try lia.
    + by apply drop_splice.
    + by apply take_splice_before.
Qed.

Lemma within_writeHead mj v w : (w_pos w <= length (w_out w))%nat -> within w (writeHead mj v w).
Proof. intros H. unfold writeHead. cbv zeta. repeat case_match; by apply within_append. Qed.

Lemma within_open b n w : (w_pos w <= length (w_out w))%nat -> within w (openContainer b n w).
Proof.
  intros H. unfold openContainer. repeat case_match;
    eauto using within_refl, within_fail, within_with_stack.
Qed.

Lemma within_pos a b : within a b -> (w_pos b <= length (w_out b))%nat.
Proof. intros (?&?&?). lia. Qed.

Lemma within_ensure n w : (w_pos w <= length (w_out w))%nat -> within w (fst (ensure n w)).
Proof. intros H. unfold ensure. repeat case_match; cbn; eauto using within_refl, within_fail. Qed.

Lemma within_write_op o w : (w_pos w <= length (w_out w))%nat -> within w (write_op o w).
Proof.
  intros H. destruct o; cbn [write_op].
  1, 2: (eapply within_trans; [by apply within_open|]);
    by apply within_writeHead, (within_pos w), within_open.
  - unfold key, keyRaw. repeat case_match; eauto using within_refl, within_fail.
    all: apply within_with_stack; by apply (within_writeHead 0 k (with_stack _ w)).
  - apply within_with_stack. by apply within_writeHead.
  - apply within_with_stack. case_match; by apply within_writeHead.
  - apply within_with_stack. by apply within_append.
  - apply within_with_stack. by apply within_append.
  - unfold f32Val. pose proof (within_ensure 5 w H) as He. destruct (ensure 5 w) as [w' []]; [|done].
    cbn [fst] in He. eapply within_trans; [exact He|]. apply within_with_stack, within_append.
    by apply within_pos in He.
  - pose proof (within_writeHead 3 (len s) w H) as Hh. unfold tstrVal, stringVal.
    case_match; [by apply within_fail|]. eapply within_trans; [exact Hh|]. apply within_pos in Hh.
    pose proof (within_ensure (length s) _ Hh) as He. destruct (ensure (length s) _) as [w' []]; cbn [fst] in He.
    + eapply within_trans; [exact He|]. apply within_with_stack, within_append. by apply within_pos in He.
    + by apply within_fail.
  - pose proof (within_writeHead 2 (len s) w H) as Hh. unfold bstrVal, stringVal.
    case_match; [by apply within_fail|]. eapply within_trans; [exact Hh|]. apply within_pos in Hh.
    pose proof (within_ensure (length s) _ Hh) as He. destruct (ensure (length s) _) as [w' []]; cbn [fst] in He.
    + eapply within_trans; [exact He|]. apply within_with_stack, within_append. by apply within_pos in He.
    + by apply within_fail.
Qed.

Lemma within_ops os w : (w_pos w <= length (w_out w))%nat -> within w (fold_left (fun w o => write_op o w) os w).
Proof.
  revert w. induction os as [|o os IH]; intros w H; cbn [fold_left]; [by apply within_refl|].
  pose proof (within_write_op o w H) as Ho. eapply within_trans; [exact Ho|].
  by apply IH, (within_pos w).
Qed.

(** C30. The writer produces the one encoding of the value it is driven with, or reports size 0 when
    the span is too small; in particular a value nested at most four deep, with ascending keys,
    never trips the failure flag by itself. *)
Theorem writer_exact (i : Item) (out : list byte)
  (Hwf : wf i = true) (Hint : int64_item i = true) (Hnest : (nest i <= kMaxDepth)%nat) :
  (if (length (encode i) <=? length out)%nat
   then finish (write_value i (CborWriter_new out))
        = (encode i ++ drop (length (encode i)) out, length (encode i))
   else w_size (write_value i (CborWriter_new out)) = 0%nat).
Proof.
  pose proof (encodes_item _ _ (writes_value i Hwf Hint) Hnest out) as H.
  destruct (_ <=? _)%nat; [done|by destruct H].
Qed.

Lemma writer_exact_witness :
  let i := IMap [(1, IArr [IUint 300; INeg 4; INull]); (9, ITstr [Byte.x61])] in
  let out := replicate 12 Byte.x00 in
  if (length (encode i) <=? length out)%nat
  then finish (write_value i (CborWriter_new out)) = (encode i ++ drop (length (encode i)) out, length (encode i))
  else w_size (write_value i (CborWriter_new out)) = 0%nat.
Proof.
  apply (writer_exact (IMap [(1, IArr [IUint 300; INeg 4; INull]); (9, ITstr [Byte.x61])])
    (replicate 12 Byte.x00)); [reflexivity|reflexivity|cbn; unfold kMaxDepth; lia].
Defined.

(** Any sequence of writes, sensible or not, stays inside the span: its length never changes,
    the reported size never exceeds it, the bytes beyond the cursor are those of the caller, and a
    failure is never forgotten. *)
Theorem writer_stays_inside (out : list byte) (os os' : list WriteOp) :
  let w := fold_left (fun w o => write_op o w) os (CborWriter_new out) in
  let w' := fold_left (fun w o => write_op o w) os' w in
  length (w_out w) = length out /\ (w_size w <= length out)%nat
  /\ drop (w_pos w) (w_out w) = drop (w_pos w) out
  /\ (w_failed w = true -> w_size w' = 0%nat)
  /\ (w_failed w' = false -> take (w_size w) (w_out w') = take (w_size w) (w_out w)).
Proof.
  intros w w'. destruct (within_ops os (CborWriter_new out) ltac:(cbn; lia)) as (L & P & D & _ & F).
  fold w in L, P, D, F. destruct (within_ops os' w ltac:(lia)) as (L' & P' & D' & T' & F'). fold w' in L', P', D', T', F'.
  cbn in *. unfold w_size. split_and!; [done|destruct (w_failed w); lia|done| |].
  - intros E. by rewrite F'.
  - intros E. destruct (w_failed w) eqn:Ew; [by rewrite !take_0|]. done.
Qed.
