(* ===== verification/CborMessage.v ===== *)
(** * CborMessage: how a control message is read and written

    Every decoder under wire/messages/ has one shape: read the map header, then for each pair read
    the key and dispatch on it, skipping the keys it does not know.  [ItemReader] bundles such a
    reader with its meaning on abstract items and the proof that the two agree, so that a decoder
    built from these combinators is proved correct by construction: [run] is the code, [meaning]
    the specification.  [CborMessage] is the contract of a finished codec. *)

From S2P Require Import Prelude CborItem CborReader CborWriter.

(** An optional field the C++ writes only when it is not zero. *)
Definition nonzero (v : Z) : bool := negb (v =? 0).

(** The registry's key space (generated/registry_constants.hpp), as far as the codecs use it. *)
Module CborKey.
Definition proto_ver := 1.
Definition client_kind := 2.
Definition client_name := 3.
Definition instance_id := 4.
Definition token := 5.
Definition session_id := 6.
Definition boot_id := 7.
Definition catalog_etag := 8.
Definition cfg_gen := 9.
Definition subscriptions := 10.
Definition publishes := 11.
Definition rate_hz := 12.
Definition priority := 13.
Definition granted_rate_hz := 14.
Definition channel_id := 15.
Definition code := 16.
Definition detail := 17.
Definition intent_id := 18.
Definition applied := 19.
Definition value := 20.
Definition timestamp := 21.
Definition limits := 22.
Definition roles := 23.
Definition deadman_ms := 24.
Definition deadman_policy := 25.
Definition probe_result := 26.
Definition chunks := 27.
Definition pin_proof := 28.
Definition nonce := 29.
Definition precondition := 30.
Definition retry_after_ms := 31.
Definition takeover := 32.
Definition event_kind := 33.
Definition seq_of_state := 34.
Definition grants := 35.
Definition granted_publishes := 36.
Definition identity := 37.
Definition blob := 38.
Definition trust := 39.
Definition body := 40.
Definition intent_seq := 41.
Definition burst := 42.
Definition deadman_wish_ms := 44.
Definition ws_port := 46.
Definition ipv4 := 47.
Definition schedule_latency_us := 49.
Definition schedule_horizon_ms := 50.
Definition trial := 51.
End CborKey.

Record ItemReader (A : Type) := {
  run : CborReader -> decoded (A * CborReader);
  meaning : nat -> Item -> decoded A;
  run_reads : Reads run meaning
}.
Arguments run {A} _ r.
Arguments meaning {A} _ b i.
Arguments run_reads {A} _.

Definition p_uint : ItemReader Z := {| run := readUint; run_reads := Reads_uint |}.
Definition p_int : ItemReader Z := {| run := readInt; run_reads := Reads_int |}.
Definition p_bool : ItemReader bool := {| run := readBool; run_reads := Reads_bool |}.
Definition p_f32 : ItemReader Z := {| run := readF32; run_reads := Reads_f32 |}.
Definition p_tstr : ItemReader (list byte) := {| run := readTstr; run_reads := Reads_tstr |}.
Definition p_bstr : ItemReader (list byte) := {| run := readBstr; run_reads := Reads_bstr |}.

(** [auto v = r.read(); if (!v) return err(v.error()); g(v)]: [g] may itself refuse the value. *)
Definition reading {A B} (p : ItemReader A) (g : A -> decoded B) : ItemReader B :=
  {| run := fun r => let? (a, r') := run p r in let? b := g a in ok (b, r');
     meaning := fun d i => let? a := meaning p d i in g a;
     run_reads := Reads_then _ _ g (run_reads p) |}.

(** [auto sv = r.skipValue(); if (!sv) return err(sv.error());] leaving the message as it is. *)
Definition skipping {A} (a : A) : ItemReader A :=
  reading {| run := skipValue; run_reads := Reads_skip |} (fun _ => ok a).

(** [return err(e)] before anything of the value is read. *)
Lemma Reads_refuse {A} (e : DecodeError) :
  Reads (A := A) (fun _ => err e) (fun _ _ => err e).
Proof. by split. Qed.

Definition refuse {A} (e : DecodeError) : ItemReader A :=
  {| run := fun _ => err e; meaning := fun _ _ => err e; run_reads := Reads_refuse e |}.

Definition fields {A} (init : Z -> decoded A) (field : Z -> A -> ItemReader A) : ItemReader A :=
  {| run := read_map init (fun k a => run (field k a));
     meaning := sem_map init (fun k a => meaning (field k a));
     run_reads := Reads_map _ _ _ (fun k a => run_reads (field k a)) |}.

Definition elements {A} (init : Z -> decoded A) (body : A -> ItemReader A) : ItemReader A :=
  {| run := read_array init (fun a => run (body a));
     meaning := sem_array init (fun a => meaning (body a));
     run_reads := Reads_array _ _ _ (fun a => run_reads (body a)) |}.

(** A decoder: [CborReader r(in);] then one item; what follows it in the span is not looked at. *)
Definition decode {A} (p : ItemReader A) (inp : list byte) : decoded A :=
  let? (a, _) := run p (CborReader_new inp) in ok a.

(** [if (v > max) return err(Malformed)]. *)
Definition at_most (max v : Z) : decoded Z := if max <? v then err Malformed else ok v.

(** [if (v.size() != n) return err(e)] and [if (v.size() > n) return err(CapacityExceeded)]. *)
Definition sized (n : nat) (s : list byte) : decoded (list byte) :=
  if (length s =? n)%nat then ok s else err Malformed.
Definition capped (n : nat) (s : list byte) : decoded (list byte) :=
  if (n <? length s)%nat then err CapacityExceeded else ok s.

Lemma sized_ok n s : length s = n -> sized n s = ok s.
Proof. intros <-. unfold sized. by rewrite Nat.eqb_refl. Qed.
Lemma capped_ok n s : (length s <= n)%nat -> capped n s = ok s.
Proof. intros. unfold capped. by rewrite (proj2 (Nat.ltb_ge _ _)). Qed.
Lemma sized_inv n s s' : sized n s = ok s' -> s' = s /\ length s = n.
Proof. unfold sized. destruct (Nat.eqb_spec (length s) n); [|done]. by intros [= <-]. Qed.
Lemma capped_inv n s s' : capped n s = ok s' -> s' = s /\ (length s <= n)%nat.
Proof. unfold capped. destruct (Nat.ltb_spec n (length s)); [done|]. by intros [= <-]. Qed.

Lemma decode_item {A} (p : ItemReader A) i rest :
  wf i = true -> decode p (encode i ++ rest) = meaning p kMaxDepth i.
Proof.
  intros Hw. unfold decode. fold (on (encode i ++ rest)).
  rewrite (reads_item _ _ (run_reads p) _ i rest (ready_on _) Hw eq_refl), budget_on.
  by destruct (meaning p kMaxDepth i).
Qed.

Lemma decode_sound {A} (p : ItemReader A) inp a :
  decode p inp = ok a ->
  exists i rest, wf i = true /\ inp = encode i ++ rest /\ meaning p kMaxDepth i = ok a.
Proof.
  unfold decode. intros H. apply result_bind_ok in H as ([a' r'] & H & [= <-]).
  destruct (reads_sound _ _ (run_reads p) _ _ _ (ready_on inp) H) as (i & rest & Hw & Hu & _ & Hm).
  rewrite budget_on in Hm. rewrite unread_on in Hu. eauto.
Qed.

(** ** Fields: independent, and unknown ones are ignored (SPEC 4.3) *)

Lemma fold_fields_app {A} (sem : Z -> A -> Item -> decoded A) l l' a :
  fold_fields sem (l ++ l') a = (let? a' := fold_fields sem l a in fold_fields sem l' a').
Proof.
  revert a. induction l as [|[k i] l IH]; intros a; [done|]. cbn [fold_fields app].
  destruct (sem k a i); [|done]. apply IH.
Qed.

Lemma meaning_fields {A} init (field : Z -> A -> ItemReader A) b kvs :
  meaning (fields init field) (S b) (IMap kvs)
  = (let? a := init (len kvs) in fold_fields (fun k a => meaning (field k a) b) kvs a).
Proof. cbn [fields meaning sem_map Nat.eqb]. by rewrite Nat.sub_succ, Nat.sub_0_r. Qed.

Lemma meaning_elements {A} init (body : A -> ItemReader A) b l :
  meaning (elements init body) (S b) (IArr l)
  = (let? a := init (len l) in fold_items (fun a => meaning (body a) b) l a).
Proof. cbn [elements meaning sem_array Nat.eqb]. by rewrite Nat.sub_succ, Nat.sub_0_r. Qed.

Lemma meaning_skipping {A} (a : A) b i : (nest i <= b)%nat -> meaning (skipping a) b i = ok a.
Proof.
  intros H. cbn [skipping reading meaning]. unfold sem_skip. by rewrite (proj2 (Nat.leb_le _ _)).
Qed.

(** [known k]: the keys a decoder dispatches on. *)
Definition skips_unknown {A} (field : Z -> A -> ItemReader A) (known : list Z) : Prop :=
  forall k a, ~ In k known -> field k a = skipping a.

Definition knownb (known : list Z) (kv : Z * Item) : bool := existsb (Z.eqb (fst kv)) known.

Lemma fold_fields_known {A} (field : Z -> A -> ItemReader A) known b kvs a :
  skips_unknown field known ->
  Forall (fun kv => knownb known kv = false -> (nest (snd kv) <= b)%nat) kvs ->
  fold_fields (fun k a => meaning (field k a) b) kvs a
  = fold_fields (fun k a => meaning (field k a) b) (List.filter (knownb known) kvs) a.
Proof.
  intros Hu. revert a. induction kvs as [|[k i] kvs IH]; intros a Hn; [done|].
  apply Forall_cons_1 in Hn as [Hk Hn]. cbn [List.filter fold_fields snd] in *.
  destruct (knownb known (k, i)) eqn:E.
  - cbn [fold_fields]. destruct (meaning (field k a) b i); [|done]. by apply IH.
  - rewrite Hu.
    + rewrite meaning_skipping by by apply Hk. by apply IH.
    + intros Hin. apply Bool.not_true_iff_false in E. apply E. apply existsb_exists.
      exists k. split; [done|]. apply Z.eqb_refl.
Qed.

(** Dispatching on a key that is present once in a field list. *)
Lemma fold_fields_cons {A} (sem : Z -> A -> Item -> decoded A) k i l a a' :
  sem k a i = ok a' -> fold_fields sem ((k, i) :: l) a = fold_fields sem l a'.
Proof. intros H. cbn [fold_fields]. by rewrite H. Qed.

(** ** Field lists: the present fields in key order *)

Definition has {A} (o : option A) : bool := match o with Some _ => true | None => false end.

Definition fld (k : Z) (i : Item) : list (Z * Item) := [(k, i)].

Definition opt_fld {A} (k : Z) (f : A -> Item) (o : option A) : list (Z * Item) :=
  match o with Some a => [(k, f a)] | None => [] end.

Definition if_fld (k : Z) (c : bool) (i : Item) : list (Z * Item) := if c then [(k, i)] else [].

Lemma len_fld k i : len (fld k i) = 1.
Proof. done. Qed.
Lemma len_opt_fld {A} k (f : A -> Item) o : len (opt_fld k f o) = Z.b2z (has o).
Proof. by destruct o. Qed.
Lemma len_if_fld k c i : len (if_fld k c i) = Z.b2z c.
Proof. by destruct c. Qed.

Lemma b2z_bool_bounds c : 0 <= Z.b2z c <= 1.
Proof. destruct c; cbn; lia. Qed.

(** Presence is a choice of a sublist of the message's key table. *)
Lemma above_sublist ks : forall ks' lk, sublist ks ks' -> above lk ks' = true -> above lk ks = true.
Proof.
  intros ks' lk H. revert lk. induction H as [|k ks ks' _ IH|k ks ks' _ IH]; intros lk Ha; cbn [above] in *; [done| |].
  - apply andb_prop in Ha as [Hk Ha]. by rewrite Hk, IH.
  - apply andb_prop in Ha as [Hk Ha]. apply IH. eapply above_weaken; [exact Ha|].
    intros l ->. apply Z.ltb_lt in Hk. lia.
Qed.

Lemma keys_app (a b : list (Z * Item)) ka kb :
  sublist (map fst a) ka -> sublist (map fst b) kb -> sublist (map fst (a ++ b)) (ka ++ kb).
Proof. intros. rewrite map_app. by apply sublist_app. Qed.
Lemma keys_fld k i : sublist (map fst (fld k i)) [k].
Proof. done. Qed.
Lemma keys_opt_fld {A} k (f : A -> Item) o : sublist (map fst (opt_fld k f o)) [k].
Proof. destruct o; cbn; repeat constructor. Qed.
Lemma keys_if_fld k c i : sublist (map fst (if_fld k c i)) [k].
Proof. destruct c; cbn; repeat constructor. Qed.

Lemma above_keys (kvs : list (Z * Item)) ks : sublist (map fst kvs) ks -> above None ks = true -> above None (map fst kvs) = true.
Proof. intros. by eapply above_sublist. Qed.

Definition pair_ok (kv : Z * Item) : bool := in_ub 64 (fst kv) && wf (snd kv).

Lemma wf_map kvs :
  wf (IMap kvs) = in_ub 32 (len kvs) && above None (map fst kvs) && forallb pair_ok kvs.
Proof. done. Qed.

Lemma pairs_app a b : forallb pair_ok a = true -> forallb pair_ok b = true -> forallb pair_ok (a ++ b) = true.
Proof. intros Ha Hb. by rewrite forallb_app, Ha, Hb. Qed.
Lemma pairs_fld k i : in_ub 64 k = true -> wf i = true -> forallb pair_ok (fld k i) = true.
Proof. intros Hk Hi. cbn. unfold pair_ok. cbn. by rewrite Hk, Hi. Qed.
Lemma pairs_opt_fld {A} k (f : A -> Item) o :
  in_ub 64 k = true -> (forall a, o = Some a -> wf (f a) = true) -> forallb pair_ok (opt_fld k f o) = true.
Proof. intros Hk Hi. destruct o; [by apply pairs_fld, Hi|done]. Qed.
Lemma pairs_if_fld k c i :
  in_ub 64 k = true -> (c = true -> wf i = true) -> forallb pair_ok (if_fld k c i) = true.
Proof. intros Hk Hi. destruct c; [by apply pairs_fld, Hi|done]. Qed.

Definition nested_in (n : nat) (kvs : list (Z * Item)) : Prop := Forall (fun kv => (nest (snd kv) <= n)%nat) kvs.

Lemma nested_app n a b : nested_in n a -> nested_in n b -> nested_in n (a ++ b).
Proof. intros. by apply Forall_app. Qed.
Lemma nested_fld n k i : (nest i <= n)%nat -> nested_in n (fld k i).
Proof. intros. constructor; [done|constructor]. Qed.
Lemma nested_opt_fld {A} n k (f : A -> Item) o : (forall a, (nest (f a) <= n)%nat) -> nested_in n (opt_fld k f o).
Proof. intros H. destruct o; [apply nested_fld, H|constructor]. Qed.
Lemma nested_if_fld n k c i : (nest i <= n)%nat -> nested_in n (if_fld k c i).
Proof. intros H. destruct c; [by apply nested_fld|constructor]. Qed.

Lemma nest_map n kvs : nested_in n kvs -> (nest (IMap kvs) <= S n)%nat.
Proof. intros H. cbn [nest]. apply le_n_S. by apply (list_max_le (fun kv : Z * Item => nest (snd kv))). Qed.

Lemma nest_arr n l : Forall (fun i => (nest i <= n)%nat) l -> (nest (IArr l) <= S n)%nat.
Proof. intros H. cbn [nest]. apply le_n_S. by apply list_max_le. Qed.

Lemma writes_fld k g i : in_ub 64 k = true -> writes_item g i -> writes_fields (key k ;;; g) (fld k i).
Proof. intros Hk%in_ub_spec Hg. by apply fields_one. Qed.
Lemma writes_opt_fld {A} k (g : A -> CborWriter -> CborWriter) f o :
  in_ub 64 k = true -> (forall a, o = Some a -> writes_item (g a) (f a)) ->
  writes_fields (w_opt o (fun a => key k ;;; g a)) (opt_fld k f o).
Proof.
  intros Hk%in_ub_spec Hg. unfold opt_fld.
  apply (fields_opt o (fun a => key k ;;; g a) (fun a => [(k, f a)])).
  intros a Ha. apply fields_one; [done|by apply Hg].
Qed.
Lemma writes_if_fld k g c i :
  in_ub 64 k = true -> (c = true -> writes_item g i) -> writes_fields (w_if c (key k ;;; g)) (if_fld k c i).
Proof.
  intros Hk%in_ub_spec Hg. unfold if_fld. destruct c; [|apply fields_nil].
  apply fields_one; [done|by apply Hg].
Qed.

(** Decoding one segment. *)
Lemma fold_opt_fld {A B} (sem : Z -> B -> Item -> decoded B) k (f : A -> Item) o b (g : option A -> B) :
  g None = b -> (forall a, o = Some a -> sem k b (f a) = ok (g (Some a))) ->
  fold_fields sem (opt_fld k f o) b = ok (g o).
Proof. intros <- Hs. destruct o as [a|]; [|done]. cbn [opt_fld fold_fields]. by rewrite Hs. Qed.

Lemma fold_if_fld {B} (sem : Z -> B -> Item -> decoded B) k c i b r :
  (c = true -> sem k b i = ok r) -> (c = false -> b = r) -> fold_fields sem (if_fld k c i) b = ok r.
Proof. intros Ht Hf. destruct c; cbn [if_fld fold_fields]; [by rewrite Ht|by rewrite Hf]. Qed.

Lemma fold_fld {B} (sem : Z -> B -> Item -> decoded B) k i b b' :
  sem k b i = ok b' -> fold_fields sem (fld k i) b = ok b'.
Proof. intros H. cbn [fld fold_fields]. by rewrite H. Qed.

Lemma at_most_ok max v : v <= max -> at_most max v = ok v.
Proof. intros. unfold at_most. by rewrite (proj2 (Z.ltb_ge _ _)). Qed.

Definition opt_in (w : Z) (o : option Z) : Prop := match o with Some v => in_u w v | None => True end.

Definition opt_len (n : nat) (o : option (list byte)) : Prop := match o with Some s => length s = n | None => True end.
Definition opt_cap (n : nat) (o : option (list byte)) : Prop := match o with Some s => (length s <= n)%nat | None => True end.

Lemma opt_in_wf w o v : w <= 64 -> opt_in w o -> o = Some v -> in_ub 64 v = true.
Proof.
  intros Hw Ho ->. apply in_ub_spec. cbn in Ho. unfold in_u in *.
  pose proof (Z.pow_le_mono_r 2 w 64 ltac:(lia) Hw). lia.
Qed.

Lemma in_u_wf w v : w <= 64 -> in_u w v -> in_ub 64 v = true.
Proof. intros Hw Hv. by apply (opt_in_wf w (Some v) v). Qed.

(** Splitting a goal about a field list into its segments. *)
Ltac segments :=
  repeat first
    [ apply keys_app | apply keys_fld | apply keys_opt_fld | apply keys_if_fld
    | apply pairs_app | apply pairs_fld | apply pairs_opt_fld | apply pairs_if_fld
    | apply nested_app | apply nested_fld | apply nested_opt_fld | apply nested_if_fld
    | apply fields_seq | apply writes_fld | apply writes_opt_fld | apply writes_if_fld
    | reflexivity ].

(** [segments] with the key table left to be inferred. *)
Ltac keys_ascend := eapply above_keys; [repeat first [eapply keys_app | apply keys_fld | apply keys_opt_fld | apply keys_if_fld]|reflexivity].

Ltac count_fields :=
  repeat rewrite len_app; repeat first [rewrite len_fld | rewrite len_opt_fld | rewrite len_if_fld];
  repeat match goal with |- context [Z.b2z ?c] => lazymatch goal with
    | H : 0 <= Z.b2z c <= 1 |- _ => fail | _ => pose proof (b2z_bool_bounds c) end end;
  unfold in_u; lia.

(** Ranges of field values, from the message's own ranges. *)
Ltac in_range :=
  lazymatch goal with
  | |- in_ub _ _ = true => apply in_ub_spec; in_range
  | |- in_u _ ?v =>
      match goal with
      | H : in_u _ v |- _ => unfold in_u in *; lia
      | H : opt_in _ ?o, E : ?o = Some v |- _ => rewrite E in H; cbn [opt_in] in H; unfold in_u in *; lia
      | H : opt_len _ ?o, E : ?o = Some _ |- _ => rewrite E in H; cbn [opt_len] in H; unfold in_u, len in *; lia
      | H : opt_cap _ ?o, E : ?o = Some _ |- _ => rewrite E in H; cbn [opt_cap] in H; unfold in_u, len in *; lia
      | _ => unfold len; unfold in_u in *; lia
      | _ => unfold in_u in *; lia
      end
  end.

Ltac leaf :=
  intros; try (cbn [wf]; done);
  first [ apply writes_uint; in_range | apply writes_bool | apply writes_tstr | apply writes_bstr
        | apply writes_f32; in_range | cbn [wf]; in_range | cbn [nest]; lia | idtac ].

(** [encodes (enc m) (IMap (fields m))] for an encoder that is a map header and its fields. *)
Ltac solve_encodes :=
  cbv zeta; apply encodes_item;
  [ apply writes_map; [count_fields | count_fields | keys_ascend | segments; leaf]
  | unfold kMaxDepth; apply nest_map; segments; leaf ].

(** [writes_item] for a nested structure. *)
Ltac solve_writes :=
  apply writes_map; [count_fields | count_fields | keys_ascend | segments; leaf].

Ltac solve_fields_wf :=
  rewrite wf_map; apply andb_true_intro; split; [apply andb_true_intro; split|];
  [ apply in_ub_spec; count_fields | keys_ascend | segments; leaf ].

Lemma known_keys (kvs : list (Z * Item)) ks ks' :
  sublist (map fst kvs) ks -> ks = ks' -> Forall (fun kv => In (fst kv) ks') kvs.
Proof.
  intros H <-. apply Forall_forall. intros kv Hin. apply (in_map fst) in Hin.
  revert Hin. induction H as [|k l l' _ IH|k l l' _ IH]; cbn; naive_solver.
Qed.

Ltac solve_known :=
  eapply known_keys; [repeat first [eapply keys_app | apply keys_fld | apply keys_opt_fld | apply keys_if_fld]|reflexivity].

(** A decoder that is one loop over the pairs and a final check. *)
Lemma decode_fields {A B} (field : Z -> A -> ItemReader A) a0 (post : A -> decoded B) known kvs fs rest st b :
  skips_unknown field known ->
  wf (IMap kvs) = true ->
  Forall (fun kv => knownb known kv = false -> (nest (snd kv) <= 3)%nat) kvs ->
  List.filter (knownb known) kvs = fs ->
  fold_fields (fun k a => meaning (field k a) 3) fs a0 = ok st -> post st = ok b ->
  decode (reading (fields (fun _ => ok a0) field) post) (encode (IMap kvs) ++ rest) = ok b.
Proof.
  intros Hsk Hw Hn Hf Hfold Hpost. rewrite decode_item by done. cbn [reading meaning]. unfold kMaxDepth.
  rewrite meaning_fields. cbn [result_bind]. rewrite (fold_fields_known field known) by done.
  by rewrite Hf, Hfold.
Qed.

Lemma decode_map_sound {A B} (field : Z -> A -> ItemReader A) init (post : A -> decoded B) inp b :
  decode (reading (fields init field) post) inp = ok b ->
  exists kvs rest, wf (IMap kvs) = true /\ inp = encode (IMap kvs) ++ rest.
Proof.
  intros H. apply decode_sound in H as (i & rest & Hw & -> & Hm). cbn [reading meaning fields] in Hm.
  destruct i; try done. eauto.
Qed.

(** [skips_unknown]: every key outside the dispatch list falls to the default case. *)
Ltac solve_skips Hk :=
  cbn [In] in Hk;
  repeat match goal with |- context [?k =? ?c] =>
    let c' := eval cbv in c in change c with c';
    rewrite (proj2 (Z.eqb_neq k c')) by (intros ->; apply Hk; tauto) end;
  reflexivity.

(** One pair of a decoder's fold, at a concrete key; [tac] rewrites with what the message's
    nested structures decode to. *)
Ltac reduce_field := cbn -[wrap at_most sized capped swrap Z.pow].

Ltac fold_step_by tac :=
  erewrite fold_fields_cons by
    (reduce_field;
     repeat first
       [ progress (rewrite at_most_ok by first [lia|unfold in_u in *; lia])
       | progress (rewrite sized_ok by first [assumption|lia])
       | progress (rewrite capped_ok by first [assumption|lia])
       | progress tac
       | progress (rewrite wrap_small by first [assumption|unfold in_u in *; lia])
       | progress reduce_field ];
     reflexivity).

Ltac solve_fold_by tac :=
  repeat match goal with
  | H : in_u _ _ |- _ => progress (cbn -[Z.pow] in H)
  | H : opt_in _ _ |- _ => progress (cbn -[Z.pow] in H)
  | H : opt_len _ _ |- _ => progress (cbn -[Z.pow] in H)
  | H : opt_cap _ _ |- _ => progress (cbn -[Z.pow] in H)
  end;
  unfold fld, opt_fld, if_fld; cbn -[fold_fields meaning];
  repeat fold_step_by tac; cbn [fold_fields]; try reflexivity.

Ltac solve_fold := solve_fold_by fail.

(** One segment at a time, for messages with many optional fields: [set] is the field's setter. *)
Ltac use_opts :=
  repeat match goal with
  | H : opt_in _ ?o, E : ?o = Some _ |- _ => rewrite E in H; cbn [opt_in] in H
  | H : opt_len _ ?o, E : ?o = Some _ |- _ => rewrite E in H; cbn [opt_len] in H
  | H : opt_cap _ ?o, E : ?o = Some _ |- _ => rewrite E in H; cbn [opt_cap] in H
  end.

Ltac field_value tac :=
  reduce_field;
  repeat first
    [ progress (rewrite at_most_ok by first [lia|unfold in_u in *; lia])
    | progress (rewrite sized_ok by first [assumption|lia])
    | progress (rewrite capped_ok by first [assumption|lia])
    | progress tac
    | progress (rewrite wrap_small by first [assumption|unfold in_u in *; lia])
    | progress reduce_field ];
  reflexivity.

Ltac seg_fld_by tac :=
  rewrite ?fold_fields_app;
  match goal with |- context [fold_fields ?sem (fld ?k ?i) ?st] =>
    erewrite (fold_fld sem k i st) by field_value tac end;
  cbn [result_bind].

Ltac seg_opt_by set tac :=
  rewrite ?fold_fields_app;
  lazymatch goal with
  | |- context [fold_fields ?sem (opt_fld ?k ?f ?o) (?m, ?flags)] =>
      rewrite (fold_opt_fld sem k f o (m, flags) (fun x => (set x m, flags)))
        by first [reflexivity | intros; use_opts; field_value tac]
  | |- context [fold_fields ?sem (opt_fld ?k ?f ?o) ?m] =>
      rewrite (fold_opt_fld sem k f o m (fun x => set x m))
        by first [reflexivity | intros; use_opts; field_value tac]
  end;
  cbn [result_bind].

(** [set] applied to the message gives the state after the field; [tac0] closes the absent case. *)
Ltac seg_if_by set tac tac0 :=
  rewrite ?fold_fields_app;
  lazymatch goal with
  | |- context [fold_fields ?sem (if_fld ?k ?c ?i) (?m, ?flags)] =>
      rewrite (fold_if_fld sem k c i (m, flags) (set m, flags))
        by first [intros _; field_value tac | intros; tac0]
  | |- context [fold_fields ?sem (if_fld ?k ?c ?i) ?m] =>
      rewrite (fold_if_fld sem k c i m (set m)) by first [intros _; field_value tac | intros; tac0]
  end;
  cbn [result_bind].

Ltac seg_fld := seg_fld_by fail.
Ltac seg_opt set := seg_opt_by set fail.

(** ** Structures nested in a message *)

(** What a structure owes the messages that contain it; [n] is its own container depth. *)
Record Nested {A} (okA : A -> Prop) (item : A -> Item) (wr : A -> CborWriter -> CborWriter)
  (rd : ItemReader A) (norm : A -> A) (n : nat) : Prop := {
  nested_writes a : okA a -> writes_item (wr a) (item a);
  nested_wf a : okA a -> wf (item a) = true;
  nested_nest a : (nest (item a) <= n)%nat;
  nested_decode b a : okA a -> (n <= b)%nat -> meaning rd b (item a) = ok (norm a)
}.

(** [n = readArrayHeader(); if (n > cap) return err; for (j < n) out[j] = <p>]. *)
Definition p_list {A} (init : Z -> decoded (list A)) (p : ItemReader A) : ItemReader (list A) :=
  elements init (fun acc => reading p (fun v => ok (acc ++ [v]))).

Definition up_to {A} (cap : Z) (n : Z) : decoded (list A) :=
  if cap <? n then err CapacityExceeded else ok [].

Definition w_list {A} (f : A -> CborWriter -> CborWriter) (l : list A) : CborWriter -> CborWriter :=
  arrayHeader (len l) ;;; w_each f l.

Lemma Nested_list {A} (okA : A -> Prop) item wr rd norm n (init : Z -> decoded (list A)) (P : Z -> Prop) :
  Nested okA item wr rd norm n -> (forall c, P c -> init c = ok []) -> (forall c, P c -> in_ub 32 c = true) ->
  Nested (fun l => Forall okA l /\ P (len l)) (fun l => IArr (map item l)) (w_list wr) (p_list init rd) (map norm) (S n).
Proof.
  intros [Hw Hf Hn Hd] Hinit Hrange.
  assert (forall l, len (map item l) = len l) as Hlen by (intros; unfold len; by rewrite length_map). split.
  - intros l [Hall HP]. apply writes_array; [by rewrite Hlen|by apply in_ub_spec, Hrange|].
    apply items_each. eapply Forall_impl; [|exact Hall]. auto.
  - intros l [Hall HP]. cbn [wf]. rewrite Hlen, Hrange by done. cbn [andb].
    apply forallb_forall. intros i (a & <- & Hin)%in_map_iff. rewrite Forall_forall in Hall. auto.
  - intros l. apply nest_arr, Forall_forall. intros i (a & <- & Hin)%in_map_iff. auto.
  - intros [|b] l [Hall HP] Hb; [lia|]. unfold p_list. rewrite meaning_elements, Hlen, Hinit by done. cbn [result_bind].
    match goal with |- fold_items ?sem _ _ = _ =>
      enough (forall acc, fold_items sem (map item l) acc = ok (acc ++ map norm l)) as Hgen by apply (Hgen []) end.
    clear HP. induction Hall as [|a l Ha _ IH]; intros acc; cbn [map fold_items].
    + by rewrite app_nil_r.
    + cbn [reading meaning]. rewrite Hd by (done || lia). cbn [result_bind]. rewrite IH. by rewrite <- app_assoc.
Qed.

(** ** The contract of a message codec *)

Class CborMessage (M : Type) := {
  msg_ok : M -> Prop;                                   (* what the sender may put in it *)
  msg_fields : M -> list (Z * Item);                    (* its pairs *)
  msg_encode : M -> list byte -> list byte * nat;
  msg_decode : list byte -> decoded M;
  msg_norm : M -> M;                                    (* what the receiver is handed *)
  msg_known : list Z;
  msg_encodes m : msg_ok m -> encodes (msg_encode m) (IMap (msg_fields m));
  msg_fields_wf m : msg_ok m -> wf (IMap (msg_fields m)) = true;
  msg_fields_known m : Forall (fun kv => In (fst kv) msg_known) (msg_fields m);
  msg_decodes m kvs rest : msg_ok m -> wf (IMap kvs) = true ->
    Forall (fun kv => knownb msg_known kv = false -> (nest (snd kv) <= 3)%nat) kvs ->
    List.filter (knownb msg_known) kvs = msg_fields m ->
    msg_decode (encode (IMap kvs) ++ rest) = ok (msg_norm m);
  msg_sound inp m : msg_decode inp = ok m ->
    exists kvs rest, wf (IMap kvs) = true /\ inp = encode (IMap kvs) ++ rest
}.
Arguments msg_known M {_}.

Section message.
Context {M : Type} `{CborMessage M}.

Lemma known_filter (l : list (Z * Item)) ks :
  Forall (fun kv => In (fst kv) ks) l -> List.filter (knownb ks) l = l.
Proof.
  induction 1 as [|kv l Hk _ IH]; [done|]. cbn. rewrite IH.
  replace (knownb ks kv) with true; [done|]. symmetry. apply existsb_exists. exists (fst kv).
  split; [done|]. apply Z.eqb_refl.
Qed.

(** The sender's bytes, followed by anything, decode to the normalised message. *)
Lemma message_roundtrip (m : M) rest :
  msg_ok m -> msg_decode (encode (IMap (msg_fields m)) ++ rest) = ok (msg_norm m).
Proof.
  intros Hok. apply msg_decodes; [done|by apply msg_fields_wf| |].
  - pose proof (msg_fields_known m) as Hk. apply Forall_forall. intros kv Hin Hf.
    rewrite Forall_forall in Hk. specialize (Hk _ Hin).
    exfalso. apply Bool.not_true_iff_false in Hf. apply Hf, existsb_exists.
    exists (fst kv). split; [done|]. apply Z.eqb_refl.
  - apply known_filter, msg_fields_known.
Qed.

(** Encoded into a large enough span and handed over, the message arrives. *)
Definition delivered (m : M) (out : list byte) : decoded M :=
  let '(o, n) := msg_encode m out in msg_decode (take n o).

Lemma message_delivered (m : M) out :
  msg_ok m -> (length (encode (IMap (msg_fields m))) <= length out)%nat ->
  delivered m out = ok (msg_norm m).
Proof.
  intros Hok Hfit. pose proof (msg_encodes m Hok out) as He.
  rewrite (proj2 (Nat.leb_le _ _)) in He by done. unfold delivered. rewrite He.
  rewrite take_app_length, <- (app_nil_r (encode _)). by apply message_roundtrip.
Qed.

(** Everything a sender relies on, in one statement: the size is 0 exactly when the span is too
    small, nothing outside the span is touched, the bytes decode to the normalised message, and
    they still do when a newer peer has added keys this decoder does not know. *)
Lemma message_contract (m : M) out : msg_ok m ->
  let '(o, n) := msg_encode m out in
  length o = length out
  /\ (n = 0%nat <-> (length out < length (encode (IMap (msg_fields m))))%nat)
  /\ (n <> 0%nat -> drop n o = drop n out /\ msg_decode (take n o) = ok (msg_norm m))
  /\ forall kvs rest, wf (IMap kvs) = true ->
       Forall (fun kv => knownb (msg_known M) kv = false -> (nest (snd kv) <= 3)%nat) kvs ->
       List.filter (knownb (msg_known M)) kvs = msg_fields m ->
       msg_decode (encode (IMap kvs) ++ rest) = ok (msg_norm m).
Proof.
  intros Hok. pose proof (msg_encodes m Hok out) as He.
  pose proof (encode_length_pos (IMap (msg_fields m))) as Hpos.
  set (bs := encode (IMap (msg_fields m))) in *.
  assert (forall kvs rest, wf (IMap kvs) = true ->
       Forall (fun kv => knownb (msg_known M) kv = false -> (nest (snd kv) <= 3)%nat) kvs ->
       List.filter (knownb (msg_known M)) kvs = msg_fields m ->
       msg_decode (encode (IMap kvs) ++ rest) = ok (msg_norm m)) as Htol by (intros; by apply msg_decodes).
  destruct (Nat.leb_spec (length bs) (length out)).
  - rewrite He. split_and!; [rewrite length_app, length_drop; lia|lia| |done].
    intros _. rewrite take_app_length, drop_app_length. split; [done|].
    pose proof (message_roundtrip m [] Hok) as Hr. by rewrite app_nil_r in Hr.
  - destruct (msg_encode m out) as [o n]. cbn [fst snd] in He. destruct He as [-> Ho].
    split_and!; [done|lia|done|done].
Qed.

(** What a buffer of [cap] bytes is left with. *)
Lemma message_encoded (m : M) cap : msg_ok m ->
  encoded cap (msg_encode m)
  = if (length (encode (IMap (msg_fields m))) <=? cap)%nat then encode (IMap (msg_fields m)) else [].
Proof.
  intros Hok. pose proof (msg_encodes m Hok (replicate cap Byte.x00)) as He. rewrite length_replicate in He. unfold encoded.
  destruct (Nat.leb_spec (length (encode (IMap (msg_fields m)))) cap) as [Hl|Hl].
  - rewrite He. by rewrite take_app_length.
  - destruct (msg_encode m _) as [o n]. cbn [fst snd] in He. by destruct He as [-> _].
Qed.
End message.

(** An invariant of the decoder's loop. *)
Lemma fold_fields_inv {A} (sem : Z -> A -> Item -> decoded A) (P : A -> Prop) kvs a a' :
  (forall k i b b', In (k, i) kvs -> sem k b i = ok b' -> P b -> P b') ->
  P a -> fold_fields sem kvs a = ok a' -> P a'.
Proof.
  revert a. induction kvs as [|[k i] kvs IH]; intros a Hstep Ha H; cbn [fold_fields] in H.
  - by injection H as <-.
  - apply result_bind_ok in H as (b & Hs & H). eapply IH; [|eapply Hstep; [by left|exact Hs|done]|exact H].
    intros k' i' c c' Hin. apply Hstep. by right.
Qed.

(** What a successful decode says of the bytes. *)
Lemma decode_map_inv {A B} (field : Z -> A -> ItemReader A) a0 (post : A -> decoded B) (P : list (Z * Item) -> A -> Prop) inp b :
  decode (reading (fields (fun _ => ok a0) field) post) inp = ok b ->
  (forall kvs, P kvs a0) ->
  (forall kvs k i a a', In (k, i) kvs -> wf i = true -> meaning (field k a) 3 i = ok a' -> P kvs a -> P kvs a') ->
  exists kvs rest a, wf (IMap kvs) = true /\ inp = encode (IMap kvs) ++ rest /\ P kvs a /\ post a = ok b.
Proof.
  intros H H0 Hstep. apply decode_sound in H as (i & rest & Hw & -> & Hm). cbn [reading meaning] in Hm.
  apply result_bind_ok in Hm as (a & Hm & Hpost). destruct i as [| | | | |kvs| | |]; try done.
  unfold kMaxDepth in Hm. rewrite meaning_fields in Hm. cbn [result_bind] in Hm.
  exists kvs, rest, a. split_and!; [done..| |done].
  eapply fold_fields_inv; [|apply H0|exact Hm]. intros k i b0 b' Hin Hs. eapply Hstep; [done| |done].
  rewrite wf_map in Hw. apply andb_prop in Hw as [_ Hw]. rewrite forallb_forall in Hw.
  specialize (Hw _ Hin). by apply andb_prop in Hw as [_ Hw].
Qed.

Lemma reading_inv {A B} (p : ItemReader A) (g : A -> decoded B) b i v :
  meaning (reading p g) b i = ok v -> exists a, meaning p b i = ok a /\ g a = ok v.
Proof. apply result_bind_ok. Qed.

Lemma p_uint_inv b i v : meaning p_uint b i = ok v -> i = IUint v.
Proof. destruct i; cbn; try done. by intros [= <-]. Qed.
Lemma p_bool_inv b i v : meaning p_bool b i = ok v -> i = IBool v.
Proof. destruct i; cbn; try done. by intros [= <-]. Qed.
Lemma p_tstr_inv b i v : meaning p_tstr b i = ok v -> i = ITstr v.
Proof. destruct i; cbn; try done. by intros [= <-]. Qed.
Lemma p_bstr_inv b i v : meaning p_bstr b i = ok v -> i = IBstr v.
Proof. destruct i; cbn; try done. by intros [= <-]. Qed.
Lemma p_f32_inv b i v : meaning p_f32 b i = ok v -> i = IF32 v.
Proof. destruct i; cbn; try done. by intros [= <-]. Qed.

Lemma skipping_inv {A} (a a' : A) b i : meaning (skipping a) b i = ok a' -> a' = a.
Proof. intros H. apply reading_inv in H as ([] & _ & [= <-]). done. Qed.

Lemma at_most_inv max v c : at_most max v = ok c -> c = v /\ v <= max.
Proof. unfold at_most. destruct (Z.ltb_spec max v); [done|]. intros [= <-]. done. Qed.

(** Case analysis on a decoder's dispatch in a hypothesis [H : meaning (field k a) b i = ok a']. *)
Ltac dispatch H :=
  repeat match type of H with
  | context [if ?k =? ?c then _ else _] => destruct (Z.eqb_spec k c); [subst k|]
  end;
  try (apply skipping_inv in H; subst; done);
  let v := fresh "v" in let Hp := fresh "Hp" in
  apply reading_inv in H as (v & Hp & H);
  first [apply p_uint_inv in Hp | apply p_bool_inv in Hp | apply p_tstr_inv in Hp
        | apply p_bstr_inv in Hp | apply p_f32_inv in Hp | idtac].

Lemma nonzero_false v : nonzero v = false -> v = 0.
Proof. unfold nonzero. intros H%negb_false_iff. by apply Z.eqb_eq. Qed.

Ltac absent_zero := match goal with H : nonzero _ = false |- _ => by rewrite (nonzero_false _ H) end.
