(* ===== verification/MsgNack.v ===== *)
(** * MsgNack: NACK and GOODBYE (wire/messages/nack.hpp, goodbye.hpp)

    The refusal and the courtesy teardown share the diagnostic string and its rule: an over-long
    detail is cut at a UTF-8 code point boundary, never a reason to drop the frame.  A required key
    is a flag beside the message while it is being decoded. *)

From S2P Require Import Prelude CborItem CborReader CborWriter CborMessage.

Definition kNackMaxDetailBytes : nat := 48.
Definition kGoodbyeMaxDetailBytes : nat := kNackMaxDetailBytes.

Definition is_continuation (b : byte) : bool := Z.land (b2z b) 0xC0 =? 0x80.

(** [while (n > 0 && (s[n] & 0xC0) == 0x80) --n]. *)
Fixpoint back_off (n : nat) (s : list byte) : nat :=
  match n with
  | O => O
  | S n' => if is_continuation (nth n s Byte.x00) then back_off n' s else n
  end.

Definition truncateNackDetail (s : list byte) : list byte :=
  if (length s <=? kNackMaxDetailBytes)%nat then s else take (back_off kNackMaxDetailBytes s) s.

Definition NackCode_MALFORMED : Z := 0x0000.

Record NackMsg := mkNackMsg {
  nk_code : Z; nk_channel_id : option Z; nk_intent_id : option Z; nk_detail : option (list byte);
     nk_retry_after_ms : option Z; nk_intent_seq : option Z }.

Definition NackMsg_new : NackMsg :=
  {| nk_code := NackCode_MALFORMED; nk_channel_id := None; nk_intent_id := None; nk_detail := None;
     nk_retry_after_ms := None; nk_intent_seq := None |}.

Definition set_nk_code (v : Z) (m : NackMsg) : NackMsg :=
  {| nk_code := v; nk_channel_id := nk_channel_id m; nk_intent_id := nk_intent_id m;
     nk_detail := nk_detail m; nk_retry_after_ms := nk_retry_after_ms m;
     nk_intent_seq := nk_intent_seq m |}.
Definition set_nk_channel_id (v : option Z) (m : NackMsg) : NackMsg :=
  {| nk_code := nk_code m; nk_channel_id := v; nk_intent_id := nk_intent_id m;
     nk_detail := nk_detail m; nk_retry_after_ms := nk_retry_after_ms m;
     nk_intent_seq := nk_intent_seq m |}.
Definition set_nk_intent_id (v : option Z) (m : NackMsg) : NackMsg :=
  {| nk_code := nk_code m; nk_channel_id := nk_channel_id m; nk_intent_id := v;
     nk_detail := nk_detail m; nk_retry_after_ms := nk_retry_after_ms m;
     nk_intent_seq := nk_intent_seq m |}.
Definition set_nk_detail (v : option (list byte)) (m : NackMsg) : NackMsg :=
  {| nk_code := nk_code m; nk_channel_id := nk_channel_id m; nk_intent_id := nk_intent_id m;
     nk_detail := v; nk_retry_after_ms := nk_retry_after_ms m; nk_intent_seq := nk_intent_seq m |}.
Definition set_nk_retry_after_ms (v : option Z) (m : NackMsg) : NackMsg :=
  {| nk_code := nk_code m; nk_channel_id := nk_channel_id m; nk_intent_id := nk_intent_id m;
     nk_detail := nk_detail m; nk_retry_after_ms := v; nk_intent_seq := nk_intent_seq m |}.
Definition set_nk_intent_seq (v : option Z) (m : NackMsg) : NackMsg :=
  {| nk_code := nk_code m; nk_channel_id := nk_channel_id m; nk_intent_id := nk_intent_id m;
     nk_detail := nk_detail m; nk_retry_after_ms := nk_retry_after_ms m; nk_intent_seq := v |}.

Definition encodeNack (m : NackMsg) (out : list byte) : list byte * nat :=
  let nKeys := 1 + Z.b2z (has (nk_channel_id m)) + Z.b2z (has (nk_detail m)) + Z.b2z (has (nk_intent_id m))
               + Z.b2z (has (nk_retry_after_ms m)) + Z.b2z (has (nk_intent_seq m)) in
  finish ((mapHeader nKeys
    ;;; w_opt (nk_channel_id m) (fun v => key CborKey.channel_id ;;; uintVal v)
    ;;; (key CborKey.code ;;; uintVal (nk_code m))
    ;;; w_opt (nk_detail m) (fun v => key CborKey.detail ;;; tstrVal (truncateNackDetail v))
    ;;; w_opt (nk_intent_id m) (fun v => key CborKey.intent_id ;;; uintVal v)
    ;;; w_opt (nk_retry_after_ms m) (fun v => key CborKey.retry_after_ms ;;; uintVal v)
    ;;; w_opt (nk_intent_seq m) (fun v => key CborKey.intent_seq ;;; uintVal v))
    (CborWriter_new out)).

(** One pass of the decoder's loop: the message so far and [gotCode]. *)
Definition nack_field (k : Z) (st : NackMsg * bool) : ItemReader (NackMsg * bool) :=
  let '(m, gotCode) := st in
  if k =? CborKey.channel_id then reading p_uint (fun v => ok (set_nk_channel_id (Some (u16 v)) m, gotCode))
  else if k =? CborKey.code then
    reading p_uint (fun v => let? c := at_most 0xFFFF v in ok (set_nk_code (u16 c) m, true))
  else if k =? CborKey.detail then
    reading p_tstr (fun v => ok (set_nk_detail (Some (truncateNackDetail v)) m, gotCode))
  else if k =? CborKey.intent_id then reading p_uint (fun v => ok (set_nk_intent_id (Some (u16 v)) m, gotCode))
  else if k =? CborKey.retry_after_ms then
    reading p_uint (fun v => ok (set_nk_retry_after_ms (Some (u32 v)) m, gotCode))
  else if k =? CborKey.intent_seq then
    reading p_uint (fun v => let? c := at_most 0xFFFF v in ok (set_nk_intent_seq (Some (u16 c)) m, gotCode))
  else skipping st.

Definition p_nack : ItemReader NackMsg :=
  reading (fields (fun _ => ok (NackMsg_new, false)) nack_field)
    (fun '(m, gotCode) => if negb gotCode then err Malformed else ok m).

Definition decodeNack (inp : list byte) : decoded NackMsg := decode p_nack inp.

Record GoodbyeMsg := mkGoodbyeMsg {
  gb_code : Z; gb_detail : option (list byte) }.

Definition GoodbyeMsg_new : GoodbyeMsg :=
  {| gb_code := NackCode_MALFORMED; gb_detail := None |}.

Definition set_gb_code (v : Z) (m : GoodbyeMsg) : GoodbyeMsg :=
  {| gb_code := v; gb_detail := gb_detail m |}.
Definition set_gb_detail (v : option (list byte)) (m : GoodbyeMsg) : GoodbyeMsg :=
  {| gb_code := gb_code m; gb_detail := v |}.

Definition encodeGoodbye (m : GoodbyeMsg) (out : list byte) : list byte * nat :=
  let nKeys := 1 + Z.b2z (has (gb_detail m)) in
  finish ((mapHeader nKeys
    ;;; (key CborKey.code ;;; uintVal (gb_code m))
    ;;; w_opt (gb_detail m) (fun v => key CborKey.detail ;;; tstrVal (truncateNackDetail v)))
    (CborWriter_new out)).

Definition goodbye_field (k : Z) (st : GoodbyeMsg * bool) : ItemReader (GoodbyeMsg * bool) :=
  let '(m, gotCode) := st in
  if k =? CborKey.code then
    reading p_uint (fun v => let? c := at_most 0xFFFF v in ok (set_gb_code (u16 c) m, true))
  else if k =? CborKey.detail then
    reading p_tstr (fun v => ok (set_gb_detail (Some (truncateNackDetail v)) m, gotCode))
  else skipping st.

Definition p_goodbye : ItemReader GoodbyeMsg :=
  reading (fields (fun _ => ok (GoodbyeMsg_new, false)) goodbye_field)
    (fun '(m, gotCode) => if negb gotCode then err Malformed else ok m).

Definition decodeGoodbye (inp : list byte) : decoded GoodbyeMsg := decode p_goodbye inp.

(** ** The cut *)

Lemma back_off_le n s : (back_off n s <= n)%nat.
Proof. induction n as [|n IH]; cbn [back_off]; [done|]. case_match; lia. Qed.

Lemma truncate_length s : (length (truncateNackDetail s) <= kNackMaxDetailBytes)%nat.
Proof.
  unfold truncateNackDetail. destruct (Nat.leb_spec (length s) kNackMaxDetailBytes); [done|].
  rewrite length_take. pose proof (back_off_le kNackMaxDetailBytes s). lia.
Qed.

Lemma truncate_short s : (length s <= kNackMaxDetailBytes)%nat -> truncateNackDetail s = s.
Proof. intros. unfold truncateNackDetail. by rewrite (proj2 (Nat.leb_le _ _)). Qed.

Lemma truncate_idem s : truncateNackDetail (truncateNackDetail s) = truncateNackDetail s.
Proof. apply truncate_short, truncate_length. Qed.

Lemma truncate_wf s : in_ub 64 (len (truncateNackDetail s)) = true.
Proof.
  apply in_ub_spec. pose proof (truncate_length s). unfold kNackMaxDetailBytes in *. unfold in_u, len. lia.
Qed.

(** Where the loop stops: at the first non-continuation byte at or before [n]. *)
Lemma back_off_spec n s :
  (forall j, (back_off n s < j <= n)%nat -> is_continuation (nth j s Byte.x00) = true)
  /\ (back_off n s = 0%nat \/ is_continuation (nth (back_off n s) s Byte.x00) = false).
Proof.
  induction n as [|n [IH1 IH2]]; cbn [back_off]; [split; [lia|auto]|].
  destruct (is_continuation (nth (S n) s Byte.x00)) eqn:E.
  - split; [|done]. intros j Hj. destruct (decide (j = S n)) as [->|]; [done|]. apply IH1. lia.
  - split; [lia|auto].
Qed.

(** UTF-8 text: code points of a lead byte and at most three continuation bytes. *)
Definition code_point (c : list byte) : Prop :=
  match c with
  | [] => False
  | b :: t => is_continuation b = false /\ forallb is_continuation t = true /\ (length t <= 3)%nat
  end.

Lemma nth_cont c j : code_point c -> (0 < j < length c)%nat -> is_continuation (nth j c Byte.x00) = true.
Proof.
  destruct c as [|b t]; [done|]. intros (_ & Ht & _) Hj. destruct j as [|j]; [lia|]. cbn [nth length] in *.
  rewrite forallb_forall in Ht. apply Ht, nth_In. lia.
Qed.

(** Cutting a text at a lead byte cuts between code points. *)
Lemma cut_at_lead cs : forall n,
  Forall code_point cs -> (n < length (concat cs))%nat ->
  n = 0%nat \/ is_continuation (nth n (concat cs) Byte.x00) = false ->
  exists m, take n (concat cs) = concat (take m cs) /\ (m <= length cs)%nat.
Proof.
  induction cs as [|c cs IH]; intros n Hc Hn Hlead; cbn [concat length] in *; [lia|].
  destruct (decide (n = 0%nat)) as [->|Hn0]; [exists 0%nat; split; [by rewrite !take_0|lia]|].
  destruct Hlead as [|Hlead]; [lia|].
  apply Forall_cons_1 in Hc as [Hc Hcs]. rewrite length_app in Hn.
  destruct (le_lt_dec (length c) n) as [Hle|Hlt].
  - rewrite app_nth2 in Hlead by lia.
    destruct (IH (n - length c)%nat Hcs ltac:(lia) ltac:(auto)) as (m & Em & Hm).
    exists (S m). cbn [take concat]. rewrite take_app_ge, Em by lia. split; [done|lia].
  - rewrite app_nth1 in Hlead by lia. rewrite (nth_cont c n Hc ltac:(lia)) in Hlead. done.
Qed.

Lemma lead_within cs : forall n,
  Forall code_point cs -> (3 <= n < length (concat cs))%nat ->
  exists j, (n - 3 <= j <= n)%nat /\ is_continuation (nth j (concat cs) Byte.x00) = false.
Proof.
  induction cs as [|c cs IH]; intros n Hc Hn; cbn [concat length] in *; [lia|].
  apply Forall_cons_1 in Hc as [Hc Hcs]. rewrite length_app in Hn.
  destruct c as [|b t]; [done|]. pose proof Hc as (Hb & Ht & H3). cbn [length] in *.
  destruct (le_lt_dec (S (length t)) n) as [Hle|Hlt].
  - destruct (le_lt_dec (S (length t) + 3) n) as [Hge|Hlt].
    + destruct (IH (n - S (length t))%nat Hcs ltac:(lia)) as (j & Hj & E).
      exists (S (length t) + j)%nat. split; [lia|]. rewrite app_nth2 by (cbn [length]; lia).
      cbn [length]. by replace (S (length t) + j - S (length t))%nat with j by lia.
    + exists (S (length t)). split; [lia|]. rewrite app_nth2 by (cbn [length]; lia). cbn [length].
      rewrite Nat.sub_diag. destruct cs as [|c2 cs2]; [cbn in Hn; lia|].
      apply Forall_cons_1 in Hcs as [Hc2 _]. destruct c2 as [|b2 t2]; [done|]. by destruct Hc2.
  - exists 0%nat. split; [lia|done].
Qed.

(** A diagnostic that is well-formed UTF-8 stays well-formed when it is cut: the cut falls
    between two code points, keeps at most 48 bytes and drops no more than the three bytes that a
    code point straddling the limit needs; a diagnostic within the limit is untouched. *)
Theorem truncate_utf8 (cs : list (list byte)) (Hcs : Forall code_point cs) :
  (length (truncateNackDetail (concat cs)) <= 48)%nat
  /\ (exists m, truncateNackDetail (concat cs) = concat (take m cs))
  /\ (48 < length (concat cs) -> 45 <= length (truncateNackDetail (concat cs)))%nat
  /\ (length (concat cs) <= 48 -> truncateNackDetail (concat cs) = concat cs)%nat.
Proof.
  split; [apply truncate_length|]. unfold truncateNackDetail, kNackMaxDetailBytes.
  destruct (Nat.leb_spec (length (concat cs)) 48) as [Hle|Hgt].
  - split_and!; [|lia|done]. exists (length cs). by rewrite firstn_all.
  - destruct (back_off_spec 48 (concat cs)) as [Hall Hstop]. pose proof (back_off_le 48 (concat cs)) as Hb.
    destruct (lead_within cs 48 Hcs ltac:(lia)) as (j & Hj & Ej).
    assert (j <= back_off 48 (concat cs))%nat.
    { destruct (le_lt_dec j (back_off 48 (concat cs))) as [|Hlt]; [done|].
      rewrite Hall in Ej by lia. done. }
    split_and!; [| |lia].
    + destruct (cut_at_lead cs (back_off 48 (concat cs)) Hcs ltac:(lia) Hstop) as (m & E & _). eauto.
    + intros _. rewrite length_take. lia.
Qed.

Lemma truncate_utf8_witness :
  let cs := replicate 47 [Byte.x61] ++ [[Byte.xc3; Byte.xa9]] in
  Forall code_point cs /\ length (truncateNackDetail (concat cs)) = 47%nat
  /\ (length (truncateNackDetail (concat cs)) <= 48)%nat.
Proof.
  split; [by repeat constructor|]. split; [reflexivity|].
  exact (proj1 (truncate_utf8 (replicate 47 [Byte.x61] ++ [[Byte.xc3; Byte.xa9]])
    ltac:(by repeat constructor))).
Defined.

(** ** Codec contracts *)

Definition nack_ok (m : NackMsg) : Prop :=
  in_u 16 (nk_code m) /\ opt_in 16 (nk_channel_id m) /\ opt_in 16 (nk_intent_id m)
  /\ opt_in 32 (nk_retry_after_ms m) /\ opt_in 16 (nk_intent_seq m).

Definition nack_fields (m : NackMsg) : list (Z * Item) :=
  opt_fld CborKey.channel_id IUint (nk_channel_id m)
  ++ fld CborKey.code (IUint (nk_code m))
  ++ opt_fld CborKey.detail (fun v => ITstr (truncateNackDetail v)) (nk_detail m)
  ++ opt_fld CborKey.intent_id IUint (nk_intent_id m)
  ++ opt_fld CborKey.retry_after_ms IUint (nk_retry_after_ms m)
  ++ opt_fld CborKey.intent_seq IUint (nk_intent_seq m).

Definition nack_norm (m : NackMsg) : NackMsg := set_nk_detail (option_map truncateNackDetail (nk_detail m)) m.

Lemma nack_fold m : nack_ok m ->
  fold_fields (fun k a => meaning (nack_field k a) 3) (nack_fields m) (NackMsg_new, false)
  = ok (nack_norm m, true).
Proof.
  intros (H1 & H2 & H3 & H4 & H5).
  destruct m as [c [ch|] [ii|] [d|] [ra|] [sq|]]; unfold nack_fields; solve_fold.
  all: unfold nack_norm; cbn; by rewrite truncate_idem.
Qed.

#[export] Instance nack_codec : CborMessage NackMsg.
Proof.
  refine {| msg_ok := nack_ok; msg_fields := nack_fields; msg_encode := encodeNack;
            msg_decode := decodeNack; msg_norm := nack_norm; msg_known := [15; 16; 17; 18; 31; 41] |}.
  - intros m (H1 & H2 & H3 & H4 & H5). unfold encodeNack, nack_fields. solve_encodes.
  - intros m (H1 & H2 & H3 & H4 & H5). unfold nack_fields. solve_fields_wf.
    apply truncate_wf.
  - intros m. unfold nack_fields. solve_known.
  - intros m kvs rest Hok. 
    unfold decodeNack, p_nack. intros Hw Hn Hf.
    apply (decode_fields nack_field (NackMsg_new, false) _ [15; 16; 17; 18; 31; 41] kvs (nack_fields m) rest (nack_norm m, true)); try done.
    + intros k [m0 g] Hk. unfold nack_field. solve_skips Hk.
    + by apply nack_fold.
  - intros inp m. apply decode_map_sound.
Defined.

Definition goodbye_ok (m : GoodbyeMsg) : Prop := in_u 16 (gb_code m).

Definition goodbye_fields (m : GoodbyeMsg) : list (Z * Item) :=
  fld CborKey.code (IUint (gb_code m))
  ++ opt_fld CborKey.detail (fun v => ITstr (truncateNackDetail v)) (gb_detail m).

Definition goodbye_norm (m : GoodbyeMsg) : GoodbyeMsg :=
  set_gb_detail (option_map truncateNackDetail (gb_detail m)) m.

Lemma goodbye_fold m : goodbye_ok m ->
  fold_fields (fun k a => meaning (goodbye_field k a) 3) (goodbye_fields m) (GoodbyeMsg_new, false)
  = ok (goodbye_norm m, true).
Proof.
  intros H1. unfold goodbye_ok in H1. destruct m as [c [d|]]; unfold goodbye_fields; solve_fold.
  unfold goodbye_norm. cbn. by rewrite truncate_idem.
Qed.

#[export] Instance goodbye_codec : CborMessage GoodbyeMsg.
Proof.
  refine {| msg_ok := goodbye_ok; msg_fields := goodbye_fields; msg_encode := encodeGoodbye;
            msg_decode := decodeGoodbye; msg_norm := goodbye_norm; msg_known := [16; 17] |}.
  - intros m H1. unfold goodbye_ok in H1. unfold encodeGoodbye, goodbye_fields. solve_encodes.
  - intros m H1. unfold goodbye_ok in H1. unfold goodbye_fields. solve_fields_wf. apply truncate_wf.
  - intros m. unfold goodbye_fields. solve_known.
  - intros m kvs rest Hok. unfold decodeGoodbye, p_goodbye. intros Hw Hn Hf.
    apply (decode_fields goodbye_field (GoodbyeMsg_new, false) _ [16; 17] kvs (goodbye_fields m) rest
      (goodbye_norm m, true)); try done.
    + intros k [m0 g] Hk. unfold goodbye_field. solve_skips Hk.
    + by apply goodbye_fold.
  - intros inp m. apply decode_map_sound.
Defined.

Lemma code_field {A} v (g : Z -> A) i a :
  i = IUint v -> wf i = true -> (let? c := at_most 0xFFFF v in ok (g (u16 c))) = ok a ->
  exists c, c = v /\ a = g c /\ in_u 16 c /\ u16 c = c.
Proof.
  intros -> Hw%in_ub_spec H. apply result_bind_ok in H as (c & [-> Hle]%at_most_inv & [= <-]).
  assert (in_u 16 v) by (unfold in_u in *; lia). exists v. by rewrite !wrap_small.
Qed.

(** NACK: the encoder reports 0 exactly when the span is too small and otherwise touches only
    the bytes it reports; what it wrote decodes to the same refusal with the diagnostic cut to its
    limit, also when the map carries further keys this version does not know. *)
Theorem nack_contract (m : NackMsg) (out : list byte) (Hok : nack_ok m) :
  let '(o, n) := encodeNack m out in
  length o = length out
  /\ (n = 0%nat <-> (length out < length (encode (IMap (nack_fields m))))%nat)
  /\ (n <> 0%nat -> drop n o = drop n out /\ decodeNack (take n o) = ok (nack_norm m))
  /\ forall kvs rest, wf (IMap kvs) = true ->
       Forall (fun kv => knownb [15; 16; 17; 18; 31; 41] kv = false -> (nest (snd kv) <= 3)%nat) kvs ->
       List.filter (knownb [15; 16; 17; 18; 31; 41]) kvs = nack_fields m ->
       decodeNack (encode (IMap kvs) ++ rest) = ok (nack_norm m).
Proof. exact (message_contract m out Hok). Qed.

Lemma nack_contract_witness :
  let m := set_nk_detail (Some [Byte.x62; Byte.x75]) (set_nk_code 0x0401 NackMsg_new) in
  let '(o, n) := encodeNack m (replicate 32 Byte.x00) in
  n = 9%nat /\ length o = 32%nat.
Proof.
  split; [reflexivity|].
  refine (proj1 (nack_contract (set_nk_detail (Some [Byte.x62; Byte.x75]) (set_nk_code 0x0401 NackMsg_new))
    (replicate 32 Byte.x00) _)).
  unfold nack_ok, in_u. cbn. lia.
Defined.

(** A NACK or GOODBYE is accepted only with its required code: whatever bytes decode, they
    carry key 16 with exactly the reported code, a 16-bit value. *)
Theorem nack_goodbye_code_required (inp : list byte) :
  (forall m, decodeNack inp = ok m ->
     exists kvs rest, inp = encode (IMap kvs) ++ rest /\ In (16, IUint (nk_code m)) kvs /\ in_u 16 (nk_code m))
  /\ (forall m, decodeGoodbye inp = ok m ->
     exists kvs rest, inp = encode (IMap kvs) ++ rest /\ In (16, IUint (gb_code m)) kvs /\ in_u 16 (gb_code m)).
Proof.
  split; intros m H.
  - apply (decode_map_inv _ _ _ (fun kvs '(m, g) => g = true -> In (16, IUint (nk_code m)) kvs /\ in_u 16 (nk_code m))) in H
      as (kvs & rest & [m0 g] & Hw & -> & HP & Hpost); [|done|].
    + destruct g; [|done]. injection Hpost as <-. destruct (HP eq_refl). eauto.
    + clear. intros kvs k i [m g] [m' g'] Hin Hwi Hs HP. unfold nack_field in Hs. dispatch Hs.
      all: try (injection Hs as <- <-; exact HP).
      * apply (code_field v (fun c => (set_nk_code c m, true)) i _ Hp Hwi) in Hs as (c & -> & [= -> ->] & Hc & _).
        intros _. by subst i.
      * apply result_bind_ok in Hs as (c & _ & [= <- <-]). exact HP.
  - apply (decode_map_inv _ _ _ (fun kvs '(m, g) => g = true -> In (16, IUint (gb_code m)) kvs /\ in_u 16 (gb_code m))) in H
      as (kvs & rest & [m0 g] & Hw & -> & HP & Hpost); [|done|].
    + destruct g; [|done]. injection Hpost as <-. destruct (HP eq_refl). eauto.
    + clear. intros kvs k i [m g] [m' g'] Hin Hwi Hs HP. unfold goodbye_field in Hs. dispatch Hs.
      all: try (injection Hs as <- <-; exact HP).
      apply (code_field v (fun c => (set_gb_code c m, true)) i _ Hp Hwi) in Hs as (c & -> & [= -> ->] & Hc & _).
      intros _. by subst i.
Qed.

Lemma nack_goodbye_code_required_witness :
  exists kvs rest, encode (IMap [(16, IUint 5); (99, INull)]) = encode (IMap kvs) ++ rest
  /\ In (16, IUint 5) kvs /\ in_u 16 5.
Proof.
  exact (proj2 (nack_goodbye_code_required (encode (IMap [(16, IUint 5); (99, INull)])))
    (set_gb_code 5 GoodbyeMsg_new) eq_refl).
Defined.
