(* ===== verification/MsgIntent.v ===== *)
(** * MsgIntent: INTENT, ECHO and EVENT (wire/messages/intent.hpp, echo.hpp, event.hpp)

    The three messages that carry schema-dependent values: a small map from a channel's own field
    keys to tagged scalars.  A value count and its array are one list; the list may be longer than
    the array's capacity only on the encode side, where the source checks the count first. *)

From S2P Require Import Prelude CborItem CborReader CborWriter CborMessage.

Definition kIntentMaxValueFields : Z := 8.

(** The [kind] discriminator with the one member it makes meaningful; a float is its bits. *)
Inductive IntentValue :=
  | VU64 (v : Z) | VI64 (v : Z) | VF32 (bits : Z) | VBool (b : bool)
  | VTstr (s : list byte) | VBstr (b : list byte).

#[export] Instance IntentValue_eq_dec : EqDecision IntentValue.
Proof. solve_decision. Defined.

Abbreviation IntentValueField := (Z * IntentValue)%type.

Definition encodeIntentValue (v : IntentValue) : CborWriter -> CborWriter :=
  match v with
  | VU64 v => uintVal v
  | VI64 v => intVal v
  | VF32 bits => f32Val bits
  | VBool b => boolVal b
  | VTstr s => tstrVal s
  | VBstr b => bstrVal b
  end.

(** [for (i < count) { w.key(f.key); encodeIntentValue(w, f.value); }] after the map header. *)
Definition encodeIntentValueMap (l : list IntentValueField) : CborWriter -> CborWriter :=
  mapHeader (len l) ;;; w_each (fun f => key (fst f) ;;; encodeIntentValue (snd f)) l.

Definition decodeIntentValue_run (r : CborReader) : decoded (IntentValue * CborReader) :=
  let? t := peekType r in
  match t with
  | MT_UInt => let? (v, r') := readUint r in ok (VU64 v, r')
  | MT_NegInt => let? (v, r') := readInt r in ok (VI64 v, r')
  | MT_TextString => let? (v, r') := readTstr r in ok (VTstr v, r')
  | MT_ByteString => let? (v, r') := readBstr r in ok (VBstr v, r')
  | MT_Simple =>
      match readBool r with
      | ok (b, r') => ok (VBool b, r')
      | err _ => let? (f, r') := readF32 r in ok (VF32 f, r')
      end
  | MT_Array | MT_Map | MT_Tag => err Malformed
  end.

Definition sem_value (b : nat) (i : Item) : decoded IntentValue :=
  match i with
  | IUint v => ok (VU64 v)
  | INeg n => ok (VI64 (-1 - i64 n))
  | ITstr s => ok (VTstr s)
  | IBstr s => ok (VBstr s)
  | IBool v => ok (VBool v)
  | IF32 bits => ok (VF32 bits)
  | _ => err Malformed
  end.

Lemma Reads_value : Reads decodeIntentValue_run sem_value.
Proof.
  pose proof (Reads_then _ _ (fun v => ok (VU64 v)) Reads_uint) as HU.
  pose proof (Reads_then _ _ (fun v => ok (VI64 v)) Reads_int) as HI.
  pose proof (Reads_then _ _ (fun v => ok (VTstr v)) Reads_tstr) as HT.
  pose proof (Reads_then _ _ (fun v => ok (VBstr v)) Reads_bstr) as HB.
  split.
  - intros r i rest Hr Hw Hu. unfold decodeIntentValue_run.
    rewrite (peekType_item r i rest Hw Hu). cbn [result_bind]. destruct i; cbn [item_type]; try done.
    + exact (reads_item _ _ HU r _ rest Hr Hw Hu).
    + exact (reads_item _ _ HI r _ rest Hr Hw Hu).
    + exact (reads_item _ _ HB r _ rest Hr Hw Hu).
    + exact (reads_item _ _ HT r _ rest Hr Hw Hu).
    + by rewrite (reads_item _ _ Reads_bool r _ rest Hr Hw Hu).
    + by rewrite (reads_item _ _ Reads_bool r _ rest Hr Hw Hu), (reads_item _ _ Reads_f32 r _ rest Hr Hw Hu).
    + by rewrite (reads_item _ _ Reads_bool r _ rest Hr Hw Hu), (reads_item _ _ Reads_f32 r _ rest Hr Hw Hu).
  - intros r a r' Hr H. apply result_bind_ok in H as (t & Ht & H).
    assert (forall sem : nat -> Item -> decoded IntentValue, (exists i rest, wf i = true /\ unread r = encode i ++ rest
        /\ r' = consume (length (encode i)) r /\ sem (budget r) i = ok a) ->
      (forall i, item_type i = t -> sem (budget r) i = ok a -> sem_value (budget r) i = ok a) ->
      exists i rest, wf i = true /\ unread r = encode i ++ rest
        /\ r' = consume (length (encode i)) r /\ sem_value (budget r) i = ok a) as Hgo.
    { intros sem (i & rest & Hw & Hu & Hr' & Hs) Himp. exists i, rest. split_and!; try done. apply Himp; [|done].
      rewrite (peekType_item r i rest Hw Hu) in Ht. by injection Ht. }
    destruct t; try done.
    + apply (Hgo _ (reads_sound _ _ HU r a r' Hr H)). by intros [].
    + apply (Hgo _ (reads_sound _ _ HI r a r' Hr H)). by intros [].
    + apply (Hgo _ (reads_sound _ _ HB r a r' Hr H)). by intros [].
    + apply (Hgo _ (reads_sound _ _ HT r a r' Hr H)). by intros [].
    + destruct (readBool r) as [[b rb]|] eqn:Eb.
      * injection H as <- <-. destruct (reads_sound _ _ Reads_bool r b rb Hr Eb) as (i & rest & Hw & Hu & -> & Hs).
        exists i, rest. split_and!; [done..|]. destruct i; try done. by injection Hs as ->.
      * pose proof (Reads_then _ _ (fun v => ok (VF32 v)) Reads_f32) as HF.
        apply (Hgo _ (reads_sound _ _ HF r a r' Hr H)). by intros [].
Qed.

Definition p_value : ItemReader IntentValue := {| run := decodeIntentValue_run; run_reads := Reads_value |}.

(** [decodeIntentValue(r)]. *)
Definition decodeIntentValue := run p_value.

(** [decodeIntentValueMap]: the count check precedes the entries, the key check the value. *)
Definition p_value_map (Capacity : Z) : ItemReader (list IntentValueField) :=
  fields (fun n => if Capacity <? n then err CapacityExceeded else ok [])
    (fun fk acc =>
       if 0xFF <? fk then refuse Malformed
       else reading p_value (fun v => ok (acc ++ [(u8 fk, v)]))).

Definition decodeIntentValueMap (Capacity : Z) := run (p_value_map Capacity).

Record IntentMsg := mkIntentMsg {
  it_channel_id : Z; it_intent_id : Z; it_value : list IntentValueField;
     it_precondition : option Z; it_takeover : option bool; it_trial : option bool }.

Definition IntentMsg_new : IntentMsg :=
  {| it_channel_id := 0; it_intent_id := 0; it_value := []; it_precondition := None;
     it_takeover := None; it_trial := None |}.

Definition set_it_channel_id (v : Z) (m : IntentMsg) : IntentMsg :=
  {| it_channel_id := v; it_intent_id := it_intent_id m; it_value := it_value m;
     it_precondition := it_precondition m; it_takeover := it_takeover m; it_trial := it_trial m |}.
Definition set_it_intent_id (v : Z) (m : IntentMsg) : IntentMsg :=
  {| it_channel_id := it_channel_id m; it_intent_id := v; it_value := it_value m;
     it_precondition := it_precondition m; it_takeover := it_takeover m; it_trial := it_trial m |}.
Definition set_it_value (v : list IntentValueField) (m : IntentMsg) : IntentMsg :=
  {| it_channel_id := it_channel_id m; it_intent_id := it_intent_id m; it_value := v;
     it_precondition := it_precondition m; it_takeover := it_takeover m; it_trial := it_trial m |}.
Definition set_it_precondition (v : option Z) (m : IntentMsg) : IntentMsg :=
  {| it_channel_id := it_channel_id m; it_intent_id := it_intent_id m; it_value := it_value m;
     it_precondition := v; it_takeover := it_takeover m; it_trial := it_trial m |}.
Definition set_it_takeover (v : option bool) (m : IntentMsg) : IntentMsg :=
  {| it_channel_id := it_channel_id m; it_intent_id := it_intent_id m; it_value := it_value m;
     it_precondition := it_precondition m; it_takeover := v; it_trial := it_trial m |}.
Definition set_it_trial (v : option bool) (m : IntentMsg) : IntentMsg :=
  {| it_channel_id := it_channel_id m; it_intent_id := it_intent_id m; it_value := it_value m;
     it_precondition := it_precondition m; it_takeover := it_takeover m; it_trial := v |}.

Definition encodeIntent (m : IntentMsg) (out : list byte) : list byte * nat :=
  if kIntentMaxValueFields <? len (it_value m) then (out, 0%nat)
  else
    let nKeys := 3 + Z.b2z (has (it_precondition m)) + Z.b2z (has (it_takeover m)) + Z.b2z (has (it_trial m)) in
    finish ((mapHeader nKeys
      ;;; (key CborKey.channel_id ;;; uintVal (it_channel_id m))
      ;;; (key CborKey.intent_id ;;; uintVal (it_intent_id m))
      ;;; (key CborKey.value ;;; encodeIntentValueMap (it_value m))
      ;;; w_opt (it_precondition m) (fun v => key CborKey.precondition ;;; uintVal v)
      ;;; w_opt (it_takeover m) (fun v => key CborKey.takeover ;;; boolVal v)
      ;;; w_opt (it_trial m) (fun v => key CborKey.trial ;;; boolVal v))
      (CborWriter_new out)).

(** The flags are [gotChannel], [gotIntentId], [gotValue]. *)
Definition intent_field (k : Z) (st : IntentMsg * (bool * bool * bool))
  : ItemReader (IntentMsg * (bool * bool * bool)) :=
  let '(m, (gc, gi, gv)) := st in
  if k =? CborKey.channel_id then reading p_uint (fun v => ok (set_it_channel_id (u16 v) m, (true, gi, gv)))
  else if k =? CborKey.intent_id then reading p_uint (fun v => ok (set_it_intent_id (u16 v) m, (gc, true, gv)))
  else if k =? CborKey.value then
    reading (p_value_map kIntentMaxValueFields) (fun v => ok (set_it_value v m, (gc, gi, true)))
  else if k =? CborKey.precondition then
    reading p_uint (fun v => ok (set_it_precondition (Some (u16 v)) m, (gc, gi, gv)))
  else if k =? CborKey.takeover then reading p_bool (fun v => ok (set_it_takeover (Some v) m, (gc, gi, gv)))
  else if k =? CborKey.trial then reading p_bool (fun v => ok (set_it_trial (Some v) m, (gc, gi, gv)))
  else skipping st.

Definition p_intent : ItemReader IntentMsg :=
  reading (fields (fun _ => ok (IntentMsg_new, (false, false, false))) intent_field)
    (fun '(m, (gc, gi, gv)) => if negb (gc && gi && gv) then err Malformed else ok m).

Definition decodeIntent (inp : list byte) : decoded IntentMsg := decode p_intent inp.

Record EchoMsg := mkEchoMsg {
  ec_intent_id : Z; ec_cfg_gen : Z; ec_applied : list IntentValueField }.

Definition EchoMsg_new : EchoMsg :=
  {| ec_intent_id := 0; ec_cfg_gen := 0; ec_applied := [] |}.

Definition set_ec_intent_id (v : Z) (m : EchoMsg) : EchoMsg :=
  {| ec_intent_id := v; ec_cfg_gen := ec_cfg_gen m; ec_applied := ec_applied m |}.
Definition set_ec_cfg_gen (v : Z) (m : EchoMsg) : EchoMsg :=
  {| ec_intent_id := ec_intent_id m; ec_cfg_gen := v; ec_applied := ec_applied m |}.
Definition set_ec_applied (v : list IntentValueField) (m : EchoMsg) : EchoMsg :=
  {| ec_intent_id := ec_intent_id m; ec_cfg_gen := ec_cfg_gen m; ec_applied := v |}.

Definition encodeEcho (m : EchoMsg) (out : list byte) : list byte * nat :=
  if kIntentMaxValueFields <? len (ec_applied m) then (out, 0%nat)
  else
    finish ((mapHeader 3
      ;;; (key CborKey.cfg_gen ;;; uintVal (ec_cfg_gen m))
      ;;; (key CborKey.intent_id ;;; uintVal (ec_intent_id m))
      ;;; (key CborKey.applied ;;; encodeIntentValueMap (ec_applied m)))
      (CborWriter_new out)).

Definition echo_field (k : Z) (st : EchoMsg * (bool * bool * bool)) : ItemReader (EchoMsg * (bool * bool * bool)) :=
  let '(m, (gi, gc, ga)) := st in
  if k =? CborKey.cfg_gen then reading p_uint (fun v => ok (set_ec_cfg_gen (u16 v) m, (gi, true, ga)))
  else if k =? CborKey.intent_id then reading p_uint (fun v => ok (set_ec_intent_id (u16 v) m, (true, gc, ga)))
  else if k =? CborKey.applied then
    reading (p_value_map kIntentMaxValueFields) (fun v => ok (set_ec_applied v m, (gi, gc, true)))
  else skipping st.

Definition p_echo : ItemReader EchoMsg :=
  reading (fields (fun _ => ok (EchoMsg_new, (false, false, false))) echo_field)
    (fun '(m, (gi, gc, ga)) => if negb (gi && gc && ga) then err Malformed else ok m).

Definition decodeEcho (inp : list byte) : decoded EchoMsg := decode p_echo inp.

Record EventMsg := mkEventMsg {
  ev_channel_id : Z; ev_timestamp : Z; ev_event_kind : Z; ev_seq_of_state : option Z;
     ev_body : option (list IntentValueField) }.

Definition EventMsg_new : EventMsg :=
  {| ev_channel_id := 0; ev_timestamp := 0; ev_event_kind := 0; ev_seq_of_state := None;
     ev_body := None |}.

Definition set_ev_channel_id (v : Z) (m : EventMsg) : EventMsg :=
  {| ev_channel_id := v; ev_timestamp := ev_timestamp m; ev_event_kind := ev_event_kind m;
     ev_seq_of_state := ev_seq_of_state m; ev_body := ev_body m |}.
Definition set_ev_timestamp (v : Z) (m : EventMsg) : EventMsg :=
  {| ev_channel_id := ev_channel_id m; ev_timestamp := v; ev_event_kind := ev_event_kind m;
     ev_seq_of_state := ev_seq_of_state m; ev_body := ev_body m |}.
Definition set_ev_event_kind (v : Z) (m : EventMsg) : EventMsg :=
  {| ev_channel_id := ev_channel_id m; ev_timestamp := ev_timestamp m; ev_event_kind := v;
     ev_seq_of_state := ev_seq_of_state m; ev_body := ev_body m |}.
Definition set_ev_seq_of_state (v : option Z) (m : EventMsg) : EventMsg :=
  {| ev_channel_id := ev_channel_id m; ev_timestamp := ev_timestamp m;
     ev_event_kind := ev_event_kind m; ev_seq_of_state := v; ev_body := ev_body m |}.
Definition set_ev_body (v : option (list IntentValueField)) (m : EventMsg) : EventMsg :=
  {| ev_channel_id := ev_channel_id m; ev_timestamp := ev_timestamp m;
     ev_event_kind := ev_event_kind m; ev_seq_of_state := ev_seq_of_state m; ev_body := v |}.

Definition encodeEvent (m : EventMsg) (out : list byte) : list byte * nat :=
  if kIntentMaxValueFields <? len (default [] (ev_body m)) then (out, 0%nat)
  else
    let nKeys := 3 + Z.b2z (has (ev_body m)) + Z.b2z (has (ev_seq_of_state m)) in
    finish ((mapHeader nKeys
      ;;; (key CborKey.channel_id ;;; uintVal (ev_channel_id m))
      ;;; (key CborKey.timestamp ;;; uintVal (ev_timestamp m))
      ;;; (key CborKey.event_kind ;;; uintVal (ev_event_kind m))
      ;;; w_opt (ev_seq_of_state m) (fun v => key CborKey.seq_of_state ;;; uintVal v)
      ;;; w_opt (ev_body m) (fun l => key CborKey.body ;;; encodeIntentValueMap l))
      (CborWriter_new out)).

(** The flags are [gotChannel], [gotTimestamp], [gotKind]. *)
Definition event_field (k : Z) (st : EventMsg * (bool * bool * bool)) : ItemReader (EventMsg * (bool * bool * bool)) :=
  let '(m, (gc, gt, gk)) := st in
  if k =? CborKey.channel_id then reading p_uint (fun v => ok (set_ev_channel_id (u16 v) m, (true, gt, gk)))
  else if k =? CborKey.body then
    reading (p_value_map kIntentMaxValueFields) (fun v => ok (set_ev_body (Some v) m, (gc, gt, gk)))
  else if k =? CborKey.timestamp then reading p_uint (fun v => ok (set_ev_timestamp (u32 v) m, (gc, true, gk)))
  else if k =? CborKey.event_kind then reading p_uint (fun v => ok (set_ev_event_kind (u16 v) m, (gc, gt, true)))
  else if k =? CborKey.seq_of_state then
    reading p_uint (fun v => ok (set_ev_seq_of_state (Some (u16 v)) m, (gc, gt, gk)))
  else skipping st.

Definition p_event : ItemReader EventMsg :=
  reading (fields (fun _ => ok (EventMsg_new, (false, false, false))) event_field)
    (fun '(m, (gc, gt, gk)) => if negb (gc && gt && gk) then err Malformed else ok m).

Definition decodeEvent (inp : list byte) : decoded EventMsg := decode p_event inp.

(** ** Value maps *)

Definition value_item (v : IntentValue) : Item :=
  match v with
  | VU64 v => IUint v
  | VI64 z => if 0 <=? z then IUint z else INeg (-1 - z)
  | VF32 bits => IF32 bits
  | VBool b => IBool b
  | VTstr s => ITstr s
  | VBstr b => IBstr b
  end.

(** The values a C++ [IntentValue] can hold. *)
Definition value_ok (v : IntentValue) : Prop :=
  match v with
  | VU64 v => in_u 64 v
  | VI64 z => - 2 ^ 63 <= z < 2 ^ 63
  | VF32 bits => in_u 32 bits
  | VBool _ => True
  | VTstr s | VBstr s => in_u 64 (len s)
  end.

(** On the wire a non-negative signed value is an unsigned one. *)
Definition value_norm (v : IntentValue) : IntentValue :=
  match v with VI64 z => if 0 <=? z then VU64 z else VI64 z | _ => v end.

Definition field_norm (f : IntentValueField) : IntentValueField := (fst f, value_norm (snd f)).

Definition value_fields (l : list IntentValueField) : list (Z * Item) :=
  map (fun f => (fst f, value_item (snd f))) l.

Definition entry_ok (f : IntentValueField) : Prop := in_u 8 (fst f) /\ value_ok (snd f).

Definition value_map_ok (l : list IntentValueField) : Prop :=
  len l <= kIntentMaxValueFields /\ above None (map fst l) = true /\ Forall entry_ok l.

Lemma value_wf v : value_ok v -> wf (value_item v) = true.
Proof.
  destruct v; cbn [value_ok value_item]; intros H; try (cbn [wf]; by apply in_ub_spec); [|done].
  destruct (Z.leb_spec 0 v); cbn [wf]; apply in_ub_spec; unfold in_u; lia.
Qed.

Lemma value_nest v : nest (value_item v) = 0%nat.
Proof. destruct v; cbn [value_item]; try done. by destruct (0 <=? v). Qed.

Lemma writes_intent_value v : value_ok v -> writes_item (encodeIntentValue v) (value_item v).
Proof.
  destruct v; cbn [value_ok encodeIntentValue value_item]; intros H.
  - by apply writes_uint.
  - by apply writes_int.
  - by apply writes_f32.
  - apply writes_bool.
  - apply writes_tstr.
  - apply writes_bstr.
Qed.

Lemma value_decode b v : value_ok v -> meaning p_value b (value_item v) = ok (value_norm v).
Proof.
  destruct v; cbn [value_ok value_item value_norm]; intros H; try done.
  destruct (Z.leb_spec 0 v); [done|]. cbn [p_value meaning sem_value].
  rewrite swrap_small by lia. do 2 f_equal. lia.
Qed.

Lemma len_value_fields l : len (value_fields l) = len l.
Proof. unfold len, value_fields. by rewrite length_map. Qed.

Lemma keys_value_fields l : map fst (value_fields l) = map fst l.
Proof. unfold value_fields. rewrite map_map. done. Qed.

Lemma value_fields_concat l : concat (map (fun f => fld (fst f) (value_item (snd f))) l) = value_fields l.
Proof. induction l as [|f l IH]; [done|]. cbn [map concat]. by rewrite IH. Qed.

Lemma value_entries_write l :
  Forall entry_ok l ->
  writes_fields (w_each (fun f => key (fst f) ;;; encodeIntentValue (snd f)) l) (value_fields l).
Proof.
  intros H. rewrite <- value_fields_concat. apply fields_each.
  eapply Forall_impl; [|exact H]. intros f [Hk Hv]. apply writes_fld; [by in_range|by apply writes_intent_value].
Qed.

Lemma writes_value_map l : value_map_ok l -> writes_item (encodeIntentValueMap l) (IMap (value_fields l)).
Proof.
  intros (Hlen & Hab & Hall). unfold kIntentMaxValueFields in Hlen. pose proof (len_nonneg l).
  apply writes_map; [by rewrite len_value_fields|unfold in_u; lia|by rewrite keys_value_fields|].
  by apply value_entries_write.
Qed.

Lemma value_map_wf l : value_map_ok l -> wf (IMap (value_fields l)) = true.
Proof.
  intros (Hlen & Hab & Hall). unfold kIntentMaxValueFields in Hlen. pose proof (len_nonneg l).
  rewrite wf_map, keys_value_fields, Hab, len_value_fields, andb_true_r.
  apply andb_true_intro. split; [apply in_ub_spec; unfold in_u; lia|].
  apply forallb_forall. intros [k i] ([k' v] & [= <- <-] & Hin)%in_map_iff.
  rewrite Forall_forall in Hall. destruct (Hall _ Hin) as [Hk Hv]. cbn [fst snd] in *.
  unfold pair_ok. cbn [fst snd]. rewrite value_wf by done. rewrite andb_true_r. in_range.
Qed.

Lemma value_map_nest l : (nest (IMap (value_fields l)) <= 1)%nat.
Proof.
  apply nest_map. apply Forall_forall. intros [k i] ([k' v] & [= <- <-] & Hin)%in_map_iff.
  cbn [snd]. by rewrite value_nest.
Qed.

Lemma value_map_decode b l :
  value_map_ok l ->
  meaning (p_value_map kIntentMaxValueFields) (S b) (IMap (value_fields l)) = ok (map field_norm l).
Proof.
  intros (Hlen & _ & Hall). unfold p_value_map. rewrite meaning_fields, len_value_fields.
  rewrite (proj2 (Z.ltb_ge _ _)) by done. cbn [result_bind].
  match goal with |- fold_fields ?sem _ _ = _ =>
    enough (forall acc, fold_fields sem (value_fields l) acc = ok (acc ++ map field_norm l)) as Hgen
      by apply (Hgen []) end.
  induction Hall as [|[k v] l [Hk Hv] _ IH]; intros acc; cbn [value_fields map fold_fields fst snd].
  - by rewrite app_nil_r.
  - cbn [fst snd] in *. assert (k <= 0xFF) by (unfold in_u in Hk; lia).
    rewrite (proj2 (Z.ltb_ge 0xFF k)) by done. cbn [reading meaning].
    change (sem_value b (value_item v)) with (meaning p_value b (value_item v)).
    rewrite value_decode by done. cbn [result_bind]. rewrite wrap_small by done.
    rewrite len_cons in Hlen. fold (value_fields l). rewrite IH by lia. by rewrite <- app_assoc.
Qed.

#[local] Arguments value_fields : simpl never.
#[local] Arguments p_value_map : simpl never.
#[local] Arguments kIntentMaxValueFields : simpl never.

(** ** Codec contracts *)

Definition intent_ok (m : IntentMsg) : Prop :=
  in_u 16 (it_channel_id m) /\ in_u 16 (it_intent_id m) /\ value_map_ok (it_value m)
  /\ opt_in 16 (it_precondition m).

Definition intent_fields (m : IntentMsg) : list (Z * Item) :=
  fld CborKey.channel_id (IUint (it_channel_id m))
  ++ fld CborKey.intent_id (IUint (it_intent_id m))
  ++ fld CborKey.value (IMap (value_fields (it_value m)))
  ++ opt_fld CborKey.precondition IUint (it_precondition m)
  ++ opt_fld CborKey.takeover IBool (it_takeover m)
  ++ opt_fld CborKey.trial IBool (it_trial m).

Definition intent_norm (m : IntentMsg) : IntentMsg := set_it_value (map field_norm (it_value m)) m.

Lemma intent_fold m : intent_ok m ->
  fold_fields (fun k a => meaning (intent_field k a) 3) (intent_fields m) (IntentMsg_new, (false, false, false))
  = ok (intent_norm m, (true, true, true)).
Proof.
  intros (H1 & H2 & Hv%(value_map_decode 2) & H4).
  destruct m as [c i v [p|] [t|] [tr|]]; cbn [it_value] in Hv; unfold intent_fields; solve_fold_by ltac:(rewrite Hv).
Qed.

#[export] Instance intent_codec : CborMessage IntentMsg.
Proof.
  refine {| msg_ok := intent_ok; msg_fields := intent_fields; msg_encode := encodeIntent;
            msg_decode := decodeIntent; msg_norm := intent_norm; msg_known := [15; 18; 20; 30; 32; 51] |}.
  - intros m (H1 & H2 & Hv & H4). pose proof (proj1 Hv) as Hlen. unfold encodeIntent, intent_fields.
    eapply encodes_guard; [by apply Z.ltb_ge|]. solve_encodes.
    + by apply writes_value_map.
    + pose proof (value_map_nest (it_value m)). lia.
  - intros m (H1 & H2 & Hv & H4). unfold intent_fields. solve_fields_wf. by apply value_map_wf.
  - intros m. unfold intent_fields. solve_known.
  - intros m kvs rest Hok Hw Hn Hf. unfold decodeIntent, p_intent.
    apply (decode_fields intent_field (IntentMsg_new, (false, false, false)) _ [15; 18; 20; 30; 32; 51] kvs
      (intent_fields m) rest (intent_norm m, (true, true, true))); try done.
    + intros k [m0 [[gc gi] gv]] Hk. unfold intent_field. solve_skips Hk.
    + by apply intent_fold.
  - intros inp m. apply decode_map_sound.
Defined.

Definition echo_ok (m : EchoMsg) : Prop :=
  in_u 16 (ec_cfg_gen m) /\ in_u 16 (ec_intent_id m) /\ value_map_ok (ec_applied m).

Definition echo_fields (m : EchoMsg) : list (Z * Item) :=
  fld CborKey.cfg_gen (IUint (ec_cfg_gen m))
  ++ fld CborKey.intent_id (IUint (ec_intent_id m))
  ++ fld CborKey.applied (IMap (value_fields (ec_applied m))).

Definition echo_norm (m : EchoMsg) : EchoMsg := set_ec_applied (map field_norm (ec_applied m)) m.

Lemma echo_fold m : echo_ok m ->
  fold_fields (fun k a => meaning (echo_field k a) 3) (echo_fields m) (EchoMsg_new, (false, false, false))
  = ok (echo_norm m, (true, true, true)).
Proof.
  intros (H1 & H2 & Hv%(value_map_decode 2)).
  destruct m as [i c v]; cbn [ec_applied] in Hv; unfold echo_fields; solve_fold_by ltac:(rewrite Hv).
Qed.

#[export] Instance echo_codec : CborMessage EchoMsg.
Proof.
  refine {| msg_ok := echo_ok; msg_fields := echo_fields; msg_encode := encodeEcho;
            msg_decode := decodeEcho; msg_norm := echo_norm; msg_known := [9; 18; 19] |}.
  - intros m (H1 & H2 & Hv). pose proof (proj1 Hv) as Hlen. unfold encodeEcho, echo_fields.
    eapply encodes_guard; [by apply Z.ltb_ge|]. solve_encodes.
    + by apply writes_value_map.
    + pose proof (value_map_nest (ec_applied m)). lia.
  - intros m (H1 & H2 & Hv). unfold echo_fields. solve_fields_wf. by apply value_map_wf.
  - intros m. unfold echo_fields. solve_known.
  - intros m kvs rest Hok Hw Hn Hf. unfold decodeEcho, p_echo.
    apply (decode_fields echo_field (EchoMsg_new, (false, false, false)) _ [9; 18; 19] kvs
      (echo_fields m) rest (echo_norm m, (true, true, true))); try done.
    + intros k [m0 [[gi gc] ga]] Hk. unfold echo_field. solve_skips Hk.
    + by apply echo_fold.
  - intros inp m. apply decode_map_sound.
Defined.

Definition opt_map_ok (o : option (list IntentValueField)) : Prop :=
  match o with Some l => value_map_ok l | None => True end.

Definition event_ok (m : EventMsg) : Prop :=
  in_u 16 (ev_channel_id m) /\ in_u 32 (ev_timestamp m) /\ in_u 16 (ev_event_kind m)
  /\ opt_in 16 (ev_seq_of_state m) /\ opt_map_ok (ev_body m).

Definition event_fields (m : EventMsg) : list (Z * Item) :=
  fld CborKey.channel_id (IUint (ev_channel_id m))
  ++ fld CborKey.timestamp (IUint (ev_timestamp m))
  ++ fld CborKey.event_kind (IUint (ev_event_kind m))
  ++ opt_fld CborKey.seq_of_state IUint (ev_seq_of_state m)
  ++ opt_fld CborKey.body (fun l => IMap (value_fields l)) (ev_body m).

Definition event_norm (m : EventMsg) : EventMsg := set_ev_body (option_map (map field_norm) (ev_body m)) m.

Lemma event_fold m : event_ok m ->
  fold_fields (fun k a => meaning (event_field k a) 3) (event_fields m) (EventMsg_new, (false, false, false))
  = ok (event_norm m, (true, true, true)).
Proof.
  intros (H1 & H2 & H3 & H4 & Hv). destruct m as [c t k [s|] [l|]]; cbn [ev_body opt_map_ok] in Hv;
    try apply (value_map_decode 2) in Hv; unfold event_fields; solve_fold_by ltac:(rewrite Hv).
Qed.

#[export] Instance event_codec : CborMessage EventMsg.
Proof.
  refine {| msg_ok := event_ok; msg_fields := event_fields; msg_encode := encodeEvent;
            msg_decode := decodeEvent; msg_norm := event_norm; msg_known := [15; 21; 33; 34; 40] |}.
  - intros m (H1 & H2 & H3 & H4 & Hv). unfold encodeEvent, event_fields.
    eapply encodes_guard; [|solve_encodes].
    + destruct (ev_body m) as [l|]; cbn; [|done]. apply Z.ltb_ge. apply Hv.
    + apply writes_value_map. by rewrite H in Hv.
    + pose proof (value_map_nest a). lia.
  - intros m (H1 & H2 & H3 & H4 & Hv). unfold event_fields. solve_fields_wf.
    apply value_map_wf. by rewrite H in Hv.
  - intros m. unfold event_fields. solve_known.
  - intros m kvs rest Hok Hw Hn Hf. unfold decodeEvent, p_event.
    apply (decode_fields event_field (EventMsg_new, (false, false, false)) _ [15; 21; 33; 34; 40] kvs
      (event_fields m) rest (event_norm m, (true, true, true))); try done.
    + intros k [m0 [[gc gt] gk]] Hk. unfold event_field. solve_skips Hk.
    + by apply event_fold.
  - intros inp m. apply decode_map_sound.
Defined.

(** ** Field order on the encode side *)

Lemma each_broken {A} (f : A -> CborWriter -> CborWriter) l n w :
  (forall a w, broken n w -> broken n (f a w)) -> broken n w -> broken n (w_each f l w).
Proof. intros Hf. revert w. induction l as [|a l IH]; intros w Hw; cbn [w_each]; [done|]. auto. Qed.

Lemma key_unsorted k rem lk stk out pre :
  (length pre <= length out)%nat -> above lk [k] = false ->
  broken (length out) (key k (wrote out pre (mapFrame rem lk :: stk))).
Proof.
  intros Hp Ha. unfold key, keyRaw. cbn [wrote w_failed w_stack mapFrame isMap negb lastKey].
  destruct lk as [l|]; [|done]. cbn [above] in Ha. rewrite andb_true_r in Ha. apply Z.ltb_ge in Ha.
  rewrite (proj2 (Z.leb_le _ _)) by done. by apply broken_fail, wrote_length.
Qed.

Lemma key_broken k n w : broken n w -> broken n (key k w).
Proof. intros [Hf Ho]. unfold key, keyRaw. by rewrite Hf. Qed.

Lemma entry_broken (f : IntentValueField) n w :
  entry_ok f -> broken n w -> broken n ((key (fst f) ;;; encodeIntentValue (snd f)) w).
Proof.
  intros [_ Hv] Hw. unfold w_then.
  pose proof (writes_intent_value _ Hv [] ltac:(constructor)
    ltac:(rewrite value_nest; unfold kMaxDepth; cbn; lia)) as [Hb _ _].
  apply Hb, key_broken, Hw.
Qed.

Lemma entries_broken l n w :
  Forall entry_ok l -> broken n w -> broken n (w_each (fun f => key (fst f) ;;; encodeIntentValue (snd f)) l w).
Proof.
  intros H. revert w. induction H as [|f l Hf _ IH]; intros w Hw; cbn [w_each]; [done|].
  by apply IH, entry_broken.
Qed.

Lemma entries_unsorted l : forall rem lk stk out pre,
  live stk -> (length stk + 1 <= kMaxDepth)%nat -> Forall entry_ok l -> 2 * len l <= rem ->
  above lk (map fst l) = false -> (length pre <= length out)%nat ->
  broken (length out) (w_each (fun f => key (fst f) ;;; encodeIntentValue (snd f)) l
                         (wrote out pre (settle (mapFrame rem lk) stk))).
Proof.
  induction l as [|f l IH]; intros rem lk stk out pre Hl Hd Hall Hrem Ha Hp; [done|].
  apply Forall_cons_1 in Hall as [Hf Hall]. rewrite len_cons in Hrem. pose proof (len_nonneg l).
  cbn [w_each]. cbn [map fst] in Ha. change (fst f :: map fst l) with ([fst f] ++ map fst l) in Ha.
  rewrite above_app in Ha. destruct (above lk [fst f]) eqn:Ek.
  - cbn [andb reached] in Ha.
    assert (writes_fields (key (fst f) ;;; encodeIntentValue (snd f)) (fld (fst f) (value_item (snd f)))) as Hw.
    { destruct Hf. apply writes_fld; [by in_range|by apply writes_intent_value]. }
    destruct (Hw stk rem lk Hl) as [Hb Hfit Hfull]; [| |change (len (fld (fst f) (value_item (snd f)))) with 1; lia|].
    { constructor; [|constructor]. cbn [snd]. rewrite value_nest. lia. }
    { done. }
    destruct (le_lt_dec (length pre + length (concat (map encode_pair (fld (fst f) (value_item (snd f)))))) (length out)).
    + rewrite Hfit by done. change (len (fld (fst f) (value_item (snd f)))) with 1.
      apply IH; first [done | lia | rewrite length_app; lia].
    + apply entries_broken; [done|]. apply Hfull. lia.
  - apply entries_broken; [done|]. unfold w_then. destruct Hf as [_ Hv].
    pose proof (writes_intent_value _ Hv [] ltac:(constructor)
      ltac:(rewrite value_nest; unfold kMaxDepth; cbn; lia)) as [Hb _ _]. apply Hb.
    rewrite settle_pos by (cbn; lia). by apply key_unsorted.
Qed.

(** INTENT is the only way a client changes anything: encoding reports 0 exactly when the span
    is too small, touches only the bytes it reports, and the hub decodes the very channel, id,
    guard, flags and values that were sent (a non-negative signed value arriving as unsigned),
    also past keys it does not know. *)
Theorem intent_contract (m : IntentMsg) (out : list byte) (Hok : intent_ok m) :
  let '(o, n) := encodeIntent m out in
  length o = length out
  /\ (n = 0%nat <-> (length out < length (encode (IMap (intent_fields m))))%nat)
  /\ (n <> 0%nat -> drop n o = drop n out /\ decodeIntent (take n o) = ok (intent_norm m))
  /\ forall kvs rest, wf (IMap kvs) = true ->
       Forall (fun kv => knownb [15; 18; 20; 30; 32; 51] kv = false -> (nest (snd kv) <= 3)%nat) kvs ->
       List.filter (knownb [15; 18; 20; 30; 32; 51]) kvs = intent_fields m ->
       decodeIntent (encode (IMap kvs) ++ rest) = ok (intent_norm m).
Proof. exact (message_contract m out Hok). Qed.

(** Concrete value maps. *)
Ltac entries_ok :=
  repeat (apply Forall_cons; [split; [unfold in_u; cbn; lia|cbn [snd value_ok]; unfold in_u, len; cbn; try done; lia]|]);
  apply Forall_nil.

Definition sample_intent : IntentMsg :=
  set_it_value [(1, VU64 7); (2, VI64 (-5)); (3, VTstr [Byte.x61])] (set_it_channel_id 0x201 IntentMsg_new).

Lemma intent_contract_witness :
  let '(o, n) := encodeIntent sample_intent (replicate 24 Byte.x00) in
  n = 16%nat /\ length o = 24%nat.
Proof.
  split; [reflexivity|].
  refine (proj1 (intent_contract sample_intent (replicate 24 Byte.x00) _)).
  unfold intent_ok, in_u, value_map_ok, kIntentMaxValueFields. cbn. split_and!; try lia; try done.
  entries_ok.
Defined.

(** An ECHO and an EVENT carry their values to the other side the same way. *)
Theorem echo_event_roundtrip (e : EchoMsg) (v : EventMsg) (out : list byte)
  (He : echo_ok e) (Hv : event_ok v) :
  (let '(o, n) := encodeEcho e out in
   (n = 0%nat <-> (length out < length (encode (IMap (echo_fields e))))%nat)
   /\ (n <> 0%nat -> decodeEcho (take n o) = ok (echo_norm e)))
  /\ (let '(o, n) := encodeEvent v out in
   (n = 0%nat <-> (length out < length (encode (IMap (event_fields v))))%nat)
   /\ (n <> 0%nat -> decodeEvent (take n o) = ok (event_norm v))).
Proof.
  pose proof (message_contract e out He) as Ce. pose proof (message_contract v out Hv) as Cv.
  cbn [msg_encode msg_decode msg_norm msg_fields echo_codec event_codec] in Ce, Cv.
  destruct (encodeEcho e out), (encodeEvent v out). naive_solver.
Qed.

Lemma echo_event_roundtrip_witness :
  let e := set_ec_applied [(1, VBool true)] EchoMsg_new in
  let v := set_ev_body (Some [(4, VF32 0)]) EventMsg_new in
  (let '(o, n) := encodeEcho e (replicate 10 Byte.x00) in
   (n = 0%nat <-> (10 < length (encode (IMap (echo_fields e))))%nat)
   /\ (n <> 0%nat -> decodeEcho (take n o) = ok (echo_norm e))).
Proof.
  refine (proj1 (echo_event_roundtrip (set_ec_applied [(1, VBool true)] EchoMsg_new)
    (set_ev_body (Some [(4, VF32 0)]) EventMsg_new) (replicate 10 Byte.x00) _ _)).
  - unfold echo_ok, value_map_ok, in_u, kIntentMaxValueFields. cbn. split_and!; try lia; try done.
    entries_ok.
  - unfold event_ok, opt_map_ok, value_map_ok, in_u, kIntentMaxValueFields. cbn. split_and!; try lia; try done.
    entries_ok.
Defined.

Definition entry_bounded (f : IntentValueField) : Prop := in_u 8 (fst f).

(** A decoded value map. *)
Lemma value_map_decoded b i l :
  wf i = true -> meaning (p_value_map kIntentMaxValueFields) (S b) i = ok l ->
  len l <= kIntentMaxValueFields /\ above None (map fst l) = true /\ Forall entry_bounded l.
Proof.
  intros Hw H. destruct i as [| | | | |kvs| | |]; try done. unfold p_value_map in H. rewrite meaning_fields in H.
  destruct (Z.ltb_spec kIntentMaxValueFields (len kvs)) as [|Hlen]; [done|]. cbn [result_bind] in H.
  rewrite wf_map in Hw. apply andb_prop in Hw as [[_ Hab]%andb_prop Hall].
  enough (forall acc, fold_fields
      (fun k a => meaning (if 0xFF <? k then refuse Malformed else reading p_value (fun v => ok (a ++ [(u8 k, v)]))) b)
      kvs acc = ok l ->
    exists l', l = acc ++ l' /\ len l' = len kvs /\ map fst l' = map fst kvs /\ Forall entry_bounded l') as Hgen.
  { destruct (Hgen [] H) as (l' & -> & Hl & Hk & Hb). cbn [app]. rewrite Hk, Hl. done. }
  clear H Hlen Hab. induction kvs as [|[k i] kvs IH]; intros acc H; cbn [fold_fields] in H.
  - injection H as <-. exists []. by rewrite app_nil_r.
  - apply result_bind_ok in H as (a & Hs & H). destruct (Z.ltb_spec 0xFF k) as [|Hk]; [done|].
    apply reading_inv in Hs as (v & _ & [= <-]).
    cbn [forallb] in Hall. apply andb_prop in Hall as [Hp Hall]. unfold pair_ok in Hp. cbn [fst snd] in Hp.
    apply andb_prop in Hp as [Hk64%in_ub_spec _].
    apply (IH Hall) in H as (l' & -> & Hl & Hm & Hb).
    assert (in_u 8 k) by (unfold in_u in *; lia).
    exists ((k, v) :: l'). rewrite wrap_small by done. cbn [map fst]. rewrite !len_cons, Hl, Hm, <- app_assoc.
    split_and!; try done. by constructor.
Qed.

(** Whatever bytes decode as an INTENT carry a channel, an id and a value map, and hand the hub
    at most eight fields under strictly ascending 8-bit keys, so no field is ever set twice. *)
Theorem intent_sound (inp : list byte) (m : IntentMsg) (H : decodeIntent inp = ok m) :
  len (it_value m) <= kIntentMaxValueFields /\ above None (map fst (it_value m)) = true
  /\ Forall entry_bounded (it_value m)
  /\ exists kvs rest c i l, inp = encode (IMap kvs) ++ rest
     /\ In (15, IUint c) kvs /\ it_channel_id m = u16 c
     /\ In (18, IUint i) kvs /\ it_intent_id m = u16 i /\ In (20, IMap l) kvs.
Proof.
  apply (decode_map_inv _ _ _ (fun kvs '(m, (gc, gi, gv)) =>
     (gc = true -> exists c, In (15, IUint c) kvs /\ it_channel_id m = u16 c)
     /\ (gi = true -> exists i, In (18, IUint i) kvs /\ it_intent_id m = u16 i)
     /\ (gv = true -> (exists l, In (20, IMap l) kvs) /\ len (it_value m) <= kIntentMaxValueFields
          /\ above None (map fst (it_value m)) = true /\ Forall entry_bounded (it_value m)))) in H
    as (kvs & rest & [m0 [[gc gi] gv]] & Hw & -> & (HC & HI & HV) & Hpost).
  - destruct gc, gi, gv; try done. injection Hpost as <-.
    destruct (HC eq_refl) as (c & ? & ?), (HI eq_refl) as (i & ? & ?), (HV eq_refl) as ([l ?] & ? & ? & ?).
    split_and!; try done. eauto 20.
  - done.
  - clear. intros kvs k i [m [[gc gi] gv]] [m' [[gc' gi'] gv']] Hin Hwi Hs (HC & HI & HV).
    unfold intent_field in Hs. dispatch Hs.
    all: try (injection Hs as <- <- <- <-; subst; split_and!; eauto; fail).
    injection Hs as <- <- <- <-. split_and!; [done|done|]. intros _.
    pose proof (value_map_decoded _ _ _ Hwi Hp) as (? & ? & ?). split_and!; try done.
    destruct i; try done. eauto.
Qed.

Lemma intent_sound_witness :
  exists m, decodeIntent (fst (encodeIntent sample_intent (replicate 16 Byte.x00))) = ok m
  /\ len (it_value m) <= kIntentMaxValueFields.
Proof.
  eexists. split; [vm_compute; reflexivity|].
  refine (proj1 (intent_sound (fst (encodeIntent sample_intent (replicate 16 Byte.x00))) _ _)).
  vm_compute. reflexivity.
Defined.

Lemma opt_broken {A} (o : option A) f n w :
  (forall a w, broken n w -> broken n (f a w)) -> broken n w -> broken n (w_opt o f w).
Proof. intros Hf Hw. destruct o; cbn; auto. Qed.

Lemma key_then_broken k f n w :
  (forall w, broken n w -> broken n (f w)) -> broken n w -> broken n ((key k ;;; f) w).
Proof. intros Hf Hw. apply Hf, key_broken, Hw. Qed.

Lemma bool_broken b n w : broken n w -> broken n (boolVal b w).
Proof.
  apply (emits_broken _ _ _ _ (writes_bool b [] ltac:(constructor) ltac:(cbn; unfold kMaxDepth; lia))).
Qed.

Lemma uint_broken v n w : broken n w -> broken n (uintVal v w).
Proof.
  intros Hw. apply broken_with_stack. unfold writeHead. cbv zeta.
  repeat case_match; by apply (emits_broken _ _ _ _ (emits_append _ [])).
Qed.

Lemma mapHeader_broken v n w : broken n w -> broken n (mapHeader v w).
Proof.
  intros [Hf Ho]. unfold mapHeader, openContainer. rewrite Hf. unfold writeHead. cbv zeta.
  repeat case_match; by apply (emits_broken _ _ _ _ (emits_append _ [])).
Qed.

(** The value map, when the enclosing map still has its slot for it. *)
Lemma value_map_unsorted l rem lk stk out pre :
  live (mapFrame rem lk :: stk) -> (length stk + 2 <= kMaxDepth)%nat -> Forall entry_ok l -> len l < 2 ^ 32 ->
  above None (map fst l) = false -> (length pre <= length out)%nat ->
  broken (length out) (encodeIntentValueMap l (wrote out pre (mapFrame rem lk :: stk))).
Proof.
  intros Hl Hd Hall Hlen Ha Hp. pose proof (len_nonneg l). unfold encodeIntentValueMap, w_then.
  destruct (emits_mapHeader (len l) (mapFrame rem lk :: stk)) as [Hb Hfit Hfull]; [unfold in_u; lia|cbn; lia|].
  destruct (le_lt_dec (length pre + length (head 5 (len l))) (length out)).
  - rewrite Hfit by done. apply entries_unsorted; first [done | cbn [length]; lia | rewrite length_app; lia].
  - apply entries_broken; [done|]. apply Hfull. lia.
Qed.

(** An operation that fails from stack [s] on, whatever the span. *)
Definition breaks (g : CborWriter -> CborWriter) (s : list CborFrame) : Prop :=
  (forall out pre, (length pre <= length out)%nat -> broken (length out) (g (wrote out pre s)))
  /\ (forall n w, broken n w -> broken n (g w)).

Lemma breaks_seq f g bs s s' : emits f bs s s' -> breaks g s' -> breaks (f ;;; g) s.
Proof.
  intros [F1 F2 F3] [G1 G2]. unfold w_then. split; [|by auto]. intros out pre Hp.
  destruct (le_lt_dec (length pre + length bs) (length out)).
  - rewrite F2 by done. apply G1. rewrite length_app. lia.
  - apply G2, F3. lia.
Qed.

Lemma breaks_then f g s : breaks f s -> (forall n w, broken n w -> broken n (g w)) -> breaks (f ;;; g) s.
Proof. intros [F1 F2] HG. split; unfold w_then; auto. Qed.

Lemma value_map_breaks l rem lk stk :
  live (mapFrame rem lk :: stk) -> (length stk + 2 <= kMaxDepth)%nat -> Forall entry_ok l -> len l < 2 ^ 32 ->
  above None (map fst l) = false -> breaks (encodeIntentValueMap l) (mapFrame rem lk :: stk).
Proof.
  intros. split; [intros; by apply value_map_unsorted|]. intros n w Hw. unfold encodeIntentValueMap, w_then.
  by apply entries_broken, mapHeader_broken.
Qed.

Definition intent_tail (m : IntentMsg) : CborWriter -> CborWriter :=
  w_opt (it_precondition m) (fun v => key CborKey.precondition ;;; uintVal v)
  ;;; w_opt (it_takeover m) (fun v => key CborKey.takeover ;;; boolVal v)
  ;;; w_opt (it_trial m) (fun v => key CborKey.trial ;;; boolVal v).

Lemma intent_tail_broken m n w : broken n w -> broken n (intent_tail m w).
Proof.
  intros Hw. unfold intent_tail, w_then at 1 3.
  repeat (apply opt_broken; [intros; apply key_then_broken; auto using bool_broken, uint_broken|]). done.
Qed.

(** Value keys handed over out of order are refused, never reordered or sent twice: the
    encoder reports size 0 whatever the span. *)
Theorem intent_unsorted_refused (m : IntentMsg) (out : list byte)
  (Hkeys : above None (map fst (it_value m)) = false) (Hall : Forall entry_ok (it_value m))
  (Hch : in_u 16 (it_channel_id m)) (Hid : in_u 16 (it_intent_id m)) :
  snd (encodeIntent m out) = 0%nat.
Proof.
  unfold encodeIntent. destruct (Z.ltb_spec kIntentMaxValueFields (len (it_value m))) as [|Hlen]; [done|].
  cbv zeta. unfold kIntentMaxValueFields in Hlen.
  pose proof (b2z_bool_bounds (has (it_precondition m))). pose proof (b2z_bool_bounds (has (it_takeover m))).
  pose proof (b2z_bool_bounds (has (it_trial m))).
  match goal with |- context [mapHeader ?x] => assert (3 <= x <= 6) as Hn by lia; generalize dependent x end.
  intros n Hn. unfold finish, w_size. cbn [snd]. fold (intent_tail m).
  match goal with |- (if w_failed (?g _) then _ else _) = _ => enough (breaks g []) as [Hb _] end.
  { change (CborWriter_new out) with (wrote out [] []). by destruct (Hb out [] ltac:(cbn; lia)) as [-> _]. }
  eapply breaks_seq; [apply emits_mapHeader; [unfold in_u; lia|cbn; unfold kMaxDepth; lia]|].
  eapply breaks_seq; [apply (writes_fld 15 _ (IUint (it_channel_id m)) eq_refl); [leaf|constructor|repeat constructor|done|change (len (fld _ _)) with 1; lia]|].
  eapply breaks_seq; [apply (writes_fld 18 _ (IUint (it_intent_id m)) eq_refl); [leaf|constructor|repeat constructor|done|change (len (fld _ _)) with 1; lia]|].
  apply (breaks_then (key CborKey.value ;;; encodeIntentValueMap (it_value m))); [|apply intent_tail_broken].
  change (len (fld _ _)) with 1. rewrite settle_pos by (cbn; lia).
  eapply breaks_seq; [by apply emits_key|]. rewrite consumeOne_cons by (cbn; lia).
  rewrite settle_pos by (cbn; lia). cbn [isMap remaining lastKey mapFrame].
  apply (value_map_breaks (it_value m) _ (Some 20));
    first [done | lia | constructor; [cbn; lia|constructor] | unfold kMaxDepth; cbn; lia].
Qed.

Lemma intent_unsorted_refused_witness :
  snd (encodeIntent (set_it_value [(2, VU64 1); (2, VU64 1)] IntentMsg_new) (replicate 64 Byte.x00)) = 0%nat.
Proof.
  apply (intent_unsorted_refused (set_it_value [(2, VU64 1); (2, VU64 1)] IntentMsg_new) (replicate 64 Byte.x00));
    [reflexivity|entries_ok|unfold in_u; cbn; lia..].
Defined.
