(* ===== verification/MsgWish.v ===== *)
(** * MsgWish: SUBSCRIBE, UNSUBSCRIBE and PUBLISH (wire/messages/subscribe.hpp, publish.hpp)

    The wish structures are those of hello.hpp, which HELLO carries too.  A rate is a binary32,
    kept as its bit pattern. *)

From S2P Require Import Prelude CborItem CborReader CborWriter CborMessage.

Definition kHelloMaxSubscriptionWishes : Z := 16.
Definition kHelloMaxPublishWishes : Z := 8.
Definition kSubscribeMaxWishes : Z := 16.
Definition kUnsubscribeMaxChannels : Z := 16.
Definition kPublishMaxWishes : Z := kHelloMaxPublishWishes.

Record SubscriptionWish := mkSubscriptionWish {
  sw_channel_id : Z; sw_rate_hz : Z; sw_priority : Z }.

Definition SubscriptionWish_new : SubscriptionWish :=
  {| sw_channel_id := 0; sw_rate_hz := 0; sw_priority := 0 |}.

Definition set_sw_channel_id (v : Z) (m : SubscriptionWish) : SubscriptionWish :=
  {| sw_channel_id := v; sw_rate_hz := sw_rate_hz m; sw_priority := sw_priority m |}.
Definition set_sw_rate_hz (v : Z) (m : SubscriptionWish) : SubscriptionWish :=
  {| sw_channel_id := sw_channel_id m; sw_rate_hz := v; sw_priority := sw_priority m |}.
Definition set_sw_priority (v : Z) (m : SubscriptionWish) : SubscriptionWish :=
  {| sw_channel_id := sw_channel_id m; sw_rate_hz := sw_rate_hz m; sw_priority := v |}.

Record PublishWish := mkPublishWish {
  pw_channel_id : Z; pw_rate_hz : Z; pw_burst : option Z }.

Definition PublishWish_new : PublishWish :=
  {| pw_channel_id := 0; pw_rate_hz := 0; pw_burst := None |}.

Definition set_pw_channel_id (v : Z) (m : PublishWish) : PublishWish :=
  {| pw_channel_id := v; pw_rate_hz := pw_rate_hz m; pw_burst := pw_burst m |}.
Definition set_pw_rate_hz (v : Z) (m : PublishWish) : PublishWish :=
  {| pw_channel_id := pw_channel_id m; pw_rate_hz := v; pw_burst := pw_burst m |}.
Definition set_pw_burst (v : option Z) (m : PublishWish) : PublishWish :=
  {| pw_channel_id := pw_channel_id m; pw_rate_hz := pw_rate_hz m; pw_burst := v |}.

Definition encodeSubscriptionWish (s : SubscriptionWish) : CborWriter -> CborWriter :=
  mapHeader 3
  ;;; (key CborKey.rate_hz ;;; f32Val (sw_rate_hz s))
  ;;; (key CborKey.priority ;;; uintVal (sw_priority s))
  ;;; (key CborKey.channel_id ;;; uintVal (sw_channel_id s)).

Definition subscription_wish_field (k : Z) (wish : SubscriptionWish) : ItemReader SubscriptionWish :=
  if k =? CborKey.channel_id then reading p_uint (fun v => ok (set_sw_channel_id (u16 v) wish))
  else if k =? CborKey.rate_hz then reading p_f32 (fun v => ok (set_sw_rate_hz v wish))
  else if k =? CborKey.priority then reading p_uint (fun v => ok (set_sw_priority (u8 v) wish))
  else skipping wish.

Definition p_subscription_wish : ItemReader SubscriptionWish :=
  fields (fun _ => ok SubscriptionWish_new) subscription_wish_field.

Definition encodePublishWish (p : PublishWish) : CborWriter -> CborWriter :=
  mapHeader (2 + Z.b2z (has (pw_burst p)))
  ;;; (key CborKey.rate_hz ;;; f32Val (pw_rate_hz p))
  ;;; (key CborKey.channel_id ;;; uintVal (pw_channel_id p))
  ;;; w_opt (pw_burst p) (fun v => key CborKey.burst ;;; f32Val v).

Definition publish_wish_field (k : Z) (wish : PublishWish) : ItemReader PublishWish :=
  if k =? CborKey.channel_id then reading p_uint (fun v => ok (set_pw_channel_id (u16 v) wish))
  else if k =? CborKey.rate_hz then reading p_f32 (fun v => ok (set_pw_rate_hz v wish))
  else if k =? CborKey.burst then reading p_f32 (fun v => ok (set_pw_burst (Some v) wish))
  else skipping wish.

Definition p_publish_wish : ItemReader PublishWish :=
  fields (fun _ => ok PublishWish_new) publish_wish_field.

Record SubscribeMsg := mkSubscribeMsg { sb_subscriptions : list SubscriptionWish }.
Record UnsubscribeMsg := mkUnsubscribeMsg { us_channel_ids : list Z }.
Record PublishMsg := mkPublishMsg { pb_publishes : list PublishWish }.

Definition encodeSubscribe (m : SubscribeMsg) (out : list byte) : list byte * nat :=
  if kSubscribeMaxWishes <? len (sb_subscriptions m) then (out, 0%nat)
  else finish ((mapHeader 1
    ;;; (key CborKey.subscriptions ;;; w_list encodeSubscriptionWish (sb_subscriptions m)))
    (CborWriter_new out)).

Definition subscribe_field (k : Z) (st : SubscribeMsg * bool) : ItemReader (SubscribeMsg * bool) :=
  if k =? CborKey.subscriptions then
    reading (p_list (up_to kSubscribeMaxWishes) p_subscription_wish) (fun l => ok (mkSubscribeMsg l, true))
  else skipping st.

Definition decodeSubscribe (inp : list byte) : decoded SubscribeMsg :=
  decode (reading (fields (fun _ => ok (mkSubscribeMsg [], false)) subscribe_field)
    (fun '(m, gotSubscriptions) => if negb gotSubscriptions then err Malformed else ok m)) inp.

Definition encodeUnsubscribe (m : UnsubscribeMsg) (out : list byte) : list byte * nat :=
  if kUnsubscribeMaxChannels <? len (us_channel_ids m) then (out, 0%nat)
  else finish ((mapHeader 1
    ;;; (key CborKey.subscriptions ;;; w_list uintVal (us_channel_ids m)))
    (CborWriter_new out)).

Definition unsubscribe_field (k : Z) (st : UnsubscribeMsg * bool) : ItemReader (UnsubscribeMsg * bool) :=
  if k =? CborKey.subscriptions then
    reading (p_list (up_to kUnsubscribeMaxChannels) (reading p_uint (fun v => ok (u16 v))))
      (fun l => ok (mkUnsubscribeMsg l, true))
  else skipping st.

Definition decodeUnsubscribe (inp : list byte) : decoded UnsubscribeMsg :=
  decode (reading (fields (fun _ => ok (mkUnsubscribeMsg [], false)) unsubscribe_field)
    (fun '(m, gotChannels) => if negb gotChannels then err Malformed else ok m)) inp.

Definition encodePublish (m : PublishMsg) (out : list byte) : list byte * nat :=
  if kPublishMaxWishes <? len (pb_publishes m) then (out, 0%nat)
  else finish ((mapHeader 1
    ;;; (key CborKey.publishes ;;; w_list encodePublishWish (pb_publishes m)))
    (CborWriter_new out)).

Definition publish_field (k : Z) (st : PublishMsg * bool) : ItemReader (PublishMsg * bool) :=
  if k =? CborKey.publishes then
    reading (p_list (up_to kPublishMaxWishes) p_publish_wish) (fun l => ok (mkPublishMsg l, true))
  else skipping st.

Definition decodePublish (inp : list byte) : decoded PublishMsg :=
  decode (reading (fields (fun _ => ok (mkPublishMsg [], false)) publish_field)
    (fun '(m, gotPublishes) => if negb gotPublishes then err Malformed else ok m)) inp.

(** ** The nested structures *)

Definition subscription_wish_ok (s : SubscriptionWish) : Prop :=
  in_u 32 (sw_rate_hz s) /\ in_u 8 (sw_priority s) /\ in_u 16 (sw_channel_id s).

Definition subscription_wish_fields (s : SubscriptionWish) : list (Z * Item) :=
  fld CborKey.rate_hz (IF32 (sw_rate_hz s)) ++ fld CborKey.priority (IUint (sw_priority s))
  ++ fld CborKey.channel_id (IUint (sw_channel_id s)).

Definition publish_wish_ok (p : PublishWish) : Prop :=
  in_u 32 (pw_rate_hz p) /\ in_u 16 (pw_channel_id p) /\ opt_in 32 (pw_burst p).

Definition publish_wish_fields (p : PublishWish) : list (Z * Item) :=
  fld CborKey.rate_hz (IF32 (pw_rate_hz p)) ++ fld CborKey.channel_id (IUint (pw_channel_id p))
  ++ opt_fld CborKey.burst IF32 (pw_burst p).

Lemma subscription_wish_nested :
  Nested subscription_wish_ok (fun s => IMap (subscription_wish_fields s)) encodeSubscriptionWish
    p_subscription_wish (fun s => s) 1.
Proof.
  split; unfold subscription_wish_fields.
  - intros s (H1 & H2 & H3). unfold encodeSubscriptionWish. solve_writes.
  - intros s (H1 & H2 & H3). solve_fields_wf.
  - intros s. apply nest_map. segments; leaf.
  - intros [|b] [c r p] (H1 & H2 & H3) Hb; [lia|]. unfold p_subscription_wish. rewrite meaning_fields.
    cbn [result_bind]. solve_fold.
Qed.

Lemma publish_wish_nested :
  Nested publish_wish_ok (fun s => IMap (publish_wish_fields s)) encodePublishWish
    p_publish_wish (fun s => s) 1.
Proof.
  split; unfold publish_wish_fields.
  - intros s (H1 & H2 & H3). unfold encodePublishWish. solve_writes.
  - intros s (H1 & H2 & H3). solve_fields_wf.
  - intros s. apply nest_map. segments; leaf.
  - intros [|b] [c r [p|]] (H1 & H2 & H3) Hb; (lia || unfold p_publish_wish; rewrite meaning_fields;
    cbn [result_bind]; solve_fold).
Qed.

Definition p_channel : ItemReader Z := reading p_uint (fun v => ok (u16 v)).

Lemma channel_nested : Nested (in_u 16) IUint uintVal p_channel (fun c => c) 0.
Proof.
  split.
  - intros c Hc. apply writes_uint. in_range.
  - intros c Hc. cbn [wf]. in_range.
  - done.
  - intros b c Hc _. cbn. by rewrite wrap_small.
Qed.

(** Lists of at most [cap] of them. *)
Lemma up_to_list {A} (okA : A -> Prop) item wr rd norm n cap :
  cap < 2 ^ 32 -> Nested okA item wr rd norm n ->
  Nested (fun l => Forall okA l /\ 0 <= len l <= cap) (fun l => IArr (map item l)) (w_list wr)
    (p_list (up_to cap) rd) (map norm) (S n).
Proof.
  intros Hcap HN. apply (Nested_list okA item wr rd norm n (up_to cap) (fun c => 0 <= c <= cap)); [done| |].
  - intros c Hc. unfold up_to. by rewrite (proj2 (Z.ltb_ge _ _)) by lia.
  - intros c Hc. apply in_ub_spec. unfold in_u. lia.
Qed.

Definition subscription_wishes_nested :=
  up_to_list _ _ _ _ _ _ kSubscribeMaxWishes eq_refl subscription_wish_nested.
Definition publish_wishes_nested :=
  up_to_list _ _ _ _ _ _ kPublishMaxWishes eq_refl publish_wish_nested.
Definition channels_nested := up_to_list _ _ _ _ _ _ kUnsubscribeMaxChannels eq_refl channel_nested.

(** ** Codec contracts *)

Definition subscribe_ok (m : SubscribeMsg) : Prop :=
  Forall subscription_wish_ok (sb_subscriptions m) /\ 0 <= len (sb_subscriptions m) <= kSubscribeMaxWishes.
Definition subscribe_fields (m : SubscribeMsg) : list (Z * Item) :=
  fld CborKey.subscriptions (IArr (map (fun s => IMap (subscription_wish_fields s)) (sb_subscriptions m))).
Definition subscribe_norm (m : SubscribeMsg) : SubscribeMsg := m.

Definition unsubscribe_ok (m : UnsubscribeMsg) : Prop :=
  Forall (in_u 16) (us_channel_ids m) /\ 0 <= len (us_channel_ids m) <= kUnsubscribeMaxChannels.
Definition unsubscribe_fields (m : UnsubscribeMsg) : list (Z * Item) :=
  fld CborKey.subscriptions (IArr (map IUint (us_channel_ids m))).
Definition unsubscribe_norm (m : UnsubscribeMsg) : UnsubscribeMsg := m.

Definition publish_ok (m : PublishMsg) : Prop :=
  Forall publish_wish_ok (pb_publishes m) /\ 0 <= len (pb_publishes m) <= kPublishMaxWishes.
Definition publish_fields (m : PublishMsg) : list (Z * Item) :=
  fld CborKey.publishes (IArr (map (fun s => IMap (publish_wish_fields s)) (pb_publishes m))).
Definition publish_norm (m : PublishMsg) : PublishMsg := m.

Lemma subscribe_fold m : subscribe_ok m ->
  fold_fields (fun k a => meaning (subscribe_field k a) 3) (subscribe_fields m) (mkSubscribeMsg [], false) = ok (subscribe_norm m, true).
Proof.
  intros Hok. pose proof (nested_decode _ _ _ _ _ _ subscription_wishes_nested 3 _ Hok ltac:(lia)) as Hd. rewrite map_id in Hd.
  unfold subscribe_fields. cbn [fld fold_fields]. unfold subscribe_field. cbn [reading meaning].
  match goal with |- context [?c =? ?d] => change (c =? d) with true end. cbn [reading meaning].
  cbn beta in Hd. unfold p_channel in *. rewrite Hd. by destruct m.
Qed.

#[export] Instance subscribe_codec : CborMessage SubscribeMsg.
Proof.
  refine {| msg_ok := subscribe_ok; msg_fields := subscribe_fields; msg_encode := encodeSubscribe; msg_decode := decodeSubscribe;
            msg_norm := subscribe_norm; msg_known := [10] |}.
  - intros m Hok. pose proof Hok as (_ & Hlen). unfold encodeSubscribe, subscribe_fields.
    eapply encodes_guard; [apply Z.ltb_ge; lia|].
    solve_encodes.
    + by apply (nested_writes _ _ _ _ _ _ subscription_wishes_nested).
    + eapply Nat.le_trans; [apply (nested_nest _ _ _ _ _ _ subscription_wishes_nested)|lia].
  - intros m Hok. pose proof Hok as (_ & Hlen). unfold subscribe_fields. solve_fields_wf.
    by apply (nested_wf _ _ _ _ _ _ subscription_wishes_nested).
  - intros m. unfold subscribe_fields. solve_known.
  - intros m kvs rest Hok Hw Hn Hf. unfold decodeSubscribe.
    apply (decode_fields subscribe_field (mkSubscribeMsg [], false) _ [10] kvs (subscribe_fields m) rest (subscribe_norm m, true)); try done.
    + intros k [m0 g] Hk. unfold subscribe_field. solve_skips Hk.
    + by apply subscribe_fold.
  - intros inp m. apply decode_map_sound.
Defined.

Lemma unsubscribe_fold m : unsubscribe_ok m ->
  fold_fields (fun k a => meaning (unsubscribe_field k a) 3) (unsubscribe_fields m) (mkUnsubscribeMsg [], false) = ok (unsubscribe_norm m, true).
Proof.
  intros Hok. pose proof (nested_decode _ _ _ _ _ _ channels_nested 3 _ Hok ltac:(lia)) as Hd. rewrite map_id in Hd.
  unfold unsubscribe_fields. cbn [fld fold_fields]. unfold unsubscribe_field. cbn [reading meaning].
  match goal with |- context [?c =? ?d] => change (c =? d) with true end. cbn [reading meaning].
  cbn beta in Hd. unfold p_channel in *. rewrite Hd. by destruct m.
Qed.

#[export] Instance unsubscribe_codec : CborMessage UnsubscribeMsg.
Proof.
  refine {| msg_ok := unsubscribe_ok; msg_fields := unsubscribe_fields; msg_encode := encodeUnsubscribe; msg_decode := decodeUnsubscribe;
            msg_norm := unsubscribe_norm; msg_known := [10] |}.
  - intros m Hok. pose proof Hok as (_ & Hlen). unfold encodeUnsubscribe, unsubscribe_fields.
    eapply encodes_guard; [apply Z.ltb_ge; lia|].
    solve_encodes.
    + by apply (nested_writes _ _ _ _ _ _ channels_nested).
    + eapply Nat.le_trans; [apply (nested_nest _ _ _ _ _ _ channels_nested)|lia].
  - intros m Hok. pose proof Hok as (_ & Hlen). unfold unsubscribe_fields. solve_fields_wf.
    by apply (nested_wf _ _ _ _ _ _ channels_nested).
  - intros m. unfold unsubscribe_fields. solve_known.
  - intros m kvs rest Hok Hw Hn Hf. unfold decodeUnsubscribe.
    apply (decode_fields unsubscribe_field (mkUnsubscribeMsg [], false) _ [10] kvs (unsubscribe_fields m) rest (unsubscribe_norm m, true)); try done.
    + intros k [m0 g] Hk. unfold unsubscribe_field. solve_skips Hk.
    + by apply unsubscribe_fold.
  - intros inp m. apply decode_map_sound.
Defined.

Lemma publish_fold m : publish_ok m ->
  fold_fields (fun k a => meaning (publish_field k a) 3) (publish_fields m) (mkPublishMsg [], false) = ok (publish_norm m, true).
Proof.
  intros Hok. pose proof (nested_decode _ _ _ _ _ _ publish_wishes_nested 3 _ Hok ltac:(lia)) as Hd. rewrite map_id in Hd.
  unfold publish_fields. cbn [fld fold_fields]. unfold publish_field. cbn [reading meaning].
  match goal with |- context [?c =? ?d] => change (c =? d) with true end. cbn [reading meaning].
  cbn beta in Hd. unfold p_channel in *. rewrite Hd. by destruct m.
Qed.

#[export] Instance publish_codec : CborMessage PublishMsg.
Proof.
  refine {| msg_ok := publish_ok; msg_fields := publish_fields; msg_encode := encodePublish; msg_decode := decodePublish;
            msg_norm := publish_norm; msg_known := [11] |}.
  - intros m Hok. pose proof Hok as (_ & Hlen). unfold encodePublish, publish_fields.
    eapply encodes_guard; [apply Z.ltb_ge; lia|].
    solve_encodes.
    + by apply (nested_writes _ _ _ _ _ _ publish_wishes_nested).
    + eapply Nat.le_trans; [apply (nested_nest _ _ _ _ _ _ publish_wishes_nested)|lia].
  - intros m Hok. pose proof Hok as (_ & Hlen). unfold publish_fields. solve_fields_wf.
    by apply (nested_wf _ _ _ _ _ _ publish_wishes_nested).
  - intros m. unfold publish_fields. solve_known.
  - intros m kvs rest Hok Hw Hn Hf. unfold decodePublish.
    apply (decode_fields publish_field (mkPublishMsg [], false) _ [11] kvs (publish_fields m) rest (publish_norm m, true)); try done.
    + intros k [m0 g] Hk. unfold publish_field. solve_skips Hk.
    + by apply publish_fold.
  - intros inp m. apply decode_map_sound.
Defined.

(** Sizes: a 512-byte span always holds one. *)
Lemma concat_length_le {A} (f : A -> list byte) l c :
  Forall (fun a => (length (f a) <= c)%nat) l -> (length (concat (map f l)) <= c * length l)%nat.
Proof.
  induction 1 as [|a l Ha _ IH]; cbn [map concat length]; [lia|]. rewrite length_app. lia.
Qed.

Lemma one_array_size k l c :
  in_ub 5 (len l) = true -> Forall (fun i => (length (encode i) <= c)%nat) l -> (k <= 23) ->
  (length (encode (IMap (fld k (IArr l)))) <= 4 + c * length l)%nat.
Proof.
  intros Hl%in_ub_spec Hc Hk. unfold in_u in Hl. rewrite encode_map. unfold fld. cbn [map concat]. unfold encode_pair. cbn [fst snd].
  rewrite encode_arr, !length_app. pose proof (concat_length_le encode l c Hc).
  change (length (head 5 (len [(k, IArr l)]))) with 1%nat. cbn [length].
  assert (length (head 0 k) = 1%nat) as -> by (unfold head; by rewrite (proj2 (Z.leb_le k 23))).
  assert (length (head 4 (len l)) <= 2)%nat.
  { unfold head. rewrite (proj2 (Z.leb_le (len l) 0xFF)) by lia. destruct (_ <=? 23); cbn [length]; rewrite ?length_be_bytes; lia. }
  lia.
Qed.

Lemma head_len1 mj v : (v <=? 23) = true -> length (head mj v) = 1%nat.
Proof. intros H. unfold head. by rewrite H. Qed.

Lemma head_len2 mj v : (v <=? 0xFF) = true -> (length (head mj v) <= 2)%nat.
Proof.
  intros H. unfold head. rewrite H. destruct (_ <=? 23); cbn [length]; rewrite ?length_be_bytes; lia.
Qed.

Ltac head_sizes :=
  repeat match goal with |- context [length (head ?m ?v)] =>
    first [ rewrite (head_len1 m v) by reflexivity
          | pose proof (head_len2 m v ltac:(reflexivity)); generalize dependent (length (head m v)); intros
          | pose proof (head_length m v); generalize dependent (length (head m v)); intros ] end; lia.

Ltac field_sizes :=
  rewrite encode_map; unfold fld; cbn [app map concat]; unfold encode_pair; cbn [fst snd];
  rewrite ?length_app; cbn [encode length]; rewrite ?length_be_bytes; head_sizes.

Lemma subscription_wish_size s : (length (encode (IMap (subscription_wish_fields s))) <= 27)%nat.
Proof. unfold subscription_wish_fields. field_sizes. Qed.

Lemma publish_wish_size s : (length (encode (IMap (publish_wish_fields s))) <= 24)%nat.
Proof. unfold publish_wish_fields. destruct (pw_burst s); cbn [opt_fld]; field_sizes. Qed.

Lemma subscribe_size m : subscribe_ok m -> (length (encode (IMap (subscribe_fields m))) <= 512)%nat.
Proof.
  intros [_ Hl]. unfold kSubscribeMaxWishes, len in Hl. unfold subscribe_fields.
  etransitivity; [apply (one_array_size _ _ 27)|]; [apply in_ub_spec; unfold in_u, len; rewrite length_map; lia| |done|rewrite length_map; lia].
  apply Forall_forall. intros i (s & <- & _)%in_map_iff. apply subscription_wish_size.
Qed.

Lemma unsubscribe_size m : unsubscribe_ok m -> (length (encode (IMap (unsubscribe_fields m))) <= 512)%nat.
Proof.
  intros [_ Hl]. unfold kUnsubscribeMaxChannels, len in Hl. unfold unsubscribe_fields.
  etransitivity; [apply (one_array_size _ _ 9)|]; [apply in_ub_spec; unfold in_u, len; rewrite length_map; lia| |done|rewrite length_map; lia].
  apply Forall_forall. intros i (s & <- & _)%in_map_iff. apply (head_length 0 s).
Qed.

Lemma publish_size m : publish_ok m -> (length (encode (IMap (publish_fields m))) <= 512)%nat.
Proof.
  intros [_ Hl]. unfold kPublishMaxWishes, kHelloMaxPublishWishes, len in Hl. unfold publish_fields.
  etransitivity; [apply (one_array_size _ _ 24)|]; [apply in_ub_spec; unfold in_u, len; rewrite length_map; lia| |done|rewrite length_map; lia].
  apply Forall_forall. intros i (s & <- & _)%in_map_iff. apply publish_wish_size.
Qed.

(** SUBSCRIBE, UNSUBSCRIBE and PUBLISH: every wish list within the frame's cap arrives exactly
    as it was made, in order; a longer one is refused on both sides. *)
Theorem wish_messages_roundtrip (sm : SubscribeMsg) (um : UnsubscribeMsg) (pm : PublishMsg) (out : list byte)
  (Hs : subscribe_ok sm) (Hu : unsubscribe_ok um) (Hp : publish_ok pm) :
  (let '(o, n) := encodeSubscribe sm out in n <> 0%nat -> decodeSubscribe (take n o) = ok sm)
  /\ (let '(o, n) := encodeUnsubscribe um out in n <> 0%nat -> decodeUnsubscribe (take n o) = ok um)
  /\ (let '(o, n) := encodePublish pm out in n <> 0%nat -> decodePublish (take n o) = ok pm)
  /\ (512 <= length out -> snd (encodeSubscribe sm out) <> 0%nat /\ snd (encodeUnsubscribe um out) <> 0%nat
        /\ snd (encodePublish pm out) <> 0%nat)%nat.
Proof.
  pose proof (message_contract sm out Hs) as Cs. pose proof (message_contract um out Hu) as Cu.
  pose proof (message_contract pm out Hp) as Cp.
  cbn [msg_encode msg_decode msg_norm msg_fields subscribe_codec unsubscribe_codec publish_codec] in Cs, Cu, Cp.
  unfold subscribe_norm, unsubscribe_norm, publish_norm in *.
  destruct (encodeSubscribe sm out) as [o1 n1], (encodeUnsubscribe um out) as [o2 n2], (encodePublish pm out) as [o3 n3].
  destruct Cs as (_ & Zs & Ds & _), Cu as (_ & Zu & Du & _), Cp as (_ & Zp & Dp & _).
  split_and!; [by intros [_ H]%Ds|by intros [_ H]%Du|by intros [_ H]%Dp|]. intros Hout. cbn [snd].
  pose proof (subscribe_size sm Hs). pose proof (unsubscribe_size um Hu). pose proof (publish_size pm Hp). lia.
Qed.

Lemma wish_messages_roundtrip_witness :
  let sm := mkSubscribeMsg [mkSubscriptionWish 0x201 0x42480000 1] in
  let um := mkUnsubscribeMsg [0x201; 7] in
  let pm := mkPublishMsg [mkPublishWish 0x202 0x41F00000 (Some 0x42480000)] in
  (let '(o, n) := encodeSubscribe sm (replicate 20 Byte.x00) in n <> 0%nat -> decodeSubscribe (take n o) = ok sm).
Proof.
  refine (proj1 (wish_messages_roundtrip (mkSubscribeMsg [mkSubscriptionWish 0x201 0x42480000 1])
    (mkUnsubscribeMsg [0x201; 7]) (mkPublishMsg [mkPublishWish 0x202 0x41F00000 (Some 0x42480000)])
    (replicate 20 Byte.x00) _ _ _)).
  all: split; [repeat (apply Forall_cons; [unfold in_u, subscription_wish_ok, publish_wish_ok; cbn; unfold in_u; lia|]); apply Forall_nil|split; apply Z.leb_le; reflexivity].
Defined.
