(* ===== verification/MsgTrust.v ===== *)
(** * MsgTrust: the trust map, AUTH / HUB_SIG and PAIR_REQ / PAIR_GRANT
    (wire/messages/trust_submap.hpp, auth.hpp, pair.hpp)

    A fixed array with its presence flag, or with its length, is an optional byte list. *)

From S2P Require Import Prelude CborItem CborReader CborWriter CborMessage.

Definition kTrustPubkeyMaxBytes : nat := 33.
Definition kTrustSigMaxBytes : nat := 72.
Definition kTrustTokenProofBytes : nat := 16.
Definition kTrustClientNonceBytes : nat := 8.
Definition client_ver_max_bytes : nat := 24.
Definition instance_id_bytes : nat := 8.
Definition token_bytes : nat := 16.
Definition kPinProofBytes : nat := 16.

(** [namespace trust]: the sub-keys. *)
Module trust.
Definition client_ver := 1.
Definition client_nonce := 2.
Definition sig_request := 3.
Definition hub_pubkey := 4.
Definition welcome_sig := 5.
Definition token_proof := 6.
Definition presentation_mode := 7.
Definition pairing_modes := 8.
End trust.

Record TrustMap := mkTrustMap {
  tm_client_ver : option (list byte); tm_client_nonce : option (list byte);
     tm_sig_request : option bool; tm_hub_pubkey : option (list byte);
     tm_welcome_sig : option (list byte); tm_token_proof : option (list byte);
     tm_presentation_mode : option Z; tm_pairing_modes_mask : option Z }.

Definition TrustMap_new : TrustMap :=
  {| tm_client_ver := None; tm_client_nonce := None; tm_sig_request := None; tm_hub_pubkey := None;
     tm_welcome_sig := None; tm_token_proof := None; tm_presentation_mode := None;
     tm_pairing_modes_mask := None |}.

Definition set_tm_client_ver (v : option (list byte)) (m : TrustMap) : TrustMap :=
  {| tm_client_ver := v; tm_client_nonce := tm_client_nonce m; tm_sig_request := tm_sig_request m;
     tm_hub_pubkey := tm_hub_pubkey m; tm_welcome_sig := tm_welcome_sig m;
     tm_token_proof := tm_token_proof m; tm_presentation_mode := tm_presentation_mode m;
     tm_pairing_modes_mask := tm_pairing_modes_mask m |}.
Definition set_tm_client_nonce (v : option (list byte)) (m : TrustMap) : TrustMap :=
  {| tm_client_ver := tm_client_ver m; tm_client_nonce := v; tm_sig_request := tm_sig_request m;
     tm_hub_pubkey := tm_hub_pubkey m; tm_welcome_sig := tm_welcome_sig m;
     tm_token_proof := tm_token_proof m; tm_presentation_mode := tm_presentation_mode m;
     tm_pairing_modes_mask := tm_pairing_modes_mask m |}.
Definition set_tm_sig_request (v : option bool) (m : TrustMap) : TrustMap :=
  {| tm_client_ver := tm_client_ver m; tm_client_nonce := tm_client_nonce m; tm_sig_request := v;
     tm_hub_pubkey := tm_hub_pubkey m; tm_welcome_sig := tm_welcome_sig m;
     tm_token_proof := tm_token_proof m; tm_presentation_mode := tm_presentation_mode m;
     tm_pairing_modes_mask := tm_pairing_modes_mask m |}.
Definition set_tm_hub_pubkey (v : option (list byte)) (m : TrustMap) : TrustMap :=
  {| tm_client_ver := tm_client_ver m; tm_client_nonce := tm_client_nonce m;
     tm_sig_request := tm_sig_request m; tm_hub_pubkey := v; tm_welcome_sig := tm_welcome_sig m;
     tm_token_proof := tm_token_proof m; tm_presentation_mode := tm_presentation_mode m;
     tm_pairing_modes_mask := tm_pairing_modes_mask m |}.
Definition set_tm_welcome_sig (v : option (list byte)) (m : TrustMap) : TrustMap :=
  {| tm_client_ver := tm_client_ver m; tm_client_nonce := tm_client_nonce m;
     tm_sig_request := tm_sig_request m; tm_hub_pubkey := tm_hub_pubkey m; tm_welcome_sig := v;
     tm_token_proof := tm_token_proof m; tm_presentation_mode := tm_presentation_mode m;
     tm_pairing_modes_mask := tm_pairing_modes_mask m |}.
Definition set_tm_token_proof (v : option (list byte)) (m : TrustMap) : TrustMap :=
  {| tm_client_ver := tm_client_ver m; tm_client_nonce := tm_client_nonce m;
     tm_sig_request := tm_sig_request m; tm_hub_pubkey := tm_hub_pubkey m;
     tm_welcome_sig := tm_welcome_sig m; tm_token_proof := v;
     tm_presentation_mode := tm_presentation_mode m;
     tm_pairing_modes_mask := tm_pairing_modes_mask m |}.
Definition set_tm_presentation_mode (v : option Z) (m : TrustMap) : TrustMap :=
  {| tm_client_ver := tm_client_ver m; tm_client_nonce := tm_client_nonce m;
     tm_sig_request := tm_sig_request m; tm_hub_pubkey := tm_hub_pubkey m;
     tm_welcome_sig := tm_welcome_sig m; tm_token_proof := tm_token_proof m;
     tm_presentation_mode := v; tm_pairing_modes_mask := tm_pairing_modes_mask m |}.
Definition set_tm_pairing_modes_mask (v : option Z) (m : TrustMap) : TrustMap :=
  {| tm_client_ver := tm_client_ver m; tm_client_nonce := tm_client_nonce m;
     tm_sig_request := tm_sig_request m; tm_hub_pubkey := tm_hub_pubkey m;
     tm_welcome_sig := tm_welcome_sig m; tm_token_proof := tm_token_proof m;
     tm_presentation_mode := tm_presentation_mode m; tm_pairing_modes_mask := v |}.

Definition trust_any (t : TrustMap) : bool :=
  has (tm_client_ver t) || has (tm_client_nonce t) || has (tm_sig_request t) || has (tm_presentation_mode t)
  || has (tm_token_proof t) || has (tm_hub_pubkey t) || has (tm_welcome_sig t) || has (tm_pairing_modes_mask t).

Definition trust_keyCount (t : TrustMap) : Z :=
  Z.b2z (has (tm_client_ver t)) + Z.b2z (has (tm_client_nonce t)) + Z.b2z (has (tm_sig_request t))
  + Z.b2z (has (tm_hub_pubkey t)) + Z.b2z (has (tm_welcome_sig t)) + Z.b2z (has (tm_token_proof t))
  + Z.b2z (has (tm_presentation_mode t)) + Z.b2z (has (tm_pairing_modes_mask t)).

(** The map itself; [encodeTrustMap] puts it under key [trust]. *)
Definition write_trust (t : TrustMap) : CborWriter -> CborWriter :=
  mapHeader (trust_keyCount t)
  ;;; w_opt (tm_client_ver t) (fun v => key trust.client_ver ;;; tstrVal v)
  ;;; w_opt (tm_client_nonce t) (fun v => key trust.client_nonce ;;; bstrVal v)
  ;;; w_opt (tm_sig_request t) (fun v => key trust.sig_request ;;; boolVal v)
  ;;; w_opt (tm_hub_pubkey t) (fun v => key trust.hub_pubkey ;;; bstrVal v)
  ;;; w_opt (tm_welcome_sig t) (fun v => key trust.welcome_sig ;;; bstrVal v)
  ;;; w_opt (tm_token_proof t) (fun v => key trust.token_proof ;;; bstrVal v)
  ;;; w_opt (tm_presentation_mode t) (fun v => key trust.presentation_mode ;;; uintVal v)
  ;;; w_opt (tm_pairing_modes_mask t) (fun v => key trust.pairing_modes ;;; uintVal v).

Definition encodeTrustMap (t : TrustMap) : CborWriter -> CborWriter := key CborKey.trust ;;; write_trust t.

(** [if (v.empty() || v.size() > max) return err(CapacityExceeded)]. *)
Definition nonempty_capped (n : nat) (s : list byte) : decoded (list byte) :=
  if (length s =? 0)%nat || (n <? length s)%nat then err CapacityExceeded else ok s.

Definition trust_field (k : Z) (t : TrustMap) : ItemReader TrustMap :=
  if k =? trust.client_ver then
    reading p_tstr (fun v => let? s := capped client_ver_max_bytes v in ok (set_tm_client_ver (Some s) t))
  else if k =? trust.client_nonce then
    reading p_bstr (fun v => let? s := sized kTrustClientNonceBytes v in ok (set_tm_client_nonce (Some s) t))
  else if k =? trust.sig_request then reading p_bool (fun v => ok (set_tm_sig_request (Some v) t))
  else if k =? trust.hub_pubkey then
    reading p_bstr (fun v => let? s := nonempty_capped kTrustPubkeyMaxBytes v in ok (set_tm_hub_pubkey (Some s) t))
  else if k =? trust.welcome_sig then
    reading p_bstr (fun v => let? s := nonempty_capped kTrustSigMaxBytes v in ok (set_tm_welcome_sig (Some s) t))
  else if k =? trust.token_proof then
    reading p_bstr (fun v => let? s := sized kTrustTokenProofBytes v in ok (set_tm_token_proof (Some s) t))
  else if k =? trust.presentation_mode then
    reading p_uint (fun v => let? c := at_most 0xFF v in ok (set_tm_presentation_mode (Some (u8 c)) t))
  else if k =? trust.pairing_modes then
    reading p_uint (fun v => let? c := at_most 0xFF v in ok (set_tm_pairing_modes_mask (Some (u8 c)) t))
  else skipping t.

Definition p_trust : ItemReader TrustMap := fields (fun _ => ok TrustMap_new) trust_field.

(** [decodeTrustMap(r, t)]. *)
Definition decodeTrustMap := run p_trust.

(** ** AUTH and HUB_SIG *)

Definition kHubSigMaterialBytes : nat := kTrustClientNonceBytes + 4 + 4.

(** What the hub signs: the client's nonce, the session and the boot, little-endian. *)
Definition hubSigMaterial (client_nonce : list byte) (session_id boot_id : Z) : list byte :=
  client_nonce
  ++ map (fun i => z2b (Z.land (Z.shiftr session_id (8 * i)) 0xFF)) [0; 1; 2; 3]
  ++ map (fun i => z2b (Z.land (Z.shiftr boot_id (8 * i)) 0xFF)) [0; 1; 2; 3].

Record TrustEnvelopeMsg := mkTrustEnvelopeMsg { te_trust_map : TrustMap }.

Definition encodeTrustEnvelope (m : TrustEnvelopeMsg) (out : list byte) : list byte * nat :=
  if negb (trust_any (te_trust_map m)) then (out, 0%nat)
  else finish ((mapHeader 1 ;;; encodeTrustMap (te_trust_map m)) (CborWriter_new out)).

Definition envelope_field (k : Z) (st : TrustEnvelopeMsg * bool) : ItemReader (TrustEnvelopeMsg * bool) :=
  if k =? CborKey.trust then reading p_trust (fun t => ok (mkTrustEnvelopeMsg t, true))
  else skipping st.

Definition decodeTrustEnvelope (inp : list byte) : decoded TrustEnvelopeMsg :=
  decode (reading (fields (fun _ => ok (mkTrustEnvelopeMsg TrustMap_new, false)) envelope_field)
    (fun '(m, gotTrust) => if negb gotTrust then err Malformed else ok m)) inp.

Definition encodeAuth := encodeTrustEnvelope.
Definition decodeAuth := decodeTrustEnvelope.
Definition encodeHubSig := encodeTrustEnvelope.
Definition decodeHubSig := decodeTrustEnvelope.

(** ** PAIR_REQ and PAIR_GRANT *)

Record PairReqMsg := mkPairReqMsg {
  pr_instance_id : list byte; pr_pin_proof : option (list byte); pr_roles : option Z }.

Definition PairReqMsg_new : PairReqMsg :=
  {| pr_instance_id := replicate instance_id_bytes Byte.x00; pr_pin_proof := None;
     pr_roles := None |}.

Definition set_pr_instance_id (v : list byte) (m : PairReqMsg) : PairReqMsg :=
  {| pr_instance_id := v; pr_pin_proof := pr_pin_proof m; pr_roles := pr_roles m |}.
Definition set_pr_pin_proof (v : option (list byte)) (m : PairReqMsg) : PairReqMsg :=
  {| pr_instance_id := pr_instance_id m; pr_pin_proof := v; pr_roles := pr_roles m |}.
Definition set_pr_roles (v : option Z) (m : PairReqMsg) : PairReqMsg :=
  {| pr_instance_id := pr_instance_id m; pr_pin_proof := pr_pin_proof m; pr_roles := v |}.

Record PairGrantMsg := mkPairGrantMsg {
  pg_token : list byte; pg_roles : Z; pg_trust_map : option TrustMap }.

Definition PairGrantMsg_new : PairGrantMsg :=
  {| pg_token := replicate token_bytes Byte.x00; pg_roles := 0; pg_trust_map := None |}.

Definition set_pg_token (v : list byte) (m : PairGrantMsg) : PairGrantMsg :=
  {| pg_token := v; pg_roles := pg_roles m; pg_trust_map := pg_trust_map m |}.
Definition set_pg_roles (v : Z) (m : PairGrantMsg) : PairGrantMsg :=
  {| pg_token := pg_token m; pg_roles := v; pg_trust_map := pg_trust_map m |}.
Definition set_pg_trust_map (v : option TrustMap) (m : PairGrantMsg) : PairGrantMsg :=
  {| pg_token := pg_token m; pg_roles := pg_roles m; pg_trust_map := v |}.

Definition encodePairReq (m : PairReqMsg) (out : list byte) : list byte * nat :=
  finish ((mapHeader (1 + Z.b2z (has (pr_roles m)) + Z.b2z (has (pr_pin_proof m)))
    ;;; (key CborKey.instance_id ;;; bstrVal (pr_instance_id m))
    ;;; w_opt (pr_roles m) (fun v => key CborKey.roles ;;; uintVal v)
    ;;; w_opt (pr_pin_proof m) (fun v => key CborKey.pin_proof ;;; bstrVal v))
    (CborWriter_new out)).

Definition pair_req_field (k : Z) (st : PairReqMsg * bool) : ItemReader (PairReqMsg * bool) :=
  let '(m, gotInstance) := st in
  if k =? CborKey.instance_id then
    reading p_bstr (fun v => let? s := sized instance_id_bytes v in ok (set_pr_instance_id s m, true))
  else if k =? CborKey.pin_proof then
    reading p_bstr (fun v => let? s := sized kPinProofBytes v in ok (set_pr_pin_proof (Some s) m, gotInstance))
  else if k =? CborKey.roles then
    reading p_uint (fun v => ok (set_pr_roles (Some (u8 (if 0xFF <? v then 0xFF else v))) m, gotInstance))
  else skipping st.

Definition decodePairReq (inp : list byte) : decoded PairReqMsg :=
  decode (reading (fields (fun _ => ok (PairReqMsg_new, false)) pair_req_field)
    (fun '(m, gotInstance) => if negb gotInstance then err Malformed else ok m)) inp.

(** [has_trust && trust_map.any()]: an empty trust map is not sent. *)
Definition sent_trust (o : option TrustMap) : option TrustMap :=
  match o with Some t => if trust_any t then Some t else None | None => None end.

Definition encodePairGrant (m : PairGrantMsg) (out : list byte) : list byte * nat :=
  let hasTrust := has (sent_trust (pg_trust_map m)) in
  finish ((mapHeader (if hasTrust then 3 else 2)
    ;;; (key CborKey.token ;;; bstrVal (pg_token m))
    ;;; (key CborKey.roles ;;; uintVal (pg_roles m))
    ;;; w_opt (sent_trust (pg_trust_map m)) encodeTrustMap)
    (CborWriter_new out)).

(** The flags are [gotToken], [gotRoles]. *)
Definition pair_grant_field (k : Z) (st : PairGrantMsg * (bool * bool)) : ItemReader (PairGrantMsg * (bool * bool)) :=
  let '(m, (gt, gr)) := st in
  if k =? CborKey.token then
    reading p_bstr (fun v => let? s := sized token_bytes v in ok (set_pg_token s m, (true, gr)))
  else if k =? CborKey.roles then reading p_uint (fun v => ok (set_pg_roles (u8 v) m, (gt, true)))
  else if k =? CborKey.trust then reading p_trust (fun t => ok (set_pg_trust_map (Some t) m, (gt, gr)))
  else skipping st.

Definition decodePairGrant (inp : list byte) : decoded PairGrantMsg :=
  decode (reading (fields (fun _ => ok (PairGrantMsg_new, (false, false))) pair_grant_field)
    (fun '(m, (gt, gr)) => if negb (gt && gr) then err Malformed else ok m)) inp.

(** ** The trust map as a nested structure *)

Definition opt_filled (n : nat) (o : option (list byte)) : Prop :=
  match o with Some s => (1 <= length s <= n)%nat | None => True end.

Definition trust_ok (t : TrustMap) : Prop :=
  opt_cap client_ver_max_bytes (tm_client_ver t) /\ opt_len kTrustClientNonceBytes (tm_client_nonce t)
  /\ opt_filled kTrustPubkeyMaxBytes (tm_hub_pubkey t) /\ opt_filled kTrustSigMaxBytes (tm_welcome_sig t)
  /\ opt_len kTrustTokenProofBytes (tm_token_proof t)
  /\ opt_in 8 (tm_presentation_mode t) /\ opt_in 8 (tm_pairing_modes_mask t).

Definition trust_fields (t : TrustMap) : list (Z * Item) :=
  opt_fld trust.client_ver ITstr (tm_client_ver t)
  ++ opt_fld trust.client_nonce IBstr (tm_client_nonce t)
  ++ opt_fld trust.sig_request IBool (tm_sig_request t)
  ++ opt_fld trust.hub_pubkey IBstr (tm_hub_pubkey t)
  ++ opt_fld trust.welcome_sig IBstr (tm_welcome_sig t)
  ++ opt_fld trust.token_proof IBstr (tm_token_proof t)
  ++ opt_fld trust.presentation_mode IUint (tm_presentation_mode t)
  ++ opt_fld trust.pairing_modes IUint (tm_pairing_modes_mask t).

Lemma nonempty_capped_ok n s : (1 <= length s <= n)%nat -> nonempty_capped n s = ok s.
Proof.
  intros H. unfold nonempty_capped. rewrite (proj2 (Nat.eqb_neq _ _)) by lia.
  by rewrite (proj2 (Nat.ltb_ge _ _)) by lia.
Qed.

#[local] Arguments nonempty_capped : simpl never.

Ltac use_filled :=
  match goal with H : opt_filled _ ?o, E : ?o = Some _ |- _ => rewrite E in H; cbn [opt_filled] in H end.

Lemma trust_nested : Nested trust_ok (fun t => IMap (trust_fields t)) write_trust p_trust (fun t => t) 1.
Proof.
  split; unfold trust_fields.
  - intros t (H1 & H2 & H3 & H4 & H5 & H6 & H7). unfold write_trust, trust_keyCount. solve_writes.
  - intros t (H1 & H2 & H3 & H4 & H5 & H6 & H7).
    unfold client_ver_max_bytes, kTrustClientNonceBytes, kTrustPubkeyMaxBytes, kTrustSigMaxBytes, kTrustTokenProofBytes in *.
    solve_fields_wf; cbn [wf]; try use_filled; in_range.
  - intros t. apply nest_map. segments; leaf.
  - intros [|b] t (H1 & H2 & H3 & H4 & H5 & H6 & H7) Hb; [lia|].
    unfold p_trust. rewrite meaning_fields. cbn [result_bind].
    seg_opt set_tm_client_ver. seg_opt set_tm_client_nonce. seg_opt set_tm_sig_request.
    seg_opt_by set_tm_hub_pubkey ltac:(use_filled; rewrite nonempty_capped_ok by done).
    seg_opt_by set_tm_welcome_sig ltac:(use_filled; rewrite nonempty_capped_ok by done).
    seg_opt set_tm_token_proof. seg_opt set_tm_presentation_mode. seg_opt set_tm_pairing_modes_mask.
    by destruct t.
Qed.

(** ** Codec contracts *)

#[local] Arguments trust_fields : simpl never.
#[local] Arguments p_trust : simpl never.
#[local] Arguments TrustMap_new : simpl never.

Definition envelope_ok (m : TrustEnvelopeMsg) : Prop := trust_ok (te_trust_map m) /\ trust_any (te_trust_map m) = true.
Definition envelope_fields (m : TrustEnvelopeMsg) : list (Z * Item) :=
  fld CborKey.trust (IMap (trust_fields (te_trust_map m))).
Definition envelope_norm (m : TrustEnvelopeMsg) : TrustEnvelopeMsg := m.

Lemma envelope_fold m : envelope_ok m ->
  fold_fields (fun k a => meaning (envelope_field k a) 3) (envelope_fields m) (mkTrustEnvelopeMsg TrustMap_new, false)
  = ok (envelope_norm m, true).
Proof.
  intros [Ht _]. pose proof (nested_decode _ _ _ _ _ _ trust_nested 3 _ Ht ltac:(lia)) as Hd.
  unfold envelope_fields. seg_fld_by ltac:(rewrite Hd). by destruct m.
Qed.

#[export] Instance envelope_codec : CborMessage TrustEnvelopeMsg.
Proof.
  refine {| msg_ok := envelope_ok; msg_fields := envelope_fields; msg_encode := encodeTrustEnvelope; msg_decode := decodeTrustEnvelope;
            msg_norm := envelope_norm; msg_known := [39] |}.
  - intros m Hok. pose proof Hok as (Ht & Hany). unfold encodeTrustEnvelope, envelope_fields.
    eapply encodes_guard; [by rewrite Hany|].
    solve_encodes.
    + by apply (nested_writes _ _ _ _ _ _ trust_nested).
    + eapply Nat.le_trans; [apply (nested_nest _ _ _ _ _ _ trust_nested)|lia].
  - intros m Hok. pose proof Hok as (Ht & Hany). unfold envelope_fields. solve_fields_wf.
    by apply (nested_wf _ _ _ _ _ _ trust_nested).
  - intros m. unfold envelope_fields. solve_known.
  - intros m kvs rest Hok Hw Hn Hf. unfold decodeTrustEnvelope.
    apply (decode_fields envelope_field (mkTrustEnvelopeMsg TrustMap_new, false) _ [39] kvs (envelope_fields m) rest (envelope_norm m, true)); try done.
    + intros k [m0 g] Hk. unfold envelope_field. solve_skips Hk.
    + by apply envelope_fold.
  - intros inp m. apply decode_map_sound.
Defined.

Definition pair_req_ok (m : PairReqMsg) : Prop :=
  length (pr_instance_id m) = instance_id_bytes /\ opt_len kPinProofBytes (pr_pin_proof m) /\ opt_in 8 (pr_roles m).
Definition pair_req_fields (m : PairReqMsg) : list (Z * Item) :=
  fld CborKey.instance_id (IBstr (pr_instance_id m))
  ++ opt_fld CborKey.roles IUint (pr_roles m)
  ++ opt_fld CborKey.pin_proof IBstr (pr_pin_proof m).
Definition pair_req_norm (m : PairReqMsg) : PairReqMsg := m.

Lemma pair_req_fold m : pair_req_ok m ->
  fold_fields (fun k a => meaning (pair_req_field k a) 3) (pair_req_fields m) (PairReqMsg_new, false)
  = ok (pair_req_norm m, true).
Proof.
  intros (H1 & H2 & H3). unfold pair_req_fields. seg_fld.
  seg_opt_by set_pr_roles ltac:(rewrite (proj2 (Z.ltb_ge 0xFF _)) by (unfold in_u in *; lia)).
  seg_opt set_pr_pin_proof. by destruct m.
Qed.

#[export] Instance pair_req_codec : CborMessage PairReqMsg.
Proof.
  refine {| msg_ok := pair_req_ok; msg_fields := pair_req_fields; msg_encode := encodePairReq; msg_decode := decodePairReq;
            msg_norm := pair_req_norm; msg_known := [4; 23; 28] |}.
  - intros m Hok. pose proof Hok as (H1 & H2 & H3). unfold encodePairReq, pair_req_fields.
    solve_encodes.
  - intros m Hok. pose proof Hok as (H1 & H2 & H3). unfold pair_req_fields. solve_fields_wf.
    all: cbn [wf]; unfold instance_id_bytes, kPinProofBytes in *; in_range.
  - intros m. unfold pair_req_fields. solve_known.
  - intros m kvs rest Hok Hw Hn Hf. unfold decodePairReq.
    apply (decode_fields pair_req_field (PairReqMsg_new, false) _ [4; 23; 28] kvs (pair_req_fields m) rest (pair_req_norm m, true)); try done.
    + intros k [m0 g] Hk. unfold pair_req_field. solve_skips Hk.
    + by apply pair_req_fold.
  - intros inp m. apply decode_map_sound.
Defined.

Definition pair_grant_ok (m : PairGrantMsg) : Prop :=
  length (pg_token m) = token_bytes /\ in_u 8 (pg_roles m)
  /\ match pg_trust_map m with Some t => trust_ok t | None => True end.
Definition pair_grant_fields (m : PairGrantMsg) : list (Z * Item) :=
  fld CborKey.token (IBstr (pg_token m))
  ++ fld CborKey.roles (IUint (pg_roles m))
  ++ opt_fld CborKey.trust (fun t => IMap (trust_fields t)) (sent_trust (pg_trust_map m)).
Definition pair_grant_norm (m : PairGrantMsg) : PairGrantMsg := set_pg_trust_map (sent_trust (pg_trust_map m)) m.

Lemma sent_trust_ok o t :
  match o with Some t => trust_ok t | None => True end -> sent_trust o = Some t -> trust_ok t.
Proof. destruct o as [t'|]; [|done]. cbn. destruct (trust_any t'); [|done]. by intros ? [= <-]. Qed.

Lemma pair_grant_fold m : pair_grant_ok m ->
  fold_fields (fun k a => meaning (pair_grant_field k a) 3) (pair_grant_fields m) (PairGrantMsg_new, (false, false))
  = ok (pair_grant_norm m, (true, true)).
Proof.
  intros (H1 & H2 & H3). unfold pair_grant_fields. seg_fld. seg_fld.
  seg_opt_by set_pg_trust_map ltac:(idtac; match goal with E : sent_trust _ = Some ?t |- _ =>
    rewrite (nested_decode _ _ _ _ _ _ trust_nested 3 t (sent_trust_ok _ _ H3 E) ltac:(lia)) end).
  by destruct m.
Qed.

#[export] Instance pair_grant_codec : CborMessage PairGrantMsg.
Proof.
  refine {| msg_ok := pair_grant_ok; msg_fields := pair_grant_fields; msg_encode := encodePairGrant; msg_decode := decodePairGrant;
            msg_norm := pair_grant_norm; msg_known := [5; 23; 39] |}.
  - intros m Hok. pose proof Hok as (H1 & H2 & H3). unfold encodePairGrant, pair_grant_fields.
    cbv zeta. replace (if has (sent_trust (pg_trust_map m)) then 3 else 2) with (2 + Z.b2z (has (sent_trust (pg_trust_map m)))) by by destruct (has _).
    unfold encodeTrustMap.
    solve_encodes.
    + by apply (nested_writes _ _ _ _ _ _ trust_nested), (sent_trust_ok (pg_trust_map m)).
    + eapply Nat.le_trans; [apply (nested_nest _ _ _ _ _ _ trust_nested)|lia].
  - intros m Hok. pose proof Hok as (H1 & H2 & H3). unfold pair_grant_fields. solve_fields_wf.
    + cbn [wf]; unfold token_bytes in *; in_range.
    + apply (nested_wf _ _ _ _ _ _ trust_nested); by eapply sent_trust_ok.
  - intros m. unfold pair_grant_fields. solve_known.
  - intros m kvs rest Hok Hw Hn Hf. unfold decodePairGrant.
    apply (decode_fields pair_grant_field (PairGrantMsg_new, (false, false)) _ [5; 23; 39] kvs (pair_grant_fields m) rest (pair_grant_norm m, (true, true))); try done.
    + intros k [m0 [gt gr]] Hk. unfold pair_grant_field. solve_skips Hk.
    + by apply pair_grant_fold.
  - intros inp m. apply decode_map_sound.
Defined.

(** Pairing and authentication: an AUTH or HUB_SIG envelope, a PAIR_REQ and a PAIR_GRANT arrive
    as they were sent, except that a trust map with nothing in it is left out; an envelope with
    nothing to prove is never sent. *)
Theorem trust_messages_roundtrip (em : TrustEnvelopeMsg) (rm : PairReqMsg) (gm : PairGrantMsg) (out : list byte)
  (He : envelope_ok em) (Hr : pair_req_ok rm) (Hg : pair_grant_ok gm) :
  (let '(o, n) := encodeAuth em out in
     (n = 0%nat <-> (length out < length (encode (IMap (envelope_fields em))))%nat)
     /\ (n <> 0%nat -> decodeAuth (take n o) = ok em))
  /\ (let '(o, n) := encodePairReq rm out in
     (n = 0%nat <-> (length out < length (encode (IMap (pair_req_fields rm))))%nat)
     /\ (n <> 0%nat -> decodePairReq (take n o) = ok rm))
  /\ (let '(o, n) := encodePairGrant gm out in
     (n = 0%nat <-> (length out < length (encode (IMap (pair_grant_fields gm))))%nat)
     /\ (n <> 0%nat -> decodePairGrant (take n o) = ok (pair_grant_norm gm)))
  /\ encodeAuth (mkTrustEnvelopeMsg TrustMap_new) out = (out, 0%nat).
Proof.
  pose proof (message_contract em out He) as Ce. pose proof (message_contract rm out Hr) as Cr.
  pose proof (message_contract gm out Hg) as Cg.
  cbn [msg_encode msg_decode msg_norm msg_fields envelope_codec pair_req_codec pair_grant_codec] in Ce, Cr, Cg.
  unfold envelope_norm, pair_req_norm, encodeAuth, decodeAuth in *.
  destruct (encodeTrustEnvelope em out) as [o1 n1], (encodePairReq rm out) as [o2 n2], (encodePairGrant gm out) as [o3 n3].
  naive_solver.
Qed.

Lemma trust_messages_roundtrip_witness :
  let em := mkTrustEnvelopeMsg (set_tm_token_proof (Some (replicate 16 Byte.x07)) TrustMap_new) in
  (let '(o, n) := encodeAuth em (replicate 30 Byte.x00) in
     (n = 0%nat <-> (30 < length (encode (IMap (envelope_fields em))))%nat)
     /\ (n <> 0%nat -> decodeAuth (take n o) = ok em)).
Proof.
  refine (proj1 (trust_messages_roundtrip
    (mkTrustEnvelopeMsg (set_tm_token_proof (Some (replicate 16 Byte.x07)) TrustMap_new))
    PairReqMsg_new PairGrantMsg_new (replicate 30 Byte.x00) _ _ _)).
  - split; [unfold trust_ok; cbn; unfold in_u; split_and!; done || lia|done].
  - unfold pair_req_ok. cbn. done.
  - unfold pair_grant_ok, in_u. cbn. split_and!; done || lia.
Defined.

Lemma le_shift_bytes v :
  map (fun i => z2b (Z.land (Z.shiftr v (8 * i)) 0xFF)) [0; 1; 2; 3] = le_bytes 4 v.
Proof.
  cbn [map le_bytes]. change 0xFF with (Z.ones 8). rewrite !Z.land_ones, !Z.shiftr_div_pow2 by lia.
  change (2 ^ 8) with 256. rewrite !z2b_mod, !Z.div_div by lia. change (8 * 0) with 0. change (2 ^ 0) with 1.
  by rewrite Z.div_1_r.
Qed.

(** The signed material binds nonce, session and boot: it is 16 bytes, and two signing requests
    share it only if all three agree, so a signature cannot be replayed into another session. *)
Theorem hubSigMaterial_binds (n1 n2 : list byte) (s1 s2 b1 b2 : Z)
  (H1 : length n1 = kTrustClientNonceBytes) (H2 : length n2 = kTrustClientNonceBytes)
  (Hs1 : in_u 32 s1) (Hs2 : in_u 32 s2) (Hb1 : in_u 32 b1) (Hb2 : in_u 32 b2) :
  length (hubSigMaterial n1 s1 b1) = kHubSigMaterialBytes
  /\ (hubSigMaterial n1 s1 b1 = hubSigMaterial n2 s2 b2 <-> n1 = n2 /\ s1 = s2 /\ b1 = b2).
Proof.
  unfold hubSigMaterial. rewrite !le_shift_bytes. split.
  - rewrite !length_app, !length_le_bytes, H1. done.
  - split; [|by intros (-> & -> & ->)]. intros E.
    apply app_inj_1 in E as [-> E]; [|congruence].
    apply app_inj_1 in E as [Es Eb]; [|by rewrite !length_le_bytes].
    apply (f_equal of_le) in Es, Eb. rewrite !of_le_bytes in Es, Eb.
    change (256 ^ Z.of_nat 4) with (2 ^ 32) in *. unfold in_u in *.
    rewrite !Z.mod_small in Es, Eb by done. done.
Qed.

Lemma hubSigMaterial_binds_witness :
  length (hubSigMaterial (replicate 8 Byte.x01) 7 9) = kHubSigMaterialBytes
  /\ (hubSigMaterial (replicate 8 Byte.x01) 7 9 = hubSigMaterial (replicate 8 Byte.x01) 7 10
      <-> replicate 8 Byte.x01 = replicate 8 Byte.x01 /\ 7 = 7 /\ 9 = 10).
Proof.
  apply (hubSigMaterial_binds (replicate 8 Byte.x01) (replicate 8 Byte.x01) 7 7 9 10);
    first [reflexivity | unfold in_u; lia].
Defined.
