(* ===== verification/MsgHello.v ===== *)
(** * MsgHello: HELLO (wire/messages/hello.hpp), the first frame of a session *)

From S2P Require Import Prelude CborItem CborReader CborWriter CborMessage MsgWish MsgTrust.

Definition kProtocolVersion : Z := 1.
Definition etag_bytes : nat := 8.
Definition kHelloMaxClientKindBytes : nat := 16.
Definition kHelloMaxClientNameBytes : nat := 32.

Record HelloMsg := mkHelloMsg {
  hl_proto_ver : Z; hl_client_kind : list byte; hl_client_name : list byte;
     hl_instance_id : list byte; hl_token : option (list byte);
     hl_catalog_etag : option (list byte); hl_subscriptions : list SubscriptionWish;
     hl_publishes : list PublishWish; hl_trust_map : option TrustMap; hl_deadman_wish_ms : Z }.

Definition HelloMsg_new : HelloMsg :=
  {| hl_proto_ver := kProtocolVersion; hl_client_kind := []; hl_client_name := [];
     hl_instance_id := replicate instance_id_bytes Byte.x00; hl_token := None;
     hl_catalog_etag := None; hl_subscriptions := []; hl_publishes := []; hl_trust_map := None;
     hl_deadman_wish_ms := 0 |}.

Definition set_hl_proto_ver (v : Z) (m : HelloMsg) : HelloMsg :=
  {| hl_proto_ver := v; hl_client_kind := hl_client_kind m; hl_client_name := hl_client_name m;
     hl_instance_id := hl_instance_id m; hl_token := hl_token m;
     hl_catalog_etag := hl_catalog_etag m; hl_subscriptions := hl_subscriptions m;
     hl_publishes := hl_publishes m; hl_trust_map := hl_trust_map m;
     hl_deadman_wish_ms := hl_deadman_wish_ms m |}.
Definition set_hl_client_kind (v : list byte) (m : HelloMsg) : HelloMsg :=
  {| hl_proto_ver := hl_proto_ver m; hl_client_kind := v; hl_client_name := hl_client_name m;
     hl_instance_id := hl_instance_id m; hl_token := hl_token m;
     hl_catalog_etag := hl_catalog_etag m; hl_subscriptions := hl_subscriptions m;
     hl_publishes := hl_publishes m; hl_trust_map := hl_trust_map m;
     hl_deadman_wish_ms := hl_deadman_wish_ms m |}.
Definition set_hl_client_name (v : list byte) (m : HelloMsg) : HelloMsg :=
  {| hl_proto_ver := hl_proto_ver m; hl_client_kind := hl_client_kind m; hl_client_name := v;
     hl_instance_id := hl_instance_id m; hl_token := hl_token m;
     hl_catalog_etag := hl_catalog_etag m; hl_subscriptions := hl_subscriptions m;
     hl_publishes := hl_publishes m; hl_trust_map := hl_trust_map m;
     hl_deadman_wish_ms := hl_deadman_wish_ms m |}.
Definition set_hl_instance_id (v : list byte) (m : HelloMsg) : HelloMsg :=
  {| hl_proto_ver := hl_proto_ver m; hl_client_kind := hl_client_kind m;
     hl_client_name := hl_client_name m; hl_instance_id := v; hl_token := hl_token m;
     hl_catalog_etag := hl_catalog_etag m; hl_subscriptions := hl_subscriptions m;
     hl_publishes := hl_publishes m; hl_trust_map := hl_trust_map m;
     hl_deadman_wish_ms := hl_deadman_wish_ms m |}.
Definition set_hl_token (v : option (list byte)) (m : HelloMsg) : HelloMsg :=
  {| hl_proto_ver := hl_proto_ver m; hl_client_kind := hl_client_kind m;
     hl_client_name := hl_client_name m; hl_instance_id := hl_instance_id m; hl_token := v;
     hl_catalog_etag := hl_catalog_etag m; hl_subscriptions := hl_subscriptions m;
     hl_publishes := hl_publishes m; hl_trust_map := hl_trust_map m;
     hl_deadman_wish_ms := hl_deadman_wish_ms m |}.
Definition set_hl_catalog_etag (v : option (list byte)) (m : HelloMsg) : HelloMsg :=
  {| hl_proto_ver := hl_proto_ver m; hl_client_kind := hl_client_kind m;
     hl_client_name := hl_client_name m; hl_instance_id := hl_instance_id m;
     hl_token := hl_token m; hl_catalog_etag := v; hl_subscriptions := hl_subscriptions m;
     hl_publishes := hl_publishes m; hl_trust_map := hl_trust_map m;
     hl_deadman_wish_ms := hl_deadman_wish_ms m |}.
Definition set_hl_subscriptions (v : list SubscriptionWish) (m : HelloMsg) : HelloMsg :=
  {| hl_proto_ver := hl_proto_ver m; hl_client_kind := hl_client_kind m;
     hl_client_name := hl_client_name m; hl_instance_id := hl_instance_id m;
     hl_token := hl_token m; hl_catalog_etag := hl_catalog_etag m; hl_subscriptions := v;
     hl_publishes := hl_publishes m; hl_trust_map := hl_trust_map m;
     hl_deadman_wish_ms := hl_deadman_wish_ms m |}.
Definition set_hl_publishes (v : list PublishWish) (m : HelloMsg) : HelloMsg :=
  {| hl_proto_ver := hl_proto_ver m; hl_client_kind := hl_client_kind m;
     hl_client_name := hl_client_name m; hl_instance_id := hl_instance_id m;
     hl_token := hl_token m; hl_catalog_etag := hl_catalog_etag m;
     hl_subscriptions := hl_subscriptions m; hl_publishes := v; hl_trust_map := hl_trust_map m;
     hl_deadman_wish_ms := hl_deadman_wish_ms m |}.
Definition set_hl_trust_map (v : option TrustMap) (m : HelloMsg) : HelloMsg :=
  {| hl_proto_ver := hl_proto_ver m; hl_client_kind := hl_client_kind m;
     hl_client_name := hl_client_name m; hl_instance_id := hl_instance_id m;
     hl_token := hl_token m; hl_catalog_etag := hl_catalog_etag m;
     hl_subscriptions := hl_subscriptions m; hl_publishes := hl_publishes m; hl_trust_map := v;
     hl_deadman_wish_ms := hl_deadman_wish_ms m |}.
Definition set_hl_deadman_wish_ms (v : Z) (m : HelloMsg) : HelloMsg :=
  {| hl_proto_ver := hl_proto_ver m; hl_client_kind := hl_client_kind m;
     hl_client_name := hl_client_name m; hl_instance_id := hl_instance_id m;
     hl_token := hl_token m; hl_catalog_etag := hl_catalog_etag m;
     hl_subscriptions := hl_subscriptions m; hl_publishes := hl_publishes m;
     hl_trust_map := hl_trust_map m; hl_deadman_wish_ms := v |}.

Definition encodeHello (m : HelloMsg) (out : list byte) : list byte * nat :=
  if (kHelloMaxClientKindBytes <? length (hl_client_kind m))%nat then (out, 0%nat)
  else if (kHelloMaxClientNameBytes <? length (hl_client_name m))%nat then (out, 0%nat)
  else if kHelloMaxSubscriptionWishes <? len (hl_subscriptions m) then (out, 0%nat)
  else if kHelloMaxPublishWishes <? len (hl_publishes m) then (out, 0%nat)
  else
    let hasTrust := has (sent_trust (hl_trust_map m)) in
    let nKeys := 4 + Z.b2z (has (hl_token m)) + Z.b2z (has (hl_catalog_etag m))
                 + Z.b2z (0 <? len (hl_subscriptions m)) + Z.b2z (0 <? len (hl_publishes m))
                 + Z.b2z hasTrust + Z.b2z (0 <? hl_deadman_wish_ms m) in
    finish ((mapHeader nKeys
      ;;; (key CborKey.proto_ver ;;; uintVal (hl_proto_ver m))
      ;;; (key CborKey.client_kind ;;; tstrVal (hl_client_kind m))
      ;;; (key CborKey.client_name ;;; tstrVal (hl_client_name m))
      ;;; (key CborKey.instance_id ;;; bstrVal (hl_instance_id m))
      ;;; w_opt (hl_token m) (fun v => key CborKey.token ;;; bstrVal v)
      ;;; w_opt (hl_catalog_etag m) (fun v => key CborKey.catalog_etag ;;; bstrVal v)
      ;;; w_if (0 <? len (hl_subscriptions m))
            (key CborKey.subscriptions ;;; w_list encodeSubscriptionWish (hl_subscriptions m))
      ;;; w_if (0 <? len (hl_publishes m))
            (key CborKey.publishes ;;; w_list encodePublishWish (hl_publishes m))
      ;;; w_opt (sent_trust (hl_trust_map m)) (fun t => key CborKey.trust ;;; write_trust t)
      ;;; w_if (0 <? hl_deadman_wish_ms m) (key CborKey.deadman_wish_ms ;;; uintVal (hl_deadman_wish_ms m)))
      (CborWriter_new out)).

(** The flags are [gotProtoVer], [gotKind], [gotName], [gotInstance]. *)
Definition hello_field (k : Z) (st : HelloMsg * (bool * bool * bool * bool))
  : ItemReader (HelloMsg * (bool * bool * bool * bool)) :=
  let '(m, (gp, gk, gn, gi)) := st in
  if k =? CborKey.proto_ver then
    reading p_uint (fun v => let? c := at_most 0xFF v in ok (set_hl_proto_ver (u8 c) m, (true, gk, gn, gi)))
  else if k =? CborKey.client_kind then
    reading p_tstr (fun v => let? s := capped kHelloMaxClientKindBytes v in
                             ok (set_hl_client_kind s m, (gp, true, gn, gi)))
  else if k =? CborKey.client_name then
    reading p_tstr (fun v => let? s := capped kHelloMaxClientNameBytes v in
                             ok (set_hl_client_name s m, (gp, gk, true, gi)))
  else if k =? CborKey.instance_id then
    reading p_bstr (fun v => let? s := sized instance_id_bytes v in
                             ok (set_hl_instance_id s m, (gp, gk, gn, true)))
  else if k =? CborKey.token then
    reading p_bstr (fun v => let? s := sized token_bytes v in ok (set_hl_token (Some s) m, (gp, gk, gn, gi)))
  else if k =? CborKey.catalog_etag then
    reading p_bstr (fun v => let? s := sized etag_bytes v in
                             ok (set_hl_catalog_etag (Some s) m, (gp, gk, gn, gi)))
  else if k =? CborKey.subscriptions then
    reading (p_list (up_to kHelloMaxSubscriptionWishes) p_subscription_wish)
      (fun l => ok (set_hl_subscriptions l m, (gp, gk, gn, gi)))
  else if k =? CborKey.publishes then
    reading (p_list (up_to kHelloMaxPublishWishes) p_publish_wish)
      (fun l => ok (set_hl_publishes l m, (gp, gk, gn, gi)))
  else if k =? CborKey.trust then
    reading p_trust (fun t => ok (set_hl_trust_map (Some t) m, (gp, gk, gn, gi)))
  else if k =? CborKey.deadman_wish_ms then
    reading p_uint (fun v => let? c := at_most 0xFFFFFFFF v in
                             ok (set_hl_deadman_wish_ms (u32 c) m, (gp, gk, gn, gi)))
  else skipping st.

Definition p_hello : ItemReader HelloMsg :=
  reading (fields (fun _ => ok (HelloMsg_new, (false, false, false, false))) hello_field)
    (fun '(m, (gp, gk, gn, gi)) => if negb (gp && gk && gn && gi) then err Malformed else ok m).

Definition decodeHello (inp : list byte) : decoded HelloMsg := decode p_hello inp.

(** ** Codec contract *)

Definition hello_ok (m : HelloMsg) : Prop :=
  in_u 8 (hl_proto_ver m) /\ (length (hl_client_kind m) <= kHelloMaxClientKindBytes)%nat
  /\ (length (hl_client_name m) <= kHelloMaxClientNameBytes)%nat /\ length (hl_instance_id m) = instance_id_bytes
  /\ opt_len token_bytes (hl_token m) /\ opt_len etag_bytes (hl_catalog_etag m)
  /\ (Forall subscription_wish_ok (hl_subscriptions m) /\ 0 <= len (hl_subscriptions m) <= kHelloMaxSubscriptionWishes)
  /\ (Forall publish_wish_ok (hl_publishes m) /\ 0 <= len (hl_publishes m) <= kHelloMaxPublishWishes)
  /\ match hl_trust_map m with Some t => trust_ok t | None => True end
  /\ in_u 32 (hl_deadman_wish_ms m).

Definition hello_fields (m : HelloMsg) : list (Z * Item) :=
  fld CborKey.proto_ver (IUint (hl_proto_ver m))
  ++ fld CborKey.client_kind (ITstr (hl_client_kind m))
  ++ fld CborKey.client_name (ITstr (hl_client_name m))
  ++ fld CborKey.instance_id (IBstr (hl_instance_id m))
  ++ opt_fld CborKey.token IBstr (hl_token m)
  ++ opt_fld CborKey.catalog_etag IBstr (hl_catalog_etag m)
  ++ if_fld CborKey.subscriptions (0 <? len (hl_subscriptions m))
       (IArr (map (fun s => IMap (subscription_wish_fields s)) (hl_subscriptions m)))
  ++ if_fld CborKey.publishes (0 <? len (hl_publishes m))
       (IArr (map (fun s => IMap (publish_wish_fields s)) (hl_publishes m)))
  ++ opt_fld CborKey.trust (fun t => IMap (trust_fields t)) (sent_trust (hl_trust_map m))
  ++ if_fld CborKey.deadman_wish_ms (0 <? hl_deadman_wish_ms m) (IUint (hl_deadman_wish_ms m)).

Definition hello_norm (m : HelloMsg) : HelloMsg := set_hl_trust_map (sent_trust (hl_trust_map m)) m.

#[local] Arguments trust_fields : simpl never.
#[local] Arguments p_trust : simpl never.
#[local] Arguments p_list : simpl never.
#[local] Arguments subscription_wish_fields : simpl never.
#[local] Arguments publish_wish_fields : simpl never.

Definition hello_subscriptions_nested :=
  up_to_list _ _ _ _ _ _ kHelloMaxSubscriptionWishes eq_refl subscription_wish_nested.
Definition hello_publishes_nested :=
  up_to_list _ _ _ _ _ _ kHelloMaxPublishWishes eq_refl publish_wish_nested.

Lemma not_pos_nil {A} (l : list A) : (0 <? len l) = false -> l = [].
Proof. intros H%Z.ltb_ge. unfold len in H. destruct l; [done|cbn in H; lia]. Qed.

Lemma hello_fold m : hello_ok m ->
  fold_fields (fun k a => meaning (hello_field k a) 3) (hello_fields m) (HelloMsg_new, (false, false, false, false))
  = ok (hello_norm m, (true, true, true, true)).
Proof.
  intros (H1 & H2 & H3 & H4 & H5 & H6 & H7 & H8 & H9 & H10). unfold hello_fields.
  pose proof (nested_decode _ _ _ _ _ _ hello_subscriptions_nested 3 _ H7 ltac:(lia)) as Ds.
  pose proof (nested_decode _ _ _ _ _ _ hello_publishes_nested 3 _ H8 ltac:(lia)) as Dp.
  rewrite map_id in Ds, Dp.
  do 4 seg_fld. seg_opt set_hl_token. seg_opt set_hl_catalog_etag.
  seg_if_by (set_hl_subscriptions (hl_subscriptions m)) ltac:(rewrite Ds) ltac:(idtac; match goal with H : _ = false |- _ => by rewrite (not_pos_nil _ H) end).
  seg_if_by (set_hl_publishes (hl_publishes m)) ltac:(rewrite Dp) ltac:(idtac; match goal with H : _ = false |- _ => by rewrite (not_pos_nil _ H) end).
  seg_opt_by set_hl_trust_map ltac:(idtac; match goal with E : sent_trust _ = Some ?t |- _ =>
    rewrite (nested_decode _ _ _ _ _ _ trust_nested 3 t (sent_trust_ok _ _ H9 E) ltac:(lia)) end).
  seg_if_by (set_hl_deadman_wish_ms (hl_deadman_wish_ms m)) fail
    ltac:(idtac; match goal with H : (0 <? ?d) = false |- _ => apply Z.ltb_ge in H; replace d with 0 by (unfold in_u in *; lia); reflexivity end).
  by destruct m.
Qed.

#[export] Instance hello_codec : CborMessage HelloMsg.
Proof.
  refine {| msg_ok := hello_ok; msg_fields := hello_fields; msg_encode := encodeHello; msg_decode := decodeHello;
            msg_norm := hello_norm; msg_known := [1; 2; 3; 4; 5; 8; 10; 11; 39; 44] |}.
  - intros m Hok. pose proof Hok as (H1 & H2 & H3 & H4 & H5 & H6 & H7 & H8 & H9 & H10). unfold encodeHello, hello_fields.
    do 2 (eapply encodes_guard; [by apply Nat.ltb_ge|]). do 2 (eapply encodes_guard; [by apply Z.ltb_ge; apply H7 || apply H8|]).
    solve_encodes.
    all: first
      [ by apply (nested_writes _ _ _ _ _ _ hello_subscriptions_nested)
      | by apply (nested_writes _ _ _ _ _ _ hello_publishes_nested)
      | by apply (nested_writes _ _ _ _ _ _ trust_nested), (sent_trust_ok (hl_trust_map m))
      | eapply Nat.le_trans; [apply (nested_nest _ _ _ _ _ _ hello_subscriptions_nested)|lia]
      | eapply Nat.le_trans; [apply (nested_nest _ _ _ _ _ _ hello_publishes_nested)|lia]
      | eapply Nat.le_trans; [apply (nested_nest _ _ _ _ _ _ trust_nested)|lia] ].
  - intros m Hok. pose proof Hok as (H1 & H2 & H3 & H4 & H5 & H6 & H7 & H8 & H9 & H10). unfold hello_fields. solve_fields_wf.
    all: first
      [ by apply (nested_wf _ _ _ _ _ _ hello_subscriptions_nested)
      | by apply (nested_wf _ _ _ _ _ _ hello_publishes_nested)
      | apply (nested_wf _ _ _ _ _ _ trust_nested); by eapply sent_trust_ok
      | cbn [wf]; unfold kHelloMaxClientKindBytes, kHelloMaxClientNameBytes, instance_id_bytes, token_bytes, etag_bytes in *; in_range ].
  - intros m. unfold hello_fields. solve_known.
  - intros m kvs rest Hok Hw Hn Hf. unfold decodeHello.
    apply (decode_fields hello_field (HelloMsg_new, (false, false, false, false)) _ [1; 2; 3; 4; 5; 8; 10; 11; 39; 44] kvs (hello_fields m) rest (hello_norm m, (true, true, true, true))); try done.
    + intros k [m0 [[[gp gk] gn] gi]] Hk. unfold hello_field. solve_skips Hk.
    + by apply hello_fold.
  - intros inp m. apply decode_map_sound.
Defined.

(** HELLO opens a session: the encoder reports 0 exactly when the span is too small, and the hub
    decodes the very identity, credentials, wishes and trust material the client put in (an empty
    trust map is left out), also past keys it does not know. *)
Theorem hello_contract (m : HelloMsg) (out : list byte) (Hok : hello_ok m) :
  let '(o, n) := encodeHello m out in
  length o = length out
  /\ (n = 0%nat <-> (length out < length (encode (IMap (hello_fields m))))%nat)
  /\ (n <> 0%nat -> drop n o = drop n out /\ decodeHello (take n o) = ok (hello_norm m))
  /\ forall kvs rest, wf (IMap kvs) = true ->
       Forall (fun kv => knownb [1; 2; 3; 4; 5; 8; 10; 11; 39; 44] kv = false -> (nest (snd kv) <= 3)%nat) kvs ->
       List.filter (knownb [1; 2; 3; 4; 5; 8; 10; 11; 39; 44]) kvs = hello_fields m ->
       decodeHello (encode (IMap kvs) ++ rest) = ok (hello_norm m).
Proof. exact (message_contract m out Hok). Qed.

Lemma hello_contract_witness :
  let m := set_hl_subscriptions [mkSubscriptionWish 0x201 0x42480000 1]
    (set_hl_token (Some (replicate 16 Byte.x07)) HelloMsg_new) in
  let '(o, n) := encodeHello m (replicate 64 Byte.x00) in n = 50%nat /\ length o = 64%nat.
Proof.
  split; [reflexivity|].
  refine (proj1 (hello_contract (set_hl_subscriptions [mkSubscriptionWish 0x201 0x42480000 1]
    (set_hl_token (Some (replicate 16 Byte.x07)) HelloMsg_new)) (replicate 64 Byte.x00) _)).
  unfold hello_ok, in_u. cbn. split_and!; try done; try lia; try (apply Z.leb_le; reflexivity); try constructor.
  - unfold subscription_wish_ok, in_u. cbn. lia.
  - constructor.
Defined.
