(* ===== verification/MsgWelcome.v ===== *)
(** * MsgWelcome: WELCOME and GRANT (wire/messages/welcome.hpp, grant.hpp)

    The hub's answers: what the session was granted.  A float is its bit pattern. *)

From S2P Require Import Prelude CborItem CborReader CborWriter CborMessage MsgWish MsgTrust MsgHello.

Definition kWelcomeMaxGrants : Z := 16.
Definition kWelcomeMaxGrantedPublishes : Z := 8.
Definition kGrantMsgMaxGrants : Z := 16.
Definition schedule_horizon_max_ms : Z := 1000.
Definition deadman_default_ms : Z := 600.
Definition AccessLevel_configure : Z := 2.
Definition kIdentityProductMaxBytes : nat := 32.
Definition kIdentityFwVersionMaxBytes : nat := 24.
Definition kIdentityHubNameMaxBytes : nat := 32.

Record Grant := mkGrant {
  gr_channel_id : Z; gr_granted_rate_hz : Z; gr_priority : Z }.

Definition Grant_new : Grant :=
  {| gr_channel_id := 0; gr_granted_rate_hz := 0; gr_priority := 0 |}.

Definition set_gr_channel_id (v : Z) (m : Grant) : Grant :=
  {| gr_channel_id := v; gr_granted_rate_hz := gr_granted_rate_hz m;
     gr_priority := gr_priority m |}.
Definition set_gr_granted_rate_hz (v : Z) (m : Grant) : Grant :=
  {| gr_channel_id := gr_channel_id m; gr_granted_rate_hz := v; gr_priority := gr_priority m |}.
Definition set_gr_priority (v : Z) (m : Grant) : Grant :=
  {| gr_channel_id := gr_channel_id m; gr_granted_rate_hz := gr_granted_rate_hz m;
     gr_priority := v |}.

Record GrantedPublish := mkGrantedPublish {
  gp_channel_id : Z; gp_granted_rate_hz : Z; gp_burst : option Z; gp_schedule_latency_us : Z;
     gp_schedule_horizon_ms : Z }.

Definition GrantedPublish_new : GrantedPublish :=
  {| gp_channel_id := 0; gp_granted_rate_hz := 0; gp_burst := None; gp_schedule_latency_us := 0;
     gp_schedule_horizon_ms := 0 |}.

Definition set_gp_channel_id (v : Z) (m : GrantedPublish) : GrantedPublish :=
  {| gp_channel_id := v; gp_granted_rate_hz := gp_granted_rate_hz m; gp_burst := gp_burst m;
     gp_schedule_latency_us := gp_schedule_latency_us m;
     gp_schedule_horizon_ms := gp_schedule_horizon_ms m |}.
Definition set_gp_granted_rate_hz (v : Z) (m : GrantedPublish) : GrantedPublish :=
  {| gp_channel_id := gp_channel_id m; gp_granted_rate_hz := v; gp_burst := gp_burst m;
     gp_schedule_latency_us := gp_schedule_latency_us m;
     gp_schedule_horizon_ms := gp_schedule_horizon_ms m |}.
Definition set_gp_burst (v : option Z) (m : GrantedPublish) : GrantedPublish :=
  {| gp_channel_id := gp_channel_id m; gp_granted_rate_hz := gp_granted_rate_hz m; gp_burst := v;
     gp_schedule_latency_us := gp_schedule_latency_us m;
     gp_schedule_horizon_ms := gp_schedule_horizon_ms m |}.
Definition set_gp_schedule_latency_us (v : Z) (m : GrantedPublish) : GrantedPublish :=
  {| gp_channel_id := gp_channel_id m; gp_granted_rate_hz := gp_granted_rate_hz m;
     gp_burst := gp_burst m; gp_schedule_latency_us := v;
     gp_schedule_horizon_ms := gp_schedule_horizon_ms m |}.
Definition set_gp_schedule_horizon_ms (v : Z) (m : GrantedPublish) : GrantedPublish :=
  {| gp_channel_id := gp_channel_id m; gp_granted_rate_hz := gp_granted_rate_hz m;
     gp_burst := gp_burst m; gp_schedule_latency_us := gp_schedule_latency_us m;
     gp_schedule_horizon_ms := v |}.

Definition encodeGrantEntry (g : Grant) : CborWriter -> CborWriter :=
  mapHeader 3
  ;;; (key CborKey.priority ;;; uintVal (gr_priority g))
  ;;; (key CborKey.granted_rate_hz ;;; f32Val (gr_granted_rate_hz g))
  ;;; (key CborKey.channel_id ;;; uintVal (gr_channel_id g)).

Definition grant_entry_field (k : Z) (g : Grant) : ItemReader Grant :=
  if k =? CborKey.channel_id then reading p_uint (fun v => ok (set_gr_channel_id (u16 v) g))
  else if k =? CborKey.granted_rate_hz then reading p_f32 (fun v => ok (set_gr_granted_rate_hz v g))
  else if k =? CborKey.priority then reading p_uint (fun v => ok (set_gr_priority (u8 v) g))
  else skipping g.

Definition p_grant_entry : ItemReader Grant := fields (fun _ => ok Grant_new) grant_entry_field.

Definition encodeGrantedPublish (p : GrantedPublish) : CborWriter -> CborWriter :=
  mapHeader (2 + Z.b2z (has (gp_burst p)) + Z.b2z (nonzero (gp_schedule_latency_us p))
             + Z.b2z (nonzero (gp_schedule_horizon_ms p)))
  ;;; (key CborKey.granted_rate_hz ;;; f32Val (gp_granted_rate_hz p))
  ;;; (key CborKey.channel_id ;;; uintVal (gp_channel_id p))
  ;;; w_opt (gp_burst p) (fun v => key CborKey.burst ;;; f32Val v)
  ;;; w_if (nonzero (gp_schedule_latency_us p)) (key CborKey.schedule_latency_us ;;; uintVal (gp_schedule_latency_us p))
  ;;; w_if (nonzero (gp_schedule_horizon_ms p)) (key CborKey.schedule_horizon_ms ;;; uintVal (gp_schedule_horizon_ms p)).

Definition granted_publish_field (k : Z) (p : GrantedPublish) : ItemReader GrantedPublish :=
  if k =? CborKey.granted_rate_hz then reading p_f32 (fun v => ok (set_gp_granted_rate_hz v p))
  else if k =? CborKey.channel_id then reading p_uint (fun v => ok (set_gp_channel_id (u16 v) p))
  else if k =? CborKey.burst then reading p_f32 (fun v => ok (set_gp_burst (Some v) p))
  else if k =? CborKey.schedule_latency_us then
    reading p_uint (fun v => let? c := at_most 0xFFFFFFFF v in ok (set_gp_schedule_latency_us (u32 c) p))
  else if k =? CborKey.schedule_horizon_ms then
    reading p_uint (fun v => let? c := at_most schedule_horizon_max_ms v in ok (set_gp_schedule_horizon_ms (u16 c) p))
  else skipping p.

Definition p_granted_publish : ItemReader GrantedPublish := fields (fun _ => ok GrantedPublish_new) granted_publish_field.

(** [decodeGrantedPublish(r)]. *)
Definition decodeGrantedPublish := run p_granted_publish.

(** ** GRANT *)

(** [granted_publishes] is present when flagged or non-empty, absent otherwise. *)
Record GrantMsg := mkGrantMsg {
  gm_roles : option Z; gm_grants : list Grant;
     gm_granted_publishes : option (list GrantedPublish) }.

Definition GrantMsg_new : GrantMsg :=
  {| gm_roles := None; gm_grants := []; gm_granted_publishes := None |}.

Definition set_gm_roles (v : option Z) (m : GrantMsg) : GrantMsg :=
  {| gm_roles := v; gm_grants := gm_grants m; gm_granted_publishes := gm_granted_publishes m |}.
Definition set_gm_grants (v : list Grant) (m : GrantMsg) : GrantMsg :=
  {| gm_roles := gm_roles m; gm_grants := v; gm_granted_publishes := gm_granted_publishes m |}.
Definition set_gm_granted_publishes (v : option (list GrantedPublish)) (m : GrantMsg) : GrantMsg :=
  {| gm_roles := gm_roles m; gm_grants := gm_grants m; gm_granted_publishes := v |}.

Definition encodeGrant (m : GrantMsg) (out : list byte) : list byte * nat :=
  if kGrantMsgMaxGrants <? len (gm_grants m) then (out, 0%nat)
  else if kWelcomeMaxGrantedPublishes <? len (default [] (gm_granted_publishes m)) then (out, 0%nat)
  else
    finish ((mapHeader (1 + Z.b2z (has (gm_granted_publishes m)) + Z.b2z (has (gm_roles m)))
      ;;; w_opt (gm_roles m) (fun v => key CborKey.roles ;;; uintVal v)
      ;;; (key CborKey.grants ;;; w_list encodeGrantEntry (gm_grants m))
      ;;; w_opt (gm_granted_publishes m) (fun l => key CborKey.granted_publishes ;;; w_list encodeGrantedPublish l))
      (CborWriter_new out)).

Definition grant_field (k : Z) (st : GrantMsg * bool) : ItemReader (GrantMsg * bool) :=
  let '(m, gotGrants) := st in
  if k =? CborKey.grants then
    reading (p_list (up_to kGrantMsgMaxGrants) p_grant_entry) (fun l => ok (set_gm_grants l m, true))
  else if k =? CborKey.roles then
    reading p_uint (fun v => let? c := at_most AccessLevel_configure v in ok (set_gm_roles (Some (u8 c)) m, gotGrants))
  else if k =? CborKey.granted_publishes then
    reading (p_list (up_to kWelcomeMaxGrantedPublishes) p_granted_publish)
      (fun l => ok (set_gm_granted_publishes (Some l) m, gotGrants))
  else skipping st.

Definition decodeGrant (inp : list byte) : decoded GrantMsg :=
  decode (reading (fields (fun _ => ok (GrantMsg_new, false)) grant_field)
    (fun '(m, gotGrants) => if negb gotGrants then err Malformed else ok m)) inp.

(** ** WELCOME *)

(** [osc_max_hz > 0.0f] on a binary32: neither zero, nor negative, nor a NaN. *)
Definition f32_positive (bits : Z) : bool := (0 <? bits) && (bits <=? 0x7F800000).

Record WelcomeLimits := mkWelcomeLimits {
  wl_max_frame : Z; wl_max_subscriptions : Z; wl_retained_pending : Z;
     wl_max_subscriptions_per_frame : Z; wl_max_sessions : Z; wl_sessions_in_use : Z;
     wl_osc_max_hz : Z }.

Definition WelcomeLimits_new : WelcomeLimits :=
  {| wl_max_frame := 0; wl_max_subscriptions := 0; wl_retained_pending := 0;
     wl_max_subscriptions_per_frame := 0; wl_max_sessions := 0; wl_sessions_in_use := 0;
     wl_osc_max_hz := 0 |}.

Definition set_wl_max_frame (v : Z) (m : WelcomeLimits) : WelcomeLimits :=
  {| wl_max_frame := v; wl_max_subscriptions := wl_max_subscriptions m;
     wl_retained_pending := wl_retained_pending m;
     wl_max_subscriptions_per_frame := wl_max_subscriptions_per_frame m;
     wl_max_sessions := wl_max_sessions m; wl_sessions_in_use := wl_sessions_in_use m;
     wl_osc_max_hz := wl_osc_max_hz m |}.
Definition set_wl_max_subscriptions (v : Z) (m : WelcomeLimits) : WelcomeLimits :=
  {| wl_max_frame := wl_max_frame m; wl_max_subscriptions := v;
     wl_retained_pending := wl_retained_pending m;
     wl_max_subscriptions_per_frame := wl_max_subscriptions_per_frame m;
     wl_max_sessions := wl_max_sessions m; wl_sessions_in_use := wl_sessions_in_use m;
     wl_osc_max_hz := wl_osc_max_hz m |}.
Definition set_wl_retained_pending (v : Z) (m : WelcomeLimits) : WelcomeLimits :=
  {| wl_max_frame := wl_max_frame m; wl_max_subscriptions := wl_max_subscriptions m;
     wl_retained_pending := v; wl_max_subscriptions_per_frame := wl_max_subscriptions_per_frame m;
     wl_max_sessions := wl_max_sessions m; wl_sessions_in_use := wl_sessions_in_use m;
     wl_osc_max_hz := wl_osc_max_hz m |}.
Definition set_wl_max_subscriptions_per_frame (v : Z) (m : WelcomeLimits) : WelcomeLimits :=
  {| wl_max_frame := wl_max_frame m; wl_max_subscriptions := wl_max_subscriptions m;
     wl_retained_pending := wl_retained_pending m; wl_max_subscriptions_per_frame := v;
     wl_max_sessions := wl_max_sessions m; wl_sessions_in_use := wl_sessions_in_use m;
     wl_osc_max_hz := wl_osc_max_hz m |}.
Definition set_wl_max_sessions (v : Z) (m : WelcomeLimits) : WelcomeLimits :=
  {| wl_max_frame := wl_max_frame m; wl_max_subscriptions := wl_max_subscriptions m;
     wl_retained_pending := wl_retained_pending m;
     wl_max_subscriptions_per_frame := wl_max_subscriptions_per_frame m; wl_max_sessions := v;
     wl_sessions_in_use := wl_sessions_in_use m; wl_osc_max_hz := wl_osc_max_hz m |}.
Definition set_wl_sessions_in_use (v : Z) (m : WelcomeLimits) : WelcomeLimits :=
  {| wl_max_frame := wl_max_frame m; wl_max_subscriptions := wl_max_subscriptions m;
     wl_retained_pending := wl_retained_pending m;
     wl_max_subscriptions_per_frame := wl_max_subscriptions_per_frame m;
     wl_max_sessions := wl_max_sessions m; wl_sessions_in_use := v;
     wl_osc_max_hz := wl_osc_max_hz m |}.
Definition set_wl_osc_max_hz (v : Z) (m : WelcomeLimits) : WelcomeLimits :=
  {| wl_max_frame := wl_max_frame m; wl_max_subscriptions := wl_max_subscriptions m;
     wl_retained_pending := wl_retained_pending m;
     wl_max_subscriptions_per_frame := wl_max_subscriptions_per_frame m;
     wl_max_sessions := wl_max_sessions m; wl_sessions_in_use := wl_sessions_in_use m;
     wl_osc_max_hz := v |}.

Record IdentityInfo := mkIdentityInfo {
  id_product : list byte; id_fw_version : list byte; id_hub_name : list byte;
     id_hub_instance_id : option Z; id_estop_cuts_power : option bool; id_config_mode : bool }.

Definition IdentityInfo_new : IdentityInfo :=
  {| id_product := []; id_fw_version := []; id_hub_name := []; id_hub_instance_id := None;
     id_estop_cuts_power := None; id_config_mode := false |}.

Definition set_id_product (v : list byte) (m : IdentityInfo) : IdentityInfo :=
  {| id_product := v; id_fw_version := id_fw_version m; id_hub_name := id_hub_name m;
     id_hub_instance_id := id_hub_instance_id m; id_estop_cuts_power := id_estop_cuts_power m;
     id_config_mode := id_config_mode m |}.
Definition set_id_fw_version (v : list byte) (m : IdentityInfo) : IdentityInfo :=
  {| id_product := id_product m; id_fw_version := v; id_hub_name := id_hub_name m;
     id_hub_instance_id := id_hub_instance_id m; id_estop_cuts_power := id_estop_cuts_power m;
     id_config_mode := id_config_mode m |}.
Definition set_id_hub_name (v : list byte) (m : IdentityInfo) : IdentityInfo :=
  {| id_product := id_product m; id_fw_version := id_fw_version m; id_hub_name := v;
     id_hub_instance_id := id_hub_instance_id m; id_estop_cuts_power := id_estop_cuts_power m;
     id_config_mode := id_config_mode m |}.
Definition set_id_hub_instance_id (v : option Z) (m : IdentityInfo) : IdentityInfo :=
  {| id_product := id_product m; id_fw_version := id_fw_version m; id_hub_name := id_hub_name m;
     id_hub_instance_id := v; id_estop_cuts_power := id_estop_cuts_power m;
     id_config_mode := id_config_mode m |}.
Definition set_id_estop_cuts_power (v : option bool) (m : IdentityInfo) : IdentityInfo :=
  {| id_product := id_product m; id_fw_version := id_fw_version m; id_hub_name := id_hub_name m;
     id_hub_instance_id := id_hub_instance_id m; id_estop_cuts_power := v;
     id_config_mode := id_config_mode m |}.
Definition set_id_config_mode (v : bool) (m : IdentityInfo) : IdentityInfo :=
  {| id_product := id_product m; id_fw_version := id_fw_version m; id_hub_name := id_hub_name m;
     id_hub_instance_id := id_hub_instance_id m; id_estop_cuts_power := id_estop_cuts_power m;
     id_config_mode := v |}.

Record WelcomeMsg := mkWelcomeMsg {
  wm_proto_ver : Z; wm_session_id : Z; wm_boot_id : Z; wm_catalog_etag : list byte; wm_cfg_gen : Z;
     wm_limits_info : WelcomeLimits; wm_roles : Z; wm_deadman_ms : Z; wm_deadman_policy : Z;
     wm_nonce : list byte; wm_grants : list Grant; wm_granted_publishes : list GrantedPublish;
     wm_identity : option IdentityInfo; wm_ws_port : Z; wm_ipv4 : Z;
     wm_trust_map : option TrustMap }.

Definition WelcomeMsg_new : WelcomeMsg :=
  {| wm_proto_ver := kProtocolVersion; wm_session_id := 0; wm_boot_id := 0;
     wm_catalog_etag := replicate etag_bytes Byte.x00; wm_cfg_gen := 0;
     wm_limits_info := WelcomeLimits_new; wm_roles := 0; wm_deadman_ms := deadman_default_ms;
     wm_deadman_policy := 0; wm_nonce := replicate 8 Byte.x00; wm_grants := [];
     wm_granted_publishes := []; wm_identity := None; wm_ws_port := 0; wm_ipv4 := 0;
     wm_trust_map := None |}.

Definition set_wm_proto_ver (v : Z) (m : WelcomeMsg) : WelcomeMsg :=
  {| wm_proto_ver := v; wm_session_id := wm_session_id m; wm_boot_id := wm_boot_id m;
     wm_catalog_etag := wm_catalog_etag m; wm_cfg_gen := wm_cfg_gen m;
     wm_limits_info := wm_limits_info m; wm_roles := wm_roles m; wm_deadman_ms := wm_deadman_ms m;
     wm_deadman_policy := wm_deadman_policy m; wm_nonce := wm_nonce m; wm_grants := wm_grants m;
     wm_granted_publishes := wm_granted_publishes m; wm_identity := wm_identity m;
     wm_ws_port := wm_ws_port m; wm_ipv4 := wm_ipv4 m; wm_trust_map := wm_trust_map m |}.
Definition set_wm_session_id (v : Z) (m : WelcomeMsg) : WelcomeMsg :=
  {| wm_proto_ver := wm_proto_ver m; wm_session_id := v; wm_boot_id := wm_boot_id m;
     wm_catalog_etag := wm_catalog_etag m; wm_cfg_gen := wm_cfg_gen m;
     wm_limits_info := wm_limits_info m; wm_roles := wm_roles m; wm_deadman_ms := wm_deadman_ms m;
     wm_deadman_policy := wm_deadman_policy m; wm_nonce := wm_nonce m; wm_grants := wm_grants m;
     wm_granted_publishes := wm_granted_publishes m; wm_identity := wm_identity m;
     wm_ws_port := wm_ws_port m; wm_ipv4 := wm_ipv4 m; wm_trust_map := wm_trust_map m |}.
Definition set_wm_boot_id (v : Z) (m : WelcomeMsg) : WelcomeMsg :=
  {| wm_proto_ver := wm_proto_ver m; wm_session_id := wm_session_id m; wm_boot_id := v;
     wm_catalog_etag := wm_catalog_etag m; wm_cfg_gen := wm_cfg_gen m;
     wm_limits_info := wm_limits_info m; wm_roles := wm_roles m; wm_deadman_ms := wm_deadman_ms m;
     wm_deadman_policy := wm_deadman_policy m; wm_nonce := wm_nonce m; wm_grants := wm_grants m;
     wm_granted_publishes := wm_granted_publishes m; wm_identity := wm_identity m;
     wm_ws_port := wm_ws_port m; wm_ipv4 := wm_ipv4 m; wm_trust_map := wm_trust_map m |}.
Definition set_wm_catalog_etag (v : list byte) (m : WelcomeMsg) : WelcomeMsg :=
  {| wm_proto_ver := wm_proto_ver m; wm_session_id := wm_session_id m; wm_boot_id := wm_boot_id m;
     wm_catalog_etag := v; wm_cfg_gen := wm_cfg_gen m; wm_limits_info := wm_limits_info m;
     wm_roles := wm_roles m; wm_deadman_ms := wm_deadman_ms m;
     wm_deadman_policy := wm_deadman_policy m; wm_nonce := wm_nonce m; wm_grants := wm_grants m;
     wm_granted_publishes := wm_granted_publishes m; wm_identity := wm_identity m;
     wm_ws_port := wm_ws_port m; wm_ipv4 := wm_ipv4 m; wm_trust_map := wm_trust_map m |}.
Definition set_wm_cfg_gen (v : Z) (m : WelcomeMsg) : WelcomeMsg :=
  {| wm_proto_ver := wm_proto_ver m; wm_session_id := wm_session_id m; wm_boot_id := wm_boot_id m;
     wm_catalog_etag := wm_catalog_etag m; wm_cfg_gen := v; wm_limits_info := wm_limits_info m;
     wm_roles := wm_roles m; wm_deadman_ms := wm_deadman_ms m;
     wm_deadman_policy := wm_deadman_policy m; wm_nonce := wm_nonce m; wm_grants := wm_grants m;
     wm_granted_publishes := wm_granted_publishes m; wm_identity := wm_identity m;
     wm_ws_port := wm_ws_port m; wm_ipv4 := wm_ipv4 m; wm_trust_map := wm_trust_map m |}.
Definition set_wm_limits_info (v : WelcomeLimits) (m : WelcomeMsg) : WelcomeMsg :=
  {| wm_proto_ver := wm_proto_ver m; wm_session_id := wm_session_id m; wm_boot_id := wm_boot_id m;
     wm_catalog_etag := wm_catalog_etag m; wm_cfg_gen := wm_cfg_gen m; wm_limits_info := v;
     wm_roles := wm_roles m; wm_deadman_ms := wm_deadman_ms m;
     wm_deadman_policy := wm_deadman_policy m; wm_nonce := wm_nonce m; wm_grants := wm_grants m;
     wm_granted_publishes := wm_granted_publishes m; wm_identity := wm_identity m;
     wm_ws_port := wm_ws_port m; wm_ipv4 := wm_ipv4 m; wm_trust_map := wm_trust_map m |}.
Definition set_wm_roles (v : Z) (m : WelcomeMsg) : WelcomeMsg :=
  {| wm_proto_ver := wm_proto_ver m; wm_session_id := wm_session_id m; wm_boot_id := wm_boot_id m;
     wm_catalog_etag := wm_catalog_etag m; wm_cfg_gen := wm_cfg_gen m;
     wm_limits_info := wm_limits_info m; wm_roles := v; wm_deadman_ms := wm_deadman_ms m;
     wm_deadman_policy := wm_deadman_policy m; wm_nonce := wm_nonce m; wm_grants := wm_grants m;
     wm_granted_publishes := wm_granted_publishes m; wm_identity := wm_identity m;
     wm_ws_port := wm_ws_port m; wm_ipv4 := wm_ipv4 m; wm_trust_map := wm_trust_map m |}.
Definition set_wm_deadman_ms (v : Z) (m : WelcomeMsg) : WelcomeMsg :=
  {| wm_proto_ver := wm_proto_ver m; wm_session_id := wm_session_id m; wm_boot_id := wm_boot_id m;
     wm_catalog_etag := wm_catalog_etag m; wm_cfg_gen := wm_cfg_gen m;
     wm_limits_info := wm_limits_info m; wm_roles := wm_roles m; wm_deadman_ms := v;
     wm_deadman_policy := wm_deadman_policy m; wm_nonce := wm_nonce m; wm_grants := wm_grants m;
     wm_granted_publishes := wm_granted_publishes m; wm_identity := wm_identity m;
     wm_ws_port := wm_ws_port m; wm_ipv4 := wm_ipv4 m; wm_trust_map := wm_trust_map m |}.
Definition set_wm_deadman_policy (v : Z) (m : WelcomeMsg) : WelcomeMsg :=
  {| wm_proto_ver := wm_proto_ver m; wm_session_id := wm_session_id m; wm_boot_id := wm_boot_id m;
     wm_catalog_etag := wm_catalog_etag m; wm_cfg_gen := wm_cfg_gen m;
     wm_limits_info := wm_limits_info m; wm_roles := wm_roles m; wm_deadman_ms := wm_deadman_ms m;
     wm_deadman_policy := v; wm_nonce := wm_nonce m; wm_grants := wm_grants m;
     wm_granted_publishes := wm_granted_publishes m; wm_identity := wm_identity m;
     wm_ws_port := wm_ws_port m; wm_ipv4 := wm_ipv4 m; wm_trust_map := wm_trust_map m |}.
Definition set_wm_nonce (v : list byte) (m : WelcomeMsg) : WelcomeMsg :=
  {| wm_proto_ver := wm_proto_ver m; wm_session_id := wm_session_id m; wm_boot_id := wm_boot_id m;
     wm_catalog_etag := wm_catalog_etag m; wm_cfg_gen := wm_cfg_gen m;
     wm_limits_info := wm_limits_info m; wm_roles := wm_roles m; wm_deadman_ms := wm_deadman_ms m;
     wm_deadman_policy := wm_deadman_policy m; wm_nonce := v; wm_grants := wm_grants m;
     wm_granted_publishes := wm_granted_publishes m; wm_identity := wm_identity m;
     wm_ws_port := wm_ws_port m; wm_ipv4 := wm_ipv4 m; wm_trust_map := wm_trust_map m |}.
Definition set_wm_grants (v : list Grant) (m : WelcomeMsg) : WelcomeMsg :=
  {| wm_proto_ver := wm_proto_ver m; wm_session_id := wm_session_id m; wm_boot_id := wm_boot_id m;
     wm_catalog_etag := wm_catalog_etag m; wm_cfg_gen := wm_cfg_gen m;
     wm_limits_info := wm_limits_info m; wm_roles := wm_roles m; wm_deadman_ms := wm_deadman_ms m;
     wm_deadman_policy := wm_deadman_policy m; wm_nonce := wm_nonce m; wm_grants := v;
     wm_granted_publishes := wm_granted_publishes m; wm_identity := wm_identity m;
     wm_ws_port := wm_ws_port m; wm_ipv4 := wm_ipv4 m; wm_trust_map := wm_trust_map m |}.
Definition set_wm_granted_publishes (v : list GrantedPublish) (m : WelcomeMsg) : WelcomeMsg :=
  {| wm_proto_ver := wm_proto_ver m; wm_session_id := wm_session_id m; wm_boot_id := wm_boot_id m;
     wm_catalog_etag := wm_catalog_etag m; wm_cfg_gen := wm_cfg_gen m;
     wm_limits_info := wm_limits_info m; wm_roles := wm_roles m; wm_deadman_ms := wm_deadman_ms m;
     wm_deadman_policy := wm_deadman_policy m; wm_nonce := wm_nonce m; wm_grants := wm_grants m;
     wm_granted_publishes := v; wm_identity := wm_identity m; wm_ws_port := wm_ws_port m;
     wm_ipv4 := wm_ipv4 m; wm_trust_map := wm_trust_map m |}.
Definition set_wm_identity (v : option IdentityInfo) (m : WelcomeMsg) : WelcomeMsg :=
  {| wm_proto_ver := wm_proto_ver m; wm_session_id := wm_session_id m; wm_boot_id := wm_boot_id m;
     wm_catalog_etag := wm_catalog_etag m; wm_cfg_gen := wm_cfg_gen m;
     wm_limits_info := wm_limits_info m; wm_roles := wm_roles m; wm_deadman_ms := wm_deadman_ms m;
     wm_deadman_policy := wm_deadman_policy m; wm_nonce := wm_nonce m; wm_grants := wm_grants m;
     wm_granted_publishes := wm_granted_publishes m; wm_identity := v; wm_ws_port := wm_ws_port m;
     wm_ipv4 := wm_ipv4 m; wm_trust_map := wm_trust_map m |}.
Definition set_wm_ws_port (v : Z) (m : WelcomeMsg) : WelcomeMsg :=
  {| wm_proto_ver := wm_proto_ver m; wm_session_id := wm_session_id m; wm_boot_id := wm_boot_id m;
     wm_catalog_etag := wm_catalog_etag m; wm_cfg_gen := wm_cfg_gen m;
     wm_limits_info := wm_limits_info m; wm_roles := wm_roles m; wm_deadman_ms := wm_deadman_ms m;
     wm_deadman_policy := wm_deadman_policy m; wm_nonce := wm_nonce m; wm_grants := wm_grants m;
     wm_granted_publishes := wm_granted_publishes m; wm_identity := wm_identity m; wm_ws_port := v;
     wm_ipv4 := wm_ipv4 m; wm_trust_map := wm_trust_map m |}.
Definition set_wm_ipv4 (v : Z) (m : WelcomeMsg) : WelcomeMsg :=
  {| wm_proto_ver := wm_proto_ver m; wm_session_id := wm_session_id m; wm_boot_id := wm_boot_id m;
     wm_catalog_etag := wm_catalog_etag m; wm_cfg_gen := wm_cfg_gen m;
     wm_limits_info := wm_limits_info m; wm_roles := wm_roles m; wm_deadman_ms := wm_deadman_ms m;
     wm_deadman_policy := wm_deadman_policy m; wm_nonce := wm_nonce m; wm_grants := wm_grants m;
     wm_granted_publishes := wm_granted_publishes m; wm_identity := wm_identity m;
     wm_ws_port := wm_ws_port m; wm_ipv4 := v; wm_trust_map := wm_trust_map m |}.
Definition set_wm_trust_map (v : option TrustMap) (m : WelcomeMsg) : WelcomeMsg :=
  {| wm_proto_ver := wm_proto_ver m; wm_session_id := wm_session_id m; wm_boot_id := wm_boot_id m;
     wm_catalog_etag := wm_catalog_etag m; wm_cfg_gen := wm_cfg_gen m;
     wm_limits_info := wm_limits_info m; wm_roles := wm_roles m; wm_deadman_ms := wm_deadman_ms m;
     wm_deadman_policy := wm_deadman_policy m; wm_nonce := wm_nonce m; wm_grants := wm_grants m;
     wm_granted_publishes := wm_granted_publishes m; wm_identity := wm_identity m;
     wm_ws_port := wm_ws_port m; wm_ipv4 := wm_ipv4 m; wm_trust_map := v |}.

Definition filled (s : list byte) : bool := match s with [] => false | _ => true end.

Definition identity_any (i : IdentityInfo) : bool :=
  filled (id_product i) || filled (id_fw_version i) || filled (id_hub_name i) || has (id_hub_instance_id i)
  || has (id_estop_cuts_power i) || id_config_mode i.

(** [has_identity && identity.any()]. *)
Definition sent_identity (o : option IdentityInfo) : option IdentityInfo :=
  match o with Some i => if identity_any i then Some i else None | None => None end.

Module identity.
Definition product := 1.
Definition fw_version := 2.
Definition hub_name := 3.
Definition hub_instance_id := 5.
Definition estop_cuts_power := 6.
Definition config_mode := 7.
End identity.

Module welcome_limits.
Definition max_frame := 1.
Definition max_subscriptions := 2.
Definition retained_pending := 3.
Definition max_subscriptions_per_frame := 4.
Definition max_sessions := 5.
Definition sessions_in_use := 6.
Definition osc_max_hz := 7.
End welcome_limits.

Definition write_limits (l : WelcomeLimits) : CborWriter -> CborWriter :=
  mapHeader (3 + Z.b2z (0 <? wl_max_subscriptions_per_frame l) + Z.b2z (0 <? wl_max_sessions l)
             + Z.b2z (0 <? wl_sessions_in_use l) + Z.b2z (f32_positive (wl_osc_max_hz l)))
  ;;; (key welcome_limits.max_frame ;;; uintVal (wl_max_frame l))
  ;;; (key welcome_limits.max_subscriptions ;;; uintVal (wl_max_subscriptions l))
  ;;; (key welcome_limits.retained_pending ;;; uintVal (wl_retained_pending l))
  ;;; w_if (0 <? wl_max_subscriptions_per_frame l)
        (key welcome_limits.max_subscriptions_per_frame ;;; uintVal (wl_max_subscriptions_per_frame l))
  ;;; w_if (0 <? wl_max_sessions l) (key welcome_limits.max_sessions ;;; uintVal (wl_max_sessions l))
  ;;; w_if (0 <? wl_sessions_in_use l) (key welcome_limits.sessions_in_use ;;; uintVal (wl_sessions_in_use l))
  ;;; w_if (f32_positive (wl_osc_max_hz l)) (key welcome_limits.osc_max_hz ;;; f32Val (wl_osc_max_hz l)).

Definition limits_field (k : Z) (l : WelcomeLimits) : ItemReader WelcomeLimits :=
  if k =? welcome_limits.max_frame then reading p_uint (fun v => ok (set_wl_max_frame (u32 v) l))
  else if k =? welcome_limits.max_subscriptions then reading p_uint (fun v => ok (set_wl_max_subscriptions (u32 v) l))
  else if k =? welcome_limits.retained_pending then reading p_uint (fun v => ok (set_wl_retained_pending (u32 v) l))
  else if k =? welcome_limits.max_subscriptions_per_frame then
    reading p_uint (fun v => ok (set_wl_max_subscriptions_per_frame (u32 v) l))
  else if k =? welcome_limits.max_sessions then reading p_uint (fun v => ok (set_wl_max_sessions (u32 v) l))
  else if k =? welcome_limits.sessions_in_use then reading p_uint (fun v => ok (set_wl_sessions_in_use (u32 v) l))
  else if k =? welcome_limits.osc_max_hz then reading p_f32 (fun v => ok (set_wl_osc_max_hz v l))
  else skipping l.

Definition p_limits : ItemReader WelcomeLimits := fields (fun _ => ok WelcomeLimits_new) limits_field.

Definition write_identity (i : IdentityInfo) : CborWriter -> CborWriter :=
  mapHeader (Z.b2z (filled (id_product i)) + Z.b2z (filled (id_fw_version i)) + Z.b2z (filled (id_hub_name i))
             + Z.b2z (has (id_hub_instance_id i)) + Z.b2z (has (id_estop_cuts_power i)) + Z.b2z (id_config_mode i))
  ;;; w_if (filled (id_product i)) (key identity.product ;;; tstrVal (id_product i))
  ;;; w_if (filled (id_fw_version i)) (key identity.fw_version ;;; tstrVal (id_fw_version i))
  ;;; w_if (filled (id_hub_name i)) (key identity.hub_name ;;; tstrVal (id_hub_name i))
  ;;; w_opt (id_hub_instance_id i) (fun v => key identity.hub_instance_id ;;; uintVal v)
  ;;; w_opt (id_estop_cuts_power i) (fun v => key identity.estop_cuts_power ;;; boolVal v)
  ;;; w_if (id_config_mode i) (key identity.config_mode ;;; boolVal true).

Definition identity_field (k : Z) (i : IdentityInfo) : ItemReader IdentityInfo :=
  if k =? identity.product then
    reading p_tstr (fun v => let? s := capped kIdentityProductMaxBytes v in ok (set_id_product s i))
  else if k =? identity.fw_version then
    reading p_tstr (fun v => let? s := capped kIdentityFwVersionMaxBytes v in ok (set_id_fw_version s i))
  else if k =? identity.hub_name then
    reading p_tstr (fun v => let? s := capped kIdentityHubNameMaxBytes v in ok (set_id_hub_name s i))
  else if k =? identity.hub_instance_id then reading p_uint (fun v => ok (set_id_hub_instance_id (Some v) i))
  else if k =? identity.estop_cuts_power then reading p_bool (fun v => ok (set_id_estop_cuts_power (Some v) i))
  else if k =? identity.config_mode then reading p_bool (fun v => ok (set_id_config_mode v i))
  else skipping i.

Definition p_identity : ItemReader IdentityInfo := fields (fun _ => ok IdentityInfo_new) identity_field.

Definition identity_too_long (i : IdentityInfo) : bool :=
  (kIdentityProductMaxBytes <? length (id_product i))%nat
  || (kIdentityFwVersionMaxBytes <? length (id_fw_version i))%nat
  || (kIdentityHubNameMaxBytes <? length (id_hub_name i))%nat.

Definition encodeWelcome (m : WelcomeMsg) (out : list byte) : list byte * nat :=
  if kWelcomeMaxGrants <? len (wm_grants m) then (out, 0%nat)
  else if kWelcomeMaxGrantedPublishes <? len (wm_granted_publishes m) then (out, 0%nat)
  else if match sent_identity (wm_identity m) with Some i => identity_too_long i | None => false end
  then (out, 0%nat)
  else
    finish ((mapHeader (11 + Z.b2z (0 <? len (wm_granted_publishes m)) + Z.b2z (has (sent_identity (wm_identity m)))
                       + Z.b2z (has (sent_trust (wm_trust_map m))) + Z.b2z (nonzero (wm_ws_port m))
                       + Z.b2z (nonzero (wm_ipv4 m)))
      ;;; (key CborKey.proto_ver ;;; uintVal (wm_proto_ver m))
      ;;; (key CborKey.session_id ;;; uintVal (wm_session_id m))
      ;;; (key CborKey.boot_id ;;; uintVal (wm_boot_id m))
      ;;; (key CborKey.catalog_etag ;;; bstrVal (wm_catalog_etag m))
      ;;; (key CborKey.cfg_gen ;;; uintVal (wm_cfg_gen m))
      ;;; (key CborKey.limits ;;; write_limits (wm_limits_info m))
      ;;; (key CborKey.roles ;;; uintVal (wm_roles m))
      ;;; (key CborKey.deadman_ms ;;; uintVal (wm_deadman_ms m))
      ;;; (key CborKey.deadman_policy ;;; uintVal (wm_deadman_policy m))
      ;;; (key CborKey.nonce ;;; bstrVal (wm_nonce m))
      ;;; (key CborKey.grants ;;; w_list encodeGrantEntry (wm_grants m))
      ;;; w_if (0 <? len (wm_granted_publishes m))
            (key CborKey.granted_publishes ;;; w_list encodeGrantedPublish (wm_granted_publishes m))
      ;;; w_opt (sent_identity (wm_identity m)) (fun i => key CborKey.identity ;;; write_identity i)
      ;;; w_opt (sent_trust (wm_trust_map m)) (fun t => key CborKey.trust ;;; write_trust t)
      ;;; w_if (nonzero (wm_ws_port m)) (key CborKey.ws_port ;;; uintVal (wm_ws_port m))
      ;;; w_if (nonzero (wm_ipv4 m)) (key CborKey.ipv4 ;;; uintVal (wm_ipv4 m)))
      (CborWriter_new out)).

(** The required keys seen so far, in the order of the source's final check. *)
Record WelcomeGot := mkWelcomeGot {
  gotProtoVer : bool; gotSession : bool; gotBoot : bool; gotEtag : bool; gotCfgGen : bool; gotLimits : bool;
  gotRoles : bool; gotDeadmanMs : bool; gotDeadmanPolicy : bool; gotNonce : bool; gotGrants : bool }.

Definition WelcomeGot_none : WelcomeGot := mkWelcomeGot false false false false false false false false false false false.
Definition WelcomeGot_all : WelcomeGot := mkWelcomeGot true true true true true true true true true true true.

Definition withProtoVer (g : WelcomeGot) : WelcomeGot :=
  mkWelcomeGot true (gotSession g) (gotBoot g) (gotEtag g) (gotCfgGen g) (gotLimits g) (gotRoles g) (gotDeadmanMs g) (gotDeadmanPolicy g) (gotNonce g) (gotGrants g).
Definition withSession (g : WelcomeGot) : WelcomeGot :=
  mkWelcomeGot (gotProtoVer g) true (gotBoot g) (gotEtag g) (gotCfgGen g) (gotLimits g) (gotRoles g) (gotDeadmanMs g) (gotDeadmanPolicy g) (gotNonce g) (gotGrants g).
Definition withBoot (g : WelcomeGot) : WelcomeGot :=
  mkWelcomeGot (gotProtoVer g) (gotSession g) true (gotEtag g) (gotCfgGen g) (gotLimits g) (gotRoles g) (gotDeadmanMs g) (gotDeadmanPolicy g) (gotNonce g) (gotGrants g).
Definition withEtag (g : WelcomeGot) : WelcomeGot :=
  mkWelcomeGot (gotProtoVer g) (gotSession g) (gotBoot g) true (gotCfgGen g) (gotLimits g) (gotRoles g) (gotDeadmanMs g) (gotDeadmanPolicy g) (gotNonce g) (gotGrants g).
Definition withCfgGen (g : WelcomeGot) : WelcomeGot :=
  mkWelcomeGot (gotProtoVer g) (gotSession g) (gotBoot g) (gotEtag g) true (gotLimits g) (gotRoles g) (gotDeadmanMs g) (gotDeadmanPolicy g) (gotNonce g) (gotGrants g).
Definition withLimits (g : WelcomeGot) : WelcomeGot :=
  mkWelcomeGot (gotProtoVer g) (gotSession g) (gotBoot g) (gotEtag g) (gotCfgGen g) true (gotRoles g) (gotDeadmanMs g) (gotDeadmanPolicy g) (gotNonce g) (gotGrants g).
Definition withRoles (g : WelcomeGot) : WelcomeGot :=
  mkWelcomeGot (gotProtoVer g) (gotSession g) (gotBoot g) (gotEtag g) (gotCfgGen g) (gotLimits g) true (gotDeadmanMs g) (gotDeadmanPolicy g) (gotNonce g) (gotGrants g).
Definition withDeadmanMs (g : WelcomeGot) : WelcomeGot :=
  mkWelcomeGot (gotProtoVer g) (gotSession g) (gotBoot g) (gotEtag g) (gotCfgGen g) (gotLimits g) (gotRoles g) true (gotDeadmanPolicy g) (gotNonce g) (gotGrants g).
Definition withDeadmanPolicy (g : WelcomeGot) : WelcomeGot :=
  mkWelcomeGot (gotProtoVer g) (gotSession g) (gotBoot g) (gotEtag g) (gotCfgGen g) (gotLimits g) (gotRoles g) (gotDeadmanMs g) true (gotNonce g) (gotGrants g).
Definition withNonce (g : WelcomeGot) : WelcomeGot :=
  mkWelcomeGot (gotProtoVer g) (gotSession g) (gotBoot g) (gotEtag g) (gotCfgGen g) (gotLimits g) (gotRoles g) (gotDeadmanMs g) (gotDeadmanPolicy g) true (gotGrants g).
Definition withGrants (g : WelcomeGot) : WelcomeGot :=
  mkWelcomeGot (gotProtoVer g) (gotSession g) (gotBoot g) (gotEtag g) (gotCfgGen g) (gotLimits g) (gotRoles g) (gotDeadmanMs g) (gotDeadmanPolicy g) (gotNonce g) true.

Definition got_everything (g : WelcomeGot) : bool :=
  gotProtoVer g && gotSession g && gotBoot g && gotEtag g && gotCfgGen g && gotLimits g
  && gotRoles g && gotDeadmanMs g && gotDeadmanPolicy g && gotNonce g && gotGrants g.

Definition welcome_field (k : Z) (st : WelcomeMsg * WelcomeGot) : ItemReader (WelcomeMsg * WelcomeGot) :=
  let '(m, g) := st in
  if k =? CborKey.proto_ver then
    reading p_uint (fun v => let? c := at_most 0xFF v in ok (set_wm_proto_ver (u8 c) m, withProtoVer g))
  else if k =? CborKey.session_id then reading p_uint (fun v => ok (set_wm_session_id (u32 v) m, withSession g))
  else if k =? CborKey.boot_id then reading p_uint (fun v => ok (set_wm_boot_id (u32 v) m, withBoot g))
  else if k =? CborKey.catalog_etag then
    reading p_bstr (fun v => let? s := sized etag_bytes v in ok (set_wm_catalog_etag s m, withEtag g))
  else if k =? CborKey.cfg_gen then reading p_uint (fun v => ok (set_wm_cfg_gen (u16 v) m, withCfgGen g))
  else if k =? CborKey.limits then reading p_limits (fun l => ok (set_wm_limits_info l m, withLimits g))
  else if k =? CborKey.roles then reading p_uint (fun v => ok (set_wm_roles (u8 v) m, withRoles g))
  else if k =? CborKey.deadman_ms then reading p_uint (fun v => ok (set_wm_deadman_ms (u32 v) m, withDeadmanMs g))
  else if k =? CborKey.deadman_policy then
    reading p_uint (fun v => ok (set_wm_deadman_policy (u8 v) m, withDeadmanPolicy g))
  else if k =? CborKey.nonce then
    reading p_bstr (fun v => let? s := sized 8 v in ok (set_wm_nonce s m, withNonce g))
  else if k =? CborKey.grants then
    reading (p_list (up_to kWelcomeMaxGrants) p_grant_entry) (fun l => ok (set_wm_grants l m, withGrants g))
  else if k =? CborKey.granted_publishes then
    reading (p_list (up_to kWelcomeMaxGrantedPublishes) p_granted_publish) (fun l => ok (set_wm_granted_publishes l m, g))
  else if k =? CborKey.identity then reading p_identity (fun i => ok (set_wm_identity (Some i) m, g))
  else if k =? CborKey.trust then reading p_trust (fun t => ok (set_wm_trust_map (Some t) m, g))
  else if k =? CborKey.ws_port then
    reading p_uint (fun v => let? c := at_most 0xFFFF v in ok (set_wm_ws_port (u16 c) m, g))
  else if k =? CborKey.ipv4 then
    reading p_uint (fun v => let? c := at_most 0xFFFFFFFF v in ok (set_wm_ipv4 (u32 c) m, g))
  else skipping st.

Definition decodeWelcome (inp : list byte) : decoded WelcomeMsg :=
  decode (reading (fields (fun _ => ok (WelcomeMsg_new, WelcomeGot_none)) welcome_field)
    (fun '(m, g) => if negb (got_everything g) then err Malformed else ok m)) inp.

(** ** The nested structures *)

Definition grant_entry_ok (g : Grant) : Prop :=
  in_u 8 (gr_priority g) /\ in_u 32 (gr_granted_rate_hz g) /\ in_u 16 (gr_channel_id g).
Definition grant_entry_fields (g : Grant) : list (Z * Item) :=
  fld CborKey.priority (IUint (gr_priority g)) ++ fld CborKey.granted_rate_hz (IF32 (gr_granted_rate_hz g))
  ++ fld CborKey.channel_id (IUint (gr_channel_id g)).

Definition granted_publish_ok (p : GrantedPublish) : Prop :=
  in_u 32 (gp_granted_rate_hz p) /\ in_u 16 (gp_channel_id p) /\ opt_in 32 (gp_burst p)
  /\ in_u 32 (gp_schedule_latency_us p) /\ 0 <= gp_schedule_horizon_ms p <= schedule_horizon_max_ms.
Definition granted_publish_fields (p : GrantedPublish) : list (Z * Item) :=
  fld CborKey.granted_rate_hz (IF32 (gp_granted_rate_hz p)) ++ fld CborKey.channel_id (IUint (gp_channel_id p))
  ++ opt_fld CborKey.burst IF32 (gp_burst p)
  ++ if_fld CborKey.schedule_latency_us (nonzero (gp_schedule_latency_us p)) (IUint (gp_schedule_latency_us p))
  ++ if_fld CborKey.schedule_horizon_ms (nonzero (gp_schedule_horizon_ms p)) (IUint (gp_schedule_horizon_ms p)).

Lemma grant_entry_nested :
  Nested grant_entry_ok (fun g => IMap (grant_entry_fields g)) encodeGrantEntry p_grant_entry (fun g => g) 1.
Proof.
  split; unfold grant_entry_fields.
  - intros g (H1 & H2 & H3). unfold encodeGrantEntry. solve_writes.
  - intros g (H1 & H2 & H3). solve_fields_wf.
  - intros g. apply nest_map. segments; leaf.
  - intros [|b] [c r p] (H1 & H2 & H3) Hb; [lia|]. unfold p_grant_entry. rewrite meaning_fields.
    cbn [result_bind]. solve_fold.
Qed.

Lemma granted_publish_nested :
  Nested granted_publish_ok (fun g => IMap (granted_publish_fields g)) encodeGrantedPublish p_granted_publish (fun g => g) 1.
Proof.
  split; unfold granted_publish_fields.
  - intros g (H1 & H2 & H3 & H4 & H5). unfold schedule_horizon_max_ms in H5. unfold encodeGrantedPublish. solve_writes.
  - intros g (H1 & H2 & H3 & H4 & H5). unfold schedule_horizon_max_ms in H5. solve_fields_wf.
  - intros g. apply nest_map. segments; leaf.
  - intros [|b] g (H1 & H2 & H3 & H4 & H5) Hb; [lia|]. unfold schedule_horizon_max_ms in H5.
    unfold p_granted_publish. rewrite meaning_fields. cbn [result_bind].
    do 2 seg_fld. seg_opt set_gp_burst.
    seg_if_by (set_gp_schedule_latency_us (gp_schedule_latency_us g)) fail ltac:(idtac; absent_zero).
    seg_if_by (set_gp_schedule_horizon_ms (gp_schedule_horizon_ms g)) ltac:(unfold schedule_horizon_max_ms) ltac:(idtac; absent_zero).
    by destruct g.
Qed.

Definition grants_nested := up_to_list _ _ _ _ _ _ kWelcomeMaxGrants eq_refl grant_entry_nested.
Definition grant_msg_grants_nested := up_to_list _ _ _ _ _ _ kGrantMsgMaxGrants eq_refl grant_entry_nested.
Definition granted_publishes_nested :=
  up_to_list _ _ _ _ _ _ kWelcomeMaxGrantedPublishes eq_refl granted_publish_nested.

Definition limits_ok (l : WelcomeLimits) : Prop :=
  in_u 32 (wl_max_frame l) /\ in_u 32 (wl_max_subscriptions l) /\ in_u 32 (wl_retained_pending l)
  /\ in_u 32 (wl_max_subscriptions_per_frame l) /\ in_u 32 (wl_max_sessions l) /\ in_u 32 (wl_sessions_in_use l)
  /\ in_u 32 (wl_osc_max_hz l).
Definition limits_fields (l : WelcomeLimits) : list (Z * Item) :=
  fld welcome_limits.max_frame (IUint (wl_max_frame l))
  ++ fld welcome_limits.max_subscriptions (IUint (wl_max_subscriptions l))
  ++ fld welcome_limits.retained_pending (IUint (wl_retained_pending l))
  ++ if_fld welcome_limits.max_subscriptions_per_frame (0 <? wl_max_subscriptions_per_frame l) (IUint (wl_max_subscriptions_per_frame l))
  ++ if_fld welcome_limits.max_sessions (0 <? wl_max_sessions l) (IUint (wl_max_sessions l))
  ++ if_fld welcome_limits.sessions_in_use (0 <? wl_sessions_in_use l) (IUint (wl_sessions_in_use l))
  ++ if_fld welcome_limits.osc_max_hz (f32_positive (wl_osc_max_hz l)) (IF32 (wl_osc_max_hz l)).
(** A hub without an oscillator (or with a nonsensical rate) says nothing, and is read as 0. *)
Definition limits_norm (l : WelcomeLimits) : WelcomeLimits :=
  set_wl_osc_max_hz (if f32_positive (wl_osc_max_hz l) then wl_osc_max_hz l else 0) l.

Ltac absent_unsigned := match goal with H : (0 <? ?d) = false |- _ =>
  apply Z.ltb_ge in H; replace d with 0 by (unfold in_u in *; lia); reflexivity end.

Lemma limits_nested :
  Nested limits_ok (fun l => IMap (limits_fields l)) write_limits p_limits limits_norm 1.
Proof.
  split; unfold limits_fields.
  - intros l (H1 & H2 & H3 & H4 & H5 & H6 & H7). unfold write_limits. solve_writes.
  - intros l (H1 & H2 & H3 & H4 & H5 & H6 & H7). solve_fields_wf.
  - intros l. apply nest_map. segments; leaf.
  - intros [|b] l (H1 & H2 & H3 & H4 & H5 & H6 & H7) Hb; [lia|].
    unfold p_limits. rewrite meaning_fields. cbn [result_bind]. do 3 seg_fld.
    seg_if_by (set_wl_max_subscriptions_per_frame (wl_max_subscriptions_per_frame l)) fail ltac:(idtac; absent_unsigned).
    seg_if_by (set_wl_max_sessions (wl_max_sessions l)) fail ltac:(idtac; absent_unsigned).
    seg_if_by (set_wl_sessions_in_use (wl_sessions_in_use l)) fail ltac:(idtac; absent_unsigned).
    unfold limits_norm. destruct (f32_positive (wl_osc_max_hz l)); [|by destruct l].
    cbn [if_fld fold_fields]. by destruct l.
Qed.

Definition identity_ok (i : IdentityInfo) : Prop :=
  (length (id_product i) <= kIdentityProductMaxBytes)%nat
  /\ (length (id_fw_version i) <= kIdentityFwVersionMaxBytes)%nat
  /\ (length (id_hub_name i) <= kIdentityHubNameMaxBytes)%nat /\ opt_in 64 (id_hub_instance_id i).
Definition identity_fields (i : IdentityInfo) : list (Z * Item) :=
  if_fld identity.product (filled (id_product i)) (ITstr (id_product i))
  ++ if_fld identity.fw_version (filled (id_fw_version i)) (ITstr (id_fw_version i))
  ++ if_fld identity.hub_name (filled (id_hub_name i)) (ITstr (id_hub_name i))
  ++ opt_fld identity.hub_instance_id IUint (id_hub_instance_id i)
  ++ opt_fld identity.estop_cuts_power IBool (id_estop_cuts_power i)
  ++ if_fld identity.config_mode (id_config_mode i) (IBool true).

Ltac absent_empty := match goal with H : filled ?s = false |- _ => by destruct s end.

Lemma identity_nested :
  Nested identity_ok (fun l => IMap (identity_fields l)) write_identity p_identity (fun i => i) 1.
Proof.
  split; unfold identity_fields.
  - intros l (H1 & H2 & H3 & H4). unfold write_identity. solve_writes.
  - intros l (H1 & H2 & H3 & H4).
    unfold kIdentityProductMaxBytes, kIdentityFwVersionMaxBytes, kIdentityHubNameMaxBytes in *. solve_fields_wf.
  - intros l. apply nest_map. segments; leaf.
  - intros [|b] l (H1 & H2 & H3 & H4) Hb; [lia|].
    unfold p_identity. rewrite meaning_fields. cbn [result_bind].
    seg_if_by (set_id_product (id_product l)) fail ltac:(idtac; absent_empty).
    seg_if_by (set_id_fw_version (id_fw_version l)) fail ltac:(idtac; absent_empty).
    seg_if_by (set_id_hub_name (id_hub_name l)) fail ltac:(idtac; absent_empty).
    seg_opt set_id_hub_instance_id. seg_opt set_id_estop_cuts_power.
    destruct l as [? ? ? ? ? []]; done.
Qed.

#[local] Arguments trust_fields : simpl never.
#[local] Arguments p_trust : simpl never.
#[local] Arguments p_list : simpl never.
#[local] Arguments p_limits : simpl never.
#[local] Arguments p_identity : simpl never.
#[local] Arguments limits_fields : simpl never.
#[local] Arguments identity_fields : simpl never.
#[local] Arguments grant_entry_fields : simpl never.
#[local] Arguments granted_publish_fields : simpl never.

(** ** Codec contracts *)

Definition grants_item (l : list Grant) : Item := IArr (map (fun g => IMap (grant_entry_fields g)) l).
Definition granted_publishes_item (l : list GrantedPublish) : Item :=
  IArr (map (fun g => IMap (granted_publish_fields g)) l).

Definition granted_publishes_ok (l : list GrantedPublish) : Prop :=
  Forall granted_publish_ok l /\ 0 <= len l <= kWelcomeMaxGrantedPublishes.

Definition grant_ok (m : GrantMsg) : Prop :=
  match gm_roles m with Some r => 0 <= r <= AccessLevel_configure | None => True end
  /\ (Forall grant_entry_ok (gm_grants m) /\ 0 <= len (gm_grants m) <= kGrantMsgMaxGrants)
  /\ match gm_granted_publishes m with Some l => granted_publishes_ok l | None => True end.
Definition grant_fields (m : GrantMsg) : list (Z * Item) :=
  opt_fld CborKey.roles IUint (gm_roles m)
  ++ fld CborKey.grants (grants_item (gm_grants m))
  ++ opt_fld CborKey.granted_publishes granted_publishes_item (gm_granted_publishes m).
Definition grant_norm (m : GrantMsg) : GrantMsg := m.

Lemma grant_fold m : grant_ok m ->
  fold_fields (fun k a => meaning (grant_field k a) 3) (grant_fields m) (GrantMsg_new, false) = ok (grant_norm m, true).
Proof.
  intros (H1 & H2 & H3). unfold grant_fields.
  pose proof (nested_decode _ _ _ _ _ _ grant_msg_grants_nested 3 _ H2 ltac:(lia)) as Dg. rewrite map_id in Dg.
  seg_opt_by set_gm_roles ltac:(idtac; match goal with E : gm_roles _ = Some _ |- _ =>
    rewrite E in H1; unfold AccessLevel_configure in *; rewrite at_most_ok by lia end).
  seg_fld_by ltac:(unfold grants_item; rewrite Dg).
  seg_opt_by set_gm_granted_publishes ltac:(idtac; match goal with E : gm_granted_publishes _ = Some ?l |- _ =>
    rewrite E in H3; unfold granted_publishes_item;
    pose proof (nested_decode _ _ _ _ _ _ granted_publishes_nested 3 l H3 ltac:(lia)) as Dp;
    rewrite map_id in Dp; rewrite Dp end).
  by destruct m.
Qed.

#[export] Instance grant_codec : CborMessage GrantMsg.
Proof.
  refine {| msg_ok := grant_ok; msg_fields := grant_fields; msg_encode := encodeGrant; msg_decode := decodeGrant;
            msg_norm := grant_norm; msg_known := [23; 35; 36] |}.
  - intros m Hok. pose proof Hok as (H1 & H2 & H3). unfold encodeGrant, grant_fields.
    eapply encodes_guard; [apply Z.ltb_ge; lia|].
    eapply encodes_guard; [apply Z.ltb_ge; destruct (gm_granted_publishes m); [apply H3|by apply Z.leb_le]|].
    solve_encodes.
    all: first
      [ by apply (nested_writes _ _ _ _ _ _ grant_msg_grants_nested)
      | apply (nested_writes _ _ _ _ _ _ granted_publishes_nested);
        match goal with E : _ = Some _ |- _ => by rewrite E in H3 end
      | apply writes_uint;
        match goal with E : _ = Some _ |- _ => rewrite E in H1; unfold AccessLevel_configure, in_u in *; lia end
      | eapply Nat.le_trans; [apply (nested_nest _ _ _ _ _ _ grant_msg_grants_nested)|lia]
      | eapply Nat.le_trans; [apply (nested_nest _ _ _ _ _ _ granted_publishes_nested)|lia] ].
  - intros m Hok. pose proof Hok as (H1 & H2 & H3). unfold grant_fields. solve_fields_wf.
    all: first
      [ by apply (nested_wf _ _ _ _ _ _ grant_msg_grants_nested)
      | apply (nested_wf _ _ _ _ _ _ granted_publishes_nested);
        match goal with E : _ = Some _ |- _ => by rewrite E in H3 end
      | cbn [wf]; apply in_ub_spec;
        match goal with E : _ = Some _ |- _ => rewrite E in H1; unfold AccessLevel_configure, in_u in *; lia end ].
  - intros m. unfold grant_fields. solve_known.
  - intros m kvs rest Hok Hw Hn Hf. unfold decodeGrant.
    apply (decode_fields grant_field (GrantMsg_new, false) _ [23; 35; 36] kvs (grant_fields m) rest (grant_norm m, true)); try done.
    + intros k [m0 g] Hk. unfold grant_field. solve_skips Hk.
    + by apply grant_fold.
  - intros inp m. apply decode_map_sound.
Defined.

(** ** WELCOME: contract *)

Definition sent_identity_ok (o : option IdentityInfo) : Prop :=
  match o with Some i => identity_ok i | None => True end.

Definition welcome_ok (m : WelcomeMsg) : Prop :=
  in_u 8 (wm_proto_ver m) /\ in_u 32 (wm_session_id m) /\ in_u 32 (wm_boot_id m)
  /\ length (wm_catalog_etag m) = etag_bytes /\ in_u 16 (wm_cfg_gen m) /\ limits_ok (wm_limits_info m)
  /\ in_u 8 (wm_roles m) /\ in_u 32 (wm_deadman_ms m) /\ in_u 8 (wm_deadman_policy m) /\ length (wm_nonce m) = 8%nat
  /\ (Forall grant_entry_ok (wm_grants m) /\ 0 <= len (wm_grants m) <= kWelcomeMaxGrants)
  /\ granted_publishes_ok (wm_granted_publishes m)
  /\ sent_identity_ok (wm_identity m)
  /\ match wm_trust_map m with Some t => trust_ok t | None => True end
  /\ in_u 16 (wm_ws_port m) /\ in_u 32 (wm_ipv4 m).

Definition welcome_fields (m : WelcomeMsg) : list (Z * Item) :=
  fld CborKey.proto_ver (IUint (wm_proto_ver m))
  ++ fld CborKey.session_id (IUint (wm_session_id m))
  ++ fld CborKey.boot_id (IUint (wm_boot_id m))
  ++ fld CborKey.catalog_etag (IBstr (wm_catalog_etag m))
  ++ fld CborKey.cfg_gen (IUint (wm_cfg_gen m))
  ++ fld CborKey.limits (IMap (limits_fields (wm_limits_info m)))
  ++ fld CborKey.roles (IUint (wm_roles m))
  ++ fld CborKey.deadman_ms (IUint (wm_deadman_ms m))
  ++ fld CborKey.deadman_policy (IUint (wm_deadman_policy m))
  ++ fld CborKey.nonce (IBstr (wm_nonce m))
  ++ fld CborKey.grants (grants_item (wm_grants m))
  ++ if_fld CborKey.granted_publishes (0 <? len (wm_granted_publishes m))
       (granted_publishes_item (wm_granted_publishes m))
  ++ opt_fld CborKey.identity (fun i => IMap (identity_fields i)) (sent_identity (wm_identity m))
  ++ opt_fld CborKey.trust (fun t => IMap (trust_fields t)) (sent_trust (wm_trust_map m))
  ++ if_fld CborKey.ws_port (nonzero (wm_ws_port m)) (IUint (wm_ws_port m))
  ++ if_fld CborKey.ipv4 (nonzero (wm_ipv4 m)) (IUint (wm_ipv4 m)).

(** An empty identity or trust map is left out, and a non-positive oscillator rate with it. *)
Definition welcome_norm (m : WelcomeMsg) : WelcomeMsg :=
  set_wm_limits_info (limits_norm (wm_limits_info m))
    (set_wm_identity (sent_identity (wm_identity m)) (set_wm_trust_map (sent_trust (wm_trust_map m)) m)).

Lemma sent_identity_fits o i :
  sent_identity_ok o -> sent_identity o = Some i -> identity_ok i /\ identity_too_long i = false.
Proof.
  intros Ho. destruct o as [j|]; [|done]. unfold sent_identity. destruct (identity_any j); [|done]. intros [= <-].
  split; [done|]. destruct Ho as (H1 & H2 & H3 & _). unfold identity_too_long.
  by rewrite !(proj2 (Nat.ltb_ge _ _)).
Qed.

(** The state so far, as one record. *)
Ltac flatten_state :=
  cbv [WelcomeMsg_new WelcomeGot_none
       set_wm_proto_ver set_wm_session_id set_wm_boot_id set_wm_catalog_etag set_wm_cfg_gen
       set_wm_limits_info set_wm_roles set_wm_deadman_ms set_wm_deadman_policy set_wm_nonce
       set_wm_grants set_wm_granted_publishes set_wm_identity set_wm_ws_port set_wm_ipv4
       set_wm_trust_map wm_proto_ver wm_session_id wm_boot_id wm_catalog_etag wm_cfg_gen
       wm_limits_info wm_roles wm_deadman_ms wm_deadman_policy wm_nonce wm_grants
       wm_granted_publishes wm_identity wm_ws_port wm_ipv4 wm_trust_map withProtoVer withSession
       withBoot withEtag withCfgGen withLimits withRoles withDeadmanMs withDeadmanPolicy withNonce
       withGrants gotProtoVer gotSession gotBoot gotEtag gotCfgGen gotLimits gotRoles gotDeadmanMs
       gotDeadmanPolicy gotNonce gotGrants].

Lemma welcome_fold m : welcome_ok m ->
  fold_fields (fun k a => meaning (welcome_field k a) 3) (welcome_fields m) (WelcomeMsg_new, WelcomeGot_none)
  = ok (welcome_norm m, WelcomeGot_all).
Proof.
  intros (H1 & H2 & H3 & H4 & H5 & H6 & H7 & H8 & H9 & H10 & H11 & H12 & H13 & H14 & H15 & H16). unfold welcome_fields.
  destruct m as [pv sid bid etag cfg lim rl dms dp nc gs gps idn wp ip tm].
  cbn [wm_proto_ver wm_session_id wm_boot_id wm_catalog_etag wm_cfg_gen wm_limits_info wm_roles wm_deadman_ms wm_deadman_policy wm_nonce wm_grants wm_granted_publishes wm_identity wm_ws_port wm_ipv4 wm_trust_map] in *.
  pose proof (nested_decode _ _ _ _ _ _ limits_nested 3 _ H6 ltac:(lia)) as Dl.
  pose proof (nested_decode _ _ _ _ _ _ grants_nested 3 _ H11 ltac:(lia)) as Dg.
  pose proof (nested_decode _ _ _ _ _ _ granted_publishes_nested 3 _ H12 ltac:(lia)) as Dp.
  rewrite map_id in Dg, Dp.
  do 5 seg_fld. seg_fld_by ltac:(rewrite Dl). flatten_state.
  do 4 seg_fld. seg_fld_by ltac:(unfold grants_item; rewrite Dg). flatten_state.
  seg_if_by (set_wm_granted_publishes gps) ltac:(unfold granted_publishes_item; rewrite Dp)
    ltac:(idtac; match goal with H : _ = false |- _ => by rewrite (not_pos_nil _ H) end).
  flatten_state. seg_opt_by set_wm_identity ltac:(idtac; match goal with E : sent_identity _ = Some ?t |- _ =>
    rewrite (nested_decode _ _ _ _ _ _ identity_nested 3 t (proj1 (sent_identity_fits _ _ H13 E)) ltac:(lia)) end).
  seg_opt_by set_wm_trust_map ltac:(idtac; match goal with E : sent_trust _ = Some ?t |- _ =>
    rewrite (nested_decode _ _ _ _ _ _ trust_nested 3 t (sent_trust_ok _ _ H14 E) ltac:(lia)) end).
  flatten_state. seg_if_by (set_wm_ws_port wp) fail ltac:(idtac; absent_zero).
  seg_if_by (set_wm_ipv4 ip) fail ltac:(idtac; absent_zero).
  reflexivity.
Qed.

#[export] Instance welcome_codec : CborMessage WelcomeMsg.
Proof.
  refine {| msg_ok := welcome_ok; msg_fields := welcome_fields; msg_encode := encodeWelcome;
            msg_decode := decodeWelcome; msg_norm := welcome_norm;
            msg_known := [1; 6; 7; 8; 9; 22; 23; 24; 25; 29; 35; 36; 37; 39; 46; 47] |}.
  - intros m Hok.
    pose proof Hok as (H1 & H2 & H3 & H4 & H5 & H6 & H7 & H8 & H9 & H10 & H11 & H12 & H13 & H14 & H15 & H16).
    unfold encodeWelcome, welcome_fields.
    do 2 (eapply encodes_guard; [by apply Z.ltb_ge; apply H11 || apply H12|]).
    eapply encodes_guard;
      [destruct (sent_identity (wm_identity m)) eqn:E; [by apply (sent_identity_fits _ _ H13 E)|done]|].
    solve_encodes.
    all: first
      [ by apply (nested_writes _ _ _ _ _ _ limits_nested)
      | by apply (nested_writes _ _ _ _ _ _ grants_nested)
      | by apply (nested_writes _ _ _ _ _ _ granted_publishes_nested)
      | match goal with E : sent_identity _ = Some _ |- _ =>
          by apply (nested_writes _ _ _ _ _ _ identity_nested), (sent_identity_fits _ _ H13 E) end
      | by apply (nested_writes _ _ _ _ _ _ trust_nested), (sent_trust_ok (wm_trust_map m))
      | eapply Nat.le_trans; [apply (nested_nest _ _ _ _ _ _ limits_nested)|lia]
      | eapply Nat.le_trans; [apply (nested_nest _ _ _ _ _ _ grants_nested)|lia]
      | eapply Nat.le_trans; [apply (nested_nest _ _ _ _ _ _ granted_publishes_nested)|lia]
      | eapply Nat.le_trans; [apply (nested_nest _ _ _ _ _ _ identity_nested)|lia]
      | eapply Nat.le_trans; [apply (nested_nest _ _ _ _ _ _ trust_nested)|lia] ].
  - intros m Hok.
    pose proof Hok as (H1 & H2 & H3 & H4 & H5 & H6 & H7 & H8 & H9 & H10 & H11 & H12 & H13 & H14 & H15 & H16).
    unfold welcome_fields. solve_fields_wf.
    all: first
      [ by apply (nested_wf _ _ _ _ _ _ limits_nested)
      | by apply (nested_wf _ _ _ _ _ _ grants_nested)
      | by apply (nested_wf _ _ _ _ _ _ granted_publishes_nested)
      | match goal with E : sent_identity _ = Some _ |- _ =>
          by apply (nested_wf _ _ _ _ _ _ identity_nested), (sent_identity_fits _ _ H13 E) end
      | apply (nested_wf _ _ _ _ _ _ trust_nested); by eapply sent_trust_ok
      | cbn [wf]; unfold etag_bytes in *; in_range ].
  - intros m. unfold welcome_fields. solve_known.
  - intros m kvs rest Hok Hw Hn Hf. unfold decodeWelcome.
    apply (decode_fields welcome_field (WelcomeMsg_new, WelcomeGot_none) _
             [1; 6; 7; 8; 9; 22; 23; 24; 25; 29; 35; 36; 37; 39; 46; 47] kvs (welcome_fields m) rest
             (welcome_norm m, WelcomeGot_all)); try done.
    + intros k [m0 g] Hk. unfold welcome_field. solve_skips Hk.
    + by apply welcome_fold.
  - intros inp m. apply decode_map_sound.
Defined.

(** WELCOME, the moment grants become truth: the encoder reports 0 exactly when the span is too
    small for the message, writes nothing past it, and the client decodes every limit, grant and
    identity field the hub stated, also when keys it does not know stand between them. *)
Theorem welcome_contract (m : WelcomeMsg) (out : list byte) (Hok : welcome_ok m) :
  let '(o, n) := encodeWelcome m out in
  length o = length out
  /\ (n = 0%nat <-> (length out < length (encode (IMap (welcome_fields m))))%nat)
  /\ (n <> 0%nat -> drop n o = drop n out /\ decodeWelcome (take n o) = ok (welcome_norm m))
  /\ forall kvs rest, wf (IMap kvs) = true ->
       Forall (fun kv => knownb [1; 6; 7; 8; 9; 22; 23; 24; 25; 29; 35; 36; 37; 39; 46; 47] kv = false ->
                         (nest (snd kv) <= 3)%nat) kvs ->
       List.filter (knownb [1; 6; 7; 8; 9; 22; 23; 24; 25; 29; 35; 36; 37; 39; 46; 47]) kvs = welcome_fields m ->
       decodeWelcome (encode (IMap kvs) ++ rest) = ok (welcome_norm m).
Proof. exact (message_contract m out Hok). Qed.

Lemma welcome_contract_witness :
  let m := set_wm_ws_port 8080 (set_wm_grants [mkGrant 0x201 0x42480000 1] WelcomeMsg_new) in
  let '(o, n) := encodeWelcome m (replicate 96 Byte.x00) in n = 69%nat /\ length o = 96%nat.
Proof.
  split; [reflexivity|].
  refine (proj1 (welcome_contract
    (set_wm_ws_port 8080 (set_wm_grants [mkGrant 0x201 0x42480000 1] WelcomeMsg_new)) (replicate 96 Byte.x00) _)).
  unfold welcome_ok, limits_ok, granted_publishes_ok, in_u. cbn.
  split_and!; try done; try lia; try (apply Z.leb_le; reflexivity); try constructor.
  - unfold grant_entry_ok, in_u. cbn. lia.
  - constructor.
Defined.

(** GRANT round trip, with what the codec leaves to the message: a GRANT without the grants array is
    refused, and an access level above configure never decodes. *)
Theorem grant_contract (m : GrantMsg) (out : list byte) (Hok : grant_ok m) :
  (let '(o, n) := encodeGrant m out in
   (n = 0%nat <-> (length out < length (encode (IMap (grant_fields m))))%nat)
   /\ (n <> 0%nat -> drop n o = drop n out /\ decodeGrant (take n o) = ok m))
  /\ decodeGrant (encode (IMap [])) = err Malformed
  /\ forall r rest, AccessLevel_configure < r < 2 ^ 64 ->
       decodeGrant (encode (IMap [(CborKey.roles, IUint r)]) ++ rest) = err Malformed.
Proof.
  split; [|split].
  - destruct (encodeGrant m out) as [o n] eqn:E. pose proof (message_contract m out Hok) as H.
    change (msg_encode m out) with (encodeGrant m out) in H. rewrite E in H.
    destruct H as (_ & Hn & Hd & _). split; [exact Hn|exact Hd].
  - reflexivity.
  - intros r rest Hr. unfold decodeGrant. rewrite decode_item.
    + cbn [reading meaning]. unfold kMaxDepth. rewrite meaning_fields. cbn [result_bind fold_fields].
      unfold grant_field. change (CborKey.roles =? CborKey.grants) with false. change (CborKey.roles =? CborKey.roles) with true.
      cbn [reading meaning p_uint sem_uint result_bind]. unfold at_most.
      by rewrite (proj2 (Z.ltb_lt _ _)) by lia.
    + unfold AccessLevel_configure in Hr. cbn -[in_ub]. rewrite (proj2 (in_ub_spec 64 r)) by (unfold in_u; lia). done.
Qed.

Lemma grant_contract_witness :
  let m := mkGrantMsg (Some 1) [mkGrant 0x201 0x42480000 1] None in
  grant_ok m /\ decodeGrant (encode (IMap [])) = err Malformed.
Proof.
  assert (H : grant_ok (mkGrantMsg (Some 1) [mkGrant 0x201 0x42480000 1] None)).
  { unfold grant_ok, in_u. cbn. split_and!; try done; try lia; try (apply Z.leb_le; reflexivity).
    constructor; [unfold grant_entry_ok, in_u; cbn; lia|constructor]. }
  split; [exact H|].
  exact (proj1 (proj2 (grant_contract _ (replicate 64 Byte.x00) H))).
Defined.
