(* ===== verification/Tables.v ===== *)
(** * Tables: arrays searched by a key

    The hub keeps its small maps as arrays scanned from the front (grants, retained values, ledger
    entries).  Here: the scan, and what updating, appending or removing one entry does to the finite map
    that such an array stands for. *)

From S2P Require Import Prelude.
From stdpp Require Export gmap.
#[local] Open Scope Z_scope.

(** The index of the first element that satisfies [p]. *)
Fixpoint first_index {A} (p : A -> bool) (l : list A) : option nat :=
  match l with
  | [] => None
  | x :: l' => if p x then Some 0%nat else S <$> first_index p l'
  end.

Lemma first_index_Some {A} (p : A -> bool) l i :
  first_index p l = Some i <->
  exists l1 x l2, l = l1 ++ x :: l2 /\ length l1 = i /\ p x = true /\ Forall (fun y => p y = false) l1.
Proof.
  revert i. induction l as [|x l IH]; intros i; cbn [first_index].
  - split; [done|]. intros ([|? ?] & ? & ? & [=] & _).
  - destruct (p x) eqn:E.
    + split.
      * intros [= <-]. exists [], x, l. split_and!; [done|done|done|constructor].
      * intros ([|x' l1] & x1 & l2 & [= -> ->] & <- & Hp & Hf); [done|].
        apply Forall_cons in Hf as [Hf _]. congruence.
    + rewrite fmap_Some. setoid_rewrite IH. split.
      * intros (j & (l1 & x1 & l2 & -> & <- & Hp & Hf) & ->). exists (x :: l1), x1, l2.
        split_and!; [done|done|done|by constructor].
      * intros ([|x' l1] & x1 & l2 & [= -> ->] & <- & Hp & Hf); [congruence|].
        apply Forall_cons in Hf as [_ Hf]. exists (length l1). split; [|done]. by exists l1, x1, l2.
Qed.

Lemma first_index_None {A} (p : A -> bool) l : first_index p l = None <-> Forall (fun x => p x = false) l.
Proof.
  induction l as [|x l IH]; cbn [first_index]; [split; [constructor|done]|].
  rewrite Forall_cons. destruct (p x) eqn:E; [split; [done|intros [? _]; congruence]|].
  rewrite fmap_None, IH. naive_solver.
Qed.

Lemma insert_middle {A} (l : list A) x y l' : <[length l := y]> (l ++ x :: l') = l ++ y :: l'.
Proof. rewrite insert_app_r_alt by lia. by rewrite Nat.sub_diag. Qed.

Lemma delete_at_middle {A} (l : list A) x l' : delete (length l) (l ++ x :: l') = l ++ l'.
Proof. by apply delete_middle. Qed.

Lemma list_alter_at_middle {A} (f : A -> A) (l : list A) x l' : alter f (length l) (l ++ x :: l') = l ++ f x :: l'.
Proof. induction l as [|y l IH]; [done|]. cbn. by rewrite <- IH. Qed.

Lemma take_alter_from {A} (g : A -> A) n k (l : list A) : (n <= k)%nat -> take n (alter g k l) = take n l.
Proof.
  intros Hk. apply list_eq. intros j. destruct (decide (j < n)%nat); [|by rewrite !lookup_take_ge by lia].
  rewrite !lookup_take_lt by done. apply list_lookup_alter_ne. lia.
Qed.

Lemma Forall_alter_at {A} (P Q : A -> Prop) (g : A -> A) k l :
  Forall P l -> (forall x, P x -> Q x) -> (forall x, P x -> Q (g x)) -> Forall Q (alter g k l).
Proof.
  intros Hl H1 H2. revert k. induction Hl as [|x l Hx Hl IH]; intros [|k]; cbn; constructor; auto.
  eapply Forall_impl; eauto.
Qed.

Lemma drop_alter_from {A} (g : A -> A) n k (l : list A) : (n <= k)%nat -> drop n (alter g k l) = alter g (k - n)%nat (drop n l).
Proof.
  revert k l. induction n as [|n IH]; intros k l Hk; [by rewrite Nat.sub_0_r|].
  destruct k as [|k]; [lia|]. destruct l as [|x l]; [done|]. cbn. apply IH. lia.
Qed.

Lemma lookup_middle {A} (l : list A) x l' : (l ++ x :: l') !! length l = Some x.
Proof. by apply list_lookup_middle. Qed.

Lemma filter_all {A} (p : A -> bool) t : Forall (fun e => negb (p e) = false) t -> List.filter p t = t.
Proof.
  induction 1 as [|e t He _ IH]; [done|]. cbn. apply negb_false_iff in He. by rewrite He, IH.
Qed.

Lemma filter_length_lt {A} (p : A -> bool) l e l' :
  p e = false -> (length (List.filter p (l ++ e :: l')) < length (l ++ e :: l'))%nat.
Proof.
  intros He. rewrite List.filter_app, !length_app. cbn. rewrite He.
  pose proof (List.filter_length_le p l). pose proof (List.filter_length_le p l'). lia.
Qed.

(** ** Tables with one entry per key *)

Section Keyed.
Context {A V : Type} (key : A -> Z) (value : A -> V).

Definition table_find (k : Z) (l : list A) : option nat := first_index (fun e => key e =? k) l.

Definition keyed (l : list A) : list (Z * V) := map (fun e => (key e, value e)) l.

(** The map a table stands for. *)
Definition table_map (l : list A) : gmap Z V := list_to_map (keyed l).

Definition one_per_key (l : list A) : Prop := NoDup (map key l).

Lemma keyed_keys l : (keyed l).*1 = map key l.
Proof. unfold keyed. by rewrite <- list_fmap_compose. Qed.

Lemma table_find_None k l : table_find k l = None -> k ∉ map key l /\ table_map l !! k = None.
Proof.
  intros H%first_index_None. assert (Hn : k ∉ map key l).
  { intros Hin. apply list_elem_of_In, in_map_iff in Hin as (e & <- & Hin%list_elem_of_In).
    rewrite Forall_forall in H. specialize (H e Hin). cbn in H. by rewrite Z.eqb_refl in H. }
  split; [done|]. apply not_elem_of_list_to_map_1. by rewrite keyed_keys.
Qed.

Lemma table_find_Some k l i :
  one_per_key l -> table_find k l = Some i ->
  exists l1 e l2, l = l1 ++ e :: l2 /\ length l1 = i /\ key e = k /\ table_map l !! k = Some (value e).
Proof.
  intros Hnd (l1 & e & l2 & -> & <- & He%Z.eqb_eq & _)%first_index_Some.
  exists l1, e, l2. split_and!; [done|done|done|]. subst k.
  apply elem_of_list_to_map_1; [by rewrite keyed_keys|]. unfold keyed. rewrite map_app. cbn.
  apply elem_of_app. right. left.
Qed.

Lemma table_update l1 e e' l2 :
  one_per_key (l1 ++ e :: l2) -> key e' = key e ->
  one_per_key (l1 ++ e' :: l2) /\ table_map (l1 ++ e' :: l2) = <[key e := value e']> (table_map (l1 ++ e :: l2)).
Proof.
  unfold one_per_key. intros Hnd Hk. split; [rewrite map_app in *; cbn in *; by rewrite Hk|].
  unfold table_map, keyed. rewrite !map_app. cbn. rewrite !list_to_map_app. cbn. rewrite Hk, insert_union_r.
  - by rewrite insert_insert_eq.
  - apply not_elem_of_list_to_map_1. fold (keyed l1). rewrite keyed_keys. rewrite map_app in Hnd. cbn in Hnd.
    apply NoDup_app in Hnd as (_ & Hd & _). intros Hin. apply (Hd _ Hin). left.
Qed.

Lemma table_append l e :
  one_per_key l -> key e ∉ map key l ->
  one_per_key (l ++ [e]) /\ table_map (l ++ [e]) = <[key e := value e]> (table_map l).
Proof.
  unfold one_per_key. intros Hnd Hk. split.
  - rewrite map_app. cbn. apply NoDup_app. split_and!; [done| |apply NoDup_singleton].
    intros x Hx ->%list_elem_of_singleton. done.
  - unfold table_map, keyed. rewrite map_app, list_to_map_app. cbn. rewrite <- insert_union_r.
    + by rewrite (right_id_L ∅ (∪)).
    + apply not_elem_of_list_to_map_1. fold (keyed l). by rewrite keyed_keys.
Qed.

Lemma table_remove l1 e l2 :
  one_per_key (l1 ++ e :: l2) ->
  one_per_key (l1 ++ l2) /\ table_map (l1 ++ l2) = delete (key e) (table_map (l1 ++ e :: l2)).
Proof.
  unfold one_per_key. intros Hnd. rewrite map_app in *. cbn in Hnd.
  assert (Hnd' : NoDup (key e :: (map key l1 ++ map key l2))).
  { revert Hnd. apply NoDup_Permutation_proper. by rewrite Permutation_middle. }
  apply NoDup_cons in Hnd' as [Hn Hnd']. split; [done|].
  rewrite not_elem_of_app in Hn. destruct Hn as [Hn1 Hn2].
  unfold table_map, keyed. rewrite !map_app. cbn. rewrite !list_to_map_app. cbn. rewrite <- insert_union_r.
  - rewrite delete_insert_eq, delete_id; [done|]. apply lookup_union_None. split; apply not_elem_of_list_to_map_1.
    + fold (keyed l1). by rewrite keyed_keys.
    + fold (keyed l2). by rewrite keyed_keys.
  - apply not_elem_of_list_to_map_1. fold (keyed l1). by rewrite keyed_keys.
Qed.

Lemma table_size l : one_per_key l -> size (table_map l) = length l.
Proof.
  intros Hnd. unfold table_map. rewrite map_size_list_to_map by by rewrite keyed_keys. apply length_map.
Qed.

End Keyed.
