(* ===== verification/Slots.v ===== *)
(** * Slots: fixed arrays whose entries are used or free

    The hub's other kind of small map: a fixed array, each entry of which carries a used flag; a lookup
    scans for a used entry with the key, an insertion takes the first free one, a removal resets the entry
    in place.  Here: what those changes do to the finite map the used entries stand for. *)

From S2P Require Import Prelude Tables.
#[local] Open Scope Z_scope.

#[export] Instance byte_countable : Countable Byte.byte := inj_countable' b2z z2b z2b_b2z.

Section Slots.
Context {A K V : Type} `{Countable K} (used : A -> bool) (key : A -> K) (value : A -> V).

(** The used entries in array order, the map they stand for, and the arrays that hold each key once. *)
Definition occupied (t : list A) : list (K * V) := map (fun e => (key e, value e)) (List.filter used t).

Definition slot_map (t : list A) : gmap K V := list_to_map (occupied t).

Definition distinct (t : list A) : Prop := NoDup (occupied t).*1.

Definition used_count (t : list A) : nat := length (List.filter used t).

Definition first_free (t : list A) : option nat := first_index (fun e => negb (used e)) t.

Lemma occupied_app t t' : occupied (t ++ t') = occupied t ++ occupied t'.
Proof. unfold occupied. by rewrite List.filter_app, map_app. Qed.

Lemma occupied_used e t : used e = true -> occupied (e :: t) = (key e, value e) :: occupied t.
Proof. intros He. unfold occupied. cbn. by rewrite He. Qed.

Lemma occupied_unused e t : used e = false -> occupied (e :: t) = occupied t.
Proof. intros He. unfold occupied. cbn. by rewrite He. Qed.

Lemma elem_of_occupied k v t : (k, v) ∈ occupied t <-> exists e, e ∈ t /\ used e = true /\ key e = k /\ value e = v.
Proof.
  unfold occupied. rewrite list_elem_of_In, in_map_iff. setoid_rewrite List.filter_In.
  setoid_rewrite list_elem_of_In. naive_solver.
Qed.

Lemma slot_map_Some k v t : distinct t -> slot_map t !! k = Some v <-> (k, v) ∈ occupied t.
Proof. intros Hd. symmetry. by apply elem_of_list_to_map. Qed.

Lemma slot_map_size t : distinct t -> size (slot_map t) = used_count t.
Proof. intros Hd. unfold slot_map. rewrite map_size_list_to_map by done. apply length_map. Qed.

Lemma used_count_le t : (used_count t <= length t)%nat.
Proof. apply List.filter_length_le. Qed.

(** ** Scanning for a key *)

Context (is_key : K -> A -> bool) (is_key_spec : forall k e, is_key k e = true <-> used e = true /\ key e = k).

Definition slot_find (k : K) (t : list A) : option nat := first_index (is_key k) t.

Lemma not_key k t : Forall (fun e => is_key k e = false) t -> k ∉ (occupied t).*1.
Proof.
  intros Hf Hin. apply list_elem_of_fmap in Hin as ([k' v] & Hk & Hin). cbn in Hk. subst k'.
  apply elem_of_occupied in Hin as (e & He & Hu & <- & _). rewrite Forall_forall in Hf.
  specialize (Hf e He). assert (is_key (key e) e = true) by by apply is_key_spec. congruence.
Qed.

Lemma slot_find_None k t : slot_find k t = None -> k ∉ (occupied t).*1 /\ slot_map t !! k = None.
Proof.
  intros Hf%first_index_None%not_key. split; [done|]. by apply not_elem_of_list_to_map_1.
Qed.

(** Where a key's entry sits. *)
Definition sits (k : K) (l : list A) (e : A) (l' : list A) : Prop :=
  used e = true /\ key e = k /\ k ∉ (occupied l).*1 /\ k ∉ (occupied l').*1.

Lemma slot_find_Some k t i :
  distinct t -> slot_find k t = Some i ->
  exists l e l', t = l ++ e :: l' /\ length l = i /\ sits k l e l' /\ slot_map t !! k = Some (value e).
Proof.
  intros Hd (l & e & l' & -> & <- & [Hu Hk]%is_key_spec & Hf)%first_index_Some.
  assert (Hl : k ∉ (occupied l).*1) by by apply not_key.
  exists l, e, l'. split_and!; [done|done| |].
  - unfold distinct in Hd. rewrite occupied_app, occupied_used, fmap_app in Hd by done. cbn in Hd.
    apply NoDup_app in Hd as (_ & _ & Hd). apply NoDup_cons in Hd as [Hl' _]. by rewrite Hk in Hl'.
  - apply slot_map_Some; [done|]. apply elem_of_occupied. exists e. split_and!; try done.
    apply elem_of_app. right. left.
Qed.

Lemma first_free_Some t i :
  first_free t = Some i ->
  exists l e l', t = l ++ e :: l' /\ length l = i /\ used e = false /\ (used_count t < length t)%nat.
Proof.
  intros (l & e & l' & -> & <- & He%negb_true_iff & _)%first_index_Some. exists l, e, l'.
  split_and!; try done. by apply filter_length_lt.
Qed.

Lemma first_free_None t : first_free t = None -> used_count t = length t.
Proof. intros Hf%first_index_None. unfold used_count. by rewrite filter_all. Qed.

(** ** Changing one entry *)

Lemma slot_replace l e e' l' :
  used e = true -> used e' = true -> key e' = key e -> distinct (l ++ e :: l') ->
  distinct (l ++ e' :: l') /\ slot_map (l ++ e' :: l') = <[key e := value e']> (slot_map (l ++ e :: l')).
Proof.
  intros Hu Hu' Hk Hd. unfold distinct, slot_map in *.
  rewrite !occupied_app, !occupied_used, !fmap_app in * by done. cbn in *. rewrite Hk. split; [done|].
  rewrite !list_to_map_app. cbn. rewrite insert_union_r.
  - by rewrite insert_insert_eq.
  - apply not_elem_of_list_to_map_1. apply NoDup_app in Hd as (_ & Hd & _).
    intros Hin. apply (Hd _ Hin). left.
Qed.

Lemma slot_fill l e e' l' :
  used e = false -> used e' = true -> key e' ∉ (occupied (l ++ e :: l')).*1 -> distinct (l ++ e :: l') ->
  distinct (l ++ e' :: l') /\ slot_map (l ++ e' :: l') = <[key e' := value e']> (slot_map (l ++ e :: l')).
Proof.
  intros Hu Hu' Hn Hd. unfold distinct, slot_map in *.
  rewrite !occupied_app, (occupied_used e'), (occupied_unused e), !fmap_app in * by done. cbn in *.
  apply not_elem_of_app in Hn as [Hn Hn']. split.
  - apply NoDup_app in Hd as (Ha & Hab & Hb). apply NoDup_app. split_and!; [done| |by apply NoDup_cons].
    intros x Hx [->|Hx']%elem_of_cons; [done|by eapply Hab].
  - rewrite !list_to_map_app. cbn. rewrite insert_union_r; [done|by apply not_elem_of_list_to_map_1].
Qed.

Lemma slot_free l e e' l' :
  used e = true -> used e' = false -> distinct (l ++ e :: l') ->
  distinct (l ++ e' :: l') /\ slot_map (l ++ e' :: l') = delete (key e) (slot_map (l ++ e :: l')).
Proof.
  intros Hu Hu' Hd. unfold distinct, slot_map in *.
  rewrite !occupied_app, (occupied_used e), (occupied_unused e'), !fmap_app in * by done. cbn in *.
  apply NoDup_app in Hd as (Ha & Hab & Hb). apply NoDup_cons in Hb as [Hn Hb].
  assert (Hl : key e ∉ (occupied l).*1) by (intros Hin; apply (Hab _ Hin); left).
  split.
  - apply NoDup_app. split_and!; [done| |done]. intros x Hx Hx'. apply (Hab _ Hx). by right.
  - rewrite !list_to_map_app. cbn. rewrite <- insert_union_r by by apply not_elem_of_list_to_map_1.
    rewrite delete_insert_eq, delete_id; [done|].
    apply lookup_union_None. split; by apply not_elem_of_list_to_map_1.
Qed.

(** ** Changing every entry *)

Lemma occupied_map (f : A -> A) (g : V -> V) t :
  (forall e, used (f e) = used e) -> (forall e, used e = true -> key (f e) = key e /\ value (f e) = g (value e)) ->
  occupied (map f t) = prod_map id g <$> occupied t.
Proof.
  intros Hu Hf. induction t as [|e t IH]; [done|]. cbn [map]. destruct (used e) eqn:E.
  - rewrite !occupied_used by by rewrite ?Hu. destruct (Hf e E) as [-> ->]. by rewrite IH.
  - rewrite !occupied_unused by by rewrite ?Hu. done.
Qed.

Lemma slot_map_map (f : A -> A) (g : V -> V) t :
  (forall e, used (f e) = used e) -> (forall e, used e = true -> key (f e) = key e /\ value (f e) = g (value e)) ->
  distinct t -> distinct (map f t) /\ slot_map (map f t) = g <$> slot_map t.
Proof.
  intros Hu Hf Hd. unfold distinct, slot_map. rewrite (occupied_map f g) by done. split.
  - rewrite <- list_fmap_compose. erewrite list_fmap_ext; [exact Hd|]. by intros ? [? ?] _.
  - by rewrite list_to_map_fmap.
Qed.

(** Resetting the entries that satisfy [p]. *)
Lemma occupied_clear (p : V -> bool) (c : A) t :
  used c = false ->
  occupied (map (fun e => if used e && p (value e) then c else e) t)
  = List.filter (fun kv => negb (p kv.2)) (occupied t).
Proof.
  intros Hc. induction t as [|e t IH]; [done|]. cbn [map]. destruct (used e) eqn:E; cbn [andb].
  - rewrite (occupied_used e) by done. cbn [List.filter snd]. destruct (p (value e)); cbn [negb].
    + by rewrite occupied_unused.
    + by rewrite occupied_used, IH.
  - by rewrite !occupied_unused.
Qed.

Lemma slot_map_clear (p : V -> bool) (c : A) t :
  used c = false -> distinct t ->
  distinct (map (fun e => if used e && p (value e) then c else e) t)
  /\ forall k, slot_map (map (fun e => if used e && p (value e) then c else e) t) !! k
     = (v ← slot_map t !! k; if p v then None else Some v).
Proof.
  intros Hc Hd. assert (Hd' : distinct (map (fun e => if used e && p (value e) then c else e) t)).
  { unfold distinct in *. rewrite occupied_clear by done. revert Hd. generalize (occupied t) as l.
    induction l as [|[k v] l IH]; [done|]. cbn. intros [Hn Hd]%NoDup_cons. destruct (negb _); [|by apply IH].
    cbn. apply NoDup_cons. split; [|by apply IH]. intros ([k' v'] & Hk & Hin)%list_elem_of_fmap.
    apply Hn, list_elem_of_fmap. exists (k', v'). split; [done|].
    apply list_elem_of_In, List.filter_In in Hin as [Hin _]. by apply list_elem_of_In. }
  split; [done|]. intros k. apply option_eq. intros v. rewrite slot_map_Some by done.
  rewrite occupied_clear by done. rewrite list_elem_of_In, List.filter_In, <- list_elem_of_In.
  rewrite <- slot_map_Some by done. cbn [snd]. destruct (slot_map t !! k) as [v'|]; cbn.
  - destruct (p v') eqn:E; (split; [intros [[= <-] Hp]; by rewrite ?E in *|]); [done|].
    intros [= <-]. by rewrite E.
  - split; [by intros [? _]|done].
Qed.

End Slots.
