(* ===== verification/Crypto.v ===== *)
(** * Crypto: the injected primitives (core/crypto.hpp, core/rng.hpp, util/bounded_string.hpp)

    [ICrypto] and [IRandom] are interfaces the application implements; their contracts are the laws of
    the classes, and the library's own implementations are instances.  [BoundedString] is how the hub
    keeps a peer's strings. *)

From S2P Require Import Prelude Sha256 Collect.
#[local] Open Scope Z_scope.

(** ** ICrypto *)

(** [hmacSha256(key, message, out)] gives the span it leaves, or [None] where it returns false. *)
Class ICrypto := {
  ic_hmacSha256 : list byte -> list byte -> list byte -> option (list byte);
  ic_constantTimeEqual : list byte -> list byte -> bool
}.

Class ICryptoLaws (c : ICrypto) : Prop := {
  hmacSha256_law key msg out :
    ic_hmacSha256 key msg out
    = if (length out <? 32)%nat then None else Some (splice 0 (hmacSha256 key msg) out);
  constantTimeEqual_law a b : ic_constantTimeEqual a b = bool_decide (a = b)
}.

Definition sc_hmacSha256 (key msg out : list byte) : option (list byte) :=
  if (length out <? 32)%nat then None
  else
    let mac := hmacSha256 key msg in
    Some (foldl (fun o i => <[i := nth i mac Byte.x00]> o) out (seq 0 (length mac))).

Definition sc_constantTimeEqual (a b : list byte) : bool :=
  if negb (length a =? length b)%nat then false
  else
    let diff := foldl (fun d i => u8 (Z.lor d (Z.lxor (b2z (nth i a Byte.x00)) (b2z (nth i b Byte.x00))))) 0
                  (seq 0 (length a)) in
    diff =? 0.

#[export] Instance SoftwareCrypto : ICrypto :=
  {| ic_hmacSha256 := sc_hmacSha256; ic_constantTimeEqual := sc_constantTimeEqual |}.

(** ** IRandom *)

Class IRandom (R : Type) := {
  rng_nextU32 : R -> Z * R;
  rng_fill : nat -> R -> list byte * R
}.

Class IRandomLaws (R : Type) `{IRandom R} : Prop := {
  fill_length n g : length (fst (rng_fill n g)) = n
}.

(** Filling a span one byte at a time. *)
Fixpoint fill_with {R} (next : R -> byte * R) (n : nat) (g : R) : list byte * R :=
  match n with
  | O => ([], g)
  | S n => let '(b, g) := next g in let '(bs, g) := fill_with next n g in (b :: bs, g)
  end.

Record FixedSequenceRandom := mkFixedSequenceRandom { fs_seq : list byte; fs_pos : nat }.

Definition fs_nextByte (g : FixedSequenceRandom) : byte * FixedSequenceRandom :=
  match fs_seq g with
  | [] => (Byte.x00, g)
  | s => (nth (fs_pos g) s Byte.x00, mkFixedSequenceRandom s ((fs_pos g + 1) mod length s))
  end.

Definition fs_nextU32 (g : FixedSequenceRandom) : Z * FixedSequenceRandom :=
  foldl (fun '(v, g) i => let '(b, g) := fs_nextByte g in (Z.lor v (Z.shiftl (b2z b) (8 * i)), g)) (0, g) [0; 1; 2; 3].

#[export] Instance FixedSequenceRandom_rng : IRandom FixedSequenceRandom :=
  {| rng_nextU32 := fs_nextU32; rng_fill := fill_with fs_nextByte |}.

Record XorShift32 := mkXorShift32 { xs_s : Z }.

Definition XorShift32_new (seed : Z) : XorShift32 := mkXorShift32 (if seed =? 0 then 0xB007CAFE else seed).

Definition xs_nextU32 (g : XorShift32) : Z * XorShift32 :=
  let x := xs_s g in
  let x := Z.lxor x (u32 (Z.shiftl x 13)) in
  let x := Z.lxor x (Z.shiftr x 17) in
  let x := Z.lxor x (u32 (Z.shiftl x 5)) in
  (x, mkXorShift32 x).

Definition xs_nextByte (g : XorShift32) : byte * XorShift32 := let '(v, g) := xs_nextU32 g in (z2b (u8 v), g).

#[export] Instance XorShift32_rng : IRandom XorShift32 :=
  {| rng_nextU32 := xs_nextU32; rng_fill := fill_with xs_nextByte |}.

(** ** BoundedString<N>, for [N] up to 255 *)

Record BoundedString := mkBoundedString { bs_data : list byte; bs_len : Z }.

Definition BoundedString_new (N : nat) : BoundedString := mkBoundedString (replicate N Byte.x00) 0.

(** The zeros go to [data[len..N-1]]. *)
Definition bs_assign (N : nat) (s : list byte) (b : BoundedString) : BoundedString :=
  let n := u8 (Z.of_nat (if (length s <? N)%nat then length s else N)) in
  let k := Z.to_nat n in
  let copied := splice 0 (take k s) (bs_data b) in
  mkBoundedString (take k copied ++ replicate (N - k) Byte.x00) n.

Definition bs_view (b : BoundedString) : list byte := take (Z.to_nat (bs_len b)) (bs_data b).

Definition bs_sameAs (N : nat) (s : list byte) (b : BoundedString) : bool :=
  let n := if (length s <? N)%nat then length s else N in
  (Z.of_nat n =? bs_len b)
  && bool_decide (take (Z.to_nat (bs_len b)) (bs_data b) = take (Z.to_nat (bs_len b)) s).

Definition bs_empty (b : BoundedString) : bool := bs_len b =? 0.

(** ** The laws *)

Lemma copied_bytes (mac : list byte) : forall out k,
  (length mac <= length out)%nat -> (k <= length mac)%nat ->
  foldl (fun o i => <[i := nth i mac Byte.x00]> o) out (seq 0 k) = take k mac ++ drop k out.
Proof.
  intros out k Hl. induction k as [|k IH]; intros Hk; [done|].
  rewrite seq_S, foldl_app. cbn. rewrite IH by lia.
  apply list_eq. intros i. destruct (decide (i = k)) as [->|Hne].
  - rewrite list_lookup_insert_eq by (rewrite length_app, length_take, length_drop; lia).
    rewrite lookup_app_l by (rewrite length_take; lia). rewrite lookup_take_lt by lia.
    destruct (lookup_lt_is_Some_2 mac k ltac:(lia)) as [b Hb]. rewrite Hb. by apply nth_lookup_Some with (d := Byte.x00) in Hb as ->.
  - rewrite list_lookup_insert_ne by done. destruct (decide (i < k)%nat).
    + rewrite !lookup_app_l by (rewrite length_take; lia). by rewrite !lookup_take_lt by lia.
    + rewrite !lookup_app_r by (rewrite length_take; lia). rewrite !length_take, !lookup_drop. f_equal. lia.
Qed.

Lemma u8_lor d x : in_u 8 d -> in_u 8 x -> u8 (Z.lor d x) = Z.lor d x.
Proof. intros. apply wrap_small, lor_range; done. Qed.

Lemma equal_bytes a b : (Z.lxor (b2z a) (b2z b) =? 0) = bool_decide (a = b).
Proof.
  apply Bool.eq_iff_eq_true. rewrite Z.eqb_eq, Z.lxor_eq_0_iff, bool_decide_eq_true. split; [apply b2z_inj|by intros ->].
Qed.

Lemma diff_fold (a b : list byte) k :
  let d := foldl (fun d i => u8 (Z.lor d (Z.lxor (b2z (nth i a Byte.x00)) (b2z (nth i b Byte.x00))))) 0 (seq 0 k) in
  in_u 8 d /\ (d = 0 <-> forall i, (i < k)%nat -> nth i a Byte.x00 = nth i b Byte.x00).
Proof.
  cbv zeta. induction k as [|k [Hr IH]]; [split; [done|split; [lia|done]]|].
  rewrite seq_S, foldl_app. cbn [foldl Nat.add]. set (d := foldl _ 0 _) in *.
  assert (Hx : in_u 8 (Z.lxor (b2z (nth k a Byte.x00)) (b2z (nth k b Byte.x00)))).
  { apply lxor_range; [done|apply b2z_range..]. }
  rewrite u8_lor by done. split; [by apply lor_range|].
  rewrite Z.lor_eq_0_iff, IH, Z.lxor_eq_0_iff. split.
  - intros [Hlt Hk] i Hi. destruct (decide (i = k)) as [->|]; [by apply b2z_inj|apply Hlt; lia].
  - intros Hall. split; [intros i Hi; apply Hall; lia|]. f_equal. apply Hall. lia.
Qed.

Lemma nth_ext_bytes (a b : list byte) :
  length a = length b -> (forall i, (i < length a)%nat -> nth i a Byte.x00 = nth i b Byte.x00) -> a = b.
Proof. intros. by apply (List.nth_ext a b Byte.x00 Byte.x00). Qed.

#[export] Instance SoftwareCrypto_laws : ICryptoLaws SoftwareCrypto.
Proof.
  split.
  - intros key msg out. unfold ic_hmacSha256, SoftwareCrypto, sc_hmacSha256.
    destruct (Nat.ltb_spec (length out) 32) as [Hl|Hl]; [done|].
    f_equal. pose proof (length_hmacSha256 key msg) as Hlen.
    rewrite copied_bytes by lia. by rewrite take_ge, splice_0 by lia.
  - intros a b. unfold ic_constantTimeEqual, SoftwareCrypto, sc_constantTimeEqual. destruct (Nat.eqb_spec (length a) (length b)) as [Hl|Hl]; cbn [negb].
    + pose proof (diff_fold a b (length a)) as [_ Hd]. apply Bool.eq_iff_eq_true.
      rewrite Z.eqb_eq, bool_decide_eq_true, Hd. split; [by apply nth_ext_bytes|by intros ->].
    + symmetry. apply bool_decide_eq_false. congruence.
Qed.

Lemma fill_with_length {R} (next : R -> byte * R) n g : length (fst (fill_with next n g)) = n.
Proof.
  revert g. induction n as [|n IH]; intros g; [done|]. cbn. destruct (next g) as [b g']. specialize (IH g').
  destruct (fill_with next n g'). cbn in *. by rewrite IH.
Qed.

#[export] Instance FixedSequenceRandom_laws : IRandomLaws FixedSequenceRandom.
Proof. split. intros. apply fill_with_length. Qed.

#[export] Instance XorShift32_laws : IRandomLaws XorShift32.
Proof. split. intros. apply fill_with_length. Qed.

(** ** BoundedString *)

Section BoundedString.
Context (N : nat) (HN : Z.of_nat N < 256).

(** The strings that occur: what [assign] leaves behind. *)
Definition bs_ok (b : BoundedString) : Prop :=
  exists s, (length s <= N)%nat /\ b = mkBoundedString (s ++ replicate (N - length s) Byte.x00) (Z.of_nat (length s)).

Definition bs_of (s : list byte) : BoundedString :=
  mkBoundedString (take N s ++ replicate (N - length s) Byte.x00) (Z.of_nat (Nat.min N (length s))).

Lemma bs_ok_new : bs_ok (BoundedString_new N).
Proof. exists []. split; [cbn; lia|]. unfold BoundedString_new. cbn. by rewrite Nat.sub_0_r. Qed.

Lemma bs_assign_of s b : length (bs_data b) = N -> bs_assign N s b = bs_of s.
Proof using HN.
  intros Hb. unfold bs_assign, bs_of.
  set (m := if (length s <? N)%nat then length s else N).
  assert (Hm : m = Nat.min N (length s)) by (unfold m; destruct (Nat.ltb_spec (length s) N); lia).
  rewrite (wrap_small 8) by (unfold in_u; lia). rewrite Nat2Z.id, Hm. f_equal. f_equal.
  - rewrite splice_0, take_app_le by (rewrite length_take; lia). rewrite take_take.
    apply list_eq. intros i. destruct (decide (i < Nat.min N (length s))%nat).
    + by rewrite !lookup_take_lt by lia.
    + rewrite !lookup_ge_None_2; [done|rewrite length_take; lia..].
  - f_equal. lia.
Qed.

Lemma bs_ok_of s : bs_ok (bs_of s).
Proof.
  exists (take N s). rewrite length_take. split; [lia|]. unfold bs_of. do 2 f_equal. f_equal. lia.
Qed.

Lemma bs_ok_data b : bs_ok b -> length (bs_data b) = N.
Proof. intros (s & Hs & ->). cbn. rewrite length_app, length_replicate. lia. Qed.

Lemma bs_view_of s : bs_view (bs_of s) = take N s.
Proof.
  unfold bs_view, bs_of. cbn. rewrite Nat2Z.id, take_app_le by (rewrite length_take; lia).
  rewrite take_take. apply list_eq. intros i. destruct (decide (i < Nat.min N (length s))%nat).
  - by rewrite !lookup_take_lt by lia.
  - rewrite !lookup_ge_None_2; [done|rewrite length_take; lia..].
Qed.

Lemma bs_ok_view b : bs_ok b -> (length (bs_view b) <= N)%nat /\ bs_of (bs_view b) = b.
Proof.
  intros (s & Hs & ->). unfold bs_view. cbn. rewrite Nat2Z.id, take_app_length. split; [done|].
  unfold bs_of. rewrite take_ge by done. do 2 f_equal. lia.
Qed.

Lemma bs_empty_view b : bs_ok b -> bs_empty b = (length (bs_view b) =? 0)%nat.
Proof.
  intros (s & Hs & ->). unfold bs_empty, bs_view. cbn. rewrite Nat2Z.id, take_app_length. apply Bool.eq_iff_eq_true.
  rewrite Z.eqb_eq, Nat.eqb_eq. lia.
Qed.

(** Two strings are the same when they agree on the first [N] bytes. *)
Lemma bs_sameAs_view s b : bs_ok b -> bs_sameAs N s b = bool_decide (take N s = bs_view b).
Proof.
  intros (t & Ht & ->). unfold bs_sameAs, bs_view. cbn [bs_len bs_data]. rewrite Nat2Z.id, take_app_length.
  set (m := if (length s <? N)%nat then length s else N).
  assert (Hm : m = Nat.min N (length s)) by (unfold m; destruct (Nat.ltb_spec (length s) N); lia).
  apply Bool.eq_iff_eq_true. rewrite andb_true_iff, Z.eqb_eq, !bool_decide_eq_true. split.
  - intros [Hl Hs]. apply Nat2Z.inj in Hl. rewrite Hs. apply list_eq. intros i.
    destruct (decide (i < length t)%nat).
    + by rewrite !lookup_take_lt by lia.
    + rewrite !lookup_ge_None_2; [done|rewrite length_take; lia..].
  - intros Hs. assert (Hl : length t = m) by (rewrite <- Hs, length_take; lia). split; [lia|].
    rewrite <- Hs at 1. rewrite Hl, Hm. apply list_eq. intros i.
    destruct (decide (i < Nat.min N (length s))%nat).
    + by rewrite !lookup_take_lt by lia.
    + rewrite !lookup_ge_None_2; [done|rewrite length_take; lia..].
Qed.

End BoundedString.
