(* ===== verification/Safety.v ===== *)
(** * Safety: who controls each source (session/safety.hpp), SPEC 11.4

    [SourceOwnershipTable] is the array of [kMaxSources] entries; its specification is a finite map from
    a source to its owner (0 is nobody) and the role the owner had when it took the source. *)

From S2P Require Import Prelude Tables Slots.
#[local] Open Scope Z_scope.

(** The registry's [AccessLevel], by its [uint8_t] value. *)
Module AccessLevel.
Definition watch : Z := 0.
Definition control : Z := 1.
Definition configure : Z := 2.
End AccessLevel.

Definition kMaxSources : nat := 4.

Inductive AcquireResult := Acquired | AlreadyOwner | Conflict | TakenOver.

#[export] Instance AcquireResult_eq_dec : EqDecision AcquireResult.
Proof. solve_decision. Defined.

Record Entry := mkEntry { source_id : Z; owner : Z; role : Z; used : bool }.

Definition Entry_new : Entry := mkEntry 0 0 AccessLevel.watch false.

Abbreviation SourceOwnershipTable := (list Entry).

Definition SourceOwnershipTable_new : SourceOwnershipTable := replicate kMaxSources Entry_new.

Definition is_source (src : Z) (e : Entry) : bool := used e && (source_id e =? src).

Definition find (src : Z) (t : SourceOwnershipTable) : option nat := first_index (is_source src) t.

(** The table it leaves behind has the new entry already. *)
Definition findOrCreate (src : Z) (t : SourceOwnershipTable) : SourceOwnershipTable * option nat :=
  match find src t with
  | Some i => (t, Some i)
  | None =>
      match first_index (fun e => negb (used e)) t with
      | Some i => (<[i := mkEntry src 0 AccessLevel.watch true]> t, Some i)
      | None => (t, None)
      end
  end.

Definition take_over (s r : Z) (e : Entry) : Entry := mkEntry (source_id e) s r (used e).
Definition yield_source (e : Entry) : Entry := mkEntry (source_id e) 0 AccessLevel.watch (used e).

Definition acquire (src session r : Z) (takeover : bool) (t : SourceOwnershipTable)
  : SourceOwnershipTable * AcquireResult :=
  match findOrCreate src t with
  | (t, None) => (t, Conflict)
  | (t, Some i) =>
      match t !! i with
      | None => (t, Conflict)
      | Some e =>
          if owner e =? 0 then (<[i := take_over session r e]> t, Acquired)
          else if owner e =? session then (t, AlreadyOwner)
          else if takeover && (role e <=? r) then (<[i := take_over session r e]> t, TakenOver)
          else (t, Conflict)
      end
  end.

Definition release (src session : Z) (t : SourceOwnershipTable) : SourceOwnershipTable * bool :=
  match find src t with
  | None => (t, false)
  | Some i =>
      match t !! i with
      | None => (t, false)
      | Some e => if owner e =? session then (<[i := yield_source e]> t, true) else (t, false)
      end
  end.

Definition owned_by (session : Z) (e : Entry) : bool := used e && (owner e =? session).

Definition released (s : Z) (e : Entry) : Entry := if owned_by s e then yield_source e else e.

(** The second component lists the calls [cb(source_id)], in their order. *)
Definition releaseAllOf (session : Z) (t : SourceOwnershipTable) : SourceOwnershipTable * list Z :=
  (map (released session) t,
   map source_id (List.filter (owned_by session) t)).

Definition entry_of (src : Z) (t : SourceOwnershipTable) : option Entry := i ← find src t; t !! i.

Definition ownerOf (src : Z) (t : SourceOwnershipTable) : Z :=
  match entry_of src t with Some e => owner e | None => 0 end.
Definition ownerRoleOf (src : Z) (t : SourceOwnershipTable) : Z :=
  match entry_of src t with Some e => role e | None => AccessLevel.watch end.

(** ** Specification: a map of at most [kMaxSources] sources *)

Abbreviation Owners := (gmap Z (Z * Z)).

Definition spec_acquire (src session r : Z) (takeover : bool) (m : Owners) : Owners * AcquireResult :=
  match m !! src with
  | None => if (size m <? kMaxSources)%nat then (<[src := (session, r)]> m, Acquired) else (m, Conflict)
  | Some (o, held) =>
      if o =? 0 then (<[src := (session, r)]> m, Acquired)
      else if o =? session then (m, AlreadyOwner)
      else if takeover && (held <=? r) then (<[src := (session, r)]> m, TakenOver)
      else (m, Conflict)
  end.

Definition spec_release (src session : Z) (m : Owners) : Owners * bool :=
  match m !! src with
  | Some (o, _) => if o =? session then (<[src := (0, AccessLevel.watch)]> m, true) else (m, false)
  | None => (m, false)
  end.

Definition spec_releaseAll (session : Z) (m : Owners) : Owners :=
  (fun '(o, held) => if o =? session then (0, AccessLevel.watch) else (o, held)) <$> m.

Definition holding (e : Entry) : Z * Z := (owner e, role e).

(** The map a table stands for, and the tables that can occur. *)
Definition abs (t : SourceOwnershipTable) : Owners := slot_map used source_id holding t.

Definition sot_inv (t : SourceOwnershipTable) : Prop := length t = kMaxSources /\ distinct used source_id holding t.

(** ** Lemmas *)

Lemma is_source_spec src e : is_source src e = true <-> used e = true /\ source_id e = src.
Proof. unfold is_source. by rewrite andb_true_iff, Z.eqb_eq. Qed.

Lemma new_sot_inv : sot_inv SourceOwnershipTable_new.
Proof. split; [done|]. constructor. Qed.

Lemma find_Some src t i :
  sot_inv t -> find src t = Some i ->
  exists l e l', t = l ++ e :: l' /\ length l = i /\ used e = true /\ source_id e = src
    /\ abs t !! src = Some (owner e, role e).
Proof.
  intros [_ Hd] Hf.
  destruct (slot_find_Some used source_id holding is_source is_source_spec src t i Hd Hf)
    as (l & e & l' & -> & <- & (Hu & Hk & _) & Hm). by exists l, e, l'.
Qed.

Lemma find_None src t : find src t = None -> abs t !! src = None.
Proof. intros Hf. by apply (slot_find_None used source_id holding is_source is_source_spec). Qed.

(** Replacing the entry of a source replaces its binding. *)
Lemma hand_over l e s r l' :
  used e = true -> sot_inv (l ++ e :: l') ->
  let e' := mkEntry (source_id e) s r (used e) in
  sot_inv (l ++ e' :: l') /\ abs (l ++ e' :: l') = <[source_id e := (s, r)]> (abs (l ++ e :: l')).
Proof.
  intros Hu [Hl Hd] e'. destruct (slot_replace used source_id holding l e e' l' Hu Hu eq_refl Hd) as [Hd' Hm].
  split; [|done]. split; [|done]. by rewrite length_app in *.
Qed.

Lemma acquire_refines src s r tk t :
  sot_inv t ->
  let '(t', res) := acquire src s r tk t in
  sot_inv t' /\ spec_acquire src s r tk (abs t) = (abs t', res).
Proof.
  intros Hinv. unfold acquire, findOrCreate, spec_acquire.
  destruct (find src t) as [i|] eqn:Hf.
  - destruct (find_Some src t i Hinv Hf) as (l & e & l' & -> & <- & Hu & Hs & Hlook).
    rewrite lookup_middle, Hlook, !insert_middle.
    destruct (hand_over l e s r l' Hu Hinv) as [Hi Hm]. fold (take_over s r e) in *. rewrite Hs in Hm.
    repeat case_match; simplify_eq; rewrite ?Hm; by split.
  - destruct Hinv as [Hlen Hd].
    destruct (slot_find_None used source_id holding is_source is_source_spec src t Hf) as [Hn Hm].
    unfold abs at 1. rewrite Hm. unfold abs at 1. rewrite (slot_map_size used source_id holding t Hd).
    fold (first_free used t). destruct (first_free used t) as [i|] eqn:Hfree.
    + destruct (first_free_Some used t i Hfree) as (l & e & l' & -> & <- & He & Hlt).
      rewrite insert_middle, lookup_middle. cbn [owner Z.eqb]. rewrite insert_middle.
      rewrite Hlen in Hlt. rewrite (proj2 (Nat.ltb_lt _ _) Hlt).
      destruct (slot_fill used source_id holding l e (mkEntry src s r true) l' He eq_refl Hn Hd) as [Hd' Hm'].
      split; [|unfold abs; f_equal; symmetry; exact Hm']. split; [by rewrite length_app in *|done].
    + split; [done|]. rewrite (first_free_None used t Hfree), Hlen. by rewrite Nat.ltb_irrefl.
Qed.

Lemma release_refines src s t :
  sot_inv t ->
  let '(t', b) := release src s t in
  sot_inv t' /\ spec_release src s (abs t) = (abs t', b).
Proof.
  intros Hinv. unfold release, spec_release. destruct (find src t) as [i|] eqn:Hf.
  - destruct (find_Some src t i Hinv Hf) as (l & e & l' & -> & <- & Hu & Hs & Hlook).
    rewrite lookup_middle, Hlook, !insert_middle. destruct (owner e =? s); [|done].
    destruct (hand_over l e 0 AccessLevel.watch l' Hu Hinv) as [Hi Hm]. split; [done|]. f_equal.
    subst src. symmetry. exact Hm.
  - split; [done|]. by rewrite (find_None _ _ Hf).
Qed.

Definition given_up (s : Z) (h : Z * Z) : Z * Z := let '(o, held) := h in if o =? s then (0, AccessLevel.watch) else (o, held).

Lemma released_refines s t :
  sot_inv t -> sot_inv (map (released s) t) /\ abs (map (released s) t) = spec_releaseAll s (abs t).
Proof.
  intros [Hlen Hd]. destruct (slot_map_map used source_id holding (released s) (given_up s) t) as [Hd' Hm]; [..|done|].
  - intros e. unfold released. by destruct (owned_by s e).
  - intros e Hu. unfold released, owned_by. rewrite Hu. cbn. by destruct (owner e =? s).
  - split; [|done]. split; [by rewrite length_map|done].
Qed.

Lemma released_sources s t src :
  sot_inv t ->
  src ∈ map source_id (List.filter (owned_by s) t) <-> exists held, abs t !! src = Some (s, held).
Proof.
  intros [_ Hd]. unfold abs. setoid_rewrite slot_map_Some; [|done]. setoid_rewrite elem_of_occupied.
  rewrite list_elem_of_In, in_map_iff. setoid_rewrite List.filter_In. setoid_rewrite list_elem_of_In.
  unfold owned_by. setoid_rewrite andb_true_iff. setoid_rewrite Z.eqb_eq. split.
  - intros (e & <- & Hin & Hu & Ho). exists (role e), e. split_and!; [done..|]. unfold holding. by rewrite Ho.
  - intros (held & e & Hin & Hu & <- & [= <- <-]). by exists e.
Qed.

Lemma released_once s t : sot_inv t -> NoDup (map source_id (List.filter (owned_by s) t)).
Proof.
  intros [_ Hd]. unfold distinct, occupied in Hd. rewrite <- list_fmap_compose in Hd.
  replace (List.filter (owned_by s) t) with (List.filter (fun e => owner e =? s) (List.filter used t)).
  - revert Hd. generalize (List.filter used t) as l. induction l as [|e l IH]; [done|].
    cbn. intros [Hn Hd]%NoDup_cons. destruct (owner e =? s); [|by apply IH]. cbn. apply NoDup_cons. split; [|by apply IH].
    intros Hin. apply Hn. apply list_elem_of_In, in_map_iff in Hin as (x & Hx & [Hin _]%List.filter_In).
    apply list_elem_of_fmap. exists x. split; [by cbn|by apply list_elem_of_In].
  - unfold owned_by. clear Hd. induction t as [|e t IH]; [done|]. cbn.
    destruct (used e); cbn; rewrite IH; [by destruct (owner e =? s)|done].
Qed.

(** C33. The ownership table implements a map from at most four sources to an owner and its role: acquire
    and release answer and act as the map does (a fifth source is refused as a conflict, the others are
    not disturbed), a dying session gives up exactly the sources it owns and each one is reported once,
    and the queries read the map. *)
Theorem ownership_refines (src session r : Z) (takeover : bool) (t : SourceOwnershipTable) (Hinv : sot_inv t) :
  (let '(t', res) := acquire src session r takeover t in
   sot_inv t' /\ spec_acquire src session r takeover (abs t) = (abs t', res))
  /\ (let '(t', b) := release src session t in
      sot_inv t' /\ spec_release src session (abs t) = (abs t', b))
  /\ (let '(t', calls) := releaseAllOf session t in
      sot_inv t' /\ abs t' = spec_releaseAll session (abs t)
      /\ NoDup calls /\ forall x, x ∈ calls <-> exists held, abs t !! x = Some (session, held))
  /\ (ownerOf src t, ownerRoleOf src t) = default (0, AccessLevel.watch) (abs t !! src).
Proof.
  split_and!.
  - by apply acquire_refines.
  - by apply release_refines.
  - destruct (released_refines session t Hinv) as [Hi Hm]. split_and!; [done|done| |].
    + by apply released_once.
    + intros x. by apply released_sources.
  - unfold ownerOf, ownerRoleOf, entry_of. destruct (find src t) as [i|] eqn:Hf; cbn.
    + destruct (find_Some src t i Hinv Hf) as (l & e & l' & -> & <- & _ & _ & ->).
      by rewrite lookup_middle.
    + by rewrite (find_None _ _ Hf).
Qed.

Lemma ownership_refines_witness :
  let t := fst (acquire 1 7 AccessLevel.control false SourceOwnershipTable_new) in
  sot_inv t /\ (ownerOf 1 t, ownerRoleOf 1 t) = (7, AccessLevel.control).
Proof.
  assert (H : sot_inv (fst (acquire 1 7 AccessLevel.control false SourceOwnershipTable_new))).
  { split; [reflexivity|]. cbn. apply NoDup_singleton. }
  split; [exact H|].
  rewrite (proj2 (proj2 (proj2 (ownership_refines 1 7 AccessLevel.control false _ H)))). vm_compute. reflexivity.
Defined.

(** ** Sequences of operations *)

Inductive Op :=
  | OpAcquire (src session r : Z) (takeover : bool)
  | OpRelease (src session : Z)
  | OpReleaseAll (session : Z).

Definition step (t : SourceOwnershipTable) (o : Op) : SourceOwnershipTable :=
  match o with
  | OpAcquire src session r takeover => fst (acquire src session r takeover t)
  | OpRelease src session => fst (release src session t)
  | OpReleaseAll session => fst (releaseAllOf session t)
  end.

Definition steps (ops : list Op) : SourceOwnershipTable := fold_left step ops SourceOwnershipTable_new.

(** The owner and role a source has in the map. *)
Definition holder (src : Z) (m : Owners) : Z * Z := default (0, AccessLevel.watch) (m !! src).

Lemma holder_spec src t : sot_inv t -> (ownerOf src t, ownerRoleOf src t) = holder src (abs t).
Proof. intros H. by apply (ownership_refines src 0 0 false t H). Qed.

Lemma step_refines t o :
  sot_inv t ->
  sot_inv (step t o)
  /\ abs (step t o) = match o with
       | OpAcquire src session r takeover => fst (spec_acquire src session r takeover (abs t))
       | OpRelease src session => fst (spec_release src session (abs t))
       | OpReleaseAll session => spec_releaseAll session (abs t)
       end.
Proof.
  intros H. destruct o as [src s r tk|src s|s]; cbn [step].
  - pose proof (acquire_refines src s r tk t H) as Hr. destruct (acquire src s r tk t). destruct Hr as [? Hr].
    by rewrite Hr.
  - pose proof (release_refines src s t H) as Hr. destruct (release src s t). destruct Hr as [? Hr].
    by rewrite Hr.
  - destruct (ownership_refines 0 s 0 false t H) as (_ & _ & Hr & _). destruct (releaseAllOf s t).
    split; [apply Hr|apply Hr].
Qed.

Lemma steps_inv ops : sot_inv (steps ops).
Proof.
  unfold steps. generalize SourceOwnershipTable_new, new_sot_inv. induction ops as [|o ops IH]; [done|].
  intros t Ht. cbn. apply IH. by apply step_refines.
Qed.

(** Exclusive ownership over any history: a source that has an owner keeps it, with the role it was
    taken at, until that owner gives it up (explicitly, or with all it has when its session dies) or a
    takeover is requested by a session whose role is at least the owner's; and an unowned source goes only
    to a session that asked for it. *)
Theorem ownership_changes_hands (ops : list Op) (o : Op) (src : Z) :
  let t := steps ops in let t' := step t o in
  let s := ownerOf src t in
  (ownerOf src t' = s /\ ownerRoleOf src t' = ownerRoleOf src t)
  \/ (s <> 0 /\ (o = OpRelease src s \/ o = OpReleaseAll s) /\ ownerOf src t' = 0)
  \/ (exists s' r tk, o = OpAcquire src s' r tk /\ ownerOf src t' = s' /\ ownerRoleOf src t' = r
        /\ (s <> 0 -> tk = true /\ ownerRoleOf src t <= r))
  \/ s = 0 /\ ownerOf src t' = 0.
Proof.
  cbv zeta. pose proof (steps_inv ops) as Hinv. set (t := steps ops) in *.
  destruct (step_refines t o Hinv) as [Hinv' Habs].
  pose proof (holder_spec src t Hinv) as Hh. pose proof (holder_spec src _ Hinv') as Hh'. rewrite Habs in Hh'.
  generalize dependent (ownerOf src t). generalize dependent (ownerRoleOf src t). intros r0 s0 Hh.
  generalize dependent (ownerOf src (step t o)). generalize dependent (ownerRoleOf src (step t o)). intros r1 s1 Hh'.
  clear Habs Hinv'. revert Hh Hh'. generalize (abs t). clear. intros m Hh Hh'. unfold holder in *.
  destruct o as [src' s r tk|src' s|s].
  - unfold spec_acquire in Hh'. destruct (decide (src' = src)) as [->|Hne].
    + destruct (m !! src) as [[o held]|] eqn:Em; repeat case_match; cbn in *;
        rewrite ?lookup_insert_eq, ?Em in Hh'; cbn in *; simplify_eq; try (by left).
      all: right; right; left; exists s, r, tk; split_and!; try done; intros Hs.
      all: repeat match goal with
           | H : (_ =? _) = true |- _ => apply Z.eqb_eq in H
           | H : _ && _ = true |- _ => apply andb_prop in H as [? ?%Z.leb_le]
           end; done.
    + left. destruct (m !! src') as [[o held]|] eqn:Em; repeat case_match; cbn in *;
        rewrite ?lookup_insert_ne in Hh' by done; rewrite <- Hh in Hh'; by simplify_eq.
  - unfold spec_release in Hh'. destruct (decide (src' = src)) as [->|Hne].
    + destruct (m !! src) as [[o held]|] eqn:Em; repeat case_match; cbn in *;
        rewrite ?lookup_insert_eq, ?Em in Hh'; cbn in *; simplify_eq; try (by left).
      match goal with H : (_ =? _) = true |- _ => apply Z.eqb_eq in H end. subst.
      destruct (decide (s = 0)); [by right; right; right|right; left; auto].
    + left. destruct (m !! src') as [[o held]|] eqn:Em; repeat case_match; cbn in *;
        rewrite ?lookup_insert_ne in Hh' by done; rewrite <- Hh in Hh'; by simplify_eq.
  - unfold spec_releaseAll in Hh'. rewrite lookup_fmap in Hh'.
    destruct (m !! src) as [[o held]|] eqn:Em; cbn in *; [|simplify_eq; by left].
    destruct (Z.eqb_spec o s); simplify_eq; [|by left].
    destruct (decide (s = 0)); [by right; right; right|right; left; auto].
Qed.
