(* ===== verification/Pairing.v ===== *)
(** * Pairing: the pending list, the trust ledger and the ceremonies (session/pairing.hpp), SPEC 12.2

    [PendingPairingList] is an array of knocks, [PairingManager] the ledger, its two windows and its
    policy.  A pointer into an array is an index; [const_cast] twins and pure accessors are one
    definition.  The ledger's CBOR forms are in [PairingLedger]. *)

From S2P Require Import Prelude SerialArith Sha256 Tables Slots Crypto MsgTrust Safety.
#[local] Open Scope Z_scope.

Definition kLedgerKindMaxBytes : nat := 16.
Definition kLedgerNameMaxBytes : nat := 16.
Definition kLedgerVersionMaxBytes : nat := client_ver_max_bytes.

Definition pairing_pending_max : nat := 4.
Definition pairing_window_default_s : Z := 120.
Definition paired_devices_max : nat := 8.

Module pairing_modes.
Definition knock_approve : Z := 1.
Definition pin_proof : Z := 2.
Definition push_to_pair : Z := 4.
Definition cable : Z := 8.
End pairing_modes.

Module trust_states.
Definition trusted : Z := 0.
Definition recognized_pending : Z := 1.
End trust_states.

(** [std::equal(a, a + 8, b)] once the sizes agree. *)
Definition same_instance (a b : list byte) : bool := bool_decide (a = b).

(** ** PendingPairingList *)

Record PendingKnock := mkPendingKnock {
  pk_instance_id : list byte; pk_session_id : Z; pk_expiresAtMs : Z; pk_mode : Z; pk_asked : Z;
  pk_kind : BoundedString; pk_name : BoundedString; pk_version : BoundedString;
  pk_reapproval : bool; pk_used : bool }.

Definition PendingKnock_new : PendingKnock :=
  {| pk_instance_id := replicate instance_id_bytes Byte.x00; pk_session_id := 0; pk_expiresAtMs := 0;
     pk_mode := pairing_modes.knock_approve; pk_asked := AccessLevel.watch;
     pk_kind := BoundedString_new kLedgerKindMaxBytes; pk_name := BoundedString_new kLedgerNameMaxBytes;
     pk_version := BoundedString_new kLedgerVersionMaxBytes; pk_reapproval := false; pk_used := false |}.

Module Pending.

Definition t := list PendingKnock.

Definition new (Cap : nat) : t := replicate Cap PendingKnock_new.

Definition is_knock (id : list byte) (k : PendingKnock) : bool := pk_used k && same_instance (pk_instance_id k) id.

Definition find (id : list byte) (l : list PendingKnock) : option nat :=
  if negb (length id =? instance_id_bytes)%nat then None else first_index (is_knock id) l.

(** What [add] writes into a fresh slot, and into any slot it chose. *)
Definition claim (id : list byte) : PendingKnock :=
  {| pk_instance_id := id; pk_session_id := pk_session_id PendingKnock_new;
     pk_expiresAtMs := pk_expiresAtMs PendingKnock_new; pk_mode := pk_mode PendingKnock_new;
     pk_asked := pk_asked PendingKnock_new; pk_kind := pk_kind PendingKnock_new; pk_name := pk_name PendingKnock_new;
     pk_version := pk_version PendingKnock_new; pk_reapproval := pk_reapproval PendingKnock_new;
     pk_used := pk_used PendingKnock_new |}.

Definition refresh (session expires mode : Z) (k : PendingKnock) : PendingKnock :=
  {| pk_instance_id := pk_instance_id k; pk_session_id := session; pk_expiresAtMs := expires; pk_mode := mode;
     pk_asked := pk_asked k; pk_kind := pk_kind k; pk_name := pk_name k; pk_version := pk_version k;
     pk_reapproval := pk_reapproval k; pk_used := true |}.

Definition add (id : list byte) (session expires mode : Z) (l : list PendingKnock) : list PendingKnock * option nat :=
  match find id l with
  | Some i => (alter (refresh session expires mode) i l, Some i)
  | None =>
      match first_index (fun k => negb (pk_used k)) l with
      | Some i => (<[i := refresh session expires mode (claim id)]> l, Some i)
      | None => (l, None)
      end
  end.

Definition remove (id : list byte) (l : list PendingKnock) : list PendingKnock * bool :=
  match find id l with
  | Some i => (<[i := PendingKnock_new]> l, true)
  | None => (l, false)
  end.

(** A sweep: every used knock that satisfies [gone] is handed to [fn] and freed.  The second component
    lists the calls of [fn], whose number is the result. *)
Definition sweep (gone : PendingKnock -> bool) (l : list PendingKnock) : list PendingKnock * list PendingKnock :=
  (map (fun k => if pk_used k && gone k then PendingKnock_new else k) l,
   List.filter (fun k => pk_used k && gone k) l).

Definition expire (nowMs : Z) := sweep (fun k => timeReached nowMs (pk_expiresAtMs k)).

Definition dropBySession (session : Z) := sweep (fun k => pk_session_id k =? session).

Definition count (l : list PendingKnock) : nat := length (List.filter pk_used l).

End Pending.

(** ** PairingManager *)

Record PairedEntry := mkPairedEntry {
  pe_instance_id : list byte; pe_token : list byte; pe_role : Z; pe_state : Z; pe_presentationMode : Z;
  pe_pairingMode : Z; pe_kind : BoundedString; pe_name : BoundedString; pe_version : BoundedString;
  pe_firstSeen : Z; pe_lastSeen : Z; pe_used : bool }.

Definition PairedEntry_new : PairedEntry :=
  {| pe_instance_id := replicate instance_id_bytes Byte.x00; pe_token := replicate token_bytes Byte.x00;
     pe_role := AccessLevel.control; pe_state := trust_states.trusted; pe_presentationMode := 0;
     pe_pairingMode := pairing_modes.knock_approve; pe_kind := BoundedString_new kLedgerKindMaxBytes;
     pe_name := BoundedString_new kLedgerNameMaxBytes; pe_version := BoundedString_new kLedgerVersionMaxBytes;
     pe_firstSeen := 0; pe_lastSeen := 0; pe_used := false |}.

Record PairingManager := mkPairingManager {
  pm_entries : list PairedEntry; pm_pending : list PendingKnock; pm_pin : list byte;
  pm_windowOpenedMs : Z; pm_presenceOpenedMs : Z; pm_wallSeconds : Z; pm_generation : Z;
  pm_presenceDefaultRole : Z; pm_autoKeepMax : Z; pm_windowOpen : bool; pm_presenceOpen : bool;
  pm_knockApproveEnabled : bool; pm_dirty : bool; pm_failCount : Z }.

Definition PairingManager_new : PairingManager :=
  {| pm_entries := replicate paired_devices_max PairedEntry_new; pm_pending := Pending.new pairing_pending_max;
     pm_pin := []; pm_windowOpenedMs := 0; pm_presenceOpenedMs := 0; pm_wallSeconds := 0; pm_generation := 1;
     pm_presenceDefaultRole := AccessLevel.control; pm_autoKeepMax := AccessLevel.watch; pm_windowOpen := false;
     pm_presenceOpen := false; pm_knockApproveEnabled := true; pm_dirty := false; pm_failCount := 0 |}.

(** The ledger with its generation and dirty flag; the windows; the policy. *)
Definition set_ledger (es : list PairedEntry) (gen : Z) (dirty : bool) (m : PairingManager) : PairingManager :=
  {| pm_entries := es; pm_pending := pm_pending m; pm_pin := pm_pin m; pm_windowOpenedMs := pm_windowOpenedMs m;
     pm_presenceOpenedMs := pm_presenceOpenedMs m; pm_wallSeconds := pm_wallSeconds m; pm_generation := gen;
     pm_presenceDefaultRole := pm_presenceDefaultRole m; pm_autoKeepMax := pm_autoKeepMax m;
     pm_windowOpen := pm_windowOpen m; pm_presenceOpen := pm_presenceOpen m;
     pm_knockApproveEnabled := pm_knockApproveEnabled m; pm_dirty := dirty; pm_failCount := pm_failCount m |}.

Definition set_pin_window (pin : list byte) (opened : Z) (open : bool) (fails : Z) (m : PairingManager) : PairingManager :=
  {| pm_entries := pm_entries m; pm_pending := pm_pending m; pm_pin := pin; pm_windowOpenedMs := opened;
     pm_presenceOpenedMs := pm_presenceOpenedMs m; pm_wallSeconds := pm_wallSeconds m; pm_generation := pm_generation m;
     pm_presenceDefaultRole := pm_presenceDefaultRole m; pm_autoKeepMax := pm_autoKeepMax m;
     pm_windowOpen := open; pm_presenceOpen := pm_presenceOpen m;
     pm_knockApproveEnabled := pm_knockApproveEnabled m; pm_dirty := pm_dirty m; pm_failCount := fails |}.

Definition set_presence_window (opened : Z) (open : bool) (m : PairingManager) : PairingManager :=
  {| pm_entries := pm_entries m; pm_pending := pm_pending m; pm_pin := pm_pin m; pm_windowOpenedMs := pm_windowOpenedMs m;
     pm_presenceOpenedMs := opened; pm_wallSeconds := pm_wallSeconds m; pm_generation := pm_generation m;
     pm_presenceDefaultRole := pm_presenceDefaultRole m; pm_autoKeepMax := pm_autoKeepMax m;
     pm_windowOpen := pm_windowOpen m; pm_presenceOpen := open;
     pm_knockApproveEnabled := pm_knockApproveEnabled m; pm_dirty := pm_dirty m; pm_failCount := pm_failCount m |}.

Definition set_policy (wall presenceRole keepMax : Z) (knock : bool) (m : PairingManager) : PairingManager :=
  {| pm_entries := pm_entries m; pm_pending := pm_pending m; pm_pin := pm_pin m; pm_windowOpenedMs := pm_windowOpenedMs m;
     pm_presenceOpenedMs := pm_presenceOpenedMs m; pm_wallSeconds := wall; pm_generation := pm_generation m;
     pm_presenceDefaultRole := presenceRole; pm_autoKeepMax := keepMax;
     pm_windowOpen := pm_windowOpen m; pm_presenceOpen := pm_presenceOpen m;
     pm_knockApproveEnabled := knock; pm_dirty := pm_dirty m; pm_failCount := pm_failCount m |}.

Definition setWallClockSeconds (s : Z) (m : PairingManager) : PairingManager :=
  set_policy s (pm_presenceDefaultRole m) (pm_autoKeepMax m) (pm_knockApproveEnabled m) m.
Definition setPresenceDefaultRole (r : Z) (m : PairingManager) : PairingManager :=
  set_policy (pm_wallSeconds m) r (pm_autoKeepMax m) (pm_knockApproveEnabled m) m.
Definition setTrustChangeAutoKeepMax (r : Z) (m : PairingManager) : PairingManager :=
  set_policy (pm_wallSeconds m) (pm_presenceDefaultRole m) r (pm_knockApproveEnabled m) m.
Definition setKnockApproveEnabled (on : bool) (m : PairingManager) : PairingManager :=
  set_policy (pm_wallSeconds m) (pm_presenceDefaultRole m) (pm_autoKeepMax m) on m.
Definition clearDirty (m : PairingManager) : PairingManager := set_ledger (pm_entries m) (pm_generation m) false m.

(** The ledger changed, [touch()]. *)
Definition touched (es : list PairedEntry) (m : PairingManager) : PairingManager :=
  set_ledger es (u16 (pm_generation m + 1)) true m.

Definition is_device (id : list byte) (e : PairedEntry) : bool := pe_used e && same_instance (pe_instance_id e) id.

Definition findByInstance (id : list byte) (m : PairingManager) : option nat :=
  if negb (length id =? instance_id_bytes)%nat then None else first_index (is_device id) (pm_entries m).

Definition device (id : list byte) (m : PairingManager) : option PairedEntry :=
  i ← findByInstance id m; pm_entries m !! i.

(** *** Windows *)

Definition openWindow (pin : list byte) (nowMs : Z) (m : PairingManager) : PairingManager :=
  set_pin_window pin nowMs true 0 m.
Definition closeWindow (m : PairingManager) : PairingManager :=
  set_pin_window (pm_pin m) (pm_windowOpenedMs m) false (pm_failCount m) m.

Definition windowOpen (nowMs : Z) (m : PairingManager) : bool :=
  if negb (pm_windowOpen m) then false
  else negb (timeReached nowMs (u32 (pm_windowOpenedMs m + pairing_window_default_s * 1000))).

Definition openPresenceWindow (nowMs : Z) (m : PairingManager) : PairingManager := set_presence_window nowMs true m.
Definition closePresenceWindow (m : PairingManager) : PairingManager :=
  set_presence_window (pm_presenceOpenedMs m) false m.

Definition presenceWindowOpen (nowMs : Z) (m : PairingManager) : bool :=
  if negb (pm_presenceOpen m) then false
  else negb (timeReached nowMs (u32 (pm_presenceOpenedMs m + pairing_window_default_s * 1000))).

Definition entryCount (m : PairingManager) : nat := length (List.filter pe_used (pm_entries m)).

Definition claimed (m : PairingManager) : bool := negb (entryCount m =? 0)%nat.

Definition presenceGrantRole (m : PairingManager) : Z :=
  if claimed m then pm_presenceDefaultRole m else AccessLevel.configure.

Definition hasConfigureToken (m : PairingManager) : bool :=
  existsb (fun e => pe_used e && (pe_role e =? AccessLevel.configure)) (pm_entries m).

Definition offeredModes (nowMs : Z) (m : PairingManager) : Z :=
  let modes := if pm_knockApproveEnabled m then Z.lor 0 pairing_modes.knock_approve else 0 in
  let modes := if windowOpen nowMs m then Z.lor modes pairing_modes.pin_proof else modes in
  if presenceWindowOpen nowMs m then Z.lor modes pairing_modes.push_to_pair else modes.

(** *** Roster sweeps *)

Definition set_role (r : Z) (e : PairedEntry) : PairedEntry :=
  {| pe_instance_id := pe_instance_id e; pe_token := pe_token e; pe_role := r; pe_state := pe_state e;
     pe_presentationMode := pe_presentationMode e; pe_pairingMode := pe_pairingMode e; pe_kind := pe_kind e;
     pe_name := pe_name e; pe_version := pe_version e; pe_firstSeen := pe_firstSeen e; pe_lastSeen := pe_lastSeen e;
     pe_used := pe_used e |}.

Definition above_watch (e : PairedEntry) : bool := pe_used e && negb (pe_role e =? AccessLevel.watch).

Definition demoteAllToWatch (m : PairingManager) : PairingManager * nat :=
  let n := length (List.filter above_watch (pm_entries m)) in
  let es := map (fun e => if above_watch e then set_role AccessLevel.watch e else e) (pm_entries m) in
  (if (n =? 0)%nat then m else touched es m, n).

(** One step of the scan: the index of the entry [oldest] points to. *)
Definition older (es : list PairedEntry) (oldest : option nat) (i : nat) : option nat :=
  match es !! i with
  | Some e =>
      if pe_used e && (pe_role e =? AccessLevel.watch)
         && match oldest with
            | None => true
            | Some j => match es !! j with Some o => pe_lastSeen e <? pe_lastSeen o | None => false end
            end
      then Some i else oldest
  | None => oldest
  end.

Definition oldestWatch (es : list PairedEntry) : option nat := foldl (older es) None (seq 0 (length es)).

(** The second component is [dropped], where the result is true. *)
Definition dropOldestWatch (m : PairingManager) : PairingManager * option (list byte) :=
  match oldestWatch (pm_entries m) with
  | Some i =>
      match pm_entries m !! i with
      | Some e => (touched (<[i := PairedEntry_new]> (pm_entries m)) m, Some (pe_instance_id e))
      | None => (m, None)
      end
  | None => (m, None)
  end.

(** *** Granting *)

Definition fresh_entry (id : list byte) (wall : Z) : PairedEntry :=
  {| pe_instance_id := id; pe_token := pe_token PairedEntry_new; pe_role := pe_role PairedEntry_new;
     pe_state := pe_state PairedEntry_new; pe_presentationMode := pe_presentationMode PairedEntry_new;
     pe_pairingMode := pe_pairingMode PairedEntry_new; pe_kind := pe_kind PairedEntry_new;
     pe_name := pe_name PairedEntry_new; pe_version := pe_version PairedEntry_new; pe_firstSeen := wall;
     pe_lastSeen := pe_lastSeen PairedEntry_new; pe_used := pe_used PairedEntry_new |}.

Definition granted (token : list byte) (role mode wall : Z) (e : PairedEntry) : PairedEntry :=
  {| pe_instance_id := pe_instance_id e; pe_token := token; pe_role := role; pe_state := trust_states.trusted;
     pe_presentationMode := pe_presentationMode e; pe_pairingMode := mode; pe_kind := pe_kind e;
     pe_name := pe_name e; pe_version := pe_version e; pe_firstSeen := pe_firstSeen e; pe_lastSeen := wall;
     pe_used := true |}.

Section Grant.
Context {R : Type} `{IRandom R}.

(** The slot a grant writes to, and the entry that is in it by then. *)
Definition grant_slot (id : list byte) (m : PairingManager) : option (nat * PairedEntry) :=
  match findByInstance id m with
  | Some i => e ← pm_entries m !! i; Some (i, e)
  | None =>
      i ← first_index (fun e => negb (pe_used e)) (pm_entries m);
      Some (i, fresh_entry id (pm_wallSeconds m))
  end.

(** The results: the manager, the generator, [tokenOut], and whether there was room. *)
Definition grant (id : list byte) (role mode : Z) (g : R) (tokenOut : list byte) (m : PairingManager)
  : PairingManager * R * list byte * bool :=
  if negb (length id =? instance_id_bytes)%nat then (m, g, tokenOut, false)
  else
    match grant_slot id m with
    | None => (m, g, tokenOut, false)
    | Some (i, e) =>
        let '(token, g) := rng_fill token_bytes g in
        let tokenOut := if (token_bytes <=? length tokenOut)%nat then splice 0 token tokenOut else tokenOut in
        (touched (<[i := granted token role mode (pm_wallSeconds m) e]> (pm_entries m)) m, g, tokenOut, true)
    end.

Inductive PairOutcome := Granted | Denied | WindowClosed.

Definition handlePairReq `{ICrypto} (id pin_proof nonce : list byte) (g : R) (nowMs grantRole : Z)
  (tokenOut : list byte) (m : PairingManager) : PairingManager * R * list byte * PairOutcome :=
  if negb (windowOpen nowMs m) then (m, g, tokenOut, WindowClosed)
  else if negb (length id =? instance_id_bytes)%nat then (m, g, tokenOut, Denied)
  else
    let expected := pairingPinProof (pm_pin m) nonce in
    if negb (ic_constantTimeEqual pin_proof expected) then
      let fails := u8 (pm_failCount m + 1) in
      (set_pin_window (pm_pin m) (pm_windowOpenedMs m) (if 3 <=? fails then false else pm_windowOpen m) fails m,
       g, tokenOut, Denied)
    else
      match grant id grantRole pairing_modes.pin_proof g tokenOut m with
      | (m, g, tokenOut, false) => (m, g, tokenOut, Denied)
      | (m, g, tokenOut, true) =>
          (set_pin_window (pm_pin m) (pm_windowOpenedMs m) (pm_windowOpen m) 0 m, g, tokenOut, Granted)
      end.

End Grant.

(** *** Validation and the client-change tripwire *)

Definition effective_role (e : PairedEntry) : Z :=
  if pe_state e =? trust_states.recognized_pending then AccessLevel.watch else pe_role e.

Definition validate `{ICrypto} (id token : list byte) (m : PairingManager) : Z :=
  if negb (length token =? token_bytes)%nat then AccessLevel.watch
  else
    match device id m with
    | None => AccessLevel.watch
    | Some e => if negb (ic_constantTimeEqual (pe_token e) token) then AccessLevel.watch else effective_role e
    end.

(** The second component is [*proofMatched]. *)
Definition validateProof `{ICrypto} (id proof nonce : list byte) (m : PairingManager) : Z * bool :=
  if negb (length proof =? kTrustTokenProofBytes)%nat then (AccessLevel.watch, false)
  else if negb (length nonce =? 8)%nat then (AccessLevel.watch, false)
  else
    match device id m with
    | None => (AccessLevel.watch, false)
    | Some e =>
        match ic_hmacSha256 (pe_token e) nonce (replicate 32 Byte.x00) with
        | None => (AccessLevel.watch, false)
        | Some mac =>
            if negb (ic_constantTimeEqual (take kTrustTokenProofBytes mac) proof) then (AccessLevel.watch, false)
            else (effective_role e, true)
        end
    end.

Record HelloObservation := mkHelloObservation {
  ho_known : bool; ho_versionChanged : bool; ho_suspended : bool; ho_effectiveRole : Z; ho_suspendedRole : Z }.

Definition HelloObservation_new : HelloObservation :=
  mkHelloObservation false false false AccessLevel.watch AccessLevel.watch.

(** The labels of the entry, refreshed. *)
Definition relabel (kind name : list byte) (mode wall : Z) (e : PairedEntry) : PairedEntry :=
  {| pe_instance_id := pe_instance_id e; pe_token := pe_token e; pe_role := pe_role e; pe_state := pe_state e;
     pe_presentationMode := mode; pe_pairingMode := pe_pairingMode e;
     pe_kind := bs_assign kLedgerKindMaxBytes kind (pe_kind e); pe_name := bs_assign kLedgerNameMaxBytes name (pe_name e);
     pe_version := pe_version e; pe_firstSeen := pe_firstSeen e; pe_lastSeen := wall; pe_used := pe_used e |}.

Definition set_version (v : list byte) (e : PairedEntry) : PairedEntry :=
  {| pe_instance_id := pe_instance_id e; pe_token := pe_token e; pe_role := pe_role e; pe_state := pe_state e;
     pe_presentationMode := pe_presentationMode e; pe_pairingMode := pe_pairingMode e; pe_kind := pe_kind e;
     pe_name := pe_name e; pe_version := bs_assign kLedgerVersionMaxBytes v (pe_version e);
     pe_firstSeen := pe_firstSeen e; pe_lastSeen := pe_lastSeen e; pe_used := pe_used e |}.

Definition set_state (s : Z) (e : PairedEntry) : PairedEntry :=
  {| pe_instance_id := pe_instance_id e; pe_token := pe_token e; pe_role := pe_role e; pe_state := s;
     pe_presentationMode := pe_presentationMode e; pe_pairingMode := pe_pairingMode e; pe_kind := pe_kind e;
     pe_name := pe_name e; pe_version := pe_version e; pe_firstSeen := pe_firstSeen e; pe_lastSeen := pe_lastSeen e;
     pe_used := pe_used e |}.

(** What a HELLO makes of an entry: the entry, whether the roster changed, the two flags it reports. *)
Inductive Tripwire := Kept | Recorded | Rekept | Suspended.

Definition tripwire (ver : list byte) (hasVer : bool) (autoKeepMax : Z) (e : PairedEntry) : Tripwire :=
  let alreadySuspended := pe_state e =? trust_states.recognized_pending in
  if hasVer && negb (bs_sameAs kLedgerVersionMaxBytes ver (pe_version e)) && negb (bs_empty (pe_version e))
     && negb alreadySuspended then
    if pe_role e <=? autoKeepMax then Rekept else Suspended
  else if hasVer && bs_empty (pe_version e) then Recorded
  else Kept.

Definition observed (kind name ver : list byte) (hasVer : bool) (mode wall autoKeepMax : Z) (e : PairedEntry) : PairedEntry :=
  let e := relabel kind name mode wall e in
  match tripwire ver hasVer autoKeepMax e with
  | Rekept | Recorded => set_version ver e
  | Suspended => set_state trust_states.recognized_pending e
  | Kept => e
  end.

Definition observeHello (id kind name ver : list byte) (hasVer : bool) (mode : Z) (m : PairingManager)
  : PairingManager * HelloObservation :=
  match findByInstance id m with
  | None => (m, HelloObservation_new)
  | Some i =>
      match pm_entries m !! i with
      | None => (m, HelloObservation_new)
      | Some e =>
          let e0 := relabel kind name mode (pm_wallSeconds m) e in
          let t := tripwire ver hasVer (pm_autoKeepMax m) e0 in
          let e' := observed kind name ver hasVer mode (pm_wallSeconds m) (pm_autoKeepMax m) e in
          let es := <[i := e']> (pm_entries m) in
          let m' := match t with
                    | Kept => set_ledger es (pm_generation m)
                                (if pe_state e0 =? trust_states.recognized_pending then pm_dirty m else true) m
                    | _ => touched es m
                    end in
          (m', mkHelloObservation true (match t with Rekept | Suspended => true | _ => false end)
                 (match t with Suspended => true | _ => false end) (effective_role e') (pe_role e))
      end
  end.

(** *** Ledger management *)

Definition revoke (id : list byte) (m : PairingManager) : PairingManager * bool :=
  match findByInstance id m with
  | None => (m, false)
  | Some i => (touched (<[i := PairedEntry_new]> (pm_entries m)) m, true)
  end.

(** The [i]-th used entry, and the [i]-th slot. *)
Definition entry (i : nat) (m : PairingManager) : option PairedEntry := List.filter pe_used (pm_entries m) !! i.

Definition slot (i : nat) (m : PairingManager) : option PairedEntry :=
  e ← pm_entries m !! i; if pe_used e then Some e else None.

Definition used_entry (e : PairedEntry) : PairedEntry :=
  {| pe_instance_id := pe_instance_id e; pe_token := pe_token e; pe_role := pe_role e; pe_state := pe_state e;
     pe_presentationMode := pe_presentationMode e; pe_pairingMode := pe_pairingMode e; pe_kind := pe_kind e;
     pe_name := pe_name e; pe_version := pe_version e; pe_firstSeen := pe_firstSeen e; pe_lastSeen := pe_lastSeen e;
     pe_used := true |}.

Definition importEntry (e : PairedEntry) (m : PairingManager) : PairingManager * bool :=
  match first_index (fun s => negb (pe_used s)) (pm_entries m) with
  | None => (m, false)
  | Some i => (touched (<[i := used_entry e]> (pm_entries m)) m, true)
  end.

(** ** The ledger as a finite map *)

Abbreviation Roster := (gmap (list byte) PairedEntry).

Definition roster (es : list PairedEntry) : Roster := slot_map pe_used pe_instance_id (fun e => e) es.

Definition entry_ok (e : PairedEntry) : Prop :=
  pe_used e = true -> length (pe_instance_id e) = instance_id_bytes /\ length (pe_token e) = token_bytes.

Definition entries_ok (es : list PairedEntry) : Prop :=
  length es = paired_devices_max /\ distinct pe_used pe_instance_id (fun e => e) es /\ Forall entry_ok es.

Definition ledger (m : PairingManager) : Roster := roster (pm_entries m).

Definition ledger_ok (m : PairingManager) : Prop := entries_ok (pm_entries m).

(** What each operation does to the map. *)
Definition spec_grant (token : list byte) (id : list byte) (role mode wall : Z) (L : Roster) : option Roster :=
  match L !! id with
  | Some e => Some (<[id := granted token role mode wall e]> L)
  | None =>
      if (size L <? paired_devices_max)%nat then
        Some (<[id := granted token role mode wall (fresh_entry id wall)]> L)
      else None
  end.

Definition spec_validate (id token : list byte) (L : Roster) : Z :=
  match L !! id with
  | Some e => if bool_decide (pe_token e = token) then effective_role e else AccessLevel.watch
  | None => AccessLevel.watch
  end.

Definition spec_validateProof (id proof nonce : list byte) (L : Roster) : Z * bool :=
  match L !! id with
  | Some e =>
      if bool_decide (length nonce = 8%nat) && bool_decide (proof = take kTrustTokenProofBytes (hmacSha256 (pe_token e) nonce))
      then (effective_role e, true) else (AccessLevel.watch, false)
  | None => (AccessLevel.watch, false)
  end.

(** What a HELLO makes of a device's entry: nothing of its credential and role; the labels are the HELLO's; another
    version than the one on record suspends a device above [keep] and is recorded for the others, a first
    version is recorded, and a device that is suspended stays so, with the version it had. *)
Record spec_hello (kind name ver : list byte) (hasVer : bool) (mode wall keep : Z) (e e' : PairedEntry) : Prop := {
  sh_credential : pe_instance_id e' = pe_instance_id e /\ pe_token e' = pe_token e /\ pe_role e' = pe_role e /\ pe_used e' = pe_used e
    /\ pe_pairingMode e' = pe_pairingMode e /\ pe_firstSeen e' = pe_firstSeen e;
  sh_labels : pe_presentationMode e' = mode /\ pe_lastSeen e' = wall
    /\ pe_kind e' = bs_assign kLedgerKindMaxBytes kind (pe_kind e) /\ pe_name e' = bs_assign kLedgerNameMaxBytes name (pe_name e);
  sh_trust :
    let first := hasVer && bs_empty (pe_version e) in
    let changed := hasVer && negb (bs_empty (pe_version e)) && negb (bs_sameAs kLedgerVersionMaxBytes ver (pe_version e))
                   && negb (pe_state e =? trust_states.recognized_pending) in
    pe_state e' = (if changed && (keep <? pe_role e) then trust_states.recognized_pending else pe_state e)
    /\ pe_version e' = if first || changed && (pe_role e <=? keep) then bs_assign kLedgerVersionMaxBytes ver (pe_version e) else pe_version e }.

Definition demoted (e : PairedEntry) : PairedEntry := if above_watch e then set_role AccessLevel.watch e else e.

Lemma is_device_spec id e : is_device id e = true <-> pe_used e = true /\ pe_instance_id e = id.
Proof. unfold is_device, same_instance. by rewrite andb_true_iff, bool_decide_eq_true. Qed.

Lemma new_entries_ok : entries_ok (pm_entries PairingManager_new).
Proof. split_and!; [done|constructor|]. by apply Forall_replicate. Qed.

Section Ledger.
Implicit Types (es l : list PairedEntry) (e : PairedEntry).

Lemma ok_elem es e : entries_ok es -> e ∈ es -> entry_ok e.
Proof. intros (_ & _ & Hf) He. rewrite Forall_forall in Hf. by apply Hf. Qed.

Lemma roster_key es id e : entries_ok es -> roster es !! id = Some e -> pe_used e = true /\ pe_instance_id e = id /\ e ∈ es.
Proof.
  intros (_ & Hd & _) Hl. apply slot_map_Some in Hl; [|done].
  apply elem_of_occupied in Hl as (e' & He & Hu & Hk & <-). done.
Qed.

Lemma find_device id m i :
  ledger_ok m -> findByInstance id m = Some i ->
  exists l e l', pm_entries m = l ++ e :: l' /\ length l = i /\ pe_used e = true /\ pe_instance_id e = id
    /\ ledger m !! id = Some e.
Proof.
  intros (_ & Hd & _) Hf. unfold findByInstance in Hf. destruct (length id =? instance_id_bytes)%nat; [|done].
  destruct (slot_find_Some pe_used pe_instance_id (fun e => e) is_device is_device_spec id _ i Hd Hf)
    as (l & e & l' & ? & ? & (Hu & Hk & _) & Hm). by exists l, e, l'.
Qed.

Lemma find_stranger id m :
  ledger_ok m -> findByInstance id m = None ->
  ledger m !! id = None /\ (length id = instance_id_bytes -> id ∉ (occupied pe_used pe_instance_id (fun e => e) (pm_entries m)).*1).
Proof.
  intros Hok Hf. unfold findByInstance in Hf. destruct (Nat.eqb_spec (length id) instance_id_bytes) as [Hl|Hl].
  - by destruct (slot_find_None pe_used pe_instance_id (fun e => e) is_device is_device_spec id _ Hf).
  - split; [|done]. destruct (ledger m !! id) as [e|] eqn:Hm; [|done].
    destruct (roster_key _ _ _ Hok Hm) as (Hu & Hk & He). destruct (ok_elem _ _ Hok He Hu) as [Hi _]. congruence.
Qed.

Lemma device_ledger id m : ledger_ok m -> device id m = ledger m !! id.
Proof.
  intros Hok. unfold device. destruct (findByInstance id m) as [i|] eqn:Hf; cbn.
  - destruct (find_device id m i Hok Hf) as (l & e & l' & -> & <- & _ & _ & Hm). by rewrite lookup_middle.
  - symmetry. by apply find_stranger.
Qed.

Lemma replace_device l e e' l' :
  entries_ok (l ++ e :: l') -> pe_used e = true -> pe_used e' = true -> pe_instance_id e' = pe_instance_id e -> entry_ok e' ->
  entries_ok (l ++ e' :: l') /\ roster (l ++ e' :: l') = <[pe_instance_id e := e']> (roster (l ++ e :: l')).
Proof.
  intros (Hl & Hd & Hf) Hu Hu' Hk He'.
  destruct (slot_replace pe_used pe_instance_id (fun e => e) l e e' l' Hu Hu' Hk Hd) as [Hd' Hm].
  split; [|done]. split_and!; [by rewrite length_app in *|done|].
  apply Forall_app in Hf as [Hf1 [_ Hf2]%Forall_cons]. apply Forall_app; auto.
Qed.

Lemma fill_device l e e' l' :
  entries_ok (l ++ e :: l') -> pe_used e = false -> pe_used e' = true -> entry_ok e' ->
  pe_instance_id e' ∉ (occupied pe_used pe_instance_id (fun e => e) (l ++ e :: l')).*1 ->
  entries_ok (l ++ e' :: l') /\ roster (l ++ e' :: l') = <[pe_instance_id e' := e']> (roster (l ++ e :: l')).
Proof.
  intros (Hl & Hd & Hf) Hu Hu' He' Hn.
  destruct (slot_fill pe_used pe_instance_id (fun e => e) l e e' l' Hu Hu' Hn Hd) as [Hd' Hm].
  split; [|done]. split_and!; [by rewrite length_app in *|done|].
  apply Forall_app in Hf as [Hf1 [_ Hf2]%Forall_cons]. apply Forall_app; auto.
Qed.

Lemma drop_device l e l' :
  entries_ok (l ++ e :: l') -> pe_used e = true ->
  entries_ok (l ++ PairedEntry_new :: l') /\ roster (l ++ PairedEntry_new :: l') = delete (pe_instance_id e) (roster (l ++ e :: l')).
Proof.
  intros (Hl & Hd & Hf) Hu.
  destruct (slot_free pe_used pe_instance_id (fun e => e) l e PairedEntry_new l' Hu eq_refl Hd) as [Hd' Hm].
  split; [|done]. split_and!; [by rewrite length_app in *|done|].
  apply Forall_app in Hf as [Hf1 [_ Hf2]%Forall_cons]. apply Forall_app. split; [done|]. by constructor.
Qed.

Lemma entryCount_ledger m : ledger_ok m -> entryCount m = size (ledger m).
Proof. intros (_ & Hd & _). symmetry. by apply slot_map_size. Qed.

Lemma full_ledger m :
  ledger_ok m -> first_index (fun e => negb (pe_used e)) (pm_entries m) = None -> size (ledger m) = paired_devices_max.
Proof.
  intros (Hl & Hd & _) Hf. unfold ledger, roster. rewrite slot_map_size by done. rewrite <- Hl.
  by apply (first_free_None pe_used).
Qed.

Lemma free_device m i :
  ledger_ok m -> first_index (fun e => negb (pe_used e)) (pm_entries m) = Some i ->
  exists l e l', pm_entries m = l ++ e :: l' /\ length l = i /\ pe_used e = false
    /\ (size (ledger m) < paired_devices_max)%nat.
Proof.
  intros (Hl & Hd & _) Hf. destruct (first_free_Some pe_used _ i Hf) as (l & e & l' & ? & ? & ? & Hlt).
  exists l, e, l'. split_and!; try done. unfold ledger, roster. rewrite slot_map_size by done. lia.
Qed.

(** *** Granting *)

Section Grant.
Context {R : Type} `{IRandomLaws R}.

Lemma grant_refines id role mode g out m :
  ledger_ok m ->
  let '(m', g', out', b) := grant id role mode g out m in
  ledger_ok m'
  /\ match (if (length id =? instance_id_bytes)%nat
            then spec_grant (fst (rng_fill token_bytes g)) id role mode (pm_wallSeconds m) (ledger m) else None) with
     | Some L => b = true /\ ledger m' = L
     | None => b = false /\ m' = m
     end.
Proof.
  intros Hok. unfold grant, spec_grant. destruct (Nat.eqb_spec (length id) instance_id_bytes) as [Hlen|]; [|done].
  cbn [negb]. unfold grant_slot. pose proof (fill_length token_bytes g) as Htok.
  destruct (findByInstance id m) as [i|] eqn:Hf.
  - destruct (find_device id m i Hok Hf) as (l & e & l' & Hes & <- & Hu & Hk & Hm). rewrite Hes, lookup_middle, Hm. cbn.
    destruct (rng_fill token_bytes g) as [tok g']. cbn in *. unfold ledger_ok, ledger in *. rewrite Hes in Hok. cbn.
    rewrite insert_middle. destruct (replace_device l e (granted tok role mode (pm_wallSeconds m) e) l') as [Hok' Hm']; try done.
    + intros _. cbn. by rewrite Hk.
    + split; [done|]. split; [done|]. etransitivity; [exact Hm'|]. by rewrite Hk, ?Hes.
  - destruct (find_stranger id m Hok Hf) as [Hm Hn]. specialize (Hn Hlen). rewrite Hm.
    destruct (first_index _ _) as [i|] eqn:Hfree.
    + destruct (free_device m i Hok Hfree) as (l & e & l' & Hes & <- & Hu & Hlt). rewrite (proj2 (Nat.ltb_lt _ _) Hlt).
      destruct (rng_fill token_bytes g) as [tok g']. cbn in *. unfold ledger_ok, ledger in *. rewrite Hes in *. cbn.
      rewrite insert_middle.
      by destruct (fill_device l e (granted tok role mode (pm_wallSeconds m) (fresh_entry id (pm_wallSeconds m))) l') as [Hok' Hm'].
    + by rewrite (full_ledger m Hok Hfree).
Qed.

End Grant.

(** *** Validation *)

Section Validate.
Context `{ICryptoLaws}.

Lemma validate_refines id token m : ledger_ok m -> validate id token m = spec_validate id token (ledger m).
Proof.
  intros Hok. unfold validate, spec_validate. rewrite device_ledger by done.
  destruct (ledger m !! id) as [e|] eqn:Hm; [|by case_match].
  destruct (roster_key _ _ _ Hok Hm) as (Hu & Hk & He). destruct (ok_elem _ _ Hok He Hu) as [_ Ht].
  rewrite constantTimeEqual_law. destruct (Nat.eqb_spec (length token) token_bytes) as [Hl|Hl]; cbn [negb].
  - by destruct (bool_decide_reflect (pe_token e = token)).
  - rewrite bool_decide_false; [done|congruence].
Qed.

Lemma validateProof_refines id proof nonce m :
  ledger_ok m -> validateProof id proof nonce m = spec_validateProof id proof nonce (ledger m).
Proof.
  intros Hok. unfold validateProof, spec_validateProof. rewrite device_ledger by done.
  destruct (ledger m !! id) as [e|] eqn:Hm; [|by repeat case_match].
  rewrite hmacSha256_law, length_replicate. cbn [Nat.ltb Nat.leb].
  rewrite splice_0, length_hmacSha256, drop_replicate, app_nil_r, constantTimeEqual_law.
  assert (Hlen : length (take kTrustTokenProofBytes (hmacSha256 (pe_token e) nonce)) = kTrustTokenProofBytes)
    by (rewrite length_take, length_hmacSha256; done).
  destruct (Nat.eqb_spec (length proof) kTrustTokenProofBytes) as [Hp|Hp]; cbn [negb].
  - destruct (Nat.eqb_spec (length nonce) 8) as [Hn|Hn]; cbn [negb].
    + rewrite (bool_decide_true (length nonce = _)) by done. cbn [andb].
      rewrite (bool_decide_ext (proof = _) (take kTrustTokenProofBytes (hmacSha256 (pe_token e) nonce) = proof)) by done.
      by case_bool_decide.
    + by rewrite (bool_decide_false (length nonce = _)).
  - rewrite (bool_decide_false (proof = _)) by congruence. by rewrite andb_false_r.
Qed.

End Validate.
(** *** The other operations *)

Lemma revoke_refines id m :
  ledger_ok m ->
  let '(m', b) := revoke id m in
  ledger_ok m' /\ ledger m' = delete id (ledger m) /\ b = bool_decide (is_Some (ledger m !! id)).
Proof.
  intros Hok. unfold revoke. destruct (findByInstance id m) as [i|] eqn:Hf.
  - destruct (find_device id m i Hok Hf) as (l & e & l' & Hes & <- & Hu & Hk & Hm).
    rewrite bool_decide_true by (by rewrite Hm). unfold ledger_ok, ledger in *. cbn. rewrite Hes, insert_middle in *.
    destruct (drop_device l e l' Hok Hu) as [Hok' Hm']. rewrite <- Hk. done.
  - destruct (find_stranger id m Hok Hf) as [Hm _]. rewrite bool_decide_false by (rewrite Hm; by intros [? [=]]).
    split_and!; [done| |done]. by rewrite delete_id.
Qed.

Lemma observed_same kind name ver hasVer mode wall keep e :
  let e' := observed kind name ver hasVer mode wall keep e in
  pe_used e' = pe_used e /\ pe_instance_id e' = pe_instance_id e /\ pe_token e' = pe_token e /\ pe_role e' = pe_role e
  /\ (pe_state e' = pe_state e \/ pe_state e' = trust_states.recognized_pending).
Proof. unfold observed. cbv zeta. destruct (tripwire _ _ _ _); cbn; tauto. Qed.

Lemma observeHello_refines id kind name ver hasVer mode m :
  ledger_ok m ->
  let '(m', o) := observeHello id kind name ver hasVer mode m in
  ledger_ok m'
  /\ match ledger m !! id with
     | Some e =>
         let e' := observed kind name ver hasVer mode (pm_wallSeconds m) (pm_autoKeepMax m) e in
         ledger m' = <[id := e']> (ledger m) /\ ho_known o = true /\ ho_effectiveRole o = effective_role e'
     | None => m' = m /\ o = HelloObservation_new
     end.
Proof.
  intros Hok. unfold observeHello. destruct (findByInstance id m) as [i|] eqn:Hf.
  - destruct (find_device id m i Hok Hf) as (l & e & l' & Hes & <- & Hu & Hk & Hm). rewrite Hes, lookup_middle, Hm, insert_middle.
    set (e' := observed _ _ _ _ _ _ _ e).
    destruct (observed_same kind name ver hasVer mode (pm_wallSeconds m) (pm_autoKeepMax m) e) as (Hu' & Hk' & Ht' & _).
    unfold ledger_ok, ledger in *. rewrite Hes in *.
    destruct (replace_device l e e' l' Hok Hu) as [Hok' Hm']; [by unfold e'; rewrite Hu'|by unfold e'; rewrite Hk'| |].
    { intros _. unfold e'. rewrite Hk', Ht'. by apply (ok_elem _ e Hok); [apply elem_of_app; right; left|]. }
    rewrite Hk in Hm'. destruct (tripwire _ _ _ _); done.
  - destruct (find_stranger id m Hok Hf) as [-> _]. done.
Qed.

Lemma demoteAll_refines m :
  ledger_ok m ->
  let '(m', n) := demoteAllToWatch m in
  ledger_ok m' /\ ledger m' = demoted <$> ledger m.
Proof.
  intros Hok. pose proof Hok as (Hl & Hd & Hf). unfold demoteAllToWatch.
  assert (Hmap : forall e, (if above_watch e then set_role AccessLevel.watch e else e) = demoted e) by done.
  destruct (slot_map_map pe_used pe_instance_id (fun e => e) demoted demoted (pm_entries m)) as [Hd' Hm]; [| |done|].
  { intros e. unfold demoted. by destruct (above_watch e). }
  { intros e _. unfold demoted. by destruct (above_watch e). }
  destruct (Nat.eqb_spec (length (List.filter above_watch (pm_entries m))) 0) as [Hn|Hn].
  - split; [done|]. unfold ledger, roster. rewrite <- Hm. f_equal. symmetry. apply length_zero_iff_nil in Hn.
    clear -Hn. induction (pm_entries m) as [|e es IH]; [done|]. cbn in *. unfold demoted at 1.
    destruct (above_watch e); [done|]. by rewrite IH.
  - split; [|done]. split_and!; [by cbn; rewrite length_map|done|]. cbn. apply Forall_map.
    eapply Forall_impl; [exact Hf|]. intros e He. unfold compose, entry_ok in *. by destruct (above_watch e).
Qed.

Lemma importEntry_refines e m :
  ledger_ok m -> ledger m !! pe_instance_id e = None ->
  length (pe_instance_id e) = instance_id_bytes -> length (pe_token e) = token_bytes ->
  let '(m', b) := importEntry e m in
  ledger_ok m'
  /\ if (size (ledger m) <? paired_devices_max)%nat
     then b = true /\ ledger m' = <[pe_instance_id e := used_entry e]> (ledger m) else b = false /\ m' = m.
Proof.
  intros Hok Hn Hi Ht. unfold importEntry. destruct (first_index _ _) as [i|] eqn:Hfree.
  - destruct (free_device m i Hok Hfree) as (l & e0 & l' & Hes & <- & Hu & Hlt). rewrite (proj2 (Nat.ltb_lt _ _) Hlt).
    unfold ledger_ok, ledger in *. rewrite Hes in *. cbn. rewrite insert_middle.
    destruct (fill_device l e0 (used_entry e) l') as [Hok' Hm']; try done.
    cbn. intros ([k v] & Hk & Hin)%list_elem_of_fmap. cbn in Hk. subst k.
    apply (slot_map_Some pe_used pe_instance_id (fun e => e)) in Hin; [|by apply Hok].
    unfold roster in Hn. congruence.
  - by rewrite (full_ledger m Hok Hfree), Nat.ltb_irrefl.
Qed.

(** The scan for the least recently seen viewer. *)
Definition viewer (e : PairedEntry) : Prop := pe_used e = true /\ pe_role e = AccessLevel.watch.

Lemma oldest_scan es n :
  (n <= length es)%nat ->
  match foldl (older es) None (seq 0 n) with
  | Some i => exists o, es !! i = Some o /\ viewer o /\ forall j e, (j < n)%nat -> es !! j = Some e -> viewer e -> pe_lastSeen o <= pe_lastSeen e
  | None => forall j e, (j < n)%nat -> es !! j = Some e -> ~ viewer e
  end.
Proof.
  induction n as [|n IH]; intros Hn; [cbn; lia|]. specialize (IH ltac:(lia)).
  rewrite seq_S, foldl_app. cbn [foldl Nat.add]. set (best := foldl _ _ _) in *. unfold older.
  destruct (lookup_lt_is_Some_2 es n ltac:(lia)) as [e He]. rewrite He.
  assert (Hlast : forall j e', (j < S n)%nat -> es !! j = Some e' -> (j < n)%nat \/ e' = e).
  { intros j e' Hj Hj'. destruct (decide (j = n)) as [->|]; [right; congruence|left; lia]. }
  destruct (pe_used e) eqn:Eu; [destruct (Z.eqb_spec (pe_role e) AccessLevel.watch) as [Er|Er]|]; cbn [andb];
    [assert (Hv : viewer e) by done|assert (Hv : ~ viewer e) by (intros [? ?]; congruence)..].
  - destruct best as [i|].
    + destruct IH as (o & Ho & Hvo & Hmin). rewrite Ho. destruct (Z.ltb_spec (pe_lastSeen e) (pe_lastSeen o)).
      * exists e. split_and!; [done|done|]. intros j e' Hj Hj' Hve. destruct (Hlast j e' Hj Hj') as [ | -> ]; [|lia].
        specialize (Hmin j e' ltac:(done) Hj' Hve). lia.
      * exists o. split_and!; [done|done|]. intros j e' Hj Hj' Hve. destruct (Hlast j e' Hj Hj') as [ | -> ]; [|lia]. eauto.
    + exists e. split_and!; [done|done|]. intros j e' Hj Hj' Hve. destruct (Hlast j e' Hj Hj') as [ | -> ]; [|lia].
      by destruct (IH j e').
  - destruct best as [i|].
    + destruct IH as (o & Ho & Hvo & Hmin). exists o. split_and!; [done|done|]. intros j e' Hj Hj' Hve.
      destruct (Hlast j e' Hj Hj') as [ | -> ]; [eauto|done].
    + intros j e' Hj Hj'. destruct (Hlast j e' Hj Hj') as [ | -> ]; [eauto|done].
  - destruct best as [i|].
    + destruct IH as (o & Ho & Hvo & Hmin). exists o. split_and!; [done|done|]. intros j e' Hj Hj' Hve.
      destruct (Hlast j e' Hj Hj') as [ | -> ]; [eauto|done].
    + intros j e' Hj Hj'. destruct (Hlast j e' Hj Hj') as [ | -> ]; [eauto|done].
Qed.

Lemma roster_viewer es id e :
  entries_ok es -> roster es !! id = Some e -> exists j, es !! j = Some e /\ (j < length es)%nat /\ pe_used e = true.
Proof.
  intros Hok Hl. destruct (roster_key es id e Hok Hl) as (Hu & _ & He). apply list_elem_of_lookup in He as [j Hj].
  exists j. split_and!; [done| |done]. by eapply lookup_lt_Some.
Qed.

Lemma dropOldest_refines m :
  ledger_ok m ->
  let '(m', dropped) := dropOldestWatch m in
  ledger_ok m'
  /\ match dropped with
     | Some id =>
         exists o, ledger m !! id = Some o /\ pe_role o = AccessLevel.watch /\ ledger m' = delete id (ledger m)
           /\ forall id' e, ledger m !! id' = Some e -> pe_role e = AccessLevel.watch -> pe_lastSeen o <= pe_lastSeen e
     | None => m' = m /\ forall id e, ledger m !! id = Some e -> pe_role e <> AccessLevel.watch
     end.
Proof.
  intros Hok. unfold dropOldestWatch, oldestWatch.
  pose proof (oldest_scan (pm_entries m) (length (pm_entries m)) ltac:(lia)) as Hscan.
  destruct (foldl _ _ _) as [i|].
  - destruct Hscan as (o & Ho & [Hu Hr] & Hmin). rewrite Ho.
    pose proof Ho as Hs%list_elem_of_split_length. destruct Hs as (l & l' & Hes & ->).
    unfold ledger_ok, ledger in *. rewrite Hes in *. cbn. rewrite insert_middle.
    destruct (drop_device l o l' Hok Hu) as [Hok' Hm']. split; [done|]. exists o. split_and!; [|done|done|].
    + apply slot_map_Some; [apply Hok|]. apply elem_of_occupied. exists o. split_and!; try done. apply elem_of_app. right. left.
    + intros id' e He Her. destruct (roster_viewer _ _ _ Hok He) as (j & Hj & Hlt & Hue). by apply (Hmin j e).
  - split; [done|]. split; [done|]. intros id e He Her.
    destruct (roster_viewer _ _ _ Hok He) as (j & Hj & Hlt & Hue). by apply (Hscan j e).
Qed.

End Ledger.

(** ** Histories *)

(** What the hub and its owner do to the manager.  [OpGrant] is an approval, whichever ceremony led to it. *)
Inductive PairOp :=
| OpGrant (id : list byte) (role mode : Z)
| OpPairReq (id pin_proof nonce : list byte) (nowMs grantRole : Z)
| OpOpenWindow (pin : list byte) (nowMs : Z)
| OpCloseWindow
| OpOpenPresence (nowMs : Z)
| OpClosePresence
| OpRevoke (id : list byte)
| OpDemoteAll
| OpDropOldest
| OpHello (id kind name ver : list byte) (hasVer : bool) (mode : Z)
| OpPolicy (wall presenceRole keepMax : Z) (knock : bool).

Section History.
Context `{ICryptoLaws} {R : Type} `{IRandomLaws R}.

Definition pair_step (op : PairOp) (s : PairingManager * R) : PairingManager * R :=
  let '(m, g) := s in
  match op with
  | OpGrant id role mode => let '(m, g, _, _) := grant id role mode g [] m in (m, g)
  | OpPairReq id proof nonce now role => let '(m, g, _, _) := handlePairReq id proof nonce g now role [] m in (m, g)
  | OpOpenWindow pin now => (openWindow pin now m, g)
  | OpCloseWindow => (closeWindow m, g)
  | OpOpenPresence now => (openPresenceWindow now m, g)
  | OpClosePresence => (closePresenceWindow m, g)
  | OpRevoke id => (fst (revoke id m), g)
  | OpDemoteAll => (fst (demoteAllToWatch m), g)
  | OpDropOldest => (fst (dropOldestWatch m), g)
  | OpHello id kind name ver hasVer mode => (fst (observeHello id kind name ver hasVer mode m), g)
  | OpPolicy wall role keep knock => (set_policy wall role keep knock m, g)
  end.

Definition pair_steps (g0 : R) (ops : list PairOp) : PairingManager * R :=
  foldl (fun s op => pair_step op s) (PairingManager_new, g0) ops.

(** The operation hands [token] at [role] to the device [id]. *)
Definition hands_out (op : PairOp) (m : PairingManager) (g : R) (id token : list byte) (role : Z) : Prop :=
  token = fst (rng_fill token_bytes g)
  /\ match op with
     | OpGrant id' role' _ => id' = id /\ role' = role
     | OpPairReq id' proof nonce now role' =>
         id' = id /\ role' = role /\ windowOpen now m = true /\ proof = pairingPinProof (pm_pin m) nonce
     | _ => False
     end.

Lemma grant_state id role mode g out m : snd (fst (fst (grant id role mode g out m))) = snd (fst (fst (grant id role mode g [] m))).
Proof.
  unfold grant. destruct (negb _); [done|]. destruct (grant_slot id m) as [[i e]|]; [|done].
  by destruct (rng_fill token_bytes g).
Qed.

Lemma spec_validate_insert id token id' e L r :
  spec_validate id token (<[id' := e]> L) = r -> r <> AccessLevel.watch ->
  (id' = id /\ pe_token e = token /\ effective_role e = r) \/ (id' <> id /\ spec_validate id token L = r).
Proof.
  unfold spec_validate. destruct (decide (id' = id)) as [->|Hne].
  - rewrite lookup_insert_eq. case_bool_decide; [by left|congruence].
  - rewrite lookup_insert_ne by done. by right.
Qed.

Lemma spec_validate_delete id token id' L r :
  spec_validate id token (delete id' L) = r -> r <> AccessLevel.watch -> id' <> id /\ spec_validate id token L = r.
Proof.
  unfold spec_validate. destruct (decide (id' = id)) as [->|Hne]; [rewrite lookup_delete_eq; congruence|].
  by rewrite lookup_delete_ne.
Qed.

(** Of a manager whose ledger may have changed to [L]: authority persists or was handed out. *)
Definition accounted (op : PairOp) (m : PairingManager) (g : R) (L : Roster) : Prop :=
  forall id token r, spec_validate id token L = r -> r <> AccessLevel.watch ->
    spec_validate id token (ledger m) = r \/ hands_out op m g id token r.

Lemma accounted_same op m g L : L = ledger m -> accounted op m g L.
Proof. intros -> id token r Hr _. by left. Qed.

Lemma granted_effective tok role mode wall e : effective_role (granted tok role mode wall e) = role.
Proof. done. Qed.

Lemma accounted_grant op m g id role mode L :
  (forall tok, tok = fst (rng_fill token_bytes g) -> hands_out op m g id tok role) ->
  spec_grant (fst (rng_fill token_bytes g)) id role mode (pm_wallSeconds m) (ledger m) = Some L -> accounted op m g L.
Proof.
  intros Hout Hg id' token r Hr Hne. unfold spec_grant in Hg.
  destruct (ledger m !! id) as [e|]; [|destruct (_ <? _)%nat; [|done]]; injection Hg as <-;
    apply spec_validate_insert in Hr as [(-> & Ht & Hrole)|[_ Hr]]; try done; try (by left);
    right; rewrite granted_effective in Hrole; subst r; by apply Hout.
Qed.

Lemma grant_accounted op id role mode g out m :
  ledger_ok m -> (forall tok, tok = fst (rng_fill token_bytes g) -> hands_out op m g id tok role) ->
  let '(m', g', _, _) := grant id role mode g out m in ledger_ok m' /\ accounted op m g (ledger m').
Proof.
  intros Hok Hout. pose proof (grant_refines id role mode g out m Hok) as Hg.
  destruct (grant id role mode g out m) as [[[m' g'] out'] b]. destruct Hg as [Hok' Hg]. split; [done|].
  destruct (length id =? instance_id_bytes)%nat.
  - destruct (spec_grant _ _ _ _ _ _) as [L|] eqn:Hs.
    + destruct Hg as [_ ->]. by eapply accounted_grant.
    + destruct Hg as [_ ->]. by apply accounted_same.
  - destruct Hg as [_ ->]. by apply accounted_same.
Qed.

Lemma pair_step_accounted op m g :
  ledger_ok m -> let '(m', _) := pair_step op (m, g) in ledger_ok m' /\ accounted op m g (ledger m').
Proof.
  intros Hok. destruct op as [id role mode|id proof nonce now role|pin now| |now| |id| | |id kind name ver hasVer mode|wall role keep knock];
    cbn [pair_step]; try (split; [exact Hok|by apply accounted_same]).
  - pose proof (grant_accounted (OpGrant id role mode) id role mode g [] m Hok) as Hg.
    destruct (grant id role mode g [] m) as [[[m' g'] out'] b]. by apply Hg.
  - unfold handlePairReq. destruct (windowOpen now m) eqn:Hw; cbn [negb]; [|split; [done|by apply accounted_same]].
    destruct (length id =? instance_id_bytes)%nat; cbn [negb]; [|split; [done|by apply accounted_same]].
    rewrite constantTimeEqual_law. case_bool_decide as Hp; cbn [negb]; [|split; [exact Hok|by apply accounted_same]].
    pose proof (grant_accounted (OpPairReq id proof nonce now role) id role pairing_modes.pin_proof g [] m Hok) as Hg.
    destruct (grant id role pairing_modes.pin_proof g [] m) as [[[m' g'] out'] b].
    destruct b; by apply Hg.
  - pose proof (revoke_refines id m Hok) as Hr. destruct (revoke id m) as [m' b]. destruct Hr as (Hok' & Hm & _). cbn.
    split; [done|]. rewrite Hm. intros id' token r Hr Hne. apply spec_validate_delete in Hr as [_ Hr]; [by left|done].
  - pose proof (demoteAll_refines m Hok) as Hr. destruct (demoteAllToWatch m) as [m' n]. destruct Hr as (Hok' & Hm). cbn.
    split; [done|]. rewrite Hm. intros id' token r Hr Hne. left. unfold spec_validate in *. rewrite lookup_fmap in Hr.
    destruct (ledger m !! id') as [e|]; cbn in *; [|done]. unfold demoted, above_watch in Hr.
    destruct (pe_used e); [|done]. destruct (Z.eqb_spec (pe_role e) AccessLevel.watch) as [|]; [done|]. cbn in Hr.
    unfold effective_role in Hr. cbn in Hr. exfalso. by repeat case_match.
  - pose proof (dropOldest_refines m Hok) as Hr. destruct (dropOldestWatch m) as [m' [id|]]; destruct Hr as [Hok' Hr]; cbn.
    + destruct Hr as (o & _ & _ & Hm & _). split; [done|]. rewrite Hm. intros id' token r Hr Hne.
      apply spec_validate_delete in Hr as [_ Hr]; [by left|done].
    + destruct Hr as [-> _]. split; [done|by apply accounted_same].
  - pose proof (observeHello_refines id kind name ver hasVer mode m Hok) as Hr.
    destruct (observeHello _ _ _ _ _ _ m) as [m' o]. destruct Hr as [Hok' Hr]. cbn. split; [done|].
    destruct (ledger m !! id) as [e|] eqn:He; [|destruct Hr as [-> _]; by apply accounted_same].
    destruct Hr as [Hm _]. rewrite Hm. intros id' token r Hr Hne. left.
    apply spec_validate_insert in Hr as [(-> & Ht & Hrole)|[_ Hr]]; [|done|done].
    destruct (observed_same kind name ver hasVer mode (pm_wallSeconds m) (pm_autoKeepMax m) e) as (_ & _ & Ht' & Hro & Hst).
    unfold spec_validate. rewrite He, bool_decide_true by congruence. unfold effective_role in *. rewrite Hro in Hrole.
    destruct Hst as [Hst|Hst]; rewrite Hst in Hrole; [done|]. by cbn in Hrole.
Qed.

Lemma pair_steps_ok g0 ops : ledger_ok (fst (pair_steps g0 ops)).
Proof.
  unfold pair_steps. assert (Hok : ledger_ok (fst (PairingManager_new, g0))) by exact new_entries_ok.
  revert Hok. generalize (PairingManager_new, g0) as s. induction ops as [|op ops IH]; intros [m g] Hok; [done|].
  cbn [foldl]. apply IH. pose proof (pair_step_accounted op m g Hok) as Hs. destruct (pair_step op (m, g)); apply Hs.
Qed.

End History.

(** ** The PIN window under attack *)

Record PairReq := mkPairReq { rq_id : list byte; rq_proof : list byte; rq_nonce : list byte; rq_now : Z; rq_role : Z }.

Section Attack.
Context `{ICryptoLaws} {R : Type} `{IRandomLaws R}.

(** The hub compared a proof and it was wrong. *)
Definition wrong_guess (rq : PairReq) (m : PairingManager) : bool :=
  windowOpen (rq_now rq) m && (length (rq_id rq) =? instance_id_bytes)%nat
  && negb (bool_decide (rq_proof rq = pairingPinProof (pm_pin m) (rq_nonce rq))).

(** A run of requests: for each, whether it was a wrong guess, and the outcome. *)
Fixpoint requests (rqs : list PairReq) (m : PairingManager) (g : R) : list (bool * PairOutcome) :=
  match rqs with
  | [] => []
  | rq :: rqs =>
      let '(m', g', _, o) := handlePairReq (rq_id rq) (rq_proof rq) (rq_nonce rq) g (rq_now rq) (rq_role rq) [] m in
      (wrong_guess rq m, o) :: requests rqs m' g'
  end.

Definition wrong_guesses (t : list (bool * PairOutcome)) : nat := length (List.filter fst t).

Definition no_grant (t : list (bool * PairOutcome)) : Prop := Forall (fun p => p.2 <> Granted) t.

Lemma closed_requests rqs m g :
  pm_windowOpen m = false -> Forall (fun p => p = (false, WindowClosed)) (requests rqs m g).
Proof.
  intros Hw. revert g. induction rqs as [|rq rqs IH]; intros g; [constructor|]. cbn [requests].
  unfold handlePairReq, wrong_guess, windowOpen. rewrite Hw. cbn. constructor; [done|]. apply IH.
Qed.

Lemma closed_guesses t : Forall (fun p => p = (false, WindowClosed)) t -> wrong_guesses t = 0%nat.
Proof. induction 1 as [|p t -> _ IH]; [done|]. exact IH. Qed.

(** One request that is not granted. *)
Lemma request_step rq m g m' g' out o :
  handlePairReq (rq_id rq) (rq_proof rq) (rq_nonce rq) g (rq_now rq) (rq_role rq) [] m = (m', g', out, o) ->
  o <> Granted ->
  if wrong_guess rq m then
    o = Denied /\ pm_failCount m' = u8 (pm_failCount m + 1)
    /\ pm_windowOpen m' = (if 3 <=? u8 (pm_failCount m + 1) then false else pm_windowOpen m)
  else m' = m.
Proof.
  unfold handlePairReq, wrong_guess. intros Hh Ho. destruct (windowOpen (rq_now rq) m); cbn in *; [|by simplify_eq].
  destruct (length (rq_id rq) =? instance_id_bytes)%nat; cbn in *; [|by simplify_eq].
  rewrite constantTimeEqual_law in Hh. case_bool_decide; cbn in *; [|by simplify_eq].
  unfold grant in Hh. destruct (negb _); [by simplify_eq|]. destruct (grant_slot _ m) as [[i e]|]; [|by simplify_eq].
  destruct (rng_fill _ _). by simplify_eq.
Qed.

Lemma few_guesses rqs m g (f : nat) :
  pm_failCount m = Z.of_nat f -> (f < 3)%nat -> no_grant (requests rqs m g) ->
  (wrong_guesses (requests rqs m g) <= 3 - f)%nat
  /\ forall a b, requests rqs m g = a ++ b -> wrong_guesses a = (3 - f)%nat -> Forall (fun p => p = (false, WindowClosed)) b.
Proof.
  revert m g f. induction rqs as [|rq rqs IH]; intros m g f Hf Hlt Hn.
  { split; [cbn; lia|]. intros a b Hab Ha. symmetry in Hab. by apply app_eq_nil in Hab as [-> ->]. }
  cbn [requests] in *. destruct (handlePairReq _ _ _ _ _ _ _ _) as [[[m' g'] out] o] eqn:Hh.
  apply Forall_cons in Hn as [Ho Hn]. cbn in Ho. pose proof (request_step _ _ _ _ _ _ _ Hh Ho) as Hs.
  destruct (wrong_guess rq m) eqn:Hw.
  - destruct Hs as (-> & Hf' & Hopen). rewrite Hf, (wrap_small 8) in Hf', Hopen by (unfold in_u; lia).
    destruct (decide (f = 2)%nat) as [->|Hne].
    + cbn in Hopen. pose proof (closed_requests rqs m' g' Hopen) as Hc. split.
      * unfold wrong_guesses in *. cbn. pose proof (closed_guesses _ Hc) as H0'. unfold wrong_guesses in H0'. rewrite H0'. lia.
      * intros [|p a] b Hab Ha; [done|]. injection Hab as _ Hab. rewrite Hab in Hc. by apply Forall_app in Hc as [_ Hc].
    + destruct (IH m' g' (S f)) as [Hle Hsplit]; [lia|lia|done|]. split; [unfold wrong_guesses in *; cbn; lia|].
      intros [|p a] b Hab Ha; [cbn in Ha; lia|]. injection Hab as <- Hab. eapply Hsplit; [exact Hab|].
      unfold wrong_guesses in *. cbn in Ha. lia.
  - subst m'. destruct (IH m g' f) as [Hle Hsplit]; [done|done|done|]. split; [done|].
    intros [|p a] b Hab Ha; [cbn in Ha; lia|]. injection Hab as <- Hab. by eapply Hsplit.
Qed.

End Attack.

(** ** Properties *)

(** C34. Authority is always accounted for.  In every history of approvals, PIN ceremonies, windows,
    revocations, demotions and HELLOs, a credential that is worth more than `watch` after an operation was
    worth exactly that before it, or is the token that very operation handed to that device at that role:
    an approval for it, or a request with the right PIN proof while the window was open.  Revoking a
    device makes every token of it worthless, demoting makes every token of every device worthless, and a
    version change never raises a role. *)
Theorem authority_needs_grant `{ICryptoLaws} {R : Type} `{IRandomLaws R} (g0 : R) (ops : list PairOp) :
  let '(m, g) := pair_steps g0 ops in
  (forall op id token,
     let r := validate id token (fst (pair_step op (m, g))) in
     r <> AccessLevel.watch -> validate id token m = r \/ hands_out op m g id token r)
  /\ (forall id token, validate id token (fst (revoke id m)) = AccessLevel.watch)
  /\ (forall id token, validate id token (fst (demoteAllToWatch m)) = AccessLevel.watch)
  /\ (size (ledger m) <= paired_devices_max)%nat.
Proof.
  pose proof (pair_steps_ok g0 ops) as Hok. destruct (pair_steps g0 ops) as [m g]. cbn in Hok. split_and!.
  - intros op id token. pose proof (pair_step_accounted op m g Hok) as Hs. destruct (pair_step op (m, g)) as [m' g'].
    destruct Hs as [Hok' Hs]. cbv zeta. cbn [fst]. rewrite !validate_refines by done. by apply Hs.
  - intros id token. pose proof (revoke_refines id m Hok) as Hr. destruct (revoke id m) as [m' b].
    destruct Hr as (Hok' & Hm & _). rewrite validate_refines by done. unfold spec_validate. cbn [fst]. by rewrite Hm, lookup_delete_eq.
  - intros id token. pose proof (demoteAll_refines m Hok) as Hr. destruct (demoteAllToWatch m) as [m' n].
    destruct Hr as (Hok' & Hm). rewrite validate_refines by done. unfold spec_validate. cbn [fst]. rewrite Hm, lookup_fmap.
    destruct (ledger m !! id) as [e|] eqn:He; [|done]. cbn. destruct (roster_key _ _ _ Hok He) as (Hu & _).
    unfold demoted, above_watch. rewrite Hu. case_bool_decide; [|done]. unfold effective_role.
    destruct (Z.eqb_spec (pe_role e) AccessLevel.watch) as [Hr|]; cbn; repeat case_match; done.
  - rewrite <- entryCount_ledger by done. destruct Hok as [<- _]. apply List.filter_length_le.
Qed.

(** An 8-byte identity, and what an approval gives its device. *)
Definition sample_id : list byte := map z2b [1; 2; 3; 4; 5; 6; 7; 8].

Definition sample_rng : FixedSequenceRandom := mkFixedSequenceRandom (map z2b [7; 8; 9]) 0.

Lemma authority_needs_grant_witness :
  let '(m, g) := pair_steps sample_rng [OpGrant sample_id AccessLevel.control pairing_modes.knock_approve] in
  (size (ledger m) <= paired_devices_max)%nat.
Proof.
  exact (proj2 (proj2 (proj2 (authority_needs_grant (c := SoftwareCrypto) sample_rng
    [OpGrant sample_id AccessLevel.control pairing_modes.knock_approve])))).
Defined.

(** C35. Three wrong PIN proofs close the window: from the moment it is opened, whatever requests arrive,
    from whichever devices and at whatever times, as long as none of them is granted the hub compares at
    most three wrong proofs, and once it has compared three every later request is answered
    `WindowClosed` without looking at its proof, until someone opens the window again. *)
Theorem pin_three_strikes `{ICryptoLaws} {R : Type} `{IRandomLaws R}
  (rqs : list PairReq) (pin : list byte) (openedMs : Z) (m : PairingManager) (g : R)
  (Hn : no_grant (requests rqs (openWindow pin openedMs m) g)) :
  (wrong_guesses (requests rqs (openWindow pin openedMs m) g) <= 3)%nat
  /\ forall before after,
       requests rqs (openWindow pin openedMs m) g = before ++ after -> wrong_guesses before = 3%nat ->
       Forall (fun p => p = (false, WindowClosed)) after.
Proof. by apply (few_guesses rqs (openWindow pin openedMs m) g 0); [|lia|]. Qed.

Lemma pin_three_strikes_witness :
  let rq := mkPairReq sample_id (replicate 16 Byte.x00) (replicate 8 Byte.x01) 10 AccessLevel.configure in
  let m := openWindow (map z2b [49; 50; 51; 52]) 0 PairingManager_new in
  (wrong_guesses (requests [rq; rq; rq; rq] m sample_rng) <= 3)%nat
  /\ requests [rq; rq; rq; rq] m sample_rng = [(true, Denied); (true, Denied); (true, Denied); (false, WindowClosed)].
Proof.
  assert (E : requests [mkPairReq sample_id (replicate 16 Byte.x00) (replicate 8 Byte.x01) 10 AccessLevel.configure;
      mkPairReq sample_id (replicate 16 Byte.x00) (replicate 8 Byte.x01) 10 AccessLevel.configure;
      mkPairReq sample_id (replicate 16 Byte.x00) (replicate 8 Byte.x01) 10 AccessLevel.configure;
      mkPairReq sample_id (replicate 16 Byte.x00) (replicate 8 Byte.x01) 10 AccessLevel.configure]
    (openWindow (map z2b [49; 50; 51; 52]) 0 PairingManager_new) sample_rng
    = [(true, Denied); (true, Denied); (true, Denied); (false, WindowClosed)]) by (vm_compute; reflexivity).
  cbv zeta. split; [|exact E].
  refine (proj1 (pin_three_strikes _ (map z2b [49; 50; 51; 52]) 0 PairingManager_new sample_rng _)).
  rewrite E. unfold no_grant. repeat constructor; discriminate.
Defined.

(** How long a window is open.  A PIN window and a presence window are open for exactly 120 s of hub
    time from the call that opened them, across the wrap of the 32-bit clock; nothing but a close or a
    grant clears the flag, though, so a window that was left to expire reads as open again from 2^31 ms
    after its deadline until the clock has gone round: after 24.8 days. *)
Theorem windows_exact (m : PairingManager) (pin : list byte) (T d : Z) :
  (0 <= d < 2 ^ 31 -> windowOpen (u32 (T + d)) (openWindow pin (u32 T) m) = (d <? 120000))
  /\ (0 <= d < 2 ^ 31 -> presenceWindowOpen (u32 (T + d)) (openPresenceWindow (u32 T) m) = (d <? 120000))
  /\ (2 ^ 31 <= d - 120000 < 2 ^ 32 ->
      windowOpen (u32 (T + d)) (openWindow pin (u32 T) m) = true
      /\ presenceWindowOpen (u32 (T + d)) (openPresenceWindow (u32 T) m) = true).
Proof.
  unfold windowOpen, presenceWindowOpen, pairing_window_default_s. cbn [pm_windowOpen pm_presenceOpen pm_windowOpenedMs
    pm_presenceOpenedMs openWindow openPresenceWindow set_pin_window set_presence_window negb].
  replace (u32 (u32 T + 120 * 1000)) with (u32 (T + 120000)) by (unfold wrap; by rewrite Zplus_mod_idemp_l).
  split_and!; intros Hd.
  - rewrite timeReached_elapsed by lia. lia.
  - rewrite timeReached_elapsed by lia. lia.
  - replace (u32 (T + d)) with (u32 (T + (d - 2 ^ 32))).
    + rewrite timeReached_elapsed by lia. lia.
    + unfold wrap. rewrite Z.add_sub_assoc. rewrite Zminus_mod, Z_mod_same_full, Z.sub_0_r. by rewrite Zmod_mod.
Qed.

Lemma observed_spec kind name ver hasVer mode wall keep e :
  spec_hello kind name ver hasVer mode wall keep e (observed kind name ver hasVer mode wall keep e).
Proof.
  unfold observed, tripwire. cbn [relabel pe_version pe_state pe_role].
  pose proof (Z.ltb_antisym (pe_role e) keep) as Hlt.
  destruct hasVer, (bs_empty (pe_version e)) eqn:He, (bs_sameAs _ _ _) eqn:Hs, (pe_state e =? _) eqn:Ht, (pe_role e <=? keep) eqn:Hr;
    cbn; split; cbn; rewrite ?Hlt, ?He, ?Hs, ?Ht, ?Hr; by split_and!.
Qed.

(** C37. The ledger is a finite map from devices to entries, at most eight of them, and this is what the operations
    that change or read it entry by entry do to the map.  Granting creates or
    replaces the entry of one device (a re-pairing keeps the slot, the labels and the first sight) and is
    refused, changing nothing, for a new device in a full ledger; a HELLO refreshes the entry of a known device
    as [spec_hello] says and changes nothing for others; revoking removes one; importing adds the entry of a
    device that is not yet listed, where there is room, and is otherwise refused; demoting acts on all; making
    room drops a least recently seen viewer and nobody else, and only a ledger without viewers makes no room;
    and validation, by token or by proof, reads the map: the role if the credential matches and the device is
    not suspended, else `watch`.  (A whole ledger's encoding and its restoration are the subject of
    [ledger_roundtrip].) *)
Theorem ledger_refines `{ICryptoLaws} {R : Type} `{IRandomLaws R}
  (m : PairingManager) (g : R) (id token proof nonce out kind name ver : list byte) (role mode : Z) (hasVer : bool)
  (imported : PairedEntry) (Hok : ledger_ok m) :
  (let '(m', _, _, b) := grant id role mode g out m in
   ledger_ok m'
   /\ match (if (length id =? instance_id_bytes)%nat
             then spec_grant (fst (rng_fill token_bytes g)) id role mode (pm_wallSeconds m) (ledger m) else None) with
      | Some L => b = true /\ ledger m' = L
      | None => b = false /\ m' = m
      end)
  /\ (let '(m', o) := observeHello id kind name ver hasVer mode m in
      ledger_ok m'
      /\ match ledger m !! id with
         | Some e => exists e', spec_hello kind name ver hasVer mode (pm_wallSeconds m) (pm_autoKeepMax m) e e'
                       /\ ledger m' = <[id := e']> (ledger m) /\ ho_known o = true /\ ho_effectiveRole o = effective_role e'
         | None => m' = m /\ o = HelloObservation_new
         end)
  /\ (let '(m', b) := revoke id m in
      ledger_ok m' /\ ledger m' = delete id (ledger m) /\ b = bool_decide (is_Some (ledger m !! id)))
  /\ (entry_ok (used_entry imported) -> ledger m !! pe_instance_id imported = None ->
      let '(m', b) := importEntry imported m in
      ledger_ok m'
      /\ if (size (ledger m) <? paired_devices_max)%nat
         then b = true /\ ledger m' = <[pe_instance_id imported := used_entry imported]> (ledger m) else b = false /\ m' = m)
  /\ (let '(m', _) := demoteAllToWatch m in ledger_ok m' /\ ledger m' = demoted <$> ledger m)
  /\ (let '(m', dropped) := dropOldestWatch m in
      ledger_ok m'
      /\ match dropped with
         | Some id =>
             exists o, ledger m !! id = Some o /\ pe_role o = AccessLevel.watch /\ ledger m' = delete id (ledger m)
               /\ forall id' e, ledger m !! id' = Some e -> pe_role e = AccessLevel.watch -> pe_lastSeen o <= pe_lastSeen e
         | None => m' = m /\ forall id e, ledger m !! id = Some e -> pe_role e <> AccessLevel.watch
         end)
  /\ validate id token m = spec_validate id token (ledger m)
  /\ validateProof id proof nonce m = spec_validateProof id proof nonce (ledger m).
Proof.
  split_and!.
  - pose proof (grant_refines id role mode g out m Hok) as Hg. by destruct (grant id role mode g out m) as [[[m' g'] out'] b].
  - pose proof (observeHello_refines id kind name ver hasVer mode m Hok) as Hr. destruct (observeHello _ _ _ _ _ _ m) as [m' o].
    destruct Hr as [Hok' Hr]. split; [done|]. destruct (ledger m !! id) as [e|]; [|done]. eexists. split; [apply observed_spec|exact Hr].
  - by apply revoke_refines.
  - intros He Hn. destruct (He eq_refl) as [Hi Ht]. by apply importEntry_refines.
  - by apply demoteAll_refines.
  - by apply dropOldest_refines.
  - by apply validate_refines.
  - by apply validateProof_refines.
Qed.

Definition sample_entry : PairedEntry := used_entry (granted (replicate 16 Byte.x02) AccessLevel.control 1 0 (fresh_entry sample_id 0)).

Lemma ledger_refines_witness :
  ledger_ok PairingManager_new
  /\ validate sample_id (replicate 16 Byte.x00) PairingManager_new = AccessLevel.watch
  /\ let '(m', b) := importEntry sample_entry PairingManager_new in b = true /\ ledger m' !! sample_id = Some sample_entry.
Proof.
  pose proof (ledger_refines (c := SoftwareCrypto) PairingManager_new sample_rng sample_id (replicate 16 Byte.x00) [] [] [] [] [] []
    AccessLevel.watch 1 false sample_entry new_entries_ok) as (_ & _ & _ & Hi & _ & _ & Hv & _).
  split; [exact new_entries_ok|]. split; [rewrite Hv; vm_compute; reflexivity|].
  specialize (Hi ltac:(by split) eq_refl). destruct (importEntry _ _) as [m' b]. destruct Hi as [_ [Hb Hl]].
  split; [exact Hb|]. by rewrite Hl, lookup_insert.
Defined.

(** An entry that is imported twice takes two slots, and revoking the device removes one: its token is still good. *)
Example imported_twice_revoked_once :
  let m := fst (importEntry sample_entry (fst (importEntry sample_entry PairingManager_new))) in
  entryCount m = 2%nat /\ validate sample_id (replicate 16 Byte.x02) (fst (revoke sample_id m)) = AccessLevel.control.
Proof. vm_compute. by split. Qed.

(** ** The pending list *)

Module PendingFacts.

Definition knocks (l : list PendingKnock) : gmap (list byte) PendingKnock := slot_map pk_used pk_instance_id (fun k => k) l.

Definition knock_ok (k : PendingKnock) : Prop := pk_used k = true -> length (pk_instance_id k) = instance_id_bytes.

Definition knocks_ok (l : list PendingKnock) : Prop :=
  distinct pk_used pk_instance_id (fun k => k) l /\ Forall knock_ok l.

Lemma is_knock_spec id k : Pending.is_knock id k = true <-> pk_used k = true /\ pk_instance_id k = id.
Proof. unfold Pending.is_knock, same_instance. by rewrite andb_true_iff, bool_decide_eq_true. Qed.

Lemma find_knock id l i :
  knocks_ok l -> Pending.find id l = Some i ->
  exists l1 k l2, l = l1 ++ k :: l2 /\ length l1 = i /\ pk_used k = true /\ pk_instance_id k = id /\ knocks l !! id = Some k.
Proof.
  intros [Hd _] Hf. unfold Pending.find in Hf. destruct (length id =? instance_id_bytes)%nat; [|done].
  destruct (slot_find_Some pk_used pk_instance_id (fun k => k) Pending.is_knock is_knock_spec id _ i Hd Hf)
    as (l1 & k & l2 & ? & ? & (Hu & Hk & _) & Hm). by exists l1, k, l2.
Qed.

Lemma find_no_knock id l :
  knocks_ok l -> length id = instance_id_bytes -> Pending.find id l = None ->
  knocks l !! id = None /\ id ∉ (occupied pk_used pk_instance_id (fun k => k) l).*1.
Proof.
  intros [Hd _] Hl Hf. unfold Pending.find in Hf. rewrite Hl in Hf.
  by destruct (slot_find_None pk_used pk_instance_id (fun k => k) Pending.is_knock is_knock_spec id _ Hf).
Qed.

Lemma knocks_ok_change l1 k k' l2 :
  Forall knock_ok (l1 ++ k :: l2) -> knock_ok k' -> Forall knock_ok (l1 ++ k' :: l2).
Proof. intros [Hf1 [_ Hf2]%Forall_cons]%Forall_app Hk. apply Forall_app; auto. Qed.

Lemma add_refines id session expires mode l :
  knocks_ok l -> length id = instance_id_bytes ->
  let '(l', p) := Pending.add id session expires mode l in
  knocks_ok l' /\ length l' = length l
  /\ if bool_decide (is_Some (knocks l !! id)) || (size (knocks l) <? length l)%nat
     then knocks l' = <[id := Pending.refresh session expires mode (default (Pending.claim id) (knocks l !! id))]> (knocks l)
          /\ is_Some p
     else l' = l /\ p = None.
Proof.
  intros Hok Hlen. pose proof Hok as [Hd Hf]. unfold Pending.add. destruct (Pending.find id l) as [i|] eqn:Hfind.
  - destruct (find_knock id l i Hok Hfind) as (l1 & k & l2 & -> & <- & Hu & Hk & Hm).
    rewrite Hm, bool_decide_true by done. cbn [orb default]. rewrite list_alter_at_middle.
    destruct (slot_replace pk_used pk_instance_id (fun k => k) l1 k (Pending.refresh session expires mode k) l2 Hu eq_refl eq_refl Hd)
      as [Hd' Hm']. split_and!; [| |by rewrite <- Hk|done].
    + split; [done|]. eapply knocks_ok_change; [exact Hf|]. intros _. cbn. by rewrite Hk.
    + by rewrite !length_app.
  - destruct (find_no_knock id l Hok Hlen Hfind) as [Hm Hn]. rewrite Hm, bool_decide_false by (by intros [? [=]]).
    cbn [orb default]. unfold knocks at 1. rewrite slot_map_size by done. fold (first_free pk_used l).
    destruct (first_free pk_used l) as [i|] eqn:Hfree.
    + destruct (first_free_Some pk_used l i Hfree) as (l1 & k & l2 & -> & <- & Hu & Hlt).
      rewrite (proj2 (Nat.ltb_lt _ _) Hlt), insert_middle.
      destruct (slot_fill pk_used pk_instance_id (fun k => k) l1 k (Pending.refresh session expires mode (Pending.claim id)) l2 Hu eq_refl Hn Hd)
        as [Hd' Hm']. split_and!; [|by rewrite !length_app|done|done].
      split; [done|]. eapply knocks_ok_change; [exact Hf|]. by intros _.
    + by rewrite (first_free_None pk_used l Hfree), Nat.ltb_irrefl.
Qed.

Lemma forget_knock_refines id l :
  knocks_ok l -> length id = instance_id_bytes ->
  let '(l', b) := Pending.remove id l in
  knocks_ok l' /\ length l' = length l /\ knocks l' = delete id (knocks l) /\ b = bool_decide (is_Some (knocks l !! id)).
Proof.
  intros Hok Hlen. pose proof Hok as [Hd Hf]. unfold Pending.remove. destruct (Pending.find id l) as [i|] eqn:Hfind.
  - destruct (find_knock id l i Hok Hfind) as (l1 & k & l2 & -> & <- & Hu & Hk & Hm).
    rewrite Hm, bool_decide_true, insert_middle by done.
    destruct (slot_free pk_used pk_instance_id (fun k => k) l1 k PendingKnock_new l2 Hu eq_refl Hd) as [Hd' Hm'].
    split_and!; [|by rewrite !length_app|by rewrite <- Hk|done].
    split; [done|]. by eapply knocks_ok_change.
  - destruct (find_no_knock id l Hok Hlen Hfind) as [Hm Hn]. rewrite Hm, bool_decide_false by (by intros [? [=]]).
    split_and!; [done|done| |done]. by rewrite delete_id.
Qed.

Lemma sweep_refines gone l :
  knocks_ok l ->
  let '(l', fired) := Pending.sweep gone l in
  knocks_ok l' /\ length l' = length l
  /\ (forall id, knocks l' !! id = (k ← knocks l !! id; if gone k then None else Some k))
  /\ (forall k, k ∈ fired <-> knocks l !! pk_instance_id k = Some k /\ gone k = true) /\ NoDup (map pk_instance_id fired).
Proof.
  intros [Hd Hf]. unfold Pending.sweep.
  destruct (slot_map_clear pk_used pk_instance_id (fun k => k) gone PendingKnock_new l eq_refl Hd) as [Hd' Hm].
  split_and!; [|by rewrite length_map|done| |].
  - split; [done|]. apply Forall_map. eapply Forall_impl; [exact Hf|]. intros k Hk. unfold compose. by destruct (pk_used k && gone k).
  - intros k. unfold knocks. rewrite slot_map_Some by done. rewrite elem_of_occupied, list_elem_of_In, List.filter_In.
    setoid_rewrite list_elem_of_In. rewrite andb_true_iff. split; [by intros (? & ? & ?); eauto 10|].
    intros ((k' & ? & ? & ? & ->) & ?). done.
  - unfold distinct, occupied in Hd. rewrite <- list_fmap_compose in Hd. clear -Hd.
    induction l as [|k l IH]; [constructor|]. cbn in *. destruct (pk_used k); cbn in *; [|by apply IH].
    apply NoDup_cons in Hd as [Hn Hd]. destruct (gone k); [|by apply IH]. cbn. apply NoDup_cons. split; [|by apply IH].
    intros Hin. apply Hn. apply list_elem_of_In, in_map_iff in Hin as (x & Hx & [Hin [Hu _]%andb_prop]%List.filter_In).
    apply list_elem_of_fmap. exists x. split; [done|]. apply list_elem_of_In, List.filter_In. done.
Qed.

End PendingFacts.
Import PendingFacts.

(** The pending list is a bounded map from devices to their knocks.  A knock of a device that is
    already pending refreshes its entry and takes no second one; a knock flood of other devices stops at
    the capacity and leaves everyone else's knock untouched; removing forgets one; and the two sweeps, by
    deadline and by session, free exactly the knocks they report, each reported once. *)
Theorem pending_refines (id : list byte) (session expires mode nowMs : Z) (l : list PendingKnock)
  (Hok : knocks_ok l) (Hid : length id = instance_id_bytes) :
  (let '(l', p) := Pending.add id session expires mode l in
   knocks_ok l' /\ length l' = length l
   /\ if bool_decide (is_Some (knocks l !! id)) || (size (knocks l) <? length l)%nat
      then knocks l' = <[id := Pending.refresh session expires mode (default (Pending.claim id) (knocks l !! id))]> (knocks l)
           /\ is_Some p
      else l' = l /\ p = None)
  /\ (let '(l', b) := Pending.remove id l in
      knocks_ok l' /\ length l' = length l /\ knocks l' = delete id (knocks l) /\ b = bool_decide (is_Some (knocks l !! id)))
  /\ (let '(l', fired) := Pending.expire nowMs l in
      knocks_ok l' /\ length l' = length l
      /\ (forall d, knocks l' !! d = (k ← knocks l !! d; if timeReached nowMs (pk_expiresAtMs k) then None else Some k))
      /\ (forall k, k ∈ fired <-> knocks l !! pk_instance_id k = Some k /\ timeReached nowMs (pk_expiresAtMs k) = true)
      /\ NoDup (map pk_instance_id fired))
  /\ (let '(l', fired) := Pending.dropBySession session l in
      knocks_ok l' /\ length l' = length l
      /\ (forall d, knocks l' !! d = (k ← knocks l !! d; if pk_session_id k =? session then None else Some k))
      /\ (forall k, k ∈ fired <-> knocks l !! pk_instance_id k = Some k /\ (pk_session_id k =? session) = true)
      /\ NoDup (map pk_instance_id fired))
  /\ Pending.count l = size (knocks l).
Proof.
  split_and!.
  - by apply add_refines.
  - by apply forget_knock_refines.
  - by apply sweep_refines.
  - by apply sweep_refines.
  - symmetry. by apply slot_map_size, Hok.
Qed.

Lemma pending_refines_witness :
  let l := fst (Pending.add sample_id 1 120000 pairing_modes.knock_approve (Pending.new pairing_pending_max)) in
  Pending.count l = size (knocks l) /\ Pending.count l = 1%nat.
Proof.
  cbv zeta. split; [|vm_compute; reflexivity].
  refine (proj2 (proj2 (proj2 (proj2 (pending_refines sample_id 1 120000 1 0
    (fst (Pending.add sample_id 1 120000 pairing_modes.knock_approve (Pending.new pairing_pending_max))) _ eq_refl))))).
  assert (H0 : knocks_ok (Pending.new pairing_pending_max)) by (split; [constructor|by apply Forall_replicate]).
  exact (proj1 (add_refines sample_id 1 120000 pairing_modes.knock_approve _ H0 eq_refl)).
Defined.
