(* ===== verification/PairingLedger.v ===== *)
(** * PairingLedger: the CBOR forms of the trust ledger (session/pairing.hpp)

    [encodeLedger] and [decodeLedger] are the persisted blob, tokens included; [encodeEntry] is the item a
    store reader is served, without them. *)

From S2P Require Import Prelude Tables Slots Crypto Safety Pairing MsgTrust CborItem CborReader CborWriter CborMessage.
#[local] Open Scope Z_scope.

Module trust_ledger.
Definition instance_id : Z := 1.
Definition kind : Z := 2.
Definition name : Z := 3.
Definition version : Z := 4.
Definition first_seen : Z := 5.
Definition last_seen : Z := 6.
Definition role : Z := 7.
Definition state : Z := 8.
Definition presentation_mode : Z := 9.
Definition pairing_mode : Z := 10.
(** Persistence only: not a key of the wire registry. *)
Definition token : Z := 11.
End trust_ledger.

Definition trust_ledger_max_bytes : nat := 1900.

Definition spoken (b : BoundedString) : bool := negb (bs_empty b).

(** The pairs both forms share; [n] counts them. *)
Definition optional_count (e : PairedEntry) : Z :=
  Z.b2z (spoken (pe_kind e)) + Z.b2z (spoken (pe_name e)) + Z.b2z (spoken (pe_version e))
  + Z.b2z (nonzero (pe_firstSeen e)) + Z.b2z (nonzero (pe_lastSeen e)).

Definition write_entry (e : PairedEntry) : CborWriter -> CborWriter :=
  (key trust_ledger.instance_id ;;; bstrVal (pe_instance_id e))
  ;;; w_if (spoken (pe_kind e)) (key trust_ledger.kind ;;; tstrVal (bs_view (pe_kind e)))
  ;;; w_if (spoken (pe_name e)) (key trust_ledger.name ;;; tstrVal (bs_view (pe_name e)))
  ;;; w_if (spoken (pe_version e)) (key trust_ledger.version ;;; tstrVal (bs_view (pe_version e)))
  ;;; w_if (nonzero (pe_firstSeen e)) (key trust_ledger.first_seen ;;; uintVal (pe_firstSeen e))
  ;;; w_if (nonzero (pe_lastSeen e)) (key trust_ledger.last_seen ;;; uintVal (pe_lastSeen e))
  ;;; (key trust_ledger.role ;;; uintVal (pe_role e))
  ;;; (key trust_ledger.state ;;; uintVal (pe_state e))
  ;;; (key trust_ledger.presentation_mode ;;; uintVal (pe_presentationMode e))
  ;;; (key trust_ledger.pairing_mode ;;; uintVal (pe_pairingMode e)).

Definition encodeEntry (e : PairedEntry) (out : list byte) : list byte * nat :=
  finish ((mapHeader (5 + optional_count e) ;;; write_entry e) (CborWriter_new out)).

Definition write_ledger_entry (e : PairedEntry) : CborWriter -> CborWriter :=
  mapHeader (6 + optional_count e) ;;; (write_entry e ;;; (key trust_ledger.token ;;; bstrVal (pe_token e))).

Definition encodeLedger (m : PairingManager) (out : list byte) : list byte * nat :=
  let es := List.filter pe_used (pm_entries m) in
  finish ((arrayHeader (Z.of_nat (entryCount m)) ;;; w_each write_ledger_entry es) (CborWriter_new out)).

(** ** Decoding *)

Definition set_pe_id (v : list byte) (e : PairedEntry) : PairedEntry :=
  {| pe_instance_id := v; pe_token := pe_token e; pe_role := pe_role e; pe_state := pe_state e;
     pe_presentationMode := pe_presentationMode e; pe_pairingMode := pe_pairingMode e; pe_kind := pe_kind e;
     pe_name := pe_name e; pe_version := pe_version e; pe_firstSeen := pe_firstSeen e; pe_lastSeen := pe_lastSeen e;
     pe_used := pe_used e |}.
Definition set_pe_token (v : list byte) (e : PairedEntry) : PairedEntry :=
  {| pe_instance_id := pe_instance_id e; pe_token := v; pe_role := pe_role e; pe_state := pe_state e;
     pe_presentationMode := pe_presentationMode e; pe_pairingMode := pe_pairingMode e; pe_kind := pe_kind e;
     pe_name := pe_name e; pe_version := pe_version e; pe_firstSeen := pe_firstSeen e; pe_lastSeen := pe_lastSeen e;
     pe_used := pe_used e |}.
Definition set_pe_modes (presentation pairing : Z) (e : PairedEntry) : PairedEntry :=
  {| pe_instance_id := pe_instance_id e; pe_token := pe_token e; pe_role := pe_role e; pe_state := pe_state e;
     pe_presentationMode := presentation; pe_pairingMode := pairing; pe_kind := pe_kind e;
     pe_name := pe_name e; pe_version := pe_version e; pe_firstSeen := pe_firstSeen e; pe_lastSeen := pe_lastSeen e;
     pe_used := pe_used e |}.
Definition set_pe_seen (first last : Z) (e : PairedEntry) : PairedEntry :=
  {| pe_instance_id := pe_instance_id e; pe_token := pe_token e; pe_role := pe_role e; pe_state := pe_state e;
     pe_presentationMode := pe_presentationMode e; pe_pairingMode := pe_pairingMode e; pe_kind := pe_kind e;
     pe_name := pe_name e; pe_version := pe_version e; pe_firstSeen := first; pe_lastSeen := last;
     pe_used := pe_used e |}.
Definition set_pe_labels (kind name : BoundedString) (e : PairedEntry) : PairedEntry :=
  {| pe_instance_id := pe_instance_id e; pe_token := pe_token e; pe_role := pe_role e; pe_state := pe_state e;
     pe_presentationMode := pe_presentationMode e; pe_pairingMode := pe_pairingMode e; pe_kind := kind;
     pe_name := name; pe_version := pe_version e; pe_firstSeen := pe_firstSeen e; pe_lastSeen := pe_lastSeen e;
     pe_used := pe_used e |}.

(** The decoder reports no reason: every refusal is [false]. *)
Definition entry_field (k : Z) (st : PairedEntry * bool) : ItemReader (PairedEntry * bool) :=
  let '(e, gotInstance) := st in
  if k =? trust_ledger.instance_id then
    reading p_bstr (fun v => let? s := sized instance_id_bytes v in ok (set_pe_id s e, true))
  else if k =? trust_ledger.kind then
    reading p_tstr (fun v => let? s := capped kLedgerKindMaxBytes v in
      ok (set_pe_labels (bs_assign kLedgerKindMaxBytes s (pe_kind e)) (pe_name e) e, gotInstance))
  else if k =? trust_ledger.name then
    reading p_tstr (fun v => let? s := capped kLedgerNameMaxBytes v in
      ok (set_pe_labels (pe_kind e) (bs_assign kLedgerNameMaxBytes s (pe_name e)) e, gotInstance))
  else if k =? trust_ledger.version then
    reading p_tstr (fun v => let? s := capped kLedgerVersionMaxBytes v in ok (set_version s e, gotInstance))
  else if k =? trust_ledger.first_seen then
    reading p_uint (fun v => ok (set_pe_seen (u32 v) (pe_lastSeen e) e, gotInstance))
  else if k =? trust_ledger.last_seen then
    reading p_uint (fun v => ok (set_pe_seen (pe_firstSeen e) (u32 v) e, gotInstance))
  else if k =? trust_ledger.role then
    reading p_uint (fun v => let? c := at_most AccessLevel.configure v in ok (set_role (u8 c) e, gotInstance))
  else if k =? trust_ledger.state then
    reading p_uint (fun v => let? c := at_most trust_states.recognized_pending v in ok (set_state (u8 c) e, gotInstance))
  else if k =? trust_ledger.presentation_mode then
    reading p_uint (fun v => let? c := at_most 0xFF v in ok (set_pe_modes (u8 c) (pe_pairingMode e) e, gotInstance))
  else if k =? trust_ledger.pairing_mode then
    reading p_uint (fun v => let? c := at_most 0xFF v in ok (set_pe_modes (pe_presentationMode e) (u8 c) e, gotInstance))
  else if k =? trust_ledger.token then
    reading p_bstr (fun v => let? s := sized token_bytes v in ok (set_pe_token s e, gotInstance))
  else skipping st.

Definition p_entry : ItemReader PairedEntry :=
  reading (fields (fun _ => ok (PairedEntry_new, false)) entry_field)
    (fun '(e, gotInstance) => if negb gotInstance then err Malformed else ok (used_entry e)).

Definition p_ledger : ItemReader (list PairedEntry) :=
  p_list (fun n => if Z.of_nat paired_devices_max <? n then err Malformed else ok []) p_entry.

Definition decodeLedger (inp : list byte) (m : PairingManager) : PairingManager * bool :=
  match decode p_ledger inp with
  | ok es => (touched (es ++ replicate (paired_devices_max - length es) PairedEntry_new) m, true)
  | err _ => (m, false)
  end.

(** ** The items *)

Definition entry_fields (e : PairedEntry) : list (Z * Item) :=
  fld trust_ledger.instance_id (IBstr (pe_instance_id e))
  ++ if_fld trust_ledger.kind (spoken (pe_kind e)) (ITstr (bs_view (pe_kind e)))
  ++ if_fld trust_ledger.name (spoken (pe_name e)) (ITstr (bs_view (pe_name e)))
  ++ if_fld trust_ledger.version (spoken (pe_version e)) (ITstr (bs_view (pe_version e)))
  ++ if_fld trust_ledger.first_seen (nonzero (pe_firstSeen e)) (IUint (pe_firstSeen e))
  ++ if_fld trust_ledger.last_seen (nonzero (pe_lastSeen e)) (IUint (pe_lastSeen e))
  ++ fld trust_ledger.role (IUint (pe_role e))
  ++ fld trust_ledger.state (IUint (pe_state e))
  ++ fld trust_ledger.presentation_mode (IUint (pe_presentationMode e))
  ++ fld trust_ledger.pairing_mode (IUint (pe_pairingMode e)).

Definition entry_item (e : PairedEntry) : Item := IMap (entry_fields e).

Definition ledger_entry_item (e : PairedEntry) : Item :=
  IMap (entry_fields e ++ fld trust_ledger.token (IBstr (pe_token e))).

(** What an entry of a running hub looks like. *)
Definition entry_valid (e : PairedEntry) : Prop :=
  pe_used e = true /\ length (pe_instance_id e) = instance_id_bytes /\ length (pe_token e) = token_bytes
  /\ 0 <= pe_role e <= AccessLevel.configure /\ 0 <= pe_state e <= trust_states.recognized_pending
  /\ in_u 8 (pe_presentationMode e) /\ in_u 8 (pe_pairingMode e)
  /\ bs_ok kLedgerKindMaxBytes (pe_kind e) /\ bs_ok kLedgerNameMaxBytes (pe_name e)
  /\ bs_ok kLedgerVersionMaxBytes (pe_version e) /\ in_u 32 (pe_firstSeen e) /\ in_u 32 (pe_lastSeen e).

Arguments bs_assign : simpl never.
Arguments bs_view : simpl never.
Arguments bs_empty : simpl never.

Lemma view_short N b : bs_ok N b -> (length (bs_view b) <= N)%nat.
Proof. intros H. by apply (bs_ok_view N). Qed.

Ltac entry_facts H :=
  destruct H as (Hu & Hi & Ht & Hr & Hs & Hp & Hq & Hk & Hn & Hv & Hf & Hl);
  unfold AccessLevel.configure, trust_states.recognized_pending in *;
  pose proof (view_short _ _ Hk) as Hk'; pose proof (view_short _ _ Hn) as Hn'; pose proof (view_short _ _ Hv) as Hv';
  change kLedgerKindMaxBytes with 16%nat in *; change kLedgerNameMaxBytes with 16%nat in *;
  change kLedgerVersionMaxBytes with 24%nat in *; change instance_id_bytes with 8%nat in *; change token_bytes with 16%nat in *.

Lemma entry_wf e : entry_valid e -> wf (entry_item e) = true.
Proof. intros H. entry_facts H. unfold entry_item, entry_fields. solve_fields_wf. Qed.

Lemma entry_writes e : entry_valid e -> writes_item (mapHeader (5 + optional_count e) ;;; write_entry e) (entry_item e).
Proof. intros H. entry_facts H. unfold entry_item, entry_fields, write_entry, optional_count. solve_writes. Qed.

Lemma entry_nest e : (nest (entry_item e) <= 1)%nat.
Proof. apply nest_map. unfold entry_fields. segments; leaf. Qed.

Lemma assign_view N b : Z.of_nat N < 256 -> bs_ok N b -> bs_assign N (bs_view b) (BoundedString_new N) = b.
Proof.
  intros HN Hb. rewrite bs_assign_of; [|done|by rewrite (bs_ok_data N _ (bs_ok_new N))]. by apply bs_ok_view.
Qed.

Lemma silent_new N b : bs_ok N b -> spoken b = false -> b = BoundedString_new N.
Proof.
  intros (s & Hs & ->). unfold spoken, bs_empty. cbn [bs_len]. intros Hb%negb_false_iff%Z.eqb_eq.
  destruct s; [|done]. unfold BoundedString_new. cbn. by rewrite Nat.sub_0_r.
Qed.

Ltac absent_label := match goal with
  | Hb : bs_ok ?N ?b, E : spoken ?b = false |- _ => rewrite (silent_new N b Hb E); reflexivity
  end.

Lemma ledger_entry_nested :
  Nested entry_valid ledger_entry_item write_ledger_entry p_entry (fun e => e) 1.
Proof.
  split; unfold ledger_entry_item, entry_fields.
  - intros e H. entry_facts H. unfold write_ledger_entry, write_entry, optional_count. solve_writes.
  - intros e H. entry_facts H. solve_fields_wf.
  - intros e. apply nest_map. segments; leaf.
  - intros [|b] e H Hb; [lia|]. entry_facts H. unfold p_entry. cbn [reading meaning]. rewrite meaning_fields. cbn [result_bind].
    rewrite <- !app_assoc. seg_fld.
    seg_if_by (fun x => set_pe_labels (bs_assign 16 (bs_view (pe_kind e)) (pe_kind x)) (pe_name x) x) fail
      ltac:(idtac; absent_label).
    seg_if_by (fun x => set_pe_labels (pe_kind x) (bs_assign 16 (bs_view (pe_name e)) (pe_name x)) x) fail
      ltac:(idtac; absent_label).
    seg_if_by (set_version (bs_view (pe_version e))) fail ltac:(idtac; absent_label).
    seg_if_by (fun x => set_pe_seen (pe_firstSeen e) (pe_lastSeen x) x) fail ltac:(idtac; absent_zero).
    seg_if_by (fun x => set_pe_seen (pe_firstSeen x) (pe_lastSeen e) x) fail ltac:(idtac; absent_zero).
    do 5 (seg_fld_by ltac:(progress unfold AccessLevel.configure, trust_states.recognized_pending)).
    destruct e; cbn in *. f_equal. unfold used_entry. cbn. subst.
    f_equal; by apply assign_view.
Qed.

(** The item served to a store reader: the canonical encoding of the entry without its token, which the
    bytes do not depend on. *)
Lemma encodeEntry_exact e : entry_valid e ->
  encodes (encodeEntry e) (entry_item e) /\ forall token out, encodeEntry (set_pe_token token e) out = encodeEntry e out.
Proof.
  intros H. split; [|done]. intros out. apply (encodes_item _ _ (entry_writes e H)).
  pose proof (entry_nest e). unfold kMaxDepth. lia.
Qed.

(** ** The size of the blob *)

Definition fields_size (kvs : list (Z * Item)) : nat := length (concat (map encode_pair kvs)).

Lemma fields_size_app a b : fields_size (a ++ b) = (fields_size a + fields_size b)%nat.
Proof. unfold fields_size. by rewrite map_app, concat_app, length_app. Qed.

Lemma size_if_fld k c i n : k <= 23 -> (length (encode i) <= n)%nat -> (fields_size (if_fld k c i) <= S n)%nat.
Proof.
  intros Hk Hi. unfold fields_size. destruct c; cbn; [|lia]. rewrite app_nil_r. unfold encode_pair. cbn.
  rewrite length_app, head_length_23 by done. lia.
Qed.

Lemma size_fld k i n : k <= 23 -> (length (encode i) <= n)%nat -> (fields_size (fld k i) <= S n)%nat.
Proof. apply (size_if_fld k true). Qed.

Lemma size_small v : v <= 23 -> (length (encode (IUint v)) <= 1)%nat.
Proof. intros. cbn [encode]. by rewrite head_length_23. Qed.
Lemma size_u8 v : in_u 8 v -> (length (encode (IUint v)) <= 2)%nat.
Proof. intros Hv. apply head_length_255. unfold in_u in Hv. lia. Qed.
Lemma size_u32 v : in_u 32 v -> (length (encode (IUint v)) <= 5)%nat.
Proof. intros Hv. apply head_length_u32. unfold in_u in Hv. lia. Qed.
Lemma size_bstr s : (length s <= 23)%nat -> (length (encode (IBstr s)) <= 1 + length s)%nat.
Proof. intros Hs. cbn [encode]. rewrite length_app, head_length_23 by (unfold len; lia). done. Qed.
Lemma size_tstr s : (length s <= 255)%nat -> (length (encode (ITstr s)) <= 2 + length s)%nat.
Proof. intros Hs. cbn [encode]. rewrite length_app. pose proof (head_length_255 3 (len s) ltac:(unfold len; lia)). lia. Qed.

Definition kEntryMaxBytes : nat := 116.

Lemma entry_size e : entry_valid e -> (length (encode (ledger_entry_item e)) <= kEntryMaxBytes)%nat.
Proof.
  intros H. entry_facts H. unfold ledger_entry_item. rewrite encode_map, length_app.
  assert (Hlen : len (entry_fields e ++ fld trust_ledger.token (IBstr (pe_token e))) <= 23) by (unfold entry_fields; count_fields).
  rewrite head_length_23 by done. fold (fields_size (entry_fields e ++ fld trust_ledger.token (IBstr (pe_token e)))).
  unfold entry_fields. rewrite !fields_size_app.
  pose proof (size_fld trust_ledger.instance_id (IBstr (pe_instance_id e)) 9 ltac:(done) ltac:(pose proof (size_bstr (pe_instance_id e)); lia)).
  pose proof (size_if_fld trust_ledger.kind (spoken (pe_kind e)) (ITstr (bs_view (pe_kind e))) 18 ltac:(done) ltac:(pose proof (size_tstr (bs_view (pe_kind e))); lia)).
  pose proof (size_if_fld trust_ledger.name (spoken (pe_name e)) (ITstr (bs_view (pe_name e))) 18 ltac:(done) ltac:(pose proof (size_tstr (bs_view (pe_name e))); lia)).
  pose proof (size_if_fld trust_ledger.version (spoken (pe_version e)) (ITstr (bs_view (pe_version e))) 26 ltac:(done) ltac:(pose proof (size_tstr (bs_view (pe_version e))); lia)).
  pose proof (size_if_fld trust_ledger.first_seen (nonzero (pe_firstSeen e)) (IUint (pe_firstSeen e)) 5 ltac:(done) (size_u32 _ Hf)).
  pose proof (size_if_fld trust_ledger.last_seen (nonzero (pe_lastSeen e)) (IUint (pe_lastSeen e)) 5 ltac:(done) (size_u32 _ Hl)).
  pose proof (size_fld trust_ledger.role (IUint (pe_role e)) 1 ltac:(done) (size_small (pe_role e) ltac:(lia))).
  pose proof (size_fld trust_ledger.state (IUint (pe_state e)) 1 ltac:(done) (size_small (pe_state e) ltac:(lia))).
  pose proof (size_fld trust_ledger.presentation_mode (IUint (pe_presentationMode e)) 2 ltac:(done) (size_u8 _ Hp)).
  pose proof (size_fld trust_ledger.pairing_mode (IUint (pe_pairingMode e)) 2 ltac:(done) (size_u8 _ Hq)).
  pose proof (size_fld trust_ledger.token (IBstr (pe_token e)) 17 ltac:(done) ltac:(pose proof (size_bstr (pe_token e)); lia)).
  unfold kEntryMaxBytes. lia.
Qed.

Lemma ledger_size es :
  Forall entry_valid es -> (length es <= paired_devices_max)%nat ->
  (length (encode (IArr (map ledger_entry_item es))) <= trust_ledger_max_bytes)%nat.
Proof.
  intros Hv Hl. rewrite encode_arr, length_app, head_length_23 by (unfold len; rewrite length_map; unfold paired_devices_max in Hl; lia).
  assert (Hc : (length (concat (map encode (map ledger_entry_item es))) <= kEntryMaxBytes * length es)%nat).
  { clear Hl. induction Hv as [|e es He _ IH]; [done|]. cbn [map concat length]. rewrite length_app.
    pose proof (entry_size e He). lia. }
  unfold paired_devices_max, kEntryMaxBytes, trust_ledger_max_bytes in *. lia.
Qed.

(** ** Every reachable ledger is valid *)

Definition slot_valid (e : PairedEntry) : Prop := pe_used e = true -> entry_valid e.

Definition ledger_valid (m : PairingManager) : Prop :=
  length (pm_entries m) = paired_devices_max /\ Forall slot_valid (pm_entries m) /\ in_u 32 (pm_wallSeconds m).

(** The argument types of the operations. *)
Definition op_valid (op : PairOp) : Prop :=
  match op with
  | OpGrant _ role mode => 0 <= role <= AccessLevel.configure /\ in_u 8 mode
  | OpPairReq _ _ _ _ role => 0 <= role <= AccessLevel.configure
  | OpHello _ _ _ _ _ mode => in_u 8 mode
  | OpPolicy wall _ _ _ => in_u 32 wall
  | _ => True
  end.

Lemma new_valid : ledger_valid PairingManager_new.
Proof. split_and!; [done|by apply Forall_replicate|done..]. Qed.

Lemma insert_valid i e m es :
  Forall slot_valid (pm_entries m) -> slot_valid e -> es = <[i := e]> (pm_entries m) ->
  length (pm_entries m) = paired_devices_max -> length es = paired_devices_max /\ Forall slot_valid es.
Proof. intros Hf He -> Hl. split; [by rewrite length_insert|by apply Forall_insert]. Qed.

Lemma valid_lookup m i e : ledger_valid m -> pm_entries m !! i = Some e -> slot_valid e.
Proof. intros (_ & Hf & _) Hi. by eapply Forall_lookup_1. Qed.

Lemma device_used id m i : findByInstance id m = Some i -> exists e, pm_entries m !! i = Some e /\ pe_used e = true.
Proof.
  unfold findByInstance. destruct (negb _); [done|]. intros (l & e & l' & -> & <- & [Hu _]%andb_prop & _)%first_index_Some.
  exists e. by rewrite lookup_middle.
Qed.

Section Valid.
Context `{ICryptoLaws} {R : Type} `{IRandomLaws R}.

Lemma grant_valid id role mode g out m :
  ledger_valid m -> 0 <= role <= AccessLevel.configure -> in_u 8 mode ->
  ledger_valid (fst (fst (fst (grant id role mode g out m)))).
Proof.
  intros Hm Hr Hmode. unfold grant. destruct (Nat.eqb_spec (length id) instance_id_bytes) as [Hid|]; [|done]. cbn [negb].
  destruct (grant_slot id m) as [[i e]|] eqn:Hslot; [|done]. pose proof (fill_length token_bytes g) as Ht.
  destruct (rng_fill token_bytes g) as [tok g']. cbn in Ht |- *.
  assert (He : slot_valid (granted tok role mode (pm_wallSeconds m) e)).
  { intros _. unfold grant_slot in Hslot. destruct (findByInstance id m) as [j|] eqn:Hf.
    - destruct (device_used id m j Hf) as (e0 & He0 & Hu). rewrite He0 in Hslot. cbn in Hslot. injection Hslot as <- <-.
      pose proof (valid_lookup m j e0 Hm He0 Hu) as He. destruct Hm as (_ & _ & Hwall).
      unfold entry_valid in *. cbn. unfold trust_states.trusted, trust_states.recognized_pending. intuition lia.
    - destruct (first_index _ _) as [j|]; [|done]. cbn in Hslot. injection Hslot as <- <-. destruct Hm as (_ & _ & Hwall).
      unfold entry_valid. cbn. split_and!; try done; try apply bs_ok_new; try lia. }
  destruct Hm as (Hl & Hf & Hw). destruct (insert_valid i _ m _ Hf He eq_refl Hl). done.
Qed.

Lemma observed_valid kind name ver hasVer mode wall keep e :
  entry_valid e -> in_u 8 mode -> in_u 32 wall -> entry_valid (observed kind name ver hasVer mode wall keep e).
Proof.
  intros He Hmode Hwall. assert (Hassign : forall N s b, Z.of_nat N < 256 -> bs_ok N b -> bs_ok N (bs_assign N s b)).
  { intros N s b HN Hb. rewrite bs_assign_of; [apply bs_ok_of|done|by apply bs_ok_data]. }
  unfold entry_valid in *. destruct He as (Hu & Hi & Ht & Hr & Hs & Hp & Hq & Hk & Hn & Hv & Hf & Hl).
  unfold observed. destruct (tripwire _ _ _ _); cbn; split_and!; try done; try lia; by apply Hassign.
Qed.

Lemma step_valid op s : op_valid op -> ledger_valid (fst s) -> ledger_valid (fst (pair_step op s)).
Proof.
  destruct s as [m g]. cbn [fst]. intros Hop Hm. pose proof Hm as (Hl & Hf & Hw).
  destruct op as [id role mode|id proof nonce now role|pin now| |now| |id| | |id kind name ver hasVer mode|wall role keep knock];
    cbn [pair_step op_valid] in *; try exact Hm.
  - destruct Hop as [Hr Hmode]. pose proof (grant_valid id role mode g [] m Hm Hr Hmode).
    by destruct (grant id role mode g [] m) as [[[m' g'] out'] b].
  - unfold handlePairReq. destruct (windowOpen now m); [|done]. cbn [negb].
    destruct (length id =? instance_id_bytes)%nat; [|done]. cbn [negb].
    destruct (ic_constantTimeEqual _ _); [|exact Hm]. cbn [negb].
    pose proof (grant_valid id role pairing_modes.pin_proof g [] m Hm Hop ltac:(done)) as Hg.
    by destruct (grant id role pairing_modes.pin_proof g [] m) as [[[m' g'] out'] []].
  - unfold revoke. destruct (findByInstance id m) as [i|]; [|done]. cbn.
    by destruct (insert_valid i PairedEntry_new m _ Hf ltac:(done) eq_refl Hl).
  - unfold demoteAllToWatch. destruct (_ =? 0)%nat; [done|]. cbn. split_and!; [by cbn; rewrite length_map| |done].
    cbn. apply Forall_map. eapply Forall_impl; [exact Hf|]. intros e He. unfold compose. destruct (above_watch e) eqn:Ea; [|done].
    intros Hu. specialize (He Hu). unfold entry_valid in *. cbn. unfold AccessLevel.watch, AccessLevel.configure. intuition lia.
  - unfold dropOldestWatch. destruct (oldestWatch _) as [i|]; [|done]. destruct (pm_entries m !! i); [|done]. cbn.
    by destruct (insert_valid i PairedEntry_new m _ Hf ltac:(done) eq_refl Hl).
  - unfold observeHello. destruct (findByInstance id m) as [i|] eqn:Hi; [|done].
    destruct (device_used id m i Hi) as (e & He & Hu). rewrite He. cbn [fst].
    assert (Hv : slot_valid (observed kind name ver hasVer mode (pm_wallSeconds m) (pm_autoKeepMax m) e)).
    { intros _. apply observed_valid; [by apply (valid_lookup m i)|done|done]. }
    destruct (insert_valid i _ m _ Hf Hv eq_refl Hl). by destruct (tripwire _ _ _ _).
  - by split_and!.
Qed.

Lemma steps_valid g0 ops : Forall op_valid ops -> ledger_valid (fst (pair_steps g0 ops)).
Proof.
  unfold pair_steps. assert (Hm : ledger_valid (fst (PairingManager_new, g0))) by exact new_valid.
  revert Hm. generalize (PairingManager_new, g0) as s. intros s Hm Hops. revert s Hm.
  induction Hops as [|op ops Hop _ IH]; intros s Hm; [done|]. cbn [foldl]. by apply IH, step_valid.
Qed.

End Valid.

(** ** Property *)

Lemma entries_roster es (n : nat) :
  roster (List.filter pe_used es ++ replicate n PairedEntry_new) = roster es.
Proof.
  unfold roster, slot_map, occupied. do 2 f_equal. rewrite List.filter_app.
  replace (List.filter pe_used (replicate n PairedEntry_new)) with (@nil PairedEntry) by (induction n; done).
  rewrite app_nil_r. induction es as [|e es IH]; [done|]. cbn. destruct (pe_used e) eqn:E; [|done]. cbn. by rewrite E, IH.
Qed.

(** C36. The ledger survives a restart.  After any history of operations the whole ledger, tokens included,
    fits the one flash page it is written to; the blob decodes, into any manager and whatever follows it in
    the page, to the same map from devices to entries; an encoder given less room than it needs writes
    nothing out of its span and reports 0; and a blob that does not decode leaves the ledger as it was. *)
Theorem ledger_roundtrip `{ICryptoLaws} {R : Type} `{IRandomLaws R}
  (g0 : R) (ops : list PairOp) (out rest : list byte) (m' : PairingManager) (Hops : Forall op_valid ops) :
  let m := fst (pair_steps g0 ops) in
  let '(o, n) := encodeLedger m out in
  length o = length out
  /\ (trust_ledger_max_bytes <= length out -> 0 < n)%nat /\ (n <= trust_ledger_max_bytes)%nat
  /\ ((0 < n)%nat ->
      let '(r, success) := decodeLedger (take n o ++ rest) m' in
      success = true /\ ledger r = ledger m /\ length (pm_entries r) = paired_devices_max)
  /\ (forall blob, snd (decodeLedger blob m') = false -> fst (decodeLedger blob m') = m').
Proof.
  cbv zeta. pose proof (steps_valid g0 ops Hops) as (Hl & Hf & _). set (m := fst (pair_steps g0 ops)) in *. clearbody m.
  set (es := List.filter pe_used (pm_entries m)).
  assert (Hes : Forall entry_valid es).
  { apply Forall_forall. intros e He. apply list_elem_of_In, List.filter_In in He as [He Hu].
    apply list_elem_of_In in He. rewrite Forall_forall in Hf. by apply (Hf e). }
  assert (Hn : (length es <= paired_devices_max)%nat) by (rewrite <- Hl; apply List.filter_length_le).
  destruct (Nested_list entry_valid ledger_entry_item write_ledger_entry p_entry (fun e => e) 1
    (fun n => if Z.of_nat paired_devices_max <? n then err Malformed else ok [])
    (fun c => 0 <= c <= 8) ledger_entry_nested) as [Hw Hwf _ Hd].
  { intros k Hk. destruct (Z.ltb_spec (Z.of_nat paired_devices_max) k); [unfold paired_devices_max in *; lia|done]. }
  { intros k Hk. apply in_ub_spec. unfold in_u. lia. }
  assert (Hok : Forall entry_valid es /\ 0 <= len es <= 8) by (split; [done|unfold len, paired_devices_max in *; lia]).
  specialize (Hw es Hok). specialize (Hwf es Hok).
  assert (Henc : encodes (encodeLedger m) (IArr (map ledger_entry_item es))).
  { intros o. apply (encodes_item _ _ Hw). apply nest_arr, Forall_forall. intros i Hi.
    apply list_elem_of_In, in_map_iff in Hi as (e & <- & _). apply le_S, le_S. apply (nested_nest _ _ _ _ _ _ ledger_entry_nested). }
  pose proof (ledger_size es Hes Hn) as Hsize. specialize (Henc out).
  set (bs := encode (IArr (map ledger_entry_item es))) in *.
  assert (Hpos : (0 < length bs)%nat) by apply encode_length_pos.
  assert (Hfail : forall blob, snd (decodeLedger blob m') = false -> fst (decodeLedger blob m') = m').
  { intros blob. unfold decodeLedger. by destruct (decode p_ledger blob). }
  destruct (Nat.leb_spec (length bs) (length out)) as [Hle|Hlt].
  - rewrite Henc. split_and!; [rewrite length_app, length_drop; lia|lia|done| |exact Hfail].
    intros _. rewrite take_app_length. unfold decodeLedger, bs. rewrite decode_item by done.
    unfold p_ledger. rewrite (Hd kMaxDepth es Hok ltac:(unfold kMaxDepth; lia)), List.map_id. split_and!; [done| |].
    + unfold ledger. cbn. apply entries_roster.
    + change (length (es ++ replicate (paired_devices_max - length es) PairedEntry_new) = paired_devices_max).
      rewrite length_app, length_replicate. lia.
  - destruct (encodeLedger m out) as [o n]. cbn in Henc. destruct Henc as [-> Ho].
    split_and!; [done|lia|unfold trust_ledger_max_bytes; lia|lia|exact Hfail].
Qed.

Lemma ledger_roundtrip_witness :
  Forall op_valid [OpGrant sample_id AccessLevel.control pairing_modes.knock_approve]
  /\ let m := fst (pair_steps sample_rng [OpGrant sample_id AccessLevel.control pairing_modes.knock_approve]) in
     let '(o, n) := encodeLedger m (replicate 1900 Byte.x00) in
     length o = 1900%nat /\ (0 < n)%nat.
Proof.
  assert (Hops : Forall op_valid [OpGrant sample_id AccessLevel.control pairing_modes.knock_approve])
    by (repeat constructor; done).
  split; [exact Hops|].
  pose proof (ledger_roundtrip (c := SoftwareCrypto) sample_rng [OpGrant sample_id AccessLevel.control pairing_modes.knock_approve]
    (replicate 1900 Byte.x00) [] PairingManager_new Hops) as Hr.
  cbv zeta in *. destruct (encodeLedger _ _) as [o n]. destruct Hr as (Ho & Hn & _). split; [rewrite Ho; apply length_replicate|].
  apply Hn. rewrite length_replicate. reflexivity.
Defined.
