(* ===== verification/Shedding.v ===== *)
(** * Shedding: what happens to a due push on a congested link (session/shedding.hpp), SPEC 10.4

    Priority, channel class and congestion level are the [uint8_t] values the code switches on. *)

From S2P Require Import Prelude.

Module Priority.
Definition background : Z := 0.
Definition normal : Z := 1.
Definition elevated : Z := 2.
Definition critical : Z := 3.
End Priority.

Module ChannelClass.
Definition STATE : Z := 0.
Definition STREAM : Z := 1.
Definition INTENT : Z := 2.
Definition EVENT : Z := 3.
Definition STORE : Z := 4.
End ChannelClass.

Inductive ShedDecision := Send | Decimate2x | Decimate4x | ConflateHard | Drop.

#[export] Instance ShedDecision_eq_dec : EqDecision ShedDecision.
Proof. solve_decision. Defined.

Definition shedDecision (priority cls congestionLevel : Z) (segmentClass : bool) : ShedDecision :=
  if congestionLevel =? 0 then Send
  else if priority =? Priority.critical then Send
  else if segmentClass then
    if congestionLevel =? 1 then Send
    else if (priority =? Priority.background) || (priority =? Priority.normal) then Drop else Send
  else if congestionLevel =? 1 then
    if priority =? Priority.background then
      if cls =? ChannelClass.STREAM then Decimate4x
      else if cls =? ChannelClass.STATE then ConflateHard
      else Send
    else if priority =? Priority.normal then
      if cls =? ChannelClass.STREAM then Decimate2x else Send
    else Send
  else if priority =? Priority.background then Drop
  else if priority =? Priority.normal then Decimate4x
  else if priority =? Priority.elevated then Decimate2x
  else Send.

(** How much a decision takes away. *)
Definition severity (d : ShedDecision) : Z :=
  match d with Send => 0 | Decimate2x => 1 | Decimate4x => 2 | ConflateHard => 3 | Drop => 4 end.

Ltac shed_cases :=
  unfold shedDecision;
  repeat match goal with
  | |- context [?a =? ?b] => destruct (Z.eqb_spec a b); subst
  | |- context [if ?b then _ else _] => is_var b; destruct b
  end; cbn [severity orb] in *; try congruence; try lia; try tauto.

(** The never-shed set and the shape of the table: at a clear link and at critical priority every
    push is sent; a segment stream is sent or dropped whole, never thinned, and is not touched by mild
    congestion; the class of a channel matters only under mild congestion; and a more congested link or a
    less important subscription never sheds less. *)
Theorem shed_table (priority cls level : Z) (segment : bool) :
  (level = 0 \/ priority = Priority.critical -> shedDecision priority cls level segment = Send)
  /\ (shedDecision priority cls level true = Send
      \/ shedDecision priority cls level true = Drop /\ 1 <> level /\ priority < Priority.elevated)
  /\ (forall cls', level <> 1 -> shedDecision priority cls' level segment = shedDecision priority cls level segment)
  /\ (forall level', 0 <= level <= level' ->
        severity (shedDecision priority cls level segment) <= severity (shedDecision priority cls level' segment))
  /\ (forall priority', 0 <= priority <= priority' ->
        severity (shedDecision priority' cls level segment) <= severity (shedDecision priority cls level segment)).
Proof.
  unfold Priority.critical, Priority.elevated. split_and!.
  - intros [->| ->]; shed_cases.
  - unfold shedDecision, Priority.critical, Priority.background, Priority.normal.
    repeat match goal with |- context [?a =? ?b] => destruct (Z.eqb_spec a b); subst end; cbn [orb]; auto;
      right; (split; [done|split; [congruence|lia]]).
  - intros cls' Hl. shed_cases.
  - intros level' Hl. unfold shedDecision, Priority.critical, Priority.background, Priority.normal,
      Priority.elevated, ChannelClass.STREAM, ChannelClass.STATE. shed_cases.
  - intros priority' Hp. unfold shedDecision, Priority.critical, Priority.background, Priority.normal,
      Priority.elevated, ChannelClass.STREAM, ChannelClass.STATE. shed_cases.
Qed.
