(* ===== verification/Catalog.v ===== *)
(** * Catalog: the self-describing channel list (channel/catalog.hpp), SPEC 8

    A catalog is six flat arrays with a used count each; entries and fields refer to slices of the pools
    by offset and count.  The model keeps the used prefix of each array (the code never reads past it).
    [catalog_typed]: along every authoring history each reference points inside its pool and no two
    entries share fields.  [authoring_refines]: what the accessors read back is what was authored, or the
    overflow flag says otherwise. *)

From S2P Require Import Prelude Tables Safety Shedding.
From stdpp Require Import sorting.
#[local] Open Scope Z_scope.

Inductive SettingDefault :=
  | NoDefault | DInt (i : Z) | DFloat (bits : Z) | DBool (b : bool) | DTstr (s : list byte).

Definition sd_has (d : SettingDefault) : bool := match d with NoDefault => false | _ => true end.

Record LabelRef := mkLabelRef { lr_offset : Z; lr_count : nat }.
Definition kLabelNone : Z := 65535.
Definition kMaxCount : nat := 255.
Definition LabelRef_new : LabelRef := mkLabelRef kLabelNone 0.

(** [None] is [kNoSafeSlot], which no pool reaches. *)
Abbreviation SafeSlot := (option nat).
Definition kNoSafeSlot : SafeSlot := None.

Inductive PackedFieldType := u8_t | i8_t | bitfield8 | u16_t | i16_t | u32_t | i32_t | f32_t | str16 | str32 | str64.

(** The self-description flair every field carries and no operation reads. *)
Record Flair := mkFlair {
  fl_group : list byte; fl_desc : list byte; fl_role : list byte; fl_step : option Z; fl_flags : Z;
  fl_rank : option Z; fl_aspect : option Z; fl_scope : option Z; fl_provenance : option Z; fl_unitId : option Z }.

Record LayoutField := mkLayoutField {
  lf_name : list byte; lf_type : PackedFieldType; lf_unit : list byte; lf_scale : Z; lf_min : option Z; lf_max : option Z;
  lf_bits : LabelRef; lf_options : LabelRef; lf_dflt : SettingDefault; lf_settingKey : option Z; lf_flair : Flair;
  lf_safeSlot : SafeSlot }.

Definition wireSize (f : LayoutField) : nat :=
  match lf_type f with
  | u8_t | i8_t | bitfield8 => 1
  | u16_t | i16_t => 2
  | u32_t | i32_t | f32_t => 4
  | str16 => 16
  | str32 => 32
  | str64 => 64
  end.

Inductive CborFieldType := uint_ft | int_ft | f32_ft | bool_ft | tstr_ft | bstr_ft.

Record SchemaField := mkSchemaField {
  sf_key : Z; sf_name : list byte; sf_type : CborFieldType; sf_unit : list byte; sf_min : option Z; sf_max : option Z;
  sf_dflt : SettingDefault; sf_options : LabelRef; sf_access : option Z; sf_hasOptionAccess : bool;
  sf_destructiveOptions : Z; sf_flair : Flair; sf_safeSlot : SafeSlot }.

Record StoreDescriptor := mkStoreDescriptor {
  st_storeId : Z; st_kind : list byte; st_capacity : Z; st_perItemMax : Z; st_nameMax : Z }.

Inductive Direction := h2c | c2h.
Inductive FieldForm := Layout | Schema | Store.

#[export] Instance Direction_eq_dec : EqDecision Direction.
Proof. solve_decision. Defined.
#[export] Instance FieldForm_eq_dec : EqDecision FieldForm.
Proof. solve_decision. Defined.

Definition kMaxFields : nat := 64.

Record CatalogEntry := mkCatalogEntry {
  ce_id : Z; ce_name : list byte; ce_cls : Z; ce_dir : Direction; ce_access : Z; ce_maxRateHz : Z; ce_defaultPriority : Z;
  ce_fieldCount : nat; ce_fieldOffset : nat; ce_category : option Z; ce_categoryLabel : list byte;
  ce_replayDepth : option Z; ce_settingChannel : option Z; ce_streamKind : Z; ce_rank : option Z;
  ce_storeId : option Z; ce_role : list byte; ce_eventKinds : LabelRef; ce_modTarget : option (Z * Z) }.

(** The [switch] over the five classes of [ChannelClass]. *)
Definition form (e : CatalogEntry) : FieldForm :=
  if (ce_cls e =? ChannelClass.INTENT) || (ce_cls e =? ChannelClass.EVENT) then Schema
  else if ce_cls e =? ChannelClass.STORE then Store else Layout.

Definition usesLayout (e : CatalogEntry) : bool := bool_decide (form e = Layout).
Definition usesSchema (e : CatalogEntry) : bool := bool_decide (form e = Schema).
Definition usesStore (e : CatalogEntry) : bool := bool_decide (form e = Store).

Record Mark := mkMark {
  mk_count : nat; mk_layoutUsed : nat; mk_schemaUsed : nat; mk_labelUsed : nat; mk_storeUsed : nat; mk_safeUsed : nat;
  mk_overflow : bool }.

(** [userSpaceMark] is [None] while [userSpaceMarked] is false; a label carries the access level of the
    parallel array. *)
Record Catalog := mkCatalog {
  entries : list CatalogEntry; layoutPool : list LayoutField; schemaPool : list SchemaField;
  storePool : list StoreDescriptor; labelPool : list (list byte * Z); safePool : list SettingDefault;
  overflow : bool; userSpaceMark : option Mark }.

#[export] Instance LayoutField_fields : Fields LayoutField := fun r =>
  mkLayoutField (lf_name r) (lf_type r) (lf_unit r) (lf_scale r) (lf_min r) (lf_max r) (lf_bits r) (lf_options r)
    (lf_dflt r) (lf_settingKey r) (lf_flair r) (lf_safeSlot r).
#[export] Instance lf_bits_field : Field lf_bits := ltac:(field_setter).
#[export] Instance lf_options_field : Field lf_options := ltac:(field_setter).
#[export] Instance lf_safeSlot_field : Field lf_safeSlot := ltac:(field_setter).

#[export] Instance SchemaField_fields : Fields SchemaField := fun r =>
  mkSchemaField (sf_key r) (sf_name r) (sf_type r) (sf_unit r) (sf_min r) (sf_max r) (sf_dflt r) (sf_options r)
    (sf_access r) (sf_hasOptionAccess r) (sf_destructiveOptions r) (sf_flair r) (sf_safeSlot r).
#[export] Instance sf_options_field : Field sf_options := ltac:(field_setter).
#[export] Instance sf_hasOptionAccess_field : Field sf_hasOptionAccess := ltac:(field_setter).
#[export] Instance sf_safeSlot_field : Field sf_safeSlot := ltac:(field_setter).

#[export] Instance CatalogEntry_fields : Fields CatalogEntry := fun r =>
  mkCatalogEntry (ce_id r) (ce_name r) (ce_cls r) (ce_dir r) (ce_access r) (ce_maxRateHz r) (ce_defaultPriority r)
    (ce_fieldCount r) (ce_fieldOffset r) (ce_category r) (ce_categoryLabel r) (ce_replayDepth r) (ce_settingChannel r)
    (ce_streamKind r) (ce_rank r) (ce_storeId r) (ce_role r) (ce_eventKinds r) (ce_modTarget r).
#[export] Instance ce_fieldCount_field : Field ce_fieldCount := ltac:(field_setter).
#[export] Instance ce_fieldOffset_field : Field ce_fieldOffset := ltac:(field_setter).
#[export] Instance ce_eventKinds_field : Field ce_eventKinds := ltac:(field_setter).

#[export] Instance Catalog_fields : Fields Catalog := fun r =>
  mkCatalog (entries r) (layoutPool r) (schemaPool r) (storePool r) (labelPool r) (safePool r) (overflow r) (userSpaceMark r).
#[export] Instance entries_field : Field entries := ltac:(field_setter).
#[export] Instance layoutPool_field : Field layoutPool := ltac:(field_setter).
#[export] Instance schemaPool_field : Field schemaPool := ltac:(field_setter).
#[export] Instance storePool_field : Field storePool := ltac:(field_setter).
#[export] Instance labelPool_field : Field labelPool := ltac:(field_setter).
#[export] Instance safePool_field : Field safePool := ltac:(field_setter).
#[export] Instance overflow_field : Field overflow := ltac:(field_setter).
#[export] Instance userSpaceMark_field : Field userSpaceMark := ltac:(field_setter).

(** ** Operations: a catalog, and what the call returns ([None]: false or null) *)

Definition Author (A : Type) : Type := Catalog -> Catalog * option A.
#[export] Instance Author_ret : MRet Author := fun A x c => (c, Some x).
#[export] Instance Author_bind : MBind Author := fun A B k m c =>
  match m c with (c, Some x) => k x c | (c, None) => (c, None) end.

Definition get_catalog : Author Catalog := fun c => (c, Some c).
Definition modify (f : Catalog -> Catalog) : Author () := fun c => (f c, Some ()).
Definition give_none {A} : Author A := fun c => (c, None).
Definition overflows {A} : Author A := fun c => (c <| overflow := true |>, None).

(** [if (p) { overflow = true; return false; }] *)
Definition overflow_if (p : bool) : Author () := if p then overflows else mret ().

Fixpoint each_author {A} (f : A -> Author ()) (l : list A) : Author () :=
  match l with [] => mret () | x :: l => _ ← f x; each_author f l end.

Definition on_last (f : CatalogEntry -> CatalogEntry) (c : Catalog) : Catalog :=
  c <| entries ::= alter f (length (entries c) - 1)%nat |>.

Section Capacity.
Context (Entries LayoutFields SchemaFields Labels Stores SafeSlots : nat).

Definition Catalog_new : Catalog := mkCatalog [] [] [] [] [] [] false None.

Definition clear (c : Catalog) : Catalog := Catalog_new.

Definition markUserSpace (c : Catalog) : Catalog :=
  c <| userSpaceMark := Some (mkMark (length (entries c)) (length (layoutPool c)) (length (schemaPool c))
                                (length (labelPool c)) (length (storePool c)) (length (safePool c)) (overflow c)) |>.

(** The used prefixes at a mark. *)
Definition cut (m : Mark) (c : Catalog) : Catalog :=
  mkCatalog (take (mk_count m) (entries c)) (take (mk_layoutUsed m) (layoutPool c)) (take (mk_schemaUsed m) (schemaPool c))
    (take (mk_storeUsed m) (storePool c)) (take (mk_labelUsed m) (labelPool c)) (take (mk_safeUsed m) (safePool c))
    (mk_overflow m) (Some m).

Definition clearUserSpace (c : Catalog) : Catalog :=
  match userSpaceMark c with None => c | Some m => cut m c end.

Definition userSpaceStart (c : Catalog) : nat :=
  match userSpaceMark c with Some m => mk_count m | None => length (entries c) end.

(** *** The pools *)

Definition poolAddLabel (s : list byte) (a : Z) : Author () :=
  c ← get_catalog;
  _ ← overflow_if (Labels <=? length (labelPool c))%nat;
  modify (fun c => c <| labelPool ::= fun l => l ++ [(s, a)] |>).

Definition poolAddSafe (v : SettingDefault) : Author nat :=
  c ← get_catalog;
  _ ← overflow_if (SafeSlots <=? length (safePool c))%nat;
  _ ← modify (fun c => c <| safePool ::= fun l => l ++ [v] |>);
  mret (length (safePool c)).

Definition poolAddLayoutField (f : LayoutField) : Author () :=
  c ← get_catalog;
  _ ← overflow_if (LayoutFields <=? length (layoutPool c))%nat;
  modify (fun c => c <| layoutPool ::= fun l => l ++ [f] |>).

Definition poolAddSchemaField (f : SchemaField) : Author () :=
  c ← get_catalog;
  _ ← overflow_if (SchemaFields <=? length (schemaPool c))%nat;
  modify (fun c => c <| schemaPool ::= fun l => l ++ [f] |>).

Definition poolAddStore (d : StoreDescriptor) : Author () :=
  c ← get_catalog;
  _ ← overflow_if (Stores <=? length (storePool c))%nat;
  modify (fun c => c <| storePool ::= fun l => l ++ [d] |>).

Definition set_access (a : Z) (l : list byte * Z) : list byte * Z := (l.1, a).

Definition poolSetLabelAccess (index : nat) (a : Z) : Author () :=
  c ← get_catalog;
  _ ← overflow_if (length (labelPool c) <=? index)%nat;
  modify (fun c => c <| labelPool ::= alter (set_access a) index |>).

Definition addEntryVerbatim (e : CatalogEntry) : Author () :=
  c ← get_catalog;
  _ ← overflow_if (Entries <=? length (entries c))%nat;
  modify (fun c => c <| entries ::= fun l => l ++ [e] |>).

(** [while (n > 0 && p[n - 1].empty()) --n;] *)
Fixpoint trim_holes (l : list (list byte)) : list (list byte) :=
  match l with
  | [] => []
  | s :: l => match s, trim_holes l with [], [] => [] | _, t => s :: t end
  end.

Definition internLabels (labels : list (list byte)) (maxCount : nat) : Author LabelRef :=
  let p := trim_holes labels in
  match p with
  | [] => mret LabelRef_new
  | _ =>
      _ ← overflow_if (maxCount <? length p)%nat;
      c ← get_catalog;
      _ ← each_author (fun s => poolAddLabel s AccessLevel.watch) p;
      mret (mkLabelRef (Z.of_nat (length (labelPool c))) (length p))
  end.

Definition checkOptionLabels (options : list (list byte)) : Author () :=
  overflow_if (existsb (fun o => (length o =? 0)%nat) options).

(** *** Entries and fields *)

Definition addEntry (header : CatalogEntry) : Author () :=
  c ← get_catalog;
  _ ← overflow_if (Entries <=? length (entries c))%nat;
  let offset := match form header with
                | Layout => length (layoutPool c)
                | Schema => length (schemaPool c)
                | Store => length (storePool c)
                end in
  modify (fun c => c <| entries ::= fun l => l ++ [header <| ce_fieldCount := 0%nat |> <| ce_fieldOffset := offset |>] |>).

Definition last_entry (c : Catalog) : option CatalogEntry := entries c !! (length (entries c) - 1)%nat.

(** The guards the two field adders share: there is a last entry, of the form, its slice ends the pool. *)
Definition open_slice (uses : CatalogEntry -> bool) (capacity used : nat) (c : Catalog) : bool :=
  match last_entry c with
  | None => false
  | Some e =>
      negb (capacity <=? used)%nat && uses e && (ce_fieldOffset e + ce_fieldCount e =? used)%nat
      && negb (kMaxFields <=? ce_fieldCount e)%nat
  end.

Definition addLayoutField (f : LayoutField) : Author () :=
  c ← get_catalog;
  _ ← overflow_if (negb (open_slice usesLayout LayoutFields (length (layoutPool c)) c));
  modify (fun c => on_last (fun e => e <| ce_fieldCount ::= S |>) (c <| layoutPool ::= fun l => l ++ [f] |>)).

Definition addBitfieldField (f : LayoutField) (bits : list (list byte)) : Author () :=
  r ← internLabels bits 8;
  addLayoutField (f <| lf_bits := r |>).

Definition addSelectField (f : LayoutField) (options : list (list byte)) : Author () :=
  _ ← checkOptionLabels options;
  r ← internLabels options kMaxCount;
  addLayoutField (f <| lf_options := r |>).

Definition addSchemaField (f : SchemaField) : Author () :=
  c ← get_catalog;
  _ ← overflow_if (negb (open_slice usesSchema SchemaFields (length (schemaPool c)) c));
  modify (fun c => on_last (fun e => e <| ce_fieldCount ::= S |>) (c <| schemaPool ::= fun l => l ++ [f] |>)).

(** [labelAccessPool[offset + i] = a[i]] for [i < count]. *)
Fixpoint set_accesses (offset : nat) (acc : list Z) (pool : list (list byte * Z)) : list (list byte * Z) :=
  match acc with
  | [] => pool
  | a :: acc => set_accesses (S offset) acc (alter (set_access a) offset pool)
  end.

Definition addSelectSchemaField (f : SchemaField) (options : list (list byte)) (optionAccess : list Z) : Author () :=
  _ ← overflow_if (negb (length optionAccess =? 0)%nat && negb (length optionAccess =? length options)%nat);
  _ ← checkOptionLabels options;
  r ← internLabels options kMaxCount;
  let f := f <| sf_options := r |> in
  if (length optionAccess =? 0)%nat then addSchemaField f
  else
    _ ← modify (fun c => c <| labelPool ::= set_accesses (Z.to_nat (lr_offset r)) (take (lr_count r) optionAccess) |>);
    addSchemaField (f <| sf_hasOptionAccess := true |>).

Definition setEventKinds (labels : list (list byte)) : Author () :=
  c ← get_catalog;
  _ ← overflow_if match last_entry c with None => true | Some e => negb (ce_cls e =? ChannelClass.EVENT) end;
  r ← internLabels labels kMaxCount;
  modify (on_last (fun e => e <| ce_eventKinds := r |>)).

Definition field_slot (layout : bool) (i : nat) (c : Catalog) : SafeSlot :=
  if layout then layoutPool c !! i ≫= lf_safeSlot else schemaPool c !! i ≫= sf_safeSlot.

Definition set_field_slot (layout : bool) (i slot : nat) (c : Catalog) : Catalog :=
  if layout then c <| layoutPool ::= alter (fun f => f <| lf_safeSlot := Some slot |>) i |>
  else c <| schemaPool ::= alter (fun f => f <| sf_safeSlot := Some slot |>) i |>.

Definition setFieldSafe (v : SettingDefault) : Author () :=
  c ← get_catalog;
  match last_entry c with
  | None => overflows
  | Some e =>
      _ ← overflow_if ((ce_fieldCount e =? 0)%nat || usesStore e);
      if negb (sd_has v) then mret ()
      else
        let idx := (ce_fieldOffset e + ce_fieldCount e - 1)%nat in
        match field_slot (usesLayout e) idx c with
        | Some slot =>
            if (slot <? length (safePool c))%nat then modify (fun c => c <| safePool ::= <[slot := v]> |>)
            else slot ← poolAddSafe v; modify (set_field_slot (usesLayout e) idx slot)
        | None => slot ← poolAddSafe v; modify (set_field_slot (usesLayout e) idx slot)
        end
  end.

Definition addStoreDescriptor (d : StoreDescriptor) : Author () :=
  c ← get_catalog;
  _ ← overflow_if match last_entry c with
                  | None => true
                  | Some e => (Stores <=? length (storePool c))%nat || negb (usesStore e)
                              || negb (ce_fieldCount e =? 0)%nat || negb (ce_fieldOffset e =? length (storePool c))%nat
                  end;
  modify (fun c => on_last (fun e => e <| ce_fieldCount := 1%nat |>) (c <| storePool ::= fun l => l ++ [d] |>)).

(** *** Reading *)

Definition find (id : Z) (c : Catalog) : option CatalogEntry := List.find (fun e => ce_id e =? id) (entries c).

(** The slice an entry owns in the pool of its form, or nothing when it does not lie inside the used part. *)
Definition slice {A} (pool : list A) (e : CatalogEntry) : list A :=
  if (length pool <? ce_fieldOffset e + ce_fieldCount e)%nat then []
  else subspan (ce_fieldOffset e) (ce_fieldCount e) pool.

Definition layoutFields (e : CatalogEntry) (c : Catalog) : list LayoutField :=
  if usesLayout e then slice (layoutPool c) e else [].

Definition schemaFields (e : CatalogEntry) (c : Catalog) : list SchemaField :=
  if usesSchema e then slice (schemaPool c) e else [].

Definition storeDescriptor (e : CatalogEntry) (c : Catalog) : option StoreDescriptor :=
  if negb (usesStore e) || negb (ce_fieldCount e =? 1)%nat then None
  else if (length (storePool c) <? ce_fieldOffset e + 1)%nat then None
  else storePool c !! ce_fieldOffset e.

(** The labels and their access levels of a reference ([labels], [labelAccess]). *)
Definition labels_of (r : LabelRef) (c : Catalog) : list (list byte * Z) :=
  if (lr_count r =? 0)%nat || (Z.of_nat (length (labelPool c)) <? lr_offset r + Z.of_nat (lr_count r)) then []
  else subspan (Z.to_nat (lr_offset r)) (lr_count r) (labelPool c).

Definition labels (r : LabelRef) (c : Catalog) : list (list byte) := map fst (labels_of r c).
Definition labelAccess (r : LabelRef) (c : Catalog) : list Z := map snd (labels_of r c).

Definition optionAccess (f : SchemaField) (c : Catalog) : list Z :=
  if sf_hasOptionAccess f then labelAccess (sf_options f) c else [].

Definition safeAt (slot : SafeSlot) (c : Catalog) : SettingDefault :=
  match slot with Some i => default NoDefault (safePool c !! i) | None => NoDefault end.

Definition layoutWireSize (e : CatalogEntry) (c : Catalog) : nat := sum_list_with wireSize (layoutFields e c).

(** [stream_kinds::segments] is 1. *)
Definition isSegmentClass (e : CatalogEntry) : bool := (ce_cls e =? ChannelClass.STREAM) && (ce_streamKind e =? 1).

(** *** Copying an entry from another catalog *)

Definition reintern (src : Catalog) (r : LabelRef) : Author LabelRef :=
  if (lr_count r =? 0)%nat then mret LabelRef_new
  else
    let text := labels_of r src in
    if negb (length text =? lr_count r)%nat then give_none
    else
      c ← get_catalog;
      _ ← each_author (fun l => poolAddLabel l.1 l.2) text;
      mret (mkLabelRef (Z.of_nat (length (labelPool c))) (lr_count r)).

Definition copy_layout_field (src : Catalog) (f : LayoutField) : Author () :=
  bits ← reintern src (lf_bits f);
  options ← reintern src (lf_options f);
  _ ← addLayoutField (f <| lf_safeSlot := kNoSafeSlot |> <| lf_bits := bits |> <| lf_options := options |>);
  setFieldSafe (safeAt (lf_safeSlot f) src).

Definition copy_schema_field (src : Catalog) (f : SchemaField) : Author () :=
  options ← reintern src (sf_options f);
  _ ← addSchemaField (f <| sf_safeSlot := kNoSafeSlot |> <| sf_options := options |>);
  setFieldSafe (safeAt (sf_safeSlot f) src).

Definition addEntryFrom (src : Catalog) (e : CatalogEntry) : Author () :=
  _ ← addEntry e;
  kinds ← reintern src (ce_eventKinds e);
  _ ← modify (on_last (fun e => e <| ce_eventKinds := kinds |>));
  match form e with
  | Layout => each_author (copy_layout_field src) (layoutFields e src)
  | Schema => each_author (copy_schema_field src) (schemaFields e src)
  | Store => match storeDescriptor e src with None => give_none | Some d => addStoreDescriptor d end
  end.

End Capacity.

(** ** What a catalog says *)

(** An entry with its references resolved: the header without them, the event kinds, the fields. *)
Inductive Payload :=
  | PLayout (l : list (LayoutField * list (list byte) * list (list byte) * SettingDefault))
  | PSchema (l : list (SchemaField * list (list byte) * list Z * SettingDefault))
  | PStore (d : option StoreDescriptor).

Record Described := mkDescribed { d_header : CatalogEntry; d_kinds : list (list byte); d_payload : Payload }.

Definition bare_layout (f : LayoutField) : LayoutField :=
  f <| lf_bits := LabelRef_new |> <| lf_options := LabelRef_new |> <| lf_safeSlot := kNoSafeSlot |>.
Definition bare_schema (f : SchemaField) : SchemaField :=
  f <| sf_options := LabelRef_new |> <| sf_safeSlot := kNoSafeSlot |>.
Definition bare_entry (e : CatalogEntry) : CatalogEntry :=
  e <| ce_fieldCount := 0%nat |> <| ce_fieldOffset := 0%nat |> <| ce_eventKinds := LabelRef_new |>.

(** A field as it is shown: a body and its safe value. *)
Definition shown {F B} (slot : F -> SafeSlot) (body : F -> B) (read : SafeSlot -> SettingDefault) (f : F) : B * SettingDefault :=
  (body f, read (slot f)).

Definition layout_body (c : Catalog) (f : LayoutField) := (bare_layout f, labels (lf_bits f) c, labels (lf_options f) c).
Definition schema_body (c : Catalog) (f : SchemaField) := (bare_schema f, labels (sf_options f) c, optionAccess f c).

Definition describe_layout (c : Catalog) := shown lf_safeSlot (layout_body c) (fun s => safeAt s c).
Definition describe_schema (c : Catalog) := shown sf_safeSlot (schema_body c) (fun s => safeAt s c).

Definition describe (c : Catalog) (e : CatalogEntry) : Described :=
  mkDescribed (bare_entry e) (labels (ce_eventKinds e) c)
    match form e with
    | Layout => PLayout (map (describe_layout c) (layoutFields e c))
    | Schema => PSchema (map (describe_schema c) (schemaFields e c))
    | Store => PStore (storeDescriptor e c)
    end.

Definition description (c : Catalog) : list Described := map (describe c) (entries c).

(** ** Well-formed catalogs: every reference lies in its pool, entries share no field, fields no safe slot *)

Definition ref_ok (n : nat) (r : LabelRef) : Prop :=
  lr_count r = 0%nat \/ 0 <= lr_offset r /\ lr_offset r + Z.of_nat (lr_count r) <= Z.of_nat n.
Definition slot_ok (n : nat) (s : SafeSlot) : Prop := from_option (fun i => (i < n)%nat) True s.

Definition layout_ok (c : Catalog) (f : LayoutField) : Prop :=
  ref_ok (length (labelPool c)) (lf_bits f) /\ ref_ok (length (labelPool c)) (lf_options f)
  /\ slot_ok (length (safePool c)) (lf_safeSlot f).
Definition schema_ok (c : Catalog) (f : SchemaField) : Prop :=
  ref_ok (length (labelPool c)) (sf_options f) /\ slot_ok (length (safePool c)) (sf_safeSlot f).

Definition pool_length (c : Catalog) (k : FieldForm) : nat :=
  match k with Layout => length (layoutPool c) | Schema => length (schemaPool c) | Store => length (storePool c) end.

Definition entry_ok (c : Catalog) (e : CatalogEntry) : Prop :=
  (ce_fieldOffset e + ce_fieldCount e <= pool_length c (form e))%nat /\ (ce_fieldCount e <= kMaxFields)%nat
  /\ ref_ok (length (labelPool c)) (ce_eventKinds e).

Definition before (e e' : CatalogEntry) : Prop :=
  form e = form e' -> (ce_fieldOffset e + ce_fieldCount e <= ce_fieldOffset e')%nat.

Definition safe_slots (c : Catalog) : list nat := omap lf_safeSlot (layoutPool c) ++ omap sf_safeSlot (schemaPool c).

Record catalog_ok (c : Catalog) : Prop := {
  entries_ok : Forall (entry_ok c) (entries c);
  entries_apart : StronglySorted before (entries c);
  layouts_ok : Forall (layout_ok c) (layoutPool c);
  schemas_ok : Forall (schema_ok c) (schemaPool c);
  slots_apart : NoDup (safe_slots c) }.

Definition mark_length (m : Mark) (k : FieldForm) : nat :=
  match k with Layout => mk_layoutUsed m | Schema => mk_schemaUsed m | Store => mk_storeUsed m end.

Definition slot_from (n : nat) (s : SafeSlot) : Prop := from_option (fun i => (n <= i)%nat) True s.

(** What follows the mark refers only to what follows it. *)
Record tail_ok (m : Mark) (c : Catalog) : Prop := {
  mark_entries : (mk_count m <= length (entries c))%nat;
  mark_pools : forall k, (mark_length m k <= pool_length c k)%nat;
  mark_labels : (mk_labelUsed m <= length (labelPool c))%nat;
  mark_safes : (mk_safeUsed m <= length (safePool c))%nat;
  tail_entries : Forall (fun e => (mark_length m (form e) <= ce_fieldOffset e)%nat) (drop (mk_count m) (entries c));
  tail_layouts : Forall (fun f => slot_from (mk_safeUsed m) (lf_safeSlot f)) (drop (mk_layoutUsed m) (layoutPool c));
  tail_schemas : Forall (fun f => slot_from (mk_safeUsed m) (sf_safeSlot f)) (drop (mk_schemaUsed m) (schemaPool c)) }.

(** ** Lemmas: reading through references *)

(** [c'] has everything [c] has, at the same places. *)
Record extends (c c' : Catalog) : Prop := {
  ext_layouts : layoutPool c `prefix_of` layoutPool c';
  ext_schemas : schemaPool c `prefix_of` schemaPool c';
  ext_stores : storePool c `prefix_of` storePool c';
  ext_labels : labelPool c `prefix_of` labelPool c';
  ext_safes : safePool c `prefix_of` safePool c' }.

Lemma slice_in {A} (pool l : list A) e :
  (ce_fieldOffset e + ce_fieldCount e <= length pool)%nat -> slice (pool ++ l) e = slice pool e.
Proof.
  intros H. unfold slice. rewrite length_app, !(proj2 (Nat.ltb_ge _ _)) by lia.
  unfold subspan. rewrite drop_app_le, take_app_le by (rewrite ?length_drop; lia). done.
Qed.

Lemma slice_elem {A} (pool : list A) e x : x ∈ slice pool e -> x ∈ pool.
Proof.
  unfold slice. destruct (_ <? _)%nat; [by intros ?%elem_of_nil|]. unfold subspan.
  intros (i & Hi & _)%elem_of_take. rewrite lookup_drop in Hi. by eapply list_elem_of_lookup_2.
Qed.

Lemma labels_extend c c' r :
  labelPool c `prefix_of` labelPool c' -> ref_ok (length (labelPool c)) r -> labels_of r c' = labels_of r c.
Proof.
  intros [l E] Hr. unfold labels_of. rewrite E, length_app. destruct Hr as [->|[H0 H1]]; [done|].
  rewrite !(proj2 (Z.ltb_ge _ _)) by lia. destruct (_ =? 0)%nat; [done|]. cbn.
  unfold subspan. rewrite drop_app_le, take_app_le by (rewrite ?length_drop; lia). done.
Qed.

Lemma safe_extend c c' s : safePool c `prefix_of` safePool c' -> slot_ok (length (safePool c)) s -> safeAt s c' = safeAt s c.
Proof.
  intros [l E] Hs. unfold safeAt. destruct s as [i|]; [|done]. rewrite E. cbn in Hs. by rewrite lookup_app_l.
Qed.

Lemma describe_layout_extend c c' f : extends c c' -> layout_ok c f -> describe_layout c' f = describe_layout c f.
Proof.
  intros [] (H1 & H2 & H3). unfold describe_layout, shown, layout_body, labels. by rewrite !(labels_extend c c'), (safe_extend c c').
Qed.

Lemma describe_schema_extend c c' f : extends c c' -> schema_ok c f -> describe_schema c' f = describe_schema c f.
Proof.
  intros [] (H1 & H2). unfold describe_schema, shown, schema_body, labels, optionAccess, labelAccess.
  by rewrite !(labels_extend c c'), (safe_extend c c').
Qed.

Lemma layout_fields_ok c e : catalog_ok c -> Forall (layout_ok c) (layoutFields e c).
Proof.
  intros [_ _ H _ _]. unfold layoutFields. destruct (usesLayout e); [|constructor].
  rewrite Forall_forall in *. intros f Hf. by eapply H, slice_elem.
Qed.

Lemma schema_fields_ok c e : catalog_ok c -> Forall (schema_ok c) (schemaFields e c).
Proof.
  intros [_ _ _ H _]. unfold schemaFields. destruct (usesSchema e); [|constructor].
  rewrite Forall_forall in *. intros f Hf. by eapply H, slice_elem.
Qed.

Lemma describe_extend c c' e : catalog_ok c -> entry_ok c e -> extends c c' -> describe c' e = describe c e.
Proof.
  intros Hc (Hs & _ & Hk) He. destruct He as [[? El] [? Es] [? Ed] Hl Hf] eqn:EE. clear EE.
  unfold describe. f_equal; [unfold labels; by rewrite (labels_extend c c')|].
  destruct (form e) eqn:F; cbn in Hs; f_equal.
  - assert (layoutFields e c' = layoutFields e c) as -> by (unfold layoutFields; by rewrite El, slice_in).
    apply map_ext_in. intros f Hin. apply describe_layout_extend; [done|].
    pose proof (layout_fields_ok c e Hc) as Hall. rewrite Forall_forall in Hall. by apply Hall, list_elem_of_In.
  - assert (schemaFields e c' = schemaFields e c) as -> by (unfold schemaFields; by rewrite Es, slice_in).
    apply map_ext_in. intros f Hin. apply describe_schema_extend; [done|].
    pose proof (schema_fields_ok c e Hc) as Hall. rewrite Forall_forall in Hall. by apply Hall, list_elem_of_In.
  - unfold storeDescriptor. destruct (usesStore e); [|done]. cbn [negb orb].
    destruct (Nat.eqb_spec (ce_fieldCount e) 1) as [E1|]; [|done]. cbn [negb]. rewrite Ed, length_app.
    rewrite !(proj2 (Nat.ltb_ge _ _)) by lia. by rewrite lookup_app_l by lia.
Qed.

Lemma describe_all_extend c c' es :
  catalog_ok c -> Forall (entry_ok c) es -> extends c c' -> map (describe c') es = map (describe c) es.
Proof.
  intros Hc Hes He. apply map_ext_in. intros e Hin. apply describe_extend; [done| |done].
  rewrite Forall_forall in Hes. by apply Hes, list_elem_of_In.
Qed.

Lemma last_entry_Some c e : last_entry c = Some e -> exists es, entries c = es ++ [e].
Proof.
  unfold last_entry. destruct (entries c) as [|e' es _] using rev_ind; [done|].
  rewrite length_app, Nat.add_sub, list_lookup_middle by done. intros [= ->]. by exists es.
Qed.

Lemma on_last_snoc f c es e : entries c = es ++ [e] -> entries (on_last f c) = es ++ [f e].
Proof.
  intros E. unfold on_last. cbn. rewrite E, length_app, Nat.add_sub. apply list_alter_at_middle.
Qed.

(** ** Lemmas: the steps every operation is made of *)

Definition room (m : Mark) (c : Catalog) : Prop := (mk_count m < length (entries c))%nat.

(** From a good catalog to a good one that says [g] of what the old one said, behind any mark the last
    entry is behind. *)
Record advances (g : list Described -> list Described) (c c' : Catalog) : Prop := {
  adv_ok : catalog_ok c';
  adv_view : description c' = g (description c);
  adv_mark : userSpaceMark c' = userSpaceMark c;
  adv_tail : forall m, room m c -> tail_ok m c -> tail_ok m c' /\ cut m c' = cut m c /\ room m c' }.

Lemma advances_trans g1 g2 c1 c2 c3 :
  advances g1 c1 c2 -> advances g2 c2 c3 -> advances (fun l => g2 (g1 l)) c1 c3.
Proof.
  intros [? V1 M1 T1] [? V2 M2 T2]. split; [done|by rewrite V2, V1|by rewrite M2|].
  intros m R T. destruct (T1 m R T) as (T' & C' & R'). destruct (T2 m R' T') as (? & C'' & ?).
  split_and!; [done|by rewrite C''|done].
Qed.

Lemma advances_ext g1 g2 c c' : (forall l, g1 l = g2 l) -> advances g1 c c' -> advances g2 c c'.
Proof. intros E [? V ? ?]. split; [done|by rewrite V, E|done|done]. Qed.

Definition on_last_described (f : Described -> Described) (l : list Described) : list Described :=
  alter f (length l - 1)%nat l.

Lemma description_snoc es e c :
  entries c = es ++ [e] -> description c = map (describe c) es ++ [describe c e].
Proof. intros E. unfold description. by rewrite E, map_app. Qed.

Lemma on_last_described_snoc f l d : on_last_described f (l ++ [d]) = l ++ [f d].
Proof. unfold on_last_described. rewrite length_app, Nat.add_sub. apply list_alter_at_middle. Qed.

Lemma ref_ok_more n n' r : (n <= n')%nat -> ref_ok n r -> ref_ok n' r.
Proof. unfold ref_ok. lia. Qed.

Lemma slot_ok_more n n' s : (n <= n')%nat -> slot_ok n s -> slot_ok n' s.
Proof. destruct s; cbn; lia. Qed.

Lemma entry_ok_extend c c' e : extends c c' -> entry_ok c e -> entry_ok c' e.
Proof.
  intros [L S D Lb _] (H1 & H2 & H3). apply prefix_length in L, S, D, Lb. split_and!; [|done|by eapply ref_ok_more].
  destruct (form e); cbn in *; lia.
Qed.

Lemma layout_ok_extend c c' f : extends c c' -> layout_ok c f -> layout_ok c' f.
Proof.
  intros [_ _ _ L S] (H1 & H2 & H3). apply prefix_length in L, S.
  split_and!; [by eapply ref_ok_more|by eapply ref_ok_more|by eapply slot_ok_more].
Qed.

Lemma schema_ok_extend c c' f : extends c c' -> schema_ok c f -> schema_ok c' f.
Proof.
  intros [_ _ _ L S] (H1 & H2). apply prefix_length in L, S. split; [by eapply ref_ok_more|by eapply slot_ok_more].
Qed.

#[local] Hint Resolve entry_ok_extend layout_ok_extend schema_ok_extend : core.

Lemma extends_refl c : extends c c.
Proof. by split. Qed.

(** Only the last entry changes, within what stays apart from the others. *)
Lemma apart_last es e e' :
  form e' = form e -> ce_fieldOffset e' = ce_fieldOffset e ->
  StronglySorted before (es ++ [e]) -> StronglySorted before (es ++ [e']).
Proof.
  intros Hf Ho. rewrite !StronglySorted_app. intros (H1 & H2 & _). split_and!; [|done|repeat constructor].
  intros x1 x2 Hx [->|[]%elem_of_nil]%elem_of_cons. unfold before. rewrite Hf, Ho. apply H1; [done|]. left.
Qed.

Lemma cut_same m c c' :
  (mk_count m <= length (entries c))%nat ->
  take (mk_count m) (entries c') = take (mk_count m) (entries c) ->
  (forall k, (mark_length m k <= pool_length c k)%nat) -> (mk_labelUsed m <= length (labelPool c))%nat ->
  (mk_safeUsed m <= length (safePool c))%nat -> extends c c' -> cut m c' = cut m c.
Proof.
  intros He E Hk Hl Hs [[l1 E1] [l2 E2] [l3 E3] [l4 E4] [l5 E5]]. unfold cut.
  pose proof (Hk Layout). pose proof (Hk Schema). pose proof (Hk Store). cbn in *.
  by rewrite E, E1, E2, E3, E4, E5, !take_app_le.
Qed.

Lemma drop_in_last {A} n (l : list A) x : (n < length (l ++ [x]))%nat -> drop n (l ++ [x]) = drop n l ++ [x].
Proof. rewrite length_app. cbn. intros. rewrite drop_app_le by lia. done. Qed.

Lemma take_in_last {A} n (l : list A) x y : (n < length (l ++ [x]))%nat -> take n (l ++ [y]) = take n (l ++ [x]).
Proof. rewrite length_app. cbn. intros. by rewrite !take_app_le by lia. Qed.

(** The shape of every step that appends to pools and changes at most the last entry. *)
Lemma advance_last (h : Described -> Described) c c' es e e' :
  catalog_ok c -> entries c = es ++ [e] -> entries c' = es ++ [e'] -> extends c c' ->
  form e' = form e -> ce_fieldOffset e' = ce_fieldOffset e -> entry_ok c' e' ->
  Forall (layout_ok c') (drop (length (layoutPool c)) (layoutPool c')) ->
  Forall (schema_ok c') (drop (length (schemaPool c)) (schemaPool c')) ->
  omap lf_safeSlot (drop (length (layoutPool c)) (layoutPool c')) = [] ->
  omap sf_safeSlot (drop (length (schemaPool c)) (schemaPool c')) = [] ->
  describe c' e' = h (describe c e) -> userSpaceMark c' = userSpaceMark c ->
  advances (on_last_described h) c c'.
Proof.
  intros Hc Ee Ee' Hext Hf Ho Hok Hnl Hns Hsl Hss Hd Hm.
  pose proof Hc as [Hen Hap Hla Hsc Hno]. rewrite Ee in Hen, Hap.
  pose proof Hext as [[ll El] [ls Es] [ld Ed] [lb Eb] [lv Ev]].
  rewrite El, drop_app_length in Hnl, Hsl. rewrite Es, drop_app_length in Hns, Hss.
  apply Forall_app in Hen as [Hes He]. split.
  - split.
    + rewrite Ee'. apply Forall_app. split; [|by constructor]. eapply Forall_impl; [exact Hes|]. intros ? ?. by eapply entry_ok_extend.
    + rewrite Ee'. by eapply apart_last.
    + rewrite El. apply Forall_app. split; [|done]. eapply Forall_impl; [exact Hla|]. intros ? ?. by eapply layout_ok_extend.
    + rewrite Es. apply Forall_app. split; [|done]. eapply Forall_impl; [exact Hsc|]. intros ? ?. by eapply schema_ok_extend.
    + unfold safe_slots. by rewrite El, Es, !omap_app, Hsl, Hss, !app_nil_r.
  - rewrite (description_snoc es e' c' Ee'), (description_snoc es e c Ee), on_last_described_snoc, Hd. f_equal.
    by apply describe_all_extend.
  - done.
  - intros m R T. pose proof T as [T1 T2 T3 T4 T5 T6 T7]. unfold room in *. rewrite Ee in R, T5.
    split_and!.
    + split.
      * rewrite Ee', length_app in *. cbn in *. lia.
      * intros k. specialize (T2 k). destruct k; cbn in *; rewrite ?El, ?Es, ?Ed, length_app; lia.
      * rewrite Eb, length_app. lia.
      * rewrite Ev, length_app. lia.
      * rewrite Ee', drop_in_last by (rewrite length_app in *; cbn in *; lia). rewrite drop_in_last in T5 by done.
        apply Forall_app in T5 as [? T5]. apply Forall_app. split; [done|]. rewrite !Forall_singleton in *. by rewrite Hf, Ho.
      * pose proof (T2 Layout). cbn in *. rewrite El, drop_app_le by lia. apply Forall_app. split; [done|].
        rewrite Forall_forall. intros f Hin. destruct (lf_safeSlot f) as [i|] eqn:E; [|done].
        assert (i ∈ omap lf_safeSlot ll) as Hi by (apply list_elem_of_omap; eauto). rewrite Hsl in Hi. by apply elem_of_nil in Hi.
      * pose proof (T2 Schema). cbn in *. rewrite Es, drop_app_le by lia. apply Forall_app. split; [done|].
        rewrite Forall_forall. intros f Hin. destruct (sf_safeSlot f) as [i|] eqn:E; [|done].
        assert (i ∈ omap sf_safeSlot ls) as Hi by (apply list_elem_of_omap; eauto). rewrite Hss in Hi. by apply elem_of_nil in Hi.
    + apply cut_same; try done. rewrite Ee, Ee'. by apply take_in_last.
    + rewrite Ee', length_app in *. cbn in *. lia.
Qed.

Lemma advance_same c c' :
  catalog_ok c -> entries c' = entries c -> extends c c' -> layoutPool c' = layoutPool c -> schemaPool c' = schemaPool c ->
  userSpaceMark c' = userSpaceMark c -> advances (fun l => l) c c'.
Proof.
  intros Hc Ee Hext El Es Hm. pose proof Hc as [Hen Hap Hla Hsc Hno]. split.
  - split; rewrite ?Ee, ?El, ?Es; try done.
    + eapply Forall_impl; [exact Hen|]. intros ? ?. by eapply entry_ok_extend.
    + eapply Forall_impl; [exact Hla|]. intros ? ?. by eapply layout_ok_extend.
    + eapply Forall_impl; [exact Hsc|]. intros ? ?. by eapply schema_ok_extend.
    + unfold safe_slots. by rewrite El, Es.
  - unfold description. rewrite Ee. by apply describe_all_extend.
  - done.
  - intros m R T. pose proof T as [T1 T2 T3 T4 T5 T6 T7].
    pose proof Hext as [_ _ Ld Lb Lv]. apply prefix_length in Ld, Lb, Lv.
    split_and!; [|by apply cut_same; try done; rewrite Ee|unfold room in *; by rewrite Ee].
    split; rewrite ?Ee, ?El, ?Es; try done; try lia.
    intros k. specialize (T2 k). destruct k; cbn in *; rewrite ?El, ?Es; lia.
Qed.

(** *** Giving the last field of the last entry a safe value *)

Section Safe.
Context {F B : Type} (slot : F -> SafeSlot) (with_slot : nat -> F -> F) (body body' : F -> B).
Hypothesis slot_with : forall i f, slot (with_slot i f) = Some i.
Hypothesis body_with : forall i f, body' (with_slot i f) = body f.
Hypothesis body_same : forall f, body' f = body f.
Context (read read' : SafeSlot -> SettingDefault) (i : nat) (v : SettingDefault).
Hypothesis read_here : read' (Some i) = v.
Hypothesis read_there : forall s, s <> Some i -> read' s = read s.

Lemma shown_others l : Forall (fun f => slot f <> Some i) l -> map (shown slot body' read') l = map (shown slot body read) l.
Proof.
  induction 1 as [|f l Hf _ IH]; [done|]. cbn. rewrite IH. f_equal. unfold shown. by rewrite body_same, read_there.
Qed.

Lemma shown_set k l :
  (forall j f, l !! j = Some f -> j <> k -> slot f <> Some i) ->
  map (shown slot body' read') (alter (with_slot i) k l) = alter (fun x => (x.1, v)) k (map (shown slot body read) l).
Proof.
  revert k. induction l as [|f l IH]; intros k H; [done|]. destruct k as [|k]; cbn.
  - f_equal.
    + unfold shown. by rewrite body_with, slot_with, read_here.
    + apply shown_others, Forall_lookup. intros j g Hg. by apply (H (S j) g).
  - f_equal.
    + unfold shown. rewrite body_same, read_there; [done|]. by apply (H 0%nat f).
    + apply IH. intros j g Hg Hj. apply (H (S j) g); [done|lia].
Qed.

End Safe.

Lemma slice_alter {A} (g : A -> A) (pool : list A) e :
  (ce_fieldOffset e + ce_fieldCount e <= length pool)%nat -> (0 < ce_fieldCount e)%nat ->
  slice (alter g (ce_fieldOffset e + ce_fieldCount e - 1)%nat pool) e = alter g (length (slice pool e) - 1)%nat (slice pool e).
Proof.
  intros Hin Hp. unfold slice. rewrite length_alter, (proj2 (Nat.ltb_ge _ _)) by lia.
  rewrite length_subspan, Nat.min_l by lia. apply list_eq. intros j. unfold subspan.
  destruct (decide (j < ce_fieldCount e)%nat).
  - rewrite lookup_take_lt, lookup_drop by done. destruct (decide (j = ce_fieldCount e - 1)%nat) as [->|].
    + rewrite list_lookup_alter_eq, lookup_take_lt, lookup_drop by done.
      replace (ce_fieldOffset e + (ce_fieldCount e - 1))%nat with (ce_fieldOffset e + ce_fieldCount e - 1)%nat by lia.
      by rewrite list_lookup_alter_eq.
    + rewrite !list_lookup_alter_ne by lia. by rewrite lookup_take_lt, lookup_drop.
  - rewrite !lookup_ge_None_2; [done| |]; rewrite ?length_alter, length_take, length_drop, ?length_alter; lia.
Qed.

Lemma slice_alter_before {A} (g : A -> A) (pool : list A) e k :
  (ce_fieldOffset e + ce_fieldCount e <= k)%nat -> slice (alter g k pool) e = slice pool e.
Proof.
  intros Hk. unfold slice. rewrite length_alter. destruct (_ <? _)%nat; [done|]. apply list_eq. intros j. unfold subspan.
  destruct (decide (j < ce_fieldCount e)%nat).
  - rewrite !lookup_take_lt, !lookup_drop by done. by rewrite list_lookup_alter_ne by lia.
  - by rewrite !lookup_take_ge by lia.
Qed.

Lemma slice_lookup {A} (pool : list A) e j x :
  slice pool e !! j = Some x -> pool !! (ce_fieldOffset e + j)%nat = Some x /\ (j < ce_fieldCount e)%nat.
Proof.
  unfold slice. destruct (_ <? _)%nat; [done|]. unfold subspan. intros (Hx & Hj)%lookup_take_Some. by rewrite lookup_drop in Hx.
Qed.

Definition with_safe {B} (v : SettingDefault) (x : B * SettingDefault) : B * SettingDefault := (x.1, v).

Definition d_set_safe (v : SettingDefault) (d : Described) : Described :=
  mkDescribed (d_header d) (d_kinds d)
    match d_payload d with
    | PLayout l => PLayout (alter (with_safe v) (length l - 1)%nat l)
    | PSchema l => PSchema (alter (with_safe v) (length l - 1)%nat l)
    | PStore s => PStore s
    end.

Section SafeStep.
Context (c : Catalog) (es : list CatalogEntry) (e : CatalogEntry) (i : nat) (v : SettingDefault) (sp : list SettingDefault).
Hypothesis c_ok : catalog_ok c.
Hypothesis c_entries : entries c = es ++ [e].
Hypothesis some_field : (0 < ce_fieldCount e)%nat.
Hypothesis sp_here : sp !! i = Some v.
Hypothesis sp_there : forall j, j <> i -> sp !! j = safePool c !! j.
Hypothesis sp_longer : (length (safePool c) <= length sp)%nat.

Let idx : nat := (ce_fieldOffset e + ce_fieldCount e - 1)%nat.

Lemma safe_here c' : safePool c' = sp -> safeAt (Some i) c' = v.
Proof. intros E. cbn. by rewrite E, sp_here. Qed.

Lemma safe_there c' s : safePool c' = sp -> s <> Some i -> safeAt s c' = safeAt s c.
Proof. intros E Hs. destruct s as [j|]; [|done]. cbn. rewrite E, sp_there; [done|congruence]. Qed.

Lemma last_ok : entry_ok c e /\ Forall (entry_ok c) es /\ Forall (fun e' => before e' e) es.
Proof.
  destruct c_ok as [He Ha _ _ _]. rewrite c_entries in He, Ha. apply Forall_app in He as [Hes He].
  apply StronglySorted_app in Ha as (Ha & _ & _). rewrite Forall_singleton in He. split; [done|split; [done|]].
  rewrite Forall_forall. intros e' He'. apply Ha; [done|left].
Qed.

(** The others own the pool's fields before the last entry's slice. *)
Lemma others_before e' : e' ∈ es -> form e' = form e -> (ce_fieldOffset e' + ce_fieldCount e' <= idx)%nat.
Proof.
  intros He' Hf. destruct last_ok as (_ & _ & Hb). rewrite Forall_forall in Hb. specialize (Hb e' He' Hf). unfold idx. lia.
Qed.

Lemma cut_safe m c' :
  room m c -> tail_ok m c -> (mk_safeUsed m <= i)%nat -> entries c' = entries c -> labelPool c' = labelPool c ->
  storePool c' = storePool c -> safePool c' = sp ->
  take (mk_layoutUsed m) (layoutPool c') = take (mk_layoutUsed m) (layoutPool c) ->
  take (mk_schemaUsed m) (schemaPool c') = take (mk_schemaUsed m) (schemaPool c) -> cut m c' = cut m c.
Proof.
  intros R T Hi E1 E2 E3 E4 E5 E6. unfold cut. rewrite E1, E2, E3, E4, E5, E6. f_equal. apply list_eq. intros j.
  destruct (decide (j < mk_safeUsed m)%nat); [|by rewrite !lookup_take_ge by lia].
  rewrite !lookup_take_lt by done. apply sp_there. lia.
Qed.

Section Result.
Context (layout : bool).
Hypothesis e_form : form e = if layout then Layout else Schema.
Hypothesis own_layout : forall j f, layoutPool c !! j = Some f -> (layout = true -> j <> idx) -> lf_safeSlot f <> Some i.
Hypothesis own_schema : forall j f, schemaPool c !! j = Some f -> (layout = false -> j <> idx) -> sf_safeSlot f <> Some i.

Definition safe_result : Catalog := set_field_slot layout idx i (c <| safePool := sp |>).

Lemma safe_result_pools :
  entries safe_result = entries c /\ storePool safe_result = storePool c /\ labelPool safe_result = labelPool c
  /\ safePool safe_result = sp /\ userSpaceMark safe_result = userSpaceMark c.
Proof. unfold safe_result. by destruct layout. Qed.

Lemma safe_result_lengths k : pool_length safe_result k = pool_length c k.
Proof. unfold safe_result. destruct layout, k; cbn; by rewrite ?length_alter. Qed.

Lemma other_layouts e' : e' ∈ es -> map (describe_layout safe_result) (layoutFields e' safe_result) = map (describe_layout c) (layoutFields e' c).
Proof.
  intros He'. destruct safe_result_pools as (_ & _ & El & Es & _).
  assert (layoutFields e' safe_result = layoutFields e' c) as ->.
  { unfold layoutFields. destruct (usesLayout e') eqn:U; [|done]. apply bool_decide_eq_true in U.
    unfold safe_result. destruct layout eqn:L; [|done]. cbn. apply slice_alter_before, others_before; [done|]. by rewrite U, e_form. }
  unfold layoutFields. destruct (usesLayout e') eqn:U; [|done]. apply bool_decide_eq_true in U.
  apply (shown_others lf_safeSlot) with (i := i).
  - intros f. unfold layout_body, labels, labels_of. by rewrite El.
  - intros s. by apply safe_there.
  - apply Forall_lookup. intros j f Hf. apply slice_lookup in Hf as [Hf Hj]. apply (own_layout _ _ Hf). intros ->.
    pose proof (others_before e' He' ltac:(by rewrite U, e_form)). lia.
Qed.

Lemma other_schemas e' : e' ∈ es -> map (describe_schema safe_result) (schemaFields e' safe_result) = map (describe_schema c) (schemaFields e' c).
Proof.
  intros He'. destruct safe_result_pools as (_ & _ & El & Es & _).
  assert (schemaFields e' safe_result = schemaFields e' c) as ->.
  { unfold schemaFields. destruct (usesSchema e') eqn:U; [|done]. apply bool_decide_eq_true in U.
    unfold safe_result. destruct layout eqn:L; [done|]. cbn. apply slice_alter_before, others_before; [done|]. by rewrite U, e_form. }
  unfold schemaFields. destruct (usesSchema e') eqn:U; [|done]. apply bool_decide_eq_true in U.
  apply (shown_others sf_safeSlot) with (i := i).
  - intros f. unfold schema_body, optionAccess, labelAccess, labels, labels_of. by rewrite El.
  - intros s. by apply safe_there.
  - apply Forall_lookup. intros j f Hf. apply slice_lookup in Hf as [Hf Hj]. apply (own_schema _ _ Hf). intros ->.
    pose proof (others_before e' He' ltac:(by rewrite U, e_form)). lia.
Qed.

Lemma describe_other e' : e' ∈ es -> describe safe_result e' = describe c e'.
Proof.
  intros He'. destruct safe_result_pools as (_ & Ed & El & _). unfold describe. f_equal.
  - unfold labels, labels_of. by rewrite El.
  - destruct (form e'); f_equal; [by apply other_layouts|by apply other_schemas|]. unfold storeDescriptor. by rewrite Ed.
Qed.

Lemma describe_here : describe safe_result e = d_set_safe v (describe c e).
Proof.
  destruct safe_result_pools as (_ & _ & El & Es & _). destruct last_ok as ((Hin & _ & _) & _).
  unfold describe, d_set_safe. cbn [d_header d_kinds d_payload]. f_equal.
  { unfold labels, labels_of. by rewrite El. }
  assert (forall A B (f : A -> B) l, length (map f l) = length l) as Hlen by (intros; apply length_map).
  assert (Hu : usesLayout e = layout /\ usesSchema e = negb layout).
  { unfold usesLayout, usesSchema. rewrite e_form. by destruct layout. }
  destruct Hu as [Hul Hus]. rewrite e_form in *. unfold layoutFields, schemaFields. rewrite Hul, Hus.
  unfold safe_result in *. destruct layout; cbn [negb set_field_slot] in *; f_equal; rewrite Hlen; cbn in Hin.
  - cbn. unfold idx. rewrite (slice_alter _ (layoutPool c) e Hin some_field).
    apply (shown_set lf_safeSlot (fun i f => f <| lf_safeSlot := Some i |>)) with (i := i); try done.
    + by apply safe_here.
    + intros s. by apply safe_there.
    + intros j f Hf Hj. apply slice_lookup in Hf as [Hf Hjc]. apply (own_layout _ _ Hf). intros _ Hx.
      apply Hj. unfold idx in Hx. unfold slice. rewrite (proj2 (Nat.ltb_ge _ _)) by done. rewrite length_subspan. lia.
  - cbn. unfold idx. rewrite (slice_alter _ (schemaPool c) e Hin some_field).
    apply (shown_set sf_safeSlot (fun i f => f <| sf_safeSlot := Some i |>)) with (i := i); try done.
    + by apply safe_here.
    + intros s. by apply safe_there.
    + intros j f Hf Hj. apply slice_lookup in Hf as [Hf Hjc]. apply (own_schema _ _ Hf). intros _ Hx.
      apply Hj. unfold idx in Hx. unfold slice. rewrite (proj2 (Nat.ltb_ge _ _)) by done. rewrite length_subspan. lia.
Qed.

Hypothesis slots_ok : NoDup (safe_slots safe_result).
Hypothesis behind : forall m, room m c -> tail_ok m c -> (mk_safeUsed m <= i)%nat.

Lemma sp_has : (i < length sp)%nat.
Proof. by eapply lookup_lt_Some. Qed.

Lemma safe_result_ok : catalog_ok safe_result.
Proof.
  destruct safe_result_pools as (Ee & Ed & El & Es & _), c_ok as [He Ha Hl Hs _]. pose proof sp_has. split; [| | | |done].
  - rewrite Ee. eapply Forall_impl; [exact He|]. intros e' (H1 & H2 & H3). split; [by rewrite safe_result_lengths|by rewrite El].
  - by rewrite Ee.
  - assert (forall f, layout_ok c f -> layout_ok safe_result f) as Hext.
    { intros f (H1 & H2 & H3). unfold layout_ok. rewrite El, Es. split_and!; [done|done|exact (slot_ok_more _ _ _ sp_longer H3)]. }
    unfold safe_result at 2. destruct layout eqn:L; cbn [set_field_slot layoutPool]; [|exact (Forall_impl _ _ _ Hl Hext)].
    apply (Forall_alter_at (layout_ok c)); [done|done|]. intros f (H1 & H2 & H3). unfold layout_ok. by rewrite El, Es.
  - assert (forall f, schema_ok c f -> schema_ok safe_result f) as Hext.
    { intros f (H1 & H2). unfold schema_ok. rewrite El, Es. split; [done|exact (slot_ok_more _ _ _ sp_longer H2)]. }
    unfold safe_result at 2. destruct layout eqn:L; cbn [set_field_slot schemaPool]; [exact (Forall_impl _ _ _ Hs Hext)|].
    apply (Forall_alter_at (schema_ok c)); [done|done|]. intros f (H1 & H2). unfold schema_ok. by rewrite El, Es.
Qed.

(** The last field lies behind every mark the last entry is behind. *)
Lemma idx_behind m : room m c -> tail_ok m c -> (mark_length m (form e) <= idx)%nat.
Proof.
  intros R [_ _ _ _ T _ _]. unfold room in R. rewrite c_entries in R, T. rewrite drop_in_last in T by done.
  apply Forall_app in T as [_ T]. rewrite Forall_singleton in T. unfold idx. lia.
Qed.

Lemma advance_safe : advances (on_last_described (d_set_safe v)) c safe_result.
Proof.
  pose proof safe_result_pools as (Ee & Ed & El & Es & Em). split; [apply safe_result_ok| |done|].
  - rewrite (description_snoc es e safe_result), (description_snoc es e c) by congruence.
    rewrite on_last_described_snoc, describe_here. f_equal. apply map_ext_in. intros e' He'. by apply describe_other, list_elem_of_In.
  - intros m R T. pose proof (behind m R T) as Hb. pose proof (idx_behind m R T) as Hi. pose proof T as [T1 T2 T3 T4 T5 T6 T7].
    rewrite e_form in Hi. split_and!; [| |unfold room in *; by rewrite Ee].
    + split; rewrite ?Ee, ?El, ?Es; try done; try lia.
      * intros k. by rewrite safe_result_lengths.
      * unfold safe_result. destruct layout; cbn [set_field_slot layoutPool]; [|done].
        cbn. rewrite drop_alter_from by done. by apply (Forall_alter_at (fun f => slot_from (mk_safeUsed m) (lf_safeSlot f))).
      * unfold safe_result. destruct layout; cbn [set_field_slot schemaPool]; [done|].
        cbn. rewrite drop_alter_from by done. by apply (Forall_alter_at (fun f => slot_from (mk_safeUsed m) (sf_safeSlot f))).
    + apply cut_safe; try done; unfold safe_result; destruct layout; cbn; try done; by apply take_alter_from.
Qed.
End Result.

End SafeStep.

(** *** Adding *)

Definition d_add_layout x (d : Described) : Described :=
  match d_payload d with PLayout l => mkDescribed (d_header d) (d_kinds d) (PLayout (l ++ [x])) | _ => d end.
Definition d_add_schema x (d : Described) : Described :=
  match d_payload d with PSchema l => mkDescribed (d_header d) (d_kinds d) (PSchema (l ++ [x])) | _ => d end.
Definition d_set_store x (d : Described) : Described := mkDescribed (d_header d) (d_kinds d) (PStore (Some x)).
Definition d_set_kinds ks (d : Described) : Described := mkDescribed (d_header d) ks (d_payload d).

Definition more_labels (ls : list (list byte * Z)) (c : Catalog) : Catalog := c <| labelPool ::= fun l => l ++ ls |>.

Lemma extends_labels ls c : extends c (more_labels ls c).
Proof. split; cbn; try done. by apply prefix_app_r. Qed.

Lemma advance_labels ls c : catalog_ok c -> advances (fun l => l) c (more_labels ls c).
Proof. intros Hc. apply advance_same; try done. apply extends_labels. Qed.

Lemma advance_overflow c : catalog_ok c -> advances (fun l => l) c (c <| overflow := true |>).
Proof. intros Hc. by apply advance_same. Qed.

Lemma map_eq_in {A B} (f g : A -> B) l : Forall (fun x => f x = g x) l -> map f l = map g l.
Proof. induction 1 as [|x l Hx _ IH]; [done|]. cbn. by rewrite Hx, IH. Qed.

Definition put_layout (f : LayoutField) (c : Catalog) : Catalog :=
  on_last (fun e => e <| ce_fieldCount ::= S |>) (c <| layoutPool ::= fun l => l ++ [f] |>).
Definition put_schema (f : SchemaField) (c : Catalog) : Catalog :=
  on_last (fun e => e <| ce_fieldCount ::= S |>) (c <| schemaPool ::= fun l => l ++ [f] |>).

Lemma open_slice_Some uses cap used c :
  open_slice uses cap used c = true ->
  exists es e, entries c = es ++ [e] /\ (used < cap)%nat /\ uses e = true
    /\ (ce_fieldOffset e + ce_fieldCount e = used)%nat /\ (ce_fieldCount e < kMaxFields)%nat.
Proof.
  unfold open_slice. destruct (last_entry c) as [e|] eqn:E; [|done]. apply last_entry_Some in E as [es E].
  rewrite !andb_true_iff, !negb_true_iff, !Nat.leb_gt, Nat.eqb_eq. intros (((? & ?) & ?) & ?). by exists es, e.
Qed.

Lemma slice_grow {A} (pool : list A) x e :
  (ce_fieldOffset e + ce_fieldCount e = length pool)%nat ->
  slice (pool ++ [x]) (e <| ce_fieldCount ::= S |>) = slice pool e ++ [x].
Proof.
  intros H. unfold slice. rewrite length_app. cbn [ce_fieldOffset ce_fieldCount update_field ce_fieldCount_field length].
  rewrite !(proj2 (Nat.ltb_ge _ _)) by lia. unfold subspan. rewrite drop_app_le by lia.
  rewrite !take_ge; [done| |]; rewrite ?length_app, ?length_drop; cbn; lia.
Qed.

Lemma drop_snoc {A} (l : list A) x : drop (length l) (l ++ [x]) = [x].
Proof. apply drop_app_length. Qed.

Lemma form_counted e : form (e <| ce_fieldCount ::= S |>) = form e.
Proof. done. Qed.

Lemma put_layout_advances cap ls f c :
  catalog_ok c -> open_slice usesLayout cap (length (layoutPool c)) c = true -> lf_safeSlot f = None ->
  let c' := put_layout f (more_labels ls c) in
  layout_ok c' f -> advances (on_last_described (d_add_layout (describe_layout c' f))) c c'.
Proof.
  intros Hc (es & e & Ee & Hcap & Hu & Hend & Hmax)%open_slice_Some Hf c' Hok.
  assert (extends c c') as Hext by (split; cbn; try done; by apply prefix_app_r).
  assert (entries c' = es ++ [e <| ce_fieldCount ::= S |>]) as Ee' by by apply on_last_snoc.
  assert (form e = Layout) as Hfe by by apply bool_decide_eq_true in Hu.
  pose proof Hc as [Hen _ _ _ _]. rewrite Ee in Hen. apply Forall_app in Hen as [_ He]. rewrite Forall_singleton in He.
  eapply (advance_last _ c c' es e (e <| ce_fieldCount ::= S |>)); try done.
  - pose proof (entry_ok_extend _ _ _ Hext He) as (_ & _ & H3). unfold entry_ok. rewrite form_counted, Hfe.
    split_and!; [|done|done]. subst c'. cbn. rewrite length_app. cbn. lia.
  - assert (layoutPool c' = layoutPool c ++ [f]) as -> by done. rewrite drop_snoc. by constructor.
  - assert (schemaPool c' = schemaPool c) as -> by done. by rewrite drop_all.
  - assert (layoutPool c' = layoutPool c ++ [f]) as -> by done. rewrite drop_snoc. cbn. by rewrite Hf.
  - assert (schemaPool c' = schemaPool c) as -> by done. by rewrite drop_all.
  - rewrite <- (describe_extend c c' e) by done. unfold describe, d_add_layout. rewrite form_counted, Hfe. cbn [d_payload d_header d_kinds].
    f_equal. f_equal. unfold layoutFields. rewrite Hu. unfold usesLayout in *. rewrite form_counted, Hu.
    assert (layoutPool c' = layoutPool c ++ [f]) as -> by done. rewrite slice_grow, slice_in by lia. by rewrite map_app.
Qed.

Lemma put_schema_advances cap ls f c :
  catalog_ok c -> open_slice usesSchema cap (length (schemaPool c)) c = true -> sf_safeSlot f = None ->
  let c' := put_schema f (more_labels ls c) in
  schema_ok c' f -> advances (on_last_described (d_add_schema (describe_schema c' f))) c c'.
Proof.
  intros Hc (es & e & Ee & Hcap & Hu & Hend & Hmax)%open_slice_Some Hf c' Hok.
  assert (extends c c') as Hext by (split; cbn; try done; by apply prefix_app_r).
  assert (entries c' = es ++ [e <| ce_fieldCount ::= S |>]) as Ee' by by apply on_last_snoc.
  assert (form e = Schema) as Hfe by by apply bool_decide_eq_true in Hu.
  pose proof Hc as [Hen _ _ _ _]. rewrite Ee in Hen. apply Forall_app in Hen as [_ He]. rewrite Forall_singleton in He.
  eapply (advance_last _ c c' es e (e <| ce_fieldCount ::= S |>)); try done.
  - pose proof (entry_ok_extend _ _ _ Hext He) as (_ & _ & H3). unfold entry_ok. rewrite form_counted, Hfe.
    split_and!; [|done|done]. subst c'. cbn. rewrite length_app. cbn. lia.
  - assert (layoutPool c' = layoutPool c) as -> by done. by rewrite drop_all.
  - assert (schemaPool c' = schemaPool c ++ [f]) as -> by done. rewrite drop_snoc. by constructor.
  - assert (layoutPool c' = layoutPool c) as -> by done. by rewrite drop_all.
  - assert (schemaPool c' = schemaPool c ++ [f]) as -> by done. rewrite drop_snoc. cbn. by rewrite Hf.
  - rewrite <- (describe_extend c c' e) by done. unfold describe, d_add_schema. rewrite form_counted, Hfe. cbn [d_payload d_header d_kinds].
    f_equal. f_equal. unfold schemaFields. rewrite Hu. unfold usesSchema in *. rewrite form_counted, Hu.
    assert (schemaPool c' = schemaPool c ++ [f]) as -> by done. rewrite slice_grow, slice_in by lia. by rewrite map_app.
Qed.

Lemma put_store_advances d c es e :
  catalog_ok c -> entries c = es ++ [e] -> usesStore e = true -> ce_fieldCount e = 0%nat ->
  ce_fieldOffset e = length (storePool c) ->
  advances (on_last_described (d_set_store d)) c
    (on_last (fun e => e <| ce_fieldCount := 1%nat |>) (c <| storePool ::= fun l => l ++ [d] |>)).
Proof.
  intros Hc Ee Hu H0 Hend. set (c' := on_last _ _).
  assert (extends c c') as Hext by (split; cbn; try done; by apply prefix_app_r).
  assert (entries c' = es ++ [e <| ce_fieldCount := 1%nat |>]) as Ee' by by apply on_last_snoc.
  assert (form e = Store) as Hfe by by apply bool_decide_eq_true in Hu.
  pose proof Hc as [Hen _ _ _ _]. rewrite Ee in Hen. apply Forall_app in Hen as [_ He]. rewrite Forall_singleton in He.
  assert (layoutPool c' = layoutPool c) as El by done. assert (schemaPool c' = schemaPool c) as Es by done.
  eapply (advance_last _ c c' es e (e <| ce_fieldCount := 1%nat |>)); try done; rewrite ?El, ?Es, ?drop_all; try done.
  - pose proof (entry_ok_extend _ _ _ Hext He) as (_ & _ & H3). unfold entry_ok.
    replace (form (e <| ce_fieldCount := 1%nat |>)) with Store by done.
    split_and!; [|unfold kMaxFields; cbn; lia|done]. subst c'. cbn. rewrite length_app. cbn. lia.
  - rewrite <- (describe_extend c c' e) by done. unfold describe, d_set_store.
    replace (form (e <| ce_fieldCount := 1%nat |>)) with Store by done. rewrite Hfe. cbn [d_payload d_header d_kinds].
    f_equal. f_equal. unfold storeDescriptor. unfold usesStore in *.
    replace (form (e <| ce_fieldCount := 1%nat |>)) with (form e) by done. rewrite Hu. cbn [negb orb].
    replace (ce_fieldOffset (e <| ce_fieldCount := 1%nat |>)) with (ce_fieldOffset e) by done.
    replace (ce_fieldCount (e <| ce_fieldCount := 1%nat |>)) with 1%nat by done. cbn [Nat.eqb negb].
    assert (storePool c' = storePool c ++ [d]) as -> by done. rewrite length_app. cbn [length].
    rewrite (proj2 (Nat.ltb_ge _ _)) by lia. rewrite Hend. apply lookup_middle.
Qed.

Lemma put_kinds_advances ls r c es e :
  catalog_ok c -> entries c = es ++ [e] ->
  let c' := on_last (fun e => e <| ce_eventKinds := r |>) (more_labels ls c) in
  ref_ok (length (labelPool c')) r -> advances (on_last_described (d_set_kinds (labels r c'))) c c'.
Proof.
  intros Hc Ee c' Hr.
  assert (extends c c') as Hext by (split; cbn; try done; by apply prefix_app_r).
  assert (entries c' = es ++ [e <| ce_eventKinds := r |>]) as Ee' by by apply on_last_snoc.
  pose proof Hc as [Hen _ _ _ _]. rewrite Ee in Hen. apply Forall_app in Hen as [_ He]. rewrite Forall_singleton in He.
  assert (layoutPool c' = layoutPool c) as El by done. assert (schemaPool c' = schemaPool c) as Es by done.
  eapply (advance_last _ c c' es e (e <| ce_eventKinds := r |>)); try done; rewrite ?El, ?Es, ?drop_all; try done.
  - pose proof (entry_ok_extend _ _ _ Hext He) as (? & ? & ?). by split_and!.
  - by rewrite <- (describe_extend c c' e) by done.
Qed.

(** What [addEntry] appends. *)
Definition described_header (h : CatalogEntry) (kinds : list (list byte)) : Described :=
  mkDescribed (bare_entry h) kinds
    match form h with Layout => PLayout [] | Schema => PSchema [] | Store => PStore None end.

Definition placed (h : CatalogEntry) (c : Catalog) : CatalogEntry :=
  h <| ce_fieldCount := 0%nat |> <| ce_fieldOffset := pool_length c (form h) |>.

Definition put_entry (h : CatalogEntry) (c : Catalog) : Catalog := c <| entries ::= fun l => l ++ [placed h c] |>.

Lemma slice_none {A} (pool : list A) e : ce_fieldCount e = 0%nat -> slice pool e = [].
Proof. intros E. unfold slice, subspan. rewrite E. by destruct (_ <? _)%nat. Qed.

(** A new entry lies behind every mark. *)
Lemma put_entry_advances h c :
  catalog_ok c -> ref_ok (length (labelPool c)) (ce_eventKinds h) ->
  let c' := put_entry h c in
  catalog_ok c' /\ description c' = description c ++ [described_header h (labels (ce_eventKinds h) c)]
  /\ forall m, tail_ok m c -> tail_ok m c' /\ cut m c' = cut m c /\ room m c'.
Proof.
  intros Hc Hr c'. pose proof Hc as [He Ha Hl Hs Hn].
  assert (extends c c') as Hext by by split.
  assert (forall k, pool_length c' k = pool_length c k) as Hpl by by intros [].
  split_and!.
  - split; try done.
    + subst c'. cbn. apply Forall_app. split; [done|]. rewrite Forall_singleton. split; [|split; [unfold kMaxFields; cbn; lia|done]].
      cbn. replace (form (placed h c)) with (form h) by done. by destruct (form h); cbn; lia.
    + subst c'. cbn. apply StronglySorted_app. split_and!; [|done|repeat constructor].
      intros x1 x2 Hx [->|[]%elem_of_nil]%elem_of_cons Hf. rewrite Forall_forall in He. destruct (He _ Hx) as [H1 _].
      cbn. rewrite Hf in H1. done.
  - unfold description. subst c'. cbn [entries put_entry update_field entries_field]. rewrite map_app. f_equal.
    cbn [map]. f_equal. unfold describe, described_header. f_equal.
    replace (form (placed h c)) with (form h) by done. destruct (form h); f_equal.
    + unfold layoutFields. destruct (usesLayout _); [|done]. by rewrite slice_none.
    + unfold schemaFields. destruct (usesSchema _); [|done]. by rewrite slice_none.
    + unfold storeDescriptor. cbn [placed ce_fieldCount update_field ce_fieldCount_field ce_fieldOffset_field]. by rewrite orb_true_r.
  - intros m [T1 T2 T3 T4 T5 T6 T7].
    split_and!.
    + split; try done.
      * subst c'. cbn. rewrite length_app. lia.
      * subst c'. cbn. rewrite drop_app_le by done. apply Forall_app. split; [done|]. rewrite Forall_singleton.
        cbn. replace (form (placed h c)) with (form h) by done. apply T2.
    + apply cut_same; try done. subst c'. cbn. by rewrite take_app_le.
    + unfold room. subst c'. cbn. rewrite length_app. cbn. lia.
Qed.

(** *** Interning labels *)

Lemma more_labels_nil c : more_labels [] c = c.
Proof. destruct c. unfold more_labels, update_field, labelPool_field. cbn. by rewrite app_nil_r. Qed.

Lemma more_labels_app ls ls' c : more_labels ls' (more_labels ls c) = more_labels (ls ++ ls') c.
Proof. destruct c. unfold more_labels, update_field, labelPool_field. cbn. by rewrite app_assoc. Qed.

Lemma add_labels {A} (Labels : nat) (f : A -> list byte) (g : A -> Z) l c :
  exists ls, each_author (fun x => poolAddLabel Labels (f x) (g x)) l c
             = (more_labels ls c, Some ()) /\ ls = map (fun x => (f x, g x)) l
          \/ each_author (fun x => poolAddLabel Labels (f x) (g x)) l c = ((more_labels ls c) <| overflow := true |>, None).
Proof.
  revert c. induction l as [|x l IH]; intros c.
  - exists []. left. by rewrite more_labels_nil.
  - assert (each_author (fun x => poolAddLabel Labels (f x) (g x)) (x :: l) c
            = if (Labels <=? length (labelPool c))%nat then (c <| overflow := true |>, None)
              else each_author (fun x => poolAddLabel Labels (f x) (g x)) l (more_labels [(f x, g x)] c)) as ->.
    { cbn [each_author]. unfold mbind, Author_bind, poolAddLabel, mbind, Author_bind, get_catalog, overflow_if.
      by destruct (Labels <=? length (labelPool c))%nat. }
    destruct (Labels <=? length (labelPool c))%nat.
    + exists []. right. by rewrite more_labels_nil.
    + destruct (IH (more_labels [(f x, g x)] c)) as [ls [[-> ->] | ->]]; rewrite more_labels_app.
      * by exists ((f x, g x) :: map (fun x => (f x, g x)) l); left.
      * by exists ((f x, g x) :: ls); right.
Qed.

(** A reference to labels just interned reads them back. *)
Lemma labels_fresh ls c :
  let r := mkLabelRef (Z.of_nat (length (labelPool c))) (length ls) in
  ref_ok (length (labelPool (more_labels ls c))) r /\ labels_of r (more_labels ls c) = ls.
Proof.
  intros r. subst r. unfold ref_ok, labels_of. cbn. rewrite length_app. split; [lia|].
  destruct ls as [|x ls]; [done|]. rewrite (proj2 (Z.ltb_ge _ _)) by (cbn; lia). cbn [length Nat.eqb orb].
  unfold subspan. rewrite Nat2Z.id, drop_app_length, take_ge by (cbn; lia). done.
Qed.

Definition watched (s : list byte) : list byte * Z := (s, AccessLevel.watch).

Lemma internLabels_spec Labels p max c :
  match internLabels Labels p max c with
  | (c', Some r) => c' = more_labels (map watched (trim_holes p)) c /\ ref_ok (length (labelPool c')) r
                    /\ labels_of r c' = map watched (trim_holes p)
                    /\ (trim_holes p <> [] -> r = mkLabelRef (Z.of_nat (length (labelPool c))) (length (trim_holes p)))
  | (c', None) => exists ls, c' = (more_labels ls c) <| overflow := true |>
  end.
Proof.
  unfold internLabels. destruct (trim_holes p) as [|s q] eqn:Et.
  { cbn. rewrite more_labels_nil. split_and!; [done|by left|done|done]. }
  unfold mbind, Author_bind. unfold overflow_if. destruct (_ <? _)%nat.
  { exists []. by rewrite more_labels_nil. }
  unfold mret, Author_ret, get_catalog. cbv beta iota.
  destruct (add_labels Labels (fun s => s) (fun _ => AccessLevel.watch) (s :: q) c) as [ls [[-> ->] | ->]]; [|by exists ls].
  cbv beta iota. destruct (labels_fresh (map watched (s :: q)) c) as [H1 H2]. rewrite length_map in H1, H2.
  by split_and!.
Qed.

Lemma trim_holes_full l : existsb (fun o : list byte => (length o =? 0)%nat) l = false -> trim_holes l = l.
Proof.
  induction l as [|s l IH]; [done|]. cbn [existsb trim_holes]. intros [Hs Hl]%orb_false_iff. rewrite IH by done.
  by destruct s.
Qed.

Lemma set_accesses_spec acc pool p :
  length acc = length p -> set_accesses (length pool) acc (pool ++ map watched p) = pool ++ zip p acc.
Proof.
  revert pool p. induction acc as [|a acc IH]; intros pool [|s p]; try done. intros [= H]. cbn [set_accesses map zip].
  rewrite list_alter_at_middle. specialize (IH (pool ++ [(s, a)]) p H). rewrite length_app, <- !app_assoc in IH.
  cbn in IH. rewrite Nat.add_1_r in IH. exact IH.
Qed.

(** ** Authoring histories *)

Inductive AuthorOp :=
  | AddEntry (h : CatalogEntry)
  | AddLayoutField (f : LayoutField)
  | AddBitfieldField (f : LayoutField) (bits : list (list byte))
  | AddSelectField (f : LayoutField) (options : list (list byte))
  | AddSchemaField (f : SchemaField)
  | AddSelectSchemaField (f : SchemaField) (options : list (list byte)) (optionAccess : list Z)
  | SetEventKinds (ls : list (list byte))
  | SetFieldSafe (v : SettingDefault)
  | AddStoreDescriptor (d : StoreDescriptor).

(** What an op adds to the story a catalog tells, when it is not refused. *)
Definition tell_op (op : AuthorOp) (l : list Described) : list Described :=
  match op with
  | AddEntry h => l ++ [described_header h []]
  | AddLayoutField f => on_last_described (d_add_layout ((bare_layout f, [], []), NoDefault)) l
  | AddBitfieldField f bits => on_last_described (d_add_layout ((bare_layout f, trim_holes bits, []), NoDefault)) l
  | AddSelectField f options => on_last_described (d_add_layout ((bare_layout f, [], options), NoDefault)) l
  | AddSchemaField f => on_last_described (d_add_schema ((bare_schema f, [], []), NoDefault)) l
  | AddSelectSchemaField f options acc =>
      on_last_described (d_add_schema
        ((bare_schema (f <| sf_hasOptionAccess := negb (length acc =? 0)%nat |>), options, acc), NoDefault)) l
  | SetEventKinds ls => on_last_described (d_set_kinds (trim_holes ls)) l
  | SetFieldSafe v => if sd_has v then on_last_described (d_set_safe v) l else l
  | AddStoreDescriptor d => on_last_described (d_set_store d) l
  end.

(** A field as an author writes it down: its references are for the catalog to fill. *)
Definition fresh_layout (f : LayoutField) : Prop :=
  lf_bits f = LabelRef_new /\ lf_options f = LabelRef_new /\ lf_safeSlot f = None.
Definition fresh_schema (f : SchemaField) : Prop :=
  sf_options f = LabelRef_new /\ sf_safeSlot f = None /\ sf_hasOptionAccess f = false.

Definition fresh_op (op : AuthorOp) : Prop :=
  match op with
  | AddEntry h => ce_eventKinds h = LabelRef_new
  | AddLayoutField f | AddBitfieldField f _ | AddSelectField f _ => fresh_layout f
  | AddSchemaField f | AddSelectSchemaField f _ _ => fresh_schema f
  | SetEventKinds _ | SetFieldSafe _ | AddStoreDescriptor _ => True
  end.

Section History.
Context (Entries LayoutFields SchemaFields Labels Stores SafeSlots : nat).

Definition perform (op : AuthorOp) : Author () :=
  match op with
  | AddEntry h => addEntry Entries h
  | AddLayoutField f => addLayoutField LayoutFields f
  | AddBitfieldField f bits => addBitfieldField LayoutFields Labels f bits
  | AddSelectField f options => addSelectField LayoutFields Labels f options
  | AddSchemaField f => addSchemaField SchemaFields f
  | AddSelectSchemaField f options acc => addSelectSchemaField SchemaFields Labels f options acc
  | SetEventKinds ls => setEventKinds Labels ls
  | SetFieldSafe v => setFieldSafe SafeSlots v
  | AddStoreDescriptor d => addStoreDescriptor Stores d
  end.

(** An op that is not [AddEntry] either advances the story or refuses, leaves it alone and says so. *)
Definition performs (g : list Described -> list Described) (c : Catalog) (out : Catalog * option ()) : Prop :=
  match out with
  | (c', Some _) => advances g c c' /\ overflow c' = overflow c
  | (c', None) => advances (fun l => l) c c' /\ overflow c' = true
  end.

Lemma performs_refused ls c : catalog_ok c -> performs (fun l => l) c ((more_labels ls c) <| overflow := true |>, None).
Proof.
  intros Hc. split; [|done].
  apply (advances_trans (fun l => l) (fun l => l) _ (more_labels ls c)); [by apply advance_labels|].
  by apply advance_overflow, (adv_ok _ _ _ (advance_labels ls c Hc)).
Qed.

Lemma performs_refused_any g ls c : catalog_ok c -> performs g c ((more_labels ls c) <| overflow := true |>, None).
Proof. apply performs_refused. Qed.

Lemma addLayoutField_performs f ls c :
  catalog_ok c -> layout_ok (more_labels ls c) f -> lf_safeSlot f = None ->
  performs (on_last_described (d_add_layout (describe_layout (more_labels ls c) f))) c
    (addLayoutField LayoutFields f (more_labels ls c)).
Proof.
  intros Hc Hok Hf. unfold addLayoutField, mbind, Author_bind, get_catalog, overflow_if.
  destruct (open_slice usesLayout LayoutFields (length (layoutPool (more_labels ls c))) (more_labels ls c)) eqn:E; cbn [negb].
  - split; [|done]. by apply (put_layout_advances LayoutFields ls f c).
  - by apply performs_refused_any.
Qed.

Lemma addSchemaField_performs f ls c :
  catalog_ok c -> schema_ok (more_labels ls c) f -> sf_safeSlot f = None ->
  performs (on_last_described (d_add_schema (describe_schema (more_labels ls c) f))) c
    (addSchemaField SchemaFields f (more_labels ls c)).
Proof.
  intros Hc Hok Hf. unfold addSchemaField, mbind, Author_bind, get_catalog, overflow_if.
  destruct (open_slice usesSchema SchemaFields (length (schemaPool (more_labels ls c))) (more_labels ls c)) eqn:E; cbn [negb].
  - split; [|done]. by apply (put_schema_advances SchemaFields ls f c).
  - by apply performs_refused_any.
Qed.

Lemma names_watched p : map fst (map watched p) = p.
Proof. induction p as [|s p IH]; [done|]. cbn. by rewrite IH. Qed.

Lemma labels_none c : labels LabelRef_new c = [].
Proof. done. Qed.

Lemma ref_none n : ref_ok n LabelRef_new.
Proof. by left. Qed.

Lemma addBitfieldField_performs f p c :
  catalog_ok c -> fresh_layout f -> performs (tell_op (AddBitfieldField f p)) c (addBitfieldField LayoutFields Labels f p c).
Proof.
  intros Hc (Hb & Ho & Hs). unfold addBitfieldField, mbind, Author_bind.
  pose proof (internLabels_spec Labels p 8 c) as Hi. destruct (internLabels Labels p 8 c) as [c' [r|]].
  - destruct Hi as (-> & Hr & Hl & _).
    assert (Heq : describe_layout (more_labels (map watched (trim_holes p)) c) (f <| lf_bits := r |>)
            = ((bare_layout f, trim_holes p, []), NoDefault)).
    { unfold describe_layout, shown, layout_body, labels. cbn [lf_bits lf_options lf_safeSlot update_field lf_bits_field].
      by rewrite Hl, names_watched, Ho, Hs. }
    unfold tell_op. rewrite <- Heq. apply addLayoutField_performs; [done| |done].
    split_and!; [done|cbn; rewrite Ho; apply ref_none|by cbn; rewrite Hs].
  - destruct Hi as [ls ->]. by apply performs_refused_any.
Qed.

Lemma addSelectField_performs f p c :
  catalog_ok c -> fresh_layout f -> performs (tell_op (AddSelectField f p)) c (addSelectField LayoutFields Labels f p c).
Proof.
  intros Hc (Hb & Ho & Hs). unfold addSelectField, checkOptionLabels, overflow_if, mbind, Author_bind.
  destruct (existsb _ p) eqn:Ee.
  { rewrite <- (more_labels_nil c) at 2. by apply performs_refused_any. }
  cbv beta iota. unfold mret, Author_ret.
  pose proof (internLabels_spec Labels p kMaxCount c) as Hi. destruct (internLabels Labels p kMaxCount c) as [c' [r|]].
  - rewrite trim_holes_full in Hi by done. destruct Hi as (-> & Hr & Hl & _).
    assert (Heq : describe_layout (more_labels (map watched p) c) (f <| lf_options := r |>) = ((bare_layout f, [], p), NoDefault)).
    { unfold describe_layout, shown, layout_body, labels. cbn [lf_bits lf_options lf_safeSlot update_field lf_options_field].
      by rewrite Hl, names_watched, Hb, Hs. }
    unfold tell_op. rewrite <- Heq. apply addLayoutField_performs; [done| |done].
    split_and!; [cbn; rewrite Hb; apply ref_none|done|by cbn; rewrite Hs].
  - destruct Hi as [ls ->]. by apply performs_refused_any.
Qed.

Lemma zip_fst {A B} (l : list A) (k : list B) : length l = length k -> map fst (zip l k) = l.
Proof. revert k. induction l as [|x l IH]; intros [|y k]; try done. intros [= H]. cbn. by rewrite IH. Qed.

Lemma zip_snd {A B} (l : list A) (k : list B) : length l = length k -> map snd (zip l k) = k.
Proof. revert k. induction l as [|x l IH]; intros [|y k]; try done. intros [= H]. cbn. by rewrite IH. Qed.

Lemma refused_here g c : catalog_ok c -> performs g c (c <| overflow := true |>, None).
Proof. intros Hc. rewrite <- (more_labels_nil c) at 2. by apply performs_refused_any. Qed.

(** The labels were interned with [watch]; the option access then overwrites exactly those. *)
Lemma restrict_labels p acc c :
  p <> [] -> length acc = length p ->
  (more_labels (map watched p) c) <| labelPool ::= set_accesses (length (labelPool c)) acc |> = more_labels (zip p acc) c.
Proof.
  intros _ Hl. destruct c. unfold more_labels, update_field, labelPool_field. cbn [labelPool]. by rewrite set_accesses_spec.
Qed.

Lemma addSelectSchemaField_performs f p acc c :
  catalog_ok c -> fresh_schema f ->
  performs (tell_op (AddSelectSchemaField f p acc)) c (addSelectSchemaField SchemaFields Labels f p acc c).
Proof.
  intros Hc (Ho & Hs & Ha). unfold addSelectSchemaField, checkOptionLabels, mbind, Author_bind.
  unfold overflow_if at 1. destruct (negb (length acc =? 0)%nat && negb (length acc =? length p)%nat) eqn:El.
  { by apply refused_here. }
  unfold overflow_if. destruct (existsb _ p) eqn:Ee; [by apply refused_here|].
  unfold mret, Author_ret. cbv beta iota.
  pose proof (internLabels_spec Labels p kMaxCount c) as Hi. destruct (internLabels Labels p kMaxCount c) as [c' [r|]];
    [|destruct Hi as [ls ->]; by apply performs_refused_any].
  rewrite trim_holes_full in Hi by done. destruct Hi as (-> & Hr & Hl & Hrv). unfold tell_op.
  destruct (Nat.eqb_spec (length acc) 0) as [E0|E0]; cbn [negb andb] in *.
  - apply nil_length_inv in E0 as ->.
    assert (Heq : describe_schema (more_labels (map watched p) c) (f <| sf_options := r |>)
            = ((bare_schema (f <| sf_hasOptionAccess := false |>), p, []), NoDefault)).
    { unfold describe_schema, shown, schema_body, labels, optionAccess.
      cbn [sf_options sf_hasOptionAccess sf_safeSlot update_field sf_options_field]. rewrite Hl, names_watched, Hs, Ha.
      destruct f. cbn in Ha. by subst. }
    rewrite <- Heq. apply addSchemaField_performs; [done| |done]. split; [done|by cbn; rewrite Hs].
  - apply negb_false_iff, Nat.eqb_eq in El.
    assert (p <> []) as Hp by (intros ->; cbn in El; lia). specialize (Hrv Hp). subst r. cbn [lr_offset lr_count].
    unfold modify. cbv beta iota. rewrite Nat2Z.id, (take_ge acc) by lia. rewrite restrict_labels by done.
    destruct (labels_fresh (zip p acc) c) as [Hr' Hl']. rewrite length_zip_with, Nat.min_l in Hr', Hl' by lia.
    set (r := mkLabelRef _ _) in *.
    assert (Heq : describe_schema (more_labels (zip p acc) c) (f <| sf_options := r |> <| sf_hasOptionAccess := true |>)
            = ((bare_schema (f <| sf_hasOptionAccess := true |>), p, acc), NoDefault)).
    { unfold describe_schema, shown, schema_body, labels, optionAccess, labelAccess.
      cbn [sf_options sf_hasOptionAccess sf_safeSlot update_field sf_options_field sf_hasOptionAccess_field].
      by rewrite Hl', zip_fst, zip_snd, Hs. }
    rewrite <- Heq. apply addSchemaField_performs; [done| |done]. split; [done|by cbn; rewrite Hs].
Qed.

Lemma setEventKinds_performs p c : catalog_ok c -> performs (tell_op (SetEventKinds p)) c (setEventKinds Labels p c).
Proof.
  intros Hc. unfold setEventKinds, mbind, Author_bind, get_catalog, overflow_if.
  destruct (last_entry c) as [e|] eqn:Ee; [|by apply refused_here].
  apply last_entry_Some in Ee as [es Ee]. destruct (negb _); [by apply refused_here|].
  unfold mret, Author_ret. cbv beta iota.
  pose proof (internLabels_spec Labels p kMaxCount c) as Hi. destruct (internLabels Labels p kMaxCount c) as [c' [r|]];
    [|destruct Hi as [ls ->]; by apply performs_refused_any].
  destruct Hi as (-> & Hr & Hl & _). split; [|done]. unfold tell_op.
  pose proof (put_kinds_advances (map watched (trim_holes p)) r c es e Hc Ee Hr) as Hadv.
  assert (labels r (more_labels (map watched (trim_holes p)) c) = trim_holes p) as E by (unfold labels; by rewrite Hl, names_watched).
  apply (advances_ext _ _ _ _ (fun l => f_equal (fun k => on_last_described (d_set_kinds k) l) E)). exact Hadv.
Qed.

Lemma addStoreDescriptor_performs d c :
  catalog_ok c -> performs (tell_op (AddStoreDescriptor d)) c (addStoreDescriptor Stores d c).
Proof.
  intros Hc. unfold addStoreDescriptor, mbind, Author_bind, get_catalog, overflow_if.
  destruct (last_entry c) as [e|] eqn:Ee; [|by apply refused_here].
  apply last_entry_Some in Ee as [es Ee]. destruct (_ || _) eqn:G; [by apply refused_here|].
  rewrite !orb_false_iff, !negb_false_iff, !Nat.eqb_eq in G. destruct G as (((? & ?) & ?) & ?).
  split; [|done]. by apply (put_store_advances d c es e).
Qed.

Lemma safe_slots_alter_layout i idx c f :
  layoutPool c !! idx = Some f -> lf_safeSlot f = None ->
  omap lf_safeSlot (alter (fun f => f <| lf_safeSlot := Some i |>) idx (layoutPool c)) ≡ₚ i :: omap lf_safeSlot (layoutPool c).
Proof.
  intros Hf Hn. apply list_elem_of_split_length in Hf as (l1 & l2 & -> & ->).
  rewrite list_alter_at_middle, !omap_app. cbn. rewrite Hn. by rewrite Permutation_middle.
Qed.

Lemma safe_slots_alter_schema i idx c f :
  schemaPool c !! idx = Some f -> sf_safeSlot f = None ->
  omap sf_safeSlot (alter (fun f => f <| sf_safeSlot := Some i |>) idx (schemaPool c)) ≡ₚ i :: omap sf_safeSlot (schemaPool c).
Proof.
  intros Hf Hn. apply list_elem_of_split_length in Hf as (l1 & l2 & -> & ->).
  rewrite list_alter_at_middle, !omap_app. cbn. rewrite Hn. by rewrite Permutation_middle.
Qed.

Lemma slots_below c i : catalog_ok c -> i ∈ safe_slots c -> (i < length (safePool c))%nat.
Proof.
  intros [_ _ Hl Hs _] [Hi|Hi]%elem_of_app; apply list_elem_of_omap in Hi as (f & Hf & E).
  - rewrite Forall_forall in Hl. destruct (Hl f Hf) as (_ & _ & H3). by rewrite E in H3.
  - rewrite Forall_forall in Hs. destruct (Hs f Hf) as (_ & H3). by rewrite E in H3.
Qed.

Lemma omap_distinct {F} (slot : F -> SafeSlot) (l : list F) (j k : nat) f g i :
  NoDup (omap slot l) -> l !! j = Some f -> l !! k = Some g -> slot f = Some i -> slot g = Some i -> j = k.
Proof.
  revert j k. induction l as [|x l IH]; intros j k Hn Hj Hk Ef Eg; [done|]. cbn in Hn.
  assert (NoDup (omap slot l)) as Hn' by (destruct (slot x); [by apply NoDup_cons in Hn as []|done]).
  destruct j as [|j], k as [|k]; cbn in Hj, Hk.
  - done.
  - injection Hj as ->. rewrite Ef in Hn. apply NoDup_cons in Hn as [Hn _]. exfalso. apply Hn, list_elem_of_omap.
    exists g. split; [by eapply list_elem_of_lookup_2|done].
  - injection Hk as ->. rewrite Eg in Hn. apply NoDup_cons in Hn as [Hn _]. exfalso. apply Hn, list_elem_of_omap.
    exists f. split; [by eapply list_elem_of_lookup_2|done].
  - f_equal. by apply (IH j k).
Qed.

Lemma elem_slot {F} (slot : F -> SafeSlot) (l : list F) (j : nat) f i : l !! j = Some f -> slot f = Some i -> i ∈ omap slot l.
Proof. intros Hj E. apply list_elem_of_omap. exists f. split; [by eapply list_elem_of_lookup_2|done]. Qed.

(** The last field of a layout or schema entry, and the slot it has. *)
Lemma last_field c es e :
  catalog_ok c -> entries c = es ++ [e] -> ce_fieldCount e <> 0%nat -> usesStore e = false ->
  let idx := (ce_fieldOffset e + ce_fieldCount e - 1)%nat in
  (form e = if usesLayout e then Layout else Schema)
  /\ if usesLayout e then is_Some (layoutPool c !! idx) else is_Some (schemaPool c !! idx).
Proof.
  intros [He _ _ _ _] Ee H0 Hs idx. rewrite Ee in He. apply Forall_app in He as [_ He]. rewrite Forall_singleton in He.
  destruct He as (Hin & _ & _). unfold usesStore, usesLayout in *. apply bool_decide_eq_false in Hs. subst idx.
  destruct (form e); cbn in *; (split; [done|]); first [apply lookup_lt_is_Some_2; lia|done].
Qed.

Section SafeCases.
Context (v : SettingDefault) (c : Catalog) (es : list CatalogEntry) (e : CatalogEntry).
Hypothesis Hc : catalog_ok c.
Hypothesis Ee : entries c = es ++ [e].
Hypothesis some_field : (0 < ce_fieldCount e)%nat.
Let idx := (ce_fieldOffset e + ce_fieldCount e - 1)%nat.

(** The field had no slot: it gets the one after the last. *)
Lemma fill_new_slot layout :
  (form e = if (layout : bool) then Layout else Schema) ->
  (if layout then is_Some (layoutPool c !! idx) else is_Some (schemaPool c !! idx)) -> field_slot layout idx c = None ->
  advances (on_last_described (d_set_safe v)) c (safe_result c e (length (safePool c)) (safePool c ++ [v]) layout).
Proof.
  intros Hf Hlast Es.
  assert (length (safePool c) ∉ safe_slots c) as Hfresh by (intros Hin%slots_below; [lia|done]).
  unfold safe_slots in Hfresh. apply not_elem_of_app in Hfresh as [Hfl Hfs].
  pose proof Hc as [_ _ _ _ Hno]. unfold safe_slots in Hno.
  apply (advance_safe c es e _ v); try done.
  - apply lookup_middle.
  - intros j Hj. destruct (decide (j < length (safePool c))%nat); [by rewrite lookup_app_l|].
    rewrite !lookup_ge_None_2; [done| |]; rewrite ?length_app; cbn; lia.
  - rewrite length_app. lia.
  - intros j f Hj _ E. apply Hfl. by eapply elem_slot.
  - intros j f Hj _ E. apply Hfs. by eapply elem_slot.
  - unfold field_slot in Es. unfold safe_slots, safe_result. fold idx. destruct layout; cbn [set_field_slot] in *;
      destruct Hlast as [f Hlast]; rewrite Hlast in Es; cbn in Es.
    + cbn. rewrite (safe_slots_alter_layout _ _ c f) by done. cbn. constructor; [|done]. by rewrite not_elem_of_app.
    + cbn. rewrite (safe_slots_alter_schema _ _ c f), <- Permutation_middle by done. constructor; [|done]. by rewrite not_elem_of_app.
  - intros m R T. apply T.
Qed.

(** The field had a slot: the value in it is replaced. *)
Lemma fill_old_slot layout s :
  (form e = if (layout : bool) then Layout else Schema) -> field_slot layout idx c = Some s ->
  (s < length (safePool c))%nat /\
  advances (on_last_described (d_set_safe v)) c (c <| safePool ::= <[s := v]> |>).
Proof.
  intros Hf Es. pose proof Hc as [_ _ Hl Hsch Hno]. unfold safe_slots in Hno. apply NoDup_app in Hno as (Hnl & Hx & Hns).
  assert (s ∈ safe_slots c) as Hin.
  { unfold safe_slots. apply elem_of_app. unfold field_slot in Es.
    destruct layout; apply bind_Some in Es as (f & Hj & E); [left|right]; by eapply elem_slot. }
  pose proof (slots_below c s Hc Hin) as Hlt. split; [done|].
  assert (c <| safePool ::= <[s := v]> |> = safe_result c e s (<[s := v]> (safePool c)) layout) as Heq.
  { unfold safe_result. fold idx. unfold field_slot in Es. destruct layout; apply bind_Some in Es as (f & Hj & E);
      apply list_elem_of_split_length in Hj as (l1 & l2 & Hj & ->); destruct c; unfold update_field, safePool_field; cbn in *; subst;
      unfold update_field, layoutPool_field, schemaPool_field; cbn; rewrite list_alter_at_middle;
      destruct f; cbn in E; by subst. }
  rewrite Heq. apply (advance_safe c es e s v); try done.
  - by apply list_lookup_insert_eq.
  - intros j Hj. by apply list_lookup_insert_ne.
  - by rewrite length_insert.
  - intros j f Hj Hne E. unfold field_slot in Es. destruct layout; apply bind_Some in Es as (g & Hg & Eg).
    + apply Hne; [done|]. by apply (omap_distinct lf_safeSlot (layoutPool c) j idx f g s).
    + apply (Hx s); by eapply elem_slot.
  - intros j f Hj Hne E. unfold field_slot in Es. destruct layout; apply bind_Some in Es as (g & Hg & Eg).
    + apply (Hx s); by eapply elem_slot.
    + apply Hne; [done|]. by apply (omap_distinct sf_safeSlot (schemaPool c) j idx f g s).
  - rewrite <- Heq. unfold safe_slots. cbn. by apply NoDup_app.
  - intros m R T. assert (mark_length m (form e) <= idx)%nat as Hb by by eapply (idx_behind c es e (safePool c)). destruct T as [_ _ _ _ _ T6 T7].
    unfold field_slot in Es. rewrite Hf in Hb. destruct layout; apply bind_Some in Es as (g & Hg & Eg).
    + rewrite Forall_forall in T6. specialize (T6 g). rewrite Eg in T6. apply T6.
      apply list_elem_of_lookup_2 with (idx - mk_layoutUsed m)%nat. rewrite lookup_drop. cbn in Hb. by rewrite Nat.add_sub_assoc, Nat.add_comm, Nat.add_sub.
    + rewrite Forall_forall in T7. specialize (T7 g). rewrite Eg in T7. apply T7.
      apply list_elem_of_lookup_2 with (idx - mk_schemaUsed m)%nat. rewrite lookup_drop. cbn in Hb. by rewrite Nat.add_sub_assoc, Nat.add_comm, Nat.add_sub.
Qed.

End SafeCases.

Lemma setFieldSafe_performs v c : catalog_ok c -> performs (tell_op (SetFieldSafe v)) c (setFieldSafe SafeSlots v c).
Proof.
  intros Hc. unfold setFieldSafe, mbind, Author_bind, get_catalog, overflow_if, tell_op.
  destruct (last_entry c) as [e|] eqn:Ee; [|by apply refused_here].
  apply last_entry_Some in Ee as [es Ee]. destruct (_ || _) eqn:G; [by apply refused_here|].
  apply orb_false_iff in G as [H0%Nat.eqb_neq Hs]. unfold mret, Author_ret. cbv beta iota zeta.
  destruct (sd_has v); cbn [negb]; [|by split; [apply advance_same|]].
  destruct (last_field c es e Hc Ee H0 Hs) as [Hf Hlast]. set (idx := (_ + _ - 1)%nat) in *.
  pose proof Hc as [_ _ Hl Hsch Hno].
  destruct (field_slot (usesLayout e) idx c) as [s|] eqn:Es.
  - destruct (fill_old_slot v c es e Hc Ee ltac:(lia) (usesLayout e) s Hf Es) as [Hlt Ha].
    by rewrite (proj2 (Nat.ltb_lt _ _) Hlt).
  - unfold poolAddSafe, get_catalog, mbind, Author_bind, overflow_if. destruct (SafeSlots <=? _)%nat; [by apply refused_here|].
    split; [|by destruct (usesLayout e)]. by apply (fill_new_slot v c es e Hc Ee ltac:(lia)).
Qed.

(** [fixed]: the mark and the entries before it. *)
Inductive HistoryOp := Author_op (op : AuthorOp) | MarkUserSpace | ClearUserSpace | Clear.

Definition history_step (c : Catalog) (h : HistoryOp) : Catalog :=
  match h with
  | Author_op op => (perform op c).1
  | MarkUserSpace => markUserSpace c
  | ClearUserSpace => clearUserSpace c
  | Clear => clear c
  end.

Definition history (hs : list HistoryOp) : Catalog := foldl history_step Catalog_new hs.

Definition Story : Type := list Described * option (list Described).

Definition tell (s : Story) (h : HistoryOp) : Story :=
  match h, s with
  | Author_op op, (l, fixed) => (tell_op op l, fixed)
  | MarkUserSpace, (l, _) => (l, Some l)
  | ClearUserSpace, (l, Some l') => (l', Some l')
  | ClearUserSpace, (l, None) => (l, None)
  | Clear, _ => ([], None)
  end.

Definition story (hs : list HistoryOp) : Story := foldl tell ([], None) hs.

(** An op is in order when its argument is fresh and, behind a mark, it starts or extends an entry of the
    user space. *)
Definition in_order (c : Catalog) (h : HistoryOp) : Prop :=
  match h with
  | Author_op op =>
      fresh_op op /\
      match op, userSpaceMark c with AddEntry _, _ | _, None => True | _, Some m => room m c end
  | _ => True
  end.

Fixpoint authored (c : Catalog) (hs : list HistoryOp) : Prop :=
  match hs with [] => True | h :: hs => in_order c h /\ authored (history_step c h) hs end.

Definition told (c : Catalog) (s : Story) : Prop :=
  catalog_ok c /\ (overflow c = false -> description c = s.1) /\
  match userSpaceMark c, s.2 with
  | None, None => True
  | Some m, Some l => tail_ok m c /\ catalog_ok (cut m c) /\ (mk_overflow m = false -> description (cut m c) = l)
  | _, _ => False
  end.

Lemma catalog_new_ok : catalog_ok Catalog_new.
Proof. split; cbn; constructor. Qed.

(** Ops that do not start an entry. *)
Lemma told_performs g c c' r s :
  told c s -> performs g c (c', r) -> match userSpaceMark c with Some m => room m c | None => True end -> told c' (g s.1, s.2).
Proof.
  intros (Hok & Hd & Hm) Hp Hr. assert (exists k, advances k c c' /\ (overflow c' = false -> k = g /\ overflow c = false)) as (k & [A1 A2 A3 A4] & Ho).
  { destruct r as [u|]; [exists g|exists (fun l => l)]; destruct Hp as [Ha E]; split; try done; [intros; by rewrite <- E|congruence]. }
  split_and!; [done| |].
  - intros E. destruct (Ho E) as [-> E']. by rewrite A2, Hd.
  - rewrite A3. cbn [snd]. destruct (userSpaceMark c) as [m|], s.2 as [l|]; try done. destruct Hm as (T & Hc & Hl).
    destruct (A4 m Hr T) as (T' & Ec & _). rewrite Ec. by split_and!.
Qed.

Lemma told_entry h c s : told c s -> ce_eventKinds h = LabelRef_new -> told (addEntry Entries h c).1 (tell_op (AddEntry h) s.1, s.2).
Proof.
  intros (Hok & Hd & Hm) Hk. unfold addEntry, mbind, Author_bind, get_catalog, overflow_if. destruct (Entries <=? _)%nat.
  - assert (told (c <| overflow := true |>) (tell_op (AddEntry h) s.1, s.2)) as Ht; [|exact Ht].
    split_and!; [by apply (adv_ok _ _ _ (advance_overflow c Hok))|done|]. cbn. destruct (userSpaceMark c), s.2; try done.
    destruct Hm as (T & ?). split; [|done]. by destruct T; split.
  - assert (ref_ok (length (labelPool c)) (ce_eventKinds h)) as Hr by (rewrite Hk; apply ref_none).
    destruct (put_entry_advances h c Hok Hr) as (Hok' & Hd' & Ht).
    assert (told (put_entry h c) (tell_op (AddEntry h) s.1, s.2)) as Htold.
    { split_and!; [done| |].
      - intros E. cbn in E. rewrite Hd', Hd by done. unfold tell_op. by rewrite Hk.
      - change (userSpaceMark (put_entry h c)) with (userSpaceMark c). cbn [snd].
        destruct (userSpaceMark c) as [m|], s.2 as [l|]; try done. destruct Hm as (T & Hc & Hl).
        destruct (Ht m T) as (T' & Ec & _). rewrite Ec. by split_and!. }
    unfold put_entry, placed in Htold. unfold modify, mret, Author_ret. by destruct (form h).
Qed.

Lemma told_mark c s : told c s -> told (markUserSpace c) (s.1, Some s.1).
Proof.
  intros (Hok & Hd & _). set (m := mkMark (length (entries c)) (length (layoutPool c)) (length (schemaPool c))
    (length (labelPool c)) (length (storePool c)) (length (safePool c)) (overflow c)).
  assert (cut m (markUserSpace c) = markUserSpace c) as Ecut by by destruct c; unfold cut; cbn; rewrite !take_ge.
  assert (catalog_ok (markUserSpace c)) as Hok' by by destruct Hok; split.
  split_and!; [done|exact Hd|]. change (userSpaceMark (markUserSpace c)) with (Some m). cbn [snd].
  rewrite Ecut. split_and!; [|done|exact Hd].
  split; cbn; try done; try by rewrite drop_all.
Qed.

Lemma told_clear c s : told c s -> told (clearUserSpace c) (tell s ClearUserSpace).
Proof.
  intros (Hok & Hd & Hm). unfold clearUserSpace. destruct s as [l fixed]. cbn in *.
  destruct (userSpaceMark c) as [m|] eqn:Em, fixed as [l'|]; try done; [|by split_and!; [| |rewrite Em]].
  destruct Hm as ([T1 T2 T3 T4 _ _ _] & Hc & Hl). pose proof (T2 Layout). pose proof (T2 Schema). pose proof (T2 Store). cbn in *.
  split_and!; [done|done|]. cbn. split_and!.
  - split; cbn; rewrite ?length_take; try lia; rewrite ?drop_ge by (rewrite length_take; lia); try constructor.
    intros []; cbn; rewrite length_take; lia.
  - unfold cut at 1. cbn. rewrite !take_take, !Nat.min_id. exact Hc.
  - intros Eo. rewrite <- (Hl Eo). unfold cut at 1. cbn. by rewrite !take_take, !Nat.min_id.
Qed.

Lemma told_step c s h : told c s -> in_order c h -> told (history_step c h) (tell s h).
Proof.
  intros Ht. pose proof Ht as (Hok & _). destruct s as [l fixed].
  assert (forall op, fresh_op op -> match userSpaceMark c with Some m => room m c | None => True end ->
            performs (tell_op op) c (perform op c) -> told (perform op c).1 (tell_op op l, fixed)) as Hstep.
  { intros op Hf Hr Hp. destruct (perform op c) as [c' r]. by apply (told_performs _ c c' r (l, fixed)). }
  destruct h as [op| | |].
  - intros [Hf Hr]. cbn [history_step tell]. destruct op; [by apply (told_entry h c (l, fixed))|apply Hstep; [done|done|]..].
    + destruct Hf as (Hb & Ho & Hs). pose proof (addLayoutField_performs f [] c Hok) as Hp. rewrite !more_labels_nil in Hp.
      assert (describe_layout c f = ((bare_layout f, [], []), NoDefault)) as E.
      { unfold describe_layout, shown, layout_body, labels. by rewrite Hb, Ho, Hs. }
      unfold tell_op. rewrite <- E. apply Hp; [|done]. split_and!; [rewrite Hb; apply ref_none|rewrite Ho; apply ref_none|by rewrite Hs].
    + by apply addBitfieldField_performs.
    + by apply addSelectField_performs.
    + destruct Hf as (Ho & Hs & Ha). pose proof (addSchemaField_performs f [] c Hok) as Hp. rewrite !more_labels_nil in Hp.
      assert (describe_schema c f = ((bare_schema f, [], []), NoDefault)) as E.
      { unfold describe_schema, shown, schema_body, labels, optionAccess. by rewrite Ho, Ha, Hs. }
      unfold tell_op. rewrite <- E. apply Hp; [|done]. split; [rewrite Ho; apply ref_none|by rewrite Hs].
    + by apply addSelectSchemaField_performs.
    + by apply setEventKinds_performs.
    + by apply setFieldSafe_performs.
    + by apply addStoreDescriptor_performs.
  - intros _. by apply (told_mark c (l, fixed)).
  - intros _. by apply (told_clear c (l, fixed)).
  - intros _. split_and!; [apply catalog_new_ok|done|done].
Qed.

Lemma told_history hs : authored Catalog_new hs -> told (history hs) (story hs).
Proof.
  unfold history, story. assert (told Catalog_new ([], None)) as Ht by by split_and!; [apply catalog_new_ok| |].
  revert Ht. generalize Catalog_new, (([], None) : Story). induction hs as [|h hs IH]; intros c s Ht; [done|].
  intros [Hi Ha]. cbn [foldl]. apply IH; [by apply told_step|done].
Qed.

End History.

Lemma labels_all r c : ref_ok (length (labelPool c)) r -> length (labels r c) = lr_count r.
Proof.
  intros Hr. unfold labels, labels_of. rewrite length_map. destruct Hr as [->|[H0 H1]]; [done|].
  destruct (Nat.eqb_spec (lr_count r) 0) as [->|]; [done|]. rewrite (proj2 (Z.ltb_ge _ _)) by lia. cbn [orb].
  rewrite length_subspan. lia.
Qed.

Lemma slice_all {A} (pool : list A) e :
  (ce_fieldOffset e + ce_fieldCount e <= length pool)%nat -> length (slice pool e) = ce_fieldCount e.
Proof. intros H. unfold slice. rewrite (proj2 (Nat.ltb_ge _ _)) by done. rewrite length_subspan. lia. Qed.

(** ** Properties *)

(** Catalogs are well typed.  Along every authoring history, whatever was refused on the way, no
    reference dangles: every entry's fields are all found in the pool of its form, every label reference
    of a field or entry has all its labels, every safe slot exists, and no two fields share one; so the
    accessors never cut an entry short and never read another entry's fields. *)
Theorem catalog_typed (Entries LayoutFields SchemaFields Labels Stores SafeSlots : nat) hs :
  let run := history Entries LayoutFields SchemaFields Labels Stores SafeSlots in
  authored Entries LayoutFields SchemaFields Labels Stores SafeSlots Catalog_new hs ->
  catalog_ok (run hs)
  /\ forall e, e ∈ entries (run hs) ->
       length (labels (ce_eventKinds e) (run hs)) = lr_count (ce_eventKinds e)
       /\ match form e with
          | Layout => length (layoutFields e (run hs)) = ce_fieldCount e
          | Schema => length (schemaFields e (run hs)) = ce_fieldCount e
          | Store => ce_fieldCount e = 1%nat -> is_Some (storeDescriptor e (run hs))
          end.
Proof.
  intros run Ha. destruct (told_history _ _ _ _ _ _ hs Ha) as (Hok & _). fold (run hs) in *. split; [done|]. intros e He.
  destruct Hok as [Hen _ _ _ _]. rewrite Forall_forall in Hen. destruct (Hen e He) as (Hin & _ & Hr). split.
  - by apply labels_all.
  - destruct (form e) eqn:F; cbn in Hin.
    + unfold layoutFields, usesLayout. rewrite F. cbn. by apply slice_all.
    + unfold schemaFields, usesSchema. rewrite F. cbn. by apply slice_all.
    + intros E1. unfold storeDescriptor, usesStore. rewrite F, E1. cbn [bool_decide decide negb orb Nat.eqb].
      rewrite (proj2 (Nat.ltb_ge _ _)) by lia. apply lookup_lt_is_Some_2. lia.
Qed.

(** C38. Reading back what was authored.  Unless the overflow flag is up, the catalog describes, in order
    and field by field, exactly the entries that were authored, with their own labels, option access and
    safe values; rebuilding the user space brings back exactly the fixed entries that were there when it
    was marked, even after a rebuild that overflowed. *)
Theorem authoring_refines (Entries LayoutFields SchemaFields Labels Stores SafeSlots : nat) hs :
  let run := history Entries LayoutFields SchemaFields Labels Stores SafeSlots in
  authored Entries LayoutFields SchemaFields Labels Stores SafeSlots Catalog_new hs -> overflow (run hs) = false ->
  description (run hs) = (story hs).1.
Proof. intros run Ha Ho. by apply (told_history _ _ _ _ _ _ hs Ha). Qed.

(** ** At concrete inputs *)

Definition sample_flair : Flair := mkFlair [] [] [] None 0 None None None None None.
Definition sample_entry (id cls : Z) : CatalogEntry :=
  mkCatalogEntry id [Byte.x61] cls h2c 0 0 1 0 0 None [] None None 0 None None [] LabelRef_new None.
Definition sample_layout : LayoutField :=
  mkLayoutField [Byte.x62] bitfield8 [] 0 None None LabelRef_new LabelRef_new NoDefault None sample_flair None.
Definition sample_schema : SchemaField :=
  mkSchemaField 1 [Byte.x63] uint_ft [] None None NoDefault LabelRef_new None false 0 sample_flair None.

(** A fixed STATE entry, and twice a user-space one. *)
Definition sample_history : list HistoryOp :=
  [Author_op (AddEntry (sample_entry 3 ChannelClass.STATE));
   Author_op (AddBitfieldField sample_layout [[Byte.x64]; []; [Byte.x65]; []]); Author_op (SetFieldSafe (DInt 0));
   MarkUserSpace;
   Author_op (AddEntry (sample_entry 0x8000 ChannelClass.EVENT)); Author_op (SetEventKinds [[Byte.x66]]);
   ClearUserSpace;
   Author_op (AddEntry (sample_entry 0x8001 ChannelClass.INTENT));
   Author_op (AddSelectSchemaField sample_schema [[Byte.x67]; [Byte.x68]] [1; 2]); Author_op (SetFieldSafe (DInt 1))].

Ltac concretely := vm_compute; repeat split; try lia; try done.

Lemma catalog_typed_witness :
  authored 2 1 1 5 0 2 Catalog_new sample_history /\ catalog_ok (history 2 1 1 5 0 2 sample_history).
Proof.
  assert (authored 2 1 1 5 0 2 Catalog_new sample_history) as Ha by concretely.
  split; [exact Ha|]. exact (proj1 (catalog_typed 2 1 1 5 0 2 sample_history Ha)).
Defined.

Lemma authoring_refines_witness :
  overflow (history 2 1 1 5 0 2 sample_history) = false
  /\ description (history 2 1 1 5 0 2 sample_history)
     = [mkDescribed (sample_entry 3 ChannelClass.STATE) []
          (PLayout [((sample_layout, [[Byte.x64]; []; [Byte.x65]], []), DInt 0)]);
        mkDescribed (sample_entry 0x8001 ChannelClass.INTENT) []
          (PSchema [((sample_schema <| sf_hasOptionAccess := true |>, [[Byte.x67]; [Byte.x68]], [1; 2]), DInt 1)])].
Proof.
  assert (authored 2 1 1 5 0 2 Catalog_new sample_history) as Ha by concretely.
  assert (overflow (history 2 1 1 5 0 2 sample_history) = false) as Ho by reflexivity.
  split; [exact Ho|]. exact (authoring_refines 2 1 1 5 0 2 sample_history Ha Ho).
Defined.

(** The order matters: when the user space is full, an entry is refused and the next field goes to the
    last fixed entry; rebuilding the user space then cuts the pool but not that entry's count, so the
    fixed entry reads as having no fields at all, with the overflow flag down. *)
Definition careless_history : list HistoryOp :=
  [Author_op (AddEntry (sample_entry 3 ChannelClass.STATE)); Author_op (AddLayoutField sample_layout); MarkUserSpace;
   Author_op (AddEntry (sample_entry 0x8000 ChannelClass.STATE)); Author_op (AddLayoutField sample_layout); ClearUserSpace].

Lemma careless_rebuild_loses_fields :
  let run hs := history 1 2 0 0 0 0 hs in
  description (run (take 3 careless_history)) = [mkDescribed (sample_entry 3 ChannelClass.STATE) [] (PLayout [((sample_layout, [], []), NoDefault)])]
  /\ overflow (run careless_history) = false
  /\ description (run careless_history) = [mkDescribed (sample_entry 3 ChannelClass.STATE) [] (PLayout [])].
Proof. split_and!; reflexivity. Qed.
