(* ===== verification/Queues.v ===== *)
(** * Queues: the two bounded rings of a session (channel/intent_registry.hpp, channel/event_channel.hpp)

    [IntentRing] remembers the ECHO of the last [Depth] intents (SPEC 9.3), [EventQueue] holds the events
    a subscriber has not been sent yet, dropping the oldest (SPEC 9.4).  Both are arrays used circularly:
    the first section says once what such an array holds. *)

From S2P Require Import Prelude.
From stdpp Require Import list.
#[local] Open Scope Z_scope.

(** ** Circular arrays *)

Section Ring.
Context {A : Type} (Depth : nat).

(** [slots] holds the queue [q] (oldest first) from index [tail] on. *)
Record holds (slots : list A) (tail : nat) (q : list A) : Prop := {
  holds_depth : length slots = Depth;
  holds_tail : (tail < Depth)%nat;
  holds_fits : (length q <= Depth)%nat;
  holds_at i x : q !! i = Some x -> slots !! ((tail + i) mod Depth)%nat = Some x
}.

Lemma slot_apart tail i j :
  (tail < Depth)%nat -> (i < Depth)%nat -> (j < Depth)%nat -> i <> j ->
  ((tail + i) mod Depth <> (tail + j) mod Depth)%nat.
Proof.
  intros Ht Hi Hj Hij He. apply Hij.
  pose proof (Nat.div_mod_eq (tail + i) Depth). pose proof (Nat.div_mod_eq (tail + j) Depth).
  assert ((tail + i) / Depth = 0 \/ (tail + i) / Depth = 1)%nat.
  { assert ((tail + i) / Depth < 2)%nat by (apply Nat.Div0.div_lt_upper_bound; lia). lia. }
  assert ((tail + j) / Depth = 0 \/ (tail + j) / Depth = 1)%nat.
  { assert ((tail + j) / Depth < 2)%nat by (apply Nat.Div0.div_lt_upper_bound; lia). lia. }
  nia.
Qed.

Lemma holds_nil slots tail : length slots = Depth -> (tail < Depth)%nat -> holds slots tail [].
Proof. intros. split; [done|done|cbn; lia|done]. Qed.

(** Writing the slot after the last one, when there is one left. *)
Lemma holds_push slots tail q x :
  holds slots tail q -> (length q < Depth)%nat ->
  holds (<[((tail + length q) mod Depth)%nat := x]> slots) tail (q ++ [x]).
Proof.
  intros [Hd Ht Hf Hat] Hlt. split; [by rewrite length_insert|done|rewrite length_app; cbn; lia|].
  intros i y. destruct (decide (i < length q)%nat) as [Hi|Hi].
  - rewrite lookup_app_l by done. intros Hy. rewrite list_lookup_insert_ne; [by apply Hat|].
    apply slot_apart; lia.
  - rewrite lookup_app_r by lia. intros Hy. assert (i = length q) as ->.
    { apply lookup_lt_Some in Hy. cbn in Hy. lia. }
    rewrite Nat.sub_diag in Hy. injection Hy as ->. apply list_lookup_insert_eq.
    rewrite Hd. apply Nat.mod_upper_bound. lia.
Qed.

(** Taking the oldest out. *)
Lemma holds_pop slots tail x q :
  holds slots tail (x :: q) -> holds slots ((tail + 1) mod Depth) q.
Proof.
  intros [Hd Ht Hf Hat]. split; [done|apply Nat.mod_upper_bound; lia|cbn in Hf; lia|].
  intros i y Hy. rewrite Nat.Div0.add_mod_idemp_l. replace (tail + 1 + i)%nat with (tail + S i)%nat by lia.
  by apply Hat.
Qed.

Lemma next_head tail n : (((tail + n) mod Depth + 1) mod Depth = (tail + S n) mod Depth)%nat.
Proof. rewrite Nat.Div0.add_mod_idemp_l. f_equal. lia. Qed.

(** With the array full the two ends meet. *)
Lemma full_head tail : (tail < Depth)%nat -> ((tail + Depth) mod Depth = tail)%nat.
Proof.
  intros. rewrite <- Nat.Div0.add_mod_idemp_r, Nat.Div0.mod_same, Nat.add_0_r. by apply Nat.mod_small.
Qed.

End Ring.

(** Storing a payload in a slot's byte array, and the payload a slot has. *)
Lemma stored_payload (payload old : list byte) (w : Z) :
  (length payload <= length old)%nat -> Z.of_nat (length payload) < 2 ^ w ->
  take (Z.to_nat (wrap w (Z.of_nat (length payload)))) (splice 0 payload old) = payload.
Proof.
  intros Hfit Hw. rewrite wrap_small by (unfold in_u; lia). rewrite Nat2Z.id, splice_0. apply take_app_length.
Qed.

(** ** IntentRing *)

Module IntentRing.
Section Ring.
Context (Depth SlotCapacity : nat).

Record Slot := mkSlot { used : bool; intent_id : Z; bytes : list byte; size : Z }.

Definition Slot_new : Slot := mkSlot false 0 (replicate SlotCapacity Byte.x00) 0.

Record t := mkT { slots : list Slot; head : nat; count : nat }.

Definition new : t := mkT (replicate Depth Slot_new) 0 0.

Definition store (id : Z) (echoBytes : list byte) (r : t) : t * bool :=
  if (SlotCapacity <? length echoBytes)%nat then (r, false)
  else
    match slots r !! head r with
    | None => (r, false)
    | Some s =>
        (mkT (<[head r := mkSlot true id (splice 0 echoBytes (bytes s)) (u16 (Z.of_nat (length echoBytes)))]> (slots r))
             ((head r + 1) mod Depth)%nat
             (if (count r <? Depth)%nat then S (count r) else count r), true)
    end.

(** The scan of the first [_count] slots. *)
Fixpoint scan (id : Z) (l : list Slot) : option (list byte) :=
  match l with
  | [] => None
  | s :: l => if used s && (intent_id s =? id) then Some (take (Z.to_nat (size s)) (bytes s)) else scan id l
  end.

Definition lookup (id : Z) (r : t) : option (list byte) := scan id (take (count r) (slots r)).

Definition clear (r : t) : t :=
  mkT (map (fun s => mkSlot false (intent_id s) (bytes s) (size s)) (slots r)) 0 0.

Definition ring_size (r : t) : nat := count r.

(** *** Specification: the last [Depth] ids with their ECHO, oldest first *)

Definition Log := list (Z * list byte).

Definition remember (id : Z) (echoBytes : list byte) (l : Log) : Log :=
  if (length l <? Depth)%nat then l ++ [(id, echoBytes)] else tail l ++ [(id, echoBytes)].

Definition slot_pair (s : Slot) : Z * list byte := (intent_id s, take (Z.to_nat (size s)) (bytes s)).

Record ring_inv (r : t) (l : Log) : Prop := {
  ring_slots : exists tl q, holds Depth (slots r) tl q /\ l = map slot_pair q
                 /\ Forall (fun s => used s = true) q
                 /\ head r = ((tl + length q) mod Depth)%nat /\ count r = length q
                 /\ ((length q < Depth)%nat -> tl = 0%nat);
  ring_room : Forall (fun s => length (bytes s) = SlotCapacity) (slots r)
}.

Hypothesis Depth_pos : (0 < Depth)%nat.
Hypothesis Slot_16 : Z.of_nat SlotCapacity < 2 ^ 16.

Lemma new_ring : ring_inv new [].
Proof.
  split.
  - exists 0%nat, []. split_and!; try done; [apply holds_nil; [apply length_replicate|done]|].
    symmetry. by apply Nat.mod_small.
  - apply Forall_replicate. apply length_replicate.
Qed.

Lemma store_ring id e r l :
  ring_inv r l -> (length e <= SlotCapacity)%nat ->
  exists r', store id e r = (r', true) /\ ring_inv r' (remember id e l).
Proof.
  intros [(tl & q & Hh & -> & Hu & Hhd & Hc & Htl) Hroom] Hfit.
  unfold store. rewrite (proj2 (Nat.ltb_ge _ _)) by lia.
  assert (Hlt : (head r < length (slots r))%nat).
  { rewrite Hhd, (holds_depth _ _ _ _ Hh). apply Nat.mod_upper_bound. lia. }
  apply lookup_lt_is_Some in Hlt as [s Hs]. rewrite Hs. eexists. split; [reflexivity|].
  assert (Hb : length (bytes s) = SlotCapacity) by exact (Forall_lookup_1 _ _ _ _ Hroom Hs).
  set (s' := mkSlot true id _ _).
  assert (Hp : slot_pair s' = (id, e)).
  { unfold slot_pair, s'. cbn. f_equal. apply stored_payload; lia. }
  assert (Hb' : length (bytes s') = SlotCapacity).
  { unfold s'. cbn. rewrite length_splice; cbn; lia. }
  split; cbn [slots head count].
  2:{ by apply Forall_insert. }
  unfold remember. rewrite length_map. destruct (Nat.ltb_spec (length q) Depth) as [Hlen|Hlen].
  - exists tl, (q ++ [s']). rewrite Hhd, Hc, length_app. cbn [length]. rewrite (proj2 (Nat.ltb_lt _ _) Hlen).
    split_and!.
    + by apply holds_push.
    + by rewrite map_app, <- Hp.
    + apply Forall_app. split; [done|]. by constructor.
    + rewrite next_head. f_equal. lia.
    + lia.
    + intros. apply Htl. lia.
  - destruct q as [|x q]; [cbn in Hlen; lia|]. pose proof (holds_fits _ _ _ _ Hh) as Hfq.
    pose proof (holds_pop _ _ _ _ _ Hh) as Hpop. cbn [length] in *.
    assert (Hlq : S (length q) = Depth) by lia. pose proof (holds_tail _ _ _ _ Hh) as Htlt.
    assert (Hhd' : head r = (((tl + 1) mod Depth + length q) mod Depth)%nat).
    { rewrite Hhd, Nat.Div0.add_mod_idemp_l. f_equal. lia. }
    exists ((tl + 1) mod Depth)%nat, (q ++ [s']). rewrite Hc, length_app. cbn [length map tail].
    rewrite (proj2 (Nat.ltb_ge _ _)) by lia. split_and!.
    + rewrite Hhd'. apply holds_push; [done|lia].
    + by rewrite map_app, <- Hp.
    + apply Forall_cons in Hu as [_ Hu]. apply Forall_app. split; [done|]. by constructor.
    + rewrite Hhd', next_head. f_equal. lia.
    + lia.
    + lia.
Qed.

Lemma holds_rotation (sl : list Slot) tl q :
  holds Depth sl tl q -> length q = Depth -> q = drop tl sl ++ take tl sl.
Proof.
  intros [Hd Ht _ Hat] Hq. apply (list_eq_same_length _ _ Depth); [|done|].
  - rewrite length_app, length_drop, length_take. lia.
  - intros i x y Hi Hx Hy. apply Hat in Hx. destruct (decide (tl + i < Depth)%nat).
    + rewrite Nat.mod_small in Hx by done. rewrite lookup_app_l, lookup_drop in Hy by (rewrite length_drop; lia).
      congruence.
    + rewrite lookup_app_r, length_drop, lookup_take_lt in Hy by (rewrite ?length_drop; lia).
      replace ((tl + i) mod Depth)%nat with (i - (length sl - tl))%nat in Hx; [congruence|].
      rewrite Hd. apply (Nat.mod_unique _ _ 1); lia.
Qed.

Lemma scanned r l :
  ring_inv r l -> exists q, take (count r) (slots r) ≡ₚ q /\ l = map slot_pair q /\ Forall (fun s => used s = true) q.
Proof.
  intros [(tl & q & Hh & -> & Hu & _ & Hc & Htl) _]. exists q. split_and!; [|done|done]. rewrite Hc.
  pose proof Hh as [Hd Ht Hf Hat]. destruct (decide (length q < Depth)%nat) as [Hlt|Hlt].
  - rewrite (Htl Hlt) in Hat. enough (take (length q) (slots r) = q) as -> by done. apply (list_eq_same_length _ _ (length q)); [done|rewrite length_take; lia|].
    intros i x y Hi Hx Hy. apply Hat in Hy. rewrite Nat.mod_small in Hy by lia.
    rewrite lookup_take_lt in Hx by lia. cbn in Hy. congruence.
  - assert (length q = Depth) as Hlen by lia. rewrite (holds_rotation _ _ _ Hh Hlen) at 2.
    rewrite take_ge by lia. rewrite <- (take_drop tl (slots r)) at 1. apply Permutation_app_comm.
Qed.

Lemma scan_spec id b l :
  Forall (fun s => used s = true) l -> NoDup (map slot_pair l).*1 ->
  scan id l = Some b <-> (id, b) ∈ map slot_pair l.
Proof.
  induction 1 as [|s l Hs _ IH]; intros Hnd; cbn [scan map] in *; [rewrite elem_of_nil; done|].
  apply NoDup_cons in Hnd as [Hn Hnd]. rewrite Hs, elem_of_cons, <- (IH Hnd). cbn [andb].
  destruct (Z.eqb_spec (intent_id s) id) as [<-|Hne].
  - split; [intros [= <-]; by left|]. intros [[= ->]|H]; [done|]. exfalso. apply Hn. apply IH in H; [|done].
    by apply (list_elem_of_fmap_2 fst) in H.
  - split; [by right|]. intros [[= -> _]|?]; done.
Qed.

Lemma lookup_ring id b r l :
  ring_inv r l -> NoDup l.*1 -> lookup id r = Some b <-> (id, b) ∈ l.
Proof.
  intros Hr Hnd. destruct (scanned r l Hr) as (q & Hp & -> & Hu). unfold lookup.
  rewrite scan_spec.
  - by rewrite Hp.
  - by rewrite Hp.
  - by rewrite Hp.
Qed.

(** A session's stores, in order. *)
Definition stores (r : t) (ops : list (Z * list byte)) : t := fold_left (fun r '(id, e) => fst (store id e r)) ops r.

Definition recent (ops : list (Z * list byte)) : Log := drop (length ops - Depth) ops.

Lemma recent_snoc ops id e : recent (ops ++ [(id, e)]) = remember id e (recent ops).
Proof.
  unfold recent, remember. rewrite length_app, length_drop. cbn [length].
  destruct (Nat.ltb_spec (length ops - (length ops - Depth)) Depth).
  - replace (length ops + 1 - Depth)%nat with 0%nat by lia. replace (length ops - Depth)%nat with 0%nat by lia. done.
  - rewrite drop_app_le by lia. f_equal. replace (length ops + 1 - Depth)%nat with (S (length ops - Depth)) by lia.
    rewrite <- Nat.add_1_r, <- drop_drop. by destruct (drop (length ops - Depth) ops).
Qed.

Definition fits (ops : list (Z * list byte)) : Prop := Forall (fun op => (length op.2 <= SlotCapacity)%nat) ops.

Lemma stores_ring r ops : ring_inv r [] -> fits ops -> ring_inv (stores r ops) (recent ops).
Proof.
  intros H0. induction ops as [|[id e] ops IH] using rev_ind; intros Hf; [done|].
  apply Forall_app in Hf as [Hf He]. apply Forall_cons in He as [He _].
  unfold stores. rewrite fold_left_app. fold (stores r ops). cbn. rewrite recent_snoc.
  destruct (store_ring id e _ _ (IH Hf) He) as (r' & -> & Hr'). done.
Qed.

Lemma clear_ring r l : ring_inv r l -> ring_inv (clear r) [].
Proof.
  intros [(tl & q & Hh & _) Hroom]. split.
  - exists 0%nat, []. split_and!; try done; cbn.
    + apply holds_nil; [rewrite length_map; apply Hh|done].
    + symmetry. by apply Nat.mod_small.
  - cbn. apply Forall_map. by eapply Forall_impl.
Qed.

Lemma size_ring r l : ring_inv r l -> ring_size r = length l.
Proof. intros [(tl & q & _ & -> & _ & _ & Hc & _) _]. unfold ring_size. by rewrite length_map. Qed.

End Ring.
End IntentRing.

(** ** EventQueue *)

Module EventQueue.
Section Ring.
Context (Depth SlotCapacity : nat).

Record Slot := mkSlot { bytes : list byte; size : Z; channel_id : Z }.

Definition Slot_new : Slot := mkSlot (replicate SlotCapacity Byte.x00) 0 0.

Record t := mkT { slots : list Slot; head : nat; tail : nat; count : nat; eventsDropped : Z }.

Definition new : t := mkT (replicate Depth Slot_new) 0 0 0 0.

Definition drop_oldest (q : t) : t :=
  if (count q =? Depth)%nat then
    mkT (slots q) (head q) ((tail q + 1) mod Depth)%nat (count q - 1) (u32 (eventsDropped q + 1))
  else q.

Definition push (ch : Z) (bs : list byte) (q : t) : t * bool :=
  if (SlotCapacity <? length bs)%nat then (q, false)
  else
    let q := drop_oldest q in
    match slots q !! head q with
    | None => (q, false)
    | Some s =>
        (mkT (<[head q := mkSlot (splice 0 bs (bytes s)) (u16 (Z.of_nat (length bs))) ch]> (slots q))
             ((head q + 1) mod Depth)%nat (tail q) (S (count q)) (eventsDropped q), true)
    end.

(** The slot's payload, with the channel it is for. *)
Definition Dequeued_of (s : Slot) : Z * list byte := (channel_id s, take (Z.to_nat (size s)) (bytes s)).

Definition pop (q : t) : t * option (Z * list byte) :=
  if (count q =? 0)%nat then (q, None)
  else
    match slots q !! tail q with
    | None => (q, None)
    | Some s => (mkT (slots q) (head q) ((tail q + 1) mod Depth)%nat (count q - 1) (eventsDropped q), Some (Dequeued_of s))
    end.

Definition queue_size (q : t) : nat := count q.
Definition empty (q : t) : bool := (count q =? 0)%nat.
Definition full (q : t) : bool := (count q =? Depth)%nat.

(** *** Specification: a bounded list, oldest first, and how many were lost *)

Definition Pending : Type := list (Z * list byte) * Z.

Definition spec_push (ch : Z) (bs : list byte) (p : Pending) : Pending :=
  let '(l, lost) := p in
  if (length l =? Depth)%nat then (List.tl l ++ [(ch, bs)], u32 (lost + 1)) else (l ++ [(ch, bs)], lost).

Record queue_inv (q : t) (p : Pending) : Prop := {
  queue_slots : exists l, holds Depth (slots q) (tail q) l /\ p.1 = map Dequeued_of l
                  /\ head q = ((tail q + length l) mod Depth)%nat /\ count q = length l;
  queue_lost : eventsDropped q = p.2;
  queue_room : Forall (fun s => length (bytes s) = SlotCapacity) (slots q)
}.

Hypothesis Depth_pos : (0 < Depth)%nat.
Hypothesis Slot_16 : Z.of_nat SlotCapacity < 2 ^ 16.

Lemma new_queue : queue_inv new ([], 0).
Proof.
  split; [|done|].
  - exists []. cbn [slots head tail count new fst map length]. split_and!; try done.
    + apply holds_nil; [apply length_replicate|done].
    + symmetry. by apply Nat.mod_small.
  - apply Forall_replicate. apply length_replicate.
Qed.

(** With room, the new event goes to the end. *)
Lemma push_room ch bs q l lost :
  queue_inv q (l, lost) -> (length l < Depth)%nat -> (length bs <= SlotCapacity)%nat ->
  exists s, slots q !! head q = Some s
    /\ queue_inv (mkT (<[head q := mkSlot (splice 0 bs (bytes s)) (u16 (Z.of_nat (length bs))) ch]> (slots q))
                      ((head q + 1) mod Depth)%nat (tail q) (S (count q)) (eventsDropped q)) (l ++ [(ch, bs)], lost).
Proof.
  intros [(sl & Hh & El & Hhd & Hc) Hl Hroom] Hlen Hfit. cbn [fst snd] in *. subst l. rewrite length_map in Hlen.
  assert (Hlt : (head q < length (slots q))%nat).
  { rewrite Hhd, (holds_depth _ _ _ _ Hh). apply Nat.mod_upper_bound. lia. }
  apply lookup_lt_is_Some in Hlt as [s Hs]. exists s. split; [done|].
  assert (Hb : length (bytes s) = SlotCapacity) by exact (Forall_lookup_1 _ _ _ _ Hroom Hs).
  set (s' := mkSlot _ _ ch).
  assert (Hp : Dequeued_of s' = (ch, bs)).
  { unfold Dequeued_of, s'. cbn. f_equal. apply stored_payload; lia. }
  split; cbn [slots head tail count eventsDropped fst snd]; [|done|].
  - exists (sl ++ [s']). rewrite length_app. cbn [length]. split_and!.
    + rewrite Hhd. by apply holds_push.
    + by rewrite map_app, <- Hp.
    + rewrite Hhd, next_head. f_equal. lia.
    + lia.
  - apply Forall_insert; [done|]. unfold s'. cbn. rewrite length_splice; cbn; lia.
Qed.

Lemma drop_oldest_refines q l lost :
  queue_inv q (l, lost) ->
  queue_inv (drop_oldest q)
    (if (length l =? Depth)%nat then (List.tl l, u32 (lost + 1)) else (l, lost)).
Proof.
  intros Hq. pose proof Hq as [(sl & Hh & El & Hhd & Hc) Hl Hroom]. cbn [fst snd] in *. subst l.
  rewrite length_map. unfold drop_oldest. rewrite Hc. destruct (Nat.eqb_spec (length sl) Depth) as [Hd|]; [|done].
  destruct sl as [|x sl]; [cbn in Hd; lia|]. cbn [length] in Hd.
  split; cbn [slots head tail count eventsDropped fst snd]; [|by rewrite Hl|done].
  exists sl. split_and!; [by eapply holds_pop|done| |cbn; lia].
  rewrite Hhd, Nat.Div0.add_mod_idemp_l. cbn. f_equal. lia.
Qed.

Lemma push_refines ch bs q p :
  queue_inv q p -> (length bs <= SlotCapacity)%nat ->
  exists q', push ch bs q = (q', true) /\ queue_inv q' (spec_push ch bs p).
Proof.
  intros Hq Hfit. destruct p as [l lost]. unfold push. rewrite (proj2 (Nat.ltb_ge _ _)) by lia.
  pose proof (drop_oldest_refines _ _ _ Hq) as Hd. pose proof Hq as [(sl & Hh & Hl & _) _ _].
  pose proof (holds_fits _ _ _ _ Hh) as Hf. cbn [fst] in Hl. assert (Hlen : (length l <= Depth)%nat) by (subst l; by rewrite length_map).
  unfold spec_push. destruct (Nat.eqb_spec (length l) Depth) as [He|He].
  - destruct (push_room ch bs _ _ _ Hd) as (s & -> & Hq'); [destruct l; cbn in *; lia|done|]. by eexists.
  - destruct (push_room ch bs _ _ _ Hd) as (s & -> & Hq'); [lia|done|]. by eexists.
Qed.

Lemma pop_refines q l lost :
  queue_inv q (l, lost) ->
  exists q', pop q = (q', hd_error l) /\ queue_inv q' (List.tl l, lost).
Proof.
  intros Hq. pose proof Hq as [(sl & Hh & El & Hhd & Hc) Hl Hroom]. cbn [fst snd] in *. subst l. unfold pop. rewrite Hc.
  destruct sl as [|x sl]; [by eexists|]. cbn [length Nat.eqb map hd_error List.tl].
  pose proof (holds_at _ _ _ _ Hh 0%nat x eq_refl) as Hx. rewrite Nat.add_0_r, Nat.mod_small in Hx by apply Hh.
  rewrite Hx. eexists. split; [done|]. split; cbn [slots head tail count eventsDropped fst snd]; [|done|done].
  exists sl. split_and!; [by eapply holds_pop|done| |lia].
  rewrite Hhd, Nat.Div0.add_mod_idemp_l. cbn. f_equal. lia.
Qed.

(** *** Traffic *)

Inductive Op := Push (ch : Z) (bs : list byte) | Pop.

(** The queue after some traffic, with what came out of it, in order. *)
Fixpoint traffic (ops : list Op) (q : t) : t * list (Z * list byte) :=
  match ops with
  | [] => (q, [])
  | Push ch bs :: ops => traffic ops (fst (push ch bs q))
  | Pop :: ops =>
      let '(q, o) := pop q in let '(q, out) := traffic ops q in
      (q, match o with Some e => e :: out | None => out end)
  end.

Fixpoint spec_traffic (ops : list Op) (p : Pending) : Pending * list (Z * list byte) :=
  match ops with
  | [] => (p, [])
  | Push ch bs :: ops => spec_traffic ops (if (SlotCapacity <? length bs)%nat then p else spec_push ch bs p)
  | Pop :: ops =>
      let '(p', out) := spec_traffic ops (List.tl p.1, p.2) in
      (p', match hd_error p.1 with Some e => e :: out | None => out end)
  end.

Lemma traffic_refines ops q p :
  queue_inv q p ->
  queue_inv (traffic ops q).1 (spec_traffic ops p).1 /\ (traffic ops q).2 = (spec_traffic ops p).2.
Proof.
  revert q p. induction ops as [|[ch bs|] ops IH]; intros q p Hq; cbn [traffic spec_traffic]; [done| |].
  - destruct (Nat.ltb_spec SlotCapacity (length bs)) as [Hlt|Hle].
    + unfold push. rewrite (proj2 (Nat.ltb_lt _ _) Hlt). by apply IH.
    + destruct (push_refines ch bs q p Hq Hle) as (q' & -> & Hq'). by apply IH.
  - destruct p as [l lost]. destruct (pop_refines q l lost Hq) as (q' & -> & Hq').
    destruct (IH q' _ Hq') as [H1 H2]. cbn [fst snd]. destruct (traffic ops q'), (spec_traffic ops _). cbn in *.
    split; [done|]. by rewrite H2.
Qed.

End Ring.
End EventQueue.

(** ** EventReplayRing (channel/log_channel.hpp): the log lines a fresh subscriber is shown *)

Module ReplayRing.
Section Ring.
Context (Depth SlotCapacity : nat).

Record Slot := mkSlot { bytes : list byte; size : Z }.

Definition Slot_new : Slot := mkSlot (replicate SlotCapacity Byte.x00) 0.

Record t := mkT { slots : list Slot; head : nat; tail : nat; count : nat; dropped : Z }.

Definition new : t := mkT (replicate Depth Slot_new) 0 0 0 0.

Definition make_room (r : t) : t :=
  if (count r =? Depth)%nat then
    mkT (slots r) (head r) ((tail r + 1) mod Depth)%nat (count r - 1) (u32 (dropped r + 1))
  else r.

Definition push (bs : list byte) (r : t) : t * bool :=
  if (SlotCapacity <? length bs)%nat then (r, false)
  else
    let r := make_room r in
    match slots r !! head r with
    | None => (r, false)
    | Some s =>
        (mkT (<[head r := mkSlot (splice 0 bs (bytes s)) (u16 (Z.of_nat (length bs)))]> (slots r))
             ((head r + 1) mod Depth)%nat (tail r) (S (count r)) (dropped r), true)
    end.

Definition line (s : Slot) : list byte := take (Z.to_nat (size s)) (bytes s).

(** What the callback is given, in order. *)
Definition forEachNewest (want : nat) (r : t) : list (list byte) :=
  let n := (want `min` count r)%nat in
  let start := ((tail r + (count r - n)) mod Depth)%nat in
  omap (fun i => line <$> slots r !! ((start + i) mod Depth)%nat) (seq 0 n).

End Ring.
End ReplayRing.


(** Intent idempotency: for any history of stores whose ECHOes fit a slot, the ring answers exactly for
    the ids among the last [Depth] stores, each with the bytes stored under it; an ECHO too long for a
    slot is refused and changes nothing; and after [clear] the ring remembers only what is stored next. *)
Theorem IntentRing_recalls (Depth SlotCapacity : nat) (before ops : list (Z * list byte))
  (HD : (0 < Depth)%nat) (HS : Z.of_nat SlotCapacity < 2 ^ 16)
  (Hb : IntentRing.fits SlotCapacity before) (Hf : IntentRing.fits SlotCapacity ops)
  (Hnd : NoDup (IntentRing.recent Depth ops).*1) :
  let new := IntentRing.new Depth SlotCapacity in
  let run := IntentRing.stores Depth SlotCapacity in
  (forall id b, IntentRing.lookup id (run new ops) = Some b <-> (id, b) ∈ IntentRing.recent Depth ops)
  /\ IntentRing.ring_size (run new ops) = (length ops `min` Depth)%nat
  /\ (forall id e r, (SlotCapacity < length e)%nat -> IntentRing.store Depth SlotCapacity id e r = (r, false))
  /\ (forall id, IntentRing.lookup id (IntentRing.clear (run new before)) = None)
  /\ (forall id b, IntentRing.lookup id (run (IntentRing.clear (run new before)) ops) = Some b
                   <-> (id, b) ∈ IntentRing.recent Depth ops).
Proof.
  cbv zeta. pose proof (IntentRing.new_ring Depth SlotCapacity HD) as H0.
  pose proof (IntentRing.stores_ring _ _ HD HS _ _ H0 Hf) as Hr.
  pose proof (IntentRing.clear_ring _ _ HD _ _ (IntentRing.stores_ring _ _ HD HS _ _ H0 Hb)) as Hc.
  split_and!.
  - intros id b. by apply (IntentRing.lookup_ring Depth SlotCapacity HD).
  - rewrite (IntentRing.size_ring _ _ _ _ Hr). unfold IntentRing.recent. rewrite length_drop. lia.
  - intros id e r Hlt. unfold IntentRing.store. by rewrite (proj2 (Nat.ltb_lt _ _) Hlt).
  - intros id. done.
  - intros id b. apply (IntentRing.lookup_ring Depth SlotCapacity HD); [|done].
    by apply IntentRing.stores_ring.
Qed.

Lemma IntentRing_recalls_witness :
  let r := IntentRing.stores 2 4 (IntentRing.new 2 4) [(1, [Byte.x01]); (2, [Byte.x02]); (3, [Byte.x03])] in
  IntentRing.lookup 1 r = None /\ IntentRing.lookup 3 r = Some [Byte.x03].
Proof.
  split; [reflexivity|].
  apply (proj1 (IntentRing_recalls 2 4 [] [(1, [Byte.x01]); (2, [Byte.x02]); (3, [Byte.x03])]
    ltac:(lia) ltac:(lia) ltac:(constructor) ltac:(repeat constructor)
    ltac:(cbn; apply NoDup_cons; split; [by intros [=]%list_elem_of_singleton|apply NoDup_singleton]))).
  cbn. right. by left.
Defined.

(** The events a queue accepted, in order. *)
Definition accepted (SlotCapacity : nat) (ops : list EventQueue.Op) : list (Z * list byte) :=
  concat (map (fun o => match o with
    | EventQueue.Push ch bs => if (SlotCapacity <? length bs)%nat then [] else [(ch, bs)]
    | EventQueue.Pop => [] end) ops).

Lemma spec_traffic_accounts (Depth SlotCapacity : nat) ops l lost :
  (0 < Depth)%nat -> in_u 32 lost -> (length l <= Depth)%nat ->
  let '((l', lost'), out) := EventQueue.spec_traffic Depth SlotCapacity ops (l, lost) in
  sublist (out ++ l') (l ++ accepted SlotCapacity ops)
  /\ (length l' <= Depth)%nat /\ in_u 32 lost'
  /\ u32 (lost' + Z.of_nat (length out) + Z.of_nat (length l'))
     = u32 (lost + Z.of_nat (length l) + Z.of_nat (length (accepted SlotCapacity ops))).
Proof.
  intros HD. revert l lost. induction ops as [|[ch bs|] ops IH]; intros l lost Hlost Hl; cbn [EventQueue.spec_traffic].
  - unfold accepted. cbn. rewrite app_nil_r. split_and!; [done|done|done|f_equal; lia].
  - change (accepted SlotCapacity (EventQueue.Push ch bs :: ops))
      with ((if (SlotCapacity <? length bs)%nat then [] else [(ch, bs)]) ++ accepted SlotCapacity ops).
    destruct (SlotCapacity <? length bs)%nat; [by apply IH|]. unfold EventQueue.spec_push.
    destruct (Nat.eqb_spec (length l) Depth) as [He|He].
    + destruct l as [|x l]; [cbn in He; lia|]. cbn [List.tl length] in *.
      specialize (IH (l ++ [(ch, bs)]) (u32 (lost + 1)) (wrap_range 32 _ ltac:(lia)) ltac:(rewrite length_app; cbn; lia)).
      destruct (EventQueue.spec_traffic _ _ ops _) as [[l' lost'] out]. rewrite <- !app_assoc in IH.
      destruct IH as (Hs & ? & ? & ->). split_and!; [by apply sublist_cons|done|done|].
      rewrite !length_app. cbn [length]. unfold wrap.
      rewrite <- Z.add_assoc, Zplus_mod_idemp_l. f_equal. lia.
    + specialize (IH (l ++ [(ch, bs)]) lost Hlost ltac:(rewrite length_app; cbn; lia)).
      destruct (EventQueue.spec_traffic _ _ ops _) as [[l' lost'] out]. rewrite <- !app_assoc in IH.
      destruct IH as (Hs & ? & ? & ->). split_and!; [done|done|done|]. rewrite !length_app. cbn [length]. f_equal. lia.
  - change (accepted SlotCapacity (EventQueue.Pop :: ops)) with (accepted SlotCapacity ops).
    cbn [fst snd]. destruct l as [|x l]; cbn [List.tl hd_error length] in *.
    + specialize (IH [] lost Hlost Hl). by destruct (EventQueue.spec_traffic _ _ ops _) as [[l' lost'] out].
    + specialize (IH l lost Hlost ltac:(lia)). destruct (EventQueue.spec_traffic _ _ ops _) as [[l' lost'] out].
      destruct IH as (Hs & ? & ? & He). split_and!; [by apply sublist_skip|done|done|]. cbn [length].
      unfold wrap in *. rewrite Nat2Z.inj_succ.
      replace (lost' + Z.succ (Z.of_nat (length out)) + Z.of_nat (length l'))
        with (lost' + Z.of_nat (length out) + Z.of_nat (length l') + 1) by lia.
      rewrite <- Zplus_mod_idemp_l, He, Zplus_mod_idemp_l. f_equal. lia.
Qed.

(** The event queue over any traffic of pushes and pops: what comes out, followed by what is still
    queued, is what was pushed in the same order with only dropped events missing; it never holds more
    than [Depth]; the events delivered, queued and counted as dropped are all the events it accepted
    (the counter wrapping at 2^32); and it does exactly what a bounded first-in first-out list does. *)
Theorem EventQueue_fifo (Depth SlotCapacity : nat) (ops : list EventQueue.Op)
  (HD : (0 < Depth)%nat) (HS : Z.of_nat SlotCapacity < 2 ^ 16) :
  let '(q, out) := EventQueue.traffic Depth SlotCapacity ops (EventQueue.new Depth SlotCapacity) in
  exists pending,
    EventQueue.spec_traffic Depth SlotCapacity ops ([], 0) = ((pending, EventQueue.eventsDropped q), out)
    /\ EventQueue.queue_size q = length pending /\ (length pending <= Depth)%nat
    /\ sublist (out ++ pending) (accepted SlotCapacity ops)
    /\ u32 (EventQueue.eventsDropped q + Z.of_nat (length out) + Z.of_nat (length pending))
       = u32 (Z.of_nat (length (accepted SlotCapacity ops))).
Proof.
  pose proof (EventQueue.traffic_refines Depth SlotCapacity HD HS ops _ _ (EventQueue.new_queue _ SlotCapacity HD)) as [Hq Ho].
  pose proof (spec_traffic_accounts Depth SlotCapacity ops [] 0 HD ltac:(unfold in_u; lia) ltac:(cbn; lia)) as Ha.
  destruct (EventQueue.traffic _ _ ops _) as [q out]. destruct (EventQueue.spec_traffic _ _ ops _) as [[l lost] out'].
  cbn [fst snd] in *. subst out'. destruct Ha as (Hs & Hlen & _ & He). exists l.
  destruct Hq as [(sl & _ & Hl & _ & Hc) Hlost _]. cbn [fst snd] in *. rewrite Hlost. subst l.
  split_and!; [done|by rewrite length_map|done|done|done].
Qed.

Lemma EventQueue_fifo_witness :
  let ops := EventQueue.Push 7 [Byte.x01] :: EventQueue.Push 8 [Byte.x02] :: EventQueue.Push 9 [Byte.x03] :: [EventQueue.Pop] in
  let '(q, out) := EventQueue.traffic 2 4 ops (EventQueue.new 2 4) in
  out = [(8, [Byte.x02])] /\ EventQueue.eventsDropped q = 1
  /\ exists pending : list (Z * list byte), EventQueue.queue_size q = length pending.
Proof.
  split; [reflexivity|]. split; [reflexivity|].
  destruct (EventQueue_fifo 2 4
    (EventQueue.Push 7 [Byte.x01] :: EventQueue.Push 8 [Byte.x02] :: EventQueue.Push 9 [Byte.x03] :: [EventQueue.Pop])
    ltac:(lia) ltac:(lia)) as (pending & _ & H & _).
  exists pending. exact H.
Defined.
