(* ===== verification/StateChannel.v ===== *)
(** * StateChannel: the retained STATE values and their shadows (channel/retained_store.hpp, state_apply.hpp)

    The hub holds the latest value of every STATE channel under a sequence number; a subscriber applies
    the frames it receives newest-first-wins (SPEC 7.3, 9.1).  The array of the store is the list of its
    first [_count] entries: the ones past it are never read before they are reset. *)

From S2P Require Import Prelude SerialArith Tables.
#[local] Open Scope Z_scope.

Definition min_transport_payload : nat := 242.

(** ** RetainedStore *)

Module RetainedStore.
Section Store.
Context (Capacity : nat).

Record Entry := mkEntry { channel_id : Z; valid : bool; seq : Z; payload : list byte; size : Z }.

Definition Entry_new : Entry := mkEntry 0 false 0 (replicate min_transport_payload Byte.x00) 0.

Abbreviation t := (list Entry) (only parsing).

Definition new : t := [].

Definition find (ch : Z) (s : t) : option nat := table_find channel_id ch s.

(** The stores [publish] makes to the entry it found or made. *)
Definition overwrite (p : list byte) (e : Entry) : Entry :=
  mkEntry (channel_id e) true (u16 (seq e + 1)) (splice 0 p (payload e)) (u16 (Z.of_nat (length p))).

Definition publish (ch : Z) (p : list byte) (s : t) : t * option Z :=
  if (min_transport_payload <? length p)%nat then (s, None)
  else
    match find ch s with
    | None =>
        if (Capacity <=? length s)%nat then (s, None)
        else
          let e := overwrite p (mkEntry ch false 0 (payload Entry_new) 0) in
          (s ++ [e], Some (seq e))
    | Some i =>
        match s !! i with
        | None => (s, None)
        | Some e => (<[i := overwrite p e]> s, Some (seq (overwrite p e)))
        end
    end.

(** [RetainedView]: the sequence number and the payload. *)
Definition get (ch : Z) (s : t) : option (Z * list byte) :=
  match find ch s with
  | None => None
  | Some i =>
      match s !! i with
      | None => None
      | Some e => if valid e then Some (seq e, take (Z.to_nat (size e)) (payload e)) else None
      end
  end.

Definition remove (ch : Z) (s : t) : t * bool :=
  match find ch s with
  | None => (s, false)
  | Some i => (delete i s, true)
  end.

Definition store_size (s : t) : nat := length s.

(** *** Specification: a map from channel to sequence number and payload *)

Abbreviation Values := (gmap Z (Z * list byte)).

Definition spec_publish (ch : Z) (p : list byte) (m : Values) : Values * option Z :=
  if (min_transport_payload <? length p)%nat then (m, None)
  else
    match m !! ch with
    | Some (n, _) => (<[ch := (u16 (n + 1), p)]> m, Some (u16 (n + 1)))
    | None => if (Capacity <=? base.size m)%nat then (m, None) else (<[ch := (1, p)]> m, Some 1)
    end.

Definition value (e : Entry) : Z * list byte := (seq e, take (Z.to_nat (size e)) (payload e)).

Definition abs (s : t) : Values := table_map channel_id value s.

Definition entry_ok (e : Entry) : Prop := valid e = true /\ length (payload e) = min_transport_payload.

Definition store_inv (s : t) : Prop := one_per_key channel_id s /\ Forall entry_ok s.

Lemma new_store : store_inv new.
Proof. split; constructor. Qed.

Lemma overwrite_value p e :
  (length p <= min_transport_payload)%nat -> length (payload e) = min_transport_payload ->
  value (overwrite p e) = (u16 (seq e + 1), p) /\ entry_ok (overwrite p e).
Proof.
  intros Hp He. unfold min_transport_payload in *. split.
  - unfold value, overwrite. cbn. f_equal. rewrite wrap_small by (unfold in_u; lia). rewrite Nat2Z.id, splice_0.
    apply take_app_length.
  - split; [done|]. unfold overwrite. cbn [payload]. rewrite length_splice; unfold min_transport_payload in *; lia.
Qed.

Lemma publish_refines ch p s :
  store_inv s ->
  let '(s', r) := publish ch p s in store_inv s' /\ spec_publish ch p (abs s) = (abs s', r).
Proof.
  intros Hinv. pose proof Hinv as [Hnd Hok]. unfold publish, spec_publish.
  destruct (Nat.ltb_spec min_transport_payload (length p)) as [Hlt|Hle]; [done|].
  destruct (find ch s) as [i|] eqn:Hf.
  - destruct (table_find_Some channel_id value ch s i Hnd Hf) as (l1 & e & l2 & -> & <- & Hk & Hm).
    unfold abs at 1. rewrite lookup_middle, Hm, insert_middle. cbn [value].
    apply Forall_app in Hok as [H1 [He H2]%Forall_cons].
    destruct (overwrite_value p e Hle (proj2 He)) as [Hv Hok'].
    destruct (table_update channel_id value l1 e (overwrite p e) l2 Hnd eq_refl) as [Hnd' Ht].
    split; [split; [done|]; apply Forall_app; auto|]. unfold abs. rewrite Ht, Hv, Hk. done.
  - destruct (table_find_None channel_id value ch s Hf) as [Hn Hm]. unfold abs. rewrite Hm.
    rewrite (table_size channel_id value s Hnd). destruct (Nat.leb_spec Capacity (length s)); [done|].
    destruct (overwrite_value p (mkEntry ch false 0 (payload Entry_new) 0) Hle (length_replicate _ _)) as [Hv Hok'].
    destruct (table_append channel_id value s (overwrite p (mkEntry ch false 0 (payload Entry_new) 0)) Hnd Hn) as [Hnd' Ht].
    split; [split; [done|]; apply Forall_app; auto|]. by rewrite Ht, Hv.
Qed.

Lemma get_refines ch s : store_inv s -> get ch s = abs s !! ch.
Proof.
  intros [Hnd Hok]. unfold get. destruct (find ch s) as [i|] eqn:Hf.
  - destruct (table_find_Some channel_id value ch s i Hnd Hf) as (l1 & e & l2 & -> & <- & Hk & Hm).
    apply Forall_app in Hok as [_ [He _]%Forall_cons]. unfold abs. rewrite lookup_middle, Hm.
    by rewrite (proj1 He).
  - symmetry. apply (table_find_None channel_id value ch s Hf).
Qed.

Lemma remove_refines ch s :
  store_inv s ->
  let '(s', b) := remove ch s in
  store_inv s' /\ abs s' = delete ch (abs s) /\ b = bool_decide (is_Some (abs s !! ch)).
Proof.
  intros Hinv. pose proof Hinv as [Hnd Hok]. unfold remove. destruct (find ch s) as [i|] eqn:Hf.
  - destruct (table_find_Some channel_id value ch s i Hnd Hf) as (l1 & e & l2 & -> & <- & Hk & Hm).
    rewrite delete_at_middle. destruct (table_remove channel_id value l1 e l2 Hnd) as [Hnd' Ht].
    apply Forall_app in Hok as [H1 [He H2]%Forall_cons]. split_and!.
    + split; [done|]. by apply Forall_app.
    + unfold abs. by rewrite Ht, Hk.
    + unfold abs. rewrite Hm. symmetry. by apply bool_decide_eq_true.
  - destruct (table_find_None channel_id value ch s Hf) as [_ Hm]. unfold abs. rewrite Hm. split_and!; [done| |done].
    by rewrite delete_id.
Qed.

End Store.
End RetainedStore.

(** ** The shadow *)

Record ShadowSlot := mkShadow { sh_valid : bool; sh_seq : Z; sh_value : list byte; sh_size : Z }.

Definition ShadowSlot_new : ShadowSlot := mkShadow false 0 (replicate min_transport_payload Byte.x00) 0.

(** The last component is what [*capacityExceeded] is set to, if anything. *)
Definition applyStateFrame (frameSeq : Z) (payload : list byte) (slot : ShadowSlot) : ShadowSlot * bool * option bool :=
  if (length (sh_value slot) <? length payload)%nat then (slot, false, Some true)
  else if sh_valid slot && negb (seqIsNewer frameSeq (sh_seq slot)) then (slot, false, None)
  else
    (mkShadow true frameSeq (splice 0 payload (sh_value slot)) (u16 (Z.of_nat (length payload))), true, None).

(** What the shadow shows. *)
Definition shown (slot : ShadowSlot) : option (Z * list byte) :=
  if sh_valid slot then Some (sh_seq slot, take (Z.to_nat (sh_size slot)) (sh_value slot)) else None.

Definition receive (slot : ShadowSlot) (f : Z * list byte) : ShadowSlot := (applyStateFrame f.1 f.2 slot).1.1.

Definition shadow_ok (slot : ShadowSlot) : Prop := length (sh_value slot) = min_transport_payload.

Lemma receive_cases slot n p :
  shadow_ok slot ->
  shadow_ok (receive slot (n, p))
  /\ shown (receive slot (n, p))
     = if (min_transport_payload <? length p)%nat then shown slot
       else match shown slot with
            | Some (n0, _) => if seqIsNewer n n0 then Some (n, p) else shown slot
            | None => Some (n, p)
            end.
Proof.
  intros Hok. unfold receive, applyStateFrame. cbn [fst snd]. rewrite Hok.
  destruct (Nat.ltb_spec min_transport_payload (length p)) as [Hlt|Hle]; [done|].
  assert (Hs : shadow_ok (mkShadow true n (splice 0 p (sh_value slot)) (u16 (Z.of_nat (length p))))).
  { unfold shadow_ok in *. cbn. rewrite length_splice; cbn; lia. }
  assert (Hv : shown (mkShadow true n (splice 0 p (sh_value slot)) (u16 (Z.of_nat (length p)))) = Some (n, p)).
  { unfold shown. cbn. unfold min_transport_payload in *. rewrite wrap_small by (unfold in_u; lia).
    rewrite Nat2Z.id, splice_0. by rewrite take_app_length. }
  unfold shown at 2. destruct (sh_valid slot) eqn:E; cbn [andb].
  - destruct (seqIsNewer n (sh_seq slot)); cbn [negb fst]; [done|]. split; [done|]. unfold shown. by rewrite E.
  - cbn [fst]. done.
Qed.

(** The frame of the [k]-th value of a channel: [ps] starts with the value held under sequence number [b]. *)
Definition frame (b : Z) (ps : list (list byte)) (k : nat) : Z * list byte :=
  (u16 (b + Z.of_nat k), default [] (ps !! k)).

Lemma newer_frames b j k :
  Z.of_nat j < 0x8000 -> Z.of_nat k < 0x8000 ->
  seqIsNewer (u16 (b + Z.of_nat k)) (u16 (b + Z.of_nat j)) = (j <? k)%nat.
Proof.
  intros Hj Hk. destruct (Nat.ltb_spec j k) as [Hlt|Hge].
  - replace (u16 (b + Z.of_nat k)) with (u16 (u16 (b + Z.of_nat j) + Z.of_nat (k - j))).
    + rewrite seqIsNewer_offset by lia. apply andb_true_intro; split; apply Z.ltb_lt; lia.
    + unfold wrap. rewrite Zplus_mod_idemp_l. f_equal. lia.
  - replace (u16 (b + Z.of_nat j)) with (u16 (u16 (b + Z.of_nat k) + Z.of_nat (j - k))).
    + rewrite seqIsNewer_offset_rev; [apply Z.ltb_ge; lia|by apply wrap_range|lia].
    + unfold wrap. rewrite Zplus_mod_idemp_l. f_equal. lia.
Qed.

Lemma receive_frames b ps ks slot j :
  Z.of_nat (length ps) <= 0x8000 -> Forall (fun p => (length p <= min_transport_payload)%nat) ps ->
  Forall (fun k => (k < length ps)%nat) ks -> (j < length ps)%nat ->
  shadow_ok slot -> shown slot = Some (frame b ps j) ->
  shown (fold_left receive (map (frame b ps) ks) slot) = Some (frame b ps (foldr Nat.max j ks)).
Proof.
  intros Hn Hp. revert slot j. induction ks as [|k ks IH]; intros slot j Hks Hj Hok Hs; [done|].
  apply Forall_cons in Hks as [Hk Hks]. cbn [map fold_left].
  destruct (receive_cases slot (frame b ps k).1 (frame b ps k).2 Hok) as [Hok' Hs'].
  rewrite <- surjective_pairing in Hok', Hs'. rewrite Hs in Hs'. cbn [frame fst snd] in Hs'.
  rewrite (proj2 (Nat.ltb_ge _ _)) in Hs'.
  2:{ destruct (lookup_lt_is_Some_2 ps k Hk) as [p E]. rewrite E. exact (Forall_lookup_1 _ _ _ _ Hp E). }
  rewrite newer_frames in Hs' by lia.
  rewrite (IH _ (j `max` k)%nat Hks ltac:(lia) Hok').
  - f_equal. f_equal. cbn [foldr]. clear. revert j. induction ks as [|k' ks IH]; intros j; cbn [foldr]; [lia|].
    rewrite IH. lia.
  - rewrite Hs'. destruct (Nat.ltb_spec j k); f_equal.
    + by rewrite Nat.max_r by lia.
    + by rewrite Nat.max_l by lia.
Qed.

(** ** Properties *)

Definition publish_all (Capacity : nat) (ch : Z) (ps : list (list byte)) (s : list RetainedStore.Entry) : list RetainedStore.Entry :=
  fold_left (fun s p => fst (RetainedStore.publish Capacity ch p s)) ps s.

Lemma publish_all_seq Capacity ch ps s b p0 :
  RetainedStore.store_inv s -> RetainedStore.get ch s = Some (b, p0) ->
  Forall (fun p => (length p <= min_transport_payload)%nat) ps -> in_u 16 b ->
  RetainedStore.get ch (publish_all Capacity ch ps s) = Some (frame b (p0 :: ps) (length ps)).
Proof.
  revert s b p0. induction ps as [|p ps IH]; intros s b p0 Hinv Hg Hp Hb.
  - cbn. rewrite Hg. unfold frame. cbn. by rewrite Z.add_0_r, wrap_small.
  - apply Forall_cons in Hp as [Hp Hps]. unfold publish_all. cbn [fold_left].
    pose proof (RetainedStore.publish_refines Capacity ch p s Hinv) as Hr.
    destruct (RetainedStore.publish Capacity ch p s) as [s' r]. destruct Hr as [Hinv' Hr]. cbn [fst].
    rewrite (RetainedStore.get_refines _ _ Hinv) in Hg. unfold RetainedStore.spec_publish in Hr.
    rewrite (proj2 (Nat.ltb_ge _ _) Hp), Hg in Hr. injection Hr as Hm _.
    fold (publish_all Capacity ch ps s').
    rewrite (IH s' (u16 (b + 1)) p Hinv'); [|..|done|by apply wrap_range].
    + unfold frame. f_equal. f_equal. unfold wrap. rewrite Zplus_mod_idemp_l. f_equal. cbn [length]. lia.
    + by rewrite (RetainedStore.get_refines _ _ Hinv'), <- Hm, lookup_insert_eq.
Qed.

Lemma max_below n j ks : (j <= n)%nat -> Forall (fun k => (k <= n)%nat) ks -> (foldr Nat.max j ks <= n)%nat.
Proof. intros Hj. induction 1; cbn [foldr]; lia. Qed.

Lemma max_reached n j ks : In n ks -> (n <= foldr Nat.max j ks)%nat.
Proof. induction ks as [|k ks IH]; cbn; [done|]. intros [->|H]; [lia|]. specialize (IH H). lia. Qed.

(** C39. The device shadow: the hub publishes fewer than 2^15 new values of a channel, the network loses,
    repeats and reorders the frames as it likes, and a subscriber that held the first value shows the
    newest of those it received; once the latest frame got through, the shadow is the hub's retained
    value. *)
Theorem shadow_follows_hub (Capacity : nat) (s : list RetainedStore.Entry) (ch b : Z) (p0 : list byte)
  (ps : list (list byte)) (received : list nat) (slot : ShadowSlot)
  (Hs : RetainedStore.store_inv s) (Hb : in_u 16 b) (Hg : RetainedStore.get ch s = Some (b, p0))
  (Hp : Forall (fun p => (length p <= min_transport_payload)%nat) (p0 :: ps))
  (Hn : Z.of_nat (length ps) < 0x8000)
  (Hr : Forall (fun k => (k <= length ps)%nat) received)
  (Hok : shadow_ok slot) (Hslot : shown slot = Some (b, p0)) :
  let shadow := fold_left receive (map (frame b (p0 :: ps)) received) slot in
  shown shadow = Some (frame b (p0 :: ps) (foldr Nat.max 0%nat received))
  /\ (In (length ps) received -> shown shadow = RetainedStore.get ch (publish_all Capacity ch ps s)).
Proof.
  cbv zeta. rewrite (receive_frames b (p0 :: ps) received slot 0%nat).
  - split; [done|]. intros Hin. rewrite (publish_all_seq Capacity ch ps s b p0 Hs Hg); [|by apply Forall_cons in Hp as [_ ?]|done].
    f_equal. f_equal. pose proof (max_below _ 0%nat _ (Nat.le_0_l (length ps)) Hr).
    pose proof (max_reached _ 0%nat _ Hin). lia.
  - cbn [length]. lia.
  - done.
  - eapply Forall_impl; [exact Hr|]. cbn. lia.
  - cbn. lia.
  - done.
  - rewrite Hslot. unfold frame. cbn. by rewrite Z.add_0_r, wrap_small.
Qed.

Lemma shadow_follows_hub_witness :
  let hub := fst (RetainedStore.publish 4 7 [Byte.x01] RetainedStore.new) in
  let slot := receive ShadowSlot_new (1, [Byte.x01]) in
  shown (fold_left receive (map (frame 1 [[Byte.x01]; [Byte.x02]; [Byte.x03]]) [2%nat; 1%nat; 2%nat]) slot)
  = RetainedStore.get 7 (publish_all 4 7 [[Byte.x02]; [Byte.x03]] hub).
Proof.
  refine (proj2 (shadow_follows_hub 4 (fst (RetainedStore.publish 4 7 [Byte.x01] RetainedStore.new)) 7 1 [Byte.x01]
    [[Byte.x02]; [Byte.x03]] [2%nat; 1%nat; 2%nat] (receive ShadowSlot_new (1, [Byte.x01])) _ _ _ _ _ _ _ _) _).
  - exact (proj1 (RetainedStore.publish_refines 4 7 [Byte.x01] RetainedStore.new RetainedStore.new_store)).
  - unfold in_u. lia.
  - vm_compute. reflexivity.
  - unfold min_transport_payload. repeat constructor; apply Nat.leb_le; reflexivity.
  - cbn. lia.
  - cbn. repeat (constructor; [lia|]). constructor.
  - reflexivity.
  - vm_compute. reflexivity.
  - cbn. auto.
Defined.

(** The retained store is a map from channel to sequence number and payload: publishing replaces the
    value and advances the number by one (mod 2^16, from 1), is refused only for a payload above the
    242-byte floor or a new channel in a full store, and then changes nothing; reading returns the last
    value published; removing a channel forgets it and leaves the others. *)
Theorem retained_refines (Capacity : nat) (ch : Z) (p : list byte) (s : list RetainedStore.Entry)
  (Hs : RetainedStore.store_inv s) :
  (let '(s', r) := RetainedStore.publish Capacity ch p s in
   RetainedStore.store_inv s' /\ RetainedStore.spec_publish Capacity ch p (RetainedStore.abs s) = (RetainedStore.abs s', r))
  /\ RetainedStore.get ch s = RetainedStore.abs s !! ch
  /\ (let '(s', b) := RetainedStore.remove ch s in
      RetainedStore.store_inv s' /\ RetainedStore.abs s' = delete ch (RetainedStore.abs s)
      /\ b = bool_decide (is_Some (RetainedStore.abs s !! ch)))
  /\ RetainedStore.store_size s = base.size (RetainedStore.abs s).
Proof.
  split_and!.
  - by apply RetainedStore.publish_refines.
  - by apply RetainedStore.get_refines.
  - by apply RetainedStore.remove_refines.
  - symmetry. by apply table_size, Hs.
Qed.

Lemma retained_refines_witness :
  let s := fst (RetainedStore.publish 4 7 [Byte.x01] RetainedStore.new) in
  RetainedStore.store_size s = base.size (RetainedStore.abs s).
Proof.
  apply (retained_refines 4 7 [] (fst (RetainedStore.publish 4 7 [Byte.x01] RetainedStore.new))).
  exact (proj1 (RetainedStore.publish_refines 4 7 [Byte.x01] RetainedStore.new RetainedStore.new_store)).
Defined.
