(* ===== verification/RateLimiter.v ===== *)
(** * RateLimiter: the ingress token bucket (channel/intent_registry.hpp), and the binary32 arithmetic the pacing code does

    A [float] on the wire is its bit pattern; where the code computes with one it is the Standard
    Library's [spec_float] at precision 24, [emax] 128, whose operations round to nearest even.
    Comparisons are of exact values, and false when one side is a NaN. *)

From Stdlib Require Export Floats.SpecFloat.
From S2P Require Import Prelude SerialArith.
#[local] Open Scope Z_scope.

Definition f32_of_bits (b : Z) : spec_float :=
  let s := Z.testbit b 31 in
  let e := Z.land (Z.shiftr b 23) 0xFF in
  let m := Z.land b 0x7FFFFF in
  if e =? 0xFF then (if m =? 0 then S754_infinity s else S754_nan)
  else if e =? 0 then match m with Z.pos p => S754_finite s p (-149) | _ => S754_zero s end
  else match m + 0x800000 with Z.pos p => S754_finite s p (e - 150) | _ => S754_zero s end.

(** [float(z)] of an integer, rounded. *)
Definition f32_of_Z (z : Z) : spec_float := binary_normalize 24 128 z 0 false.

Definition f32_add := SFadd 24 128.
Definition f32_sub := SFsub 24 128.
Definition f32_mul := SFmul 24 128.
Definition f32_div := SFdiv 24 128.

(** The signed significand and the exponent of a finite number. *)
Definition sig (x : spec_float) : Z :=
  match x with S754_finite s m _ => if s then Z.neg m else Z.pos m | _ => 0 end.
Definition expo (x : spec_float) : Z := match x with S754_finite _ _ e => e | _ => 0 end.

Definition exact_lt (x y : spec_float) : bool :=
  let e := Z.min (expo x) (expo y) in sig x * 2 ^ (expo x - e) <? sig y * 2 ^ (expo y - e).

Definition f32_lt (x y : spec_float) : bool :=
  match x, y with
  | S754_nan, _ | _, S754_nan => false
  | S754_infinity s, S754_infinity s' => s && negb s'
  | S754_infinity s, _ => s
  | _, S754_infinity s' => negb s'
  | _, _ => exact_lt x y
  end.

Definition f32_le (x y : spec_float) : bool :=
  match x, y with
  | S754_nan, _ | _, S754_nan => false
  | _, _ => negb (f32_lt y x)
  end.

(** Rounding towards zero ([uint32_t(x)], on the values the code casts) and up ([std::ceil]). *)
Definition f32_trunc (x : spec_float) : Z :=
  if 0 <=? expo x then sig x * 2 ^ expo x else Z.quot (sig x) (2 ^ (- expo x)).

Definition f32_ceil (x : spec_float) : spec_float :=
  match x with
  | S754_finite s _ e =>
      if 0 <=? e then x else binary_normalize 24 128 (- ((- sig x) / 2 ^ (- e))) 0 s
  | _ => x
  end.

Lemma exact_lt_trunc x m e :
  0 <= e -> exact_lt x (S754_finite false m e) = true -> f32_trunc x < Z.pos m * 2 ^ e.
Proof.
  unfold exact_lt, f32_trunc. cbn [sig expo]. generalize (sig x), (expo x). intros s ex He Hlt%Z.ltb_lt.
  destruct (Z.leb_spec 0 ex) as [Hex|Hex].
  - destruct (Z.le_ge_cases ex e).
    + rewrite Z.min_l, Z.sub_diag, Z.mul_1_r in Hlt by done.
      replace e with (e - ex + ex) by lia. rewrite Z.pow_add_r by lia.
      pose proof (Z.pow_pos_nonneg 2 ex). nia.
    + rewrite Z.min_r, Z.sub_diag, Z.mul_1_r in Hlt by done.
      replace ex with (ex - e + e) by lia. rewrite Z.pow_add_r by lia.
      pose proof (Z.pow_pos_nonneg 2 e). nia.
  - rewrite Z.min_l, Z.sub_diag, Z.mul_1_r in Hlt by lia.
    pose proof (Z.pow_pos_nonneg 2 (- ex) ltac:(lia) ltac:(lia)).
    replace (e - ex) with (e + - ex) in Hlt by lia. rewrite Z.pow_add_r in Hlt by lia.
    pose proof (Z.pow_pos_nonneg 2 e ltac:(lia) ltac:(lia)).
    destruct (Z.le_gt_cases 0 s).
    + apply Z.quot_lt_upper_bound; lia.
    + pose proof (Z.quot_opp_l s (2 ^ - ex) ltac:(lia)). pose proof (Z.quot_pos (- s) (2 ^ - ex) ltac:(lia) ltac:(lia)). nia.
Qed.

Lemma f32_lt_trunc x m e : 0 <= e -> f32_lt x (S754_finite false m e) = true -> (0 <= sig x) -> f32_trunc x < Z.pos m * 2 ^ e.
Proof.
  intros He Hlt Hs. destruct x as [s|s| |s m' e']; cbn in Hlt; try done; try by apply exact_lt_trunc.
  destruct s; [|done]. unfold f32_trunc. cbn. pose proof (Z.pow_pos_nonneg 2 e ltac:(lia) He). lia.
Qed.

Lemma f32_trunc_nonneg x : 0 <= sig x -> 0 <= f32_trunc x.
Proof.
  intros Hs. unfold f32_trunc. destruct (Z.leb_spec 0 (expo x)).
  - pose proof (Z.pow_pos_nonneg 2 (expo x)). nia.
  - apply Z.quot_pos; [done|]. apply Z.pow_pos_nonneg; lia.
Qed.

Example f32_div_1e6_60 : f32_trunc (f32_ceil (f32_div (f32_of_Z 1000000) (f32_of_bits 0x42700000))) = 16667.
Proof. vm_compute. reflexivity. Qed.



(** The bit pattern of a binary32 number in canonical form. *)
Definition f32_to_bits (x : spec_float) : Z :=
  let sign (s : bool) := if s then 2 ^ 31 else 0 in
  match x with
  | S754_zero s => sign s
  | S754_infinity s => sign s + 0x7F800000
  | S754_nan => 0x7FC00000
  | S754_finite s m e =>
      if Z.pos m <? 2 ^ 23 then sign s + Z.pos m else sign s + (e + 150) * 2 ^ 23 + (Z.pos m - 2 ^ 23)
  end.

Definition intent_ingress_default_per_s : Z := 50.

Record IngressRateLimiter := mkIngressRateLimiter {
  rl_ratePerSec : Z; rl_capacity : spec_float; rl_tokens : spec_float; rl_lastMs : Z }.

(** [capacityTokens] is 0 for a bucket as deep as one second of its rate. *)
Definition IngressRateLimiter_new (ratePerSec nowMs : Z) (capacityTokens : spec_float) : IngressRateLimiter :=
  let capacity := if f32_lt (S754_zero false) capacityTokens then capacityTokens else f32_of_Z ratePerSec in
  mkIngressRateLimiter ratePerSec capacity capacity nowMs.

Definition refill (nowMs : Z) (l : IngressRateLimiter) : IngressRateLimiter :=
  let deltaMs := timeDelta nowMs (rl_lastMs l) in
  if deltaMs <=? 0 then l
  else
    let added := f32_mul (f32_div (f32_of_Z deltaMs) (f32_of_Z 1000)) (f32_of_Z (rl_ratePerSec l)) in
    let tokens := f32_add (rl_tokens l) added in
    mkIngressRateLimiter (rl_ratePerSec l) (rl_capacity l)
      (if f32_lt (rl_capacity l) tokens then rl_capacity l else tokens) nowMs.

Definition allowN (nowMs n : Z) (l : IngressRateLimiter) : IngressRateLimiter * bool :=
  let l := refill nowMs l in
  if f32_le (f32_of_Z n) (rl_tokens l) then
    (mkIngressRateLimiter (rl_ratePerSec l) (rl_capacity l) (f32_sub (rl_tokens l) (f32_of_Z n)) (rl_lastMs l), true)
  else (l, false).

Definition allow (nowMs : Z) : IngressRateLimiter -> IngressRateLimiter * bool := allowN nowMs 1.

(** Fifty intents at once, none more, and one again after 20 ms. *)
Fixpoint allowed (n : nat) (nowMs : Z) (l : IngressRateLimiter) : IngressRateLimiter * nat :=
  match n with
  | O => (l, 0%nat)
  | S n => let '(l, yes) := allow nowMs l in let '(l, k) := allowed n nowMs l in (l, if yes then S k else k)
  end.

Example default_burst :
  let '(l, k) := allowed 60 5 (IngressRateLimiter_new intent_ingress_default_per_s 0 (S754_zero false)) in
  k = 50%nat /\ snd (allowed 3 25 l) = 1%nat.
Proof. vm_compute. done. Qed.

Example bits_back : map (fun b => f32_to_bits (f32_of_bits b)) [0; 0x80000000; 1; 0x3F800000; 0x42700000; 0x7F800000; 0x007FFFFF]
  = [0; 0x80000000; 1; 0x3F800000; 0x42700000; 0x7F800000; 0x007FFFFF].
Proof. vm_compute. done. Qed.
