(* ===== verification/Subscription.v ===== *)
(** * Subscription: grants and their pacing (channel/subscription.hpp), SPEC 9.1, 10.2

    A session's grants are an array of entries, of which the model keeps the first [_count]; an entry's
    schedule is a due time in milliseconds with a sub-millisecond remainder.  Rates are bit patterns of
    binary32 numbers. *)

From S2P Require Import Prelude SerialArith RateLimiter Tables Shedding.
#[local] Open Scope Z_scope.

Record SubscriptionEntry := mkSubscriptionEntry {
  channel_id : Z; granted_rate_hz : Z; priority : Z; ceiling_hz : Z;
  everPushed : bool; dueFracUs : Z; dueMs : Z }.

Definition SubscriptionEntry_new : SubscriptionEntry := mkSubscriptionEntry 0 0 Priority.normal 0 false 0 0.

(** [x > 0.0f]. *)
Definition hz_positive (bits : Z) : bool := f32_lt (S754_zero false) (f32_of_bits bits).

Definition paceHz (e : SubscriptionEntry) : Z :=
  if hz_positive (granted_rate_hz e) then granted_rate_hz e else ceiling_hz e.

Definition grantPeriodUs (e : SubscriptionEntry) : Z :=
  let hz := paceHz e in
  if negb (hz_positive hz) then 0
  else
    let us := f32_ceil (f32_div (f32_of_Z 1000000) (f32_of_bits hz)) in
    if f32_lt us (f32_of_Z 4000000000) then f32_trunc us else 4000000000.

Definition dueForPush (nowMs : Z) (changePending : bool) (e : SubscriptionEntry) : bool :=
  if negb (everPushed e) then true
  else if negb changePending then false
  else if negb (hz_positive (paceHz e)) then true
  else timeReached nowMs (dueMs e).

Definition markPushed (nowMs : Z) (e : SubscriptionEntry) : SubscriptionEntry :=
  let periodUs := grantPeriodUs e in
  let next := u32 (dueFracUs e + periodUs) in
  let ms := u32 (dueMs e + next / 1000) in
  let frac := next mod 1000 in
  let restart := negb (everPushed e) || timeReached nowMs ms in
  mkSubscriptionEntry (channel_id e) (granted_rate_hz e) (priority e) (ceiling_hz e) true
    (u16 (if restart then periodUs mod 1000 else frac))
    (if restart then u32 (nowMs + periodUs / 1000) else ms).

(** The hub's use of one entry on its ticks: (hub-ms, whether there is something new to send); the times
    a push was sent. *)
Fixpoint pace (e : SubscriptionEntry) (ticks : list (Z * bool)) : list Z :=
  match ticks with
  | [] => []
  | (t, changed) :: ticks =>
      if dueForPush (u32 t) changed e then t :: pace (markPushed (u32 t) e) ticks else pace e ticks
  end.

(** ** SubscriptionTable *)

Section Table.
Context (Capacity : nat).

Definition SubscriptionTable := list SubscriptionEntry.

Definition find (ch : Z) (t : list SubscriptionEntry) : option nat := table_find channel_id ch t.

Definition regrant (rate prio : Z) (e : SubscriptionEntry) : SubscriptionEntry :=
  mkSubscriptionEntry (channel_id e) rate prio (ceiling_hz e) false (dueFracUs e) (dueMs e).

Definition fresh_grant (ch rate prio : Z) : SubscriptionEntry := mkSubscriptionEntry ch rate prio 0 false 0 0.

Definition upsert (ch rate prio : Z) (t : list SubscriptionEntry) : list SubscriptionEntry * bool :=
  match find ch t with
  | Some i =>
      match t !! i with
      | Some e => (<[i := regrant rate prio e]> t, true)
      | None => (t, false)
      end
  | None => if (Capacity <=? length t)%nat then (t, false) else (t ++ [fresh_grant ch rate prio], true)
  end.

Definition sub_remove (ch : Z) (t : list SubscriptionEntry) : list SubscriptionEntry * bool :=
  match find ch t with
  | Some i => (delete i t, true)
  | None => (t, false)
  end.

(** What a session does to its table: SUBSCRIBE, UNSUBSCRIBE, and the pushes of a tick. *)
Inductive TableOp :=
| OpUpsert (ch rate prio : Z)
| OpRemove (ch : Z)
| OpPushed (ch nowMs : Z).

Definition table_step (op : TableOp) (t : list SubscriptionEntry) : list SubscriptionEntry * bool :=
  match op with
  | OpUpsert ch rate prio => upsert ch rate prio t
  | OpRemove ch => sub_remove ch t
  | OpPushed ch nowMs =>
      match find ch t with
      | Some i => (alter (markPushed nowMs) i t, true)
      | None => (t, false)
      end
  end.

Definition table_steps (ops : list TableOp) (t : list SubscriptionEntry) : list SubscriptionEntry :=
  foldl (fun t op => fst (table_step op t)) t ops.

(** The contract: a finite map from channels to grants with at most [Capacity] of them. *)
Definition spec_step (op : TableOp) (m : gmap Z SubscriptionEntry) : gmap Z SubscriptionEntry * bool :=
  match op with
  | OpUpsert ch rate prio =>
      match m !! ch with
      | Some e => (<[ch := regrant rate prio e]> m, true)
      | None => if (Capacity <=? size m)%nat then (m, false) else (<[ch := fresh_grant ch rate prio]> m, true)
      end
  | OpRemove ch => (delete ch m, bool_decide (is_Some (m !! ch)))
  | OpPushed ch nowMs =>
      match m !! ch with
      | Some e => (<[ch := markPushed nowMs e]> m, true)
      | None => (m, false)
      end
  end.

End Table.

Definition grants (t : list SubscriptionEntry) : gmap Z SubscriptionEntry := table_map channel_id id t.

Definition grants_inv (Capacity : nat) (t : list SubscriptionEntry) : Prop :=
  one_per_key channel_id t /\ (length t <= Capacity)%nat.

(** ** Lemmas: the period *)

Lemma round_sig_nonneg mx ex lx : 0 <= sig (binary_round_aux 24 128 false mx ex lx).
Proof. unfold binary_round_aux. repeat case_match; cbn; lia. Qed.

Lemma normalize_sig_nonneg z s : 0 <= z -> 0 <= sig (binary_normalize 24 128 z 0 s).
Proof.
  intros Hz. unfold binary_normalize. destruct z as [|p|p]; [cbn; lia| |lia].
  unfold binary_round. destruct (shl_align _ _ _). apply round_sig_nonneg.
Qed.

Lemma ceil_sig_nonneg x : 0 <= sig x -> 0 <= sig (f32_ceil x).
Proof.
  intros Hs. destruct x as [s|s| |s m e]; cbn [f32_ceil]; [done..|]. destruct (Z.leb_spec 0 e); [done|].
  apply normalize_sig_nonneg. pose proof (Z.pow_pos_nonneg 2 (- e) ltac:(lia) ltac:(lia)).
  pose proof (Z.div_le_upper_bound (- sig (S754_finite s m e)) (2 ^ - e) 0 ltac:(lia) ltac:(lia)). lia.
Qed.

Lemma div_sig_nonneg m e hz : f32_lt (S754_zero false) hz = true -> 0 <= sig (f32_div (S754_finite false m e) hz).
Proof.
  destruct hz as [s|s| |s m' e']; cbn; try done.
  destruct s; [|destruct (SFdiv_core_binary _ _ _ _ _ _) as [[? ?] ?]; intros _; apply round_sig_nonneg].
  unfold exact_lt. cbn [sig expo]. intros H%Z.ltb_lt.
  pose proof (Z.pow_pos_nonneg 2 (e' - Z.min 0 e') ltac:(lia) ltac:(lia)). nia.
Qed.

Lemma grantPeriodUs_range e : 0 <= grantPeriodUs e <= 4000000000.
Proof.
  unfold grantPeriodUs. destruct (hz_positive (paceHz e)) eqn:Hp; cbn [negb]; [|lia].
  assert (Hs : 0 <= sig (f32_ceil (f32_div (f32_of_Z 1000000) (f32_of_bits (paceHz e))))).
  { apply ceil_sig_nonneg.
    change (f32_of_Z 1000000) with (S754_finite false 16000000 (-4)). by apply div_sig_nonneg. }
  change (f32_of_Z 4000000000) with (S754_finite false 15625000 8). case_match; [|lia].
  split; [by apply f32_trunc_nonneg|]. apply Z.lt_le_incl.
  change 4000000000 with (15625000 * 2 ^ 8). by apply f32_lt_trunc.
Qed.

(** ** The schedule, unwrapped

    [D] is the due time in microseconds on a clock that does not wrap. *)

Definition tracks (e : SubscriptionEntry) (D : Z) : Prop :=
  everPushed e = true /\ dueMs e = u32 (D / 1000) /\ dueFracUs e = D mod 1000.

(** Within half the range of the 32-bit clock. *)
Definition near (a b : Z) : Prop := - 2 ^ 31 <= a - b < 2 ^ 31.

Definition next_due (P D t : Z) : Z := if (D + P) / 1000 <=? t then t * 1000 + P else D + P.

Lemma timeReached_near t d : near t d -> timeReached (u32 t) (u32 d) = (d <=? t).
Proof.
  intros H. unfold near in H. pose proof (timeReached_elapsed d 0 (t - d) ltac:(lia)) as E.
  rewrite Z.add_0_r in E. replace (d + (t - d)) with t in E by lia. rewrite E. lia.
Qed.

Lemma due_near (e : SubscriptionEntry) D t changed :
  tracks e D -> near t (D / 1000) ->
  dueForPush (u32 t) changed e
  = changed && (negb (hz_positive (paceHz e)) || (D / 1000 <=? t)).
Proof.
  intros (He & Hms & _) Hn. unfold dueForPush. rewrite He, Hms. cbn [negb].
  rewrite timeReached_near by done. by destruct changed, (hz_positive (paceHz e)).
Qed.

Lemma split_us a b : a mod 1000 + b = (a + b) - 1000 * (a / 1000).
Proof. pose proof (Z_div_mod_eq_full a 1000). lia. Qed.

Lemma restart_tracks t P :
  0 <= P <= 4000000000 ->
  forall ch g p c, tracks (mkSubscriptionEntry ch g p c true (u16 (P mod 1000)) (u32 (u32 t + P / 1000))) (t * 1000 + P).
Proof.
  intros HP ch g p c. split; [done|]. cbn [dueMs dueFracUs]. pose proof (Z.mod_pos_bound P 1000 ltac:(lia)).
  rewrite (Z.add_comm (t * 1000)), Z.div_add, Z.mod_add by lia. split.
  - unfold wrap. rewrite Zplus_mod_idemp_l. f_equal. lia.
  - apply wrap_small. unfold in_u. lia.
Qed.

Lemma first_push e t : everPushed e = false -> tracks (markPushed (u32 t) e) (t * 1000 + grantPeriodUs e).
Proof.
  intros He. unfold markPushed. rewrite He. cbn [negb orb]. apply restart_tracks, grantPeriodUs_range.
Qed.

Lemma later_push e D t :
  tracks e D -> near t ((D + grantPeriodUs e) / 1000) ->
  tracks (markPushed (u32 t) e) (next_due (grantPeriodUs e) D t).
Proof.
  intros (He & Hms & Hfr) Hn. pose proof (grantPeriodUs_range e) as HP. revert Hn HP.
  unfold markPushed. generalize (grantPeriodUs e). intros P Hn HP. rewrite He, Hms, Hfr. cbn [negb orb].
  pose proof (Z.mod_pos_bound D 1000 ltac:(lia)) as Hm.
  assert (Hu : u32 (D mod 1000 + P) = D mod 1000 + P) by (apply wrap_small; unfold in_u; lia).
  rewrite Hu, split_us.
  assert (Hd : (D + P - 1000 * (D / 1000)) / 1000 = (D + P) / 1000 - D / 1000).
  { replace (D + P - 1000 * (D / 1000)) with (D + P + - (D / 1000) * 1000) by lia. rewrite Z.div_add by lia. lia. }
  assert (Hr : (D + P - 1000 * (D / 1000)) mod 1000 = (D + P) mod 1000).
  { replace (D + P - 1000 * (D / 1000)) with (D + P + - (D / 1000) * 1000) by lia. by rewrite Z.mod_add by lia. }
  rewrite Hd, Hr.
  assert (Hms' : u32 (u32 (D / 1000) + ((D + P) / 1000 - D / 1000)) = u32 ((D + P) / 1000)).
  { unfold wrap. rewrite Zplus_mod_idemp_l. f_equal. lia. }
  rewrite Hms', timeReached_near by done. unfold next_due.
  destruct ((D + P) / 1000 <=? t); [by apply restart_tracks|].
  split; [done|]. cbn [dueMs dueFracUs]. split; [done|]. apply wrap_small.
  pose proof (Z.mod_pos_bound (D + P) 1000 ltac:(lia)). unfold in_u. lia.
Qed.

Lemma markPushed_period now (e : SubscriptionEntry) : grantPeriodUs (markPushed now e) = grantPeriodUs e.
Proof. done. Qed.

(** The unwrapped pacing of a periodic grant. *)
Fixpoint spec_pace (P D : Z) (ticks : list (Z * bool)) : list Z :=
  match ticks with
  | [] => []
  | (t, changed) :: ticks =>
      if changed && (D / 1000 <=? t) then t :: spec_pace P (next_due P D t) ticks else spec_pace P D ticks
  end.

(** Ticks of a clock that does not run backwards, all within [2^30] ms of [T]. *)
Fixpoint ticking (T last : Z) (ticks : list (Z * bool)) : Prop :=
  match ticks with
  | [] => True
  | (t, _) :: ticks => last <= t <= T + 2 ^ 30 /\ ticking T t ticks
  end.

Lemma pace_unwrapped e D T last ticks :
  tracks e D -> hz_positive (paceHz e) = true ->
  T <= last -> T <= D / 1000 <= last + 4000000 -> ticking T last ticks ->
  pace e ticks = spec_pace (grantPeriodUs e) D ticks.
Proof.
  revert e D last. induction ticks as [|[t changed] ticks IH]; intros e D last Ht Hp HT HD Hk; [done|].
  destruct Hk as [Hk1 Hk]. cbn [pace spec_pace].
  rewrite (due_near e D t changed Ht) by (unfold near; lia). rewrite Hp. cbn [negb orb].
  pose proof (grantPeriodUs_range e) as HP.
  destruct (changed && (D / 1000 <=? t)) eqn:E.
  - apply andb_prop in E as [_ E%Z.leb_le].
    assert (Hd : D / 1000 <= (D + grantPeriodUs e) / 1000 <= D / 1000 + 4000000).
    { split; [apply Z.div_le_mono; lia|]. rewrite <- Z.div_add by lia. apply Z.div_le_mono; lia. }
    f_equal. apply (IH (markPushed (u32 t) e) (next_due (grantPeriodUs e) D t) t).
    + apply later_push; [done|]. unfold near. lia.
    + done.
    + lia.
    + unfold next_due. destruct (Z.leb_spec ((D + grantPeriodUs e) / 1000) t); [|lia].
      rewrite (Z.add_comm (t * 1000)), Z.div_add by lia.
      pose proof (Z.div_pos (grantPeriodUs e) 1000 ltac:(lia) ltac:(lia)).
      pose proof (Z.div_le_mono (grantPeriodUs e) 4000000000 1000 ltac:(lia) ltac:(lia)).
      change (4000000000 / 1000) with 4000000 in *. lia.
    + done.
  - apply (IH e D t); try done; lia.
Qed.

Lemma next_due_later P D t : 1000 <= P -> D + P <= next_due P D t /\ t * 1000 + 1000 <= next_due P D t.
Proof.
  intros HP. unfold next_due. pose proof (Z_div_mod_eq_full (D + P) 1000).
  pose proof (Z.mod_pos_bound (D + P) 1000 ltac:(lia)). destruct (Z.leb_spec ((D + P) / 1000) t); lia.
Qed.

Lemma spec_pace_due P D ticks k t :
  1000 <= P -> spec_pace P D ticks !! k = Some t -> D + Z.of_nat k * P <= t * 1000 + 999.
Proof.
  intros HP. revert D k. induction ticks as [|[t' c] ticks IH]; intros D k Hk; cbn [spec_pace] in Hk; [done|].
  destruct (c && (D / 1000 <=? t')) eqn:E; [|by apply IH].
  apply andb_prop in E as [_ E%Z.leb_le]. pose proof (Z_div_mod_eq_full D 1000).
  pose proof (Z.mod_pos_bound D 1000 ltac:(lia)). destruct k as [|k]; cbn in Hk.
  - injection Hk as ->. lia.
  - apply IH in Hk. pose proof (next_due_later P D t' HP). lia.
Qed.

Lemma spec_pace_apart P D ticks i j ti tj :
  1000 <= P -> (i < j)%nat -> spec_pace P D ticks !! i = Some ti -> spec_pace P D ticks !! j = Some tj ->
  (Z.of_nat j - Z.of_nat i - 1) * P < (tj - ti) * 1000.
Proof.
  intros HP. revert D i j. induction ticks as [|[t' c] ticks IH]; intros D i j Hij Hi Hj; cbn [spec_pace] in *; [done|].
  destruct (c && (D / 1000 <=? t')); [|by apply (IH D)].
  destruct j as [|j]; [lia|]. destruct i as [|i]; cbn in Hi, Hj.
  - injection Hi as ->. apply spec_pace_due in Hj; [|done]. pose proof (next_due_later P D ti HP). lia.
  - pose proof (IH _ i j ltac:(lia) Hi Hj). lia.
Qed.

(** Ticks at most [G] ms apart. *)
Fixpoint dense (G last : Z) (ts : list Z) : Prop :=
  match ts with
  | [] => True
  | t :: ts => last <= t <= last + G /\ dense G t ts
  end.

Lemma spec_pace_met P G D last0 ts k :
  0 < G -> 1000 * G <= P -> last0 < D / 1000 -> dense G last0 ts ->
  (D + Z.of_nat k * P) / 1000 <= List.last ts last0 ->
  exists t, spec_pace P D (map (fun t => (t, true)) ts) !! k = Some t
    /\ (D + Z.of_nat k * P) / 1000 <= t < (D + Z.of_nat k * P) / 1000 + G.
Proof.
  intros HG HP. revert D last0 k. induction ts as [|t ts IH]; intros D last0 k Hlast Hd Hk.
  - cbn in Hk. pose proof (Z.div_le_mono D (D + Z.of_nat k * P) 1000 ltac:(lia) ltac:(nia)). lia.
  - destruct Hd as [Ht Hd]. cbn [map spec_pace andb].
    assert (Hl : List.last (t :: ts) last0 = List.last ts t) by apply last_shift.
    rewrite Hl in Hk. destruct (Z.leb_spec (D / 1000) t) as [Hdue|Hdue].
    + assert (Hadv : next_due P D t = D + P).
      { unfold next_due. pose proof (Z.div_le_mono (D + G * 1000) (D + P) 1000 ltac:(lia) ltac:(lia)) as Hm.
        rewrite Z.div_add in Hm by lia. destruct (Z.leb_spec ((D + P) / 1000) t); [lia|done]. }
      rewrite Hadv. destruct k as [|k].
      * exists t. rewrite Z.mul_0_l, Z.add_0_r. split; [done|lia].
      * replace (D + Z.of_nat (S k) * P) with (D + P + Z.of_nat k * P) in * by lia.
        apply (IH (D + P) t k); [|done|done].
        pose proof (Z.div_le_mono (D + G * 1000) (D + P) 1000 ltac:(lia) ltac:(lia)) as Hm.
        rewrite Z.div_add in Hm by lia. lia.
    + by apply (IH D t k).
Qed.

Lemma ticking_dense T G last0 ts :
  dense G last0 ts -> (List.last ts last0 <= T + 2 ^ 30) -> 0 <= G -> ticking T last0 (map (fun t => (t, true)) ts).
Proof.
  intros Hd Hl HG. revert last0 Hd Hl. induction ts as [|t ts IH]; intros last0 Hd Hl; [done|].
  destruct Hd as [Ht Hd]. cbn [map ticking].
  assert (Hl' : List.last (t :: ts) last0 = List.last ts t) by apply last_shift. rewrite Hl' in Hl.
  assert (Hup : t <= List.last ts t).
  { clear -Hd. revert t Hd. induction ts as [|t' ts IH]; intros t Hd; [cbn; lia|]. destruct Hd as [Ht Hd].
    assert (Hl : List.last (t' :: ts) t = List.last ts t') by apply last_shift.
    rewrite Hl. specialize (IH t' Hd). lia. }
  split; [lia|]. by apply IH.
Qed.

(** ** The table *)

Section TableLemmas.
Context (Capacity : nat).

Lemma grants_change l1 e e' l2 :
  grants_inv Capacity (l1 ++ e :: l2) -> channel_id e' = channel_id e ->
  grants_inv Capacity (l1 ++ e' :: l2) /\ grants (l1 ++ e' :: l2) = <[channel_id e := e']> (grants (l1 ++ e :: l2)).
Proof.
  intros [Hnd Hl] Hk. destruct (table_update channel_id id l1 e e' l2 Hnd Hk) as [Hnd' Hm].
  split; [|done]. split; [done|]. rewrite !length_app in *. done.
Qed.

Lemma table_step_refines op t :
  grants_inv Capacity t ->
  let '(t', b) := table_step Capacity op t in
  grants_inv Capacity t' /\ spec_step Capacity op (grants t) = (grants t', b).
Proof.
  intros Hinv. pose proof Hinv as [Hnd Hl].
  destruct op as [ch rate prio|ch|ch nowMs]; cbn [table_step spec_step]; unfold upsert, sub_remove;
    (destruct (find ch t) as [i|] eqn:Hf;
     [destruct (table_find_Some channel_id id ch t i Hnd Hf) as (l1 & e & l2 & -> & <- & <- & Hm)
     |destruct (table_find_None channel_id id ch t Hf) as [Hn Hm]]);
    change (table_map channel_id id) with grants in Hm; rewrite ?Hm.
  - rewrite lookup_middle, insert_middle.
    destruct (grants_change l1 e (regrant rate prio e) l2 Hinv eq_refl) as [? ->]. done.
  - unfold grants at 1. rewrite (table_size channel_id id t Hnd). destruct (Nat.leb_spec Capacity (length t)); [done|].
    destruct (table_append channel_id id t (fresh_grant ch rate prio) Hnd Hn) as [Hnd' Ht].
    unfold grants. rewrite Ht. split; [|done]. split; [done|]. rewrite length_app. cbn. lia.
  - rewrite delete_at_middle. destruct (table_remove channel_id id l1 e l2 Hnd) as [Hnd' Ht].
    unfold grants. rewrite Ht, bool_decide_true by done. split; [|done].
    split; [done|]. rewrite !length_app in *. cbn in Hl. lia.
  - rewrite bool_decide_false by (intros [? [=]]). split; [done|]. by rewrite delete_id.
  - rewrite list_alter_at_middle. destruct (grants_change l1 e (markPushed nowMs e) l2 Hinv eq_refl) as [? ->]. done.
  - done.
Qed.

End TableLemmas.

(** ** Properties *)

Definition periodic (e : SubscriptionEntry) : Prop := hz_positive (paceHz e) = true /\ 1000 <= grantPeriodUs e.

Lemma pace_granted e t0 c ticks :
  everPushed e = false -> hz_positive (paceHz e) = true -> ticking t0 t0 ticks ->
  pace e ((t0, c) :: ticks) = t0 :: spec_pace (grantPeriodUs e) (t0 * 1000 + grantPeriodUs e) ticks.
Proof.
  intros He Hp Hk. cbn [pace]. unfold dueForPush at 1. rewrite He. cbn [negb]. f_equal.
  pose proof (grantPeriodUs_range e) as HP.
  apply (pace_unwrapped (markPushed (u32 t0) e) _ t0 t0); [by apply first_push|done|lia| |done].
  rewrite (Z.add_comm (t0 * 1000)), Z.div_add by lia.
  pose proof (Z.div_pos (grantPeriodUs e) 1000 ltac:(lia) ltac:(lia)).
  pose proof (Z.div_le_mono (grantPeriodUs e) 4000000000 1000 ltac:(lia) ltac:(lia)).
  change (4000000000 / 1000) with 4000000 in *. lia.
Qed.

(** A grant is never exceeded: the first push goes out on the first tick after the grant, and from
    then on, on whatever ticks the hub looks and whether or not the value changed in between, any [n + 1]
    pushes span more than [n - 1] grant periods (a late push restarts the schedule instead of being
    caught up), across the wrap of the 32-bit clock. *)
Theorem pace_ceiling (e : SubscriptionEntry) (t0 : Z) (c : bool) (ticks : list (Z * bool))
  (He : everPushed e = false) (Hp : periodic e) (Hk : ticking t0 t0 ticks) :
  hd_error (pace e ((t0, c) :: ticks)) = Some t0
  /\ forall i j ti tj, (i < j)%nat ->
       pace e ((t0, c) :: ticks) !! i = Some ti -> pace e ((t0, c) :: ticks) !! j = Some tj ->
       (Z.of_nat j - Z.of_nat i - 1) * grantPeriodUs e < (tj - ti) * 1000.
Proof.
  destruct Hp as [Hp HP]. rewrite (pace_granted e t0 c ticks He Hp Hk). split; [done|].
  intros i j ti tj Hij Hi Hj. destruct j as [|j]; [lia|]. destruct i as [|i]; cbn in Hi, Hj.
  - injection Hi as <-. apply spec_pace_due in Hj; [|done]. lia.
  - pose proof (spec_pace_apart _ _ _ i j ti tj HP ltac:(lia) Hi Hj). lia.
Qed.

Lemma pace_ceiling_witness :
  let e := fresh_grant 7 0x42700000 Priority.normal in
  pace e [(0, true); (5, true); (10, true); (15, true); (20, true); (200, true); (205, true)] = [0; 20; 200]
  /\ (Z.of_nat 2 - Z.of_nat 1 - 1) * grantPeriodUs e < (200 - 20) * 1000.
Proof.
  split; [vm_compute; reflexivity|].
  refine (proj2 (pace_ceiling (fresh_grant 7 0x42700000 Priority.normal) 0 true
    [(5, true); (10, true); (15, true); (20, true); (200, true); (205, true)] eq_refl _ _) 1%nat 2%nat 20 200 _ _ _).
  - split; [vm_compute; reflexivity|]. apply Z.leb_le. vm_compute. reflexivity.
  - cbn. lia.
  - lia.
  - vm_compute. reflexivity.
  - vm_compute. reflexivity.
Defined.

(** C40. A grant is met: while there is always something new and the hub looks at least every [G] ms, with
    [G] at most a grant period, the [k]-th push goes out, and it goes out within [G] ms of [k] whole
    periods after the grant: the ticks cost no push, however long it runs. *)
Theorem pace_met (e : SubscriptionEntry) (t0 G : Z) (ts : list Z) (k : nat)
  (He : everPushed e = false) (Hp : periodic e) (HG : 0 < G) (HGP : 1000 * G <= grantPeriodUs e)
  (Hd : dense G t0 ts) (Hr : List.last ts t0 <= t0 + 2 ^ 30)
  (Hk : (t0 * 1000 + Z.of_nat k * grantPeriodUs e) / 1000 <= List.last ts t0) :
  exists t, pace e (map (fun t => (t, true)) (t0 :: ts)) !! k = Some t
    /\ (t0 * 1000 + Z.of_nat k * grantPeriodUs e) / 1000 <= t
       < (t0 * 1000 + Z.of_nat k * grantPeriodUs e) / 1000 + G.
Proof.
  destruct Hp as [Hp HP]. cbn [map]. rewrite pace_granted; [|done|done|by apply (ticking_dense _ G); [..|lia]].
  destruct k as [|k].
  - exists t0. rewrite Z.mul_0_l, Z.add_0_r, Z.div_mul by lia. split; [done|lia].
  - replace (t0 * 1000 + Z.of_nat (S k) * grantPeriodUs e)
      with (t0 * 1000 + grantPeriodUs e + Z.of_nat k * grantPeriodUs e) in * by lia.
    apply (spec_pace_met _ G _ t0); try done.
    rewrite (Z.add_comm (t0 * 1000)), Z.div_add by lia.
    pose proof (Z.div_le_mono 1000 (grantPeriodUs e) 1000 ltac:(lia) HP). change (1000 / 1000) with 1 in *. lia.
Qed.

Lemma pace_met_witness :
  let e := fresh_grant 7 0x42700000 Priority.normal in
  exists t, pace e (map (fun t => (t, true)) (0 :: [5; 10; 15; 20; 25; 30; 35; 40])) !! 2%nat = Some t
    /\ 33 <= t < 38.
Proof.
  refine (pace_met (fresh_grant 7 0x42700000 Priority.normal) 0 5 [5; 10; 15; 20; 25; 30; 35; 40] 2 eq_refl _ _ _ _ _ _).
  - split; [vm_compute; reflexivity|]. apply Z.leb_le. vm_compute. reflexivity.
  - lia.
  - apply Z.leb_le. vm_compute. reflexivity.
  - cbn. lia.
  - cbn. lia.
  - apply Z.leb_le. vm_compute. reflexivity.
Defined.

(** A session's grants are a finite map from channels with a fixed capacity.  Along any history of
    SUBSCRIBE, UNSUBSCRIBE and pushes there is one entry per channel and never more than the capacity; a
    repeated SUBSCRIBE replaces the rate in place even in a full table and makes the channel due at once,
    only a new channel in a full table is refused, and removing a channel leaves the others. *)
Theorem grants_refine (Capacity : nat) (ops : list TableOp) (op : TableOp) :
  let t := table_steps Capacity ops [] in
  grants_inv Capacity t
  /\ (let '(t', b) := table_step Capacity op t in spec_step Capacity op (grants t) = (grants t', b))
  /\ (forall ch rate prio nowMs changed,
        let '(t', b) := upsert Capacity ch rate prio t in
        b = true -> dueForPush nowMs changed <$> grants t' !! ch = Some true).
Proof.
  cbv zeta. assert (Hinv : grants_inv Capacity (table_steps Capacity ops [])).
  { assert (H0 : grants_inv Capacity []) by (split; [constructor|cbn; lia]). revert H0.
    unfold table_steps. generalize (@nil SubscriptionEntry) as t.
    induction ops as [|o ops IH]; intros t Ht; [done|]. cbn [foldl]. apply IH.
    pose proof (table_step_refines Capacity o t Ht) as H. destruct (table_step Capacity o t); apply H. }
  split_and!; [done| |].
  - pose proof (table_step_refines Capacity op _ Hinv) as H. destruct (table_step _ op _); apply H.
  - intros ch rate prio nowMs changed. pose proof (table_step_refines Capacity (OpUpsert ch rate prio) _ Hinv) as H.
    cbn [table_step spec_step] in H. destruct (upsert Capacity ch rate prio _) as [t' b]. destruct H as [_ H]. intros ->.
    destruct (grants _ !! ch) as [e|]; [|destruct (_ <=? _)%nat; [done|]]; injection H as <-; by rewrite lookup_insert_eq.
Qed.
