(* ===== verification/Registry.v ===== *)
(** * Registry: the protocol's constants the hub and the client use (generated/registry_constants.hpp, session/safety.hpp, channel/)

    Enumerations and constants of the registry by their wire value; the ones a single component uses are
    declared with it. *)

From S2P Require Import Prelude.
#[local] Open Scope Z_scope.

Module FrameType.
Definition HELLO : Z := 0x00.
Definition WELCOME : Z := 0x01.
Definition PING : Z := 0x03.
Definition PONG : Z := 0x04.
Definition CLOCK : Z := 0x05.
Definition SUBSCRIBE : Z := 0x06.
Definition UNSUBSCRIBE : Z := 0x07.
Definition GRANT : Z := 0x08.
Definition STATE : Z := 0x0B.
Definition STREAM : Z := 0x0C.
Definition INTENT : Z := 0x0D.
Definition ECHO : Z := 0x0E.
Definition EVENT : Z := 0x0F.
Definition NACK : Z := 0x10.
Definition GOODBYE : Z := 0x11.
Definition PROBE : Z := 0x12.
Definition PROBE_REPORT : Z := 0x13.
Definition PAIR_REQ : Z := 0x14.
Definition PAIR_GRANT : Z := 0x15.
Definition PUBLISH : Z := 0x18.
Definition CATALOG_READY : Z := 0x19.
Definition BLOB_REQ : Z := 0x1A.
Definition BLOB_CHUNK : Z := 0x1B.
Definition AUTH : Z := 0x1C.
Definition HUB_SIG : Z := 0x1D.
Definition BLOB_DONE : Z := 0x20.
End FrameType.

Module NackCode.
Definition MALFORMED : Z := 0x0000.
Definition BUSY : Z := 0x0100.
Definition UNAUTHORIZED : Z := 0x0101.
Definition NOT_CONTROLLER : Z := 0x0102.
Definition PAIRING_REQUIRED : Z := 0x0103.
Definition PAIRING_DENIED : Z := 0x0104.
Definition SESSION_EVICTED : Z := 0x0105.
Definition DUPLICATE_INSTANCE : Z := 0x0106.
Definition NORMAL_CLOSURE : Z := 0x0107.
Definition READY_TIMEOUT : Z := 0x010A.
Definition NOT_READY : Z := 0x010B.
Definition SLOT_RECLAIMED : Z := 0x010D.
Definition HUB_AT_CAPACITY : Z := 0x010E.
Definition UNKNOWN_CHANNEL : Z := 0x0200.
Definition ACCESS_DENIED : Z := 0x0201.
Definition CLASS_MISMATCH : Z := 0x0202.
Definition SUB_LIMIT : Z := 0x0203.
Definition SUBSCRIBE_REJECTED : Z := 0x0204.
Definition CHANNEL_WITHDRAWN : Z := 0x0205.
Definition CONFLICT : Z := 0x0300.
Definition RATE_LIMITED : Z := 0x0301.
Definition INVALID_VALUE : Z := 0x0302.
Definition UNSUPPORTED_OP : Z := 0x0303.
Definition TRIAL_CONFLICT : Z := 0x0307.
Definition ESTOP_ACTIVE : Z := 0x0400.
Definition NOT_HOMED : Z := 0x0401.
Definition INTERLOCK : Z := 0x0402.
Definition SOURCE_CONFLICT : Z := 0x0403.
Definition TAKEOVER_REQUIRED : Z := 0x0404.
Definition CLEAR_REFUSED : Z := 0x0405.
Definition CHUNK_UNAVAILABLE : Z := 0x0500.
Definition BLOB_REFUSED : Z := 0x0503.
End NackCode.

Module channels.
Definition catalog : Z := 0x0001.
Definition safety : Z := 0x0003.
Definition control_owner : Z := 0x0004.
Definition safety_intents : Z := 0x0005.
Definition session_events : Z := 0x0007.
Definition log : Z := 0x0008.
Definition session_admin : Z := 0x0009.
Definition pending_pairing : Z := 0x000A.
Definition pairing_events : Z := 0x000B.
Definition paired_devices : Z := 0x000C.
Definition paired_devices_roster : Z := 0x000D.
Definition safety_events : Z := 0x000E.
Definition settings_trial : Z := 0x0016.
End channels.

Module blob_ns.
Definition catalog : Z := 0.
Definition store : Z := 1.
End blob_ns.

Module session_events.
Definition takeover : Z := 1.
Definition session_joined : Z := 2.
Definition session_left : Z := 3.
Definition session_stale : Z := 4.
Definition session_resumed : Z := 5.
End session_events.

Module log_events.
Definition entry : Z := 1.
End log_events.

Module pairing_events.
Definition knocked : Z := 1.
Definition granted : Z := 2.
Definition denied : Z := 3.
Definition expired : Z := 4.
Definition window_opened : Z := 5.
Definition window_closed : Z := 6.
Definition revoked : Z := 7.
Definition recognized_pending : Z := 8.
End pairing_events.

Module safety_events.
Definition estop_latched : Z := 1.
Definition estop_cleared : Z := 2.
Definition pause_latched : Z := 3.
Definition pause_cleared : Z := 4.
End safety_events.

Module safety_ops.
Definition release : Z := 1.
Definition pause : Z := 4.
Definition resume : Z := 5.
Definition estop : Z := 6.
Definition override : Z := 7.
Definition return_op : Z := 8.
End safety_ops.

Module session_admin_ops.
Definition evict : Z := 1.
Definition pair_approve : Z := 2.
Definition pair_deny : Z := 3.
Definition revoke : Z := 4.
End session_admin_ops.

Module safety_causes.
Definition user : Z := 0.
Definition deadman : Z := 1.
Definition fault : Z := 2.
Definition relay : Z := 3.
Definition session_loss : Z := 4.
End safety_causes.

Module source_kinds.
Definition jog : Z := 0.
Definition stream : Z := 1.
Definition classic : Z := 2.
Definition advanced : Z := 3.
Definition remote : Z := 4.
Definition reserved : Z := 5.
End source_kinds.

Module trial_ops.
Definition commit : Z := 1.
Definition revert : Z := 2.
End trial_ops.

Module presentation_modes.
Definition bearer : Z := 0.
Definition proof : Z := 1.
End presentation_modes.

Module safety_bits.
Definition ESTOP : Z := 1.
Definition PAUSE : Z := 8.
End safety_bits.

Module safety_mode_bits.
Definition OVERRIDE : Z := 1.
Definition HOME_REQUIRED : Z := 2.
End safety_mode_bits.

Module log_body.
Definition level : Z := 1.
Definition tag : Z := 2.
Definition hub_ms : Z := 3.
Definition message : Z := 4.
End log_body.

Module safety_body.
Definition word : Z := 1.
Definition cause : Z := 2.
Definition owner_session : Z := 3.
Definition estop_seq : Z := 4.
End safety_body.

Module trial_value.
Definition op : Z := 1.
End trial_value.

Module admin_value.
Definition op : Z := 1.
Definition session_id : Z := 2.
Definition instance_id : Z := 3.
Definition role : Z := 4.
End admin_value.

Module pairing_body.
Definition instance_id : Z := 1.
Definition name : Z := 2.
Definition mode : Z := 3.
Definition role : Z := 4.
Definition version : Z := 5.
End pairing_body.

Module pending_pairing_flags.
Definition window_open : Z := 1.
End pending_pairing_flags.

Module limits.
Definition blob_chunks_in_flight : Z := 4.
Definition segment_t_off_unit_us : Z := 100.
Definition stream_ingress_overage_nack_per_s : Z := 5.
Definition never_shed_stall_eviction_ms : Z := 2000.
Definition busy_retry_after_default_ms : Z := 2000.
Definition ping_interval_holding_control_ms : Z := 200.
Definition ping_interval_idle_ms : Z := 1000.
Definition estop_repeat_interval_ms : Z := 50.
Definition estop_repeat_max : Z := 20.
Definition probe_max_duration_ms : Z := 1500.
Definition deadman_default_ms : Z := 600.
Definition deadman_min_ms : Z := 250.
Definition deadman_max_ms : Z := 5000.
Definition stream_quiet_release_ms : Z := 500.
Definition max_subscriptions_per_session : Z := 64.
Definition event_queue_depth_per_subscriber : Z := 16.
Definition idempotency_ring_depth : Z := 32.
Definition probe_default_bytes : Z := 8192.
Definition catalog_ready_timeout_ms : Z := 15000.
Definition hub_sig_timeout_ms : Z := 3000.
Definition idle_reap_multiplier : Z := 3.
Definition schedule_horizon_max_ms : Z := 1000.
Definition max_future_schedule_ms : Z := 250.
Definition max_burst_multiple : Z := 4.
Definition auth_attempts_max : Z := 3.
Definition log_replay_depth_default : Z := 32.
End limits.
