(* ===== verification/CatalogCodec.v ===== *)
(** * CatalogCodec: the catalog on the wire (wire/catalog_codec.hpp, wire/catalog_etag.hpp), SPEC 8.1 and 8.3

    An entry is one CBOR map written and read through its own writer and reader, so that each has the
    profile's full depth; the catalog is an array header and the entries one after the other.  The decoder
    pushes fields, labels and safe values into the pools as it reads them, so its loops carry the catalog;
    on an error the catalog is left half filled and nobody reads it, so only the error is returned. *)

From stdpp Require Import sorting.
From S2P Require Import Prelude Registry ByteIO CborItem CborReader CborWriter CborMessage Sha256 MsgHello Safety.
From S2P Require Import Shedding Catalog.
#[local] Open Scope Z_scope.

(** ** Enumerations as numbers *)

Definition packed_code (t : PackedFieldType) : Z :=
  match t with
  | u8_t => 0 | i8_t => 1 | u16_t => 2 | i16_t => 3 | u32_t => 4 | i32_t => 5 | f32_t => 6 | bitfield8 => 7
  | str16 => 8 | str32 => 9 | str64 => 10
  end.

Definition packed_type (v : Z) : PackedFieldType :=
  nth (Z.to_nat v) [u8_t; i8_t; u16_t; i16_t; u32_t; i32_t; f32_t; bitfield8; str16; str32; str64] u8_t.

Definition cbor_code (t : CborFieldType) : Z :=
  match t with uint_ft => 0 | int_ft => 1 | f32_ft => 2 | bool_ft => 3 | tstr_ft => 4 | bstr_ft => 5 end.

Definition cbor_type (v : Z) : CborFieldType :=
  nth (Z.to_nat v) [uint_ft; int_ft; f32_ft; bool_ft; tstr_ft; bstr_ft] uint_ft.

Definition direction_code (d : Direction) : Z := match d with h2c => 0 | c2h => 1 end.
Definition direction_of (v : Z) : Direction := if v =? 0 then h2c else c2h.

Definition filled {A} (l : list A) : bool := match l with [] => false | _ => true end.

(** ** Setters of the fields the decoder fills *)

#[export] Instance Flair_fields : Fields Flair := fun r =>
  mkFlair (fl_group r) (fl_desc r) (fl_role r) (fl_step r) (fl_flags r) (fl_rank r) (fl_aspect r) (fl_scope r)
    (fl_provenance r) (fl_unitId r).
#[export] Instance fl_group_field : Field fl_group := ltac:(field_setter).
#[export] Instance fl_desc_field : Field fl_desc := ltac:(field_setter).
#[export] Instance fl_role_field : Field fl_role := ltac:(field_setter).
#[export] Instance fl_step_field : Field fl_step := ltac:(field_setter).
#[export] Instance fl_flags_field : Field fl_flags := ltac:(field_setter).
#[export] Instance fl_rank_field : Field fl_rank := ltac:(field_setter).
#[export] Instance fl_aspect_field : Field fl_aspect := ltac:(field_setter).
#[export] Instance fl_scope_field : Field fl_scope := ltac:(field_setter).
#[export] Instance fl_provenance_field : Field fl_provenance := ltac:(field_setter).
#[export] Instance fl_unitId_field : Field fl_unitId := ltac:(field_setter).

#[export] Instance lf_name_field : Field lf_name := ltac:(field_setter).
#[export] Instance lf_type_field : Field lf_type := ltac:(field_setter).
#[export] Instance lf_unit_field : Field lf_unit := ltac:(field_setter).
#[export] Instance lf_scale_field : Field lf_scale := ltac:(field_setter).
#[export] Instance lf_min_field : Field lf_min := ltac:(field_setter).
#[export] Instance lf_max_field : Field lf_max := ltac:(field_setter).
#[export] Instance lf_dflt_field : Field lf_dflt := ltac:(field_setter).
#[export] Instance lf_settingKey_field : Field lf_settingKey := ltac:(field_setter).
#[export] Instance lf_flair_field : Field lf_flair := ltac:(field_setter).

#[export] Instance sf_key_field : Field sf_key := ltac:(field_setter).
#[export] Instance sf_name_field : Field sf_name := ltac:(field_setter).
#[export] Instance sf_type_field : Field sf_type := ltac:(field_setter).
#[export] Instance sf_unit_field : Field sf_unit := ltac:(field_setter).
#[export] Instance sf_min_field : Field sf_min := ltac:(field_setter).
#[export] Instance sf_max_field : Field sf_max := ltac:(field_setter).
#[export] Instance sf_dflt_field : Field sf_dflt := ltac:(field_setter).
#[export] Instance sf_access_field : Field sf_access := ltac:(field_setter).
#[export] Instance sf_destructiveOptions_field : Field sf_destructiveOptions := ltac:(field_setter).
#[export] Instance sf_flair_field : Field sf_flair := ltac:(field_setter).

#[export] Instance StoreDescriptor_fields : Fields StoreDescriptor := fun r =>
  mkStoreDescriptor (st_storeId r) (st_kind r) (st_capacity r) (st_perItemMax r) (st_nameMax r).
#[export] Instance st_storeId_field : Field st_storeId := ltac:(field_setter).
#[export] Instance st_kind_field : Field st_kind := ltac:(field_setter).
#[export] Instance st_capacity_field : Field st_capacity := ltac:(field_setter).
#[export] Instance st_perItemMax_field : Field st_perItemMax := ltac:(field_setter).
#[export] Instance st_nameMax_field : Field st_nameMax := ltac:(field_setter).

#[export] Instance ce_id_field : Field ce_id := ltac:(field_setter).
#[export] Instance ce_name_field : Field ce_name := ltac:(field_setter).
#[export] Instance ce_cls_field : Field ce_cls := ltac:(field_setter).
#[export] Instance ce_dir_field : Field ce_dir := ltac:(field_setter).
#[export] Instance ce_access_field : Field ce_access := ltac:(field_setter).
#[export] Instance ce_maxRateHz_field : Field ce_maxRateHz := ltac:(field_setter).
#[export] Instance ce_defaultPriority_field : Field ce_defaultPriority := ltac:(field_setter).
#[export] Instance ce_category_field : Field ce_category := ltac:(field_setter).
#[export] Instance ce_categoryLabel_field : Field ce_categoryLabel := ltac:(field_setter).
#[export] Instance ce_replayDepth_field : Field ce_replayDepth := ltac:(field_setter).
#[export] Instance ce_settingChannel_field : Field ce_settingChannel := ltac:(field_setter).
#[export] Instance ce_streamKind_field : Field ce_streamKind := ltac:(field_setter).
#[export] Instance ce_rank_field : Field ce_rank := ltac:(field_setter).
#[export] Instance ce_storeId_field : Field ce_storeId := ltac:(field_setter).
#[export] Instance ce_role_field : Field ce_role := ltac:(field_setter).
#[export] Instance ce_modTarget_field : Field ce_modTarget := ltac:(field_setter).

(** ** Encoding *)

Definition encodeSettingDefault (d : SettingDefault) : CborWriter -> CborWriter :=
  match d with
  | DInt i => intVal i
  | DFloat bits => f32Val bits
  | DBool b => boolVal b
  | DTstr s => tstrVal s
  | NoDefault => fun w => w
  end.

(** A sparse map of labels: the index of each that is not empty. *)
Definition indexed {A} (l : list A) : list (Z * A) := imap (fun i x => (Z.of_nat i, x)) l.

Definition named_count (l : list (list byte)) : Z := len (List.filter filled l).

Definition w_named (l : list (list byte)) : CborWriter -> CborWriter :=
  mapHeader (named_count l) ;;; w_each (fun ks => w_if (filled ks.2) (key ks.1 ;;; tstrVal ks.2)) (indexed l).

(** The annotations that a layout field and a schema field encode alike: keys 11 to 15, and 19 to 23. *)
Definition annotation_count (fl : Flair) : Z :=
  Z.b2z (filled (fl_group fl)) + Z.b2z (filled (fl_desc fl)) + Z.b2z (filled (fl_role fl)) + Z.b2z (has (fl_step fl))
  + Z.b2z (nonzero (fl_flags fl)).

Definition encode_annotations (fl : Flair) : CborWriter -> CborWriter :=
  w_if (filled (fl_group fl)) (key 11 ;;; tstrVal (fl_group fl)) ;;;
  w_if (filled (fl_desc fl)) (key 12 ;;; tstrVal (fl_desc fl)) ;;;
  w_if (filled (fl_role fl)) (key 13 ;;; tstrVal (fl_role fl)) ;;;
  w_opt (fl_step fl) (fun v => key 14 ;;; f32Val v) ;;;
  w_if (nonzero (fl_flags fl)) (key 15 ;;; uintVal (fl_flags fl)).

Definition rendering_count (fl : Flair) : Z :=
  Z.b2z (has (fl_rank fl)) + Z.b2z (has (fl_aspect fl)) + Z.b2z (has (fl_scope fl)) + Z.b2z (has (fl_provenance fl))
  + Z.b2z (has (fl_unitId fl)).

Definition encode_rendering (fl : Flair) : CborWriter -> CborWriter :=
  w_opt (fl_rank fl) (fun v => key 19 ;;; uintVal v) ;;;
  w_opt (fl_aspect fl) (fun v => key 20 ;;; uintVal v) ;;;
  w_opt (fl_scope fl) (fun v => key 21 ;;; uintVal v) ;;;
  w_opt (fl_provenance fl) (fun v => key 22 ;;; uintVal v) ;;;
  w_opt (fl_unitId fl) (fun v => key 23 ;;; uintVal v).

Definition encodeLayoutField (f : LayoutField) (bits options : list (list byte)) (safe : SettingDefault)
  : CborWriter -> CborWriter :=
  let nBits := named_count bits in
  let nKeys := 5 + Z.b2z (has (lf_min f)) + Z.b2z (has (lf_max f)) + Z.b2z (0 <? nBits) + Z.b2z (has (lf_settingKey f))
    + Z.b2z (sd_has (lf_dflt f)) + Z.b2z (filled options) + annotation_count (lf_flair f) + rendering_count (lf_flair f)
    + Z.b2z (sd_has safe) in
  mapHeader nKeys ;;;
  (key 1 ;;; tstrVal (lf_name f)) ;;;
  (key 2 ;;; uintVal (packed_code (lf_type f))) ;;;
  (key 3 ;;; tstrVal (lf_unit f)) ;;;
  (key 4 ;;; f32Val (lf_scale f)) ;;;
  w_opt (lf_min f) (fun v => key 5 ;;; f32Val v) ;;;
  w_opt (lf_max f) (fun v => key 6 ;;; f32Val v) ;;;
  w_if (0 <? nBits) (key 7 ;;; w_named bits) ;;;
  w_opt (lf_settingKey f) (fun v => key 8 ;;; uintVal v) ;;;
  w_if (sd_has (lf_dflt f)) (key 9 ;;; encodeSettingDefault (lf_dflt f)) ;;;
  w_if (filled options) (key 10 ;;; w_list tstrVal options) ;;;
  encode_annotations (lf_flair f) ;;;
  (key 18 ;;; uintVal (Z.of_nat (wireSize f))) ;;;
  encode_rendering (lf_flair f) ;;;
  w_if (sd_has safe) (key 25 ;;; encodeSettingDefault safe).

Definition encodeSchemaField (f : SchemaField) (options : list (list byte)) (access : list Z) (safe : SettingDefault)
  : CborWriter -> CborWriter :=
  let nKeys := 3 + Z.b2z (has (sf_min f)) + Z.b2z (has (sf_max f)) + Z.b2z (sd_has (sf_dflt f)) + Z.b2z (filled options)
    + annotation_count (sf_flair f) + Z.b2z (has (sf_access f)) + Z.b2z (filled access) + rendering_count (sf_flair f)
    + Z.b2z (nonzero (sf_destructiveOptions f)) + Z.b2z (sd_has safe) in
  mapHeader nKeys ;;;
  (key 1 ;;; tstrVal (sf_name f)) ;;;
  (key 2 ;;; uintVal (cbor_code (sf_type f))) ;;;
  (key 3 ;;; tstrVal (sf_unit f)) ;;;
  w_opt (sf_min f) (fun v => key 5 ;;; f32Val v) ;;;
  w_opt (sf_max f) (fun v => key 6 ;;; f32Val v) ;;;
  w_if (sd_has (sf_dflt f)) (key 9 ;;; encodeSettingDefault (sf_dflt f)) ;;;
  w_if (filled options) (key 10 ;;; w_list tstrVal options) ;;;
  encode_annotations (sf_flair f) ;;;
  w_opt (sf_access f) (fun v => key 16 ;;; uintVal v) ;;;
  w_if (filled access) (key 17 ;;; w_list uintVal access) ;;;
  encode_rendering (sf_flair f) ;;;
  w_if (nonzero (sf_destructiveOptions f)) (key 24 ;;; uintVal (sf_destructiveOptions f)) ;;;
  w_if (sd_has safe) (key 25 ;;; encodeSettingDefault safe).

Definition encodeStoreDescriptor (d : StoreDescriptor) : CborWriter -> CborWriter :=
  mapHeader 5 ;;;
  (key 1 ;;; uintVal (st_storeId d)) ;;;
  (key 2 ;;; tstrVal (st_kind d)) ;;;
  (key 3 ;;; uintVal (st_capacity d)) ;;;
  (key 4 ;;; uintVal (st_perItemMax d)) ;;;
  (key 5 ;;; uintVal (st_nameMax d)).

Definition key_le (a b : SchemaField) : Prop := sf_key a <= sf_key b.
#[export] Instance key_le_dec a b : Decision (key_le a b) := decide (sf_key a <= sf_key b).

(** [cat.optionLabels(f)], [cat.bitLabels(f)] and the rest are resolved in the owning catalog. *)
Definition encodeEntry (cat : Catalog) (e : CatalogEntry) (w : CborWriter) : CborWriter :=
  let layout := layoutFields e cat in
  let schema := schemaFields e cat in
  let store := storeDescriptor e cat in
  let nFields := match form e with Layout => length layout | Schema => length schema | Store => 0%nat end in
  if (kMaxFields <? nFields)%nat then w
  else if usesStore e && negb (has store) then w
  else
    let kinds := labels (ce_eventKinds e) cat in
    let nKinds := named_count kinds in
    let nKeys := 8 + Z.b2z (has (ce_category e)) + Z.b2z (filled (ce_categoryLabel e)) + Z.b2z (has (ce_replayDepth e))
      + Z.b2z (has (ce_settingChannel e)) + Z.b2z (nonzero (ce_streamKind e)) + Z.b2z (has (ce_rank e))
      + Z.b2z (has (ce_storeId e)) + Z.b2z (filled (ce_role e)) + Z.b2z (0 <? nKinds) + Z.b2z (has (ce_modTarget e)) in
    (mapHeader nKeys ;;;
     (key 1 ;;; uintVal (ce_id e)) ;;;
     (key 2 ;;; tstrVal (ce_name e)) ;;;
     (key 3 ;;; uintVal (ce_cls e)) ;;;
     (key 4 ;;; uintVal (direction_code (ce_dir e))) ;;;
     (key 5 ;;; uintVal (ce_access e)) ;;;
     (key 6 ;;; f32Val (ce_maxRateHz e)) ;;;
     (key 7 ;;; uintVal (ce_defaultPriority e)) ;;;
     match form e with
     | Layout =>
         key 8 ;;; w_list (fun f => encodeLayoutField f (labels (lf_bits f) cat) (labels (lf_options f) cat)
                                      (safeAt (lf_safeSlot f) cat)) layout
     | Schema =>
         key 9 ;;; mapHeader (len schema) ;;;
         w_each (fun f => key (sf_key f) ;;; encodeSchemaField f (labels (sf_options f) cat) (optionAccess f cat)
                                             (safeAt (sf_safeSlot f) cat)) (merge_sort key_le schema)
     | Store => fun w => w
     end ;;;
     w_opt (ce_category e) (fun v => key 10 ;;; uintVal v) ;;;
     w_if (filled (ce_categoryLabel e)) (key 11 ;;; tstrVal (ce_categoryLabel e)) ;;;
     w_opt store (fun d => key 12 ;;; encodeStoreDescriptor d) ;;;
     w_opt (ce_replayDepth e) (fun v => key 13 ;;; uintVal v) ;;;
     w_opt (ce_settingChannel e) (fun v => key 14 ;;; uintVal v) ;;;
     w_if (nonzero (ce_streamKind e)) (key 15 ;;; uintVal (ce_streamKind e)) ;;;
     w_opt (ce_rank e) (fun v => key 16 ;;; uintVal v) ;;;
     w_opt (ce_storeId e) (fun v => key 17 ;;; uintVal v) ;;;
     w_if (filled (ce_role e)) (key 18 ;;; tstrVal (ce_role e)) ;;;
     w_if (0 <? nKinds) (key 19 ;;; w_named kinds) ;;;
     w_opt (ce_modTarget e) (fun t => key 20 ;;; w_list uintVal [t.1; t.2])) w.

Definition catalog_max_entry_bytes : nat := 4096.

(** [entries[i].id <= entries[i - 1].id] for no [i]. *)
Fixpoint ids_ascend (es : list CatalogEntry) : bool :=
  match es with
  | e :: (e' :: _) as es' => (ce_id e <? ce_id e') && ids_ascend es'
  | _ => true
  end.

(** The entry's slice lies inside its pool. *)
Definition resolves (cat : Catalog) (e : CatalogEntry) : bool :=
  match form e with
  | Layout => (length (layoutFields e cat) =? ce_fieldCount e)%nat
  | Schema => (length (schemaFields e cat) =? ce_fieldCount e)%nat
  | Store => has (storeDescriptor e cat)
  end.

(** What a call leaves in [out], the bytes it wrote (0: it refused), the documents [onEntry] was shown. *)
Definition Encoded : Type := list byte * nat * list (CatalogEntry * list byte).

Fixpoint encode_entries (cat : Catalog) (es : list CatalogEntry) (out : list byte) (pos : nat)
  (docs : list (CatalogEntry * list byte)) : Encoded :=
  match es with
  | [] => (out, pos, docs)
  | e :: es =>
      if (kMaxFields <? ce_fieldCount e)%nat || (length out <? pos)%nat || negb (resolves cat e) then (out, 0%nat, docs)
      else
        let '(o, n) := finish (encodeEntry cat e (CborWriter_new (drop pos out))) in
        let out := take pos out ++ o in
        if (n =? 0)%nat || (catalog_max_entry_bytes <? n)%nat then (out, 0%nat, docs)
        else encode_entries cat es out (pos + n) (docs ++ [(e, subspan pos n out)])
  end.

Definition encodeCatalog (cat : Catalog) (out : list byte) : Encoded :=
  if negb (ids_ascend (entries cat)) then (out, 0%nat, [])
  else
    let '(hdr, hdrLen) := finish (arrayHeader (len (entries cat)) (CborWriter_new (replicate 9 Byte.x00))) in
    if (hdrLen =? 0)%nat || (length out <? hdrLen)%nat then (out, 0%nat, [])
    else encode_entries cat (entries cat) (take hdrLen hdr ++ drop hdrLen out) hdrLen [].

(** The etag: the first 8 bytes of the hash, of no bytes when the catalog does not encode. *)
Definition catalogEtag (cat : Catalog) (scratch : list byte) : list byte :=
  let '(out, n, _) := encodeCatalog cat scratch in take etag_bytes (Sha256.hash (take n out)).

(** ** Decoding *)

(** [if (v.empty() || v.size() > n) return Malformed] *)
Definition text (n : nat) (v : list byte) : decoded (list byte) :=
  if negb (filled v) || (n <? length v)%nat then err Malformed else ok v.

(** [if (v.size() > n) return Malformed] *)
Definition short (n : nat) (v : list byte) : decoded (list byte) := if (n <? length v)%nat then err Malformed else ok v.

Definition desc_max_bytes : nat := 128.
Definition option_label_max_bytes : nat := 24.

(** A pool operation of the catalog inside a decoder: [if (!cat.poolAdd...) return e]. *)
Definition pushing {A} (m : Author A) (e : DecodeError) (c : Catalog) : decoded (Catalog * A) :=
  match m c with (c', Some x) => ok (c', x) | (_, None) => err e end.

Definition int32_setting (v : Z) : decoded SettingDefault :=
  if (2147483647 <? v) || (v <? -2147483648) then err Malformed else ok (DInt v).

(** A float and a bool share a major type: the float is tried first, and a failed read consumes nothing. *)
Definition decodeSettingDefault (r : CborReader) : decoded (SettingDefault * CborReader) :=
  let? t := peekType r in
  match t with
  | MT_UInt | MT_NegInt => let? (v, r') := readInt r in let? d := int32_setting v in ok (d, r')
  | MT_TextString => let? (v, r') := readTstr r in ok (DTstr v, r')
  | MT_Simple =>
      match readF32 r with
      | ok (v, r') => ok (DFloat v, r')
      | err _ => match readBool r with ok (v, r') => ok (DBool v, r') | err _ => err Malformed end
      end
  | _ => err Malformed
  end.

Definition sem_setting (b : nat) (i : Item) : decoded SettingDefault :=
  match i with
  | IUint _ | INeg _ => let? v := sem_int b i in int32_setting v
  | ITstr s => ok (DTstr s)
  | IF32 v => ok (DFloat v)
  | IBool v => ok (DBool v)
  | _ => err Malformed
  end.

Lemma Reads_setting : Reads decodeSettingDefault sem_setting.
Proof.
  assert (forall r i rest, wf i = true -> unread r = encode i ++ rest -> peekType r = ok (item_type i)) as Hpeek.
  { intros r i rest Hw Hu. by rewrite (peekType_item r i rest Hw Hu). }
  split.
  - intros r i rest Hr Hw Hu. unfold decodeSettingDefault. rewrite (Hpeek r i rest Hw Hu). cbn [result_bind].
    destruct i; cbn [item_type]; try done.
    + rewrite (reads_item _ _ Reads_int r _ rest Hr Hw Hu). cbn. by destruct (int32_setting _).
    + rewrite (reads_item _ _ Reads_int r _ rest Hr Hw Hu). cbn. by destruct (int32_setting _).
    + by rewrite (reads_item _ _ Reads_tstr r _ rest Hr Hw Hu).
    + rewrite (reads_item _ _ Reads_f32 r _ rest Hr Hw Hu). cbn [result_bind sem_f32].
      by rewrite (reads_item _ _ Reads_bool r _ rest Hr Hw Hu).
    + rewrite (reads_item _ _ Reads_f32 r _ rest Hr Hw Hu). cbn [result_bind sem_f32].
      by rewrite (reads_item _ _ Reads_bool r _ rest Hr Hw Hu).
    + by rewrite (reads_item _ _ Reads_f32 r _ rest Hr Hw Hu).
  - intros r d r' Hr H. unfold decodeSettingDefault in H. apply result_bind_ok in H as (t & _ & H).
    assert (forall v r'', readInt r = ok (v, r'') -> (let? d := int32_setting v in ok (d, r'')) = ok (d, r') ->
      exists i rest, wf i = true /\ unread r = encode i ++ rest /\ r' = consume (length (encode i)) r
        /\ sem_setting (budget r) i = ok d) as Hint.
    { intros v r'' Hi (d' & Hd & [= <- <-])%result_bind_ok.
      destruct (reads_sound _ _ Reads_int r v r'' Hr Hi) as (i & rest & Hw & Hu & -> & Hs).
      exists i, rest. split_and!; try done. by destruct i; try done; cbn in Hs |- *; injection Hs as ->. }
    destruct t; try done.
    + apply result_bind_ok in H as ([v r''] & Hi & H). by apply (Hint v r'').
    + apply result_bind_ok in H as ([v r''] & Hi & H). by apply (Hint v r'').
    + apply result_bind_ok in H as ([v r''] & Hi & [= <- <-]).
      destruct (reads_sound _ _ Reads_tstr r v r'' Hr Hi) as (i & rest & Hw & Hu & -> & Hs).
      exists i, rest. destruct i; try done. by injection Hs as ->.
    + destruct (readF32 r) as [[v r'']|e] eqn:Ef.
      * injection H as <- <-.
        destruct (reads_sound _ _ Reads_f32 r v r'' Hr Ef) as (i & rest & Hw & Hu & -> & Hs).
        exists i, rest. destruct i; try done. by injection Hs as ->.
      * destruct (readBool r) as [[v r'']|e'] eqn:Eb; [|done]. injection H as <- <-.
        destruct (reads_sound _ _ Reads_bool r v r'' Hr Eb) as (i & rest & Hw & Hu & -> & Hs).
        exists i, rest. destruct i; try done. by injection Hs as ->.
Qed.

Definition p_setting : ItemReader SettingDefault :=
  {| run := decodeSettingDefault; meaning := sem_setting; run_reads := Reads_setting |}.

(** The annotations a layout field and a schema field decode alike; every other key is skipped (4.3). *)
Definition annotation (k : Z) (fl : Flair) : ItemReader Flair :=
  if k =? 11 then reading p_tstr (fun v => let? s := text 24 v in ok (fl <| fl_group := s |>))
  else if k =? 12 then reading p_tstr (fun v => let? s := text desc_max_bytes v in ok (fl <| fl_desc := s |>))
  else if k =? 13 then reading p_tstr (fun v => let? s := text 24 v in ok (fl <| fl_role := s |>))
  else if k =? 14 then reading p_f32 (fun v => ok (fl <| fl_step := Some v |>))
  else if k =? 15 then reading p_uint (fun v => let? n := at_most 0xFF v in ok (fl <| fl_flags := n |>))
  else if k =? 19 then reading p_uint (fun v => let? n := at_most 0xFF v in ok (fl <| fl_rank := Some n |>))
  else if k =? 20 then reading p_uint (fun v => let? n := at_most 0xFF v in ok (fl <| fl_aspect := Some n |>))
  else if k =? 21 then reading p_uint (fun v => let? n := at_most 0xFF v in ok (fl <| fl_scope := Some n |>))
  else if k =? 22 then reading p_uint (fun v => let? n := at_most 0xFF v in ok (fl <| fl_provenance := Some n |>))
  else if k =? 23 then reading p_uint (fun v => let? n := at_most 0xFF v in ok (fl <| fl_unitId := Some n |>))
  else skipping fl.

(** The required keys of a map, of which each loop notes those it has met ([gotName], [gotType], ...). *)
Definition got_all (required got : list Z) : bool := forallb (fun k => existsb (Z.eqb k) got) required.

Definition Flair_new : Flair := mkFlair [] [] [] None 0 None None None None None.
Definition LayoutField_new : LayoutField :=
  mkLayoutField [] u8_t [] 0x3F800000 None None LabelRef_new LabelRef_new NoDefault None Flair_new kNoSafeSlot.
Definition SchemaField_new : SchemaField :=
  mkSchemaField 0 [] uint_ft [] None None NoDefault LabelRef_new None false 0 Flair_new kNoSafeSlot.
Definition StoreDescriptor_new : StoreDescriptor := mkStoreDescriptor 0 [] 0 0 0.
Definition CatalogEntry_new : CatalogEntry :=
  mkCatalogEntry 0 [] ChannelClass.STATE h2c AccessLevel.watch 0 Priority.normal 0 0 None [] None None 0 None None []
    LabelRef_new None.

Definition store_field (k : Z) (a : StoreDescriptor * list Z) : ItemReader (StoreDescriptor * list Z) :=
  let '(d, got) := a in
  if k =? 1 then reading p_uint (fun v => let? n := at_most 0xFF v in ok (d <| st_storeId := n |>, k :: got))
  else if k =? 2 then reading p_tstr (fun v => let? s := text 32 v in ok (d <| st_kind := s |>, k :: got))
  else if k =? 3 then reading p_uint (fun v => let? n := at_most 0xFFFF v in ok (d <| st_capacity := n |>, k :: got))
  else if k =? 4 then reading p_uint (fun v => let? n := at_most 0xFFFFFFFF v in ok (d <| st_perItemMax := n |>, k :: got))
  else if k =? 5 then reading p_uint (fun v => let? n := at_most 0xFFFF v in ok (d <| st_nameMax := n |>, k :: got))
  else skipping a.

Definition decodeStoreDescriptor : ItemReader StoreDescriptor :=
  reading (fields (fun _ => ok (StoreDescriptor_new, [])) store_field)
    (fun a => if got_all [1; 2; 3; 4; 5] a.2 then ok a.1 else err Malformed).

(** What the three loops carry: the value being filled, the catalog, the required keys met. *)
Abbreviation LayoutLoop := (LayoutField * Catalog * list Z)%type.
Abbreviation SchemaLoop := (SchemaField * Catalog * list Z)%type.
Abbreviation EntryLoop := (CatalogEntry * Catalog * list Z)%type.

Section Decode.
Context (Entries LayoutFields SchemaFields Labels Stores SafeSlots : nat).

(** A label with the default access level; a safe value with its slot. *)
Definition add_label (s : list byte) (c : Catalog) : decoded Catalog :=
  let? (c, _) := pushing (poolAddLabel Labels s AccessLevel.watch) CapacityExceeded c in ok c.

Definition add_safe (v : SettingDefault) (c : Catalog) : decoded (nat * Catalog) :=
  let? (c, slot) := pushing (poolAddSafe SafeSlots v) CapacityExceeded c in ok (slot, c).

(** [while (filled < k) poolAddLabel({})] *)
Fixpoint back_fill (n : nat) (c : Catalog) : decoded Catalog :=
  match n with O => ok c | S n => let? c := add_label [] c in back_fill n c end.

Definition label_mark (c : Catalog) : Z := Z.of_nat (length (labelPool c)).

(** The two sparse label maps: [over] answers a key that is too big, [init] a bad count.  The state is the
    catalog and how many labels the map takes so far. *)
Definition sparse_field (over : Z -> option DecodeError) (k : Z) (a : Catalog * nat) : ItemReader (Catalog * nat) :=
  let '(c, n) := a in
  match over k with
  | Some e => refuse e
  | None =>
      reading p_tstr (fun v =>
        let? s := text 24 v in
        let? c := back_fill (Z.to_nat k - n) c in
        let? c := add_label s c in
        ok (c, S (Nat.max (Z.to_nat k) n)))
  end.

Definition sparse (init : Z -> decoded unit) (over : Z -> option DecodeError) (c : Catalog)
  : ItemReader (LabelRef * Catalog) :=
  reading (fields (fun n => let? _ := init n in ok (c, 0%nat)) (sparse_field over))
    (fun a => ok (mkLabelRef (label_mark c) a.2, a.1)).

Definition decode_bits : Catalog -> ItemReader (LabelRef * Catalog) :=
  sparse (fun n => if (n =? 0) || (8 <? n) then err Malformed else ok tt)
         (fun k => if 8 <=? k then Some Malformed else None).

Definition decode_kinds : Catalog -> ItemReader (LabelRef * Catalog) :=
  sparse (fun n => if n =? 0 then err Malformed else ok tt)
         (fun k => if Z.of_nat kMaxCount <=? k then Some CapacityExceeded else None).

Definition decodeOptions (c : Catalog) : ItemReader (LabelRef * Catalog) :=
  reading
    (elements (fun n => if (n =? 0) || (Z.of_nat kMaxCount <? n) then err Malformed else ok (c, n))
       (fun a => reading p_tstr (fun v =>
          let? s := text option_label_max_bytes v in let? c := add_label s a.1 in ok (c, a.2))))
    (fun a => ok (mkLabelRef (label_mark c) (Z.to_nat a.2), a.1)).

Definition layout_field (k : Z) (a : LayoutLoop) : ItemReader LayoutLoop :=
  let '(f, c, got) := a in
  if k =? 1 then reading p_tstr (fun v => let? s := text 24 v in ok (f <| lf_name := s |>, c, k :: got))
  else if k =? 2 then
    reading p_uint (fun v => let? t := at_most (packed_code str64) v in ok (f <| lf_type := packed_type t |>, c, k :: got))
  else if k =? 3 then reading p_tstr (fun v => let? s := short 8 v in ok (f <| lf_unit := s |>, c, k :: got))
  else if k =? 4 then reading p_f32 (fun v => ok (f <| lf_scale := v |>, c, k :: got))
  else if k =? 5 then reading p_f32 (fun v => ok (f <| lf_min := Some v |>, c, got))
  else if k =? 6 then reading p_f32 (fun v => ok (f <| lf_max := Some v |>, c, got))
  else if k =? 7 then reading (decode_bits c) (fun b => ok (f <| lf_bits := b.1 |>, b.2, got))
  else if k =? 8 then
    reading p_uint (fun v => let? n := at_most 0xFF v in ok (f <| lf_settingKey := Some n |>, c, got))
  else if k =? 9 then reading p_setting (fun d => ok (f <| lf_dflt := d |>, c, got))
  else if k =? 10 then reading (decodeOptions c) (fun o => ok (f <| lf_options := o.1 |>, o.2, got))
  else if k =? 25 then
    reading p_setting (fun d => let? s := add_safe d c in ok (f <| lf_safeSlot := Some s.1 |>, s.2, got))
  else reading (annotation k (lf_flair f)) (fun fl => ok (f <| lf_flair := fl |>, c, got)).

Definition decodeLayoutField (c : Catalog) : ItemReader (LayoutField * Catalog) :=
  reading (fields (fun _ => ok (LayoutField_new, c, [])) layout_field)
    (fun a => if got_all [1; 2; 3; 4] a.2 then ok a.1 else err Malformed).

(** Key 17, aligned with the options of key 10, which ascending keys have put before it. *)
Definition decode_option_access (f : SchemaField) (c : Catalog) : ItemReader Catalog :=
  reading
    (elements
       (fun n => if (lr_count (sf_options f) =? 0)%nat || negb (n =? Z.of_nat (lr_count (sf_options f)))
                 then err Malformed else ok (c, 0))
       (fun a => reading p_uint (fun v =>
          let? v := at_most 2 v in
          let? (c, _) := pushing (poolSetLabelAccess (Z.to_nat (u16 (lr_offset (sf_options f) + a.2))) v) Malformed a.1 in
          ok (c, a.2 + 1))))
    (fun a => ok a.1).

Definition schema_field (k : Z) (a : SchemaLoop) : ItemReader SchemaLoop :=
  let '(f, c, got) := a in
  if k =? 1 then reading p_tstr (fun v => let? s := text 24 v in ok (f <| sf_name := s |>, c, k :: got))
  else if k =? 2 then
    reading p_uint (fun v => let? t := at_most 5 v in ok (f <| sf_type := cbor_type t |>, c, k :: got))
  else if k =? 3 then reading p_tstr (fun v => let? s := short 8 v in ok (f <| sf_unit := s |>, c, k :: got))
  else if k =? 5 then reading p_f32 (fun v => ok (f <| sf_min := Some v |>, c, got))
  else if k =? 6 then reading p_f32 (fun v => ok (f <| sf_max := Some v |>, c, got))
  else if k =? 9 then reading p_setting (fun d => ok (f <| sf_dflt := d |>, c, got))
  else if k =? 10 then reading (decodeOptions c) (fun o => ok (f <| sf_options := o.1 |>, o.2, got))
  else if k =? 16 then
    reading p_uint (fun v => let? n := at_most 2 v in ok (f <| sf_access := Some n |>, c, got))
  else if k =? 17 then
    reading (decode_option_access f c) (fun c => ok (f <| sf_hasOptionAccess := true |>, c, got))
  else if k =? 24 then reading p_uint (fun v => ok (f <| sf_destructiveOptions := v |>, c, got))
  else if k =? 25 then
    reading p_setting (fun d => let? s := add_safe d c in ok (f <| sf_safeSlot := Some s.1 |>, s.2, got))
  else reading (annotation k (sf_flair f)) (fun fl => ok (f <| sf_flair := fl |>, c, got)).

Definition decodeSchemaField (c : Catalog) (k : Z) : ItemReader (SchemaField * Catalog) :=
  reading (fields (fun _ => ok (SchemaField_new <| sf_key := k |>, c, [])) schema_field)
    (fun a => if got_all [1; 2; 3] a.2 then ok a.1 else err Malformed).

(** The payloads, pushed into the pools field by field. *)
Definition some_fields (c : Catalog) (n : Z) : decoded (Catalog * Z) :=
  if (n =? 0) || (Z.of_nat kMaxFields <? n) then err Malformed else ok (c, n).

Definition decode_layout (c : Catalog) : ItemReader (Catalog * Z) :=
  elements (some_fields c)
    (fun a => reading (decodeLayoutField a.1) (fun fr =>
       let? (c, _) := pushing (poolAddLayoutField LayoutFields fr.1) CapacityExceeded fr.2 in ok (c, a.2))).

Definition decode_schema (c : Catalog) : ItemReader (Catalog * Z) :=
  fields (some_fields c)
    (fun k a =>
       if 0xFF <? k then refuse Malformed
       else reading (decodeSchemaField a.1 k) (fun fr =>
         let? (c, _) := pushing (poolAddSchemaField SchemaFields fr.1) CapacityExceeded fr.2 in ok (c, a.2))).

(** Key 20: both numbers are read before either is checked. *)
Definition decode_mod_target : ItemReader (Z * Z) :=
  reading
    (elements (fun n => if negb (n =? 2) then err Malformed else ok []) (fun l => reading p_uint (fun v => ok (l ++ [v]))))
    (fun l => match l with
              | [ch; fd] => if (0xFFFF <? ch) || (0xFFFF <? fd) then err Malformed else ok (ch, fd)
              | _ => err Malformed
              end).

Definition seen (got : list Z) (k : Z) : bool := existsb (Z.eqb k) got.

Definition entry_field (layoutMark schemaMark storeMark : nat) (k : Z) (a : EntryLoop) : ItemReader EntryLoop :=
  let '(e, c, got) := a in
  if k =? 1 then reading p_uint (fun v => let? n := at_most 0xFFFF v in ok (e <| ce_id := n |>, c, k :: got))
  else if k =? 2 then reading p_tstr (fun v => let? s := text 32 v in ok (e <| ce_name := s |>, c, k :: got))
  else if k =? 3 then
    reading p_uint (fun v => let? n := at_most ChannelClass.STORE v in ok (e <| ce_cls := n |>, c, k :: got))
  else if k =? 4 then
    reading p_uint (fun v => let? n := at_most 1 v in ok (e <| ce_dir := direction_of n |>, c, k :: got))
  else if k =? 5 then reading p_uint (fun v => let? n := at_most 2 v in ok (e <| ce_access := n |>, c, k :: got))
  else if k =? 6 then reading p_f32 (fun v => ok (e <| ce_maxRateHz := v |>, c, k :: got))
  else if k =? 7 then reading p_uint (fun v => let? n := at_most 3 v in ok (e <| ce_defaultPriority := n |>, c, k :: got))
  else if k =? 8 then
    if seen got 9 || seen got 12 then refuse Malformed
    else reading (decode_layout c) (fun r =>
      ok (e <| ce_fieldOffset := layoutMark |> <| ce_fieldCount := Z.to_nat r.2 |>, r.1, k :: got))
  else if k =? 9 then
    if seen got 8 || seen got 12 then refuse Malformed
    else reading (decode_schema c) (fun r =>
      ok (e <| ce_fieldOffset := schemaMark |> <| ce_fieldCount := Z.to_nat r.2 |>, r.1, k :: got))
  else if k =? 10 then
    reading p_uint (fun v => let? n := at_most 0xFF v in ok (e <| ce_category := Some n |>, c, got))
  else if k =? 11 then reading p_tstr (fun v => let? s := text 24 v in ok (e <| ce_categoryLabel := s |>, c, got))
  else if k =? 12 then
    if seen got 8 || seen got 9 then refuse Malformed
    else reading decodeStoreDescriptor (fun d =>
      let? (c, _) := pushing (poolAddStore Stores d) CapacityExceeded c in
      ok (e <| ce_fieldOffset := storeMark |> <| ce_fieldCount := 1%nat |>, c, k :: got))
  else if k =? 13 then
    reading p_uint (fun v => let? n := at_most 0xFFFF v in ok (e <| ce_replayDepth := Some n |>, c, got))
  else if k =? 14 then
    reading p_uint (fun v => let? n := at_most 0xFFFF v in ok (e <| ce_settingChannel := Some n |>, c, got))
  else if k =? 15 then reading p_uint (fun v => let? n := at_most 0xFF v in ok (e <| ce_streamKind := n |>, c, got))
  else if k =? 16 then reading p_uint (fun v => let? n := at_most 0xFF v in ok (e <| ce_rank := Some n |>, c, got))
  else if k =? 17 then reading p_uint (fun v => let? n := at_most 0xFF v in ok (e <| ce_storeId := Some n |>, c, got))
  else if k =? 18 then reading p_tstr (fun v => let? s := text 24 v in ok (e <| ce_role := s |>, c, got))
  else if k =? 19 then reading (decode_kinds c) (fun r => ok (e <| ce_eventKinds := r.1 |>, r.2, got))
  else if k =? 20 then reading decode_mod_target (fun t => ok (e <| ce_modTarget := Some t |>, c, got))
  else skipping a.

(** Exactly one payload key, and the one of the entry's class. *)
Definition payload_matches (e : CatalogEntry) (got : list Z) : bool :=
  (len (List.filter (fun k => (k =? 8) || (k =? 9) || (k =? 12)) got) =? 1)
  && seen got match form e with Layout => 8 | Schema => 9 | Store => 12 end.

Definition decodeEntry (c : Catalog) : ItemReader (CatalogEntry * Catalog) :=
  reading
    (fields (fun _ => ok (CatalogEntry_new, c, []))
       (entry_field (length (layoutPool c)) (length (schemaPool c)) (length (storePool c))))
    (fun a => if got_all [1; 2; 3; 4; 5; 6; 7] a.2 && payload_matches a.1.1 a.2 then ok a.1 else err Malformed).

(** [for (i = 0; i < n; ++i)] over the entries, each through a window of at most the cap. *)
Fixpoint decode_entries (n : nat) (inp : list byte) (pos : nat) (prev : option Z) (c : Catalog) : decoded Catalog :=
  match n with
  | O => ok c
  | S n =>
      if (length inp <? pos)%nat then err Truncated
      else
        let? ((e, c), r) := run (decodeEntry c) (CborReader_new (subspan pos catalog_max_entry_bytes inp)) in
        if from_option (fun p => ce_id e <=? p) false prev then err Malformed
        else
          let? (c, _) := pushing (addEntryVerbatim Entries e) CapacityExceeded c in
          decode_entries n inp (pos + bytesConsumed r) (Some (ce_id e)) c
  end.

Definition decodeCatalog (inp : list byte) (c0 : Catalog) : decoded Catalog :=
  let c := clear c0 in
  let? (n, r) := readArrayHeader (CborReader_new inp) in
  if Z.of_nat Entries <? n then err CapacityExceeded
  else decode_entries (Z.to_nat n) inp (bytesConsumed r) None c.

End Decode.
