(* ===== verification/CatalogWire.v ===== *)
(** * CatalogWire: what the catalog encoder writes

    The items an entry's content stands for ([entry_item]), and the proof that [encodeEntry] writes exactly
    that item: the bytes are a function of what the catalog describes, not of how its pools were filled. *)

From stdpp Require Import sorting.
From S2P Require Import Prelude Registry ByteIO CborItem CborReader CborWriter CborMessage Sha256 MsgHello Safety.
From S2P Require Import Shedding Catalog CatalogCodec.
#[local] Open Scope Z_scope.

(** ** Writers of an item, with its ranges and depth *)

Record written (f : CborWriter -> CborWriter) (i : Item) (n : nat) : Prop := {
  written_writes : writes_item f i;
  written_wf : wf i = true;
  written_nest : (nest i <= n)%nat }.

(** Writers of a run of pairs of an open map: how many there are, from which ascending keys. *)
Record fields_written (f : CborWriter -> CborWriter) (kvs : list (Z * Item)) (count : Z) (ks : list Z) (n : nat) : Prop := {
  fw_writes : writes_fields f kvs;
  fw_count : len kvs = count;
  fw_keys : sublist (map fst kvs) ks;
  fw_wf : forallb pair_ok kvs = true;
  fw_nest : nested_in n kvs }.

Lemma written_uint n v : in_u 64 v -> written (uintVal v) (IUint v) n.
Proof. intros H. split; [by apply writes_uint|by apply in_ub_spec|cbn; lia]. Qed.

Lemma written_f32 n v : in_u 32 v -> written (f32Val v) (IF32 v) n.
Proof. intros H. split; [by apply writes_f32|by apply in_ub_spec|cbn; lia]. Qed.

Lemma written_tstr n s : in_u 64 (len s) -> written (tstrVal s) (ITstr s) n.
Proof. intros H. split; [apply writes_tstr|by apply in_ub_spec|cbn; lia]. Qed.

Lemma fw_seq f g a b c c' ks ks' n :
  fields_written f a c ks n -> fields_written g b c' ks' n -> fields_written (f ;;; g) (a ++ b) (c + c') (ks ++ ks') n.
Proof.
  intros [] []. split; [by apply fields_seq|rewrite len_app; lia|by apply keys_app|by apply pairs_app|by apply nested_app].
Qed.

Lemma fw_fld k g i n : in_ub 64 k = true -> written g i n -> fields_written (key k ;;; g) (fld k i) 1 [k] n.
Proof. intros Hk []. split; [by apply writes_fld|done|apply keys_fld|by apply pairs_fld|by apply nested_fld]. Qed.

Lemma fw_opt {A} k (g : A -> CborWriter -> CborWriter) (f : A -> Item) o n :
  in_ub 64 k = true -> (forall a, o = Some a -> written (g a) (f a) n) ->
  fields_written (w_opt o (fun a => key k ;;; g a)) (opt_fld k f o) (Z.b2z (has o)) [k] n.
Proof.
  intros Hk H. split.
  - apply writes_opt_fld; [done|]. intros a Ha. by destruct (H a Ha).
  - apply len_opt_fld.
  - apply keys_opt_fld.
  - apply pairs_opt_fld; [done|]. intros a Ha. by destruct (H a Ha).
  - destruct o as [a|]; [|constructor]. apply nested_fld. by destruct (H a eq_refl).
Qed.

Lemma fw_if k (b : bool) g i n :
  in_ub 64 k = true -> (b = true -> written g i n) -> fields_written (w_if b (key k ;;; g)) (if_fld k b i) (Z.b2z b) [k] n.
Proof.
  intros Hk H. split.
  - apply writes_if_fld; [done|]. intros Hb. by destruct (H Hb).
  - apply len_if_fld.
  - apply keys_if_fld.
  - apply pairs_if_fld; [done|]. intros Hb. by destruct (H Hb).
  - destruct b; [|constructor]. apply nested_fld. by destruct (H eq_refl).
Qed.

Lemma fw_none n : fields_written (fun w => w) [] 0 [] n.
Proof. split; [apply fields_nil|done|done|done|constructor]. Qed.

(** One pair per element, from a list with ascending keys. *)
Lemma fw_each {A} (f : A -> CborWriter -> CborWriter) (kvs : A -> list (Z * Item)) (cnt : A -> Z) (k : A -> Z) l n :
  Forall (fun a => fields_written (f a) (kvs a) (cnt a) [k a] n) l ->
  fields_written (w_each f l) (concat (map kvs l)) (foldr (fun a s => cnt a + s) 0 l) (map k l) n.
Proof.
  induction 1 as [|a l Ha _ IH]; [apply fw_none|]. cbn [w_each map concat foldr].
  exact (fw_seq _ _ _ _ _ _ [k a] _ _ Ha IH).
Qed.

Lemma written_map m f kvs count ks n :
  fields_written f kvs count ks n -> m = count -> in_u 32 count -> above None ks = true ->
  written (mapHeader m ;;; f) (IMap kvs) (S n).
Proof.
  intros [] -> Hc Ha. assert (above None (map fst kvs) = true) as Hk by by eapply above_keys. split.
  - by apply writes_map.
  - rewrite wf_map, Hk, fw_wf0. subst count. by rewrite (proj2 (in_ub_spec _ _) Hc).
  - by apply nest_map.
Qed.

Lemma written_list {A} (f : A -> CborWriter -> CborWriter) (item : A -> Item) l n :
  Forall (fun a => written (f a) (item a) n) l -> in_u 32 (len l) -> written (w_list f l) (IArr (map item l)) (S n).
Proof.
  intros H Hl. assert (len (map item l) = len l) as E by (unfold len; by rewrite length_map). split.
  - apply writes_array; [by rewrite E|done|]. apply items_each. eapply Forall_impl; [|exact H]. by intros a [].
  - cbn [wf]. rewrite E, (proj2 (in_ub_spec _ _) Hl). apply forallb_forall. intros i (a & <- & Ha)%in_map_iff.
    rewrite Forall_forall in H. by apply H.
  - apply nest_arr, Forall_forall. intros i (a & <- & Ha)%in_map_iff. rewrite Forall_forall in H. by apply H.
Qed.

(** ** Content *)

Definition setting_item (d : SettingDefault) : Item :=
  match d with
  | DInt i => if 0 <=? i then IUint i else INeg (-1 - i)
  | DFloat bits => IF32 bits
  | DBool b => IBool b
  | DTstr s => ITstr s
  | NoDefault => INull
  end.

Definition named_item (l : list (list byte)) : Item :=
  IMap (concat (map (fun ks => if_fld ks.1 (filled ks.2) (ITstr ks.2)) (indexed l))).

Definition annotation_pairs (fl : Flair) : list (Z * Item) :=
  if_fld 11 (filled (fl_group fl)) (ITstr (fl_group fl)) ++ if_fld 12 (filled (fl_desc fl)) (ITstr (fl_desc fl)) ++
  if_fld 13 (filled (fl_role fl)) (ITstr (fl_role fl)) ++ opt_fld 14 IF32 (fl_step fl) ++
  if_fld 15 (nonzero (fl_flags fl)) (IUint (fl_flags fl)).

Definition rendering_pairs (fl : Flair) : list (Z * Item) :=
  opt_fld 19 IUint (fl_rank fl) ++ opt_fld 20 IUint (fl_aspect fl) ++ opt_fld 21 IUint (fl_scope fl) ++
  opt_fld 22 IUint (fl_provenance fl) ++ opt_fld 23 IUint (fl_unitId fl).

Definition layout_pairs (f : LayoutField) (bits options : list (list byte)) (safe : SettingDefault) : list (Z * Item) :=
  fld 1 (ITstr (lf_name f)) ++ fld 2 (IUint (packed_code (lf_type f))) ++ fld 3 (ITstr (lf_unit f)) ++
  fld 4 (IF32 (lf_scale f)) ++ opt_fld 5 IF32 (lf_min f) ++ opt_fld 6 IF32 (lf_max f) ++
  if_fld 7 (0 <? named_count bits) (named_item bits) ++ opt_fld 8 IUint (lf_settingKey f) ++
  if_fld 9 (sd_has (lf_dflt f)) (setting_item (lf_dflt f)) ++ if_fld 10 (filled options) (IArr (map ITstr options)) ++
  annotation_pairs (lf_flair f) ++ fld 18 (IUint (Z.of_nat (wireSize f))) ++ rendering_pairs (lf_flair f) ++
  if_fld 25 (sd_has safe) (setting_item safe).

Definition schema_pairs (f : SchemaField) (options : list (list byte)) (access : list Z) (safe : SettingDefault)
  : list (Z * Item) :=
  fld 1 (ITstr (sf_name f)) ++ fld 2 (IUint (cbor_code (sf_type f))) ++ fld 3 (ITstr (sf_unit f)) ++
  opt_fld 5 IF32 (sf_min f) ++ opt_fld 6 IF32 (sf_max f) ++ if_fld 9 (sd_has (sf_dflt f)) (setting_item (sf_dflt f)) ++
  if_fld 10 (filled options) (IArr (map ITstr options)) ++ annotation_pairs (sf_flair f) ++
  opt_fld 16 IUint (sf_access f) ++ if_fld 17 (filled access) (IArr (map IUint access)) ++
  rendering_pairs (sf_flair f) ++ if_fld 24 (nonzero (sf_destructiveOptions f)) (IUint (sf_destructiveOptions f)) ++
  if_fld 25 (sd_has safe) (setting_item safe).

Definition store_item (d : StoreDescriptor) : Item :=
  IMap (fld 1 (IUint (st_storeId d)) ++ fld 2 (ITstr (st_kind d)) ++ fld 3 (IUint (st_capacity d)) ++
        fld 4 (IUint (st_perItemMax d)) ++ fld 5 (IUint (st_nameMax d))).

Abbreviation ShownLayout := (LayoutField * list (list byte) * list (list byte) * SettingDefault)%type.
Abbreviation ShownSchema := (SchemaField * list (list byte) * list Z * SettingDefault)%type.

Definition layout_item (x : ShownLayout) : Item := IMap (layout_pairs x.1.1.1 x.1.1.2 x.1.2 x.2).
Definition schema_item (x : ShownSchema) : Item := IMap (schema_pairs x.1.1.1 x.1.1.2 x.1.2 x.2).
Definition shown_key (x : ShownSchema) : Z := sf_key x.1.1.1.

Definition shown_le (a b : ShownSchema) : Prop := shown_key a <= shown_key b.
#[export] Instance shown_le_dec a b : Decision (shown_le a b) := decide (shown_key a <= shown_key b).

Definition mod_item (t : Z * Z) : Item := IArr (map IUint [t.1; t.2]).

Definition payload_pairs (p : Payload) : list (Z * Item) :=
  match p with
  | PLayout l => fld 8 (IArr (map layout_item l))
  | PSchema l => fld 9 (IMap (map (fun x => (shown_key x, schema_item x)) (merge_sort shown_le l)))
  | PStore _ => []
  end.

Definition store_pairs (p : Payload) : list (Z * Item) := match p with PStore d => opt_fld 12 store_item d | _ => [] end.

Definition entry_pairs (d : Described) : list (Z * Item) :=
  let e := d_header d in
  fld 1 (IUint (ce_id e)) ++ fld 2 (ITstr (ce_name e)) ++ fld 3 (IUint (ce_cls e)) ++
  fld 4 (IUint (direction_code (ce_dir e))) ++ fld 5 (IUint (ce_access e)) ++ fld 6 (IF32 (ce_maxRateHz e)) ++
  fld 7 (IUint (ce_defaultPriority e)) ++ payload_pairs (d_payload d) ++ opt_fld 10 IUint (ce_category e) ++
  if_fld 11 (filled (ce_categoryLabel e)) (ITstr (ce_categoryLabel e)) ++ store_pairs (d_payload d) ++
  opt_fld 13 IUint (ce_replayDepth e) ++ opt_fld 14 IUint (ce_settingChannel e) ++
  if_fld 15 (nonzero (ce_streamKind e)) (IUint (ce_streamKind e)) ++ opt_fld 16 IUint (ce_rank e) ++
  opt_fld 17 IUint (ce_storeId e) ++ if_fld 18 (filled (ce_role e)) (ITstr (ce_role e)) ++
  if_fld 19 (0 <? named_count (d_kinds d)) (named_item (d_kinds d)) ++ opt_fld 20 mod_item (ce_modTarget e).

Definition entry_item (d : Described) : Item := IMap (entry_pairs d).

(** The bytes of a catalog that describes these entries. *)
Definition catalog_bytes (ds : list Described) : list byte := head 4 (len ds) ++ concat (map (fun d => encode (entry_item d)) ds).

(** *** What the wire can carry: the ranges of the model's integers and of the CDDL's strings and lists *)

Definition text_ok (n : nat) (s : list byte) : Prop := filled s = true /\ (length s <= n)%nat.
Definition optional_text_ok (n : nat) (s : list byte) : Prop := (length s <= n)%nat.

Definition setting_ok (d : SettingDefault) : Prop :=
  match d with
  | DInt i => -2147483648 <= i <= 2147483647
  | DFloat bits => in_u 32 bits
  | DTstr s => in_u 64 (len s)
  | _ => True
  end.

Record flair_ok (fl : Flair) : Prop := {
  ok_group : optional_text_ok 24 (fl_group fl); ok_desc : optional_text_ok desc_max_bytes (fl_desc fl);
  ok_role : optional_text_ok 24 (fl_role fl); ok_step : opt_in 32 (fl_step fl); ok_flags : in_u 8 (fl_flags fl);
  ok_rank : opt_in 8 (fl_rank fl); ok_aspect : opt_in 8 (fl_aspect fl); ok_scope : opt_in 8 (fl_scope fl);
  ok_provenance : opt_in 8 (fl_provenance fl); ok_unitId : opt_in 8 (fl_unitId fl) }.

(** Labels, of which a hole is empty. *)
Definition labels_ok (most : nat) (l : list (list byte)) : Prop := (length l <= most)%nat /\ Forall (optional_text_ok 24) l.
Definition options_ok (l : list (list byte)) : Prop := (length l <= kMaxCount)%nat /\ Forall (text_ok option_label_max_bytes) l.

Record layout_shown_ok (x : ShownLayout) : Prop := {
  ol_name : text_ok 24 (lf_name x.1.1.1); ol_unit : optional_text_ok 8 (lf_unit x.1.1.1); ol_scale : in_u 32 (lf_scale x.1.1.1);
  ol_min : opt_in 32 (lf_min x.1.1.1); ol_max : opt_in 32 (lf_max x.1.1.1); ol_bits : labels_ok 8 x.1.1.2;
  ol_key : opt_in 8 (lf_settingKey x.1.1.1); ol_dflt : setting_ok (lf_dflt x.1.1.1); ol_options : options_ok x.1.2;
  ol_flair : flair_ok (lf_flair x.1.1.1); ol_safe : setting_ok x.2 }.

Record schema_shown_ok (x : ShownSchema) : Prop := {
  os_key : in_u 8 (shown_key x); os_name : text_ok 24 (sf_name x.1.1.1); os_unit : optional_text_ok 8 (sf_unit x.1.1.1);
  os_min : opt_in 32 (sf_min x.1.1.1); os_max : opt_in 32 (sf_max x.1.1.1); os_dflt : setting_ok (sf_dflt x.1.1.1);
  os_options : options_ok x.1.1.2; os_flair : flair_ok (sf_flair x.1.1.1);
  os_access : from_option (fun a => 0 <= a <= 2) True (sf_access x.1.1.1);
  os_has : sf_hasOptionAccess x.1.1.1 = filled x.1.2; os_accesses : Forall (fun a => 0 <= a <= 2) x.1.2;
  os_aligned : filled x.1.2 = true -> length x.1.2 = length x.1.1.2;
  os_destructive : in_u 64 (sf_destructiveOptions x.1.1.1); os_safe : setting_ok x.2 }.

Record store_ok (d : StoreDescriptor) : Prop := {
  ok_storeId : in_u 8 (st_storeId d); ok_kind : text_ok 32 (st_kind d); ok_capacity : in_u 16 (st_capacity d);
  ok_perItemMax : in_u 32 (st_perItemMax d); ok_nameMax : in_u 16 (st_nameMax d) }.

Definition payload_ok (p : Payload) : Prop :=
  match p with
  | PLayout l => (1 <= length l <= kMaxFields)%nat /\ Forall layout_shown_ok l
  | PSchema l => (1 <= length l <= kMaxFields)%nat /\ Forall schema_shown_ok l /\ NoDup (map shown_key l)
  | PStore d => exists s, d = Some s /\ store_ok s
  end.

Record entry_wire_ok (d : Described) : Prop := {
  oe_id : in_u 16 (ce_id (d_header d)); oe_name : text_ok 32 (ce_name (d_header d));
  oe_cls : 0 <= ce_cls (d_header d) <= ChannelClass.STORE; oe_access : 0 <= ce_access (d_header d) <= 2;
  oe_rate : in_u 32 (ce_maxRateHz (d_header d)); oe_priority : 0 <= ce_defaultPriority (d_header d) <= 3;
  oe_category : opt_in 8 (ce_category (d_header d)); oe_label : optional_text_ok 24 (ce_categoryLabel (d_header d));
  oe_replay : opt_in 16 (ce_replayDepth (d_header d)); oe_setting : opt_in 16 (ce_settingChannel (d_header d));
  oe_kind : in_u 8 (ce_streamKind (d_header d)); oe_rank : opt_in 8 (ce_rank (d_header d));
  oe_store : opt_in 8 (ce_storeId (d_header d)); oe_role : optional_text_ok 24 (ce_role (d_header d));
  oe_kinds : labels_ok kMaxCount (d_kinds d);
  oe_mod : from_option (fun t => in_u 16 t.1 /\ in_u 16 t.2) True (ce_modTarget (d_header d));
  oe_payload : payload_ok (d_payload d) }.

(** ** The encoder writes the items *)

Lemma few_bytes (n : nat) (s : list byte) : (length s <= n)%nat -> (Z.of_nat n <=? 65535) = true -> in_u 64 (len s).
Proof. unfold in_u, len. intros H1 H2%Z.leb_le. lia. Qed.

Lemma written_text m n s : text_ok n s -> (Z.of_nat n <=? 65535) = true -> written (tstrVal s) (ITstr s) m.
Proof. intros [_ H] Hn. by eapply written_tstr, few_bytes. Qed.

Lemma written_short m n s : optional_text_ok n s -> (Z.of_nat n <=? 65535) = true -> written (tstrVal s) (ITstr s) m.
Proof. intros H Hn. by eapply written_tstr, few_bytes. Qed.

Lemma written_small m w v : in_u w v -> (w <=? 64) = true -> 0 <= w -> written (uintVal v) (IUint v) m.
Proof.
  intros H Hw%Z.leb_le H0. apply written_uint. unfold in_u in *. pose proof (Z.pow_le_mono_r 2 w 64 ltac:(lia) Hw). lia.
Qed.

Lemma written_below m v k : 0 <= v <= k -> (k <=? 65535) = true -> written (uintVal v) (IUint v) m.
Proof. intros H Hk%Z.leb_le. apply written_uint. unfold in_u. lia. Qed.

Lemma written_setting n d : setting_ok d -> sd_has d = true -> written (encodeSettingDefault d) (setting_item d) n.
Proof.
  destruct d as [|i|v|b|s]; [done|intros H _; cbn in H; split..].
  - apply writes_int. lia.
  - cbn. destruct (Z.leb_spec 0 i); apply in_ub_spec; unfold in_u; lia.
  - cbn. destruct (0 <=? i); cbn; lia.
  - by apply writes_f32.
  - by apply in_ub_spec.
  - cbn; lia.
  - apply writes_bool.
  - done.
  - cbn; lia.
  - apply writes_tstr.
  - by apply in_ub_spec.
  - cbn; lia.
Qed.

Definition indexed_at {A} (k : nat) (l : list A) : list (Z * A) := imap (fun i x => (Z.of_nat (k + i), x)) l.

Lemma indexed_cons {A} k (x : A) l : indexed_at k (x :: l) = (Z.of_nat k, x) :: indexed_at (S k) l.
Proof.
  unfold indexed_at. cbn. rewrite Nat.add_0_r. f_equal. apply imap_ext. intros i y _. cbn. by rewrite Nat.add_succ_r.
Qed.

Lemma indexed_keys {A} (l : list A) : forall k lk, (forall v, lk = Some v -> v < Z.of_nat k) ->
  above lk (map fst (indexed_at k l)) = true.
Proof.
  induction l as [|x l IH]; intros k lk H; [done|]. rewrite indexed_cons. cbn [map fst above]. rewrite IH.
  - destruct lk as [v|]; [|done]. rewrite andb_true_r. apply Z.ltb_lt. auto.
  - intros v [= <-]. lia.
Qed.

Lemma named_sum l k :
  foldr (fun ks s => Z.b2z (filled ks.2) + s) 0 (indexed_at k l) = named_count l.
Proof.
  revert k. induction l as [|s l IH]; intros k; [done|]. rewrite indexed_cons. cbn [foldr snd]. rewrite IH.
  unfold named_count. cbn. destruct (filled s); [rewrite len_cons; cbn; lia|done].
Qed.

Lemma named_le l : 0 <= named_count l <= len l.
Proof. unfold named_count, len. pose proof (List.filter_length_le filled l). lia. Qed.

Lemma written_named m n l : labels_ok m l -> (Z.of_nat m <=? 65535) = true -> written (w_named l) (named_item l) (S n).
Proof.
  intros [Hl Ht] Hm%Z.leb_le. pose proof (named_le l). unfold w_named, named_item.
  change (indexed l) with (indexed_at 0 l).
  apply (written_map _ _ _ (foldr (fun ks s => Z.b2z (filled ks.2) + s) 0 (indexed_at 0 l)) (map fst (indexed_at 0 l))).
  - apply (fw_each (fun ks => w_if (filled ks.2) (key ks.1 ;;; tstrVal ks.2)) (fun ks => if_fld ks.1 (filled ks.2) (ITstr ks.2))).
    apply Forall_forall. intros [k s] Hin. unfold indexed_at in Hin. apply list_elem_of_In, elem_of_lookup_imap in Hin as (i & x & [= -> ->] & Hx).
    rewrite Forall_forall in Ht. apply fw_if.
    + apply in_ub_spec. apply lookup_lt_Some in Hx. unfold in_u. cbn. lia.
    + intros _. apply (written_short _ 24); [|done]. apply Ht. apply list_elem_of_In. by eapply list_elem_of_lookup_2.
  - by rewrite named_sum.
  - rewrite named_sum. unfold in_u, len in *. lia.
  - by apply indexed_keys.
Qed.

Ltac wire_value :=
  intros; use_opts;
  lazymatch goal with
  | |- in_ub _ _ = true => reflexivity
  | |- written _ (ITstr _) _ => first [eapply written_text; [eassumption|reflexivity] | eapply written_short; [eassumption|reflexivity]]
  | |- written _ (IF32 _) _ => apply written_f32; first [assumption | in_range]
  | |- written _ (IUint _) _ =>
      first [eapply written_small; [eassumption|reflexivity|lia] | eapply written_below; [eassumption|reflexivity]
            | apply written_uint; first [assumption | in_range] | idtac]
  | |- written _ (setting_item _) _ => apply written_setting; assumption
  | |- written _ (named_item _) _ => eapply written_named; [eassumption|reflexivity]
  | _ => idtac
  end.

(** The pieces of a map, in the order of the keys. *)
Ltac wire_pieces tac :=
  repeat lazymatch goal with
  | |- fields_written _ _ _ _ _ => first [tac | apply fw_seq | apply fw_fld | apply fw_opt | apply fw_if]
  end; wire_value.

Lemma fw_annotations fl n : flair_ok fl ->
  fields_written (encode_annotations fl) (annotation_pairs fl) (annotation_count fl) [11; 12; 13; 14; 15] n.
Proof.
  intros []. assert (forall a b c d e, a + b + c + d + e = a + (b + (c + (d + e)))) as E by lia.
  unfold annotation_count. rewrite E. change [11; 12; 13; 14; 15] with ([11] ++ [12] ++ [13] ++ [14] ++ [15]).
  wire_pieces fail.
Qed.

Lemma fw_rendering fl n : flair_ok fl ->
  fields_written (encode_rendering fl) (rendering_pairs fl) (rendering_count fl) [19; 20; 21; 22; 23] n.
Proof.
  intros []. assert (forall a b c d e, a + b + c + d + e = a + (b + (c + (d + e)))) as E by lia.
  unfold rendering_count. rewrite E. change [19; 20; 21; 22; 23] with ([19] ++ [20] ++ [21] ++ [22] ++ [23]).
  wire_pieces fail.
Qed.

Lemma flair_counts fl : 0 <= annotation_count fl <= 5 /\ 0 <= rendering_count fl <= 5.
Proof.
  assert (forall b, 0 <= Z.b2z b <= 1) as H by (intros []; cbn; lia). unfold annotation_count, rendering_count.
  split; repeat match goal with |- context [Z.b2z ?b] => pose proof (H b); generalize dependent (Z.b2z b); intros end; lia.
Qed.

Ltac wire_counts fl :=
  pose proof (flair_counts fl);
  repeat match goal with |- context [Z.b2z ?c] => lazymatch goal with
    | _ : 0 <= Z.b2z c <= 1 |- _ => fail | _ => pose proof (b2z_bool_bounds c) end end;
  unfold in_u; lia.

Lemma written_options l n : options_ok l -> written (w_list tstrVal l) (IArr (map ITstr l)) (S n).
Proof.
  intros [Hl Ho]. apply written_list.
  - eapply Forall_impl; [|exact Ho]. intros s Hs. by eapply written_text.
  - unfold in_u, len, kMaxCount in *. lia.
Qed.

Lemma packed_code_small t : 0 <= packed_code t <= 10.
Proof. destruct t; cbn; lia. Qed.
Lemma cbor_code_small t : 0 <= cbor_code t <= 5.
Proof. destruct t; cbn; lia. Qed.
Lemma wireSize_small f : 0 <= Z.of_nat (wireSize f) <= 64.
Proof. unfold wireSize. destruct (lf_type f); lia. Qed.

Lemma written_layout x n : layout_shown_ok x ->
  written (encodeLayoutField x.1.1.1 x.1.1.2 x.1.2 x.2) (layout_item x) (S (S n)).
Proof.
  intros []. pose proof (packed_code_small (lf_type x.1.1.1)). pose proof (wireSize_small x.1.1.1).
  unfold encodeLayoutField, layout_item. eapply written_map.
  - unfold layout_pairs.
    wire_pieces ltac:(first [by apply fw_annotations | by apply fw_rendering]).
    by apply written_options.
  - wire_counts (lf_flair x.1.1.1).
  - wire_counts (lf_flair x.1.1.1).
  - reflexivity.
Qed.

Lemma written_schema x n : schema_shown_ok x ->
  written (encodeSchemaField x.1.1.1 x.1.1.2 x.1.2 x.2) (schema_item x) (S (S n)).
Proof.
  intros []. pose proof (cbor_code_small (sf_type x.1.1.1)).
  unfold encodeSchemaField, schema_item. eapply written_map.
  - unfold schema_pairs.
    wire_pieces ltac:(first [by apply fw_annotations | by apply fw_rendering]).
    + by apply written_options.
    + apply (written_below _ _ 2); [|done]. by rewrite H0 in os_access0.
    + apply written_list.
      * eapply Forall_impl; [|exact os_accesses0]. intros a Ha. by apply (written_below _ _ 2).
      * destruct os_options0 as [Ho _]. specialize (os_aligned0 H0). unfold in_u, len, kMaxCount in *. lia.
  - wire_counts (sf_flair x.1.1.1).
  - wire_counts (sf_flair x.1.1.1).
  - reflexivity.
Qed.

Lemma written_store d n : store_ok d -> written (encodeStoreDescriptor d) (store_item d) (S n).
Proof.
  intros []. unfold encodeStoreDescriptor, store_item. eapply written_map; [wire_pieces fail|reflexivity|unfold in_u; lia|reflexivity].
Qed.

(** Sorting the fields and sorting what they show is the same. *)
Section Sorting.
Context {A B : Type} (f : A -> B) (R : relation A) (R' : relation B).
Context `{forall x y, Decision (R x y)} `{forall x y, Decision (R' x y)}.
Hypothesis same : forall x y, R' (f x) (f y) <-> R x y.

Lemma same_if {C} x y (u v : C) : (if decide (R' (f x) (f y)) then u else v) = if decide (R x y) then u else v.
Proof. specialize (same x y). destruct (decide (R' _ _)), (decide (R _ _)); tauto. Qed.

Lemma map_list_merge l1 : forall l2, map f (list_merge R l1 l2) = list_merge R' (map f l1) (map f l2).
Proof.
  induction l1 as [|x l1 IH]; intros l2; [by destruct l2|]. induction l2 as [|y l2 IH2]; [done|].
  cbn [map list_merge]. rewrite same_if. destruct (decide (R x y)); cbn [map]; f_equal.
  - apply (IH (y :: l2)).
  - exact IH2.
Qed.

Lemma map_merge_into st l :
  map (option_map (map f)) (merge_list_to_stack R st l) = merge_list_to_stack R' (map (option_map (map f)) st) (map f l).
Proof.
  revert l. induction st as [|[l'|] st IH]; intros l; [done| |done]. cbn. by rewrite IH, map_list_merge.
Qed.

Lemma map_merge_stack st : map f (merge_stack R st) = merge_stack R' (map (option_map (map f)) st).
Proof.
  induction st as [|[l|] st IH]; [done| |done]. cbn. by rewrite map_list_merge, IH.
Qed.

Lemma map_merge_sort l : map f (merge_sort R l) = merge_sort R' (map f l).
Proof.
  unfold merge_sort. change (@nil (option (list B))) with (map (option_map (map f)) []). generalize (@nil (option (list A))).
  induction l as [|x l IH]; intros st; cbn [merge_sort_aux map]; [apply map_merge_stack|]. by rewrite IH, map_merge_into.
Qed.
End Sorting.

Lemma sorted_schema cat l :
  map (describe_schema cat) (merge_sort key_le l) = merge_sort shown_le (map (describe_schema cat) l).
Proof. by apply map_merge_sort. Qed.

Lemma ascending_keys (l : list ShownSchema) : NoDup (map shown_key l) ->
  above None (map shown_key (merge_sort shown_le l)) = true.
Proof.
  intros Hd. pose proof (merge_sort_Permutation shown_le l) as Hp.
  assert (Total shown_le) as Ht by (intros x y; unfold shown_le; lia).
  pose proof (Sorted_merge_sort shown_le l) as Hs. set (s := merge_sort shown_le l) in *.
  assert (NoDup (map shown_key s)) as Hd' by by rewrite Hp. clearbody s. clear Hp Hd l Ht.
  assert (forall lk, (forall v, lk = Some v -> Forall (fun x => v < shown_key x) s) -> above lk (map shown_key s) = true) as Hgo.
  { induction s as [|x s IH]; intros lk Hlk; [done|]. cbn [map above]. cbn in Hd'. inversion Hd' as [|? ? Hx Hd'' E1]; subst; clear Hd'; rename Hd'' into Hd'.
    apply Sorted_StronglySorted in Hs; [|intros a b c; unfold shown_le; lia]. apply StronglySorted_inv in Hs as [Hs Hb].
    rewrite IH; [| |done|].
    - destruct lk as [v|]; [|done]. rewrite andb_true_r. apply Z.ltb_lt. specialize (Hlk v eq_refl). by inversion Hlk.
    - by apply StronglySorted_Sorted.
    - intros v [= <-]. rewrite Forall_forall in *. intros y Hy. specialize (Hb y Hy). unfold shown_le in Hb.
      enough (shown_key x <> shown_key y) by lia. intros E. apply Hx. rewrite E. apply list_elem_of_In.
      apply in_map. done. }
  by apply Hgo.
Qed.

Lemma written_layouts cat (l : list LayoutField) n :
  Forall layout_shown_ok (map (describe_layout cat) l) -> in_u 32 (len l) ->
  written (w_list (fun f => encodeLayoutField f (labels (lf_bits f) cat) (labels (lf_options f) cat) (safeAt (lf_safeSlot f) cat)) l)
    (IArr (map layout_item (map (describe_layout cat) l))) (S (S (S n))).
Proof.
  intros H Hl. rewrite map_map. apply written_list; [|done]. apply Forall_forall. intros f Hf. rewrite Forall_forall in H.
  exact (written_layout (describe_layout cat f) n (H _ (in_map _ _ _ Hf))).
Qed.

Lemma fw_schemas cat (l : list SchemaField) n :
  Forall schema_shown_ok (map (describe_schema cat) l) ->
  fields_written
    (w_each (fun f => key (sf_key f) ;;; encodeSchemaField f (labels (sf_options f) cat) (optionAccess f cat) (safeAt (sf_safeSlot f) cat)) l)
    (map (fun x => (shown_key x, schema_item x)) (map (describe_schema cat) l)) (len l)
    (map shown_key (map (describe_schema cat) l)) (S (S n)).
Proof.
  intros H. induction l as [|f l IH]; [apply fw_none|]. cbn [map] in *. apply Forall_cons_1 in H as [Hf H].
  rewrite len_cons, Z.add_comm. cbn [w_each].
  apply (fw_seq (key (sf_key f) ;;; encodeSchemaField f (labels (sf_options f) cat) (optionAccess f cat) (safeAt (sf_safeSlot f) cat))
    (w_each _ l) (fld (shown_key (describe_schema cat f)) (schema_item (describe_schema cat f))) _ 1 _ [shown_key (describe_schema cat f)]).
  - apply fw_fld; [|exact (written_schema (describe_schema cat f) n Hf)].
    apply in_ub_spec. destruct Hf as [Hk _ _ _ _ _ _ _ _ _ _ _ _ _]. unfold in_u, shown_key in *. cbn in *. lia.
  - by apply IH.
Qed.

Lemma written_schemas cat (l : list SchemaField) n :
  Forall schema_shown_ok (map (describe_schema cat) l) -> NoDup (map shown_key (map (describe_schema cat) l)) ->
  in_u 32 (len l) ->
  written (mapHeader (len l) ;;;
    w_each (fun f => key (sf_key f) ;;; encodeSchemaField f (labels (sf_options f) cat) (optionAccess f cat) (safeAt (sf_safeSlot f) cat))
      (merge_sort key_le l))
    (IMap (map (fun x => (shown_key x, schema_item x)) (merge_sort shown_le (map (describe_schema cat) l)))) (S (S (S n))).
Proof.
  intros H Hd Hl. pose proof (merge_sort_Permutation key_le l) as Hp. rewrite <- sorted_schema.
  assert (len (merge_sort key_le l) = len l) as E by (unfold len; by rewrite Hp).
  eapply written_map; [apply fw_schemas|by rewrite E|by rewrite E|].
  - rewrite Forall_forall in *. intros x Hx. apply H. apply in_map_iff in Hx as (f & <- & Hf). apply in_map.
    apply list_elem_of_In. rewrite <- Hp. by apply list_elem_of_In.
  - rewrite sorted_schema. by apply ascending_keys.
Qed.

Ltac wire_entry_counts :=
  repeat match goal with |- context [Z.b2z ?c] => lazymatch goal with
    | _ : 0 <= Z.b2z c <= 1 |- _ => fail | _ => pose proof (b2z_bool_bounds c) end end;
  unfold in_u; lia.

Lemma direction_small d : 0 <= direction_code d <= 1.
Proof. destruct d; cbn; lia. Qed.

Lemma no_store e cat : form e <> Store -> storeDescriptor e cat = None.
Proof. intros H. unfold storeDescriptor, usesStore. by rewrite bool_decide_eq_false_2. Qed.

(** The pairs around the payload, from the entry's own ranges. *)
Lemma encodeEntry_writes cat e : entry_wire_ok (describe cat e) ->
  exists f, written f (entry_item (describe cat e)) kMaxDepth /\ forall w, encodeEntry cat e w = f w.
Proof.
  intros [Hid Hname Hcls Haccess Hrate Hprio Hcat Hlabel Hreplay Hset Hkind Hrank Hstore Hrole Hkinds Hmod Hpay].
  pose proof (direction_small (ce_dir e)) as Hdir.
  unfold encodeEntry, entry_item, entry_pairs, store_pairs, payload_pairs in *.
  unfold describe in *. cbn [d_header d_kinds d_payload] in *.
  repeat match goal with |- context [?p (bare_entry e)] => progress change (p (bare_entry e)) with (p e) in * end.
  assert (forall t, ce_modTarget e = Some t -> written (w_list uintVal [t.1; t.2]) (mod_item t) 3) as Hwmod.
  { intros t Ht. rewrite Ht in Hmod. destruct Hmod. apply written_list; [|done].
    apply Forall_cons; [|apply Forall_cons; [|done]]; apply written_uint; unfold in_u in *; lia. }
  pose proof (no_store e cat) as Hno. assert (usesStore e = bool_decide (form e = Store)) as -> by done.
  destruct (form e) eqn:F; cbn [bool_decide decide_rel decide negb andb].
  - destruct Hpay as [Hlen Hpay]. rewrite length_map in Hlen. rewrite Hno by done. rewrite (bool_decide_eq_false_2) by done. cbn [andb].
    rewrite (proj2 (Nat.ltb_ge _ _)) by lia.
    eexists. split; [|reflexivity].
    eapply written_map; [wire_pieces ltac:(apply fw_none); try by apply Hwmod| | |].
    + apply written_layouts; [done|]. unfold in_u, len, kMaxFields in *. lia.
    + wire_entry_counts.
    + wire_entry_counts.
    + reflexivity.
  - destruct Hpay as (Hlen & Hpay & Hnd). rewrite length_map in Hlen. rewrite Hno by done. rewrite (bool_decide_eq_false_2) by done. cbn [andb].
    rewrite (proj2 (Nat.ltb_ge _ _)) by lia.
    eexists. split; [|reflexivity].
    eapply written_map; [wire_pieces ltac:(apply fw_none); try by apply Hwmod| | |].
    + apply written_schemas; [done|done|]. unfold in_u, len, kMaxFields in *. lia.
    + wire_entry_counts.
    + wire_entry_counts.
    + reflexivity.
  - destruct Hpay as (s & Hs & Hok). rewrite Hs, bool_decide_eq_true_2 by done. cbn [has negb andb].
    change (kMaxFields <? 0)%nat with false. cbv iota.
    eexists. split; [|reflexivity].
    eapply written_map; [wire_pieces ltac:(apply fw_none); try by apply Hwmod| | |].
    + by apply written_store.
    + wire_entry_counts.
    + wire_entry_counts.
    + reflexivity.
Qed.

(** ** The whole catalog *)

Lemma entry_resolves cat e : entry_ok cat e -> entry_wire_ok (describe cat e) -> resolves cat e = true.
Proof.
  intros (Hin & _ & _) []. unfold resolves. unfold describe in *. cbn [d_payload] in *. destruct (form e) eqn:F; cbn in Hin.
  - apply Nat.eqb_eq. unfold layoutFields, usesLayout. rewrite F. by apply slice_all.
  - apply Nat.eqb_eq. unfold schemaFields, usesSchema. rewrite F. by apply slice_all.
  - destruct oe_payload0 as (s & -> & _). done.
Qed.

Definition entry_bytes (cat : Catalog) (e : CatalogEntry) : list byte := encode (entry_item (describe cat e)).

(** An entry's document fits the cap. *)
Definition capped_entry (cat : Catalog) (e : CatalogEntry) : bool :=
  (length (entry_bytes cat e) <=? catalog_max_entry_bytes)%nat.

Definition documents (cat : Catalog) (es : list CatalogEntry) : list (CatalogEntry * list byte) :=
  map (fun e => (e, entry_bytes cat e)) es.

Lemma finish_entry cat e out : entry_wire_ok (describe cat e) ->
  if (length (entry_bytes cat e) <=? length out)%nat
  then finish (encodeEntry cat e (CborWriter_new out)) = (entry_bytes cat e ++ drop (length (entry_bytes cat e)) out, length (entry_bytes cat e))
  else snd (finish (encodeEntry cat e (CborWriter_new out))) = 0%nat
       /\ length (fst (finish (encodeEntry cat e (CborWriter_new out)))) = length out.
Proof.
  intros (f & [Hw _ Hn] & Hf)%encodeEntry_writes. rewrite Hf. exact (encodes_item f _ Hw Hn out).
Qed.

Lemma encode_entries_exact cat es : forall pre rest docs,
  Forall (fun e => entry_ok cat e /\ entry_wire_ok (describe cat e)) es ->
  let bs := concat (map (entry_bytes cat) es) in
  let '(o, n, docs') := encode_entries cat es (pre ++ rest) (length pre) docs in
  if forallb (capped_entry cat) es && (length bs <=? length rest)%nat
  then o = pre ++ bs ++ drop (length bs) rest /\ n = (length pre + length bs)%nat /\ docs' = docs ++ documents cat es
  else n = 0%nat /\ length o = (length pre + length rest)%nat.
Proof.
  induction es as [|e es IH]; intros pre rest docs Hall.
  { cbn. by rewrite app_nil_r, Nat.add_0_r. }
  inversion Hall as [|? ? [He Hok] Hall']; subst; clear Hall. cbn [map concat encode_entries forallb documents].
  rewrite (entry_resolves cat e He Hok). destruct He as (_ & Hmax & _). rewrite (proj2 (Nat.ltb_ge _ _) Hmax).
  rewrite length_app. rewrite (proj2 (Nat.ltb_ge _ _)) by lia. cbn [negb orb].
  rewrite take_app_length, drop_app_length. pose proof (finish_entry cat e rest Hok) as Hfin.
  pose proof (encode_length_pos (entry_item (describe cat e))) as Hpos. fold (entry_bytes cat e) in Hpos.
  set (bs := entry_bytes cat e) in *. set (tl := concat (map (entry_bytes cat) es)) in *. rewrite length_app.
  unfold capped_entry at 1. fold bs. destruct (Nat.leb_spec (length bs) (length rest)) as [Hfit|Hfit].
  - rewrite Hfin. rewrite (proj2 (Nat.eqb_neq _ 0)) by lia. cbn [orb].
    destruct (Nat.leb_spec (length bs) catalog_max_entry_bytes) as [Hcap|Hcap].
    + rewrite (proj2 (Nat.ltb_ge _ _)) by done. specialize (IH (pre ++ bs) (drop (length bs) rest)).
      unfold subspan. rewrite drop_app_length, take_app_length.
      rewrite <- app_assoc, length_app in IH. specialize (IH (docs ++ [(e, bs)]) Hall').
      cbn zeta in IH. fold tl in IH. destruct (encode_entries cat es _ _ _) as [[o n] docs']. rewrite length_drop in IH.
      cbn [andb]. replace (length bs + length tl <=? length rest)%nat with (length tl <=? length rest - length bs)%nat.
      2: { destruct (Nat.leb_spec (length tl) (length rest - length bs)), (Nat.leb_spec (length bs + length tl) (length rest)); lia. }
      destruct (forallb (capped_entry cat) es && _).
      * destruct IH as (-> & -> & ->). rewrite <- !app_assoc, drop_drop. split_and!; [done|lia|done].
      * destruct IH as [-> ->]. split; [done|lia].
    + rewrite (proj2 (Nat.ltb_lt _ _)) by done. cbn [andb]. split; [done|]. rewrite !length_app, length_drop. lia.
  - destruct (finish _) as [o n]. cbn [fst snd] in Hfin. destruct Hfin as [-> Ho]. cbn [Nat.eqb orb].
    replace (length bs + length tl <=? length rest)%nat with false by (symmetry; apply Nat.leb_gt; lia).
    rewrite andb_false_r. split; [done|]. rewrite length_app. lia.
Qed.

Lemma header_bytes n : in_u 32 n ->
  finish (arrayHeader n (CborWriter_new (replicate 9 Byte.x00)))
  = (head 4 n ++ replicate (9 - length (head 4 n)) Byte.x00, length (head 4 n)).
Proof.
  intros Hn. change (CborWriter_new (replicate 9 Byte.x00)) with (wrote (replicate 9 Byte.x00) [] []).
  pose proof (head_length 4 n) as Hl. destruct (emits_arrayHeader n [] Hn ltac:(cbn; unfold kMaxDepth; lia)) as [_ F2 _].
  rewrite F2 by (rewrite length_replicate; cbn; lia). unfold finish, w_size, wrote. cbn [w_out w_failed w_pos app].
  f_equal. f_equal. apply drop_replicate.
Qed.

(** [catalog_wire_ok]: the model's integers and strings are in the ranges of the C++ types, and each entry
    has fields. *)
Definition catalog_wire_ok (cat : Catalog) : Prop :=
  catalog_ok cat /\ Forall entry_wire_ok (description cat) /\ in_u 16 (len (entries cat)).

(** What the encoder is asked for can be written: ids ascend, every entry is within the cap, all fits. *)
Definition encodable (cat : Catalog) (room : nat) : bool :=
  ids_ascend (entries cat) && forallb (capped_entry cat) (entries cat)
  && (length (catalog_bytes (description cat)) <=? room)%nat.

Lemma encodeCatalog_bytes cat out : catalog_wire_ok cat ->
  let '(o, n, docs) := encodeCatalog cat out in
  if encodable cat (length out)
  then o = catalog_bytes (description cat) ++ drop (length (catalog_bytes (description cat))) out
       /\ n = length (catalog_bytes (description cat)) /\ docs = documents cat (entries cat)
  else n = 0%nat /\ length o = length out.
Proof.
  intros (Hok & Hw & Hn). unfold encodeCatalog, encodable, catalog_bytes. destruct (ids_ascend (entries cat)); cbn [negb andb]; [|done].
  rewrite header_bytes by (unfold in_u in *; lia).
  assert (len (description cat) = len (entries cat)) as -> by (unfold len, description; by rewrite length_map).
  pose proof (head_length 4 (len (entries cat))) as Hl. set (hd := head 4 (len (entries cat))) in *.
  rewrite (proj2 (Nat.eqb_neq _ _)) by lia. cbn [orb].
  assert (concat (map (fun d => encode (entry_item d)) (description cat)) = concat (map (entry_bytes cat) (entries cat))) as ->
    by (unfold description; by rewrite map_map). rewrite length_app.
  destruct (Nat.ltb_spec (length out) (length hd)) as [Hs|Hs].
  { rewrite (proj2 (Nat.leb_gt _ _)) by lia. by rewrite andb_false_r. }
  rewrite take_app_length.
  assert (Forall (fun e => entry_ok cat e /\ entry_wire_ok (describe cat e)) (entries cat)) as Hall.
  { destruct Hok as [He _ _ _ _]. unfold description in Hw. rewrite Forall_forall in *. intros e Hin. split; [auto|]. apply Hw, in_map, Hin. }
  pose proof (encode_entries_exact cat (entries cat) hd (drop (length hd) out) [] Hall) as He. cbn zeta in He.
  destruct (encode_entries cat _ _ _ _) as [[o n] docs]. rewrite length_drop in He.
  set (bs := concat (map (entry_bytes cat) (entries cat))) in *.
  replace (length hd + length bs <=? length out)%nat with (length bs <=? length out - length hd)%nat.
  2: { destruct (Nat.leb_spec (length bs) (length out - length hd)), (Nat.leb_spec (length hd + length bs) (length out)); lia. }
  destruct (_ && _).
  - destruct He as (-> & -> & ->). rewrite drop_drop, <- app_assoc. done.
  - destruct He as [-> ->]. split; [done|lia].
Qed.
