(* ===== verification/CatalogTyped.v ===== *)
(** * CatalogTyped: no bytes make the decoder build a dangling catalog

    Whatever arrives, a successful [decodeCatalog] leaves a catalog whose references all point into its pools
    ([catalog_ok]), within the capacities, with ascending ids. *)

From stdpp Require Import sorting.
From S2P Require Import Prelude Registry ByteIO CborItem CborReader CborWriter CborMessage Sha256 MsgHello Safety.
From S2P Require Import Shedding Catalog CatalogCodec.
#[local] Open Scope Z_scope.

(** What a decoder that succeeds has done. *)
Ltac unbind H :=
  let v := fresh "v" in let Hv := fresh "Hv" in apply result_bind_ok in H as (v & Hv & H).

Lemma fields_inv {A} init (field : Z -> A -> ItemReader A) b i a' (P : A -> Prop) :
  meaning (fields init field) b i = ok a' ->
  (forall kvs a, i = IMap kvs -> init (len kvs) = ok a -> P a) ->
  (forall k a d j a', meaning (field k a) d j = ok a' -> P a -> P a') -> P a'.
Proof.
  intros H H0 Hs. destruct i as [| | | | |kvs| | |]; try done. destruct b as [|b]; [done|].
  rewrite meaning_fields in H. unbind H. apply (fold_fields_inv _ P _ _ _ (fun k j a1 a2 _ Hm => Hs k a1 b j a2 Hm)) in H; [done|by eapply H0].
Qed.

(** The elements of an array, with how many have been read. *)
Lemma fold_items_inv {A} (sem : A -> Item -> decoded A) (P : nat -> A -> Prop) m l : forall n a a',
  (n + length l = m)%nat ->
  (forall n i a a', (n < m)%nat -> sem a i = ok a' -> P n a -> P (S n) a') -> P n a -> fold_items sem l a = ok a' -> P m a'.
Proof.
  induction l as [|i l IH]; intros n a a' Hm Hs Ha H; cbn [fold_items length] in *.
  - injection H as <-. by replace m with n by lia.
  - unbind H. apply (IH (S n) v a'); [lia|done| |exact H]. apply (Hs n i a); [lia|done..].
Qed.

Lemma elements_inv {A} init (body : A -> ItemReader A) b i a' (P : list Item -> nat -> A -> Prop) :
  meaning (elements init body) b i = ok a' ->
  (forall l a, init (len l) = ok a -> P l 0%nat a) ->
  (forall l n a d j a', (n < length l)%nat -> meaning (body a) d j = ok a' -> P l n a -> P l (S n) a') ->
  exists l, i = IArr l /\ P l (length l) a'.
Proof.
  intros H H0 Hs. destruct i as [| | | |l| | | |]; try done. destruct b as [|b]; [done|].
  rewrite meaning_elements in H. unbind H. exists l. split; [done|].
  apply (fold_items_inv _ (P l) (length l) l 0%nat v a') in H; [done|done| |by apply H0].
  intros n i a1 a2 Hn Hm. by eapply Hs.
Qed.

Lemma fold_fields_count {A} (sem : Z -> A -> Item -> decoded A) (P : nat -> A -> Prop) kvs : forall n a a',
  (forall n k i a a', sem k a i = ok a' -> P n a -> P (S n) a') -> P n a -> fold_fields sem kvs a = ok a' ->
  P (n + length kvs)%nat a'.
Proof.
  induction kvs as [|[k i] kvs IH]; intros n a a' Hs Ha H; cbn [fold_fields length] in *.
  - injection H as <-. by rewrite Nat.add_0_r.
  - unbind H. rewrite <- Nat.add_succ_comm. apply (IH (S n) v a' Hs); [|exact H]. by apply (Hs n k i a).
Qed.

Lemma fields_count_inv {A} init (field : Z -> A -> ItemReader A) b i a' (P : nat -> nat -> A -> Prop) :
  meaning (fields init field) b i = ok a' ->
  (forall m a, init (Z.of_nat m) = ok a -> P m 0%nat a) ->
  (forall m n k a d j a', meaning (field k a) d j = ok a' -> P m n a -> P m (S n) a') -> exists m, P m m a'.
Proof.
  intros H H0 Hs. destruct i as [| | | | |kvs| | |]; try done. destruct b as [|b]; [done|].
  rewrite meaning_fields in H. unbind H. exists (length kvs). apply H0 in Hv.
  apply (fold_fields_count _ (P (length kvs)) kvs 0%nat v a') in H; [done| |done]. intros n k i a1 a2 Hm. by eapply Hs.
Qed.

Section Typed.
Context (Entries LayoutFields SchemaFields Labels Stores SafeSlots : nat).

Definition more_safes (vs : list SettingDefault) (c : Catalog) : Catalog := c <| safePool ::= fun l => l ++ vs |>.

(** Labels and safe values were added, and the pools of labels and safe values still fit. *)
Definition grown (c0 c : Catalog) : Prop := exists ls vs, c = more_safes vs (more_labels ls c0).

Record pools_fit (c : Catalog) : Prop := {
  fit_labels : (length (labelPool c) <= Labels)%nat;
  fit_safes : (length (safePool c) <= SafeSlots)%nat;
  fit_layouts : (length (layoutPool c) <= LayoutFields)%nat;
  fit_schemas : (length (schemaPool c) <= SchemaFields)%nat;
  fit_stores : (length (storePool c) <= Stores)%nat;
  fit_entries : (length (entries c) <= Entries)%nat }.

Lemma grown_refl c : grown c c.
Proof. exists [], []. destruct c. unfold more_safes, more_labels, update_field, safePool_field, labelPool_field. cbn. by rewrite !app_nil_r. Qed.

Lemma grown_labels ls c : grown c (more_labels ls c).
Proof.
  exists ls, []. destruct c. unfold more_safes, more_labels, update_field, safePool_field, labelPool_field. cbn. by rewrite app_nil_r.
Qed.

Lemma grown_trans a b c : grown a b -> grown b c -> grown a c.
Proof.
  intros (ls & vs & ->) (ls' & vs' & ->). exists (ls ++ ls'), (vs ++ vs'). destruct a.
  unfold more_safes, more_labels, update_field, safePool_field, labelPool_field. cbn. by rewrite !app_assoc.
Qed.

Lemma grown_extends c0 c : grown c0 c -> extends c0 c.
Proof. intros (ls & vs & ->). split; cbn; try done; by apply prefix_app_r. Qed.

Lemma grown_same c0 c : grown c0 c ->
  entries c = entries c0 /\ layoutPool c = layoutPool c0 /\ schemaPool c = schemaPool c0 /\ storePool c = storePool c0
  /\ userSpaceMark c = userSpaceMark c0.
Proof. by intros (ls & vs & ->). Qed.

Lemma grown_ok c0 c : catalog_ok c0 -> grown c0 c -> catalog_ok c.
Proof.
  intros Hc Hg. pose proof (grown_extends _ _ Hg) as Hx. destruct (grown_same _ _ Hg) as (E1 & E2 & E3 & _ & _).
  destruct Hc as [He Ha Hl Hs Hn]. split; rewrite ?E1, ?E2, ?E3; try done.
  - eapply Forall_impl; [|exact He]. intros e. by apply entry_ok_extend.
  - eapply Forall_impl; [|exact Hl]. intros e. by apply layout_ok_extend.
  - eapply Forall_impl; [|exact Hs]. intros e. by apply schema_ok_extend.
  - unfold safe_slots. by rewrite E2, E3.
Qed.

(** *** Labels *)

Lemma add_label_inv s c c' : add_label Labels s c = ok c' ->
  (length (labelPool c) < Labels)%nat /\ c' = more_labels [watched s] c.
Proof.
  unfold add_label, pushing, poolAddLabel, mbind, Author_bind, get_catalog, overflow_if.
  destruct (Nat.leb_spec Labels (length (labelPool c))); [done|]. intros [= <-]. done.
Qed.

Lemma add_safe_inv v c n c' : add_safe SafeSlots v c = ok (n, c') ->
  n = length (safePool c) /\ (length (safePool c) < SafeSlots)%nat /\ c' = more_safes [v] c.
Proof.
  unfold add_safe, pushing, poolAddSafe, mbind, Author_bind, get_catalog, overflow_if.
  destruct (Nat.leb_spec SafeSlots (length (safePool c))); [done|]. intros [= <- <-]. done.
Qed.

Lemma fit_more_labels ls c : pools_fit c -> (length (labelPool c) + length ls <= Labels)%nat -> pools_fit (more_labels ls c).
Proof. intros []. split; cbn; try done. by rewrite length_app. Qed.

Lemma fit_more_safes vs c : pools_fit c -> (length (safePool c) + length vs <= SafeSlots)%nat -> pools_fit (more_safes vs c).
Proof. intros []. split; cbn; try done. by rewrite length_app. Qed.

Lemma back_fill_inv n : forall c c', back_fill Labels n c = ok c' -> pools_fit c ->
  c' = more_labels (replicate n (watched [])) c /\ pools_fit c'.
Proof.
  induction n as [|n IH]; intros c c' H Hf; cbn [back_fill replicate] in *.
  - injection H as <-. by rewrite more_labels_nil.
  - unbind H. apply add_label_inv in Hv as [Hl ->]. apply IH in H as [-> H].
    + split; [by rewrite more_labels_app|done].
    + apply fit_more_labels; [done|cbn; lia].
Qed.

(** The labels a reference was just read for. *)
Definition read_labels (c : Catalog) (r : LabelRef) (c' : Catalog) : Prop :=
  exists ls, c' = more_labels ls c /\ r = mkLabelRef (label_mark c) (length ls) /\ pools_fit c'.

Lemma read_labels_ref c r c' : read_labels c r c' -> ref_ok (length (labelPool c')) r /\ Z.of_nat (length (labelPool c)) <= lr_offset r.
Proof.
  intros (ls & -> & -> & _). cbn. rewrite length_app. unfold ref_ok, label_mark. cbn. lia.
Qed.

Lemma sparse_inv init over c b i r c' : pools_fit c ->
  meaning (sparse Labels init over c) b i = ok (r, c') -> read_labels c r c'.
Proof.
  intros Hf H. unfold sparse in H. apply reading_inv in H as ([c1 n] & H & [= <- <-]). cbn [fst snd].
  apply (fields_inv _ _ _ _ _ (fun a => exists ls, a = (more_labels ls c, length ls) /\ pools_fit a.1)) in H as (ls & [= -> ->] & Hf').
  - exists ls. done.
  - intros kvs a _ Hi. unbind Hi. injection Hi as <-. exists []. rewrite more_labels_nil. done.
  - intros k a d j a' Hm (ls & -> & Hfa). unfold sparse_field in Hm. destruct (over k); [done|].
    apply reading_inv in Hm as (s & _ & Hm). unbind Hm. unbind Hm. unbind Hm. injection Hm as <-.
    apply back_fill_inv in Hv0 as [-> Hf0]; [|done]. apply add_label_inv in Hv1 as [Hlt ->]. rewrite !more_labels_app in *.
    eexists. split; [f_equal|].
    + rewrite !length_app, length_replicate. cbn. lia.
    + cbn [fst]. apply fit_more_labels; [done|]. cbn in Hlt. rewrite !length_app in *. cbn. lia.
Qed.

Lemma options_inv c b i r c' : pools_fit c -> meaning (decodeOptions Labels c) b i = ok (r, c') -> read_labels c r c'.
Proof.
  intros Hf H. unfold decodeOptions in H. apply reading_inv in H as ([c1 n] & H & [= <- <-]). cbn [fst snd].
  apply (elements_inv _ _ _ _ _ (fun l m a => exists ls, a = (more_labels ls c, len l) /\ length ls = m /\ pools_fit a.1)) in H.
  - destruct H as (l & -> & ls & [= -> ->] & Hlen & Hf'). exists ls. unfold len. by rewrite Nat2Z.id, Hlen.
  - intros l a Hi. destruct (_ || _); [done|]. injection Hi as <-. exists []. rewrite more_labels_nil. done.
  - intros l m a d j a' _ Hm (ls & -> & <- & Hfa). apply reading_inv in Hm as (s & _ & Hm). unbind Hm. unbind Hm. injection Hm as <-.
    cbn [fst snd] in *. apply add_label_inv in Hv0 as [Hlt ->]. rewrite more_labels_app in *.
    exists (ls ++ [watched v]). split_and!; [done|rewrite length_app; cbn; lia|].
    cbn [fst]. apply fit_more_labels; [done|]. cbn in Hlt. rewrite !length_app in *. cbn. lia.
Qed.

(** ** Fields *)

Definition fresh_slot (c0 c : Catalog) (s : SafeSlot) : Prop :=
  from_option (fun i => (length (safePool c0) <= i < length (safePool c))%nat) True s.

Record layout_read (c0 : Catalog) (f : LayoutField) (c : Catalog) : Prop := {
  lr_grown : grown c0 c; lr_fit : pools_fit c;
  lr_bits : ref_ok (length (labelPool c)) (lf_bits f); lr_options : ref_ok (length (labelPool c)) (lf_options f);
  lr_slot : fresh_slot c0 c (lf_safeSlot f) }.

Lemma fresh_slot_more c0 c c' s : (length (safePool c) <= length (safePool c'))%nat -> fresh_slot c0 c s -> fresh_slot c0 c' s.
Proof. destruct s; cbn; lia. Qed.

Lemma layout_read_labels c0 f c r c' : layout_read c0 f c -> read_labels c r c' -> layout_read c0 f c'.
Proof.
  intros [] (ls & -> & -> & Hf). split; [by eapply grown_trans, grown_labels|done| | |].
  - eapply ref_ok_more; [|done]. cbn. rewrite length_app. lia.
  - eapply ref_ok_more; [|done]. cbn. rewrite length_app. lia.
  - done.
Qed.

Lemma layout_field_inv c0 k a b i a' : meaning (layout_field Labels SafeSlots k a) b i = ok a' ->
  layout_read c0 a.1.1 a.1.2 -> layout_read c0 a'.1.1 a'.1.2.
Proof.
  destruct a as [[f c] got]. intros H Hr. cbn [fst snd] in Hr. unfold layout_field in H.
  repeat match type of H with context [if ?k =? ?n then _ else _] => destruct (k =? n) end;
    apply reading_inv in H as (v & Hm & H);
    lazymatch type of Hm with
    | meaning (decode_bits _ _) _ _ = _ => idtac
    | meaning (decodeOptions _ _) _ _ = _ => idtac
    | meaning p_setting _ _ = _ => idtac
    | _ => repeat unbind H; injection H as <-; by destruct Hr
    end.
  - injection H as <-. destruct v as [r c']. apply sparse_inv in Hm; [|by destruct Hr]. cbn [fst snd].
    destruct (layout_read_labels _ _ _ _ _ Hr Hm). split; try done. by apply (read_labels_ref c).
  - injection H as <-. by destruct Hr.
  - injection H as <-. destruct v as [r c']. apply options_inv in Hm; [|by destruct Hr]. cbn [fst snd].
    destruct (layout_read_labels _ _ _ _ _ Hr Hm). split; try done. by apply (read_labels_ref c).
  - unbind H. destruct v0 as [n c']. apply add_safe_inv in Hv as (-> & Hlt & ->). injection H as <-. cbn [fst snd]. destruct Hr as [Hg Hf Hb Ho Hs].
    split; cbn; try done.
    + eapply grown_trans; [exact Hg|]. exists [], [v]. by rewrite more_labels_nil.
    + apply fit_more_safes; [done|cbn; lia].
    + rewrite length_app. pose proof (prefix_length _ _ (ext_safes _ _ (grown_extends _ _ Hg))). cbn. lia.
Qed.

Lemma layout_inv c0 b i f c : pools_fit c0 -> meaning (decodeLayoutField Labels SafeSlots c0) b i = ok (f, c) -> layout_read c0 f c.
Proof.
  intros Hf H. unfold decodeLayoutField in H. apply reading_inv in H as ([[f' c'] got] & H & Hp).
  destruct (got_all _ _); [|done]. injection Hp as <- <-.
  apply (fields_inv _ _ _ _ _ (fun a : LayoutLoop => layout_read c0 a.1.1 a.1.2)) in H; [done| |].
  - intros kvs a _ [= <-]. split; [apply grown_refl|done|by left|by left|done].
  - intros k a d j a'. apply layout_field_inv.
Qed.

Hypothesis few_labels : Z.of_nat Labels <= 65535.

Record schema_read (c0 : Catalog) (f : SchemaField) (c : Catalog) : Prop := {
  sr_grown : grown c0 c; sr_fit : pools_fit c; sr_options : ref_ok (length (labelPool c)) (sf_options f);
  sr_own : lr_count (sf_options f) = 0%nat \/ Z.of_nat (length (labelPool c0)) <= lr_offset (sf_options f);
  sr_slot : fresh_slot c0 c (sf_safeSlot f) }.

(** Access levels are set on labels of the field itself only. *)
Lemma set_access_inv c0 c k a c' u : grown c0 c -> (length (labelPool c0) <= k)%nat ->
  pushing (poolSetLabelAccess k a) Malformed c = ok (c', u) ->
  grown c0 c' /\ length (labelPool c') = length (labelPool c) /\ safePool c' = safePool c.
Proof.
  intros (ls & vs & ->) Hk. unfold pushing, poolSetLabelAccess, mbind, Author_bind, get_catalog, overflow_if.
  destruct (_ <=? _)%nat; [done|]. intros [= <- <-]. split_and!; [|cbn; by rewrite length_alter|done].
  exists (alter (set_access a) (k - length (labelPool c0))%nat ls), vs. destruct c0 as [es lp sp dp bp vp ov mk].
  unfold more_safes, more_labels, update_field, safePool_field, labelPool_field. cbn in *. f_equal.
  rewrite <- (Nat.sub_add (length bp) k) at 1 by done. rewrite Nat.add_comm. by rewrite alter_app_r.
Qed.

Lemma option_access_inv c0 f c b i c' : schema_read c0 f c ->
  meaning (decode_option_access f c) b i = ok c' -> schema_read c0 f c'.
Proof.
  intros [Hg Hf Ho Hown Hs] H. unfold decode_option_access in H. apply reading_inv in H as ([c1 n] & H & [= <-]). cbn [fst].
  apply (elements_inv _ _ _ _ _ (fun l m a => a.2 = Z.of_nat m /\ length l = lr_count (sf_options f) /\ lr_count (sf_options f) <> 0%nat
    /\ grown c0 a.1 /\ length (labelPool a.1) = length (labelPool c) /\ safePool a.1 = safePool c)) in H.
  - destruct H as (l & -> & _ & _ & _ & Hg' & El & Es). cbn in *. split; [done| |by rewrite El|done|by unfold fresh_slot; rewrite Es].
    destruct (grown_same _ _ Hg) as (E1 & E2 & E3 & E4 & _), (grown_same _ _ Hg') as (E1' & E2' & E3' & E4' & _).
    destruct Hf. split; rewrite ?El, ?Es, ?E1', ?E2', ?E3', ?E4'; congruence.
  - intros l a Hi. destruct (_ || _) eqn:G; [done|]. injection Hi as <-. apply orb_false_iff in G as [G1%Nat.eqb_neq G2%negb_false_iff%Z.eqb_eq].
    unfold len in G2. split_and!; try done. lia.
  - intros l m [c2 n2] d j a' Hm Hb (En & Hl & Hne & Hg2 & El & Es). cbn [fst snd] in *. subst n2. apply reading_inv in Hb as (v & _ & Hb).
    unbind Hb. unbind Hb. destruct v1 as [c3 u]. injection Hb as <-. cbn [fst snd].
    destruct Hown as [|Hown]; [done|]. destruct Ho as [|[Ho1 Ho2]]; [done|]. destruct Hf as [Hf1 _ _ _ _ _].
    rewrite wrap_small in Hv0 by (unfold in_u; lia).
    apply (set_access_inv c0) in Hv0 as (Hg3 & El3 & Es3); [|done|lia]. split_and!; try done; [lia|congruence..].
Qed.

Lemma schema_read_labels c0 f c r c' : schema_read c0 f c -> read_labels c r c' -> schema_read c0 f c'.
Proof.
  intros [] (ls & -> & -> & Hf). split; [by eapply grown_trans, grown_labels|done| |done|done].
  eapply ref_ok_more; [|done]. cbn. rewrite length_app. lia.
Qed.

Lemma schema_field_inv c0 k a b i a' : meaning (schema_field Labels SafeSlots k a) b i = ok a' ->
  schema_read c0 a.1.1 a.1.2 -> schema_read c0 a'.1.1 a'.1.2.
Proof.
  destruct a as [[f c] got]. intros H Hr. cbn [fst snd] in Hr. unfold schema_field in H.
  repeat match type of H with context [if ?k =? ?n then _ else _] => destruct (k =? n) end;
    apply reading_inv in H as (v & Hm & H);
    lazymatch type of Hm with
    | meaning (decodeOptions _ _) _ _ = _ => idtac
    | meaning (decode_option_access _ _) _ _ = _ => idtac
    | meaning p_setting _ _ = _ => idtac
    | _ => repeat unbind H; injection H as <-; by destruct Hr
    end.
  - injection H as <-. by destruct Hr.
  - injection H as <-. destruct v as [r c']. apply options_inv in Hm; [|by destruct Hr]. cbn [fst snd].
    destruct (schema_read_labels _ _ _ _ _ Hr Hm). destruct (read_labels_ref _ _ _ Hm). split; try done. right.
    cbn. pose proof (prefix_length _ _ (ext_labels _ _ (grown_extends _ _ (sr_grown _ _ _ Hr)))). lia.
  - injection H as <-. cbn [fst snd]. pose proof (option_access_inv _ _ _ _ _ _ Hr Hm) as []. by split.
  - unbind H. destruct v0 as [n c']. apply add_safe_inv in Hv as (-> & Hlt & ->). injection H as <-. cbn [fst snd]. destruct Hr as [Hg Hf Ho Hw Hs].
    split; cbn; try done.
    + eapply grown_trans; [exact Hg|]. exists [], [v]. by rewrite more_labels_nil.
    + apply fit_more_safes; [done|cbn; lia].
    + rewrite length_app. pose proof (prefix_length _ _ (ext_safes _ _ (grown_extends _ _ Hg))). cbn. lia.
Qed.

Lemma schema_inv c0 key b i f c : pools_fit c0 ->
  meaning (decodeSchemaField Labels SafeSlots c0 key) b i = ok (f, c) -> schema_read c0 f c.
Proof.
  intros Hf H. unfold decodeSchemaField in H. apply reading_inv in H as ([[f' c'] got] & H & Hp).
  destruct (got_all _ _); [|done]. injection Hp as <- <-.
  apply (fields_inv _ _ _ _ _ (fun a : SchemaLoop => schema_read c0 a.1.1 a.1.2)) in H; [done| |].
  - intros kvs a _ [= <-]. split; [apply grown_refl|done|by left|by left|done].
  - intros k a d j a'. apply schema_field_inv.
Qed.

(** ** Payloads *)

(** What a decoder of an entry's parts leaves behind. *)
Record opened (c0 c : Catalog) : Prop := {
  op_ok : catalog_ok c; op_fit : pools_fit c; op_extends : extends c0 c; op_entries : entries c = entries c0;
  op_mark : userSpaceMark c = userSpaceMark c0 }.

Lemma opened_refl c : catalog_ok c -> pools_fit c -> opened c c.
Proof. intros. by split. Qed.

Lemma extends_trans a b c : extends a b -> extends b c -> extends a c.
Proof. intros [] []. split; by etrans. Qed.

Lemma opened_trans a b c : opened a b -> opened b c -> opened a c.
Proof. intros [] []. split; [done|done|by eapply extends_trans|congruence..]. Qed.

Lemma opened_grown c0 c : catalog_ok c0 -> grown c0 c -> pools_fit c -> opened c0 c.
Proof.
  intros Hc Hg Hf. destruct (grown_same _ _ Hg) as (E1 & _ & _ & _ & E5).
  split; [by eapply grown_ok|done|by apply grown_extends|done|done].
Qed.

Lemma slot_below c : catalog_ok c -> Forall (fun i => (i < length (safePool c))%nat) (safe_slots c).
Proof.
  intros [_ _ Hl Hs _]. unfold safe_slots. apply Forall_app. split.
  - apply Forall_forall. intros i Hi. apply list_elem_of_In, list_elem_of_omap in Hi as (f & Hf & E).
    rewrite Forall_forall in Hl. apply list_elem_of_In in Hf. destruct (Hl f Hf) as (_ & _ & Hok). by rewrite E in Hok.
  - apply Forall_forall. intros i Hi. apply list_elem_of_In, list_elem_of_omap in Hi as (f & Hf & E).
    rewrite Forall_forall in Hs. apply list_elem_of_In in Hf. destruct (Hs f Hf) as (_ & Hok). by rewrite E in Hok.
Qed.

(** A slot given out since [c0] is nobody's. *)
Lemma fresh_slots c0 s (l1 l2 : list nat) : Forall (fun i => (i < c0)%nat) (l1 ++ l2) -> NoDup (l1 ++ l2) ->
  from_option (fun i => (c0 <= i)%nat) True s ->
  NoDup ((l1 ++ from_option (fun i => [i]) [] s) ++ l2) /\ NoDup (l1 ++ l2 ++ from_option (fun i => [i]) [] s).
Proof.
  intros Hb Hn Hs. destruct s as [i|]; cbn in *; [|by rewrite !app_nil_r].
  assert (i ∉ l1 ++ l2) as Hi.
  { intros Hi. rewrite Forall_forall in Hb. apply list_elem_of_In in Hi. specialize (Hb i Hi). lia. }
  assert (l1 ++ l2 ++ [i] ≡ₚ i :: l1 ++ l2) as E by (rewrite app_assoc; by rewrite Permutation_app_comm).
  assert ((l1 ++ [i]) ++ l2 ≡ₚ i :: l1 ++ l2) as -> by (rewrite <- app_assoc; symmetry; apply Permutation_middle).
  rewrite E. split; by constructor.
Qed.

Definition push_layout (f : LayoutField) (c : Catalog) : Catalog := c <| layoutPool ::= fun l => l ++ [f] |>.
Definition push_schema (f : SchemaField) (c : Catalog) : Catalog := c <| schemaPool ::= fun l => l ++ [f] |>.
Definition push_store (d : StoreDescriptor) (c : Catalog) : Catalog := c <| storePool ::= fun l => l ++ [d] |>.

Lemma omap_one {A B} (f : A -> option B) x : omap f [x] = from_option (fun i => [i]) [] (f x).
Proof. cbn. by destruct (f x). Qed.

Lemma catalog_ok_more c c' : catalog_ok c -> extends c c' -> entries c' = entries c -> 
  Forall (entry_ok c') (entries c') /\ StronglySorted before (entries c')
  /\ Forall (layout_ok c') (layoutPool c) /\ Forall (schema_ok c') (schemaPool c).
Proof.
  intros [He Ha Hl Hs _] Hx ->. split_and!; try done.
  - eapply Forall_impl; [|exact He]. intros e. by apply entry_ok_extend.
  - eapply Forall_impl; [|exact Hl]. intros e. by apply layout_ok_extend.
  - eapply Forall_impl; [|exact Hs]. intros e. by apply schema_ok_extend.
Qed.

Lemma push_layout_opened c0 f c u : catalog_ok c0 -> layout_read c0 f c ->
  pushing (poolAddLayoutField LayoutFields f) CapacityExceeded c = ok u -> u.1 = push_layout f c /\ opened c0 (push_layout f c).
Proof.
  intros Hc [Hg Hf Hb Ho Hs]. pose proof (opened_grown _ _ Hc Hg Hf) as [Hc' _ Hx He Hm].
  unfold pushing, poolAddLayoutField, mbind, Author_bind, get_catalog, overflow_if.
  destruct (Nat.leb_spec LayoutFields (length (layoutPool c))); [done|]. intros [= <-]. split; [done|].
  assert (extends c (push_layout f c)) as Hx' by (split; cbn; try done; by apply prefix_app_r).
  destruct (catalog_ok_more c (push_layout f c) Hc' Hx' eq_refl) as (H1 & H2 & H3 & H4). split; try done.
  - split; try done.
    + cbn. apply Forall_app. split; [done|]. constructor; [|done]. split_and!; [done|done|]. destruct (lf_safeSlot f); [cbn in *; lia|done].
    + destruct (grown_same _ _ Hg) as (_ & El & Es & _). pose proof (slot_below _ Hc) as Hbl.
      unfold safe_slots in *. cbn. rewrite omap_app, omap_one, El, Es.
      refine (proj1 (fresh_slots (length (safePool c0)) (lf_safeSlot f) _ _ Hbl _ _)).
      * by destruct Hc.
      * destruct (lf_safeSlot f); [cbn in *; lia|done].
  - destruct Hf. split; cbn; try done. rewrite length_app. cbn. lia.
  - by eapply extends_trans.
Qed.

Lemma push_schema_opened c0 f c u : catalog_ok c0 -> schema_read c0 f c ->
  pushing (poolAddSchemaField SchemaFields f) CapacityExceeded c = ok u -> u.1 = push_schema f c /\ opened c0 (push_schema f c).
Proof.
  intros Hc [Hg Hf Ho _ Hs]. pose proof (opened_grown _ _ Hc Hg Hf) as [Hc' _ Hx He Hm].
  unfold pushing, poolAddSchemaField, mbind, Author_bind, get_catalog, overflow_if.
  destruct (Nat.leb_spec SchemaFields (length (schemaPool c))); [done|]. intros [= <-]. split; [done|].
  assert (extends c (push_schema f c)) as Hx' by (split; cbn; try done; by apply prefix_app_r).
  destruct (catalog_ok_more c (push_schema f c) Hc' Hx' eq_refl) as (H1 & H2 & H3 & H4). split; try done.
  - split; try done.
    + cbn. apply Forall_app. split; [done|]. constructor; [|done]. split; [done|]. destruct (sf_safeSlot f); [cbn in *; lia|done].
    + destruct (grown_same _ _ Hg) as (_ & El & Es & _). pose proof (slot_below _ Hc) as Hbl.
      unfold safe_slots in *. cbn. rewrite omap_app, omap_one, El, Es.
      refine (proj2 (fresh_slots (length (safePool c0)) (sf_safeSlot f) _ _ Hbl _ _)).
      * by destruct Hc.
      * destruct (sf_safeSlot f); [cbn in *; lia|done].
  - destruct Hf. split; cbn; try done. rewrite length_app. cbn. lia.
  - by eapply extends_trans.
Qed.

Lemma push_store_opened d c u : catalog_ok c -> pools_fit c ->
  pushing (poolAddStore Stores d) CapacityExceeded c = ok u -> u.1 = push_store d c /\ opened c (push_store d c).
Proof.
  intros Hc Hf. unfold pushing, poolAddStore, mbind, Author_bind, get_catalog, overflow_if.
  destruct (Nat.leb_spec Stores (length (storePool c))); [done|]. intros [= <-]. split; [done|].
  assert (extends c (push_store d c)) as Hx' by (split; cbn; try done; by apply prefix_app_r).
  destruct (catalog_ok_more c (push_store d c) Hc Hx' eq_refl) as (H1 & H2 & H3 & H4). split; try done.
  - split; try done. by destruct Hc.
  - destruct Hf. split; cbn; try done. rewrite length_app. cbn. lia.
Qed.

Lemma decode_layout_inv c0 b i c n : catalog_ok c0 -> pools_fit c0 ->
  meaning (decode_layout LayoutFields Labels SafeSlots c0) b i = ok (c, n) ->
  opened c0 c /\ length (layoutPool c) = (length (layoutPool c0) + Z.to_nat n)%nat /\ (Z.to_nat n <= kMaxFields)%nat.
Proof.
  intros Hc Hf H. unfold decode_layout in H.
  apply (elements_inv _ _ _ _ _ (fun l m a => opened c0 a.1 /\ length (layoutPool a.1) = (length (layoutPool c0) + m)%nat
    /\ a.2 = len l /\ (length l <= kMaxFields)%nat)) in H.
  - destruct H as (l & -> & Ho & El & En & Hn). cbn [fst snd] in *. subst n. unfold len. by rewrite Nat2Z.id.
  - intros l a Hi. unfold some_fields in Hi. destruct (_ || _) eqn:G; [done|]. injection Hi as <-.
    apply orb_false_iff in G as [_ G%Z.ltb_ge]. unfold len in G. pose proof (opened_refl c0 Hc Hf). split_and!; try done; cbn; lia.
  - intros l m [c1 n1] d j a' _ Hm (Ho & El & En & Hn). cbn [fst snd] in *. apply reading_inv in Hm as ([f c2] & Hm & Hb).
    cbn [fst snd] in Hb. unbind Hb. destruct v as [c3 u]. injection Hb as <-. cbn [fst snd].
    destruct Ho as [Hc1 Hf1 Hx1 He1 Hm1]. apply layout_inv in Hm; [|done]. pose proof (grown_same _ _ (lr_grown _ _ _ Hm)) as (_ & E2 & _).
    destruct (push_layout_opened _ _ _ _ Hc1 Hm Hv) as [E Ho]. cbn in E. subst c3. split_and!; try done.
    + eapply opened_trans; [|exact Ho]. by split.
    + cbn. rewrite length_app, E2, El. cbn. lia.
Qed.

Lemma decode_schema_inv c0 b i c n : catalog_ok c0 -> pools_fit c0 ->
  meaning (decode_schema SchemaFields Labels SafeSlots c0) b i = ok (c, n) ->
  opened c0 c /\ length (schemaPool c) = (length (schemaPool c0) + Z.to_nat n)%nat /\ (Z.to_nat n <= kMaxFields)%nat.
Proof.
  intros Hc Hf H. unfold decode_schema in H.
  apply (fields_count_inv _ _ _ _ _ (fun l m a => opened c0 a.1 /\ length (schemaPool a.1) = (length (schemaPool c0) + m)%nat
    /\ a.2 = Z.of_nat l /\ (l <= kMaxFields)%nat)) in H.
  - destruct H as (l & Ho & El & En & Hn). cbn [fst snd] in *. subst n. by rewrite Nat2Z.id.
  - intros l a Hi. unfold some_fields in Hi. destruct (_ || _) eqn:G; [done|]. injection Hi as <-.
    apply orb_false_iff in G as [_ G%Z.ltb_ge]. pose proof (opened_refl c0 Hc Hf). split_and!; try done; cbn; lia.
  - intros l m k [c1 n1] d j a' Hm (Ho & El & En & Hn). cbn [fst snd] in *. destruct (255 <? k); [done|].
    apply reading_inv in Hm as ([f c2] & Hm & Hb).
    cbn [fst snd] in Hb. unbind Hb. destruct v as [c3 u]. injection Hb as <-. cbn [fst snd].
    destruct Ho as [Hc1 Hf1 Hx1 He1 Hm1]. apply schema_inv in Hm; [|done]. pose proof (grown_same _ _ (sr_grown _ _ _ Hm)) as (_ & _ & E2 & _).
    destruct (push_schema_opened _ _ _ _ Hc1 Hm Hv) as [E Ho]. cbn in E. subst c3. split_and!; try done.
    + eapply opened_trans; [|exact Ho]. by split.
    + cbn. rewrite length_app, E2, El. cbn. lia.
Qed.

(** ** Entries *)

(** The slice of the payload key [k], when it was seen. *)
Definition slice_read (c0 : Catalog) (e : CatalogEntry) (c : Catalog) (f : FieldForm) : Prop :=
  ce_fieldOffset e = pool_length c0 f /\ (ce_fieldOffset e + ce_fieldCount e <= pool_length c f)%nat
  /\ (ce_fieldCount e <= kMaxFields)%nat.

Record entry_read (c0 : Catalog) (a : EntryLoop) : Prop := {
  er_opened : opened c0 a.1.2; er_kinds : ref_ok (length (labelPool a.1.2)) (ce_eventKinds a.1.1);
  er_layout : seen a.2 8 = true -> slice_read c0 a.1.1 a.1.2 Layout /\ seen a.2 9 = false /\ seen a.2 12 = false;
  er_schema : seen a.2 9 = true -> slice_read c0 a.1.1 a.1.2 Schema /\ seen a.2 8 = false /\ seen a.2 12 = false;
  er_store : seen a.2 12 = true -> slice_read c0 a.1.1 a.1.2 Store /\ seen a.2 8 = false /\ seen a.2 9 = false }.

Lemma opened_pool c0 c f : opened c0 c -> (pool_length c0 f <= pool_length c f)%nat.
Proof. intros [_ _ [] _ _]. destruct f; cbn; by apply prefix_length. Qed.

(** A field that neither touches the catalog nor the entry's slice. *)
Lemma entry_read_same c0 e e' c got :
  ce_eventKinds e' = ce_eventKinds e -> ce_fieldOffset e' = ce_fieldOffset e -> ce_fieldCount e' = ce_fieldCount e ->
  entry_read c0 (e, c, got) -> entry_read c0 (e', c, got).
Proof.
  intros E1 E2 E3 [Ho Hr H8 H9 H12]. cbn [fst snd] in *. split; cbn [fst snd]; unfold slice_read in *; by rewrite ?E1, ?E2, ?E3.
Qed.

Lemma entry_read_noted c0 e c got k : (k =? 8) || (k =? 9) || (k =? 12) = false ->
  entry_read c0 (e, c, got) -> entry_read c0 (e, c, k :: got).
Proof.
  rewrite !orb_false_iff. intros [[K8 K9] K12] [Ho Hr H8 H9 H12]. cbn [fst snd] in *.
  assert (seen (k :: got) 8 = seen got 8 /\ seen (k :: got) 9 = seen got 9 /\ seen (k :: got) 12 = seen got 12) as (S8 & S9 & S12).
  { unfold seen. cbn [existsb]. by rewrite (Z.eqb_sym 8), (Z.eqb_sym 9), (Z.eqb_sym 12), K8, K9, K12. }
  split; cbn [fst snd]; by rewrite ?S8, ?S9, ?S12.
Qed.

Lemma slice_read_more c0 e c c' f : opened c c' -> slice_read c0 e c f -> slice_read c0 e c' f.
Proof. intros Ho (H1 & H2 & H3). pose proof (opened_pool _ _ f Ho). split_and!; [done|lia|done]. Qed.

Lemma entry_field_inv c0 k a b i a' : catalog_ok c0 ->
  meaning (entry_field LayoutFields SchemaFields Labels Stores SafeSlots (length (layoutPool c0)) (length (schemaPool c0)) (length (storePool c0)) k a) b i = ok a' ->
  entry_read c0 a -> entry_read c0 a'.
Proof.
  intros Hc0. destruct a as [[e c] got]. intros H Hr. unfold entry_field in H.
  pose proof Hr as [[Hc Hf Hx He Hmk] Hk H8 H9 H12]. cbn [fst snd] in *.
  repeat match type of H with context [if ?k =? ?n then _ else _] => destruct (Z.eqb_spec k n) as [->|?] end;
    try (apply reading_inv in H as (v & Hm & H); lazymatch type of Hm with meaning (decode_kinds _ _) _ _ = _ => fail | _ => idtac end;
         repeat unbind H; injection H as <-;
         first [ by apply (entry_read_same c0 e) | by apply entry_read_noted, (entry_read_same c0 e) ]).
  - destruct (seen got 9) eqn:S9; [done|]. destruct (seen got 12) eqn:S12; [done|]. apply reading_inv in H as ([c' sz] & Hm & [= <-]).
    apply decode_layout_inv in Hm as (Ho & El & Hn); [|done|done]. cbn [fst snd].
    pose proof (prefix_length _ _ (ext_layouts _ _ Hx)). split; cbn [fst snd].
    + eapply opened_trans; [|exact Ho]. by split.
    + eapply ref_ok_more; [|exact Hk]. by apply prefix_length, (ext_labels _ _ (op_extends _ _ Ho)).
    + intros _. split_and!; [|done|done]. unfold slice_read. cbn. lia.
    + change (seen (8 :: got) 9) with (seen got 9). by rewrite S9.
    + change (seen (8 :: got) 12) with (seen got 12). by rewrite S12.
  - destruct (seen got 8) eqn:S8; [done|]. destruct (seen got 12) eqn:S12; [done|]. apply reading_inv in H as ([c' sz] & Hm & [= <-]).
    apply decode_schema_inv in Hm as (Ho & El & Hn); [|done|done]. cbn [fst snd].
    pose proof (prefix_length _ _ (ext_schemas _ _ Hx)). split; cbn [fst snd].
    + eapply opened_trans; [|exact Ho]. by split.
    + eapply ref_ok_more; [|exact Hk]. by apply prefix_length, (ext_labels _ _ (op_extends _ _ Ho)).
    + change (seen (9 :: got) 8) with (seen got 8). by rewrite S8.
    + intros _. split_and!; [|done|done]. unfold slice_read. cbn. lia.
    + change (seen (9 :: got) 12) with (seen got 12). by rewrite S12.
  - destruct (seen got 8) eqn:S8; [done|]. destruct (seen got 9) eqn:S9; [done|]. apply reading_inv in H as (d & _ & H).
    unbind H. destruct v as [c' u]. injection H as <-. apply push_store_opened in Hv as [E Ho]; [|done|done]. cbn in E. subst c'.
    pose proof (prefix_length _ _ (ext_stores _ _ Hx)). split; cbn [fst snd].
    + eapply opened_trans; [|exact Ho]. by split.
    + exact Hk.
    + change (seen (12 :: got) 8) with (seen got 8). by rewrite S8.
    + change (seen (12 :: got) 9) with (seen got 9). by rewrite S9.
    + intros _. split_and!; [|done|done]. unfold slice_read, kMaxFields. cbn. rewrite length_app. cbn. lia.
  - apply reading_inv in H as ([r c'] & Hm & [= <-]). apply sparse_inv in Hm; [|done]. cbn [fst snd].
    destruct (read_labels_ref _ _ _ Hm) as [Hr' _]. destruct Hm as (ls & -> & _ & Hf').
    pose proof (opened_grown _ _ Hc (grown_labels ls c) Hf') as Ho. split; cbn [fst snd].
    + eapply opened_trans; [|exact Ho]. by split.
    + done.
    + intros S. destruct (H8 S) as (H1 & H2). split; [by apply (slice_read_more _ _ c)|done].
    + intros S. destruct (H9 S) as (H1 & H2). split; [by apply (slice_read_more _ _ c)|done].
    + intros S. destruct (H12 S) as (H1 & H2). split; [by apply (slice_read_more _ _ c)|done].
Qed.

(** A decoded entry fits behind all the others. *)
Lemma entry_inv c0 b i e c : catalog_ok c0 -> pools_fit c0 ->
  meaning (decodeEntry LayoutFields SchemaFields Labels Stores SafeSlots c0) b i = ok (e, c) ->
  opened c0 c /\ entry_ok c e /\ ce_fieldOffset e = pool_length c0 (form e).
Proof.
  intros Hc Hf H. unfold decodeEntry in H. apply reading_inv in H as ([[e' c'] got] & H & Hp). cbn [fst snd] in Hp.
  destruct (got_all _ _ && payload_matches e' got) eqn:G; [|done]. injection Hp as <- <-.
  apply andb_prop in G as [_ [_ Hs]%andb_prop].
  apply (fields_inv _ _ _ _ _ (entry_read c0)) in H as [Ho Hk H8 H9 H12]; cbn [fst snd] in *.
  - split_and!; [done| |].
    + unfold entry_ok. destruct (form e') eqn:F.
      * destruct (H8 Hs) as ((_ & ? & ?) & _). done.
      * destruct (H9 Hs) as ((_ & ? & ?) & _). done.
      * destruct (H12 Hs) as ((_ & ? & ?) & _). done.
    + destruct (form e') eqn:F.
      * by destruct (H8 Hs) as ((? & _) & _).
      * by destruct (H9 Hs) as ((? & _) & _).
      * by destruct (H12 Hs) as ((? & _) & _).
  - intros kvs a _ [= <-]. split; cbn [fst snd]; [by apply opened_refl|by left|done..].
  - intros k a d j a'. by apply entry_field_inv.
Qed.

Definition put_verbatim (e : CatalogEntry) (c : Catalog) : Catalog := c <| entries ::= fun l => l ++ [e] |>.

Lemma put_verbatim_ok c0 c e : catalog_ok c0 -> opened c0 c -> entry_ok c e -> ce_fieldOffset e = pool_length c0 (form e) ->
  catalog_ok (put_verbatim e c).
Proof.
  intros Hc0 Ho He Eo. destruct Ho as [Hc Hf Hx Ee _]. pose proof Hc as [H1 H2 H3 H4 H5].
  assert (extends c (put_verbatim e c)) as Hx' by by split.
  assert (forall k, pool_length (put_verbatim e c) k = pool_length c k) as Hpl by by intros [].
  split; try done.
  - cbn. apply Forall_app. split; [done|]. constructor; [done|constructor].
  - cbn. apply StronglySorted_app. split_and!; [|done|repeat constructor].
    intros e0 e1 H0 [->|[]%elem_of_nil]%elem_of_cons. unfold before. intros F. rewrite Eo, <- F.
    destruct Hc0 as [Hen _ _ _ _]. rewrite <- Ee in Hen. rewrite Forall_forall in Hen. apply list_elem_of_In in H0. by destruct (Hen e0 H0).
Qed.

Lemma ids_ascend_snoc es e :
  ids_ascend es = true -> (forall e0, es !! (length es - 1)%nat = Some e0 -> ce_id e0 < ce_id e) -> ids_ascend (es ++ [e]) = true.
Proof.
  induction es as [|e0 es IH]; intros Ha Hl; [done|]. destruct es as [|e1 es].
  - cbn. by rewrite (proj2 (Z.ltb_lt _ _) (Hl e0 eq_refl)).
  - change (ids_ascend ((e0 :: e1 :: es) ++ [e])) with ((ce_id e0 <? ce_id e1) && ids_ascend ((e1 :: es) ++ [e])).
    apply andb_prop in Ha as [-> Ha]. apply IH; [done|]. intros e2 H. apply Hl. cbn in *. by rewrite Nat.sub_0_r in *.
Qed.

Lemma decode_entries_inv inp n : forall pos prev c0 c,
  catalog_ok c0 -> pools_fit c0 -> ids_ascend (entries c0) = true -> prev = option_map ce_id (last_entry c0) ->
  decode_entries Entries LayoutFields SchemaFields Labels Stores SafeSlots n inp pos prev c0 = ok c ->
  catalog_ok c /\ pools_fit c /\ ids_ascend (entries c) = true.
Proof.
  induction n as [|n IH]; intros pos prev c0 c Hc Hf Ha Hp H; cbn [decode_entries] in H; [by injection H as <-|].
  destruct (_ <? _)%nat; [done|]. unbind H. destruct v as [[e c1] r].
  apply (reads_sound _ _ (run_reads _) _ _ _ (ready_on _)) in Hv as (i & rest & _ & _ & _ & Hm).
  apply entry_inv in Hm as (Ho & He & Eo); [|done|done]. destruct (from_option _ _ _) eqn:G; [done|]. unbind H. destruct v as [c2 u].
  unfold pushing, addEntryVerbatim, mbind, Author_bind, get_catalog, overflow_if in Hv.
  destruct (Nat.leb_spec Entries (length (entries c1))); [done|]. injection Hv as <- _.
  apply IH in H; [done|by apply (put_verbatim_ok c0)| | |].
  - destruct Ho as [_ [] _ _ _]. split; cbn; try done. rewrite length_app. cbn. lia.
  - cbn. rewrite (op_entries _ _ Ho). apply ids_ascend_snoc; [done|]. intros e0 E. subst prev. unfold last_entry in G. rewrite E in G.
    cbn in G. by apply Z.leb_gt in G.
  - unfold last_entry. cbn. by rewrite length_app, Nat.add_sub, list_lookup_middle.
Qed.

(** The decoder's result is a good catalog. *)
Lemma decodeCatalog_inv inp c0 c : decodeCatalog Entries LayoutFields SchemaFields Labels Stores SafeSlots inp c0 = ok c ->
  catalog_ok c /\ pools_fit c /\ ids_ascend (entries c) = true.
Proof.
  unfold decodeCatalog. intros H. unbind H. destruct v as [n r]. destruct (_ <? n); [done|].
  apply decode_entries_inv in H; [done|apply catalog_new_ok| |done|done]. split; cbn; lia.
Qed.
End Typed.
