(* ===== verification/CatalogDecode.v ===== *)
(** * CatalogDecode: the decoder reads back what the encoder wrote

    Each nested decoder applied to the item the encoder writes ([CatalogWire]), with the pools it leaves;
    then the entries of a catalog one after the other. *)

From stdpp Require Import sorting.
From S2P Require Import Prelude Registry ByteIO CborItem CborReader CborWriter CborMessage Sha256 MsgHello Safety.
From S2P Require Import Shedding Catalog CatalogCodec CatalogWire CatalogTyped.
#[local] Open Scope Z_scope.

(** ** Loops over the pairs of an item *)

Lemma fold_then {A} (sem : Z -> A -> Item -> decoded A) l l' a a' r :
  fold_fields sem l a = ok a' -> fold_fields sem l' a' = r -> fold_fields sem (l ++ l') a = r.
Proof. intros H <-. by rewrite fold_fields_app, H. Qed.

(** A loop that only works on a part of its state. *)
Lemma fold_part {A B} (sem : Z -> A -> Item -> decoded A) (part : Z -> B -> Item -> decoded B) (put : B -> A) kvs b b' :
  (forall k i b, In k (map fst kvs) -> sem k (put b) i = (let? b := part k b i in ok (put b))) ->
  fold_fields part kvs b = ok b' -> fold_fields sem kvs (put b) = ok (put b').
Proof.
  revert b. induction kvs as [|[k i] kvs IH]; intros b H E; cbn [fold_fields] in *; [by injection E as ->|].
  rewrite H by by left. apply result_bind_ok in E as (b1 & -> & E). cbn [result_bind]. apply IH; [|done].
  intros k' i' b2 Hin. apply H. by right.
Qed.

Lemma text_is_ok n s : text_ok n s -> text n s = ok s.
Proof. intros [H1 H2]. unfold text. by rewrite H1, (proj2 (Nat.ltb_ge _ _)). Qed.

Lemma text_filled n s : filled s = true -> optional_text_ok n s -> text n s = ok s.
Proof. intros H1 H2. by apply text_is_ok. Qed.

Lemma short_is_ok n s : optional_text_ok n s -> short n s = ok s.
Proof. intros H. unfold short. by rewrite (proj2 (Nat.ltb_ge _ _)). Qed.

Lemma at_most_byte v : in_u 8 v -> at_most 255 v = ok v.
Proof. intros H. apply at_most_ok. unfold in_u in H. lia. Qed.
Lemma at_most_word v : in_u 16 v -> at_most 65535 v = ok v.
Proof. intros H. apply at_most_ok. unfold in_u in H. lia. Qed.
Lemma at_most_long v : in_u 32 v -> at_most 4294967295 v = ok v.
Proof. intros H. apply at_most_ok. unfold in_u in H. lia. Qed.

Lemma packed_inverse t : packed_type (packed_code t) = t.
Proof. by destruct t. Qed.
Lemma packed_fits t : at_most (packed_code str64) (packed_code t) = ok (packed_code t).
Proof. by destruct t. Qed.
Lemma cbor_fits t : at_most 5 (cbor_code t) = ok (cbor_code t).
Proof. by destruct t. Qed.
Lemma cbor_inverse t : cbor_type (cbor_code t) = t.
Proof. by destruct t. Qed.
Lemma direction_inverse d : direction_of (direction_code d) = d.
Proof. by destruct d. Qed.

Lemma setting_decodes b d : setting_ok d -> sd_has d = true -> sem_setting b (setting_item d) = ok d.
Proof.
  destruct d as [|i|v|v|s]; try done. intros H _. cbn in H.
  assert (int32_setting i = ok (DInt i)) as E.
  { unfold int32_setting. by rewrite (proj2 (Z.ltb_ge _ _)), (proj2 (Z.ltb_ge _ _)) by lia. }
  assert (forall z, 0 <= z < 2147483649 -> i64 z = z) as Hi.
  { intros z Hz. apply swrap_small; lia. }
  cbn [setting_item]. destruct (Z.leb_spec 0 i); cbn [sem_setting sem_int result_bind]; rewrite Hi by lia; [done|].
  replace (-1 - (-1 - i)) with i by lia. done.
Qed.

(** Evaluating a decoder's dispatch at one key, with the checks of the value. *)
Ltac at_key tac :=
  cbn -[text short at_most packed_code packed_type cbor_type cbor_code direction_of Z.pow sem_setting setting_item named_item
        pushing poolAddLabel poolAddSafe];
  repeat first
    [ progress (rewrite text_is_ok by assumption) | progress (rewrite text_filled by assumption)
    | progress (rewrite short_is_ok by assumption)
    | progress (rewrite at_most_byte by assumption) | progress (rewrite at_most_word by assumption)
    | progress (rewrite at_most_long by assumption)
    | progress (rewrite at_most_ok by (unfold in_u in *; lia))
    | progress (rewrite setting_decodes by assumption) | progress tac
    | progress cbn [result_bind] ];
  reflexivity.

Ltac use_some :=
  repeat match goal with
  | H : opt_in _ ?o, E : ?o = Some _ |- _ => rewrite E in H; cbn [opt_in] in H
  end.

(** *** Annotations *)

(** The annotations of keys 11 to 15 alone. *)
Definition front (fl : Flair) : Flair :=
  mkFlair (fl_group fl) (fl_desc fl) (fl_role fl) (fl_step fl) (fl_flags fl) None None None None None.

Definition annotation_sem (b : nat) (k : Z) (fl : Flair) : Item -> decoded Flair := meaning (annotation k fl) b.

Ltac if_text :=
  let E := fresh in
  apply fold_if_fld; intros E; [at_key fail|];
  match type of E with filled ?s = false => destruct s; done | nonzero ?v = false => by rewrite (nonzero_false _ E) end.

Lemma annotations_decode b fl : flair_ok fl -> fold_fields (annotation_sem b) (annotation_pairs fl) Flair_new = ok (front fl).
Proof.
  destruct fl as [g d r s f rk a sc p u]. intros []. cbn [fl_group fl_desc fl_role fl_step fl_flags] in *. unfold annotation_pairs, annotation_sem.
  cbn [fl_group fl_desc fl_role fl_step fl_flags].
  apply fold_then with (mkFlair g [] [] None 0 None None None None None); [if_text|].
  apply fold_then with (mkFlair g d [] None 0 None None None None None); [if_text|].
  apply fold_then with (mkFlair g d r None 0 None None None None None); [if_text|].
  apply fold_then with (mkFlair g d r s 0 None None None None None).
  { by apply (fold_opt_fld _ _ _ _ _ (fun s => mkFlair g d r s 0 None None None None None)). }
  if_text.
Qed.

Lemma rendering_decodes b fl : flair_ok fl -> fold_fields (annotation_sem b) (rendering_pairs fl) (front fl) = ok fl.
Proof.
  destruct fl as [g d r s f rk a sc p u]. intros []. unfold rendering_pairs, annotation_sem.
  cbn [fl_rank fl_aspect fl_scope fl_provenance fl_unitId front] in *.
  apply fold_then with (mkFlair g d r s f rk None None None None).
  { apply (fold_opt_fld _ _ _ _ _ (fun v => mkFlair g d r s f v None None None None)); [done|]. intros v Hv. use_some. at_key fail. }
  apply fold_then with (mkFlair g d r s f rk a None None None).
  { apply (fold_opt_fld _ _ _ _ _ (fun v => mkFlair g d r s f rk v None None None)); [done|]. intros v Hv. use_some. at_key fail. }
  apply fold_then with (mkFlair g d r s f rk a sc None None).
  { apply (fold_opt_fld _ _ _ _ _ (fun v => mkFlair g d r s f rk a v None None)); [done|]. intros v Hv. use_some. at_key fail. }
  apply fold_then with (mkFlair g d r s f rk a sc p None).
  { apply (fold_opt_fld _ _ _ _ _ (fun v => mkFlair g d r s f rk a sc v None)); [done|]. intros v Hv. use_some. at_key fail. }
  apply (fold_opt_fld _ _ _ _ _ (fun v => mkFlair g d r s f rk a sc p v)); [done|]. intros v Hv. use_some. at_key fail.
Qed.

(** ** Labels *)

Section Decode.
Context (Entries LayoutFields SchemaFields Labels Stores SafeSlots : nat).

Definition used_labels (c : Catalog) : nat := length (labelPool c).

Lemma used_more_labels l c : used_labels (more_labels l c) = (used_labels c + length l)%nat.
Proof. unfold used_labels. cbn. by rewrite length_app. Qed.

Lemma add_label_ok s c : (used_labels c < Labels)%nat -> add_label Labels s c = ok (more_labels [watched s] c).
Proof.
  intros H. unfold add_label, pushing, poolAddLabel, mbind, Author_bind, get_catalog, overflow_if.
  by rewrite (proj2 (Nat.leb_gt _ _)).
Qed.

Lemma back_fill_ok n : forall c, (used_labels c + n <= Labels)%nat ->
  back_fill Labels n c = ok (more_labels (replicate n (watched [])) c).
Proof.
  induction n as [|n IH]; intros c H; cbn [back_fill replicate]; [by rewrite more_labels_nil|].
  rewrite add_label_ok by lia. cbn [result_bind]. rewrite IH by (rewrite used_more_labels; cbn; lia).
  by rewrite more_labels_app.
Qed.

(** The sparse maps: what has been read of them so far. *)
Lemma sparse_decodes over b l : forall k n c,
  (n <= k)%nat -> Forall (optional_text_ok 24) l -> (forall j, (j < k + length l)%nat -> over (Z.of_nat j) = None) ->
  (filled (trim_holes l) = true -> (used_labels c + (k - n) + length (trim_holes l) <= Labels)%nat) ->
  fold_fields (fun k a => meaning (sparse_field Labels over k a) b)
    (concat (map (fun ks => if_fld ks.1 (filled ks.2) (ITstr ks.2)) (indexed_at k l))) (c, n)
  = ok match trim_holes l with
       | [] => (c, n)
       | t => (more_labels (replicate (k - n) (watched []) ++ map watched t) c, (k + length t)%nat)
       end.
Proof.
  induction l as [|s l IH]; intros k n c Hn Hl Hover Hcap; [done|]. apply Forall_cons_1 in Hl as [Hs Hl].
  rewrite indexed_cons. cbn [map concat fst snd]. assert (forall j, (j < S k + length l)%nat -> over (Z.of_nat j) = None) as Hover'.
  { intros j Hj. apply Hover. cbn. lia. }
  cbn [trim_holes] in Hcap |- *. destruct s as [|x s]; cbn [filled if_fld app].
  - destruct (trim_holes l) as [|y t] eqn:Et.
    + by rewrite IH by (done || lia).
    + specialize (Hcap eq_refl). cbn [length] in Hcap. rewrite IH; [|lia|done|done|cbn; lia]. rewrite Nat.sub_succ_l by lia.
      cbn [length map]. do 2 f_equal; [|lia]. f_equal. rewrite replicate_S_end, <- app_assoc. done.
  - specialize (Hcap eq_refl). cbn [fold_fields]. unfold sparse_field at 1. rewrite Hover by (cbn; lia). cbn [meaning reading p_tstr result_bind sem_tstr].
    rewrite text_filled by done. cbn [result_bind]. rewrite Nat2Z.id.
    rewrite back_fill_ok by (cbn in Hcap; lia). cbn [result_bind].
    rewrite add_label_ok by (rewrite used_more_labels, length_replicate; cbn in Hcap; lia). cbn [result_bind].
    rewrite more_labels_app, Nat.max_l by lia. rewrite IH; [|lia|done|done|].
    + destruct (trim_holes l) as [|y t]; cbn [length map]; [do 2 f_equal; lia|].
      rewrite more_labels_app, Nat.sub_diag. do 2 f_equal; [|lia]. f_equal. cbn [replicate app]. by rewrite <- app_assoc.
    + rewrite used_more_labels, length_app, length_replicate. cbn in *. lia.
Qed.

Lemma named_trim l : 0 <? named_count l = filled (trim_holes l).
Proof.
  unfold named_count. induction l as [|s l IH]; [done|]. cbn. destruct s as [|x s]; cbn [filled].
  - destruct (trim_holes l); [done|]. by rewrite IH.
  - rewrite len_cons. apply Z.ltb_lt. pose proof (len_nonneg (List.filter filled l)). lia.
Qed.

(** A label reference to what is pushed next. *)
Definition ref_at (c : Catalog) (l : list (list byte)) : LabelRef :=
  match l with [] => LabelRef_new | _ => mkLabelRef (label_mark c) (length l) end.

Lemma trim_length l : (length (trim_holes l) <= length l)%nat.
Proof. induction l as [|[|x s] l IH]; [done| |cbn; lia]. cbn. destruct (trim_holes l); cbn in *; lia. Qed.

Lemma named_pairs_len l : len (concat (map (fun ks : Z * list byte => if_fld ks.1 (filled ks.2) (ITstr ks.2)) (indexed l))) = named_count l.
Proof.
  rewrite <- (named_sum l 0). change (indexed l) with (indexed_at 0 l). generalize 0%nat. induction l as [|s l IH]; intros k; [done|].
  rewrite indexed_cons. cbn [map concat foldr]. rewrite len_app, IH. cbn. by destruct (filled s).
Qed.

Lemma sparse_item_decodes init over b l c :
  filled (trim_holes l) = true -> Forall (optional_text_ok 24) l -> init (named_count l) = ok tt ->
  (forall j, (j < length l)%nat -> over (Z.of_nat j) = None) -> (used_labels c + length (trim_holes l) <= Labels)%nat ->
  meaning (sparse Labels init over c) (S b) (named_item l)
  = ok (ref_at c (trim_holes l), more_labels (map watched (trim_holes l)) c).
Proof.
  intros Ht Hl Hinit Hover Hcap. unfold sparse, named_item. cbn [meaning reading]. rewrite meaning_fields, named_pairs_len, Hinit.
  cbn [result_bind]. change (indexed l) with (indexed_at 0 l). rewrite sparse_decodes; [|lia|done|done|intros _; lia]. cbn [result_bind].
  by destruct (trim_holes l).
Qed.

Lemma bits_decode b l c : filled (trim_holes l) = true -> labels_ok 8 l -> (used_labels c + length (trim_holes l) <= Labels)%nat ->
  meaning (decode_bits Labels c) (S b) (named_item l) = ok (ref_at c (trim_holes l), more_labels (map watched (trim_holes l)) c).
Proof.
  intros Ht [Hn Hl] Hcap. pose proof (named_trim l) as Hc. rewrite Ht in Hc. apply Z.ltb_lt in Hc. pose proof (named_le l).
  apply sparse_item_decodes; [done|done| | |done].
  - unfold len in *. rewrite (proj2 (Z.eqb_neq _ _)), (proj2 (Z.ltb_ge _ _)) by lia. done.
  - intros j Hj. by rewrite (proj2 (Z.leb_gt _ _)) by lia.
Qed.

Lemma kinds_decode b l c : filled (trim_holes l) = true -> labels_ok kMaxCount l -> (used_labels c + length (trim_holes l) <= Labels)%nat ->
  meaning (decode_kinds Labels c) (S b) (named_item l) = ok (ref_at c (trim_holes l), more_labels (map watched (trim_holes l)) c).
Proof.
  intros Ht [Hn Hl] Hcap. pose proof (named_trim l) as Hc. rewrite Ht in Hc. apply Z.ltb_lt in Hc.
  apply sparse_item_decodes; [done|done| | |done].
  - by rewrite (proj2 (Z.eqb_neq _ _)) by lia.
  - intros j Hj. by rewrite (proj2 (Z.leb_gt _ _)) by lia.
Qed.

Lemma options_loop b l n : forall c, Forall (text_ok option_label_max_bytes) l -> (used_labels c + length l <= Labels)%nat ->
  fold_items (fun a : Catalog * Z => meaning (reading p_tstr (fun v =>
      let? s := text option_label_max_bytes v in let? c := add_label Labels s a.1 in ok (c, a.2))) b) (map ITstr l) (c, n)
  = ok (more_labels (map watched l) c, n).
Proof.
  induction l as [|s l IH]; intros c Hl Hcap; cbn [map fold_items]; [by rewrite more_labels_nil|].
  apply Forall_cons_1 in Hl as [Hs Hl]. cbn [length] in Hcap. cbn [meaning reading p_tstr sem_tstr result_bind].
  rewrite text_is_ok by done. cbn [result_bind fst snd]. rewrite add_label_ok by lia. cbn [result_bind].
  rewrite IH; [|done|rewrite used_more_labels; cbn; lia]. by rewrite more_labels_app.
Qed.

Lemma options_decode b l c : filled l = true -> options_ok l -> (used_labels c + length l <= Labels)%nat ->
  meaning (decodeOptions Labels c) (S b) (IArr (map ITstr l)) = ok (ref_at c l, more_labels (map watched l) c).
Proof.
  intros Hf [Hn Hl] Hcap. unfold decodeOptions. cbn [meaning reading]. rewrite meaning_elements.
  assert (len (map ITstr l) = len l) as -> by (unfold len; by rewrite length_map).
  assert (1 <= len l <= Z.of_nat kMaxCount) as Hlen by (destruct l; [done|]; unfold len in *; cbn [length] in *; lia).
  rewrite (proj2 (Z.eqb_neq _ _)), (proj2 (Z.ltb_ge _ _)) by lia. cbn [orb result_bind].
  rewrite options_loop by done. cbn [result_bind fst snd]. unfold len, ref_at. rewrite Nat2Z.id. by destruct l.
Qed.

(** ** Fields *)

Definition more_safe (v : SettingDefault) (c : Catalog) : Catalog :=
  if sd_has v then c <| safePool ::= fun l => l ++ [v] |> else c.
Definition slot_at (c : Catalog) (v : SettingDefault) : SafeSlot := if sd_has v then Some (length (safePool c)) else None.
Definition safe_need (v : SettingDefault) : nat := if sd_has v then 1 else 0.

Lemma add_safe_ok v c : sd_has v = true -> (length (safePool c) + safe_need v <= SafeSlots)%nat ->
  add_safe SafeSlots v c = ok (length (safePool c), more_safe v c).
Proof.
  unfold safe_need, more_safe. intros -> H. unfold add_safe, pushing, poolAddSafe, mbind, Author_bind, get_catalog, overflow_if.
  by rewrite (proj2 (Nat.leb_gt _ _)) by lia.
Qed.

Definition layout_need (x : ShownLayout) : nat := (length (trim_holes x.1.1.2) + length x.1.2)%nat.

Definition after_layout (x : ShownLayout) (c : Catalog) : Catalog :=
  more_safe x.2 (more_labels (map watched x.1.2) (more_labels (map watched (trim_holes x.1.1.2)) c)).

Definition placed_layout (x : ShownLayout) (c : Catalog) : LayoutField :=
  x.1.1.1 <| lf_bits := ref_at c (trim_holes x.1.1.2) |>
    <| lf_options := ref_at (more_labels (map watched (trim_holes x.1.1.2)) c) x.1.2 |>
    <| lf_safeSlot := slot_at c x.2 |>.

Definition layout_sem (b : nat) (k : Z) (a : LayoutLoop) : Item -> decoded LayoutLoop := meaning (layout_field Labels SafeSlots k a) b.

Ltac opt_value := let v := fresh "v" in let Hv := fresh "Hv" in intros v Hv; use_some; at_key fail.
Ltac if_value := let E := fresh in apply fold_if_fld; intros E; [|done].

Lemma annotation_key_layout b k f c got fl i : In k [11; 12; 13; 14; 15; 19; 20; 21; 22; 23] ->
  layout_sem b k (f <| lf_flair := fl |>, c, got) i
  = (let? fl' := annotation_sem b k fl i in ok (f <| lf_flair := fl' |>, c, got)).
Proof.
  destruct f. intros H. cbn in H. unfold layout_sem, annotation_sem.
  repeat destruct H as [<-|H]; try done; reflexivity.
Qed.

Lemma keys_in (kvs : list (Z * Item)) ks k : sublist (map fst kvs) ks -> In k (map fst kvs) -> In k ks.
Proof.
  intros H. induction H as [|x l l' _ IH|x l l' _ IH]; [done| |]; cbn; [intros [->|Hin]; [by left|right; auto]|intros; right; auto].
Qed.

Definition annotation_keys : list Z := [11; 12; 13; 14; 15; 19; 20; 21; 22; 23].

Lemma annotation_pairs_keys fl k : In k (map fst (annotation_pairs fl)) -> In k annotation_keys.
Proof.
  intros H. apply (keys_in _ [11; 12; 13; 14; 15]) in H; [cbn in *; tauto|]. unfold annotation_pairs.
  repeat first [apply (keys_app _ _ [_]) | apply keys_opt_fld | apply keys_if_fld].
Qed.

Lemma rendering_pairs_keys fl k : In k (map fst (rendering_pairs fl)) -> In k annotation_keys.
Proof.
  intros H. apply (keys_in _ [19; 20; 21; 22; 23]) in H; [cbn in *; tauto|]. unfold rendering_pairs.
  repeat first [apply (keys_app _ _ [_]) | apply keys_opt_fld | apply keys_if_fld].
Qed.

Lemma layout_annotations b f c got kvs fl fl' :
  (forall k, In k (map fst kvs) -> In k annotation_keys) -> fold_fields (annotation_sem b) kvs fl = ok fl' ->
  fold_fields (layout_sem b) kvs (f <| lf_flair := fl |>, c, got) = ok (f <| lf_flair := fl' |>, c, got).
Proof.
  intros Hk. apply (fold_part (layout_sem b) (annotation_sem b) (fun fl => (f <| lf_flair := fl |>, c, got))).
  intros k i fl0 Hin. apply annotation_key_layout. by apply Hk.
Qed.

Lemma layout_fold b x c : layout_shown_ok x -> (used_labels c + layout_need x <= Labels)%nat ->
  (length (safePool c) + safe_need x.2 <= SafeSlots)%nat ->
  fold_fields (layout_sem (S b)) (layout_pairs x.1.1.1 x.1.1.2 x.1.2 x.2) (LayoutField_new, c, [])
  = ok (placed_layout x c, after_layout x c, [4; 3; 2; 1]).
Proof.
  destruct x as [[[[nm ty un sc mn mx rb ro df sk fl ss] bits] options] safe]. unfold layout_need.
  intros [] Hlab Hsafe. unfold layout_pairs, after_layout, layout_sem.
  cbn [fst snd lf_name lf_type lf_unit lf_scale lf_min lf_max lf_bits lf_options lf_dflt lf_settingKey lf_flair lf_safeSlot] in *.
  set (c1 := more_labels (map watched (trim_holes bits)) c). set (c2 := more_labels (map watched options) c1).
  apply fold_then with (mkLayoutField nm u8_t [] 0x3F800000 None None LabelRef_new LabelRef_new NoDefault None Flair_new None, c, [1]).
  { apply fold_fld. at_key fail. }
  apply fold_then with (mkLayoutField nm ty [] 0x3F800000 None None LabelRef_new LabelRef_new NoDefault None Flair_new None, c, [2; 1]).
  { apply fold_fld. at_key ltac:(first [rewrite packed_fits | rewrite packed_inverse]). }
  apply fold_then with (mkLayoutField nm ty un 0x3F800000 None None LabelRef_new LabelRef_new NoDefault None Flair_new None, c, [3; 2; 1]).
  { apply fold_fld. at_key fail. }
  apply fold_then with (mkLayoutField nm ty un sc None None LabelRef_new LabelRef_new NoDefault None Flair_new None, c, [4; 3; 2; 1]).
  { apply fold_fld. at_key fail. }
  apply fold_then with (mkLayoutField nm ty un sc mn None LabelRef_new LabelRef_new NoDefault None Flair_new None, c, [4; 3; 2; 1]).
  { apply (fold_opt_fld _ _ _ _ _ (fun v => (mkLayoutField nm ty un sc v None LabelRef_new LabelRef_new NoDefault None Flair_new None, c, [4; 3; 2; 1]))); [done|opt_value]. }
  apply fold_then with (mkLayoutField nm ty un sc mn mx LabelRef_new LabelRef_new NoDefault None Flair_new None, c, [4; 3; 2; 1]).
  { apply (fold_opt_fld _ _ _ _ _ (fun v => (mkLayoutField nm ty un sc mn v LabelRef_new LabelRef_new NoDefault None Flair_new None, c, [4; 3; 2; 1]))); [done|opt_value]. }
  apply fold_then with (mkLayoutField nm ty un sc mn mx (ref_at c (trim_holes bits)) LabelRef_new NoDefault None Flair_new None, c1, [4; 3; 2; 1]).
  { apply fold_if_fld; rewrite named_trim; intros Ht.
    - change (meaning (layout_field Labels SafeSlots 7 ?a) ?b ?i) with (meaning (reading (decode_bits Labels a.1.2) (fun r => ok (a.1.1 <| lf_bits := r.1 |>, r.2, a.2))) b i).
      cbn [meaning reading fst snd]. rewrite bits_decode; [done|done|done|lia].
    - subst c1. destruct (trim_holes bits); [|done]. cbn. by rewrite more_labels_nil. }
  apply fold_then with (mkLayoutField nm ty un sc mn mx (ref_at c (trim_holes bits)) LabelRef_new NoDefault sk Flair_new None, c1, [4; 3; 2; 1]).
  { apply (fold_opt_fld _ _ _ _ _ (fun v => (mkLayoutField nm ty un sc mn mx (ref_at c (trim_holes bits)) LabelRef_new NoDefault v Flair_new None, c1, [4; 3; 2; 1]))); [done|opt_value]. }
  apply fold_then with (mkLayoutField nm ty un sc mn mx (ref_at c (trim_holes bits)) LabelRef_new df sk Flair_new None, c1, [4; 3; 2; 1]).
  { apply fold_if_fld; intros Hd; [at_key fail|]. by destruct df. }
  apply fold_then with (mkLayoutField nm ty un sc mn mx (ref_at c (trim_holes bits)) (ref_at c1 options) df sk Flair_new None, c2, [4; 3; 2; 1]).
  { apply fold_if_fld; intros Ht.
    - change (meaning (layout_field Labels SafeSlots 10 ?a) ?b ?i) with (meaning (reading (decodeOptions Labels a.1.2) (fun r => ok (a.1.1 <| lf_options := r.1 |>, r.2, a.2))) b i).
      cbn [meaning reading fst snd]. rewrite options_decode; [done|done|done|]. subst c1. rewrite used_more_labels, length_map. lia.
    - subst c2. destruct options; [|done]. cbn. by rewrite more_labels_nil. }
  set (f := mkLayoutField nm ty un sc mn mx (ref_at c (trim_holes bits)) (ref_at c1 options) df sk Flair_new None).
  apply fold_then with (f <| lf_flair := front fl |>, c2, [4; 3; 2; 1]).
  { apply (layout_annotations (S b) f c2 [4; 3; 2; 1] _ Flair_new); [apply annotation_pairs_keys|by apply annotations_decode]. }
  apply fold_then with (f <| lf_flair := front fl |>, c2, [4; 3; 2; 1]); [done|].
  apply fold_then with (f <| lf_flair := fl |>, c2, [4; 3; 2; 1]).
  { apply (layout_annotations (S b) f c2 [4; 3; 2; 1] _ (front fl)); [apply rendering_pairs_keys|by apply rendering_decodes]. }
  apply fold_if_fld; intros Hd.
  - change (meaning (layout_field Labels SafeSlots 25 ?a) ?b ?i) with
      (meaning (reading p_setting (fun d => let? s := add_safe SafeSlots d a.1.2 in ok (a.1.1 <| lf_safeSlot := Some s.1 |>, s.2, a.2))) b i).
    cbn [meaning reading p_setting fst snd]. rewrite setting_decodes by done. cbn [result_bind]. rewrite add_safe_ok by done. unfold placed_layout, slot_at. cbn [snd]. by rewrite Hd.
  - unfold placed_layout, slot_at, more_safe. cbn [snd]. by rewrite Hd.
Qed.

(** A schema field: its options' access levels are laid over the labels just pushed. *)
Hypothesis few_labels : (Z.of_nat Labels <= 65535)%Z.

Definition option_labels (options : list (list byte)) (access : list Z) : list (list byte * Z) :=
  if filled access then zip options access else map watched options.

Definition after_schema (x : ShownSchema) (c : Catalog) : Catalog :=
  more_safe x.2 (more_labels (option_labels x.1.1.2 x.1.2) c).

Definition placed_schema (x : ShownSchema) (c : Catalog) : SchemaField :=
  x.1.1.1 <| sf_options := ref_at c x.1.1.2 |> <| sf_safeSlot := slot_at c x.2 |>.

Definition schema_sem (b : nat) (k : Z) (a : SchemaLoop) : Item -> decoded SchemaLoop := meaning (schema_field Labels SafeSlots k a) b.

Lemma access_loop r b acc : forall c j,
  Forall (fun a => 0 <= a <= 2) acc -> 0 <= lr_offset r -> 0 <= j -> lr_offset r + j + len acc <= Z.of_nat (used_labels c) ->
  (used_labels c <= Labels)%nat ->
  fold_items (fun a : Catalog * Z => meaning (reading p_uint (fun v =>
      let? v := at_most 2 v in
      let? (c, _) := pushing (poolSetLabelAccess (Z.to_nat (u16 (lr_offset r + a.2))) v) Malformed a.1 in
      ok (c, a.2 + 1))) b) (map IUint acc) (c, j)
  = ok (c <| labelPool ::= set_accesses (Z.to_nat (lr_offset r + j)) acc |>, j + len acc).
Proof.
  induction acc as [|a acc IH]; intros c j Ha Ho Hj Hin Hcap; cbn [map fold_items].
  { rewrite Z.add_0_r. by destruct c. }
  apply Forall_cons_1 in Ha as [Ha Hacc]. rewrite len_cons in *. pose proof (len_nonneg acc).
  cbn [meaning reading p_uint sem_uint result_bind fst snd]. rewrite at_most_ok by lia. cbn [result_bind].
  rewrite wrap_small by (unfold in_u; lia).
  unfold pushing, poolSetLabelAccess, mbind, Author_bind, get_catalog, overflow_if. unfold used_labels in *.
  rewrite (proj2 (Nat.leb_gt _ _)) by lia. unfold mret, Author_ret, modify. cbn [result_bind].
  rewrite IH; [|done|done|lia| |].
  - assert (Z.to_nat (lr_offset r + (j + 1)) = S (Z.to_nat (lr_offset r + j))) as -> by lia.
    f_equal. f_equal. lia.
  - cbn. rewrite length_alter. lia.
  - cbn. by rewrite length_alter.
Qed.

Lemma option_access_decodes b f options access c :
  filled access = true -> length access = length options -> Forall (fun a => 0 <= a <= 2) access -> (length options <= kMaxCount)%nat ->
  sf_options f = ref_at c options -> (used_labels c + length options <= Labels)%nat ->
  meaning (decode_option_access f (more_labels (map watched options) c)) (S b) (IArr (map IUint access))
  = ok (more_labels (zip options access) c).
Proof.
  intros Hf Hlen Ha Hmax Ef Hcap. unfold decode_option_access. cbn [meaning reading]. rewrite meaning_elements.
  assert (len (map IUint access) = len access) as -> by (unfold len; by rewrite length_map).
  rewrite Ef. destruct options as [|o options]; [by destruct access|]. cbn [ref_at lr_count length Nat.eqb orb].
  unfold len at 1. rewrite Hlen. cbn [length]. rewrite Z.eqb_refl. cbn [negb result_bind].
  rewrite access_loop; [|done|cbn; unfold label_mark; lia|lia| |].
  - cbn [result_bind fst lr_offset]. f_equal. rewrite Z.add_0_r. unfold label_mark. rewrite Nat2Z.id. by apply restrict_labels.
  - cbn [lr_offset]. rewrite used_more_labels, length_map. unfold label_mark, len. fold (used_labels c). rewrite Hlen. lia.
  - by rewrite used_more_labels, length_map.
Qed.

Lemma annotation_key_schema b k f c got fl i : In k annotation_keys ->
  schema_sem b k (f <| sf_flair := fl |>, c, got) i
  = (let? fl' := annotation_sem b k fl i in ok (f <| sf_flair := fl' |>, c, got)).
Proof.
  destruct f. intros H. cbn in H. unfold schema_sem, annotation_sem.
  repeat destruct H as [<-|H]; try done; reflexivity.
Qed.

Lemma schema_annotations b f c got kvs fl fl' :
  (forall k, In k (map fst kvs) -> In k annotation_keys) -> fold_fields (annotation_sem b) kvs fl = ok fl' ->
  fold_fields (schema_sem b) kvs (f <| sf_flair := fl |>, c, got) = ok (f <| sf_flair := fl' |>, c, got).
Proof.
  intros Hk. apply (fold_part (schema_sem b) (annotation_sem b) (fun fl => (f <| sf_flair := fl |>, c, got))).
  intros k i fl0 Hin. apply annotation_key_schema. by apply Hk.
Qed.

Lemma schema_fold b x c : schema_shown_ok x -> (used_labels c + length x.1.1.2 <= Labels)%nat ->
  (length (safePool c) + safe_need x.2 <= SafeSlots)%nat ->
  fold_fields (schema_sem (S b)) (schema_pairs x.1.1.1 x.1.1.2 x.1.2 x.2) (SchemaField_new <| sf_key := shown_key x |>, c, [])
  = ok (placed_schema x c, after_schema x c, [3; 2; 1]).
Proof.
  destruct x as [[[[ky nm ty un mn mx df ro ac ha ds fl ss] options] access] safe]. unfold shown_key.
  intros [] Hlab Hsafe. unfold schema_pairs, after_schema, schema_sem.
  cbn [fst snd sf_key sf_name sf_type sf_unit sf_min sf_max sf_dflt sf_options sf_access sf_hasOptionAccess sf_destructiveOptions
       sf_flair sf_safeSlot] in *. subst ha.
  set (c1 := more_labels (map watched options) c). set (c2 := more_labels (option_labels options access) c).
  set (o := ref_at c options). set (got := [3; 2; 1]).
  apply fold_then with (mkSchemaField ky nm uint_ft [] None None NoDefault LabelRef_new None false 0 Flair_new None, c, [1]).
  { apply fold_fld. at_key fail. }
  apply fold_then with (mkSchemaField ky nm ty [] None None NoDefault LabelRef_new None false 0 Flair_new None, c, [2; 1]).
  { apply fold_fld. at_key ltac:(first [rewrite cbor_fits | rewrite cbor_inverse]). }
  apply fold_then with (mkSchemaField ky nm ty un None None NoDefault LabelRef_new None false 0 Flair_new None, c, got).
  { apply fold_fld. at_key fail. }
  apply fold_then with (mkSchemaField ky nm ty un mn None NoDefault LabelRef_new None false 0 Flair_new None, c, got).
  { apply (fold_opt_fld _ _ _ _ _ (fun v => (mkSchemaField ky nm ty un v None NoDefault LabelRef_new None false 0 Flair_new None, c, got))); [done|opt_value]. }
  apply fold_then with (mkSchemaField ky nm ty un mn mx NoDefault LabelRef_new None false 0 Flair_new None, c, got).
  { apply (fold_opt_fld _ _ _ _ _ (fun v => (mkSchemaField ky nm ty un mn v NoDefault LabelRef_new None false 0 Flair_new None, c, got))); [done|opt_value]. }
  apply fold_then with (mkSchemaField ky nm ty un mn mx df LabelRef_new None false 0 Flair_new None, c, got).
  { apply fold_if_fld; intros Hd; [at_key fail|]. by destruct df. }
  apply fold_then with (mkSchemaField ky nm ty un mn mx df o None false 0 Flair_new None, c1, got).
  { apply fold_if_fld; intros Ht.
    - change (meaning (schema_field Labels SafeSlots 10 ?a) ?b ?i) with (meaning (reading (decodeOptions Labels a.1.2) (fun r => ok (a.1.1 <| sf_options := r.1 |>, r.2, a.2))) b i).
      cbn [meaning reading fst snd]. by rewrite options_decode.
    - subst c1 o. destruct options; [|done]. cbn. by rewrite more_labels_nil. }
  set (f := mkSchemaField ky nm ty un mn mx df o None false 0 Flair_new None).
  apply fold_then with (f <| sf_flair := front fl |>, c1, got).
  { apply (schema_annotations (S b) f c1 got _ Flair_new); [apply annotation_pairs_keys|by apply annotations_decode]. }
  apply fold_then with (mkSchemaField ky nm ty un mn mx df o ac false 0 (front fl) None, c1, got).
  { apply (fold_opt_fld _ _ _ _ _ (fun v => (mkSchemaField ky nm ty un mn mx df o v false 0 (front fl) None, c1, got))); [done|].
    intros v Hv. rewrite Hv in os_access. cbn in os_access. at_key fail. }
  set (f2 := mkSchemaField ky nm ty un mn mx df o ac (filled access) 0 (front fl) None).
  apply fold_then with (f2, c2, got).
  { unfold f2, c2, c1, option_labels. apply fold_if_fld; intros Ht; rewrite Ht; [|done].
    change (meaning (schema_field Labels SafeSlots 17 ?a) ?b ?i) with
      (meaning (reading (decode_option_access a.1.1 a.1.2) (fun c => ok (a.1.1 <| sf_hasOptionAccess := true |>, c, a.2))) b i).
    cbn [meaning reading fst snd]. rewrite option_access_decodes; [done|done|auto|done|by destruct os_options|done|done]. }
  apply fold_then with (f2 <| sf_flair := fl |>, c2, got).
  { apply (schema_annotations (S b) f2 c2 got _ (front fl)); [apply rendering_pairs_keys|by apply rendering_decodes]. }
  apply fold_then with (f2 <| sf_flair := fl |> <| sf_destructiveOptions := ds |>, c2, got).
  { apply fold_if_fld; intros Hd; [at_key fail|]. by rewrite (nonzero_false _ Hd). }
  apply fold_if_fld; intros Hd.
  - change (meaning (schema_field Labels SafeSlots 25 ?a) ?b ?i) with
      (meaning (reading p_setting (fun d => let? s := add_safe SafeSlots d a.1.2 in ok (a.1.1 <| sf_safeSlot := Some s.1 |>, s.2, a.2))) b i).
    cbn [meaning reading p_setting fst snd]. rewrite setting_decodes by done. cbn [result_bind]. rewrite add_safe_ok by done.
    unfold placed_schema, slot_at. cbn [snd]. by rewrite Hd.
  - unfold placed_schema, slot_at, more_safe. cbn [snd]. by rewrite Hd.
Qed.

(** ** Fields in the pools *)

Lemma layout_decodes b x c : layout_shown_ok x -> (used_labels c + layout_need x <= Labels)%nat ->
  (length (safePool c) + safe_need x.2 <= SafeSlots)%nat ->
  meaning (decodeLayoutField Labels SafeSlots c) (S (S b)) (layout_item x) = ok (placed_layout x c, after_layout x c).
Proof.
  intros Hx H1 H2. unfold decodeLayoutField, layout_item. cbn [meaning reading]. rewrite meaning_fields. cbn [result_bind].
  pose proof (layout_fold b x c Hx H1 H2) as Hf. unfold layout_sem in Hf. by rewrite Hf.
Qed.

Lemma schema_decodes b x c : schema_shown_ok x -> (used_labels c + length x.1.1.2 <= Labels)%nat ->
  (length (safePool c) + safe_need x.2 <= SafeSlots)%nat ->
  meaning (decodeSchemaField Labels SafeSlots c (shown_key x)) (S (S b)) (schema_item x) = ok (placed_schema x c, after_schema x c).
Proof.
  intros Hx H1 H2. unfold decodeSchemaField, schema_item. cbn [meaning reading]. rewrite meaning_fields. cbn [result_bind].
  pose proof (schema_fold b x c Hx H1 H2) as Hf. unfold schema_sem in Hf. by rewrite Hf.
Qed.

(** What a field shows once it is in the pools: its bit names without trailing holes. *)
Definition canon_layout (x : ShownLayout) : ShownLayout := ((bare_layout x.1.1.1, trim_holes x.1.1.2, x.1.2), x.2).
Definition canon_schema (x : ShownSchema) : ShownSchema := ((bare_schema x.1.1.1, x.1.1.2, x.1.2), x.2).

Lemma labels_at ls l c c' : map fst ls = l -> labelPool (more_labels ls c) `prefix_of` labelPool c' ->
  labels (ref_at c l) c' = l /\ (l <> [] -> labelAccess (ref_at c l) c' = map snd ls).
Proof.
  intros <- Hp. destruct ls as [|s ls]; [done|]. unfold labels, labelAccess.
  destruct (labels_fresh (s :: ls) c) as [Hr E].
  assert (ref_at c (map fst (s :: ls)) = mkLabelRef (Z.of_nat (length (labelPool c))) (length (s :: ls))) as ->
    by (unfold ref_at; cbn; by rewrite length_map).
  by rewrite (labels_extend _ _ _ Hp Hr), E.
Qed.

Lemma map_fst_watched l : map fst (map watched l) = l.
Proof. rewrite map_map. apply map_id. Qed.

Lemma safe_at v c c' : safePool (more_safe v c) `prefix_of` safePool c' -> safeAt (slot_at c v) c' = v.
Proof.
  unfold slot_at, more_safe. destruct v; cbn; try done; intros [l ->]; rewrite <- app_assoc; cbn; by rewrite list_lookup_middle.
Qed.

Lemma more_safe_pools v c : labelPool (more_safe v c) = labelPool c /\ layoutPool (more_safe v c) = layoutPool c
  /\ schemaPool (more_safe v c) = schemaPool c /\ storePool (more_safe v c) = storePool c
  /\ length (safePool (more_safe v c)) = (length (safePool c) + safe_need v)%nat.
Proof. unfold more_safe, safe_need. destruct (sd_has v); cbn; rewrite ?length_app; cbn; split_and!; done || lia. Qed.

Lemma layout_shows x c c' : extends (after_layout x c) c' -> describe_layout c' (placed_layout x c) = canon_layout x.
Proof.
  intros [_ _ _ Hl Hs]. unfold after_layout in *. rewrite (proj1 (more_safe_pools _ _)) in Hl.
  set (c1 := more_labels (map watched (trim_holes x.1.1.2)) c) in *.
  unfold describe_layout, shown, layout_body, canon_layout.
  change (lf_bits (placed_layout x c)) with (ref_at c (trim_holes x.1.1.2)). change (lf_options (placed_layout x c)) with (ref_at c1 x.1.2).
  change (lf_safeSlot (placed_layout x c)) with (slot_at c x.2).
  rewrite (safe_at x.2 c); [|etrans; [|exact Hs]; unfold more_safe; by destruct (sd_has x.2)].
  rewrite (proj1 (labels_at _ _ c c' (map_fst_watched _) (transitivity (prefix_app_r _ _ _ (reflexivity _)) Hl))).
  by rewrite (proj1 (labels_at _ _ c1 c' (map_fst_watched _) Hl)).
Qed.

Lemma option_labels_fst options access : (filled access = true -> length access = length options) ->
  map fst (option_labels options access) = options.
Proof.
  unfold option_labels. intros H. destruct (filled access); [|apply map_fst_watched]. apply zip_fst. by rewrite H.
Qed.

Lemma schema_shows x c c' : schema_shown_ok x -> extends (after_schema x c) c' ->
  describe_schema c' (placed_schema x c) = canon_schema x.
Proof.
  intros Hx [_ _ _ Hl Hs]. unfold after_schema in *. rewrite (proj1 (more_safe_pools _ _)) in Hl.
  unfold describe_schema, shown, schema_body, optionAccess, canon_schema.
  change (sf_options (placed_schema x c)) with (ref_at c x.1.1.2). change (sf_safeSlot (placed_schema x c)) with (slot_at c x.2).
  change (sf_hasOptionAccess (placed_schema x c)) with (sf_hasOptionAccess x.1.1.1). rewrite (os_has _ Hx).
  rewrite (safe_at x.2 c); [|etrans; [|exact Hs]; unfold more_safe; by destruct (sd_has x.2)].
  pose proof (option_labels_fst _ _ (os_aligned _ Hx)) as Hf. destruct (labels_at _ _ c c' Hf Hl) as [-> Ha].
  do 2 f_equal. unfold option_labels in Ha. destruct x.1.2 as [|a access] eqn:E; [done|]. cbn [filled] in *.
  pose proof (os_aligned _ Hx) as Hal. rewrite E in Hal. specialize (Hal eq_refl). rewrite Ha.
  - by apply zip_snd.
  - intros En. by rewrite En in Hal.
Qed.

Lemma used_after_layout x c : used_labels (after_layout x c) = (used_labels c + layout_need x)%nat
  /\ length (safePool (after_layout x c)) = (length (safePool c) + safe_need x.2)%nat
  /\ layoutPool (after_layout x c) = layoutPool c.
Proof.
  unfold after_layout, layout_need. destruct (more_safe_pools x.2 (more_labels (map watched x.1.2) (more_labels (map watched (trim_holes x.1.1.2)) c))) as (E1 & E2 & E3 & E4 & E5).
  unfold used_labels at 1. rewrite E1, E2, E5. fold (used_labels (more_labels (map watched x.1.2) (more_labels (map watched (trim_holes x.1.1.2)) c))).
  rewrite !used_more_labels, !length_map. split_and!; [lia|done|done].
Qed.

Lemma used_after_schema x c : schema_shown_ok x -> used_labels (after_schema x c) = (used_labels c + length x.1.1.2)%nat
  /\ length (safePool (after_schema x c)) = (length (safePool c) + safe_need x.2)%nat
  /\ schemaPool (after_schema x c) = schemaPool c.
Proof.
  intros Hx. unfold after_schema. destruct (more_safe_pools x.2 (more_labels (option_labels x.1.1.2 x.1.2) c)) as (E1 & E2 & E3 & E4 & E5).
  unfold used_labels at 1. rewrite E1, E3, E5. fold (used_labels (more_labels (option_labels x.1.1.2 x.1.2) c)).
  rewrite used_more_labels. rewrite <- (option_labels_fst _ _ (os_aligned _ Hx)) at 2. by rewrite length_map.
Qed.

Fixpoint put_layouts (l : list ShownLayout) (c : Catalog) : Catalog :=
  match l with [] => c | x :: l => put_layouts l (push_layout (placed_layout x c) (after_layout x c)) end.

Fixpoint put_schemas (l : list ShownSchema) (c : Catalog) : Catalog :=
  match l with [] => c | x :: l => put_schemas l (push_schema (placed_schema x c) (after_schema x c)) end.

Lemma put_layouts_pools l : forall c, length (layoutPool (put_layouts l c)) = (length (layoutPool c) + length l)%nat
  /\ schemaPool (put_layouts l c) = schemaPool c /\ storePool (put_layouts l c) = storePool c.
Proof.
  induction l as [|x l IH]; intros c; cbn [put_layouts length]; [rewrite Nat.add_0_r; done|].
  destruct (IH (push_layout (placed_layout x c) (after_layout x c))) as (E1 & E2 & E3). rewrite E1, E2, E3. cbn.
  unfold after_layout. destruct (more_safe_pools x.2 (more_labels (map watched x.1.2) (more_labels (map watched (trim_holes x.1.1.2)) c))) as (_ & F1 & F2 & F3 & _).
  rewrite length_app, F1, F2, F3. cbn. split_and!; done || lia.
Qed.

Lemma put_schemas_pools l : forall c, length (schemaPool (put_schemas l c)) = (length (schemaPool c) + length l)%nat
  /\ layoutPool (put_schemas l c) = layoutPool c /\ storePool (put_schemas l c) = storePool c.
Proof.
  induction l as [|x l IH]; intros c; cbn [put_schemas length]; [rewrite Nat.add_0_r; done|].
  destruct (IH (push_schema (placed_schema x c) (after_schema x c))) as (E1 & E2 & E3). rewrite E1, E2, E3. cbn.
  unfold after_schema. destruct (more_safe_pools x.2 (more_labels (option_labels x.1.1.2 x.1.2) c)) as (_ & F1 & F2 & F3 & _).
  rewrite length_app, F1, F2, F3. cbn. split_and!; done || lia.
Qed.

Definition layout_needs (l : list ShownLayout) : nat := sum_list_with layout_need l.
Definition schema_needs (l : list ShownSchema) : nat := sum_list_with (fun x => length x.1.1.2) l.
Definition safe_needs {A} (l : list (A * SettingDefault)) : nat := sum_list_with (fun x => safe_need x.2) l.

Abbreviation opened := (opened Entries LayoutFields SchemaFields Labels Stores SafeSlots).
Abbreviation pools_fit := (pools_fit Entries LayoutFields SchemaFields Labels Stores SafeSlots).

Lemma layouts_decode b n l : forall c,
  catalog_ok c -> pools_fit c -> Forall layout_shown_ok l ->
  (used_labels c + layout_needs l <= Labels)%nat -> (length (safePool c) + safe_needs l <= SafeSlots)%nat ->
  (length (layoutPool c) + length l <= LayoutFields)%nat ->
  fold_items (fun a : Catalog * Z => meaning (reading (decodeLayoutField Labels SafeSlots a.1) (fun fr =>
       let? (c, _) := pushing (poolAddLayoutField LayoutFields fr.1) CapacityExceeded fr.2 in ok (c, a.2))) (S (S b)))
    (map layout_item l) (c, n) = ok (put_layouts l c, n)
  /\ opened c (put_layouts l c) /\ used_labels (put_layouts l c) = (used_labels c + layout_needs l)%nat
  /\ length (safePool (put_layouts l c)) = (length (safePool c) + safe_needs l)%nat
  /\ exists fs, layoutPool (put_layouts l c) = layoutPool c ++ fs /\ length fs = length l
       /\ forall c', extends (put_layouts l c) c' -> map (describe_layout c') fs = map canon_layout l.
Proof.
  induction l as [|x l IH]; intros c Hc Hf Hl Hlab Hsafe Hpool.
  { cbn. rewrite !Nat.add_0_r. split_and!; first [done | by apply opened_refl | exists []; by rewrite app_nil_r]. }
  apply Forall_cons_1 in Hl as [Hx Hl]. unfold layout_needs, safe_needs in *. cbn [sum_list_with map fold_items put_layouts length] in *.
  pose proof (layout_decodes b x c Hx ltac:(lia) ltac:(lia)) as Hm.
  pose proof (layout_inv _ _ _ _ _ _ _ _ _ _ _ Hf Hm) as Hr. destruct (used_after_layout x c) as (U1 & U2 & U3).
  cbn [meaning reading fst snd] in *. rewrite Hm. cbn [result_bind fst snd].
  assert (pushing (poolAddLayoutField LayoutFields (placed_layout x c)) CapacityExceeded (after_layout x c)
          = ok (push_layout (placed_layout x c) (after_layout x c), tt)) as Hpush.
  { unfold pushing, poolAddLayoutField, mbind, Author_bind, get_catalog, overflow_if. rewrite U3. by rewrite (proj2 (Nat.leb_gt _ _)) by lia. }
  destruct (push_layout_opened _ _ _ _ _ _ _ _ _ _ Hc Hr Hpush) as [_ Ho]. rewrite Hpush. cbn [result_bind].
  set (c1 := push_layout (placed_layout x c) (after_layout x c)) in *.
  assert (used_labels c1 = used_labels (after_layout x c)) as U4 by done. assert (safePool c1 = safePool (after_layout x c)) as U5 by done.
  assert (layoutPool c1 = layoutPool c ++ [placed_layout x c]) as U6 by (cbn; by rewrite U3).
  destruct (IH c1) as (E & Ho' & F1 & F2 & fs & F3 & F4 & F5);
    [by destruct Ho|by destruct Ho|done|rewrite U4, U1; lia|rewrite U5, U2; lia|rewrite U6, length_app; cbn; lia|].
  split_and!; [exact E|by eapply opened_trans|lia|rewrite F2, U5, U2; lia|].
  exists (placed_layout x c :: fs). rewrite F3, U6, <- app_assoc. split_and!; [done|cbn; by rewrite F4|].
  intros c' Hx'. cbn [map]. rewrite F5 by done. f_equal. apply layout_shows.
  eapply extends_trans; [|exact Hx']. eapply extends_trans; [|by destruct Ho']. split; cbn; try done. by apply prefix_app_r.
Qed.

Lemma schemas_decode b n l : forall c,
  catalog_ok c -> pools_fit c -> Forall schema_shown_ok l ->
  (used_labels c + schema_needs l <= Labels)%nat -> (length (safePool c) + safe_needs l <= SafeSlots)%nat ->
  (length (schemaPool c) + length l <= SchemaFields)%nat ->
  fold_fields (fun k (a : Catalog * Z) => meaning
       (if 0xFF <? k then refuse Malformed
        else reading (decodeSchemaField Labels SafeSlots a.1 k) (fun fr =>
          let? (c, _) := pushing (poolAddSchemaField SchemaFields fr.1) CapacityExceeded fr.2 in ok (c, a.2))) (S (S b)))
    (map (fun x => (shown_key x, schema_item x)) l) (c, n) = ok (put_schemas l c, n)
  /\ opened c (put_schemas l c) /\ used_labels (put_schemas l c) = (used_labels c + schema_needs l)%nat
  /\ length (safePool (put_schemas l c)) = (length (safePool c) + safe_needs l)%nat
  /\ exists fs, schemaPool (put_schemas l c) = schemaPool c ++ fs /\ length fs = length l
       /\ forall c', extends (put_schemas l c) c' -> map (describe_schema c') fs = map canon_schema l.
Proof.
  induction l as [|x l IH]; intros c Hc Hf Hl Hlab Hsafe Hpool.
  { cbn. rewrite !Nat.add_0_r. split_and!; first [done | by apply opened_refl | exists []; by rewrite app_nil_r]. }
  apply Forall_cons_1 in Hl as [Hx Hl]. unfold schema_needs, safe_needs in *. cbn [sum_list_with map fold_fields put_schemas length] in *.
  pose proof (schema_decodes b x c Hx ltac:(lia) ltac:(lia)) as Hm.
  pose proof (schema_inv _ _ _ _ _ _ few_labels _ _ _ _ _ _ Hf Hm) as Hr. destruct (used_after_schema x c Hx) as (U1 & U2 & U3).
  rewrite (proj2 (Z.ltb_ge 255 (shown_key x))) by (destruct Hx as [Hk _ _ _ _ _ _ _ _ _ _ _ _ _]; unfold in_u in Hk; lia).
  cbn [meaning reading fst snd] in *. rewrite Hm. cbn [result_bind fst snd].
  assert (pushing (poolAddSchemaField SchemaFields (placed_schema x c)) CapacityExceeded (after_schema x c)
          = ok (push_schema (placed_schema x c) (after_schema x c), tt)) as Hpush.
  { unfold pushing, poolAddSchemaField, mbind, Author_bind, get_catalog, overflow_if. rewrite U3. by rewrite (proj2 (Nat.leb_gt _ _)) by lia. }
  destruct (push_schema_opened _ _ _ _ _ _ _ _ _ _ Hc Hr Hpush) as [_ Ho]. rewrite Hpush. cbn [result_bind].
  set (c1 := push_schema (placed_schema x c) (after_schema x c)) in *.
  assert (used_labels c1 = used_labels (after_schema x c)) as U4 by done. assert (safePool c1 = safePool (after_schema x c)) as U5 by done.
  assert (schemaPool c1 = schemaPool c ++ [placed_schema x c]) as U6 by (cbn; by rewrite U3).
  destruct (IH c1) as (E & Ho' & F1 & F2 & fs & F3 & F4 & F5);
    [by destruct Ho|by destruct Ho|done|rewrite U4, U1; lia|rewrite U5, U2; lia|rewrite U6, length_app; cbn; lia|].
  split_and!; [exact E|by eapply opened_trans|lia|rewrite F2, U5, U2; lia|].
  exists (placed_schema x c :: fs). rewrite F3, U6, <- app_assoc. split_and!; [done|cbn; by rewrite F4|].
  intros c' Hx'. cbn [map]. rewrite F5 by done. f_equal. apply schema_shows; [done|].
  eapply extends_trans; [|exact Hx']. eapply extends_trans; [|by destruct Ho']. split; cbn; try done. by apply prefix_app_r.
Qed.

(** ** Entries *)

Lemma store_decodes b d : store_ok d -> meaning decodeStoreDescriptor (S b) (store_item d) = ok d.
Proof.
  intros []. unfold decodeStoreDescriptor, store_item. cbn [meaning reading]. rewrite meaning_fields. cbn [result_bind].
  destruct d as [id kd cp pm nm]. cbn [st_storeId st_kind st_capacity st_perItemMax st_nameMax] in *.
  erewrite fold_then; [| |reflexivity].
  2: { apply fold_fld. at_key fail. }
  erewrite fold_then; [| |reflexivity].
  2: { apply fold_fld. at_key fail. }
  erewrite fold_then; [| |reflexivity].
  2: { apply fold_fld. at_key fail. }
  erewrite fold_then; [| |reflexivity].
  2: { apply fold_fld. at_key fail. }
  rewrite (fold_fld _ _ _ _ (mkStoreDescriptor id kd cp pm nm, [5; 4; 3; 2; 1])); [done|at_key fail].
Qed.

Definition entry_sem (c0 : Catalog) (b : nat) (k : Z) (a : EntryLoop) : Item -> decoded EntryLoop :=
  meaning (entry_field LayoutFields SchemaFields Labels Stores SafeSlots
             (length (layoutPool c0)) (length (schemaPool c0)) (length (storePool c0)) k a) b.

Lemma direction_fits d : at_most 1 (direction_code d) = ok (direction_code d).
Proof. by destruct d. Qed.
Lemma class_fits v : 0 <= v <= ChannelClass.STORE -> at_most ChannelClass.STORE v = ok v.
Proof. intros. apply at_most_ok. lia. Qed.

Lemma mod_target_decodes b t : in_u 16 t.1 -> in_u 16 t.2 -> meaning decode_mod_target (S b) (mod_item t) = ok t.
Proof.
  destruct t as [ch fd]. unfold in_u. cbn [fst snd]. intros H1 H2. unfold decode_mod_target, mod_item. cbn [meaning reading]. rewrite meaning_elements.
  cbn [map fst snd]. change (negb (len [IUint ch; IUint fd] =? 2)) with false. cbn [result_bind fold_items meaning reading p_uint sem_uint app].
  by rewrite !(proj2 (Z.ltb_ge _ _)) by lia.
Qed.

(** The header around the payload: the payload keys put [cnt1]/[off1] then [cnt2]/[off2] in the entry. *)
Lemma entry_fold c0 b dd c c1 c2 got1 got2 cnt1 off1 cnt2 off2 : entry_wire_ok dd ->
  (used_labels c2 + length (trim_holes (d_kinds dd)) <= Labels)%nat ->
  (forall e, ce_fieldCount e = 0%nat -> ce_fieldOffset e = 0%nat ->
     fold_fields (entry_sem c0 (S b)) (payload_pairs (d_payload dd)) (e, c, [7; 6; 5; 4; 3; 2; 1])
     = ok (e <| ce_fieldOffset := off1 |> <| ce_fieldCount := cnt1 |>, c1, got1)) ->
  (forall e, ce_fieldCount e = cnt1 -> ce_fieldOffset e = off1 ->
     fold_fields (entry_sem c0 (S b)) (store_pairs (d_payload dd)) (e, c1, got1)
     = ok (e <| ce_fieldOffset := off2 |> <| ce_fieldCount := cnt2 |>, c2, got2)) ->
  fold_fields (entry_sem c0 (S b)) (entry_pairs dd) (CatalogEntry_new, c, [])
  = ok ((d_header dd) <| ce_fieldOffset := off2 |> <| ce_fieldCount := cnt2 |> <| ce_eventKinds := ref_at c2 (trim_holes (d_kinds dd)) |>,
        more_labels (map watched (trim_holes (d_kinds dd))) c2, got2).
Proof.
  intros [] Hkinds H8' H12'. unfold entry_pairs. destruct (d_header dd) as [id nm cl di ac rt pr cnt0 off0 ca lb rp sc sk rk si ro ev0 mt].
  cbn [ce_id ce_name ce_cls ce_dir ce_access ce_maxRateHz ce_defaultPriority ce_category ce_categoryLabel ce_replayDepth ce_settingChannel
       ce_streamKind ce_rank ce_storeId ce_role ce_modTarget] in *.
  pose proof (H8' (mkCatalogEntry id nm cl di ac rt pr 0%nat 0%nat None [] None None 0 None None [] LabelRef_new None) eq_refl eq_refl) as H8.
  assert (forall lb, fold_fields (entry_sem c0 (S b)) (store_pairs (d_payload dd)) (mkCatalogEntry id nm cl di ac rt pr cnt1 off1 ca lb None None 0 None None [] LabelRef_new None, c1, got1) = ok (mkCatalogEntry id nm cl di ac rt pr cnt2 off2 ca lb None None 0 None None [] LabelRef_new None, c2, got2)) as H12
    by (intros lb0; by rewrite H12').
  clear H8' H12'. unfold entry_sem in *.
  apply fold_then with (mkCatalogEntry id [] ChannelClass.STATE h2c AccessLevel.watch 0 Priority.normal 0%nat 0%nat None [] None None 0 None None [] LabelRef_new None, c, [1]).
  { apply fold_fld. at_key fail. }
  apply fold_then with (mkCatalogEntry id nm ChannelClass.STATE h2c AccessLevel.watch 0 Priority.normal 0%nat 0%nat None [] None None 0 None None [] LabelRef_new None, c, [2; 1]).
  { apply fold_fld. at_key fail. }
  apply fold_then with (mkCatalogEntry id nm cl h2c AccessLevel.watch 0 Priority.normal 0%nat 0%nat None [] None None 0 None None [] LabelRef_new None, c, [3; 2; 1]).
  { apply fold_fld. at_key ltac:(rewrite class_fits by done). }
  apply fold_then with (mkCatalogEntry id nm cl di AccessLevel.watch 0 Priority.normal 0%nat 0%nat None [] None None 0 None None [] LabelRef_new None, c, [4; 3; 2; 1]).
  { apply fold_fld. at_key ltac:(first [rewrite direction_fits | rewrite direction_inverse]). }
  apply fold_then with (mkCatalogEntry id nm cl di ac 0 Priority.normal 0%nat 0%nat None [] None None 0 None None [] LabelRef_new None, c, [5; 4; 3; 2; 1]).
  { apply fold_fld. at_key fail. }
  apply fold_then with (mkCatalogEntry id nm cl di ac rt Priority.normal 0%nat 0%nat None [] None None 0 None None [] LabelRef_new None, c, [6; 5; 4; 3; 2; 1]).
  { apply fold_fld. at_key fail. }
  apply fold_then with (mkCatalogEntry id nm cl di ac rt pr 0%nat 0%nat None [] None None 0 None None [] LabelRef_new None, c, [7; 6; 5; 4; 3; 2; 1]).
  { apply fold_fld. at_key fail. }
  apply fold_then with (mkCatalogEntry id nm cl di ac rt pr cnt1 off1 None [] None None 0 None None [] LabelRef_new None, c1, got1); [exact H8|].
  apply fold_then with (mkCatalogEntry id nm cl di ac rt pr cnt1 off1 ca [] None None 0 None None [] LabelRef_new None, c1, got1).
  { apply (fold_opt_fld _ _ _ _ _ (fun v => (mkCatalogEntry id nm cl di ac rt pr cnt1 off1 v [] None None 0 None None [] LabelRef_new None, c1, got1))); [done|opt_value]. }
  apply fold_then with (mkCatalogEntry id nm cl di ac rt pr cnt1 off1 ca lb None None 0 None None [] LabelRef_new None, c1, got1).
  { apply fold_if_fld; intros Hd; [at_key fail|]. by destruct lb. }
  apply fold_then with (mkCatalogEntry id nm cl di ac rt pr cnt2 off2 ca lb None None 0 None None [] LabelRef_new None, c2, got2); [exact (H12 _)|].
  apply fold_then with (mkCatalogEntry id nm cl di ac rt pr cnt2 off2 ca lb rp None 0 None None [] LabelRef_new None, c2, got2).
  { apply (fold_opt_fld _ _ _ _ _ (fun v => (mkCatalogEntry id nm cl di ac rt pr cnt2 off2 ca lb v None 0 None None [] LabelRef_new None, c2, got2))); [done|opt_value]. }
  apply fold_then with (mkCatalogEntry id nm cl di ac rt pr cnt2 off2 ca lb rp sc 0 None None [] LabelRef_new None, c2, got2).
  { apply (fold_opt_fld _ _ _ _ _ (fun v => (mkCatalogEntry id nm cl di ac rt pr cnt2 off2 ca lb rp v 0 None None [] LabelRef_new None, c2, got2))); [done|opt_value]. }
  apply fold_then with (mkCatalogEntry id nm cl di ac rt pr cnt2 off2 ca lb rp sc sk None None [] LabelRef_new None, c2, got2).
  { apply fold_if_fld; intros Hd; [at_key fail|]. by rewrite (nonzero_false _ Hd). }
  apply fold_then with (mkCatalogEntry id nm cl di ac rt pr cnt2 off2 ca lb rp sc sk rk None [] LabelRef_new None, c2, got2).
  { apply (fold_opt_fld _ _ _ _ _ (fun v => (mkCatalogEntry id nm cl di ac rt pr cnt2 off2 ca lb rp sc sk v None [] LabelRef_new None, c2, got2))); [done|opt_value]. }
  apply fold_then with (mkCatalogEntry id nm cl di ac rt pr cnt2 off2 ca lb rp sc sk rk si [] LabelRef_new None, c2, got2).
  { apply (fold_opt_fld _ _ _ _ _ (fun v => (mkCatalogEntry id nm cl di ac rt pr cnt2 off2 ca lb rp sc sk rk v [] LabelRef_new None, c2, got2))); [done|opt_value]. }
  apply fold_then with (mkCatalogEntry id nm cl di ac rt pr cnt2 off2 ca lb rp sc sk rk si ro LabelRef_new None, c2, got2).
  { apply fold_if_fld; intros Hd; [at_key fail|]. by destruct ro. }
  apply fold_then with (mkCatalogEntry id nm cl di ac rt pr cnt2 off2 ca lb rp sc sk rk si ro (ref_at c2 (trim_holes (d_kinds dd))) None, more_labels (map watched (trim_holes (d_kinds dd))) c2, got2).
  { apply fold_if_fld; rewrite named_trim; intros Ht.
    - change (meaning (entry_field LayoutFields SchemaFields Labels Stores SafeSlots ?x ?y ?z 19 ?a) ?b ?i) with
        (meaning (reading (decode_kinds Labels a.1.2) (fun r => ok (a.1.1 <| ce_eventKinds := r.1 |>, r.2, a.2))) b i).
      cbn [meaning reading fst snd]. by rewrite kinds_decode.
    - destruct (trim_holes (d_kinds dd)); [|done]. cbn [ref_at map]. by rewrite more_labels_nil. }
  apply (fold_opt_fld _ _ _ _ _ (fun v => (mkCatalogEntry id nm cl di ac rt pr cnt2 off2 ca lb rp sc sk rk si ro (ref_at c2 (trim_holes (d_kinds dd))) v, more_labels (map watched (trim_holes (d_kinds dd))) c2, got2))); [done|].
  intros t Ht. rewrite Ht in oe_mod. destruct oe_mod.
  change (meaning (entry_field LayoutFields SchemaFields Labels Stores SafeSlots ?x ?y ?z 20 ?a) ?b ?i) with
    (meaning (reading decode_mod_target (fun t => ok (a.1.1 <| ce_modTarget := Some t |>, a.1.2, a.2))) b i).
  cbn [meaning reading fst snd]. by rewrite mod_target_decodes.
Qed.

Definition payload_form (p : Payload) : FieldForm :=
  match p with PLayout _ => Layout | PSchema _ => Schema | PStore _ => Store end.
Definition payload_key (p : Payload) : Z := match p with PLayout _ => 8 | PSchema _ => 9 | PStore _ => 12 end.
Definition payload_count (p : Payload) : nat :=
  match p with PLayout l => length l | PSchema l => length l | PStore _ => 1%nat end.

Definition put_payload (p : Payload) (c : Catalog) : Catalog :=
  match p with
  | PLayout l => put_layouts l c
  | PSchema l => put_schemas (merge_sort shown_le l) c
  | PStore (Some d) => push_store d c
  | PStore None => c
  end.

(** What it takes up in the pools. *)
Definition payload_labels (p : Payload) : nat :=
  match p with PLayout l => layout_needs l | PSchema l => schema_needs l | PStore _ => 0%nat end.
Definition payload_safes (p : Payload) : nat :=
  match p with PLayout l => safe_needs l | PSchema l => safe_needs l | PStore _ => 0%nat end.

Record payload_fits (p : Payload) (c : Catalog) : Prop := {
  pf_labels : (used_labels c + payload_labels p <= Labels)%nat;
  pf_safes : (length (safePool c) + payload_safes p <= SafeSlots)%nat;
  pf_layouts : (length (layoutPool c) + match p with PLayout l => length l | _ => 0 end <= LayoutFields)%nat;
  pf_schemas : (length (schemaPool c) + match p with PSchema l => length l | _ => 0 end <= SchemaFields)%nat;
  pf_stores : (length (storePool c) + match p with PStore _ => 1 | _ => 0 end <= Stores)%nat }.

Definition canon_payload (p : Payload) : Payload :=
  match p with
  | PLayout l => PLayout (map canon_layout l)
  | PSchema l => PSchema (map canon_schema (merge_sort shown_le l))
  | PStore d => PStore d
  end.

(** The content that comes back: no trailing holes, schema fields in key order. *)
Definition canon (d : Described) : Described :=
  mkDescribed (bare_entry (d_header d)) (trim_holes (d_kinds d)) (canon_payload (d_payload d)).

Lemma sum_perm {A} (f : A -> nat) l l' : l ≡ₚ l' -> sum_list_with f l = sum_list_with f l'.
Proof. induction 1; cbn; lia. Qed.

Definition describe_payload (c : Catalog) (e : CatalogEntry) : Payload :=
  match form e with
  | Layout => PLayout (map (describe_layout c) (layoutFields e c))
  | Schema => PSchema (map (describe_schema c) (schemaFields e c))
  | Store => PStore (storeDescriptor e c)
  end.

Lemma slice_behind {A} (pool fs rest : list A) e : ce_fieldOffset e = length pool -> ce_fieldCount e = length fs ->
  slice ((pool ++ fs) ++ rest) e = fs.
Proof.
  intros Eo Ec. unfold slice. rewrite Eo, Ec, !length_app, (proj2 (Nat.ltb_ge _ _)) by lia.
  unfold subspan. rewrite <- app_assoc, drop_app_length. apply take_app_length.
Qed.

(** The payload in the pools: what it takes, and that an entry placed on it shows it. *)
Lemma payload_put p c : catalog_ok c -> pools_fit c -> payload_ok p -> payload_fits p c ->
  opened c (put_payload p c) /\ used_labels (put_payload p c) = (used_labels c + payload_labels p)%nat
  /\ length (safePool (put_payload p c)) = (length (safePool c) + payload_safes p)%nat
  /\ (forall f, pool_length (put_payload p c) f = (pool_length c f + if decide (payload_form p = f) then payload_count p else 0)%nat)
  /\ forall c' e, extends (put_payload p c) c' -> form e = payload_form p -> ce_fieldOffset e = pool_length c (payload_form p) ->
       ce_fieldCount e = payload_count p -> describe_payload c' e = canon_payload p.
Proof.
  intros Hc Hf Hp Hr. destruct p as [l|l|d]; cbn [payload_ok put_payload payload_labels payload_safes payload_form payload_count] in *.
  - destruct Hp as [_ Hl]. destruct (layouts_decode 0 0 l c Hc Hf Hl) as (_ & Ho & U1 & U2 & fs & F1 & F2 & F3); [by destruct Hr..|].
    destruct (put_layouts_pools l c) as (P1 & P2 & P3). split_and!; try done.
    + intros []; case_decide; try done; cbn; rewrite ?P2, ?P3; lia.
    + intros c' e Hx Fe Eo Ec. unfold describe_payload. rewrite Fe. cbn [canon_payload]. f_equal. unfold layoutFields, usesLayout. rewrite Fe.
      cbn [bool_decide decide decide_rel]. pose proof (ext_layouts _ _ Hx) as [rest El]. rewrite F1 in El. rewrite bool_decide_eq_true_2 by done.
      rewrite El, slice_behind; [by apply F3|done|by rewrite Ec].
  - destruct Hp as (_ & Hl & _). pose proof (merge_sort_Permutation shown_le l) as Hperm.
    assert (Forall schema_shown_ok (merge_sort shown_le l)) as Hl'.
    { rewrite Forall_forall in *. intros x Hx. apply Hl. apply list_elem_of_In. rewrite <- Hperm. by apply list_elem_of_In. }
    assert (schema_needs (merge_sort shown_le l) = schema_needs l) as N1 by by apply sum_perm.
    assert (safe_needs (merge_sort shown_le l) = safe_needs l) as N2 by by apply sum_perm.
    assert (length (merge_sort shown_le l) = length l) as N3 by by rewrite Hperm.
    destruct Hr as [R1 R2 R3 R4 R5]. cbn in R1, R2, R4.
    destruct (schemas_decode 0 0 _ c Hc Hf Hl') as (_ & Ho & U1 & U2 & fs & F1 & F2 & F3); [lia..|].
    destruct (put_schemas_pools (merge_sort shown_le l) c) as (P1 & P2 & P3). split_and!; try done; [lia|lia| |].
    + intros []; case_decide; try done; cbn; rewrite ?P2, ?P3; lia.
    + intros c' e Hx Fe Eo Ec. unfold describe_payload. rewrite Fe. cbn [canon_payload]. f_equal. unfold schemaFields, usesSchema. rewrite Fe.
      pose proof (ext_schemas _ _ Hx) as [rest El]. rewrite F1 in El. rewrite bool_decide_eq_true_2 by done.
      rewrite El, slice_behind; [by apply F3|done|by rewrite Ec, F2].
  - destruct Hp as (s & -> & _). destruct Hr as [_ _ _ _ R5].
    assert (pushing (poolAddStore Stores s) CapacityExceeded c = ok (push_store s c, tt)) as Hpush.
    { unfold pushing, poolAddStore, mbind, Author_bind, get_catalog, overflow_if. by rewrite (proj2 (Nat.leb_gt _ _)) by lia. }
    apply (push_store_opened Entries LayoutFields SchemaFields Labels Stores SafeSlots) in Hpush as [_ Ho]; [|done|done]. split_and!; try done; try (cbn; lia).
    + intros []; case_decide; try done; cbn; rewrite ?length_app; cbn; lia.
    + intros c' e Hx Fe Eo Ec. unfold describe_payload. rewrite Fe. cbn [canon_payload]. f_equal. unfold storeDescriptor, usesStore. rewrite Fe.
      rewrite bool_decide_eq_true_2 by done. rewrite Ec. cbn [negb orb Nat.eqb]. pose proof (ext_stores _ _ Hx) as [rest El]. cbn in El, Eo.
      rewrite El, !length_app, (proj2 (Nat.ltb_ge _ _)) by (cbn; lia). rewrite Eo, <- app_assoc. cbn. by rewrite list_lookup_middle.
Qed.

Lemma payload_steps b p c : catalog_ok c -> pools_fit c -> payload_ok p -> payload_fits p c ->
  exists c1 got1 cnt1 off1,
    (forall e, ce_fieldCount e = 0%nat -> ce_fieldOffset e = 0%nat ->
       fold_fields (entry_sem c (S (S (S b)))) (payload_pairs p) (e, c, [7; 6; 5; 4; 3; 2; 1])
       = ok (e <| ce_fieldOffset := off1 |> <| ce_fieldCount := cnt1 |>, c1, got1)) /\
    (forall e, ce_fieldCount e = cnt1 -> ce_fieldOffset e = off1 ->
       fold_fields (entry_sem c (S (S (S b)))) (store_pairs p) (e, c1, got1)
       = ok (e <| ce_fieldOffset := pool_length c (payload_form p) |> <| ce_fieldCount := payload_count p |>, put_payload p c,
             [payload_key p; 7; 6; 5; 4; 3; 2; 1])).
Proof.
  intros Hc Hf Hp Hr. destruct p as [l|l|d]; cbn [payload_ok payload_pairs store_pairs put_payload payload_form payload_count payload_key] in *.
  - destruct Hp as [Hn Hl]. exists (put_layouts l c), [8; 7; 6; 5; 4; 3; 2; 1], (length l), (length (layoutPool c)). split.
    + intros e _ _. apply fold_fld. unfold entry_sem.
      change (meaning (entry_field LayoutFields SchemaFields Labels Stores SafeSlots ?x ?y ?z 8 (e, c, ?g)) ?b ?i) with
        (meaning (reading (decode_layout LayoutFields Labels SafeSlots c) (fun r =>
            ok (e <| ce_fieldOffset := x |> <| ce_fieldCount := Z.to_nat r.2 |>, r.1, 8 :: g))) b i).
      cbn [meaning reading]. unfold decode_layout. rewrite meaning_elements.
      assert (len (map layout_item l) = Z.of_nat (length l)) as -> by (unfold len; by rewrite length_map).
      unfold some_fields. rewrite (proj2 (Z.eqb_neq _ _)), (proj2 (Z.ltb_ge _ _)) by lia. cbn [orb result_bind].
      destruct (layouts_decode b (Z.of_nat (length l)) l c Hc Hf Hl) as (E & _); [by destruct Hr..|]. rewrite E. cbn [result_bind fst snd].
      by rewrite Nat2Z.id.
    + intros e E1 E2. cbn [fold_fields]. do 3 f_equal. destruct e; cbn in *. by subst.
  - destruct Hp as (Hn & Hl & _). pose proof (merge_sort_Permutation shown_le l) as Hperm.
    assert (Forall schema_shown_ok (merge_sort shown_le l)) as Hl'.
    { rewrite Forall_forall in *. intros x Hx. apply Hl. apply list_elem_of_In. rewrite <- Hperm. by apply list_elem_of_In. }
    assert (schema_needs (merge_sort shown_le l) = schema_needs l) as N1 by by apply sum_perm.
    assert (safe_needs (merge_sort shown_le l) = safe_needs l) as N2 by by apply sum_perm.
    assert (length (merge_sort shown_le l) = length l) as N3 by by rewrite Hperm.
    exists (put_schemas (merge_sort shown_le l) c), [9; 7; 6; 5; 4; 3; 2; 1], (length l), (length (schemaPool c)). split.
    + intros e _ _. apply fold_fld. unfold entry_sem.
      change (meaning (entry_field LayoutFields SchemaFields Labels Stores SafeSlots ?x ?y ?z 9 (e, c, ?g)) ?b ?i) with
        (meaning (reading (decode_schema SchemaFields Labels SafeSlots c) (fun r =>
            ok (e <| ce_fieldOffset := y |> <| ce_fieldCount := Z.to_nat r.2 |>, r.1, 9 :: g))) b i).
      cbn [meaning reading]. unfold decode_schema. rewrite meaning_fields.
      assert (len (map (fun x => (shown_key x, schema_item x)) (merge_sort shown_le l)) = Z.of_nat (length l)) as ->
        by (unfold len; by rewrite length_map, N3).
      unfold some_fields. rewrite (proj2 (Z.eqb_neq _ _)), (proj2 (Z.ltb_ge _ _)) by lia. cbn [orb result_bind].
      destruct Hr as [R1 R2 R3 R4 R5]. cbn in R1, R2, R4.
      destruct (schemas_decode b (Z.of_nat (length l)) _ c Hc Hf Hl') as (E & _); [lia..|]. rewrite E. cbn [result_bind fst snd].
      by rewrite Nat2Z.id.
    + intros e E1 E2. cbn [fold_fields]. do 3 f_equal. destruct e; cbn in *. by subst.
  - destruct Hp as (s & -> & Hs). exists c, [7; 6; 5; 4; 3; 2; 1], 0%nat, 0%nat. split.
    + intros e E1 E2. cbn [fold_fields]. do 3 f_equal. destruct e; cbn in *. by subst.
    + intros e _ _. cbn [opt_fld fold_fields]. unfold entry_sem.
      change (meaning (entry_field LayoutFields SchemaFields Labels Stores SafeSlots ?x ?y ?z 12 (e, c, ?g)) ?b ?i) with
        (meaning (reading decodeStoreDescriptor (fun d =>
            let? (c, _) := pushing (poolAddStore Stores d) CapacityExceeded c in
            ok (e <| ce_fieldOffset := z |> <| ce_fieldCount := 1%nat |>, c, 12 :: g))) b i).
      cbn [meaning reading]. rewrite store_decodes by done. cbn [result_bind].
      unfold pushing, poolAddStore, mbind, Author_bind, get_catalog, overflow_if. destruct Hr as [_ _ _ _ R5].
      by rewrite (proj2 (Nat.leb_gt _ _)) by lia.
Qed.

(** Room for an entry: its payload, and the names of its event kinds. *)
Definition kinds_need (d : Described) : nat := length (trim_holes (d_kinds d)).

Record entry_fits (d : Described) (c : Catalog) : Prop := {
  ef_payload : payload_fits (d_payload d) c;
  ef_kinds : (used_labels c + payload_labels (d_payload d) + kinds_need d <= Labels)%nat }.

Definition after_entry (d : Described) (c : Catalog) : Catalog :=
  more_labels (map watched (trim_holes (d_kinds d))) (put_payload (d_payload d) c).

Definition placed_entry (d : Described) (c : Catalog) : CatalogEntry :=
  (d_header d) <| ce_fieldOffset := pool_length c (payload_form (d_payload d)) |>
    <| ce_fieldCount := payload_count (d_payload d) |>
    <| ce_eventKinds := ref_at (put_payload (d_payload d) c) (trim_holes (d_kinds d)) |>.

Lemma entry_decodes c d : catalog_ok c -> pools_fit c -> entry_wire_ok d -> form (d_header d) = payload_form (d_payload d) ->
  entry_fits d c ->
  meaning (decodeEntry LayoutFields SchemaFields Labels Stores SafeSlots c) kMaxDepth (entry_item d)
  = ok (placed_entry d c, after_entry d c).
Proof.
  intros Hc Hf Hd Hform [Hp Hk]. unfold decodeEntry, entry_item, kMaxDepth. cbn [meaning reading]. rewrite meaning_fields.
  cbn [result_bind].
  destruct (payload_steps 0 (d_payload d) c Hc Hf (oe_payload _ Hd) Hp) as (c1 & got1 & cnt1 & off1 & H8 & H12).
  destruct (payload_put (d_payload d) c Hc Hf (oe_payload _ Hd) Hp) as (_ & U1 & _).
  assert (used_labels (put_payload (d_payload d) c) + length (trim_holes (d_kinds d)) <= Labels)%nat as Hk' by (unfold kinds_need in Hk; lia).
  pose proof (entry_fold c 2 d c c1 _ got1 _ cnt1 off1 _ _ Hd Hk' H8 H12) as E.
  unfold entry_sem in E. rewrite E. cbn [result_bind fst snd].
  unfold payload_matches. match goal with |- context [form ?e] => change (form e) with (form (d_header d)) end.
  rewrite Hform. unfold placed_entry, after_entry. by destruct (d_payload d).
Qed.

Lemma entry_shows c d c' : catalog_ok c -> pools_fit c -> entry_wire_ok d -> form (d_header d) = payload_form (d_payload d) ->
  entry_fits d c -> extends (after_entry d c) c' -> describe c' (placed_entry d c) = canon d.
Proof.
  intros Hc Hf Hd Hform [Hp _] Hx. destruct (payload_put (d_payload d) c Hc Hf (oe_payload _ Hd) Hp) as (_ & _ & _ & _ & Hs).
  assert (describe_payload c' (placed_entry d c) = canon_payload (d_payload d)) as Ep.
  { apply Hs; try done. eapply extends_trans; [|exact Hx]. apply extends_labels. }
  unfold describe, canon. unfold describe_payload in Ep. rewrite Ep. f_equal.
  exact (proj1 (labels_at _ _ _ c' (map_fst_watched _) (ext_labels _ _ Hx))).
Qed.

Lemma used_after_entry d c : catalog_ok c -> pools_fit c -> entry_wire_ok d -> entry_fits d c ->
  used_labels (after_entry d c) = (used_labels c + payload_labels (d_payload d) + kinds_need d)%nat
  /\ length (safePool (after_entry d c)) = (length (safePool c) + payload_safes (d_payload d))%nat
  /\ forall f, pool_length (after_entry d c) f
      = (pool_length c f + if decide (payload_form (d_payload d) = f) then payload_count (d_payload d) else 0)%nat.
Proof.
  intros Hc Hf Hd [Hp _]. destruct (payload_put (d_payload d) c Hc Hf (oe_payload _ Hd) Hp) as (_ & U1 & U2 & U3 & _).
  unfold after_entry. rewrite used_more_labels, length_map, U1. split_and!; [done|done|]. intros f. rewrite <- U3. by destruct f.
Qed.

(** ** Catalogs *)

Definition layouts_of (p : Payload) : nat := match p with PLayout l => length l | _ => 0 end.
Definition schemas_of (p : Payload) : nat := match p with PSchema l => length l | _ => 0 end.
Definition stores_of (p : Payload) : nat := match p with PStore _ => 1 | _ => 0 end.

(** The receiver's capacities are enough for what the catalog describes. *)
Record catalog_fits (ds : list Described) (c : Catalog) : Prop := {
  cf_entries : (length (entries c) + length ds <= Entries)%nat;
  cf_labels : (used_labels c + sum_list_with (fun d => payload_labels (d_payload d) + kinds_need d) ds <= Labels)%nat;
  cf_safes : (length (safePool c) + sum_list_with (fun d => payload_safes (d_payload d)) ds <= SafeSlots)%nat;
  cf_layouts : (length (layoutPool c) + sum_list_with (fun d => layouts_of (d_payload d)) ds <= LayoutFields)%nat;
  cf_schemas : (length (schemaPool c) + sum_list_with (fun d => schemas_of (d_payload d)) ds <= SchemaFields)%nat;
  cf_stores : (length (storePool c) + sum_list_with (fun d => stores_of (d_payload d)) ds <= Stores)%nat }.

Definition consistent (d : Described) : Prop := form (d_header d) = payload_form (d_payload d).

Definition sendable (d : Described) : Prop :=
  entry_wire_ok d /\ consistent d /\ wf (entry_item d) = true /\ (length (encode (entry_item d)) <= catalog_max_entry_bytes)%nat.

Lemma entries_decode ds : forall inp pre rest prev c,
  catalog_ok c -> pools_fit c -> Forall sendable ds -> catalog_fits ds c ->
  above prev (map (fun d => ce_id (d_header d)) ds) = true ->
  inp = pre ++ concat (map (fun d => encode (entry_item d)) ds) ++ rest ->
  exists c', decode_entries Entries LayoutFields SchemaFields Labels Stores SafeSlots (length ds) inp (length pre) prev c = ok c'
    /\ description c' = description c ++ map canon ds.
Proof.
  induction ds as [|d ds IH]; intros inp pre rest prev c Hc Hf Hs Hfit Ha Hinp.
  { exists c. by rewrite app_nil_r. }
  apply Forall_cons_1 in Hs as [(Hd & Hcon & Hw & Hlen) Hs]. cbn [map concat length decode_entries above] in *.
  apply andb_prop in Ha as [Hprev Ha]. destruct Hfit as [F1 F2 F3 F4 F5 F6]. cbn [sum_list_with length] in *.
  assert (entry_fits d c) as Hef.
  { split; [split|]; unfold layouts_of, schemas_of, stores_of in *; destruct (d_payload d); cbn in *; lia. }
  rewrite Hinp, length_app. rewrite (proj2 (Nat.ltb_ge _ _)) by lia.
  set (bs := encode (entry_item d)) in *. set (more := concat (map (fun d => encode (entry_item d)) ds)) in *.
  assert (subspan (length pre) catalog_max_entry_bytes (pre ++ (bs ++ more) ++ rest) = bs ++ take (catalog_max_entry_bytes - length bs) (more ++ rest)) as ->.
  { unfold subspan. rewrite drop_app_length, <- app_assoc. by rewrite take_app_ge by done. }
  fold (on (bs ++ take (catalog_max_entry_bytes - length bs) (more ++ rest))).
  rewrite (reads_item _ _ (run_reads _) _ (entry_item d) _ (ready_on _) Hw eq_refl), budget_on.
  pose proof (entry_decodes c d Hc Hf Hd Hcon Hef) as Hm.
  pose proof (entry_inv _ _ _ _ _ _ few_labels _ _ _ _ _ Hc Hf Hm) as (Ho & He & Eo). rewrite Hm. cbn [result_bind].
  change (ce_id (placed_entry d c)) with (ce_id (d_header d)).
  assert (from_option (fun p => ce_id (d_header d) <=? p) false prev = false) as ->.
  { destruct prev as [p|]; [|done]. cbn. apply Z.ltb_lt in Hprev. by apply Z.leb_gt. }
  destruct (used_after_entry d c Hc Hf Hd Hef) as (U1 & U2 & U3).
  unfold pushing, addEntryVerbatim, mbind, Author_bind, get_catalog, overflow_if.
  assert ((Entries <=? length (entries (after_entry d c)))%nat = false) as ->
    by (apply Nat.leb_gt; rewrite (op_entries _ _ _ _ _ _ _ _ Ho); lia). unfold modify, mret, Author_ret. cbn [result_bind].
  change ((after_entry d c) <| entries ::= fun l => l ++ [placed_entry d c] |>) with (put_verbatim (placed_entry d c) (after_entry d c)).
  set (c1 := put_verbatim (placed_entry d c) (after_entry d c)) in *.
  assert (catalog_ok c1) as Hc1 by by eapply put_verbatim_ok.
  assert (extends (after_entry d c) c1) as Hx1 by by split.
  assert (entries c1 = entries c ++ [placed_entry d c]) as E1 by (change (entries c1) with (entries (after_entry d c) ++ [placed_entry d c]); by rewrite (op_entries _ _ _ _ _ _ _ _ Ho)).
  assert (pools_fit c1) as Hf1.
  { destruct Ho as [_ [] _ _ _]. split; try done. rewrite E1, length_app. cbn. lia. }
  assert (length bs = length (encode (entry_item d))) as Eb by done.
  destruct (IH (pre ++ (bs ++ more) ++ rest) (pre ++ bs) rest (Some (ce_id (d_header d))) c1) as (c' & Hdec & Hdesc); try done.
  - split; [rewrite E1, length_app; cbn; lia| | | | |].
    + change (used_labels c1) with (used_labels (after_entry d c)). rewrite U1. lia.
    + change (safePool c1) with (safePool (after_entry d c)). rewrite U2. lia.
    + pose proof (U3 Layout) as U. unfold pool_length in U. change (layoutPool c1) with (layoutPool (after_entry d c)). rewrite U.
      destruct (d_payload d); case_decide; cbn in *; done || lia.
    + pose proof (U3 Schema) as U. unfold pool_length in U. change (schemaPool c1) with (schemaPool (after_entry d c)). rewrite U.
      destruct (d_payload d); case_decide; cbn in *; done || lia.
    + pose proof (U3 Store) as U. unfold pool_length in U. change (storePool c1) with (storePool (after_entry d c)). rewrite U.
      destruct (d_payload d); case_decide; cbn in *; done || lia.
  - by rewrite <- !app_assoc.
  - exists c'. rewrite length_app in Hdec. split; [exact Hdec|]. rewrite Hdesc. unfold description at 1. rewrite E1, map_app. cbn [map].
    rewrite (entry_shows c d c1) by done. rewrite <- app_assoc. cbn [app]. f_equal. unfold description.
    apply describe_all_extend; [done|by destruct Hc|]. eapply extends_trans; [by destruct Ho|done].
Qed.

Lemma catalog_decodes ds rest c0 : Forall sendable ds -> catalog_fits ds Catalog_new -> in_u 32 (len ds) ->
  above None (map (fun d => ce_id (d_header d)) ds) = true ->
  exists c, decodeCatalog Entries LayoutFields SchemaFields Labels Stores SafeSlots (catalog_bytes ds ++ rest) c0 = ok c
    /\ description c = map canon ds.
Proof.
  intros Hs Hfit Hn Ha. unfold decodeCatalog, catalog_bytes. set (hd := head 4 (len ds)). set (bs := concat _).
  unfold readArrayHeader. rewrite (enterContainer_at _ 4 false (len ds) (bs ++ rest)); [|by rewrite <- app_assoc; apply unread_on|lia|done].
  rewrite budget_on. cbn [Nat.eqb kMaxDepth result_bind]. destruct Hfit as [F1 F2 F3 F4 F5 F6]. cbn in F1.
  rewrite (proj2 (Z.ltb_ge _ _)) by (unfold len; lia). unfold len at 1. rewrite Nat2Z.id. 
  destruct (entries_decode ds ((hd ++ bs) ++ rest) hd rest None Catalog_new) as (c & Hdec & Hdesc); try done.
  - apply catalog_new_ok.
  - split; cbn; lia.
  - by rewrite <- app_assoc.
  - by exists c.
Qed.
End Decode.

(** ** Properties *)

Lemma ids_above es : ids_ascend es = above None (map ce_id es).
Proof.
  destruct es as [|e es]; [done|]. cbn [map above andb]. revert e. induction es as [|e' es IH]; intros e; [done|].
  cbn [map above]. rewrite <- IH. done.
Qed.

Lemma description_ids cat : map (fun d => ce_id (d_header d)) (description cat) = map ce_id (entries cat).
Proof. unfold description. rewrite map_map. by apply map_ext. Qed.

Lemma described_consistent cat e : consistent (describe cat e).
Proof. unfold consistent, describe. cbn [d_header d_payload]. change (form (bare_entry e)) with (form e). by destruct (form e). Qed.

Lemma encodable_sendable cat n : catalog_wire_ok cat -> encodable cat n = true -> Forall sendable (description cat).
Proof.
  intros (_ & Hw & _) [[_ Hcap]%andb_prop _]%andb_prop. unfold description in *. rewrite Forall_forall in *. intros d Hin.
  specialize (Hw d Hin). apply in_map_iff in Hin as (e & <- & He). split_and!; [done|apply described_consistent| |].
  - destruct (encodeEntry_writes cat e Hw) as (f & [_ Hwf _] & _). done.
  - rewrite forallb_forall in Hcap. specialize (Hcap e He). by apply Nat.leb_le in Hcap.
Qed.

(** C25. What the encoder writes, whatever the buffer: nothing when the ids do not ascend, an entry is over
    the 4096-byte cap or the catalog does not fit, leaving the buffer's length; otherwise exactly the
    canonical bytes of what the catalog describes - a function of its content, not of how its pools were
    filled - with the rest of the buffer untouched, and each entry's own document shown to the caller. *)
Theorem encodeCatalog_exact (cat : Catalog) (out : list byte) (H : catalog_wire_ok cat) :
  let '(o, n, docs) := encodeCatalog cat out in
  if encodable cat (length out)
  then o = catalog_bytes (description cat) ++ drop n out /\ n = length (catalog_bytes (description cat))
       /\ docs = documents cat (entries cat)
  else n = 0%nat /\ length o = length out.
Proof.
  pose proof (encodeCatalog_bytes cat out H) as He. destruct (encodeCatalog cat out) as [[o n] docs].
  destruct (encodable _ _); [|done]. by destruct He as (-> & -> & ->).
Qed.

(** C23. A catalog survives the wire.  When the encoder wrote something and the receiver's capacities are
    enough for what was described, the receiver decodes a well-formed catalog, whatever follows in its
    buffer and whatever it held before, that describes the same entries field by field - the schema
    fields in key order and label lists without trailing holes. *)
Theorem catalog_roundtrip (Entries LayoutFields SchemaFields Labels Stores SafeSlots : nat) (cat c0 : Catalog)
  (out rest : list byte) (Hlab : Z.of_nat Labels <= 65535) (Hok : catalog_wire_ok cat)
  (Hfit : catalog_fits Entries LayoutFields SchemaFields Labels Stores SafeSlots (description cat) Catalog_new) :
  let '(o, n, _) := encodeCatalog cat out in
  n <> 0%nat ->
  exists c, decodeCatalog Entries LayoutFields SchemaFields Labels Stores SafeSlots (take n o ++ rest) c0 = ok c
    /\ description c = map canon (description cat) /\ catalog_ok c.
Proof.
  pose proof (encodeCatalog_bytes cat out Hok) as He. destruct (encodeCatalog cat out) as [[o n] docs]. intros Hn.
  destruct (encodable cat (length out)) eqn:E; [|by destruct He].
  pose proof (encodable_sendable cat _ Hok E) as Hs. destruct He as (-> & -> & _). rewrite take_app_length.
  apply andb_prop in E as [[Ha _]%andb_prop _]. destruct Hok as (_ & _ & Hlen).
  destruct (catalog_decodes Entries LayoutFields SchemaFields Labels Stores SafeSlots Hlab (description cat) rest c0 Hs Hfit) as (c & Hd & Hc).
  - unfold len, description in *. rewrite length_map. unfold in_u in *. lia.
  - by rewrite description_ids, <- ids_above.
  - exists c. split_and!; [done|done|]. by apply decodeCatalog_inv in Hd as (? & _).
Qed.

(** An entry is decoded in an empty catalog: its content fits the largest pools. *)
Lemma labels_need p : payload_ok p -> (payload_labels p <= kMaxFields * 263)%nat /\ (payload_safes p <= kMaxFields)%nat
  /\ (layouts_of p <= kMaxFields)%nat /\ (schemas_of p <= kMaxFields)%nat /\ (stores_of p <= 1)%nat.
Proof.
  assert (forall A (l : list A) (f : A -> nat) m, Forall (fun x => (f x <= m)%nat) l -> (sum_list_with f l <= length l * m)%nat) as Hsum.
  { intros A l f m H. induction H; cbn; lia. }
  assert (forall v, (safe_need v <= 1)%nat) as Hs by (intros v; unfold safe_need; destruct (sd_has v); lia).
  assert (forall A (l : list (A * SettingDefault)), (safe_needs l <= length l * 1)%nat) as Hs1.
  { intros A l. apply Hsum, Forall_forall. intros x _. apply Hs. }
  destruct p as [l|l|d]; cbn [payload_ok payload_labels payload_safes layouts_of schemas_of stores_of].
  - intros [[_ Hn] Hl]. specialize (Hs1 _ l).
    assert (layout_needs l <= length l * 263)%nat.
    { apply Hsum. eapply Forall_impl; [|exact Hl]. intros x [_ _ _ _ _ [Hb _] _ _ [Ho _] _ _]. unfold layout_need.
      pose proof (trim_length x.1.1.2). unfold kMaxCount in *. lia. }
    unfold kMaxFields in *. split_and!; lia.
  - intros [[_ Hn] [Hl _]]. specialize (Hs1 _ l).
    assert (schema_needs l <= length l * 263)%nat.
    { apply Hsum. eapply Forall_impl; [|exact Hl]. intros x [_ _ _ _ _ _ [Ho _] _ _ _ _ _ _ _]. unfold kMaxCount in *. lia. }
    unfold kMaxFields in *. split_and!; lia.
  - intros _. unfold kMaxFields. split_and!; lia.
Qed.

Lemma entry_item_canon d d' : entry_wire_ok d -> entry_wire_ok d' -> consistent d -> consistent d' ->
  entry_item d = entry_item d' -> canon d = canon d'.
Proof.
  intros H H' Hc Hc' E. set (N := Z.to_nat 65535).
  assert (Z.of_nat N <= 65535) as HN by lia.
  assert (forall d, entry_wire_ok d -> entry_fits N N N N N d Catalog_new) as Hfit.
  { intros x Hx. pose proof (labels_need _ (oe_payload _ Hx)) as (F1 & F2 & F3 & F4 & F5).
    assert (kinds_need x <= 255)%nat as F6.
    { destruct Hx. destruct oe_kinds as [Hk _]. unfold kinds_need. pose proof (trim_length (d_kinds x)). unfold kMaxCount in Hk. lia. }
    assert (kMaxFields = 64)%nat as E2 by done. rewrite E2 in *. assert (Z.of_nat N = 65535) as HN' by (subst N; lia). clearbody N.
    unfold layouts_of, schemas_of, stores_of in *. split; [split|]; cbn [used_labels labelPool safePool layoutPool schemaPool storePool Catalog_new length];
      unfold used_labels; cbn [labelPool safePool layoutPool schemaPool storePool Catalog_new length]; lia. }
  assert (pools_fit N N N N N N Catalog_new) as Hpf by (split; cbn; lia).
  pose proof (entry_decodes N N N N N N HN Catalog_new d catalog_new_ok Hpf H Hc (Hfit d H)) as D.
  pose proof (entry_decodes N N N N N N HN Catalog_new d' catalog_new_ok Hpf H' Hc' (Hfit d' H')) as D'.
  rewrite E, D' in D.
  assert (forall (x y : CatalogEntry * Catalog), ok (E := DecodeError) x = ok y -> x.1 = y.1 /\ x.2 = y.2) as Hinj by (by intros x y [= ->]).
  apply Hinj in D as [E1 E2]. cbn [fst snd] in E1, E2.
  rewrite <- (entry_shows N N N N N N HN Catalog_new d _ catalog_new_ok Hpf H Hc (Hfit d H) (extends_refl _)).
  rewrite <- (entry_shows N N N N N N HN Catalog_new d' _ catalog_new_ok Hpf H' Hc' (Hfit d' H') (extends_refl _)).
  by rewrite E1, E2.
Qed.

Lemma bytes_canon ds ds' : Forall sendable ds -> Forall sendable ds' -> in_u 32 (len ds) -> in_u 32 (len ds') ->
  catalog_bytes ds = catalog_bytes ds' -> map canon ds = map canon ds'.
Proof.
  intros Hs Hs' Hn Hn' E.
  assert (forall l, in_u 32 (len l) -> Forall sendable l -> catalog_bytes l = encode (IArr (map entry_item l)) /\ wf (IArr (map entry_item l)) = true) as Hb.
  { intros l Hl Hsl. unfold catalog_bytes. rewrite encode_arr, map_map. cbn [wf].
    assert (len (map entry_item l) = len l) as -> by (unfold len; by rewrite length_map). split; [done|].
    rewrite (proj2 (in_ub_spec _ _) Hl). apply forallb_forall. intros i (d & <- & Hd)%in_map_iff.
    rewrite Forall_forall in Hsl. by destruct (Hsl d Hd) as (_ & _ & ? & _). }
  destruct (Hb ds Hn Hs) as [B W], (Hb ds' Hn' Hs') as [B' W']. rewrite B, B' in E.
  rewrite <- (app_nil_r (encode (IArr (map entry_item ds)))), <- (app_nil_r (encode (IArr (map entry_item ds')))) in E.
  apply encode_prefix_free in E as [E _]; [|done|done]. injection E as E. clear B B' W W' Hn Hn' Hb.
  revert ds' Hs' E. induction Hs as [|d ds (H1 & H2 & _) _ IH]; intros [|d' ds'] Hs' E; try done.
  apply Forall_cons_1 in Hs' as [(H1' & H2' & _) Hs']. cbn [map] in *.
  pose proof (f_equal (hd INull) E) as E1. pose proof (f_equal (@tl _) E) as E2. cbn [hd tl] in E1, E2.
  f_equal; [by apply entry_item_canon|by apply IH].
Qed.

(** The etag identifies the content.  Two catalogs that describe the same entries have the same etag,
    however they were authored; and two that do not, up to the order of schema fields and trailing
    label holes, have different bytes under the hash. *)
Theorem etag_is_of_content (cat cat' : Catalog) (scratch : list byte) (H : catalog_wire_ok cat) (H' : catalog_wire_ok cat') :
  (description cat = description cat' -> catalogEtag cat scratch = catalogEtag cat' scratch)
  /\ (encodable cat (length scratch) = true -> encodable cat' (length scratch) = true ->
      let '(o, n, _) := encodeCatalog cat scratch in
      let '(o', n', _) := encodeCatalog cat' scratch in
      take n o = take n' o' -> map canon (description cat) = map canon (description cat')).
Proof.
  pose proof (encodeCatalog_bytes cat scratch H) as He. pose proof (encodeCatalog_bytes cat' scratch H') as He'. unfold catalogEtag.
  destruct (encodeCatalog cat scratch) as [[o n] docs]. destruct (encodeCatalog cat' scratch) as [[o' n'] docs']. split.
  - intros E. assert (encodable cat (length scratch) = encodable cat' (length scratch)) as Een.
    { unfold encodable. rewrite !ids_above, <- !description_ids, E.
      assert (forall c, forallb (capped_entry c) (entries c) = forallb (fun d => (length (encode (entry_item d)) <=? catalog_max_entry_bytes)%nat) (description c)) as Hcap.
      { intros c. unfold description. induction (entries c) as [|e es IH]; [done|]. cbn [map forallb]. by rewrite IH. }
      by rewrite !Hcap, E. }
    rewrite Een, E in He. destruct (encodable cat' _).
    + destruct He as (-> & -> & _), He' as (-> & -> & _). by rewrite !take_app_length.
    + by destruct He as [-> _], He' as [-> _].
  - intros E E'. pose proof (encodable_sendable _ _ H E) as Hs. pose proof (encodable_sendable _ _ H' E') as Hs'. rewrite E in He. rewrite E' in He'.
    destruct He as (-> & -> & _), He' as (-> & -> & _). rewrite !take_app_length. apply bytes_canon; try done.
    + destruct H as (_ & _ & H). unfold len, description, in_u in *. rewrite length_map. lia.
    + destruct H' as (_ & _ & H'). unfold len, description, in_u in *. rewrite length_map. lia.
Qed.

(** C24. No bytes make a bad catalog.  Whatever is decoded, forged or not, and whatever the catalog held: when
    the decoder succeeds every reference of the result points inside its pools, no two fields share a safe
    slot, no two entries share a field, every pool is within its capacity and the ids strictly ascend. *)
Theorem decoded_catalog_typed (Entries LayoutFields SchemaFields Labels Stores SafeSlots : nat) (inp : list byte) (c0 c : Catalog)
  (Hlab : Z.of_nat Labels <= 65535)
  (H : decodeCatalog Entries LayoutFields SchemaFields Labels Stores SafeSlots inp c0 = ok c) :
  catalog_ok c /\ CatalogTyped.pools_fit Entries LayoutFields SchemaFields Labels Stores SafeSlots c /\ ids_ascend (entries c) = true.
Proof. exact (decodeCatalog_inv Entries LayoutFields SchemaFields Labels Stores SafeSlots Hlab inp c0 c H). Qed.

(** An unsigned default above every 32-bit integer, even above 2^63, passes the range check: it is read as
    the signed -1. *)
Lemma huge_setting_reads_as_minus_one :
  decode p_setting (encode (IUint (2 ^ 64 - 1))) = ok (DInt (-1)) /\ decode p_setting (encode (IUint (2 ^ 31))) = err Malformed.
Proof. by split; vm_compute. Qed.

(** ** At concrete inputs *)

Definition sample_catalog : Catalog := history 2 1 1 5 0 2 sample_history.
Definition sample_buffer : list byte := replicate 120 Byte.x00.

Lemma sample_wire_ok : catalog_wire_ok sample_catalog.
Proof.
  split_and!.
  - exact (proj1 (told_history 2 1 1 5 0 2 sample_history ltac:(concretely))).
  - eassert (description sample_catalog = _) as -> by (vm_compute; reflexivity).
    repeat constructor; vm_compute; try done; repeat split; try done; repeat constructor; try done.
    by intros ?%elem_of_nil.
  - vm_compute. split; done.
Qed.

Lemma encodeCatalog_exact_witness :
  exists out docs, encodeCatalog sample_catalog sample_buffer = (out, 96%nat, docs) /\ drop 96 out = drop 96 sample_buffer.
Proof.
  pose proof (encodeCatalog_exact sample_catalog sample_buffer sample_wire_ok) as H.
  assert (encodable sample_catalog (length sample_buffer) = true) as E by by vm_compute. rewrite E in H.
  destruct (encodeCatalog sample_catalog sample_buffer) as [[o n] docs]. destruct H as (Ho & Hn & _).
  assert (length (catalog_bytes (description sample_catalog)) = 96%nat) as El by by vm_compute. rewrite El in Hn. subst n.
  exists o, docs. split; [done|]. rewrite Ho, <- El. apply drop_app_length.
Defined.

Lemma catalog_roundtrip_witness :
  exists c, decodeCatalog 2 1 1 5 0 2 (take 96 (encodeCatalog sample_catalog sample_buffer).1.1 ++ [Byte.xff]) sample_catalog = ok c
    /\ description c = description sample_catalog.
Proof.
  assert (catalog_fits 2 1 1 5 0 2 (description sample_catalog) Catalog_new) as Hfit by (split; vm_compute; lia).
  pose proof (catalog_roundtrip 2 1 1 5 0 2 sample_catalog sample_catalog sample_buffer [Byte.xff] ltac:(lia) sample_wire_ok Hfit) as H.
  assert ((encodeCatalog sample_catalog sample_buffer).1.2 = 96%nat) as En by by vm_compute.
  destruct (encodeCatalog sample_catalog sample_buffer) as [[o n] docs]. cbn [fst snd] in *. subst n.
  destruct (H ltac:(done)) as (c & Hd & Hc & _). exists c. split; [exact Hd|]. rewrite Hc. by vm_compute.
Defined.

Lemma etag_is_of_content_witness : catalogEtag sample_catalog sample_buffer = catalogEtag sample_catalog sample_buffer
  /\ map canon (description sample_catalog) = map canon (description sample_catalog).
Proof.
  destruct (etag_is_of_content sample_catalog sample_catalog sample_buffer sample_wire_ok sample_wire_ok) as [H1 H2].
  split; [exact (H1 eq_refl)|]. specialize (H2 ltac:(by vm_compute) ltac:(by vm_compute)).
  destruct (encodeCatalog sample_catalog sample_buffer) as [[o n] docs]. exact (H2 eq_refl).
Defined.

Lemma decoded_catalog_typed_witness :
  exists c, decodeCatalog 2 1 1 5 0 2 (take 96 (encodeCatalog sample_catalog sample_buffer).1.1) Catalog_new = ok c /\ catalog_ok c.
Proof.
  destruct (decodeCatalog 2 1 1 5 0 2 (take 96 (encodeCatalog sample_catalog sample_buffer).1.1) Catalog_new) as [c|e] eqn:E.
  - exists c. split; [done|]. exact (proj1 (decoded_catalog_typed 2 1 1 5 0 2 _ _ c ltac:(lia) E)).
  - exfalso. apply (f_equal (fun r : decoded Catalog => match r with ok _ => true | err _ => false end)) in E. by vm_compute in E.
Defined.
