(* ===== verification/MsgBlob.v ===== *)
(** * MsgBlob: BLOB_REQ, PROBE_REPORT and the store item (wire/messages/blob_req.hpp, probe_report.hpp,
    store_item.hpp), SPEC 8.4, 6.4, 8.7 *)

From S2P Require Import Prelude Sha256 CborItem CborReader CborWriter CborMessage MsgWish Blob.
#[local] Open Scope Z_scope.

Definition kBlobReqMaxChunks : Z := 32.

(** The sub-map's keys ([blob::]). *)
Module blob.
Definition ns := 1.
Definition store_id := 2.
Definition slot := 3.
Definition generation := 4.
End blob.

(** [br_chunks] is [None] for a full transfer; a full request that lists chunks, which the encoder
    refuses, has no counterpart. *)
Record BlobReqMsg := mkBlobReqMsg { br_blob : BlobId; br_chunks : option (list Z) }.

Definition set_bi_ns (v : Z) (i : BlobId) : BlobId :=
  mkBlobId v (bi_has_store_id i) (bi_store_id i) (bi_has_slot i) (bi_slot i) (bi_has_generation i) (bi_generation i).
Definition set_bi_store_id (v : Z) (i : BlobId) : BlobId :=
  mkBlobId (bi_ns i) true v (bi_has_slot i) (bi_slot i) (bi_has_generation i) (bi_generation i).
Definition set_bi_slot (v : Z) (i : BlobId) : BlobId :=
  mkBlobId (bi_ns i) (bi_has_store_id i) (bi_store_id i) true v (bi_has_generation i) (bi_generation i).
Definition set_bi_generation (v : Z) (i : BlobId) : BlobId :=
  mkBlobId (bi_ns i) (bi_has_store_id i) (bi_store_id i) (bi_has_slot i) (bi_slot i) true v.

(** A field on the catalog namespace is a refused message, both ways. *)
Definition misplaced (i : BlobId) : bool := isCatalog i && (bi_has_store_id i || bi_has_slot i).

Definition blob_keys (i : BlobId) : Z :=
  Z.b2z (negb (isCatalog i)) + Z.b2z (bi_has_store_id i) + Z.b2z (bi_has_slot i) + Z.b2z (bi_has_generation i).

Definition encodeBlobReq (m : BlobReqMsg) (out : list byte) : list byte * nat :=
  let id := br_blob m in
  let n := from_option len 0 (br_chunks m) in
  if kBlobReqMaxChunks <? n then (out, 0%nat)
  else if has (br_chunks m) && (n =? 0) then (out, 0%nat)
  else if misplaced id then (out, 0%nat)
  else finish ((mapHeader (Z.b2z (has (br_chunks m)) + Z.b2z (0 <? blob_keys id))
    ;;; w_opt (br_chunks m) (fun l => key CborKey.chunks ;;; w_list uintVal l)
    ;;; w_if (0 <? blob_keys id)
          (key CborKey.blob ;;; mapHeader (blob_keys id)
           ;;; w_if (negb (isCatalog id)) (key blob.ns ;;; uintVal (bi_ns id))
           ;;; w_if (bi_has_store_id id) (key blob.store_id ;;; uintVal (bi_store_id id))
           ;;; w_if (bi_has_slot id) (key blob.slot ;;; uintVal (bi_slot id))
           ;;; w_if (bi_has_generation id) (key blob.generation ;;; uintVal (bi_generation id))))
    (CborWriter_new out)).

Definition blob_id_field (k : Z) (id : BlobId) : ItemReader BlobId :=
  if k =? blob.ns then reading (reading p_uint (at_most 0xFF)) (fun v => ok (set_bi_ns v id))
  else if k =? blob.store_id then reading (reading p_uint (at_most 0xFF)) (fun v => ok (set_bi_store_id v id))
  else if k =? blob.slot then reading (reading p_uint (at_most 0xFF)) (fun v => ok (set_bi_slot v id))
  else if k =? blob.generation then reading (reading p_uint (at_most 0xFFFF)) (fun v => ok (set_bi_generation v id))
  else skipping id.

Definition decodeBlobId (id : BlobId) : ItemReader BlobId := fields (fun _ => ok id) blob_id_field.

Definition chunk_list (n : Z) : decoded (list Z) :=
  if kBlobReqMaxChunks <? n then err CapacityExceeded else if n =? 0 then err Malformed else ok [].

Definition blob_req_field (k : Z) (m : BlobReqMsg) : ItemReader BlobReqMsg :=
  if k =? CborKey.chunks then
    reading (p_list chunk_list (reading p_uint (at_most 0xFFFF))) (fun l => ok (mkBlobReqMsg (br_blob m) (Some l)))
  else if k =? CborKey.blob then reading (decodeBlobId (br_blob m)) (fun id => ok (mkBlobReqMsg id (br_chunks m)))
  else skipping m.

Definition decodeBlobReq (inp : list byte) : decoded BlobReqMsg :=
  decode (reading (fields (fun _ => ok (mkBlobReqMsg BlobId_default None)) blob_req_field)
    (fun m => if misplaced (br_blob m) then err Malformed else ok m)) inp.

(** ** PROBE_REPORT *)

Module probe_result.
Definition bytes_received := 1.
Definition span_ms := 2.
Definition loss_pct_x100 := 3.
Definition rtt_ms := 4.
End probe_result.

Record ProbeResult := mkProbeResult {
  pb_bytes_received : Z; pb_span_ms : Z; pb_loss_pct_x100 : Z; pb_rtt_ms : Z }.

Definition ProbeResult_new : ProbeResult := mkProbeResult 0 0 0 0.

Definition encodeProbeReport (p : ProbeResult) (out : list byte) : list byte * nat :=
  finish ((mapHeader 1
    ;;; key CborKey.probe_result ;;; mapHeader 4
    ;;; (key probe_result.bytes_received ;;; uintVal (pb_bytes_received p))
    ;;; (key probe_result.span_ms ;;; uintVal (pb_span_ms p))
    ;;; (key probe_result.loss_pct_x100 ;;; uintVal (pb_loss_pct_x100 p))
    ;;; (key probe_result.rtt_ms ;;; uintVal (pb_rtt_ms p)))
    (CborWriter_new out)).

Definition probe_result_field (k : Z) (p : ProbeResult) : ItemReader ProbeResult :=
  if k =? probe_result.bytes_received then
    reading p_uint (fun v => ok (mkProbeResult (u32 v) (pb_span_ms p) (pb_loss_pct_x100 p) (pb_rtt_ms p)))
  else if k =? probe_result.span_ms then
    reading p_uint (fun v => ok (mkProbeResult (pb_bytes_received p) (u32 v) (pb_loss_pct_x100 p) (pb_rtt_ms p)))
  else if k =? probe_result.loss_pct_x100 then
    reading p_uint (fun v => ok (mkProbeResult (pb_bytes_received p) (pb_span_ms p) (u32 v) (pb_rtt_ms p)))
  else if k =? probe_result.rtt_ms then
    reading p_uint (fun v => ok (mkProbeResult (pb_bytes_received p) (pb_span_ms p) (pb_loss_pct_x100 p) (u32 v)))
  else skipping p.

Definition probe_report_field (k : Z) (st : ProbeResult * bool) : ItemReader (ProbeResult * bool) :=
  if k =? CborKey.probe_result then
    reading (fields (fun _ => ok st.1) probe_result_field) (fun p => ok (p, true))
  else skipping st.

Definition decodeProbeReport (inp : list byte) : decoded ProbeResult :=
  decode (reading (fields (fun _ => ok (ProbeResult_new, false)) probe_report_field)
    (fun '(p, got) => if negb got then err Malformed else ok p)) inp.

Definition sent (e : list byte * nat) : list byte := take e.2 e.1.

Example blob_req_there_and_back :
  let m := mkBlobReqMsg (mkBlobId 1 true 3 true 7 true 12) (Some [4; 300]) in
  decodeBlobReq (sent (encodeBlobReq m (replicate 64 Byte.x00))) = ok m
  /\ decodeBlobReq (sent (encodeBlobReq (mkBlobReqMsg BlobId_default None) (replicate 64 Byte.x00)))
     = ok (mkBlobReqMsg BlobId_default None).
Proof. vm_compute. done. Qed.

Example probe_report_there_and_back :
  let p := mkProbeResult 8192 40 125 7 in
  decodeProbeReport (sent (encodeProbeReport p (replicate 64 Byte.x00))) = ok p.
Proof. vm_compute. done. Qed.

(** ** A store item (wire/messages/store_item.hpp), SPEC 8.7

    The document the chunks of a store's blob assemble into.  [has_digest] with its array is an optional byte
    string; the encoder writes the digest of the payload, whatever is there. *)

Module store_item.
Definition slot := 3.
Definition name := 5.
Definition kind := 6.
Definition payload := 7.
Definition digest := 11.
End store_item.

Record StoreItem := mkStoreItem {
  si_slot : Z; si_name : list byte; si_kind : list byte; si_payload : list byte; si_digest : option (list byte) }.

Definition StoreItem_new : StoreItem := mkStoreItem 0 [] [] [] None.

Definition set_si_slot (v : Z) (m : StoreItem) : StoreItem := mkStoreItem v (si_name m) (si_kind m) (si_payload m) (si_digest m).
Definition set_si_name (v : list byte) (m : StoreItem) : StoreItem := mkStoreItem (si_slot m) v (si_kind m) (si_payload m) (si_digest m).
Definition set_si_kind (v : list byte) (m : StoreItem) : StoreItem := mkStoreItem (si_slot m) (si_name m) v (si_payload m) (si_digest m).
Definition set_si_payload (v : list byte) (m : StoreItem) : StoreItem := mkStoreItem (si_slot m) (si_name m) (si_kind m) v (si_digest m).
Definition set_si_digest (v : option (list byte)) (m : StoreItem) : StoreItem := mkStoreItem (si_slot m) (si_name m) (si_kind m) (si_payload m) v.

Definition encodeStoreItem (m : StoreItem) (out : list byte) : list byte * nat :=
  finish ((mapHeader (4 + Z.b2z (has (si_digest m)))
    ;;; (key store_item.slot ;;; uintVal (si_slot m))
    ;;; (key store_item.name ;;; tstrVal (si_name m))
    ;;; (key store_item.kind ;;; tstrVal (si_kind m))
    ;;; (key store_item.payload ;;; bstrVal (si_payload m))
    ;;; w_opt (si_digest m) (fun _ => key store_item.digest ;;; bstrVal (Sha256.hash (si_payload m))))
    (CborWriter_new out)).

Definition store_item_field (k : Z) (st : StoreItem * (bool * bool * bool * bool)) : ItemReader (StoreItem * (bool * bool * bool * bool)) :=
  let '(m, (gs, gn, gk, gp)) := st in
  if k =? store_item.slot then reading (reading p_uint (at_most 0xFF)) (fun v => ok (set_si_slot v m, (true, gn, gk, gp)))
  else if k =? store_item.name then reading p_tstr (fun v => ok (set_si_name v m, (gs, true, gk, gp)))
  else if k =? store_item.kind then reading p_tstr (fun v => ok (set_si_kind v m, (gs, gn, true, gp)))
  else if k =? store_item.payload then reading p_bstr (fun v => ok (set_si_payload v m, (gs, gn, gk, true)))
  else if k =? store_item.digest then reading (reading p_bstr (sized kDigestBytes)) (fun v => ok (set_si_digest (Some v) m, (gs, gn, gk, gp)))
  else skipping st.

Definition decodeStoreItem (inp : list byte) : decoded StoreItem :=
  decode (reading (fields (fun _ => ok (StoreItem_new, (false, false, false, false))) store_item_field)
    (fun '(m, (gs, gn, gk, gp)) => if negb (gs && gn && gk && gp) then err Malformed else ok m)) inp.

(** What a receiver reports of a decoded item, as BLOB_DONE's status. *)
Definition storeItemDoneStatus (m : StoreItem) : Z :=
  match si_digest m with
  | None => BlobDoneStatus.VerifiedComplete
  | Some d => if bool_decide (Sha256.hash (si_payload m) = d) then BlobDoneStatus.VerifiedComplete else BlobDoneStatus.HashMismatch
  end.

(** *** Its codec *)

#[local] Arguments Sha256.hash : simpl never.

Definition store_item_ok (m : StoreItem) : Prop :=
  in_u 8 (si_slot m) /\ in_u 64 (len (si_name m)) /\ in_u 64 (len (si_kind m)) /\ in_u 64 (len (si_payload m)).

Definition store_item_fields (m : StoreItem) : list (Z * Item) :=
  fld store_item.slot (IUint (si_slot m))
  ++ fld store_item.name (ITstr (si_name m))
  ++ fld store_item.kind (ITstr (si_kind m))
  ++ fld store_item.payload (IBstr (si_payload m))
  ++ opt_fld store_item.digest (fun _ => IBstr (Sha256.hash (si_payload m))) (si_digest m).

(** The digest that arrives is the payload's. *)
Definition store_item_norm (m : StoreItem) : StoreItem := set_si_digest (option_map (fun _ => Sha256.hash (si_payload m)) (si_digest m)) m.

Lemma store_item_fold m : store_item_ok m ->
  fold_fields (fun k a => meaning (store_item_field k a) 3) (store_item_fields m) (StoreItem_new, (false, false, false, false))
  = ok (store_item_norm m, (true, true, true, true)).
Proof.
  intros (H1 & H2 & H3 & H4). unfold store_item_fields. do 4 seg_fld.
  unfold store_item_norm. destruct m as [sl n k p [d|]]; cbn [si_digest si_payload si_slot si_name si_kind option_map]; [|done].
  unfold opt_fld, fold_fields. cbn -[hash sized]. unfold sized. by rewrite length_hash, Nat.eqb_refl.
Qed.

#[export] Instance store_item_codec : CborMessage StoreItem.
Proof.
  refine {| msg_ok := store_item_ok; msg_fields := store_item_fields; msg_encode := encodeStoreItem; msg_decode := decodeStoreItem;
            msg_norm := store_item_norm; msg_known := [3; 5; 6; 7; 11] |}.
  - intros m Hok. pose proof Hok as (H1 & H2 & H3 & H4). unfold encodeStoreItem, store_item_fields. solve_encodes.
  - intros m Hok. pose proof Hok as (H1 & H2 & H3 & H4). unfold store_item_fields. solve_fields_wf.
    unfold wf, len. rewrite length_hash. done.
  - intros m. unfold store_item_fields. solve_known.
  - intros m kvs rest Hok Hw Hn Hf. unfold decodeStoreItem.
    apply (decode_fields store_item_field (StoreItem_new, (false, false, false, false)) _ [3; 5; 6; 7; 11] kvs (store_item_fields m) rest
      (store_item_norm m, (true, true, true, true))); try done.
    + intros k [m0 [[[gs gn] gk] gp]] Hk. unfold store_item_field. solve_skips Hk.
    + by apply store_item_fold.
  - intros inp m. apply decode_map_sound.
Defined.

(** An item sent with a digest arrives as it was, and the receiver reports it verified; a payload that is not the one
    the digest was made of is reported as a mismatch unless SHA-256 collides on the two. *)
Theorem store_item_verified (m : StoreItem) (out other : list byte) :
  store_item_ok m ->
  (let '(o, n) := encodeStoreItem m out in
   (n = 0%nat <-> (length out < length (encode (IMap (store_item_fields m))))%nat)
   /\ (n <> 0%nat -> decodeStoreItem (take n o) = ok (store_item_norm m)))
  /\ storeItemDoneStatus (store_item_norm m) = BlobDoneStatus.VerifiedComplete
  /\ (is_Some (si_digest m) -> storeItemDoneStatus (set_si_payload other (store_item_norm m)) = BlobDoneStatus.VerifiedComplete ->
      Sha256.hash other = Sha256.hash (si_payload m)).
Proof.
  intros Hok. split_and!.
  - pose proof (message_contract m out Hok) as Hc. change (msg_encode m out) with (encodeStoreItem m out) in Hc.
    destruct (encodeStoreItem m out) as [o n]. destruct Hc as (_ & H1 & H2 & _). split; [exact H1|]. intros Hn. by destruct (H2 Hn).
  - unfold storeItemDoneStatus, store_item_norm. destruct m as [sl n k p [d|]]; [|done]. cbn. by rewrite bool_decide_true.
  - intros [d Hd]. unfold storeItemDoneStatus, store_item_norm. destruct m as [sl n k p dg]. cbn in *. subst dg. cbn. by case_bool_decide.
Qed.

Lemma store_item_verified_witness :
  let m := mkStoreItem 3 [Byte.x61] [Byte.x62] [Byte.x01; Byte.x02] (Some []) in
  storeItemDoneStatus (store_item_norm m) = BlobDoneStatus.VerifiedComplete.
Proof.
  refine (proj1 (proj2 (store_item_verified (mkStoreItem 3 [Byte.x61] [Byte.x62] [Byte.x01; Byte.x02] (Some [])) [] [] _))).
  unfold store_item_ok, in_u, len. cbn. lia.
Defined.
