(* ===== verification/StateM.v ===== *)
(** * StateM: functions that run on a world

    A stateful function of the code is a total function from a world to its result and the world it leaves;
    its loops are the combinators below.  [keeps] is that a function, whatever it is run on, respects a
    preorder on worlds. *)

From S2P Require Import Prelude.

Definition StateM (W A : Type) : Type := W -> A * W.

#[export] Instance StateM_ret {W} : MRet (StateM W) := fun A a w => (a, w).
#[export] Instance StateM_bind {W} : MBind (StateM W) := fun A B k m w => let '(a, w) := m w in k a w.

Section Loops.
Context {W : Type}.
Abbreviation M := (StateM W) (only parsing).

Definition when (b : bool) (m : M ()) : M () := if b then m else mret ().

Fixpoint each {A} (f : A -> M ()) (l : list A) : M () :=
  match l with
  | [] => mret ()
  | a :: l => f a ;; each f l
  end.

(** A loop that stops at the first element it returns on. *)
Fixpoint until {A B} (f : A -> M (option B)) (l : list A) : M (option B) :=
  match l with
  | [] => mret None
  | a :: l => r ← f a; match r with Some b => mret (Some b) | None => until f l end
  end.

(** A loop over all elements that notes whether any of them did its part. *)
Fixpoint tally {A} (f : A -> M bool) (l : list A) : M bool :=
  match l with
  | [] => mret false
  | a :: l => b ← f a; b' ← tally f l; mret (b || b')
  end.

(** A loop that carries a local variable. *)
Fixpoint fold_each {A B} (f : A -> B -> M B) (l : list A) (b : B) : M B :=
  match l with
  | [] => mret b
  | a :: l => b ← f a b; fold_each f l b
  end.

Lemma run_bind {A B} (m : M A) (k : A -> M B) (w : W) : mbind k m w = k (m w).1 (m w).2.
Proof. unfold mbind, StateM_bind. by destruct (m w). Qed.

(** ** Reasoning: a preorder on worlds that every step of a function respects *)

Definition keeps (Rel : relation W) {A} (m : M A) : Prop := forall w, Rel w (m w).2.

Section Keeps.
Context (Rel : relation W) `{!PreOrder Rel}.

Lemma keeps_ret {A} (a : A) : keeps Rel (mret a).
Proof. intros w. cbn. reflexivity. Qed.

Lemma keeps_bind {A B} (m : M A) (k : A -> M B) :
  keeps Rel m -> (forall a, keeps Rel (k a)) -> keeps Rel (mbind k m).
Proof.
  intros Hm Hk w. specialize (Hm w). unfold mbind, StateM_bind. destruct (m w) as [a w']. cbn in Hm.
  etransitivity; [exact Hm|apply Hk].
Qed.

Lemma keeps_when b m : keeps Rel m -> keeps Rel (when b m).
Proof. intros Hm. destruct b; [done|apply keeps_ret]. Qed.

Lemma keeps_each {A} (f : A -> M ()) l : (forall a, keeps Rel (f a)) -> keeps Rel (each f l).
Proof. intros Hf. induction l as [|a l IH]; [apply keeps_ret|]. apply keeps_bind; auto. Qed.

Lemma keeps_until {A B} (f : A -> M (option B)) l : (forall a, keeps Rel (f a)) -> keeps Rel (until f l).
Proof.
  intros Hf. induction l as [|a l IH]; [apply keeps_ret|]. apply keeps_bind; [apply Hf|].
  intros [b|]; [apply keeps_ret|apply IH].
Qed.

Lemma keeps_tally {A} (f : A -> M bool) l : (forall a, keeps Rel (f a)) -> keeps Rel (tally f l).
Proof.
  intros Hf. induction l as [|a l IH]; [apply keeps_ret|]. apply keeps_bind; [apply Hf|]. intros b.
  apply keeps_bind; [apply IH|]. intros b'. apply keeps_ret.
Qed.

Lemma keeps_fold_each {A B} (f : A -> B -> M B) l : (forall a b, keeps Rel (f a b)) -> forall b, keeps Rel (fold_each f l b).
Proof. intros Hf. induction l as [|a l IH]; intros b; [apply keeps_ret|]. apply keeps_bind; auto. Qed.

End Keeps.
End Loops.

(** One structural step of a [keeps] goal. *)
Ltac keeps_step :=
  lazymatch goal with
  | |- keeps _ (mbind _ _) => apply keeps_bind; [typeclasses eauto| |intros ?]
  | |- keeps _ (when _ _) => apply keeps_when; [typeclasses eauto|]
  | |- keeps _ (each _ _) => apply keeps_each; [typeclasses eauto|intros ?]
  | |- keeps _ (until _ _) => apply keeps_until; [typeclasses eauto|intros ?]
  | |- keeps _ (tally _ _) => apply keeps_tally; [typeclasses eauto|intros ?]
  | |- keeps _ (fold_each _ _ _) => apply keeps_fold_each; [typeclasses eauto|intros ? ?]
  | |- keeps _ (if ?b then _ else _) => destruct b
  | |- keeps _ (match ?x with _ => _ end) => destruct x
  | |- keeps _ (let _ := _ in _) => cbv zeta
  end.
