(* ===== verification/HubSession.v ===== *)
(** * HubSession: what the hub keeps of one session (session/session.hpp), SPEC 6

    A session is reset by building a fresh one in place, so every field's default below is also what a
    torn-down session has. *)

From S2P Require Import Prelude RateLimiter Sha256 Crypto Shedding Safety Subscription Queues Tables.
From S2P Require Import MsgTrust MsgHello MsgWelcome Pairing Registry.
#[local] Open Scope Z_scope.

Inductive HubSessionState := FREE | VALIDATING | GRANTED | LIVE | STALE | CLOSED.

#[export] Instance HubSessionState_eq_dec : EqDecision HubSessionState.
Proof. solve_decision. Defined.

Definition trust_ledger_kind_max_bytes : nat := 16.
Definition kMaxPublishGrants : nat := 8.

(** The capacities of the members' class templates. *)
Definition kSubscriptionCapacity : nat := 64.
Definition kIntentRingDepth : nat := 32.
Definition kIntentRingSlotCapacity : nat := 96.
Definition kEventQueueDepth : nat := 16.
Definition kEventQueueSlotCapacity : nat := 192.

Record PublishGrant := mkPublishGrant {
  pg_used : bool; pg_channel_id : Z; pg_granted_rate_hz : Z; pg_granted_burst : Z; pg_burstRequested : bool;
  pg_limiter : IngressRateLimiter; pg_everNackedOverage : bool; pg_lastOverageNackMs : Z }.

Definition PublishGrant_new : PublishGrant :=
  {| pg_used := false; pg_channel_id := 0; pg_granted_rate_hz := 0; pg_granted_burst := 0;
  pg_burstRequested := false;
  pg_limiter := IngressRateLimiter_new intent_ingress_default_per_s 0 (S754_zero false);
  pg_everNackedOverage := false; pg_lastOverageNackMs := 0 |}.

#[export] Instance PublishGrant_fields : Fields PublishGrant := fun r =>
  mkPublishGrant (pg_used r) (pg_channel_id r) (pg_granted_rate_hz r) (pg_granted_burst r)
  (pg_burstRequested r) (pg_limiter r) (pg_everNackedOverage r) (pg_lastOverageNackMs r).
#[export] Instance pg_used_field : Field pg_used := ltac:(field_setter).
#[export] Instance pg_channel_id_field : Field pg_channel_id := ltac:(field_setter).
#[export] Instance pg_granted_rate_hz_field : Field pg_granted_rate_hz := ltac:(field_setter).
#[export] Instance pg_granted_burst_field : Field pg_granted_burst := ltac:(field_setter).
#[export] Instance pg_burstRequested_field : Field pg_burstRequested := ltac:(field_setter).
#[export] Instance pg_limiter_field : Field pg_limiter := ltac:(field_setter).
#[export] Instance pg_everNackedOverage_field : Field pg_everNackedOverage := ltac:(field_setter).
#[export] Instance pg_lastOverageNackMs_field : Field pg_lastOverageNackMs := ltac:(field_setter).


Record HubSession := mkHubSession {
  hs_state : HubSessionState; hs_session_id : Z; hs_instance_id : list byte; hs_role : Z;
  hs_helloSeenCfgGen : Z; hs_clientEtagMatched : bool; hs_clientKind : BoundedString;
  hs_clientName : BoundedString; hs_clientVer : BoundedString; hs_hasClientVer : bool; hs_presentationMode : Z;
  hs_ready : bool; hs_readyEtagMismatch : bool; hs_readyEtag : list byte; hs_grantedAtMs : Z;
  hs_subs : list SubscriptionEntry; hs_intentRing : IntentRing.t; hs_intentLimiter : IngressRateLimiter;
  hs_events : EventQueue.t; hs_publishGrants : list PublishGrant; hs_streamBundlesAccepted : Z;
  hs_streamBundlesDropped : Z; hs_lastRxMs : Z; hs_deadmanMs : Z; hs_lastTxMs : Z; hs_retainedPending : Z;
  hs_staleSinceMs : Z }.

Definition HubSession_new : HubSession :=
  {| hs_state := FREE; hs_session_id := 0; hs_instance_id := replicate instance_id_bytes Byte.x00;
  hs_role := AccessLevel.watch; hs_helloSeenCfgGen := 0; hs_clientEtagMatched := false;
  hs_clientKind := BoundedString_new trust_ledger_kind_max_bytes;
  hs_clientName := BoundedString_new kHelloMaxClientNameBytes;
  hs_clientVer := BoundedString_new client_ver_max_bytes; hs_hasClientVer := false; hs_presentationMode := 0;
  hs_ready := false; hs_readyEtagMismatch := false; hs_readyEtag := replicate etag_bytes Byte.x00;
  hs_grantedAtMs := 0; hs_subs := []; hs_intentRing := IntentRing.new kIntentRingDepth kIntentRingSlotCapacity;
  hs_intentLimiter := IngressRateLimiter_new intent_ingress_default_per_s 0 (S754_zero false);
  hs_events := EventQueue.new kEventQueueDepth kEventQueueSlotCapacity;
  hs_publishGrants := replicate kMaxPublishGrants PublishGrant_new; hs_streamBundlesAccepted := 0;
  hs_streamBundlesDropped := 0; hs_lastRxMs := 0; hs_deadmanMs := limits.deadman_default_ms; hs_lastTxMs := 0;
  hs_retainedPending := 0; hs_staleSinceMs := 0 |}.

#[export] Instance HubSession_fields : Fields HubSession := fun r =>
  mkHubSession (hs_state r) (hs_session_id r) (hs_instance_id r) (hs_role r) (hs_helloSeenCfgGen r)
  (hs_clientEtagMatched r) (hs_clientKind r) (hs_clientName r) (hs_clientVer r) (hs_hasClientVer r)
  (hs_presentationMode r) (hs_ready r) (hs_readyEtagMismatch r) (hs_readyEtag r) (hs_grantedAtMs r) (hs_subs r)
  (hs_intentRing r) (hs_intentLimiter r) (hs_events r) (hs_publishGrants r) (hs_streamBundlesAccepted r)
  (hs_streamBundlesDropped r) (hs_lastRxMs r) (hs_deadmanMs r) (hs_lastTxMs r) (hs_retainedPending r)
  (hs_staleSinceMs r).
#[export] Instance hs_state_field : Field hs_state := ltac:(field_setter).
#[export] Instance hs_session_id_field : Field hs_session_id := ltac:(field_setter).
#[export] Instance hs_instance_id_field : Field hs_instance_id := ltac:(field_setter).
#[export] Instance hs_role_field : Field hs_role := ltac:(field_setter).
#[export] Instance hs_helloSeenCfgGen_field : Field hs_helloSeenCfgGen := ltac:(field_setter).
#[export] Instance hs_clientEtagMatched_field : Field hs_clientEtagMatched := ltac:(field_setter).
#[export] Instance hs_clientKind_field : Field hs_clientKind := ltac:(field_setter).
#[export] Instance hs_clientName_field : Field hs_clientName := ltac:(field_setter).
#[export] Instance hs_clientVer_field : Field hs_clientVer := ltac:(field_setter).
#[export] Instance hs_hasClientVer_field : Field hs_hasClientVer := ltac:(field_setter).
#[export] Instance hs_presentationMode_field : Field hs_presentationMode := ltac:(field_setter).
#[export] Instance hs_ready_field : Field hs_ready := ltac:(field_setter).
#[export] Instance hs_readyEtagMismatch_field : Field hs_readyEtagMismatch := ltac:(field_setter).
#[export] Instance hs_readyEtag_field : Field hs_readyEtag := ltac:(field_setter).
#[export] Instance hs_grantedAtMs_field : Field hs_grantedAtMs := ltac:(field_setter).
#[export] Instance hs_subs_field : Field hs_subs := ltac:(field_setter).
#[export] Instance hs_intentRing_field : Field hs_intentRing := ltac:(field_setter).
#[export] Instance hs_intentLimiter_field : Field hs_intentLimiter := ltac:(field_setter).
#[export] Instance hs_events_field : Field hs_events := ltac:(field_setter).
#[export] Instance hs_publishGrants_field : Field hs_publishGrants := ltac:(field_setter).
#[export] Instance hs_streamBundlesAccepted_field : Field hs_streamBundlesAccepted := ltac:(field_setter).
#[export] Instance hs_streamBundlesDropped_field : Field hs_streamBundlesDropped := ltac:(field_setter).
#[export] Instance hs_lastRxMs_field : Field hs_lastRxMs := ltac:(field_setter).
#[export] Instance hs_deadmanMs_field : Field hs_deadmanMs := ltac:(field_setter).
#[export] Instance hs_lastTxMs_field : Field hs_lastTxMs := ltac:(field_setter).
#[export] Instance hs_retainedPending_field : Field hs_retainedPending := ltac:(field_setter).
#[export] Instance hs_staleSinceMs_field : Field hs_staleSinceMs := ltac:(field_setter).


Definition occupied (s : HubSession) : bool :=
  match hs_state s with FREE | CLOSED => false | _ => true end.

(** [reset()] destroys the session and builds a new one in its place. *)
Definition reset (s : HubSession) : HubSession := HubSession_new.

(** ** Publish grants *)

Definition grant_for (ch : Z) (g : PublishGrant) : bool := pg_used g && (pg_channel_id g =? ch).

Definition publishGrantFor (ch : Z) (s : HubSession) : option nat := first_index (grant_for ch) (hs_publishGrants s).

Definition removePublishGrant (ch : Z) (s : HubSession) : HubSession :=
  match publishGrantFor ch s with
  | Some i => s <| hs_publishGrants ::= alter (fun g => g <| pg_used := false |>) i |>
  | None => s
  end.

(** [granted_rate_hz < 1.0f ? 1.0f : granted_rate_hz], as [uint32_t]. *)
Definition grant_tokens_per_s (rate : Z) : Z :=
  let one := f32_of_Z 1 in
  u32 (f32_trunc (if f32_lt (f32_of_bits rate) one then one else f32_of_bits rate)).

Definition addPublishGrant (ch rate nowMs burst : Z) (burstRequested : bool) (s : HubSession) : HubSession * bool :=
  let ratePerSec := grant_tokens_per_s rate in
  let capacity := if hz_positive burst then burst else f32_to_bits (f32_of_Z ratePerSec) in
  let write (g : PublishGrant) :=
    g <| pg_granted_rate_hz := rate |> <| pg_granted_burst := capacity |> <| pg_burstRequested := burstRequested |>
      <| pg_limiter := IngressRateLimiter_new ratePerSec nowMs (f32_of_bits capacity) |>
      <| pg_everNackedOverage := false |> <| pg_lastOverageNackMs := 0 |> in
  match publishGrantFor ch s with
  | Some i => (s <| hs_publishGrants ::= alter write i |>, true)
  | None =>
      match first_index (fun g => negb (pg_used g)) (hs_publishGrants s) with
      | None => (s, false)
      | Some i =>
          (s <| hs_publishGrants ::= alter (fun g => write (g <| pg_used := true |> <| pg_channel_id := ch |>)) i |>, true)
      end
  end.

(** ** Lemmas *)

(** A grant is for one channel at most. *)
Definition grants_ok (s : HubSession) : Prop :=
  NoDup (pg_channel_id <$> List.filter pg_used (hs_publishGrants s)).

Lemma occupied_reset s : occupied (reset s) = false.
Proof. done. Qed.
