(* ===== verification/HubState.v ===== *)
(** * HubState: the state of the hub (hub/hub.hpp)

    [Hub] is the class's data members and [Slot] the structure of one transport with the session it
    serves.  A transport is named by a number; a flag that only says whether the member after it means
    anything is an [option].  [_digests] is the side of the digest arrays that [_digestSide] points at, as
    far as [_digestCount]; the scratch arrays the code reuses between calls are not part of the state. *)

From S2P Require Import Prelude RateLimiter SerialArith Crypto Safety Subscription Queues Tables.
From S2P Require Import StateChannel MsgIntent MsgTrust MsgHello MsgBlob Blob Pairing Catalog Registry HubSession.
#[local] Open Scope Z_scope.

Abbreviation Transport := nat (only parsing).

Definition kHubMaxSessions : nat := 4.
Definition kHubMaxTrials : nat := 32.
Definition kSlotCapacity : nat := kHubMaxSessions + 1.
Definition kRetainedStates : nat := 32.
Definition kBlobChunksPerTick : nat := 2.
Definition kBlobHoldAbortMs : Z := 5000.
Definition kCatalogScratchBytes : nat := Z.to_nat 32768.
Definition kEntryCapacity : nat := 48.
Definition kLogRingDepth : nat := 32.
Definition kLogRingSlotCapacity : nat := 192.

Inductive IntentValueKind := KindU64 | KindI64 | KindF32 | KindBool | KindTstr | KindBstr.

#[export] Instance IntentValueKind_eq_dec : EqDecision IntentValueKind.
Proof. solve_decision. Defined.

Definition kind_of (v : IntentValue) : IntentValueKind :=
  match v with
  | VU64 _ => KindU64 | VI64 _ => KindI64 | VF32 _ => KindF32 | VBool _ => KindBool | VTstr _ => KindTstr | VBstr _ => KindBstr
  end.

Record PushRecord := mkPushRecord {
  pr_channel_id : Z; pr_lastSeq : Z; pr_valid : bool; pr_shedCounter : Z }.

Definition PushRecord_new : PushRecord :=
  {| pr_channel_id := 0; pr_lastSeq := 0; pr_valid := false; pr_shedCounter := 0 |}.

#[export] Instance PushRecord_fields : Fields PushRecord := fun r =>
  mkPushRecord (pr_channel_id r) (pr_lastSeq r) (pr_valid r) (pr_shedCounter r).
#[export] Instance pr_channel_id_field : Field pr_channel_id := ltac:(field_setter).
#[export] Instance pr_lastSeq_field : Field pr_lastSeq := ltac:(field_setter).
#[export] Instance pr_valid_field : Field pr_valid := ltac:(field_setter).
#[export] Instance pr_shedCounter_field : Field pr_shedCounter := ltac:(field_setter).


Record ConflictNack := mkConflictNack {
  cn_used : bool; cn_source : Z; cn_lastMs : Z }.

Definition ConflictNack_new : ConflictNack :=
  {| cn_used := false; cn_source := 0; cn_lastMs := 0 |}.

#[export] Instance ConflictNack_fields : Fields ConflictNack := fun r =>
  mkConflictNack (cn_used r) (cn_source r) (cn_lastMs r).
#[export] Instance cn_used_field : Field cn_used := ltac:(field_setter).
#[export] Instance cn_source_field : Field cn_source := ltac:(field_setter).
#[export] Instance cn_lastMs_field : Field cn_lastMs := ltac:(field_setter).


Record PendingBlob := mkPendingBlob {
  pb_active : bool; pb_id : BlobId; pb_totalBytes : Z; pb_generation : Z; pb_reqSeq : option Z; pb_full : bool;
  pb_nextIndex : Z; pb_cursor : nat; pb_chunks : list Z; pb_inFlight : Z; pb_holding : bool; pb_holdSinceMs : Z }.

Definition PendingBlob_new : PendingBlob :=
  {| pb_active := false; pb_id := BlobId_default; pb_totalBytes := 0; pb_generation := 0; pb_reqSeq := None;
  pb_full := true; pb_nextIndex := 0; pb_cursor := 0%nat; pb_chunks := []; pb_inFlight := 0;
  pb_holding := false; pb_holdSinceMs := 0 |}.

#[export] Instance PendingBlob_fields : Fields PendingBlob := fun r =>
  mkPendingBlob (pb_active r) (pb_id r) (pb_totalBytes r) (pb_generation r) (pb_reqSeq r) (pb_full r)
  (pb_nextIndex r) (pb_cursor r) (pb_chunks r) (pb_inFlight r) (pb_holding r) (pb_holdSinceMs r).
#[export] Instance pb_active_field : Field pb_active := ltac:(field_setter).
#[export] Instance pb_id_field : Field pb_id := ltac:(field_setter).
#[export] Instance pb_totalBytes_field : Field pb_totalBytes := ltac:(field_setter).
#[export] Instance pb_generation_field : Field pb_generation := ltac:(field_setter).
#[export] Instance pb_reqSeq_field : Field pb_reqSeq := ltac:(field_setter).
#[export] Instance pb_full_field : Field pb_full := ltac:(field_setter).
#[export] Instance pb_nextIndex_field : Field pb_nextIndex := ltac:(field_setter).
#[export] Instance pb_cursor_field : Field pb_cursor := ltac:(field_setter).
#[export] Instance pb_chunks_field : Field pb_chunks := ltac:(field_setter).
#[export] Instance pb_inFlight_field : Field pb_inFlight := ltac:(field_setter).
#[export] Instance pb_holding_field : Field pb_holding := ltac:(field_setter).
#[export] Instance pb_holdSinceMs_field : Field pb_holdSinceMs := ltac:(field_setter).


Record Slot := mkSlot {
  sl_transport : option Transport; sl_session : HubSession; sl_pushRecords : list PushRecord;
  sl_nonce : list byte; sl_clientNonce : list byte; sl_hasClientNonce : bool; sl_sigRequested : bool;
  sl_signPending : bool; sl_signDelivered : bool; sl_authFailures : Z; sl_congestionLevel : Z;
  sl_criticalStalling : bool; sl_criticalStallSinceMs : Z; sl_probeReport : option ProbeResult;
  sl_conflictNacks : list ConflictNack; sl_blob : PendingBlob }.

Definition Slot_new : Slot :=
  {| sl_transport := None; sl_session := HubSession_new;
  sl_pushRecords := replicate kSubscriptionCapacity PushRecord_new; sl_nonce := replicate 8 Byte.x00;
  sl_clientNonce := replicate kTrustClientNonceBytes Byte.x00; sl_hasClientNonce := false;
  sl_sigRequested := false; sl_signPending := false; sl_signDelivered := false; sl_authFailures := 0;
  sl_congestionLevel := 0; sl_criticalStalling := false; sl_criticalStallSinceMs := 0; sl_probeReport := None;
  sl_conflictNacks := replicate kMaxSources ConflictNack_new; sl_blob := PendingBlob_new |}.

#[export] Instance Slot_fields : Fields Slot := fun r =>
  mkSlot (sl_transport r) (sl_session r) (sl_pushRecords r) (sl_nonce r) (sl_clientNonce r)
  (sl_hasClientNonce r) (sl_sigRequested r) (sl_signPending r) (sl_signDelivered r) (sl_authFailures r)
  (sl_congestionLevel r) (sl_criticalStalling r) (sl_criticalStallSinceMs r) (sl_probeReport r)
  (sl_conflictNacks r) (sl_blob r).
#[export] Instance sl_transport_field : Field sl_transport := ltac:(field_setter).
#[export] Instance sl_session_field : Field sl_session := ltac:(field_setter).
#[export] Instance sl_pushRecords_field : Field sl_pushRecords := ltac:(field_setter).
#[export] Instance sl_nonce_field : Field sl_nonce := ltac:(field_setter).
#[export] Instance sl_clientNonce_field : Field sl_clientNonce := ltac:(field_setter).
#[export] Instance sl_hasClientNonce_field : Field sl_hasClientNonce := ltac:(field_setter).
#[export] Instance sl_sigRequested_field : Field sl_sigRequested := ltac:(field_setter).
#[export] Instance sl_signPending_field : Field sl_signPending := ltac:(field_setter).
#[export] Instance sl_signDelivered_field : Field sl_signDelivered := ltac:(field_setter).
#[export] Instance sl_authFailures_field : Field sl_authFailures := ltac:(field_setter).
#[export] Instance sl_congestionLevel_field : Field sl_congestionLevel := ltac:(field_setter).
#[export] Instance sl_criticalStalling_field : Field sl_criticalStalling := ltac:(field_setter).
#[export] Instance sl_criticalStallSinceMs_field : Field sl_criticalStallSinceMs := ltac:(field_setter).
#[export] Instance sl_probeReport_field : Field sl_probeReport := ltac:(field_setter).
#[export] Instance sl_conflictNacks_field : Field sl_conflictNacks := ltac:(field_setter).
#[export] Instance sl_blob_field : Field sl_blob := ltac:(field_setter).


Record SourceQuiet := mkSourceQuiet {
  sq_lastActiveMs : Z; sq_playoutEndUs : Z; sq_windowMs : Z }.

Definition SourceQuiet_new : SourceQuiet :=
  {| sq_lastActiveMs := 0; sq_playoutEndUs := 0; sq_windowMs := 0 |}.

#[export] Instance SourceQuiet_fields : Fields SourceQuiet := fun r =>
  mkSourceQuiet (sq_lastActiveMs r) (sq_playoutEndUs r) (sq_windowMs r).
#[export] Instance sq_lastActiveMs_field : Field sq_lastActiveMs := ltac:(field_setter).
#[export] Instance sq_playoutEndUs_field : Field sq_playoutEndUs := ltac:(field_setter).
#[export] Instance sq_windowMs_field : Field sq_windowMs := ltac:(field_setter).


Record TrialEntry := mkTrialEntry {
  te_bits : Z; te_session_id : Z; te_channel_id : Z; te_key : Z; te_kind : IntentValueKind }.

Definition TrialEntry_new : TrialEntry :=
  {| te_bits := 0; te_session_id := 0; te_channel_id := 0; te_key := 0; te_kind := KindU64 |}.

#[export] Instance TrialEntry_fields : Fields TrialEntry := fun r =>
  mkTrialEntry (te_bits r) (te_session_id r) (te_channel_id r) (te_key r) (te_kind r).
#[export] Instance te_bits_field : Field te_bits := ltac:(field_setter).
#[export] Instance te_session_id_field : Field te_session_id := ltac:(field_setter).
#[export] Instance te_channel_id_field : Field te_channel_id := ltac:(field_setter).
#[export] Instance te_key_field : Field te_key := ltac:(field_setter).
#[export] Instance te_kind_field : Field te_kind := ltac:(field_setter).


Record EntryDigest := mkEntryDigest { ed_id : Z; ed_digest : list byte }.

#[export] Instance EntryDigest_eq_dec : EqDecision EntryDigest.
Proof. solve_decision. Defined.

Record Hub := mkHub {
  _retained : list RetainedStore.Entry; _slots : list Slot; _etag : list byte; _catalogEncoded : list byte;
  _digests : list EntryDigest; _fixedCount : nat;
  _lastUpdateMs : Z; _idProduct : list byte; _idFwVersion : list byte; _idHubName : list byte;
  _hubInstanceId : Z; _wsPort : Z; _ipv4 : Z; _bootId : Z; _cfgGen : Z; _monoMs : MonotonicMs;
  _dispatchSeq : option Z; _intentSession : Z; _safetyWord : Z; _safetyCause : Z; _safetyOwnerSession : Z;
  _estopSeq : Z; _safetyModes : Z; _estopCutsPowerDeclared : bool; _estopCutsPower : bool; _configMode : bool;
  _pairing : PairingManager; _ownership : SourceOwnershipTable; _sourceQuiet : list SourceQuiet;
  _trials : list TrialEntry; _trialGen : Z; _pairedStoreId : option Z; _presenceWasOpen : bool;
  _inlineSigning : bool; _logRing : ReplayRing.t }.

Definition Hub_new : Hub :=
  {| _retained := RetainedStore.new; _slots := replicate kSlotCapacity Slot_new;
  _etag := replicate etag_bytes Byte.x00; _catalogEncoded := []; _digests := []; _fixedCount := 0%nat; _lastUpdateMs := 0; _idProduct := [];
  _idFwVersion := []; _idHubName := []; _hubInstanceId := 0; _wsPort := 0; _ipv4 := 0; _bootId := 0;
  _cfgGen := 1; _monoMs := MonotonicMs_new; _dispatchSeq := None; _intentSession := 0; _safetyWord := 0;
  _safetyCause := 0; _safetyOwnerSession := 0; _estopSeq := 0; _safetyModes := 0;
  _estopCutsPowerDeclared := false; _estopCutsPower := false; _configMode := false;
  _pairing := PairingManager_new; _ownership := SourceOwnershipTable_new;
  _sourceQuiet := replicate kMaxSources SourceQuiet_new; _trials := replicate kHubMaxTrials TrialEntry_new;
  _trialGen := 0; _pairedStoreId := None; _presenceWasOpen := false; _inlineSigning := false;
  _logRing := ReplayRing.new kLogRingDepth kLogRingSlotCapacity |}.

#[export] Instance Hub_fields : Fields Hub := fun r =>
  mkHub (_retained r) (_slots r) (_etag r) (_catalogEncoded r) (_digests r) (_fixedCount r) (_lastUpdateMs r) (_idProduct r)
  (_idFwVersion r) (_idHubName r) (_hubInstanceId r) (_wsPort r) (_ipv4 r) (_bootId r) (_cfgGen r) (_monoMs r)
  (_dispatchSeq r) (_intentSession r) (_safetyWord r) (_safetyCause r) (_safetyOwnerSession r) (_estopSeq r)
  (_safetyModes r) (_estopCutsPowerDeclared r) (_estopCutsPower r) (_configMode r) (_pairing r) (_ownership r)
  (_sourceQuiet r) (_trials r) (_trialGen r) (_pairedStoreId r) (_presenceWasOpen r) (_inlineSigning r)
  (_logRing r).
#[export] Instance _retained_field : Field _retained := ltac:(field_setter).
#[export] Instance _slots_field : Field _slots := ltac:(field_setter).
#[export] Instance _etag_field : Field _etag := ltac:(field_setter).
#[export] Instance _catalogEncoded_field : Field _catalogEncoded := ltac:(field_setter).
#[export] Instance _digests_field : Field _digests := ltac:(field_setter).
#[export] Instance _fixedCount_field : Field _fixedCount := ltac:(field_setter).
#[export] Instance _lastUpdateMs_field : Field _lastUpdateMs := ltac:(field_setter).
#[export] Instance _idProduct_field : Field _idProduct := ltac:(field_setter).
#[export] Instance _idFwVersion_field : Field _idFwVersion := ltac:(field_setter).
#[export] Instance _idHubName_field : Field _idHubName := ltac:(field_setter).
#[export] Instance _hubInstanceId_field : Field _hubInstanceId := ltac:(field_setter).
#[export] Instance _wsPort_field : Field _wsPort := ltac:(field_setter).
#[export] Instance _ipv4_field : Field _ipv4 := ltac:(field_setter).
#[export] Instance _bootId_field : Field _bootId := ltac:(field_setter).
#[export] Instance _cfgGen_field : Field _cfgGen := ltac:(field_setter).
#[export] Instance _monoMs_field : Field _monoMs := ltac:(field_setter).
#[export] Instance _dispatchSeq_field : Field _dispatchSeq := ltac:(field_setter).
#[export] Instance _intentSession_field : Field _intentSession := ltac:(field_setter).
#[export] Instance _safetyWord_field : Field _safetyWord := ltac:(field_setter).
#[export] Instance _safetyCause_field : Field _safetyCause := ltac:(field_setter).
#[export] Instance _safetyOwnerSession_field : Field _safetyOwnerSession := ltac:(field_setter).
#[export] Instance _estopSeq_field : Field _estopSeq := ltac:(field_setter).
#[export] Instance _safetyModes_field : Field _safetyModes := ltac:(field_setter).
#[export] Instance _estopCutsPowerDeclared_field : Field _estopCutsPowerDeclared := ltac:(field_setter).
#[export] Instance _estopCutsPower_field : Field _estopCutsPower := ltac:(field_setter).
#[export] Instance _configMode_field : Field _configMode := ltac:(field_setter).
#[export] Instance _pairing_field : Field _pairing := ltac:(field_setter).
#[export] Instance _ownership_field : Field _ownership := ltac:(field_setter).
#[export] Instance _sourceQuiet_field : Field _sourceQuiet := ltac:(field_setter).
#[export] Instance _trials_field : Field _trials := ltac:(field_setter).
#[export] Instance _trialGen_field : Field _trialGen := ltac:(field_setter).
#[export] Instance _pairedStoreId_field : Field _pairedStoreId := ltac:(field_setter).
#[export] Instance _presenceWasOpen_field : Field _presenceWasOpen := ltac:(field_setter).
#[export] Instance _inlineSigning_field : Field _inlineSigning := ltac:(field_setter).
#[export] Instance _logRing_field : Field _logRing := ltac:(field_setter).


(** What the hub assigns in structures of other components. *)
#[export] Instance PendingKnock_fields : Fields PendingKnock := fun r =>
  mkPendingKnock (pk_instance_id r) (pk_session_id r) (pk_expiresAtMs r) (pk_mode r) (pk_asked r) (pk_kind r) (pk_name r)
    (pk_version r) (pk_reapproval r) (pk_used r).
#[export] Instance pk_asked_field : Field pk_asked := ltac:(field_setter).
#[export] Instance pk_kind_field : Field pk_kind := ltac:(field_setter).
#[export] Instance pk_name_field : Field pk_name := ltac:(field_setter).
#[export] Instance pk_version_field : Field pk_version := ltac:(field_setter).
#[export] Instance pk_reapproval_field : Field pk_reapproval := ltac:(field_setter).

#[export] Instance PairedEntry_fields : Fields PairedEntry := fun r =>
  mkPairedEntry (pe_instance_id r) (pe_token r) (pe_role r) (pe_state r) (pe_presentationMode r) (pe_pairingMode r)
    (pe_kind r) (pe_name r) (pe_version r) (pe_firstSeen r) (pe_lastSeen r) (pe_used r).
#[export] Instance pe_kind_field : Field pe_kind := ltac:(field_setter).
#[export] Instance pe_name_field : Field pe_name := ltac:(field_setter).
#[export] Instance pe_version_field : Field pe_version := ltac:(field_setter).
#[export] Instance pe_presentationMode_field : Field pe_presentationMode := ltac:(field_setter).

#[export] Instance PairingManager_fields : Fields PairingManager := fun r =>
  mkPairingManager (pm_entries r) (pm_pending r) (pm_pin r) (pm_windowOpenedMs r) (pm_presenceOpenedMs r) (pm_wallSeconds r)
    (pm_generation r) (pm_presenceDefaultRole r) (pm_autoKeepMax r) (pm_windowOpen r) (pm_presenceOpen r)
    (pm_knockApproveEnabled r) (pm_dirty r) (pm_failCount r).
#[export] Instance pm_entries_field : Field pm_entries := ltac:(field_setter).
#[export] Instance pm_pending_field : Field pm_pending := ltac:(field_setter).

#[export] Instance SubscriptionEntry_fields : Fields SubscriptionEntry := fun r =>
  mkSubscriptionEntry (channel_id r) (granted_rate_hz r) (priority r) (ceiling_hz r) (everPushed r) (dueFracUs r) (dueMs r).
#[export] Instance ceiling_hz_field : Field ceiling_hz := ltac:(field_setter).
#[export] Instance everPushed_field : Field everPushed := ltac:(field_setter).
