(* ===== verification/HubWorld.v ===== *)
(** * HubWorld: what the hub calls, and the monad its functions run in (hub/hub.hpp, transport/transport.hpp)

    [Call] lists every call the hub makes outside the library: its transports, the clock, the delegate and
    the crypto provider's signatures, with the type of what comes back.  The environment answers each call
    and may change by doing so; it does not call back into the hub.  Every call is recorded with its answer,
    latest first, so that a theorem can speak of what the hub did.  A function of the hub that the code can
    finish is a total function on [World]. *)

From S2P Require Import Prelude StateM Crypto Safety Frame StreamBundle Blob MsgIntent Catalog HubSession HubState.
#[local] Open Scope Z_scope.

(** [TransportProperties], as far as the hub reads it. *)
Inductive BindingKind := unspecified | websocket | espnow | ble_gatt | serial | in_process.

#[export] Instance BindingKind_eq_dec : EqDecision BindingKind.
Proof. solve_decision. Defined.

Record TransportProperties := mkTransportProperties { tp_mtu : Z; tp_binding : BindingKind }.

Record BlobView := mkBlobView { bw_bytes : list byte; bw_generation : Z }.

Inductive Call :=
  (* ITransport *)
  | t_open (t : Transport) | t_close (t : Transport) | t_write (t : Transport) (frame : list byte)
  | t_read (t : Transport) | t_properties (t : Transport)
  (* IClock *)
  | nowUs
  (* HubDelegate *)
  | validateToken (instance_id token : list byte) (hasToken : bool)
  | applyIntent (channel : Z) (requested : list IntentValueField) (role : Z)
  | intentNackDetail (channel code : Z)
  | onEstop (cause origin : Z)
  | onSessionJoined (session : Z) | onSessionLeft (session : Z) | onSessionStale (session : Z)
  | oscMaxHz
  | sourceForChannel (channel : Z)
  | onSourceOwnership (source owner reason : Z)
  | sourceKind (source : Z) | sourceQuiet (source : Z)
  | canClearEstop
  | admitsUnderPause (channel : Z) (value : list IntentValueField) (overrideLatched : bool)
  | onStreamBundle (channel session : Z) (bundle : BundleView)
  | scheduleLatencyUs (channel : Z) | scheduleHorizonMs (channel : Z)
  | readBlob (ns store_id slot : Z)
  | onBlobDone (session : Z) (id : BlobId) (status : Z)
  | trialBaseline (channel key : Z)
  | applyTrialIntent (channel : Z) (requested : list IntentValueField) (role : Z)
  | restoreTrial (channel : Z) (baselines : list IntentValueField)
  | onTrialCommit (channel : Z) (keys : list IntentValueField)
  (* ICrypto, where it keeps a key *)
  | signP256 (message : list byte) | publicKey.

(** An intent's answer comes with the [cfgChanged] it set; a signature or key of size 0 is the empty list. *)
Definition Answer (c : Call) : Type :=
  match c with
  | t_open _ | t_write _ _ | sourceQuiet _ | canClearEstop | admitsUnderPause _ _ _ | restoreTrial _ _ => bool
  | t_read _ => option FrameBuffer
  | t_properties _ => TransportProperties
  | nowUs | validateToken _ _ _ | oscMaxHz | sourceKind _ | scheduleLatencyUs _ | scheduleHorizonMs _ => Z
  | applyIntent _ _ _ | applyTrialIntent _ _ _ => Result (list IntentValueField) Z * bool
  | intentNackDetail _ _ | signP256 _ | publicKey => list byte
  | sourceForChannel _ => option Z
  | readBlob _ _ _ => option BlobView
  | trialBaseline _ _ => option IntentValue
  | t_close _ | onEstop _ _ | onSessionJoined _ | onSessionLeft _ | onSessionStale _ | onSourceOwnership _ _ _
  | onStreamBundle _ _ _ | onBlobDone _ _ _ | onTrialCommit _ _ => ()
  end.

Class Env (E : Type) := answer (c : Call) : E -> Answer c * E.

Record Event := Did { what : Call; came_back : Answer what }.

(** ** The state a call of the hub runs on *)

(** [w_seen] is not the code's: next to each call of the trace it keeps the hub and the catalog as they were
    when the call was made, so that a theorem can speak of that very moment. *)
Record World (E R : Type) := mkWorld {
  w_hub : Hub; w_catalog : Catalog.Catalog; w_env : E; w_rng : R; w_trace : list Event;
  w_seen : list (Hub * Catalog.Catalog) }.
Arguments mkWorld {E R} _ _ _ _ _ _.
Arguments w_hub {E R} _.
Arguments w_catalog {E R} _.
Arguments w_env {E R} _.
Arguments w_rng {E R} _.
Arguments w_trace {E R} _.
Arguments w_seen {E R} _.

Abbreviation HubM E R := (StateM (World E R)).

(** [while (v == 0) v = rng.nextU32();] ends for the generators of [core/rng.hpp]; for others it is what
    the hub relies on. *)
Definition redraw {R} `{IRandom R} (g' g : R) : Prop := rng_nextU32 g = (0, g').
Class FairRandom (R : Type) `{IRandom R} := fair (g : R) : Acc redraw g.

Section Monad.
Context {E R : Type} `{Env E} `{FairRandom R}.

Abbreviation M := (HubM E R) (only parsing).

Definition get : M Hub := fun w => (w_hub w, w).
Definition gets {A} (f : Hub -> A) : M A := fun w => (f (w_hub w), w).
Definition modify (f : Hub -> Hub) : M () := fun w =>
  ((), mkWorld (f (w_hub w)) (w_catalog w) (w_env w) (w_rng w) (w_trace w) (w_seen w)).
Definition the_catalog : M Catalog.Catalog := fun w => (w_catalog w, w).
Definition call (c : Call) : M (Answer c) := fun w =>
  let '(a, e) := answer c (w_env w) in
  (a, mkWorld (w_hub w) (w_catalog w) e (w_rng w) (Did c a :: w_trace w) ((w_hub w, w_catalog w) :: w_seen w)).
(** The generator is handed to whoever draws from it. *)
Definition draw {A} (f : R -> A * R) : M A := fun w =>
  let '(a, g) := f (w_rng w) in (a, mkWorld (w_hub w) (w_catalog w) (w_env w) g (w_trace w) (w_seen w)).

Fixpoint nonzero_from (g : R) (HA : Acc redraw g) {struct HA} : Z * R :=
  match rng_nextU32 g as p return rng_nextU32 g = p -> Z * R with
  | (v, g') =>
      match v as v return rng_nextU32 g = (v, g') -> Z * R with
      | 0 => fun Heq => nonzero_from g' (Acc_inv HA Heq)
      | v => fun _ => (v, g')
      end
  end eq_refl.

(** [do { v = rng.nextU32(); } while (v == 0);] *)
Definition draw_nonzero : M Z := draw (fun g => nonzero_from g (fair g)).

(** Slots are referred to by their index in the array. *)
Definition slot_at (i : nat) : M Slot := gets (fun h => default Slot_new (_slots h !! i)).
Definition on_slot (i : nat) (f : Slot -> Slot) : M () := modify (fun h => h <| _slots ::= alter f i |>).
Definition on_session (i : nat) (f : HubSession -> HubSession) : M () :=
  on_slot i (fun s => s <| sl_session ::= f |>).
Definition session_at (i : nat) : M HubSession := s ← slot_at i; mret (sl_session s).

Definition slot_ids : list nat := seq 0 kSlotCapacity.

(** What reads the world keeps any preorder on worlds. *)
Section Keeps.
Context (Rel : relation (World E R)) `{!PreOrder Rel}.

Lemma keeps_gets {A} (f : Hub -> A) : keeps Rel (gets f).
Proof. intros w. cbn. reflexivity. Qed.
Lemma keeps_get : keeps Rel get.
Proof. intros w. cbn. reflexivity. Qed.
Lemma keeps_catalog : keeps Rel the_catalog.
Proof. intros w. cbn. reflexivity. Qed.
Lemma keeps_slot_at i : keeps Rel (slot_at i).
Proof. apply keeps_gets. Qed.
Lemma keeps_session_at i : keeps Rel (session_at i).
Proof. apply keeps_bind; [done|apply keeps_slot_at|]. intros s. by apply keeps_ret. Qed.

End Keeps.
End Monad.

Create HintDb hub.
