(* ===== verification/HubCore.v ===== *)
(** * HubCore: what every handler of the hub uses (hub/hub_impl.hpp)

    Sending, the retained snapshots, events, and the life of a session: marking it stale, tearing it down,
    parking it with its transport gone, evicting it.  A buffer the code fills and then sends a prefix of is
    the list of the bytes sent; the encoders' 0 is the empty list. *)

From S2P Require Import Prelude ByteIO SerialArith RateLimiter Tables Crypto Safety Frame MsgNack MsgIntent Queues.
From S2P Require Import StateChannel Subscription MsgTrust MsgHello Pairing Catalog Registry HubSession HubState.
From S2P Require Import StateM HubWorld CborItem CborMessage.
#[local] Open Scope Z_scope.

(** [putX(s.subspan(at, n), v)] in place. *)
Definition put_at (i : nat) (put : list byte -> list byte * nat) (out : list byte) : list byte := fst (on_subspan i put out).
Definition put8 (i : nat) (v : Z) : list byte -> list byte := put_at i (fun o => putU8 o v).
Definition put16 (i : nat) (v : Z) : list byte -> list byte := put_at i (fun o => putU16 o v).
Definition put32 (i : nat) (v : Z) : list byte -> list byte := put_at i (fun o => putU32 o v).

Definition has_bit (word bit : Z) : bool := negb (Z.land word bit =? 0).
Definition clear_bit (word bit : Z) : Z := Z.land word (u8 (Z.lnot bit)).

Section Core.
Context {E R : Type} `{Env E} `{IRandom R}.
Abbreviation M := (HubM E R) (only parsing).

(** ** Sending *)

Definition sendFrameTo (t : Transport) (type channel : Z) (payload : list byte) (sq : Z) : M bool :=
  let h := mkFrameHeader type 0 channel sq (u16 (Z.of_nat (length payload))) in
  let '(buf, pos) := encodeFrameHeader h (replicate kFrameBufferCapacity Byte.x00) in
  if (pos =? 0)%nat then mret false
  else if (kFrameBufferCapacity - pos <? length payload)%nat then mret false
  else call (t_write t (take (pos + length payload) (splice pos payload buf))).

(** A NACK answers the frame being dispatched, unless it says otherwise. *)
Definition stamp (n : NackMsg) (h : Hub) : NackMsg :=
  match nk_intent_seq n with Some _ => n | None => set_nk_intent_seq (_dispatchSeq h) n end.

Definition sendNack (t : Transport) (n : NackMsg) : M () :=
  stamped ← gets (stamp n);
  let buf := encoded 128 (encodeNack stamped) in
  if blank buf then mret () else sendFrameTo t FrameType.NACK 0 buf 0 ;; mret ().

Definition nack (code : Z) : NackMsg := set_nk_code code NackMsg_new.
Definition on_channel (ch : Z) (n : NackMsg) : NackMsg := set_nk_channel_id (Some ch) n.
Definition for_intent (id : Z) (n : NackMsg) : NackMsg := set_nk_intent_id (Some id) n.
Definition saying (s : list byte) (n : NackMsg) : NackMsg := set_nk_detail (Some s) n.
(** [n.detail = d; n.has_detail = !d.empty();] *)
Definition saying_if_any (s : list byte) (n : NackMsg) : NackMsg := if blank s then n else saying s n.

(** [*slot.transport] where the code holds that the slot has one. *)
Definition through (i : nat) (f : Transport -> M ()) : M () :=
  s ← slot_at i; match sl_transport s with Some t => f t | None => mret () end.

Definition goodbye (code : Z) : list byte := encoded 64 (encodeGoodbye (set_gb_code code GoodbyeMsg_new)).

Definition sendGoodbye (i : nat) (code : Z) : M () :=
  let buf := goodbye code in
  if blank buf then mret () else through i (fun t => sendFrameTo t FrameType.GOODBYE 0 buf 0 ;; mret ()).

(** ** Slots *)

Definition occupiedCount (exclude : option nat) : M nat :=
  gets (fun h => length (List.filter (fun i => negb (bool_decide (Some i = exclude))
                                       && from_option (fun s => occupied (sl_session s)) false (_slots h !! i)) slot_ids)).

Definition subscribed (ch : Z) (s : HubSession) : bool := has (Subscription.find ch (hs_subs s)).

Definition anySubscribed (ch : Z) : M bool :=
  gets (fun h => existsb (fun s => occupied (sl_session s) && subscribed ch (sl_session s)) (_slots h)).

(** ** Retained values and events *)

Definition publishState (ch : Z) (payload : list byte) : M bool :=
  h ← get;
  let '(s, r) := RetainedStore.publish kRetainedStates ch payload (_retained h) in
  modify (fun h => h <| _retained := s |>) ;; mret (has r).

Definition retained (ch : Z) : M (option (Z * list byte)) := gets (fun h => RetainedStore.get ch (_retained h)).

(** At most [n] events, which is how many the queue holds: nothing is pushed while it is drained. *)
Fixpoint drain (n : nat) (t : Transport) (i : nat) : M () :=
  match n with
  | O => mret ()
  | S n =>
      s ← session_at i;
      let '(q, ev) := EventQueue.pop kEventQueueDepth (hs_events s) in
      on_session i (fun s => s <| hs_events := q |>) ;;
      match ev with
      | None => mret ()
      | Some (ch, bs) =>
          s ← session_at i;
          when (subscribed ch s) (sendFrameTo t FrameType.EVENT ch bs 0 ;; mret ()) ;;
          drain n t i
      end
  end.

Definition pumpEventDrain (i : nat) : M () :=
  s ← slot_at i;
  if negb (hs_ready (sl_session s)) then mret ()
  else match sl_transport s with
       | None => mret ()
       | Some t => drain (EventQueue.queue_size (hs_events (sl_session s))) t i
       end.

Definition push_event (ch : Z) (payload : list byte) (s : HubSession) : HubSession :=
  s <| hs_events ::= fun q => fst (EventQueue.push kEventQueueDepth kEventQueueSlotCapacity ch payload q) |>.

Definition publishEvent (ch : Z) (payload : list byte) : M bool :=
  any ← tally (fun i =>
    s ← session_at i;
    if negb (occupied s) then mret false
    else if negb (subscribed ch s) then mret false
    else on_session i (push_event ch payload) ;; mret true) slot_ids;
  when any (each (fun i => s ← session_at i; when (occupied s) (pumpEventDrain i)) slot_ids) ;;
  mret any.

Definition publish_encoded (ch : Z) (payload : list byte) : M () :=
  if blank payload then mret () else publishEvent ch payload ;; mret ().

Definition catalog_has (ch : Z) : M bool := c ← the_catalog; mret (has (Catalog.find ch c)).

(** ** The safety channel *)

Definition buildSafetyPayload (h : Hub) : list byte :=
  put8 8 (_safetyModes h) (put16 6 (_estopSeq h) (put32 2 (_safetyOwnerSession h) (put8 1 (_safetyCause h)
    (put8 0 (_safetyWord h) (replicate 9 Byte.x00))))).

Definition publishSafetySnapshot : M () := p ← gets buildSafetyPayload; publishState channels.safety p ;; mret ().

Definition safety_event (kind nowMs : Z) (h : Hub) : EventMsg :=
  mkEventMsg channels.safety_events nowMs kind (fst <$> RetainedStore.get channels.safety (_retained h))
    (Some [(safety_body.word, VU64 (_safetyWord h)); (safety_body.cause, VU64 (_safetyCause h));
           (safety_body.owner_session, VU64 (_safetyOwnerSession h)); (safety_body.estop_seq, VU64 (_estopSeq h))]).

Definition emit_safety (nowMs kind : Z) : M () :=
  ev ← gets (safety_event kind nowMs); publish_encoded channels.safety_events (encoded 96 (encodeEvent ev)).

Definition emitSafetyEdgeEvents (beforeWord nowMs : Z) : M () :=
  present ← catalog_has channels.safety_events;
  after ← gets _safetyWord;
  if negb present then mret ()
  else if after =? beforeWord then mret ()
  else
    let newlySet := u8 (clear_bit after beforeWord) in
    let newlyClear := u8 (clear_bit beforeWord after) in
    when (has_bit newlySet safety_bits.ESTOP) (emit_safety nowMs safety_events.estop_latched) ;;
    when (has_bit newlyClear safety_bits.ESTOP) (emit_safety nowMs safety_events.estop_cleared) ;;
    when (has_bit newlySet safety_bits.PAUSE) (emit_safety nowMs safety_events.pause_latched) ;;
    when (has_bit newlyClear safety_bits.PAUSE) (emit_safety nowMs safety_events.pause_cleared).

(** ** Pairing: its events and its two STATE channels *)

Definition emitPairingEvent (kind : Z) (instance_id name : list byte) (mode role : Z) (version : list byte) (nowMs : Z) : M () :=
  present ← catalog_has channels.pairing_events;
  if negb present then mret ()
  else
    let name := take kLedgerNameMaxBytes name in
    let body :=
      (if blank instance_id then [] else [(pairing_body.instance_id, VBstr instance_id)])
      ++ (if blank name then [] else [(pairing_body.name, VTstr name)])
      ++ [(pairing_body.mode, VU64 mode); (pairing_body.role, VU64 role)]
      ++ (if blank version then [] else [(pairing_body.version, VTstr version)]) in
    publish_encoded channels.pairing_events
      (encoded 160 (encodeEvent (mkEventMsg channels.pairing_events nowMs kind None (Some body)))).

Definition kPendingSlotBytes : nat := 27.
Definition kPendingPayloadBytes : nat := 4 + pairing_pending_max * kPendingSlotBytes.

(** One pending slot, from [off] on: the id in two halves, the mode, the seconds left, the name. *)
Definition put_pending (nowMs : Z) (off : nat) (k : PendingKnock) (s : list byte) : list byte :=
  if negb (pk_used k) then s
  else
    let remainMs := if timeReached nowMs (pk_expiresAtMs k) then 0 else u32 (pk_expiresAtMs k - nowMs) in
    let remainS := Z.min (u32 (remainMs + 999) / 1000) 0xFFFF in
    let name := take 16 (bs_view (pk_name k)) in
    splice (off + 11) (name ++ replicate (16 - length name) Byte.x00)
      (put16 (off + 9) remainS
        (put8 (off + 8) (pk_mode k)
          (put32 (off + 4) (getU32 (drop 4 (pk_instance_id k)))
            (put32 off (getU32 (pk_instance_id k)) s)))).

Definition pendingPayload (nowMs : Z) (m : PairingManager) : list byte :=
  let buf := replicate kPendingPayloadBytes Byte.x00 in
  let buf := put16 0 (pm_generation m) buf in
  let buf := put8 2 (u8 (Z.of_nat (Pending.count (pm_pending m)))) buf in
  let buf := put8 3 (if presenceWindowOpen nowMs m then pending_pairing_flags.window_open else 0) buf in
  foldl (fun s i => from_option (fun k => put_pending nowMs (4 + i * kPendingSlotBytes) k s) s (pm_pending m !! i))
    buf (seq 0 pairing_pending_max).

Definition publishPendingPairingState (nowMs : Z) : M () :=
  present ← catalog_has channels.pending_pairing;
  if negb present then mret ()
  else
    m ← gets _pairing;
    publishState channels.pending_pairing (pendingPayload nowMs m) ;; mret ().

Definition kPairedRosterBytes : nat := 4.

Definition rosterPayload (m : PairingManager) : list byte :=
  put8 3 (u8 (Z.of_nat paired_devices_max)) (put8 2 (u8 (Z.of_nat (entryCount m)))
    (put16 0 (pm_generation m) (replicate kPairedRosterBytes Byte.x00))).

Definition publishPairedRosterState : M () :=
  present ← catalog_has channels.paired_devices_roster;
  if negb present then mret ()
  else
    m ← gets _pairing;
    publishState channels.paired_devices_roster (rosterPayload m) ;; mret ().

(** ** Who controls what *)

Definition kControlOwnerPairBytes : nat := 5.
Definition kControlOwnerNameBytes : nat := 1 + kHelloMaxClientKindBytes + kHelloMaxClientNameBytes.
Definition kControlOwnerBytes : nat := kMaxSources * (kControlOwnerPairBytes + kControlOwnerNameBytes).

(** A string field of [width] bytes in a zeroed buffer. *)
Definition putStr (off width : nat) (v s : list byte) : list byte := splice off (take width v) s.

Definition owner_names (names : nat) (owner : Z) (h : Hub) (s : list byte) : list byte :=
  match List.find (fun sl => occupied (sl_session sl) && (hs_session_id (sl_session sl) =? owner)) (_slots h) with
  | None => s
  | Some sl =>
      putStr (names + 1 + kHelloMaxClientKindBytes) kHelloMaxClientNameBytes (bs_view (hs_clientName (sl_session sl)))
        (putStr (names + 1) kHelloMaxClientKindBytes (bs_view (hs_clientKind (sl_session sl))) s)
  end.

Definition buildControlOwnerPayload : M (list byte) :=
  fold_each (fun i buf =>
    h ← get;
    let owner := ownerOf (Z.of_nat i) (_ownership h) in
    let pair := (i * kControlOwnerPairBytes)%nat in
    let names := (kMaxSources * kControlOwnerPairBytes + i * kControlOwnerNameBytes)%nat in
    kind ← call (sourceKind (Z.of_nat i));
    let buf := put8 names kind (put32 (pair + 1) owner (put8 pair (Z.of_nat i) buf)) in
    mret (if owner =? 0 then buf else owner_names names owner h buf))
    (seq 0 kMaxSources) (replicate kControlOwnerBytes Byte.x00).

Definition publishControlOwnerStateIfPresent : M () :=
  present ← catalog_has channels.control_owner;
  if negb present then mret ()
  else payload ← buildControlOwnerPayload; publishState channels.control_owner payload ;; mret ().

Definition emitTakeoverEvent (source newOwner nowMs : Z) : M () :=
  any ← anySubscribed channels.session_events;
  if negb any then mret ()
  else publish_encoded channels.session_events
         (encoded 64 (encodeEvent (mkEventMsg channels.session_events nowMs session_events.takeover None
                                     (Some [(1, VU64 source); (2, VU64 newOwner)])))).

Definition emitSessionEvent (kind session nowMs : Z) : M () :=
  any ← anySubscribed channels.session_events;
  if negb any then mret ()
  else publish_encoded channels.session_events
         (encoded 32 (encodeEvent (mkEventMsg channels.session_events nowMs kind None (Some [(1, VU64 session)])))).

(** The sources are freed before the delegate is told of any of them. *)
Definition releaseSessionSources (session reason : Z) : M () :=
  h ← get;
  let '(t, sources) := releaseAllOf session (_ownership h) in
  modify (fun h => h <| _ownership := t |>) ;;
  each (fun src => call (onSourceOwnership src 0 reason)) sources ;;
  when (negb (length sources =? 0)%nat) publishControlOwnerStateIfPresent.

(** ** Settings on trial *)

Definition trial_at (ch k : Z) (t : TrialEntry) : bool :=
  negb (te_session_id t =? 0) && (te_channel_id t =? ch) && (te_key t =? k).

Definition findTrial (ch k : Z) (ts : list TrialEntry) : option TrialEntry := List.find (trial_at ch k) ts.

Definition trial_value_of (t : TrialEntry) : IntentValue :=
  match te_kind t with
  | KindI64 => VI64 (swrap 64 (te_bits t))
  | KindF32 => VF32 (u32 (te_bits t))
  | KindBool => VBool (negb (te_bits t =? 0))
  | _ => VU64 (te_bits t)
  end.

Definition trialBaselineOf (ch k : Z) (ts : list TrialEntry) : option IntentValue := trial_value_of <$> findTrial ch k ts.

Definition trialCount (ts : list TrialEntry) : nat := length (List.filter (fun t => negb (te_session_id t =? 0)) ts).

(** One pass over the entries from the first of the session on: those of its channel [ch] are gathered with
    their baselines, up to [kIntentMaxValueFields], and freed. *)
Fixpoint gather (session ch : Z) (idxs : list nat) (batch : list IntentValueField) (ts : list TrialEntry)
  : list IntentValueField * list TrialEntry :=
  match idxs with
  | [] => (batch, ts)
  | i :: idxs =>
      if negb (len batch <? kIntentMaxValueFields) then (batch, ts)
      else
        match ts !! i with
        | Some t =>
            if negb (te_session_id t =? session) || negb (te_channel_id t =? ch) then gather session ch idxs batch ts
            else
              gather session ch idxs
                (batch ++ [(te_key t, default (VU64 0) (trialBaselineOf ch (te_key t) ts))])
                (<[i := TrialEntry_new]> ts)
        | None => (batch, ts)
        end
  end.

(** The [for (;;)]: each turn frees at least one entry, so [S (length _trials)] turns are enough. *)
Fixpoint end_trials (fuel : nat) (session : Z) (commit : bool) (cfgChanged any : bool) : M (bool * bool) :=
  match fuel with
  | O => mret (cfgChanged, any)
  | S fuel =>
      ts ← gets _trials;
      match first_index (fun t => te_session_id t =? session) ts with
      | None => mret (cfgChanged, any)
      | Some first =>
          let ch := from_option te_channel_id 0 (ts !! first) in
          let '(batch, ts') := gather session ch (seq first (length ts - first)) [] ts in
          modify (fun h => h <| _trials := ts' |>) ;;
          changed ← (if commit then call (onTrialCommit ch batch) ;; mret false else call (restoreTrial ch batch));
          end_trials fuel session commit (cfgChanged || changed) true
      end
  end.

Definition endSessionTrials (session : Z) (commit : bool) : M () :=
  if session =? 0 then mret ()
  else
    ts ← gets _trials;
    r ← end_trials (S (length ts)) session commit false false;
    when r.1 (modify (fun h => h <| _cfgGen ::= fun g => u16 (g + 1) |>)) ;;
    when r.2 (modify (fun h => h <| _trialGen ::= fun g => u32 (g + 1) |>)).

(** ** The life of a session *)

Definition markStale (i : nat) (nowMs reason : Z) : M () :=
  s ← session_at i;
  let id := hs_session_id s in
  releaseSessionSources id reason ;;
  endSessionTrials id false ;;
  on_session i (fun s => s <| hs_state := STALE |> <| hs_staleSinceMs := nowMs |>) ;;
  emitSessionEvent session_events.session_stale id nowMs ;;
  call (onSessionStale id).

Definition reviveIfStale (i : nat) (nowMs : Z) : M () :=
  s ← session_at i;
  if negb (bool_decide (hs_state s = STALE)) then mret ()
  else
    on_session i (fun s => s <| hs_state := LIVE |> <| hs_staleSinceMs := 0 |>) ;;
    when (negb (hs_ready s)) (on_session i (fun s => s <| hs_grantedAtMs := nowMs |>)) ;;
    emitSessionEvent session_events.session_resumed (hs_session_id s) nowMs.

(** The knocks of a session that goes away expire with it. *)
Definition dropSessionKnocks (session nowMs : Z) : M () :=
  m ← gets _pairing;
  let '(pending, dropped) := Pending.dropBySession session (pm_pending m) in
  modify (fun h => h <| _pairing ::= fun m => m <| pm_pending := pending |> |>) ;;
  each (fun k => emitPairingEvent pairing_events.expired (pk_instance_id k) (bs_view (pk_name k)) (pk_mode k)
                   AccessLevel.watch [] nowMs) dropped ;;
  when (negb (length dropped =? 0)%nat) (publishPendingPairingState nowMs).

Definition clear_handshake (s : Slot) : Slot :=
  s <| sl_clientNonce := replicate kTrustClientNonceBytes Byte.x00 |> <| sl_hasClientNonce := false |>
    <| sl_sigRequested := false |> <| sl_signPending := false |> <| sl_signDelivered := false |> <| sl_authFailures := 0 |>.

Definition clear_slot (s : Slot) : Slot :=
  clear_handshake (s <| sl_session ::= reset |> <| sl_pushRecords := sl_pushRecords Slot_new |>
                     <| sl_conflictNacks := sl_conflictNacks Slot_new |>)
  <| sl_blob := PendingBlob_new |>.

Definition teardownSession (i : nat) (nowMs reason : Z) : M () :=
  s ← session_at i;
  let id := hs_session_id s in
  when (occupied s)
    (releaseSessionSources id reason ;;
     endSessionTrials id false ;;
     dropSessionKnocks id nowMs ;;
     call (onSessionLeft id)) ;;
  on_slot i clear_slot.

Definition session_loss : Z := 4.

Definition detach (i : nat) : M () :=
  through i (fun t => call (t_close t)) ;;
  on_slot i (fun s => s <| sl_transport := None |>).

Definition parkAndDetach (i : nat) (nowMs : Z) : M () :=
  s ← session_at i;
  when (occupied s && negb (bool_decide (hs_state s = STALE)))
    (markStale i nowMs session_loss ;;
     dropSessionKnocks (hs_session_id s) nowMs ;;
     on_slot i (fun s => clear_handshake s <| sl_blob := PendingBlob_new |>)) ;;
  detach i ;;
  on_slot i (fun s => s <| sl_congestionLevel := 0 |> <| sl_criticalStalling := false |>).

(** ** Never-shed sends: a link that stalls too long is parked *)

Definition trackCriticalSend (i : nat) (sendOk : bool) (nowMs : Z) : M () :=
  s ← slot_at i;
  if sl_congestionLevel s <? 2 then on_slot i (fun s => s <| sl_criticalStalling := false |>)
  else if sendOk then on_slot i (fun s => s <| sl_criticalStalling := false |>)
  else if negb (sl_criticalStalling s) then
    on_slot i (fun s => s <| sl_criticalStalling := true |> <| sl_criticalStallSinceMs := nowMs |>)
  else when (timeReached nowMs (u32 (sl_criticalStallSinceMs s + limits.never_shed_stall_eviction_ms)))
         (parkAndDetach i nowMs).

Definition sendFrameToTracked (i : nat) (type channel : Z) (payload : list byte) (nowMs sq : Z) : M bool :=
  s ← slot_at i;
  match sl_transport s with
  | None => mret false
  | Some t =>
      ok ← sendFrameTo t type channel payload sq;
      trackCriticalSend i ok nowMs ;;
      mret ok
  end.

Definition sendNackTracked (i : nat) (n : NackMsg) (nowMs : Z) : M () :=
  s ← slot_at i;
  match sl_transport s with
  | None => mret ()
  | Some t =>
      stamped ← gets (stamp n);
      let buf := encoded 128 (encodeNack stamped) in
      ok ← (if blank buf then mret false else sendFrameTo t FrameType.NACK 0 buf 0);
      trackCriticalSend i ok nowMs
  end.

Definition evictSlot (i : nat) (code nowMs : Z) : M () :=
  s ← session_at i;
  when (occupied s) (sendGoodbye i code) ;;
  teardownSession i nowMs session_loss ;;
  on_slot i (fun s => s <| sl_congestionLevel := 0 |> <| sl_criticalStalling := false |>).

(** ** STATE pushes *)

Definition findOrCreatePushRecord (ch : Z) (l : list PushRecord) : list PushRecord * option nat :=
  match first_index (fun p => pr_valid p && (pr_channel_id p =? ch)) l with
  | Some k => (l, Some k)
  | None =>
      match first_index (fun p => negb (pr_valid p)) l with
      | Some k => (alter (fun p => p <| pr_channel_id := ch |> <| pr_lastSeq := 0 |>) k l, Some k)
      | None => (l, None)
      end
  end.

(** [pr->lastSeq = seq; pr->valid = true;] for the record of [ch], where there is one. *)
Definition record_push (ch sq : Z) (s : Slot) : Slot :=
  let '(l, k) := findOrCreatePushRecord ch (sl_pushRecords s) in
  s <| sl_pushRecords := match k with
                         | Some k => alter (fun p => p <| pr_lastSeq := sq |> <| pr_valid := true |>) k l
                         | None => l
                         end |>.

Definition on_sub (ch : Z) (f : SubscriptionEntry -> SubscriptionEntry) (s : HubSession) : HubSession :=
  match Subscription.find ch (hs_subs s) with Some k => s <| hs_subs ::= alter f k |> | None => s end.

Definition broadcastSafetyNow (nowMs : Z) : M () :=
  r ← retained channels.safety;
  match r with
  | None => mret ()
  | Some (sq, payload) =>
      each (fun i =>
        s ← slot_at i;
        let session := sl_session s in
        if negb (occupied session) then mret ()
        else if negb (has (sl_transport s)) then mret ()
        else if negb (hs_ready session) then mret ()
        else if negb (subscribed channels.safety session) then mret ()
        else
          sent ← sendFrameToTracked i FrameType.STATE channels.safety payload nowMs sq;
          when sent
            (on_session i (on_sub channels.safety (markPushed nowMs)) ;;
             on_slot i (record_push channels.safety sq))) slot_ids
  end.

End Core.
