(* ===== verification/HubSafety.v ===== *)
(** * HubSafety: the ESTOP and PAUSE latches and the operator's modes (hub/hub_impl.hpp), SPEC 11 *)

From S2P Require Import Prelude Tables Safety Frame Estop Catalog Registry HubSession HubState StateM HubWorld HubCore.
#[local] Open Scope Z_scope.

Definition estopLatched (h : Hub) : bool := has_bit (_safetyWord h) safety_bits.ESTOP.
Definition pauseLatched (h : Hub) : bool := has_bit (_safetyWord h) safety_bits.PAUSE.

Definition nextEstopSeq (h : Hub) : Z := if estopLatched h then _estopSeq h else u16 (_estopSeq h + 1).

(** What a first ESTOP frame writes. *)
Definition latch (f : EstopFrame) (h : Hub) : Hub :=
  let modes := clear_bit (_safetyModes h) safety_mode_bits.OVERRIDE in
  h <| _safetyWord ::= fun w => Z.lor w safety_bits.ESTOP |>
    <| _safetyCause := ef_cause f |> <| _estopSeq := ef_seq f |>
    <| _safetyModes := if _estopCutsPower h then Z.lor modes safety_mode_bits.HOME_REQUIRED else modes |>.

Definition latch_pause (session : Z) (h : Hub) : Hub :=
  if has_bit (_safetyWord h) safety_bits.PAUSE then h
  else h <| _safetyWord ::= fun w => Z.lor w safety_bits.PAUSE |> <| _safetyCause := safety_causes.user |>
         <| _safetyOwnerSession := session |>.

(** The state a [pause], [resume] or [override] leaves; [None] for the other operations. *)
Definition safety_op (op session : Z) (h : Hub) : option Hub :=
  if op =? safety_ops.pause then Some (latch_pause session h)
  else if op =? safety_ops.resume then Some (h <| _safetyWord ::= fun w => clear_bit w safety_bits.PAUSE |>)
  else if op =? safety_ops.override then
    Some ((latch_pause session h) <| _safetyModes ::= fun m => Z.lor m safety_mode_bits.OVERRIDE |>)
  else None.

Definition safety_changed (before after : Hub) : bool :=
  negb (_safetyWord after =? _safetyWord before) || negb (_safetyModes after =? _safetyModes before)
  || negb (_safetyCause after =? _safetyCause before) || negb (_safetyOwnerSession after =? _safetyOwnerSession before).

Section Safety.
Context {E R : Type} `{Env E} `{IRandom R}.
Abbreviation M := (HubM E R) (only parsing).

Definition handleEstopFrame (f : EstopFrame) (nowMs : Z) : M () :=
  before ← get;
  when (negb (estopLatched before))
    (call (onEstop (ef_cause f) (ef_origin f)) ;;
     modify (latch f) ;;
     publishSafetySnapshot) ;;
  broadcastSafetyNow nowMs ;;
  emitSafetyEdgeEvents (_safetyWord before) nowMs.

Definition latchEstop_seq (cause origin estop_seq : Z) : M () :=
  now ← gets _lastUpdateMs; handleEstopFrame (mkEstopFrame cause origin estop_seq) now.

Definition latchEstop (cause origin : Z) : M () := sq ← gets nextEstopSeq; latchEstop_seq cause origin sq.

Definition set_modes (next : Z) : M () :=
  modes ← gets _safetyModes;
  if next =? modes then mret ()
  else
    modify (fun h => h <| _safetyModes := next |>) ;;
    publishSafetySnapshot ;;
    now ← gets _lastUpdateMs;
    broadcastSafetyNow now.

Definition setOverride (engaged : bool) : M () :=
  modes ← gets _safetyModes;
  set_modes (if engaged then Z.lor modes safety_mode_bits.OVERRIDE else clear_bit modes safety_mode_bits.OVERRIDE).

Definition setHomeRequired (required : bool) : M () :=
  modes ← gets _safetyModes;
  set_modes (if required then Z.lor modes safety_mode_bits.HOME_REQUIRED else clear_bit modes safety_mode_bits.HOME_REQUIRED).

(** Whether anything a client sees of the safety channel changed. *)
Definition applySafetyOpLatch (op session : Z) : M bool :=
  before ← get;
  match safety_op op session before with
  | None => mret false
  | Some after => modify (fun h => default h (safety_op op session h)) ;; mret (safety_changed before after)
  end.

Definition releaseEstop : M bool :=
  before ← get;
  if negb (estopLatched before) then mret false
  else
    agreed ← call canClearEstop;
    if negb agreed then mret false
    else
      modify (fun h => h <| _safetyWord ::= fun w => Z.lor (clear_bit w safety_bits.ESTOP) safety_bits.PAUSE |>) ;;
      publishSafetySnapshot ;;
      now ← gets _lastUpdateMs;
      broadcastSafetyNow now ;;
      emitSafetyEdgeEvents (_safetyWord before) now ;;
      mret true.

End Safety.
