(* ===== verification/HubPump.v ===== *)
(** * HubPump: what [update] does on every tick for each session (hub/hub_impl.hpp)

    The three liveness regimes (the deadman of a session that owns a source, the idle reap of one that does
    not, the timeout of one that never adopted the catalog), the pacing of STATE pushes, the quiet release of
    sources, and the transports coming and going. *)

From S2P Require Import Prelude SerialArith RateLimiter Tables Safety Shedding Frame StateChannel Subscription.
From S2P Require Import Catalog Registry HubSession HubState StateM HubWorld HubCore CborMessage.
#[local] Open Scope Z_scope.

Definition source_ids : list Z := map Z.of_nat (seq 0 kMaxSources).

Definition ownsAny (session : Z) (h : Hub) : bool :=
  existsb (fun src => ownerOf src (_ownership h) =? session) source_ids.

(** [nowMs - lastRxMs >= ms], in serial arithmetic. *)
Definition silent_for (ms nowMs : Z) (s : HubSession) : bool := timeReached nowMs (u32 (hs_lastRxMs s + ms)).

Definition kIdleReapMs : Z := limits.idle_reap_multiplier * limits.ping_interval_idle_ms.
Definition deadman_release : Z := 3.

(** The eviction order of stale sessions: the lower role first, then the one that has been stale longer. *)
Definition staler (s best : HubSession) : bool :=
  (hs_role s <? hs_role best)
  || ((hs_role s =? hs_role best) && (timeDelta (hs_staleSinceMs s) (hs_staleSinceMs best) <? 0)).

Definition better_victim (exclude : option nat) (slots : list Slot) (best : option nat) (i : nat) : option nat :=
  match slots !! i with
  | None => best
  | Some s =>
      if bool_decide (Some i = exclude) then best
      else if negb (bool_decide (hs_state (sl_session s) = STALE)) then best
      else match best with
           | None => Some i
           | Some b =>
               match slots !! b with
               | Some sb => if staler (sl_session s) (sl_session sb) then Some i else best
               | None => best
               end
           end
  end.

Definition findEvictableStale (exclude : option nat) (h : Hub) : option nat :=
  foldl (better_victim exclude (_slots h)) None slot_ids.

Section Pump.
Context {E R : Type} `{Env E} `{IRandom R}.
Abbreviation M := (HubM E R) (only parsing).

(** ** Liveness *)

Definition pumpDeadman (i : nat) (nowMs : Z) : M () :=
  s ← session_at i;
  h ← get;
  if negb (bool_decide (hs_state s = LIVE)) then mret ()
  else if negb (ownsAny (hs_session_id s) h) then mret ()
  else if negb (silent_for (hs_deadmanMs s) nowMs s) then mret ()
  else markStale i nowMs deadman_release.

Definition pumpIdleReap (i : nat) (nowMs : Z) : M () :=
  s ← session_at i;
  h ← get;
  if negb (bool_decide (hs_state s = LIVE)) then mret ()
  else if ownsAny (hs_session_id s) h then mret ()
  else if negb (silent_for kIdleReapMs nowMs s) then mret ()
  else markStale i nowMs session_loss.

Definition pumpReadyTimeout (i : nat) (nowMs : Z) : M () :=
  s ← session_at i;
  if bool_decide (hs_state s = STALE) then mret ()
  else if hs_ready s then mret ()
  else if negb (timeReached nowMs (u32 (hs_grantedAtMs s + limits.catalog_ready_timeout_ms))) then mret ()
  else sendGoodbye i NackCode.READY_TIMEOUT ;; teardownSession i nowMs session_loss.

(** ** STATE pacing *)

(** The n-th push of the channel is the one that is sent: every [n]-th. *)
Definition shed (d : ShedDecision) (k : option nat) (s : Slot) : Slot * bool :=
  match d with
  | Drop => (s, false)
  | Decimate2x | Decimate4x | ConflateHard =>
      let n := match d with Decimate2x => 2 | _ => 4 end in
      match k with
      | None => (s, true)
      | Some k =>
          let s := s <| sl_pushRecords ::= alter (fun p => p <| pr_shedCounter ::= fun c => u32 (c + 1) |>) k |> in
          (s, from_option (fun p => pr_shedCounter p mod n =? 0) true (sl_pushRecords s !! k))
      end
  | _ => (s, true)
  end.

Definition on_sub_at (k : nat) (f : SubscriptionEntry -> SubscriptionEntry) (s : HubSession) : HubSession :=
  s <| hs_subs ::= alter f k |>.

(** One subscription of the walk, the [k]-th of the session. *)
Definition pace_sub (i : nat) (nowMs : Z) (k : nat) : M () :=
  s ← slot_at i;
  c ← the_catalog;
  match hs_subs (sl_session s) !! k with
  | None => mret ()
  | Some sub =>
      let ch := channel_id sub in
      match Catalog.find ch c with
      | None => mret ()
      | Some entry =>
          if negb (ce_cls entry =? ChannelClass.STATE) then mret ()
          else
            r ← retained ch;
            match r with
            | None => mret ()
            | Some (sq, payload) =>
                on_session i (on_sub_at k (fun e => e <| ceiling_hz := ce_maxRateHz entry |>)) ;;
                let '(records, pr) := findOrCreatePushRecord ch (sl_pushRecords s) in
                on_slot i (fun s => s <| sl_pushRecords := records |>) ;;
                let changePending :=
                  match pr ≫= fun p => records !! p with
                  | None => true
                  | Some p => negb (pr_valid p) || seqIsNewer sq (pr_lastSeq p)
                  end in
                let sub := sub <| ceiling_hz := ce_maxRateHz entry |> in
                if negb (dueForPush nowMs changePending sub) then mret ()
                else
                  let decision := if negb (everPushed sub) then Send
                                  else shedDecision (priority sub) (ce_cls entry) (sl_congestionLevel s) (isSegmentClass entry) in
                  s ← slot_at i;
                  on_slot i (fun s => fst (shed decision pr s)) ;;
                  if snd (shed decision pr s) then
                    through i (fun t =>
                      sent ← sendFrameTo t FrameType.STATE ch payload sq;
                      when sent
                        (on_session i (on_sub_at k (markPushed nowMs)) ;;
                         match pr with
                         | Some p => on_slot i (fun s => s <| sl_pushRecords ::=
                                       alter (fun r => r <| pr_lastSeq := sq |> <| pr_valid := true |>) p |>)
                         | None => mret ()
                         end))
                  else on_session i (on_sub_at k (markPushed nowMs))
            end
      end
  end.

Definition pumpStatePacing (i : nat) (nowMs : Z) : M () :=
  s ← session_at i;
  if negb (hs_ready s) then mret ()
  else each (pace_sub i nowMs) (seq 0 (length (hs_subs s))).

(** ** Sources *)

Definition markSourceActive (src nowMs playoutEndUs windowMs : Z) (h : Hub) : Hub :=
  h <| _sourceQuiet ::= alter (fun q =>
    let expired := timeReached nowMs (u32 (sq_lastActiveMs q + sq_windowMs q)) in
    mkSourceQuiet nowMs
      (if expired || (0 <? timeDelta playoutEndUs (sq_playoutEndUs q)) then playoutEndUs else sq_playoutEndUs q)
      windowMs) (Z.to_nat src) |>.

Definition is_playing (kind : Z) : bool :=
  (kind =? source_kinds.stream) || (kind =? source_kinds.classic) || (kind =? source_kinds.advanced)
  || (kind =? source_kinds.remote).

Definition railHeldByOtherSource (source : Z) : M bool :=
  r ← until (fun src =>
        h ← get;
        if (src =? source) || (ownerOf src (_ownership h) =? 0) then mret None
        else kind ← call (sourceKind src); mret (if is_playing kind then Some tt else None)) source_ids;
  mret (has r).

Definition quiet_reason : Z := 5.

Definition pumpQuietRelease (nowMs now_us : Z) : M () :=
  any ← tally (fun src =>
    h ← get;
    let owner := ownerOf src (_ownership h) in
    if owner =? 0 then mret false
    else
      let q := default SourceQuiet_new (_sourceQuiet h !! Z.to_nat src) in
      kind ← call (sourceKind src);
      quiet ← (if kind =? source_kinds.stream then
                 mret (timeReached now_us (sq_playoutEndUs q) && timeReached nowMs (u32 (sq_lastActiveMs q + sq_windowMs q)))
               else call (sourceQuiet src));
      if negb quiet then mret false
      else
        h ← get;
        let '(t, freed) := release src owner (_ownership h) in
        modify (fun h => h <| _ownership := t |>) ;;
        when freed (call (onSourceOwnership src 0 quiet_reason)) ;;
        mret freed) source_ids;
  when any publishControlOwnerStateIfPresent.

(** ** Congestion, and transports coming and going *)

Definition setCongestionLevel_at (i : nat) (level : Z) : M () :=
  on_slot i (fun s => let s := s <| sl_congestionLevel := level |> in
                      if level <? 2 then s <| sl_criticalStalling := false |> else s).

Definition attachedSlotFor (t : Transport) (h : Hub) : option nat :=
  first_index (fun s => bool_decide (sl_transport s = Some t)) (_slots h).

Definition setCongestionLevel (t : Transport) (level : Z) : M () :=
  i ← gets (attachedSlotFor t); match i with Some i => setCongestionLevel_at i level | None => mret () end.

Definition free_slot (h : Hub) : option nat :=
  first_index (fun s => bool_decide (sl_transport s = None) && negb (occupied (sl_session s))) (_slots h).

Definition take_slot (i : nat) (t : Transport) : M bool :=
  opened ← call (t_open t);
  if negb opened then mret false
  else on_slot i (fun s => s <| sl_transport := Some t |>) ;; mret true.

Definition attachTransport (t : Transport) : M bool :=
  h ← get;
  match free_slot h with
  | Some i => take_slot i t
  | None =>
      match findEvictableStale None h with
      | None => mret false
      | Some victim =>
          detach victim ;;
          teardownSession victim (_lastUpdateMs h) session_loss ;;
          take_slot victim t
      end
  end.

Definition detachTransport (t : Transport) : M () :=
  h ← get;
  match attachedSlotFor t h with Some i => parkAndDetach i (_lastUpdateMs h) | None => mret () end.

End Pump.
