(* ===== verification/HubHello.v ===== *)
(** * HubHello: joining, resuming and authenticating (hub/hub_impl.hpp), SPEC 5, 6, 12

    HELLO opens a session or takes a stale one back; AUTH upgrades it; the hub's own signature is inline or
    left to the application's signer.  What the code writes twice, for a fresh and a resumed session, is
    one definition. *)

From S2P Require Import Prelude ByteIO SerialArith RateLimiter Tables Crypto Safety Shedding Frame MsgNack Queues.
From S2P Require Import StateChannel Subscription MsgWish MsgTrust MsgHello MsgWelcome Pairing Catalog Registry.
From S2P Require Import HubSession HubState StateM HubWorld HubCore HubPump CborItem CborMessage.
#[local] Open Scope Z_scope.

(** [std::min], and [max <= 0.0f ? 0.0f : std::min(wish, max)] for the bits of binary32 numbers. *)
Definition f32_min (a b : Z) : Z := if f32_lt (f32_of_bits b) (f32_of_bits a) then b else a.
Definition capped_rate (wish max : Z) : Z := if f32_le (f32_of_bits max) (S754_zero false) then 0 else f32_min wish max.

Definition granted_sub_rate (wish max : Z) : Z :=
  let rate := capped_rate wish max in
  if f32_lt (f32_of_bits rate) (S754_zero false) then 0 else rate.

Definition granted_burst (rate : Z) (wish : option Z) : Z :=
  match wish with
  | None => rate
  | Some burst =>
      let ceiling := f32_mul (f32_of_bits rate) (f32_of_Z limits.max_burst_multiple) in
      let b := if hz_positive burst then burst else rate in
      let b := if f32_lt (f32_of_bits b) (f32_of_bits rate) then rate else b in
      if f32_lt ceiling (f32_of_bits b) then RateLimiter.f32_to_bits ceiling else b
  end.

Definition applied_deadman (wish : Z) : Z :=
  if 0 <? wish then Z.min (Z.max wish limits.deadman_min_ms) limits.deadman_max_ms else limits.deadman_default_ms.

(** Why a subscription wish is turned down, if it is. *)
Definition wish_refusal (role : Z) (e : option CatalogEntry) : option Z :=
  match e with
  | None => Some NackCode.UNKNOWN_CHANNEL
  | Some e =>
      if (ce_cls e =? ChannelClass.INTENT) || (ce_cls e =? ChannelClass.STORE) then Some NackCode.CLASS_MISMATCH
      else if role <? ce_access e then Some NackCode.ACCESS_DENIED
      else None
  end.

Definition find_instance (id : list byte) (exclude : nat) (h : Hub) : option nat :=
  first_index (fun i => negb (i =? exclude)%nat
    && from_option (fun s => occupied (sl_session s) && bool_decide (hs_instance_id (sl_session s) = id)) false (_slots h !! i))
    slot_ids.

(** What HELLO says of the client, kept with its session and slot. *)
Definition take_labels (h : HelloMsg) (s : HubSession) : HubSession :=
  let t := hl_trust_map h in
  let ver := t ≫= tm_client_ver in
  let s := s <| hs_clientKind ::= bs_assign trust_ledger_kind_max_bytes (hl_client_kind h) |>
             <| hs_clientName ::= bs_assign kHelloMaxClientNameBytes (hl_client_name h) |>
             <| hs_hasClientVer := has ver |>
             <| hs_presentationMode := default 0 (t ≫= tm_presentation_mode) |> in
  match ver with Some v => s <| hs_clientVer ::= bs_assign client_ver_max_bytes v |> | None => s end.

Definition take_trust (h : HelloMsg) (s : Slot) : Slot :=
  let t := hl_trust_map h in
  let nonce := t ≫= tm_client_nonce in
  let s := s <| sl_hasClientNonce := has nonce |> <| sl_sigRequested := default false (t ≫= tm_sig_request) |> in
  match nonce with Some n => s <| sl_clientNonce := n |> | None => s end.

Definition etag_matches (h : HelloMsg) (etag : list byte) : bool := bool_decide (hl_catalog_etag h = Some etag).

Definition identity_of (h : Hub) : IdentityInfo :=
  mkIdentityInfo (_idProduct h) (_idFwVersion h) (_idHubName h)
    (if _hubInstanceId h =? 0 then None else Some (_hubInstanceId h))
    (if _estopCutsPowerDeclared h then Some (_estopCutsPower h) else None) (_configMode h).

(** The member-wise copy of a stale slot's session into the slot that takes it over. *)
Definition take_over_session (stale s : Slot) : Slot :=
  clear_handshake (s <| sl_session := sl_session stale |> <| sl_pushRecords := sl_pushRecords stale |>
                     <| sl_conflictNacks := sl_conflictNacks stale |>)
  <| sl_congestionLevel := 0 |> <| sl_criticalStalling := false |> <| sl_probeReport := None |> <| sl_blob := PendingBlob_new |>.

Definition leave_session (s : Slot) : Slot :=
  s <| sl_session ::= reset |> <| sl_pushRecords := sl_pushRecords Slot_new |> <| sl_conflictNacks := sl_conflictNacks Slot_new |>
    <| sl_clientNonce := replicate kTrustClientNonceBytes Byte.x00 |> <| sl_hasClientNonce := false |> <| sl_blob := PendingBlob_new |>.

Section Hello.
Context {E R : Type} `{Env E} `{FairRandom R} `{ICrypto}.
Abbreviation M := (HubM E R) (only parsing).

(** ** Roles *)

Definition onCable (i : nat) : M bool :=
  s ← slot_at i;
  match sl_transport s with
  | None => mret false
  | Some t => p ← call (t_properties t); mret (bool_decide (tp_binding p = serial) || bool_decide (tp_binding p = in_process))
  end.

Definition tierOf (i : nat) (role : Z) : M Z := cable ← onCable i; mret (if (cable : bool) then AccessLevel.configure else role).

Definition tokenRole (h : HelloMsg) : M Z :=
  m ← gets _pairing;
  let inst := hl_instance_id h in
  let role := match hl_token h with Some token => validate inst token m | None => AccessLevel.watch end in
  if negb (role =? AccessLevel.watch) then mret role
  else call (validateToken inst (default (replicate token_bytes Byte.x00) (hl_token h)) (has (hl_token h))).

(** A device the ledger knows may be suspended by what it now says of itself. *)
Definition applyTrustObservation (i : nat) (nowMs : Z) : M Z :=
  s ← session_at i;
  m ← gets _pairing;
  let inst := hs_instance_id s in
  let '(m, obs) := observeHello inst (bs_view (hs_clientKind s)) (bs_view (hs_clientName s)) (bs_view (hs_clientVer s))
                     (hs_hasClientVer s) (hs_presentationMode s) m in
  modify (fun h => h <| _pairing := m |>) ;;
  if negb (ho_known obs) then mret (hs_role s)
  else
    when (ho_suspended obs)
      (let '(pending, k) := Pending.add inst (hs_session_id s) (u32 (nowMs + pairing_window_default_s * 1000))
                              pairing_modes.knock_approve (pm_pending m) in
       let label (k : PendingKnock) :=
         k <| pk_reapproval := true |> <| pk_kind ::= bs_assign kLedgerKindMaxBytes (bs_view (hs_clientKind s)) |>
           <| pk_name ::= bs_assign kLedgerNameMaxBytes (bs_view (hs_clientName s)) |>
           <| pk_version ::= bs_assign kLedgerVersionMaxBytes (bs_view (hs_clientVer s)) |> in
       let pending := match k with Some k => alter label k pending | None => pending end in
       modify (fun h => h <| _pairing ::= fun m => m <| pm_pending := pending |> |>) ;;
       emitPairingEvent pairing_events.recognized_pending inst (bs_view (hs_clientName s)) pairing_modes.knock_approve
         (ho_suspendedRole obs) (bs_view (hs_clientVer s)) nowMs ;;
       publishPendingPairingState nowMs ;;
       publishPairedRosterState) ;;
    mret (ho_effectiveRole obs).

(** ** Grants *)

(** The log's newest records are shown to a fresh subscriber. *)
Definition replayEventsOnGrant (i : nat) (ch : Z) : M () :=
  c ← the_catalog;
  match Catalog.find ch c with
  | None => mret ()
  | Some e =>
      if negb (ce_cls e =? ChannelClass.EVENT) then mret ()
      else match ce_replayDepth e with
           | None => mret ()
           | Some depth =>
               if depth =? 0 then mret ()
               else if negb (ch =? channels.log) then mret ()
               else
                 ring ← gets _logRing;
                 each (fun bs => on_session i (push_event ch bs)) (ReplayRing.forEachNewest kLogRingDepth (Z.to_nat depth) ring)
           end
  end.

Definition admit_wish (i : nat) (wish : SubscriptionWish) : M (Z + Grant) :=
  s ← session_at i;
  c ← the_catalog;
  let ch := sw_channel_id wish in
  match wish_refusal (hs_role s) (Catalog.find ch c), Catalog.find ch c with
  | None, Some e =>
      let rate := granted_sub_rate (sw_rate_hz wish) (ce_maxRateHz e) in
      let '(subs, upserted) := upsert kSubscriptionCapacity ch rate (ce_defaultPriority e) (hs_subs s) in
      on_session i (fun s => s <| hs_subs := subs |>) ;;
      if negb upserted then mret (inl NackCode.SUB_LIMIT)
      else replayEventsOnGrant i ch ;; mret (inr (mkGrant ch rate (ce_defaultPriority e)))
  | Some code, _ => mret (inl code)
  | None, None => mret (inl NackCode.UNKNOWN_CHANNEL)
  end.

(** A bounded list of grants: what does not fit is granted but not listed. *)
Definition listed {A} (cap : Z) (l : list A) (a : A) : list A := if len l <? cap then l ++ [a] else l.

Definition advertisedHorizonMs (ch : Z) : M Z :=
  c ← the_catalog;
  match Catalog.find ch c with
  | None => mret 0
  | Some e =>
      if negb (isSegmentClass e) then mret 0
      else
        h ← call (scheduleHorizonMs ch);
        mret (if (h =? 500) || (h =? limits.schedule_horizon_max_ms) then h else 0)
  end.

Definition grantPublishWish (i : nat) (wish : PublishWish) (nowMs : Z) : M (option GrantedPublish) :=
  let ch := pw_channel_id wish in
  s ← session_at i;
  c ← the_catalog;
  if negb (hz_positive (pw_rate_hz wish)) then on_session i (removePublishGrant ch) ;; mret None
  else match Catalog.find ch c with
       | None => mret None
       | Some e =>
           if negb (ce_cls e =? ChannelClass.STREAM) then mret None
           else if negb (bool_decide (ce_dir e = c2h)) then mret None
           else if hs_role s <? ce_access e then mret None
           else
             let rate := capped_rate (pw_rate_hz wish) (ce_maxRateHz e) in
             if f32_le (f32_of_bits rate) (S754_zero false) then mret None
             else
               let burst := granted_burst rate (pw_burst wish) in
               let '(s', added) := addPublishGrant ch rate nowMs burst (has (pw_burst wish)) s in
               on_session i (fun s => s <| hs_publishGrants := hs_publishGrants s' |>) ;;
               if negb added then mret None
               else
                 latency ← call (scheduleLatencyUs ch);
                 horizon ← advertisedHorizonMs ch;
                 mret (Some (mkGrantedPublish ch rate (if has (pw_burst wish) then Some burst else None) latency horizon))
       end.

Definition grant_publishes (i : nat) (wishes : list PublishWish) (nowMs : Z) : M (list GrantedPublish) :=
  fold_each (fun wish l =>
    gp ← grantPublishWish i wish nowMs;
    mret (match gp with Some gp => listed kWelcomeMaxGrantedPublishes l gp | None => l end)) wishes [].

(** ** WELCOME *)

Definition armWelcomeSignature (i : nat) (w : WelcomeMsg) : M (WelcomeMsg * bool) :=
  s ← slot_at i;
  h ← get;
  if negb (sl_sigRequested s && sl_hasClientNonce s) then mret (w, false)
  else if negb (_inlineSigning h) then mret (w, true)
  else
    sig ← call (signP256 (hubSigMaterial (sl_clientNonce s) (hs_session_id (sl_session s)) (_bootId h)));
    if negb (blank sig) && (length sig <=? kTrustSigMaxBytes)%nat then
      on_slot i (fun s => s <| sl_signDelivered := true |>) ;;
      mret (set_wm_trust_map (Some (set_tm_welcome_sig (Some sig) (default TrustMap_new (wm_trust_map w)))) w, false)
    else mret (w, false).

Definition retained_pending (grants : list Grant) (c : Catalog.Catalog) (h : Hub) : Z :=
  len (List.filter (fun g => from_option (fun e => ce_cls e =? ChannelClass.STATE) false (Catalog.find (gr_channel_id g) c)
                             && has (RetainedStore.get (gr_channel_id g) (_retained h))) grants).

(** From the grants to the WELCOME on the wire; whether it was sent. *)
Definition sendWelcome (i : nat) (grants : list Grant) (publishes : list GrantedPublish) (nowMs : Z) : M bool :=
  s ← slot_at i;
  h ← get;
  c ← the_catalog;
  max_frame ← match sl_transport s with
              | Some t => p ← call (t_properties t); mret (Z.min (tp_mtu p) (Z.of_nat kFrameBufferCapacity))
              | None => mret (Z.of_nat kFrameBufferCapacity)
              end;
  others ← occupiedCount (Some i);
  osc ← call oscMaxHz;
  nonce ← draw (rng_fill 8);
  on_slot i (fun s => s <| sl_nonce := nonce |>) ;;
  cable ← onCable i;
  let offered := Z.lor (offeredModes nowMs (_pairing h)) (if (cable : bool) then pairing_modes.cable else 0) in
  let session := sl_session s in
  let w := mkWelcomeMsg kProtocolVersion (hs_session_id session) (_bootId h) (_etag h) (_cfgGen h)
             (mkWelcomeLimits max_frame limits.max_subscriptions_per_session (retained_pending grants c h) kSubscribeMaxWishes
                (Z.of_nat kHubMaxSessions) (Z.of_nat (others + 1)) osc)
             (hs_role session) (hs_deadmanMs session) 0 nonce grants publishes
             (sent_identity (Some (identity_of h))) (_wsPort h) (_ipv4 h)
             (if offered =? 0 then None else Some (set_tm_pairing_modes_mask (Some offered) TrustMap_new)) in
  r ← armWelcomeSignature i w;
  let buf := encoded 700 (encodeWelcome r.1) in
  if blank buf then mret false
  else match sl_transport s with
       | None => mret false
       | Some t =>
           sent ← sendFrameTo t FrameType.WELCOME 0 buf 0;
           when (sent && r.2) (on_slot i (fun s => s <| sl_signPending := true |>)) ;;
           mret sent
       end.

(** The role the session ends up with, once the tripwire has seen what the client says of itself. *)
Definition settle_role (i : nat) (h : HelloMsg) (role nowMs : Z) : M () :=
  role ← (if has (hl_token h) then
            on_session i (fun s => s <| hs_role := role |>) ;; applyTrustObservation i nowMs
          else mret role);
  role ← tierOf i role;
  on_session i (fun s => s <| hs_role := role |>).

(** ** HELLO *)

(** RFC-042: a client whose session went stale takes it back, in whatever slot its new transport has. *)
Definition handleReattach (i stale : nat) (h : HelloMsg) (role nowMs : Z) : M () :=
  teardownSession i nowMs session_loss ;;
  st ← slot_at stale;
  on_slot i (take_over_session st) ;;
  detach stale ;;
  on_slot stale leave_session ;;
  on_slot i (fun s => take_trust h (s <| sl_session ::= take_labels h |>)) ;;
  settle_role i h role nowMs ;;
  hub ← get;
  let matched := etag_matches h (_etag hub) in
  on_session i (fun s =>
    let s := s <| hs_helloSeenCfgGen := _cfgGen hub |> <| hs_clientEtagMatched := matched |> in
    let s := if negb matched then
               s <| hs_ready := false |> <| hs_readyEtagMismatch := has (hl_catalog_etag h) |> <| hs_grantedAtMs := nowMs |>
             else if hs_ready s then s <| hs_readyEtag := _etag hub |> <| hs_readyEtagMismatch := false |> else s in
    s <| hs_staleSinceMs := 0 |> <| hs_lastRxMs := nowMs |> <| hs_lastTxMs := nowMs |>
      <| hs_subs ::= map (fun e => e <| everPushed := false |>) |>) ;;
  s ← session_at i;
  let grants := map (fun e => mkGrant (channel_id e) (granted_rate_hz e) (priority e))
                  (take (Z.to_nat kWelcomeMaxGrants) (hs_subs s)) in
  publishes ← fold_each (fun g l =>
    latency ← call (scheduleLatencyUs (pg_channel_id g));
    horizon ← advertisedHorizonMs (pg_channel_id g);
    mret (l ++ [mkGrantedPublish (pg_channel_id g) (pg_granted_rate_hz g)
                  (if pg_burstRequested g then Some (pg_granted_burst g) else None) latency horizon]))
    (take (Z.to_nat kWelcomeMaxGrantedPublishes) (List.filter pg_used (hs_publishGrants s))) [];
  sent ← sendWelcome i grants publishes nowMs;
  when sent
    (on_session i (fun s => s <| hs_state := LIVE |>) ;;
     emitSessionEvent session_events.session_resumed (hs_session_id s) nowMs).

(** A fresh session: [derived] is the role where it has been worked out already. *)
Definition establish (i : nat) (h : HelloMsg) (derived : option Z) (nowMs : Z) : M () :=
  teardownSession i nowMs session_loss ;;
  on_session i (fun s => s <| hs_state := VALIDATING |>) ;;
  id ← draw_nonzero;
  on_session i (fun s => s <| hs_session_id := id |> <| hs_instance_id := hl_instance_id h |>) ;;
  role ← match derived with Some r => mret r | None => r ← tokenRole h; tierOf i r end;
  on_slot i (fun s => take_trust h (s <| sl_session ::= take_labels h |>)) ;;
  settle_role i h role nowMs ;;
  hub ← get;
  let matched := etag_matches h (_etag hub) in
  on_session i (fun s =>
    let s := s <| hs_helloSeenCfgGen := _cfgGen hub |> <| hs_clientEtagMatched := matched |> <| hs_ready := matched |>
               <| hs_readyEtagMismatch := false |> in
    let s := if matched then s <| hs_readyEtag := _etag hub |> else s in
    s <| hs_grantedAtMs := nowMs |> <| hs_lastRxMs := nowMs |> <| hs_lastTxMs := nowMs |>) ;;
  grants ← fold_each (fun wish l =>
    r ← admit_wish i wish;
    mret (match r with inr g => listed kWelcomeMaxGrants l g | inl _ => l end)) (hl_subscriptions h) [];
  publishes ← grant_publishes i (hl_publishes h) nowMs;
  on_session i (fun s => s <| hs_deadmanMs := applied_deadman (hl_deadman_wish_ms h) |>) ;;
  sent ← sendWelcome i grants publishes nowMs;
  when sent
    (on_session i (fun s => s <| hs_state := GRANTED |>) ;;
     on_session i (fun s => s <| hs_state := LIVE |>) ;;
     s ← session_at i;
     call (onSessionJoined (hs_session_id s))).

(** Room for one more: a stale session gives way, otherwise the newcomer is told to come back. *)
Definition make_room (i : nat) (nowMs : Z) : M bool :=
  others ← occupiedCount (Some i);
  if (others <? kHubMaxSessions)%nat then mret true
  else
    h ← get;
    match findEvictableStale (Some i) h with
    | Some victim =>
        sendGoodbye victim NackCode.SLOT_RECLAIMED ;;
        teardownSession victim nowMs session_loss ;;
        mret true
    | None =>
        through i (fun t => sendNack t (set_nk_retry_after_ms (Some limits.busy_retry_after_default_ms) (nack NackCode.HUB_AT_CAPACITY))) ;;
        mret false
    end.

(** The session another slot holds for the same client; [None] where HELLO was answered by resuming it. *)
Definition settle_duplicate (i : nat) (h : HelloMsg) (nowMs : Z) : M (option (option Z)) :=
  hub ← get;
  match find_instance (hl_instance_id h) i hub with
  | None => mret (Some None)
  | Some dup =>
      d ← session_at dup;
      if bool_decide (hs_state d = STALE) then
        role ← tokenRole h;
        role ← tierOf i role;
        if role =? hs_role d then handleReattach i dup h role nowMs ;; mret None
        else teardownSession dup nowMs session_loss ;; mret (Some (Some role))
      else
        sendGoodbye dup NackCode.DUPLICATE_INSTANCE ;;
        teardownSession dup nowMs session_loss ;;
        mret (Some None)
  end.

Definition handleHello (i : nat) (payload : list byte) (nowMs : Z) : M () :=
  match decodeHello payload with
  | err _ => through i (fun t => sendNack t (nack NackCode.MALFORMED))
  | ok h =>
      r ← settle_duplicate i h nowMs;
      match r with
      | None => mret ()
      | Some derived =>
          room ← make_room i nowMs;
          when room (establish i h derived nowMs)
      end
  end.

(** ** AUTH *)

Definition refuse_proof (i : nat) (nowMs : Z) : M () :=
  on_slot i (fun s => s <| sl_authFailures ::= fun n => u8 (n + 1) |>) ;;
  through i (fun t => sendNack t (nack NackCode.UNAUTHORIZED)) ;;
  s ← slot_at i;
  when (limits.auth_attempts_max <=? sl_authFailures s)
    (sendGoodbye i NackCode.UNAUTHORIZED ;; teardownSession i nowMs session_loss).

Definition handleAuth (i : nat) (payload : list byte) (nowMs : Z) : M () :=
  s ← slot_at i;
  if limits.auth_attempts_max <=? sl_authFailures s then mret ()
  else
    match decodeAuth payload with
    | err _ => through i (fun t => sendNack t (nack NackCode.MALFORMED))
    | ok m =>
        let t := te_trust_map m in
        match tm_token_proof t with
        | None => through i (fun t => sendNack t (nack NackCode.MALFORMED))
        | Some proof =>
            on_session i (fun s => s <| hs_presentationMode := default presentation_modes.proof (tm_presentation_mode t) |>) ;;
            s ← slot_at i;
            m ← gets _pairing;
            let '(proved, proofOk) := validateProof (hs_instance_id (sl_session s)) proof (sl_nonce s) m in
            if negb proofOk then refuse_proof i nowMs
            else
              on_slot i (fun s => s <| sl_authFailures := 0 |>) ;;
              on_session i (fun s => s <| hs_role := proved |>) ;;
              role ← applyTrustObservation i nowMs;
              role ← tierOf i role;
              on_session i (fun s => s <| hs_role := role |>) ;;
              let buf := encoded 64 (encodeGrant (mkGrantMsg (Some role) [] None)) in
              (if blank buf then mret () else through i (fun t => sendFrameTo t FrameType.GRANT 0 buf 0 ;; mret ())) ;;
              publishPairedRosterState
        end
    end.

(** ** The hub's own signature, where the application signs later *)

Definition pendingSignJobs : M nat := gets (fun h => length (List.filter sl_signPending (_slots h))).

(** The session and what to sign for it. *)
Definition takePendingSignJob : M (option (Z * list byte)) :=
  h ← get;
  match first_index sl_signPending (_slots h) with
  | None => mret None
  | Some i =>
      s ← slot_at i;
      on_slot i (fun s => s <| sl_signPending := false |>) ;;
      let id := hs_session_id (sl_session s) in
      mret (Some (id, hubSigMaterial (sl_clientNonce s) id (_bootId h)))
  end.

Definition emitHubSig (i : nat) (sig : list byte) : M () :=
  let buf := encoded 128 (encodeHubSig (mkTrustEnvelopeMsg (set_tm_welcome_sig (Some sig) TrustMap_new))) in
  if blank buf then mret () else through i (fun t => sendFrameTo t FrameType.HUB_SIG 0 buf 0 ;; mret ()).

Definition session_slot (session : Z) (h : Hub) : option nat :=
  first_index (fun s => occupied (sl_session s) && (hs_session_id (sl_session s) =? session)) (_slots h).

Definition submitSignature (session : Z) (sig : list byte) : M bool :=
  if (session =? 0) || blank sig || (kTrustSigMaxBytes <? length sig)%nat then mret false
  else
    h ← get;
    match session_slot session h with
    | None => mret false
    | Some i =>
        s ← slot_at i;
        if sl_signDelivered s then mret false
        else if negb (has (sl_transport s)) then mret false
        else
          emitHubSig i sig ;;
          on_slot i (fun s => s <| sl_signDelivered := true |>) ;;
          mret true
    end.

(** [fuel] bounds the turns: each takes one of at most [kSlotCapacity] pending jobs. *)
Fixpoint sign_jobs (fuel : nat) (maxJobs done_ : nat) : M nat :=
  match fuel with
  | O => mret done_
  | S fuel =>
      if (maxJobs <=? done_)%nat then mret done_
      else
        job ← takePendingSignJob;
        match job with
        | None => mret done_
        | Some (session, message) =>
            sig ← call (signP256 message);
            if blank sig || (kTrustSigMaxBytes <? length sig)%nat then sign_jobs fuel maxJobs done_
            else
              sent ← submitSignature session sig;
              sign_jobs fuel maxJobs (if sent : bool then S done_ else done_)
        end
  end.

Definition signPendingNow (maxJobs : nat) : M nat := sign_jobs (S kSlotCapacity) maxJobs 0.

End Hello.
