(* ===== verification/HubWish.v ===== *)
(** * HubWish: what a client asks to receive and to send (hub/hub_impl.hpp), SPEC 6.4, 9, 10

    SUBSCRIBE, UNSUBSCRIBE, PUBLISH, CATALOG_READY, and the small frames: PING, CLOCK, GOODBYE, PROBE. *)

From Stdlib Require Import String.
From S2P Require Import Prelude ByteIO Tables Crypto Collect Safety Frame MsgNack StateChannel Subscription.
From S2P Require Import MsgWish MsgWelcome Raw MsgBlob Blob Catalog Registry HubSession HubState StateM HubWorld HubCore.
From S2P Require Import HubPump HubHello CborItem CborMessage.
#[local] Open Scope Z_scope.

(** A [std::string_view] literal. *)
Definition text (s : string) : list byte := list_byte_of_string s.

Definition forget_pushes (ch : Z) (s : Slot) : Slot :=
  s <| sl_pushRecords ::= map (fun p => if pr_valid p && (pr_channel_id p =? ch) then PushRecord_new else p) |>.

Section Wish.
Context {E R : Type} `{Env E} `{FairRandom R} `{ICrypto}.
Abbreviation M := (HubM E R) (only parsing).

Definition handleSubscribe (i : nat) (payload : list byte) : M () :=
  match decodeSubscribe payload with
  | err e =>
      let detail := match e with CapacityExceeded => text "too many wishes per frame" | _ => text "undecodable subscribe" end in
      through i (fun t => sendNack t (saying detail (nack NackCode.SUBSCRIBE_REJECTED)))
  | ok m =>
      grants ← fold_each (fun wish l =>
        r ← admit_wish i wish;
        match r with
        | inl code => through i (fun t => sendNack t (on_channel (sw_channel_id wish) (nack code))) ;; mret l
        | inr g => mret (listed kGrantMsgMaxGrants l g)
        end) (sb_subscriptions m) [];
      if (length grants =? 0)%nat then mret ()
      else
        let buf := encoded 400 (encodeGrant (mkGrantMsg None grants None)) in
        if blank buf then mret () else through i (fun t => sendFrameTo t FrameType.GRANT 0 buf 0 ;; mret ())
  end.

Definition dropSubscription (i : nat) (ch : Z) : M bool :=
  s ← session_at i;
  let '(subs, removed) := sub_remove ch (hs_subs s) in
  if negb removed then mret false
  else
    on_session i (fun s => s <| hs_subs := subs |>) ;;
    on_slot i (forget_pushes ch) ;;
    mret true.

Definition handleUnsubscribe (i : nat) (payload : list byte) : M () :=
  match decodeUnsubscribe payload with
  | err _ => mret ()
  | ok m => each (fun ch => dropSubscription i ch ;; mret ()) (us_channel_ids m)
  end.

Definition handlePublish (i : nat) (payload : list byte) (nowMs : Z) : M () :=
  match decodePublish payload with
  | err _ => sendNackTracked i (nack NackCode.MALFORMED) nowMs
  | ok m =>
      granted ← grant_publishes i (pb_publishes m) nowMs;
      let buf := encoded 400 (encodeGrant (mkGrantMsg None [] (Some granted))) in
      if blank buf then mret () else sendFrameToTracked i FrameType.GRANT 0 buf nowMs 0 ;; mret ()
  end.

Definition handleCatalogReady (i : nat) (payload : list byte) : M () :=
  match decodeCatalogReady payload with
  | None => mret ()
  | Some etag =>
      current ← gets _etag;
      on_session i (fun s => s <| hs_ready := true |> <| hs_readyEtag := etag |>
                               <| hs_readyEtagMismatch := negb (bool_decide (etag = current)) |>)
  end.

Definition handlePing (i : nat) (payload : list byte) : M () :=
  through i (fun t => sendFrameTo t FrameType.PONG 0 (encoded 32 (encodePong payload)) 0 ;; mret ()).

(** [t1] on receipt, [t2] on departure. *)
Definition handleClock (i : nat) (payload : list byte) : M () :=
  match decodeClockRequest payload with
  | err _ => mret ()
  | ok t0 =>
      t1 ← call nowUs;
      t2 ← call nowUs;
      let buf := encoded kClockReplyBytes (encodeClockReply (mkClockReply t0 t1 t2)) in
      if blank buf then mret () else through i (fun t => sendFrameTo t FrameType.CLOCK 0 buf 0 ;; mret ())
  end.

Definition handleGoodbye (i : nat) (nowMs : Z) : M () := teardownSession i nowMs session_loss.

(** ** Link probing *)

Definition handleProbeRequest (i : nat) : M () :=
  through i (fun t =>
    p ← call (t_properties t);
    mtuPayload ← (if Z.of_nat kHeaderBytes <? tp_mtu p then
                    p ← call (t_properties t); mret (u16 (tp_mtu p - Z.of_nat kHeaderBytes))
                  else mret (Z.of_nat min_transport_payload));
    if mtuPayload =? 0 then mret ()
    else
      let frameCount := (limits.probe_default_bytes + mtuPayload - 1) / mtuPayload in
      let span := Nat.min (Z.to_nat mtuPayload) min_transport_payload in
      r ← until (fun k =>
        let buf := encoded span (encodeProbeFrame (u16 (Z.of_nat k))) in
        if blank buf then mret (Some tt)
        else sendFrameTo t FrameType.PROBE 0 buf 0 ;; mret None) (seq 0 (Z.to_nat frameCount));
      mret ()).

Definition handleProbeReportFrame (i : nat) (payload : list byte) : M () :=
  match decodeProbeReport payload with
  | err _ => mret ()
  | ok r => on_slot i (fun s => s <| sl_probeReport := Some r |>)
  end.

(** ** Grants the catalog withdraws *)

Definition withdrawGrants (i : nat) (ids : list Z) (nowMs : Z) : M () :=
  each (fun id =>
    dropped ← dropSubscription i id;
    s ← session_at i;
    let publishing := has (publishGrantFor id s) in
    when publishing (on_session i (removePublishGrant id)) ;;
    when (dropped || publishing) (sendNackTracked i (on_channel id (nack NackCode.CHANNEL_WITHDRAWN)) nowMs)) ids.

Definition abortCatalogTransfers : M () :=
  each (fun i =>
    s ← slot_at i;
    let pb := sl_blob s in
    if negb (pb_active pb && isCatalog (pb_id pb)) then mret ()
    else
      on_slot i (fun s => s <| sl_blob ::= fun pb => pb <| pb_active := false |> |>) ;;
      match sl_transport s with
      | None => mret ()
      | Some t => sendNack t (set_nk_intent_seq (pb_reqSeq pb) (nack NackCode.CHUNK_UNAVAILABLE))
      end) slot_ids.

End Wish.
