(* ===== verification/HubPairing.v ===== *)
(** * HubPairing: PAIR_REQ, knocks, windows and the owner's decisions (hub/hub_impl.hpp), SPEC 12 *)

From S2P Require Import Prelude SerialArith Tables Crypto Safety Frame MsgNack MsgTrust Pairing Catalog.
From S2P Require Import Registry HubSession HubState StateM HubWorld HubCore HubPump HubHello CborMessage.
#[local] Open Scope Z_scope.

(** What the ledger learns of a device when it is granted a token. *)
Definition label_entry (s : HubSession) (e : PairedEntry) : PairedEntry :=
  let e := e <| pe_kind ::= bs_assign kLedgerKindMaxBytes (bs_view (hs_clientKind s)) |>
             <| pe_name ::= bs_assign kLedgerNameMaxBytes (bs_view (hs_clientName s)) |>
             <| pe_presentationMode := hs_presentationMode s |> in
  if hs_hasClientVer s then e <| pe_version ::= bs_assign kLedgerVersionMaxBytes (bs_view (hs_clientVer s)) |> else e.

Definition label_device (id : list byte) (s : HubSession) (m : PairingManager) : PairingManager :=
  match findByInstance id m with
  | Some k => m <| pm_entries ::= alter (label_entry s) k |>
  | None => m
  end.

Definition forget_knock (id : list byte) (m : PairingManager) : PairingManager :=
  m <| pm_pending ::= fun l => fst (Pending.remove id l) |>.

(** A knock that asks for [configure] and has not expired. *)
Definition asks_configure (nowMs : Z) (k : PendingKnock) : bool :=
  pk_used k && (pk_asked k =? AccessLevel.configure) && negb (timeReached nowMs (pk_expiresAtMs k)).

Definition knock_expiry (nowMs : Z) : Z := u32 (nowMs + pairing_window_default_s * 1000).

Inductive PresenceApproval := approved | none_pending | several_pending | knocker_gone | ledger_full.

Section Pairing.
Context {E R : Type} `{Env E} `{FairRandom R} `{ICrypto}.
Abbreviation M := (HubM E R) (only parsing).

Definition on_pairing (f : PairingManager -> PairingManager) : M () := modify (fun h => h <| _pairing ::= f |>).

(** ** PAIR_GRANT *)

(** The grant with the hub's key, where it has one that fits. *)
Definition pair_grant_frame (token : list byte) (role : Z) : M (list byte) :=
  pk ← call publicKey;
  let trust := if negb (blank pk) && (length pk <=? kTrustPubkeyMaxBytes)%nat
               then Some (set_tm_hub_pubkey (Some pk) TrustMap_new) else None in
  mret (encoded 96 (encodePairGrant (mkPairGrantMsg token role trust))).

Definition issuePairGrant (i : nat) (id : list byte) (role mode nowMs : Z) : M bool :=
  m ← gets _pairing;
  r ← draw (fun g => let '(m, g, token, fits) := grant id role mode g (replicate token_bytes Byte.x00) m in ((m, token, fits), g));
  let '(m, token, granted) := r in
  on_pairing (fun _ => m) ;;
  if negb granted then mret false
  else
    s ← session_at i;
    on_pairing (label_device id s) ;;
    buf ← pair_grant_frame token role;
    if blank buf then mret false
    else
      through i (fun t => sendFrameTo t FrameType.PAIR_GRANT 0 buf 0 ;; mret ()) ;;
      tier ← tierOf i role;
      on_session i (fun s => s <| hs_role := tier |>) ;;
      on_pairing (forget_knock id) ;;
      emitPairingEvent pairing_events.granted id (bs_view (hs_clientName s)) mode role (bs_view (hs_clientVer s)) nowMs ;;
      publishPendingPairingState nowMs ;;
      publishPairedRosterState ;;
      mret true.

(** ** Knocking *)

Definition window_closed_event (nowMs : Z) : M () :=
  emitPairingEvent pairing_events.window_closed [] [] pairing_modes.push_to_pair AccessLevel.watch [] nowMs.

Definition claim_knock (asked : Z) (s : HubSession) (k : PendingKnock) : PendingKnock :=
  let k := k <| pk_asked := asked |> <| pk_kind ::= bs_assign kLedgerKindMaxBytes (bs_view (hs_clientKind s)) |>
             <| pk_name ::= bs_assign kLedgerNameMaxBytes (bs_view (hs_clientName s)) |> in
  if hs_hasClientVer s then k <| pk_version ::= bs_assign kLedgerVersionMaxBytes (bs_view (hs_clientVer s)) |> else k.

(** Held for the owner to decide, announced as it was recorded. *)
Definition hold_knock (i : nat) (id : list byte) (asked nowMs : Z) : M () :=
  s ← session_at i;
  m ← gets _pairing;
  let '(pending, k) := Pending.add id (hs_session_id s) (knock_expiry nowMs) pairing_modes.knock_approve (pm_pending m) in
  match k with
  | None =>
      on_pairing (fun m => m <| pm_pending := pending |>) ;;
      sendNackTracked i (set_nk_retry_after_ms (Some (pairing_window_default_s * 1000)) (nack NackCode.BUSY)) nowMs
  | Some k =>
      let pending := alter (claim_knock asked s) k pending in
      on_pairing (fun m => m <| pm_pending := pending |>) ;;
      let knock := default PendingKnock_new (pending !! k) in
      emitPairingEvent pairing_events.knocked id (bs_view (pk_name knock)) (pk_mode knock) asked (bs_view (pk_version knock)) nowMs ;;
      publishPendingPairingState nowMs
  end.

Definition handleKnock (i : nat) (m : PairReqMsg) (nowMs : Z) : M () :=
  s ← session_at i;
  let id := pr_instance_id m in
  let asked := default AccessLevel.watch (pr_roles m) in
  if negb (bool_decide (hs_instance_id s = id)) then sendNackTracked i (nack NackCode.PAIRING_DENIED) nowMs
  else if AccessLevel.configure <? asked then sendNackTracked i (nack NackCode.PAIRING_DENIED) nowMs
  else
    cable ← onCable i;
    if (cable : bool) then
      let role := if asked =? AccessLevel.watch then AccessLevel.configure else asked in
      granted ← issuePairGrant i id role pairing_modes.cable nowMs;
      when (negb granted) (sendNackTracked i (nack NackCode.PAIRING_DENIED) nowMs)
    else
      pm ← gets _pairing;
      if presenceWindowOpen nowMs pm && (asked <=? presenceGrantRole pm) then
        let role := if asked =? AccessLevel.watch then presenceGrantRole pm else asked in
        on_pairing closePresenceWindow ;;
        modify (fun h => h <| _presenceWasOpen := false |>) ;;
        granted ← issuePairGrant i id role pairing_modes.push_to_pair nowMs;
        if negb granted then sendNackTracked i (nack NackCode.PAIRING_DENIED) nowMs
        else
          window_closed_event nowMs ;;
          publishPendingPairingState nowMs
      else if negb (pm_knockApproveEnabled pm) then sendNackTracked i (nack NackCode.PAIRING_REQUIRED) nowMs
      else hold_knock i id asked nowMs.

(** ** PAIR_REQ *)

Definition handlePairReq (i : nat) (payload : list byte) (nowMs : Z) : M () :=
  match decodePairReq payload with
  | err _ => through i (fun t => sendNack t (nack NackCode.MALFORMED))
  | ok m =>
      let id := pr_instance_id m in
      match pr_pin_proof m with
      | None => handleKnock i m nowMs
      | Some proof =>
          cable ← onCable i;
          if (cable : bool) then handleKnock i m nowMs
          else
            s ← slot_at i;
            pm ← gets _pairing;
            r ← draw (fun g =>
              let '(pm, g, token, outcome) :=
                Pairing.handlePairReq id proof (sl_nonce s) g nowMs AccessLevel.control (replicate token_bytes Byte.x00) pm in
              ((pm, token, outcome), g));
            let '(pm, token, outcome) := r in
            on_pairing (fun _ => pm) ;;
            match outcome with
            | Denied => through i (fun t => sendNack t (nack NackCode.PAIRING_DENIED))
            | WindowClosed => through i (fun t => sendNack t (nack NackCode.PAIRING_REQUIRED))
            | Granted =>
                buf ← pair_grant_frame token AccessLevel.control;
                (if blank buf then mret () else through i (fun t => sendFrameTo t FrameType.PAIR_GRANT 0 buf 0 ;; mret ())) ;;
                let session := sl_session s in
                on_pairing (label_device id session) ;;
                on_session i (fun s => s <| hs_role := AccessLevel.control |>) ;;
                emitPairingEvent pairing_events.granted id (bs_view (hs_clientName session)) pairing_modes.pin_proof
                  AccessLevel.control (bs_view (hs_clientVer session)) nowMs ;;
                publishPairedRosterState
            end
      end
  end.

(** ** The owner's windows *)

Definition openPairingWindow (pin : list byte) : M () :=
  now ← gets _lastUpdateMs; on_pairing (openWindow pin now).
Definition closePairingWindow : M () := on_pairing closeWindow.

Definition openPresenceWindow : M () :=
  h ← get;
  let now := _lastUpdateMs h in
  if presenceWindowOpen now (_pairing h) then mret ()
  else
    on_pairing (Pairing.openPresenceWindow now) ;;
    modify (fun h => h <| _presenceWasOpen := true |>) ;;
    role ← gets (fun h => presenceGrantRole (_pairing h));
    emitPairingEvent pairing_events.window_opened [] [] pairing_modes.push_to_pair role [] now ;;
    publishPendingPairingState now.

Definition closePresenceWindow : M () :=
  h ← get;
  let now := _lastUpdateMs h in
  if negb (presenceWindowOpen now (_pairing h)) then mret ()
  else
    on_pairing Pairing.closePresenceWindow ;;
    modify (fun h => h <| _presenceWasOpen := false |>) ;;
    window_closed_event now ;;
    publishPendingPairingState now.

Definition pumpPairing (nowMs : Z) : M () :=
  m ← gets _pairing;
  let '(pending, expired) := Pending.expire nowMs (pm_pending m) in
  on_pairing (fun m => m <| pm_pending := pending |>) ;;
  each (fun k => emitPairingEvent pairing_events.expired (pk_instance_id k) (bs_view (pk_name k)) (pk_mode k)
                   AccessLevel.watch [] nowMs) expired ;;
  h ← get;
  let openNow := presenceWindowOpen nowMs (_pairing h) in
  let lapsed := _presenceWasOpen h && negb openNow in
  when lapsed (modify (fun h => h <| _presenceWasOpen := false |>) ;; window_closed_event nowMs) ;;
  when (negb (_presenceWasOpen h) && openNow) (modify (fun h => h <| _presenceWasOpen := true |>)) ;;
  when (negb (length expired =? 0)%nat || lapsed) (publishPendingPairingState nowMs).

(** ** The owner's decisions *)

Definition findSlotBySession (session : Z) (h : Hub) : option nat :=
  if session =? 0 then None else session_slot session h.

Definition configureRequestsPending (h : Hub) : nat :=
  length (List.filter (asks_configure (_lastUpdateMs h)) (pm_pending (_pairing h))).

(** Makes room in a full ledger by forgetting its oldest watch-only device. *)
Definition make_ledger_room (id : list byte) (nowMs : Z) : M () :=
  m ← gets _pairing;
  if negb (has (findByInstance id m)) && (paired_devices_max <=? entryCount m)%nat then
    let '(m, dropped) := dropOldestWatch m in
    on_pairing (fun _ => m) ;;
    match dropped with
    | Some d => emitPairingEvent pairing_events.revoked d [] 0 AccessLevel.watch [] nowMs
    | None => mret ()
    end
  else mret ().

Definition approvePendingConfigure : M PresenceApproval :=
  h ← get;
  let now := _lastUpdateMs h in
  match List.filter (asks_configure now) (pm_pending (_pairing h)) with
  | [] => mret none_pending
  | [k] =>
      let id := pk_instance_id k in
      match findSlotBySession (pk_session_id k) h with
      | Some joiner =>
          s ← slot_at joiner;
          if has (sl_transport s) then
            make_ledger_room id now ;;
            granted ← issuePairGrant joiner id AccessLevel.configure pairing_modes.push_to_pair now;
            mret (if granted : bool then approved else ledger_full)
          else
            on_pairing (forget_knock id) ;;
            emitPairingEvent pairing_events.expired id [] pairing_modes.knock_approve AccessLevel.watch [] now ;;
            publishPendingPairingState now ;;
            mret knocker_gone
      | None =>
          on_pairing (forget_knock id) ;;
          emitPairingEvent pairing_events.expired id [] pairing_modes.knock_approve AccessLevel.watch [] now ;;
          publishPendingPairingState now ;;
          mret knocker_gone
      end
  | _ => mret several_pending
  end.

(** The device demotes everyone: tokens, requests, windows and the sessions above watch. *)
Definition demoteAllToWatch : M (nat * nat) :=
  h ← get;
  let now := _lastUpdateMs h in
  let '(m, tokens) := Pairing.demoteAllToWatch (_pairing h) in
  on_pairing (fun _ => m) ;;
  each (fun k =>
    m ← gets _pairing;
    match pm_pending m !! k with
    | None => mret ()
    | Some knock =>
        when (pk_used knock)
          (on_pairing (forget_knock (pk_instance_id knock)) ;;
           emitPairingEvent pairing_events.denied (pk_instance_id knock) [] (pk_mode knock) AccessLevel.watch [] now)
    end) (seq 0 pairing_pending_max) ;;
  on_pairing closeWindow ;;
  closePresenceWindow ;;
  sessions ← fold_each (fun i n =>
    s ← session_at i;
    if negb (occupied s) || (hs_role s =? AccessLevel.watch) then mret n
    else evictSlot i NackCode.SESSION_EVICTED now ;; mret (S n)) slot_ids 0%nat;
  publishPendingPairingState now ;;
  publishPairedRosterState ;;
  mret (tokens, sessions).

End Pairing.
