(* ===== verification/HubIntent.v ===== *)
(** * HubIntent: INTENT (hub/hub_impl.hpp), SPEC 9.3, 10.5, 11

    The gate every intent passes (rate, readiness, idempotency, catalog, access, precondition), the safety
    operations, settings on trial, source ownership, and the delegate's turn. *)

From Stdlib Require Import String.
From S2P Require Import Prelude SerialArith RateLimiter Tables Crypto Safety Shedding Frame Estop.
From S2P Require Import MsgNack MsgIntent Queues Pairing MsgTrust Catalog Registry HubSession HubState StateM HubWorld HubCore.
From S2P Require Import HubSafety HubPump HubHello HubWish HubPairing CborItem CborMessage.
#[local] Open Scope Z_scope.

(** ** Who may send it *)

Definition field_access (c : Catalog.Catalog) (fields : list SchemaField) (need : Z) (f : IntentValueField) : Z :=
  match List.find (fun sf => sf_key sf =? f.1) fields with
  | None => need
  | Some sf =>
      let need := from_option (Z.max need) need (sf_access sf) in
      if negb (sf_hasOptionAccess sf) then need
      else match f.2 with
           | VU64 idx =>
               let oa := optionAccess sf c in
               if idx <? len oa then Z.max need (nth (Z.to_nat idx) oa AccessLevel.watch) else foldl Z.max need oa
           | _ => need
           end
  end.

Definition requiredAccessFor (e : CatalogEntry) (m : IntentMsg) (c : Catalog.Catalog) : Z :=
  if negb (usesSchema e) then ce_access e
  else foldl (field_access c (schemaFields e c)) (ce_access e) (it_value m).

(** What turns an intent away before anything of it is done. *)
Definition intent_refusal (role cfgGen : Z) (m : IntentMsg) (c : Catalog.Catalog) : option NackMsg :=
  let about code := for_intent (it_intent_id m) (on_channel (it_channel_id m) (nack code)) in
  match Catalog.find (it_channel_id m) c with
  | None => Some (about NackCode.UNKNOWN_CHANNEL)
  | Some e =>
      if negb (ce_cls e =? ChannelClass.INTENT) then Some (about NackCode.CLASS_MISMATCH)
      else
        let need := requiredAccessFor e m c in
        if role <? need then
          if need =? AccessLevel.control then Some (saying (text "needs control") (about NackCode.NOT_CONTROLLER))
          else Some (saying (text "needs configure") (about NackCode.ACCESS_DENIED))
        else match it_precondition m with
             | Some g => if negb (g =? cfgGen) then Some (for_intent (it_intent_id m) (nack NackCode.CONFLICT)) else None
             | None => None
             end
  end.

(** The safety operation an intent on the safety channel asks for: its first field of key 1. *)
Definition safety_op_of (m : IntentMsg) : option Z :=
  if negb (it_channel_id m =? channels.safety_intents) then None
  else
    let is_op (f : IntentValueField) := (f.1 =? 1) && bool_decide (kind_of f.2 = KindU64) in
    match List.find is_op (it_value m) with Some (_, VU64 op) => Some op | _ => None end.

(** ** Trials *)

Definition trial_bits (v : IntentValue) : Z :=
  match v with
  | VI64 v => u64 v
  | VF32 bits => bits
  | VBool b => if b then 1 else 0
  | VU64 v => v
  | _ => 0
  end.

Definition not_trialable (v : option IntentValue) : bool :=
  match v with None => true | Some v => bool_decide (kind_of v = KindTstr) || bool_decide (kind_of v = KindBstr) end.

(** Whether a field is on trial by another session. *)
Definition on_trial_elsewhere (me ch : Z) (ts : list TrialEntry) (f : IntentValueField) : bool :=
  match findTrial ch f.1 ts with Some t => negb (te_session_id t =? me) | None => false end.

(** An opening takes the first free entry. *)
Definition open_trial (o : TrialEntry) (h : Hub) : Hub :=
  match first_index (fun t => te_session_id t =? 0) (_trials h) with
  | Some k => h <| _trials ::= <[k := o]> |> <| _trialGen ::= fun g => u32 (g + 1) |>
  | None => h
  end.

Definition open_trials_of (key : Z) (opened : list TrialEntry) (h : Hub) : Hub :=
  foldl (fun h o => if te_key o =? key then open_trial o h else h) h opened.

(** The session's own trial of a field it applies for good is over. *)
Definition end_trial_of (me ch : Z) (st : Hub * list IntentValueField) (key : Z) : Hub * list IntentValueField :=
  let '(h, ended) := st in
  match first_index (trial_at ch key) (_trials h) with
  | Some k =>
      match _trials h !! k with
      | Some t =>
          if te_session_id t =? me then
            (h <| _trials ::= <[k := TrialEntry_new]> |> <| _trialGen ::= fun g => u32 (g + 1) |>,
             ended ++ [(key, trial_value_of t)])
          else (h, ended)
      | None => (h, ended)
      end
  | None => (h, ended)
  end.

Definition acquired_reason : Z := 0.
Definition takeover_reason : Z := 1.
Definition refused_reason : Z := 2.

Section Intent.
Context {E R : Type} `{Env E} `{FairRandom R} `{ICrypto}.
Abbreviation M := (HubM E R) (only parsing).

Definition refuseIntent (i : nat) (m : IntentMsg) (code : Z) (detail : list byte) (nowMs : Z) : M () :=
  sendNackTracked i (saying_if_any detail (for_intent (it_intent_id m) (on_channel (it_channel_id m) (nack code)))) nowMs.

(** The ECHO is kept for a retry of the same intent, then sent. *)
Definition echo (i : nat) (m : IntentMsg) (applied : list IntentValueField) (cap : nat) (nowMs : Z) : M () :=
  cfgGen ← gets _cfgGen;
  let buf := encoded cap (encodeEcho (mkEchoMsg (it_intent_id m) cfgGen applied)) in
  if blank buf then mret ()
  else
    on_session i (fun s => s <| hs_intentRing ::= fun r =>
      fst (IntentRing.store kIntentRingDepth kIntentRingSlotCapacity (it_intent_id m) buf r) |>) ;;
    sendFrameToTracked i FrameType.ECHO (it_channel_id m) buf nowMs 0 ;; mret ().

Definition detail_of (ch code : Z) : M (list byte) := call (intentNackDetail ch code).

(** ** Safety operations the hub decides itself *)

Definition release_intent (i : nat) (m : IntentMsg) (nowMs : Z) : M () :=
  latched ← gets estopLatched;
  released ← releaseEstop;
  if (released : bool) then echo i m [] 32 nowMs
  else
    detail ← (if (latched : bool) then detail_of (it_channel_id m) NackCode.CLEAR_REFUSED else mret (text "no e-stop latched"));
    sendNackTracked i (saying_if_any detail (for_intent (it_intent_id m) (nack NackCode.CLEAR_REFUSED))) nowMs.

Definition estop_intent (i : nat) (m : IntentMsg) (nowMs : Z) : M () :=
  s ← session_at i;
  sq ← gets nextEstopSeq;
  handleEstopFrame (mkEstopFrame safety_causes.user (hs_role s) sq) nowMs ;;
  echo i m [(1, VU64 safety_ops.estop)] 64 nowMs.

Definition resume_refusal (h : Hub) : option (Z * list byte) :=
  if estopLatched h then Some (NackCode.ESTOP_ACTIVE, text "e-stop latched")
  else if has_bit (_safetyModes h) safety_mode_bits.OVERRIDE then Some (NackCode.INTERLOCK, text "override latched: return first")
  else if has_bit (_safetyModes h) safety_mode_bits.HOME_REQUIRED then Some (NackCode.NOT_HOMED, text "home required")
  else None.

(** ** Trial commit and revert *)

Definition handleTrialOpIntent (i : nat) (m : IntentMsg) (nowMs : Z) : M () :=
  let op := foldl (fun op (f : IntentValueField) =>
              match f.2 with VU64 v => if f.1 =? trial_value.op then v else op | _ => op end) 0 (it_value m) in
  if negb (op =? trial_ops.commit) && negb (op =? trial_ops.revert) then
    refuseIntent i m NackCode.UNSUPPORTED_OP (text "use commit or revert") nowMs
  else
    s ← session_at i;
    endSessionTrials (hs_session_id s) (op =? trial_ops.commit) ;;
    echo i m [(trial_value.op, VU64 op)] 32 nowMs.

(** The entries a trial intent would open, none where one of its fields cannot be tried. *)
Fixpoint baselines (me ch : Z) (fields : list IntentValueField) (opened : list TrialEntry) : M (option (list TrialEntry)) :=
  match fields with
  | [] => mret (Some opened)
  | (key, _) :: fields =>
      ts ← gets _trials;
      if has (findTrial ch key ts) then baselines me ch fields opened
      else
        b ← call (trialBaseline ch key);
        if not_trialable b then mret None
        else
          let v := default (VU64 0) b in
          baselines me ch fields (opened ++ [mkTrialEntry (trial_bits v) me ch key (kind_of v)])
  end.

Definition trial_openings (me : Z) (m : IntentMsg) (mapped : option Z) : M (Result (list TrialEntry) (list byte)) :=
  if has mapped || (it_channel_id m =? channels.safety_intents) then mret (err (text "not trialable"))
  else
    opened ← baselines me (it_channel_id m) (it_value m) [];
    ts ← gets _trials;
    mret (match opened with
          | None => err (text "not trialable")
          | Some l => if (kHubMaxTrials - trialCount ts <? length l)%nat then err (text "trial table full") else ok l
          end).

(** ** Ownership *)

(** While paused, only what the delegate admits moves; whether the intent was turned away. *)
Definition pause_refuses (i : nat) (m : IntentMsg) (nowMs : Z) : M bool :=
  h ← get;
  if negb (pauseLatched h) then mret false
  else
    admitted ← call (admitsUnderPause (it_channel_id m) (it_value m) (has_bit (_safetyModes h) safety_mode_bits.OVERRIDE));
    if (admitted : bool) then mret false
    else
      detail ← detail_of (it_channel_id m) NackCode.INTERLOCK;
      sendNackTracked i (saying (if blank detail then text "paused" else detail)
                           (for_intent (it_intent_id m) (nack NackCode.INTERLOCK))) nowMs ;;
      mret true.

Definition jog_refused (source : Z) : M bool :=
  kind ← call (sourceKind source);
  h ← get;
  if (kind =? source_kinds.jog) && negb (has_bit (_safetyModes h) safety_mode_bits.OVERRIDE) then railHeldByOtherSource source
  else mret false.

(** Taking the source of the channel: [None] where somebody else keeps it, otherwise whether it changed hands. *)
Definition acquire_source (i : nat) (source : Z) (takeover : bool) (nowMs : Z) : M (option bool) :=
  s ← session_at i;
  h ← get;
  let me := hs_session_id s in
  let '(t, r) := acquire source me (hs_role s) takeover (_ownership h) in
  modify (fun h => h <| _ownership := t |>) ;;
  match r with
  | Conflict => mret None
  | AlreadyOwner => mret (Some false)
  | Acquired =>
      call (onSourceOwnership source me acquired_reason) ;;
      publishControlOwnerStateIfPresent ;;
      mret (Some true)
  | TakenOver =>
      call (onSourceOwnership source me takeover_reason) ;;
      publishControlOwnerStateIfPresent ;;
      emitTakeoverEvent source me nowMs ;;
      mret (Some true)
  end.

(** A refused intent keeps no source it took for itself. *)
Definition give_back (i : nat) (source : Z) : M () :=
  s ← session_at i;
  h ← get;
  let '(t, freed) := release source (hs_session_id s) (_ownership h) in
  modify (fun h => h <| _ownership := t |>) ;;
  when freed (call (onSourceOwnership source 0 refused_reason) ;; publishControlOwnerStateIfPresent).

(** ** The delegate's turn *)

Definition settle_trials (me ch : Z) (trial : bool) (opened : list TrialEntry) (applied : list IntentValueField) : M () :=
  if trial then modify (fun h => foldl (fun h (f : IntentValueField) => open_trials_of f.1 opened h) h applied)
  else
    ended ← gets (fun h => (foldl (end_trial_of me ch) (h, []) applied.*1).2);
    modify (fun h => (foldl (end_trial_of me ch) (h, []) applied.*1).1) ;;
    when (negb (length ended =? 0)%nat) (call (onTrialCommit ch ended)).

Definition latch_safety (op : option Z) (session nowMs : Z) : M () :=
  match op with
  | None => mret ()
  | Some op =>
      before ← gets _safetyWord;
      changed ← applySafetyOpLatch (u8 op) session;
      when changed (publishSafetySnapshot ;; broadcastSafetyNow nowMs ;; emitSafetyEdgeEvents before nowMs)
  end.

Definition apply_intent (i : nat) (m : IntentMsg) (trial : bool) (opened : list TrialEntry) (taken : option Z) (nowMs : Z) : M () :=
  s ← session_at i;
  let ch := it_channel_id m in
  r ← (if trial then call (applyTrialIntent ch (it_value m) (hs_role s)) else call (applyIntent ch (it_value m) (hs_role s)));
  match r with
  | (err code, _) =>
      match taken with Some source => give_back i source | None => mret () end ;;
      detail ← detail_of ch code;
      sendNackTracked i (saying_if_any detail (for_intent (it_intent_id m) (nack code))) nowMs
  | (ok applied, cfgChanged) =>
      when cfgChanged (modify (fun h => h <| _cfgGen ::= fun g => u16 (g + 1) |>)) ;;
      settle_trials (hs_session_id s) ch trial opened applied ;;
      latch_safety (safety_op_of m) (hs_session_id s) nowMs ;;
      echo i m applied 256 nowMs
  end.

(** Everything past the operations the hub decides itself. *)
Definition perform_intent (i : nat) (m : IntentMsg) (nowMs : Z) : M () :=
  s ← session_at i;
  let me := hs_session_id s in
  let ch := it_channel_id m in
  let trial := default false (it_trial m) in
  mapped ← call (sourceForChannel ch);
  ts ← gets _trials;
  if existsb (on_trial_elsewhere me ch ts) (it_value m) then
    refuseIntent i m NackCode.TRIAL_CONFLICT (text "on trial by another session") nowMs
  else
    opening ← (if trial then trial_openings me m mapped else mret (ok []));
    match opening with
    | err detail => refuseIntent i m NackCode.UNSUPPORTED_OP detail nowMs
    | ok opened =>
        match mapped with
        | None => apply_intent i m trial opened None nowMs
        | Some source =>
            refused ← pause_refuses i m nowMs;
            if (refused : bool) then mret ()
            else
              jog ← jog_refused source;
              if (jog : bool) then refuseIntent i m NackCode.SOURCE_CONFLICT (text "rail owned by a source") nowMs
              else
                let takeover := default false (it_takeover m) in
                r ← acquire_source i source takeover nowMs;
                match r with
                | None =>
                    let code := if takeover then NackCode.SOURCE_CONFLICT else NackCode.TAKEOVER_REQUIRED in
                    sendNackTracked i (for_intent (it_intent_id m) (nack code)) nowMs
                | Some changed =>
                    us ← call nowUs;
                    modify (markSourceActive source nowMs us limits.stream_quiet_release_ms) ;;
                    apply_intent i m trial opened (if changed : bool then Some source else None) nowMs
                end
        end
    end.

(** ** Session administration *)

(** The fields of an admin intent; a later field of the same key wins. *)
Record AdminRequest := mkAdminRequest { ar_op : option Z; ar_session : Z; ar_instance : list byte; ar_role : option Z }.

Definition admin_field (r : AdminRequest) (f : IntentValueField) : AdminRequest :=
  match f with
  | (key, VU64 v) =>
      if key =? admin_value.op then mkAdminRequest (Some v) (ar_session r) (ar_instance r) (ar_role r)
      else if key =? admin_value.session_id then mkAdminRequest (ar_op r) (u32 v) (ar_instance r) (ar_role r)
      else if key =? admin_value.role then mkAdminRequest (ar_op r) (ar_session r) (ar_instance r) (Some v)
      else r
  | (key, VBstr b) =>
      if key =? admin_value.instance_id then mkAdminRequest (ar_op r) (ar_session r) b (ar_role r) else r
  | _ => r
  end.

Definition admin_request (m : IntentMsg) : AdminRequest :=
  foldl admin_field (mkAdminRequest None 0 [] None) (it_value m).

Definition is_instance (id : list byte) : bool := (length id =? instance_id_bytes)%nat.

Definition pair_approve (i : nat) (r : AdminRequest) (refuse : Z -> M ()) (accept : M ()) (nowMs : Z) : M () :=
  let id := ar_instance r in
  if negb (is_instance id) then refuse NackCode.INVALID_VALUE
  else if AccessLevel.configure <? default AccessLevel.control (ar_role r) then refuse NackCode.INVALID_VALUE
  else
    let role := default AccessLevel.control (ar_role r) in
    s ← session_at i;
    h ← get;
    if hs_role s <? role then refuse NackCode.ACCESS_DENIED
    else match Pending.find id (pm_pending (_pairing h)) ≫= fun k => pm_pending (_pairing h) !! k with
         | None => refuse NackCode.INVALID_VALUE
         | Some knock =>
             match findSlotBySession (pk_session_id knock) h ≫= fun j =>
                     if has (_slots h !! j ≫= sl_transport) then Some j else None with
             | None =>
                 on_pairing (forget_knock id) ;;
                 emitPairingEvent pairing_events.expired (pk_instance_id knock) [] (pk_mode knock) AccessLevel.watch [] nowMs ;;
                 publishPendingPairingState nowMs ;;
                 refuse NackCode.INVALID_VALUE
             | Some joiner =>
                 granted ← issuePairGrant joiner id role (pk_mode knock) nowMs;
                 if (granted : bool) then accept else refuse NackCode.BUSY
             end
         end.

Definition pair_deny (r : AdminRequest) (refuse : Z -> M ()) (accept : M ()) (nowMs : Z) : M () :=
  let id := ar_instance r in
  if negb (is_instance id) then refuse NackCode.INVALID_VALUE
  else
    m ← gets _pairing;
    match Pending.find id (pm_pending m) ≫= fun k => pm_pending m !! k with
    | None => refuse NackCode.INVALID_VALUE
    | Some knock =>
        on_pairing (forget_knock id) ;;
        when (pk_reapproval knock)
          (on_pairing (fun m => fst (revoke (pk_instance_id knock) m)) ;;
           emitPairingEvent pairing_events.revoked (pk_instance_id knock) [] (pk_mode knock) AccessLevel.watch [] nowMs ;;
           publishPairedRosterState) ;;
        emitPairingEvent pairing_events.denied (pk_instance_id knock) [] (pk_mode knock) AccessLevel.watch [] nowMs ;;
        publishPendingPairingState nowMs ;;
        accept
    end.

Definition revoke_device (r : AdminRequest) (refuse : Z -> M ()) (accept : M ()) (nowMs : Z) : M () :=
  let id := ar_instance r in
  if negb (is_instance id) then refuse NackCode.INVALID_VALUE
  else
    m ← gets _pairing;
    let '(m, revoked) := revoke id m in
    on_pairing (fun _ => m) ;;
    if negb revoked then refuse NackCode.INVALID_VALUE
    else
      on_pairing (forget_knock id) ;;
      emitPairingEvent pairing_events.revoked id [] 0 AccessLevel.watch [] nowMs ;;
      publishPairedRosterState ;;
      publishPendingPairingState nowMs ;;
      accept.

Definition evict_session (r : AdminRequest) (refuse : Z -> M ()) (accept : M ()) (nowMs : Z) : M () :=
  h ← get;
  match findSlotBySession (ar_session r) h with
  | None => refuse NackCode.INVALID_VALUE
  | Some victim =>
      accept ;;
      sendGoodbye victim NackCode.SESSION_EVICTED ;;
      teardownSession victim nowMs session_loss
  end.

Definition handleAdminIntent (i : nat) (m : IntentMsg) (nowMs : Z) : M () :=
  let refuse (code : Z) : M () :=
    sendNackTracked i (for_intent (it_intent_id m) (on_channel (it_channel_id m) (nack code))) nowMs in
  let r := admin_request m in
  match ar_op r with
  | None => refuse NackCode.INVALID_VALUE
  | Some op =>
      let accept := echo i m [(admin_value.op, VU64 op)] 64 nowMs in
      if op =? session_admin_ops.evict then evict_session r refuse accept nowMs
      else if op =? session_admin_ops.pair_approve then pair_approve i r refuse accept nowMs
      else if op =? session_admin_ops.pair_deny then pair_deny r refuse accept nowMs
      else if op =? session_admin_ops.revoke then revoke_device r refuse accept nowMs
      else refuse NackCode.UNSUPPORTED_OP
  end.

(** ** The handler *)

(** An intent the gate has let through. *)
Definition admitted_intent (i : nat) (m : IntentMsg) (nowMs : Z) : M () :=
  s ← session_at i;
  h ← get;
  let op := safety_op_of m in
  let asks o := bool_decide (op = Some o) in
  if has op && negb (asks safety_ops.pause) && negb (asks safety_ops.estop) && (hs_role s <? AccessLevel.control) then
    sendNackTracked i (saying (text "needs control") (for_intent (it_intent_id m) (nack NackCode.NOT_CONTROLLER))) nowMs
  else if asks safety_ops.release then release_intent i m nowMs
  else if asks safety_ops.estop then estop_intent i m nowMs
  else if it_channel_id m =? channels.session_admin then handleAdminIntent i m nowMs
  else if it_channel_id m =? channels.settings_trial then handleTrialOpIntent i m nowMs
  else match (if asks safety_ops.resume then resume_refusal h else None) with
       | Some (code, detail) => sendNackTracked i (saying detail (for_intent (it_intent_id m) (nack code))) nowMs
       | None => perform_intent i m nowMs
       end.

Definition intent_gate (i : nat) (m : IntentMsg) (nowMs : Z) : M () :=
  s ← session_at i;
  let '(limiter, allowed) := allow nowMs (hs_intentLimiter s) in
  on_session i (fun s => s <| hs_intentLimiter := limiter |>) ;;
  let refuse n := through i (fun t => sendNack t n) in
  if negb allowed then refuse (for_intent (it_intent_id m) (nack NackCode.RATE_LIMITED))
  else if negb (hs_ready s) then refuse (for_intent (it_intent_id m) (on_channel (it_channel_id m) (nack NackCode.NOT_READY)))
  else match IntentRing.lookup (it_intent_id m) (hs_intentRing s) with
       | Some cached => sendFrameToTracked i FrameType.ECHO (it_channel_id m) cached nowMs 0 ;; mret ()
       | None =>
           c ← the_catalog;
           cfgGen ← gets _cfgGen;
           match intent_refusal (hs_role s) cfgGen m c with
           | Some n => refuse n
           | None => admitted_intent i m nowMs
           end
       end.

Definition handleIntent (i : nat) (payload : list byte) (nowMs : Z) : M () :=
  s ← session_at i;
  modify (fun h => h <| _intentSession := hs_session_id s |>) ;;
  match decodeIntent payload with
  | err _ => through i (fun t => sendNack t (nack NackCode.MALFORMED))
  | ok m => intent_gate i m nowMs
  end ;;
  modify (fun h => h <| _intentSession := 0 |>).

End Intent.
