(* ===== verification/HubStream.v ===== *)
(** * HubStream: motion input and blob transfers (hub/hub_impl.hpp), SPEC 8.4, 9.2, 10.5

    A bundle passes the readiness gate, its grant, the catalog, the parser, the rate, the pause latch and
    source ownership before the delegate sees it.  A blob request is answered by the pump, a few chunks per
    tick. *)

From S2P Require Import Prelude SerialArith RateLimiter Tables Crypto Safety Shedding Frame MsgNack.
From S2P Require Import StreamBundle Blob MsgBlob MsgTrust Pairing PairingLedger Catalog Registry HubSession HubState.
From S2P Require Import StateM HubWorld HubCore HubSafety HubPump HubHello HubIntent CborMessage.
#[local] Open Scope Z_scope.

Definition kNackIntervalMs : Z := 1000 / limits.stream_ingress_overage_nack_per_s.

(** The record that paces the conflict NACKs of a source, and whether this one may be sent. *)
Definition conflict_slot (source nowMs : Z) (l : list ConflictNack) : list ConflictNack * bool :=
  match first_index (fun c => cn_used c && (cn_source c =? source)) l with
  | Some k =>
      match l !! k with
      | Some c =>
          if timeReached nowMs (u32 (cn_lastMs c + kNackIntervalMs)) then (<[k := c <| cn_lastMs := nowMs |>]> l, true)
          else (l, false)
      | None => (l, false)
      end
  | None =>
      match first_index (fun c => negb (cn_used c)) l with
      | Some k => (<[k := mkConflictNack true source nowMs]> l, true)
      | None => (l, false)
      end
  end.

Definition forget_conflict (source : Z) (s : Slot) : Slot :=
  s <| sl_conflictNacks ::= map (fun c => if cn_used c && (cn_source c =? source) then c <| cn_used := false |> else c) |>.

Definition count_dropped (s : HubSession) : HubSession := s <| hs_streamBundlesDropped ::= fun n => u32 (n + 1) |>.
Definition count_accepted (s : HubSession) : HubSession := s <| hs_streamBundlesAccepted ::= fun n => u32 (n + 1) |>.

(** How far ahead a channel's segments may reach. *)
Definition horizon_of (granted : Z) : Z := if granted =? 0 then limits.max_future_schedule_ms else granted.

Definition parse_bundle (segments : bool) (payload : list byte) (sampleSize : nat) (horizonMs : Z) : decoded BundleView :=
  if segments then BundleView_parse payload sampleSize limits.segment_t_off_unit_us (u32 (horizonMs * 1000))
  else BundleView_parse payload sampleSize 1 default_spanCapUs.

(** ** Blob identities *)

(** The STORE entry an identity names. *)
Definition store_entry (id : BlobId) (c : Catalog.Catalog) : option CatalogEntry :=
  List.find (fun e => (ce_cls e =? ChannelClass.STORE)
                      && from_option (fun sd => bi_has_store_id id && (st_storeId sd =? bi_store_id id)) false
                           (storeDescriptor e c)) (entries c).

(** Why an identity may not be read by a session of this role. *)
Definition store_refusal (role : Z) (id : BlobId) (c : Catalog.Catalog) : option NackMsg :=
  if isCatalog id then None
  else match store_entry id c with
       | None => Some (nack NackCode.CHUNK_UNAVAILABLE)
       | Some e => if role <? ce_access e then Some (on_channel (ce_id e) (nack NackCode.ACCESS_DENIED)) else None
       end.

Definition served_generation (v : Z) (id : BlobId) : BlobId :=
  mkBlobId (bi_ns id) (bi_has_store_id id) (bi_store_id id) (bi_has_slot id) (bi_slot id) (bi_has_generation id) v.

Definition on_blob (f : PendingBlob -> PendingBlob) (s : Slot) : Slot := s <| sl_blob ::= f |>.

(** The index the pump serves next. *)
Definition next_chunk (pb : PendingBlob) (cc : nat) : option Z :=
  if pb_full pb then if Z.of_nat cc <=? pb_nextIndex pb then None else Some (pb_nextIndex pb)
  else pb_chunks pb !! pb_cursor pb.

Definition advance_blob (pb : PendingBlob) : PendingBlob :=
  let pb := pb <| pb_inFlight ::= fun n => if n <? 0xFF then n + 1 else n |> in
  if pb_full pb then pb <| pb_nextIndex ::= fun n => u16 (n + 1) |> else pb <| pb_cursor ::= S |>.

Definition blob_served (pb : PendingBlob) (cc : nat) : bool :=
  if pb_full pb then Z.of_nat cc <=? pb_nextIndex pb else (length (pb_chunks pb) <=? pb_cursor pb)%nat.

Section Stream.
Context {E R : Type} `{Env E} `{FairRandom R} `{ICrypto}.
Abbreviation M := (HubM E R) (only parsing).

(** ** STREAM *)

Definition sendStreamOverageNack (i g : nat) (ch nowMs : Z) : M () :=
  s ← session_at i;
  match hs_publishGrants s !! g with
  | None => mret ()
  | Some pg =>
      if pg_everNackedOverage pg && negb (timeReached nowMs (u32 (pg_lastOverageNackMs pg + kNackIntervalMs))) then mret ()
      else
        on_session i (fun s => s <| hs_publishGrants ::=
          alter (fun pg => pg <| pg_everNackedOverage := true |> <| pg_lastOverageNackMs := nowMs |>) g |>) ;;
        sendNackTracked i (on_channel ch (nack NackCode.RATE_LIMITED)) nowMs
  end.

Definition sendSourceConflictNack (i : nat) (source ch nowMs : Z) : M () :=
  s ← slot_at i;
  let '(l, due) := conflict_slot source nowMs (sl_conflictNacks s) in
  on_slot i (fun s => s <| sl_conflictNacks := l |>) ;;
  when due (sendNackTracked i (on_channel ch (nack NackCode.SOURCE_CONFLICT)) nowMs).

Definition drop_bundle (i : nat) : M () := on_session i count_dropped.

Definition accept_bundle (i : nat) (ch : Z) (bundle : BundleView) : M () :=
  on_session i count_accepted ;;
  s ← session_at i;
  call (onStreamBundle ch (hs_session_id s) bundle).

(** A bundle within its rate: it still needs its source. *)
Definition deliver_bundle (i : nat) (ch : Z) (bundle : BundleView) (grantHorizonMs nowMs : Z) : M () :=
  mapped ← call (sourceForChannel ch);
  match mapped with
  | None => accept_bundle i ch bundle
  | Some source =>
      h ← get;
      if pauseLatched h then drop_bundle i
      else
        s ← session_at i;
        let me := hs_session_id s in
        let '(t, r) := acquire source me (hs_role s) false (_ownership h) in
        modify (fun h => h <| _ownership := t |>) ;;
        match r with
        | Conflict => drop_bundle i ;; sendSourceConflictNack i source ch nowMs
        | _ =>
            when (bool_decide (r = Acquired))
              (call (onSourceOwnership source me acquired_reason) ;;
               publishControlOwnerStateIfPresent ;;
               on_slot i (forget_conflict source)) ;;
            modify (markSourceActive source nowMs (sampleTimeUs bundle (bv_n bundle - 1))
                      (Z.max limits.stream_quiet_release_ms grantHorizonMs)) ;;
            accept_bundle i ch bundle
        end
  end.

Definition handleStream (i : nat) (ch : Z) (payload : list byte) (nowMs : Z) : M () :=
  s ← session_at i;
  c ← the_catalog;
  if negb (hs_ready s) then drop_bundle i
  else match publishGrantFor ch s, Catalog.find ch c with
  | Some g, Some e =>
      if negb (ce_cls e =? ChannelClass.STREAM) || negb (bool_decide (ce_dir e = c2h)) then drop_bundle i
      else
        let segments := isSegmentClass e in
        grantHorizonMs ← advertisedHorizonMs ch;
        let horizonMs := horizon_of grantHorizonMs in
        match parse_bundle segments payload (layoutWireSize e c) horizonMs with
        | err _ => drop_bundle i
        | ok bundle =>
            if (bv_n bundle =? 0)%nat then drop_bundle i
            else
              us ← call nowUs;
              let cap := u32 ((if segments then horizonMs else limits.max_future_schedule_ms) * 1000) in
              let '(bundle, _) := clampLead bundle us cap in
              match hs_publishGrants s !! g with
              | None => drop_bundle i
              | Some pg =>
                  let '(limiter, allowed) := allowN nowMs (Z.of_nat (bv_n bundle)) (pg_limiter pg) in
                  on_session i (fun s => s <| hs_publishGrants ::= alter (fun pg => pg <| pg_limiter := limiter |>) g |>) ;;
                  if negb allowed then drop_bundle i ;; sendStreamOverageNack i g ch nowMs
                  else deliver_bundle i ch bundle grantHorizonMs nowMs
              end
        end
  | _, _ => drop_bundle i
  end.

(** ** Blobs *)

(** The bytes of an identity with the generation they are served under, or the NACK that says why not. *)
Definition resolveBlobBytes (i : nat) (id : BlobId) : M (Result (BlobId * list byte) NackMsg) :=
  s ← session_at i;
  c ← the_catalog;
  h ← get;
  let unavailable := err (nack NackCode.CHUNK_UNAVAILABLE) in
  let serve id bs := if (chunkCount (length bs) =? 0)%nat then unavailable else ok (id, bs) in
  match store_refusal (hs_role s) id c with
  | Some n => mret (err n)
  | None =>
      if isCatalog id then mret (serve (served_generation 0 id) (_catalogEncoded h))
      else if (bi_ns id =? blob_ns.store) && bi_has_store_id id && bool_decide (_pairedStoreId h = Some (bi_store_id id)) then
        match slot (if bi_has_slot id then Z.to_nat (bi_slot id) else 0%nat) (_pairing h) with
        | None => mret unavailable
        | Some e =>
            let item := encoded 256 (encodeEntry e) in
            mret (if blank item then unavailable else serve (served_generation (pm_generation (_pairing h)) id) item)
        end
      else
        view ← call (readBlob (bi_ns id) (bi_store_id id) (bi_slot id));
        mret (match view with
              | None => unavailable
              | Some v => serve (served_generation (bw_generation v) id) (bw_bytes v)
              end)
  end.

Definition handleBlobReq (i : nat) (payload : list byte) : M () :=
  let refuse n := through i (fun t => sendNack t n) in
  match decodeBlobReq payload with
  | err _ => refuse (nack NackCode.MALFORMED)
  | ok m =>
      r ← resolveBlobBytes i (br_blob m);
      match r with
      | err n => refuse n
      | ok (id, bs) =>
          let chunks := default [] (br_chunks m) in
          if existsb (fun k => Z.of_nat (chunkCount (length bs)) <=? k) chunks then refuse (nack NackCode.CHUNK_UNAVAILABLE)
          else
            sq ← gets _dispatchSeq;
            on_slot i (fun s => s <| sl_blob :=
              mkPendingBlob true id (Z.of_nat (length bs)) (bi_generation id) sq (negb (has (br_chunks m))) 0 0 chunks 0 false 0 |>)
      end
  end.

Definition refuse_blob (i : nat) (n : NackMsg) : M () :=
  s ← slot_at i;
  through i (fun t => sendNack t (set_nk_intent_seq (pb_reqSeq (sl_blob s)) n)) ;;
  on_slot i (on_blob (fun pb => pb <| pb_active := false |>)).

(** A turn of the send loop: [None] where the loop ends, otherwise whether it refused. *)
Definition send_chunk (i : nat) (t : Transport) (id : BlobId) (bs : list byte) (cc : nat) : M (option bool) :=
  s ← slot_at i;
  let pb := sl_blob s in
  if negb (sl_congestionLevel s =? 0) && (limits.blob_chunks_in_flight <=? pb_inFlight pb) then mret None
  else match next_chunk pb cc with
       | None => mret None
       | Some idx =>
           let buf := encoded (kBlobChunkHeaderBytes + catalog_chunk_payload) (fillBlobChunk id bs (Z.to_nat idx)) in
           if blank buf then refuse_blob i (nack NackCode.CHUNK_UNAVAILABLE) ;; mret (Some false)
           else
             sent ← sendFrameTo t FrameType.BLOB_CHUNK channels.catalog buf 0;
             if negb sent then mret None
             else on_slot i (on_blob advance_blob) ;; mret (Some true)
       end.

(** Up to [n] chunks: whether any was sent, and whether the transfer was refused on the way. *)
Fixpoint send_chunks (n : nat) (i : nat) (t : Transport) (id : BlobId) (bs : list byte) (cc : nat) (sentAny : bool)
  : M (bool * bool) :=
  match n with
  | O => mret (sentAny, false)
  | S n =>
      r ← send_chunk i t id bs cc;
      match r with
      | None => mret (sentAny, false)
      | Some false => mret (sentAny, true)
      | Some true => send_chunks n i t id bs cc true
      end
  end.

(** A transfer none of whose chunks went out is held, and given up after [kBlobHoldAbortMs]. *)
Definition hold_blob (i : nat) (nowMs : Z) : M () :=
  s ← slot_at i;
  let pb := sl_blob s in
  if negb (pb_holding pb) then on_slot i (on_blob (fun pb => pb <| pb_holding := true |> <| pb_holdSinceMs := nowMs |>))
  else when (timeReached nowMs (u32 (pb_holdSinceMs pb + kBlobHoldAbortMs)))
         (refuse_blob i (set_nk_retry_after_ms (Some limits.busy_retry_after_default_ms) (nack NackCode.BUSY))).

Definition pumpBlobTransfer (i : nat) (nowMs : Z) : M () :=
  s ← slot_at i;
  let pb := sl_blob s in
  if negb (pb_active pb) then mret ()
  else match sl_transport s with
       | None => on_slot i (on_blob (fun pb => pb <| pb_active := false |>))
       | Some t =>
           if negb (occupied (sl_session s)) then on_slot i (on_blob (fun pb => pb <| pb_active := false |>))
           else
             r ← resolveBlobBytes i (pb_id pb);
             match r with
             | err n => refuse_blob i n
             | ok (id, bs) =>
                 if negb (Z.of_nat (length bs) =? pb_totalBytes pb) || negb (bi_generation id =? pb_generation pb) then
                   refuse_blob i (nack NackCode.CHUNK_UNAVAILABLE)
                 else
                   when (sl_congestionLevel s =? 0) (on_slot i (on_blob (fun pb => pb <| pb_inFlight := 0 |>))) ;;
                   let cc := chunkCount (length bs) in
                   sent ← send_chunks kBlobChunksPerTick i t id bs cc false;
                   if (sent.2 : bool) then mret ()
                   else
                     s ← slot_at i;
                     if blob_served (sl_blob s) cc then on_slot i (on_blob (fun pb => pb <| pb_active := false |>))
                     else if (sent.1 : bool) then on_slot i (on_blob (fun pb => pb <| pb_holding := false |>))
                     else hold_blob i nowMs
             end
       end.

Definition handleBlobDone (i : nat) (payload : list byte) : M () :=
  match decodeBlobDone payload with
  | None => mret ()
  | Some m =>
      s ← session_at i;
      call (onBlobDone (hs_session_id s) (bd_id m) (bd_status m))
  end.

End Stream.
