(* ===== verification/HubUpdate.v ===== *)
(** * HubUpdate: the tick, frame dispatch, and the hub's own calls (hub/hub_impl.hpp)

    [update] is one turn of the application's loop: every attached slot reads its frames, then its session
    is watched and served.  [fuel] is how many frames a slot may read in one turn. *)

From S2P Require Import Prelude SerialArith ByteIO Tables Crypto Sha256 Safety Frame Estop MsgHello MsgIntent.
From S2P Require Import MsgWelcome Queues StateChannel Subscription Blob Pairing Catalog Registry HubSession HubState.
From S2P Require Import StateM HubWorld HubCore HubSafety HubPump HubHello HubWish HubPairing HubIntent HubStream CborMessage.
#[local] Open Scope Z_scope.

Definition kLogTagMaxBytes : nat := 16.
Definition kLogMessageMaxBytes : nat := 128.
Definition kCatalogMetaBytes : nat := 12.

Definition is_estop_frame (bs : list byte) : bool :=
  (length bs =? kEstopFrameBytes)%nat && magic_at bs 0.

Definition encodeCatalogMeta (etag : list byte) (chunks entries : Z) (out : list byte) : list byte * nat :=
  if negb (length etag =? etag_bytes)%nat || (length out <? kCatalogMetaBytes)%nat then (out, 0%nat)
  else (put16 10 entries (put16 8 chunks (splice 0 etag out)), kCatalogMetaBytes).

(** A STATE channel's fields that are on trial, by the position of their setting keys. *)
Definition trialMask (ch : Z) (c : Catalog.Catalog) (h : Hub) : Z :=
  match Catalog.find ch c with
  | None => 0
  | Some e =>
      match ce_settingChannel e with
      | None => 0
      | Some settings =>
          foldl (fun mask '(n, k) =>
            if (n <? 32)%nat && has (findTrial settings k (_trials h)) then Z.lor mask (Z.shiftl 1 (Z.of_nat n)) else mask)
            0 (imap pair (omap lf_settingKey (layoutFields e c)))
      end
  end.

Section Update.
Context {E R : Type} `{Env E} `{FairRandom R} `{ICrypto}.
Abbreviation M := (HubM E R) (only parsing).

(** ** Frames *)

(** Only a slot with a session is served anything but HELLO. *)
Definition in_session (i : nat) (m : M ()) : M () := s ← session_at i; when (occupied s) m.

Definition route (i : nat) (h : FrameHeader) (payload : list byte) (nowMs : Z) : M () :=
  let t := fh_type h in
  if t =? FrameType.HELLO then handleHello i payload nowMs
  else if t =? FrameType.SUBSCRIBE then in_session i (handleSubscribe i payload)
  else if t =? FrameType.UNSUBSCRIBE then in_session i (handleUnsubscribe i payload)
  else if t =? FrameType.PUBLISH then in_session i (handlePublish i payload nowMs)
  else if t =? FrameType.CATALOG_READY then in_session i (handleCatalogReady i payload)
  else if t =? FrameType.INTENT then in_session i (handleIntent i payload nowMs)
  else if t =? FrameType.STREAM then in_session i (handleStream i (fh_channel h) payload nowMs)
  else if t =? FrameType.PING then in_session i (handlePing i payload)
  else if t =? FrameType.CLOCK then in_session i (handleClock i payload)
  else if t =? FrameType.GOODBYE then in_session i (handleGoodbye i nowMs)
  else if t =? FrameType.BLOB_REQ then in_session i (handleBlobReq i payload)
  else if t =? FrameType.BLOB_DONE then in_session i (handleBlobDone i payload)
  else if t =? FrameType.PAIR_REQ then in_session i (handlePairReq i payload nowMs)
  else if t =? FrameType.AUTH then in_session i (handleAuth i payload nowMs)
  else if t =? FrameType.PROBE then in_session i (handleProbeRequest i)
  else if t =? FrameType.PROBE_REPORT then in_session i (handleProbeReportFrame i payload)
  else mret ().

Definition dispatchFrame (i : nat) (h : FrameHeader) (payload : list byte) (nowMs : Z) : M () :=
  modify (fun hub => hub <| _dispatchSeq := Some (fh_seq h) |>) ;;
  route i h payload nowMs ;;
  modify (fun hub => hub <| _dispatchSeq := None |>).

Definition heard_from (i : nat) (nowMs : Z) : M () :=
  s ← session_at i;
  when (occupied s) (on_session i (fun s => s <| hs_lastRxMs := nowMs |>)) ;;
  reviveIfStale i nowMs.

Definition take_frame (i : nat) (fb : FrameBuffer) (nowMs : Z) : M () :=
  let bytes := fb_bytes fb in
  if is_estop_frame bytes then
    match decodeEstop bytes with
    | ok f => heard_from i nowMs ;; handleEstopFrame f nowMs
    | err _ => mret ()
    end
  else
    match decodeFrameHeader bytes with
    | None => mret ()
    | Some h => heard_from i nowMs ;; dispatchFrame i h (fb_payload fb) nowMs
    end.

Fixpoint pumpSlot (fuel i : nat) (nowMs : Z) : M () :=
  match fuel with
  | O => mret ()
  | S fuel =>
      s ← slot_at i;
      match sl_transport s with
      | None => mret ()
      | Some t =>
          fb ← call (t_read t);
          match fb with
          | None => mret ()
          | Some fb => take_frame i fb nowMs ;; pumpSlot fuel i nowMs
          end
      end
  end.

(** ** The tick *)

(** What a session is served once its frames are read. *)
Definition serve_slot (i : nat) (nowMs : Z) : M () :=
  s ← slot_at i;
  when (occupied (sl_session s) && has (sl_transport s))
    (pumpStatePacing i nowMs ;;
     pumpEventDrain i ;;
     pumpBlobTransfer i nowMs).

Definition tick (fuel : nat) (nowMs : Z) (i : nat) : M () :=
  s ← slot_at i;
  if negb (has (sl_transport s)) then mret ()
  else
    pumpSlot fuel i nowMs ;;
    in_session i (pumpDeadman i nowMs) ;;
    in_session i (pumpReadyTimeout i nowMs) ;;
    in_session i (pumpIdleReap i nowMs) ;;
    serve_slot i nowMs.

Definition update (fuel : nat) (now_us : Z) : M () :=
  h ← get;
  let '(mono, nowMs) := advance (_monoMs h) now_us in
  modify (fun h => h <| _monoMs := mono |> <| _lastUpdateMs := nowMs |>) ;;
  pumpPairing nowMs ;;
  each (tick fuel nowMs) slot_ids ;;
  pumpQuietRelease nowMs now_us.

(** ** The application's calls *)

Definition publishLog (level : Z) (tag message : list byte) : M bool :=
  present ← catalog_has channels.log;
  if negb present then mret false
  else
    now ← gets _lastUpdateMs;
    let body := [(log_body.level, VU64 level); (log_body.tag, VTstr (take kLogTagMaxBytes tag));
                 (log_body.hub_ms, VU64 now); (log_body.message, VTstr (take kLogMessageMaxBytes message))] in
    let buf := encoded kLogRingSlotCapacity
                 (encodeEvent (mkEventMsg channels.log now log_events.entry None (Some body))) in
    if blank buf then mret false
    else
      modify (fun h => h <| _logRing ::= fun r => fst (ReplayRing.push kLogRingDepth kLogRingSlotCapacity buf r) |>) ;;
      publishEvent channels.log buf ;;
      mret true.

Definition logDropped (h : Hub) : Z := ReplayRing.dropped (_logRing h).

Definition goodbyeAll (code : Z) : M () :=
  now ← gets _lastUpdateMs;
  each (fun i => in_session i (evictSlot i code now)) slot_ids.

Definition bumpConfigGeneration : M () := modify (fun h => h <| _cfgGen ::= fun g => u16 (g + 1) |>).

Definition setIdentity (product fw_version hub_name : list byte) : M () :=
  modify (fun h => h <| _idProduct := product |> <| _idFwVersion := fw_version |> <| _idHubName := hub_name |>).
Definition setHubInstanceId (id : Z) : M () := modify (fun h => h <| _hubInstanceId := id |>).
Definition setEstopCutsPower (cuts : bool) : M () :=
  modify (fun h => h <| _estopCutsPowerDeclared := true |> <| _estopCutsPower := cuts |>).
Definition setConfigMode (on : bool) : M () := modify (fun h => h <| _configMode := on |>).
Definition setEndpoint (wsPort ipv4 : Z) : M () := modify (fun h => h <| _wsPort := wsPort |> <| _ipv4 := ipv4 |>).
Definition setInlineSigning (on : bool) : M () := modify (fun h => h <| _inlineSigning := on |>).

End Update.
