(* ===== verification/HubCatalog.v ===== *)
(** * HubCatalog: the hub and its catalog - the constructor and the live change (hub/hub_impl.hpp)

    The hub serves the catalog it was built on as encoded bytes with an etag, and keeps a digest of every
    entry.  [catalogChanged] encodes the catalog the application has changed behind its back, finds what
    moved by comparing digests, and takes back what was granted on an entry that is no longer the same. *)

From S2P Require Import Prelude ByteIO SerialArith Tables Crypto Sha256 Safety Frame Blob StateChannel.
From S2P Require Import Subscription CborMessage MsgNack MsgTrust MsgHello Codec Catalog Registry CatalogCodec HubSession HubState StateM HubWorld.
From S2P Require Import HubCore HubSafety HubPairing HubWish HubUpdate.
#[local] Open Scope Z_scope.

Inductive CatalogChange := Unchanged | UserSpace | Resync | EncodeFailed.

#[export] Instance CatalogChange_eq_dec : EqDecision CatalogChange.
Proof. solve_decision. Defined.

Definition digest_of (doc : CatalogEntry * list byte) : EntryDigest :=
  mkEntryDigest (ce_id doc.1) (take etag_bytes (Sha256.hash doc.2)).

(** The ids of the entries that vanished or changed: both lists ascend by id, and are walked together. *)
Fixpoint withdrawn (before : list EntryDigest) : list EntryDigest -> list Z :=
  fix walk after :=
    match before, after with
    | [], _ => []
    | b :: before, [] => ed_id b :: withdrawn before []
    | b :: before, a :: after' =>
        if ed_id a <? ed_id b then walk after'
        else if ed_id a =? ed_id b then
          (if negb (bool_decide (ed_digest a = ed_digest b)) then [ed_id b] else []) ++ withdrawn before after'
        else ed_id b :: withdrawn before after
    end.

Definition paired_store (c : Catalog.Catalog) : option Z :=
  st_storeId <$> (Catalog.find channels.paired_devices c ≫= fun e => storeDescriptor e c).

Section HubCatalog.
Context {E R : Type} `{Env E} `{FairRandom R} `{ICrypto}.
Abbreviation M := (HubM E R) (only parsing).

(** What the buffer held before is overwritten or past the end.  The digests are those of the documents the
    encoder got to, as many as there is room for; the code writes them to the side not in use. *)
Definition encodeCatalogInto : M (list EntryDigest) :=
  c ← the_catalog;
  let '(out, n, docs) := encodeCatalog c (replicate kCatalogScratchBytes Byte.x00) in
  modify (fun h => h <| _catalogEncoded := take n out |>) ;;
  mret (take kEntryCapacity (map digest_of docs)).

Definition publishCatalogStateIfPresent : M () :=
  c ← the_catalog;
  h ← get;
  if negb (has (Catalog.find channels.catalog c)) then mret ()
  else
    let meta := encoded kCatalogMetaBytes
                  (encodeCatalogMeta (_etag h) (u16 (Z.of_nat (chunkCount (length (_catalogEncoded h)))))
                     (u16 (Z.of_nat (length (entries c))))) in
    if blank meta then mret () else publishState channels.catalog meta ;; mret ().

(** ** The constructor *)

(** The bytes, digests and etag that a fresh hub serves. *)
Definition first_encode : M () :=
  digests ← encodeCatalogInto;
  c ← the_catalog;
  modify (fun h =>
    let digests := if blank (_catalogEncoded h) then [] else digests in
    h <| _digests := digests |> <| _fixedCount := Nat.min (userSpaceStart c) (length digests) |>
      <| _etag := take etag_bytes (Sha256.hash (_catalogEncoded h)) |>).

Definition Hub_boot : M () :=
  us ← call nowUs;
  h ← get;
  let '(mono, nowMs) := advance (_monoMs h) us in
  modify (fun h => h <| _monoMs := mono |> <| _lastUpdateMs := nowMs |>) ;;
  first_encode ;;
  publishCatalogStateIfPresent ;;
  boot ← draw_nonzero;
  modify (fun h => h <| _bootId := boot |>) ;;
  safety ← catalog_has channels.safety;
  when safety publishSafetySnapshot ;;
  c ← the_catalog;
  modify (fun h => h <| _pairedStoreId := paired_store c |>) ;;
  publishPendingPairingState nowMs ;;
  publishPairedRosterState.

(** ** The live change *)

(** No sequence number of the frame being dispatched is stamped on what [m] sends. *)
Definition muted {A} (m : M A) : M A :=
  saved ← gets _dispatchSeq;
  modify (fun h => h <| _dispatchSeq := None |>) ;;
  a ← m;
  modify (fun h => h <| _dispatchSeq := saved |>) ;;
  mret a.

Definition reseedCoreSnapshots (nowMs : Z) : M () :=
  safety ← catalog_has channels.safety;
  shown ← retained channels.safety;
  when (safety && negb (has shown)) publishSafetySnapshot ;;
  owner ← retained channels.control_owner;
  when (negb (has owner)) publishControlOwnerStateIfPresent ;;
  pending ← retained channels.pending_pairing;
  when (negb (has pending)) (publishPendingPairingState nowMs) ;;
  roster ← retained channels.paired_devices_roster;
  when (negb (has roster)) publishPairedRosterState ;;
  c ← the_catalog;
  modify (fun h => h <| _pairedStoreId := paired_store c |>).

Definition discard (ch : Z) : M () := modify (fun h => h <| _retained ::= fun s => fst (RetainedStore.remove ch s) |>).

(** Everything granted on the channels [ids] is taken back, and the catalog transfers in flight end. *)
Definition withdraw (ids : list Z) (nowMs : Z) : M () :=
  abortCatalogTransfers ;;
  each discard ids ;;
  each (fun i => s ← session_at i; when (occupied s) (withdrawGrants i ids nowMs)) slot_ids.

(** Still ready, degraded until it declares the new etag. *)
Definition degrade (i : nat) : M () :=
  s ← session_at i;
  if negb (occupied s) then mret ()
  else
    etag ← gets _etag;
    on_session i (fun s => s <| hs_readyEtagMismatch := hs_ready s && negb (bool_decide (hs_readyEtag s = etag)) |>).

(** The announcement goes first; then the session is not ready until it declares the new catalog. *)
Definition revoke (nowMs : Z) (i : nat) : M () :=
  s ← session_at i;
  if negb (occupied s) then mret ()
  else
    meta ← retained channels.catalog;
    match meta with
    | Some (sq, payload) =>
        when (hs_ready s && subscribed channels.catalog s)
          (sendFrameToTracked i FrameType.STATE channels.catalog payload nowMs sq ;; mret ())
    | None => mret ()
    end ;;
    on_session i (fun s => s <| hs_ready := false |> <| hs_readyEtagMismatch := false |> <| hs_grantedAtMs := nowMs |>
                             <| hs_subs ::= map (fun e => e <| everPushed := false |>) |>).

Definition announce (kind : CatalogChange) (nowMs : Z) : M () :=
  when (bool_decide (kind = Resync)) (reseedCoreSnapshots nowMs) ;;
  publishCatalogStateIfPresent ;;
  each (if bool_decide (kind = UserSpace) then degrade else revoke nowMs) slot_ids.

(** Only entries behind the user-space mark moved. *)
Definition fixed_same (prevFixed fixed : nat) (before after : list EntryDigest) : bool :=
  (prevFixed =? fixed)%nat && bool_decide (take fixed before = take fixed after).

Definition catalog_moved : M CatalogChange :=
  nowMs ← gets _lastUpdateMs;
  before ← gets _digests;
  prevFixed ← gets _fixedCount;
  prevEtag ← gets _etag;
  after ← encodeCatalogInto;
  bytes ← gets _catalogEncoded;
  if blank bytes then mret EncodeFailed
  else
    c ← the_catalog;
    let fixed := Nat.min (userSpaceStart c) (length after) in
    let etag := take etag_bytes (Sha256.hash bytes) in
    modify (fun h => h <| _digests := after |> <| _fixedCount := fixed |>) ;;
    if bool_decide (etag = prevEtag) then mret Unchanged
    else
      modify (fun h => h <| _etag := etag |>) ;;
      withdraw (withdrawn before after) nowMs ;;
      let kind := if fixed_same prevFixed fixed before after then UserSpace else Resync in
      announce kind nowMs ;;
      mret kind.

(** [ok()] is that nothing overflowed on the way in. *)
Definition catalogChanged : M CatalogChange :=
  c ← the_catalog;
  if overflow c then mret EncodeFailed else muted catalog_moved.

End HubCatalog.
