(* ===== verification/HubSteps.v ===== *)
(** * HubSteps: the hub as a transition system

    What a theorem about the whole hub is about is its [core]: the safety latches, who owns each source, the
    state of every session, the safety snapshot clients are shown, and the encoded catalog that is
    served.  [Step] lists the ways the core may
    change and under which conditions, and which calls the delegate may get when; every function of the
    hub is a sequence of such steps, so a property is proved by induction on them. *)

From S2P Require Import Prelude ByteIO SerialArith Frame Estop StreamBundle MsgNack MsgIntent MsgTrust Tables.
From S2P Require Import Crypto Safety Pairing Shedding Catalog Queues StateChannel Subscription Registry StateM.
From S2P Require Import HubSession HubState HubWorld HubCore HubSafety HubPump HubHello HubWish HubPairing HubIntent.
From S2P Require Import HubStream HubUpdate.
#[local] Open Scope Z_scope.

Record SessionView := mkSessionView {
  v_state : HubSessionState; v_id : Z; v_role : Z; v_ready : bool; v_publishing : list (bool * Z) }.

Definition view (s : HubSession) : SessionView :=
  mkSessionView (hs_state s) (hs_session_id s) (hs_role s) (hs_ready s)
    (map (fun g => (pg_used g, pg_channel_id g)) (hs_publishGrants s)).

(** A session that may control something: occupied, and not stale. *)
Definition v_active (v : SessionView) : bool :=
  match v_state v with VALIDATING | GRANTED | LIVE => true | _ => false end.

(** Etag, bytes, digests and how many of them are of fixed entries. *)
Abbreviation Served := (list byte * list byte * list EntryDigest * nat)%type (only parsing).

Record Core := mkCore {
  c_word : Z; c_modes : Z; c_cause : Z; c_owner_session : Z; c_estopSeq : Z;
  c_owners : SourceOwnershipTable; c_sessions : list SessionView; c_shown : list (bool * list byte); c_served : Served }.

Definition sessions (h : Hub) : list SessionView := map (fun s => view (sl_session s)) (_slots h).
(** Every value retained for a channel, and whether it has been published. *)
Definition held (ch : Z) (s : list RetainedStore.Entry) : list (bool * list byte) :=
  map (fun e => (RetainedStore.valid e, snd (RetainedStore.value e))) (List.filter (fun e => RetainedStore.channel_id e =? ch) s).
Definition shown (h : Hub) : list (bool * list byte) := held channels.safety (_retained h).

Definition served (h : Hub) : Served := (_etag h, _catalogEncoded h, _digests h, _fixedCount h).

Definition core (h : Hub) : Core :=
  mkCore (_safetyWord h) (_safetyModes h) (_safetyCause h) (_safetyOwnerSession h) (_estopSeq h) (_ownership h) (sessions h)
    (shown h) (served h).

#[export] Instance Core_fields : Fields Core := fun c =>
  mkCore (c_word c) (c_modes c) (c_cause c) (c_owner_session c) (c_estopSeq c) (c_owners c) (c_sessions c) (c_shown c) (c_served c).
#[export] Instance c_owners_field : Field c_owners := ltac:(field_setter).
#[export] Instance c_sessions_field : Field c_sessions := ltac:(field_setter).
#[export] Instance c_shown_field : Field c_shown := ltac:(field_setter).
#[export] Instance c_served_field : Field c_served := ltac:(field_setter).

Definition active (id : Z) (vs : list SessionView) : Prop := exists v, In v vs /\ v_active v = true /\ v_id v = id.
Definition disowned (id : Z) (t : SourceOwnershipTable) : Prop := forall src, ownerOf src t <> id.

(** Which calls say nothing about the core, nor bring a frame. *)
Definition plain (c : Call) : bool :=
  match c with
  | t_read _ | onEstop _ _ | canClearEstop | applyIntent _ _ _ | applyTrialIntent _ _ _ | onStreamBundle _ _ _ => false
  | _ => true
  end.

(** What the delegate last said of a channel's source, and of a motion while paused. *)
Fixpoint mapped_to (ch : Z) (t : list Event) : option (option Z) :=
  match t with
  | [] => None
  | Did c a :: t =>
      match c return Answer c -> option (option Z) with
      | sourceForChannel ch' => fun a => if ch' =? ch then Some a else mapped_to ch t
      | _ => fun _ => mapped_to ch t
      end a
  end.

Fixpoint latest_admission (t : list Event) : option (Z * list IntentValueField * bool) :=
  match t with
  | [] => None
  | Did c a :: t =>
      match c return Answer c -> option (Z * list IntentValueField * bool) with
      | admitsUnderPause ch v _ => fun a => Some (ch, v, a)
      | _ => fun _ => latest_admission t
      end a
  end.

(** What the delegate has been told and has agreed to, as one bit: an ESTOP was reported and none of the
    questions since then whether it may be cleared was answered yes. *)
Fixpoint estop_told (t : list Event) : bool :=
  match t with
  | [] => false
  | Did c a :: t =>
      match c return Answer c -> bool with
      | onEstop _ _ => fun _ => true
      | canClearEstop => fun agreed => if agreed then false else estop_told t
      | _ => fun _ => estop_told t
      end a
  end.

(** A channel that moves a source obeys only the source's owner. *)
Definition owns_source (id ch : Z) (h : Hub) (t : list Event) : Prop :=
  match mapped_to ch t with
  | Some (Some src) => ownerOf src (_ownership h) = id
  | Some None => True
  | None => False
  end.

(** While paused, motion needs the delegate's leave. *)
Definition not_held (ch : Z) (v : list IntentValueField) (h : Hub) (t : list Event) : Prop :=
  match mapped_to ch t with
  | Some (Some _) => pauseLatched h = false \/ latest_admission t = Some (ch, v, true)
  | _ => True
  end.

(** The session of slot [i] may have the delegate apply intent [m] of channel entry [e]. *)
Definition may_apply (i : nat) (ch : Z) (fields : list IntentValueField) (role : Z) (h : Hub) (cat : Catalog) (t : list Event) : Prop :=
  exists v e m, sessions h !! i = Some v /\ v_active v = true /\ v_ready v = true /\ v_role v = role
    /\ it_channel_id m = ch /\ it_value m = fields
    /\ Catalog.find ch cat = Some e /\ ce_cls e = ChannelClass.INTENT
    /\ requiredAccessFor e m cat <= role
    /\ owns_source (v_id v) ch h t /\ not_held ch fields h t.

Definition may_deliver (i : nat) (ch id : Z) (b : BundleView) (h : Hub) (cat : Catalog) (t : list Event) : Prop :=
  exists v e, sessions h !! i = Some v /\ v_active v = true /\ v_ready v = true /\ v_id v = id
    /\ In (true, ch) (v_publishing v)
    /\ Catalog.find ch cat = Some e /\ ce_cls e = ChannelClass.STREAM /\ ce_dir e = c2h
    /\ bv_n b <> 0%nat
    /\ owns_source id ch h t
    /\ match mapped_to ch t with Some (Some _) => pauseLatched h = false | _ => True end.

Definition entitled (c : Call) (h : Hub) (cat : Catalog) (t : list Event) : Prop :=
  match c with
  | applyIntent ch fields role | applyTrialIntent ch fields role => exists i, may_apply i ch fields role h cat t
  | onStreamBundle ch id b => exists i, may_deliver i ch id b h cat t
  | _ => False
  end.

Section Steps.
Context {E R : Type} `{Env E}.
Abbreviation M := (HubM E R) (only parsing).
Abbreviation W := (World E R) (only parsing).

(** Sessions come and go, but one that owns a source stays. *)
Definition session_kept (c c' : Core) : Prop :=
  forall id, id <> 0 -> active id (c_sessions c) -> active id (c_sessions c') \/ disowned id (c_owners c).

Definition unlatch (h : Hub) : Hub :=
  h <| _safetyWord ::= fun w => Z.lor (clear_bit w safety_bits.ESTOP) safety_bits.PAUSE |>.

Inductive Step (w : W) : W -> Prop :=
| step_call c : plain c = true -> Step w (call c w).2
| step_draw A (f : R -> A * R) : Step w (draw f w).2
| step_silent f : core (f (w_hub w)) = core (w_hub w) -> Step w (modify f w).2
| step_session f vs :
    core (f (w_hub w)) = (core (w_hub w)) <| c_sessions := vs |> ->
    session_kept (core (w_hub w)) (core (f (w_hub w))) -> Step w (modify f w).2
| step_acquire f i v src takeover :
    sessions (w_hub w) !! i = Some v -> v_active v = true -> v_ready v = true ->
    core (f (w_hub w)) = (core (w_hub w)) <| c_owners ::= fun t => fst (acquire src (v_id v) (v_role v) takeover t) |> ->
    Step w (modify f w).2
| step_release f t :
    core (f (w_hub w)) = (core (w_hub w)) <| c_owners := t |> ->
    (forall src, ownerOf src t = ownerOf src (_ownership (w_hub w)) \/ ownerOf src t = 0) -> Step w (modify f w).2
| step_latch f :
    estopLatched (w_hub w) = false ->
    Step w ((call (onEstop (ef_cause f) (ef_origin f)) ;; modify (latch f) ;; publishSafetySnapshot) w).2
| step_modes f :
    estopLatched (f (w_hub w)) = estopLatched (w_hub w) -> _ownership (f (w_hub w)) = _ownership (w_hub w) ->
    sessions (f (w_hub w)) = sessions (w_hub w) -> _retained (f (w_hub w)) = _retained (w_hub w) ->
    served (f (w_hub w)) = served (w_hub w) ->
    Step w ((modify f ;; publishSafetySnapshot) w).2
| step_refuse : estopLatched (w_hub w) = true -> (call canClearEstop w).1 = false -> Step w (call canClearEstop w).2
| step_clear :
    estopLatched (w_hub w) = true -> (call canClearEstop w).1 = true ->
    Step w ((call canClearEstop ;; modify unlatch ;; publishSafetySnapshot) w).2
| step_entitled c : entitled c (w_hub w) (w_catalog w) (w_trace w) -> Step w (call c w).2.

Definition Steps : relation W := rtc Step.

(** A tick also reads frames. *)
Inductive Turn (w : W) : W -> Prop :=
| turn_step w' : Step w w' -> Turn w w'
| turn_read t : Turn w (call (t_read t) w).2.

Definition Turns : relation W := rtc Turn.

(** What happens besides, with no frame read: the application changes the catalog, the hub encodes it anew,
    and discards a snapshot whose channel is no longer the same. *)
Inductive Quiet (w : W) : W -> Prop :=
| quiet_step w' : Step w w' -> Quiet w w'
| quiet_catalog c : Quiet w (mkWorld (w_hub w) c (w_env w) (w_rng w) (w_trace w) (w_seen w))
| quiet_encode f s : core (f (w_hub w)) = (core (w_hub w)) <| c_served := s |> -> Quiet w (modify f w).2
| quiet_discard f : core (f (w_hub w)) = (core (w_hub w)) <| c_shown ::= tail |> -> Quiet w (modify f w).2.

Definition Quiets : relation W := rtc Quiet.

Inductive Move (w : W) : W -> Prop :=
| move_quiet w' : Quiet w w' -> Move w w'
| move_read t : Move w (call (t_read t) w).2.

Definition Moves : relation W := rtc Move.

#[export] Instance Turns_preorder : PreOrder Turns.
Proof. unfold Turns. apply _. Qed.
#[export] Instance Quiets_preorder : PreOrder Quiets.
Proof. unfold Quiets. apply _. Qed.
#[export] Instance Moves_preorder : PreOrder Moves.
Proof. unfold Moves. apply _. Qed.

Lemma steps_turns w w' : Steps w w' -> Turns w w'.
Proof. apply rtc_subrel. intros ??. apply turn_step. Qed.

Lemma steps_quiets w w' : Steps w w' -> Quiets w w'.
Proof. apply rtc_subrel. intros ??. apply quiet_step. Qed.

Lemma turns_moves w w' : Turns w w' -> Moves w w'.
Proof. apply rtc_subrel. intros ?? []; [by apply move_quiet, quiet_step|apply move_read]. Qed.

Lemma quiets_moves w w' : Quiets w w' -> Moves w w'.
Proof. apply rtc_subrel. intros ??. apply move_quiet. Qed.

#[export] Instance Steps_preorder : PreOrder Steps.
Proof. unfold Steps. apply _. Qed.

(** Steps that leave the core alone, and the delegate's last words. *)
Record Calm (w w' : W) : Prop := mkCalm {
  calm_steps : Steps w w';
  calm_core : core (w_hub w') = core (w_hub w);
  calm_catalog : w_catalog w' = w_catalog w;
  calm_mapped : forall ch, mapped_to ch (w_trace w') = mapped_to ch (w_trace w);
  calm_admission : latest_admission (w_trace w') = latest_admission (w_trace w);
  calm_told : estop_told (w_trace w') = estop_told (w_trace w) }.

#[export] Instance Calm_preorder : PreOrder Calm.
Proof.
  split.
  - intros w. split; [reflexivity|done..].
  - intros w1 w2 w3 [] []. split; [etransitivity; eassumption|congruence..|intros ch; congruence|congruence|congruence].
Qed.

Abbreviation calm := (keeps Calm) (only parsing).
Abbreviation stepwise := (keeps Steps) (only parsing).

Lemma calm_stepwise {A} (m : M A) : calm m -> stepwise m.
Proof. intros Hm w. apply (Hm w). Qed.

Definition hushed (c : Call) : bool :=
  match c with sourceForChannel _ | admitsUnderPause _ _ _ => false | _ => plain c end.

Lemma call_calm c : hushed c = true -> calm (call c).
Proof.
  intros Hc w. split.
  - apply rtc_once, step_call. by destruct c.
  - unfold call. by destruct (answer c _).
  - unfold call. by destruct (answer c _).
  - intros ch. unfold call. destruct (answer c _) as [a e]. by destruct c.
  - unfold call. destruct (answer c _) as [a e]. by destruct c.
  - unfold call. destruct (answer c _) as [a e]. by destruct c.
Qed.

Lemma call_stepwise c : plain c = true -> stepwise (call c).
Proof. intros Hc w. by apply rtc_once, step_call. Qed.

Lemma draw_calm {A} (f : R -> A * R) : calm (draw f).
Proof.
  intros w. split; [by apply rtc_once, step_draw|unfold draw; by destruct (f _)..].
Qed.

Lemma modify_calm f : (forall h, core (f h) = core h) -> calm (modify f).
Proof. intros Hf w. split; [by apply rtc_once, step_silent|exact (Hf _)|done..]. Qed.

Lemma modify_stepwise f : (forall w, core (f (w_hub w)) = core (w_hub w) \/ Step w (modify f w).2) -> stepwise (modify f).
Proof.
  intros Hf w. destruct (Hf w) as [He|Hs]; [by apply rtc_once, step_silent|by apply rtc_once].
Qed.

(** Running a function from a world that is known to have a property. *)
Definition from {A} (P : W -> Prop) (m : M A) : Prop := forall w, P w -> Steps w (m w).2.

Lemma from_stepwise {A} (P : W -> Prop) (m : M A) : stepwise m -> from P m.
Proof. intros Hm w _. apply Hm. Qed.

Lemma from_bind {A B} (P : W -> Prop) (Q : A -> W -> Prop) (m : M A) (k : A -> M B) :
  (forall w, P w -> Steps w (m w).2 /\ Q (m w).1 (m w).2) -> (forall a, from (Q a) (k a)) -> from P (mbind k m).
Proof.
  intros Hm Hk w Hw. destruct (Hm w Hw) as [Hs Hq]. unfold mbind, StateM_bind. destruct (m w) as [a w']. cbn in *.
  etransitivity; [exact Hs|by apply Hk].
Qed.

Lemma from_imp {A} (P Q : W -> Prop) (m : M A) : (forall w, P w -> Q w) -> from Q m -> from P m.
Proof. intros Hpq Hm w Hw. by apply Hm, Hpq. Qed.

(** A property that reads nothing but what [Calm] keeps. *)
Definition stable (P : W -> Prop) : Prop := forall w w', Calm w w' -> P w -> P w'.

Lemma from_calm {A B} (P : W -> Prop) (m : M A) (k : A -> M B) :
  stable P -> calm m -> (forall a, from P (k a)) -> from P (mbind k m).
Proof.
  intros Hst Hm Hk. apply (from_bind P (fun _ => P)); [|done].
  intros w Hw. split; [exact (calm_steps _ _ (Hm w))|by eapply Hst, Hw].
Qed.

(** ** Leaves *)

Lemma sessions_alter (f : Slot -> Slot) i (h : Hub) :
  sessions (h <| _slots ::= alter f i |>) =
  match _slots h !! i with Some s => <[i := view (sl_session (f s))]> (sessions h) | None => sessions h end.
Proof.
  unfold sessions. cbn. generalize (_slots h). intros l. revert i.
  induction l as [|s l IH]; intros [|i]; [done..|]. cbn. rewrite IH. by destruct (l !! i).
Qed.

Lemma sessions_lookup (h : Hub) i : sessions h !! i = (fun s => view (sl_session s)) <$> _slots h !! i.
Proof. unfold sessions. apply list_lookup_fmap. Qed.

Lemma sessions_alter_same (f : Slot -> Slot) i (h : Hub) :
  (forall s, view (sl_session (f s)) = view (sl_session s)) -> sessions (h <| _slots ::= alter f i |>) = sessions h.
Proof.
  intros Hf. rewrite sessions_alter. destruct (_slots h !! i) as [s|] eqn:Hs; [|done].
  rewrite Hf. apply list_insert_id. by rewrite sessions_lookup, Hs.
Qed.

Lemma core_slots g (h : Hub) : core (h <| _slots ::= g |>) = (core h) <| c_sessions := sessions (h <| _slots ::= g |>) |>.
Proof. done. Qed.

Lemma core_same_sessions (h : Hub) vs : vs = sessions h -> (core h) <| c_sessions := vs |> = core h.
Proof. by intros ->. Qed.

Lemma on_slot_calm i f : (forall s, view (sl_session (f s)) = view (sl_session s)) -> calm (on_slot (E := E) (R := R) i f).
Proof. intros Hf. apply modify_calm. intros h. rewrite core_slots. apply core_same_sessions. by apply sessions_alter_same. Qed.

Lemma on_session_calm i f : (forall s, view (f s) = view s) -> calm (on_session (E := E) (R := R) i f).
Proof. intros Hf. apply on_slot_calm. intros s. apply Hf. Qed.

(** A session that does not give up its place. *)
Definition keeps_place (f : HubSession -> HubSession) : Prop :=
  forall s, hs_session_id (f s) = hs_session_id s /\ (v_active (view s) = true -> v_active (view (f s)) = true).

Lemma active_insert id i v v' vs :
  vs !! i = Some v -> (v_active v = true -> v_id v = id -> v_active v' = true /\ v_id v' = id) ->
  active id vs -> active id (<[i := v']> vs).
Proof.
  intros Hi Hv (u & Hu & Ha & Hid). apply list_elem_of_In, list_elem_of_lookup in Hu as (j & Hj).
  assert (Hlen : (i < length vs)%nat) by (by apply lookup_lt_Some in Hi).
  destruct (decide (i = j)) as [<-|Hne].
  - assert (u = v) as -> by congruence. exists v'. destruct (Hv Ha Hid). split; [|done].
    apply list_elem_of_In, list_elem_of_lookup. exists i. by apply list_lookup_insert_eq.
  - exists u. split; [|done]. apply list_elem_of_In, list_elem_of_lookup. exists j. by rewrite list_lookup_insert_ne.
Qed.

Lemma on_session_stepwise i f : keeps_place f -> stepwise (on_session (E := E) (R := R) i f).
Proof.
  intros Hf. apply modify_stepwise. intros w. right. eapply step_session; [apply core_slots|].
  intros id _ Ha. left. rewrite core_slots. cbn -[sessions]. rewrite sessions_alter.
  destruct (_slots (w_hub w) !! i) as [s|] eqn:Hs; [|done].
  eapply active_insert; [by rewrite sessions_lookup, Hs| |exact Ha].
  intros Hv Hid. destruct (Hf (sl_session s)) as [Hid' Hact]. cbn in *. split; [by apply Hact|congruence].
Qed.

End Steps.

Abbreviation calm := (keeps Calm) (only parsing).
Abbreviation stepwise := (keeps Steps) (only parsing).

(** A leaf: a call, a draw, a change of the hub, or a function known to the database. *)
Create HintDb views.
#[export] Hint Unfold on_sub record_push : views.
Ltac view_same := first [reflexivity | autounfold with views; repeat case_match; reflexivity].
Ltac keeps_leaf :=
  lazymatch goal with
  | |- keeps Calm (call ?c) => exact (call_calm c eq_refl)
  | |- keeps Steps (call ?c) => exact (call_stepwise c eq_refl)
  | |- keeps Calm (draw _) => apply draw_calm
  | |- keeps Calm (modify _) => apply modify_calm; intros ?; reflexivity
  | |- keeps Calm (on_slot _ _) => apply on_slot_calm; intros ?; view_same
  | |- keeps Calm (on_session _ _) => apply on_session_calm; intros ?; view_same
  | |- keeps _ (mret _) => apply keeps_ret; typeclasses eauto
  | |- keeps _ get => apply keeps_get; typeclasses eauto
  | |- keeps _ (gets _) => apply keeps_gets; typeclasses eauto
  | |- keeps _ the_catalog => apply keeps_catalog; typeclasses eauto
  | |- keeps _ (slot_at _) => apply keeps_slot_at; typeclasses eauto
  | |- keeps _ (session_at _) => apply keeps_session_at; typeclasses eauto
  end.
Ltac place_same :=
  intros ?; repeat case_match; (split; [reflexivity|let Hv := fresh in intros Hv; first [exact Hv|reflexivity]]).
Ltac lift_calm := lazymatch goal with |- keeps Steps _ => apply calm_stepwise end.
Ltac keeps_walk :=
  repeat first [ solve [keeps_leaf] | solve [auto 1 with hub nocore] | solve [lift_calm; first [keeps_leaf | auto 1 with hub nocore]]
               | solve [apply on_session_stepwise; place_same] | keeps_step ].

(** The rest of a function, run from a world it has reached. *)
Ltac by_steps := lazymatch goal with |- Steps ?w (?k ?w).2 => let Hk := fresh in assert (Hk : keeps Steps k) by keeps_walk; apply Hk end.

(** ** Calm: what the hub does without touching its core

    Sending, queueing, publishing on any channel but the safety channel, asking the delegate: every such
    function takes only steps that leave the core alone. *)

(** ** The retained store: publishing on one channel leaves the others alone *)

Lemma held_app ch s1 s2 : held ch (s1 ++ s2) = held ch s1 ++ held ch s2.
Proof. unfold held. by rewrite List.filter_app, map_app. Qed.

Lemma held_cons ch e s :
  held ch (e :: s) = (if RetainedStore.channel_id e =? ch then [(RetainedStore.valid e, snd (RetainedStore.value e))] else []) ++ held ch s.
Proof. unfold held. cbn. by destruct (_ =? _). Qed.

Lemma held_none ch (s : list RetainedStore.Entry) :
  Forall (fun e => (RetainedStore.channel_id e =? ch) = false) s -> held ch s = [].
Proof. induction 1 as [|e s He _ IH]; [done|]. by rewrite held_cons, He, IH. Qed.

(** Where a channel's value is, if it has one. *)
Lemma find_held ch (s : list RetainedStore.Entry) :
  match RetainedStore.find ch s with
  | None => held ch s = []
  | Some i => exists l1 e l2, s = l1 ++ e :: l2 /\ length l1 = i /\ RetainedStore.channel_id e = ch /\ held ch l1 = []
  end.
Proof.
  destruct (RetainedStore.find ch s) as [i|] eqn:Hf.
  - apply first_index_Some in Hf as (l1 & e & l2 & -> & <- & He%Z.eqb_eq & Hl). exists l1, e, l2. split_and!; [done..|]. by apply held_none.
  - apply held_none. by apply first_index_None in Hf.
Qed.

Lemma lookup_middle_exact {A} (l1 : list A) x l2 : (l1 ++ x :: l2) !! length l1 = Some x.
Proof. by rewrite lookup_app_r, Nat.sub_diag by lia. Qed.

Lemma publish_elsewhere n ch ch' p s : ch <> ch' -> held ch' (fst (RetainedStore.publish n ch p s)) = held ch' s.
Proof.
  intros Hne. unfold RetainedStore.publish. destruct (_ <? _)%nat; [done|]. pose proof (find_held ch s) as Hf.
  destruct (RetainedStore.find ch s) as [i|].
  - destruct Hf as (l1 & e & l2 & -> & <- & <- & _). rewrite lookup_middle_exact. cbn [fst].
    rewrite insert_app_r_alt, Nat.sub_diag by lia. cbn [insert list_insert]. rewrite !held_app, !held_cons.
    cbn [RetainedStore.overwrite RetainedStore.channel_id]. by rewrite (proj2 (Z.eqb_neq _ _) Hne).
  - destruct (_ <=? _)%nat; [done|]. cbn [fst]. rewrite held_app, held_cons. cbn [RetainedStore.overwrite RetainedStore.channel_id].
    rewrite (proj2 (Z.eqb_neq _ _) Hne). cbn. by rewrite app_nil_r.
Qed.

Lemma remove_elsewhere ch ch' s : ch <> ch' -> held ch' (fst (RetainedStore.remove ch s)) = held ch' s.
Proof.
  intros Hne. unfold RetainedStore.remove. pose proof (find_held ch s) as Hf. destruct (RetainedStore.find ch s) as [i|]; [|done].
  destruct Hf as (l1 & e & l2 & -> & <- & <- & _). cbn [fst]. rewrite delete_middle, !held_app, held_cons.
  by rewrite (proj2 (Z.eqb_neq _ _) Hne).
Qed.

Lemma remove_there ch s : held ch (fst (RetainedStore.remove ch s)) = tail (held ch s).
Proof.
  unfold RetainedStore.remove. pose proof (find_held ch s) as Hf. destruct (RetainedStore.find ch s) as [i|]; [|by rewrite Hf].
  destruct Hf as (l1 & e & l2 & -> & <- & <- & Hl). cbn [fst]. rewrite delete_middle, !held_app, held_cons, Hl, Z.eqb_refl. done.
Qed.

(** What is published on a channel is what it then retains, where it had a place or there was one left. *)
Lemma overwrite_there p e :
  (length p <= min_transport_payload)%nat -> RetainedStore.valid (RetainedStore.overwrite p e) = true
  /\ RetainedStore.value (RetainedStore.overwrite p e) = (u16 (RetainedStore.seq e + 1), p).
Proof.
  intros Hlen. unfold RetainedStore.value, RetainedStore.overwrite. cbn [RetainedStore.valid RetainedStore.seq RetainedStore.size RetainedStore.payload].
  split; [done|]. rewrite splice_0. f_equal. unfold min_transport_payload in Hlen.
  rewrite (wrap_small 16 (Z.of_nat (length p))) by (unfold in_u; lia). by rewrite Nat2Z.id, take_app_length.
Qed.

Lemma publish_there n ch p s :
  (length p <= min_transport_payload)%nat ->
  match held ch s with
  | [] => held ch (fst (RetainedStore.publish n ch p s)) = if (n <=? length s)%nat then [] else [(true, p)]
  | [_] => held ch (fst (RetainedStore.publish n ch p s)) = [(true, p)]
  | _ => True
  end.
Proof.
  intros Hlen. unfold RetainedStore.publish. rewrite (proj2 (Nat.ltb_ge _ _) Hlen). pose proof (find_held ch s) as Hf.
  destruct (RetainedStore.find ch s) as [i|].
  - destruct Hf as (l1 & e & l2 & -> & <- & He & Hl). rewrite lookup_middle_exact. cbn [fst].
    rewrite insert_app_r_alt, Nat.sub_diag by lia. cbn [insert list_insert]. rewrite !held_app, !held_cons, Hl.
    cbn [RetainedStore.overwrite RetainedStore.channel_id]. rewrite He, Z.eqb_refl. cbn [app].
    destruct (held ch l2); [|done]. destruct (overwrite_there p e Hlen) as [Hv Hval]. by rewrite Hv, Hval.
  - rewrite Hf. destruct (n <=? length s)%nat; [done|]. cbn [fst]. rewrite held_app, Hf, held_cons.
    match goal with |- context [RetainedStore.overwrite p ?e] => destruct (overwrite_there p e Hlen) as [Hv Hval]; rewrite Hv, Hval end.
    cbn [RetainedStore.overwrite RetainedStore.channel_id]. by rewrite Z.eqb_refl.
Qed.

Lemma get_held ch p s : held ch s = [(true, p)] -> snd <$> RetainedStore.get ch s = Some p.
Proof.
  intros Hh. unfold RetainedStore.get. pose proof (find_held ch s) as Hf. destruct (RetainedStore.find ch s) as [i|]; [|by rewrite Hf in Hh].
  destruct Hf as (l1 & e & l2 & -> & <- & He & Hl). rewrite lookup_middle_exact.
  rewrite held_app, Hl, held_cons, He, Z.eqb_refl in Hh. cbn in Hh. injection Hh as Hv Hp Hl2. rewrite Hv. cbn. by rewrite Hp.
Qed.

Lemma get_not_held ch s : held ch s = [] -> RetainedStore.get ch s = None.
Proof.
  intros Hh. unfold RetainedStore.get. pose proof (find_held ch s) as Hf. destruct (RetainedStore.find ch s) as [i|]; [|done].
  destruct Hf as (l1 & e & l2 & -> & <- & He & Hl). by rewrite held_app, Hl, held_cons, He, Z.eqb_refl in Hh.
Qed.

Section Calm.
Context {E R : Type} `{Env E} `{FairRandom R} `{ICrypto}.
Abbreviation calmly := (keeps (Calm (E := E) (R := R))) (only parsing).

(** ** Sending *)

Lemma sendFrameTo_calm t type ch p sq : calmly (sendFrameTo t type ch p sq).
Proof. unfold sendFrameTo. keeps_walk. Qed.
#[local] Hint Resolve sendFrameTo_calm : hub.

Lemma sendNack_calm t n : calmly (sendNack t n).
Proof. unfold sendNack. keeps_walk. Qed.
#[local] Hint Resolve sendNack_calm : hub.

Lemma through_calm i f : (forall t, calmly (f t)) -> calmly (through i f).
Proof. intros Hf. unfold through. keeps_walk. Qed.

Lemma sendGoodbye_calm i code : calmly (sendGoodbye i code).
Proof. unfold sendGoodbye. keeps_walk. apply through_calm. intros t. keeps_walk. Qed.

Lemma catalog_has_calm ch : calmly (catalog_has ch).
Proof. unfold catalog_has. keeps_walk. Qed.

Lemma occupiedCount_calm x : calmly (occupiedCount x).
Proof. apply keeps_gets, _. Qed.
Lemma anySubscribed_calm ch : calmly (anySubscribed ch).
Proof. apply keeps_gets, _. Qed.
Lemma retained_calm ch : calmly (retained ch).
Proof. apply keeps_gets, _. Qed.
#[local] Hint Resolve sendGoodbye_calm catalog_has_calm occupiedCount_calm anySubscribed_calm retained_calm : hub.

(** Functions that read the hub and then change it. *)
Lemma get_then {A} (Rel : relation (World E R)) (k : Hub -> HubM E R A) :
  (forall w, Rel w (k (w_hub w) w).2) -> keeps Rel (mbind k get).
Proof. intros Hk w. apply Hk. Qed.

Lemma publishState_calm ch p : ch <> channels.safety -> calmly (publishState ch p).
Proof.
  intros Hch. apply get_then. intros w. destruct (RetainedStore.publish _ _ _ _) as [s r] eqn:Hp.
  assert (Hs : shown ((w_hub w) <| _retained := s |>) = shown (w_hub w)).
  { unfold shown. etransitivity; [|apply (publish_elsewhere kRetainedStates ch _ p); exact Hch]. by rewrite Hp. }
  assert (Hc : core ((w_hub w) <| _retained := s |>) = core (w_hub w)) by (unfold core; rewrite Hs; done).
  split; [|exact Hc|done..]. by apply rtc_once, step_silent.
Qed.
#[local] Hint Extern 1 (keeps Calm (publishState _ _)) => apply publishState_calm; discriminate : hub.

(** ** Events and published states *)

Lemma drain_calm n t i : calmly (drain n t i).
Proof. induction n as [|n IH]; cbn [drain]; keeps_walk. Qed.
#[local] Hint Resolve drain_calm : hub.

Lemma pumpEventDrain_calm i : calmly (pumpEventDrain i).
Proof. unfold pumpEventDrain. keeps_walk. Qed.
#[local] Hint Resolve pumpEventDrain_calm : hub.

Lemma publishEvent_calm ch p : calmly (publishEvent ch p).
Proof. unfold publishEvent. keeps_walk. Qed.
#[local] Hint Resolve publishEvent_calm : hub.

Lemma publish_encoded_calm ch p : calmly (publish_encoded ch p).
Proof. unfold publish_encoded. keeps_walk. Qed.
#[local] Hint Resolve publish_encoded_calm : hub.

Lemma emit_safety_calm nowMs kind : calmly (emit_safety nowMs kind).
Proof. unfold emit_safety. keeps_walk. Qed.
#[local] Hint Resolve emit_safety_calm : hub.

Lemma emitSafetyEdgeEvents_calm before nowMs : calmly (emitSafetyEdgeEvents before nowMs).
Proof. unfold emitSafetyEdgeEvents. keeps_walk. Qed.

Lemma emitPairingEvent_calm kind id name mode role version nowMs : calmly (emitPairingEvent kind id name mode role version nowMs).
Proof. unfold emitPairingEvent. keeps_walk. Qed.

Lemma publishPendingPairingState_calm nowMs : calmly (publishPendingPairingState nowMs).
Proof. unfold publishPendingPairingState. keeps_walk. Qed.

Lemma publishPairedRosterState_calm : calmly publishPairedRosterState.
Proof. unfold publishPairedRosterState. keeps_walk. Qed.

Lemma buildControlOwnerPayload_calm : calmly buildControlOwnerPayload.
Proof. unfold buildControlOwnerPayload. keeps_walk. Qed.
#[local] Hint Resolve emitSafetyEdgeEvents_calm emitPairingEvent_calm publishPendingPairingState_calm
  publishPairedRosterState_calm buildControlOwnerPayload_calm : hub.

Lemma publishControlOwner_calm : calmly publishControlOwnerStateIfPresent.
Proof. unfold publishControlOwnerStateIfPresent. keeps_walk. Qed.

Lemma emitTakeoverEvent_calm source owner nowMs : calmly (emitTakeoverEvent source owner nowMs).
Proof. unfold emitTakeoverEvent. keeps_walk. Qed.

Lemma emitSessionEvent_calm kind session nowMs : calmly (emitSessionEvent kind session nowMs).
Proof. unfold emitSessionEvent. keeps_walk. Qed.
#[local] Hint Resolve publishControlOwner_calm emitTakeoverEvent_calm emitSessionEvent_calm : hub.

Lemma end_trials_calm fuel session commit c a : calmly (end_trials fuel session commit c a).
Proof. revert c a. induction fuel as [|fuel IH]; intros c a; cbn [end_trials]; keeps_walk. Qed.
#[local] Hint Resolve end_trials_calm : hub.

Lemma endSessionTrials_calm session commit : calmly (endSessionTrials session commit).
Proof. unfold endSessionTrials. keeps_walk. Qed.

Lemma dropSessionKnocks_calm session nowMs : calmly (dropSessionKnocks session nowMs).
Proof. unfold dropSessionKnocks. keeps_walk. Qed.

Lemma detach_calm i : calmly (detach i).
Proof. unfold detach. keeps_walk. apply through_calm. intros t. keeps_walk. Qed.

End Calm.

#[export] Hint Resolve occupiedCount_calm anySubscribed_calm retained_calm sendFrameTo_calm sendNack_calm sendGoodbye_calm catalog_has_calm pumpEventDrain_calm
  publishEvent_calm publish_encoded_calm emitSafetyEdgeEvents_calm emitPairingEvent_calm
  publishPendingPairingState_calm publishPairedRosterState_calm publishControlOwner_calm
  emitTakeoverEvent_calm emitSessionEvent_calm endSessionTrials_calm dropSessionKnocks_calm detach_calm : hub.
#[export] Hint Extern 1 (keeps Calm (publishState _ _)) => apply publishState_calm; discriminate : hub.
#[export] Hint Extern 1 (keeps Calm (through _ _)) => apply through_calm; intros ?; keeps_walk : hub.
