(* ===== verification/HubWalk.v ===== *)
(** * HubWalk: every function of the hub is a sequence of steps *)

From S2P Require Import Prelude ByteIO SerialArith Frame Estop StreamBundle MsgNack MsgIntent MsgTrust.
From S2P Require Import MsgHello MsgWelcome Tables Crypto Safety Pairing Shedding Catalog Queues StateChannel.
From S2P Require Import Subscription Registry StateM HubSession HubState HubWorld HubCore HubSafety HubPump HubHello.
From S2P Require Import HubWish HubPairing HubIntent HubStream HubUpdate HubSteps.
#[local] Open Scope Z_scope.

(** ** Ownership *)

Lemma find_after_map (g : Entry -> Entry) src t :
  (forall e, is_source src (g e) = is_source src e) -> Safety.find src (map g t) = Safety.find src t.
Proof.
  intros Hg. unfold Safety.find. induction t as [|e t IH]; cbn; [done|]. rewrite Hg. by rewrite IH.
Qed.

Lemma ownerOf_map (g : Entry -> Entry) src t :
  (forall e, is_source src (g e) = is_source src e) ->
  ownerOf src (map g t) = match entry_of src t with Some e => owner (g e) | None => 0 end.
Proof.
  intros Hg. unfold ownerOf, entry_of. rewrite find_after_map by done.
  destruct (Safety.find src t) as [i|]; [|done]. cbn. rewrite list_lookup_fmap. by destruct (t !! i).
Qed.

Lemma is_source_released s src e : is_source src (released s e) = is_source src e.
Proof. unfold released. by destruct (owned_by s e). Qed.

Lemma ownerOf_released s src t :
  ownerOf src (fst (releaseAllOf s t)) = if ownerOf src t =? s then 0 else ownerOf src t.
Proof.
  unfold releaseAllOf. cbn [fst]. rewrite ownerOf_map by apply is_source_released.
  unfold ownerOf. unfold entry_of. destruct (Safety.find src t) as [i|] eqn:Hf; [|cbn; by case_match].
  apply first_index_Some in Hf as (l1 & e & l2 & -> & <- & He & _). cbn. rewrite lookup_app_r, Nat.sub_diag by lia. cbn.
  unfold is_source in He. apply andb_true_iff in He as [Hu _]. unfold released, owned_by. rewrite Hu. cbn. by destruct (owner e =? s).
Qed.

Lemma releaseAll_disowns s t : s <> 0 -> disowned s (fst (releaseAllOf s t)).
Proof. intros Hs src. rewrite ownerOf_released. destruct (Z.eqb_spec (ownerOf src t) s); [by intros <-|done]. Qed.

Lemma releaseAll_only s t src :
  ownerOf src (fst (releaseAllOf s t)) = ownerOf src t \/ ownerOf src (fst (releaseAllOf s t)) = 0.
Proof. rewrite ownerOf_released. destruct (_ =? _); auto. Qed.

(** Changing the entry a source is found at, where the change keeps it that source's. *)
Lemma find_insert src' i e e' t :
  t !! i = Some e -> is_source src' e' = is_source src' e -> Safety.find src' (<[i := e']> t) = Safety.find src' t.
Proof.
  unfold Safety.find. intros Hi He. revert i Hi. induction t as [|x t IH]; intros [|i] Hi; try done.
  - injection Hi as ->. cbn. by rewrite He.
  - cbn. by rewrite IH.
Qed.

Lemma ownerOf_insert_found src src' i e e' t :
  Safety.find src t = Some i -> t !! i = Some e -> (forall x, is_source x e' = is_source x e) ->
  ownerOf src' (<[i := e']> t) = if src' =? src then owner e' else ownerOf src' t.
Proof.
  intros Hf Hi He. unfold ownerOf, entry_of. erewrite find_insert by eauto.
  destruct (Z.eqb_spec src' src) as [->|Hne].
  - rewrite Hf. cbn. by rewrite list_lookup_insert_eq by (by eapply lookup_lt_Some).
  - destruct (Safety.find src' t) as [j|] eqn:Hj; [|done]. cbn. rewrite list_lookup_insert_ne; [done|]. intros <-.
    apply first_index_Some in Hf as (l1 & x & l2 & -> & <- & Hx & _).
    apply first_index_Some in Hj as (l1' & x' & l2' & Heq & Hlen & Hx' & _).
    apply app_inj_1 in Heq as [_ [= <-]]; [|done]. unfold is_source in Hx, Hx'.
    apply andb_true_iff in Hx as [_ Hx%Z.eqb_eq], Hx' as [_ Hx'%Z.eqb_eq]. congruence.
Qed.

Lemma release_only src s t src' :
  ownerOf src' (fst (release src s t)) = ownerOf src' t \/ ownerOf src' (fst (release src s t)) = 0.
Proof.
  unfold release. destruct (Safety.find src t) as [i|] eqn:Hf; [|by left]. destruct (t !! i) as [e|] eqn:Hi; [|by left].
  destruct (owner e =? s); [|by left]. cbn [fst]. rewrite (ownerOf_insert_found src src' i e) by done.
  destruct (_ =? _); auto.
Qed.

(** The entry [findOrCreate] leaves for a source; no other source sees the difference. *)
Lemma findOrCreate_spec src t t' r :
  findOrCreate src t = (t', r) ->
  (forall src', ownerOf src' t' = ownerOf src' t) /\ (forall i, r = Some i -> Safety.find src t' = Some i).
Proof.
  unfold findOrCreate. destruct (Safety.find src t) as [i|] eqn:Hf; [intros [= <- <-]; split; [done|by intros ? [= <-]]|].
  destruct (first_index (fun e => negb (used e)) t) as [i|] eqn:Hfree; intros [= <- <-]; [|done].
  apply first_index_Some in Hfree as (l1 & e & l2 & -> & <- & Hu%negb_true_iff & _).
  rewrite insert_app_r_alt, Nat.sub_diag by lia. cbn [insert list_insert].
  pose proof Hf as Hnone. apply first_index_None, Forall_app in Hf as [Hf1 _].
  assert (Hhere : Safety.find src (l1 ++ mkEntry src 0 AccessLevel.watch true :: l2) = Some (length l1)).
  { apply first_index_Some. exists l1, (mkEntry src 0 AccessLevel.watch true), l2. split_and!; [done|done| |done].
    unfold is_source. cbn. by rewrite Z.eqb_refl. }
  split; [|by intros ? [= <-]]. intros src'. destruct (Z.eq_dec src' src) as [->|Hne].
  - unfold ownerOf, entry_of. rewrite Hhere. cbn. rewrite lookup_app_r, Nat.sub_diag by lia. cbn.
    by setoid_rewrite Hnone.
  - assert (He : is_source src' (mkEntry src 0 AccessLevel.watch true) = is_source src' e).
    { unfold is_source. cbn. rewrite Hu. cbn. by apply Z.eqb_neq. }
    unfold ownerOf, entry_of.
    assert (Hsame : Safety.find src' (l1 ++ mkEntry src 0 AccessLevel.watch true :: l2) = Safety.find src' (l1 ++ e :: l2)).
    { unfold Safety.find. clear -He. induction l1 as [|x l1 IH]; cbn [app first_index]; [by rewrite He|by rewrite IH]. }
    rewrite Hsame. destruct (Safety.find src' (l1 ++ e :: l2)) as [j|] eqn:Hj; [|done]. cbn.
    apply first_index_Some in Hj as (k1 & x & k2 & Heq & <- & Hx & _).
    destruct (Nat.eq_dec (length k1) (length l1)) as [Hlen|Hlen].
    { apply app_inj_1 in Heq as [_ [= <- _]]; [|lia]. unfold is_source in Hx. rewrite Hu in Hx. done. }
    destruct (Nat.lt_ge_cases (length k1) (length l1)).
    + by rewrite !lookup_app_l by lia.
    + rewrite !lookup_app_r by lia. destruct (length k1 - length l1)%nat eqn:?; [lia|done].
Qed.

Lemma acquire_owners src s r tk t src' :
  ownerOf src' (fst (acquire src s r tk t)) = ownerOf src' t \/ ownerOf src' (fst (acquire src s r tk t)) = s.
Proof.
  unfold acquire. destruct (findOrCreate src t) as [t' o] eqn:Hfc. apply findOrCreate_spec in Hfc as [Hsame Hfound].
  rewrite <- (Hsame src'). destruct o as [i|]; [|by left]. specialize (Hfound i eq_refl).
  destruct (t' !! i) as [e|] eqn:Hi; [|by left].
  assert (Hto : forall x, is_source x (take_over s r e) = is_source x e) by done.
  destruct (owner e =? 0), (owner e =? s), (tk && (role e <=? r)); try (by left); cbn [fst];
    rewrite (ownerOf_insert_found src src' i e) by done; destruct (src' =? src); auto.
Qed.

Lemma acquire_owns src s r tk t : snd (acquire src s r tk t) <> Conflict -> ownerOf src (fst (acquire src s r tk t)) = s.
Proof.
  unfold acquire. destruct (findOrCreate src t) as [t' o] eqn:Hfc. apply findOrCreate_spec in Hfc as [_ Hfound].
  destruct o as [i|]; [|done]. specialize (Hfound i eq_refl).
  destruct (t' !! i) as [e|] eqn:Hi; [|done].
  assert (Hto : forall x, is_source x (take_over s r e) = is_source x e) by done.
  destruct (owner e =? 0) eqn:E0, (owner e =? s) eqn:E1, (tk && (role e <=? r)); cbn [fst snd]; try done; intros _;
    try (rewrite (ownerOf_insert_found src src i e) by done; by rewrite Z.eqb_refl);
    unfold ownerOf, entry_of; rewrite Hfound; cbn; rewrite Hi; by apply Z.eqb_eq.
Qed.

Section Walk.
Context {E R : Type} `{Env E} `{FairRandom R} `{ICrypto}.
Abbreviation calmly := (keeps (Calm (E := E) (R := R))) (only parsing).
Abbreviation steply := (keeps (Steps (E := E) (R := R))) (only parsing).
Abbreviation W := (World E R) (only parsing).

(** What follows a function, where it is calm, leaves the core the function left. *)
Lemma then_calm {A B} (m : HubM E R A) (k : A -> HubM E R B) w : (forall a, calmly (k a)) -> Calm (m w).2 (mbind k m w).2.
Proof. intros Hk. unfold mbind, StateM_bind. destruct (m w) as [a w']. apply Hk. Qed.

Lemma run_get {A} (k : Hub -> HubM E R A) (w : W) : mbind k get w = k (w_hub w) w.
Proof. done. Qed.
Lemma run_gets {A B} (f : Hub -> A) (k : A -> HubM E R B) (w : W) : mbind k (gets f) w = k (f (w_hub w)) w.
Proof. done. Qed.

Lemma calm_sessions (w w' : W) : Calm w w' -> sessions (w_hub w') = sessions (w_hub w).
Proof. intros Hc. exact (f_equal c_sessions (calm_core _ _ Hc)). Qed.
Lemma calm_owners (w w' : W) : Calm w w' -> _ownership (w_hub w') = _ownership (w_hub w).
Proof. intros Hc. exact (f_equal c_owners (calm_core _ _ Hc)). Qed.

(** ** Giving sources up *)

Lemma releaseSessionSources_spec session reason (w : W) :
  let w' := (releaseSessionSources session reason w).2 in
  Steps w w' /\ sessions (w_hub w') = sessions (w_hub w) /\ (session <> 0 -> disowned session (_ownership (w_hub w'))).
Proof.
  cbn zeta. set (w1 := (modify (fun h => h <| _ownership := fst (releaseAllOf session (_ownership (w_hub w))) |>) w).2 : W).
  assert (Hc : Calm w1 (releaseSessionSources session reason w).2).
  { subst w1. unfold releaseSessionSources. rewrite run_get. apply (then_calm (modify _)). intros []. keeps_walk. }
  split_and!.
  - etransitivity; [|apply (calm_steps _ _ Hc)]. apply rtc_once. eapply step_release; [done|]. apply releaseAll_only.
  - by rewrite (calm_sessions _ _ Hc).
  - intros Hs. rewrite (calm_owners _ _ Hc). by apply releaseAll_disowns.
Qed.

Lemma releaseSessionSources_step session reason : steply (releaseSessionSources session reason).
Proof. intros w. apply releaseSessionSources_spec. Qed.

(** ** Sessions that go stale or away *)

Definition stale_view (v : SessionView) : SessionView := mkSessionView STALE (v_id v) (v_role v) (v_ready v) (v_publishing v).
Definition fresh_view : SessionView := view HubSession_new.

Lemma sessions_alter_view (f : Slot -> Slot) (g : SessionView -> SessionView) i (h : Hub) :
  (forall s, view (sl_session (f s)) = g (view (sl_session s))) ->
  sessions (h <| _slots ::= alter f i |>) = alter g i (sessions h).
Proof.
  intros Hf. unfold sessions. cbn. apply list_fmap_alter. apply Forall_true. intros s. apply Hf.
Qed.

Lemma calm_alter (w1 w2 : W) i g (h : Hub) :
  Calm w1 w2 -> sessions (w_hub w1) = alter g i (sessions h) -> sessions (w_hub w2) = alter g i (sessions h).
Proof. intros Hc Hs. by rewrite (calm_sessions _ _ Hc). Qed.

Definition session_of (i : nat) (h : Hub) : HubSession := sl_session (default Slot_new (_slots h !! i)).

Lemma run_session {A} (k : HubSession -> HubM E R A) i (w : W) : mbind k (session_at i) w = k (session_of i (w_hub w)) w.
Proof. done. Qed.

Lemma session_of_view i (h : Hub) v : sessions h !! i = Some v -> view (session_of i h) = v.
Proof. rewrite sessions_lookup. unfold session_of. destruct (_slots h !! i); [|done]. by intros [= <-]. Qed.

(** A slot may be given any session once the one it had owns nothing. *)
Lemma on_slot_step i (f : Slot -> Slot) (w : W) :
  (forall v, sessions (w_hub w) !! i = Some v -> v_active v = true -> v_id v <> 0 -> disowned (v_id v) (_ownership (w_hub w))) ->
  Step w (on_slot i f w).2.
Proof.
  intros Hi. eapply step_session; [apply core_slots|]. intros id Hid (u & Hu & Ha & Heq).
  apply list_elem_of_In, list_elem_of_lookup in Hu as (j & Hj). cbn in Hj.
  destruct (decide (j = i)) as [->|Hne]; [right; subst id; by eapply Hi|left].
  exists u. split; [|done]. apply list_elem_of_In, list_elem_of_lookup. exists j.
  rewrite core_slots. cbn -[sessions]. rewrite sessions_alter. destruct (_slots (w_hub w) !! i); [|done].
  by rewrite list_lookup_insert_ne.
Qed.

Lemma markStale_spec i nowMs reason (w : W) :
  let w' := (markStale i nowMs reason w).2 in
  Steps w w' /\ sessions (w_hub w') = alter stale_view i (sessions (w_hub w))
  /\ (hs_session_id (session_of i (w_hub w)) <> 0 -> disowned (hs_session_id (session_of i (w_hub w))) (_ownership (w_hub w'))).
Proof.
  cbn zeta. unfold markStale. rewrite run_session. set (id := hs_session_id (session_of i (w_hub w))). cbn zeta.
  destruct (releaseSessionSources_spec id reason w) as (Hs1 & Hv1 & Hd1).
  rewrite run_bind. set (w1 := (releaseSessionSources id reason w).2) in *.
  pose proof (endSessionTrials_calm (E := E) (R := R) id false w1) as Hc2.
  rewrite run_bind. set (w2 := (endSessionTrials id false w1).2) in *.
  set (f := fun s => s <| hs_state := STALE |> <| hs_staleSinceMs := nowMs |>).
  rewrite run_bind. cbv beta. set (w3 := (on_session i f w2).2).
  assert (Hs3 : Step w2 w3).
  { apply on_slot_step. rewrite (calm_sessions _ _ Hc2), (calm_owners _ _ Hc2), Hv1. intros v Hv _.
    apply session_of_view in Hv as <-. exact Hd1. }
  assert (Hv3 : sessions (w_hub w3) = alter stale_view i (sessions (w_hub w2))) by (by apply sessions_alter_view).
  match goal with |- context [?m w3] => assert (Hc4 : calmly m) by keeps_walk end. specialize (Hc4 w3).
  split_and!.
  - etransitivity; [exact Hs1|]. etransitivity; [apply (calm_steps _ _ Hc2)|].
    etransitivity; [by apply rtc_once|]. apply (calm_steps _ _ Hc4).
  - etransitivity; [exact (calm_sessions _ _ Hc4)|]. by rewrite Hv3, (calm_sessions _ _ Hc2), Hv1.
  - intros Hid src Heq. apply (Hd1 Hid src). etransitivity; [|exact Heq]. symmetry.
    etransitivity; [exact (f_equal (ownerOf src) (calm_owners _ _ Hc4))|]. exact (f_equal (ownerOf src) (calm_owners _ _ Hc2)).
Qed.

Lemma markStale_step i nowMs reason : steply (markStale i nowMs reason).
Proof. intros w. apply markStale_spec. Qed.

Lemma teardownSession_spec i nowMs reason (w : W) :
  let w' := (teardownSession i nowMs reason w).2 in
  Steps w w' /\ sessions (w_hub w') = alter (fun _ => fresh_view) i (sessions (w_hub w)).
Proof.
  cbn zeta. unfold teardownSession. rewrite run_session. set (s := session_of i (w_hub w)). cbn zeta.
  match goal with |- context [when (occupied s) ?l] => set (leave := l) end.
  assert (Hl : let w' := (when (occupied s) leave w).2 in
     Steps w w' /\ sessions (w_hub w') = sessions (w_hub w) /\
     (occupied s = true -> hs_session_id s <> 0 -> disowned (hs_session_id s) (_ownership (w_hub w')))).
  { destruct (occupied s); cbn [when]; [|split_and!; [reflexivity|done..]]. subst leave. cbn zeta.
    destruct (releaseSessionSources_spec (hs_session_id s) reason w) as (Hs1 & Hv1 & Hd1).
    match goal with |- context [mbind ?k (releaseSessionSources _ _)] =>
      pose proof (then_calm (releaseSessionSources (hs_session_id s) reason) k w ltac:(intros []; keeps_walk)) as Hc end.
    split_and!.
    - etransitivity; [exact Hs1|apply (calm_steps _ _ Hc)].
    - etransitivity; [exact (calm_sessions _ _ Hc)|done].
    - intros _ Hid. intros src Heq. apply (Hd1 Hid src). etransitivity; [|exact Heq].
      symmetry. exact (f_equal (ownerOf src) (calm_owners _ _ Hc)). }
  cbn zeta in Hl. destruct Hl as (Hs1 & Hv1 & Hd1). rewrite run_bind.
  set (w1 := (when (occupied s) leave w).2) in *. split.
  - etransitivity; [exact Hs1|]. apply rtc_once, on_slot_step. rewrite Hv1. intros v Hv Ha.
    apply session_of_view in Hv as <-. apply Hd1. unfold occupied, s. revert Ha. unfold v_active. cbn. by destruct (hs_state _).
  - rewrite <- Hv1. by apply sessions_alter_view.
Qed.

Lemma teardownSession_step i nowMs reason : steply (teardownSession i nowMs reason).
Proof. intros w. apply teardownSession_spec. Qed.
#[local] Hint Resolve releaseSessionSources_step markStale_step teardownSession_step : hub.

Lemma parkAndDetach_step i nowMs : steply (parkAndDetach i nowMs).
Proof. unfold parkAndDetach. keeps_walk. Qed.
#[local] Hint Resolve parkAndDetach_step : hub.

Lemma trackCriticalSend_step i ok nowMs : steply (trackCriticalSend i ok nowMs).
Proof. unfold trackCriticalSend. keeps_walk. Qed.
#[local] Hint Resolve trackCriticalSend_step : hub.

Lemma sendFrameToTracked_step i type ch p nowMs sq : steply (sendFrameToTracked i type ch p nowMs sq).
Proof. unfold sendFrameToTracked. keeps_walk. Qed.

Lemma sendNackTracked_step i n nowMs : steply (sendNackTracked i n nowMs).
Proof. unfold sendNackTracked. keeps_walk. Qed.

Lemma evictSlot_step i code nowMs : steply (evictSlot i code nowMs).
Proof. unfold evictSlot. keeps_walk. Qed.
#[local] Hint Resolve sendFrameToTracked_step sendNackTracked_step evictSlot_step : hub.

Lemma broadcastSafetyNow_step nowMs : steply (broadcastSafetyNow nowMs).
Proof. unfold broadcastSafetyNow. keeps_walk. Qed.
#[local] Hint Resolve broadcastSafetyNow_step : hub.

(** ** The safety latches *)

(** The first two functions of a sequence, taken as one. *)
Lemma keeps_two (Rel : relation W) `{!PreOrder Rel} {A B} (m1 : HubM E R ()) (m2 : HubM E R A) (k : A -> HubM E R B) :
  keeps Rel (m1 ;; m2) -> (forall a, keeps Rel (k a)) -> keeps Rel (m1 ;; a ← m2; k a).
Proof.
  intros Hm Hk w. specialize (Hm w). rewrite run_bind in Hm. rewrite !run_bind. etransitivity; [exact Hm|apply Hk].
Qed.

Lemma publishSafetySnapshot_step : steply publishSafetySnapshot.
Proof.
  intros [h c e g t s]. pose proof (step_modes (mkWorld h c e g t s) id eq_refl eq_refl eq_refl eq_refl eq_refl) as Hs.
  rewrite run_bind in Hs. exact (rtc_once _ _ Hs).
Qed.

Lemma handleEstopFrame_step f nowMs : steply (handleEstopFrame f nowMs).
Proof.
  unfold handleEstopFrame. apply get_then. intros w. cbv beta. rewrite run_bind. cbv beta.
  match goal with |- context [when ?b ?m w] => set (w1 := (when b m w).2); assert (Hs : Steps w w1) end.
  { subst w1. destruct (estopLatched (w_hub w)) eqn:Hl; cbn [negb when]; [reflexivity|]. by apply rtc_once, step_latch. }
  match goal with |- context [?m w1] => assert (Hm : steply m) by keeps_walk end.
  etransitivity; [exact Hs|apply Hm].
Qed.
#[local] Hint Resolve publishSafetySnapshot_step handleEstopFrame_step : hub.

Lemma latchEstop_step cause origin : steply (latchEstop cause origin).
Proof. unfold latchEstop, latchEstop_seq. keeps_walk. Qed.
Lemma latchEstop_seq_step cause origin sq : steply (latchEstop_seq cause origin sq).
Proof. unfold latchEstop_seq. keeps_walk. Qed.

Lemma modes_step f :
  (forall h, estopLatched (f h) = estopLatched h /\ _ownership (f h) = _ownership h
             /\ sessions (f h) = sessions h /\ _retained (f h) = _retained h /\ served (f h) = served h) ->
  steply (modify f ;; publishSafetySnapshot).
Proof. intros Hf w. destruct (Hf (w_hub w)) as (? & ? & ? & ? & ?). by apply rtc_once, step_modes. Qed.

Lemma set_modes_step next : steply (set_modes next).
Proof.
  unfold set_modes. apply keeps_bind; [apply _|keeps_walk|]. intros modes. destruct (_ =? _); [keeps_walk|].
  apply keeps_two; [apply _|by apply modes_step|]. intros []. keeps_walk.
Qed.

Lemma estop_bit_pause w : has_bit (Z.lor w safety_bits.PAUSE) safety_bits.ESTOP = has_bit w safety_bits.ESTOP.
Proof. unfold has_bit, safety_bits.PAUSE, safety_bits.ESTOP. f_equal. f_equal. rewrite Z.land_lor_distr_l. cbn. by rewrite Z.lor_0_r. Qed.

Lemma estop_bit_resume w : has_bit (clear_bit w safety_bits.PAUSE) safety_bits.ESTOP = has_bit w safety_bits.ESTOP.
Proof. unfold has_bit, clear_bit. rewrite <- Z.land_assoc. done. Qed.

Lemma safety_op_keeps op session (h h' : Hub) :
  safety_op op session h = Some h' ->
  estopLatched h' = estopLatched h /\ _ownership h' = _ownership h /\ sessions h' = sessions h /\ _retained h' = _retained h
  /\ _estopSeq h' = _estopSeq h /\ served h' = served h.
Proof.
  assert (Hl : estopLatched (latch_pause session h) = estopLatched h).
  { unfold latch_pause. destruct (has_bit (_safetyWord h) safety_bits.PAUSE); [done|]. apply estop_bit_pause. }
  unfold safety_op. destruct (op =? _); [intros [= <-]|destruct (op =? _); [intros [= <-]|destruct (op =? _); [intros [= <-]|done]]].
  - split_and!; [exact Hl|unfold latch_pause; by case_match..].
  - split_and!; [apply estop_bit_resume|done..].
  - split_and!; [exact Hl|unfold latch_pause; by case_match..].
Qed.

(** An operation that reports no change leaves the core as it was; otherwise the snapshot is renewed at once. *)
Lemma latch_safety_step op session nowMs : steply (latch_safety op session nowMs).
Proof.
  unfold latch_safety. destruct op as [op|]; [|keeps_walk].
  apply keeps_bind; [apply _|keeps_walk|]. intros before. unfold applySafetyOpLatch. intros w.
  rewrite run_bind, run_get. destruct (safety_op (u8 op) session (w_hub w)) as [h'|] eqn:Hop; cbn [fst snd when]; [|reflexivity].
  set (f := fun h => default h (safety_op (u8 op) session h)). destruct (safety_op_keeps _ _ _ _ Hop) as (Hl & Ho & Hv & Hr & Hq & Hsv).
  assert (Hf : f (w_hub w) = h') by (unfold f; by rewrite Hop).
  destruct (safety_changed (w_hub w) h') eqn:Hch; cbn [when].
  - match goal with |- context [mbind ?k publishSafetySnapshot] =>
      change (Steps w ((mbind k publishSafetySnapshot) (modify f w).2).2); assert (Hk : steply (k tt)) by keeps_walk end.
    rewrite run_bind. assert (Hs : Step w ((modify f ;; publishSafetySnapshot) w).2) by (apply step_modes; by rewrite Hf).
    rewrite run_bind in Hs. cbv beta in Hs. etransitivity; [by apply rtc_once|]. apply Hk.
  - apply rtc_once, (step_silent w f). rewrite Hf. unfold safety_changed in Hch.
    rewrite !orb_false_iff, !negb_false_iff, !Z.eqb_eq in Hch. destruct Hch as [[[Hw Hm] Hca] How].
    unfold core. rewrite Hw, Hm, Hca, How, Ho, Hv, Hq, Hsv. unfold shown. by rewrite Hr.
Qed.

Lemma releaseEstop_step : steply releaseEstop.
Proof.
  unfold releaseEstop. apply get_then. intros w. destruct (estopLatched (w_hub w)) eqn:Hl; cbn [negb]; [|reflexivity].
  pose proof (step_clear w Hl) as Hyes. pose proof (step_refuse w Hl) as Hno. rewrite !run_bind in Hyes. cbv beta in Hyes.
  rewrite run_bind. destruct (call canClearEstop w) as [[] w1]; cbn [fst snd negb] in *.
  - match goal with |- context [mbind ?k (modify ?f) w1] => change (mbind k (modify f) w1) with (mbind k (modify unlatch) w1) end.
    match goal with |- context [mbind (fun _ => mbind ?k publishSafetySnapshot) (modify unlatch)] =>
      assert (Hk : forall a, steply (k a)) by (intros a; keeps_walk) end.
    rewrite run_bind. cbv beta. rewrite run_bind. etransitivity; [apply rtc_once, Hyes; reflexivity|]. apply (Hk tt).
  - by apply rtc_once, Hno.
Qed.
#[local] Hint Resolve latchEstop_step latchEstop_seq_step set_modes_step latch_safety_step releaseEstop_step : hub.

End Walk.

#[export] Hint Resolve releaseSessionSources_step markStale_step teardownSession_step parkAndDetach_step trackCriticalSend_step
  sendFrameToTracked_step sendNackTracked_step evictSlot_step broadcastSafetyNow_step publishSafetySnapshot_step
  handleEstopFrame_step latchEstop_step latchEstop_seq_step set_modes_step latch_safety_step releaseEstop_step : hub.

(** ** Joining: liveness, joining, wishes and pairing are sequences of steps *)

#[local] Hint Unfold take_labels take_trust shed : views.

Section Walk.
Context {E R : Type} `{Env E} `{FairRandom R} `{ICrypto}.
Abbreviation calmly := (keeps (Calm (E := E) (R := R))) (only parsing).
Abbreviation steply := (keeps (Steps (E := E) (R := R))) (only parsing).
Abbreviation W := (World E R) (only parsing).

(** ** Liveness and pacing *)

Lemma pumpDeadman_step i nowMs : steply (pumpDeadman i nowMs).
Proof. unfold pumpDeadman. keeps_walk. Qed.
Lemma pumpIdleReap_step i nowMs : steply (pumpIdleReap i nowMs).
Proof. unfold pumpIdleReap. keeps_walk. Qed.
Lemma pumpReadyTimeout_step i nowMs : steply (pumpReadyTimeout i nowMs).
Proof. unfold pumpReadyTimeout. keeps_walk. Qed.

Lemma pumpStatePacing_step i nowMs : steply (pumpStatePacing i nowMs).
Proof. unfold pumpStatePacing, pace_sub. keeps_walk. Qed.

Lemma railHeld_calm source : calmly (railHeldByOtherSource source).
Proof. unfold railHeldByOtherSource. keeps_walk. Qed.

(** A source given up by whoever [owner] is. *)
Lemma give_up_step {A} src owner (k : bool -> HubM E R A) :
  (forall freed, steply (k freed)) ->
  steply (h ← get; let '(t, freed) := release src owner (_ownership h) in modify (fun h => h <| _ownership := t |>) ;; k freed).
Proof.
  intros Hk. apply get_then. intros w. pose proof (release_only src owner (_ownership (w_hub w))) as Hr.
  destruct (release src owner _) as [t freed]. rewrite run_bind.
  transitivity (modify (fun h => h <| _ownership := t |>) w).2; [|apply Hk].
  apply rtc_once, (step_release _ _ t); [reflexivity|intros src'; apply Hr].
Qed.

#[local] Hint Extern 0 (keeps Steps (mbind _ get)) => apply give_up_step; intros ?; keeps_walk : hub.

Lemma pumpQuietRelease_step nowMs now_us : steply (pumpQuietRelease nowMs now_us).
Proof.
  unfold pumpQuietRelease. keeps_walk.
Qed.
#[local] Hint Resolve pumpDeadman_step pumpIdleReap_step pumpReadyTimeout_step pumpStatePacing_step pumpQuietRelease_step : hub.

Lemma take_slot_step i t : steply (take_slot i t).
Proof. unfold take_slot. keeps_walk. Qed.
#[local] Hint Resolve take_slot_step : hub.

Lemma attachTransport_step t : steply (attachTransport t).
Proof. unfold attachTransport. keeps_walk. Qed.
Lemma detachTransport_step t : steply (detachTransport t).
Proof. unfold detachTransport. keeps_walk. Qed.
Lemma setCongestionLevel_step t level : steply (setCongestionLevel t level).
Proof. unfold setCongestionLevel, setCongestionLevel_at. keeps_walk. Qed.

(** ** Joining *)

Lemma onCable_calm i : calmly (onCable i).
Proof. unfold onCable. keeps_walk. Qed.
#[local] Hint Resolve onCable_calm : hub.
Lemma tierOf_calm i role : calmly (tierOf i role).
Proof. unfold tierOf. keeps_walk. Qed.
Lemma tokenRole_calm h : calmly (tokenRole h).
Proof. unfold tokenRole. keeps_walk. Qed.
#[local] Hint Resolve tierOf_calm tokenRole_calm : hub.

Lemma applyTrustObservation_calm i nowMs : calmly (applyTrustObservation i nowMs).
Proof. unfold applyTrustObservation. keeps_walk. Qed.
#[local] Hint Resolve applyTrustObservation_calm : hub.

Lemma replayEventsOnGrant_calm i ch : calmly (replayEventsOnGrant i ch).
Proof. unfold replayEventsOnGrant. keeps_walk. Qed.
#[local] Hint Resolve replayEventsOnGrant_calm : hub.

Lemma admit_wish_calm i wish : calmly (admit_wish i wish).
Proof. unfold admit_wish. keeps_walk. Qed.

Lemma advertisedHorizonMs_calm ch : calmly (advertisedHorizonMs ch).
Proof. unfold advertisedHorizonMs. keeps_walk. Qed.
#[local] Hint Resolve admit_wish_calm advertisedHorizonMs_calm : hub.

Lemma removePublishGrant_place ch : keeps_place (removePublishGrant ch).
Proof. intros s. unfold removePublishGrant. by case_match. Qed.

Lemma grantPublishWish_step i wish nowMs : steply (grantPublishWish i wish nowMs).
Proof. unfold grantPublishWish. keeps_walk. apply on_session_stepwise, removePublishGrant_place. Qed.
#[local] Hint Resolve grantPublishWish_step : hub.

Lemma grant_publishes_step i wishes nowMs : steply (grant_publishes i wishes nowMs).
Proof. unfold grant_publishes. keeps_walk. Qed.

Lemma sendWelcome_calm i grants publishes nowMs : calmly (sendWelcome i grants publishes nowMs).
Proof. unfold sendWelcome, armWelcomeSignature. keeps_walk. Qed.

Lemma settle_role_step i h role nowMs : steply (settle_role i h role nowMs).
Proof. unfold settle_role. keeps_walk. Qed.
#[local] Hint Resolve grant_publishes_step sendWelcome_calm settle_role_step : hub.

Lemma draw_nonzero_calm : calmly draw_nonzero.
Proof. apply draw_calm. Qed.
#[local] Hint Resolve draw_nonzero_calm : hub.

Definition idle_at (i : nat) (w : W) : Prop := forall v, sessions (w_hub w) !! i = Some v -> v_active v = false.

Lemma idle_stable i : stable (idle_at i).
Proof. intros w w' Hc Hi v Hv. apply Hi. by rewrite <- (calm_sessions _ _ Hc). Qed.

(** A session that is not active may be replaced by any other. *)
Lemma replace_step i f (w : W) : idle_at i w -> Step w (on_slot i f w).2.
Proof. intros Hi. apply on_slot_step. intros v Hv Ha. apply Hi in Hv. congruence. Qed.

Lemma teardown_idle i nowMs reason (w : W) : idle_at i (teardownSession i nowMs reason w).2.
Proof.
  intros v. destruct (teardownSession_spec i nowMs reason w) as [_ ->]. rewrite list_lookup_alter_eq.
  by destruct (_ !! i); intros [= <-].
Qed.

Lemma establish_step i h derived nowMs : steply (establish i h derived nowMs).
Proof.
  intros w. unfold establish. rewrite run_bind. cbv beta.
  destruct (teardownSession_spec i nowMs session_loss w) as [Hs1 Hv1]. pose proof (teardown_idle i nowMs session_loss w) as Hi1.
  set (w1 := (teardownSession i nowMs session_loss w).2) in *. etransitivity; [exact Hs1|].
  rewrite run_bind. cbv beta. match goal with |- context [on_session i ?f w1] => pose (f2 := f) end. change (on_session i _ w1) with (on_session i f2 w1).
  set (w2 := (on_session i f2 w1).2).
  assert (Hs2 : Step w1 w2) by (by apply replace_step).
  assert (Hv2 : forall v, sessions (w_hub w2) !! i = Some v -> v_id v = 0).
  { intros v. change (sessions (w_hub w2)) with (sessions ((w_hub w1) <| _slots ::= alter (fun s => s <| sl_session ::= f2 |>) i |>)).
    rewrite (sessions_alter_view _ (fun v => mkSessionView VALIDATING (v_id v) (v_role v) (v_ready v) (v_publishing v))) by done.
    rewrite Hv1, !list_lookup_alter_eq. destruct (_ !! i); [|done]. by intros [= <-]. }
  etransitivity; [by apply rtc_once|]. rewrite run_bind. cbv beta.
  pose proof (draw_nonzero_calm w2) as Hc3. set (w3 := (draw_nonzero w2).2) in *. etransitivity; [apply (calm_steps _ _ Hc3)|].
  rewrite run_bind. cbv beta.
  match goal with |- context [mbind ?k ?m] => idtac end.
  match goal with |- Steps w3 (?k (on_session i ?f w3).2).2 =>
    assert (Hk : steply k) by keeps_walk; transitivity (on_session i f w3).2; [|apply Hk] end.
  apply rtc_once, on_slot_step. rewrite (calm_sessions _ _ Hc3). intros v Hv _ Hn. by apply Hv2 in Hv.
Qed.
#[local] Hint Resolve establish_step : hub.

Lemma first_index_seq (p : nat -> bool) n i : first_index p (seq 0 n) = Some i -> p i = true.
Proof.
  intros (l1 & x & l2 & Hl & <- & Hp & _)%first_index_Some.
  assert (Hx : seq 0 n !! length l1 = Some x) by (rewrite Hl, lookup_app_r, Nat.sub_diag by lia; done).
  apply lookup_seq in Hx as [-> _]. exact Hp.
Qed.

Lemma find_instance_spec id i (h : Hub) j : find_instance id i h = Some j -> i <> j.
Proof. intros Hj%first_index_seq. apply andb_true_iff in Hj as [Hj%negb_true_iff%Nat.eqb_neq _]. lia. Qed.

Lemma handleReattach_step i j h role nowMs : i <> j -> from (idle_at j) (handleReattach i j h role nowMs : HubM E R ()).
Proof.
  intros Hne w Hj. unfold handleReattach. rewrite run_bind. cbv beta.
  destruct (teardownSession_spec i nowMs session_loss w) as [Hs1 Hv1]. pose proof (teardown_idle i nowMs session_loss w) as Hi1.
  set (w1 := (teardownSession i nowMs session_loss w).2) in *. etransitivity; [exact Hs1|].
  assert (Hj1 : idle_at j w1) by (intros v; rewrite Hv1, list_lookup_alter_ne by done; apply Hj).
  rewrite run_bind. cbv beta. change (slot_at j w1).2 with w1. set (st := (slot_at j w1).1).
  rewrite run_bind. cbv beta. set (w2 := (on_slot i (take_over_session st) w1).2).
  transitivity w2; [by apply rtc_once, replace_step|].
  assert (Hj2 : idle_at j w2).
  { intros v. change (sessions (w_hub w2)) with (sessions ((w_hub w1) <| _slots ::= alter (take_over_session st) i |>)).
    rewrite (sessions_alter_view _ (fun _ => view (sl_session st))), list_lookup_alter_ne by done. apply Hj1. }
  rewrite run_bind. cbv beta. pose proof (detach_calm (E := E) (R := R) j w2) as Hc3. set (w3 := (detach j w2).2) in *.
  etransitivity; [apply (calm_steps _ _ Hc3)|]. rewrite run_bind. cbv beta.
  match goal with |- Steps w3 (?k (on_slot j ?f w3).2).2 =>
    assert (Hk : steply k) by keeps_walk; transitivity (on_slot j f w3).2; [|apply Hk] end.
  by apply rtc_once, replace_step, (idle_stable j w2).
Qed.

Lemma settle_duplicate_step i h nowMs : steply (settle_duplicate i h nowMs).
Proof.
  unfold settle_duplicate. apply get_then. intros w. destruct (find_instance _ i (w_hub w)) as [j|] eqn:Hj; [|reflexivity].
  apply find_instance_spec in Hj. rewrite run_session. case_bool_decide as Hst.
  - assert (Hi : idle_at j w).
    { intros v Hv. apply session_of_view in Hv as <-. unfold v_active. cbn. by rewrite Hst. }
    clear Hst. generalize (session_of j (w_hub w)). intros d.
    revert w Hi. match goal with |- forall w, _ -> Steps w (?m w).2 => change (from (idle_at j) m) end.
    apply from_calm; [apply idle_stable|keeps_walk|]. intros role.
    apply from_calm; [apply idle_stable|keeps_walk|]. intros role'.
    destruct (_ =? _); [|apply from_stepwise; keeps_walk].
    apply (from_bind _ (fun _ _ => True)); [|intros []; apply from_stepwise; keeps_walk].
    intros w Hi. split; [|done]. by apply handleReattach_step.
  - match goal with |- Steps w (?m w).2 => assert (Hm : steply m) by keeps_walk; apply Hm end.
Qed.
#[local] Hint Resolve settle_duplicate_step : hub.

Lemma make_room_step i nowMs : steply (make_room i nowMs).
Proof. unfold make_room. keeps_walk. Qed.
#[local] Hint Resolve make_room_step : hub.

Lemma handleHello_step i payload nowMs : steply (handleHello i payload nowMs).
Proof. unfold handleHello. keeps_walk. Qed.

Lemma handleAuth_step i payload nowMs : steply (handleAuth i payload nowMs).
Proof. unfold handleAuth, refuse_proof. keeps_walk. Qed.

Lemma emitHubSig_calm i sig : calmly (emitHubSig i sig).
Proof. unfold emitHubSig. keeps_walk. Qed.
#[local] Hint Resolve emitHubSig_calm : hub.
Lemma submitSignature_calm session sig : calmly (submitSignature session sig).
Proof. unfold submitSignature. keeps_walk. Qed.
Lemma takePendingSignJob_calm : calmly takePendingSignJob.
Proof. unfold takePendingSignJob. keeps_walk. Qed.
#[local] Hint Resolve submitSignature_calm takePendingSignJob_calm : hub.
Lemma sign_jobs_calm fuel maxJobs n : calmly (sign_jobs fuel maxJobs n).
Proof. revert n. induction fuel as [|fuel IH]; intros n; cbn [sign_jobs]; keeps_walk. Qed.
Lemma signPendingNow_calm maxJobs : calmly (signPendingNow maxJobs).
Proof. apply sign_jobs_calm. Qed.

(** ** Wishes and small frames *)

Lemma dropSubscription_calm i ch : calmly (dropSubscription i ch).
Proof. unfold dropSubscription. keeps_walk. Qed.
#[local] Hint Resolve dropSubscription_calm : hub.

Lemma handleSubscribe_step i payload : steply (handleSubscribe i payload).
Proof. unfold handleSubscribe. keeps_walk. Qed.
Lemma handleUnsubscribe_step i payload : steply (handleUnsubscribe i payload).
Proof. unfold handleUnsubscribe. keeps_walk. Qed.
Lemma handlePublish_step i payload nowMs : steply (handlePublish i payload nowMs).
Proof. unfold handlePublish. keeps_walk. Qed.
Lemma handleCatalogReady_step i payload : steply (handleCatalogReady i payload).
Proof. unfold handleCatalogReady. keeps_walk. Qed.
Lemma handlePing_step i payload : steply (handlePing i payload).
Proof. unfold handlePing. keeps_walk. Qed.
Lemma handleClock_step i payload : steply (handleClock i payload).
Proof. unfold handleClock. keeps_walk. Qed.
Lemma handleGoodbye_step i nowMs : steply (handleGoodbye i nowMs).
Proof. apply teardownSession_step. Qed.
Lemma handleProbeRequest_step i : steply (handleProbeRequest i).
Proof. unfold handleProbeRequest. keeps_walk. Qed.
Lemma handleProbeReportFrame_step i payload : steply (handleProbeReportFrame i payload).
Proof. unfold handleProbeReportFrame. keeps_walk. Qed.

(** ** Pairing *)

Lemma on_pairing_calm f : calmly (on_pairing f).
Proof. by apply modify_calm. Qed.
Lemma pair_grant_frame_calm token role : calmly (pair_grant_frame token role).
Proof. unfold pair_grant_frame. keeps_walk. Qed.
#[local] Hint Resolve on_pairing_calm pair_grant_frame_calm : hub.

Lemma issuePairGrant_step i id role mode nowMs : steply (issuePairGrant i id role mode nowMs).
Proof. unfold issuePairGrant. keeps_walk. Qed.
#[local] Hint Resolve issuePairGrant_step : hub.

Lemma window_closed_event_calm nowMs : calmly (window_closed_event nowMs).
Proof. apply emitPairingEvent_calm. Qed.
#[local] Hint Resolve window_closed_event_calm : hub.

Lemma hold_knock_step i id asked nowMs : steply (hold_knock i id asked nowMs).
Proof. unfold hold_knock. keeps_walk. Qed.
#[local] Hint Resolve hold_knock_step : hub.

Lemma handleKnock_step i m nowMs : steply (handleKnock i m nowMs).
Proof. unfold handleKnock. keeps_walk. Qed.
#[local] Hint Resolve handleKnock_step : hub.

Lemma handlePairReq_step i payload nowMs : steply (HubPairing.handlePairReq i payload nowMs).
Proof. unfold HubPairing.handlePairReq. keeps_walk. Qed.

Lemma openPresenceWindow_calm : calmly HubPairing.openPresenceWindow.
Proof. unfold HubPairing.openPresenceWindow. keeps_walk. Qed.
Lemma closePresenceWindow_calm : calmly HubPairing.closePresenceWindow.
Proof. unfold HubPairing.closePresenceWindow. keeps_walk. Qed.
Lemma pumpPairing_calm nowMs : calmly (pumpPairing nowMs).
Proof. unfold pumpPairing. keeps_walk. Qed.
#[local] Hint Resolve closePresenceWindow_calm : hub.

Lemma make_ledger_room_calm id nowMs : calmly (make_ledger_room id nowMs).
Proof. unfold make_ledger_room. keeps_walk. Qed.
#[local] Hint Resolve make_ledger_room_calm : hub.

Lemma approvePendingConfigure_step : steply approvePendingConfigure.
Proof. unfold approvePendingConfigure. keeps_walk. Qed.
Lemma demoteAllToWatch_step : steply HubPairing.demoteAllToWatch.
Proof. unfold HubPairing.demoteAllToWatch. keeps_walk. Qed.
End Walk.

#[export] Hint Extern 0 (keeps Steps (mbind _ get)) => apply give_up_step; intros ?; keeps_walk : hub.
#[export] Hint Resolve dropSubscription_calm pumpDeadman_step pumpIdleReap_step pumpReadyTimeout_step pumpStatePacing_step railHeld_calm
  pumpQuietRelease_step attachTransport_step detachTransport_step setCongestionLevel_step advertisedHorizonMs_calm
  onCable_calm handleHello_step handleAuth_step submitSignature_calm takePendingSignJob_calm signPendingNow_calm
  handleSubscribe_step handleUnsubscribe_step handlePublish_step handleCatalogReady_step handlePing_step handleClock_step
  handleGoodbye_step handleProbeRequest_step handleProbeReportFrame_step on_pairing_calm issuePairGrant_step
  handlePairReq_step openPresenceWindow_calm closePresenceWindow_calm pumpPairing_calm approvePendingConfigure_step
  demoteAllToWatch_step : hub.
