(* ===== verification/HubWalkMotion.v ===== *)
(** * HubWalkMotion: intents and streams are sequences of steps

    Here lie the gates: what a session must be, own and have been granted before the delegate is asked to
    act for it. *)

From Stdlib Require Import String.
From S2P Require Import Prelude ByteIO SerialArith Tables Crypto RateLimiter Safety Shedding Frame Estop MsgNack StateChannel.
From S2P Require Import Subscription Queues StreamBundle MsgIntent MsgTrust Pairing Catalog Registry HubSession HubState.
From S2P Require Import StateM HubWorld HubCore HubSafety HubPump HubHello HubWish HubPairing HubIntent HubStream HubUpdate.
From S2P Require Import HubSteps HubWalk.
#[local] Open Scope Z_scope.

Section Walk.
Context {E R : Type} `{Env E} `{FairRandom R} `{ICrypto}.
Abbreviation calmly := (keeps (Calm (E := E) (R := R))) (only parsing).
Abbreviation steply := (keeps (Steps (E := E) (R := R))) (only parsing).
Abbreviation W := (World E R) (only parsing).

(** ** The pieces *)

Lemma refuseIntent_step i m code detail nowMs : steply (refuseIntent i m code detail nowMs).
Proof. unfold refuseIntent. keeps_walk. Qed.
Lemma echo_step i m applied cap nowMs : steply (echo i m applied cap nowMs).
Proof. unfold echo. keeps_walk. Qed.
Lemma detail_of_calm ch code : calmly (detail_of ch code).
Proof. exact (call_calm (intentNackDetail ch code) eq_refl). Qed.
#[local] Hint Resolve refuseIntent_step echo_step detail_of_calm : hub.

Lemma release_intent_step i m nowMs : steply (release_intent i m nowMs).
Proof. unfold release_intent. keeps_walk. Qed.
Lemma estop_intent_step i m nowMs : steply (estop_intent i m nowMs).
Proof. unfold estop_intent. keeps_walk. Qed.
Lemma handleTrialOpIntent_step i m nowMs : steply (handleTrialOpIntent i m nowMs).
Proof. unfold handleTrialOpIntent. keeps_walk. Qed.
#[local] Hint Resolve release_intent_step estop_intent_step handleTrialOpIntent_step : hub.

Lemma give_back_step i source : steply (give_back i source).
Proof. unfold give_back. keeps_walk. Qed.
#[local] Hint Resolve give_back_step : hub.

Lemma baselines_calm me ch fields opened : calmly (baselines me ch fields opened).
Proof. revert opened. induction fields as [|[key v] fields IH]; intros opened; cbn [baselines]; keeps_walk. Qed.
#[local] Hint Resolve baselines_calm : hub.
Lemma trial_openings_calm me m mapped : calmly (trial_openings me m mapped).
Proof. unfold trial_openings. keeps_walk. Qed.
#[local] Hint Resolve trial_openings_calm : hub.

Lemma jog_refused_calm source : calmly (jog_refused source).
Proof. unfold jog_refused. keeps_walk. Qed.
#[local] Hint Resolve jog_refused_calm : hub.

Lemma open_trials_core key opened (h : Hub) : core (open_trials_of key opened h) = core h.
Proof.
  unfold open_trials_of. revert h. induction opened as [|o opened IH]; intros h; cbn [foldl]; [done|].
  rewrite IH. destruct (_ =? _); [|done]. unfold open_trial. by case_match.
Qed.

Lemma end_trials_core me ch keys (st : Hub * list IntentValueField) : core (foldl (end_trial_of me ch) st keys).1 = core st.1.
Proof.
  revert st. induction keys as [|k keys IH]; intros [h ended]; cbn [foldl]; [done|]. rewrite IH.
  unfold end_trial_of. by repeat case_match.
Qed.

Lemma settle_trials_calm me ch trial opened applied : calmly (settle_trials me ch trial opened applied).
Proof.
  unfold settle_trials. destruct trial.
  - apply modify_calm. intros h. revert h. induction applied as [|f applied IH]; intros h; cbn [foldl]; [done|].
    by rewrite IH, open_trials_core.
  - apply keeps_bind; [apply _|keeps_walk|]. intros ended. apply keeps_bind; [apply _| |intros []; keeps_walk].
    apply modify_calm. intros h. apply end_trials_core.
Qed.
#[local] Hint Resolve settle_trials_calm : hub.

(** ** The admin operations *)

Lemma handleAdminIntent_step i m nowMs : steply (handleAdminIntent i m nowMs).
Proof. unfold handleAdminIntent, evict_session, pair_approve, pair_deny, revoke_device. keeps_walk. Qed.
#[local] Hint Resolve handleAdminIntent_step : hub.

(** ** Sessions that may act *)

Definition awake (i : nat) (w : W) : Prop := v_active (view (session_of i (w_hub w))) = true.

Lemma awake_lookup i (w : W) : awake i w -> sessions (w_hub w) !! i = Some (view (session_of i (w_hub w))).
Proof. unfold awake, session_of. rewrite sessions_lookup. by destruct (_slots (w_hub w) !! i). Qed.

Lemma session_calm i (w w' : W) : Calm w w' -> view (session_of i (w_hub w')) = view (session_of i (w_hub w)).
Proof.
  intros Hc. apply calm_sessions in Hc.
  assert (Heq : (fun s => view (sl_session s)) <$> _slots (w_hub w') !! i = (fun s => view (sl_session s)) <$> _slots (w_hub w) !! i)
    by (by rewrite <- !sessions_lookup, Hc).
  unfold session_of. destruct (_slots (w_hub w) !! i) as [s|], (_slots (w_hub w') !! i) as [s'|]; try done.
  exact (Some_inj _ _ Heq).
Qed.

(** An intent that has passed the gate: its session is up and ready, its channel takes intents, its role reaches. *)
Definition cleared (i : nat) (m : IntentMsg) (w : W) : Prop :=
  awake i w /\ hs_ready (session_of i (w_hub w)) = true /\
  exists e, Catalog.find (it_channel_id m) (w_catalog w) = Some e /\ ce_cls e = ChannelClass.INTENT
    /\ requiredAccessFor e m (w_catalog w) <= hs_role (session_of i (w_hub w)).

(** ... and one whose session also owns what it moves, and is not held by the pause. *)
Definition bound (i : nat) (m : IntentMsg) (w : W) : Prop :=
  cleared i m w /\ owns_source (hs_session_id (session_of i (w_hub w))) (it_channel_id m) (w_hub w) (w_trace w)
  /\ not_held (it_channel_id m) (it_value m) (w_hub w) (w_trace w).

Lemma session_calm_fields i (w w' : W) : Calm w w' ->
  hs_session_id (session_of i (w_hub w')) = hs_session_id (session_of i (w_hub w))
  /\ hs_role (session_of i (w_hub w')) = hs_role (session_of i (w_hub w))
  /\ hs_ready (session_of i (w_hub w')) = hs_ready (session_of i (w_hub w)).
Proof. intros Hv%(session_calm i). injection Hv. auto. Qed.

Lemma cleared_stable i m : stable (cleared i m).
Proof.
  intros w w' Hc (Ha & Hr & Hg). destruct (session_calm_fields i _ _ Hc) as (_ & H2' & H3'). unfold cleared, awake.
  by rewrite (session_calm i _ _ Hc), H2', H3', (calm_catalog _ _ Hc).
Qed.

Lemma owns_stable id ch : stable (fun w : W => owns_source id ch (w_hub w) (w_trace w)).
Proof. intros w w' Hc. unfold owns_source. by rewrite (calm_mapped _ _ Hc), (calm_owners _ _ Hc). Qed.

Lemma calm_word (w w' : W) : Calm w w' -> _safetyWord (w_hub w') = _safetyWord (w_hub w).
Proof. intros Hc. exact (f_equal c_word (calm_core _ _ Hc)). Qed.

Lemma not_held_stable ch v : stable (fun w : W => not_held ch v (w_hub w) (w_trace w)).
Proof.
  intros w w' Hc. unfold not_held, pauseLatched. by rewrite (calm_mapped _ _ Hc), (calm_admission _ _ Hc), (calm_word _ _ Hc).
Qed.

Lemma bound_stable i m : stable (bound i m).
Proof.
  intros w w' Hc (Hcl & Ho & Hn). destruct (session_calm_fields i _ _ Hc) as (H1' & _). split_and!.
  - by eapply cleared_stable.
  - rewrite H1'. by eapply owns_stable.
  - by eapply not_held_stable.
Qed.

Lemma bound_entitled i m (w : W) : bound i m w ->
  may_apply i (it_channel_id m) (it_value m) (hs_role (session_of i (w_hub w))) (w_hub w) (w_catalog w) (w_trace w).
Proof.
  intros ((Ha & Hr & e & He & Hcls & Hacc) & Ho & Hn). exists (view (session_of i (w_hub w))), e, m.
  split_and!; try done. by apply awake_lookup.
Qed.

Lemma apply_intent_from i m trial opened taken nowMs :
  from (bound i m) (apply_intent i m trial opened taken nowMs : HubM E R ()).
Proof.
  intros w Hb. pose proof (bound_entitled i m w Hb) as He. unfold apply_intent. rewrite run_session. cbv zeta.
  rewrite run_bind. cbv beta.
  match goal with |- Steps w (?k ?x).2 => transitivity x; [|by_steps] end.
  apply rtc_once. destruct trial.
  - apply (step_entitled w (applyTrialIntent (it_channel_id m) (it_value m) (hs_role (session_of i (w_hub w))))). by exists i.
  - apply (step_entitled w (applyIntent (it_channel_id m) (it_value m) (hs_role (session_of i (w_hub w))))). by exists i.
Qed.

Lemma run_catalog {A} (k : Catalog -> HubM E R A) (w : W) : mbind k the_catalog w = k (w_catalog w) w.
Proof. done. Qed.

Lemma run_call {A} (c : Call) (k : Answer c -> HubM E R A) (w : W) : mbind k (call c) w = k (call c w).1 (call c w).2.
Proof. apply run_bind. Qed.

Lemma call_hub c (w : W) : w_hub (call c w).2 = w_hub w /\ w_catalog (call c w).2 = w_catalog w
  /\ w_trace (call c w).2 = Did c (call c w).1 :: w_trace w.
Proof. unfold call. by destruct (answer c (w_env w)). Qed.

Lemma cleared_same i m (w w' : W) : w_hub w' = w_hub w -> w_catalog w' = w_catalog w -> cleared i m w -> cleared i m w'.
Proof. unfold cleared, awake. by intros -> ->. Qed.

(** What is known once the delegate has said which source the channel moves. *)
Definition routed (i : nat) (m : IntentMsg) (mapped : option Z) (w : W) : Prop :=
  cleared i m w /\ mapped_to (it_channel_id m) (w_trace w) = Some mapped.

Lemma routed_stable i m mapped : stable (routed i m mapped).
Proof. intros w w' Hc [Hcl Hm]. split; [by eapply cleared_stable|]. by rewrite (calm_mapped _ _ Hc). Qed.

(** Past the pause: the latch is off, or the delegate admits the motion. *)
Lemma pause_refuses_spec i m source nowMs (w : W) :
  routed i m (Some source) w ->
  let r := pause_refuses i m nowMs w in
  Steps w r.2 /\ (r.1 = false -> routed i m (Some source) r.2 /\ not_held (it_channel_id m) (it_value m) (w_hub r.2) (w_trace r.2)).
Proof.
  intros Hr. cbn zeta. unfold pause_refuses. rewrite run_get. destruct (pauseLatched (w_hub w)) eqn:Hp; cbn [negb].
  - set (c := admitsUnderPause (it_channel_id m) (it_value m) (has_bit (_safetyModes (w_hub w)) safety_mode_bits.OVERRIDE)).
    rewrite (run_call c). destruct (call_hub c w) as (Hh & Hcat & Ht).
    assert (Hs : Step w (call c w).2) by (by apply step_call).
    destruct (call c w) as [b w1]. cbn [fst snd] in *. destruct b.
    + split; [by apply rtc_once|]. intros _. destruct Hr as [Hcl Hm]. split.
      * split; [by eapply cleared_same|]. cbn [mret StateM_ret snd]. rewrite Ht. exact Hm.
      * unfold not_held. cbn [mret StateM_ret snd]. rewrite Ht. cbn [mapped_to latest_admission c]. rewrite Hm. by right.
    + split.
      * match goal with |- Steps w (?k w1).2 => assert (Hk : steply k) by keeps_walk end.
        etransitivity; [by apply rtc_once|apply Hk].
      * rewrite !run_bind. done.
  - split; [reflexivity|]. intros _. split; [done|]. unfold not_held. cbn [mret StateM_ret snd].
    destruct Hr as [_ ->]. by left.
Qed.

(** Taking a source: the session that does not fail is its owner. *)
Lemma acquire_source_spec i source takeover nowMs (w : W) :
  awake i w -> hs_ready (session_of i (w_hub w)) = true ->
  let r := acquire_source i source takeover nowMs w in
  exists w1, Step w w1 /\ Calm w1 r.2
    /\ sessions (w_hub w1) = sessions (w_hub w) /\ _safetyWord (w_hub w1) = _safetyWord (w_hub w)
    /\ w_catalog w1 = w_catalog w /\ w_trace w1 = w_trace w
    /\ (r.1 <> None -> ownerOf source (_ownership (w_hub w1)) = hs_session_id (session_of i (w_hub w))).
Proof.
  intros Ha Hr. cbn zeta. unfold acquire_source. rewrite run_session, run_get.
  set (s := session_of i (w_hub w)) in *. cbn zeta.
  pose proof (acquire_owns source (hs_session_id s) (hs_role s) takeover (_ownership (w_hub w))) as Ho.
  assert (Hs : Step w (modify (fun h => h <| _ownership := fst (acquire source (hs_session_id s) (hs_role s) takeover (_ownership (w_hub w))) |>) w).2).
  { eapply (step_acquire w _ i (view s) source takeover); [by apply awake_lookup|done|done|reflexivity]. }
  destruct (acquire source _ _ takeover _) as [t r]. cbn [fst snd] in *. rewrite run_bind.
  exists (modify (fun h => h <| _ownership := t |>) w).2. split; [exact Hs|]. split.
  - match goal with |- Calm ?w1 (?k ?w1).2 => assert (Hk : calmly k) by keeps_walk; apply Hk end.
  - split_and!; [done..|]. intros Hn. apply Ho. by intros ->.
Qed.

Lemma acquired_bound i m source takeover nowMs (w : W) :
  routed i m (Some source) w /\ not_held (it_channel_id m) (it_value m) (w_hub w) (w_trace w) ->
  let r := acquire_source i source takeover nowMs w in Steps w r.2 /\ (r.1 <> None -> bound i m r.2).
Proof.
  intros [[Hcl Hm] Hn]. cbn zeta. pose proof Hcl as (Ha & Hr & _).
  destruct (acquire_source_spec i source takeover nowMs w Ha Hr) as (w1 & Hs & Hc & Hv & Hw & Hcat & Ht & Ho).
  split; [etransitivity; [by apply rtc_once|apply (calm_steps _ _ Hc)]|]. intros Hsome. eapply bound_stable; [exact Hc|].
  assert (Hview : view (session_of i (w_hub w1)) = view (session_of i (w_hub w))).
  { pose proof (awake_lookup i w Ha) as Hl. rewrite <- Hv in Hl. by apply session_of_view in Hl. }
  injection Hview as _ Hid Hrole Hready _. split_and!.
  - destruct Hcl as (_ & _ & Hg). unfold cleared, awake. rewrite Hready, Hrole, Hcat. split_and!; [|done..].
    pose proof (session_of_view i (w_hub w1) (view (session_of i (w_hub w)))) as Hx. rewrite Hx; [exact Ha|].
    rewrite Hv. by apply awake_lookup.
  - unfold owns_source. rewrite Ht, Hm, Hid. by apply Ho.
  - unfold not_held, pauseLatched in *. by rewrite Ht, Hw.
Qed.

Lemma perform_intent_from i m nowMs : from (cleared i m) (perform_intent i m nowMs : HubM E R ()).
Proof.
  intros w Hcl. unfold perform_intent. rewrite run_session. cbv zeta. generalize (hs_session_id (session_of i (w_hub w))). intros me.
  set (c := sourceForChannel (it_channel_id m)). destruct (call_hub c w) as (Hh & Hcat & Ht). rewrite (run_call c). cbv beta.
  assert (Hs : Step w (call c w).2) by (by apply step_call). destruct (call c w) as [mapped w1]. cbn [fst snd] in *.
  etransitivity; [by apply rtc_once|]. cbn [Answer c] in mapped.
  assert (Hr : routed i m mapped w1).
  { split; [by eapply cleared_same|]. rewrite Ht. cbn [mapped_to c]. by rewrite Z.eqb_refl. }
  clear Hs Hh Hcat Ht Hcl w. revert w1 Hr.
  match goal with |- forall w, _ -> Steps w (?k w).2 => change (from (routed i m mapped) k) end.
  apply from_calm; [apply routed_stable|keeps_walk|]. intros ts. destruct (existsb _ _); [apply from_stepwise; keeps_walk|].
  apply from_calm; [apply routed_stable|keeps_walk|]. intros [opened|detail]; [|apply from_stepwise; keeps_walk].
  destruct mapped as [source|].
  - apply (from_bind _ (fun r w => r = false -> routed i m (Some source) w /\ not_held (it_channel_id m) (it_value m) (w_hub w) (w_trace w))).
    { intros w Hr. by apply pause_refuses_spec. }
    intros [|]; [apply from_stepwise; keeps_walk|]. eapply from_imp; [intros w Hw; exact (Hw eq_refl)|].
    apply from_calm; [intros w w' Hc [Hr Hn]; split; [by eapply routed_stable|by eapply not_held_stable]|keeps_walk|].
    intros [|]; [apply from_stepwise; keeps_walk|].
    apply (from_bind _ (fun r w => r <> None -> bound i m w)); [intros w Hw; by apply acquired_bound|].
    intros [changed|]; [|apply from_stepwise; keeps_walk]. eapply from_imp; [intros w Hw; by apply Hw|].
    apply from_calm; [apply bound_stable|keeps_walk|]. intros us.
    apply from_calm; [apply bound_stable|keeps_walk|]. intros []. apply apply_intent_from.
  - eapply from_imp; [|apply apply_intent_from]. intros w [Hcl Hm]. split_and!; [done|..].
    + unfold owns_source. by rewrite Hm.
    + unfold not_held. by rewrite Hm.
Qed.

Lemma admitted_intent_from i m nowMs : from (cleared i m) (admitted_intent i m nowMs : HubM E R ()).
Proof.
  intros w Hcl. unfold admitted_intent. rewrite run_session, run_get. cbv zeta.
  repeat (case_match; [by_steps|]).
  repeat case_match; first [by apply perform_intent_from|by_steps].
Qed.

Lemma intent_refusal_none role cfgGen m c :
  intent_refusal role cfgGen m c = None ->
  exists e, Catalog.find (it_channel_id m) c = Some e /\ ce_cls e = ChannelClass.INTENT /\ requiredAccessFor e m c <= role.
Proof.
  unfold intent_refusal. destruct (Catalog.find _ c) as [e|]; [|done]. destruct (Z.eqb_spec (ce_cls e) ChannelClass.INTENT) as [He|]; [|done].
  cbn [negb]. destruct (Z.ltb_spec role (requiredAccessFor e m c)); [by case_match|]. intros _. by exists e.
Qed.

Lemma awake_stable i : stable (awake i).
Proof. intros w w' Hc. unfold awake. by rewrite (session_calm i _ _ Hc). Qed.

Lemma intent_gate_from i m nowMs : from (awake i) (intent_gate i m nowMs : HubM E R ()).
Proof.
  intros w Ha. unfold intent_gate. rewrite run_session. destruct (allow nowMs _) as [limiter allowed]. rewrite run_bind. cbv beta.
  set (s := session_of i (w_hub w)). set (f := fun s => s <| hs_intentLimiter := limiter |>).
  assert (Hc : Calm w (on_session i f w).2) by (by apply on_session_calm).
  assert (Hv : view s = view (session_of i (w_hub (on_session i f w).2))) by (by rewrite (session_calm i _ _ Hc)).
  assert (Ha1 : awake i (on_session i f w).2) by (by eapply awake_stable).
  set (w1 := (on_session i f w).2) in *. etransitivity; [apply (calm_steps _ _ Hc)|].
  cbv zeta. destruct allowed; cbn [negb]; [|by_steps].
  destruct (hs_ready s) eqn:Hr; cbn [negb]; [|by_steps].
  case_match; [by_steps|].
  change (mbind ?k the_catalog w1) with (k (w_catalog w1) w1). cbv beta. rewrite run_gets.
  destruct (intent_refusal (hs_role s) _ m _) eqn:Hi;
    [by_steps|].
  apply admitted_intent_from.
  pose proof (f_equal v_role Hv : hs_role s = hs_role (session_of i (w_hub w1))) as Hrole.
  pose proof (f_equal v_ready Hv : hs_ready s = hs_ready (session_of i (w_hub w1))) as Hready. apply intent_refusal_none in Hi.
  unfold cleared. rewrite <- Hready, <- Hrole. by split_and!.
Qed.

Lemma handleIntent_from i payload nowMs : from (awake i) (handleIntent i payload nowMs : HubM E R ()).
Proof.
  unfold handleIntent. apply from_calm; [apply awake_stable|keeps_walk|]. intros s.
  apply from_calm; [apply awake_stable|keeps_walk|]. intros [].
  apply (from_bind _ (fun _ _ => True)); [|intros []; apply from_stepwise; keeps_walk].
  intros w Ha. split; [|done]. destruct (decodeIntent payload) as [m|]; [by apply intent_gate_from|].
  by_steps.
Qed.

(** ** Streams *)

Lemma view_grant (f : PublishGrant -> PublishGrant) g (s : HubSession) :
  (forall pg, pg_used (f pg) = pg_used pg /\ pg_channel_id (f pg) = pg_channel_id pg) ->
  view (s <| hs_publishGrants ::= alter f g |>) = view s.
Proof.
  intros Hf. unfold view. cbn. f_equal. generalize (hs_publishGrants s). intros l. revert g.
  induction l as [|pg l IH]; intros [|g]; cbn; [done..| |by rewrite IH]. destruct (Hf pg) as [-> ->]. done.
Qed.

Lemma on_grant_calm i g f :
  (forall pg, pg_used (f pg) = pg_used pg /\ pg_channel_id (f pg) = pg_channel_id pg) ->
  calmly (on_session i (fun s => s <| hs_publishGrants ::= alter f g |>)).
Proof. intros Hf. apply on_session_calm. intros s. by apply view_grant. Qed.
#[local] Hint Extern 1 (keeps Calm (on_session _ _)) => apply on_grant_calm; done : hub.

Lemma drop_bundle_calm i : calmly (drop_bundle i).
Proof. by apply on_session_calm. Qed.
#[local] Hint Resolve drop_bundle_calm : hub.

Lemma sendStreamOverageNack_step i g ch nowMs : steply (sendStreamOverageNack i g ch nowMs).
Proof. unfold sendStreamOverageNack. keeps_walk. Qed.
Lemma sendSourceConflictNack_step i source ch nowMs : steply (sendSourceConflictNack i source ch nowMs).
Proof. unfold sendSourceConflictNack. keeps_walk. Qed.
#[local] Hint Resolve sendStreamOverageNack_step sendSourceConflictNack_step : hub.

(** A session that may send on the channel. *)
Definition streaming (i : nat) (ch : Z) (w : W) : Prop :=
  awake i w /\ hs_ready (session_of i (w_hub w)) = true /\ In (true, ch) (v_publishing (view (session_of i (w_hub w)))) /\
  exists e, Catalog.find ch (w_catalog w) = Some e /\ ce_cls e = ChannelClass.STREAM /\ ce_dir e = c2h.

Lemma streaming_stable i ch : stable (streaming i ch).
Proof.
  intros w w' Hc (Ha & Hr & Hp & Hg). destruct (session_calm_fields i _ _ Hc) as (_ & _ & H3'). unfold streaming, awake.
  by rewrite (session_calm i _ _ Hc), H3', (calm_catalog _ _ Hc).
Qed.

Lemma grant_listed ch (s : HubSession) g : publishGrantFor ch s = Some g -> In (true, ch) (v_publishing (view s)).
Proof.
  intros (l1 & pg & l2 & Hl & _ & [Hu Hc%Z.eqb_eq]%andb_true_iff & _)%first_index_Some. cbn. rewrite Hl, map_app.
  apply in_or_app. right. left. by rewrite Hu, Hc.
Qed.

(** Counting a bundle and handing it over. *)
Lemma accept_bundle_from i ch b :
  bv_n b <> 0%nat ->
  from (fun w => streaming i ch w /\ owns_source (hs_session_id (session_of i (w_hub w))) ch (w_hub w) (w_trace w)
                 /\ match mapped_to ch (w_trace w) with Some (Some _) => pauseLatched (w_hub w) = false | _ => True end)
    (accept_bundle i ch b : HubM E R ()).
Proof.
  intros Hn w (Hst & Ho & Hp). unfold accept_bundle. rewrite run_bind. cbv beta.
  assert (Hc : Calm w (on_session i count_accepted w).2) by (by apply on_session_calm).
  set (w1 := (on_session i count_accepted w).2) in *. etransitivity; [apply (calm_steps _ _ Hc)|].
  rewrite run_session. apply rtc_once.
  apply (step_entitled w1 (onStreamBundle ch (hs_session_id (session_of i (w_hub w1))) b)). exists i.
  destruct (streaming_stable i ch _ _ Hc Hst) as (Ha & Hr & Hin & e & He & Hcls & Hd).
  exists (view (session_of i (w_hub w1))), e. destruct (session_calm_fields i _ _ Hc) as (Hid & _).
  split; [by apply awake_lookup|]. repeat (split; [done|]).
  split; [eapply owns_stable; [exact Hc|]; change (owns_source (hs_session_id (session_of i (w_hub w1))) ch (w_hub w) (w_trace w)); by rewrite Hid|].
  unfold pauseLatched. by rewrite (calm_mapped _ _ Hc), (calm_word _ _ Hc).
Qed.

Lemma deliver_bundle_from i ch b horizon nowMs :
  bv_n b <> 0%nat -> from (streaming i ch) (deliver_bundle i ch b horizon nowMs : HubM E R ()).
Proof.
  intros Hn w Hst. unfold deliver_bundle. set (c := sourceForChannel ch). rewrite (run_call c).
  destruct (call_hub c w) as (Hh & Hcat & Ht). assert (Hs : Step w (call c w).2) by (by apply step_call).
  destruct (call c w) as [mapped w1]. cbn [fst snd] in *. etransitivity; [by apply rtc_once|]. cbn [Answer c] in mapped.
  assert (Hst1 : streaming i ch w1) by (unfold streaming, awake in *; by rewrite Hh, Hcat).
  assert (Hm : mapped_to ch (w_trace w1) = Some mapped) by (rewrite Ht; cbn [mapped_to c]; by rewrite Z.eqb_refl).
  clear Hs Hh Hcat Ht Hst w. destruct mapped as [source|].
  2: { apply accept_bundle_from; [done|]. unfold owns_source. by rewrite Hm. }
  rewrite run_get. destruct (pauseLatched (w_hub w1)) eqn:Hp; [by_steps|]. rewrite run_session. cbv zeta.
  set (s := session_of i (w_hub w1)). pose proof Hst1 as (Ha & Hr & _).
  pose proof (acquire_owns source (hs_session_id s) (hs_role s) false (_ownership (w_hub w1))) as Ho.
  assert (Hs : Step w1 (modify (fun h => h <| _ownership := fst (acquire source (hs_session_id s) (hs_role s) false (_ownership (w_hub w1))) |>) w1).2).
  { eapply (step_acquire w1 _ i (view s) source false); [by apply awake_lookup|done|done|reflexivity]. }
  destruct (acquire source _ _ false _) as [t r]. cbn [fst snd] in *. rewrite run_bind. cbv beta.
  set (w2 := (modify (fun h => h <| _ownership := t |>) w1).2) in *. etransitivity; [by apply rtc_once|].
  assert (Hst2 : streaming i ch w2) by exact Hst1.
  set (P := fun w : W => streaming i ch w /\ owns_source (hs_session_id (session_of i (w_hub w))) ch (w_hub w) (w_trace w)
                 /\ match mapped_to ch (w_trace w) with Some (Some _) => pauseLatched (w_hub w) = false | _ => True end).
  assert (HP : r <> Conflict -> P w2).
  { intros Hc. split; [done|]. unfold owns_source. change (w_trace w2) with (w_trace w1). rewrite Hm. split; [by apply Ho|done]. }
  assert (HPst : stable P).
  { intros w w' Hc (H1' & H2' & H3'). destruct (session_calm_fields i _ _ Hc) as (Hid & _).
    split; [by eapply streaming_stable|]. rewrite Hid. split; [by eapply owns_stable|].
    unfold pauseLatched. by rewrite (calm_mapped _ _ Hc), (calm_word _ _ Hc). }
  clearbody w2. destruct (decide (r = Conflict)) as [->|Hc]; [by_steps|].
  assert (Hrest : from P (when (bool_decide (r = Acquired))
      (call (onSourceOwnership source (hs_session_id s) acquired_reason) ;; publishControlOwnerStateIfPresent ;;
       on_slot i (forget_conflict source)) ;;
     modify (markSourceActive source nowMs (sampleTimeUs b (bv_n b - 1)) (Z.max limits.stream_quiet_release_ms horizon)) ;;
     accept_bundle i ch b)).
  { apply from_calm; [done|keeps_walk|]. intros []. apply from_calm; [done|keeps_walk|]. intros []. by apply accept_bundle_from. }
  specialize (Hrest w2 (HP Hc)). by destruct r.
Qed.

Lemma clampLead_n b us cap : bv_n (fst (clampLead b us cap)) = bv_n b.
Proof. unfold clampLead. by repeat case_match. Qed.

Lemma handleStream_from i ch payload nowMs : from (awake i) (handleStream i ch payload nowMs : HubM E R ()).
Proof.
  intros w Ha. unfold handleStream. rewrite run_session. rewrite run_catalog.
  destruct (hs_ready _) eqn:Hr; cbn [negb]; [|by_steps].
  destruct (publishGrantFor ch _) as [g|] eqn:Hg; [|by_steps]. destruct (Catalog.find ch (w_catalog w)) as [e|] eqn:He; [|by_steps].
  destruct (Z.eqb_spec (ce_cls e) ChannelClass.STREAM) as [Hcls|]; [|by_steps].
  case_bool_decide as Hd; [|by_steps]. cbn [negb orb]. cbv zeta.
  assert (Hst : streaming i ch w).
  { split_and!; [done..|by eapply grant_listed|by exists e]. }
  generalize (session_of i (w_hub w)). intros s. clear Hr Hg He. set (c := w_catalog w). clearbody c. clear Ha. revert w Hst.
  match goal with |- forall w, _ -> Steps w (?k w).2 => change (from (streaming i ch) k) end.
  apply from_calm; [apply streaming_stable|keeps_walk|]. intros horizon.
  destruct (parse_bundle _ _ _ _) as [b|]; [|apply from_stepwise; keeps_walk].
  destruct (Nat.eqb_spec (bv_n b) 0) as [|Hn]; [apply from_stepwise; keeps_walk|].
  apply from_calm; [apply streaming_stable|keeps_walk|]. intros us.
  pose proof (clampLead_n b us (u32 ((if isSegmentClass e then horizon_of horizon else limits.max_future_schedule_ms) * 1000))) as Hb.
  destruct (clampLead b us _) as [b' clamped]. cbn [fst] in Hb.
  destruct (_ !! g) as [pg|]; [|apply from_stepwise; keeps_walk]. destruct (allowN _ _ _) as [limiter allowed].
  apply from_calm; [apply streaming_stable|by apply on_grant_calm|]. intros [].
  destruct allowed; cbn [negb]; [|apply from_stepwise; keeps_walk]. apply deliver_bundle_from. lia.
Qed.

(** ** Blobs *)

Lemma resolveBlobBytes_calm i id : calmly (resolveBlobBytes i id).
Proof. unfold resolveBlobBytes. keeps_walk. Qed.
#[local] Hint Resolve resolveBlobBytes_calm : hub.
Lemma handleBlobReq_step i payload : steply (handleBlobReq i payload).
Proof. unfold handleBlobReq. keeps_walk. Qed.
Lemma refuse_blob_calm i n : calmly (refuse_blob i n).
Proof. unfold refuse_blob. keeps_walk. Qed.
#[local] Hint Resolve refuse_blob_calm : hub.
Lemma send_chunk_calm i t id bs cc : calmly (send_chunk i t id bs cc).
Proof. unfold send_chunk. keeps_walk. Qed.
#[local] Hint Resolve send_chunk_calm : hub.
Lemma send_chunks_calm n i t id bs cc b : calmly (send_chunks n i t id bs cc b).
Proof. revert b. induction n as [|n IH]; intros b; cbn [send_chunks]; keeps_walk. Qed.
Lemma hold_blob_calm i nowMs : calmly (hold_blob i nowMs).
Proof. unfold hold_blob. keeps_walk. Qed.
#[local] Hint Resolve send_chunks_calm hold_blob_calm : hub.
Lemma pumpBlobTransfer_step i nowMs : steply (pumpBlobTransfer i nowMs).
Proof. unfold pumpBlobTransfer. keeps_walk. Qed.
Lemma handleBlobDone_step i payload : steply (handleBlobDone i payload).
Proof. unfold handleBlobDone. keeps_walk. Qed.
End Walk.

#[export] Hint Resolve handleBlobReq_step pumpBlobTransfer_step handleBlobDone_step : hub.
