(* ===== verification/HubWalkAll.v ===== *)
(** * HubWalkAll: frames, ticks and the application's calls are sequences of steps

    [ApiCall] is what the application may ask of a hub; a run of calls is the unit the theorems about the
    whole hub speak of. *)

From S2P Require Import Prelude ByteIO SerialArith Tables Crypto Safety Shedding Frame Estop MsgNack StateChannel.
From S2P Require Import Subscription Queues StreamBundle MsgIntent MsgTrust MsgHello MsgWelcome Pairing Catalog Registry CatalogCodec.
From S2P Require Import HubSession HubState StateM HubWorld HubCore HubSafety HubPump HubHello HubWish HubPairing HubIntent.
From S2P Require Import HubStream HubUpdate HubCatalog HubSteps HubWalk HubWalkMotion.
#[local] Open Scope Z_scope.

(** A call of the application, or a change it makes to the catalog the hub was built on.  The safety channel is the hub's own: [publishState] is for the others. *)
Inductive ApiCall :=
  | api_update (fuel : nat) (now_us : Z)
  | api_attach (t : Transport) | api_detach (t : Transport) | api_congestion (t : Transport) (level : Z)
  | api_publishState (ch : Z) (payload : list byte) | api_publishEvent (ch : Z) (payload : list byte)
  | api_publishLog (level : Z) (tag message : list byte)
  | api_goodbyeAll (code : Z)
  | api_latchEstop (cause origin : Z) | api_latchEstop_seq (cause origin sq : Z) | api_releaseEstop
  | api_setOverride (engaged : bool) | api_setHomeRequired (required : bool)
  | api_openPairingWindow (pin : list byte) | api_closePairingWindow
  | api_openPresenceWindow | api_closePresenceWindow
  | api_approvePendingConfigure | api_demoteAllToWatch
  | api_takePendingSignJob | api_submitSignature (session : Z) (sig : list byte) | api_signPendingNow (maxJobs : nat)
  | api_edit (c : Catalog.Catalog) | api_catalogChanged
  | api_bumpConfigGeneration | api_setIdentity (product fw_version hub_name : list byte)
  | api_setHubInstanceId (id : Z) | api_setEstopCutsPower (cuts : bool) | api_setConfigMode (on : bool)
  | api_setEndpoint (wsPort ipv4 : Z) | api_setInlineSigning (on : bool).

Section Walk.
Context {E R : Type} `{Env E} `{FairRandom R} `{ICrypto}.
Abbreviation calmly := (keeps (Calm (E := E) (R := R))) (only parsing).
Abbreviation steply := (keeps (Steps (E := E) (R := R))) (only parsing).
Abbreviation W := (World E R) (only parsing).

(** ** Frames *)

Definition not_stale (i : nat) (w : W) : Prop := hs_state (session_of i (w_hub w)) <> STALE.

Lemma not_stale_stable i : stable (not_stale i).
Proof. intros w w' Hv%(session_calm i). injection Hv as Hs _ _ _ _. unfold not_stale. by rewrite Hs. Qed.

Lemma in_session_from i m : from (awake i) m -> from (not_stale i) (in_session i m : HubM E R ()).
Proof.
  intros Hm w Hn. unfold in_session. rewrite run_session. destruct (occupied _) eqn:Ho; cbn [when]; [|reflexivity].
  apply Hm. unfold awake, not_stale, occupied in *. unfold v_active. cbn. by destruct (hs_state _).
Qed.

Lemma in_session_step i m : steply m -> steply (in_session i m).
Proof. intros Hm. unfold in_session. keeps_walk. Qed.

Lemma route_from i h payload nowMs : from (not_stale i) (route i h payload nowMs : HubM E R ()).
Proof.
  unfold route. cbv zeta.
  repeat (case_match; [first [apply from_stepwise; solve [auto 1 with hub nocore | apply in_session_step; auto 1 with hub nocore]
                             | apply in_session_from; first [apply handleIntent_from|apply handleStream_from]]|]).
  apply from_stepwise. keeps_walk.
Qed.

Lemma dispatchFrame_from i h payload nowMs : from (not_stale i) (dispatchFrame i h payload nowMs : HubM E R ()).
Proof.
  unfold dispatchFrame. apply from_calm; [apply not_stale_stable|keeps_walk|]. intros [].
  apply (from_bind _ (fun _ _ => True)); [|intros []; apply from_stepwise; keeps_walk].
  intros w Hw. split; [|done]. by apply route_from.
Qed.

Lemma reviveIfStale_spec i nowMs (w : W) :
  let w' := (reviveIfStale i nowMs w).2 in Steps w w' /\ not_stale i w'.
Proof.
  cbn zeta. unfold reviveIfStale. rewrite run_session. destruct (decide (hs_state (session_of i (w_hub w)) = STALE)) as [Hs|Hs].
  2: { rewrite bool_decide_false by done. split; [reflexivity|done]. }
  rewrite bool_decide_true by done. cbn [negb].
  set (s := session_of i (w_hub w)) in *. rewrite run_bind. cbv beta.
  set (f := fun s => s <| hs_state := LIVE |> <| hs_staleSinceMs := 0 |>).
  set (w1 := (on_session i f w).2).
  assert (H01 : Steps w w1) by (apply on_session_stepwise; place_same).
  assert (Hn : not_stale i w1).
  { unfold not_stale, session_of, w1. cbn. rewrite list_lookup_alter_eq.
    revert Hs. unfold s, session_of. destruct (_slots (w_hub w) !! i); cbn; done. }
  match goal with |- context [?m w1] => assert (Hm : calmly m) by keeps_walk end. specialize (Hm w1).
  split; [etransitivity; [exact H01|apply (calm_steps _ _ Hm)]|by eapply not_stale_stable].
Qed.

Lemma heard_from_spec i nowMs (w : W) :
  let w' := (heard_from i nowMs w).2 in Steps w w' /\ not_stale i w'.
Proof.
  cbn zeta. unfold heard_from. rewrite run_session, run_bind. cbv beta.
  match goal with |- context [reviveIfStale i nowMs ?x] => set (w1 := x); assert (H01 : Steps w w1) end.
  { subst w1. match goal with |- Steps w (?m w).2 => assert (Hm : steply m) by keeps_walk; apply Hm end. }
  destruct (reviveIfStale_spec i nowMs w1) as [Hs Hn]. split; [by etransitivity|done].
Qed.

Lemma after_heard {A} i nowMs (k : () -> HubM E R A) : (forall u, from (not_stale i) (k u)) -> steply (mbind k (heard_from i nowMs)).
Proof.
  intros Hk w. rewrite run_bind. destruct (heard_from_spec i nowMs w) as [Hs Hn]. etransitivity; [exact Hs|by apply Hk].
Qed.

Lemma take_frame_step i fb nowMs : steply (take_frame i fb nowMs).
Proof.
  unfold take_frame. repeat case_match; try (by keeps_walk); apply after_heard; intros []; [apply from_stepwise; keeps_walk|].
  apply dispatchFrame_from.
Qed.
#[local] Hint Resolve take_frame_step in_session_step : hub.

(** What reads frames. *)
Abbreviation turns := (keeps (Turns (E := E) (R := R))) (only parsing).

Lemma step_turns {A} (m : HubM E R A) : steply m -> turns m.
Proof. intros Hm w. apply steps_turns, Hm. Qed.

Lemma read_turns t : turns (call (t_read t)).
Proof. intros w. apply rtc_once, turn_read. Qed.

Lemma pumpSlot_turns fuel i nowMs : turns (pumpSlot fuel i nowMs).
Proof.
  induction fuel as [|fuel IH]; cbn [pumpSlot]; [apply step_turns; keeps_walk|].
  apply keeps_bind; [apply _|apply step_turns; keeps_walk|]. intros s. destruct (sl_transport s) as [t|]; [|apply step_turns; keeps_walk].
  apply keeps_bind; [apply _|apply read_turns|]. intros [fb|]; [|apply step_turns; keeps_walk].
  apply keeps_bind; [apply _|apply step_turns, take_frame_step|]. intros []. exact IH.
Qed.

Lemma serve_slot_step i nowMs : steply (serve_slot i nowMs).
Proof. unfold serve_slot. keeps_walk. Qed.
#[local] Hint Resolve serve_slot_step : hub.

(** A tick and an update keep whatever a pump and the steps keep. *)
Lemma tick_keeps (Rel : relation W) `{!PreOrder Rel} fuel nowMs i :
  (forall w w', Steps w w' -> Rel w w') -> keeps Rel (pumpSlot fuel i nowMs) -> keeps Rel (tick fuel nowMs i).
Proof.
  intros Hst Hp. assert (Hs : forall A (m : HubM E R A), steply m -> keeps Rel m) by (intros A m Hm w; apply Hst, Hm).
  unfold tick. apply keeps_bind; [apply _|apply Hs; keeps_walk|]. intros s.
  destruct (negb _); [apply Hs; keeps_walk|]. apply keeps_bind; [apply _|exact Hp|]. intros []. apply Hs. unfold in_session. keeps_walk.
Qed.

Lemma update_keeps (Rel : relation W) `{!PreOrder Rel} fuel now_us :
  (forall w w', Steps w w' -> Rel w w') -> (forall nowMs i, keeps Rel (pumpSlot fuel i nowMs)) -> keeps Rel (update fuel now_us).
Proof.
  intros Hst Hp. assert (Hs : forall A (m : HubM E R A), steply m -> keeps Rel m) by (intros A m Hm w; apply Hst, Hm).
  unfold update. apply keeps_bind; [apply _|apply Hs; keeps_walk|]. intros h. destruct (advance _ _) as [mono nowMs].
  do 2 (apply keeps_bind; [apply _|apply Hs; keeps_walk|intros []]).
  apply keeps_bind; [apply _|apply keeps_each; [apply _|]|intros []; apply Hs; keeps_walk]. intros i. by apply tick_keeps.
Qed.

Lemma update_turns fuel now_us : turns (update fuel now_us).
Proof. apply update_keeps; [apply _|apply steps_turns|intros; apply pumpSlot_turns]. Qed.

(** ** The application's calls *)

Lemma withdrawGrants_step i ids nowMs : steply (withdrawGrants i ids nowMs).
Proof. unfold withdrawGrants. keeps_walk. apply on_session_stepwise, removePublishGrant_place. Qed.

(** The hub refers to the application's catalog. *)
Definition edit (c : Catalog.Catalog) : HubM E R () := fun w => ((), mkWorld (w_hub w) c (w_env w) (w_rng w) (w_trace w) (w_seen w)).

Definition ignore {A} (m : HubM E R A) : HubM E R () := m ;; mret ().

Definition run (c : ApiCall) : HubM E R () :=
  match c with
  | api_update fuel us => update fuel us
  | api_attach t => ignore (attachTransport t)
  | api_detach t => detachTransport t
  | api_congestion t level => setCongestionLevel t level
  | api_publishState ch p => ignore (publishState ch p)
  | api_publishEvent ch p => ignore (publishEvent ch p)
  | api_publishLog level tag message => ignore (publishLog level tag message)
  | api_goodbyeAll code => goodbyeAll code
  | api_latchEstop cause origin => latchEstop cause origin
  | api_latchEstop_seq cause origin sq => latchEstop_seq cause origin sq
  | api_releaseEstop => ignore releaseEstop
  | api_setOverride on => setOverride on
  | api_setHomeRequired on => setHomeRequired on
  | api_openPairingWindow pin => HubPairing.openPairingWindow pin
  | api_closePairingWindow => HubPairing.closePairingWindow
  | api_openPresenceWindow => HubPairing.openPresenceWindow
  | api_closePresenceWindow => HubPairing.closePresenceWindow
  | api_approvePendingConfigure => ignore approvePendingConfigure
  | api_demoteAllToWatch => ignore HubPairing.demoteAllToWatch
  | api_takePendingSignJob => ignore takePendingSignJob
  | api_submitSignature session sig => ignore (submitSignature session sig)
  | api_signPendingNow n => ignore (signPendingNow n)
  | api_edit c => edit c
  | api_catalogChanged => ignore catalogChanged
  | api_bumpConfigGeneration => bumpConfigGeneration
  | api_setIdentity p v n => setIdentity p v n
  | api_setHubInstanceId id => setHubInstanceId id
  | api_setEstopCutsPower on => setEstopCutsPower on
  | api_setConfigMode on => setConfigMode on
  | api_setEndpoint port ip => setEndpoint port ip
  | api_setInlineSigning on => setInlineSigning on
  end.

(** The safety channel is published by the hub alone. *)
Definition allowed (c : ApiCall) : bool :=
  match c with api_publishState ch _ => negb (ch =? channels.safety) | _ => true end.

Lemma setOverride_step on : steply (setOverride on).
Proof. unfold setOverride. keeps_walk. Qed.
Lemma setHomeRequired_step on : steply (setHomeRequired on).
Proof. unfold setHomeRequired. keeps_walk. Qed.
Lemma publishLog_step level tag message : steply (publishLog level tag message).
Proof. unfold publishLog. keeps_walk. Qed.
Lemma goodbyeAll_step code : steply (goodbyeAll code).
Proof. unfold goodbyeAll, in_session. keeps_walk. Qed.
Lemma abortCatalogTransfers_step : steply abortCatalogTransfers.
Proof. unfold abortCatalogTransfers. keeps_walk. Qed.
#[local] Hint Resolve withdrawGrants_step setOverride_step setHomeRequired_step publishLog_step goodbyeAll_step
  abortCatalogTransfers_step : hub.

Lemma ignore_step {A} (m : HubM E R A) : steply m -> steply (ignore m).
Proof. intros Hm. unfold ignore. keeps_walk. Qed.
#[local] Hint Resolve ignore_step : hub.

(** The calls that read no frame and leave the catalog alone. *)
Definition ordinary (c : ApiCall) : bool := match c with api_update _ _ | api_edit _ | api_catalogChanged => false | _ => true end.

Lemma run_step c : allowed c = true -> ordinary c = true -> steply (run c).
Proof.
  destruct c; cbn [run allowed ordinary]; intros Hc Ho; try done;
    try solve [auto 1 with hub nocore | apply ignore_step; auto 2 using calm_stepwise with hub nocore | keeps_walk
              | unfold bumpConfigGeneration, setIdentity, setHubInstanceId, setEstopCutsPower, setConfigMode, setEndpoint,
                  setInlineSigning, HubPairing.openPairingWindow, HubPairing.closePairingWindow; keeps_walk].
  apply ignore_step, calm_stepwise, publishState_calm. by apply negb_true_iff, Z.eqb_neq in Hc.
Qed.

(** ** The catalog *)

Abbreviation quietly := (keeps (Quiets (E := E) (R := R))) (only parsing).

Lemma step_quietly {A} (m : HubM E R A) : steply m -> quietly m.
Proof. intros Hm w. apply steps_quiets, Hm. Qed.

Lemma publishCatalogState_calm : calmly publishCatalogStateIfPresent.
Proof. unfold publishCatalogStateIfPresent. keeps_walk. Qed.
#[local] Hint Resolve publishCatalogState_calm : hub.

Lemma reseedCoreSnapshots_step nowMs : steply (reseedCoreSnapshots nowMs).
Proof. unfold reseedCoreSnapshots. keeps_walk. Qed.
#[local] Hint Resolve reseedCoreSnapshots_step : hub.

Lemma degrade_step i : steply (degrade i).
Proof. unfold degrade. keeps_walk. Qed.

Lemma revoke_step nowMs i : steply (revoke nowMs i).
Proof. unfold revoke. keeps_walk. Qed.
#[local] Hint Resolve degrade_step revoke_step : hub.

Lemma announce_step kind nowMs : steply (announce kind nowMs).
Proof. unfold announce. destruct (bool_decide (kind = UserSpace)); keeps_walk. Qed.

Lemma withdraw_each_step ids nowMs :
  steply (each (fun i => s ← session_at i; when (occupied s) (withdrawGrants i ids nowMs)) slot_ids).
Proof. keeps_walk. Qed.

Lemma encode_quietly (f : Hub -> Hub) (w : W) :
  (forall h, exists s, core (f h) = (core h) <| c_served := s |>) -> Quiets w (modify f w).2.
Proof. intros Hf. destruct (Hf (w_hub w)) as [s Hs]. by eapply rtc_once, quiet_encode. Qed.

Lemma encodeCatalogInto_quietly : quietly encodeCatalogInto.
Proof.
  unfold encodeCatalogInto. apply keeps_bind; [apply _|apply step_quietly; keeps_walk|]. intros c.
  destruct (encodeCatalog c _) as [[out n] docs]. apply keeps_bind; [apply _| |intros []; apply step_quietly; keeps_walk].
  intros w. apply encode_quietly. intros h. by eexists.
Qed.

Lemma core_retained (f : list RetainedStore.Entry -> list RetainedStore.Entry) (h : Hub) :
  core (h <| _retained ::= f |>) = (core h) <| c_shown := held channels.safety (f (_retained h)) |>.
Proof. done. Qed.

Lemma core_same_shown (h : Hub) l : l = shown h -> (core h) <| c_shown := l |> = core h.
Proof. by intros ->. Qed.

Lemma discard_quietly ch : quietly (discard ch).
Proof.
  intros w. apply rtc_once. destruct (decide (ch = channels.safety)) as [->|Hne].
  - apply quiet_discard. by rewrite core_retained, remove_there.
  - apply quiet_step, step_silent. rewrite core_retained. by apply core_same_shown, remove_elsewhere.
Qed.

Lemma withdraw_quietly ids nowMs : quietly (withdraw ids nowMs).
Proof.
  unfold withdraw. apply keeps_bind; [apply _|apply step_quietly, abortCatalogTransfers_step|]. intros [].
  apply keeps_bind; [apply _|apply keeps_each; [apply _|exact discard_quietly]|]. intros [].
  apply step_quietly, withdraw_each_step.
Qed.

(** With the safety channel not among them, what is withdrawn are steps. *)
Lemma withdraw_step ids nowMs : ~ In channels.safety ids -> steply (withdraw ids nowMs).
Proof.
  intros Hids. unfold withdraw. apply keeps_bind; [apply _|apply abortCatalogTransfers_step|]. intros [].
  apply keeps_bind; [apply _| |intros []; apply withdraw_each_step].
  induction ids as [|ch ids IH]; cbn [each]; [keeps_walk|]. apply keeps_bind; [apply _| |intros []; apply IH; intros Hin; apply Hids; by right].
  intros w. apply rtc_once, step_silent. rewrite core_retained. apply core_same_shown, remove_elsewhere.
  intros ->. apply Hids. by left.
Qed.

Lemma muted_quietly {A} (m : HubM E R A) : quietly m -> quietly (muted m).
Proof.
  intros Hm. unfold muted. apply keeps_bind; [apply _|apply step_quietly; keeps_walk|]. intros saved.
  apply keeps_bind; [apply _|apply step_quietly; keeps_walk|]. intros [].
  apply keeps_bind; [apply _|exact Hm|]. intros a. apply step_quietly. keeps_walk.
Qed.

Lemma catalog_moved_quietly : quietly catalog_moved.
Proof.
  unfold catalog_moved. do 4 (apply keeps_bind; [apply _|apply step_quietly; keeps_walk|intros ?]).
  apply keeps_bind; [apply _|apply encodeCatalogInto_quietly|intros after].
  apply keeps_bind; [apply _|apply step_quietly; keeps_walk|intros bytes]. destruct (blank bytes); [apply step_quietly; keeps_walk|].
  apply keeps_bind; [apply _|apply step_quietly; keeps_walk|intros c]. cbv zeta.
  apply keeps_bind; [apply _| |intros []]; [intros w; apply encode_quietly; intros h; by eexists|].
  destruct (bool_decide _); [apply step_quietly; keeps_walk|].
  apply keeps_bind; [apply _| |intros []]; [intros w; apply encode_quietly; intros h; by eexists|].
  apply keeps_bind; [apply _|apply withdraw_quietly|]. intros [].
  apply keeps_bind; [apply _|apply step_quietly, announce_step|]. intros []. apply step_quietly. keeps_walk.
Qed.

Lemma catalogChanged_quietly : quietly catalogChanged.
Proof.
  unfold catalogChanged. apply keeps_bind; [apply _|apply step_quietly; keeps_walk|]. intros c.
  destruct (overflow c); [apply step_quietly; keeps_walk|apply muted_quietly, catalog_moved_quietly].
Qed.

Lemma run_quietly c : allowed c = true -> match c with api_update _ _ => False | _ => True end -> quietly (run c).
Proof.
  intros Hc Hu. destruct (ordinary c) eqn:Ho; [by apply step_quietly, run_step|]. destruct c; try done; cbn [run].
  - intros w. apply rtc_once, quiet_catalog.
  - unfold ignore. apply keeps_bind; [apply _|apply catalogChanged_quietly|]. intros r. apply step_quietly. keeps_walk.
Qed.

Lemma first_encode_quietly : quietly first_encode.
Proof.
  unfold first_encode. apply keeps_bind; [apply _|apply encodeCatalogInto_quietly|intros digests].
  apply keeps_bind; [apply _|apply step_quietly; keeps_walk|intros c]. intros w. apply encode_quietly. intros h. by eexists.
Qed.

Lemma Hub_boot_quietly : quietly Hub_boot.
Proof.
  unfold Hub_boot. do 2 (apply keeps_bind; [apply _|apply step_quietly; keeps_walk|intros ?]).
  destruct (SerialArith.advance _ _) as [mono nowMs].
  apply keeps_bind; [apply _|apply step_quietly; keeps_walk|]. intros [].
  apply keeps_bind; [apply _|apply first_encode_quietly|]. intros [].
  apply step_quietly. unfold draw_nonzero. keeps_walk.
Qed.

(** The worlds a hub can get to, from its construction on. *)
Definition powered_on (c : Catalog.Catalog) (env : E) (rng : R) : W := mkWorld Hub_new c env rng [] [].

Definition life (calls : list ApiCall) : HubM E R () := Hub_boot ;; each run calls.

(** A life keeps whatever a pump and the quiet calls keep. *)
Lemma life_keeps (Rel : relation W) `{!PreOrder Rel} calls :
  (forall w w', Quiets w w' -> Rel w w') -> (forall fuel nowMs i, keeps Rel (pumpSlot fuel i nowMs)) ->
  Forall (fun c => allowed c = true) calls -> keeps Rel (life calls).
Proof.
  intros Hq Hp Hc. unfold life. apply keeps_bind; [apply _|intros w; apply Hq, Hub_boot_quietly|]. intros [].
  induction Hc as [|c calls Hok _ IH]; cbn [each]; [by apply keeps_ret|]. apply keeps_bind; [apply _| |intros []; exact IH].
  destruct c as [fuel us| | | | | | | | | | | | | | | | | | | | | | | | | | | | | |]; try (intros w; apply Hq; by apply run_quietly).
  cbn [run]. apply update_keeps; [apply _| |intros; apply Hp]. intros w w' Hs. by apply Hq, steps_quiets.
Qed.

Lemma life_moves calls : Forall (fun c => allowed c = true) calls -> keeps (Moves (E := E) (R := R)) (life calls).
Proof.
  apply life_keeps; [apply _|apply quiets_moves|]. intros fuel nowMs i w. apply turns_moves, pumpSlot_turns.
Qed.
End Walk.
