(* ===== verification/HubWithdraw.v ===== *)
(** * HubWithdraw: what a live catalog change finds, and what it leaves alone

    The walk over the digests finds exactly the entries that vanished or changed; a change that leaves a
    channel's entry alone leaves what is retained for it alone. *)

From stdpp Require Import sorting.
From S2P Require Import Prelude ByteIO Tables Crypto Sha256 CborMessage StateChannel MsgHello CborWriter Catalog Registry CatalogCodec.
From S2P Require Import HubSession HubState StateM HubWorld HubCore HubUpdate HubCatalog HubSteps HubWalk HubWalkMotion HubWalkAll.
#[local] Open Scope Z_scope.

(** ** The walk over the digests *)

Definition digest_before (a b : EntryDigest) : Prop := ed_id a < ed_id b.
Abbreviation ascending := (StronglySorted digest_before) (only parsing).

Lemma withdrawn_step b before after :
  withdrawn (b :: before) after =
  match after with
  | [] => ed_id b :: withdrawn before []
  | a :: after' =>
      if ed_id a <? ed_id b then withdrawn (b :: before) after'
      else if ed_id a =? ed_id b then
        (if negb (bool_decide (ed_digest a = ed_digest b)) then [ed_id b] else []) ++ withdrawn before after'
      else ed_id b :: withdrawn before after
  end.
Proof. by destruct after. Qed.

Definition gone (before after : list EntryDigest) (id : Z) : Prop := exists b, In b before /\ ed_id b = id /\ ~ In b after.

Lemma later_not_in (a : EntryDigest) l : Forall (digest_before a) l -> ~ In a l.
Proof. rewrite Forall_forall. intros Hl Hin%list_elem_of_In%Hl. unfold digest_before in Hin. lia. Qed.

(** What the walk reports, in order. *)
Definition changes (before after : list EntryDigest) : list Z := map ed_id (filter (fun b => b ∉ after) before).

Lemma changes_cons b before after :
  changes (b :: before) after = (if decide (b ∈ after) then [] else [ed_id b]) ++ changes before after.
Proof. unfold changes. rewrite filter_cons. by destruct (decide (b ∈ after)); destruct (decide (b ∉ after)). Qed.

Lemma changes_drop a before after :
  Forall (digest_before a) before -> changes before (a :: after) = changes before after.
Proof.
  induction 1 as [|b before Hb _ IH]; [done|]. rewrite !changes_cons, IH. f_equal.
  apply decide_ext. rewrite elem_of_cons. split; [|by right]. intros [->|]; [unfold digest_before in Hb; lia|done].
Qed.

Lemma withdrawn_changes before after :
  ascending before -> ascending after -> withdrawn before after = changes before after.
Proof.
  revert after. induction before as [|b before IH]; intros after Hb Ha; [by destruct after|].
  apply StronglySorted_inv in Hb as [Hb Hlt].
  induction after as [|a after IHa]; rewrite withdrawn_step, changes_cons.
  - rewrite decide_False by apply not_elem_of_nil. cbn. f_equal. apply IH; [done|constructor].
  - pose proof Ha as [Ha' Hlt']%StronglySorted_inv.
    destruct (Z.ltb_spec (ed_id a) (ed_id b)) as [Hab|Hab]; [|destruct (Z.eqb_spec (ed_id a) (ed_id b)) as [Heq|Hne]].
    + rewrite IHa by done. rewrite changes_cons. rewrite changes_drop.
      2: { eapply Forall_impl; [exact Hlt|]. intros x. unfold digest_before. lia. }
      f_equal. apply decide_ext. rewrite elem_of_cons. split; [by right|]. intros [->|]; [lia|done].
    + rewrite (IH after) by done. rewrite changes_drop.
      2: { eapply Forall_impl; [exact Hlt|]. intros x. unfold digest_before. lia. }
      f_equal. assert (b ∉ after) as Hn.
      { intros Hin. rewrite Forall_forall in Hlt'. specialize (Hlt' b Hin). unfold digest_before in Hlt'. lia. }
      destruct (decide (ed_digest a = ed_digest b)) as [Hd|Hd].
      * rewrite bool_decide_true by done. destruct a, b. cbn in *. subst. rewrite decide_True; [done|]. left.
      * rewrite bool_decide_false by done. rewrite decide_False; [done|]. rewrite elem_of_cons. intros [->|]; done.
    + rewrite decide_False; [cbn; f_equal; apply IH; done|]. rewrite elem_of_cons. intros [->|Hin]; [lia|].
      rewrite Forall_forall in Hlt'. specialize (Hlt' b Hin). unfold digest_before in Hlt'. lia.
Qed.

(** ** What is served *)

(** The bytes and the digests a catalog is served as, and whether it encodes. *)
Definition served_bytes (c : Catalog.Catalog) : list byte :=
  let '(out, n, _) := encodeCatalog c (replicate kCatalogScratchBytes Byte.x00) in take n out.
Definition digests_of (c : Catalog.Catalog) : list EntryDigest :=
  let '(_, _, docs) := encodeCatalog c (replicate kCatalogScratchBytes Byte.x00) in take kEntryCapacity (map digest_of docs).
Definition etag_of (c : Catalog.Catalog) : list byte := take etag_bytes (Sha256.hash (served_bytes c)).
Definition fixed_of (c : Catalog.Catalog) : nat := Nat.min (userSpaceStart c) (length (digests_of c)).
Definition encodes (c : Catalog.Catalog) : bool := negb (blank (served_bytes c)).

Lemma encode_entries_shown cat es out pos docs :
  exists k l, (encode_entries cat es out pos docs).2 = docs ++ l /\ map fst l = take k es.
Proof.
  revert out pos docs. induction es as [|e es IH]; intros out pos docs; cbn [encode_entries].
  - exists 0%nat, []. by rewrite app_nil_r.
  - destruct (_ || _); [exists 0%nat, []; by rewrite app_nil_r|]. destruct (finish _) as [o n]. cbv zeta.
    destruct (_ || _); [exists 0%nat, []; by rewrite app_nil_r|].
    match goal with |- context [encode_entries cat es ?o ?p ?d] => destruct (IH o p d) as (k & l & Hl & Hm) end.
    rewrite Hl. eexists (S k), (_ :: l). rewrite <- app_assoc. split; [reflexivity|]. cbn. by rewrite Hm.
Qed.

Lemma ids_ascend_sorted es : ids_ascend es = true -> StronglySorted (fun a b => ce_id a < ce_id b) es.
Proof.
  intros Ha. apply Sorted_StronglySorted; [intros x y z; cbv beta; lia|].
  induction es as [|e [|e' es] IH]; [constructor|repeat constructor|].
  cbn [ids_ascend] in Ha. apply andb_prop in Ha as [Hlt%Z.ltb_lt Ha]. constructor; [by apply IH|by constructor].
Qed.

Lemma StronglySorted_take' {A} (Rel : relation A) k l : StronglySorted Rel l -> StronglySorted Rel (take k l).
Proof. intros Hl. rewrite <- (take_drop k l), StronglySorted_app in Hl. apply Hl. Qed.

(** The documents shown are those of the first entries, ids ascending. *)
Lemma encodeCatalog_shown c buf :
  let docs := (encodeCatalog c buf).2 in
  docs = [] \/ ids_ascend (entries c) = true /\ exists k, map fst docs = take k (entries c).
Proof.
  cbn zeta. unfold encodeCatalog. destruct (ids_ascend (entries c)); cbn [negb]; [|by left].
  destruct (finish _) as [hdr hdrLen]. destruct (_ || _); [by left|]. right. split; [done|].
  match goal with |- context [encode_entries ?c ?es ?o ?p ?d] => destruct (encode_entries_shown c es o p d) as (k & l & -> & Hm) end.
  by exists k.
Qed.

Lemma digests_sorted docs (es : list CatalogEntry) k :
  map fst docs = take k es -> StronglySorted (fun a b => ce_id a < ce_id b) es -> ascending (map digest_of docs).
Proof.
  intros Hk Ha%(StronglySorted_take' _ k). rewrite <- Hk in Ha. clear - Ha.
  induction docs as [|d docs IH]; cbn in *; [constructor|]. apply StronglySorted_inv in Ha as [Ha Hl].
  constructor; [by apply IH|]. rewrite Forall_map in Hl |- *. exact Hl.
Qed.

Lemma digests_ascending c : ascending (digests_of c).
Proof.
  unfold digests_of. set (buf := replicate _ _). clearbody buf. pose proof (encodeCatalog_shown c buf) as Hd. cbv zeta in Hd.
  destruct (encodeCatalog c buf) as [[out n] docs]. apply StronglySorted_take'.
  cbn [snd] in Hd.   destruct Hd as [->|(Ha%ids_ascend_sorted & k & Hk)]; [constructor|]. by eapply digests_sorted.
Qed.

Section Withdraw.
Context {E R : Type} `{Env E} `{FairRandom R} `{ICrypto}.
Abbreviation W := (World E R) (only parsing).

(** ** Single steps *)

Lemma call_world c (w : W) : (call c w).2 = mkWorld (w_hub w) (w_catalog w) (w_env (call c w).2) (w_rng w) (Did c (call c w).1 :: w_trace w)
  ((w_hub w, w_catalog w) :: w_seen w).
Proof. unfold call. by destruct (answer c (w_env w)). Qed.

Lemma draw_world {A} (f : R -> A * R) (w : W) : w_hub (draw f w).2 = w_hub w /\ w_trace (draw f w).2 = w_trace w.
Proof. unfold draw. by destruct (f (w_rng w)). Qed.

Lemma draw_seen {A} (f : R -> A * R) (w : W) : w_seen (draw f w).2 = w_seen w.
Proof. unfold draw. by destruct (f (w_rng w)). Qed.

Lemma snapshot_seen (w : W) : w_seen (publishSafetySnapshot w).2 = w_seen w.
Proof. unfold publishSafetySnapshot, publishState. rewrite run_gets, run_bind, run_get. by destruct (RetainedStore.publish _ _ _ _). Qed.

(** Publishing the snapshot changes nothing but the retained store. *)
Lemma snapshot_world (w : W) :
  let w' := (publishSafetySnapshot w).2 in
  w_trace w' = w_trace w /\
  w_hub w' = (w_hub w) <| _retained := fst (RetainedStore.publish kRetainedStates channels.safety (buildSafetyPayload (w_hub w)) (_retained (w_hub w))) |>.
Proof.
  cbn zeta. unfold publishSafetySnapshot, publishState. rewrite run_gets, run_bind, run_get.
  by destruct (RetainedStore.publish _ _ _ _).
Qed.

Lemma snapshot_catalog (w : W) : w_catalog (publishSafetySnapshot w).2 = w_catalog w.
Proof. unfold publishSafetySnapshot, publishState. rewrite run_gets, run_bind, run_get. by destruct (RetainedStore.publish _ _ _ _). Qed.

(** No step touches the catalog or what is served of it. *)
Lemma step_served (w w' : W) : Step w w' -> w_catalog w' = w_catalog w /\ served (w_hub w') = served (w_hub w).
Proof.
  intros Hs. destruct Hs as [c Hc|A f|f Hf|f vs Hf _|f i v src tk _ _ _ Hf|f t Hf _|f Hn|f Hn Ho Hv Hr Hsv|Hn Ha|Hn Ha|c Hc].
  all: try (rewrite call_world; done).
  - unfold draw. by destruct (f _).
  - split; [done|]. exact (f_equal c_served Hf).
  - split; [done|]. exact (f_equal c_served Hf).
  - split; [done|]. exact (f_equal c_served Hf).
  - split; [done|]. exact (f_equal c_served Hf).
  - rewrite run_bind. cbv beta. rewrite run_bind. cbv beta. by rewrite (proj2 (snapshot_world _)), snapshot_catalog, call_world.
  - rewrite run_bind. cbv beta. by rewrite (proj2 (snapshot_world _)), snapshot_catalog.
  - rewrite run_bind. cbv beta. rewrite run_bind. cbv beta. by rewrite (proj2 (snapshot_world _)), snapshot_catalog, call_world.
Qed.

Lemma steps_served (w w' : W) : Steps w w' -> w_catalog w' = w_catalog w /\ served (w_hub w') = served (w_hub w).
Proof.
  induction 1 as [|w1 w2 w3 Hs _ [Hc Hv]]; [done|]. destruct (step_served _ _ Hs) as [Hc' Hv']. split; congruence.
Qed.

Definition encoded_as (c : Catalog.Catalog) (h : Hub) : Hub := h <| _catalogEncoded := served_bytes c |>.
Definition serving (c : Catalog.Catalog) (h : Hub) : Hub :=
  encoded_as c h <| _digests := digests_of c |> <| _fixedCount := fixed_of c |>.

Lemma run_encode {A} (k : list EntryDigest -> HubM E R A) (w : W) :
  mbind k encodeCatalogInto w = k (digests_of (w_catalog w)) (modify (encoded_as (w_catalog w)) w).2.
Proof.
  rewrite run_bind. unfold encodeCatalogInto. rewrite run_catalog. unfold encoded_as, served_bytes, digests_of.
  by destruct (encodeCatalog _ _) as [[out n] docs].
Qed.

Lemma run_muted {A} (m : HubM E R A) (w : W) :
  muted m w =
  let r := m (modify (fun h => h <| _dispatchSeq := None |>) w).2 in
  (r.1, (modify (fun h => h <| _dispatchSeq := _dispatchSeq (w_hub w) |>) r.2).2).
Proof. unfold muted. rewrite run_gets, run_bind. cbv beta. rewrite run_bind. cbv beta. by rewrite run_bind. Qed.

Definition kind_of_change (c : Catalog.Catalog) (h : Hub) : CatalogChange :=
  if fixed_same (_fixedCount h) (fixed_of c) (_digests h) (digests_of c) then UserSpace else Resync.

(** A live change, branch by branch. *)
Lemma run_catalog_moved (w : W) :
  let c := w_catalog w in
  let h := w_hub w in
  catalog_moved w =
  if negb (encodes c) then (EncodeFailed, (modify (encoded_as c) w).2)
  else if bool_decide (etag_of c = _etag h) then (Unchanged, (modify (serving c) w).2)
  else
    (kind_of_change c h,
     ((withdraw (withdrawn (_digests h) (digests_of c)) (_lastUpdateMs h) ;; announce (kind_of_change c h) (_lastUpdateMs h))
        (modify (fun h => serving c h <| _etag := etag_of c |>) w).2).2).
Proof.
  cbn zeta. unfold catalog_moved. rewrite !run_gets, run_encode, run_gets. unfold encodes.
  change (_catalogEncoded (w_hub (modify (encoded_as (w_catalog w)) w).2)) with (served_bytes (w_catalog w)).
  rewrite negb_involutive. destruct (blank (served_bytes (w_catalog w))); [done|]. rewrite run_catalog. cbv zeta.
  change (w_catalog (modify (encoded_as (w_catalog w)) w).2) with (w_catalog w). rewrite run_bind.
  change (take etag_bytes (Sha256.hash (served_bytes (w_catalog w)))) with (etag_of (w_catalog w)). cbv beta.
  destruct (bool_decide _); [done|]. rewrite run_bind. cbv beta. rewrite run_bind. cbv beta. rewrite run_bind. cbv beta.
  rewrite run_bind. done.
Qed.
End Withdraw.
