(* ===== verification/HubBench.v ===== *)
(** * HubBench: a hub on a bench

    A concrete environment, generator and catalog on which a whole hub can be run inside the kernel: the
    frames of a scripted client go in, the trace comes out.  The witnesses of the theorems about the hub
    and the faults found in it are runs of this bench. *)

From Stdlib Require Import String.
From S2P Require Import Prelude ByteIO Crypto Sha256 Safety Shedding Frame Estop Blob StreamBundle MsgIntent MsgHello MsgTrust.
From S2P Require Import MsgWelcome Codec Catalog Registry CatalogCodec HubSession HubState StateM HubWorld HubCore HubSafety HubUpdate HubSteps HubWalkAll.
#[local] Open Scope Z_scope.

(** What the client has sent and the hub has not read, which writes go through, what the clock says, and
    whether the delegate agrees to clear an ESTOP. *)
Record Bench := mkBench { b_inbox : list (Transport * FrameBuffer); b_deaf : bool; b_now : Z; b_clears : bool }.

Fixpoint take_mail (t : Transport) (l : list (Transport * FrameBuffer)) : option FrameBuffer * list (Transport * FrameBuffer) :=
  match l with
  | [] => (None, [])
  | (t', fb) :: l => if (t' =? t)%nat then (Some fb, l) else let '(r, l) := take_mail t l in (r, (t', fb) :: l)
  end.

(** Channel 0x300 moves source 1; a client on the bench is on a cable. *)
Definition bench_answer (c : Call) (e : Bench) : Answer c * Bench :=
  match c return Answer c * Bench with
  | t_open _ => (true, e)
  | t_write _ _ => (negb (b_deaf e), e)
  | t_read t => let '(r, l) := take_mail t (b_inbox e) in (r, mkBench l (b_deaf e) (b_now e) (b_clears e))
  | t_properties _ => (mkTransportProperties 512 in_process, e)
  | nowUs => (b_now e, e)
  | validateToken _ _ _ => (AccessLevel.control, e)
  | applyIntent _ fields _ => ((ok fields, false), e)
  | applyTrialIntent _ fields _ => ((ok fields, false), e)
  | intentNackDetail _ _ => ([], e)
  | oscMaxHz => (0, e)
  | sourceForChannel ch => ((if (ch =? 0x300) || (ch =? 0x301) then Some 1 else None), e)
  | sourceKind _ => (source_kinds.classic, e)
  | sourceQuiet _ => (false, e)
  | canClearEstop => (b_clears e, e)
  | admitsUnderPause _ _ _ => (false, e)
  | scheduleLatencyUs _ | scheduleHorizonMs _ => (0, e)
  | readBlob _ _ _ => (None, e)
  | trialBaseline _ _ => (Some (VU64 0), e)
  | restoreTrial _ _ => (true, e)
  | signP256 _ | publicKey => ([], e)
  | t_close _ | onEstop _ _ | onSessionJoined _ | onSessionLeft _ | onSessionStale _ | onSourceOwnership _ _ _
  | onStreamBundle _ _ _ | onBlobDone _ _ _ | onTrialCommit _ _ => (tt, e)
  end.

#[export] Instance Bench_env : Env Bench := bench_answer.

(** A generator that counts. *)
Record Counter := mkCounter { cn_next : positive }.

Fixpoint count_bytes (n : nat) (g : positive) : list byte :=
  match n with O => [] | S n => z2b (u8 (Zpos g)) :: count_bytes n (Pos.succ g) end.

#[export] Instance Counter_rng : IRandom Counter :=
  {| rng_nextU32 g := (Zpos (cn_next g), mkCounter (Pos.succ (cn_next g)));
     rng_fill n g := (count_bytes n (cn_next g), mkCounter (cn_next g + Pos.of_succ_nat n)) |}.

#[export] Instance Counter_fair : FairRandom Counter.
Proof. intros g. constructor. intros g' Hg. discriminate. Defined.

(** An entry of the given class and direction that takes no fields. *)
Definition bench_entry (id cls : Z) (dir : Direction) (access : Z) : CatalogEntry :=
  mkCatalogEntry id [] cls dir access 0x42480000 0 0 0 None [] None None 0 None None [] LabelRef_new None.

Definition bench_catalog : Catalog.Catalog :=
  mkCatalog [bench_entry channels.safety ChannelClass.STATE h2c AccessLevel.watch;
             bench_entry channels.safety_intents ChannelClass.INTENT c2h AccessLevel.watch;
             bench_entry 0x300 ChannelClass.INTENT c2h AccessLevel.control;
             bench_entry 0x301 ChannelClass.STREAM c2h AccessLevel.control] [] [] [] [] [] false None.

Definition bench_etag : list byte := catalogEtag bench_catalog (replicate 512 Byte.x00).

(** ** Frames *)

Definition frame_of (type ch : Z) (payload : list byte) : FrameBuffer :=
  FrameBuffer_from (fst (encodeFrameHeader (mkFrameHeader type 0 ch 1 (Z.of_nat (length payload))) (replicate kHeaderBytes Byte.x00)) ++ payload).

Definition hello_frame (instance : byte) : FrameBuffer :=
  frame_of FrameType.HELLO 0 (encoded 128 (encodeHello
    (set_hl_catalog_etag (Some bench_etag) (set_hl_instance_id (replicate instance_id_bytes instance) HelloMsg_new)))).

Definition intent_frame (ch id : Z) (fields : list IntentValueField) : FrameBuffer :=
  frame_of FrameType.INTENT ch (encoded 64 (encodeIntent (mkIntentMsg ch id fields None None None))).

Definition bench (inbox : list (Transport * FrameBuffer)) (deaf clears : bool) : Bench := mkBench inbox deaf 0 clears.

(** A life on the bench. *)
Definition bench_run (calls : list ApiCall) (e : Bench) : World Bench Counter :=
  (life calls (powered_on bench_catalog e (mkCounter 1))).2.
