(* ===== verification/HubLatch.v ===== *)
(** * HubLatch: the ESTOP latch, the ESTOP frames that set it, and what clients are shown of it, over the whole life of a hub *)

From stdpp Require Import sorting.
From S2P Require Import Prelude ByteIO Tables Crypto Safety Shedding Frame Estop StateChannel CborMessage MsgIntent Catalog Registry.
From S2P Require Import HubSession HubState StateM HubWorld HubCore HubSafety HubUpdate HubCatalog HubSteps HubWalk.
From S2P Require Import HubWalkMotion HubWalkAll HubWithdraw HubBench.
#[local] Open Scope Z_scope.

(** The delegate is told of an ESTOP once, and is asked about clearing it only while it is latched. *)
Fixpoint estop_orderly (t : list Event) : bool :=
  match t with
  | [] => true
  | Did c _ :: t =>
      match c with onEstop _ _ => negb (estop_told t) | canClearEstop => estop_told t | _ => true end && estop_orderly t
  end.

Definition shows_core (h : Hub) : Prop := shown h = [(true, buildSafetyPayload h)].

(** The digest of the safety channel's entry among those a catalog is served with. *)
Definition safety_of (ds : list EntryDigest) : list EntryDigest := List.filter (fun d => ed_id d =? channels.safety) ds.
Definition kept_digests (c : Catalog.Catalog) : list EntryDigest := if encodes c then digests_of c else [].

(** The application leaves the entry of the safety channel as it is in [c]. *)
Definition keeps_safety (c : Catalog.Catalog) (call : ApiCall) : Prop :=
  match call with api_edit c' => encodes c' = true -> safety_of (digests_of c') = safety_of (kept_digests c) | _ => True end.

(** The calls by which the delegate is made to act for a client. *)
Definition acts (c : Call) : bool :=
  match c with applyIntent _ _ _ | applyTrialIntent _ _ _ | onStreamBundle _ _ _ => true | _ => false end.

Definition reads (c : Call) : bool := match c with t_read _ => true | _ => false end.

Section Latch.
Context {E R : Type} `{Env E} `{FairRandom R} `{ICrypto}.
Abbreviation W := (World E R) (only parsing).

Definition latch_told (w : W) : Prop :=
  estopLatched (w_hub w) = estop_told (w_trace w) /\ estop_orderly (w_trace w) = true.

Lemma estop_core (h h' : Hub) : core h' = core h -> estopLatched h' = estopLatched h.
Proof. intros Hc. unfold estopLatched. by rewrite (f_equal c_word Hc : _safetyWord h' = _safetyWord h). Qed.

Lemma estop_core_sessions (h h' : Hub) vs : core h' = (core h) <| c_sessions := vs |> -> estopLatched h' = estopLatched h.
Proof. intros Hc. unfold estopLatched. by rewrite (f_equal c_word Hc : _safetyWord h' = _safetyWord h). Qed.

Lemma estop_core_owners (h h' : Hub) t : core h' = (core h) <| c_owners := t |> -> estopLatched h' = estopLatched h.
Proof. intros Hc. unfold estopLatched. by rewrite (f_equal c_word Hc : _safetyWord h' = _safetyWord h). Qed.

Lemma latched_latch f (h : Hub) : estopLatched (latch f h) = true.
Proof.
  unfold latch, estopLatched, has_bit, safety_bits.ESTOP. cbn. rewrite negb_true_iff, Z.eqb_neq. intros Hz.
  apply (f_equal (fun z => Z.testbit z 0)) in Hz. rewrite Z.land_spec, Z.lor_spec in Hz. cbn in Hz. by rewrite orb_true_r in Hz.
Qed.

Lemma estopLatched_word (h : Hub) : estopLatched h = Z.testbit (_safetyWord h) 0.
Proof.
  unfold estopLatched, has_bit, safety_bits.ESTOP. change 1 with (Z.ones 1). rewrite Z.land_ones by lia. change (2 ^ 1) with 2.
  rewrite <- Z.bit0_mod. by destruct (Z.testbit (_safetyWord h) 0).
Qed.

Lemma latched_unlatch (h : Hub) : estopLatched (unlatch h) = false.
Proof. rewrite estopLatched_word. change (_safetyWord (unlatch h)) with (Z.lor (clear_bit (_safetyWord h) safety_bits.ESTOP) safety_bits.PAUSE).
  unfold clear_bit. rewrite Z.lor_spec, Z.land_spec. by rewrite andb_false_r. Qed.

Lemma step_latch_told (w w' : W) : Step w w' -> latch_told w -> latch_told w'.
Proof.
  unfold latch_told. intros Hs [Hl Ho]. destruct Hs as [c Hc|A f|f Hf|f vs Hf _|f i v src tk _ _ _ Hf|f t Hf _|f Hn|f Hn|Hn Ha|Hn Ha|c Hc].
  - rewrite call_world. cbn. by destruct c.
  - destruct (draw_world f w) as [-> ->]. done.
  - cbn. by rewrite (estop_core _ _ Hf).
  - cbn. by rewrite (estop_core_sessions _ _ _ Hf).
  - cbn. by erewrite estop_core_owners by exact Hf.
  - cbn. by erewrite estop_core_owners by exact Hf.
  - rewrite run_bind. cbv beta. rewrite run_bind. cbv beta.
    destruct (snapshot_world (modify (latch f) (call (onEstop (ef_cause f) (ef_origin f)) w).2).2) as [Ht Hh].
    rewrite Ht, Hh, call_world. cbn -[estopLatched latch]. rewrite Hl in Hn. rewrite Hn, Ho. split; [|done].
    exact (latched_latch f (w_hub w)).
  - rewrite run_bind. cbv beta. destruct (snapshot_world (modify f w).2) as [Ht Hh]. rewrite Ht, Hh. cbn.
    rewrite <- Hl. by split.
  - rewrite call_world. cbn [w_hub w_trace estop_told estop_orderly]. rewrite Ha, Ho, <- Hl, Hn. done.
  - rewrite run_bind. cbv beta. rewrite run_bind. cbv beta.
    destruct (snapshot_world (modify unlatch (call canClearEstop w).2).2) as [Ht Hh].
    rewrite Ht, Hh, call_world. cbn [w_hub w_trace estop_told estop_orderly modify snd]. rewrite Ha, Ho, <- Hl, Hn. split; [|done]. exact (latched_unlatch (w_hub w)).
  - rewrite call_world. cbn. by destruct c.
Qed.

Lemma move_latch_told (w w' : W) : Move w w' -> latch_told w -> latch_told w'.
Proof.
  intros [? [? Hs|c|f s Hf|f Hf]|t]; [by apply step_latch_told|done|..|unfold latch_told; by rewrite call_world]; unfold latch_told; cbn; unfold estopLatched.
  - by rewrite (f_equal c_word Hf : _safetyWord (f (w_hub w)) = _safetyWord (w_hub w)).
  - by rewrite (f_equal c_word Hf : _safetyWord (f (w_hub w)) = _safetyWord (w_hub w)).
Qed.

Lemma moves_latch_told (w w' : W) : Moves w w' -> latch_told w -> latch_told w'.
Proof. induction 1 as [|w1 w2 w3 Hs _ IH]; [done|]. intros Hw. by eapply IH, move_latch_told. Qed.

(** C2. The ESTOP latch through every life of a hub - any catalog, any clients and transports, any answers of
    the delegate, any sequence of the application's calls: the latch is set exactly when the delegate has
    been told of an ESTOP and has not since agreed to clear it.  So nothing but an ESTOP sets it, nothing but
    the delegate's consent clears it, the delegate hears of it once per latching, and is asked for its consent
    only while it is latched. *)
Theorem estop_latch_is_what_the_delegate_was_told c env rng calls :
  Forall (fun a => allowed a = true) calls ->
  let w := (life calls (powered_on c env rng : W)).2 in
  estopLatched (w_hub w) = estop_told (w_trace w) /\ estop_orderly (w_trace w) = true.
Proof. intros Hc. eapply moves_latch_told; [by apply life_moves|done]. Qed.

(** ** ESTOP frames *)

(** At most one call is made, and it is such a one; the hub and the catalog it was made on are kept with it. *)
Definition logs (P : Call -> Prop) (w w' : W) : Prop :=
  w_trace w' = w_trace w /\ w_seen w' = w_seen w \/
  exists c a, w_trace w' = Did c a :: w_trace w /\ w_seen w' = (w_hub w, w_catalog w) :: w_seen w /\ P c.

Lemma logs_call (P : Call -> Prop) c (w : W) : P c -> logs P w (call c w).2.
Proof. intros Hc. right. rewrite call_world. by eexists c, _. Qed.

(** A call, a change of the hub, and the snapshot of it published. *)
Lemma logs_change (P : Call -> Prop) c f (w : W) : P c -> logs P w ((call c ;; modify f ;; publishSafetySnapshot) w).2.
Proof.
  intros Hc. right. rewrite run_bind. cbv beta. rewrite run_bind. cbv beta. rewrite (proj1 (snapshot_world _)), snapshot_seen, call_world.
  by exists c, (call c w).1.
Qed.

Lemma step_logs (w w' : W) : Step w w' ->
  logs (fun c => reads c = false /\ (acts c = true -> entitled c (w_hub w) (w_catalog w) (w_trace w))) w w'.
Proof.
  intros [c Hc|A f|f Hf|f vs Hf Hk|f i v src tk Hi Ha Hr Hf|f t Hf Ht|f Hn|f Hn Ho Hv Hr|Hn Ha|Hn Ha|c Hc]; try (by left).
  - apply logs_call. by destruct c.
  - left. split; [apply draw_world|apply draw_seen].
  - by apply logs_change.
  - left. rewrite run_bind. cbv beta. by rewrite (proj1 (snapshot_world _)), snapshot_seen.
  - by apply logs_call.
  - by apply logs_change.
  - apply logs_call. by destruct c.
Qed.

Definition no_read (e : Event) : Prop := reads (what e) = false.

(** What has happened since, with no frame read. *)
Definition since (w w' : W) : Prop := exists new, w_trace w' = new ++ w_trace w /\ Forall no_read new.

#[local] Instance since_preorder : PreOrder since.
Proof.
  split; [by exists []|]. intros w1 w2 w3 (n1 & H1' & Hn1) (n2 & H2' & Hn2). exists (n2 ++ n1).
  rewrite H2', H1', app_assoc. by rewrite Forall_app.
Qed.

Lemma steps_since (w w' : W) : Steps w w' -> since w w'.
Proof.
  induction 1 as [|w1 w2 w3 Hs _ IH]; [reflexivity|]. etransitivity; [|exact IH].
  apply step_logs in Hs as [[Ht _]|(c & a & Ht & _ & Hr & _)]; [by exists []|]. exists [Did c a]. split; [exact Ht|by repeat constructor].
Qed.

Lemma quiets_since (w w' : W) : Quiets w w' -> since w w'.
Proof.
  induction 1 as [|w1 w2 w3 [? Hs|c|f s Hf|f Hf] _ IH]; [reflexivity|..]; (etransitivity; [|exact IH]); try (by exists []).
  by apply steps_since, rtc_once.
Qed.

(** The delegate is told of the ESTOP [f] before any further frame is read. *)
Definition told_next (f : EstopFrame) (later : list Event) : Prop :=
  exists after between, later = after ++ Did (onEstop (ef_cause f) (ef_origin f)) tt :: between /\ Forall no_read between.

Definition heeded (t : list Event) : Prop :=
  forall later tr fb f earlier,
    t = later ++ Did (t_read tr) (Some fb) :: earlier -> EstopFrame_ok f -> fb_bytes fb = EstopFrame_bytes f ->
    estop_told earlier = true \/ told_next f later.

Lemma app_split {A} (l1 l2 r1 r2 : list A) (x : A) :
  l1 ++ r1 = l2 ++ x :: r2 -> x ∉ l1 -> exists l, l2 = l1 ++ l /\ r1 = l ++ x :: r2.
Proof.
  revert l2. induction l1 as [|y l1 IH]; intros l2 Heq Hx; [by exists l2|].
  destruct l2 as [|z l2]; cbn in Heq; injection Heq as -> Heq; [by destruct Hx; left|].
  destruct (IH l2 Heq) as (l & -> & ->); [intros Hin; apply Hx; by right|]. by exists l.
Qed.

Lemma heeded_since new t : Forall no_read new -> heeded t -> heeded (new ++ t).
Proof.
  intros Hn Ht later tr fb f earlier Heq Hok Hfb. apply app_split in Heq as (l & -> & Heq).
  - destruct (Ht _ _ _ _ _ Heq Hok Hfb) as [He|(after & between & -> & Hb)]; [by left|right]. exists (new ++ after), between.
    by rewrite app_assoc.
  - intros Hin. rewrite Forall_forall in Hn. by specialize (Hn _ Hin).
Qed.

Definition heeds (w w' : W) : Prop := latch_told w /\ heeded (w_trace w) -> latch_told w' /\ heeded (w_trace w').

#[local] Instance heeds_preorder : PreOrder heeds.
Proof. unfold heeds. split; [by intros w|]. intros w1 w2 w3. auto. Qed.

Lemma since_heeds (w w' : W) : Moves w w' -> since w w' -> heeds w w'.
Proof.
  intros Hm (new & Ht & Hn) [Hl Hh]. split; [by eapply moves_latch_told|]. rewrite Ht. by apply heeded_since.
Qed.

Lemma heard_from_told i nowMs (w : W) : estop_told (w_trace (heard_from i nowMs w).2) = estop_told (w_trace w).
Proof.
  unfold heard_from. rewrite run_session, run_bind. cbv beta.
  match goal with |- context [reviveIfStale i nowMs ?x] => set (w1 := x); assert (H1' : w_trace w1 = w_trace w) end.
  { subst w1. by destruct (occupied _). }
  rewrite <- H1'. clearbody w1. clear H1'. unfold reviveIfStale. rewrite run_session. destruct (bool_decide _); cbn [negb]; [|done].
  rewrite run_bind. cbv beta. set (w2 := (on_session i _ w1).2). change (w_trace w1) with (w_trace w2).
  match goal with |- context [?m w2] => assert (Hm : keeps Calm m) by keeps_walk end. apply (calm_told _ _ (Hm w2)).
Qed.

Lemma genuine_estop f fb : EstopFrame_ok f -> fb_bytes fb = EstopFrame_bytes f ->
  forall i nowMs, take_frame i fb nowMs = (heard_from i nowMs ;; handleEstopFrame f nowMs : HubM E R ()).
Proof. intros Hok Hfb i nowMs. unfold take_frame. by rewrite Hfb, (decodeEstop_bytes f Hok). Qed.

(** A first ESTOP is told at once. *)
Lemma handleEstopFrame_tells f nowMs (w : W) : estopLatched (w_hub w) = false ->
  exists new, w_trace (handleEstopFrame f nowMs w).2 = new ++ Did (onEstop (ef_cause f) (ef_origin f)) tt :: w_trace w /\ Forall no_read new.
Proof.
  intros Hl. unfold handleEstopFrame. rewrite run_get, Hl. cbn [negb when]. rewrite run_bind. cbv beta.
  match goal with |- context [?m (?n w).2] => set (w1 := (n w).2); assert (Hm : keeps Steps m) by keeps_walk end.
  destruct (steps_since _ _ (Hm w1)) as (new & Ht & Hn). exists new. split; [|exact Hn]. rewrite Ht. f_equal. unfold w1.
  rewrite run_bind. cbv beta. rewrite run_bind. cbv beta. rewrite (proj1 (snapshot_world _)), call_world. cbn [modify snd w_trace].
  by destruct (call _ w).1.
Qed.

(** The frame an event brought. *)
Definition brought (e : Event) : option FrameBuffer :=
  match e with Did c a => match c return Answer c -> option FrameBuffer with t_read _ => id | _ => fun _ => None end a end.

Lemma read_heeded tr r t :
  heeded t -> (forall fb f, r = Some fb -> EstopFrame_ok f -> fb_bytes fb = EstopFrame_bytes f -> estop_told t = true) ->
  heeded (Did (t_read tr) r :: t).
Proof.
  intros Ht Hr [|e later] tr' fb f earlier Heq Hok Hfb; cbn in Heq.
  - pose proof (f_equal (fun l => e ← head l; brought e) Heq) as Hfr. cbn in Hfr.
    pose proof (f_equal tail Heq) as Ht'. cbn in Ht'. rewrite <- Ht'. left. by apply (Hr fb f).
  - injection Heq as <- Heq. destruct (Ht _ _ _ _ _ Heq Hok Hfb) as [He|(after & between & -> & Hb)]; [by left|right].
    by exists (Did (t_read tr) r :: after), between.
Qed.

(** The first ESTOP frame, once read. *)
Lemma first_estop_heeded i f fb tr nowMs (w w1 : W) :
  EstopFrame_ok f -> fb_bytes fb = EstopFrame_bytes f -> latch_told w1 -> heeded (w_trace w) ->
  w_trace w1 = Did (t_read tr) (Some fb) :: w_trace w -> estop_told (w_trace w) = false ->
  heeded (w_trace (take_frame i fb nowMs w1).2).
Proof.
  intros Hok Hfb Hl1 Hh Ht Htold. rewrite (genuine_estop f fb Hok Hfb), run_bind.
  destruct (heard_from_spec i nowMs w1) as [Hs1 _]. pose proof (heard_from_told i nowMs w1) as Htold1.
  set (w2 := (heard_from i nowMs w1).2) in *.
  assert (Hl2 : estopLatched (w_hub w2) = false).
  { destruct (moves_latch_told w1 w2) as [-> _]; [by apply turns_moves, steps_turns|done|]. by rewrite Htold1, Ht. }
  destruct (steps_since _ _ Hs1) as (between & Hw2 & Hb). destruct (handleEstopFrame_tells f nowMs w2 Hl2) as (after & -> & Ha).
  intros later tr' fb' f' earlier Heq Hok' Hfb'.
  rewrite Hw2, Ht in Heq. rewrite app_comm_cons, app_assoc in Heq.
  assert (Hn : Forall no_read (after ++ Did (onEstop (ef_cause f) (ef_origin f)) tt :: between)).
  { apply Forall_app. by split; [|constructor]. }
  apply app_split in Heq as (l & -> & Heq); [|intros Hin; rewrite Forall_forall in Hn; by specialize (Hn _ Hin)].
  destruct l as [|e l]; cbn [app] in Heq.
  - right. exists after, between. split; [|done]. rewrite app_nil_r.
    pose proof (f_equal (fun l => e ← head l; brought e) Heq) as [= <-]. rewrite Hfb in Hfb'.
    apply (f_equal decodeEstop) in Hfb'. rewrite !decodeEstop_bytes in Hfb' by done. by injection Hfb' as ->.
  - pose proof (f_equal tail Heq) as Heq'. cbn in Heq'.
    destruct (Hh _ _ _ _ _ Heq' Hok' Hfb') as [He|(after' & between' & -> & Hb')]; [by left|right].
    exists ((after ++ Did (onEstop (ef_cause f) (ef_origin f)) tt :: between) ++ e :: after'), between'. split; [|done].
    by rewrite <- (app_assoc _ (e :: after')).
Qed.

Lemma pumpSlot_heeds fuel i nowMs : keeps heeds (pumpSlot fuel i nowMs).
Proof.
  assert (Hs : forall A (m : HubM E R A), keeps Steps m -> keeps heeds m).
  { intros A m Hm w. apply since_heeds; [apply turns_moves, steps_turns, Hm|apply steps_since, Hm]. }
  induction fuel as [|fuel IH]; cbn [pumpSlot]; [apply Hs; keeps_walk|].
  apply keeps_bind; [apply _|apply Hs; keeps_walk|]. intros s. destruct (sl_transport s) as [t|]; [|apply Hs; keeps_walk].
  intros w [Hl Hh]. rewrite (run_call (t_read t)). cbv beta.
  assert (Hl1 : latch_told (call (t_read t) w).2) by (eapply moves_latch_told; [by eapply rtc_once, move_read|done]).
  pose proof (f_equal w_trace (call_world (t_read t) w)) as Ht. cbn [w_trace] in Ht.
  destruct (call (t_read t) w) as [r w1]. cbn [fst snd] in Ht, Hl1 |- *.
  assert (Hother : (forall fb f, r = Some fb -> EstopFrame_ok f -> fb_bytes fb = EstopFrame_bytes f -> estop_told (w_trace w) = true) ->
            latch_told w1 /\ heeded (w_trace w1)) by (intros Hr; split; [done|rewrite Ht; by apply read_heeded]).
  destruct r as [fb|]; [|exact (Hother ltac:(done))]. rewrite run_bind. cbv beta. apply IH.
  clear IH. assert (Htake : latch_told w1 /\ heeded (w_trace w1) -> latch_told (take_frame i fb nowMs w1).2 /\ heeded (w_trace (take_frame i fb nowMs w1).2)).
  { by apply Hs, take_frame_step. }
  destruct (estop_told (w_trace w)) eqn:Htold; [by apply Htake, Hother|].
  destruct (decodeEstop (fb_bytes fb)) as [f|] eqn:Hf.
  2: { apply Htake, Hother. intros fb' f [= <-] Hok Hfb. by rewrite Hfb, (decodeEstop_bytes f Hok) in Hf. }
  destruct (decide (fb_bytes fb = EstopFrame_bytes f)) as [Hfb|Hfb].
  2: { apply Htake, Hother. intros fb' f' [= <-] Hok Hfb'. rewrite Hfb', (decodeEstop_bytes f' Hok) in Hf. congruence. }
  split; [by eapply moves_latch_told; [apply turns_moves, steps_turns, take_frame_step|]|].
  apply decodeEstop_ok in Hf as (Hok & _). by eapply first_estop_heeded.
Qed.

(** C8. An ESTOP frame that comes in on any transport is never missed: through every life of a hub, whatever
    else arrives before and after it and whatever state the slot is in, once a read brings the twelve bytes of
    an ESTOP the delegate is told its cause and origin before any further frame is read - unless an ESTOP was
    in force already.  (That the hub's latch is set from then on, until the delegate agrees to clear it, is
    [estop_latch_is_what_the_delegate_was_told].) *)
Theorem wire_estops_are_heard c env rng calls tr fb f earlier later :
  Forall (fun a => allowed a = true) calls ->
  EstopFrame_ok f -> fb_bytes fb = EstopFrame_bytes f ->
  let w := (life calls (powered_on c env rng : W)).2 in
  w_trace w = later ++ Did (t_read tr) (Some fb) :: earlier ->
  estop_told earlier = true \/
  exists after between, later = after ++ Did (onEstop (ef_cause f) (ef_origin f)) tt :: between
    /\ Forall (fun e => reads (what e) = false) between.
Proof.
  intros Hc Hok Hfb. cbn zeta. intros Ht.
  assert (Hh : keeps heeds (life calls)).
  { apply life_keeps; [apply _| |intros; apply pumpSlot_heeds|done].
    intros w w' Hq. apply since_heeds; [by apply quiets_moves|by apply quiets_since]. }
  destruct (Hh (powered_on c env rng)) as [_ Hheard]; [split; [done|intros later' ????; by destruct later']|].
  by eapply Hheard.
Qed.


(** ** The snapshot *)

Definition republished (h : Hub) : Hub :=
  h <| _retained := fst (RetainedStore.publish kRetainedStates channels.safety (buildSafetyPayload h) (_retained h)) |>.

(** A step leaves the snapshot and what it is of, or publishes it anew. *)
Lemma step_snapshot (w w' : W) : Step w w' ->
  (shown (w_hub w') = shown (w_hub w) /\ buildSafetyPayload (w_hub w') = buildSafetyPayload (w_hub w))
  \/ exists h, _retained h = _retained (w_hub w) /\ w_hub w' = republished h.
Proof.
  assert (Hsame : forall h h' : Hub, c_word (core h') = _safetyWord h -> c_modes (core h') = _safetyModes h -> c_cause (core h') = _safetyCause h ->
            c_owner_session (core h') = _safetyOwnerSession h -> c_estopSeq (core h') = _estopSeq h -> c_shown (core h') = shown h ->
            shown h' = shown h /\ buildSafetyPayload h' = buildSafetyPayload h).
  { unfold core. cbn. intros h h' H1' H2' H3' H4' H5' H6'. split; [done|]. unfold buildSafetyPayload. congruence. }
  intros Hs. destruct Hs as [c Hc|A f|f Hf|f vs Hf _|f i v src tk _ _ _ Hf|f t Hf _|f Hn|f Hn Ho Hv Hr|Hn Ha|Hn Ha|c Hc].
  all: try (left; rewrite call_world; done).
  - left. by destruct (draw_world f w) as [-> _].
  - left. by apply Hsame; rewrite (Hf : core (w_hub (modify f w).2) = _).
  - left. by apply Hsame; rewrite (Hf : core (w_hub (modify f w).2) = _).
  - left. by apply Hsame; rewrite (Hf : core (w_hub (modify f w).2) = _).
  - left. by apply Hsame; rewrite (Hf : core (w_hub (modify f w).2) = _).
  - right. rewrite run_bind. cbv beta. rewrite run_bind. cbv beta. rewrite (proj2 (snapshot_world _)), call_world.
    by exists (latch f (w_hub w)).
  - right. rewrite run_bind. cbv beta. rewrite (proj2 (snapshot_world _)). by exists (f (w_hub w)).
  - right. rewrite run_bind. cbv beta. rewrite run_bind. cbv beta. rewrite (proj2 (snapshot_world _)), call_world.
    by exists (unlatch (w_hub w)).
Qed.

Lemma snapshot_fits (h : Hub) : (length (buildSafetyPayload h) <= min_transport_payload)%nat.
Proof. unfold min_transport_payload. change (9 <= 242)%nat. lia. Qed.

Lemma republished_shows (h : Hub) : is_Some (head (shown h)) -> length (shown h) = 1%nat -> shows_core (republished h).
Proof.
  intros _ Hl. pose proof (publish_there kRetainedStates channels.safety (buildSafetyPayload h) (_retained h) (snapshot_fits h)) as Hp.
  unfold shown in Hl. destruct (held _ _) as [|x [|]]; try done.
Qed.

Lemma republished_first (h : Hub) :
  shown h = [] -> shown (republished h) = if (kRetainedStates <=? length (_retained h))%nat then [] else [(true, buildSafetyPayload (republished h))].
Proof.
  intros Hl. pose proof (publish_there kRetainedStates channels.safety (buildSafetyPayload h) (_retained h) (snapshot_fits h)) as Hp.
  unfold shown in Hl. by rewrite Hl in Hp.
Qed.

Definition never_stale (w : W) : Prop := shown (w_hub w) = [] \/ shows_core (w_hub w).

Lemma step_shows (w w' : W) : Step w w' -> shows_core (w_hub w) -> shows_core (w_hub w').
Proof.
  unfold shows_core. intros [[-> ->]|(h & Hr & ->)]%step_snapshot Hs; [done|]. unfold shown in Hs. rewrite <- Hr in Hs.
  apply republished_shows; unfold shown; by rewrite Hs.
Qed.

Lemma move_never_stale (w w' : W) : Move w w' -> never_stale w -> never_stale w'.
Proof.
  unfold never_stale. intros [? [? Hs|c|f s Hf|f Hf]|t]; [|done|..|by rewrite call_world].
  - intros [Hn|Hc]; [|right; by eapply step_shows]. apply step_snapshot in Hs as [[Hsh Hb]|(h & Hr & Hh)]; [left; congruence|].
    unfold shown in Hn. rewrite <- Hr in Hn. rewrite Hh. pose proof (republished_first h Hn) as Hp. case_match; [by left|by right].
  - assert (Hsh : shown (f (w_hub w)) = shown (w_hub w)) by exact (f_equal c_shown Hf). unfold shows_core. cbn [modify snd w_hub].
    rewrite Hsh. intros [->| ->]; [by left|right]. unfold buildSafetyPayload.
    pose proof (f_equal c_word Hf) as H1'. pose proof (f_equal c_modes Hf) as H2'. pose proof (f_equal c_cause Hf) as H3'.
    pose proof (f_equal c_owner_session Hf) as H4'. pose proof (f_equal c_estopSeq Hf) as H5'. cbn in H1', H2', H3', H4', H5'. congruence.
  - assert (Hsh : shown (f (w_hub w)) = tail (shown (w_hub w))) by exact (f_equal c_shown Hf). cbn [modify snd w_hub].
    rewrite Hsh. intros [->| ->]; by left.
Qed.

Lemma moves_never_stale (w w' : W) : Moves w w' -> never_stale w -> never_stale w'.
Proof. induction 1 as [|w1 w2 w3 Hs _ IH]; [done|]. intros Hw. by eapply IH, move_never_stale. Qed.

(** With the safety channel's entry left alone: the snapshot is there, and a change does not take it. *)
Record Kept (D : list EntryDigest) (w : W) : Prop := mkKept {
  kept_shows : shows_core (w_hub w);
  kept_sorted : StronglySorted digest_before (_digests (w_hub w));
  kept_served : safety_of (_digests (w_hub w)) = D;
  kept_catalog : encodes (w_catalog w) = true -> safety_of (digests_of (w_catalog w)) = D }.

Lemma steps_kept D (w w' : W) : Steps w w' -> Kept D w -> Kept D w'.
Proof.
  intros Hs [Hsh Hso Hse Hc]. destruct (steps_served _ _ Hs) as [Hcat Hserved].
  assert (Hd : _digests (w_hub w') = _digests (w_hub w)) by (unfold served in Hserved; congruence).
  split; [|by rewrite Hd..|by rewrite Hcat]. clear - Hs Hsh H H0 H1 H2. revert Hsh.
  induction Hs as [|w1 w2 w3 Hs _ IH]; [done|]. intros Hw. by eapply IH, step_shows.
Qed.

Lemma turns_kept D (w w' : W) : Turns w w' -> Kept D w -> Kept D w'.
Proof.
  induction 1 as [|w1 w2 w3 [? Hs|t] _ IH]; [done|..]; intros Hk; apply IH.
  - eapply steps_kept; [by apply rtc_once|done].
  - rewrite call_world. by destruct Hk.
Qed.

Lemma kept_serving D f (w : W) :
  Kept D w -> encodes (w_catalog w) = true -> (forall h, shows_core h -> shows_core (f h)) ->
  (forall h, _digests (f h) = digests_of (w_catalog w)) -> Kept D (modify f w).2.
Proof.
  intros [Hsh Hso Hse Hc] He Hf Hd. split; cbn [modify snd w_hub w_catalog]; [by apply Hf|rewrite Hd..|done].
  - apply digests_ascending.
  - by apply Hc.
Qed.

Lemma safety_not_withdrawn D (before after : list EntryDigest) :
  StronglySorted digest_before before -> StronglySorted digest_before after -> safety_of before = D -> safety_of after = D ->
  ~ In channels.safety (withdrawn before after).
Proof.
  intros Hb Ha Hbd Had. rewrite withdrawn_changes by done. unfold changes. rewrite in_map_iff. intros (b & Hid & Hin).
  apply list_elem_of_In, list_elem_of_filter in Hin as [Hn Hin]. apply Hn.
  assert (Hs : In b (safety_of before)) by (apply filter_In; split; [by apply list_elem_of_In|by apply Z.eqb_eq]).
  rewrite Hbd, <- Had in Hs. apply filter_In in Hs as [Hs _]. by apply list_elem_of_In.
Qed.

Lemma catalog_moved_kept D (w : W) : Kept D w -> Kept D (catalog_moved w).2.
Proof.
  intros Hk. rewrite run_catalog_moved. destruct (encodes (w_catalog w)) eqn:He; cbn [negb].
  2: { destruct Hk. by split. }
  destruct (bool_decide _); cbn [snd].
  - by apply kept_serving.
  - assert (Hk' : Kept D (modify (fun h => serving (w_catalog w) h <| _etag := etag_of (w_catalog w) |>) w).2) by (by apply kept_serving).
    eapply steps_kept; [|exact Hk']. rewrite run_bind. etransitivity; [|apply announce_step].
    apply withdraw_step. destruct Hk as [_ Hso Hse Hc]. apply (safety_not_withdrawn D); auto using digests_ascending.
Qed.

Lemma catalogChanged_kept D (w : W) : Kept D w -> Kept D (catalogChanged w).2.
Proof.
  intros Hk. unfold catalogChanged. rewrite run_catalog. destruct (overflow _); [done|].
  rewrite run_muted. set (w1 := (modify _ w).2).
  assert (Hk1 : Kept D w1) by (destruct Hk; by split). apply catalog_moved_kept in Hk1. clearbody w1. destruct Hk1. by split.
Qed.

Lemma run_kept D call (w : W) :
  allowed call = true -> match call with api_edit c => encodes c = true -> safety_of (digests_of c) = D | _ => True end ->
  Kept D w -> Kept D (run call w).2.
Proof.
  intros Ha Hc Hk. destruct (ordinary call) eqn:Ho; [by eapply steps_kept; [apply run_step|]|]. destruct call; try done; cbn [run].
  - eapply turns_kept; [apply update_turns|done].
  - destruct Hk. by split.
  - unfold ignore. rewrite run_bind. by apply catalogChanged_kept.
Qed.

Lemma runs_kept c calls (w : W) :
  Forall (fun a => allowed a = true) calls -> Forall (keeps_safety c) calls ->
  Kept (safety_of (kept_digests c)) w -> Kept (safety_of (kept_digests c)) (each run calls w).2.
Proof.
  intros Ha. revert w. induction Ha as [|call calls Ha _ IH]; intros w Hc Hk; [done|]. apply Forall_cons in Hc as [Hc Hcs].
  cbn [each]. rewrite run_bind. apply IH; [done|]. apply run_kept; [done|by destruct call|done].
Qed.

(** From the constructor on: the snapshot is there once it has been published. *)
Lemma publish_length n ch p s : (length (fst (RetainedStore.publish n ch p s)) <= S (length s))%nat.
Proof.
  unfold RetainedStore.publish. repeat case_match; cbn [fst]; try lia.
  - rewrite length_insert. lia.
  - rewrite length_app. cbn. lia.
Qed.

(** Before the snapshot is published: few values retained, the catalog as it is, its digests served. *)
Record Booting (c : Catalog.Catalog) (w : W) : Prop := mkBooting {
  boot_room : (length (_retained (w_hub w)) <= 1)%nat;
  boot_shown : shown (w_hub w) = [];
  boot_catalog : w_catalog w = c;
  boot_digests : _digests (w_hub w) = kept_digests c }.

Lemma booted c (w : W) : Booting c w -> Kept (safety_of (kept_digests c)) (publishSafetySnapshot w).2.
Proof.
  intros [Hr Hs Hc Hd]. split.
  - rewrite (proj2 (snapshot_world _)). unfold shows_core. etransitivity; [exact (republished_first (w_hub w) Hs)|].
    rewrite (proj2 (Nat.leb_gt _ _)) by (unfold kRetainedStates; lia). done.
  - rewrite (proj2 (snapshot_world _)). change (StronglySorted digest_before (_digests (w_hub w))). rewrite Hd.
    unfold kept_digests. destruct (encodes c); [apply digests_ascending|constructor].
  - rewrite (proj2 (snapshot_world _)). change (safety_of (_digests (w_hub w)) = safety_of (kept_digests c)). by rewrite Hd.
  - rewrite snapshot_catalog, Hc. intros He. unfold kept_digests. by rewrite He.
Qed.

Lemma first_encode_digests (w : W) :
  let w' := (first_encode w).2 in
  _retained (w_hub w') = _retained (w_hub w) /\ w_catalog w' = w_catalog w /\ _digests (w_hub w') = kept_digests (w_catalog w).
Proof.
  cbn zeta. unfold first_encode. rewrite run_encode, run_catalog. split_and!; [done|done|].
  cbn [modify snd w_hub w_catalog]. unfold kept_digests, encodes.
  change (_catalogEncoded (encoded_as (w_catalog w) (w_hub w))) with (served_bytes (w_catalog w)).
  by destruct (blank (served_bytes (w_catalog w))).
Qed.

Lemma publishCatalogState_booting c (w : W) :
  _retained (w_hub w) = [] -> w_catalog w = c -> _digests (w_hub w) = kept_digests c -> Booting c (publishCatalogStateIfPresent w).2.
Proof.
  intros Hr Hc Hd.
  assert (Hs : shown (w_hub (publishCatalogStateIfPresent w).2) = []).
  { transitivity (shown (w_hub w)); [|unfold shown; by rewrite Hr]. exact (f_equal c_shown (calm_core _ _ (publishCatalogState_calm w))). }
  assert (Hcd : w_catalog (publishCatalogStateIfPresent w).2 = c /\ _digests (w_hub (publishCatalogStateIfPresent w).2) = kept_digests c).
  { destruct (steps_served _ _ (calm_steps _ _ (publishCatalogState_calm w))) as [Hc' Hv]. unfold served in Hv. split; congruence. }
  destruct Hcd as [Hc' Hd']. split; [|done..]. unfold publishCatalogStateIfPresent. rewrite run_catalog, run_get.
  assert (Hz : (length (_retained (w_hub w)) <= 1)%nat) by (rewrite Hr; cbn; lia).
  destruct (has (Catalog.find channels.catalog (w_catalog w))); cbn [negb]; [|exact Hz].
  case_match; [exact Hz|]. rewrite run_bind. unfold publishState. rewrite run_get.
  match goal with |- context [RetainedStore.publish ?n ?ch ?p ?s] => pose proof (publish_length n ch p s) as Hl end.
  rewrite Hr in Hl |- *. destruct (RetainedStore.publish _ _ _ _) as [s r]. exact Hl.
Qed.

Lemma boot_kept (w : W) :
  has (Catalog.find channels.safety (w_catalog w)) = true -> _retained (w_hub w) = [] ->
  Kept (safety_of (kept_digests (w_catalog w))) (Hub_boot w).2.
Proof.
  intros Hc Hr. set (c := w_catalog w) in *. unfold Hub_boot. rewrite run_bind. rewrite run_get. destruct (call_hub nowUs w) as (Hh & Hcat & _).
  destruct (SerialArith.advance _ _) as [mono nowMs]. rewrite run_bind. cbv beta.
  match goal with |- context [modify ?f ?w0] => set (w1 := (modify f w0).2) end.
  assert (H1' : w_catalog w1 = c /\ _retained (w_hub w1) = []).
  { split; [exact Hcat|]. transitivity (_retained (w_hub (call nowUs w).2)); [done|]. etransitivity; [exact (f_equal _retained Hh)|exact Hr]. }
  clearbody w1. clear Hr Hh Hcat. destruct H1' as [Hc1 Hr1]. rewrite run_bind. cbv beta.
  destruct (first_encode_digests w1) as (Hr2 & Hc2 & Hd2). set (w2 := (first_encode w1).2) in *. clearbody w2.
  rewrite run_bind. cbv beta.
  assert (H3' : Booting c (publishCatalogStateIfPresent w2).2) by (apply publishCatalogState_booting; congruence).
  set (w3 := (publishCatalogStateIfPresent w2).2) in *. clearbody w3. rewrite run_bind. cbv beta.
  assert (H4' : Booting c (draw_nonzero w3).2).
  { unfold draw_nonzero, draw. destruct H3'. by destruct (nonzero_from _ _). }
  set (w4 := (draw_nonzero w3).2) in *. clearbody w4. rewrite run_bind. cbv beta.
  match goal with |- context [modify ?f w4] => set (w5 := (modify f w4).2) end.
  assert (H5' : Booting c w5) by (destruct H4'; by split). clearbody w5.
  rewrite run_bind. unfold catalog_has. rewrite run_catalog. rewrite (boot_catalog _ _ H5'), Hc. cbn [mret StateM_ret fst snd when].
  rewrite run_bind. cbv beta. pose proof (booted c w5 H5') as H6'. set (w6 := (publishSafetySnapshot w5).2) in *. clearbody w6.
  match goal with |- context [?k w6] => assert (Hk : keeps Steps k) by keeps_walk end. eapply steps_kept; [apply Hk|done].
Qed.

(** C5. What a client is shown of the safety channel is never out of date: whatever happens, and however the
    catalog is changed, what the hub retains for it is the encoding of its present safety word, cause, owner,
    ESTOP sequence number and modes.  And it is never missing, from the constructor on, where the catalog has
    the channel and the application's changes leave that entry as it is. *)
Theorem safety_snapshot_is_current c env rng calls :
  Forall (fun a => allowed a = true) calls -> has (Catalog.find channels.safety c) = true ->
  let h := w_hub (life calls (powered_on c env rng : W)).2 in
  match RetainedStore.get channels.safety (_retained h) with
  | Some (_, payload) => payload = buildSafetyPayload h
  | None => ~ Forall (keeps_safety c) calls
  end.
Proof.
  intros Hc Hs. cbn zeta.
  assert (Hv : never_stale (life calls (powered_on c env rng : W)).2) by (eapply moves_never_stale; [by apply life_moves|by left]).
  assert (Hk : Forall (keeps_safety c) calls -> shows_core (w_hub (life calls (powered_on c env rng : W)).2)).
  { intros Hks. unfold life. rewrite run_bind. eapply kept_shows, runs_kept; [done|done|].
    by apply (boot_kept (powered_on c env rng)). }
  set (h := w_hub (life calls (powered_on c env rng : W)).2) in *. unfold never_stale in Hv. fold h in Hv.
  destruct Hv as [Hn|Hh].
  - rewrite (get_not_held _ _ Hn). intros Hks%Hk. unfold shows_core in Hks. congruence.
  - pose proof (get_held _ _ _ Hh) as Hg. destruct (RetainedStore.get _ _) as [[sq p]|]; [|done]. by injection Hg.
Qed.
End Latch.

(** ** On the bench: a client joins and moves a source; an ESTOP comes, and is cleared *)

Definition bench_estop : list ApiCall :=
  [api_attach 0; api_update 4 1000000; api_latchEstop 1 2; api_update 4 1100000; api_releaseEstop].
Definition bench_joined : Bench := bench [(0%nat, hello_frame Byte.x05); (0%nat, intent_frame 0x300 7 [(1, VU64 3)])] false true.

(** An ESTOP on the wire, between the frames of a client that joins and moves. *)
Definition wire_estop : EstopFrame := mkEstopFrame 0 1 5.
Definition bench_wire : Bench :=
  bench [(0%nat, hello_frame Byte.x05); (0%nat, FrameBuffer_from (EstopFrame_bytes wire_estop)); (0%nat, intent_frame 0x300 7 [(1, VU64 3)])] false false.

Abbreviation wire_life := (bench_run [api_attach 0; api_update 4 1000000] bench_wire) (only parsing).

Lemma estop_latch_is_what_the_delegate_was_told_witness :
  let w := bench_run bench_estop bench_joined in
  estopLatched (w_hub w) = false /\ estop_told (w_trace w) = false /\ estopLatched (w_hub wire_life) = true.
Proof.
  unfold bench_run. cbv zeta.
  pose proof (estop_latch_is_what_the_delegate_was_told bench_catalog bench_joined (mkCounter 1)
    bench_estop ltac:(repeat constructor)) as [He _].
  pose proof (estop_latch_is_what_the_delegate_was_told bench_catalog bench_wire (mkCounter 1)
    [api_attach 0; api_update 4 1000000] ltac:(repeat constructor)) as [Hw _].
  split; [rewrite He; vm_compute; reflexivity|]. split; [vm_compute; reflexivity|]. rewrite Hw. vm_compute. reflexivity.
Defined.

(** The twelfth event from the end is the read that brings it. *)
Lemma wire_estops_are_heard_witness :
  estopLatched (w_hub wire_life) = true /\
  exists after between, take 11 (w_trace wire_life) = after ++ Did (onEstop 0 1) tt :: between
    /\ Forall (fun e => reads (what e) = false) between.
Proof.
  split; [vm_compute; reflexivity|].
  destruct (wire_estops_are_heard bench_catalog bench_wire (mkCounter 1) [api_attach 0; api_update 4 1000000] 0%nat
    (FrameBuffer_from (EstopFrame_bytes wire_estop)) wire_estop (drop 12 (w_trace wire_life)) (take 11 (w_trace wire_life)))
    as [Ht|Ht].
  - repeat constructor.
  - unfold EstopFrame_ok, in_u; cbn; lia.
  - reflexivity.
  - vm_compute. reflexivity.
  - exfalso. revert Ht. vm_compute. discriminate.
  - exact Ht.
Defined.

Lemma safety_snapshot_is_current_witness :
  snd <$> RetainedStore.get channels.safety (_retained (w_hub (bench_run bench_estop bench_joined)))
  = Some (map z2b [8; 1; 0; 0; 0; 0; 1; 0; 0]).
Proof.
  pose proof (safety_snapshot_is_current bench_catalog bench_joined (mkCounter 1) bench_estop ltac:(repeat constructor) eq_refl) as Hs.
  unfold bench_run. cbv zeta in Hs. destruct (RetainedStore.get _ _) as [[sq p]|].
  - rewrite Hs. vm_compute. reflexivity.
  - destruct Hs. repeat constructor.
Defined.
