(* ===== verification/HubGates.v ===== *)
(** * HubGates: who may move what, over the whole life of a hub *)

From S2P Require Import Prelude ByteIO Tables Crypto Safety Shedding Frame Estop StateChannel StreamBundle MsgIntent MsgHello MsgTrust MsgWish.
From S2P Require Import Catalog Registry HubSession HubState StateM HubWorld HubCore HubSafety HubPump HubUpdate HubSteps.
From S2P Require Import HubWalk HubWalkMotion HubWalkAll HubWithdraw HubBench HubLatch.
#[local] Open Scope Z_scope.

Section Gates.
Context {E R : Type} `{Env E} `{FairRandom R} `{ICrypto}.
Abbreviation W := (World E R) (only parsing).

(** ** Ownership *)

Definition owners_active (w : W) : Prop :=
  forall src, ownerOf src (_ownership (w_hub w)) <> 0 -> active (ownerOf src (_ownership (w_hub w))) (sessions (w_hub w)).

Lemma owners_active_core (w w' : W) :
  c_owners (core (w_hub w')) = c_owners (core (w_hub w)) -> c_sessions (core (w_hub w')) = c_sessions (core (w_hub w)) ->
  owners_active w -> owners_active w'.
Proof. unfold owners_active, core. cbn. by intros -> ->. Qed.

Lemma step_owners_active (w w' : W) : Step w w' -> owners_active w -> owners_active w'.
Proof.
  intros Hs Hw. destruct Hs as [c Hc|A f|f Hf|f vs Hf Hk|f i v src tk Hi Ha Hr Hf|f t Hf Ht|f Hn|f Hn Ho Hv Hr|Hn Ha|Hn Ha|c Hc].
  - apply (owners_active_core w); [by rewrite call_world..|done].
  - destruct (draw_world f w) as [Hh _]. apply (owners_active_core w); [by rewrite Hh..|done].
  - apply (owners_active_core w); [by rewrite <- Hf..|done].
  - assert (Ho : _ownership (f (w_hub w)) = _ownership (w_hub w)) by exact (f_equal c_owners Hf).
    intros src Hsrc. cbn in Hsrc |- *. rewrite Ho in Hsrc |- *.
    destruct (Hk _ Hsrc (Hw src Hsrc)) as [Hact|Hdis]; [exact Hact|]. by destruct (Hdis src).
  - intros src' Hsrc'. assert (Ho := f_equal c_owners Hf). assert (Hv := f_equal c_sessions Hf). cbn in Hsrc', Ho, Hv |- *.
    rewrite Ho in Hsrc' |- *. rewrite Hv.
    destruct (acquire_owners src (v_id v) (v_role v) tk (_ownership (w_hub w)) src') as [Heq|Heq]; rewrite Heq in Hsrc' |- *.
    + by apply Hw.
    + exists v. split; [|done]. apply list_elem_of_In, list_elem_of_lookup. by exists i.
  - intros src Hsrc. assert (Ho := f_equal c_owners Hf). assert (Hv := f_equal c_sessions Hf). cbn in Hsrc, Ho, Hv |- *.
    rewrite Ho in Hsrc |- *. rewrite Hv. destruct (Ht src) as [Hz|Hz]; rewrite Hz in Hsrc |- *; [by apply Hw|done].
  - rewrite run_bind. cbv beta. rewrite run_bind. cbv beta.
    apply (owners_active_core w); [rewrite (proj2 (snapshot_world _)); by rewrite call_world..|done].
  - rewrite run_bind. cbv beta. apply (owners_active_core w); [rewrite (proj2 (snapshot_world _))..|done]; [exact Ho|exact Hv].
  - apply (owners_active_core w); [by rewrite call_world..|done].
  - rewrite run_bind. cbv beta. rewrite run_bind. cbv beta.
    apply (owners_active_core w); [rewrite (proj2 (snapshot_world _)); by rewrite call_world..|done].
  - apply (owners_active_core w); [by rewrite call_world..|done].
Qed.

Lemma move_owners_active (w w' : W) : Move w w' -> owners_active w -> owners_active w'.
Proof.
  intros [? [? Hs|c|f s Hf|f Hf]|t]; [by apply step_owners_active|done|..]; apply owners_active_core.
  - exact (f_equal c_owners Hf).
  - exact (f_equal c_sessions Hf).
  - exact (f_equal c_owners Hf).
  - exact (f_equal c_sessions Hf).
  - by rewrite call_world.
  - by rewrite call_world.
Qed.

(** C3. Control never outlives its session: at every moment of every life of a hub, whoever owns a source is a
    session in one of the slots, and one that is neither gone nor stale - through takeovers, disconnects,
    evictions, resumptions in another slot, write failures and every other path a session can take. *)
Theorem owners_are_active_sessions c env rng calls src :
  Forall (fun a => allowed a = true) calls ->
  let h := w_hub (life calls (powered_on c env rng : W)).2 in
  ownerOf src (_ownership h) <> 0 ->
  exists s, In s (_slots h) /\ hs_session_id (sl_session s) = ownerOf src (_ownership h)
    /\ occupied (sl_session s) = true /\ hs_state (sl_session s) <> STALE.
Proof.
  intros Hc. assert (Hi : owners_active (powered_on c env rng : W)) by (by intros src'; cbn).
  pose proof (life_moves calls Hc (powered_on c env rng)) as Hs. cbn zeta.
  assert (Hw : owners_active (life calls (powered_on c env rng : W)).2).
  { revert Hi. induction Hs as [|w1 w2 w3 Hs _ IH]; [done|]. intros Hi. by eapply IH, move_owners_active. }
  intros Hsrc. destruct (Hw src Hsrc) as (v & Hin & Ha & Hid). unfold sessions in Hin. apply in_map_iff in Hin as (s & <- & Hin).
  exists s. split_and!; [done|done|..]; revert Ha; unfold v_active, occupied; cbn; by destruct (hs_state (sl_session s)).
Qed.

(** ** Acting for a client *)

(** A call with the hub and the catalog it was made on; whoever acted for a client was entitled to it there and then. *)
Inductive witnessed : list Event -> list (Hub * Catalog) -> Prop :=
| witnessed_nil : witnessed [] []
| witnessed_cons c a t h cat seen :
    (acts c = true -> entitled c h cat t) -> witnessed t seen -> witnessed (Did c a :: t) ((h, cat) :: seen).

Lemma witnessed_at later c a earlier seen :
  witnessed (later ++ Did c a :: earlier) seen -> acts c = true ->
  exists h cat, seen !! length later = Some (h, cat) /\ entitled c h cat earlier.
Proof.
  revert seen. induction later as [|e later IH]; intros seen Hw Hc; cbn [app] in Hw.
  - inversion Hw as [|c' a' t h cat seen' He Ht Heq1 Heq2]; subst. exists h, cat. by split; [|apply He].
  - inversion Hw as [|c' a' t h cat seen' He Ht Heq1 Heq2]; subst. by apply IH.
Qed.

Lemma move_logs (w w' : W) : Move w w' -> logs (fun c => acts c = true -> entitled c (w_hub w) (w_catalog w) (w_trace w)) w w'.
Proof.
  intros [? [? Hs|c|f s Hf|f Hf]|t]; [|by left..|by apply logs_call].
  apply step_logs in Hs as [Hs|(c & a & Ht & Hseen & _ & Hc)]; [by left|right; by exists c, a].
Qed.

Lemma moves_witnessed (w w' : W) : Moves w w' -> witnessed (w_trace w) (w_seen w) -> witnessed (w_trace w') (w_seen w').
Proof.
  induction 1 as [|w1 w2 w3 Hs _ IH]; [done|]. intros Hw. apply IH.
  destruct (move_logs _ _ Hs) as [[-> ->]|(c & a & -> & -> & He)]; [done|by constructor].
Qed.

Lemma acted_when_entitled cat0 env rng calls c a earlier later :
  Forall (fun a => allowed a = true) calls -> acts c = true ->
  let w := (life calls (powered_on cat0 env rng : W)).2 in
  w_trace w = later ++ Did c a :: earlier ->
  exists h cat, w_seen w !! length later = Some (h, cat) /\ entitled c h cat earlier.
Proof.
  intros Hc Hact. cbn zeta. intros Ht.
  pose proof (moves_witnessed _ _ (life_moves calls Hc (powered_on cat0 env rng)) witnessed_nil) as Hw.
  rewrite Ht in Hw. by eapply witnessed_at.
Qed.

(** C1. Whenever the delegate is made to apply an intent, the session it is applied for has every right to it
    in the hub as it is when the call is made ([w_seen] keeps the hub and the catalog next to every call): it
    is neither gone nor stale and has adopted the catalog; the channel takes intents and
    the session's role reaches what its fields demand; the delegate has said which source the channel moves
    and the session owns that source; and unless PAUSE is off the delegate has just admitted this very
    motion.  So no order of frames, ticks and calls lets a stale, unready, under-privileged or usurped session
    act, and a paused machine does not move by an intent. *)
Theorem intents_are_applied_by_right c env rng calls act ch fields role a earlier later :
  Forall (fun a => allowed a = true) calls ->
  act = applyIntent ch fields role \/ act = applyTrialIntent ch fields role ->
  let w := (life calls (powered_on c env rng : W)).2 in
  w_trace w = later ++ Did act a :: earlier ->
  exists h cat i, w_seen w !! length later = Some (h, cat) /\ may_apply i ch fields role h cat earlier.
Proof.
  intros Hc Hact. cbn zeta. intros Ht. assert (Hacts : acts act = true) by (by destruct Hact as [->| ->]).
  destruct (acted_when_entitled _ _ _ _ _ _ _ _ Hc Hacts Ht) as (h & cat & Hs & Hm).
  exists h, cat. destruct Hact as [->| ->]; destruct Hm as [i Hm]; by exists i.
Qed.

(** C4. The same for streams: a bundle reaches the delegate only from a session that is awake and ready in
    the hub as it is when the call is made, holds a publish grant on that client-to-hub STREAM channel of the
    catalog, owns the source the channel moves, sent at least one sample, and is not held by PAUSE. *)
Theorem bundles_are_delivered_by_right c env rng calls ch session b a earlier later :
  Forall (fun a => allowed a = true) calls ->
  let w := (life calls (powered_on c env rng : W)).2 in
  w_trace w = later ++ Did (onStreamBundle ch session b) a :: earlier ->
  exists h cat i, w_seen w !! length later = Some (h, cat) /\ may_deliver i ch session b h cat earlier.
Proof.
  intros Hc. cbn zeta. intros Ht.
  destruct (acted_when_entitled _ _ _ _ (onStreamBundle ch session b) _ _ _ Hc eq_refl Ht) as (h & cat & Hs & i & Hm). by exists h, cat, i.
Qed.
End Gates.

(** ** On the bench *)

Lemma owners_are_active_sessions_witness :
  let h := w_hub (bench_run bench_estop bench_joined) in ownerOf 1 (_ownership h) = 2 /\
  exists s, In s (_slots h) /\ hs_session_id (sl_session s) = 2 /\ occupied (sl_session s) = true /\ hs_state (sl_session s) <> STALE.
Proof.
  unfold bench_run. cbv zeta.
  pose proof (owners_are_active_sessions bench_catalog bench_joined (mkCounter 1) bench_estop 1
    ltac:(repeat constructor)) as Ho. cbv zeta in Ho.
  assert (Heq : ownerOf 1 (_ownership (w_hub (life bench_estop (powered_on bench_catalog bench_joined (mkCounter 1))).2)) = 2)
    by (vm_compute; reflexivity).
  split; [exact Heq|]. rewrite Heq in Ho. by apply Ho.
Defined.

(** The tenth event from the end is the client's motion. *)
Lemma intents_are_applied_by_right_witness :
  exists h cat i, w_seen (bench_run bench_estop bench_joined) !! 9%nat = Some (h, cat) /\
    may_apply i 0x300 [(1, VU64 3)] AccessLevel.configure h cat (drop 10 (w_trace (bench_run bench_estop bench_joined))).
Proof.
  apply (intents_are_applied_by_right bench_catalog bench_joined (mkCounter 1) bench_estop
    (applyIntent 0x300 [(1, VU64 3)] AccessLevel.configure) 0x300 [(1, VU64 3)] AccessLevel.configure (ok [(1, VU64 3)], false)
    (drop 10 (w_trace (bench_run bench_estop bench_joined))) (take 9 (w_trace (bench_run bench_estop bench_joined)))).
  - repeat constructor.
  - by left.
  - vm_compute. reflexivity.
Defined.

Definition stream_frame : list byte :=
  let w := fst (addSample (BundleWriter_new (replicate 64 Byte.x00) 0 0 1 20000) 0 []) in take (bw_finalize w) (bw_out w).

(** A client that joins with a publish wish at 20 Hz, and streams. *)
Definition bench_streams : Bench :=
  bench [(0%nat, frame_of FrameType.HELLO 0 (encoded 128 (encodeHello (set_hl_publishes [mkPublishWish 0x301 0x41A00000 None]
            (set_hl_catalog_etag (Some bench_etag) (set_hl_instance_id (replicate instance_id_bytes Byte.x05) HelloMsg_new))))));
         (0%nat, frame_of FrameType.STREAM 0x301 stream_frame)] false true.

Abbreviation bench_streaming := (bench_run [api_attach 0; api_update 4 1000000] bench_streams) (only parsing).

Lemma bundles_are_delivered_by_right_witness :
  exists h cat i, w_seen bench_streaming !! 3%nat = Some (h, cat) /\
    may_deliver i 0x301 2 (mkBundleView stream_frame 0 1 0 1) h cat (drop 4 (w_trace bench_streaming)).
Proof.
  apply (bundles_are_delivered_by_right bench_catalog bench_streams (mkCounter 1) [api_attach 0; api_update 4 1000000]
    0x301 2 (mkBundleView stream_frame 0 1 0 1) tt (drop 4 (w_trace bench_streaming)) (take 3 (w_trace bench_streaming))).
  - repeat constructor.
  - vm_compute. reflexivity.
Defined.
