(* ===== verification/HubRevoke.v ===== *)
(** * HubRevoke: what a live catalog change takes back

    Nothing in a live change gives a session anything: its readiness, its publish grants and its subscriptions
    only dwindle.  So what is taken back on the way stays taken back. *)

From stdpp Require Import sorting.
From S2P Require Import Prelude ByteIO SerialArith Tables Crypto Sha256 CborMessage Safety Frame MsgNack MsgHello.
From S2P Require Import StateChannel Subscription Pairing Catalog Registry CatalogCodec HubSession HubState StateM HubWorld HubCore.
From S2P Require Import HubSafety HubPairing HubWish HubUpdate HubCatalog HubSteps HubWalk HubWalkMotion HubWalkAll.
From S2P Require Import HubWithdraw HubBench HubLatch HubGates.
#[local] Open Scope Z_scope.

Definition publishes (s : HubSession) : list Z := map pg_channel_id (List.filter pg_used (hs_publishGrants s)).
Definition subscribes (s : HubSession) : list Z := map channel_id (hs_subs s).

Record Dwindled (s s' : HubSession) : Prop := mkDwindled {
  dw_occupied : occupied s = true -> occupied s' = true;
  dw_ready : hs_ready s' = true -> hs_ready s = true;
  dw_publishes : publishes s' ⊆+ publishes s;
  dw_subscribes : subscribes s' ⊆+ subscribes s }.

#[export] Instance Dwindled_preorder : PreOrder Dwindled.
Proof.
  split; [intros s; by split|]. intros s1 s2 s3 [] []. split; auto; etransitivity; eassumption.
Qed.

Lemma dwindled_same s s' :
  occupied s = occupied s' -> hs_ready s = hs_ready s' -> publishes s = publishes s' -> subscribes s = subscribes s' -> Dwindled s s'.
Proof. intros Ho Hr Hp Hs. split; [by rewrite Ho|by rewrite Hr|by rewrite Hp|by rewrite Hs]. Qed.

Lemma dwindled_stale s nowMs : Dwindled s (s <| hs_state := STALE |> <| hs_staleSinceMs := nowMs |>).
Proof. by split. Qed.

(** Taking one grant back. *)
Lemma removePublishGrant_dwindles ch s : Dwindled s (removePublishGrant ch s).
Proof.
  unfold removePublishGrant. destruct (publishGrantFor ch s) as [i|] eqn:Hf; [|reflexivity]. split; try done.
  apply first_index_Some in Hf as (l1 & g & l2 & Hl & <- & _ & _). unfold publishes. cbn. rewrite Hl, alter_app_r_alt, Nat.sub_diag by lia.
  cbn [alter list_alter]. rewrite !List.filter_app, !map_app. cbn. apply submseteq_app; [done|].
  destruct (pg_used g); cbn; [by apply submseteq_cons|done].
Qed.

Lemma removePublishGrant_removes ch s : NoDup (publishes s) -> ch ∉ publishes (removePublishGrant ch s).
Proof.
  unfold removePublishGrant, publishGrantFor. destruct (first_index _ _) as [i|] eqn:Hf.
  - apply first_index_Some in Hf as (l1 & g & l2 & Hl & <- & Hg & _). unfold publishes. cbn. rewrite Hl, alter_app_r_alt, Nat.sub_diag by lia.
    cbn [alter list_alter]. rewrite !List.filter_app, !map_app. cbn. unfold grant_for in Hg. apply andb_prop in Hg as [-> Hch%Z.eqb_eq].
    cbn. rewrite Hch. intros (_ & Hn & Hnd)%NoDup_app. apply NoDup_cons in Hnd as [Hn2 _]. rewrite elem_of_app. intros [Hin|Hin]; [|done].
    apply (Hn _ Hin). left.
  - intros _ Hin. apply first_index_None in Hf. rewrite Forall_forall in Hf. unfold publishes in Hin.
    apply list_elem_of_In, in_map_iff in Hin as (g & <- & [Hin Hu]%filter_In). specialize (Hf g ltac:(by apply list_elem_of_In)).
    unfold grant_for in Hf. by rewrite Hu, Z.eqb_refl in Hf.
Qed.

Lemma sub_remove_spec ch t :
  map channel_id (sub_remove ch t).1 ⊆+ map channel_id t
  /\ (NoDup (map channel_id t) -> ch ∉ map channel_id (sub_remove ch t).1)
  /\ ((sub_remove ch t).2 = false -> (sub_remove ch t).1 = t).
Proof.
  unfold sub_remove, Subscription.find, table_find. destruct (first_index _ _) as [i|] eqn:Hf; cbn [fst snd].
  - apply first_index_Some in Hf as (l1 & e & l2 & -> & <- & He%Z.eqb_eq & _). rewrite delete_middle, !map_app. cbn. split_and!; [|..|done].
    + apply submseteq_app; [done|]. by apply submseteq_cons.
    + rewrite He. intros (_ & Hn & Hnd)%NoDup_app. apply NoDup_cons in Hnd as [Hn2 _]. rewrite elem_of_app. intros [Hin|Hin]; [|done].
      apply (Hn _ Hin). left.
  - split_and!; [done| |done]. intros _ Hin. apply first_index_None in Hf. rewrite Forall_forall in Hf.
    apply list_elem_of_In, in_map_iff in Hin as (e & <- & Hin). specialize (Hf e ltac:(by apply list_elem_of_In)). by rewrite Z.eqb_refl in Hf.
Qed.

Create HintDb dwindle.

Section Revoke.
Context {E R : Type} `{Env E} `{FairRandom R} `{ICrypto}.
Abbreviation W := (World E R) (only parsing).

Definition Dwindle (w w' : W) : Prop := forall i, Dwindled (session_of i (w_hub w)) (session_of i (w_hub w')).

#[export] Instance Dwindle_preorder : PreOrder Dwindle.
Proof.
  split; [intros w i; reflexivity|]. intros w1 w2 w3 H1' H2' i. etransitivity; [apply H1'|apply H2'].
Qed.

Abbreviation dwindles := (keeps Dwindle) (only parsing).

Lemma call_dwindles c : dwindles (call c).
Proof. intros w i. unfold call. by destruct (answer c _). Qed.

Lemma draw_dwindles {A} (f : R -> A * R) : dwindles (draw f).
Proof. intros w i. unfold draw. by destruct (f _). Qed.

Lemma modify_dwindles f : (forall h, _slots (f h) = _slots h) -> dwindles (modify f).
Proof. intros Hf w i. unfold session_of. cbn. by rewrite Hf. Qed.

Lemma on_slot_dwindles i f : (forall s, Dwindled (sl_session s) (sl_session (f s))) -> dwindles (on_slot i f).
Proof.
  intros Hf w j. unfold session_of. cbn. rewrite list_lookup_alter. case_decide as Hd; [|reflexivity].
  destruct Hd as [<- _] || subst j. destruct (_slots (w_hub w) !! _); cbn; [apply Hf|reflexivity].
Qed.

Lemma on_session_dwindles i f : (forall s, Dwindled s (f s)) -> dwindles (on_session i f).
Proof. intros Hf. apply on_slot_dwindles. intros s. apply Hf. Qed.
End Revoke.

Abbreviation dwindles := (keeps Dwindle) (only parsing).

Ltac dwindled := first [apply dwindled_same; reflexivity | apply dwindled_stale | apply removePublishGrant_dwindles].
Ltac dwindle_leaf :=
  lazymatch goal with
  | |- keeps Dwindle (call ?c) => exact (call_dwindles c)
  | |- keeps Dwindle (draw _) => apply draw_dwindles
  | |- keeps Dwindle (modify _) => apply modify_dwindles; intros ?; reflexivity
  | |- keeps Dwindle (on_slot _ _) => apply on_slot_dwindles; intros ?; dwindled
  | |- keeps Dwindle (on_session _ _) => apply on_session_dwindles; intros ?; dwindled
  | |- _ => keeps_leaf
  end.
Ltac dwindle_walk := repeat first [ solve [dwindle_leaf] | solve [auto 1 with dwindle nocore] | keeps_step ].

Section Walk.
Context {E R : Type} `{Env E} `{FairRandom R} `{ICrypto}.
Abbreviation fewer := (keeps (Dwindle (E := E) (R := R))) (only parsing).

Lemma sendFrameTo_dwindles t type ch p sq : fewer (sendFrameTo t type ch p sq).
Proof. unfold sendFrameTo. dwindle_walk. Qed.
#[local] Hint Resolve sendFrameTo_dwindles : dwindle.

Lemma sendNack_dwindles t n : fewer (sendNack t n).
Proof. unfold sendNack. dwindle_walk. Qed.
#[local] Hint Resolve sendNack_dwindles : dwindle.

Lemma publishState_dwindles ch p : fewer (publishState ch p).
Proof. unfold publishState. dwindle_walk. Qed.
#[local] Hint Resolve publishState_dwindles : dwindle.

Lemma catalog_has_dwindles ch : fewer (catalog_has ch).
Proof. unfold catalog_has. dwindle_walk. Qed.
Lemma retained_dwindles ch : fewer (retained ch).
Proof. apply keeps_gets, _. Qed.
Lemma anySubscribed_dwindles ch : fewer (anySubscribed ch).
Proof. apply keeps_gets, _. Qed.
#[local] Hint Resolve catalog_has_dwindles retained_dwindles anySubscribed_dwindles : dwindle.

Lemma drain_dwindles n t i : fewer (drain n t i).
Proof. induction n as [|n IH]; cbn [drain]; dwindle_walk. Qed.
#[local] Hint Resolve drain_dwindles : dwindle.

Lemma pumpEventDrain_dwindles i : fewer (pumpEventDrain i).
Proof. unfold pumpEventDrain. dwindle_walk. Qed.
#[local] Hint Resolve pumpEventDrain_dwindles : dwindle.

Lemma publishEvent_dwindles ch p : fewer (publishEvent ch p).
Proof. unfold publishEvent. dwindle_walk. Qed.
#[local] Hint Resolve publishEvent_dwindles : dwindle.

Lemma publish_encoded_dwindles ch p : fewer (publish_encoded ch p).
Proof. unfold publish_encoded. dwindle_walk. Qed.
#[local] Hint Resolve publish_encoded_dwindles : dwindle.

Lemma emitPairingEvent_dwindles kind id name mode role version nowMs : fewer (emitPairingEvent kind id name mode role version nowMs).
Proof. unfold emitPairingEvent. dwindle_walk. Qed.
Lemma publishPendingPairingState_dwindles nowMs : fewer (publishPendingPairingState nowMs).
Proof. unfold publishPendingPairingState. dwindle_walk. Qed.
Lemma publishPairedRosterState_dwindles : fewer publishPairedRosterState.
Proof. unfold publishPairedRosterState. dwindle_walk. Qed.
Lemma buildControlOwnerPayload_dwindles : fewer buildControlOwnerPayload.
Proof. unfold buildControlOwnerPayload. dwindle_walk. Qed.
Lemma publishSafetySnapshot_dwindles : fewer publishSafetySnapshot.
Proof. unfold publishSafetySnapshot. dwindle_walk. Qed.
#[local] Hint Resolve emitPairingEvent_dwindles publishPendingPairingState_dwindles publishPairedRosterState_dwindles
  buildControlOwnerPayload_dwindles publishSafetySnapshot_dwindles : dwindle.

Lemma publishControlOwner_dwindles : fewer publishControlOwnerStateIfPresent.
Proof. unfold publishControlOwnerStateIfPresent. dwindle_walk. Qed.
#[local] Hint Resolve publishControlOwner_dwindles : dwindle.

Lemma emitSessionEvent_dwindles kind session nowMs : fewer (emitSessionEvent kind session nowMs).
Proof. unfold emitSessionEvent. dwindle_walk. Qed.
Lemma releaseSessionSources_dwindles session reason : fewer (releaseSessionSources session reason).
Proof. unfold releaseSessionSources. dwindle_walk. Qed.
Lemma end_trials_dwindles fuel session commit c a : fewer (end_trials fuel session commit c a).
Proof. revert c a. induction fuel as [|fuel IH]; intros c a; cbn [end_trials]; dwindle_walk. Qed.
#[local] Hint Resolve emitSessionEvent_dwindles releaseSessionSources_dwindles end_trials_dwindles : dwindle.

Lemma endSessionTrials_dwindles session commit : fewer (endSessionTrials session commit).
Proof. unfold endSessionTrials. dwindle_walk. Qed.
Lemma dropSessionKnocks_dwindles session nowMs : fewer (dropSessionKnocks session nowMs).
Proof. unfold dropSessionKnocks. dwindle_walk. Qed.
#[local] Hint Resolve endSessionTrials_dwindles dropSessionKnocks_dwindles : dwindle.

Lemma markStale_dwindles i nowMs reason : fewer (markStale i nowMs reason).
Proof. unfold markStale. dwindle_walk. Qed.
Lemma detach_dwindles i : fewer (detach i).
Proof. unfold detach, through. dwindle_walk. Qed.
#[local] Hint Resolve markStale_dwindles detach_dwindles : dwindle.

Lemma parkAndDetach_dwindles i nowMs : fewer (parkAndDetach i nowMs).
Proof. unfold parkAndDetach. dwindle_walk. Qed.
#[local] Hint Resolve parkAndDetach_dwindles : dwindle.

Lemma trackCriticalSend_dwindles i sent nowMs : fewer (trackCriticalSend i sent nowMs).
Proof. unfold trackCriticalSend. dwindle_walk. Qed.
#[local] Hint Resolve trackCriticalSend_dwindles : dwindle.

Lemma sendFrameToTracked_dwindles i type ch p nowMs sq : fewer (sendFrameToTracked i type ch p nowMs sq).
Proof. unfold sendFrameToTracked. dwindle_walk. Qed.
Lemma sendNackTracked_dwindles i n nowMs : fewer (sendNackTracked i n nowMs).
Proof. unfold sendNackTracked. dwindle_walk. Qed.
#[local] Hint Resolve sendFrameToTracked_dwindles sendNackTracked_dwindles : dwindle.

Lemma abortCatalogTransfers_dwindles : fewer abortCatalogTransfers.
Proof. unfold abortCatalogTransfers. dwindle_walk. Qed.
Lemma publishCatalogState_dwindles : fewer publishCatalogStateIfPresent.
Proof. unfold publishCatalogStateIfPresent. dwindle_walk. Qed.
Lemma reseedCoreSnapshots_dwindles nowMs : fewer (reseedCoreSnapshots nowMs).
Proof. unfold reseedCoreSnapshots. dwindle_walk. Qed.
#[local] Hint Resolve abortCatalogTransfers_dwindles publishCatalogState_dwindles reseedCoreSnapshots_dwindles : dwindle.

(** ** Grants are taken back *)

Abbreviation W := (World E R) (only parsing).

Definition tables_ok (s : HubSession) : Prop := NoDup (publishes s) /\ NoDup (subscribes s).
Definition holds (id : Z) (s : HubSession) : Prop := id ∈ publishes s \/ id ∈ subscribes s.

Lemma NoDup_fewer (l k : list Z) : l ⊆+ k -> NoDup k -> NoDup l.
Proof. intros [l' ->]%submseteq_Permutation Hnd. by apply NoDup_app in Hnd as [Hl _]. Qed.

Lemma dwindled_tables s s' : Dwindled s s' -> tables_ok s -> tables_ok s'.
Proof. intros [_ _ Hp Hs] [Hnp Hns]. split; by eapply NoDup_fewer. Qed.

Lemma dwindled_holds id s s' : Dwindled s s' -> holds id s' -> holds id s.
Proof. intros [_ _ Hp Hs] [Hh|Hh]; [left|right]; by eapply elem_of_submseteq. Qed.

Lemma session_elsewhere i j f (w : W) : i <> j -> session_of j (w_hub (on_session i f w).2) = session_of j (w_hub w).
Proof. intros Hne. unfold session_of. cbn. by rewrite list_lookup_alter_ne. Qed.

Lemma session_there i f (w : W) :
  session_of i (w_hub (on_session i f w).2) = f (session_of i (w_hub w))
  \/ (session_of i (w_hub w) = HubSession_new /\ session_of i (w_hub (on_session i f w).2) = HubSession_new).
Proof.
  unfold session_of. cbn. rewrite list_lookup_alter_eq. destruct (_slots (w_hub w) !! i); cbn; [by left|by right].
Qed.

(** A change of one session that depends on what it was. *)
Lemma on_session_once i f (w : W) :
  Dwindled (session_of i (w_hub w)) (f (session_of i (w_hub w))) -> Dwindle w (on_session i f w).2.
Proof.
  intros Hf j. destruct (decide (i = j)) as [<-|Hne]; [|by rewrite session_elsewhere].
  destruct (session_there i f w) as [->|[Hn ->]]; [exact Hf|by rewrite Hn].
Qed.

Lemma dropSubscription_spec i id (w : W) :
  let w' := (dropSubscription i id w).2 in
  Dwindle w w' /\ (NoDup (subscribes (session_of i (w_hub w))) -> id ∉ subscribes (session_of i (w_hub w'))).
Proof.
  cbn zeta. unfold dropSubscription. rewrite run_session. set (s := session_of i (w_hub w)).
  destruct (sub_remove_spec id (hs_subs s)) as (Hsub & Hgone & Hsame).
  destruct (sub_remove id (hs_subs s)) as [subs [|]] eqn:Hr; cbn [fst snd negb] in *.
  2: { split; [reflexivity|]. intros Hnd. specialize (Hgone Hnd). by rewrite Hsame in Hgone. }
  rewrite run_bind. cbv beta. set (w1 := (on_session i (fun s => s <| hs_subs := subs |>) w).2).
  assert (Hd1 : Dwindle w w1) by (by apply on_session_once; split).
  assert (Hs1 : NoDup (subscribes s) -> id ∉ subscribes (session_of i (w_hub w1))).
  { intros Hnd. specialize (Hgone Hnd). destruct (session_there i (fun s => s <| hs_subs := subs |>) w) as [Heq|[_ Heq]];
      unfold w1; rewrite Heq; [done|apply not_elem_of_nil]. }
  clearbody w1. rewrite run_bind. cbv beta.
  assert (Hd2 : Dwindle w1 (on_slot i (forget_pushes id) w1).2) by (apply on_slot_dwindles; by intros ?).
  split; [etransitivity; [exact Hd1|exact Hd2]|]. intros Hnd Hin. apply (Hs1 Hnd).
  eapply elem_of_submseteq; [exact Hin|apply (Hd2 i)].
Qed.

Lemma withdraw_one_spec i id nowMs (w : W) :
  let w' := (withdrawGrants i [id] nowMs w).2 in
  Dwindle w w' /\ (tables_ok (session_of i (w_hub w)) -> ~ holds id (session_of i (w_hub w'))).
Proof.
  cbn zeta. unfold withdrawGrants. cbn [each]. rewrite run_bind. cbv beta. cbn [mret StateM_ret snd]. rewrite run_bind. cbv beta.
  destruct (dropSubscription_spec i id w) as [Hd1 Hs1]. destruct (dropSubscription i id w) as [dropped w1]. cbn [fst snd] in *.
  rewrite run_session. set (s1 := session_of i (w_hub w1)) in *. rewrite run_bind. cbv beta.
  set (w2 := (when (has (publishGrantFor id s1)) (on_session i (removePublishGrant id)) w1).2).
  assert (Hd2 : Dwindle w1 w2).
  { unfold w2. destruct (has _); cbn [when]; [|reflexivity]. apply on_session_dwindles. intros s. apply removePublishGrant_dwindles. }
  assert (Hp2 : NoDup (publishes s1) -> id ∉ publishes (session_of i (w_hub w2))).
  { intros Hnd. unfold w2. pose proof (removePublishGrant_removes id s1 Hnd) as Hgone. unfold removePublishGrant in Hgone.
    destruct (publishGrantFor id s1) as [k|] eqn:Hk; cbn [has when]; [|exact Hgone].
    destruct (session_there i (removePublishGrant id) w1) as [Heq|[_ Heq]]; rewrite Heq; [by apply removePublishGrant_removes|].
    apply not_elem_of_nil. }
  clearbody w2.
  set (w3 := (when (dropped || has (publishGrantFor id s1)) (sendNackTracked i (on_channel id (nack NackCode.CHANNEL_WITHDRAWN)) nowMs) w2).2).
  assert (Hd3 : Dwindle w2 w3).
  { unfold w3. destruct (_ || _); cbn [when]; [apply sendNackTracked_dwindles|reflexivity]. }
  clearbody w3. split; [etransitivity; [exact Hd1|]; etransitivity; [exact Hd2|exact Hd3]|].
  intros [Hnp Hns] Hh. destruct (dwindled_holds id _ _ (Hd3 i) Hh) as [Hin|Hin].
  - apply (Hp2 (NoDup_fewer _ _ (dw_publishes _ _ (Hd1 i)) Hnp)). exact Hin.
  - apply (Hs1 Hns). eapply elem_of_submseteq; [exact Hin|apply (Hd2 i)].
Qed.

Lemma each_split {A} (f : A -> HubM E R ()) a l (w : W) : (each f (a :: l) w).2 = (each f l (each f [a] w).2).2.
Proof. cbn [each]. unfold mbind, StateM_bind. by destruct (f a w) as [[] w1]. Qed.

Lemma withdrawGrants_spec i ids nowMs (w : W) :
  let w' := (withdrawGrants i ids nowMs w).2 in
  Dwindle w w' /\ (tables_ok (session_of i (w_hub w)) -> forall id, In id ids -> ~ holds id (session_of i (w_hub w'))).
Proof.
  cbn zeta. revert w. induction ids as [|id ids IH]; intros w; [split; [reflexivity|done]|].
  assert (Heq : (withdrawGrants i (id :: ids) nowMs w).2 = (withdrawGrants i ids nowMs (withdrawGrants i [id] nowMs w).2).2).
  { apply each_split. }
  rewrite Heq. destruct (withdraw_one_spec i id nowMs w) as [Hd1 Hg1]. set (w1 := (withdrawGrants i [id] nowMs w).2) in *. clearbody w1.
  destruct (IH w1) as [Hd2 Hg2]. split; [by etransitivity|]. intros Hok id' [<-|Hin].
  - intros Hh. apply Hg1; [done|]. by apply (dwindled_holds id _ _ (Hd2 i)).
  - apply Hg2; [|done]. by apply (dwindled_tables _ _ (Hd1 i)).
Qed.

(** A loop over the slots that does something to each, and never gives anything back. *)
Lemma each_slot_spec (f : nat -> HubM E R ()) (P : nat -> HubSession -> Prop) l (w : W) :
  (forall i w, Dwindle w (f i w).2) ->
  (forall i w, tables_ok (session_of i (w_hub w)) -> occupied (session_of i (w_hub w)) = true -> P i (session_of i (w_hub (f i w).2))) ->
  (forall i s s', Dwindled s s' -> P i s -> P i s') ->
  Dwindle w (each f l w).2 /\
  ((forall i, tables_ok (session_of i (w_hub w))) ->
   forall i, In i l -> occupied (session_of i (w_hub w)) = true -> P i (session_of i (w_hub (each f l w).2))).
Proof.
  intros Hf HP Hmono. revert w. induction l as [|j l IH]; intros w; cbn [each]; [split; [reflexivity|done]|].
  rewrite run_bind. cbv beta. pose proof (Hf j w) as Hd1. pose proof (HP j w) as HP1. set (w1 := (f j w).2) in *. clearbody w1.
  destruct (IH w1) as [Hd2 HP2]. split; [by etransitivity|]. intros Hok i [<-|Hin] Ho.
  - apply (Hmono j _ _ (Hd2 j)). by apply HP1.
  - apply HP2; [|done|by apply (Hd1 i)]. intros k. by apply (dwindled_tables _ _ (Hd1 k)).
Qed.

Lemma withdraw_slot_dwindles ids nowMs i : fewer (s ← session_at i; when (occupied s) (withdrawGrants i ids nowMs)).
Proof.
  intros w. rewrite run_session. destruct (occupied _); cbn [when]; [exact (proj1 (withdrawGrants_spec i ids nowMs w))|reflexivity].
Qed.

Lemma discard_dwindles ids : fewer (each discard ids).
Proof. apply keeps_each; [apply _|]. intros ch. unfold discard. apply modify_dwindles. by intros. Qed.

Lemma withdraw_spec ids nowMs (w : W) :
  let w' := (withdraw ids nowMs w).2 in
  Dwindle w w' /\
  ((forall i, tables_ok (session_of i (w_hub w))) ->
   forall i, In i slot_ids -> occupied (session_of i (w_hub w)) = true ->
   forall id, In id ids -> ~ holds id (session_of i (w_hub w'))).
Proof.
  cbn zeta. unfold withdraw. rewrite run_bind. cbv beta.
  pose proof (abortCatalogTransfers_dwindles w) as Hd1. set (w1 := (abortCatalogTransfers w).2) in *. clearbody w1.
  rewrite run_bind. cbv beta.
  pose proof (discard_dwindles ids w1) as Hd2.
  set (w2 := (each discard ids w1).2) in *. clearbody w2.
  destruct (each_slot_spec (fun i => s ← session_at i; when (occupied s) (withdrawGrants i ids nowMs))
              (fun _ s => forall id, In id ids -> ~ holds id s) slot_ids w2) as [Hd3 Hg].
  - intros i w'. apply withdraw_slot_dwindles.
  - intros i w' Hok Ho. rewrite run_session, Ho. cbn [when]. by apply (withdrawGrants_spec i ids nowMs w').
  - intros i s s' Hd Hn id Hin Hh. apply (Hn id Hin). by eapply dwindled_holds.
  - assert (Hd : Dwindle w w2) by (by etransitivity). split; [by etransitivity|].
    intros Hok i Hi Ho. apply Hg; [|done|by apply (Hd i)]. intros k. by apply (dwindled_tables _ _ (Hd k)).
Qed.

Lemma revoke_dwindles nowMs i : fewer (revoke nowMs i).
Proof.
  unfold revoke. apply keeps_bind; [apply _|dwindle_walk|]. intros s. destruct (occupied s); cbn [negb]; [|dwindle_walk].
  apply keeps_bind; [apply _|dwindle_walk|]. intros meta. apply keeps_bind; [apply _|dwindle_walk|]. intros [].
  apply on_session_dwindles. intros t. split; try done. unfold subscribes. cbn. by rewrite map_map.
Qed.

Lemma revoke_spec nowMs i (w : W) :
  occupied (session_of i (w_hub w)) = true -> hs_ready (session_of i (w_hub (revoke nowMs i w).2)) = false.
Proof.
  intros Ho. unfold revoke. rewrite run_session, Ho. cbn [negb]. rewrite run_bind. cbv beta. rewrite run_bind. cbv beta.
  match goal with |- hs_ready (session_of i (w_hub (on_session i ?f ?w1).2)) = _ => destruct (session_there i f w1) as [->|[_ ->]] end; done.
Qed.

Lemma degrade_dwindles i : fewer (degrade i).
Proof. unfold degrade. dwindle_walk. Qed.

Lemma announce_spec kind nowMs (w : W) :
  let w' := (announce kind nowMs w).2 in
  Dwindle w w' /\
  (kind <> UserSpace -> (forall i, tables_ok (session_of i (w_hub w))) ->
   forall i, In i slot_ids -> occupied (session_of i (w_hub w)) = true -> hs_ready (session_of i (w_hub w')) = false).
Proof.
  cbn zeta. unfold announce. rewrite run_bind. cbv beta.
  assert (Hd1 : Dwindle w (when (bool_decide (kind = Resync)) (reseedCoreSnapshots nowMs) w).2).
  { destruct (bool_decide _); cbn [when]; [apply reseedCoreSnapshots_dwindles|reflexivity]. }
  set (w1 := (when _ _ w).2) in *. clearbody w1. rewrite run_bind. cbv beta.
  pose proof (publishCatalogState_dwindles w1) as Hd2. set (w2 := (publishCatalogStateIfPresent w1).2) in *. clearbody w2.
  assert (Hd : Dwindle w w2) by (by etransitivity). case_bool_decide as Hk.
  - split; [|done]. etransitivity; [exact Hd|]. apply keeps_each; [apply _|apply degrade_dwindles].
  - destruct (each_slot_spec (revoke nowMs) (fun _ s => hs_ready s = false) slot_ids w2) as [Hd3 Hr].
    + intros i w'. apply revoke_dwindles.
    + intros i w' _. apply revoke_spec.
    + intros i s s' [_ Hready _ _] Hs. apply not_true_iff_false. intros Hs'. apply Hready in Hs'. congruence.
    + split; [by etransitivity|]. intros _ Hok i Hi Ho. apply Hr; [|done|by apply (Hd i)].
      intros k. by apply (dwindled_tables _ _ (Hd k)).
Qed.

(** ** The whole change *)

Definition Serves (w w' : W) : Prop := w_catalog w' = w_catalog w /\ served (w_hub w') = served (w_hub w).

#[export] Instance Serves_preorder : PreOrder Serves.
Proof. split; [by split|]. intros w1 w2 w3 [Hc Hs] [Hc' Hs']. split; congruence. Qed.

Lemma step_serves {A} (m : HubM E R A) : keeps Steps m -> keeps Serves m.
Proof. intros Hm w. by apply steps_served. Qed.

Lemma withdraw_serves ids nowMs : keeps Serves (withdraw (E := E) (R := R) ids nowMs).
Proof.
  unfold withdraw. apply keeps_bind; [apply _|apply step_serves, abortCatalogTransfers_step|]. intros [].
  apply keeps_bind; [apply _|apply keeps_each; [apply _|by intros ch w]|]. intros [].
  apply step_serves, withdraw_each_step.
Qed.

(** The verdict on a change of the catalog a hub serves. *)
Definition verdict (c : Catalog.Catalog) (h : Hub) : CatalogChange :=
  if overflow c || negb (encodes c) then EncodeFailed
  else if bool_decide (etag_of c = _etag h) then Unchanged
  else kind_of_change c h.

Definition hub_wf (h : Hub) : Prop :=
  StronglySorted digest_before (_digests h) /\ forall i, tables_ok (session_of i h).

Lemma changes_gone before after id : In id (changes before after) <-> gone before after id.
Proof.
  unfold changes, gone. rewrite in_map_iff. split.
  - intros (b & <- & [Hn Hin]%list_elem_of_In%list_elem_of_filter). exists b. rewrite <- !list_elem_of_In. done.
  - intros (b & Hin & <- & Hn). exists b. split; [done|]. apply list_elem_of_In, list_elem_of_filter.
    by rewrite !list_elem_of_In.
Qed.

Lemma not_held id s : ~ holds id s -> publishGrantFor id s = None /\ subscribed id s = false.
Proof.
  unfold holds. intros Hn. split.
  - apply first_index_None, Forall_forall. intros g Hg. apply not_true_iff_false. intros [Hu Hc%Z.eqb_eq]%andb_prop.
    apply Hn. left. apply list_elem_of_In, in_map_iff. exists g. split; [done|]. apply filter_In. by rewrite <- list_elem_of_In.
  - unfold subscribed. destruct (Subscription.find id (hs_subs s)) as [k|] eqn:Hf; [|done]. exfalso. apply Hn. right.
    apply first_index_Some in Hf as (l1 & e & l2 & Hl & _ & He%Z.eqb_eq & _). unfold subscribes. rewrite Hl, map_app. cbn.
    rewrite He. apply elem_of_app. right. left.
Qed.

Lemma catalog_moved_spec (w : W) :
  hub_wf (w_hub w) ->
  let c := w_catalog w in
  let h := w_hub w in
  let '(kind, w') := catalog_moved w in
  (overflow c = false -> kind = verdict c h) /\
  match kind with
  | EncodeFailed => w' = (modify (encoded_as c) w).2
  | Unchanged => w' = (modify (serving c) w).2 /\ etag_of c = _etag h
  | UserSpace | Resync =>
      served (w_hub w') = (etag_of c, served_bytes c, digests_of c, fixed_of c)
      /\ forall i, In i slot_ids -> occupied (session_of i h) = true ->
         (forall id, gone (_digests h) (digests_of c) id -> ~ holds id (session_of i (w_hub w')))
         /\ (hs_ready (session_of i (w_hub w')) = true -> hs_ready (session_of i h) = true)
         /\ (kind = Resync -> hs_ready (session_of i (w_hub w')) = false)
  end.
Proof.
  intros [Hsorted Hok]. cbn zeta. rewrite run_catalog_moved. unfold verdict. set (c := w_catalog w). set (h := w_hub w) in *.
  destruct (encodes c); cbn [negb]; [|split; [by intros ->|done]].
  case_bool_decide as Hetag; [split; [by intros ->|done]|]. split; [by intros ->|]. set (w0 := (modify (fun h => serving c h <| _etag := etag_of c |>) w).2).
  assert (Hw0 : forall i, session_of i (w_hub w0) = session_of i h) by done.
  assert (Hs0 : served (w_hub w0) = (etag_of c, served_bytes c, digests_of c, fixed_of c)) by done. clearbody w0.
  rewrite run_bind. cbv beta. rewrite withdrawn_changes by (done || apply digests_ascending).
  destruct (withdraw_spec (changes (_digests h) (digests_of c)) (_lastUpdateMs h) w0) as [Hd1 Hg1].
  destruct (withdraw_serves (changes (_digests h) (digests_of c)) (_lastUpdateMs h) w0) as [_ Hs1].
  set (w1 := (withdraw _ _ w0).2) in *. clearbody w1.
  destruct (announce_spec (kind_of_change c h) (_lastUpdateMs h) w1) as [Hd2 Hr2].
  destruct (step_serves _ (announce_step (kind_of_change c h) (_lastUpdateMs h)) w1) as [_ Hs2].
  set (w2 := (announce _ _ w1).2) in *. clearbody w2.
  assert (Hok0 : forall i, tables_ok (session_of i (w_hub w0))) by (intros i; by rewrite Hw0).
  assert (Hall : served (w_hub w2) = (etag_of c, served_bytes c, digests_of c, fixed_of c)
      /\ forall i, In i slot_ids -> occupied (session_of i h) = true ->
         (forall id, gone (_digests h) (digests_of c) id -> ~ holds id (session_of i (w_hub w2)))
         /\ (hs_ready (session_of i (w_hub w2)) = true -> hs_ready (session_of i h) = true)
         /\ (kind_of_change c h = Resync -> hs_ready (session_of i (w_hub w2)) = false)).
  { split; [congruence|]. intros i Hi Ho. rewrite <- Hw0 in Ho. split_and!.
    - intros id Hgone Hh. apply (Hg1 Hok0 i Hi Ho id); [by apply changes_gone|]. by apply (dwindled_holds id _ _ (Hd2 i)).
    - intros Hr%(dw_ready _ _ (Hd2 i))%(dw_ready _ _ (Hd1 i)). by rewrite <- Hw0.
    - intros Hk. apply Hr2; [by rewrite Hk| |done|by apply (Hd1 i)]. intros k. by apply (dwindled_tables _ _ (Hd1 k)). }
  unfold kind_of_change in *. by destruct (fixed_same _ _ _ _).
Qed.

(** C9. A live catalog change.  The verdict is what the new catalog says: refused when it overflowed or does
    not encode, unchanged when its etag is the one served, of the user space when no fixed entry's document
    moved, otherwise a re-sync.  Refused or unchanged, no session and no etag is touched.  Otherwise the hub
    serves the new catalog, and of the sessions in the slots none holds a subscription or a publish grant on
    a channel whose entry vanished or changed, none has become ready, and after a re-sync none is ready -
    whatever the transports do while it is announced. *)
Theorem live_change_takes_back (w : W) :
  hub_wf (w_hub w) ->
  let c := w_catalog w in
  let h := w_hub w in
  let '(kind, w') := catalogChanged w in
  let h' := w_hub w' in
  kind = verdict c h /\
  match kind with
  | EncodeFailed => _slots h' = _slots h /\ _etag h' = _etag h /\ _digests h' = _digests h
  | Unchanged => _slots h' = _slots h /\ _etag h' = _etag h /\ _catalogEncoded h' = served_bytes c
  | UserSpace | Resync =>
      served h' = (etag_of c, served_bytes c, digests_of c, fixed_of c)
      /\ forall i, In i slot_ids -> occupied (session_of i h) = true ->
         let s' := session_of i h' in
         (forall id, gone (_digests h) (digests_of c) id -> publishGrantFor id s' = None /\ subscribed id s' = false)
         /\ (hs_ready s' = true -> hs_ready (session_of i h) = true)
         /\ (kind = Resync -> hs_ready s' = false)
  end.
Proof.
  intros Hwf. cbn zeta. unfold catalogChanged. rewrite run_catalog. destruct (overflow (w_catalog w)) eqn:Ho.
  { cbn [mret StateM_ret]. unfold verdict. by rewrite Ho. }
  rewrite run_muted. cbv zeta. set (w0 := (modify (fun h => h <| _dispatchSeq := None |>) w).2).
  pose proof (catalog_moved_spec w0 Hwf) as Hs. cbv zeta in Hs. destruct (catalog_moved w0) as [kind w1].
  destruct Hs as [Hk Hs]. split; [exact (Hk Ho)|]. cbn [fst snd modify w_hub]. destruct kind; cbn [fst].
  - by destruct Hs as [-> _].
  - destruct Hs as [Hserved Hs]. split; [exact Hserved|]. intros i Hi Hoc. destruct (Hs i Hi Hoc) as (Hg & Hr & Hre).
    split_and!; [|exact Hr|done]. intros id Hid. apply not_held. by apply Hg.
  - destruct Hs as [Hserved Hs]. split; [exact Hserved|]. intros i Hi Hoc. destruct (Hs i Hi Hoc) as (Hg & Hr & Hre).
    split_and!; [|exact Hr|done]. intros id Hid. apply not_held. by apply Hg.
  - by rewrite Hs.
Qed.
End Walk.

(** ** On the bench: the channel a client streams on goes *)

Lemma hub_wf_checked (h : Hub) :
  StronglySorted digest_before (_digests h) -> forallb (fun s => bool_decide (tables_ok (sl_session s))) (_slots h) = true -> hub_wf h.
Proof.
  intros Hs Hf. split; [done|]. intros i. unfold session_of. destruct (_slots h !! i) as [s|] eqn:Hi; cbn; [|by split; constructor].
  rewrite forallb_forall in Hf. apply list_elem_of_lookup_2, list_elem_of_In in Hi. by apply Hf, bool_decide_eq_true in Hi.
Qed.

(** The bench's catalog without its STREAM channel. *)
Definition shorter_catalog : Catalog.Catalog := mkCatalog (take 3 (entries bench_catalog)) [] [] [] [] [] false None.

Definition before_change : World Bench Counter := bench_run [api_attach 0; api_update 4 1000000; api_edit shorter_catalog] bench_streams.

Lemma live_change_takes_back_witness :
  let s := session_of 0 (w_hub before_change) in
  let '(kind, w') := catalogChanged before_change in
  hs_ready s = true /\ has (publishGrantFor 0x301 s) = true /\
  kind = Resync /\ publishGrantFor 0x301 (session_of 0 (w_hub w')) = None /\ hs_ready (session_of 0 (w_hub w')) = false.
Proof.
  assert (Hwf : hub_wf (w_hub before_change)).
  { apply hub_wf_checked; [|vm_compute; reflexivity].
    assert (_digests (w_hub before_change) = digests_of bench_catalog) as -> by (vm_compute; reflexivity). apply digests_ascending. }
  assert (Hv : verdict (w_catalog before_change) (w_hub before_change) = Resync) by (vm_compute; reflexivity).
  assert (Hg : bool_decide (0x301 ∈ changes (_digests (w_hub before_change)) (digests_of (w_catalog before_change))) = true)
    by (vm_compute; reflexivity).
  assert (Hs : let s := session_of 0 (w_hub before_change) in
               (occupied s, hs_ready s, has (publishGrantFor 0x301 s)) = (true, true, true)) by (vm_compute; reflexivity).
  revert Hwf Hv Hg Hs. generalize before_change. intros w Hwf Hv Hg [= Ho Hr Hp]. cbv zeta.
  pose proof (live_change_takes_back w Hwf) as Ht. cbv zeta in Ht.
  destruct (catalogChanged w) as [kind w']. rewrite Hv in Ht. destruct Ht as [-> [_ Ht]].
  destruct (Ht 0%nat ltac:(by left) Ho) as (Hgone & _ & Hready). split_and!; [done|done|done| |by apply Hready].
  apply Hgone, changes_gone, list_elem_of_In. exact (bool_decide_eq_true_1 _ Hg).
Defined.
