(* ===== verification/HubLiveness.v ===== *)
(** * HubLiveness: what ends, and when

    Ending the trials of a session (the loop of [endSessionTrials] has no counter; it ends because every turn
    frees an entry), the deadman, a stalled link, and what the code does beside its comments. *)

From S2P Require Import Prelude ByteIO SerialArith CborItem CborMessage MsgIntent Tables Crypto Safety.
From S2P Require Import Catalog StateChannel Registry StateM HubSession HubState HubWorld HubCore HubSafety HubPump.
From S2P Require Import HubIntent HubUpdate HubSteps HubWalk HubWalkMotion HubWalkAll HubWithdraw HubBench HubLatch.
#[local] Open Scope Z_scope.

Definition of_session (session : Z) (t : TrialEntry) : bool := te_session_id t =? session.

(** The table with the entries of a session freed. *)
Definition cleared (session : Z) (ts : list TrialEntry) : list TrialEntry :=
  map (fun t => if of_session session t then TrialEntry_new else t) ts.

(** The settings a session has on trial. *)
Definition on_trial (session : Z) (ts : list TrialEntry) : list (Z * Z) :=
  map (fun t => (te_channel_id t, te_key t)) (List.filter (of_session session) ts).

Definition settings_of (ch : Z) (batch : list IntentValueField) : list (Z * Z) := map (fun f => (ch, f.1)) batch.

(** The settings the delegate was told to put back, or to keep. *)
Fixpoint handed (t : list Event) : list (Z * Z) :=
  match t with
  | [] => []
  | Did c _ :: t => match c with restoreTrial ch b | onTrialCommit ch b => settings_of ch b ++ handed t | _ => handed t end
  end.

Lemma handed_app t1 t2 : handed (t1 ++ t2) = handed t1 ++ handed t2.
Proof. induction t1 as [|[c a] t1 IH]; cbn; [done|]. rewrite IH. by destruct c; rewrite ?app_assoc. Qed.

Section Trials.
Context (session : Z) (Hsession : session <> 0).

Lemma free_entry i t ts :
  ts !! i = Some t -> of_session session t = true ->
  cleared session (<[i := TrialEntry_new]> ts) = cleared session ts
  /\ on_trial session ts ≡ₚ (te_channel_id t, te_key t) :: on_trial session (<[i := TrialEntry_new]> ts).
Proof.
  intros Hi Ht. pose proof Hi as Hsplit. apply list_elem_of_split_length in Hsplit as (l1 & l2 & -> & ->).
  rewrite insert_app_r_alt, Nat.sub_diag by lia. cbn [insert list_insert].
  assert (Hnew : of_session session TrialEntry_new = false) by (by apply Z.eqb_neq).
  unfold cleared, on_trial. rewrite !map_app, !List.filter_app, !map_app. cbn [map List.filter]. rewrite Ht, Hnew. cbn [map]. split; [done|].
  symmetry. apply Permutation_middle.
Qed.

Lemma gather_spec ch idxs batch ts :
  (forall i, In i idxs -> (i < length ts)%nat) ->
  let '(batch', ts') := gather session ch idxs batch ts in
  cleared session ts' = cleared session ts /\ length ts' = length ts /\
  exists added, batch' = batch ++ added /\ on_trial session ts ≡ₚ settings_of ch added ++ on_trial session ts'.
Proof.
  revert batch ts. induction idxs as [|i idxs IH]; intros batch ts Hin; cbn [gather].
  { split_and!; [done|done|]. exists []. by rewrite app_nil_r. }
  destruct (negb (len batch <? kIntentMaxValueFields)).
  { split_and!; [done|done|]. exists []. by rewrite app_nil_r. }
  assert (Hi : (i < length ts)%nat) by (by apply Hin; left).
  apply lookup_lt_is_Some in Hi as [t Hi]. rewrite Hi.
  destruct (te_session_id t =? session) eqn:Hs; cbn [negb orb]; [|apply IH; intros; apply Hin; by right].
  destruct (Z.eqb_spec (te_channel_id t) ch) as [Hch|]; cbn [negb orb]; [|apply IH; intros; apply Hin; by right].
  destruct (free_entry i t ts Hi Hs) as [Hc Hp].
  specialize (IH (batch ++ [(te_key t, default (VU64 0) (trialBaselineOf ch (te_key t) ts))]) (<[i := TrialEntry_new]> ts)).
  destruct (gather _ _ _ _ _) as [batch' ts'].
  destruct IH as (Hc' & Hl' & added & -> & Hp'); [intros j Hj; rewrite length_insert; apply Hin; by right|].
  rewrite length_insert in Hl'. split_and!; [congruence|done|].
  exists ((te_key t, default (VU64 0) (trialBaselineOf ch (te_key t) ts)) :: added). split; [by rewrite <- app_assoc|].
  rewrite Hp, Hp', Hch. done.
Qed.

(** The first entry is of the channel, so a turn frees it at least. *)
Lemma gather_frees i ts t :
  ts !! i = Some t -> of_session session t = true ->
  let '(_, ts') := gather session (te_channel_id t) (seq i (length ts - i)) [] ts in
  (length (on_trial session ts') < length (on_trial session ts))%nat.
Proof.
  intros Hi Ht. pose proof (lookup_lt_Some _ _ _ Hi) as Hlt. destruct (length ts - i)%nat as [|n] eqn:Hn; [lia|].
  cbn [seq gather]. rewrite Hi. unfold of_session in Ht. rewrite Ht, Z.eqb_refl. cbn [negb orb].
  change (negb (len [] <? kIntentMaxValueFields)) with false. cbv iota.
  destruct (free_entry i t ts Hi Ht) as [_ Hp].
  pose proof (gather_spec (te_channel_id t) (seq (S i) n)
    ([] ++ [(te_key t, default (VU64 0) (trialBaselineOf (te_channel_id t) (te_key t) ts))]) (<[i := TrialEntry_new]> ts)) as Hg.
  destruct (gather _ _ _ _ _) as [b ts']. destruct Hg as (_ & _ & added & _ & Hp').
  { intros j [_ Hj]%in_seq. rewrite length_insert. lia. }
  apply Permutation_length in Hp, Hp'. cbn in Hp. rewrite length_app in Hp'. lia.
Qed.

Lemma none_on_trial ts : first_index (fun t => te_session_id t =? session) ts = None -> cleared session ts = ts /\ on_trial session ts = [].
Proof.
  intros Hn%first_index_None. unfold cleared, on_trial, of_session.
  induction Hn as [|t ts Ht _ [IH1 IH2]]; cbn; [done|]. rewrite Ht, IH1. by split.
Qed.

Context {E R : Type} `{Env E} `{FairRandom R} `{ICrypto}.
Abbreviation W := (World E R) (only parsing).

(** One turn's call, by which a batch is put back or kept. *)
Lemma batch_call (commit : bool) ch batch (w : W) :
  let w' := ((if commit then call (onTrialCommit ch batch) ;; mret false else call (restoreTrial ch batch) : HubM E R bool) w).2 in
  w_hub w' = w_hub w /\ exists e, w_trace w' = e :: w_trace w /\ handed [e] = settings_of ch batch.
Proof.
  destruct commit; cbn zeta.
  - rewrite run_bind. destruct (call_hub (onTrialCommit ch batch) w) as (Hh & _ & Ht). split; [exact Hh|].
    eexists. split; [exact Ht|]. apply app_nil_r.
  - destruct (call_hub (restoreTrial ch batch) w) as (Hh & _ & Ht). split; [exact Hh|]. eexists. split; [exact Ht|]. apply app_nil_r.
Qed.

Definition trials_ended (w w' : W) : Prop :=
  _trials (w_hub w') = cleared session (_trials (w_hub w)) /\
  exists new, w_trace w' = new ++ w_trace w /\ handed new ≡ₚ on_trial session (_trials (w_hub w)).

Lemma end_trials_ended fuel commit c any (w : W) :
  (length (on_trial session (_trials (w_hub w))) < fuel)%nat -> trials_ended w (end_trials fuel session commit c any w).2.
Proof.
  revert c any w. induction fuel as [|fuel IH]; intros c any w Hf; [lia|]. cbn [end_trials]. rewrite run_gets.
  destruct (first_index _ _) as [first|] eqn:Hfirst.
  2: { destruct (none_on_trial _ Hfirst) as [Hc Ho]. split; [by rewrite Hc|]. exists []. by rewrite Ho. }
  apply first_index_Some in Hfirst as (l1 & t & l2 & Hts & <- & Ht & _).
  assert (Hi : _trials (w_hub w) !! length l1 = Some t) by (rewrite Hts, lookup_app_r, Nat.sub_diag by lia; done).
  rewrite Hi. cbn [from_option]. pose proof (lookup_lt_Some _ _ _ Hi) as Hlt. pose proof (gather_frees _ _ _ Hi Ht) as Hless.
  pose proof (gather_spec (te_channel_id t) (seq (length l1) (length (_trials (w_hub w)) - length l1)) [] (_trials (w_hub w))) as Hg.
  destruct (gather _ _ _ _ _) as [batch ts']. destruct Hg as (Hc & _ & added & -> & Hp); [intros j [_ Hj]%in_seq; lia|].
  rewrite run_bind. cbv beta. set (w1 := (modify _ w).2). rewrite run_bind.
  destruct (batch_call commit (te_channel_id t) ([] ++ added) w1) as (Hh & e & Htr & He).
  set (w2 := (_ w1).2) in *. 
  assert (Hts2 : _trials (w_hub w2) = ts') by (by rewrite Hh).
  destruct (IH (c || ((if commit then call (onTrialCommit (te_channel_id t) ([] ++ added)) ;; mret false
                       else call (restoreTrial (te_channel_id t) ([] ++ added)) : HubM E R bool) w1).1) true w2) as [Hend (new & Hnew & Hhand)].
  { rewrite Hts2. lia. }
  rewrite Hts2 in Hend, Hhand. split; [etransitivity; [exact Hend|exact Hc]|].
  exists (new ++ [e]). split.
  - etransitivity; [exact Hnew|]. rewrite Htr, <- app_assoc. done.
  - rewrite handed_app, He, Hp, Hhand. cbn. apply Permutation_app_comm.
Qed.

(** C7. However many settings a session has on trial, ending its trials comes to an end within one turn of
    the loop per entry and one more: then no entry of the session is left, every other entry is as it was, and
    the delegate has been handed every one of the session's settings exactly once, to put back where the
    trials are not committed and to keep where they are. *)
Theorem trials_end commit (w : W) :
  let w' := (endSessionTrials session commit w).2 in
  _trials (w_hub w') = cleared session (_trials (w_hub w)) /\
  exists new, w_trace w' = new ++ w_trace w /\ handed new ≡ₚ on_trial session (_trials (w_hub w)).
Proof.
  cbn zeta. unfold endSessionTrials. rewrite (proj2 (Z.eqb_neq _ _) Hsession), run_gets, run_bind. cbv beta.
  pose proof (end_trials_ended (S (length (_trials (w_hub w)))) commit false false w) as He.
  set (r := end_trials _ _ _ _ _ w) in *. destruct He as [Hc Hn].
  { unfold on_trial. rewrite length_map. pose proof (List.filter_length_le (of_session session) (_trials (w_hub w))). lia. }
  destruct (r.1.1), (r.1.2); (split; [exact Hc|exact Hn]).
Qed.
End Trials.

Definition bench_trials : list TrialEntry :=
  [mkTrialEntry 5 7 0x300 1 KindU64; mkTrialEntry 6 8 0x300 2 KindU64; mkTrialEntry 0 7 0x310 3 KindBool].
Definition bench_on_trial : World Bench Counter :=
  mkWorld (Hub_new <| _trials := bench_trials |>) bench_catalog (bench [] false true) (mkCounter 1) [] [].

Lemma trials_end_witness :
  let w' := (endSessionTrials 7 false bench_on_trial).2 in
  map te_session_id (_trials (w_hub w')) = [0; 8; 0] /\
  exists new, w_trace w' = new ++ [] /\ handed new ≡ₚ [(0x300, 1); (0x310, 3)].
Proof.
  destruct (trials_end 7 ltac:(done) false bench_on_trial) as [Hc Hn]. cbv zeta. split; [rewrite Hc; reflexivity|exact Hn].
Defined.

(** ** Liveness: silent owners and stalled links lose what they hold *)

Section Liveness.
Context {E R : Type} `{Env E} `{FairRandom R} `{ICrypto}.
Abbreviation W := (World E R) (only parsing).

Definition parked (i : nat) (w w' : W) : Prop :=
  sessions (w_hub w') = alter stale_view i (sessions (w_hub w)) /\
  disowned (hs_session_id (session_of i (w_hub w))) (_ownership (w_hub w')).

(** Whether the deadman fires for the session. *)
Definition dead (nowMs : Z) (s : HubSession) (h : Hub) : bool :=
  bool_decide (hs_state s = LIVE) && ownsAny (hs_session_id s) h && silent_for (hs_deadmanMs s) nowMs s.

(** C6. The deadman: a live session that owns a source and has been silent for its deadman time is made stale
    and owns no source any more, and no other session is touched; in every other case nothing happens at
    all - no session that speaks in time, or controls nothing, is ever cut off by it. *)
Theorem deadman_takes_control_away i nowMs (w : W) :
  hs_session_id (session_of i (w_hub w)) <> 0 ->
  let w' := (pumpDeadman i nowMs w).2 in
  if dead nowMs (session_of i (w_hub w)) (w_hub w) then parked i w w' else w' = w.
Proof.
  intros Hid. cbn zeta. unfold pumpDeadman, dead. rewrite run_session, run_get.
  destruct (bool_decide _), (ownsAny _ _), (silent_for _ _ _); cbn [negb andb]; try done.
  destruct (markStale_spec i nowMs deadman_release w) as (_ & Hv & Hd). by split; [|apply Hd].
Qed.

Lemma length_sessions (h : Hub) : length (sessions h) = length (_slots h).
Proof. apply length_map. Qed.

Lemma parkAndDetach_spec i nowMs (w : W) :
  let s := session_of i (w_hub w) in
  let w' := (parkAndDetach i nowMs w).2 in
  (occupied s = true -> hs_session_id s <> 0 -> hs_state s <> STALE -> parked i w w') /\
  length (_slots (w_hub w')) = length (_slots (w_hub w)) /\
  (forall sl, _slots (w_hub w') !! i = Some sl -> sl_transport sl = None /\ sl_criticalStalling sl = false).
Proof.
  cbn zeta. unfold parkAndDetach. rewrite run_session. set (s := session_of i (w_hub w)). rewrite run_bind. cbv beta.
  set (w1 := (when _ _ w).2). rewrite run_bind. cbv beta. set (w2 := (detach i w1).2).
  assert (Hc : Calm w1 (on_slot i (fun s => s <| sl_congestionLevel := 0 |> <| sl_criticalStalling := false |>) w2).2).
  { match goal with |- Calm w1 (?k w2).2 => assert (Hk : keeps Calm (detach i ;; k)) by keeps_walk end.
    specialize (Hk w1). by rewrite run_bind in Hk. }
  assert (Hw1 : if occupied s && negb (bool_decide (hs_state s = STALE))
                then sessions (w_hub w1) = alter stale_view i (sessions (w_hub w)) /\
                     (hs_session_id s <> 0 -> disowned (hs_session_id s) (_ownership (w_hub w1)))
                else w1 = w).
  { subst w1. destruct (occupied s && _); [|done]. cbn [when]. rewrite run_bind. cbv beta.
    destruct (markStale_spec i nowMs session_loss w) as (_ & Hv & Hd). set (w3 := (markStale i nowMs session_loss w).2) in *.
    match goal with |- context [?k w3] => assert (Hk : keeps Calm k) by keeps_walk end. specialize (Hk w3).
    split; [etransitivity; [exact (calm_sessions _ _ Hk)|exact Hv]|].
    intros Hid src Heq. apply (Hd Hid src). etransitivity; [|exact Heq]. symmetry. exact (f_equal (ownerOf src) (calm_owners _ _ Hk)). }
  split_and!.
  - intros Ho Hid Hs. unfold parked. rewrite (calm_sessions _ _ Hc). rewrite (calm_owners _ _ Hc).
    rewrite Ho, bool_decide_false in Hw1 by done. destruct Hw1 as [Hv Hd]. by split; [|apply Hd].
  - rewrite <- !length_sessions, (calm_sessions _ _ Hc). destruct (occupied s && _); [|by rewrite Hw1].
    rewrite (proj1 Hw1). apply length_alter.
  - intros sl Hsl. cbn in Hsl. rewrite list_lookup_alter_eq in Hsl. subst w2. unfold detach in Hsl. rewrite run_bind in Hsl. cbn in Hsl.
    rewrite list_lookup_alter_eq in Hsl. match type of Hsl with context [?l !! i] => destruct (l !! i) end; [|done].
    injection Hsl as <-. done.
Qed.

(** What a never-shed send that went well or badly does to its slot. *)
Definition stall_expired (nowMs : Z) (sl : Slot) : bool :=
  timeReached nowMs (u32 (sl_criticalStallSinceMs sl + limits.never_shed_stall_eviction_ms)).

(** Never-shed frames are not dropped for ever on a link that is badly congested: while the sends fail the
    slot remembers since when, a send that goes through or a lower congestion level forgets it, and once they
    have failed for the eviction time the transport is detached and the session parked: stale, its sources
    free, and ready to be resumed. *)
Theorem stalled_link_is_parked i sendOk nowMs (w : W) sl :
  _slots (w_hub w) !! i = Some sl ->
  let w' := (trackCriticalSend i sendOk nowMs w).2 in
  if (sl_congestionLevel sl <? 2) || sendOk then
    w' = (on_slot i (fun s => s <| sl_criticalStalling := false |>) w).2
  else if negb (sl_criticalStalling sl) then
    w' = (on_slot i (fun s => s <| sl_criticalStalling := true |> <| sl_criticalStallSinceMs := nowMs |>) w).2
  else if negb (stall_expired nowMs sl) then w' = w
  else
    (exists sl', _slots (w_hub w') !! i = Some sl' /\ sl_transport sl' = None /\ sl_criticalStalling sl' = false) /\
    (occupied (sl_session sl) = true -> hs_session_id (sl_session sl) <> 0 -> hs_state (sl_session sl) <> STALE -> parked i w w').
Proof.
  intros Hsl. cbn zeta. unfold trackCriticalSend, slot_at. rewrite run_gets, Hsl. change (default Slot_new (Some sl)) with sl.
  unfold stall_expired. destruct (sl_congestionLevel sl <? 2); cbn [orb]; [done|]. destruct sendOk; [done|].
  destruct (sl_criticalStalling sl); cbn [negb]; [|done]. destruct (timeReached _ _); cbn [when negb]; [|done].
  destruct (parkAndDetach_spec i nowMs w) as (Hp & Hlen & Hs). split.
  - apply lookup_lt_Some in Hsl as Hlt. rewrite <- Hlen in Hlt. apply lookup_lt_is_Some in Hlt as [sl' Hsl'].
    exists sl'. destruct (Hs sl' Hsl'). by split_and!.
  - unfold session_of in Hp. rewrite Hsl in Hp. exact Hp.
Qed.
End Liveness.

Lemma deadman_takes_control_away_witness :
  let w := bench_run bench_estop bench_joined in
  ownerOf 1 (_ownership (w_hub w)) = 2 /\ parked 0 w (pumpDeadman 0 100000 w).2.
Proof.
  cbv zeta. split; [vm_compute; reflexivity|].
  pose proof (deadman_takes_control_away 0 100000 (bench_run bench_estop bench_joined)
    ltac:(vm_compute; discriminate)) as Hd. cbv zeta in Hd.
  assert (Hdead : dead 100000 (session_of 0 (w_hub (bench_run bench_estop bench_joined))) (w_hub (bench_run bench_estop bench_joined)) = true)
    by (vm_compute; reflexivity).
  rewrite Hdead in Hd. exact Hd.
Defined.

Definition stalled_slot : Slot :=
  (default Slot_new (_slots (w_hub (bench_run bench_estop bench_joined)) !! 0%nat))
    <| sl_congestionLevel := 3 |> <| sl_criticalStalling := true |> <| sl_criticalStallSinceMs := 1200 |>.
Definition bench_stalled : World Bench Counter := (on_slot 0 (fun _ => stalled_slot) (bench_run bench_estop bench_joined)).2.

Lemma stalled_link_is_parked_witness :
  (trackCriticalSend 0 false 3000 bench_stalled).2 = bench_stalled /\
  parked 0 bench_stalled (trackCriticalSend 0 false 3200 bench_stalled).2.
Proof.
  assert (Hsl : _slots (w_hub bench_stalled) !! 0%nat = Some stalled_slot) by (vm_compute; reflexivity).
  pose proof (stalled_link_is_parked 0 false 3000 bench_stalled stalled_slot Hsl) as H1.
  pose proof (stalled_link_is_parked 0 false 3200 bench_stalled stalled_slot Hsl) as H2. cbv zeta in H1, H2.
  assert (Hno : stall_expired 3000 stalled_slot = false) by (vm_compute; reflexivity).
  assert (Hyes : stall_expired 3200 stalled_slot = true) by (vm_compute; reflexivity).
  assert (Hcong : (sl_congestionLevel stalled_slot <? 2) || false = false) by (vm_compute; reflexivity).
  assert (Hstall : sl_criticalStalling stalled_slot = true) by (vm_compute; reflexivity).
  rewrite Hcong, Hstall, Hno in H1. rewrite Hcong, Hstall, Hyes in H2. cbn [negb] in H1, H2.
  split; [exact H1|].
  apply (proj2 H2); vm_compute; done.
Defined.

(** ** Faults: two ways past the hub's rules, run on the bench *)

(** ** A session whose WELCOME could not be written *)

(** The three liveness regimes, as the tick runs them. *)
Definition liveness {E R} `{Env E} `{FairRandom R} `{ICrypto} (i : nat) (nowMs : Z) : HubM E R () :=
  in_session i (pumpDeadman i nowMs) ;; in_session i (pumpReadyTimeout i nowMs) ;; in_session i (pumpIdleReap i nowMs).

(** No regime ever ends a session that is ready but was never made live. *)
Lemma liveness_spares {E R} `{Env E} `{FairRandom R} `{ICrypto} i (w : World E R) :
  hs_state (session_of i (w_hub w)) = VALIDATING -> hs_ready (session_of i (w_hub w)) = true ->
  forall nowMs, (liveness i nowMs w).2 = w.
Proof.
  intros Hs Hr nowMs.
  assert (Ho : occupied (session_of i (w_hub w)) = true) by (unfold occupied; by rewrite Hs).
  assert (H1' : in_session i (pumpDeadman i nowMs) w = ((), w)).
  { unfold in_session. rewrite run_session, Ho. cbn [when]. unfold pumpDeadman. by rewrite run_session, run_get, Hs. }
  assert (H2' : in_session i (pumpReadyTimeout i nowMs) w = ((), w)).
  { unfold in_session. rewrite run_session, Ho. cbn [when]. unfold pumpReadyTimeout. by rewrite run_session, Hs, Hr. }
  assert (H3' : in_session i (pumpIdleReap i nowMs) w = ((), w)).
  { unfold in_session. rewrite run_session, Ho. cbn [when]. unfold pumpIdleReap. by rewrite run_session, run_get, Hs. }
  unfold liveness. rewrite run_bind, H1'. cbn [fst snd]. rewrite run_bind, H2'. cbn [fst snd]. by rewrite H3'.
Qed.

Definition unwelcomed : World Bench Counter :=
  bench_run [api_attach 0; api_update 4 1000000]
    (bench [(0%nat, hello_frame Byte.x05); (0%nat, intent_frame 0x300 7 [(1, VU64 3)])] true true).

(** A hole in the deadman: where the WELCOME cannot be written the session stays VALIDATING, yet it is ready
    when the client's etag matched, so the client's next frame still acquires a source - though the code's
    comment says that a VALIDATING session never owns one - and then none of the liveness regimes ever
    applies to it: silent for however long, it keeps the source. *)
Theorem unwelcomed_session_keeps_its_source :
  let s := session_of 0 (w_hub unwelcomed) in
  hs_state s = VALIDATING /\ hs_session_id s <> 0 /\ ownerOf 1 (_ownership (w_hub unwelcomed)) = hs_session_id s /\
  forall nowMs, (liveness 0 nowMs unwelcomed).2 = unwelcomed.
Proof.
  assert (Hs : hs_state (session_of 0 (w_hub unwelcomed)) = VALIDATING) by (vm_compute; reflexivity).
  split_and!; [exact Hs|vm_compute; discriminate|vm_compute; reflexivity|].
  intros nowMs. apply liveness_spares; [exact Hs|vm_compute; reflexivity].
Qed.

(** ** A resume by another name *)

Definition resume_op : Z := safety_ops.resume.

(** The hub is paused and must be homed first; then the client asks for operation [op]. *)
Definition asked (op : Z) : World Bench Counter :=
  bench_run [api_attach 0; api_update 1 1000000; api_latchEstop 1 2; api_releaseEstop; api_setHomeRequired true; api_update 1 1100000]
    (bench [(0%nat, hello_frame Byte.x05); (0%nat, intent_frame channels.safety_intents 7 [(1, VU64 op)])] false true).

(** The guards of a safety operation look at the whole 64-bit operation, the latch at its low byte: with
    PAUSE latched and home required, [resume] is refused as it should be, but [resume + 256], which no guard
    knows, clears PAUSE all the same once the delegate accepts the intent. *)
Theorem safety_op_guard_is_bypassed :
  pauseLatched (w_hub (asked resume_op)) = true /\
  pauseLatched (w_hub (asked (resume_op + 256))) = false /\
  has_bit (_safetyModes (w_hub (asked (resume_op + 256)))) safety_mode_bits.HOME_REQUIRED = true.
Proof. split_and!; vm_compute; reflexivity. Qed.
