(* ===== verification/ClientState.v ===== *)
(** * ClientState: the state of the client (client/client.hpp)

    [Client] is the class's data members; a flag that only says whether the member after it means anything is
    an [option], an array with the count of its used entries is the list of those.  A [const char*] is
    the bytes before its terminator; [_catalogReqSentCount] is a [size_t], taken not to wrap. *)

From S2P Require Import Prelude SerialArith Safety Blob StateChannel MsgWish MsgTrust MsgHello Registry.
#[local] Open Scope Z_scope.

Inductive ClientSessionState := CLOSED | CONNECTING | HELLO_SENT | SYNCING | LIVE.

#[export] Instance ClientSessionState_eq_dec : EqDecision ClientSessionState.
Proof. solve_decision. Defined.

Inductive HubAuthState := NotRequested | Unverifiable | Pending | Verified | Mismatch | Timeout.

#[export] Instance HubAuthState_eq_dec : EqDecision HubAuthState.
Proof. solve_decision. Defined.

Record ClientIdentity := mkClientIdentity {
  ci_instance_id : list byte; ci_token : list byte; ci_hasToken : bool; ci_client_kind : list byte; ci_client_name : list byte }.

Definition kMaxWishes : nat := 16.
Definition kMaxPendingIntents : nat := 8.
Definition kMaxShadowSlots : nat := 16.
Definition kMaxGrants : nat := 16.
Definition kMaxCatalogRestarts : Z := 3.

(** [VALENCE_CLIENT_CATALOG_CHUNKS]: a megabyte of 192-byte chunks. *)
Definition kCatalogChunks : nat := Z.to_nat 5462.

(** The client's catalog is put together in one block of its allocator. *)
Abbreviation CatalogReassembler := (ChunkReassembler (S := AllocatedChunkStorage)).

(** [Wish] has the fields of the wish a message carries. *)
Abbreviation Wish := SubscriptionWish.

Record GrantEntry := mkGrantEntry {
  ge_channel_id : Z; ge_rate_hz : Z; ge_priority : Z; ge_valid : bool }.

Definition GrantEntry_new : GrantEntry :=
  {| ge_channel_id := 0; ge_rate_hz := 0; ge_priority := 0; ge_valid := false |}.

#[export] Instance GrantEntry_fields : Fields GrantEntry := fun r =>
  mkGrantEntry (ge_channel_id r) (ge_rate_hz r) (ge_priority r) (ge_valid r).
#[export] Instance ge_channel_id_field : Field ge_channel_id := ltac:(field_setter).
#[export] Instance ge_rate_hz_field : Field ge_rate_hz := ltac:(field_setter).
#[export] Instance ge_priority_field : Field ge_priority := ltac:(field_setter).
#[export] Instance ge_valid_field : Field ge_valid := ltac:(field_setter).


Record ShadowEntry := mkShadowEntry {
  se_channel_id : Z; se_used : bool; se_slot : ShadowSlot }.

Definition ShadowEntry_new : ShadowEntry :=
  {| se_channel_id := 0; se_used := false; se_slot := ShadowSlot_new |}.

#[export] Instance ShadowEntry_fields : Fields ShadowEntry := fun r =>
  mkShadowEntry (se_channel_id r) (se_used r) (se_slot r).
#[export] Instance se_channel_id_field : Field se_channel_id := ltac:(field_setter).
#[export] Instance se_used_field : Field se_used := ltac:(field_setter).
#[export] Instance se_slot_field : Field se_slot := ltac:(field_setter).


Record Client := mkClient {
  _id : ClientIdentity; _monoMs : MonotonicMs; _lastUpdateMs : Z; _state : ClientSessionState;
  _wishes : list Wish; _wishesAfterHello : bool; _estopCutsPower : bool; _cachedEtag : list byte;
  _hubEtag : list byte; _sessionId : Z; _bootId : Z; _cfgGen : Z; _roles : Z; _grants : list GrantEntry;
  _shadows : list ShadowEntry; _requiredRetained : Z; _adoptedCount : Z; _catalogReady : bool;
  _chunkReassembler : CatalogReassembler; _catalogChunkCount : Z; _catalogReqSentCount : nat;
  _readyEtag : list byte; _readyPending : bool; _lastReadySendMs : Z; _readyAttempts : Z; _refetching : bool;
  _transferRefused : bool; _refusedEtag : option (list byte); _resyncing : bool; _catalogRestarts : Z;
  _catalogMetaSeq : option Z; _pending : list Z; _nextIntentId : Z; _lastRxMs : Z; _lastTxMs : Z;
  _holdingSource : bool; _estopActive : bool; _estopSendFailed : bool; _estopCause : Z; _estopSentSeq : Z;
  _estopNextSeq : Z; _estopAttempts : Z; _lastEstopSendMs : Z; _nonce : list byte;
  _clientVer : option (list byte); _clientNonce : list byte; _sigRequested : bool; _hubPubkey : list byte;
  _hubAuth : HubAuthState; _sigDeadlineMs : Z; _presentationMode : Z; _probeActive : bool; _probeStartMs : Z;
  _probeBytesReceived : Z; _probeFramesReceived : Z; _probeMaxIndexSeen : option Z }.

Definition Client_new (id : ClientIdentity) : Client :=
  {| _id := id; _monoMs := MonotonicMs_new; _lastUpdateMs := 0; _state := CLOSED; _wishes := [];
  _wishesAfterHello := false; _estopCutsPower := false; _cachedEtag := replicate etag_bytes Byte.x00;
  _hubEtag := replicate etag_bytes Byte.x00; _sessionId := 0; _bootId := 0; _cfgGen := 0;
  _roles := AccessLevel.watch; _grants := replicate kMaxGrants GrantEntry_new;
  _shadows := replicate kMaxShadowSlots ShadowEntry_new; _requiredRetained := 0; _adoptedCount := 0;
  _catalogReady := true; _chunkReassembler := ChunkReassembler_new (mkAllocated [] 0); _catalogChunkCount := 0;
  _catalogReqSentCount := 0%nat; _readyEtag := replicate etag_bytes Byte.x00; _readyPending := false;
  _lastReadySendMs := 0; _readyAttempts := 0; _refetching := false; _transferRefused := false;
  _refusedEtag := None; _resyncing := false; _catalogRestarts := 0; _catalogMetaSeq := None; _pending := [];
  _nextIntentId := 1; _lastRxMs := 0; _lastTxMs := 0; _holdingSource := false; _estopActive := false;
  _estopSendFailed := false; _estopCause := 0; _estopSentSeq := 0; _estopNextSeq := 1; _estopAttempts := 0;
  _lastEstopSendMs := 0; _nonce := replicate 8 Byte.x00; _clientVer := None;
  _clientNonce := replicate kTrustClientNonceBytes Byte.x00; _sigRequested := false; _hubPubkey := [];
  _hubAuth := NotRequested; _sigDeadlineMs := 0; _presentationMode := presentation_modes.bearer;
  _probeActive := false; _probeStartMs := 0; _probeBytesReceived := 0; _probeFramesReceived := 0;
  _probeMaxIndexSeen := None |}.

#[export] Instance Client_fields : Fields Client := fun r =>
  mkClient (_id r) (_monoMs r) (_lastUpdateMs r) (_state r) (_wishes r) (_wishesAfterHello r)
  (_estopCutsPower r) (_cachedEtag r) (_hubEtag r) (_sessionId r) (_bootId r) (_cfgGen r) (_roles r)
  (_grants r) (_shadows r) (_requiredRetained r) (_adoptedCount r) (_catalogReady r) (_chunkReassembler r)
  (_catalogChunkCount r) (_catalogReqSentCount r) (_readyEtag r) (_readyPending r) (_lastReadySendMs r)
  (_readyAttempts r) (_refetching r) (_transferRefused r) (_refusedEtag r) (_resyncing r) (_catalogRestarts r)
  (_catalogMetaSeq r) (_pending r) (_nextIntentId r) (_lastRxMs r) (_lastTxMs r) (_holdingSource r)
  (_estopActive r) (_estopSendFailed r) (_estopCause r) (_estopSentSeq r) (_estopNextSeq r) (_estopAttempts r)
  (_lastEstopSendMs r) (_nonce r) (_clientVer r) (_clientNonce r) (_sigRequested r) (_hubPubkey r) (_hubAuth r)
  (_sigDeadlineMs r) (_presentationMode r) (_probeActive r) (_probeStartMs r) (_probeBytesReceived r)
  (_probeFramesReceived r) (_probeMaxIndexSeen r).
#[export] Instance _id_field : Field _id := ltac:(field_setter).
#[export] Instance _monoMs_field : Field _monoMs := ltac:(field_setter).
#[export] Instance _lastUpdateMs_field : Field _lastUpdateMs := ltac:(field_setter).
#[export] Instance _state_field : Field _state := ltac:(field_setter).
#[export] Instance _wishes_field : Field _wishes := ltac:(field_setter).
#[export] Instance _wishesAfterHello_field : Field _wishesAfterHello := ltac:(field_setter).
#[export] Instance _estopCutsPower_field : Field _estopCutsPower := ltac:(field_setter).
#[export] Instance _cachedEtag_field : Field _cachedEtag := ltac:(field_setter).
#[export] Instance _hubEtag_field : Field _hubEtag := ltac:(field_setter).
#[export] Instance _sessionId_field : Field _sessionId := ltac:(field_setter).
#[export] Instance _bootId_field : Field _bootId := ltac:(field_setter).
#[export] Instance _cfgGen_field : Field _cfgGen := ltac:(field_setter).
#[export] Instance _roles_field : Field _roles := ltac:(field_setter).
#[export] Instance _grants_field : Field _grants := ltac:(field_setter).
#[export] Instance _shadows_field : Field _shadows := ltac:(field_setter).
#[export] Instance _requiredRetained_field : Field _requiredRetained := ltac:(field_setter).
#[export] Instance _adoptedCount_field : Field _adoptedCount := ltac:(field_setter).
#[export] Instance _catalogReady_field : Field _catalogReady := ltac:(field_setter).
#[export] Instance _chunkReassembler_field : Field _chunkReassembler := ltac:(field_setter).
#[export] Instance _catalogChunkCount_field : Field _catalogChunkCount := ltac:(field_setter).
#[export] Instance _catalogReqSentCount_field : Field _catalogReqSentCount := ltac:(field_setter).
#[export] Instance _readyEtag_field : Field _readyEtag := ltac:(field_setter).
#[export] Instance _readyPending_field : Field _readyPending := ltac:(field_setter).
#[export] Instance _lastReadySendMs_field : Field _lastReadySendMs := ltac:(field_setter).
#[export] Instance _readyAttempts_field : Field _readyAttempts := ltac:(field_setter).
#[export] Instance _refetching_field : Field _refetching := ltac:(field_setter).
#[export] Instance _transferRefused_field : Field _transferRefused := ltac:(field_setter).
#[export] Instance _refusedEtag_field : Field _refusedEtag := ltac:(field_setter).
#[export] Instance _resyncing_field : Field _resyncing := ltac:(field_setter).
#[export] Instance _catalogRestarts_field : Field _catalogRestarts := ltac:(field_setter).
#[export] Instance _catalogMetaSeq_field : Field _catalogMetaSeq := ltac:(field_setter).
#[export] Instance _pending_field : Field _pending := ltac:(field_setter).
#[export] Instance _nextIntentId_field : Field _nextIntentId := ltac:(field_setter).
#[export] Instance _lastRxMs_field : Field _lastRxMs := ltac:(field_setter).
#[export] Instance _lastTxMs_field : Field _lastTxMs := ltac:(field_setter).
#[export] Instance _holdingSource_field : Field _holdingSource := ltac:(field_setter).
#[export] Instance _estopActive_field : Field _estopActive := ltac:(field_setter).
#[export] Instance _estopSendFailed_field : Field _estopSendFailed := ltac:(field_setter).
#[export] Instance _estopCause_field : Field _estopCause := ltac:(field_setter).
#[export] Instance _estopSentSeq_field : Field _estopSentSeq := ltac:(field_setter).
#[export] Instance _estopNextSeq_field : Field _estopNextSeq := ltac:(field_setter).
#[export] Instance _estopAttempts_field : Field _estopAttempts := ltac:(field_setter).
#[export] Instance _lastEstopSendMs_field : Field _lastEstopSendMs := ltac:(field_setter).
#[export] Instance _nonce_field : Field _nonce := ltac:(field_setter).
#[export] Instance _clientVer_field : Field _clientVer := ltac:(field_setter).
#[export] Instance _clientNonce_field : Field _clientNonce := ltac:(field_setter).
#[export] Instance _sigRequested_field : Field _sigRequested := ltac:(field_setter).
#[export] Instance _hubPubkey_field : Field _hubPubkey := ltac:(field_setter).
#[export] Instance _hubAuth_field : Field _hubAuth := ltac:(field_setter).
#[export] Instance _sigDeadlineMs_field : Field _sigDeadlineMs := ltac:(field_setter).
#[export] Instance _presentationMode_field : Field _presentationMode := ltac:(field_setter).
#[export] Instance _probeActive_field : Field _probeActive := ltac:(field_setter).
#[export] Instance _probeStartMs_field : Field _probeStartMs := ltac:(field_setter).
#[export] Instance _probeBytesReceived_field : Field _probeBytesReceived := ltac:(field_setter).
#[export] Instance _probeFramesReceived_field : Field _probeFramesReceived := ltac:(field_setter).
#[export] Instance _probeMaxIndexSeen_field : Field _probeMaxIndexSeen := ltac:(field_setter).


