(* ===== verification/ClientParts.v ===== *)
(** * ClientParts: what the client computes without acting (client/client_impl.hpp, channel/catalog_channel.hpp)

    The pure pieces of the client's functions: the messages it sends as a function of its state, the tables
    it keeps, and what it reads in a frame.  A buffer the code fills and then sends a prefix of is the list
    of the bytes sent; the encoders' 0 is the empty list. *)

From S2P Require Import Prelude ByteIO SerialArith Tables Safety Shedding Frame Estop Raw Blob StateChannel.
From S2P Require Import CborMessage MsgNack MsgIntent MsgWish MsgTrust MsgHello MsgWelcome MsgBlob Registry ClientState.
#[local] Open Scope Z_scope.

Definition isAllZero (b : list byte) : bool := forallb (byte_eqb Byte.x00) b.

(** The etag a [catalog] snapshot announces. *)
Definition catalogMetaEtag (payload : list byte) : option (list byte) :=
  if (length payload <? etag_bytes)%nat then None else Some (take etag_bytes payload).

(** The wish for a channel, the last one if the application added several. *)
Definition restate (w : Wish) (l : list Wish) : option (list Wish) :=
  match first_index (fun v => sw_channel_id v =? sw_channel_id w) (rev l) with
  | Some i => Some (<[length l - 1 - i := w]> l)%nat
  | None => if (kMaxWishes <=? length l)%nat then None else Some (l ++ [w])
  end.

(** An id leaves the pending ones at most once. *)
Fixpoint settle (id : Z) (l : list Z) : option (list Z) :=
  match l with
  | [] => None
  | p :: l => if p =? id then Some l else cons p <$> settle id l
  end.

(** *** Sessions *)

Definition reset_session (c : Client) : Client :=
  c <| _sessionId := 0 |> <| _cfgGen := 0 |> <| _grants := replicate kMaxGrants GrantEntry_new |>
    <| _shadows := replicate kMaxShadowSlots ShadowEntry_new |> <| _requiredRetained := 0 |> <| _adoptedCount := 0 |>
    <| _catalogReady := true |> <| _catalogChunkCount := 0 |> <| _readyPending := false |> <| _readyAttempts := 0 |>
    <| _refetching := false |> <| _transferRefused := false |> <| _refusedEtag := None |> <| _resyncing := false |>
    <| _catalogRestarts := 0 |> <| _catalogMetaSeq := None |> <| _estopActive := false |> <| _estopSendFailed := false |>
    <| _holdingSource := false |> <| _wishesAfterHello := false |> <| _lastRxMs := _lastUpdateMs c |>
    <| _hubAuth := NotRequested |> <| _sigDeadlineMs := 0 |>.

Definition proofMode (c : Client) : bool := (_presentationMode c =? presentation_modes.proof) && ci_hasToken (_id c).

Definition catalog_wish : Wish := mkSubscriptionWish channels.catalog 0 Priority.normal.

Definition hello_wishes (c : Client) : list Wish :=
  let wishesCatalog := existsb (fun w => sw_channel_id w =? channels.catalog) (_wishes c) in
  if negb wishesCatalog && (Z.of_nat (length (_wishes c)) <? kHelloMaxSubscriptionWishes)
  then _wishes c ++ [catalog_wish] else _wishes c.

Definition hello_trust (c : Client) : option TrustMap :=
  let t := match _clientVer c with Some v => set_tm_client_ver (Some v) TrustMap_new | None => TrustMap_new end in
  let t := if _presentationMode c =? 0 then t else set_tm_presentation_mode (Some (_presentationMode c)) t in
  let t := if _sigRequested c then set_tm_sig_request (Some true) (set_tm_client_nonce (Some (_clientNonce c)) t) else t in
  if has (_clientVer c) || negb (_presentationMode c =? 0) || _sigRequested c then Some t else None.

Definition hello_of (c : Client) : HelloMsg :=
  {| hl_proto_ver := kProtocolVersion; hl_client_kind := ci_client_kind (_id c);
     hl_client_name := ci_client_name (_id c); hl_instance_id := ci_instance_id (_id c);
     hl_token := if ci_hasToken (_id c) && negb (proofMode c) then Some (ci_token (_id c)) else None;
     hl_catalog_etag := if isAllZero (_cachedEtag c) then None else Some (_cachedEtag c);
     hl_subscriptions := hello_wishes c; hl_publishes := hl_publishes HelloMsg_new;
     hl_trust_map := hello_trust c; hl_deadman_wish_ms := hl_deadman_wish_ms HelloMsg_new |}.

Definition subscribe_of (cap : nat) (l : list Wish) : list byte := encoded cap (encodeSubscribe (mkSubscribeMsg l)).

Definition goodbye_of (code : Z) : list byte := encoded 64 (encodeGoodbye (set_gb_code code GoodbyeMsg_new)).

(** *** GRANT *)

Definition grant_valid (ch : Z) (e : GrantEntry) : bool := ge_valid e && (ge_channel_id e =? ch).

Definition to_entry (g : Grant) : GrantEntry := mkGrantEntry (gr_channel_id g) (gr_granted_rate_hz g) (gr_priority g) true.

Definition adopt_grant (l : list GrantEntry) (g : Grant) : list GrantEntry :=
  match first_index (grant_valid (gr_channel_id g)) l with
  | Some i => alter (fun e => e <| ge_rate_hz := gr_granted_rate_hz g |> <| ge_priority := gr_priority g |>) i l
  | None =>
      match first_index (fun e => negb (ge_valid e)) l with
      | Some i => <[i := to_entry g]> l
      | None => l
      end
  end.

Definition shadow_of (ch : Z) (e : ShadowEntry) : bool := se_used e && (se_channel_id e =? ch).

(** CHANNEL_WITHDRAWN: the grant and the shadow go. *)
Definition forget_channel (ch : Z) (c : Client) : Client :=
  c <| _grants ::= map (fun g => if grant_valid ch g then GrantEntry_new else g) |>
    <| _shadows ::= map (fun s => if shadow_of ch s then ShadowEntry_new else s) |>.

(** *** ESTOP *)

Definition estop_frame (c : Client) : list byte :=
  encoded kEstopFrameBytes (encodeEstop (mkEstopFrame (_estopCause c) (_roles c) (_estopSentSeq c))).

(** The latched snapshot acknowledges this client's ESTOP. *)
Definition acknowledges (payload : list byte) (sentSeq : Z) : bool :=
  let word := getU8 payload in
  let estopSeqField := getU16 (subspan 6 2 payload) in
  negb (Z.land word 1 =? 0) && ((estopSeqField =? sentSeq) || seqIsNewer estopSeqField sentSeq).

(** The next of a 16-bit count that skips 0. *)
Definition next_id (v : Z) : Z := if u16 (v + 1) =? 0 then 1 else u16 (v + 1).

Definition has_magic (bytes : list byte) : bool := (length bytes =? kEstopFrameBytes)%nat && magic_at bytes 0.

(** *** Reads *)

Definition grantedRateHz (ch : Z) (c : Client) : option Z := ge_rate_hz <$> List.find (grant_valid ch) (_grants c).

Definition safetyWord (c : Client) : option Z :=
  match List.find (fun e => shadow_of channels.safety e && sh_valid (se_slot e) && (1 <=? sh_size (se_slot e))) (_shadows c) with
  | Some e => Some (getU8 (sh_value (se_slot e)))
  | None => None
  end.

Definition pauseLatched (c : Client) : bool :=
  match safetyWord c with Some w => negb (Z.land w safety_bits.PAUSE =? 0) | None => false end.

Definition rxAgeMs (c : Client) : Z := u32 (_lastUpdateMs c - _lastRxMs c).

(** *** PROBE *)

Definition probe_expected (c : Client) : Z := match _probeMaxIndexSeen c with Some i => i + 1 | None => 0 end.

Definition probe_result_of (nowMs : Z) (c : Client) : ProbeResult :=
  let expected := probe_expected c in
  let lost := if _probeFramesReceived c <? expected then expected - _probeFramesReceived c else 0 in
  let span := timeDelta nowMs (_probeStartMs c) in
  {| pb_bytes_received := _probeBytesReceived c; pb_span_ms := if 0 <? span then span else 0;
     pb_loss_pct_x100 := if 0 <? expected then u32 (lost * 10000 / expected) else 0; pb_rtt_ms := 0 |}.

Definition count_probe (idx : Z) (payload : list byte) (c : Client) : Client :=
  c <| _probeFramesReceived := u32 (_probeFramesReceived c + 1) |>
    <| _probeBytesReceived := u32 (_probeBytesReceived c + u32 (Z.of_nat (length payload))) |>
    <| _probeMaxIndexSeen := match _probeMaxIndexSeen c with
                             | Some i => Some (if i <? idx then idx else i)
                             | None => Some idx
                             end |>.

(** *** Catalog, INTENT and WELCOME *)

Definition ready_bytes (etag : list byte) : list byte := encoded kCatalogReadyBytes (encodeCatalogReady etag).

Definition expects_chunk (h : BlobChunkHeader) (c : Client) : bool :=
  isCatalog (bc_id h) && negb (bc_chunk_count h =? 0) && (bc_chunk_index h <? bc_chunk_count h)
  && negb (_transferRefused c) && (negb (_catalogReady c) || _refetching c).

Definition kMaxReadyAttempts : Z := limits.catalog_ready_timeout_ms / catalog_chunk_gap_timeout_ms.

Definition intent_of (channel : Z) (values : list IntentValueField) (precondition : option Z) (takeover trial : bool) (id : Z)
  : IntentMsg :=
  {| it_channel_id := channel; it_intent_id := id; it_value := values; it_precondition := precondition;
     it_takeover := Some takeover; it_trial := if trial then Some true else None |}.

Definition withheld (s : HubAuthState) : bool := bool_decide (s = Mismatch) || bool_decide (s = Timeout).

Definition adopt_welcome (m : WelcomeMsg) (c : Client) : Client :=
  c <| _sessionId := wm_session_id m |> <| _bootId := wm_boot_id m |> <| _cfgGen := wm_cfg_gen m |> <| _roles := wm_roles m |>
    <| _hubEtag := wm_catalog_etag m |> <| _nonce := wm_nonce m |>
    <| _estopCutsPower := default false (wm_identity m ≫= id_estop_cuts_power) |>
    <| _grants := let l := map to_entry (take kMaxGrants (wm_grants m)) in l ++ replicate (kMaxGrants - length l) GrantEntry_new |>
    <| _shadows := replicate kMaxShadowSlots ShadowEntry_new |>
    <| _requiredRetained := wl_retained_pending (wm_limits_info m) |> <| _adoptedCount := 0 |>.

(** ** The static profile (session/static_profile.hpp)

    A client that ships with its catalog compares etags and picks one of two behaviours on a mismatch. *)

Inductive StaticProfilePolicy := DegradeGracefully | RefuseLoudly.

#[export] Instance StaticProfilePolicy_eq_dec : EqDecision StaticProfilePolicy.
Proof. solve_decision. Defined.

Record StaticProfileDecision := mkStaticProfileDecision { sp_proceed : bool; sp_controlSuppressed : bool }.

Definition decideStaticProfile (myEtag hubEtag : list byte) (policy : StaticProfilePolicy) : StaticProfileDecision :=
  if bool_decide (myEtag = hubEtag) then mkStaticProfileDecision true false
  else if bool_decide (policy = DegradeGracefully) then mkStaticProfileDecision true true
  else mkStaticProfileDecision false false.

(** Control is never left on against a hub whose catalog is another one. *)
Lemma control_needs_the_same_catalog (mine hub : list byte) (policy : StaticProfilePolicy) :
  let d := decideStaticProfile mine hub policy in
  (sp_proceed d && negb (sp_controlSuppressed d) = true <-> mine = hub)
  /\ (sp_proceed d = false <-> mine <> hub /\ policy = RefuseLoudly).
Proof. unfold decideStaticProfile. destruct policy; repeat case_bool_decide; cbn; split; naive_solver. Qed.
