(* ===== verification/ClientWorld.v ===== *)
(** * ClientWorld: what the client calls, and the monad its functions run in (client/client.hpp, transport/transport.hpp)

    [Call] lists every call the client makes outside the library: its transport, its clock, its delegate and
    the verification of a signature, with the type of what comes back.  The environment answers each call
    and may change by doing so; it does not call back into the client.  Every call is recorded with its
    answer, latest first. *)

From S2P Require Import Prelude StateM Crypto Frame Blob MsgNack MsgIntent ClientState.
#[local] Open Scope Z_scope.

Inductive Call :=
  (* ITransport *)
  | t_open | t_close | t_write (frame : list byte) | t_read
  (* IClock *)
  | nowUs
  (* ClientDelegate *)
  | onStateChange (s : ClientSessionState)
  | onState (channel seq : Z) (payload : list byte)
  | onEcho (intent_id : Z) (applied : list IntentValueField) (cfg_gen : Z)
  | onNack (n : NackMsg)
  | onEvent (channel : Z) (payload : list byte)
  | onPendingDropped (intent_id : Z)
  | onPairGrant (token : list byte) (roles : Z)
  | onHubAuth (s : HubAuthState)
  | onHubPublicKey (key : list byte)
  | onRolesChanged (roles : Z)
  | onCatalog (encoded : list byte) (verified : bool)
  (* ICrypto, where it checks a signature *)
  | verifyP256 (key message sig : list byte).

Definition Answer (c : Call) : Type :=
  match c with
  | t_open | t_write _ | verifyP256 _ _ _ => bool
  | t_read => option FrameBuffer
  | nowUs => Z
  | _ => ()
  end.

Class Env (E : Type) := answer (c : Call) : E -> Answer c * E.

Record Event := Did { what : Call; came_back : Answer what }.

(** [IAllocator]: a block of the size asked for, or [nullptr]. *)
Class IAllocator := { allocate : nat -> option (list byte); allocate_size n b : allocate n = Some b -> length b = n }.

#[export] Instance catalog_storage `{IAllocator} : ChunkStorage AllocatedChunkStorage :=
  Allocated_storage kCatalogChunks allocate allocate_size.

(** [defaultAllocator()]. *)
#[export, refine] Instance HeapAllocator : IAllocator := {| allocate n := Some (replicate n Byte.x00) |}.
Proof. intros n b [= <-]. apply length_replicate. Defined.

(** ** The state a call of the client runs on *)

(** [w_seen] is not the code's: next to each call of the trace it keeps the client and its generator as they
    were when the call was made, so that a theorem can speak of that very moment. *)
Record World (E R : Type) := mkWorld {
  w_client : Client; w_env : E; w_rng : R; w_trace : list Event; w_seen : list (Client * R) }.
Arguments mkWorld {E R} _ _ _ _ _.
Arguments w_client {E R} _.
Arguments w_env {E R} _.
Arguments w_rng {E R} _.
Arguments w_trace {E R} _.
Arguments w_seen {E R} _.

Abbreviation ClientM E R := (StateM (World E R)).

Section Monad.
Context {E R : Type} `{Env E} `{IRandom R}.
Abbreviation M := (ClientM E R) (only parsing).

Definition get : M Client := fun w => (w_client w, w).
Definition gets {A} (f : Client -> A) : M A := fun w => (f (w_client w), w).
Definition modify (f : Client -> Client) : M () := fun w =>
  ((), mkWorld (f (w_client w)) (w_env w) (w_rng w) (w_trace w) (w_seen w)).
Definition call (c : Call) : M (Answer c) := fun w =>
  let '(a, e) := answer c (w_env w) in
  (a, mkWorld (w_client w) e (w_rng w) (Did c a :: w_trace w) ((w_client w, w_rng w) :: w_seen w)).
Definition draw {A} (f : R -> A * R) : M A := fun w =>
  let '(a, g) := f (w_rng w) in (a, mkWorld (w_client w) (w_env w) g (w_trace w) (w_seen w)).

Section Keeps.
Context (Rel : relation (World E R)) `{!PreOrder Rel}.

Lemma client_keeps_get : keeps Rel get.
Proof. intros w. cbn. reflexivity. Qed.
Lemma client_keeps_gets {A} (f : Client -> A) : keeps Rel (gets f).
Proof. intros w. cbn. reflexivity. Qed.

End Keeps.
End Monad.
