(* ===== verification/Client.v ===== *)
(** * Client: the client's functions (client/client_impl.hpp)

    Functions keep their C++ names; a block of a long function has a name of its own. *)

From S2P Require Import Prelude ByteIO SerialArith Sha256 Tables Crypto Safety Frame Estop Raw Blob StateChannel Codec.
From S2P Require Import CborMessage MsgNack MsgIntent MsgWish MsgTrust MsgHello MsgWelcome MsgBlob Registry.
From S2P Require Import ClientState ClientParts StateM ClientWorld.
#[local] Open Scope Z_scope.

Section Client.
Context {E R : Type} `{Env E} `{IRandom R} `{ICrypto} `{IAllocator}.
Abbreviation M := (ClientM E R) (only parsing).

(** ** Sending *)

Definition sendFrame (type channel : Z) (payload : list byte) : M bool :=
  let h := mkFrameHeader type 0 channel 0 (u16 (Z.of_nat (length payload))) in
  let '(buf, pos) := encodeFrameHeader h (replicate kFrameBufferCapacity Byte.x00) in
  if (pos =? 0)%nat then mret false
  else if (kFrameBufferCapacity - pos <? length payload)%nat then mret false
  else
    sent ← call (t_write (take (pos + length payload) (splice pos payload buf)));
    when sent (modify (fun c => c <| _lastTxMs := _lastUpdateMs c |>)) ;;
    mret sent.

(** [n > 0 && sendFrame(...)] of an encoder's bytes. *)
Definition send_encoded (type : Z) (buf : list byte) : M bool :=
  if blank buf then mret false else sendFrame type 0 buf.

Definition flushPending : M () :=
  pending ← gets _pending;
  each (fun id => call (onPendingDropped id)) pending ;;
  modify (fun c => c <| _pending := [] |>).

Definition setState (s : ClientSessionState) : M () :=
  modify (fun c => c <| _state := s |>) ;; call (onStateChange s).

Definition setHubAuth (s : HubAuthState) : M () :=
  now ← gets _hubAuth;
  if bool_decide (now = s) then mret () else modify (fun c => c <| _hubAuth := s |>) ;; call (onHubAuth s).

(** ** Wishes *)

Definition addSubscriptionWish (channel rate prio : Z) : M bool :=
  wishes ← gets _wishes;
  if (kMaxWishes <=? length wishes)%nat then mret false
  else modify (fun c => c <| _wishes ::= fun l => l ++ [mkSubscriptionWish channel rate prio] |>) ;; mret true.

Definition subscribe (channel rate prio : Z) : M bool :=
  let wish := mkSubscriptionWish channel rate prio in
  wishes ← gets _wishes;
  match restate wish wishes with
  | None => mret false
  | Some l =>
      modify (fun c => c <| _wishes := l |>) ;;
      state ← gets _state;
      if bool_decide (state = HELLO_SENT) then modify (fun c => c <| _wishesAfterHello := true |>) ;; mret true
      else if bool_decide (state <> SYNCING) && bool_decide (state <> LIVE) then mret true
      else send_encoded FrameType.SUBSCRIBE (subscribe_of 64 [wish])
  end.

Definition resendSubscriptionWishes : M () :=
  wishes ← gets _wishes;
  if blank wishes then mret ()
  else send_encoded FrameType.SUBSCRIBE (subscribe_of 400 (take (Z.to_nat kSubscribeMaxWishes) wishes)) ;; mret ().

(** ** connect() and disconnect() *)

(** Without a pinned key there is nothing to verify against. *)
Definition expect_proof : M () :=
  key ← gets _hubPubkey;
  setHubAuth (if blank key then Unverifiable else Pending).

Definition draw_nonce : M () :=
  nonce ← draw (rng_fill kTrustClientNonceBytes);
  modify (fun c => c <| _clientNonce := nonce |>) ;;
  expect_proof.

Definition send_hello : M bool :=
  h ← gets hello_of;
  sent ← send_encoded FrameType.HELLO (encoded 700 (encodeHello h));
  if negb sent then mret false
  else
    auth ← gets _hubAuth;
    when (bool_decide (auth = Pending))
      (modify (fun c => c <| _sigDeadlineMs := u32 (_lastUpdateMs c + limits.hub_sig_timeout_ms) |>)) ;;
    setState HELLO_SENT ;;
    mret true.

(** HELLO, once the session is reset. *)
Definition say_hello : M bool :=
  requested ← gets _sigRequested;
  when requested draw_nonce ;;
  send_hello.

Definition connect : M bool :=
  flushPending ;;
  opened ← call t_open;
  if negb opened then mret false
  else modify (fun c => reset_session (c <| _chunkReassembler ::= cr_reset |>)) ;; say_hello.

Definition disconnect : M () :=
  state ← gets _state;
  when (bool_decide (state <> CLOSED)) (send_encoded FrameType.GOODBYE (goodbye_of NackCode.NORMAL_CLOSURE) ;; mret ()) ;;
  flushPending ;;
  call t_close ;;
  setState CLOSED.

(** ** The catalog's transfer *)

Definition sendBlobReq : M () :=
  sent ← send_encoded FrameType.BLOB_REQ (encoded 16 (encodeBlobReq (mkBlobReqMsg BlobId_default None)));
  when sent (modify (fun c => c <| _catalogReqSentCount ::= S |>)).

Definition startCatalogTransfer : M () :=
  modify (fun c => c <| _chunkReassembler ::= cr_reset |> <| _catalogChunkCount := 0 |> <| _transferRefused := false |>) ;;
  sendBlobReq.

Definition restartCatalogTransfer : M () :=
  n ← gets _catalogRestarts;
  if kMaxCatalogRestarts <=? n then mret ()
  else modify (fun c => c <| _catalogRestarts := u8 (n + 1) |>) ;; startCatalogTransfer.

Definition sendBlobDone (status : Z) : M () :=
  target ← gets (fun c => cr_id (_chunkReassembler c));
  send_encoded FrameType.BLOB_DONE (encoded kBlobDoneBytes (encodeBlobDone (mkBlobDoneMsg target status))) ;; mret ().

Definition sendCatalogReady (etag : list byte) : M () :=
  let buf := ready_bytes etag in
  if blank buf then mret ()
  else
    modify (fun c => c <| _readyEtag := etag |>) ;;
    sent ← sendFrame FrameType.CATALOG_READY 0 buf;
    when sent (modify (fun c => c <| _readyPending := true |> <| _lastReadySendMs := _lastUpdateMs c |>
                                  <| _readyAttempts ::= fun n => u32 (n + 1) |>)).

Definition redeclare : M () := etag ← gets _readyEtag; sendCatalogReady etag.

Definition noteCatalogAnnouncement (payload : list byte) : M () :=
  match catalogMetaEtag payload with
  | None => mret ()
  | Some announced =>
      modify (fun c => c <| _hubEtag := announced |>) ;;
      c ← get;
      if bool_decide (announced = _readyEtag c) then modify (fun c => c <| _cachedEtag := announced |>)
      else if negb (_catalogReady c) || _refetching c then mret ()
      else if bool_decide (_refusedEtag c = Some announced) then mret ()
      else
        modify (fun c => c <| _refetching := true |> <| _catalogRestarts := 0 |>) ;;
        startCatalogTransfer
  end.

Definition checkLiveTransition : M () :=
  c ← get;
  when (negb (_resyncing c) && bool_decide (_state c = SYNCING) && _catalogReady c && (_requiredRetained c <=? _adoptedCount c))
    (setState LIVE).

(** A refetch that is over budget keeps the old catalog; a first transfer ends the session. *)
Definition refuseCatalogTransfer : M () :=
  modify (fun c => c <| _transferRefused := true |>) ;;
  refetching ← gets _refetching;
  if refetching : bool then
    modify (fun c => c <| _refetching := false |> <| _refusedEtag := Some (_hubEtag c) |>) ;;
    sendBlobDone BlobDoneStatus.Aborted ;;
    resyncing ← gets _resyncing;
    when resyncing redeclare
  else
    send_encoded FrameType.GOODBYE (goodbye_of NackCode.BLOB_REFUSED) ;;
    flushPending ;;
    call t_close ;;
    setState CLOSED.

(** The catalog is here: it is handed over, and declared as what it hashes to. *)
Definition conclude_transfer : M () :=
  bytes ← gets (fun c => assembled (_chunkReassembler c));
  let digest := take etag_bytes (Sha256.hash bytes) in
  c ← get;
  let matches := bool_decide (digest = _hubEtag c) in
  if negb matches && _refetching c && (_catalogRestarts c <? kMaxCatalogRestarts)
  then sendBlobDone BlobDoneStatus.HashMismatch ;; restartCatalogTransfer
  else
    when matches (modify (fun c => c <| _cachedEtag := _hubEtag c |> <| _catalogRestarts := 0 |>)) ;;
    modify (fun c => c <| _catalogReady := true |> <| _refetching := false |>) ;;
    call (onCatalog bytes matches) ;;
    modify (fun c => c <| _chunkReassembler ::= cr_reset |>) ;;
    sendBlobDone (if matches then BlobDoneStatus.VerifiedComplete else BlobDoneStatus.HashMismatch) ;;
    etag ← gets _hubEtag;
    sendCatalogReady (if matches then etag else digest) ;;
    checkLiveTransition.

(** The reassembler is made ready for the chunk's transfer, unless it is already at it. *)
Definition open_transfer (h : BlobChunkHeader) (nowMs : Z) : M () :=
  modify (fun c => if negb (cr_active (_chunkReassembler c)) || negb (_catalogChunkCount c =? bc_chunk_count h)
                   then c <| _chunkReassembler ::= fun r => cr_begin_header r h nowMs |> <| _catalogChunkCount := bc_chunk_count h |>
                   else c).

Definition handleBlobChunk (payload : list byte) (nowMs : Z) : M () :=
  match getBlobChunkHeader payload with
  | None => mret ()
  | Some h =>
      expected ← gets (expects_chunk h);
      if negb expected then mret ()
      else
        open_transfer h nowMs ;;
        active ← gets (fun c => cr_active (_chunkReassembler c));
        if negb active then refuseCatalogTransfer
        else
          modify (fun c => c <| _chunkReassembler ::= fun r => fst (cr_insert r payload nowMs) |>) ;;
          done ← gets (fun c => cr_complete (_chunkReassembler c));
          when done conclude_transfer
  end.

Definition pumpBlobAbandon (nowMs : Z) : M () :=
  c ← get;
  let r := _chunkReassembler c in
  if negb (cr_active r) || cr_complete r || negb (timedOut r nowMs) then mret ()
  else
    sendBlobDone BlobDoneStatus.Aborted ;;
    when (_refetching c && _resyncing c) redeclare ;;
    modify (fun c => c <| _refetching := false |> <| _chunkReassembler ::= cr_reset |> <| _catalogChunkCount := 0 |>).

Definition pumpCatalogReady (nowMs : Z) : M () :=
  c ← get;
  if negb (_readyPending c) then mret ()
  else if kMaxReadyAttempts <=? _readyAttempts c then modify (fun c => c <| _readyPending := false |>)
  else if negb (timeReached nowMs (u32 (_lastReadySendMs c + catalog_chunk_gap_timeout_ms))) then mret ()
  else
    let buf := ready_bytes (_readyEtag c) in
    if blank buf then modify (fun c => c <| _readyPending := false |>)
    else
      sendFrame FrameType.CATALOG_READY 0 buf ;;
      modify (fun c => c <| _lastReadySendMs := nowMs |> <| _readyAttempts ::= fun n => u32 (n + 1) |>).

(** ** ESTOP *)

(** A write that counts as sent whatever the transport says. *)
Definition send_estop (nowMs : Z) : M () :=
  frame ← gets estop_frame;
  if blank frame then mret () else call (t_write frame) ;; modify (fun c => c <| _lastTxMs := nowMs |>).

Definition initiateEstop (cause : Z) : M () :=
  modify (fun c => c <| _estopActive := true |> <| _estopSendFailed := false |> <| _estopCause := cause |>
                     <| _estopSentSeq := _estopNextSeq c |> <| _estopNextSeq := next_id (_estopNextSeq c) |>
                     <| _estopAttempts := 0 |>) ;;
  nowMs ← gets _lastUpdateMs;
  send_estop nowMs ;;
  modify (fun c => c <| _estopAttempts := 1 |> <| _lastEstopSendMs := _lastUpdateMs c |>).

Definition pumpEstopRepeat (nowMs : Z) : M () :=
  c ← get;
  if negb (_estopActive c) then mret ()
  else if limits.estop_repeat_max <=? _estopAttempts c
  then modify (fun c => c <| _estopActive := false |> <| _estopSendFailed := true |>)
  else if negb (timeReached nowMs (u32 (_lastEstopSendMs c + limits.estop_repeat_interval_ms))) then mret ()
  else
    send_estop nowMs ;;
    modify (fun c => c <| _estopAttempts ::= fun n => u32 (n + 1) |> <| _lastEstopSendMs := nowMs |>).

(** ** INTENT *)

Definition sendIntentImpl (channel : Z) (values : list IntentValueField) (precondition : option Z)
    (takeover trial roleExempt : bool) : M (option Z) :=
  c ← get;
  if bool_decide (_state c <> LIVE) then mret None
  else if withheld (_hubAuth c) then mret None
  else
    let track := (length (_pending c) <? kMaxPendingIntents)%nat in
    if negb track && negb roleExempt then mret None
    else
      let id := _nextIntentId c in
      let buf := encoded 300 (encodeIntent (intent_of channel values precondition takeover trial id)) in
      if blank buf then mret None
      else
        sent ← sendFrame FrameType.INTENT channel buf;
        if negb sent then mret None
        else
          when track (modify (fun c => c <| _pending ::= fun l => l ++ [id] |>)) ;;
          modify (fun c => c <| _nextIntentId := next_id id |>) ;;
          mret (Some id).

Definition sendIntent (channel : Z) (values : list IntentValueField) (precondition : option Z) (takeover trial : bool)
  : M (option Z) :=
  sendIntentImpl channel values precondition takeover trial false.

Definition sendSafetyOp (op : Z) : M (option Z) :=
  let exempt := (op =? safety_ops.pause) || (op =? safety_ops.estop) in
  sendIntentImpl channels.safety_intents [(1, VU64 op)] None false false exempt.

Definition halt (cause : Z) : M () :=
  initiateEstop cause ;;
  state ← gets _state;
  when (bool_decide (state = LIVE)) (sendSafetyOp safety_ops.estop ;; mret ()).

Definition pause : M (option Z) := sendSafetyOp safety_ops.pause.
Definition resume : M (option Z) := sendSafetyOp safety_ops.resume.
Definition release : M (option Z) := sendSafetyOp safety_ops.release.

(** ** Pairing and the hub's authenticity *)

Definition send_pair_req (m : PairReqMsg) : M bool := send_encoded FrameType.PAIR_REQ (encoded 64 (encodePairReq m)).

Definition pair_req : M PairReqMsg := gets (fun c => set_pr_instance_id (ci_instance_id (_id c)) PairReqMsg_new).

Definition sendPairReq (pinProof : list byte) : M bool :=
  if negb (length pinProof =? kPinProofBytes)%nat then mret false
  else m ← pair_req; send_pair_req (set_pr_pin_proof (Some pinProof) m).

Definition sendPairKnock : M bool := m ← pair_req; send_pair_req m.
Definition sendPairKnock_ask (ask : Z) : M bool := m ← pair_req; send_pair_req (set_pr_roles (Some ask) m).

(** An empty or over-size key is no key. *)
Definition setHubPublicKey (key : list byte) : M () :=
  modify (fun c => c <| _hubPubkey := if blank key || (kTrustPubkeyMaxBytes <? length key)%nat then [] else key |>).

Definition handlePairGrant (payload : list byte) : M () :=
  match decodePairGrant payload with
  | err _ => mret ()
  | ok m =>
      match pg_trust_map m ≫= tm_hub_pubkey with
      | Some key => setHubPublicKey key ;; call (onHubPublicKey key)
      | None => mret ()
      end ;;
      call (onPairGrant (pg_token m) (pg_roles m))
  end.

Definition setClientVersion (ver : option (list byte)) : M () := modify (fun c => c <| _clientVer := ver |>).
Definition requestHubSignature (on : bool) : M () := modify (fun c => c <| _sigRequested := on |>).
Definition setTokenPresentationMode (mode : Z) : M () := modify (fun c => c <| _presentationMode := mode |>).
Definition setCachedEtag (etag : list byte) : M () := modify (fun c => c <| _cachedEtag := etag |>).

Definition adoptHubSignature (sig : list byte) : M () :=
  c ← get;
  if bool_decide (_hubAuth c = Verified) || bool_decide (_hubAuth c = Mismatch) then mret ()
  else if negb (_sigRequested c) then mret ()
  else if blank (_hubPubkey c) then setHubAuth Unverifiable
  else if blank sig then mret ()
  else
    verified ← call (verifyP256 (_hubPubkey c) (hubSigMaterial (_clientNonce c) (_sessionId c) (_bootId c)) sig);
    setHubAuth (if verified : bool then Verified else Mismatch).

Definition handleHubSig (payload : list byte) : M () :=
  match decodeHubSig payload with
  | err _ => mret ()
  | ok m => match tm_welcome_sig (te_trust_map m) with Some sig => adoptHubSignature sig | None => mret () end
  end.

Definition pumpHubSigTimeout (nowMs : Z) : M () :=
  c ← get;
  when (bool_decide (_hubAuth c = Pending) && timeReached nowMs (_sigDeadlineMs c)) (setHubAuth Timeout).

Definition sendAuthProof : M () :=
  c ← get;
  if negb (ci_hasToken (_id c)) then mret ()
  else
    match ic_hmacSha256 (ci_token (_id c)) (_nonce c) (replicate 32 Byte.x00) with
    | None => mret ()
    | Some mac =>
        let t := set_tm_token_proof (Some (take kTrustTokenProofBytes mac)) TrustMap_new in
        let t := set_tm_presentation_mode (Some presentation_modes.proof) t in
        send_encoded FrameType.AUTH (encoded 64 (encodeAuth (mkTrustEnvelopeMsg t))) ;; mret ()
    end.

(** ** Frames *)

Definition settle_catalog (etag : list byte) : M () :=
  cached ← gets _cachedEtag;
  if bool_decide (cached = etag) then modify (fun c => c <| _catalogReady := true |> <| _readyEtag := etag |>)
  else modify (fun c => c <| _catalogReady := false |>) ;; startCatalogTransfer.

Definition handleWelcome (payload : list byte) : M () :=
  state ← gets _state;
  if bool_decide (state <> HELLO_SENT) then mret ()
  else
    match decodeWelcome payload with
    | err _ => mret ()
    | ok m =>
        modify (adopt_welcome m) ;;
        settle_catalog (wm_catalog_etag m) ;;
        match wm_trust_map m ≫= tm_welcome_sig with
        | Some sig => adoptHubSignature sig
        | None => mret ()
        end ;;
        proof ← gets proofMode;
        when proof sendAuthProof ;;
        setState SYNCING ;;
        again ← gets _wishesAfterHello;
        when again (modify (fun c => c <| _wishesAfterHello := false |>) ;; resendSubscriptionWishes) ;;
        checkLiveTransition
    end.

Definition findOrCreateShadow (channel : Z) : M (option nat) :=
  shadows ← gets _shadows;
  match first_index (shadow_of channel) shadows with
  | Some i => mret (Some i)
  | None =>
      match first_index (fun e => negb (se_used e)) shadows with
      | Some i => modify (fun c => c <| _shadows ::= <[i := mkShadowEntry channel true ShadowSlot_new]> |>) ;; mret (Some i)
      | None => mret None
      end
  end.

(** STATE flows: the hub opened this client's data plane. *)
Definition note_flow : M () :=
  modify (fun c => c <| _readyPending := false |>) ;;
  c ← get;
  when (_resyncing c && negb (_refetching c) && bool_decide (_state c = SYNCING))
    (modify (fun c => c <| _resyncing := false |>) ;; setState LIVE).

Definition note_catalog (channel sq : Z) (payload : list byte) : M () :=
  last ← gets _catalogMetaSeq;
  when ((channel =? channels.catalog) && match last with None => true | Some l => seqIsNewer sq l end)
    (modify (fun c => c <| _catalogMetaSeq := Some sq |>) ;; noteCatalogAnnouncement payload).

Definition note_latch (channel : Z) (payload : list byte) : M () :=
  c ← get;
  when ((channel =? channels.safety) && _estopActive c && (8 <=? length payload)%nat && acknowledges payload (_estopSentSeq c))
    (modify (fun c => c <| _estopActive := false |> <| _estopSendFailed := false |>)).

Definition handleState (channel sq : Z) (payload : list byte) : M () :=
  note_flow ;;
  note_catalog channel sq payload ;;
  found ← findOrCreateShadow channel;
  match found with
  | None => mret ()
  | Some i =>
      slot ← gets (fun c => se_slot (default ShadowEntry_new (_shadows c !! i)));
      let '(slot', accepted, _) := applyStateFrame sq payload slot in
      if negb accepted then mret ()
      else
        modify (fun c => c <| _shadows ::= alter (fun e => e <| se_slot := slot' |>) i |>) ;;
        call (onState channel sq payload) ;;
        state ← gets _state;
        when (bool_decide (state = SYNCING) && negb (sh_valid slot))
          (modify (fun c => c <| _adoptedCount ::= fun n => u32 (n + 1) |>) ;; checkLiveTransition) ;;
        note_latch channel payload
  end.

Definition handleEcho (payload : list byte) : M () :=
  match decodeEcho payload with
  | err _ => mret ()
  | ok m =>
      pending ← gets _pending;
      match settle (ec_intent_id m) pending with
      | None => mret ()
      | Some l =>
          modify (fun c => c <| _pending := l |> <| _cfgGen := ec_cfg_gen m |> <| _holdingSource := true |>) ;;
          call (onEcho (ec_intent_id m) (ec_applied m) (ec_cfg_gen m))
      end
  end.

(** The hub took the session's readiness back. *)
Definition resync : M () :=
  modify (fun c => c <| _resyncing := true |>) ;;
  setState SYNCING ;;
  refetching ← gets _refetching;
  when (negb refetching) redeclare.

Definition handleNack (payload : list byte) : M () :=
  match decodeNack payload with
  | err _ => mret ()
  | ok m =>
      state ← gets _state;
      when (bool_decide (state = HELLO_SENT)) (setState CLOSED) ;;
      match nk_intent_id m with
      | Some id => modify (fun c => c <| _pending ::= fun l => default l (settle id l) |>)
      | None => mret ()
      end ;;
      match nk_channel_id m with
      | Some ch => when (nk_code m =? NackCode.CHANNEL_WITHDRAWN) (modify (forget_channel ch))
      | None => mret ()
      end ;;
      c ← get;
      when ((nk_code m =? NackCode.CHUNK_UNAVAILABLE) && (negb (_catalogReady c) || _refetching c)) restartCatalogTransfer ;;
      when ((nk_code m =? NackCode.NOT_READY) && bool_decide (_state c = LIVE)) resync ;;
      call (onNack m)
  end.

Definition take_roles (roles : Z) : M () :=
  before ← gets _roles;
  modify (fun c => c <| _roles := roles |>) ;;
  when (negb (roles =? before))
    (when (before <? roles) resendSubscriptionWishes ;; call (onRolesChanged roles)).

Definition handleGrant (payload : list byte) : M () :=
  match decodeGrant payload with
  | err _ => mret ()
  | ok m =>
      modify (fun c => c <| _grants ::= fun l => foldl adopt_grant l (gm_grants m) |>) ;;
      match gm_roles m with Some r => take_roles r | None => mret () end
  end.

Definition handleEvent (channel : Z) (payload : list byte) : M () := call (onEvent channel payload).

Definition handlePing (payload : list byte) : M () :=
  sendFrame FrameType.PONG 0 (encoded 32 (encodePong payload)) ;; mret ().

Definition runProbe : M bool :=
  state ← gets _state;
  if bool_decide (state <> LIVE) then mret false
  else
    sent ← sendFrame FrameType.PROBE 0 [];
    if negb sent then mret false
    else
      modify (fun c => c <| _probeActive := true |> <| _probeStartMs := _lastUpdateMs c |> <| _probeBytesReceived := 0 |>
                         <| _probeFramesReceived := 0 |> <| _probeMaxIndexSeen := None |>) ;;
      mret true.

Definition handleProbeFrame (payload : list byte) : M () :=
  active ← gets _probeActive;
  if negb active then mret ()
  else match decodeProbeFrame payload with err _ => mret () | ok idx => modify (count_probe idx payload) end.

Definition pumpProbe (nowMs : Z) : M () :=
  c ← get;
  if negb (_probeActive c) then mret ()
  else if negb (timeReached nowMs (u32 (_probeStartMs c + limits.probe_max_duration_ms))) then mret ()
  else
    send_encoded FrameType.PROBE_REPORT (encoded 64 (encodeProbeReport (probe_result_of nowMs c))) ;;
    modify (fun c => c <| _probeActive := false |>).

(** ** Dispatch and the tick *)

Definition handleGoodbye : M () := setState CLOSED ;; flushPending.

Definition route (h : FrameHeader) (payload : list byte) (nowMs : Z) : M () :=
  let t := fh_type h in
  if t =? FrameType.WELCOME then handleWelcome payload
  else if t =? FrameType.STATE then handleState (fh_channel h) (fh_seq h) payload
  else if t =? FrameType.ECHO then handleEcho payload
  else if t =? FrameType.NACK then handleNack payload
  else if t =? FrameType.GRANT then handleGrant payload
  else if t =? FrameType.EVENT then handleEvent (fh_channel h) payload
  else if t =? FrameType.BLOB_CHUNK then handleBlobChunk payload nowMs
  else if t =? FrameType.PING then handlePing payload
  else if t =? FrameType.PAIR_GRANT then handlePairGrant payload
  else if t =? FrameType.HUB_SIG then handleHubSig payload
  else if t =? FrameType.PROBE then handleProbeFrame payload
  else if t =? FrameType.GOODBYE then handleGoodbye
  else mret ().

Definition heard (nowMs : Z) : M () := modify (fun c => c <| _lastRxMs := nowMs |>).

Definition handleFrame (fb : FrameBuffer) (nowMs : Z) : M () :=
  let bytes := fb_bytes fb in
  if has_magic bytes then match decodeEstop bytes with ok _ => heard nowMs | err _ => mret () end
  else
    match fb_header fb with
    | None => mret ()
    | Some h => heard nowMs ;; route h (fb_payload fb) nowMs
    end.

(** [fuel] is how many frames the transport may hand over in one turn. *)
Fixpoint pump (fuel : nat) (nowMs : Z) : M () :=
  match fuel with
  | O => mret ()
  | S fuel =>
      fb ← call t_read;
      match fb with
      | None => mret ()
      | Some fb => handleFrame fb nowMs ;; pump fuel nowMs
      end
  end.

Definition pumpPing (nowMs : Z) : M () :=
  c ← get;
  let pingIntervalMs := if _holdingSource c then limits.ping_interval_holding_control_ms else limits.ping_interval_idle_ms in
  when (bool_decide (_state c <> CLOSED) && timeReached nowMs (u32 (_lastTxMs c + pingIntervalMs)))
    (sendFrame FrameType.PING 0 (encoded 8 (encodePing [])) ;; mret ()).

Definition update (fuel : nat) (nowUs : Z) : M () :=
  mono ← gets _monoMs;
  let '(mono', nowMs) := advance mono nowUs in
  modify (fun c => c <| _monoMs := mono' |> <| _lastUpdateMs := nowMs |>) ;;
  pump fuel nowMs ;;
  pumpPing nowMs ;;
  pumpEstopRepeat nowMs ;;
  pumpBlobAbandon nowMs ;;
  pumpCatalogReady nowMs ;;
  pumpProbe nowMs ;;
  pumpHubSigTimeout nowMs.

(** The constructor reads the clock once. *)
Definition Client_boot (id : ClientIdentity) (e : E) (g : R) : World E R :=
  let '(us, e) := answer nowUs e in
  let '(mono, nowMs) := advance MonotonicMs_new us in
  let c := (Client_new id) <| _monoMs := mono |> <| _lastUpdateMs := nowMs |> in
  mkWorld c e g [Did nowUs us] [(c, g)].

End Client.
