(* ===== verification/ClientSteps.v ===== *)
(** * ClientSteps: the client as a transition system

    What a theorem about a whole client is about is its [view]: where its session is, what it holds of the
    hub's authenticity, and the bounds of its tables.  [Step] lists the ways the view may change, under which
    conditions, and which calls may be made when; every function of the client is a sequence of such steps. *)

From S2P Require Import Prelude SerialArith Tables Crypto Frame Estop Blob StateChannel CborMessage MsgHello MsgTrust MsgWelcome Registry.
From S2P Require Import ClientState ClientParts StateM ClientWorld Client.
#[local] Open Scope Z_scope.

Record ClientView := mkClientView {
  v_state : ClientSessionState; v_auth : HubAuthState; v_ready : bool; v_resyncing : bool; v_wishes : nat; v_pending : nat;
  v_grants : nat; v_shadows : list ShadowEntry; v_key : nat; v_restarts : Z; v_attempts : Z; v_intent : Z; v_estop : Z }.

Definition view (c : Client) : ClientView :=
  mkClientView (_state c) (_hubAuth c) (_catalogReady c) (_resyncing c) (length (_wishes c)) (length (_pending c))
    (length (_grants c)) (_shadows c) (length (_hubPubkey c)) (_catalogRestarts c) (_estopAttempts c) (_nextIntentId c)
    (_estopNextSeq c).

(** The shadows are one per channel, each over a buffer of one payload. *)
Record shadows_wf (l : list ShadowEntry) : Prop := {
  sw_length : length l = kMaxShadowSlots;
  sw_slots : Forall (fun e => shadow_ok (se_slot e)) l;
  sw_one i j e f : l !! i = Some e -> l !! j = Some f -> se_used e = true -> se_used f = true ->
    se_channel_id e = se_channel_id f -> i = j }.

(** What holds of a client at every moment of its life. *)
Record client_wf (v : ClientView) : Prop := {
  wf_wishes : (v_wishes v <= kMaxWishes)%nat;
  wf_pending : (v_pending v <= kMaxPendingIntents)%nat;
  wf_grants : v_grants v = kMaxGrants;
  wf_shadows : shadows_wf (v_shadows v);
  wf_key : (v_key v <= kTrustPubkeyMaxBytes)%nat;
  wf_restarts : 0 <= v_restarts v <= kMaxCatalogRestarts;
  wf_attempts : 0 <= v_attempts v <= limits.estop_repeat_max;
  wf_intent : 1 <= v_intent v < 65536;
  wf_estop : 1 <= v_estop v < 65536;
  wf_live : v_state v = LIVE -> v_ready v = true;
  wf_resync : v_resyncing v = true -> v_ready v = true /\ v_state v <> HELLO_SENT }.

(** The session's state machine. *)
Definition follows (s s' : ClientSessionState) : bool :=
  match s', s with
  | CLOSED, _ | HELLO_SENT, _ | SYNCING, HELLO_SENT | SYNCING, LIVE | LIVE, SYNCING => true
  | _, _ => false
  end.

Definition is_intent (frame : list byte) : bool :=
  match decodeFrameHeader frame with Some h => fh_type h =? FrameType.INTENT | None => false end.

(** Which calls say nothing about the view. *)
Definition plain (e : Event) : bool :=
  match e with
  | Did c a =>
      match c return Answer c -> bool with
      | onStateChange _ | onHubAuth _ => fun _ => false
      | t_open => fun a => negb a
      | t_write frame => fun _ => negb (is_intent frame)
      | _ => fun _ => true
      end a
  end.

(** A verdict is what the last call of the verifier said, on this session's material under the pinned key. *)
Definition verdict (s : HubAuthState) (c : Client) (t : list Event) : Prop :=
  match s with
  | Verified | Mismatch =>
      exists sig t', _hubPubkey c <> [] /\ sig <> [] /\
        t = Did (verifyP256 (_hubPubkey c) (hubSigMaterial (_clientNonce c) (_sessionId c) (_bootId c)) sig)
              (bool_decide (s = Verified)) :: t'
  | _ => True
  end.

Definition settled (s : HubAuthState) : bool := bool_decide (s = Verified) || bool_decide (s = Mismatch).

(** What a signature is asked about, and under which key. *)
Definition material (c : Client) : list byte * list byte * Z * Z := (_hubPubkey c, _clientNonce c, _sessionId c, _bootId c).

(** The keys the application pins. *)
Class Pins := pins : list byte -> Prop.

(** The WELCOME a frame carries. *)
Definition carried (fb : FrameBuffer) : option WelcomeMsg :=
  h ← fb_header fb;
  if fh_type h =? FrameType.WELCOME then match decodeWelcome (fb_payload fb) with ok m => Some m | err _ => None end else None.

(** The WELCOMEs read since the transport was opened last. *)
Fixpoint welcomes (t : list Event) : list WelcomeMsg :=
  match t with
  | [] => []
  | Did c a :: t =>
      match c return Answer c -> list WelcomeMsg with
      | t_open => fun opened => if opened then [] else welcomes t
      | t_read => fun fb => match fb ≫= carried with Some m => m :: welcomes t | None => welcomes t end
      | _ => fun _ => welcomes t
      end a
  end.

Section Steps.
Context {E R : Type} `{Env E} `{IRandom R} `{IAllocator} `{Pins}.
Abbreviation W := (World E R) (only parsing).

Definition change (f : Client -> Client) (w : W) : W := (modify f w).2.

Definition fresh_nonce (w : W) : W :=
  change (fun c => c <| _clientNonce := fst (rng_fill kTrustClientNonceBytes (w_rng w)) |>) (draw (rng_fill kTrustClientNonceBytes) w).2.

(** A session begins: all of the last one is forgotten, and a nonce drawn if a signature is to be asked for. *)
Definition begun (w : W) : W :=
  let w' := change (fun c => reset_session (c <| _chunkReassembler ::= cr_reset |>)) (call t_open w).2 in
  if _sigRequested (w_client w') then fresh_nonce w' else w'.

Inductive Step (w : W) : W -> Prop :=
| step_call c : plain (Did c (call c w).1) = true -> Step w (call c w).2
| step_draw A (f : R -> A * R) : Step w (draw f w).2
| step_change f :
    _state (f (w_client w)) = _state (w_client w) -> _hubAuth (f (w_client w)) = _hubAuth (w_client w) ->
    material (f (w_client w)) = material (w_client w) -> Step w (change f w)
| step_open : (call t_open w).1 = true -> Step w (begun w)
| step_welcome m : In m (welcomes (w_trace w)) -> Step w (change (adopt_welcome m) w)
| step_pin key : pins key -> Step w (setHubPublicKey key w).2
| step_grant key : Step w ((setHubPublicKey key ;; call (onHubPublicKey key)) w).2
| step_state s :
    follows (_state (w_client w)) s = true -> Step w (setState s w).2
| step_auth s :
    settled (_hubAuth (w_client w)) = false -> _hubAuth (w_client w) <> s -> verdict s (w_client w) (w_trace w) ->
    Step w (setHubAuth s w).2
| step_intent frame :
    _state (w_client w) = LIVE -> withheld (_hubAuth (w_client w)) = false -> Step w (call (t_write frame) w).2.

Definition Steps : relation W := rtc Step.

#[export] Instance Steps_preorder : PreOrder Steps.
Proof. unfold Steps. apply _. Qed.

Definition wf (w : W) : Prop := client_wf (view (w_client w)).

(** A run from a well-formed client is a sequence of steps to a well-formed client. *)
Definition Stepwise (w w' : W) : Prop := wf w -> Steps w w' /\ wf w'.

#[export] Instance Stepwise_preorder : PreOrder Stepwise.
Proof.
  split; [by intros w Hw|]. intros w1 w2 w3 H12 H23 Hw. destruct (H12 Hw) as [Hs Hw2]. destruct (H23 Hw2) as [Hs' Hw3].
  split; [by etransitivity|done].
Qed.

(** And one that leaves the session where it is. *)
Definition Calm (w w' : W) : Prop :=
  Stepwise w w' /\ _state (w_client w') = _state (w_client w) /\ _resyncing (w_client w') = _resyncing (w_client w).

#[export] Instance Calm_preorder : PreOrder Calm.
Proof.
  split; [intros w; split_and!; [reflexivity|done..]|]. intros w1 w2 w3 (Ha1 & Ha2 & Ha3) (Hb1 & Hb2 & Hb3).
  split_and!; [by etransitivity|congruence..].
Qed.

Lemma client_calm_stepwise {A} (m : ClientM E R A) : keeps Calm m -> keeps Stepwise m.
Proof. intros Hm w. apply (Hm w). Qed.

Lemma call_client c (w : W) : w_client (call c w).2 = w_client w.
Proof. unfold call. by destruct (answer c _). Qed.

Lemma step_calls c (w : W) : Step w (call c w).2 -> Calm w (call c w).2.
Proof.
  intros Hs. split; [|by rewrite call_client]. intros Hw. split; [by apply rtc_once|]. unfold wf. by rewrite call_client.
Qed.

(** What never says anything of the view, whatever the answer. *)
Definition hushed (c : Call) : bool :=
  match c with
  | onStateChange _ | onHubAuth _ | t_open => false
  | t_write frame => negb (is_intent frame)
  | _ => true
  end.

Lemma client_call_calm c : hushed c = true -> keeps Calm (call c).
Proof. intros Hc w. apply step_calls, step_call. by destruct c. Qed.

Lemma client_draw_calm {A} (f : R -> A * R) : keeps Calm (draw f).
Proof.
  intros w. assert (Hc : w_client (draw f w).2 = w_client w) by (unfold draw; by destruct (f _)).
  split; [|by rewrite Hc]. intros Hw. split; [by apply rtc_once, step_draw|]. unfold wf. by rewrite Hc.
Qed.

(** A change that may use that the client is well-formed. *)
Definition harmless (f : Client -> Client) : Prop :=
  forall c, _state (f c) = _state c /\ _hubAuth (f c) = _hubAuth c /\ material (f c) = material c /\ (client_wf (view c) -> client_wf (view (f c))).

Lemma client_modify_stepwise f : harmless f -> keeps Stepwise (modify f).
Proof. intros Hf w Hw. destruct (Hf (w_client w)) as (H1' & H2' & H3' & H4'). split; [by apply rtc_once, step_change|by apply H4']. Qed.

Lemma client_modify_calm f : harmless f -> (forall c, _resyncing (f c) = _resyncing c) -> keeps Calm (modify f).
Proof. intros Hf Hr w. split; [by apply client_modify_stepwise|]. split; [apply Hf|apply Hr]. Qed.

Lemma harmless_view f : (forall c, view (f c) = view c) -> (forall c, material (f c) = material c) -> harmless f.
Proof.
  intros Hf Hm c. pose proof (f_equal v_state (Hf c)). pose proof (f_equal v_auth (Hf c)). split_and!; [done..|]. by rewrite Hf.
Qed.

Lemma client_get_then {A} (Rel : relation W) (k : Client -> ClientM E R A) :
  (forall w, Rel w (k (w_client w) w).2) -> keeps Rel (mbind k get).
Proof. intros Hk w. apply Hk. Qed.

Lemma client_gets_then {A B} (Rel : relation W) (f : Client -> B) (k : B -> ClientM E R A) :
  (forall w, Rel w (k (f (w_client w)) w).2) -> keeps Rel (mbind k (gets f)).
Proof. intros Hk w. apply Hk. Qed.

Lemma setState_stepwise s (w : W) :
  follows (_state (w_client w)) s = true -> (wf w -> client_wf (view ((w_client w) <| _state := s |>))) ->
  Stepwise w (setState s w).2.
Proof.
  intros Hf Hs Hw. split; [by apply rtc_once, step_state|]. specialize (Hs Hw).
  change (wf (call (onStateChange s) (modify (fun c => c <| _state := s |>) w).2).2). unfold wf. by rewrite call_client.
Qed.

Lemma setState_closed (w : W) : Stepwise w (setState CLOSED w).2.
Proof.
  apply setState_stepwise; [done|]. intros []. split; cbn in *; try done. intros Hr. by destruct (wf_resync0 Hr).
Qed.

End Steps.
