(* ===== verification/ClientWalk.v ===== *)
(** * ClientWalk: every function of the client is a sequence of its steps *)

From S2P Require Import Prelude ByteIO SerialArith Sha256 Codec Frame Estop Raw Blob CborMessage MsgNack.
From S2P Require Import MsgIntent MsgWish MsgTrust MsgHello MsgWelcome Tables Crypto StateChannel Registry MsgBlob.
From S2P Require Import StateM ClientState ClientParts ClientWorld Client ClientSteps.
#[local] Open Scope Z_scope.

Create HintDb client.

(** A change that keeps every bound, or a bound whose arithmetic [lia] does. *)
Ltac harmless :=
  first [ apply harmless_view; [intros ?; reflexivity|intros ?; reflexivity]
        | intros ?; split_and!; [reflexivity..|]; let Hw := fresh in intros Hw; destruct Hw; split; cbn in *; first [assumption|done|unfold kMaxCatalogRestarts, limits.estop_repeat_max in *; lia] ].

Ltac client_leaf :=
  lazymatch goal with
  | |- keeps Calm (call ?c) => exact (client_call_calm c eq_refl)
  | |- keeps Calm (draw _) => apply client_draw_calm
  | |- keeps Calm (modify _) => apply client_modify_calm; [harmless|intros ?; reflexivity]
  | |- keeps Stepwise (modify _) => apply client_modify_stepwise; harmless
  | |- keeps _ (mret _) => apply keeps_ret; typeclasses eauto
  | |- keeps _ get => apply client_keeps_get; typeclasses eauto
  | |- keeps _ (gets _) => apply client_keeps_gets; typeclasses eauto
  end.
Ltac lift_calm := lazymatch goal with |- keeps Stepwise _ => apply client_calm_stepwise end.
Ltac client_walk :=
  repeat first [ solve [client_leaf] | solve [auto 1 with client nocore] | solve [lift_calm; first [client_leaf | auto 1 with client nocore]]
               | keeps_step ].

Section Walk.
Context {E R : Type} `{Env E} `{IRandom R} `{ICrypto} `{IAllocator} `{Pins}.
Abbreviation W := (World E R) (only parsing).
Abbreviation M := (ClientM E R) (only parsing).
Abbreviation calm := (keeps (Calm (E := E) (R := R))) (only parsing).
Abbreviation stepwise := (keeps (Stepwise (E := E) (R := R))) (only parsing).

(** ** Sending *)

(** The bytes [sendFrame] hands to the transport. *)
Definition framed (type channel : Z) (payload : list byte) : list byte :=
  FrameHeader_bytes (mkFrameHeader type 0 channel 0 (u16 (Z.of_nat (length payload)))) ++ payload.

Lemma sendFrame_spec type channel payload :
  sendFrame (E := E) (R := R) type channel payload =
  if (504 <? length payload)%nat then mret false
  else
    sent ← call (t_write (framed type channel payload));
    when sent (modify (fun c => c <| _lastTxMs := _lastUpdateMs c |>)) ;;
    mret sent.
Proof.
  unfold sendFrame, framed, kFrameBufferCapacity. rewrite encodeFrameHeader_spec by (rewrite length_replicate; lia).
  set (hd := FrameHeader_bytes _). assert (Hh : length hd = 8%nat) by done. clearbody hd. cbn [Nat.eqb Nat.sub].
  destruct (504 <? length payload)%nat; [done|]. do 3 f_equal. unfold splice.
  rewrite (take_app_length' hd) by lia. by rewrite app_assoc, take_app_length' by (rewrite length_app; lia).
Qed.

Lemma is_intent_header h rest : is_intent (FrameHeader_bytes h ++ rest) = (u8 (fh_type h) =? FrameType.INTENT).
Proof.
  unfold is_intent, decodeFrameHeader, FrameHeader_bytes. cbn. unfold getU8, at_. cbn. by rewrite b2z_z2b.
Qed.

Lemma sendFrame_calm type channel payload : (u8 type =? FrameType.INTENT) = false -> calm (sendFrame type channel payload).
Proof.
  intros Ht. rewrite sendFrame_spec. destruct (_ <? _)%nat; [client_walk|]. keeps_step; [|client_walk].
  refine (client_call_calm (t_write _) _). unfold hushed, framed. rewrite is_intent_header. cbn [fh_type]. by rewrite Ht.
Qed.
#[local] Hint Extern 1 (keeps Calm (sendFrame _ _ _)) => apply sendFrame_calm; reflexivity : client.

Lemma send_encoded_calm type buf : (u8 type =? FrameType.INTENT) = false -> calm (send_encoded type buf).
Proof. intros Ht. unfold send_encoded. keeps_step; [client_walk|by apply sendFrame_calm]. Qed.
#[local] Hint Extern 1 (keeps Calm (send_encoded _ _)) => apply send_encoded_calm; reflexivity : client.

Lemma flushPending_calm : calm flushPending.
Proof. unfold flushPending. client_walk. Qed.
#[local] Hint Resolve flushPending_calm : client.

(** A verdict other than the verifier's, given in a session that has none. *)
Lemma setHubAuth_from s (w : W) :
  settled (_hubAuth (w_client w)) = false -> verdict s (w_client w) (w_trace w) -> Calm w (setHubAuth s w).2.
Proof.
  intros Hs Hv. destruct (decide (_hubAuth (w_client w) = s)) as [He|Hne].
  - unfold setHubAuth, mbind, StateM_bind, gets. rewrite bool_decide_true by done. split_and!; [|done..]. by intros Hw.
  - assert (Hc : w_client (setHubAuth s w).2 = (w_client w) <| _hubAuth := s |>).
    { unfold setHubAuth, mbind, StateM_bind, gets. rewrite bool_decide_false by done. apply (call_client (onHubAuth s)). }
    split; [|by rewrite Hc]. intros Hw. split; [by apply rtc_once, step_auth|]. unfold wf. rewrite Hc.
    destruct Hw. by split.
Qed.

(** A change at a world that is known. *)
Lemma change_calm f (w : W) :
  let c := w_client w in
  _state (f c) = _state c -> _hubAuth (f c) = _hubAuth c -> material (f c) = material c -> _resyncing (f c) = _resyncing c ->
  (client_wf (view c) -> client_wf (view (f c))) -> Calm w (modify f w).2.
Proof. intros c Hs Ha Hm Hr Hf. split; [|done]. intros Hw. split; [by apply rtc_once, step_change|by apply Hf]. Qed.

(** ** Wishes *)

Lemma restate_length u l l' : (length l <= kMaxWishes)%nat -> restate u l = Some l' -> (length l' <= kMaxWishes)%nat.
Proof.
  unfold restate. intros Hl. destruct (first_index _ _); [intros [= <-]; by rewrite length_insert|].
  destruct (Nat.leb_spec kMaxWishes (length l)); [done|]. intros [= <-]. rewrite length_app. cbn. lia.
Qed.

Lemma addSubscriptionWish_calm ch rate prio : calm (addSubscriptionWish ch rate prio).
Proof.
  apply client_gets_then. intros w. destruct (Nat.leb_spec kMaxWishes (length (_wishes (w_client w)))); [reflexivity|].
  rewrite run_bind. cbv beta. etransitivity; [|reflexivity]. apply change_calm; [done..|].
  intros []. split; try done. cbn. rewrite length_app. cbn. lia.
Qed.

Lemma subscribe_calm ch rate prio : calm (subscribe ch rate prio).
Proof.
  apply client_gets_then. intros w. destruct (restate _ _) as [l|] eqn:Hl; [|reflexivity]. rewrite run_bind. cbv beta.
  etransitivity; [|match goal with |- Calm _ (?k ?w').2 => let Hk := fresh in assert (Hk : calm k) by client_walk; apply Hk end].
  apply change_calm; [done..|]. intros []. split; try done. cbn. eapply restate_length; [|exact Hl]. done.
Qed.

Lemma resendSubscriptionWishes_calm : calm resendSubscriptionWishes.
Proof. unfold resendSubscriptionWishes. client_walk. Qed.
#[local] Hint Resolve resendSubscriptionWishes_calm : client.

(** ** The catalog's transfer *)

Lemma sendBlobReq_calm : calm sendBlobReq.
Proof. unfold sendBlobReq. client_walk. Qed.
#[local] Hint Resolve sendBlobReq_calm : client.

Lemma startCatalogTransfer_calm : calm startCatalogTransfer.
Proof. unfold startCatalogTransfer. client_walk. Qed.
#[local] Hint Resolve startCatalogTransfer_calm : client.

Lemma restartCatalogTransfer_calm : calm restartCatalogTransfer.
Proof.
  apply client_gets_then. intros w. destruct (Z.leb_spec kMaxCatalogRestarts (_catalogRestarts (w_client w))) as [|Hn]; [reflexivity|].
  rewrite run_bind. cbv beta. etransitivity; [|apply startCatalogTransfer_calm]. apply change_calm; [done..|].
  intros []. split; try done. cbn. cbn in wf_restarts. unfold kMaxCatalogRestarts in *. rewrite (wrap_small 8) by (unfold in_u; lia). lia.
Qed.
#[local] Hint Resolve restartCatalogTransfer_calm : client.

Lemma sendBlobDone_calm status : calm (sendBlobDone status).
Proof. unfold sendBlobDone. client_walk. Qed.
#[local] Hint Resolve sendBlobDone_calm : client.

Lemma sendCatalogReady_calm etag : calm (sendCatalogReady etag).
Proof. unfold sendCatalogReady. client_walk. Qed.
#[local] Hint Resolve sendCatalogReady_calm : client.

Lemma redeclare_calm : calm redeclare.
Proof. unfold redeclare. client_walk. Qed.
#[local] Hint Resolve redeclare_calm : client.

Lemma noteCatalogAnnouncement_calm payload : calm (noteCatalogAnnouncement payload).
Proof.
  unfold noteCatalogAnnouncement. client_walk; (apply client_modify_calm; [|done]); intros c; (split_and!; [done..|]);
    intros []; split; cbn in *; try done; unfold kMaxCatalogRestarts; lia.
Qed.
#[local] Hint Resolve noteCatalogAnnouncement_calm : client.

Lemma checkLiveTransition_stepwise : stepwise checkLiveTransition.
Proof.
  apply client_get_then. intros w. unfold when. destruct (_ && _) eqn:Hc; [|reflexivity].
  apply andb_true_iff in Hc as [[[_ Hs%bool_decide_eq_true]%andb_true_iff Hr]%andb_true_iff _].
  apply setState_stepwise; [by rewrite Hs|]. intros []. by split.
Qed.
#[local] Hint Resolve checkLiveTransition_stepwise : client.

Lemma setState_closed_stepwise : stepwise (setState CLOSED).
Proof. intros w. apply setState_closed. Qed.
#[local] Hint Resolve setState_closed_stepwise : client.

Lemma refuseCatalogTransfer_stepwise : stepwise refuseCatalogTransfer.
Proof. unfold refuseCatalogTransfer. client_walk. Qed.
#[local] Hint Resolve refuseCatalogTransfer_stepwise : client.

Lemma conclude_transfer_stepwise : stepwise conclude_transfer.
Proof.
  unfold conclude_transfer. client_walk; apply client_modify_stepwise; intros c; (split_and!; [done..|]); intros []; split; cbn in *;
    try done; try (unfold kMaxCatalogRestarts; lia). intros Hr. split; [done|]. by apply wf_resync.
Qed.
#[local] Hint Resolve conclude_transfer_stepwise : client.

Lemma open_transfer_calm h nowMs : calm (open_transfer h nowMs).
Proof. unfold open_transfer. apply client_modify_calm; [apply harmless_view|]; intros c; by destruct (_ || _). Qed.
#[local] Hint Resolve open_transfer_calm : client.

Lemma handleBlobChunk_stepwise payload nowMs : stepwise (handleBlobChunk payload nowMs).
Proof. unfold handleBlobChunk. client_walk. Qed.

Lemma pumpBlobAbandon_calm nowMs : calm (pumpBlobAbandon nowMs).
Proof. unfold pumpBlobAbandon. client_walk. Qed.

Lemma pumpCatalogReady_calm nowMs : calm (pumpCatalogReady nowMs).
Proof. unfold pumpCatalogReady. client_walk. Qed.

(** ** ESTOP and INTENT *)

Lemma estop_frame_bytes c : estop_frame c = EstopFrame_bytes (mkEstopFrame (_estopCause c) (_roles c) (_estopSentSeq c)).
Proof. unfold estop_frame, encoded. rewrite encodeEstop_spec by done. reflexivity. Qed.

Lemma estop_not_intent c : is_intent (estop_frame c) = false.
Proof. by rewrite estop_frame_bytes. Qed.

Lemma send_estop_calm nowMs : calm (send_estop nowMs).
Proof.
  apply client_gets_then. intros w. destruct (blank _); [reflexivity|]. rewrite run_bind. cbv beta.
  etransitivity; [|match goal with |- Calm _ (?k ?w').2 => let Hk := fresh in assert (Hk : calm k) by client_walk; apply Hk end].
  refine (client_call_calm (t_write _) _ w). unfold hushed. by rewrite estop_not_intent.
Qed.
#[local] Hint Resolve send_estop_calm : client.

Lemma next_id_range v : 1 <= next_id v < 65536.
Proof.
  unfold next_id. pose proof (wrap_range 16 (v + 1) ltac:(lia)) as Hr. unfold in_u in Hr. change (2 ^ 16) with 65536 in Hr.
  destruct (Z.eqb_spec (u16 (v + 1)) 0); lia.
Qed.

Lemma initiateEstop_calm cause : calm (initiateEstop cause).
Proof.
  unfold initiateEstop. keeps_step; [|client_walk]. apply client_modify_calm; [|done]. intros c. split_and!; [done..|]. intros [].
  split; try done. apply next_id_range.
Qed.
#[local] Hint Resolve initiateEstop_calm : client.

Lemma send_estop_view nowMs (w : W) : view (w_client (send_estop nowMs w).2) = view (w_client w).
Proof.
  unfold send_estop, mbind, StateM_bind, gets. destruct (blank _); [done|]. unfold call, modify. by destruct (answer _ _).
Qed.

Lemma pumpEstopRepeat_calm nowMs : calm (pumpEstopRepeat nowMs).
Proof.
  apply client_get_then. intros w. destruct (negb _); [reflexivity|].
  destruct (Z.leb_spec limits.estop_repeat_max (_estopAttempts (w_client w))) as [|Ha].
  { by apply change_calm. }
  destruct (negb _); [reflexivity|]. rewrite run_bind. cbv beta. etransitivity; [apply send_estop_calm|].
  pose proof (send_estop_view nowMs w) as Hv. pose proof (f_equal v_attempts Hv) as He. cbn in He.
  apply change_calm; [done..|]. intros []. split; try done. cbn -[send_estop]. rewrite He.
  assert (0 <= _estopAttempts (w_client w)) by (cbn -[send_estop] in wf_attempts; lia). unfold limits.estop_repeat_max in *.
  rewrite (wrap_small 32) by (unfold in_u; lia). lia.
Qed.

Lemma sendFrame_view type ch payload (w : W) : view (w_client (sendFrame type ch payload w).2) = view (w_client w).
Proof.
  rewrite sendFrame_spec. destruct (_ <? _)%nat; [done|]. unfold mbind, StateM_bind, call. by destruct (answer _ _) as [[] ?].
Qed.

Lemma sendFrame_live ch payload (w : W) :
  _state (w_client w) = LIVE -> withheld (_hubAuth (w_client w)) = false -> Calm w (sendFrame FrameType.INTENT ch payload w).2.
Proof.
  intros Hl Ha. rewrite sendFrame_spec. destruct (_ <? _)%nat; [reflexivity|]. rewrite run_bind. cbv beta.
  etransitivity; [|match goal with |- Calm _ (?k ?w').2 => let Hk := fresh in assert (Hk : calm k) by client_walk; apply Hk end].
  by apply (step_calls (t_write _)), step_intent.
Qed.

Lemma sendIntentImpl_calm ch values pre takeover trial exempt : calm (sendIntentImpl ch values pre takeover trial exempt).
Proof.
  apply client_get_then. intros w. destruct (decide (_state (w_client w) = LIVE)) as [Hl|]; [|by rewrite bool_decide_true by done].
  rewrite bool_decide_false by (by intros []). destruct (withheld _) eqn:Ha; [reflexivity|]. cbv zeta.
  destruct (negb _ && negb exempt); [reflexivity|]. destruct (blank _); [reflexivity|].
  set (payload := encoded _ _). clearbody payload. rewrite run_bind. cbv beta.
  etransitivity; [exact (sendFrame_live ch payload w Hl Ha)|]. pose proof (sendFrame_view FrameType.INTENT ch payload w) as Hv.
  set (w1 := (sendFrame _ ch payload w).2) in *. destruct (sendFrame _ ch payload w).1.
  2: reflexivity. clearbody w1. cbn [negb].
  rewrite run_bind. cbv beta. match goal with |- Calm w1 (_ (?m w1).2).2 => assert (Hp : Calm w1 (m w1).2); [|etransitivity; [exact Hp|clear Hp]] end.
  { destruct (Nat.ltb_spec (length (_pending (w_client w))) kMaxPendingIntents); [|reflexivity]. apply change_calm; [done..|].
    pose proof (f_equal v_pending Hv) as Hp. cbn in Hp. intros []. split; try done. cbn. rewrite length_app, Hp. cbn. lia. }
  rewrite run_bind. cbv beta. etransitivity; [|reflexivity]. apply change_calm; [done..|]. intros []. split; try done. apply next_id_range.
Qed.
#[local] Hint Resolve sendIntentImpl_calm : client.

Lemma sendSafetyOp_calm op : calm (sendSafetyOp op).
Proof. apply sendIntentImpl_calm. Qed.
#[local] Hint Resolve sendSafetyOp_calm : client.

Lemma halt_calm cause : calm (halt cause).
Proof. unfold halt. client_walk. Qed.

(** ** Pairing and the hub's authenticity *)

Lemma send_pair_req_calm m : calm (send_pair_req m).
Proof. unfold send_pair_req. client_walk. Qed.
#[local] Hint Resolve send_pair_req_calm : client.

Lemma pair_req_calm : calm pair_req.
Proof. unfold pair_req. client_walk. Qed.
#[local] Hint Resolve pair_req_calm : client.

Lemma sendPairReq_calm proof : calm (sendPairReq proof).
Proof. unfold sendPairReq. client_walk. Qed.

Lemma pinned_wf key (w : W) : wf w -> wf (setHubPublicKey key w).2.
Proof.
  intros []. split; try done.
  change (length (if blank key || (kTrustPubkeyMaxBytes <? length key)%nat then [] else key) <= kTrustPubkeyMaxBytes)%nat.
  destruct (Nat.ltb_spec kTrustPubkeyMaxBytes (length key)); [rewrite orb_true_r; cbn; lia|]. destruct (blank key); cbn [orb length]; lia.
Qed.

(** A key is pinned by the application, or told to it. *)
Lemma setHubPublicKey_calm key : pins key -> calm (setHubPublicKey key).
Proof. intros Hk w. split; [|done]. intros Hw. split; [by apply rtc_once, step_pin|by apply pinned_wf]. Qed.

Lemma granted_key_calm key : calm (setHubPublicKey key ;; call (onHubPublicKey key)).
Proof.
  intros w. assert (Hc : w_client ((setHubPublicKey key ;; call (onHubPublicKey key)) w).2 = w_client (setHubPublicKey key w).2).
  { rewrite run_bind. apply call_client. }
  split; [|by rewrite Hc]. intros Hw. split; [by apply rtc_once, step_grant|]. unfold wf. rewrite Hc. by apply pinned_wf.
Qed.

Lemma handlePairGrant_calm payload : calm (handlePairGrant payload).
Proof.
  unfold handlePairGrant. destruct (decodePairGrant payload) as [m|]; [|client_walk]. keeps_step; [|client_walk].
  destruct (pg_trust_map m ≫= tm_hub_pubkey) as [key|]; [exact (granted_key_calm key)|client_walk].
Qed.

Lemma adoptHubSignature_calm sig : calm (adoptHubSignature sig).
Proof.
  apply client_get_then. intros w. set (c := w_client w). destruct (_ || _) eqn:Hs; [reflexivity|]. destruct (negb _); [reflexivity|].
  destruct (_hubPubkey c) as [|b k] eqn:Hk; cbn [blank]; [by apply setHubAuth_from|].
  destruct sig as [|b' sig]; cbn [blank]; [reflexivity|]. rewrite run_bind. cbv beta. rewrite <- Hk.
  set (q := verifyP256 _ _ _). etransitivity; [by refine (client_call_calm q _ w)|].
  assert (Ht : w_trace (call q w).2 = Did q (call q w).1 :: w_trace w) by (unfold call; by destruct (answer q _)).
  pose proof (call_client q w) as Hc. refine (setHubAuth_from _ (call q w).2 _ _); [by rewrite Hc|]. rewrite Hc, Ht. fold c.
  assert (Hv : forall a : bool, verdict (if a then Verified else Mismatch) c (Did q a :: w_trace w)).
  { intros a. destruct a; (eexists _, _; split; [rewrite Hk; done|]; split; [|reflexivity]; done). }
  apply Hv.
Qed.
#[local] Hint Resolve adoptHubSignature_calm : client.

Lemma handleHubSig_calm payload : calm (handleHubSig payload).
Proof. unfold handleHubSig. client_walk. Qed.

Lemma pumpHubSigTimeout_calm nowMs : calm (pumpHubSigTimeout nowMs).
Proof.
  apply client_get_then. intros w. unfold when. destruct (_ && _) eqn:Hc; [|reflexivity].
  apply andb_true_iff in Hc as [Hp%bool_decide_eq_true _]. apply setHubAuth_from; [by rewrite Hp|done].
Qed.

Lemma sendAuthProof_calm : calm sendAuthProof.
Proof. unfold sendAuthProof. client_walk. Qed.
#[local] Hint Resolve sendAuthProof_calm : client.
End Walk.

#[export] Hint Extern 1 (keeps Calm (sendFrame _ _ _)) => apply sendFrame_calm; reflexivity : client.
#[export] Hint Extern 1 (keeps Calm (send_encoded _ _)) => apply send_encoded_calm; reflexivity : client.
#[export] Hint Resolve flushPending_calm resendSubscriptionWishes_calm sendBlobReq_calm startCatalogTransfer_calm
  restartCatalogTransfer_calm sendBlobDone_calm sendCatalogReady_calm redeclare_calm
  noteCatalogAnnouncement_calm checkLiveTransition_stepwise setState_closed_stepwise
  refuseCatalogTransfer_stepwise conclude_transfer_stepwise open_transfer_calm send_estop_calm
  initiateEstop_calm sendIntentImpl_calm sendSafetyOp_calm send_pair_req_calm pair_req_calm setHubPublicKey_calm
  adoptHubSignature_calm sendAuthProof_calm addSubscriptionWish_calm subscribe_calm handleBlobChunk_stepwise
  pumpBlobAbandon_calm pumpCatalogReady_calm pumpEstopRepeat_calm halt_calm sendPairReq_calm
  handlePairGrant_calm handleHubSig_calm pumpHubSigTimeout_calm : client.

(** ** Lives: joining, the frames, the tick, and a client's whole life *)

(** ** The shadow table *)

Lemma shadows_new : shadows_wf (replicate kMaxShadowSlots ShadowEntry_new).
Proof.
  split; [done|by apply Forall_replicate|]. intros i j e f [-> _]%lookup_replicate _ Hu. discriminate.
Qed.

Lemma shadows_take ch i l :
  first_index (shadow_of ch) l = None -> first_index (fun e => negb (se_used e)) l = Some i -> shadows_wf l ->
  shadows_wf (<[i := mkShadowEntry ch true ShadowSlot_new]> l).
Proof.
  intros Hn Hi [Hlen Hslots Hone]. apply first_index_None in Hn. rewrite Forall_lookup in Hn.
  assert (Hil : (i < length l)%nat) by (apply first_index_Some in Hi as (l1 & e & l2 & -> & <- & _); rewrite length_app; cbn; lia).
  assert (Hno : forall j e, l !! j = Some e -> se_used e = true -> se_channel_id e <> ch).
  { intros j e Hj Hu He. specialize (Hn _ _ Hj). unfold shadow_of in Hn. by rewrite Hu, He, Z.eqb_refl in Hn. }
  split; [by rewrite length_insert|by apply Forall_insert|].
  intros j k e f Hj Hk Hu Hf He. apply list_lookup_insert_Some in Hj as [(<- & <- & _)|(Hij & Hj)];
    apply list_lookup_insert_Some in Hk as [(<- & <- & _)|(Hik & Hk)]; try done.
  - by destruct (Hno _ _ Hk Hf).
  - by destruct (Hno _ _ Hj Hu).
  - by eapply Hone.
Qed.

(** Entries may be dropped or given another slot, each in its place. *)
Lemma shadows_update l l' :
  length l' = length l ->
  (forall i e', l' !! i = Some e' -> exists e, l !! i = Some e /\ (shadow_ok (se_slot e) -> shadow_ok (se_slot e'))
    /\ (se_used e' = true -> se_used e = true /\ se_channel_id e' = se_channel_id e)) ->
  shadows_wf l -> shadows_wf l'.
Proof.
  intros Hl Hp [Hlen Hslots Hone]. rewrite Forall_lookup in Hslots. split; [by rewrite Hl| |].
  - apply Forall_lookup. intros i e' (e & He & Hok & _)%Hp. by eapply Hok, Hslots.
  - intros i j e' f' (e & He & _ & Hu)%Hp (f & Hf & _ & Hu')%Hp [Hue Hce]%Hu [Huf Hcf]%Hu' Hc. eapply Hone; try done. congruence.
Qed.

Lemma shadows_forget ch l : shadows_wf l -> shadows_wf (map (fun s => if shadow_of ch s then ShadowEntry_new else s) l).
Proof.
  apply shadows_update; [apply length_map|]. intros i e' (e & -> & He)%list_lookup_fmap_Some. exists e. split; [done|].
  by destruct (shadow_of ch e).
Qed.

Lemma shadows_alter i s l :
  shadow_ok s -> shadows_wf l -> shadows_wf (alter (fun e => e <| se_slot := s |>) i l).
Proof.
  intros Hs. apply shadows_update; [apply length_alter|]. intros j e' Hj. destruct (decide (i = j)) as [<-|Hne].
  - rewrite list_lookup_alter_eq in Hj. apply fmap_Some in Hj as (e & ? & ->). by exists e.
  - rewrite list_lookup_alter_ne in Hj by done. by exists e'.
Qed.

Lemma applyStateFrame_ok sq p s : shadow_ok s -> shadow_ok (applyStateFrame sq p s).1.1.
Proof.
  unfold applyStateFrame, shadow_ok. intros Hs. destruct (Nat.ltb_spec (length (sh_value s)) (length p)); [done|].
  destruct (_ && _); [done|]. cbn. rewrite length_splice; lia.
Qed.

Lemma length_adopt_grant l g : length (adopt_grant l g) = length l.
Proof.
  unfold adopt_grant. destruct (first_index _ l); [apply length_alter|]. destruct (first_index _ l); [apply length_insert|done].
Qed.

Lemma pending_settled id l l' : settle id l = Some l' -> (length l' <= length l)%nat.
Proof.
  revert l'. induction l as [|p l IH]; intros l'; [done|]. cbn. destruct (p =? id); [intros [= <-]; lia|].
  intros (l0 & H0 & ->)%fmap_Some. specialize (IH _ H0). cbn. lia.
Qed.

Section WalkAll.
Context {E R : Type} `{Env E} `{IRandom R} `{ICrypto} `{IAllocator} `{Pins}.
Abbreviation W := (World E R) (only parsing).
Abbreviation M := (ClientM E R) (only parsing).
Abbreviation calm := (keeps (Calm (E := E) (R := R))) (only parsing).
Abbreviation stepwise := (keeps (Stepwise (E := E) (R := R))) (only parsing).

(** A function run while the session is in a given state. *)
Definition within {A} (s : ClientSessionState) (m : M A) : Prop := forall w, _state (w_client w) = s -> Stepwise w (m w).2.

Lemma within_bind {A B} s (m : M A) (k : A -> M B) :
  (forall w, _state (w_client w) = s -> Calm w (m w).2) -> (forall a, within s (k a)) -> within s (mbind k m).
Proof.
  intros Hm Hk w Hw. rewrite run_bind. destruct (Hm w Hw) as (Hs1 & Hs2 & _). etransitivity; [exact Hs1|].
  apply Hk. congruence.
Qed.

Lemma within_stepwise {A} s (m : M A) : stepwise m -> within s m.
Proof. intros Hm w _. apply Hm. Qed.

(** ** WELCOME *)

Lemma adopt_welcome_grants m c : length (_grants (adopt_welcome m c)) = kMaxGrants.
Proof.
  change (length (let l := map to_entry (take kMaxGrants (wm_grants m)) in l ++ replicate (kMaxGrants - length l) GrantEntry_new) = kMaxGrants).
  cbv zeta. rewrite length_app, length_replicate, length_map, length_take. lia.
Qed.

Lemma adopt_welcome_calm m (w : W) : In m (welcomes (w_trace w)) -> Calm w (modify (adopt_welcome m) w).2.
Proof.
  intros Hm. split; [|done]. intros []. split; [by apply rtc_once, step_welcome|]. split; try done.
  - apply adopt_welcome_grants.
  - apply shadows_new.
Qed.

Lemma settle_catalog_calm etag (w : W) : _state (w_client w) = HELLO_SENT -> Calm w (settle_catalog etag w).2.
Proof.
  intros Hs. unfold settle_catalog. unfold mbind at 1, StateM_bind at 1. cbn [gets]. destruct (bool_decide _).
  - apply change_calm; [done..|]. intros []. split; try done. intros Hr. split; [done|]. by apply wf_resync.
  - rewrite run_bind. cbv beta. etransitivity; [|apply startCatalogTransfer_calm]. apply change_calm; [done..|].
    intros []. split; try done.
    + cbn. by rewrite Hs.
    + intros Hr. destruct (wf_resync Hr) as [_ Hn]. by destruct (Hn Hs).
Qed.

Lemma setState_syncing s : (s = HELLO_SENT \/ s = LIVE) -> within s (setState SYNCING).
Proof.
  intros Hs w Hw. apply setState_stepwise; [by rewrite Hw; destruct Hs as [-> | ->]|]. intros []. split; try done.
  intros Hr. split; [by apply wf_resync|done].
Qed.

(** The WELCOME is one that was read. *)
Lemma handleWelcome_stepwise payload (w : W) :
  (forall m, decodeWelcome payload = ok m -> In m (welcomes (w_trace w))) -> Stepwise w (handleWelcome payload w).2.
Proof.
  intros Hread. unfold handleWelcome. rewrite run_bind. cbv beta. cbn [gets fst snd]. destruct (decide (_state (w_client w) = HELLO_SENT)) as [Hs|]; [|by rewrite bool_decide_true by done].
  rewrite bool_decide_false by (by intros []). destruct (decodeWelcome payload) as [m|]; [|reflexivity]. rewrite run_bind. cbv beta.
  destruct (adopt_welcome_calm m w (Hread m eq_refl)) as (Hm & Hms & _). etransitivity; [exact Hm|]. rewrite Hs in Hms.
  clear Hm Hread Hs. revert Hms. generalize (modify (adopt_welcome m) w).2. clear w.
  apply within_bind; [apply settle_catalog_calm|intros _].
  apply within_bind; [intros w _; revert w; change (calm (match wm_trust_map m ≫= tm_welcome_sig with Some sig => adoptHubSignature sig | None => mret () end)); client_walk|intros _].
  apply within_bind; [intros w _; reflexivity|intros proof].
  apply within_bind; [intros w _; revert w; change (calm (when proof sendAuthProof)); client_walk|intros _].
  intros w Hs. rewrite run_bind. cbv beta. etransitivity; [by apply (setState_syncing HELLO_SENT); [left|]|].
  match goal with |- Stepwise _ (?k ?w').2 => assert (Hk : stepwise k) by client_walk; apply Hk end.
Qed.

(** ** STATE *)

Lemma findOrCreateShadow_calm ch : calm (findOrCreateShadow ch).
Proof.
  apply client_gets_then. intros w. destruct (first_index (shadow_of ch) _) eqn:Hn; [reflexivity|].
  destruct (first_index (fun e => negb _) _) as [i|] eqn:Hi; [|reflexivity]. rewrite run_bind. cbv beta.
  etransitivity; [|reflexivity]. apply change_calm; [done..|]. intros []. split; try done. by apply shadows_take.
Qed.
#[local] Hint Resolve findOrCreateShadow_calm : client.

(** A resync is over: the catalog that was held is still there. *)
Lemma note_flow_stepwise : stepwise note_flow.
Proof.
  unfold note_flow. keeps_step; [client_walk|]. apply client_get_then. intros w. unfold when.
  destruct (_ && _) eqn:Hc; [|reflexivity]. apply andb_true_iff in Hc as [[Hr _]%andb_true_iff Hs%bool_decide_eq_true].
  intros Hw. pose proof (proj1 (wf_resync _ Hw Hr)) as Hready. revert Hw. rewrite run_bind. cbv beta.
  set (w1 := (modify (fun c => c <| _resyncing := false |>) w).2).
  assert (H1' : Stepwise w w1).
  { refine (client_modify_stepwise _ _ w). intros c. split_and!; [done..|]. intros []. by split. }
  change (Stepwise w (setState LIVE w1).2). etransitivity; [exact H1'|]. apply setState_stepwise; [by cbn; rewrite Hs|].
  intros []. by split.
Qed.
#[local] Hint Resolve note_flow_stepwise : client.

Lemma note_catalog_calm ch sq payload : calm (note_catalog ch sq payload).
Proof. unfold note_catalog. client_walk. Qed.
#[local] Hint Resolve note_catalog_calm : client.

Lemma note_latch_calm ch payload : calm (note_latch ch payload).
Proof. unfold note_latch. client_walk. Qed.
#[local] Hint Resolve note_latch_calm : client.

Lemma handleState_stepwise ch sq payload : stepwise (handleState ch sq payload).
Proof.
  unfold handleState. do 3 (keeps_step; [client_walk|]). match goal with |- keeps _ (match ?r with _ => _ end) => destruct r as [i|] end; [|client_walk].
  apply client_gets_then. intros w. set (s := se_slot _).
  destruct (applyStateFrame sq payload s) as [[s' accepted] gap] eqn:Hs. destruct accepted; [|reflexivity]. cbn [negb].
  rewrite run_bind. cbv beta. etransitivity; [|match goal with |- Stepwise _ (?k ?w').2 => assert (Hk : stepwise k) by client_walk; apply Hk end].
  apply change_calm; [done..|]. intros []. split; try done. apply shadows_alter; [|done].
  pose proof (applyStateFrame_ok sq payload s) as Hok. rewrite Hs in Hok. apply Hok. unfold s.
  destruct (_shadows (w_client w) !! i) as [e|] eqn:He; [|done]. destruct wf_shadows as [_ Hsl _]. by eapply (Forall_lookup_1 _ _ _ _ Hsl He).
Qed.
#[local] Hint Resolve handleState_stepwise : client.

(** ** The other frames *)

Lemma handleEcho_calm payload : calm (handleEcho payload).
Proof.
  unfold handleEcho. destruct (decodeEcho payload) as [m|]; [|client_walk]. apply client_gets_then. intros w.
  destruct (settle _ _) as [l|] eqn:Hl; [|reflexivity]. rewrite run_bind. cbv beta.
  etransitivity; [|match goal with |- Calm _ (?k ?w').2 => assert (Hk : calm k) by client_walk; apply Hk end].
  apply change_calm; [done..|]. intros []. split; try done. apply pending_settled in Hl. cbn in *. lia.
Qed.
#[local] Hint Resolve handleEcho_calm : client.

Lemma forget_calm id : calm (modify (fun c => c <| _pending ::= fun l => default l (settle id l) |>)).
Proof.
  apply client_modify_calm; [|done]. intros c. split_and!; [done..|]. intros []. split; try done. cbn in *.
  destruct (settle id (_pending c)) as [l|] eqn:Hl; [|done]. apply pending_settled in Hl. cbn. lia.
Qed.
#[local] Hint Resolve forget_calm : client.

Lemma forget_channel_calm ch : calm (modify (forget_channel ch)).
Proof.
  apply client_modify_calm; [|done]. intros c. split_and!; [done..|]. intros []. split; try done.
  - cbn. by rewrite length_map.
  - by apply shadows_forget.
Qed.
#[local] Hint Resolve forget_channel_calm : client.

Lemma resync_within : within LIVE resync.
Proof.
  intros w Hs. unfold resync. rewrite run_bind. cbv beta. set (w1 := (modify _ w).2). etransitivity.
  - assert (H1' : Stepwise w w1); [|exact H1']. intros Hw. split; [by apply rtc_once, step_change|]. destruct Hw. split; try done.
    intros _. cbn. rewrite Hs. split; [by apply wf_live|done].
  - rewrite run_bind. cbv beta. etransitivity; [by apply (setState_syncing LIVE); [right|]|].
    match goal with |- Stepwise _ (?k ?w').2 => assert (Hk : stepwise k) by client_walk; apply Hk end.
Qed.

Lemma handleNack_stepwise payload : stepwise (handleNack payload).
Proof.
  unfold handleNack. destruct (decodeNack payload) as [m|]; [|client_walk]. do 4 (keeps_step; [client_walk|]). apply client_get_then. intros w.
  destruct ((nk_code m =? NackCode.NOT_READY) && bool_decide (_state (w_client w) = LIVE)) eqn:Hc; [|change (when false resync) with (mret () : M ());
    match goal with |- Stepwise _ (?k ?w').2 => assert (Hk : stepwise k) by client_walk; apply Hk end].
  apply andb_true_iff in Hc as [_ Hl%bool_decide_eq_true]. generalize (_catalogReady (w_client w)) (_refetching (w_client w)).
  intros b1 b2. revert w Hl. apply (within_bind LIVE).
  - intros w _. revert w. match goal with |- forall w, Calm w (?k w).2 => change (calm k) end. client_walk.
  - intros _ w Hl. rewrite run_bind. cbv beta. etransitivity; [by apply resync_within|]. apply client_calm_stepwise. client_walk.
Qed.
#[local] Hint Resolve handleNack_stepwise : client.

Lemma take_roles_calm roles : calm (take_roles roles).
Proof. unfold take_roles. client_walk. Qed.
#[local] Hint Resolve take_roles_calm : client.

Lemma length_adopt_grants gs l : length (foldl adopt_grant l gs) = length l.
Proof. revert l. induction gs as [|g gs IH]; intros l; [done|]. cbn. by rewrite IH, length_adopt_grant. Qed.

Lemma handleGrant_calm payload : calm (handleGrant payload).
Proof.
  unfold handleGrant. destruct (decodeGrant payload) as [m|]; [|client_walk]. keeps_step; [|client_walk].
  apply client_modify_calm; [|done]. intros c. split_and!; [done..|]. intros []. split; try done. cbn. by rewrite length_adopt_grants.
Qed.
#[local] Hint Resolve handleGrant_calm : client.

Lemma handleEvent_calm ch payload : calm (handleEvent ch payload).
Proof. unfold handleEvent. client_walk. Qed.
#[local] Hint Resolve handleEvent_calm : client.

Lemma handlePing_calm payload : calm (handlePing payload).
Proof. unfold handlePing. client_walk. Qed.
#[local] Hint Resolve handlePing_calm : client.

Lemma runProbe_calm : calm runProbe.
Proof. unfold runProbe. client_walk. Qed.

Lemma handleProbeFrame_calm payload : calm (handleProbeFrame payload).
Proof. unfold handleProbeFrame. client_walk. Qed.
#[local] Hint Resolve handleProbeFrame_calm : client.

Lemma pumpProbe_calm nowMs : calm (pumpProbe nowMs).
Proof. unfold pumpProbe. client_walk. Qed.
#[local] Hint Resolve pumpProbe_calm : client.

Lemma handleGoodbye_stepwise : stepwise handleGoodbye.
Proof. unfold handleGoodbye. client_walk. Qed.
#[local] Hint Resolve handleGoodbye_stepwise : client.

(** ** Dispatch and the tick *)

Lemma route_stepwise h payload nowMs (w : W) :
  (fh_type h = FrameType.WELCOME -> forall m, decodeWelcome payload = ok m -> In m (welcomes (w_trace w))) ->
  Stepwise w (route h payload nowMs w).2.
Proof.
  intros Hr. unfold route. cbv zeta. destruct (Z.eqb_spec (fh_type h) FrameType.WELCOME) as [Ht|]; [by apply handleWelcome_stepwise, Hr|].
  match goal with |- Stepwise _ (?k _).2 => assert (Hk : stepwise k) by client_walk; apply Hk end.
Qed.

Lemma handleFrame_stepwise fb nowMs (w : W) :
  (forall m, carried fb = Some m -> In m (welcomes (w_trace w))) -> Stepwise w (handleFrame fb nowMs w).2.
Proof.
  intros Hr. unfold handleFrame, heard. cbv zeta.
  destruct (has_magic _); [match goal with |- Stepwise _ (?k _).2 => assert (Hk : stepwise k) by client_walk; apply Hk end|].
  unfold carried in Hr. destruct (fb_header fb) as [h|]; [|reflexivity]. rewrite run_bind. cbv beta.
  set (f := fun c => c <| _lastRxMs := nowMs |>). transitivity (modify f w).2.
  - assert (Hk : stepwise (modify f)) by client_walk. apply Hk.
  - apply route_stepwise. intros Ht m Hm. apply Hr. cbn. by rewrite Ht, Z.eqb_refl, Hm.
Qed.

Lemma pump_stepwise fuel nowMs : stepwise (pump fuel nowMs).
Proof.
  induction fuel as [|fuel IH]; cbn [pump]; [client_walk|]. intros w. rewrite run_bind. cbv beta.
  etransitivity; [by apply (client_call_calm t_read)|].
  assert (Ht : w_trace (call t_read w).2 = Did t_read (call t_read w).1 :: w_trace w) by (unfold call; by destruct (answer t_read _)).
  destruct (call t_read w) as [[fb|] w1]; cbn [fst snd] in *; [|reflexivity]. rewrite run_bind. cbv beta.
  etransitivity; [|apply IH]. apply handleFrame_stepwise. intros m Hm. rewrite Ht. cbn. rewrite Hm. by left.
Qed.
#[local] Hint Resolve pump_stepwise : client.

Lemma pumpPing_calm nowMs : calm (pumpPing nowMs).
Proof. unfold pumpPing. client_walk. Qed.
#[local] Hint Resolve pumpPing_calm : client.

Lemma update_stepwise fuel nowUs : stepwise (update fuel nowUs).
Proof. unfold update. client_walk. Qed.

(** ** connect() and disconnect() *)

(** Asking for a signature, with the nonce drawn. *)
Lemma expect_proof_calm (w : W) : _hubAuth (w_client w) = NotRequested -> Calm w (expect_proof w).2.
Proof. intros Ha. unfold expect_proof. rewrite run_bind. cbv beta. apply setHubAuth_from; [cbn; by rewrite Ha|]. by destruct (blank _). Qed.

Lemma setState_hello (w : W) : _resyncing (w_client w) = false -> Stepwise w (setState HELLO_SENT w).2.
Proof. intros Hr. apply setState_stepwise; [done|]. intros []. split; try done. intros Hr'. change (_resyncing (w_client w) = true) in Hr'. congruence. Qed.

Lemma send_hello_stepwise (w : W) : _resyncing (w_client w) = false -> Stepwise w (send_hello w).2.
Proof.
  intros Hr1. unfold send_hello. rewrite run_bind. cbv beta. cbn [gets fst snd]. rewrite run_bind. cbv beta.
  match goal with |- context [send_encoded ?t ?b] => destruct (send_encoded_calm t b eq_refl w) as (H2' & _ & Hr2) end.
  rewrite Hr1 in Hr2. etransitivity; [exact H2'|]. destruct (negb _); [reflexivity|].
  match goal with |- Stepwise ?v _ => set (w2 := v) in * end. clearbody w2. rewrite run_bind. cbv beta. cbn [gets fst snd].
  rewrite run_bind. cbv beta. set (w3 := (when _ _ w2).2).
  assert (H3' : Calm w2 w3) by (unfold w3; destruct (bool_decide _); [by apply change_calm|reflexivity]).
  destruct H3' as (H3' & _ & Hr3). rewrite Hr2 in Hr3. etransitivity; [exact H3'|]. clearbody w3.
  rewrite run_bind. cbv beta. etransitivity; [by apply setState_hello|reflexivity].
Qed.

(** From the reset on. *)
Lemma say_hello_begun (w : W) : let v := change (fun c => reset_session (c <| _chunkReassembler ::= cr_reset |>)) (call t_open w).2 in
  say_hello v = (when (_sigRequested (w_client v)) expect_proof ;; send_hello) (begun w).
Proof.
  cbn zeta. unfold say_hello, begun. set (v := change _ _). rewrite run_bind. cbn [gets fst snd]. rewrite !run_bind.
  destruct (_sigRequested (w_client v)); [|done]. cbn [when]. f_equal. unfold draw_nonce. rewrite !run_bind. unfold fresh_nonce, draw.
  by destruct (rng_fill _ (w_rng v)).
Qed.

Lemma begun_client (w : W) : exists nonce,
  w_client (begun w) = (reset_session ((w_client w) <| _chunkReassembler ::= cr_reset |>)) <| _clientNonce := nonce |>.
Proof.
  unfold begun. set (v := change _ _). assert (Hv : w_client v = reset_session ((w_client w) <| _chunkReassembler ::= cr_reset |>)).
  { change (reset_session ((w_client (call t_open w).2) <| _chunkReassembler ::= cr_reset |>) = reset_session ((w_client w) <| _chunkReassembler ::= cr_reset |>)). by rewrite call_client. }
  rewrite <- Hv. destruct (_sigRequested (w_client v)).
  - exists (fst (rng_fill kTrustClientNonceBytes (w_rng v))). unfold fresh_nonce, draw. by destruct (rng_fill _ (w_rng v)).
  - exists (_clientNonce (w_client v)). by destruct (w_client v).
Qed.

Lemma begun_wf (w : W) : wf w -> wf (begun w).
Proof. unfold wf. destruct (begun_client w) as [nonce ->]. intros []. split; try done. apply shadows_new. Qed.

Lemma connect_stepwise : stepwise connect.
Proof.
  unfold connect. keeps_step; [client_walk|]. intros w. rewrite run_bind. cbv beta.
  match goal with |- context [negb ?b] => destruct b eqn:Ho end; cbn [negb].
  2: { apply (step_calls t_open), step_call. change (negb (call t_open w).1 = true). change ((call t_open w).1 = false) in Ho. by rewrite Ho. }
  rewrite run_bind. cbv beta. refine (eq_ind_r (fun r => Stepwise w r.2) _ (say_hello_begun w)).
  destruct (begun_client w) as [nonce Hc].
  transitivity (begun w). { intros Hw. split; [by apply rtc_once, step_open|by apply begun_wf]. }
  assert (Ha : _hubAuth (w_client (begun w)) = NotRequested /\ _resyncing (w_client (begun w)) = false) by (by rewrite Hc).
  clear Hc. rewrite run_bind. cbv beta. revert Ha. generalize (begun w). intros v [Ha Hr].
  match goal with |- context [when ?b expect_proof] => assert (Hv : Calm v (when b expect_proof v).2) end.
  { match goal with |- context [when ?b expect_proof] => destruct b end; [by apply expect_proof_calm|cbn [when]; reflexivity]. }
  destruct Hv as (Hv & _ & Hrv). etransitivity; [exact Hv|]. apply send_hello_stepwise. by rewrite Hrv.
Qed.

Lemma disconnect_stepwise : stepwise disconnect.
Proof. unfold disconnect. client_walk. Qed.

(** ** The application's calls, and a client's life *)

End WalkAll.

#[export] Hint Resolve within_stepwise handleWelcome_stepwise findOrCreateShadow_calm note_flow_stepwise note_catalog_calm
  note_latch_calm handleState_stepwise handleEcho_calm handleNack_stepwise take_roles_calm handleGrant_calm
  handleEvent_calm handlePing_calm runProbe_calm handleProbeFrame_calm pumpProbe_calm handleGoodbye_stepwise
  route_stepwise handleFrame_stepwise pump_stepwise pumpPing_calm update_stepwise connect_stepwise
  disconnect_stepwise : client.
