(* ===== verification/ClientLife.v ===== *)
(** * ClientLife: what holds of every client, whatever its hub, its transport and its application do

    A life is the constructor and then any sequence of the application's calls.  The trace of what the client
    called outside the library tells where the session is ([state_told]) and what the application knows of the
    hub's authenticity ([auth_told]); every entry of the trace is [explained] by the ones before it. *)

From S2P Require Import Prelude SerialArith Tables Crypto Frame Estop Blob StateChannel MsgIntent MsgTrust MsgWelcome Registry.
From S2P Require Import ClientState ClientParts StateM ClientWorld Client ClientSteps ClientWalk.
#[local] Open Scope Z_scope.

(** The public operations of [Client]; [update] reads at most [fuel] frames. *)
Inductive ApiCall :=
  | api_addSubscriptionWish (channel rate prio : Z)
  | api_setCachedEtag (etag : list byte)
  | api_connect | api_disconnect
  | api_update (fuel : nat) (nowUs : Z)
  | api_sendIntent (channel : Z) (values : list IntentValueField) (precondition : option Z) (takeover trial : bool)
  | api_initiateEstop (cause : Z)
  | api_subscribe (channel rate prio : Z)
  | api_halt (cause : Z) | api_pause | api_resume | api_release
  | api_sendPairReq (pinProof : list byte) | api_sendPairKnock | api_sendPairKnock_ask (ask : Z)
  | api_runProbe
  | api_setClientVersion (ver : option (list byte)) | api_setHubPublicKey (key : list byte)
  | api_requestHubSignature (on : bool) | api_setTokenPresentationMode (mode : Z).

(** Where the session is, as the delegate was told last. *)
Fixpoint state_told (t : list Event) : ClientSessionState :=
  match t with
  | [] => CLOSED
  | Did (onStateChange s) _ :: _ => s
  | _ :: t => state_told t
  end.

(** What the delegate was told last of the hub's authenticity, in this session. *)
Fixpoint auth_told (t : list Event) : HubAuthState :=
  match t with
  | [] => NotRequested
  | Did c a :: t =>
      match c return Answer c -> HubAuthState with
      | onHubAuth s => fun _ => s
      | t_open => fun opened => if opened then NotRequested else auth_told t
      | _ => fun _ => auth_told t
      end a
  end.

(** What the client and its generator were when it last opened its transport. *)
Fixpoint opening {R} (t : list Event) (seen : list (Client * R)) : option (Client * R) :=
  match t, seen with
  | Did c a :: t, x :: seen =>
      match c return Answer c -> option (Client * R) with
      | t_open => fun opened => if opened then Some x else opening t seen
      | _ => fun _ => opening t seen
      end a
  | _, _ => None
  end.

(** Where the client has what a signature is asked about from. *)
Record sourced {R} `{IRandom R} (given : list byte -> Prop) (c : Client) (t : list Event) (seen : list (Client * R)) : Prop := {
  src_key : _hubPubkey c = [] \/ given (_hubPubkey c) \/ In (Did (onHubPublicKey (_hubPubkey c)) tt) t;
  src_nonce : forall c0 g0, opening t seen = Some (c0, g0) -> _sigRequested c0 = true ->
    _clientNonce c = fst (rng_fill kTrustClientNonceBytes g0);
  src_session : _sessionId c = 0 \/ exists m, In m (welcomes t) /\ _sessionId c = wm_session_id m /\ _bootId c = wm_boot_id m }.

Section Explained.
Context {R : Type} `{IRandom R} (given : list byte -> Prop).

(** An event, the client that made the call, and what was before. *)
Definition explains (e : Event) (c : Client) (t : list Event) (seen : list (Client * R)) : Prop :=
  match what e with
  | onStateChange s => follows (state_told t) s = true
  | onHubAuth s => settled (auth_told t) = false /\ (settled s = true -> verdict s c t /\ sourced given c t seen)
  | t_write frame => is_intent frame = true -> state_told t = LIVE /\ withheld (auth_told t) = false
  | _ => True
  end.

Fixpoint explained (t : list Event) (seen : list (Client * R)) : Prop :=
  match t, seen with
  | [], [] => True
  | e :: t, (c, _) :: seen => explains e c t seen /\ explained t seen
  | _, _ => False
  end.

Lemma explained_at post e before seen : explained (post ++ e :: before) seen ->
  exists c g seen', drop (length post) seen = (c, g) :: seen' /\ explains e c before seen'.
Proof.
  revert seen. induction post as [|e' post IH]; intros [|[c g] seen]; try done; cbn; intros [He Ht]; [by exists c, g, seen|by apply IH].
Qed.
End Explained.

Section Life.
Context {E R : Type} `{Env E} `{IRandom R} `{ICrypto} `{IAllocator}.
Abbreviation W := (World E R) (only parsing).
Abbreviation M := (ClientM E R) (only parsing).

Definition ignore {A} (m : M A) : M () := m ;; mret ().

Definition run (c : ApiCall) : M () :=
  match c with
  | api_addSubscriptionWish ch rate prio => ignore (addSubscriptionWish ch rate prio)
  | api_setCachedEtag etag => setCachedEtag etag
  | api_connect => ignore connect
  | api_disconnect => disconnect
  | api_update fuel us => update fuel us
  | api_sendIntent ch values pre takeover trial => ignore (sendIntent ch values pre takeover trial)
  | api_initiateEstop cause => initiateEstop cause
  | api_subscribe ch rate prio => ignore (subscribe ch rate prio)
  | api_halt cause => halt cause
  | api_pause => ignore pause
  | api_resume => ignore resume
  | api_release => ignore release
  | api_sendPairReq proof => ignore (sendPairReq proof)
  | api_sendPairKnock => ignore sendPairKnock
  | api_sendPairKnock_ask ask => ignore (sendPairKnock_ask ask)
  | api_runProbe => ignore runProbe
  | api_setClientVersion v => setClientVersion v
  | api_setHubPublicKey key => setHubPublicKey key
  | api_requestHubSignature on => requestHubSignature on
  | api_setTokenPresentationMode mode => setTokenPresentationMode mode
  end.

Definition life (id : ClientIdentity) (calls : list ApiCall) (e : E) (g : R) : W :=
  (each run calls (Client_boot id e g)).2.

(** The keys that are pinned by some calls. *)
Definition pinned_by (calls : list ApiCall) : Pins := fun key => In (api_setHubPublicKey key) calls.

Lemma run_stepwise `{Pins} c : match c with api_setHubPublicKey key => pins key | _ => True end -> keeps Stepwise (run c).
Proof.
  intros Hc. destruct c; cbn [run];
    unfold ignore, sendPairKnock, sendPairKnock_ask, sendIntent, pause, resume, release, setCachedEtag, setClientVersion,
      requestHubSignature, setTokenPresentationMode;
    first [by apply client_calm_stepwise, setHubPublicKey_calm|client_walk].
Qed.

Lemma boot_wf id (e : E) (g : R) : wf (Client_boot id e g).
Proof.
  unfold Client_boot. destruct (answer nowUs e) as [us e']. cbn [advance]. destruct (advance _ us) as [mono nowMs].
  split; cbn; try done; try (unfold kMaxWishes, kMaxPendingIntents, kTrustPubkeyMaxBytes, kMaxCatalogRestarts; lia). apply shadows_new.
Qed.

Lemma life_steps id calls (e : E) (g : R) : let _ := pinned_by calls in
  Steps (Client_boot id e g) (life id calls e g) /\ wf (life id calls e g).
Proof.
  intros P. unfold life. assert (Hc : forall cs, (forall c, In c cs -> In c calls) -> keeps Stepwise (each run cs)).
  { induction cs as [|c cs IH]; intros Hin; cbn [each]; [client_walk|]. keeps_step; [|apply IH; intros c' Hc'; apply Hin; by right].
    apply run_stepwise. destruct c; try done. by apply Hin; left. }
  apply Hc; [done|apply boot_wf].
Qed.

Section Told.
Context `{Pins}.

(** The state is what was told, every call is explained by the ones before it, and the material has its sources. *)
Definition told (w : W) : Prop :=
  _state (w_client w) = state_told (w_trace w) /\ _hubAuth (w_client w) = auth_told (w_trace w) /\
  explained pins (w_trace w) (w_seen w) /\ sourced pins (w_client w) (w_trace w) (w_seen w).

Lemma call_trace c (w : W) : w_trace (call c w).2 = Did c (call c w).1 :: w_trace w.
Proof. unfold call. by destruct (answer c _). Qed.

Lemma call_seen c (w : W) : w_seen (call c w).2 = (w_client w, w_rng w) :: w_seen w.
Proof. unfold call. by destruct (answer c _). Qed.

Lemma call_rng c (w : W) : w_rng (call c w).2 = w_rng w.
Proof. unfold call. by destruct (answer c _). Qed.

Lemma sourced_material c c' t seen : material c' = material c -> sourced pins c t seen -> sourced (R := R) pins c' t seen.
Proof. intros [= Hk Hn Hs Hb] []. split; rewrite ?Hk, ?Hn, ?Hs, ?Hb; done. Qed.

(** A call that opens no transport. *)
Definition opens (e : Event) : bool :=
  match e with Did c a => match c return Answer c -> bool with t_open => id | _ => fun _ => false end a end.

Lemma sourced_event e x c t seen : opens e = false -> sourced pins c t seen -> sourced (R := R) pins c (e :: t) (x :: seen).
Proof.
  intros He [Hk Hn Hs]. split.
  - destruct Hk as [Hk|[Hk|Hk]]; [by left|by right; left|right; right; by right].
  - destruct e as [q a]. destruct q; try exact Hn. by destruct a.
  - destruct Hs as [Hs|(m & Hm & Hs)]; [by left|right]. exists m. split; [|exact Hs].
    destruct e as [q a]. destruct q; try exact Hm; cbn [welcomes].
    + by destruct a.
    + destruct (a ≫= carried); [by right|done].
Qed.

Lemma setState_run s (w : W) :
  w_trace (setState s w).2 = Did (onStateChange s) tt :: w_trace w /\ w_client (setState s w).2 = (w_client w) <| _state := s |>
  /\ w_seen (setState s w).2 = ((w_client w) <| _state := s |>, w_rng w) :: w_seen w.
Proof. unfold setState, mbind, StateM_bind, modify, call. by destruct (answer (onStateChange s) _) as [[] ?]. Qed.

Lemma setHubAuth_run s (w : W) : _hubAuth (w_client w) <> s ->
  w_trace (setHubAuth s w).2 = Did (onHubAuth s) tt :: w_trace w /\ w_client (setHubAuth s w).2 = (w_client w) <| _hubAuth := s |>
  /\ w_seen (setHubAuth s w).2 = ((w_client w) <| _hubAuth := s |>, w_rng w) :: w_seen w.
Proof.
  intros Hne. unfold setHubAuth, mbind, StateM_bind, gets, modify, call. rewrite bool_decide_false by done.
  by destruct (answer (onHubAuth s) _) as [[] ?].
Qed.
Lemma same_nonce c : c <| _clientNonce := _clientNonce c |> = c.
Proof. by destruct c. Qed.

Lemma begun_run (w : W) : (call t_open w).1 = true ->
  w_trace (begun w) = Did t_open true :: w_trace w /\ w_seen (begun w) = (w_client w, w_rng w) :: w_seen w /\
  w_client (begun w) = (reset_session ((w_client w) <| _chunkReassembler ::= cr_reset |>))
    <| _clientNonce := if _sigRequested (w_client w) then fst (rng_fill kTrustClientNonceBytes (w_rng w)) else _clientNonce (w_client w) |>.
Proof.
  intros Ho. unfold begun.
  pose proof (call_client t_open w) as Hc. pose proof (call_trace t_open w) as Ht. pose proof (call_seen t_open w) as Hs.
  pose proof (call_rng t_open w) as Hg. rewrite Ho in Ht. set (w1 := (call t_open w).2) in *. clearbody w1.
  set (f := fun c => _). assert (Hf : w_client (change f w1) = f (w_client w)) by (unfold change; cbn; by rewrite Hc).
  assert (Hr : _sigRequested (w_client (change f w1)) = _sigRequested (w_client w)) by (by rewrite Hf).
  rewrite Hr. destruct (_sigRequested (w_client w)).
  - unfold fresh_nonce, draw. change (w_rng (change f w1)) with (w_rng w1). rewrite Hg. destruct (rng_fill _ (w_rng w)) as [nonce g'].
    split_and!; [exact Ht|exact Hs|]. transitivity ((w_client (change f w1)) <| _clientNonce := nonce |>); [reflexivity|]. rewrite Hf. reflexivity.
  - split_and!; [exact Ht|exact Hs|]. rewrite Hf. symmetry. exact (same_nonce (f (w_client w))).
Qed.

Lemma told_call c (w : W) : plain (Did c (call c w).1) = true -> told w -> told (call c w).2.
Proof.
  intros Hc (Hst & Hau & Hex & Hsrc). unfold told. rewrite call_client, call_trace, call_seen. generalize dependent (call c w).1. intros a Hc.
  assert (Hs : sourced pins (w_client w) (Did c a :: w_trace w) ((w_client w, w_rng w) :: w_seen w)).
  { apply sourced_event; [|done]. destruct c; try done. by destruct a. }
  destruct c; cbn in Hc |- *; try done; try (by split_and!).
  - by destruct a.
  - split_and!; try done. intros Hi. by rewrite Hi in Hc.
Qed.

Lemma step_told (w w' : W) : Step w w' -> told w -> told w'.
Proof.
  intros Hs Htold. pose proof Htold as (Hst & Hau & Hex & Hsrc).
  destruct Hs as [c Hc|A f|f Hf Ha Hm|Ho|m Hm|key Hk|key|s Hs|s Hs Hne Hv|frame Hl Ha].
  - by apply told_call.
  - unfold draw. by destruct (f _).
  - unfold told, change. cbn. rewrite Hf, Ha. split_and!; [done..|]. by eapply sourced_material.
  - unfold told. destruct (begun_run w Ho) as (-> & -> & ->). split_and!; [exact Hst|done|done|]. destruct Hsrc. split.
    + destruct src_key0 as [Hk|[Hk|Hk]]; [by left|by right; left|right; right; by right].
    + intros c0 g0 [= <- <-] Hr. cbn. by rewrite Hr.
    + by left.
  - split_and!; [exact Hst|exact Hau|exact Hex|]. destruct Hsrc. split; [done..|]. right. by exists m.
  - split_and!; [exact Hst|exact Hau|exact Hex|]. destruct Hsrc. split; [|done..].
    cbn. destruct (blank key || _); [by left|right; by left].
  - assert (Hr : ((setHubPublicKey key ;; call (onHubPublicKey key)) w).2 = (call (onHubPublicKey key) (setHubPublicKey key w).2).2) by (by rewrite run_bind).
    rewrite Hr. unfold told. rewrite call_client, call_trace, call_seen. destruct (call _ _).1.
    split_and!; [exact Hst|exact Hau|by split|]. destruct Hsrc. split; cbn.
    + destruct (blank key || _); [by left|right; right; by left].
    + done.
    + destruct src_session0 as [Hz|(m & Hm & Hz)]; [by left|right; by exists m].
  - unfold told. destruct (setState_run s w) as (-> & -> & ->). split_and!; [done|exact Hau| |].
    + split; [|done]. unfold explains. cbn. by rewrite <- Hst.
    + apply sourced_event; [done|]. by eapply sourced_material; [|exact Hsrc].
  - unfold told. destruct (setHubAuth_run s w Hne) as (-> & -> & ->). split_and!; [exact Hst|done| |].
    + split; [|done]. unfold explains. cbn. split; [by rewrite <- Hau|]. intros Hset.
      split; [by destruct s|]. by eapply sourced_material; [|exact Hsrc].
    + apply sourced_event; [done|]. by eapply sourced_material; [|exact Hsrc].
  - unfold told. rewrite call_client, call_trace, call_seen. split_and!; [done|done| |by apply sourced_event].
    split; [|done]. unfold explains. cbn. intros _. by rewrite <- Hst, <- Hau.
Qed.
End Told.

Lemma life_told id calls (e : E) (g : R) : let _ := pinned_by calls in told (life id calls e g).
Proof.
  intros P. destruct (life_steps id calls e g) as [Hs _]. assert (Hb : told (Client_boot id e g)).
  { unfold Client_boot. destruct (answer nowUs e) as [us e']. destruct (advance _ us) as [mono nowMs].
    split_and!; [done..|]. split; [by left|done|by left]. }
  revert Hb. induction Hs as [|w1 w2 w3 Hs _ IH]; [done|]. intros Hw. by apply IH, (step_told w1).
Qed.

(** ** The theorems *)

(** C10. An INTENT leaves the client only while the application has been told that the session is LIVE, and never
    to a hub whose signature failed or did not come in time, whatever frames arrive and whatever the
    application calls, the safety operations included. *)
Theorem intents_only_when_live_and_genuine id calls (e : E) (g : R) post frame sent before :
  w_trace (life id calls e g) = post ++ Did (t_write frame) sent :: before -> is_intent frame = true ->
  state_told before = LIVE /\ withheld (auth_told before) = false.
Proof.
  intros Ht Hi. destruct (life_told id calls e g) as (_ & _ & Hex & _). rewrite Ht in Hex.
  apply explained_at in Hex as (c & g' & seen & _ & He). by apply He.
Qed.


(** C12. The client is always in the state and of the belief its delegate was told last, and the states it tells
    follow the session's machine: SYNCING comes from HELLO_SENT or LIVE, LIVE from SYNCING alone. *)
Theorem session_follows_its_machine id calls (e : E) (g : R) :
  let w := life id calls e g in
  _state (w_client w) = state_told (w_trace w) /\ _hubAuth (w_client w) = auth_told (w_trace w) /\
  forall post s a before, w_trace w = post ++ Did (onStateChange s) a :: before -> follows (state_told before) s = true.
Proof.
  cbv zeta. destruct (life_told id calls e g) as (Hs & Ha & Hex & _). split_and!; [done..|]. intros post s a before Ht. rewrite Ht in Hex.
  apply explained_at in Hex as (c & g' & seen & _ & He). exact He.
Qed.

(** C13. Every table and counter of the client keeps its bound through every life: the wishes, the pending intents,
    the grants, one shadow per channel, the pinned key, the restarts of a transfer and the repeats of an
    ESTOP; intent ids and ESTOP numbers are never 0; a LIVE client holds a catalog, and one that is
    re-synchronised still does. *)
Theorem client_stays_well_formed id calls (e : E) (g : R) : client_wf (view (w_client (life id calls e g))).
Proof. apply (life_steps id calls e g). Qed.

End Life.
