(* ===== verification/ClientCatalog.v ===== *)
(** * ClientCatalog: the catalog reaches the client

    A client that is synchronising is fed the chunks of the hub's catalog in any order, with duplicates and with
    other traffic among them.  [view_catalog] is what the transfer is about; what is sent on the way leaves it
    alone. *)

From S2P Require Import Prelude ByteIO SerialArith Tables Sha256 Crypto Codec Collect Frame Estop Raw Blob StateChannel Registry.
From S2P Require Import ClientState ClientParts StateM ClientWorld Client ClientSteps ClientWalk.
#[local] Open Scope Z_scope.

Record CatalogView := mkCatalogView {
  cv_state : ClientSessionState; cv_ready : bool; cv_refetching : bool; cv_resyncing : bool; cv_refused : bool;
  cv_hubEtag : list byte; cv_cached : list byte; cv_declared : list byte; cv_required : Z; cv_adopted : Z;
  cv_reassembler : CatalogReassembler; cv_count : Z }.

#[export] Instance CatalogView_fields : Fields CatalogView := fun v =>
  mkCatalogView (cv_state v) (cv_ready v) (cv_refetching v) (cv_resyncing v) (cv_refused v) (cv_hubEtag v) (cv_cached v)
    (cv_declared v) (cv_required v) (cv_adopted v) (cv_reassembler v) (cv_count v).
#[export] Instance cv_state_field : Field cv_state := ltac:(field_setter).
#[export] Instance cv_ready_field : Field cv_ready := ltac:(field_setter).
#[export] Instance cv_refetching_field : Field cv_refetching := ltac:(field_setter).
#[export] Instance cv_cached_field : Field cv_cached := ltac:(field_setter).
#[export] Instance cv_declared_field : Field cv_declared := ltac:(field_setter).
#[export] Instance cv_reassembler_field : Field cv_reassembler := ltac:(field_setter).
#[export] Instance cv_count_field : Field cv_count := ltac:(field_setter).

Definition view_catalog (c : Client) : CatalogView :=
  mkCatalogView (_state c) (_catalogReady c) (_refetching c) (_resyncing c) (_transferRefused c) (_hubEtag c) (_cachedEtag c)
    (_readyEtag c) (_requiredRetained c) (_adoptedCount c) (_chunkReassembler c) (_catalogChunkCount c).

(** The catalogs the application was handed, latest first, and whether they were verified. *)
Fixpoint handed (t : list Event) : list (list byte * bool) :=
  match t with
  | [] => []
  | Did c _ :: t => match c with onCatalog bytes verified => [(bytes, verified)] | _ => [] end ++ handed t
  end.

Section Catalog.
Context {E R : Type} `{Env E} `{IRandom R} `{IAllocator}.
Abbreviation W := (World E R) (only parsing).

(** ** What leaves the transfer alone *)

Definition Aside (w w' : W) : Prop :=
  view_catalog (w_client w') = view_catalog (w_client w) /\ handed (w_trace w') = handed (w_trace w).

#[export] Instance Aside_preorder : PreOrder Aside.
Proof. split; [done|]. intros w1 w2 w3 [] []. split; congruence. Qed.

Lemma call_aside c : match c with onCatalog _ _ => False | _ => True end -> keeps Aside (call c).
Proof. intros Hc w. unfold call. destruct (answer c _) as [a e]. split; [done|]. by destruct c. Qed.

Lemma modify_aside f : (forall c, view_catalog (f c) = view_catalog c) -> keeps Aside (modify (E := E) (R := R) f).
Proof. intros Hf w. split; [apply Hf|done]. Qed.

Lemma sendFrame_aside type ch payload : keeps Aside (sendFrame type ch payload).
Proof.
  rewrite sendFrame_spec. destruct (_ <? _)%nat; [apply keeps_ret, _|]. keeps_step; [by apply (call_aside (t_write _))|].
  keeps_step; [|apply keeps_ret, _]. keeps_step. by apply modify_aside.
Qed.

Lemma send_encoded_aside type buf : keeps Aside (send_encoded type buf).
Proof. unfold send_encoded. keeps_step; [apply keeps_ret, _|apply sendFrame_aside]. Qed.

Lemma sendBlobDone_aside status : keeps Aside (sendBlobDone status).
Proof.
  unfold sendBlobDone. keeps_step; [apply client_keeps_gets, _|]. keeps_step; [apply send_encoded_aside|apply keeps_ret, _].
Qed.

(** Declaring an etag changes nothing but what was declared. *)
Lemma ready_bytes_full etag : length etag = etag_bytes -> ready_bytes etag = etag.
Proof.
  intros Hl. unfold ready_bytes, encoded, encodeCatalogReady. change kCatalogReadyBytes with 8%nat in *. change etag_bytes with 8%nat in Hl.
  rewrite Hl, length_replicate. cbn [Nat.eqb negb Nat.ltb Nat.leb]. rewrite splice_0, drop_ge, app_nil_r by (rewrite length_replicate; lia).
  by apply take_ge; lia.
Qed.

Lemma sendCatalogReady_spec etag (w : W) :
  length etag = etag_bytes ->
  exists w', (sendCatalogReady etag w).2 = w' /\ handed (w_trace w') = handed (w_trace w)
    /\ view_catalog (w_client w') = (view_catalog (w_client w)) <| cv_declared := etag |>.
Proof.
  intros Hl. eexists. split; [reflexivity|]. unfold sendCatalogReady. rewrite ready_bytes_full by done.
  destruct etag as [|b l]; [done|]. cbn [blank]. rewrite run_bind. cbv beta. set (w1 := (modify _ w).2).
  assert (Ha : Aside w1 ((sent ← sendFrame FrameType.CATALOG_READY 0 (b :: l);
    when sent (modify (fun c => c <| _readyPending := true |> <| _lastReadySendMs := _lastUpdateMs c |>
                                  <| _readyAttempts ::= fun n => u32 (n + 1) |>))) w1).2).
  { match goal with |- Aside _ (?k _).2 => assert (Hk : keeps Aside k); [|apply Hk] end.
    keeps_step; [apply sendFrame_aside|]. keeps_step. by apply modify_aside. }
  destruct Ha as [Hv Ht]. split; [exact Ht|exact Hv].
Qed.

(** ** The transfer *)

Section Transfer.
Context (enc : list byte).
Abbreviation cc := (chunkCount (length enc)).
Definition etag_of (bytes : list byte) : list byte := take etag_bytes (Sha256.hash bytes).

(** The client has the budget and the memory for it. *)
Definition affordable : Prop :=
  blob_fits BlobId_default enc /\ (length enc <= kMaxTotalBytes (S := AllocatedChunkStorage))%nat
  /\ is_Some (allocate (Nat.max (cc * catalog_chunk_payload) (length enc) + cc)).

(** The chunks in [D] have arrived, of a catalog that is announced as what [enc] hashes to. *)
Record waiting (D : gset nat) (v : CatalogView) : Prop := {
  wt_state : cv_state v = SYNCING;
  wt_ready : cv_ready v = false;
  wt_refetching : cv_refetching v = false;
  wt_resyncing : cv_resyncing v = false;
  wt_refused : cv_refused v = false;
  wt_etag : cv_hubEtag v = etag_of enc;
  wt_retained : cv_required v <= cv_adopted v;
  wt_chunks : (cr_active (cv_reassembler v) = false /\ D = ∅) \/ (xfer BlobId_default enc D (cv_reassembler v) /\ cv_count v = Z.of_nat cc) }.

Record delivered (v : CatalogView) : Prop := {
  dl_state : cv_state v = LIVE;
  dl_ready : cv_ready v = true;
  dl_refetching : cv_refetching v = false;
  dl_etag : cv_hubEtag v = etag_of enc;
  dl_cached : cv_cached v = etag_of enc;
  dl_declared : cv_declared v = etag_of enc }.

Lemma length_etag_of : length (etag_of enc) = etag_bytes.
Proof.
  unfold etag_of. by rewrite length_take, Sha256.length_hash.
Qed.

Lemma at_gets {A B} (f : Client -> A) (k : A -> ClientM E R B) (w : W) : mbind k (gets f) w = k (f (w_client w)) w.
Proof. done. Qed.
Lemma at_get {B} (k : Client -> ClientM E R B) (w : W) : mbind k get w = k (w_client w) w.
Proof. done. Qed.
Lemma at_modify {B} f (k : () -> ClientM E R B) (w : W) : mbind k (modify f) w = k tt (change f w).
Proof. done. Qed.

Lemma checkLive_fires (w : W) :
  let v := view_catalog (w_client w) in
  cv_resyncing v = false -> cv_state v = SYNCING -> cv_ready v = true -> cv_required v <= cv_adopted v ->
  let w' := (checkLiveTransition w).2 in
  view_catalog (w_client w') = v <| cv_state := LIVE |> /\ handed (w_trace w') = handed (w_trace w).
Proof.
  cbn [view_catalog cv_resyncing cv_state cv_ready cv_required cv_adopted]. intros Hr Hs Hd Hn. unfold checkLiveTransition. rewrite at_get.
  rewrite Hr, Hs, Hd, (proj2 (Z.leb_le _ _) Hn). cbn [negb andb when]. rewrite bool_decide_true by done. cbn [andb when].
  unfold setState. rewrite at_modify. unfold call. by destruct (answer _ _).
Qed.

(** The whole catalog is there: it is handed over as verified, declared, and the session goes LIVE. *)
Lemma conclude_verified D (w : W) :
  waiting D (view_catalog (w_client w)) -> assembled (_chunkReassembler (w_client w)) = enc ->
  let w' := (conclude_transfer w).2 in
  delivered (view_catalog (w_client w')) /\ handed (w_trace w') = (enc, true) :: handed (w_trace w).
Proof.
  intros [] Hasm. cbv zeta. unfold conclude_transfer. rewrite at_gets, Hasm. cbv zeta. rewrite at_get.
  change (take etag_bytes (Sha256.hash enc)) with (etag_of enc). change (_hubEtag (w_client w) = etag_of enc) in wt_etag0.
  rewrite bool_decide_true by done. cbn [negb andb when]. rewrite !at_modify.
  set (wa := change _ (change _ w)). set (v := view_catalog (w_client w)) in *.
  assert (Ha : view_catalog (w_client wa) = v <| cv_cached := etag_of enc |> <| cv_ready := true |> <| cv_refetching := false |>)
    by (rewrite <- wt_etag0; reflexivity).
  assert (Hta : handed (w_trace wa) = handed (w_trace w)) by done. clearbody wa. rewrite run_bind. cbv beta.
  set (wb := (call _ wa).2).
  assert (Hb : view_catalog (w_client wb) = view_catalog (w_client wa) /\ handed (w_trace wb) = (enc, true) :: handed (w_trace wa)).
  { unfold wb, call. by destruct (answer (onCatalog enc true) _). }
  destruct Hb as [Hb Htb]. clearbody wb. rewrite at_modify. set (wc := change _ wb). set (r := cr_reset (_chunkReassembler (w_client wb))).
  assert (Hc : view_catalog (w_client wc) = (view_catalog (w_client wb)) <| cv_reassembler := r |>) by done.
  assert (Htc : handed (w_trace wc) = handed (w_trace wb)) by done. clearbody wc r. rewrite run_bind. cbv beta.
  destruct (sendBlobDone_aside BlobDoneStatus.VerifiedComplete wc) as [Hd Htd]. set (wd := (sendBlobDone _ wc).2) in *. clearbody wd.
  rewrite at_gets. rewrite Hc, Hb, Ha in Hd. assert (He : _hubEtag (w_client wd) = etag_of enc).
  { change (cv_hubEtag (view_catalog (w_client wd)) = etag_of enc). by rewrite Hd. }
  rewrite He, run_bind. cbv beta. destruct (sendCatalogReady_spec (etag_of enc) wd length_etag_of) as (we & -> & Hte & Hve).
  rewrite Hd in Hve. destruct (checkLive_fires we) as [Hvf Htf]; [by rewrite Hve..|].
  set (w' := (checkLiveTransition we).2) in *. clearbody w'. rewrite Hve in Hvf. split; [|congruence]. rewrite Hvf. by split.
Qed.

(** A chunk's header opens the transfer, or finds it open. *)
Lemma open_waiting D i nowMs (w : W) :
  affordable -> waiting D (view_catalog (w_client w)) ->
  let h := mkBlobChunkHeader (canonical_id BlobId_default) i (Z.of_nat cc) (Z.of_nat (length enc)) in
  exists r, view_catalog (w_client (open_transfer h nowMs w).2) = (view_catalog (w_client w)) <| cv_reassembler := r |> <| cv_count := Z.of_nat cc |>
    /\ xfer BlobId_default enc D r /\ w_trace (open_transfer h nowMs w).2 = w_trace w.
Proof.
  intros (Hfit & Hbudget & [block Halloc]) [] h. unfold open_transfer, modify. cbn [snd w_client w_trace].
  set (c := w_client w) in *. change (cv_reassembler (view_catalog c)) with (_chunkReassembler c) in *.
  change (cv_count (view_catalog c)) with (_catalogChunkCount c) in *. destruct wt_chunks0 as [[Ha ->]|[Hx Hcount]].
  - rewrite Ha. cbn [negb orb]. eexists. split; [reflexivity|]. split; [|done].
    destruct (Nat.ltb_spec (length (al_block (cr_store (_chunkReassembler c)))) (Nat.max (cc * catalog_chunk_payload) (length enc) + cc)) as [Hlt|Hge].
    + eapply (begin_xfer BlobId_default enc Hfit (_chunkReassembler c) nowMs); [done|done|]. cbn. unfold Allocated_acquire.
      rewrite (proj2 (Nat.ltb_lt _ _) Hlt), Halloc. reflexivity.
    + eapply (begin_xfer BlobId_default enc Hfit (_chunkReassembler c) nowMs); [done|done|]. cbn. unfold Allocated_acquire.
      rewrite (proj2 (Nat.ltb_ge _ _) Hge). reflexivity.
  - rewrite (xf_active _ _ _ _ Hx), Hcount. cbn [h bc_chunk_count negb orb]. rewrite Z.eqb_refl. exists (_chunkReassembler c).
    split; [|done]. rewrite <- Hcount. done.
Qed.

(** One chunk: it is collected, and the last one that was missing concludes the transfer. *)
Lemma chunk_step D i nowMs (w : W) :
  affordable -> waiting D (view_catalog (w_client w)) -> (i < cc)%nat ->
  let w' := (handleBlobChunk (chunk_bytes BlobId_default enc i) nowMs w).2 in
  if decide ({[i]} ∪ D = set_seq 0 cc)
  then delivered (view_catalog (w_client w')) /\ handed (w_trace w') = (enc, true) :: handed (w_trace w)
  else waiting ({[i]} ∪ D) (view_catalog (w_client w')) /\ handed (w_trace w') = handed (w_trace w).
Proof.
  intros (Hfit & Hbudget & Halloc) Hw Hi. pose proof Hfit as (Hid & Hn & Hc & Hl). destruct Hw. cbv zeta. unfold handleBlobChunk, chunk_bytes.
  rewrite getBlobChunkHeader_bytes by (try done; unfold in_u; lia). fold (chunk_bytes BlobId_default enc i). set (h := mkBlobChunkHeader _ _ _ _).
  rewrite at_gets. assert (Hx : expects_chunk h (w_client w) = true).
  { unfold expects_chunk. change (_transferRefused (w_client w)) with (cv_refused (view_catalog (w_client w))).
    change (_catalogReady (w_client w)) with (cv_ready (view_catalog (w_client w))). rewrite wt_refused0, wt_ready0. cbn [h bc_id bc_chunk_count bc_chunk_index].
    rewrite (proj2 (Z.eqb_neq _ _)), (proj2 (Z.ltb_lt _ _)) by lia. done. }
  rewrite Hx. cbn [negb]. clear Hx. rewrite run_bind. cbv beta.
  destruct (open_waiting D (Z.of_nat i) nowMs w) as (r & Hv & Hxf & Ht); [by repeat split|by split|].
  fold h in Hv, Ht. set (w1 := (open_transfer h nowMs w).2) in *. clearbody w1. rewrite at_gets.
  change (_chunkReassembler (w_client w1)) with (cv_reassembler (view_catalog (w_client w1))). rewrite Hv.
  change (cv_reassembler (_ <| cv_count := _ |>)) with r. rewrite (xf_active _ _ _ _ Hxf). cbn [negb]. rewrite at_modify, at_gets.
  destruct (insert_ours BlobId_default enc Hfit D r i nowMs Hxf Hi) as (r' & Hins & Hxf').
  set (w2 := change _ w1). assert (Hr : _chunkReassembler (w_client w2) = r').
  { change (fst (cr_insert (cv_reassembler (view_catalog (w_client w1))) (chunk_bytes BlobId_default enc i) nowMs) = r').
    rewrite Hv. change (cv_reassembler (_ <| cv_count := _ |>)) with r. by rewrite Hins. }
  assert (Hv2 : view_catalog (w_client w2) = (view_catalog (w_client w1)) <| cv_reassembler := r' |>) by (rewrite <- Hr; done).
  assert (Ht2 : w_trace w2 = w_trace w) by exact Ht. clearbody w2. rewrite Hv in Hv2. rewrite Hr, (xfer_complete _ _ _ _ Hxf').
  assert (Hwait : waiting ({[i]} ∪ D) (view_catalog (w_client w2))) by (rewrite Hv2; split; try done; by right).
  destruct (decide _) as [Hfull|Hnot].
  - rewrite bool_decide_true by done. cbn [when]. rewrite <- Ht2. eapply conclude_verified; [exact Hwait|]. rewrite Hr.
    by eapply (xfer_assembled _ _ Hfit).
  - rewrite bool_decide_false by done. split; [exact Hwait|]. change (handed (w_trace w2) = handed (w_trace w)). by rewrite Ht2.
Qed.

(** What arrives while the transfer is under way: its chunks, and what is not the catalog's. *)
Definition arrival_ok (e : BlobEvent * Z) : Prop :=
  match fst e with
  | Chunk i => (i < cc)%nat
  | Other pl => match getBlobChunkHeader pl with Some h => isCatalog (bc_id h) = false | None => True end
  end.

Definition payload_of (e : BlobEvent) : list byte := match e with Chunk i => chunk_bytes BlobId_default enc i | Other pl => pl end.

Definition arrive (w : W) (e : BlobEvent * Z) : W := (handleBlobChunk (payload_of (fst e)) (snd e) w).2.

Lemma other_ignored pl nowMs (w : W) : arrival_ok (Other pl, nowMs) -> arrive w (Other pl, nowMs) = w.
Proof.
  unfold arrival_ok, arrive, handleBlobChunk. cbn [fst snd payload_of]. destruct (getBlobChunkHeader pl) as [h|]; [|done].
  intros Hc. rewrite at_gets. unfold expects_chunk. by rewrite Hc.
Qed.

Lemma late_ignored e (w : W) : delivered (view_catalog (w_client w)) -> arrive w e = w.
Proof.
  intros []. unfold arrive, handleBlobChunk. destruct (getBlobChunkHeader _) as [h|]; [|done]. rewrite at_gets.
  assert (Hx : expects_chunk h (w_client w) = false).
  { unfold expects_chunk. change (_catalogReady (w_client w)) with (cv_ready (view_catalog (w_client w))).
    change (_refetching (w_client w)) with (cv_refetching (view_catalog (w_client w))). rewrite dl_ready0, dl_refetching0. apply andb_false_r. }
  by rewrite Hx.
Qed.

Lemma arrivals_late evs (w : W) : delivered (view_catalog (w_client w)) -> foldl arrive w evs = w.
Proof. intros Hd. induction evs as [|e evs IH]; [done|]. cbn. by rewrite late_ignored. Qed.

Lemma chunks_below evs : Forall arrival_ok evs -> chunks_of evs ⊆ set_seq 0 cc.
Proof.
  induction 1 as [|[[i|pl] now] evs He _ IH]; unfold chunks_of in *; cbn in *; [set_solver| |done].
  apply union_subseteq. split; [|done]. apply singleton_subseteq_l, elem_of_set_seq. lia.
Qed.

Lemma arrivals D evs (w : W) :
  affordable -> waiting D (view_catalog (w_client w)) -> D <> set_seq 0 cc -> Forall arrival_ok evs ->
  let w' := foldl arrive w evs in
  if decide (chunks_of evs ∪ D = set_seq 0 cc)
  then delivered (view_catalog (w_client w')) /\ handed (w_trace w') = (enc, true) :: handed (w_trace w)
  else waiting (chunks_of evs ∪ D) (view_catalog (w_client w')) /\ handed (w_trace w') = handed (w_trace w).
Proof.
  intros Haff Hw HD Hok. revert D w Hw HD. induction Hok as [|[[i|pl] now] evs He Hevs IH]; intros D w Hw HD; cbn [foldl].
  - replace (chunks_of [] ∪ D) with D by (unfold chunks_of; cbn; set_solver). by rewrite decide_False.
  - replace (chunks_of ((Chunk i, now) :: evs) ∪ D) with (chunks_of evs ∪ ({[i]} ∪ D)) by (unfold chunks_of; cbn; set_solver).
    pose proof (chunk_step D i now w Haff Hw He) as Hstep. cbv zeta in Hstep. change (handleBlobChunk _ now w).2 with (arrive w (Chunk i, now)) in Hstep.
    destruct (decide ({[i]} ∪ D = set_seq 0 cc)) as [Hfull|Hnot].
    + destruct Hstep as [Hd Ht]. rewrite arrivals_late by done. pose proof (chunks_below evs Hevs). rewrite decide_True by (rewrite Hfull; by apply subseteq_union_1_L). done.
    + destruct Hstep as [Hw' Ht]. specialize (IH _ _ Hw' Hnot). cbv zeta in *. rewrite Ht in IH. exact IH.
  - replace (chunks_of ((Other pl, now) :: evs) ∪ D) with (chunks_of evs ∪ D) by done. rewrite other_ignored by done. by apply IH.
Qed.

(** C14. The catalog reaches a client that waits for it: fed the chunks of the hub's catalog in any order, with
    duplicates and with other traffic among them, the client stays in SYNCING and hands nothing over until the
    last missing chunk is there; with it, it hands the application exactly the hub's bytes, once and as verified,
    remembers and declares their etag, and is LIVE.  Chunks that come later change nothing. *)
Theorem catalog_reaches_the_client (evs : list (BlobEvent * Z)) (w : W) :
  affordable -> waiting ∅ (view_catalog (w_client w)) -> Forall arrival_ok evs ->
  let w' := foldl arrive w evs in
  let c' := w_client w' in
  if decide (chunks_of evs = set_seq 0 cc)
  then _state c' = LIVE /\ _catalogReady c' = true /\ _cachedEtag c' = etag_of enc /\ _readyEtag c' = etag_of enc
       /\ handed (w_trace w') = (enc, true) :: handed (w_trace w)
  else _state c' = SYNCING /\ _catalogReady c' = false /\ handed (w_trace w') = handed (w_trace w).
Proof.
  intros Haff Hw Hok. assert (HD : (∅ : gset nat) <> set_seq 0 cc).
  { destruct Haff as ((_ & Hn & _) & _). pose proof (chunkCount_spec (length enc) Hn) as [_ Hpos]. intros He.
    assert (0%nat ∈ (∅ : gset nat)) by (rewrite He; apply elem_of_set_seq; lia). set_solver. }
  pose proof (arrivals ∅ evs w Haff Hw HD Hok) as Ha. cbv zeta in *. rewrite union_empty_r_L in Ha.
  destruct (decide _); destruct Ha as [[] Ht]; by split_and!.
Qed.
End Transfer.
End Catalog.
