(* ===== verification/ClientEstop.v ===== *)
(** * ClientEstop: an ESTOP is repeated until it is latched or given up

    [pumpEstopRepeat] is the tick's part in it, [note_latch] what a safety snapshot does. *)

From S2P Require Import Prelude ByteIO SerialArith Crypto Codec Frame Estop Registry.
From S2P Require Import ClientState ClientParts StateM ClientWorld Client ClientSteps ClientWalk ClientCatalog.
#[local] Open Scope Z_scope.

(** Every tick comes when the repeat is due. *)
Fixpoint spaced (last : Z) (ticks : list Z) : Prop :=
  match ticks with
  | [] => True
  | t :: ticks => timeReached t (u32 (last + limits.estop_repeat_interval_ms)) = true /\ spaced t ticks
  end.

(** The frames written, latest first. *)
Fixpoint written (t : list Event) : list (list byte) :=
  match t with
  | [] => []
  | Did c _ :: t => match c with t_write frame => [frame] | _ => [] end ++ written t
  end.

Section Estop.
Context {E R : Type} `{Env E} `{IRandom R}.
Abbreviation W := (World E R) (only parsing).

Definition tick_estop (w : W) (nowMs : Z) : W := (pumpEstopRepeat nowMs w).2.

(** What the repeat is about. *)
Definition estop_of (c : Client) : bool * bool * Z * Z * Z * Z * Z :=
  (_estopActive c, _estopSendFailed c, _estopAttempts c, _lastEstopSendMs c, _estopCause c, _roles c, _estopSentSeq c).

Lemma estop_frame_nonempty c : blank (estop_frame c) = false.
Proof. by rewrite estop_frame_bytes. Qed.

Lemma send_estop_spec nowMs (w : W) :
  let w' := (send_estop nowMs w).2 in
  estop_of (w_client w') = estop_of (w_client w) /\ written (w_trace w') = estop_frame (w_client w) :: written (w_trace w).
Proof.
  unfold send_estop. rewrite at_gets, estop_frame_nonempty. rewrite run_bind. unfold call. by destruct (answer (t_write _) _).
Qed.

Lemma estop_frame_of c c' : estop_of c = estop_of c' -> estop_frame c = estop_frame c'.
Proof. unfold estop_of, estop_frame. by intros [= _ _ _ _ -> -> ->]. Qed.

(** One due tick writes the very frame again. *)
Lemma tick_due (w : W) nowMs a last :
  _estopActive (w_client w) = true -> _estopAttempts (w_client w) = a -> _lastEstopSendMs (w_client w) = last ->
  0 <= a < limits.estop_repeat_max -> timeReached nowMs (u32 (last + limits.estop_repeat_interval_ms)) = true ->
  let w' := tick_estop w nowMs in
  _estopActive (w_client w') = true /\ _estopAttempts (w_client w') = a + 1 /\ _lastEstopSendMs (w_client w') = nowMs
  /\ _estopSendFailed (w_client w') = _estopSendFailed (w_client w)
  /\ estop_frame (w_client w') = estop_frame (w_client w) /\ written (w_trace w') = estop_frame (w_client w) :: written (w_trace w).
Proof.
  intros Hact Ha Hl Hr Hd. cbv zeta. unfold tick_estop, pumpEstopRepeat. rewrite at_get, Hact, Ha, Hl, Hd.
  rewrite (proj2 (Z.leb_gt _ _)) by lia. cbn [negb]. rewrite run_bind. cbv beta.
  destruct (send_estop_spec nowMs w) as [He Hw]. set (w1 := (send_estop nowMs w).2) in *. clearbody w1.
  pose proof (estop_frame_of _ _ He) as Hf. unfold estop_of in He. injection He as H1 H2 H3 H4 H5 H6 H7. cbn.
  unfold limits.estop_repeat_max in Hr. split_and!; try done; [congruence|].
  rewrite H3, Ha. apply wrap_small. unfold in_u. lia.
Qed.

(** The tick after the last repeat gives up, whenever it comes. *)
Lemma tick_last (w : W) nowMs :
  _estopActive (w_client w) = true -> limits.estop_repeat_max <= _estopAttempts (w_client w) ->
  let w' := tick_estop w nowMs in
  _estopActive (w_client w') = false /\ _estopSendFailed (w_client w') = true /\ written (w_trace w') = written (w_trace w).
Proof.
  intros Hact Ha. cbv zeta. unfold tick_estop, pumpEstopRepeat. rewrite at_get, Hact, (proj2 (Z.leb_le _ _) Ha). done.
Qed.

Lemma tick_idle (w : W) nowMs : _estopActive (w_client w) = false -> tick_estop w nowMs = w.
Proof. intros Hact. unfold tick_estop, pumpEstopRepeat. by rewrite at_get, Hact. Qed.

Lemma ticks_idle ticks (w : W) : _estopActive (w_client w) = false -> foldl tick_estop w ticks = w.
Proof. intros Hact. induction ticks as [|t ticks IH]; [done|]. cbn. by rewrite tick_idle. Qed.

(** C15. A client whose ESTOP nobody latches writes the very same frame at every tick that is due, until it has
    written [estop_repeat_max] of them in all; the next tick, whenever it comes, gives up and reports the failure,
    and nothing is written after that. *)
Theorem estop_repeats_then_fails (w : W) (ticks : list Z) :
  let c := w_client w in
  let left := Z.to_nat (limits.estop_repeat_max - _estopAttempts c) in
  _estopActive c = true -> _estopSendFailed c = false -> 0 <= _estopAttempts c <= limits.estop_repeat_max ->
  spaced (_lastEstopSendMs c) (take left ticks) ->
  let w' := foldl tick_estop w ticks in
  written (w_trace w') = replicate (Nat.min (length ticks) left) (estop_frame c) ++ written (w_trace w)
  /\ _estopActive (w_client w') = (length ticks <=? left)%nat /\ _estopSendFailed (w_client w') = (left <? length ticks)%nat.
Proof.
  cbv zeta. revert w. induction ticks as [|t ticks IH]; intros w Hact Hfail Hr Hsp; cbn [foldl]; [done|].
  destruct (decide (_estopAttempts (w_client w) = limits.estop_repeat_max)) as [Hmax|Hlt].
  - destruct (tick_last w t Hact ltac:(lia)) as (Ha & Hf & Hw). rewrite ticks_idle by done. rewrite Ha, Hf, Hw, Hmax, Z.sub_diag. done.
  - set (left := Z.to_nat _) in *. assert (Hleft : left = S (Z.to_nat (limits.estop_repeat_max - (_estopAttempts (w_client w) + 1)))) by lia.
    rewrite Hleft in *. cbn [take spaced] in Hsp. destruct Hsp as [Hd Hsp].
    destruct (tick_due w t _ _ Hact eq_refl eq_refl ltac:(lia) Hd) as (Ha & Hn & Hl & Hf & Hfr & Hw).
    specialize (IH (tick_estop w t) Ha ltac:(congruence)). rewrite Hn, Hl, Hfr, Hw in IH. destruct IH as (IH1 & IH2 & IH3); [lia|done|].
    cbn [length Nat.min replicate]. rewrite IH1, IH2, IH3. split_and!; [|done..].
    by rewrite cons_middle, app_assoc, <- replicate_S_end.
Qed.

(** The safety snapshot of a latched ESTOP whose number is the client's own or newer, in serial arithmetic, ends
    the repeat without failure; any other snapshot of the channel leaves it going. *)
Theorem latched_snapshot_ends_the_repeat (w : W) (payload : list byte) :
  let c := w_client w in
  _estopActive c = true -> (8 <= length payload)%nat ->
  let c' := w_client (note_latch channels.safety payload w).2 in
  if acknowledges payload (_estopSentSeq c)
  then _estopActive c' = false /\ _estopSendFailed c' = false
  else c' = c.
Proof.
  cbv zeta. intros Hact Hlen. unfold note_latch. rewrite at_get, Hact, (proj2 (Nat.leb_le _ _) Hlen), Z.eqb_refl. cbn [andb].
  by destruct (acknowledges _ _).
Qed.
End Estop.

(** ** An ESTOP without a session (client/estop_datagram.hpp)

    The sender cannot see the latch, so it spends its whole budget.  [send] is the application's datagram sender;
    the state carries what it was given, latest first. *)

Module EstopDatagram.

Record Sender := mkSender {
  _frame : list byte; _len : nat; _seq : Z; _attempts : Z; _sent : Z; _failed : Z; _lastMs : Z; _active : bool }.

#[export] Instance Sender_fields : Fields Sender := fun s =>
  mkSender (_frame s) (_len s) (_seq s) (_attempts s) (_sent s) (_failed s) (_lastMs s) (_active s).
#[export] Instance _sent_field : Field _sent := ltac:(field_setter).
#[export] Instance _failed_field : Field _failed := ltac:(field_setter).
#[export] Instance _attempts_field : Field _attempts := ltac:(field_setter).
#[export] Instance _lastMs_field : Field _lastMs := ltac:(field_setter).
#[export] Instance _active_field : Field _active := ltac:(field_setter).

Definition Sender_new (seqSeed : Z) : Sender := mkSender (replicate kEstopFrameBytes Byte.x00) 0 seqSeed 0 0 0 0 false.

Section Net.
Context {N : Type} (send : list byte -> N -> bool * N).

(** The sender, the network and the datagrams handed to it. *)
Definition State : Type := Sender * N * list (list byte).

Definition sendOne (nowMs : Z) : State -> State := fun '(s, net, log) =>
  let datagram := take (_len s) (_frame s) in
  let '(sent, net) := send datagram net in
  let s := if sent : bool then s <| _sent ::= fun n => u32 (n + 1) |> else s <| _failed ::= fun n => u32 (n + 1) |> in
  let s := s <| _lastMs := nowMs |> <| _attempts ::= fun n => u32 (n + 1) |> in
  let s := if limits.estop_repeat_max <=? _attempts s then s <| _active := false |> else s in
  (s, net, datagram :: log).

Definition initiate (cause origin nowMs : Z) : State -> State := fun '(s, net, log) =>
  let sq := u16 (_seq s + 1) in
  let sq := if sq =? 0 then 1 else sq in
  let '(frame, len) := encodeEstop (mkEstopFrame cause origin sq) (_frame s) in
  let s := mkSender frame len sq 0 0 0 (_lastMs s) (0 <? len)%nat in
  if _active s then sendOne nowMs (s, net, log) else (s, net, log).

Definition update (nowMs : Z) : State -> State := fun '(s, net, log) =>
  if negb (_active s) then (s, net, log)
  else if negb (timeReached nowMs (u32 (_lastMs s + limits.estop_repeat_interval_ms))) then (s, net, log)
  else sendOne nowMs (s, net, log).

(** An initiation under way: [k] datagrams have gone, all of them [f]'s. *)
Record sending (f : EstopFrame) (k : nat) (now : Z) (log0 : list (list byte)) (st : State) : Prop := {
  sd_frame : take (_len st.1.1) (_frame st.1.1) = EstopFrame_bytes f;
  sd_seq : _seq st.1.1 = ef_seq f;
  sd_attempts : _attempts st.1.1 = Z.of_nat k;
  sd_counts : 0 <= _sent st.1.1 /\ 0 <= _failed st.1.1 /\ _sent st.1.1 + _failed st.1.1 = Z.of_nat k;
  sd_last : _lastMs st.1.1 = now;
  sd_active : _active st.1.1 = (k <? Z.to_nat limits.estop_repeat_max)%nat;
  sd_log : st.2 = replicate k (EstopFrame_bytes f) ++ log0 }.

Lemma sendOne_sending f k last log0 nowMs st :
  sending f k last log0 st -> (k < Z.to_nat limits.estop_repeat_max)%nat -> sending f (S k) nowMs log0 (sendOne nowMs st).
Proof.
  destruct st as [[s net] log]. intros [Hf Hq Ha (Hs & He & Hc) Hl Hact Hlog] Hk. cbn [fst snd] in *. unfold sendOne. rewrite Hf.
  assert (Hu : forall n, 0 <= n <= Z.of_nat k -> u32 (n + 1) = n + 1) by (intros n Hn; apply wrap_small; unfold in_u, limits.estop_repeat_max in *; lia).
  destruct (send _ net) as [sent net']. set (s' := if sent then _ else _).
  assert (Hs' : _frame s' = _frame s /\ _len s' = _len s /\ _seq s' = _seq s /\ _attempts s' = _attempts s /\ _active s' = _active s
    /\ 0 <= _sent s' /\ 0 <= _failed s' /\ _sent s' + _failed s' = Z.of_nat (S k)).
  { unfold s'. destruct sent; cbn; rewrite Hu by lia; split_and!; try done; lia. }
  destruct Hs' as (H1 & H2 & H3 & H4 & H5 & H6 & H7 & H8). clearbody s'.
  cbn -[limits.estop_repeat_max Nat.ltb]. rewrite H4, Ha, Hu by lia.
  destruct (Z.leb_spec limits.estop_repeat_max (Z.of_nat k + 1)) as [Hm|Hm]; split; cbn -[limits.estop_repeat_max Nat.ltb replicate];
    rewrite ?H1, ?H2, ?H3, ?H4, ?H5, ?Ha, ?Hu, ?Hlog by lia; try done; try lia.
  - symmetry. apply Nat.ltb_ge. lia.
  - rewrite Hact, (proj2 (Nat.ltb_lt k _)) by done. symmetry. apply Nat.ltb_lt. lia.
Qed.
Lemma initiate_sending cause origin nowMs (s : Sender) net log :
  length (_frame s) = kEstopFrameBytes -> 0 <= _seq s < 65536 ->
  let sq := if _seq s =? 65535 then 1 else _seq s + 1 in
  sending (mkEstopFrame cause origin sq) 1 nowMs log (initiate cause origin nowMs (s, net, log)).
Proof.
  intros Hlen Hseq. cbv zeta. unfold initiate. set (sq := if u16 (_seq s + 1) =? 0 then 1 else u16 (_seq s + 1)).
  assert (Hsq : sq = if _seq s =? 65535 then 1 else _seq s + 1).
  { unfold sq. destruct (Z.eqb_spec (_seq s) 65535) as [->|Hne]; [done|]. rewrite wrap_small by (unfold in_u; lia).
    by rewrite (proj2 (Z.eqb_neq _ _)) by lia. }
  rewrite <- Hsq. set (f := mkEstopFrame cause origin sq).
  rewrite encodeEstop_spec by (rewrite Hlen; unfold kEstopFrameBytes; lia). cbn [Nat.ltb Nat.leb _active].
  apply (sendOne_sending f 0 (_lastMs s) log); [|by apply Nat.ltb_lt].
  split; cbn [fst snd _frame _len _seq _attempts _sent _failed _lastMs _active]; done.
Qed.

Lemma update_due f k last log0 nowMs st : sending f k last log0 st -> timeReached nowMs (u32 (last + limits.estop_repeat_interval_ms)) = true ->
  if (k <? Z.to_nat limits.estop_repeat_max)%nat then sending f (S k) nowMs log0 (update nowMs st) else update nowMs st = st.
Proof.
  intros Hs Hdue. pose proof Hs as [_ _ _ _ Hl Ha _]. destruct st as [[s net] log]. cbn [fst snd] in *. unfold update. rewrite Ha, Hl, Hdue.
  destruct (Nat.ltb_spec k (Z.to_nat limits.estop_repeat_max)) as [Hk|Hk]; [|done]. cbn [negb]. by eapply sendOne_sending.
Qed.

Lemma updates_done ticks st : _active st.1.1 = false -> foldl (fun st nowMs => update nowMs st) st ticks = st.
Proof.
  destruct st as [[s net] log]. cbn [fst]. intros Ha. induction ticks as [|t ticks IH]; [done|]. cbn [foldl]. unfold update at 2. rewrite Ha. done.
Qed.

(** The sessionless ESTOP: one initiation hands the network the same frame at every due tick, [estop_repeat_max]
    times whatever becomes of them, and then stops; the frame is a valid ESTOP with this cause and origin and with
    the next number, which is not 0, and every datagram is counted as sent or as failed. *)
Theorem budget_is_spent cause origin nowMs (ticks : list Z) (s : Sender) (net : N) log :
  length (_frame s) = kEstopFrameBytes -> 0 <= _seq s < 65536 -> in_u 8 cause -> in_u 8 origin -> spaced nowMs ticks ->
  let f := mkEstopFrame cause origin (if _seq s =? 65535 then 1 else _seq s + 1) in
  let sends := Nat.min (S (length ticks)) (Z.to_nat limits.estop_repeat_max) in
  let '(s', _, log') := foldl (fun st t => update t st) (initiate cause origin nowMs (s, net, log)) ticks in
  log' = replicate sends (EstopFrame_bytes f) ++ log /\ decodeEstop (EstopFrame_bytes f) = ok f
  /\ _active s' = (S (length ticks) <? Z.to_nat limits.estop_repeat_max)%nat
  /\ 0 <= _sent s' /\ 0 <= _failed s' /\ _sent s' + _failed s' = Z.of_nat sends.
Proof.
  intros Hlen Hseq Hc Ho Hsp. cbv zeta. set (f := mkEstopFrame _ _ _). pose proof (initiate_sending cause origin nowMs s net log Hlen Hseq) as Hs.
  cbv zeta in Hs. fold f in Hs. set (st := initiate _ _ _ _) in *. clearbody st.
  assert (Hok : decodeEstop (EstopFrame_bytes f) = ok f).
  { apply decodeEstop_bytes. unfold f, EstopFrame_ok, in_u in *. cbn. destruct (Z.eqb_spec (_seq s) 65535); lia. }
  assert (Hgo : forall ticks k now st, sending f k now log st -> spaced now ticks -> (k <= Z.to_nat limits.estop_repeat_max)%nat ->
    exists now', sending f (Nat.min (k + length ticks) (Z.to_nat limits.estop_repeat_max)) now' log (foldl (fun st t => update t st) st ticks)).
  { clear. intros ticks. induction ticks as [|t ticks IH]; intros k now st Hs Hsp Hk; cbn [foldl length].
    - exists now. by rewrite Nat.add_0_r, Nat.min_l.
    - destruct Hsp as [Hdue Hsp]. pose proof (update_due f k now log t st Hs Hdue) as Hu.
      destruct (Nat.ltb_spec k (Z.to_nat limits.estop_repeat_max)) as [Hlt|Hge].
      + destruct (IH (S k) t (update t st) Hu Hsp Hlt) as [now' Hn]. exists now'. by rewrite Nat.add_succ_r.
      + rewrite Hu, updates_done by (pose proof (sd_active _ _ _ _ _ Hs) as ->; by apply Nat.ltb_ge). exists now.
        by rewrite Nat.min_r, <- (Nat.le_antisymm _ _ Hk Hge) by lia. }
  destruct (Hgo ticks 1%nat nowMs st Hs Hsp) as [now' [_ _ _ (H1 & H2 & H3) _ Ha Hl]]; [by apply Nat.leb_le|].
  destruct (foldl _ st ticks) as [[s' net'] log']. cbn [fst snd Nat.add] in *. split_and!; try done. rewrite Ha.
  destruct (Nat.ltb_spec (S (length ticks)) (Z.to_nat limits.estop_repeat_max)) as [Hl'|Hl'];
    [rewrite Nat.min_l by lia; by apply Nat.ltb_lt|rewrite Nat.min_r by lia; by apply Nat.ltb_irrefl].
Qed.
End Net.

(** On a network that takes every other datagram. *)
Lemma budget_is_spent_witness :
  let st := foldl (fun st t => update (fun _ b => (b, negb b)) t st)
    (initiate (fun _ b => (b, negb b)) 2 1 1000 (Sender_new 65535, true, [])) (map (fun i => 1050 + 50 * Z.of_nat i) (seq 0 30)) in
  length st.2 = 20%nat /\ _active st.1.1 = false /\ _sent st.1.1 = 10 /\ _failed st.1.1 = 10.
Proof.
  pose proof (budget_is_spent (fun _ b => (b, negb b)) 2 1 1000 (map (fun i => 1050 + 50 * Z.of_nat i) (seq 0 30)) (Sender_new 65535) true []
    eq_refl ltac:(cbn; lia) ltac:(unfold in_u; lia) ltac:(unfold in_u; lia) ltac:(vm_compute; tauto)) as Hs.
  vm_compute. tauto.
Defined.

End EstopDatagram.
