(* ===== verification/ClientSends.v ===== *)
(** * ClientSends: what the client sends, the hub reads

    HELLO and INTENT on every branch, down to the bytes the transport is handed and up to the message the
    hub's decoder makes of them. *)

From S2P Require Import Prelude ByteIO SerialArith Tables Codec Crypto Frame Estop Raw Blob StateChannel CborItem CborMessage MsgNack MsgIntent MsgWish MsgTrust MsgHello Registry.
From S2P Require Import ClientState ClientParts StateM ClientWorld Client ClientSteps ClientWalk ClientLife ClientCatalog.
#[local] Open Scope Z_scope.

(** A frame of the client in the hub's buffer. *)
Definition received (frame : list byte) (type channel : Z) (payload : list byte) : Prop :=
  let fb := FrameBuffer_from frame in
  fb_header fb = Some (mkFrameHeader type 0 channel 0 (Z.of_nat (length payload))) /\ fb_payload fb = payload.

Lemma framed_received type channel payload :
  in_u 8 type -> in_u 16 channel -> (length payload <= 504)%nat -> received (framed type channel payload) type channel payload.
Proof.
  intros Ht Hc Hl. unfold received, framed, fb_header, fb_payload. set (h := mkFrameHeader _ _ _ _ _).
  assert (Hh : length (FrameHeader_bytes h) = 8%nat) by done.
  assert (Hw : u16 (Z.of_nat (length payload)) = Z.of_nat (length payload)) by (apply wrap_small; unfold in_u; lia).
  assert (Hf : (length (FrameHeader_bytes h ++ payload) <= kFrameBufferCapacity)%nat) by (rewrite length_app; unfold kFrameBufferCapacity; lia).
  rewrite FrameBuffer_from_bytes by done. split.
  - rewrite decodeFrameHeader_bytes; [by unfold h; rewrite Hw|]. unfold h, FrameHeader_ok, in_u in *. cbn. rewrite Hw. lia.
  - unfold FrameBuffer_from. rewrite (proj2 (Nat.leb_le _ _) Hf). cbn [fb_size].
    rewrite wrap_small by (rewrite length_app; unfold in_u; lia). rewrite (proj2 (Z.leb_le _ _)) by (rewrite length_app; unfold kHeaderBytes; lia).
    by rewrite drop_app_length'.
Qed.

Section Sends.
Context {E R : Type} `{Env E} `{IRandom R} `{ICrypto} `{IAllocator}.
Abbreviation W := (World E R) (only parsing).

(** What leaves nothing: no bytes, or more than a frame holds. *)
Definition unsendable (payload : list byte) : bool := blank payload || (504 <? length payload)%nat.

(** Otherwise the frame of a payload leaves as it is, once; the answer is the transport's. *)
Lemma sendFrame_run type channel payload (w : W) : (length payload <= 504)%nat ->
  let '(sent, w') := sendFrame type channel payload w in
  w_trace w' = Did (t_write (framed type channel payload)) sent :: w_trace w
  /\ w_client w' = if sent then (w_client w) <| _lastTxMs := _lastUpdateMs (w_client w) |> else w_client w.
Proof.
  intros Hl. rewrite sendFrame_spec, (proj2 (Nat.ltb_ge _ _)) by done. unfold mbind, StateM_bind, call.
  destruct (answer (t_write _) (w_env w)) as [[] e]; by split.
Qed.

Lemma unsendable_false payload : unsendable payload = false -> blank payload = false /\ (length payload <= 504)%nat.
Proof. unfold unsendable. intros [Hb Hl]%orb_false_iff. split; [done|by apply Nat.ltb_ge in Hl]. Qed.

Lemma send_encoded_run type buf (w : W) :
  let '(sent, w') := send_encoded type buf w in
  if unsendable buf then sent = false /\ w' = w
  else w_trace w' = Did (t_write (framed type 0 buf)) sent :: w_trace w
    /\ w_client w' = if sent then (w_client w) <| _lastTxMs := _lastUpdateMs (w_client w) |> else w_client w.
Proof.
  unfold send_encoded. destruct (unsendable buf) eqn:Hu.
  - unfold unsendable in Hu. destruct (blank buf); [done|]. cbn [orb] in Hu. by rewrite sendFrame_spec, Hu.
  - apply unsendable_false in Hu as [-> Hl]. by apply sendFrame_run.
Qed.

(** ** INTENT *)

Definition intent_sent (c : Client) (m : IntentMsg) : Client :=
  let c := c <| _lastTxMs := _lastUpdateMs c |> in
  let c := if (length (_pending c) <? kMaxPendingIntents)%nat then c <| _pending ::= fun l => l ++ [it_intent_id m] |> else c in
  c <| _nextIntentId := next_id (it_intent_id m) |>.

(** C17. Sending an INTENT, on every branch.  A client that is not LIVE, one whose hub failed the proof of its
    identity, one with no room to track an ordinary intent, and an intent the encoder has no room for (over
    300 bytes, or more fields than an INTENT carries) are refused without a word and without a change;
    otherwise one frame leaves, and only when the transport took it is the id given out: it is then the
    newest of the pending ones (an operation that is exempt goes untracked when there is no room), and the
    counter moves on to the next id.  Of a well-formed intent the bytes are the canonical encoding, and the
    hub reads the frame as this very intent on this very channel. *)
Theorem intent_outcome (w : W) channel values precondition takeover trial exempt :
  let c := w_client w in
  let m := intent_of channel values precondition takeover trial (_nextIntentId c) in
  let room := (length (_pending c) <? kMaxPendingIntents)%nat in
  let payload := encoded 300 (encodeIntent m) in
  let bytes := encode (IMap (intent_fields m)) in
  let '(id, w') := sendIntentImpl channel values precondition takeover trial exempt w in
  (intent_ok m -> payload = if (length bytes <=? 300)%nat then bytes else []) /\
  if negb (bool_decide (_state c = LIVE)) || withheld (_hubAuth c) || negb (room || exempt) || unsendable payload then id = None /\ w' = w
  else exists sent,
    w_trace w' = Did (t_write (framed FrameType.INTENT channel payload)) sent :: w_trace w
    /\ (if sent then id = Some (it_intent_id m) /\ w_client w' = intent_sent c m else id = None /\ w_client w' = c)
    /\ (intent_ok m -> received (framed FrameType.INTENT channel payload) FrameType.INTENT channel payload
                       /\ decodeIntent payload = ok (intent_norm m)).
Proof.
  cbv zeta. unfold sendIntentImpl. rewrite at_get. set (m := intent_of _ _ _ _ _ _) in *.
  assert (Hb : intent_ok m -> encoded 300 (encodeIntent m) =
    if (length (encode (IMap (intent_fields m))) <=? 300)%nat then encode (IMap (intent_fields m)) else []) by (exact (message_encoded m 300)).
  assert (Hr : intent_ok m -> decodeIntent (encode (IMap (intent_fields m))) = ok (intent_norm m)).
  { intros Hok. pose proof (message_roundtrip m [] Hok) as Hr. by rewrite app_nil_r in Hr. }
  set (payload := encoded _ _) in *. clearbody payload.
  destruct (decide (_state (w_client w) = LIVE)) as [Hl|Hl]; [|rewrite bool_decide_true by done; by rewrite bool_decide_false by done].
  rewrite bool_decide_false by (by intros []). rewrite bool_decide_true by done. destruct (withheld _); [done|]. cbv zeta. cbn [negb orb].
  destruct (negb (_ <? _)%nat && negb exempt) eqn:Hroom.
  { rewrite <- negb_orb in Hroom. rewrite Hroom. by cbn [orb]. }
  rewrite <- negb_orb in Hroom. rewrite Hroom. cbn [orb]. clear Hroom. destruct (unsendable payload) eqn:Hu.
  - unfold unsendable in Hu. destruct (blank payload); [done|]. cbn [orb] in Hu. unfold mbind at 1, StateM_bind at 1.
    by rewrite sendFrame_spec, Hu.
  - apply unsendable_false in Hu as [Hbl Hlen]. rewrite Hbl. pose proof (sendFrame_run FrameType.INTENT channel payload w Hlen) as Hs.
    unfold mbind at 1, StateM_bind at 1. destruct (sendFrame _ channel payload w) as [sent w1]. destruct Hs as [Ht Hc].
    assert (Hread : intent_ok m -> received (framed FrameType.INTENT channel payload) FrameType.INTENT channel payload /\ decodeIntent payload = ok (intent_norm m)).
    { intros Hok. split; [apply framed_received; [by vm_compute|by apply Hok|done]|]. rewrite Hb by done.
      specialize (Hb Hok). destruct (_ <=? _)%nat; [by apply Hr|by rewrite Hb in Hbl]. }
    assert (Hsent : forall room, (length (_pending (w_client w)) <? kMaxPendingIntents)%nat = room ->
      intent_sent (w_client w) m = (if room then (w_client w) <| _lastTxMs := _lastUpdateMs (w_client w) |> <| _pending ::= fun l => l ++ [it_intent_id m] |>
        else (w_client w) <| _lastTxMs := _lastUpdateMs (w_client w) |>) <| _nextIntentId := next_id (it_intent_id m) |>).
    { intros room <-. reflexivity. }
    destruct (_ <? _)%nat; specialize (Hsent _ eq_refl); destruct sent; cbn [negb when]; (split; [exact Hb|]); eexists;
      (split; [exact Ht|]); (split; [|exact Hread]); (split; [done|]); try exact Hc; rewrite Hsent; cbn; by rewrite Hc.
Qed.

(** ** HELLO *)

Lemma flushPending_trace (w : W) :
  w_trace (flushPending w).2 = rev (map (fun id => Did (onPendingDropped id) tt) (_pending (w_client w))) ++ w_trace w.
Proof.
  unfold flushPending. rewrite at_gets, run_bind. cbv beta. change (w_trace (modify ?f ?v).2) with (w_trace v).
  generalize (_pending (w_client w)). intros ids. revert w. induction ids as [|id ids IH]; intros w; [done|].
  cbn [each]. rewrite run_bind. cbv beta. rewrite IH. unfold call. destruct (answer _ _) as [[] e]. cbn. by rewrite <- app_assoc.
Qed.

(** What the application is told of the hub's authenticity before HELLO. *)
Definition foretold (c : Client) : list Event :=
  if _sigRequested c then [Did (onHubAuth (if blank (_hubPubkey c) then Unverifiable else Pending)) tt] else [].

Lemma foretold_trace (w : W) : _hubAuth (w_client w) = NotRequested ->
  w_trace (when (_sigRequested (w_client w)) draw_nonce w).2 = foretold (w_client w) ++ w_trace w.
Proof.
  intros Ha. unfold foretold. destruct (_sigRequested _); [|done]. cbn [when]. unfold draw_nonce. rewrite run_bind. cbv beta.
  set (w1 := (draw _ w).2). assert (Hw : w_client w1 = w_client w /\ w_trace w1 = w_trace w) by (unfold w1, draw; by destruct (rng_fill _ _)).
  destruct Hw as [Hc Ht]. clearbody w1. rewrite at_modify. unfold expect_proof. rewrite at_gets. unfold setHubAuth. rewrite at_gets.
  change (_hubAuth (w_client (change _ w1))) with (_hubAuth (w_client w1)). change (_hubPubkey (w_client (change _ w1))) with (_hubPubkey (w_client w1)).
  rewrite Hc, Ha, <- Ht. rewrite bool_decide_false by (by destruct (blank _)). rewrite at_modify. unfold call. by destruct (answer _ _) as [[] e].
Qed.

Lemma flushPending_keeps (w : W) : let w' := (flushPending w).2 in
  foretold (w_client w') = foretold (w_client w) /\ w_rng w' = w_rng w /\ _sigRequested (w_client w') = _sigRequested (w_client w)
  /\ _state (w_client w') = _state (w_client w).
Proof.
  cbv zeta. unfold flushPending. rewrite at_gets, run_bind. cbv beta.
  assert (He : forall ids (v : W), w_client (each (fun id => call (onPendingDropped id)) ids v).2 = w_client v /\ w_rng (each (fun id => call (onPendingDropped id)) ids v).2 = w_rng v).
  { induction ids as [|id ids IH]; intros v; [done|]. cbn [each]. rewrite run_bind. cbv beta.
    destruct (IH (call (onPendingDropped id) v).2) as [Hc Hr].
    split; [exact (eq_trans Hc (call_client (onPendingDropped id) v))|exact (eq_trans Hr (call_rng (onPendingDropped id) v))]. }
  destruct (He (_pending (w_client w)) w) as [Hc Hr]. set (w1 := (each _ _ w).2) in *. clearbody w1.
  unfold foretold. cbn. by rewrite Hc.
Qed.

(** The nonce a signature is asked for under is the generator's next. *)
Lemma drawn_client (w : W) :
  let w' := (when (_sigRequested (w_client w)) draw_nonce w).2 in
  _state (w_client w') = _state (w_client w) /\
  (_sigRequested (w_client w) = true -> _clientNonce (w_client w') = fst (rng_fill kTrustClientNonceBytes (w_rng w))).
Proof.
  cbv zeta. destruct (_sigRequested _); [|done]. cbn [when]. unfold draw_nonce. rewrite run_bind. unfold draw.
  destruct (rng_fill _ _) as [nonce g]. cbn [fst snd]. rewrite at_modify. unfold expect_proof. rewrite at_gets.
  assert (Hk : forall s (v : W), _state (w_client (setHubAuth s v).2) = _state (w_client v) /\ _clientNonce (w_client (setHubAuth s v).2) = _clientNonce (w_client v)).
  { intros s v. unfold setHubAuth, mbind, StateM_bind, gets, modify, call. destruct (bool_decide _); [done|].
    by destruct (answer (onHubAuth s) _) as [[] ?]. }
  match goal with |- context [setHubAuth ?s ?v] => destruct (Hk s v) as [-> ->] end. by split.
Qed.

(** The message of a HELLO, and its bytes. *)
Definition hello_bytes (c : Client) : list byte := encoded 700 (encodeHello (hello_of c)).

(** Of a well-formed message they are the canonical encoding where it fits, and the hub reads it back. *)
Lemma hello_received c : hello_ok (hello_of c) ->
  let bytes := encode (IMap (hello_fields (hello_of c))) in
  hello_bytes c = (if (length bytes <=? 700)%nat then bytes else []) /\
  (unsendable (hello_bytes c) = false ->
   received (framed FrameType.HELLO 0 (hello_bytes c)) FrameType.HELLO 0 (hello_bytes c)
   /\ decodeHello (hello_bytes c) = ok (hello_norm (hello_of c))).
Proof.
  cbv zeta. unfold hello_bytes. set (h := hello_of c). intros Hok.
  assert (Hb : encoded 700 (encodeHello h) = if (length (encode (IMap (hello_fields h))) <=? 700)%nat then encode (IMap (hello_fields h)) else [])
    by exact (message_encoded h 700 Hok).
  split; [exact Hb|]. intros [Hbl Hl]%unsendable_false. split; [by apply framed_received; [by vm_compute|by vm_compute|]|].
  rewrite Hb in Hbl |- *. destruct (_ <=? _)%nat; [|done].
  pose proof (message_roundtrip h [] Hok) as Hr. rewrite app_nil_r in Hr. exact Hr.
Qed.

Lemma send_keeps type buf (w : W) : let w' := (send_encoded type buf w).2 in
  hello_of (w_client w') = hello_of (w_client w) /\ _state (w_client w') = _state (w_client w)
  /\ _clientNonce (w_client w') = _clientNonce (w_client w).
Proof.
  cbv zeta. unfold send_encoded. destruct (blank buf); [done|]. rewrite sendFrame_spec. destruct (_ <? _)%nat; [done|].
  unfold mbind, StateM_bind, call. by destruct (answer (t_write _) _) as [[] e].
Qed.

Lemma send_hello_run (w : W) :
  let '(connected, w') := send_hello w in
  let bytes := hello_bytes (w_client w') in
  _clientNonce (w_client w') = _clientNonce (w_client w) /\
  if unsendable bytes then connected = false /\ w_trace w' = w_trace w /\ _state (w_client w') = _state (w_client w)
  else if connected then
    w_trace w' = Did (onStateChange HELLO_SENT) tt :: Did (t_write (framed FrameType.HELLO 0 bytes)) true :: w_trace w
    /\ _state (w_client w') = HELLO_SENT
  else w_trace w' = Did (t_write (framed FrameType.HELLO 0 bytes)) false :: w_trace w /\ _state (w_client w') = _state (w_client w).
Proof.
  unfold send_hello. rewrite at_gets, run_bind. cbv beta. set (buf := encoded 700 _).
  pose proof (send_encoded_run FrameType.HELLO buf w) as Hs. destruct (send_keeps FrameType.HELLO buf w) as (Hh & Hst & Hn).
  destruct (send_encoded _ _ w) as [sent w2]. cbn [fst snd] in *. destruct sent; cbn [negb].
  - rewrite at_gets, run_bind. cbv beta. set (w3 := (when _ _ w2).2).
    assert (H3 : w_trace w3 = w_trace w2 /\ hello_of (w_client w3) = hello_of (w_client w2) /\ _clientNonce (w_client w3) = _clientNonce (w_client w2))
      by (unfold w3; by destruct (bool_decide _)).
    destruct H3 as (Ht3 & Hh3 & Hn3). clearbody w3. rewrite run_bind. cbv beta.
    destruct (setState_run HELLO_SENT w3) as (Ht4 & Hc4 & _). set (w4 := (setState _ w3).2) in *. clearbody w4.
    change ((mret true : ClientM E R bool) w4) with (true, w4). cbv iota beta zeta. unfold hello_bytes. rewrite Hc4.
    change (hello_of ((w_client w3) <| _state := HELLO_SENT |>)) with (hello_of (w_client w3)). rewrite Hh3, Hh. fold buf.
    split; [change (_clientNonce (w_client w3) = _clientNonce (w_client w)); congruence|].
    destruct (unsendable buf); [by destruct Hs|]. destruct Hs as [Ht _]. split; [by rewrite Ht4, Ht3, Ht|done].
  - change ((mret false : ClientM E R bool) w2) with (false, w2). cbv iota beta zeta. unfold hello_bytes. rewrite Hh. fold buf.
    split; [exact Hn|]. destruct (unsendable buf); [by destruct Hs as [_ ->]|]. by destruct Hs as [-> _].
Qed.

Lemma say_hello_run (w : W) : _hubAuth (w_client w) = NotRequested ->
  let '(connected, w') := say_hello w in
  let bytes := hello_bytes (w_client w') in
  (_sigRequested (w_client w) = true -> _clientNonce (w_client w') = fst (rng_fill kTrustClientNonceBytes (w_rng w))) /\
  let before := foretold (w_client w) ++ w_trace w in
  if unsendable bytes then connected = false /\ w_trace w' = before /\ _state (w_client w') = _state (w_client w)
  else if connected then
    w_trace w' = Did (onStateChange HELLO_SENT) tt :: Did (t_write (framed FrameType.HELLO 0 bytes)) true :: before
    /\ _state (w_client w') = HELLO_SENT
  else w_trace w' = Did (t_write (framed FrameType.HELLO 0 bytes)) false :: before /\ _state (w_client w') = _state (w_client w).
Proof.
  intros Ha. unfold say_hello. rewrite at_gets, run_bind. cbv beta zeta. pose proof (foretold_trace w Ha) as Ht.
  destruct (drawn_client w) as [Hst Hn]. set (w1 := (when _ draw_nonce w).2) in *. clearbody w1.
  pose proof (send_hello_run w1) as Hs. destruct (send_hello w1) as [connected w2]. cbv zeta in *. destruct Hs as [Hc Hs].
  rewrite <- Ht, <- Hst. split; [intros Hr; rewrite Hc; by apply Hn|exact Hs].
Qed.

(** C16. [connect], on every branch: the ids still pending are reported dropped, oldest first, and the transport is
    opened.  If it does not open, that is all.  If it opens and the HELLO has no encoding in 700 bytes, or is
    more than a frame holds, [connect] fails and nothing was written (the transport stays open, the state
    what it was).  Otherwise one HELLO leaves, and only when the transport took it does [connect] succeed, the
    application being told HELLO_SENT last.  The HELLO's bytes, where the client's data are within the
    message's limits, are the canonical encoding where that fits, and the hub's decoder reads in them exactly the
    client's identity, its credential or the proof mode, the etag it holds, its wishes and its trust material -
    and where that asks for a signature, under a nonce that is freshly drawn. *)
Theorem connect_says_hello (w : W) :
  let '(connected, w') := connect w in
  let h := hello_of (w_client w') in
  let bytes := hello_bytes (w_client w') in
  let hello := framed FrameType.HELLO 0 bytes in
  let dropped := rev (map (fun id => Did (onPendingDropped id) tt) (_pending (w_client w))) ++ w_trace w in
  let before := foretold (w_client w) ++ Did t_open true :: dropped in
  (w_trace w' = Did t_open false :: dropped /\ connected = false \/
   (_sigRequested (w_client w) = true -> _clientNonce (w_client w') = fst (rng_fill kTrustClientNonceBytes (w_rng w))) /\
   if unsendable bytes then connected = false /\ w_trace w' = before /\ _state (w_client w') = _state (w_client w)
   else if connected then w_trace w' = Did (onStateChange HELLO_SENT) tt :: Did (t_write hello) true :: before /\ _state (w_client w') = HELLO_SENT
   else w_trace w' = Did (t_write hello) false :: before /\ _state (w_client w') = _state (w_client w)) /\
  (hello_ok h ->
   bytes = (if (length (encode (IMap (hello_fields h))) <=? 700)%nat then encode (IMap (hello_fields h)) else []) /\
   (unsendable bytes = false -> received hello FrameType.HELLO 0 bytes /\ decodeHello bytes = ok (hello_norm h))).
Proof.
  unfold connect. rewrite !run_bind. cbv beta. pose proof (flushPending_trace w) as Hf.
  destruct (flushPending_keeps w) as (Hk & Hr & Hq & Hst). set (w0 := (flushPending w).2) in *. clearbody w0.
  rewrite <- Hk, <- Hf, <- Hr, <- Hq, <- Hst. clear Hf Hk Hr Hq Hst.
  pose proof (call_trace t_open w0) as Ht. pose proof (call_client t_open w0) as Hc. pose proof (call_rng t_open w0) as Hg.
  destruct (call t_open w0) as [opened w1]. cbn [fst snd] in *. destruct opened; cbn [negb].
  2: { split; [by left|]. apply hello_received. }
  rewrite at_modify. set (w2 := change _ w1). pose proof (say_hello_run w2 eq_refl) as Hs. destruct (say_hello w2) as [connected w3].
  cbv zeta in *. split; [right|apply hello_received]. rewrite <- Ht, <- Hg.
  change (foretold (w_client w2)) with (foretold (w_client w1)) in Hs. change (_sigRequested (w_client w2)) with (_sigRequested (w_client w1)) in Hs.
  change (_state (w_client w2)) with (_state (w_client w1)) in Hs. rewrite Hc in Hs. exact Hs.
Qed.
End Sends.
