(* ===== verification/ClientBench.v ===== *)
(** * ClientBench: a client on a bench

    A concrete environment in which whole lives of a client run inside the kernel: the frames of a scripted
    hub go in, the trace comes out.  The witnesses of the theorems about the client are runs of this bench. *)

From Stdlib Require Import String.
From stdpp Require Import gmap fin_sets.
From S2P Require Import Prelude ByteIO Codec Crypto Sha256 Safety Frame Estop Raw Blob MsgNack MsgIntent MsgTrust MsgHello MsgWelcome CborItem CborMessage.
From S2P Require Import StateChannel Registry ClientState ClientParts StateM ClientWorld Client ClientSteps ClientWalk ClientLife ClientCatalog ClientEstop ClientSends.
#[local] Open Scope Z_scope.

(** What the hub has sent and the client has not read, whether writes go through, and what the verifier says. *)
Record Bench := mkBench { b_inbox : list FrameBuffer; b_deaf : bool; b_genuine : bool }.

Definition bench_answer (c : Call) (e : Bench) : Answer c * Bench :=
  match c return Answer c * Bench with
  | t_open => (true, e)
  | t_write _ => (negb (b_deaf e), e)
  | t_read =>
      match b_inbox e with
      | [] => (None, e)
      | fb :: l => (Some fb, mkBench l (b_deaf e) (b_genuine e))
      end
  | nowUs => (0, e)
  | verifyP256 _ _ _ => (b_genuine e, e)
  | t_close | onStateChange _ | onState _ _ _ | onEcho _ _ _ | onNack _ | onEvent _ _ | onPendingDropped _ | onPairGrant _ _
  | onHubAuth _ | onHubPublicKey _ | onRolesChanged _ | onCatalog _ _ => (tt, e)
  end.

#[export] Instance Bench_env : Env Bench := bench_answer.

Definition frame_of (type ch sq : Z) (payload : list byte) : FrameBuffer :=
  FrameBuffer_from (FrameHeader_bytes (mkFrameHeader type 0 ch sq (Z.of_nat (length payload))) ++ payload).

Definition bench_id : ClientIdentity :=
  mkClientIdentity (replicate instance_id_bytes (z2b 7)) (replicate token_bytes (z2b 9)) true (list_byte_of_string "remote") (list_byte_of_string "bench").

Definition bench_etag : list byte := map (fun i => z2b (Z.of_nat i)) (seq 1 etag_bytes).

Definition bench_welcome (etag : list byte) (retained : Z) (sig : option (list byte)) : WelcomeMsg :=
  {| wm_proto_ver := kProtocolVersion; wm_session_id := 5; wm_boot_id := 77; wm_catalog_etag := etag; wm_cfg_gen := 3;
     wm_limits_info := {| wl_max_frame := 512; wl_max_subscriptions := 64; wl_retained_pending := retained;
       wl_max_subscriptions_per_frame := 16; wl_max_sessions := 8; wl_sessions_in_use := 1; wl_osc_max_hz := 0 |};
     wm_roles := AccessLevel.control; wm_deadman_ms := 600; wm_deadman_policy := 0; wm_nonce := replicate 8 (z2b 3);
     wm_grants := [mkGrant 0x300 0x42480000 1]; wm_granted_publishes := []; wm_identity := None; wm_ws_port := 0; wm_ipv4 := 0;
     wm_trust_map := option_map (fun s => set_tm_welcome_sig (Some s) TrustMap_new) sig |}.

Definition welcome_frame (m : WelcomeMsg) : FrameBuffer := frame_of FrameType.WELCOME 0 1 (encoded 450 (encodeWelcome m)).

Definition bench (l : list FrameBuffer) (genuine : bool) : Bench := mkBench l false genuine.

Abbreviation bench_life := (life (E := Bench) (R := XorShift32) bench_id) (only parsing).

(** A pinned hub that proves itself in its WELCOME, a client that knows its catalog, and an intent. *)
Definition pinned_calls : list ApiCall :=
  [api_setCachedEtag bench_etag; api_setHubPublicKey (replicate 33 (z2b 2)); api_requestHubSignature true; api_connect;
   api_update 4 50000; api_sendIntent 0x300 [(1, VU64 42)] None false false].

Definition pinned_bench : Bench := bench [welcome_frame (bench_welcome bench_etag 0 (Some (replicate 70 (z2b 1))))] true.

Abbreviation pinned_run := (bench_life pinned_calls pinned_bench (XorShift32_new 1)) (only parsing).


(** The [n]-th entry from the end of a trace cuts it. *)
Lemma trace_cut (t : list Event) n e : nth_error t n = Some e -> t = take n t ++ e :: drop (S n) t.
Proof.
  revert n. induction t as [|e' t IH]; intros [|n] Hn; try discriminate Hn; [by injection Hn as ->|]. change (e' :: t = e' :: (take n t ++ e :: drop (S n) t)). f_equal. by apply IH.
Qed.

Definition pinned_intent : list byte :=
  match w_trace pinned_run with Did (t_write frame) _ :: _ => frame | _ => [] end.

(** The intent of the run left in LIVE, after the verdict. *)
Lemma intents_only_when_live_and_genuine_witness :
  is_intent pinned_intent = true /\ state_told (drop 1 (w_trace pinned_run)) = LIVE /\ withheld (auth_told (drop 1 (w_trace pinned_run))) = false.
Proof.
  assert (Hi : is_intent pinned_intent = true) by (vm_compute; reflexivity). split; [exact Hi|].
  refine (intents_only_when_live_and_genuine (E := Bench) (R := XorShift32) bench_id pinned_calls _ _ [] pinned_intent true _ _ Hi).
  refine (trace_cut _ 0 _ _). vm_compute. reflexivity.
Defined.


(** ** Two ways to a verdict that the hub did not earn *)

Definition key_of (n : Z) : list byte := replicate 33 (z2b n).
Definition sig_of (n : Z) : list byte := replicate 70 (z2b n).

(** Asked for in mid-session - where the header says that it takes effect at the next [connect] - a signature is
    adopted at once, over the nonce of an earlier session; here, of none. *)
Example late_request_verifies_a_stale_nonce :
  let w := bench_life [api_setCachedEtag bench_etag; api_setHubPublicKey (key_of 2); api_connect; api_requestHubSignature true; api_update 4 50000]
             (bench [welcome_frame (bench_welcome bench_etag 0 (Some (sig_of 1)))] true) (XorShift32_new 1) in
  auth_told (w_trace w) = Verified /\
  In (Did (verifyP256 (key_of 2) (hubSigMaterial (replicate kTrustClientNonceBytes Byte.x00) 5 77) (sig_of 1)) true) (w_trace w).
Proof. vm_compute. split; [reflexivity|]. do 7 (first [by left|right]). Qed.

(** A grant that nobody asked for pins its key, and the hub that sent it proves itself under that. *)
Definition unasked_grant : FrameBuffer :=
  frame_of FrameType.PAIR_GRANT 0 2 (encoded 256 (encodePairGrant
    (mkPairGrantMsg (replicate token_bytes (z2b 8)) AccessLevel.control (Some (set_tm_hub_pubkey (Some (key_of 3)) TrustMap_new))))).
Definition own_sig : FrameBuffer :=
  frame_of FrameType.HUB_SIG 0 3 (encoded 256 (encodeHubSig (mkTrustEnvelopeMsg (set_tm_welcome_sig (Some (sig_of 4)) TrustMap_new)))).

Example unasked_grant_repins_the_key :
  let w := bench_life (take 5 pinned_calls)
             (bench [welcome_frame (bench_welcome bench_etag 0 None); unasked_grant; own_sig] true) (XorShift32_new 1) in
  auth_told (w_trace w) = Verified /\
  existsb (fun e => match e with Did (verifyP256 key _ sig) true => bool_decide (key = key_of 3) && bool_decide (sig = sig_of 4) | _ => false end)
    (w_trace w) = true.
Proof. vm_compute. by split. Qed.

(** ** A catalog of two chunks *)

Definition bench_catalog : list byte := map (fun i => z2b (Z.of_nat i mod 251)) (seq 0 300).

(** A client that knows another catalog has said HELLO and been welcomed: it waits for the hub's. *)
Abbreviation awaiting :=
  (bench_life [api_setCachedEtag bench_etag; api_connect; api_update 4 50000]
    (bench [welcome_frame (bench_welcome (etag_of bench_catalog) 0 None)] true) (XorShift32_new 1)) (only parsing).

(** Chunk 1 comes twice and late, with another blob's frame between. *)
Definition bench_arrivals : list (BlobEvent * Z) := [(Chunk 1, 60); (Other [Byte.x00], 61); (Chunk 1, 70); (Chunk 0, 80); (Chunk 0, 90)].

Lemma bench_affordable : affordable bench_catalog.
Proof.
  assert (Hl : length bench_catalog = 300%nat) by (vm_compute; reflexivity). unfold affordable, blob_fits. rewrite Hl.
  split_and!; [by vm_compute; split_and!|lia|done..| |by eexists].
  unfold kMaxTotalBytes. cbn [cst_max catalog_storage Allocated_storage]. unfold kCatalogChunks, catalog_chunk_payload. lia.
Qed.

Lemma bench_waiting : waiting bench_catalog ∅ (view_catalog (w_client awaiting)).
Proof. split; try (vm_compute; reflexivity); [by vm_compute|left; split; [vm_compute; reflexivity|done]]. Qed.

Lemma catalog_reaches_the_client_witness :
  let w' := foldl (arrive bench_catalog) awaiting bench_arrivals in
  _state (w_client w') = LIVE /\ handed (w_trace w') = (bench_catalog, true) :: handed (w_trace awaiting).
Proof.
  assert (Hok : Forall (arrival_ok bench_catalog) bench_arrivals) by (repeat constructor; vm_compute; lia).
  pose proof (catalog_reaches_the_client bench_catalog bench_arrivals awaiting bench_affordable bench_waiting Hok) as Ht.
  cbv zeta in *. destruct (decide _) as [_|Hn]; [destruct Ht as (Hs & _ & _ & _ & Hh); split; [exact Hs|exact Hh]|].
  exfalso. apply Hn. assert (Hc : chunkCount (length bench_catalog) = 2%nat) by (vm_compute; reflexivity). rewrite Hc.
  unfold chunks_of. cbn. set_solver.
Defined.

(** ** An ESTOP nobody latches *)

(** A client of no hub, 10 ms old, that has just pressed ESTOP. *)
Abbreviation pressed := (bench_life [api_update 0 10000; api_initiateEstop 4] (bench [] true) (XorShift32_new 1)) (only parsing).

Definition bench_ticks : list Z := map (fun i => 10 + 50 * Z.of_nat i) (seq 1 24).

Lemma estop_repeats_then_fails_witness :
  let w' := foldl tick_estop pressed bench_ticks in
  length (written (w_trace w')) = Z.to_nat limits.estop_repeat_max /\ _estopSendFailed (w_client w') = true.
Proof.
  assert (Ha : _estopActive (w_client pressed) = true) by (vm_compute; reflexivity).
  assert (Hf : _estopSendFailed (w_client pressed) = false) by (vm_compute; reflexivity).
  assert (Hn : 0 <= _estopAttempts (w_client pressed) <= limits.estop_repeat_max) by (vm_compute; split; discriminate).
  assert (Hs : spaced (_lastEstopSendMs (w_client pressed))
    (take (Z.to_nat (limits.estop_repeat_max - _estopAttempts (w_client pressed))) bench_ticks)) by (vm_compute; tauto).
  destruct (estop_repeats_then_fails pressed bench_ticks Ha Hf Hn Hs) as (Hw & _ & Hr). split; [|exact Hr].
  rewrite Hw. vm_compute. reflexivity.
Defined.

(** The hub's snapshot: latched, of the client's number. *)
Definition latched_payload (seq : Z) : list byte := [Byte.x01] ++ replicate 5 Byte.x00 ++ le_bytes 2 seq.

Lemma latched_snapshot_ends_the_repeat_witness :
  let w' := (note_latch channels.safety (latched_payload 1) pressed).2 in
  _estopActive (w_client w') = false /\ _estopSendFailed (w_client w') = false.
Proof.
  assert (Ha : _estopActive (w_client pressed) = true) by (vm_compute; reflexivity).
  assert (Hl : (8 <= length (latched_payload 1))%nat) by (vm_compute; lia).
  pose proof (latched_snapshot_ends_the_repeat pressed (latched_payload 1) Ha Hl) as Ht. cbv zeta in *.
  assert (Hk : acknowledges (latched_payload 1) (_estopSentSeq (w_client pressed)) = true) by (vm_compute; reflexivity).
  rewrite Hk in Ht. exact Ht.
Defined.

(** ** HELLO and INTENT on the bench *)

Lemma let_pair {A B} (p : A * B) (P : A -> B -> Prop) : (let '(a, b) := p in P a b) -> P p.1 p.2.
Proof. by destruct p. Qed.

Definition bench_hello : HelloMsg :=
  {| hl_proto_ver := kProtocolVersion; hl_client_kind := ci_client_kind bench_id; hl_client_name := ci_client_name bench_id;
     hl_instance_id := ci_instance_id bench_id; hl_token := Some (ci_token bench_id); hl_catalog_etag := None;
     hl_subscriptions := [catalog_wish]; hl_publishes := [];
     hl_trust_map := Some (set_tm_sig_request (Some true) (set_tm_client_nonce
       (Some (map z2b [33; 1; 197; 79; 209; 208; 26; 178])) TrustMap_new)); hl_deadman_wish_ms := 0 |}.

Lemma bench_hello_ok : hello_ok bench_hello.
Proof.
  unfold hello_ok. cbn. split_and!; try done; try (apply Nat.leb_le; reflexivity); repeat constructor; try done.
Qed.

Lemma connect_says_hello_witness :
  let w := bench_life [api_setHubPublicKey (replicate 33 (z2b 2)); api_requestHubSignature true] (bench [] true) (XorShift32_new 1) in
  let w' := (connect w).2 in
  let bytes := hello_bytes (w_client w') in
  w_trace w' = [Did (onStateChange HELLO_SENT) tt; Did (t_write (framed FrameType.HELLO 0 bytes)) true; Did (onHubAuth Pending) tt;
                Did t_open true; Did nowUs 0] /\
  received (framed FrameType.HELLO 0 bytes) FrameType.HELLO 0 bytes /\ decodeHello bytes = ok (hello_norm (hello_of (w_client w'))).
Proof.
  cbv zeta. set (w := life _ _ _ _). pose proof (connect_says_hello w) as Hs. rewrite (surjective_pairing (connect w)) in Hs. cbv zeta in Hs.
  assert (Hok : hello_ok (hello_of (w_client (connect w).2))) by (replace (hello_of _) with bench_hello by (vm_compute; reflexivity); exact bench_hello_ok).
  assert (Hu : unsendable (hello_bytes (w_client (connect w).2)) = false) by (vm_compute; reflexivity). rewrite Hu in Hs.
  assert (Hb : (connect w).1 = true) by (vm_compute; reflexivity). rewrite Hb in Hs. destruct Hs as [[[_ Hf]|(_ & Ht & _)] Hr]; [discriminate Hf|].
  split; [rewrite Ht; vm_compute; reflexivity|]. exact (proj2 (Hr Hok) eq_refl).
Defined.

(** A client with a name that no HELLO has room for: the transport is opened, and nothing is written. *)
Example unspeakable_name :
  let id := mkClientIdentity (ci_instance_id bench_id) (ci_token bench_id) true (ci_client_kind bench_id) (replicate 600 (z2b 65)) in
  let '(connected, w') := connect (life (E := Bench) (R := XorShift32) id [] (bench [] true) (XorShift32_new 1)) in
  connected = false /\ _state (w_client w') = CLOSED /\ w_trace w' = [Did t_open true; Did nowUs 0].
Proof. vm_compute. by split_and!. Qed.

Lemma bench_intent_ok : intent_ok (intent_of 0x300 [(1, VU64 42)] None false false 1).
Proof.
  unfold intent_ok, value_map_ok, in_u. cbn [it_channel_id it_intent_id it_value it_precondition intent_of]. split_and!; try lia; try done.
  repeat constructor; cbn; unfold in_u; lia.
Qed.

Lemma intent_outcome_witness :
  let w := bench_life (take 5 pinned_calls) pinned_bench (XorShift32_new 1) in
  let w' := (sendIntentImpl 0x300 [(1, VU64 42)] None false false false w).2 in
  exists payload, w_trace w' = Did (t_write (framed FrameType.INTENT 0x300 payload)) true :: w_trace w
    /\ received (framed FrameType.INTENT 0x300 payload) FrameType.INTENT 0x300 payload
    /\ decodeIntent payload = ok (intent_of 0x300 [(1, VU64 42)] None false false 1).
Proof.
  cbv zeta. set (w := life _ _ _ _). pose proof (intent_outcome w 0x300 [(1, VU64 42)] None false false false) as Hs. cbv zeta in Hs.
  assert (Hid : _nextIntentId (w_client w) = 1) by (vm_compute; reflexivity). rewrite Hid in Hs. apply let_pair in Hs. destruct Hs as [_ Hs].
  match type of Hs with context [unsendable ?p] => set (payload := p) in * end.
  assert (Hgo : negb (bool_decide (_state (w_client w) = LIVE)) || withheld (_hubAuth (w_client w))
    || negb ((length (_pending (w_client w)) <? kMaxPendingIntents)%nat || false) || unsendable payload = false) by (vm_compute; reflexivity).
  rewrite Hgo in Hs.
  assert (Hsent : (sendIntentImpl 0x300 [(1, VU64 42)] None false false false w).1 = Some 1) by (vm_compute; reflexivity).
  destruct Hs as (sent & Ht & Hc & Hr). exists payload. destruct (Hr bench_intent_ok) as [Hrec Hd].
  destruct sent; [exact (conj Ht (conj Hrec Hd))|]. destruct Hc as [Hc _]. rewrite Hsent in Hc. discriminate Hc.
Defined.

(** ** A stray snapshot before WELCOME *)

(** The first chunk of a catalog larger than any client has room for. *)
Definition oversized_chunk : FrameBuffer :=
  frame_of FrameType.BLOB_CHUNK 0 2 (BlobChunkHeader_bytes (mkBlobChunkHeader (canonical_id BlobId_default) 0 5463 (5463 * 192)) ++ replicate 192 Byte.x00).

Definition refused_run (stray : list FrameBuffer) : World Bench XorShift32 :=
  bench_life [api_setCachedEtag bench_etag; api_connect; api_update 8 50000]
    (bench (stray ++ [welcome_frame (bench_welcome (etag_of bench_catalog) 0 None); oversized_chunk]) true) (XorShift32_new 1).

Definition types_written (t : list Event) : list Z :=
  omap (fun frame => option_map fh_type (decodeFrameHeader frame)) (written t).

(** A first transfer the client cannot hold ends with GOODBYE and CLOSED; after a snapshot of the catalog channel that
    came before WELCOME, the same transfer is refused as a refetch would be, and the session stays in SYNCING. *)
Example stray_snapshot_hides_the_refusal :
  (let w := refused_run [] in _state (w_client w) = CLOSED /\ hd_error (types_written (w_trace w)) = Some FrameType.GOODBYE)
  /\ (let w := refused_run [frame_of FrameType.STATE channels.catalog 1 (replicate 16 Byte.x55)] in
      _state (w_client w) = SYNCING /\ ~ In FrameType.GOODBYE (types_written (w_trace w))).
Proof. vm_compute. split; [by split|]. split; [done|]. intuition discriminate. Qed.
