(* ===== verification/SavedNetworks.v ===== *)
(** * SavedNetworks: the networks a station has credentials for (net/saved_networks.hpp)

    A contiguous list in the user's order over a fixed array of entries, the edits the provisioning operations
    make, and the form it is persisted in.  [SavedNetworks] keeps the array as the code does: the entries past
    [sn_count] are wiped ones. *)

From Stdlib Require Import String.
From stdpp Require Import sorting.
From S2P Require Import Prelude ByteIO Tables.
#[local] Open Scope Z_scope.

Definition saved_networks_max : nat := 4.
Definition kSsidMax : nat := 32.
Definition kPassMin : nat := 8.
Definition kPassMax : nat := 63.
Definition kPskHexLen : nat := 64.
Definition kCapacity : nat := saved_networks_max.
Definition kEntryBytes : nat := 2 + kSsidMax + kPskHexLen.
Definition kBlobBytes : nat := 4 + kCapacity * kEntryBytes.
Definition kVersion : Z := 1.

(** ** Credentials *)

Definition in_chars (lo hi : Z) (c : byte) : bool := (lo <=? b2z c) && (b2z c <=? hi).

Definition is_hex (c : byte) : bool := in_chars 48 57 c || in_chars 97 102 c || in_chars 65 70 c.

Definition printable (c : byte) : bool := negb ((b2z c <? 0x20) || (0x7E <? b2z c)).

(** [None] is acceptable, else the detail of the refusal. *)
Definition checkCredentials (ssid pass : list byte) : option string :=
  if blank ssid || (kSsidMax <? length ssid)%nat then Some "ssid length"%string
  else if existsb (byte_eqb Byte.x00) ssid then Some "ssid"%string
  else if blank pass then None
  else if (length pass =? kPskHexLen)%nat then if forallb is_hex pass then None else Some "passphrase"%string
  else if (length pass <? kPassMin)%nat || (kPassMax <? length pass)%nat then Some "passphrase length"%string
  else if forallb printable pass then None else Some "passphrase"%string.

(** ** The list *)

Record Entry := mkEntry { en_ssid : list byte; en_pass : list byte; en_ssidLen : Z; en_passLen : Z; en_id : Z }.

(** A wiped entry, which is also a fresh one. *)
Definition Entry_new : Entry := mkEntry (replicate kSsidMax Byte.x00) (replicate kPskHexLen Byte.x00) 0 0 0.

Definition ssidView (e : Entry) : list byte := take (Z.to_nat (en_ssidLen e)) (en_ssid e).
Definition passView (e : Entry) : list byte := take (Z.to_nat (en_passLen e)) (en_pass e).

Record SavedNetworks := mkSavedNetworks { sn_e : list Entry; sn_count : nat; sn_lastId : Z }.

Definition SavedNetworks_new : SavedNetworks := mkSavedNetworks (replicate kCapacity Entry_new) 0 0.

Definition entry_at (l : list Entry) (i : nat) : Entry := default Entry_new (l !! i).

Definition used (n : SavedNetworks) : list Entry := take (sn_count n) (sn_e n).

Definition ssid (n : SavedNetworks) (i : nat) : list byte := if (i <? sn_count n)%nat then ssidView (entry_at (sn_e n) i) else [].
Definition passphrase (n : SavedNetworks) (i : nat) : list byte := if (i <? sn_count n)%nat then passView (entry_at (sn_e n) i) else [].
Definition open (n : SavedNetworks) (i : nat) : bool := (i <? sn_count n)%nat && (en_passLen (entry_at (sn_e n) i) =? 0).
Definition id (n : SavedNetworks) (i : nat) : Z := if (i <? sn_count n)%nat then en_id (entry_at (sn_e n) i) else 0.

Definition find (n : SavedNetworks) (s : list byte) : option nat := first_index (fun e => bool_decide (ssidView e = s)) (used n).

Definition findId (n : SavedNetworks) (i : Z) : option nat :=
  if i =? 0 then None else first_index (fun e => en_id e =? i) (used n).

(** The entry [save] would overwrite. *)
Definition saveTarget (n : SavedNetworks) (slot : option nat) (s : list byte) : option nat :=
  match slot with
  | Some i => if (i <? sn_count n)%nat then slot else None
  | None => find n s
  end.

(** The entry a join overwrites: on a full list the last one that is not live. *)
Definition joinTarget (n : SavedNetworks) (slot : option nat) (s : list byte) (live : option nat) : option nat :=
  match slot, find n s with
  | None, None =>
      if (sn_count n <? kCapacity)%nat then None
      else if bool_decide (live = Some (sn_count n - 1)%nat) then Some (sn_count n - 2)%nat else Some (sn_count n - 1)%nat
  | _, _ => saveTarget n slot s
  end.

(** Ids go round the byte, past 0 and past those in use; [fuel] turns are allowed. *)
Fixpoint next_id_loop (fuel : nat) (ids : list Z) (last : Z) : option Z :=
  match fuel with
  | O => None
  | S fuel =>
      let last := u8 (last + 1) in
      if (last =? 0) || existsb (Z.eqb last) ids then next_id_loop fuel ids last else Some last
  end.

Definition nextId (n : SavedNetworks) : SavedNetworks * Z :=
  let i := default 0 (next_id_loop 256 (map en_id (used n)) (sn_lastId n)) in (mkSavedNetworks (sn_e n) (sn_count n) i, i).

Inductive Error := full | no_such_slot | credentials | duplicate.

Record Saved := mkSaved { sv_slot : nat; sv_replaced : bool }.

(** The entry's characters and lengths are stored before its id is drawn. *)
Definition store_entry (n : SavedNetworks) (i : nat) (s pass : list byte) : SavedNetworks * Saved :=
  let replaced := (i <? sn_count n)%nat in
  let e := mkEntry (splice 0 s (en_ssid Entry_new)) (splice 0 pass (en_pass Entry_new))
             (u8 (Z.of_nat (length s))) (u8 (Z.of_nat (length pass))) 0 in
  let '(n, i') := nextId (mkSavedNetworks (<[i := e]> (sn_e n)) (sn_count n) (sn_lastId n)) in
  let e := mkEntry (en_ssid e) (en_pass e) (en_ssidLen e) (en_passLen e) i' in
  (mkSavedNetworks (<[i := e]> (sn_e n)) (if replaced then sn_count n else S (sn_count n)) (sn_lastId n), mkSaved i replaced).

Definition save (n : SavedNetworks) (slot : option nat) (s pass : list byte) : SavedNetworks * (Saved + Error) :=
  let write i :=
    if (kCapacity <=? i)%nat then (n, inr full)
    else let '(n, r) := store_entry n i s pass in (n, inl r) in
  match checkCredentials s pass with
  | Some _ => (n, inr credentials)
  | None =>
      match slot with
      | Some i =>
          if (sn_count n <=? i)%nat then (n, inr no_such_slot)
          else
            match find n s with
            | Some j => if (j =? i)%nat then write i else (n, inr duplicate)
            | None => write i
            end
      | None => write (default (sn_count n) (find n s))
      end
  end.

Definition remove (n : SavedNetworks) (slot : nat) : SavedNetworks * bool :=
  if (sn_count n <=? slot)%nat || (kCapacity <? sn_count n)%nat then (n, false)
  else
    let l := foldl (fun l i => <[i := entry_at l (S i)]> l) (sn_e n) (seq slot (sn_count n - 1 - slot)) in
    let count := (sn_count n - 1)%nat in
    (mkSavedNetworks (<[count := Entry_new]> l) count (sn_lastId n), true).

Definition move (n : SavedNetworks) (from to : nat) : SavedNetworks * bool :=
  if (sn_count n <=? from)%nat || (sn_count n <=? to)%nat then (n, false)
  else if (from =? to)%nat then (n, true)
  else
    let moving := entry_at (sn_e n) from in
    let l :=
      if (from <? to)%nat then foldl (fun l i => <[i := entry_at l (S i)]> l) (sn_e n) (seq from (to - from))
      else foldl (fun l i => <[i := entry_at l (i - 1)]> l) (sn_e n) (rev (seq (S to) (from - to))) in
    (mkSavedNetworks (<[to := moving]> l) (sn_count n) (sn_lastId n), true).

Definition clear (n : SavedNetworks) : SavedNetworks := mkSavedNetworks (replicate kCapacity Entry_new) 0 (sn_lastId n).

(** ** The persisted form *)

Definition put_entry (i : nat) (e : Entry) (out : list byte) : list byte :=
  let p := (4 + i * kEntryBytes)%nat in
  let out := splice p [z2b (en_ssidLen e); z2b (en_passLen e)] out in
  let out := splice (p + 2) (ssidView e) out in
  splice (p + 2 + kSsidMax) (passView e) out.

Definition encode (n : SavedNetworks) (out : list byte) : list byte * nat :=
  if (length out <? kBlobBytes)%nat then (out, 0%nat)
  else
    let out := splice 0 (replicate kBlobBytes Byte.x00) out in
    let out := splice 0 [z2b 86; z2b 78; z2b kVersion; z2b (Z.of_nat (sn_count n))] out in
    (foldl (fun out i => put_entry i (entry_at (sn_e n) i) out) out (seq 0 (sn_count n)), kBlobBytes).

(** [None]: the entry is not one [save] takes. *)
Definition get_entry (inp : list byte) (i : nat) (n : SavedNetworks) : option SavedNetworks :=
  let p := drop (4 + i * kEntryBytes) inp in
  let ssidLen := getU8 p in
  let passLen := getU8 (drop 1 p) in
  if (Z.of_nat kSsidMax <? ssidLen) || (Z.of_nat kPskHexLen <? passLen) then None
  else
    match save n None (subspan 2 (Z.to_nat ssidLen) p) (subspan (2 + kSsidMax) (Z.to_nat passLen) p) with
    | (n, inl _) => Some n
    | (_, inr _) => None
    end.

Fixpoint get_entries (inp : list byte) (slots : list nat) (n : SavedNetworks) : SavedNetworks * bool :=
  match slots with
  | [] => (n, true)
  | i :: slots =>
      match get_entry inp i n with
      | Some n => get_entries inp slots n
      | None => (clear n, false)
      end
  end.

Definition decode (n : SavedNetworks) (inp : list byte) : SavedNetworks * bool :=
  let n := clear n in
  if negb (length inp =? kBlobBytes)%nat || negb (getU8 inp =? 86) || negb (getU8 (drop 1 inp) =? 78)
     || negb (getU8 (drop 2 inp) =? kVersion) || (Z.of_nat kCapacity <? getU8 (drop 3 inp)) then (n, false)
  else get_entries inp (seq 0 (Z.to_nat (getU8 (drop 3 inp)))) n.

(** ** The array as a list *)

#[local] Arguments kCapacity : simpl never.
#[local] Arguments kSsidMax : simpl never.
#[local] Arguments kPskHexLen : simpl never.

Definition stored (s pass : list byte) (i : Z) : Entry :=
  mkEntry (splice 0 s (replicate kSsidMax Byte.x00)) (splice 0 pass (replicate kPskHexLen Byte.x00))
    (u8 (Z.of_nat (length s))) (u8 (Z.of_nat (length pass))) i.

Definition of_list (l : list Entry) (last : Z) : SavedNetworks :=
  mkSavedNetworks (l ++ replicate (kCapacity - length l) Entry_new) (length l) last.

Lemma used_of_list l last : used (of_list l last) = l.
Proof. unfold used, of_list. cbn. apply take_app_length. Qed.

Lemma entry_at_of_list l last i : (i < length l)%nat -> entry_at (sn_e (of_list l last)) i = entry_at l i.
Proof. intros Hi. unfold entry_at, of_list. cbn. by rewrite lookup_app_l. Qed.

Lemma find_of_list l last s : find (of_list l last) s = first_index (fun e => bool_decide (ssidView e = s)) l.
Proof. unfold find. by rewrite used_of_list. Qed.

Lemma insert_of_list l last i e : (i < length l)%nat ->
  mkSavedNetworks (<[i := e]> (sn_e (of_list l last))) (length l) last = of_list (<[i := e]> l) last.
Proof. intros Hi. unfold of_list. cbn. by rewrite insert_app_l, length_insert by done. Qed.

Lemma append_of_list l last e : (length l < kCapacity)%nat ->
  mkSavedNetworks (<[length l := e]> (sn_e (of_list l last))) (S (length l)) last = of_list (l ++ [e]) last.
Proof.
  intros Hl. unfold of_list. cbn [sn_e]. rewrite insert_app_r_alt, Nat.sub_diag by done. rewrite length_app. cbn [length].
  replace (kCapacity - length l)%nat with (S (kCapacity - (length l + 1))) by lia. rewrite Nat.add_1_r. cbn [replicate].
  by rewrite <- app_assoc.
Qed.

(** *** The loops that shift *)

Lemma shift_down k : forall l slot, (slot + k < length l)%nat ->
  foldl (fun l i => <[i := entry_at l (S i)]> l) l (seq slot k)
  = take slot l ++ take k (drop (S slot) l) ++ drop (slot + k) l.
Proof.
  induction k as [|k IH]; intros l slot Hk; cbn [seq foldl].
  - rewrite take_0, Nat.add_0_r. cbn. by rewrite take_drop.
  - destruct (lookup_lt_is_Some_2 l (S slot) ltac:(lia)) as [x Hx]. unfold entry_at at 2. rewrite Hx. cbn [default Datatypes.id].
    rewrite IH by (rewrite length_insert; lia). rewrite !drop_insert_lt by lia.
    rewrite (take_S_r _ _ x) by (rewrite list_lookup_insert_eq; [done|lia]). rewrite take_insert_ge by lia.
    rewrite <- app_assoc. f_equal. rewrite (drop_S l x (S slot)) by done. cbn. do 2 f_equal. f_equal. lia.
Qed.

Lemma remove_of_list l last i : (length l <= kCapacity)%nat ->
  remove (of_list l last) i = if (i <? length l)%nat then (of_list (delete i l) last, true) else (of_list l last, false).
Proof.
  intros Hc. unfold remove. cbn [sn_count of_list].
  rewrite (proj2 (Nat.ltb_ge kCapacity _)) by done. rewrite orb_false_r.
  destruct (Nat.ltb_spec i (length l)) as [Hi|Hi]; [|by rewrite (proj2 (Nat.leb_le _ _))].
  rewrite (proj2 (Nat.leb_gt _ _)) by done. f_equal. unfold of_list. cbn [sn_e sn_lastId].
  set (rest := replicate (kCapacity - length l) Entry_new). rewrite shift_down by (rewrite length_app; lia).
  rewrite take_app_le by lia. replace (i + (length l - 1 - i))%nat with (length l - 1)%nat by lia. rewrite !drop_app_le by lia.
  rewrite take_app_le by (rewrite length_drop; lia). rewrite (take_ge (drop (S i) l)) by (rewrite length_drop; lia).
  rewrite length_delete by (by apply lookup_lt_is_Some_2). f_equal.
  destruct (lookup_lt_is_Some_2 l (length l - 1) ltac:(lia)) as [x Hx].
  rewrite (drop_S l x (length l - 1)) by done. rewrite (drop_ge l (S (length l - 1))) by lia. rewrite app_assoc. rewrite insert_app_r_alt by (rewrite length_app, length_take, length_drop; lia).
  rewrite length_app, length_take, length_drop. replace (length l - 1 - _)%nat with 0%nat by lia. cbn.
  rewrite delete_take_drop. f_equal. unfold rest. by replace (kCapacity - (length l - 1))%nat with (S (kCapacity - length l)) by lia.
Qed.

(** The entry at [from] taken out and put back in at [to]. *)
Definition move_at {A} (from to : nat) (l : list A) : list A :=
  match l !! from with
  | Some x => take to (delete from l) ++ x :: drop to (delete from l)
  | None => l
  end.

Lemma shift_up k : forall l to, (to + k < length l)%nat ->
  foldl (fun l i => <[i := entry_at l (i - 1)]> l) l (rev (seq (S to) k))
  = take (S to) l ++ take k (drop to l) ++ drop (S to + k) l.
Proof.
  induction k as [|k IH]; intros l to Hk; [cbn [seq rev foldl]; by rewrite take_0, Nat.add_0_r; cbn; rewrite take_drop|].
  rewrite seq_S, rev_unit. cbn [foldl]. replace (S to + k - 1)%nat with (to + k)%nat by lia.
  destruct (lookup_lt_is_Some_2 l (to + k) ltac:(lia)) as [x Hx]. unfold entry_at at 2. rewrite Hx. cbn [default Datatypes.id].
  rewrite IH by (rewrite length_insert; lia). rewrite take_insert_ge by lia. f_equal.
  rewrite drop_insert_ge by lia. rewrite take_insert_ge by lia. rewrite (drop_insert_ge l (S to + k)) by lia. rewrite Nat.sub_diag.
  rewrite (take_S_r (drop to l) k x) by (by rewrite lookup_drop). rewrite <- app_assoc. f_equal.
  destruct (lookup_lt_is_Some_2 l (S to + k) ltac:(lia)) as [y Hy]. rewrite (drop_S l y) by done. cbn. do 2 f_equal. lia.
Qed.

Lemma move_of_list l last i j :
  move (of_list l last) i j
  = if (i <? length l)%nat && (j <? length l)%nat then (of_list (move_at i j l) last, true) else (of_list l last, false).
Proof.
  unfold move. cbn [sn_count of_list sn_e sn_lastId].
  destruct (Nat.ltb_spec i (length l)) as [Hi|Hi]; [|by rewrite (proj2 (Nat.leb_le _ _))].
  destruct (Nat.ltb_spec j (length l)) as [Hj|Hj]; [|by rewrite (proj2 (Nat.leb_le (length l) j)), orb_true_r].
  rewrite !(proj2 (Nat.leb_gt _ _)) by done. cbn [orb andb].
  destruct (lookup_lt_is_Some_2 l i Hi) as [x Hx]. unfold move_at. rewrite Hx.
  set (rest := replicate (kCapacity - length l) Entry_new).
  assert (Hen : entry_at (l ++ rest) i = x) by (unfold entry_at; by rewrite lookup_app_l, Hx). rewrite Hen.
  assert (Hd : length (delete i l) = (length l - 1)%nat) by (apply length_delete; by eexists).
  destruct (Nat.eqb_spec i j) as [<-|Hne].
  - f_equal. f_equal. rewrite delete_take_drop. rewrite take_app_length' by (rewrite length_take; lia).
    rewrite drop_app_length' by (rewrite length_take; lia). by rewrite take_drop_middle.
  - f_equal. unfold of_list. f_equal; [|rewrite length_app; cbn [length]; rewrite length_take, length_drop, Hd; lia].
    assert (Hlen : length (take j (delete i l) ++ x :: drop j (delete i l)) = length l)
      by (rewrite length_app; cbn [length]; rewrite length_take, length_drop, Hd; lia). rewrite Hlen. fold rest.
    rewrite delete_take_drop. destruct (Nat.ltb_spec i j) as [Hij|Hij].
    + rewrite shift_down by (rewrite length_app; lia). replace (i + (j - i))%nat with j by lia.
      rewrite take_app_le, !drop_app_le by lia. rewrite take_app_le by (rewrite length_drop; lia).
      rewrite (take_app_ge (take i l)) by (rewrite length_take; lia). rewrite (drop_app_ge (take i l)) by (rewrite length_take; lia).
      rewrite length_take, (Nat.min_l i (length l)) by lia. rewrite drop_drop.
      destruct (lookup_lt_is_Some_2 l j Hj) as [y Hy]. rewrite (drop_S l y j) by done.
      rewrite app_assoc. rewrite insert_app_r_alt by (rewrite length_app, length_take, length_take, length_drop; lia).
      replace (j - length (_ ++ _))%nat with 0%nat by (rewrite length_app, !length_take, length_drop; lia). cbn.
      rewrite <- !app_assoc. do 2 f_equal. cbn. replace (S (i + (j - i))) with (S j) by lia. done.
    + assert (Hji : (j < i)%nat) by lia. rewrite shift_up by (rewrite length_app; lia). replace (S j + (i - j))%nat with (S i) by lia.
      rewrite take_app_le, !drop_app_le by lia. rewrite take_app_le by (rewrite length_drop; lia).
      rewrite (take_app_le (take i l)) by (rewrite length_take; lia). rewrite (drop_app_le (take i l)) by (rewrite length_take; lia).
      rewrite take_take, Nat.min_l by lia. destruct (lookup_lt_is_Some_2 l j Hj) as [y Hy]. rewrite (take_S_r l j y) by done.
      rewrite <- app_assoc. rewrite insert_app_r_alt by (rewrite length_take; lia). rewrite length_take. replace (j - _)%nat with 0%nat by lia.
      cbn. rewrite <- !app_assoc. do 2 f_equal. cbn. rewrite <- app_assoc. f_equal. rewrite take_drop_commute. by replace (j + (i - j))%nat with i by lia.
Qed.

(** *** Ids *)

Lemma next_id_loop_None fuel ids : forall last, next_id_loop fuel ids last = None ->
  forall k, (k < fuel)%nat -> In (u8 (last + 1 + Z.of_nat k)) (0 :: ids).
Proof.
  induction fuel as [|fuel IH]; intros last Hn k Hk; [lia|]. cbn [next_id_loop] in Hn.
  destruct (_ || _) eqn:Hb; [|done]. destruct k as [|k].
  - rewrite Z.add_0_r. apply orb_true_iff in Hb as [Hb|Hb]; [left; by apply Z.eqb_eq in Hb|right].
    apply existsb_exists in Hb as (i & Hi & Heq%Z.eqb_eq). by rewrite Heq.
  - specialize (IH _ Hn k ltac:(lia)). replace (u8 (last + 1 + Z.of_nat (S k))) with (u8 (u8 (last + 1) + 1 + Z.of_nat k)); [done|].
    unfold u8, wrap. rewrite <- Z.add_assoc, Zplus_mod_idemp_l. f_equal. lia.
Qed.

Lemma next_id_loop_Some fuel ids : forall last i, next_id_loop fuel ids last = Some i -> 1 <= i < 256 /\ ~ In i ids.
Proof.
  induction fuel as [|fuel IH]; intros last i Hs; [done|]. cbn [next_id_loop] in Hs.
  destruct (_ || _) eqn:Hb; [by apply IH in Hs|]. injection Hs as <-. apply orb_false_iff in Hb as [Hz Hn].
  apply Z.eqb_neq in Hz. pose proof (wrap_range 8 (last + 1) ltac:(lia)) as Hr. unfold in_u in Hr. split; [unfold u8 in *; lia|].
  intros Hi. enough (existsb (Z.eqb (u8 (last + 1))) ids = true) by congruence. apply existsb_exists. eexists. split; [exact Hi|]. apply Z.eqb_refl.
Qed.

(** The loop ends, at the latest, after one turn more than there are ids to skip. *)
Lemma next_id_fresh ids last : (length ids < 255)%nat ->
  exists i, next_id_loop 256 ids last = Some i /\ 1 <= i < 256 /\ ~ In i ids.
Proof.
  intros Hl. destruct (next_id_loop 256 ids last) as [i|] eqn:Hn; [exists i; split; [done|]; by apply next_id_loop_Some in Hn|].
  exfalso. pose proof (next_id_loop_None _ _ _ Hn) as Hin.
  assert (Hnd : List.NoDup (map (fun k => u8 (last + 1 + Z.of_nat k)) (seq 0 256))).
  { apply Finite.Injective_map_NoDup_in; [|apply seq_NoDup]. intros x y Hx%in_seq Hy%in_seq. unfold u8, wrap. change (2 ^ 8) with 256. intros Heq. Z.div_mod_to_equations. lia. }
  apply NoDup_incl_length with (l' := 0 :: ids) in Hnd; [rewrite length_map, length_seq in Hnd; cbn in Hnd; lia|].
  intros i (k & <- & Hk%in_seq)%in_map_iff. apply Hin. lia.
Qed.

(** *** Entries that are in use *)

Record entry_ok (e : Entry) (s pass : list byte) : Prop := {
  eo_stored : e = stored s pass (en_id e);
  eo_valid : checkCredentials s pass = None;
  eo_id : 1 <= en_id e < 256 }.

Lemma valid_lengths s pass : checkCredentials s pass = None -> (1 <= length s <= kSsidMax /\ length pass <= kPskHexLen)%nat.
Proof.
  unfold checkCredentials. destruct s as [|c s]; [done|]. cbn [blank orb]. destruct (Nat.ltb_spec kSsidMax (length (c :: s))); [done|].
  destruct (existsb _ _); [done|]. intros Hp. split; [cbn in *; lia|]. destruct pass as [|d pass]; [cbn; lia|]. cbn [blank] in Hp.
  destruct (Nat.eqb_spec (length (d :: pass)) kPskHexLen); [lia|]. destruct (_ || _) eqn:Hb; [done|].
  apply orb_false_iff in Hb as [_ Hb%Nat.ltb_ge]. unfold kPassMax in Hb. unfold kPskHexLen. lia.
Qed.

Lemma stored_views s pass i : checkCredentials s pass = None -> ssidView (stored s pass i) = s /\ passView (stored s pass i) = pass.
Proof.
  intros Hv. destruct (valid_lengths s pass Hv) as [Hs Hp]. unfold ssidView, passView, stored. cbn [en_ssid en_ssidLen en_pass en_passLen].
  rewrite !wrap_small by (unfold in_u, kSsidMax, kPskHexLen in *; lia). rewrite !Nat2Z.id, !splice_0. by rewrite !take_app_length.
Qed.

(** ** The abstract list *)

Record Net := mkNet { nt_ssid : list byte; nt_pass : list byte; nt_id : Z }.

Definition net_of (e : Entry) : Net := mkNet (ssidView e) (passView e) (en_id e).
Definition nets (n : SavedNetworks) : list Net := map net_of (used n).

Definition names (l : list Net) : list (list byte) := map nt_ssid l.

Definition named (s : list byte) (l : list Net) : option nat := first_index (fun x => bool_decide (nt_ssid x = s)) l.

(** What the operations do to the list; [i] is the id a saved entry gets. *)
Definition saved (i : Z) (slot : option nat) (s pass : list byte) (l : list Net) : list Net * (Saved + Error) :=
  let replace at_ := (<[at_ := mkNet s pass i]> l, inl (mkSaved at_ true)) in
  match checkCredentials s pass, slot, named s l with
  | Some _, _, _ => (l, inr credentials)
  | None, Some at_, same =>
      if (length l <=? at_)%nat then (l, inr no_such_slot)
      else if match same with Some j => (j =? at_)%nat | None => true end then replace at_ else (l, inr duplicate)
  | None, None, Some at_ => replace at_
  | None, None, None =>
      if (length l <? kCapacity)%nat then (l ++ [mkNet s pass i], inl (mkSaved (length l) false)) else (l, inr full)
  end.

Record wf (n : SavedNetworks) : Prop := {
  wf_list : n = of_list (used n) (sn_lastId n);
  wf_room : (length (used n) <= kCapacity)%nat;
  wf_entries : Forall (fun e => entry_ok e (ssidView e) (passView e)) (used n);
  wf_names : NoDup (names (nets n));
  wf_ids : NoDup (map nt_id (nets n)) }.

(** *** Saving *)

Lemma nextId_run n : (length (used n) < 255)%nat ->
  exists i, nextId n = (mkSavedNetworks (sn_e n) (sn_count n) i, i) /\ 1 <= i < 256 /\ ~ In i (map en_id (used n)).
Proof.
  intros Hl. destruct (next_id_fresh (map en_id (used n)) (sn_lastId n)) as (i & Hi & Hr); [by rewrite length_map|].
  exists i. split; [|done]. unfold nextId. by rewrite Hi.
Qed.

Lemma store_replaces l last i s pass : (i < length l <= kCapacity)%nat ->
  exists i', store_entry (of_list l last) i s pass = (of_list (<[i := stored s pass i']> l) i', mkSaved i true)
    /\ 1 <= i' < 256 /\ ~ In i' (map en_id (<[i := stored s pass 0]> l)).
Proof.
  intros [Hi Hc]. unfold store_entry. cbn [sn_count of_list sn_lastId]. rewrite (proj2 (Nat.ltb_lt _ _)) by done. cbv zeta.
  change (mkEntry (splice 0 s (en_ssid Entry_new)) _ _ _ 0) with (stored s pass 0). fold (of_list l last).
  rewrite insert_of_list by done. destruct (nextId_run (of_list (<[i := stored s pass 0]> l) last)) as (i' & -> & Hr & Hn).
  { rewrite used_of_list, length_insert. unfold kCapacity, saved_networks_max in Hc. lia. }
  rewrite used_of_list in Hn. exists i'. split; [|done]. f_equal. cbn [sn_e sn_lastId].
  change (mkEntry (en_ssid (stored s pass 0)) _ _ _ i') with (stored s pass i'). pose proof (insert_of_list (<[i := stored s pass 0]> l) i' i (stored s pass i')) as Hins.
  rewrite list_insert_insert_eq in Hins. rewrite <- Hins by by rewrite length_insert. done.
Qed.

Lemma store_appends l last s pass : (length l < kCapacity)%nat ->
  exists i', store_entry (of_list l last) (length l) s pass = (of_list (l ++ [stored s pass i']) i', mkSaved (length l) false)
    /\ 1 <= i' < 256 /\ ~ In i' (map en_id l).
Proof.
  intros Hc. unfold store_entry. cbn [sn_count of_list sn_lastId]. rewrite (proj2 (Nat.ltb_ge _ _)) by done. cbv zeta.
  change (mkEntry (splice 0 s (en_ssid Entry_new)) _ _ _ 0) with (stored s pass 0). fold (of_list l last).
  set (n0 := mkSavedNetworks _ _ _). assert (Hu : used n0 = l) by (unfold n0, used; cbn; by rewrite take_insert_ge, take_app_length).
  destruct (nextId_run n0) as (i' & -> & Hr & Hn); [rewrite Hu; unfold kCapacity, saved_networks_max in Hc; lia|].
  rewrite Hu in Hn. exists i'. split; [|done]. f_equal. unfold n0. cbn [sn_e sn_lastId sn_count].
  change (mkEntry (en_ssid (stored s pass 0)) _ _ _ i') with (stored s pass i'). rewrite list_insert_insert_eq. exact (append_of_list l i' _ Hc).
Qed.

Lemma nets_of_list l last : nets (of_list l last) = map net_of l.
Proof. unfold nets. by rewrite used_of_list. Qed.

Lemma find_named n s : find n s = named s (nets n).
Proof.
  unfold find, named, nets. induction (used n) as [|e l IH]; [done|]. cbn. by rewrite IH.
Qed.

Lemma named_Some s l j : named s l = Some j -> exists x, l !! j = Some x /\ nt_ssid x = s.
Proof.
  intros (l1 & x & l2 & -> & <- & Hx%bool_decide_eq_true & _)%first_index_Some. exists x. split; [|done].
  rewrite lookup_app_r, Nat.sub_diag by done. done.
Qed.

Lemma named_None s l : named s l = None -> s ∉ names l.
Proof.
  intros Hn%first_index_None Hin. unfold names in Hin. apply list_elem_of_In, in_map_iff in Hin as (x & <- & Hx).
  rewrite List.Forall_forall in Hn. specialize (Hn x Hx). by rewrite bool_decide_true in Hn.
Qed.

Lemma net_of_stored s pass i : checkCredentials s pass = None -> net_of (stored s pass i) = mkNet s pass i.
Proof. intros Hv. unfold net_of. destruct (stored_views s pass i Hv) as [-> ->]. done. Qed.

Lemma stored_ok s pass i : checkCredentials s pass = None -> 1 <= i < 256 ->
  entry_ok (stored s pass i) (ssidView (stored s pass i)) (passView (stored s pass i)).
Proof. intros Hv Hi. destruct (stored_views s pass i Hv) as [-> ->]. by split. Qed.

Lemma wf_of_list l last : (length l <= kCapacity)%nat -> Forall (fun e => entry_ok e (ssidView e) (passView e)) l ->
  NoDup (names (map net_of l)) -> NoDup (map nt_id (map net_of l)) -> wf (of_list l last).
Proof. intros Hl He Hn Hi. split; rewrite ?nets_of_list, ?used_of_list; done. Qed.

Lemma ids_entries l : map nt_id (map net_of l) = map en_id l.
Proof. rewrite map_map. done. Qed.

(** What an insertion into a column without repetition needs. *)
Lemma NoDup_insert {A} (l : list A) i x : NoDup l -> x ∉ delete i l -> NoDup (<[i := x]> l).
Proof.
  intros Hl Hx. destruct (decide (i < length l)%nat) as [Hi|Hi]; [|by rewrite list_insert_ge by lia].
  rewrite insert_take_drop by done. rewrite delete_take_drop in Hx. rewrite <- (take_drop i l) in Hl.
  destruct (lookup_lt_is_Some_2 l i Hi) as [y Hy]. rewrite (drop_S l y i) in Hl by done. apply NoDup_app in Hl as (Ht & Hd & Hdr).
  apply NoDup_cons in Hdr as [_ Hdr]. apply NoDup_app. split_and!; [done| |apply NoDup_cons; split; [set_solver|done]].
  intros z Hz. apply not_elem_of_cons. split; [set_solver|]. specialize (Hd z Hz). set_solver.
Qed.

Definition good (l : list Entry) : Prop :=
  (length l <= kCapacity)%nat /\ Forall (fun e => entry_ok e (ssidView e) (passView e)) l
  /\ NoDup (names (map net_of l)) /\ NoDup (map nt_id (map net_of l)).

Lemma wf_good n : wf n <-> exists l last, n = of_list l last /\ good l.
Proof.
  split.
  - intros [Hn Hr He Hs Hi]. by exists (used n), (sn_lastId n).
  - intros (l & last & -> & Hr & He & Hs & Hi). split; rewrite ?nets_of_list, ?used_of_list; done.
Qed.

Lemma map_insert {A B} (f : A -> B) l i x : map f (<[i := x]> l) = <[i := f x]> (map f l).
Proof. exact (list_fmap_insert f l i x). Qed.

Lemma elem_of_delete {A} (l : list A) i x : x ∈ delete i l -> exists j, j <> i /\ l !! j = Some x.
Proof.
  intros [j Hj]%list_elem_of_lookup. destruct (decide (j < i)%nat) as [Hji|Hji].
  - rewrite list_lookup_delete_lt in Hj by done. exists j. split; [lia|done].
  - rewrite list_lookup_delete_ge in Hj by lia. exists (S j). split; [lia|done].
Qed.

Lemma nets_names l : names (map net_of l) = map ssidView l.
Proof. unfold names. by rewrite map_map. Qed.

(** Writing over an entry, or past the last one. *)
Lemma good_replace l i s pass i' : good l -> checkCredentials s pass = None -> (i < length l)%nat ->
  (forall j, named s (map net_of l) = Some j -> j = i) -> 1 <= i' < 256 -> ~ In i' (map en_id (<[i := stored s pass 0]> l)) ->
  good (<[i := stored s pass i']> l).
Proof.
  intros (Hr & He & Hs & Hi) Hv Hlt Huniq Hb Hfresh. unfold good. rewrite length_insert. split; [done|].
  split; [apply Forall_insert; [done|by apply stored_ok]|]. rewrite nets_names, ids_entries in *. rewrite !map_insert.
  cbn [stored en_id]. rewrite (proj1 (stored_views s pass i' Hv)). rewrite map_insert in Hfresh. cbn [en_id stored] in Hfresh.
  split; apply NoDup_insert; try done.
  - intros (j & Hj & Hl)%elem_of_delete. destruct (named s (map net_of l)) as [k|] eqn:Hk.
    + specialize (Huniq k eq_refl) as ->. apply named_Some in Hk as (x & Hx & Hxs). apply Hj.
      eapply NoDup_lookup; [exact Hs|exact Hl|]. rewrite <- nets_names. unfold names. rewrite list_lookup_fmap. unfold fmap, option_fmap, option_map.
      rewrite Hx. cbn. congruence.
    + apply named_None in Hk. rewrite nets_names in Hk. apply Hk. by apply list_elem_of_lookup_2 with j.
  - intros (j & Hj & Hl)%elem_of_delete. apply Hfresh, list_elem_of_In, (list_elem_of_lookup_2 _ j). by rewrite list_lookup_insert_ne.
Qed.

Lemma NoDup_snoc {A} (l : list A) x : NoDup l -> x ∉ l -> NoDup (l ++ [x]).
Proof. intros Hl Hx. apply NoDup_app. split_and!; [done|set_solver|apply NoDup_singleton]. Qed.

Lemma good_append l s pass i' : good l -> checkCredentials s pass = None -> (length l < kCapacity)%nat ->
  named s (map net_of l) = None -> 1 <= i' < 256 -> ~ In i' (map en_id l) -> good (l ++ [stored s pass i']).
Proof.
  intros (Hr & He & Hs & Hi) Hv Hlt Hnew Hb Hfresh. unfold good. rewrite length_app. split; [cbn; lia|].
  split; [apply Forall_app; split; [done|by constructor; [apply stored_ok|]]|]. rewrite nets_names, ids_entries in *. rewrite !map_app. cbn [map stored en_id].
  change (ssidView _) with (ssidView (stored s pass i')). rewrite (proj1 (stored_views s pass i' Hv)).
  split; apply NoDup_snoc; try done; [|by rewrite list_elem_of_In]. apply named_None in Hnew. by rewrite nets_names in Hnew.
Qed.

Lemma saved_step l last slot s pass : good l ->
  let '(n, r) := save (of_list l last) slot s pass in
  exists i l' last', n = of_list l' last' /\ good l' /\ (map net_of l', r) = saved i slot s pass (map net_of l).
Proof.
  intros Hg. pose proof Hg as (Hr & _). unfold save, saved. destruct (checkCredentials s pass) eqn:Hv; [by exists 0, l, last|].
  rewrite find_named, nets_of_list. cbn [sn_count of_list]. rewrite length_map.
  assert (Hrep : forall i, (i < length l)%nat -> (forall j, named s (map net_of l) = Some j -> j = i) ->
    let '(n, r) := if (kCapacity <=? i)%nat then (of_list l last, inr full) else let '(n, r) := store_entry (of_list l last) i s pass in (n, inl r) in
    exists i' l' last', n = of_list l' last' /\ good l' /\ (map net_of l', r) = (<[i := mkNet s pass i']> (map net_of l), inl (mkSaved i true))).
  { intros i Hi Hu. rewrite (proj2 (Nat.leb_gt _ _)) by lia. destruct (store_replaces l last i s pass) as (i' & -> & Hb & Hf); [lia|].
    exists i', (<[i := stored s pass i']> l), i'. split; [done|]. split; [by apply good_replace|]. by rewrite map_insert, net_of_stored. }
  destruct slot as [i|].
  - destruct (Nat.leb_spec (length l) i) as [Hi|Hi]; [by exists 0, l, last|]. destruct (named s (map net_of l)) as [j|] eqn:Hj.
    + destruct (Nat.eqb_spec j i) as [->|Hne]; [|by exists 0, l, last]. apply Hrep; [done|]. by intros ? [= <-].
    + by apply Hrep.
  - destruct (named s (map net_of l)) as [j|] eqn:Hj; cbn [default Datatypes.id].
    + apply named_Some in Hj as Hx. destruct Hx as (x & Hx%lookup_lt_Some & _). rewrite length_map in Hx. apply Hrep; [done|]. by intros ? [= <-].
    + destruct (Nat.leb_spec kCapacity (length l)) as [Hf|Hf]; [rewrite (proj2 (Nat.ltb_ge _ _)) by done; by exists 0, l, last|].
      rewrite (proj2 (Nat.ltb_lt _ _)) by done. destruct (store_appends l last s pass Hf) as (i' & -> & Hb & Hn).
      exists i', (l ++ [stored s pass i']), i'. split; [done|]. split; [by apply good_append|]. by rewrite map_app, <- (net_of_stored s pass i').
Qed.

(** ** Every history of edits *)

Inductive NetOp :=
  | op_save (slot : option nat) (s pass : list byte)
  | op_join (slot : option nat) (s pass : list byte) (live : option nat)
  | op_remove (slot : nat)
  | op_move (from to : nat)
  | op_clear.

Inductive NetResult := r_save (r : Saved + Error) | r_done (done_ : bool).

(** A join saves where [joinTarget] says. *)
Definition edit (n : SavedNetworks) (op : NetOp) : SavedNetworks * NetResult :=
  match op with
  | op_save slot s pass => let '(n, r) := save n slot s pass in (n, r_save r)
  | op_join slot s pass live => let '(n, r) := save n (joinTarget n slot s live) s pass in (n, r_save r)
  | op_remove slot => let '(n, b) := remove n slot in (n, r_done b)
  | op_move from to => let '(n, b) := move n from to in (n, r_done b)
  | op_clear => (clear n, r_done true)
  end.

Definition edits (ops : list NetOp) : SavedNetworks := foldl (fun n op => (edit n op).1) SavedNetworks_new ops.

Definition join_slot (slot : option nat) (s : list byte) (live : option nat) (l : list Net) : option nat :=
  match slot, named s l with
  | Some i, _ => if (i <? length l)%nat then slot else None
  | None, Some i => Some i
  | None, None =>
      if (length l <? kCapacity)%nat then None
      else if bool_decide (live = Some (length l - 1)%nat) then Some (length l - 2)%nat else Some (length l - 1)%nat
  end.

(** The edits as list operations; [i] is the id of the entry that is saved. *)
Definition edited (i : Z) (op : NetOp) (l : list Net) : list Net * NetResult :=
  match op with
  | op_save slot s pass => let '(l, r) := saved i slot s pass l in (l, r_save r)
  | op_join slot s pass live => let '(l, r) := saved i (join_slot slot s live l) s pass l in (l, r_save r)
  | op_remove k => (delete k l, r_done (k <? length l)%nat)
  | op_move from to => if (from <? length l)%nat && (to <? length l)%nat then (move_at from to l, r_done true) else (l, r_done false)
  | op_clear => ([], r_done true)
  end.

Lemma map_delete {A B} (f : A -> B) l i : map f (delete i l) = delete i (map f l).
Proof. rewrite !delete_take_drop, map_app, firstn_map, skipn_map. done. Qed.

Lemma map_move_at {A B} (f : A -> B) l i j : map f (move_at i j l) = move_at i j (map f l).
Proof.
  unfold move_at. rewrite list_lookup_fmap. destruct (l !! i) as [x|]; [|done]. cbn. rewrite map_app, <- map_delete. cbn.
  by rewrite firstn_map, skipn_map.
Qed.

Lemma move_at_perm {A} (l : list A) i j : move_at i j l ≡ₚ l.
Proof.
  unfold move_at. destruct (l !! i) as [x|] eqn:Hx; [|done]. rewrite <- Permutation_middle, take_drop.
  by rewrite <- (delete_Permutation l i x Hx).
Qed.

(** A list keeps its well-formedness when entries leave it or change places. *)
Lemma good_submseteq l l' : good l -> l' ⊆+ l -> good l'.
Proof.
  intros (Hr & He & Hs & Hi) [k Hk]%submseteq_Permutation. unfold good. rewrite nets_names, ids_entries in *. split_and!.
  - apply Permutation_length in Hk. rewrite length_app in Hk. lia.
  - rewrite Hk in He. by apply Forall_app in He as [He _].
  - rewrite Hk, map_app in Hs. by apply NoDup_app in Hs as [Hs _].
  - rewrite Hk, map_app in Hi. by apply NoDup_app in Hi as [Hi _].
Qed.

Lemma joinTarget_slot l last slot s live : joinTarget (of_list l last) slot s live = join_slot slot s live (map net_of l).
Proof.
  unfold joinTarget, join_slot, saveTarget. rewrite find_named, nets_of_list, length_map. cbn [sn_count of_list].
  destruct slot as [i|]; [by destruct (i <? length l)%nat|]. by destruct (named s _).
Qed.

Lemma edit_step l last op : good l ->
  let '(n, r) := edit (of_list l last) op in
  exists i l' last', n = of_list l' last' /\ good l' /\ (map net_of l', r) = edited i op (map net_of l).
Proof.
  intros Hg. destruct op as [slot s pass|slot s pass live|slot|from to|]; cbn [edit edited].
  - pose proof (saved_step l last slot s pass Hg) as Hs. destruct (save _ slot s pass) as [n r]. destruct Hs as (i & l' & last' & -> & Hg' & Heq).
    exists i, l', last'. split_and!; [done..|]. by rewrite <- Heq.
  - rewrite joinTarget_slot. set (t := join_slot _ _ _ _). pose proof (saved_step l last t s pass Hg) as Hs. destruct (save _ t s pass) as [n r].
    destruct Hs as (i & l' & last' & -> & Hg' & Heq). exists i, l', last'. split_and!; [done..|]. by rewrite <- Heq.
  - rewrite remove_of_list by apply Hg. rewrite length_map. destruct (Nat.ltb_spec slot (length l)) as [Hi|Hi].
    + exists 0, (delete slot l), last. split; [done|]. split; [eapply good_submseteq; [exact Hg|apply submseteq_delete]|]. by rewrite map_delete.
    + exists 0, l, last. split_and!; [done..|]. f_equal. rewrite delete_take_drop, take_ge, drop_ge, app_nil_r by (rewrite length_map; lia). done.
  - rewrite move_of_list, length_map. destruct (_ && _); [|by exists 0, l, last].
    exists 0, (move_at from to l), last. split; [done|]. split; [|by rewrite map_move_at].
    eapply good_submseteq; [exact Hg|]. by rewrite move_at_perm.
  - exists 0, [], last. split_and!; try done. split_and!; cbn; try constructor. lia.
Qed.

Lemma edits_good ops : exists l last, edits ops = of_list l last /\ good l.
Proof.
  unfold edits. assert (Hb : exists l last, SavedNetworks_new = of_list l last /\ good l).
  { exists [], 0. split; [done|]. split_and!; cbn; try constructor; lia. }
  revert Hb. generalize SavedNetworks_new. induction ops as [|op ops IH]; intros n Hn; [done|]. cbn [foldl]. apply IH.
  destruct Hn as (l & last & -> & Hg). pose proof (edit_step l last op Hg) as Hs. destruct (edit _ op) as [n r]. cbn.
  destruct Hs as (i & l' & last' & -> & Hg' & _). by exists l', last'.
Qed.

(** C18. The list of saved networks: over every history of saves, joins, removals, moves and clears, each edit does
    to the array exactly what it says of the list, errors included; the list has at most four entries, each with
    credentials that are acceptable, no SSID and no id twice and no id 0; and past its end the array is wiped. *)
Theorem edits_refine_the_list (ops : list NetOp) (op : NetOp) :
  let n := edits ops in
  let '(n', r) := edit n op in
  (exists i, (nets n', r) = edited i op (nets n))
  /\ (length (nets n') <= kCapacity)%nat /\ NoDup (names (nets n')) /\ NoDup (map nt_id (nets n'))
  /\ Forall (fun x => checkCredentials (nt_ssid x) (nt_pass x) = None /\ 1 <= nt_id x < 256) (nets n')
  /\ sn_count n' = length (nets n') /\ drop (sn_count n') (sn_e n') = replicate (kCapacity - sn_count n') Entry_new.
Proof.
  cbv zeta. destruct (edits_good ops) as (l & last & -> & Hg). pose proof (edit_step l last op Hg) as Hs.
  destruct (edit _ op) as [n r]. destruct Hs as (i & l' & last' & -> & (Hr & He & Hs & Hi) & Heq). rewrite !nets_of_list, length_map.
  split; [by exists i|]. split_and!; try done; [|cbn; by rewrite drop_app_length].
  rewrite Forall_map. eapply Forall_impl; [exact He|]. intros e [Hst Hv Hb]. by split.
Qed.

(** A join is never refused for room, and never takes the place of the network the station is on, unless it is
    that network. *)
Theorem join_always_finds_room (ops : list NetOp) (s pass : list byte) (live : option nat) :
  checkCredentials s pass = None ->
  let n := edits ops in
  exists sv, (edit n (op_join None s pass live)).2 = r_save (inl sv)
    /\ (sv_replaced sv = true -> live = Some (sv_slot sv) -> find n s = live).
Proof.
  intros Hv. cbv zeta. destruct (edits_good ops) as (l & last & -> & Hg). pose proof (edit_step l last (op_join None s pass live) Hg) as Hs.
  destruct (edit _ _) as [n r] eqn:He. destruct Hs as (i & l' & last' & _ & _ & Heq). cbn [snd edited] in *.
  rewrite find_named, nets_of_list. unfold saved, join_slot in Heq. rewrite Hv, !length_map in Heq.
  destruct (named s (map net_of l)) as [j|] eqn:Hj; cbn [Datatypes.id] in Heq.
  - apply named_Some in Hj as Hx. destruct Hx as (x & Hx%lookup_lt_Some & _). rewrite length_map in Hx.
    rewrite (proj2 (Nat.leb_gt _ _)), Nat.eqb_refl in Heq by done. injection Heq as _ ->. eexists. split; [done|]. by intros _ ->.
  - destruct (Nat.ltb_spec (length l) kCapacity) as [Hf|Hf].
    + injection Heq as _ ->. eexists. split; [done|]. done.
    + assert (Hl : (2 <= length l)%nat) by (unfold kCapacity, saved_networks_max in Hf; lia). destruct (bool_decide _) eqn:Hd.
      * rewrite (proj2 (Nat.leb_gt _ _)) in Heq by lia. injection Heq as _ ->. eexists. split; [done|]. cbn. intros _ Hlive.
        apply bool_decide_eq_true in Hd. rewrite Hd in Hlive. injection Hlive. lia.
      * rewrite (proj2 (Nat.leb_gt _ _)) in Heq by lia. injection Heq as _ ->. eexists. split; [done|]. cbn. intros _ Hlive.
        apply bool_decide_eq_false in Hd. by destruct (Hd Hlive).
Qed.

(** ** The persisted form *)

Definition pad (n : nat) (l : list byte) : list byte := l ++ replicate (n - length l) Byte.x00.

Definition entry_bytes (e : Entry) : list byte :=
  [z2b (en_ssidLen e); z2b (en_passLen e)] ++ pad kSsidMax (ssidView e) ++ pad kPskHexLen (passView e).

Definition blob (l : list Entry) : list byte :=
  [z2b 86; z2b 78; z2b kVersion; z2b (Z.of_nat (length l))] ++ concat (map entry_bytes l)
  ++ replicate ((kCapacity - length l) * kEntryBytes) Byte.x00.

Lemma length_padded n l : (length l <= n)%nat -> length (pad n l) = n.
Proof. intros Hl. unfold pad. rewrite length_app, length_replicate. lia. Qed.

Lemma splice_pad (a b l : list byte) n : (length l <= n)%nat ->
  splice (length a) l (a ++ replicate n Byte.x00 ++ b) = a ++ pad n l ++ b.
Proof.
  intros Hl. unfold splice, pad. rewrite take_app_length, <- app_assoc. do 2 f_equal.
  rewrite <- drop_drop, drop_app_length. rewrite drop_app_le by (rewrite length_replicate; lia). by rewrite drop_replicate.
Qed.

Lemma entry_lengths e : entry_ok e (ssidView e) (passView e) -> (length (ssidView e) <= kSsidMax /\ length (passView e) <= kPskHexLen)%nat.
Proof. intros [_ Hv _]. apply valid_lengths in Hv. lia. Qed.

Lemma length_entry_bytes e : entry_ok e (ssidView e) (passView e) -> length (entry_bytes e) = kEntryBytes.
Proof.
  intros He. destruct (entry_lengths e He). unfold entry_bytes. rewrite !length_app, !length_padded by lia. done.
Qed.

Lemma put_entry_bytes e i (a b : list byte) : entry_ok e (ssidView e) (passView e) -> length a = (4 + i * kEntryBytes)%nat ->
  put_entry i e (a ++ replicate kEntryBytes Byte.x00 ++ b) = a ++ entry_bytes e ++ b.
Proof.
  intros He Ha. destruct (entry_lengths e He) as [Hs Hp]. unfold put_entry. rewrite <- Ha.
  replace (replicate kEntryBytes Byte.x00) with (replicate 2 Byte.x00 ++ replicate kSsidMax Byte.x00 ++ replicate kPskHexLen Byte.x00)
    by (rewrite <- !replicate_add; done).
  rewrite <- !app_assoc. rewrite splice_pad by (cbn; lia). set (lens := pad 2 _). assert (Hl : length lens = 2%nat) by done.
  rewrite (app_assoc a lens). replace (length a + 2)%nat with (length (a ++ lens)) by (rewrite length_app; lia).
  rewrite splice_pad by lia. rewrite (app_assoc (a ++ lens)). replace (length (a ++ lens) + kSsidMax)%nat with (length ((a ++ lens) ++ pad kSsidMax (ssidView e)))
    by (rewrite length_app, length_padded; lia).
  rewrite splice_pad by lia. unfold entry_bytes. rewrite <- !app_assoc. done.
Qed.

Lemma length_entries l : Forall (fun e => entry_ok e (ssidView e) (passView e)) l ->
  length (concat (map entry_bytes l)) = (length l * kEntryBytes)%nat.
Proof. induction 1 as [|e l He _ IH]; [done|]. cbn [map concat]. by rewrite length_app, IH, length_entry_bytes. Qed.

Lemma Forall_take_ok {A} (P : A -> Prop) l k : Forall P l -> Forall P (take k l).
Proof. intros Hl. rewrite <- (take_drop k l) in Hl. by apply Forall_app in Hl as [Hl _]. Qed.

Lemma encode_loop l last (hdr rest : list byte) k : good l -> length hdr = 4%nat -> (k <= length l)%nat ->
  foldl (fun out i => put_entry i (entry_at (sn_e (of_list l last)) i) out) (hdr ++ replicate (kCapacity * kEntryBytes) Byte.x00 ++ rest) (seq 0 k)
  = hdr ++ concat (map entry_bytes (take k l)) ++ replicate ((kCapacity - k) * kEntryBytes) Byte.x00 ++ rest.
Proof.
  intros (Hr & He & _) Hh. induction k as [|k IH]; intros Hk; [by rewrite Nat.sub_0_r|].
  rewrite seq_S, foldl_app, IH by lia. cbn [foldl]. rewrite Nat.add_0_l, entry_at_of_list by lia.
  destruct (lookup_lt_is_Some_2 l k ltac:(lia)) as [e Hx]. unfold entry_at. rewrite Hx. cbn [default Datatypes.id].
  replace (kCapacity - k)%nat with (S (kCapacity - S k)) by lia. rewrite Nat.mul_succ_l, Nat.add_comm.
  rewrite replicate_add, <- app_assoc, app_assoc. rewrite put_entry_bytes.
  - rewrite (take_S_r l k e) by done. rewrite map_app, concat_app. cbn [map concat]. by rewrite app_nil_r, <- !app_assoc.
  - rewrite Forall_forall in He. apply He. by apply list_elem_of_lookup_2 with k.
  - rewrite length_app, Hh, length_entries by by apply Forall_take_ok. rewrite length_take. lia.
Qed.

Lemma encode_blob l last out : good l -> (kBlobBytes <= length out)%nat ->
  encode (of_list l last) out = (blob l ++ drop kBlobBytes out, kBlobBytes).
Proof.
  intros Hg Hl. unfold encode. rewrite (proj2 (Nat.ltb_ge _ _)) by done. cbv zeta. f_equal. rewrite !splice_0, length_replicate. cbn [length].
  change (replicate kBlobBytes Byte.x00) with (replicate (4 + kCapacity * kEntryBytes) Byte.x00). rewrite replicate_add, <- app_assoc.
  rewrite (drop_app_length' (replicate 4 Byte.x00)) by done. cbn [sn_count of_list]. rewrite encode_loop by done.
  rewrite take_ge by lia. unfold blob. by rewrite <- !app_assoc.
Qed.

Lemma length_blob l : good l -> length (blob l) = kBlobBytes.
Proof.
  intros (Hr & He & _). unfold blob. rewrite !length_app, length_entries, length_replicate by done. cbn [length].
  unfold kBlobBytes. rewrite Nat.mul_sub_distr_r. pose proof (Nat.mul_le_mono_r _ _ kEntryBytes Hr). lia.
Qed.

(** Reading an entry back saves what was stored. *)
Lemma get_entry_blob l i e n : good l -> l !! i = Some e ->
  get_entry (blob l) i n = match save n None (ssidView e) (passView e) with (n, inl _) => Some n | (_, inr _) => None end.
Proof.
  intros (Hr & He & _) Hx. assert (Hok : entry_ok e (ssidView e) (passView e)) by (rewrite Forall_forall in He; apply He; by apply list_elem_of_lookup_2 with i).
  destruct (entry_lengths e Hok) as [Hs Hp]. destruct Hok as [Hst Hv Hid].
  assert (Hls : en_ssidLen e = Z.of_nat (length (ssidView e)) /\ en_passLen e = Z.of_nat (length (passView e))).
  { rewrite Hst. cbn [en_ssidLen en_passLen stored]. destruct (stored_views (ssidView e) (passView e) (en_id e) Hv) as [-> ->].
    split; apply wrap_small; unfold in_u, kSsidMax, kPskHexLen in *; lia. }
  unfold get_entry. assert (Hd : exists tail, drop (4 + i * kEntryBytes) (blob l) = entry_bytes e ++ tail).
  { unfold blob. rewrite drop_app_ge by (cbn; lia). cbn [length]. replace (4 + i * kEntryBytes - 4)%nat with (i * kEntryBytes)%nat by lia.
    replace (concat (map entry_bytes l)) with (concat (map entry_bytes (take i l ++ e :: drop (S i) l))) by by rewrite take_drop_middle.
    rewrite map_app, concat_app, <- app_assoc. cbn [map concat]. rewrite drop_app_length'.
    - eexists. by rewrite <- app_assoc.
    - rewrite length_entries by by apply Forall_take_ok. rewrite length_take. apply lookup_lt_Some in Hx. lia. }
  destruct Hd as [tail ->]. cbv zeta. destruct Hls as [Hls Hlp].
  assert (Hg1 : getU8 (entry_bytes e ++ tail) = en_ssidLen e) by (unfold getU8, entry_bytes; cbn; apply b2z_z2b_small; unfold kSsidMax in *; lia).
  assert (Hg2 : getU8 (drop 1 (entry_bytes e ++ tail)) = en_passLen e) by (unfold getU8, entry_bytes; cbn; apply b2z_z2b_small; unfold kPskHexLen in *; lia).
  rewrite Hg1, Hg2, Hls, Hlp. rewrite !(proj2 (Z.ltb_ge _ _)) by lia. cbn [orb]. rewrite !Nat2Z.id.
  assert (Hs1 : subspan 2 (length (ssidView e)) (entry_bytes e ++ tail) = ssidView e).
  { unfold subspan, entry_bytes. rewrite <- !app_assoc. rewrite drop_app_length' by done. unfold pad. by rewrite <- !app_assoc, take_app_length. }
  assert (Hs2 : subspan (2 + kSsidMax) (length (passView e)) (entry_bytes e ++ tail) = passView e).
  { unfold subspan, entry_bytes. rewrite <- !app_assoc, app_assoc.
    rewrite drop_app_length' by (rewrite length_app, length_padded by done; done). unfold pad. by rewrite <- !app_assoc, take_app_length. }
  by rewrite Hs1, Hs2.
Qed.

Definition creds (l : list Net) : list (list byte * list byte) := map (fun x => (nt_ssid x, nt_pass x)) l.

Lemma names_creds l : names l = map fst (creds l).
Proof. unfold names, creds. by rewrite map_map. Qed.

Lemma good_nil : good [].
Proof. split_and!; cbn; try constructor. lia. Qed.

Lemma clear_nil n : clear n = of_list [] (sn_lastId n).
Proof. done. Qed.

Lemma get_entries_blob l m : forall k l0 last0, good l -> (k + m = length l)%nat -> good l0 ->
  creds (map net_of l0) = take k (creds (map net_of l)) ->
  exists l' last', get_entries (blob l) (seq k m) (of_list l0 last0) = (of_list l' last', true) /\ good l'
    /\ creds (map net_of l') = creds (map net_of l).
Proof.
  induction m as [|m IH]; intros k l0 last0 Hg Hk Hg0 Hc; cbn [seq get_entries].
  - exists l0, last0. split_and!; try done. rewrite Hc, take_ge; [done|]. unfold creds. rewrite !length_map. lia.
  - destruct (lookup_lt_is_Some_2 l k ltac:(lia)) as [e Hx]. rewrite (get_entry_blob l k e _ Hg Hx). pose proof Hg as (Hr & He & Hs & _).
    assert (Hok : checkCredentials (ssidView e) (passView e) = None) by (rewrite Forall_forall in He; by destruct (He e (list_elem_of_lookup_2 _ _ _ Hx))).
    assert (Hlook : creds (map net_of l) !! k = Some (ssidView e, passView e)) by (unfold creds; rewrite map_map, list_lookup_fmap, Hx; done).
    assert (Hl0 : length l0 = k).
    { assert (Hl : length (creds (map net_of l0)) = length (take k (creds (map net_of l)))) by by rewrite Hc.
      rewrite length_take in Hl. unfold creds in Hl. rewrite !length_map in Hl. lia. }
    assert (Hnew : named (ssidView e) (map net_of l0) = None).
    { destruct (named _ _) as [j|] eqn:Hj; [|done]. apply named_Some in Hj as (x & Hxj & Hxs). apply lookup_lt_Some in Hxj as Hlt.
      rewrite length_map, Hl0 in Hlt. assert (Hn : names (map net_of l0) !! j = Some (ssidView e)) by (unfold names; rewrite list_lookup_fmap, Hxj; cbn; congruence).
      rewrite names_creds, Hc, <- firstn_map, <- names_creds, lookup_take_lt in Hn by done.
      enough (j = k) by lia. eapply NoDup_lookup; [exact Hs|exact Hn|]. rewrite names_creds, list_lookup_fmap, Hlook. done. }
    pose proof (saved_step l0 last0 None (ssidView e) (passView e) Hg0) as Hstep. destruct (save _ _ _ _) as [n r].
    destruct Hstep as (i & l' & last' & -> & Hg' & Heq). unfold saved in Heq. rewrite Hok, Hnew, length_map, Hl0 in Heq.
    rewrite (proj2 (Nat.ltb_lt _ _)) in Heq by lia. injection Heq as Hl' ->. apply (IH (S k) l' last' Hg ltac:(lia) Hg').
    rewrite Hl'. unfold creds at 1. rewrite map_app. fold (creds (map net_of l0)). rewrite Hc. cbn [map nt_ssid nt_pass]. symmetry. by apply take_S_r.
Qed.

Lemma get_entries_good inp slots : forall l last, good l ->
  let '(n, b) := get_entries inp slots (of_list l last) in
  exists l' last', n = of_list l' last' /\ good l' /\ (b = false -> l' = []).
Proof.
  induction slots as [|i slots IH]; intros l last Hg; cbn [get_entries]; [by exists l, last|].
  unfold get_entry. destruct (_ || _); [by exists [], last; split; [|split; [apply good_nil|]]|].
  match goal with |- context [save _ None ?s ?p] => pose proof (saved_step l last None s p Hg) as Hs end.
  destruct (save _ _ _ _) as [n [sv|er]]; [|by exists [], last; split; [|split; [apply good_nil|]]].
  destruct Hs as (i' & l' & last' & -> & Hg' & _). by apply IH.
Qed.

Lemma decode_good n inp : let '(n', b) := decode n inp in exists l last, n' = of_list l last /\ good l /\ (b = false -> l = []).
Proof.
  unfold decode. rewrite clear_nil. destruct (_ || _); [by exists [], (sn_lastId n); split; [|split; [apply good_nil|]]|].
  apply get_entries_good, good_nil.
Qed.

(** C19. The persisted form: after every history of edits the list encodes to [kBlobBytes] bytes and nothing past
    them is touched; a list decoded from them, whatever it held, has the same networks with the same credentials
    in the same order.  Any other bytes leave a list that is well-formed, and empty when they are refused. *)
Theorem blob_roundtrip (ops : list NetOp) (n0 : SavedNetworks) (out inp : list byte) :
  let n := edits ops in
  (if (length out <? kBlobBytes)%nat then encode n out = (out, 0%nat)
   else let '(o, k) := encode n out in
        k = kBlobBytes /\ drop k o = drop k out
        /\ let '(n', b) := decode n0 (take k o) in b = true /\ creds (nets n') = creds (nets n))
  /\ let '(n', b) := decode n0 inp in
     NoDup (names (nets n')) /\ (length (nets n') <= kCapacity)%nat
     /\ Forall (fun x => checkCredentials (nt_ssid x) (nt_pass x) = None) (nets n') /\ (b = false -> nets n' = []).
Proof.
  cbv zeta. split.
  - destruct (edits_good ops) as (l & last & -> & Hg). destruct (Nat.ltb_spec (length out) kBlobBytes) as [Hs|Hs].
    + unfold encode. by rewrite (proj2 (Nat.ltb_lt _ _)).
    + rewrite encode_blob by done. split; [done|]. rewrite drop_app_length' by by rewrite length_blob. split; [done|].
      rewrite take_app_length' by by rewrite length_blob. unfold decode. rewrite length_blob, Nat.eqb_refl by done. 
      assert (Hh : getU8 (blob l) = 86 /\ getU8 (drop 1 (blob l)) = 78 /\ getU8 (drop 2 (blob l)) = kVersion
        /\ getU8 (drop 3 (blob l)) = Z.of_nat (length l)).
      { split_and!; try done. unfold getU8, blob. cbn. apply b2z_z2b_small. destruct Hg as [Hr _]. unfold kCapacity, saved_networks_max in Hr. lia. }
      destruct Hh as (-> & -> & -> & ->). rewrite (proj2 (Z.ltb_ge _ _)) by (destruct Hg as [Hr _]; lia). cbn [negb orb Z.eqb].
      rewrite clear_nil, Nat2Z.id. destruct (get_entries_blob l (length l) 0 [] (sn_lastId n0) Hg eq_refl good_nil eq_refl) as (l' & last' & Hd & Hg' & Hc).
      change (Z.eqb kVersion kVersion) with true. cbn [negb]. rewrite Hd. split; [done|]. by rewrite !nets_of_list.
  - pose proof (decode_good n0 inp) as Hd. destruct (decode n0 inp) as [n' b]. destruct Hd as (l & last & -> & (Hr & He & Hs & Hi) & Hb).
    rewrite nets_of_list, length_map. split_and!; try done; [|by intros Hf; rewrite (Hb Hf)].
    rewrite Forall_map. eapply Forall_impl; [exact He|]. by intros e [].
Qed.

(** ** On concrete lists *)

Definition home : list byte := list_byte_of_string "home".
Definition cabin : list byte := list_byte_of_string "cabin".
Definition boat : list byte := list_byte_of_string "boat".
Definition shed : list byte := list_byte_of_string "shed".
Definition fair : list byte := list_byte_of_string "fair".
Definition secret : list byte := list_byte_of_string "correct horse".

Definition four_networks : list NetOp :=
  [op_save None home secret; op_save None cabin []; op_save None boat secret; op_save None shed secret; op_move 3 0].

(** A fifth network takes the place of the last one, or of the one before it when the last one is live. *)
Lemma join_always_finds_room_witness :
  exists sv, (edit (edits four_networks) (op_join None fair secret (Some 3%nat))).2 = r_save (inl sv)
    /\ (sv_replaced sv = true -> Some 3%nat = Some (sv_slot sv) -> find (edits four_networks) fair = Some 3%nat).
Proof. apply (join_always_finds_room four_networks fair secret (Some 3%nat)). vm_compute. reflexivity. Defined.

(** Saving a network again gives it the id it had when the counter of ids has come round to it. *)
Definition saves_between (k : nat) : list NetOp := op_save None home secret :: replicate k (op_save None cabin []).

Example saved_again_under_the_same_id :
  id (edits (saves_between 254)) 0 = 1 /\ id (edits (saves_between 254 ++ [op_save None home []])) 0 = 1
  /\ open (edits (saves_between 254 ++ [op_save None home []])) 0 = true.
Proof. vm_compute. split_and!; reflexivity. Qed.
