(* ===== verification/VisibleNetworks.v ===== *)
(** * VisibleNetworks: what a scan heard (net/saved_networks.hpp)

    The order a station tries its saved networks in, the UTF-8 check a beacon's SSID must pass, and the table of
    the strongest networks that the two visible-networks channels publish. *)

From stdpp Require Import sorting.
From S2P Require Import Prelude ByteIO Tables SavedNetworks.
#[local] Open Scope Z_scope.

Definition kRssiUnseen : Z := -128.
Definition join_near_tie_db : Z := 3.

(** One BSSID a scan heard. *)
Record Sighting := mkSighting { sg_ssid : list byte; sg_rssi : Z; sg_secured : bool }.

(** ** The join rule *)

Definition hear (n : SavedNetworks) (rssi : list Z) (s : Sighting) : list Z :=
  match find n (sg_ssid s) with
  | Some i => if default 0 (rssi !! i) <? sg_rssi s then <[i := sg_rssi s]> rssi else rssi
  | None => rssi
  end.

Definition heard_rssi (n : SavedNetworks) (heard : list Sighting) : list Z :=
  foldl (hear n) (replicate kCapacity kRssiUnseen) heard.

Section Join.
Context (n : nat) (rssi : list Z) (floorDbm : Z).

Definition rssi_at (i : nat) : Z := default 0 (rssi !! i).

Definition audible (i : nat) : bool := negb (rssi_at i =? kRssiUnseen) && (floorDbm <=? rssi_at i).

Definition candidate (placed : list bool) (i : nat) : bool := negb (default false (placed !! i)) && audible i.

Definition strongest (placed : list bool) : Z :=
  foldl (fun best i => if candidate placed i && (best <? rssi_at i) then rssi_at i else best) kRssiUnseen (seq 0 n).

(** The first in list order that is near enough to the strongest. *)
Definition next_to_try (placed : list bool) (best : Z) : option nat :=
  List.find (fun i => candidate placed i && (best - join_near_tie_db <=? rssi_at i)) (seq 0 n).

(** The [for (;;)]; every turn places an entry, so [n] of them and one to see the end are enough. *)
Fixpoint place_loop (fuel : nat) (placed : list bool) (order : list nat) : option (list bool * list nat) :=
  match fuel with
  | O => None
  | S fuel =>
      let best := strongest placed in
      if best =? kRssiUnseen then Some (placed, order)
      else
        match next_to_try placed best with
        | Some i => place_loop fuel (<[i := true]> placed) (order ++ [i])
        | None => place_loop fuel placed order
        end
  end.
End Join.

(** The slots in the order they are tried, and each one's strongest signal. *)
Definition joinOrder (n : SavedNetworks) (heard : list Sighting) (floorDbm : Z) : option (list nat * list Z) :=
  let rssi := heard_rssi n heard in
  match place_loop (sn_count n) rssi floorDbm (S (sn_count n)) (replicate kCapacity false) [] with
  | Some (placed, order) =>
      Some (order ++ List.filter (fun i => negb (default false (placed !! i))) (seq 0 (sn_count n)), rssi)
  | None => None
  end.

(** ** UTF-8 *)

(** How many bytes follow a lead byte, and the bits it carries. *)
Definition lead (c : Z) : option (nat * Z) :=
  if Z.land c 0xE0 =? 0xC0 then Some (1%nat, Z.land c 0x1F)
  else if Z.land c 0xF0 =? 0xE0 then Some (2%nat, Z.land c 0x0F)
  else if Z.land c 0xF8 =? 0xF0 then Some (3%nat, Z.land c 0x07)
  else None.

Fixpoint trail (k : nat) (cp : Z) (s : list byte) : option Z :=
  match k, s with
  | O, _ => Some cp
  | S k, d :: s =>
      if negb (Z.land (b2z d) 0xC0 =? 0x80) then None else trail k (Z.lor (u32 (Z.shiftl cp 6)) (Z.land (b2z d) 0x3F)) s
  | S _, [] => None
  end.

Definition kMin (n : nat) : Z := match n with 0%nat => 0 | 1%nat => 0x80 | 2%nat => 0x800 | _ => 0x10000 end.

Fixpoint utf8_loop (fuel : nat) (s : list byte) : bool :=
  match fuel, s with
  | _, [] => true
  | O, _ => false
  | S fuel, c :: rest =>
      if b2z c <? 0x80 then utf8_loop fuel rest
      else
        match lead (b2z c) with
        | None => false
        | Some (n, cp) =>
            if (length s <=? n)%nat then false
            else
              match trail n cp rest with
              | None => false
              | Some cp =>
                  if (cp <? kMin n) || (0x10FFFF <? cp) || ((0xD800 <=? cp) && (cp <=? 0xDFFF)) then false
                  else utf8_loop fuel (drop n rest)
              end
        end
  end.

(** Every turn takes a byte at least. *)
Definition validUtf8 (s : list byte) : bool := utf8_loop (length s) s.

(** ** The table of a scan *)

Definition kPerChannel : nat := 7.
Definition kRows : nat := 2 * kPerChannel.
Definition kChannelBytes : nat := 4 + kPerChannel * (1 + kSsidMax).

Record Row := mkRow { rw_ssid : list byte; rw_len : Z; rw_rssi : Z; rw_secured : bool }.

Definition Row_new : Row := mkRow (replicate kSsidMax Byte.x00) 0 kRssiUnseen false.
Definition Row_wiped : Row := mkRow (replicate kSsidMax Byte.x00) 0 0 false.

Definition rw_view (r : Row) : list byte := take (Z.to_nat (rw_len r)) (rw_ssid r).

Definition row (s : Sighting) : Row :=
  mkRow (splice 0 (sg_ssid s) (rw_ssid Row_new)) (u8 (Z.of_nat (length (sg_ssid s)))) (sg_rssi s) (sg_secured s).

(** [string_view]'s order: the bytes as unsigned numbers, a prefix first. *)
Fixpoint bytes_lt (a b : list byte) : bool :=
  match a, b with
  | _, [] => false
  | [], _ :: _ => true
  | x :: a, y :: b => (b2z x <? b2z y) || ((b2z x =? b2z y) && bytes_lt a b)
  end.

Definition before (a b : Row) : bool :=
  if negb (rw_rssi a =? rw_rssi b) then rw_rssi b <? rw_rssi a else bytes_lt (rw_view a) (rw_view b).

Record VisibleNetworks := mkVisibleNetworks { vn_r : list Row; vn_n : nat; vn_scan : Z }.

Definition VisibleNetworks_new : VisibleNetworks := mkVisibleNetworks (replicate kRows Row_new) 0 0.

Definition row_at (l : list Row) (i : nat) : Row := default Row_new (l !! i).

Definition publishable (s : Sighting) : bool :=
  negb (blank (sg_ssid s) || (kSsidMax <? length (sg_ssid s))%nat || existsb (byte_eqb Byte.x00) (sg_ssid s) || negb (validUtf8 (sg_ssid s))).

Definition weakest_of (r : list Row) (n : nat) : nat :=
  foldl (fun w i => if before (row_at r w) (row_at r i) then i else w) 0%nat (seq 1 (n - 1)).

(** One sighting: a row of its SSID is raised, else a free row is taken, else the weakest row makes room. *)
Definition take_one (t : list Row * nat) (s : Sighting) : list Row * nat :=
  let '(r, n) := t in
  if negb (publishable s) then t
  else
    let c := row s in
    let at_ := foldl (fun a i => if bool_decide (rw_view (row_at r i) = sg_ssid s) then i else a) n (seq 0 n) in
    if (at_ <? n)%nat then if rw_rssi (row_at r at_) <? sg_rssi s then (<[at_ := c]> r, n) else t
    else if (n <? kRows)%nat then (<[n := c]> r, S n)
    else
      let weakest := weakest_of r n in
      if before c (row_at r weakest) then (<[weakest := c]> r, n) else t.

(** [std::sort] by [before]. *)
Definition not_after (a b : Row) : Prop := before b a = false.

#[export] Instance not_after_dec : RelDecision not_after.
Proof. intros a b. unfold not_after. apply _. Defined.

Definition sort_rows (l : list Row) : list Row := merge_sort not_after l.

Definition vtake (v : VisibleNetworks) (heard : list Sighting) : VisibleNetworks :=
  let '(r, n) := foldl take_one (replicate kRows Row_wiped, 0%nat) heard in
  mkVisibleNetworks (sort_rows (take n r) ++ drop n r) n (if vn_scan v =? 0xFF then 1 else u8 (vn_scan v + 1)).

Definition vssid (v : VisibleNetworks) (i : nat) : list byte := if (i <? vn_n v)%nat then rw_view (row_at (vn_r v) i) else [].
Definition vrssi (v : VisibleNetworks) (i : nat) : Z := if (i <? vn_n v)%nat then rw_rssi (row_at (vn_r v) i) else kRssiUnseen.
Definition vsecured (v : VisibleNetworks) (i : nat) : bool := (i <? vn_n v)%nat && rw_secured (row_at (vn_r v) i).

(** One row of a channel: its signal, its name and its bits in the two masks. *)
Definition pack_row (v : VisibleNetworks) (list_ : SavedNetworks) (first n : nat) (t : list byte * Z * Z) (i : nat) : list byte * Z * Z :=
  let '(out, secure, saved_) := t in
  let out := <[(4 + i)%nat := z2b (if (i <? n)%nat then rw_rssi (row_at (vn_r v) (first + i)) else kRssiUnseen)]> out in
  if (n <=? i)%nat then (out, secure, saved_)
  else
    let r := row_at (vn_r v) (first + i) in
    let bit := Z.shiftl 1 (Z.of_nat i) in
    let secure := if rw_secured r then u8 (Z.lor secure bit) else secure in
    let saved_ := if bool_decide (is_Some (find list_ (rw_view r))) then u8 (Z.lor saved_ bit) else saved_ in
    (splice (4 + kPerChannel + i * kSsidMax) (rw_view r) out, secure, saved_).

Definition pack (v : VisibleNetworks) (which : nat) (list_ : SavedNetworks) : list byte :=
  let first := (which * kPerChannel)%nat in
  let n := if (first <? vn_n v)%nat then Nat.min kPerChannel (vn_n v - first) else 0%nat in
  let '(out, secure, saved_) := foldl (pack_row v list_ first n) (replicate kChannelBytes Byte.x00, 0, 0) (seq 0 kPerChannel) in
  splice 0 [z2b (vn_scan v); z2b (Z.of_nat n); z2b secure; z2b saved_] out.

(** ** The join rule, stated of the order itself *)

Section JoinRule.
Context (n : nat) (rssi : list Z) (floorDbm : Z).
Hypothesis Hquiet : forall i, kRssiUnseen <= rssi_at rssi i.

#[local] Abbreviation aud := (audible rssi floorDbm).
#[local] Abbreviation rs := (rssi_at rssi).

(** [x] may be tried before all of [rest]: it is heard if any of them is, and within 3 dB of each; and what stands
    before it in the list and comes later is not heard, or more than 3 dB weaker than something that was left. *)
Definition first_choice (x : nat) (rest : list nat) : Prop :=
  forall y, y ∈ rest ->
    (aud y = true -> aud x = true /\ rs y <= rs x + join_near_tie_db)
    /\ ((y < x)%nat -> aud x = true /\ (aud y = true -> exists z, z ∈ x :: rest /\ aud z = true /\ rs y < rs z - join_near_tie_db)).

Fixpoint ruled (l : list nat) : Prop := match l with [] => True | x :: rest => first_choice x rest /\ ruled rest end.

Definition remaining (placed : list bool) : list nat := List.filter (fun i => negb (default false (placed !! i))) (seq 0 n).

Lemma elem_of_remaining placed i : i ∈ remaining placed <-> (i < n)%nat /\ default false (placed !! i) = false.
Proof. unfold remaining. rewrite list_elem_of_In, filter_In, in_seq, negb_true_iff. naive_solver lia. Qed.

Lemma candidate_remaining placed i : (i < n)%nat -> candidate rssi floorDbm placed i = true <-> i ∈ remaining placed /\ aud i = true.
Proof. intros Hi. unfold candidate. rewrite andb_true_iff, negb_true_iff, elem_of_remaining. naive_solver. Qed.

Lemma strongest_fold (P : nat -> bool) l : forall acc,
  let r := foldl (fun best i => if P i && (best <? rs i) then rs i else best) acc l in
  acc <= r /\ (r = acc \/ exists z, z ∈ l /\ P z = true /\ rs z = r) /\ (forall i, i ∈ l -> P i = true -> rs i <= r).
Proof.
  induction l as [|x l IH]; intros acc; cbn [foldl]; [split_and!; [lia|by left|set_solver]|].
  destruct (P x) eqn:Hx; cbn [andb].
  - destruct (Z.ltb_spec acc (rs x)) as [Hl|Hl].
    + destruct (IH (rs x)) as (H1 & H2 & H3). split; [lia|]. split.
      * right. destruct H2 as [->|(z & Hz & HP & Hr)]; [exists x|exists z]; set_solver.
      * intros i [->|Hi]%elem_of_cons HP; [done|by apply H3].
    + destruct (IH acc) as (H1 & H2 & H3). split; [done|]. split; [destruct H2 as [?|(z & ? & ? & ?)]; [by left|right; exists z; set_solver]|].
      intros i [->|Hi]%elem_of_cons HP; [lia|by apply H3].
  - destruct (IH acc) as (H1 & H2 & H3). split; [done|]. split; [destruct H2 as [?|(z & ? & ? & ?)]; [by left|right; exists z; set_solver]|].
    intros i [->|Hi]%elem_of_cons HP; [congruence|by apply H3].
Qed.

Lemma aud_seen i : aud i = true -> kRssiUnseen < rs i.
Proof. unfold audible. rewrite andb_true_iff, negb_true_iff, Z.eqb_neq. specialize (Hquiet i). lia. Qed.

(** The strongest signal that is left, or that there is none. *)
Lemma strongest_spec placed : let best := strongest n rssi floorDbm placed in
  if best =? kRssiUnseen then forall i, i ∈ remaining placed -> aud i = false
  else (exists z, z ∈ remaining placed /\ aud z = true /\ rs z = best) /\ forall i, i ∈ remaining placed -> aud i = true -> rs i <= best.
Proof.
  cbv zeta. destruct (strongest_fold (candidate rssi floorDbm placed) (seq 0 n) kRssiUnseen) as (H1 & H2 & H3).
  fold (strongest n rssi floorDbm placed) in *. assert (Hin : forall i, i ∈ remaining placed -> i ∈ seq 0 n) by (intros i Hi%elem_of_remaining; apply elem_of_seq; lia).
  assert (Hlt : forall i, i ∈ seq 0 n -> (i < n)%nat) by (intros i Hi%elem_of_seq; lia).
  assert (Hle : forall i, i ∈ remaining placed -> aud i = true -> rs i <= strongest n rssi floorDbm placed).
  { intros i Hi Ha. apply H3; [by apply Hin|]. apply candidate_remaining; [by apply Hlt, Hin|done]. }
  destruct (Z.eqb_spec (strongest n rssi floorDbm placed) kRssiUnseen) as [He|He].
  - intros i Hi. destruct (aud i) eqn:Ha; [|done]. specialize (Hle i Hi Ha). apply aud_seen in Ha. lia.
  - split; [|done]. destruct H2 as [H2|(z & Hz & HP & Hr)]; [done|]. apply candidate_remaining in HP as [HP Ha]; [|by apply Hlt]. by exists z.
Qed.

Lemma find_seq (f : nat -> bool) k : forall s,
  match List.find f (seq s k) with
  | Some i => (s <= i < s + k)%nat /\ f i = true /\ forall j, (s <= j < i)%nat -> f j = false
  | None => forall j, (s <= j < s + k)%nat -> f j = false
  end.
Proof.
  induction k as [|k IH]; intros s; cbn [seq List.find]; [intros; lia|]. destruct (f s) eqn:Hs; [split_and!; [lia..|done|intros; lia]|].
  specialize (IH (S s)). destruct (List.find _ _) as [i|].
  - destruct IH as (Hi & Hf & Hj). split_and!; [lia..|done|]. intros j Hr. destruct (decide (j = s)) as [->|]; [done|]. apply Hj. lia.
  - intros j Hr. destruct (decide (j = s)) as [->|]; [done|]. apply IH. lia.
Qed.

Lemma remaining_insert placed i : (n <= length placed)%nat -> i ∈ remaining placed -> remaining placed ≡ₚ i :: remaining (<[i := true]> placed).
Proof.
  intros Hl Hi. apply NoDup_Permutation.
  - unfold remaining. apply NoDup_ListNoDup, List.NoDup_filter, seq_NoDup.
  - constructor; [rewrite elem_of_remaining|unfold remaining; apply NoDup_ListNoDup, List.NoDup_filter, seq_NoDup].
    apply elem_of_remaining in Hi as [Hi _]. rewrite list_lookup_insert_eq by lia. cbn. intros [_ ?]. done.
  - intros j. rewrite elem_of_cons, !elem_of_remaining. apply elem_of_remaining in Hi as [Hi Hp]. destruct (decide (j = i)) as [->|Hne]; [naive_solver|].
    rewrite list_lookup_insert_ne by done. naive_solver.
Qed.

Lemma ruled_quiet l : StronglySorted lt l -> (forall i, i ∈ l -> aud i = false) -> ruled l.
Proof.
  induction 1 as [|x l _ IH Hx]; intros Hq; cbn [ruled]; [done|]. split; [|apply IH; set_solver].
  intros y Hy. assert (Ha : aud y = false) by (apply Hq; set_solver). rewrite Ha. split; [done|].
  rewrite Forall_forall in Hx. specialize (Hx y Hy). lia.
Qed.

Lemma remaining_sorted placed : StronglySorted lt (remaining placed).
Proof.
  unfold remaining. generalize 0%nat. induction n as [|k IH]; intros s; cbn [seq List.filter]; [constructor|].
  destruct (negb _); [|apply IH]. constructor; [apply IH|]. rewrite Forall_forall. intros x. rewrite list_elem_of_In, filter_In, in_seq. lia.
Qed.

Lemma place_loop_spec fuel : forall placed order, (n <= length placed)%nat -> (length (remaining placed) < fuel)%nat ->
  exists placed' l, place_loop n rssi floorDbm fuel placed order = Some (placed', order ++ l)
    /\ l ++ remaining placed' ≡ₚ remaining placed /\ ruled (l ++ remaining placed').
Proof.
  induction fuel as [|fuel IH]; intros placed order Hl Hf; [lia|]. cbn [place_loop]. pose proof (strongest_spec placed) as Hs. cbv zeta in *.
  set (best := strongest n rssi floorDbm placed) in *. destruct (best =? kRssiUnseen).
  - exists placed, []. rewrite app_nil_r. split_and!; [done..|]. apply ruled_quiet; [apply remaining_sorted|done].
  - destruct Hs as [(z & Hz & Hza & Hzb) Hmax]. pose proof (find_seq (fun i => candidate rssi floorDbm placed i && (best - join_near_tie_db <=? rs i)) n 0) as Hfind.
    unfold next_to_try. apply elem_of_remaining in Hz as Hzn. destruct (List.find _ _) as [i|].
    + destruct Hfind as (Hi & [Hc Hb%Z.leb_le]%andb_true_iff & Hbefore). apply candidate_remaining in Hc as [Hir Hia]; [|lia].
      pose proof (remaining_insert placed i Hl Hir) as Hperm. destruct (IH (<[i := true]> placed) (order ++ [i])) as (placed' & l & Heq & Hp & Hr).
      { by rewrite length_insert. }
      { apply Permutation_length in Hperm. cbn in Hperm. lia. }
      exists placed', (i :: l). rewrite Heq, <- app_assoc. cbn [app]. split; [done|]. split; [by rewrite Hp, Hperm|]. cbn [ruled]. split; [|done].
      intros y Hy. assert (Hyr : y ∈ remaining placed) by (rewrite Hperm, <- Hp; set_solver). split.
      * intros Hya. split; [done|]. specialize (Hmax y Hyr Hya). lia.
      * intros Hlt. split; [done|]. intros Hya. exists z. split; [|split; [done|]].
        -- rewrite Hp. by rewrite <- Hperm.
        -- specialize (Hbefore y ltac:(lia)). apply andb_false_iff in Hbefore as [Hcf|Hb'%Z.leb_gt]; [|lia].
           apply elem_of_remaining in Hyr as Hyn. assert (Ht : candidate rssi floorDbm placed y = true) by (apply candidate_remaining; [lia|done]). congruence.
    + exfalso. specialize (Hfind z ltac:(lia)). apply andb_false_iff in Hfind as [Hcf|Hb'%Z.leb_gt]; [|lia || (unfold join_near_tie_db in *; lia)].
      assert (Ht : candidate rssi floorDbm placed z = true) by (apply candidate_remaining; [lia|done]). congruence.
Qed.
End JoinRule.

(** The strongest sighting of an entry's SSID. *)
Definition loudest (n : SavedNetworks) (heard : list Sighting) (i : nat) : Z :=
  foldl Z.max kRssiUnseen (map sg_rssi (List.filter (fun s => bool_decide (find n (sg_ssid s) = Some i)) heard)).

Lemma length_hear n heard : forall r, length (foldl (hear n) r heard) = length r.
Proof.
  induction heard as [|s heard IH]; intros r; [done|]. cbn [foldl]. rewrite IH. unfold hear.
  destruct (find n _); [|done]. destruct (_ <? _); [apply length_insert|done].
Qed.

Lemma heard_rssi_loudest n heard i : (i < kCapacity)%nat -> rssi_at (heard_rssi n heard) i = loudest n heard i.
Proof.
  intros Hi. unfold heard_rssi, loudest.
  assert (Hg : forall r, length r = kCapacity -> rssi_at (foldl (hear n) r heard) i
    = foldl Z.max (rssi_at r i) (map sg_rssi (List.filter (fun s => bool_decide (find n (sg_ssid s) = Some i)) heard))).
  { induction heard as [|s heard IH]; intros r Hr; [done|]. cbn [foldl List.filter]. rewrite IH.
    - unfold hear. destruct (find n (sg_ssid s)) as [j|]; [|by rewrite bool_decide_false].
      destruct (decide (j = i)) as [->|Hne].
      + rewrite bool_decide_true by done. cbn [map foldl]. f_equal. fold (rssi_at r i). destruct (Z.ltb_spec (rssi_at r i) (sg_rssi s)) as [Hl|Hl].
        * unfold rssi_at at 1. rewrite list_lookup_insert_eq by lia. cbn. lia.
        * lia.
      + rewrite bool_decide_false by congruence. destruct (_ <? _); [|done]. f_equal. unfold rssi_at. by rewrite list_lookup_insert_ne by congruence.
    - unfold hear. destruct (find n _); [|done]. destruct (_ <? _); [by rewrite length_insert|done]. }
  rewrite Hg by apply length_replicate. f_equal. unfold rssi_at. by rewrite lookup_replicate_2.
Qed.

Lemma foldl_max l : forall acc, acc <= foldl Z.max acc l.
Proof. induction l as [|x l IH]; intros acc; cbn; [lia|]. specialize (IH (Z.max acc x)). lia. Qed.

Lemma heard_rssi_seen n heard i : kRssiUnseen <= rssi_at (heard_rssi n heard) i.
Proof.
  destruct (decide (i < kCapacity)%nat) as [Hi|Hi]; [rewrite heard_rssi_loudest by done; apply foldl_max|].
  unfold rssi_at. rewrite lookup_ge_None_2; [done|]. unfold heard_rssi. rewrite length_hear, length_replicate. lia.
Qed.

(** C20. The join rule: the loop ends, every saved network is tried exactly once, each with the strongest signal any of
    its sightings had, and the order obeys the rule at every place: what is heard goes before what is not, a
    network is passed over only for one that is more than 3 dB stronger than it, and goes before a stronger one
    only within 3 dB; what is not heard keeps the order of the list. *)
Theorem join_order_obeys_the_rule (ops : list NetOp) (heard : list Sighting) (floorDbm : Z) :
  let n := edits ops in
  exists order rssi, joinOrder n heard floorDbm = Some (order, rssi)
    /\ order ≡ₚ seq 0 (sn_count n) /\ (forall i, (i < kCapacity)%nat -> rssi_at rssi i = loudest n heard i)
    /\ ruled rssi floorDbm order.
Proof.
  cbv zeta. set (n := edits ops). assert (Hc : (sn_count n <= kCapacity)%nat).
  { destruct (edits_good ops) as (l & last & Hl & Hr & _). unfold n. by rewrite Hl. }
  clearbody n. unfold joinOrder.
  set (rssi := heard_rssi n heard). assert (Hrem : remaining (sn_count n) (replicate kCapacity false) = seq 0 (sn_count n)).
  { unfold remaining. apply List.forallb_filter_id, forallb_forall. intros i Hi%in_seq. by rewrite lookup_replicate_2 by lia. }
  destruct (place_loop_spec (sn_count n) rssi floorDbm (heard_rssi_seen n heard) (S (sn_count n)) (replicate kCapacity false) [])
    as (placed & l & Heq & Hp & Hr); [by rewrite length_replicate|rewrite Hrem, length_seq; lia|].
  rewrite Heq. cbn [app]. exists (l ++ remaining (sn_count n) placed), rssi. split; [done|]. rewrite Hrem in Hp.
  split_and!; [done| |done]. intros i Hi. by apply heard_rssi_loudest.
Qed.

(** ** What [validUtf8] accepts *)

(** RFC 3629: a scalar value, and its bytes. *)
Definition scalar (cp : Z) : Prop := 0 <= cp < 0xD800 \/ 0xE000 <= cp <= 0x10FFFF.

Definition utf8 (cp : Z) : list byte :=
  if cp <? 0x80 then [z2b cp]
  else if cp <? 0x800 then [z2b (0xC0 + cp / 64); z2b (0x80 + cp mod 64)]
  else if cp <? 0x10000 then [z2b (0xE0 + cp / 4096); z2b (0x80 + cp / 64 mod 64); z2b (0x80 + cp mod 64)]
  else [z2b (0xF0 + cp / 262144); z2b (0x80 + cp / 4096 mod 64); z2b (0x80 + cp / 64 mod 64); z2b (0x80 + cp mod 64)].

Lemma lead_spec (c : byte) : lead (b2z c) =
  let c := b2z c in
  if (0xC0 <=? c) && (c <? 0xE0) then Some (1%nat, c - 0xC0)
  else if (0xE0 <=? c) && (c <? 0xF0) then Some (2%nat, c - 0xE0)
  else if (0xF0 <=? c) && (c <? 0xF8) then Some (3%nat, c - 0xF0)
  else None.
Proof. by destruct c. Qed.

Definition follows_lead (d : byte) : bool := (0x80 <=? b2z d) && (b2z d <? 0xC0).

Lemma follows_lead_spec d : (Z.land (b2z d) 0xC0 =? 0x80) = follows_lead d /\ (follows_lead d = true -> Z.land (b2z d) 0x3F = b2z d - 0x80).
Proof. by destruct d. Qed.

Lemma trail_S k cp d s : 0 <= cp < 2 ^ 20 ->
  trail (S k) cp (d :: s) = if follows_lead d then trail k (cp * 64 + (b2z d - 0x80)) s else None.
Proof.
  intros Hc. cbn [trail]. destruct (follows_lead_spec d) as [-> Hl]. destruct (follows_lead d) eqn:Hd; [|done]. cbn [negb]. rewrite Hl by done.
  f_equal. unfold follows_lead in Hd. apply andb_true_iff in Hd as [Hlo%Z.leb_le Hhi%Z.ltb_lt].
  rewrite wrap_small by (unfold in_u; rewrite Z.shiftl_mul_pow2 by lia; lia). rewrite shiftl_lor_add by lia. lia.
Qed.

(** The bytes of a scalar value, from the bits. *)
Lemma utf8_1 (c : byte) : b2z c < 0x80 -> scalar (b2z c) /\ utf8 (b2z c) = [c].
Proof. intros Hc. pose proof (b2z_range c). split; [left; lia|]. unfold utf8. by rewrite (proj2 (Z.ltb_lt _ _)), z2b_b2z by lia. Qed.

Lemma z2b_is z c : z = b2z c -> z2b z = c.
Proof. intros ->. apply z2b_b2z. Qed.

Lemma utf8_2 (c d : byte) : let cp := (b2z c - 0xC0) * 64 + (b2z d - 0x80) in
  0xC0 <= b2z c < 0xE0 -> 0x80 <= b2z d < 0xC0 -> 0x80 <= cp -> utf8 cp = [c; d].
Proof.
  cbv zeta. intros Hc Hd Hcp. unfold utf8. set (cp := _ + _) in *. rewrite (proj2 (Z.ltb_ge cp 0x80)), (proj2 (Z.ltb_lt cp 0x800)) by lia.
  assert (Hm : cp / 64 = b2z c - 0xC0 /\ cp mod 64 = b2z d - 0x80) by (unfold cp; Z.div_mod_to_equations; lia). destruct Hm as [-> ->].
  by rewrite (z2b_is _ c), (z2b_is _ d) by lia.
Qed.

Lemma utf8_3 (c d e : byte) : let cp := ((b2z c - 0xE0) * 64 + (b2z d - 0x80)) * 64 + (b2z e - 0x80) in
  0xE0 <= b2z c < 0xF0 -> 0x80 <= b2z d < 0xC0 -> 0x80 <= b2z e < 0xC0 -> 0x800 <= cp -> utf8 cp = [c; d; e].
Proof.
  cbv zeta. intros Hc Hd He Hcp. unfold utf8. set (cp := _ + _) in *.
  rewrite (proj2 (Z.ltb_ge cp 0x80)), (proj2 (Z.ltb_ge cp 0x800)), (proj2 (Z.ltb_lt cp 0x10000)) by lia.
  assert (Hm : cp / 4096 = b2z c - 0xE0 /\ cp / 64 mod 64 = b2z d - 0x80 /\ cp mod 64 = b2z e - 0x80) by (unfold cp; Z.div_mod_to_equations; lia).
  destruct Hm as (-> & -> & ->). by rewrite (z2b_is _ c), (z2b_is _ d), (z2b_is _ e) by lia.
Qed.

Lemma utf8_4 (c d e f : byte) : let cp := (((b2z c - 0xF0) * 64 + (b2z d - 0x80)) * 64 + (b2z e - 0x80)) * 64 + (b2z f - 0x80) in
  0xF0 <= b2z c < 0xF8 -> 0x80 <= b2z d < 0xC0 -> 0x80 <= b2z e < 0xC0 -> 0x80 <= b2z f < 0xC0 -> 0x10000 <= cp -> utf8 cp = [c; d; e; f].
Proof.
  cbv zeta. intros Hc Hd He Hf Hcp. unfold utf8. set (cp := _ + _) in *.
  rewrite (proj2 (Z.ltb_ge cp 0x80)), (proj2 (Z.ltb_ge cp 0x800)), (proj2 (Z.ltb_ge cp 0x10000)) by lia.
  assert (Hm : cp / 262144 = b2z c - 0xF0 /\ cp / 4096 mod 64 = b2z d - 0x80 /\ cp / 64 mod 64 = b2z e - 0x80 /\ cp mod 64 = b2z f - 0x80)
    by (unfold cp; Z.div_mod_to_equations; lia).
  destruct Hm as (-> & -> & -> & ->). by rewrite (z2b_is _ c), (z2b_is _ d), (z2b_is _ e), (z2b_is _ f) by lia.
Qed.

Lemma follows_range d : follows_lead d = true <-> 0x80 <= b2z d < 0xC0.
Proof. unfold follows_lead. rewrite andb_true_iff, Z.leb_le, Z.ltb_lt. lia. Qed.

(** What a turn accepts is a scalar value's bytes. *)
Lemma utf8_turn fuel c rest : utf8_loop (S fuel) (c :: rest) = true ->
  exists cp tl, scalar cp /\ c :: rest = utf8 cp ++ tl /\ utf8_loop fuel tl = true.
Proof.
  cbn [utf8_loop]. pose proof (b2z_range c) as Hc. destruct (Z.ltb_spec (b2z c) 0x80) as [Ha|Ha].
  { intros Ht. destruct (utf8_1 c Ha) as [Hs Hu]. exists (b2z c), rest. by rewrite Hu. }
  rewrite lead_spec. cbv zeta. destruct ((0xC0 <=? b2z c) && (b2z c <? 0xE0)) eqn:H2; [|destruct ((0xE0 <=? b2z c) && (b2z c <? 0xF0)) eqn:H3;
    [|destruct ((0xF0 <=? b2z c) && (b2z c <? 0xF8)) eqn:H4; [|done]]].
  all: repeat match goal with H : (_ && _) = true |- _ => apply andb_true_iff in H as [?%Z.leb_le ?%Z.ltb_lt] end.
  - destruct rest as [|d rest]; [done|]. cbn [length]. replace (S (S (length rest)) <=? 1)%nat with false by done. rewrite trail_S by lia. 
    destruct (follows_lead d) eqn:Hd; [|done]. apply follows_range in Hd. cbn [trail kMin drop]. set (cp := _ + _) in *.
    destruct (_ || _) eqn:Hb; [done|]. intros Ht. exists cp, rest. rewrite !orb_false_iff, !Z.ltb_ge in Hb. destruct Hb as [[Hb1 Hb2] Hb3].
    rewrite andb_false_iff, !Z.leb_gt in Hb3. unfold cp. rewrite utf8_2 by (done || lia). split; [unfold scalar; lia|done].
  - destruct rest as [|d [|e rest]]; [done..|]. cbn [length]. replace (S (S (S (length rest))) <=? 2)%nat with false by done. rewrite trail_S by lia. 
    destruct (follows_lead d) eqn:Hd; [|done]. apply follows_range in Hd. rewrite trail_S by lia.
    destruct (follows_lead e) eqn:He; [|done]. apply follows_range in He. cbn [trail kMin drop]. set (cp := _ + _) in *.
    destruct (_ || _) eqn:Hb; [done|]. intros Ht. exists cp, rest. rewrite !orb_false_iff, !Z.ltb_ge in Hb. destruct Hb as [[Hb1 Hb2] Hb3].
    rewrite andb_false_iff, !Z.leb_gt in Hb3. unfold cp. rewrite utf8_3 by (done || lia). split; [unfold scalar; lia|done].
  - destruct rest as [|d [|e [|f rest]]]; [done..|]. cbn [length]. replace (S (S (S (S (length rest)))) <=? 3)%nat with false by done. rewrite trail_S by lia. 
    destruct (follows_lead d) eqn:Hd; [|done]. apply follows_range in Hd. rewrite trail_S by lia.
    destruct (follows_lead e) eqn:He; [|done]. apply follows_range in He. rewrite trail_S by lia.
    destruct (follows_lead f) eqn:Hf; [|done]. apply follows_range in Hf. cbn [trail kMin drop]. set (cp := _ + _) in *.
    destruct (_ || _) eqn:Hb; [done|]. intros Ht. exists cp, rest. rewrite !orb_false_iff, !Z.ltb_ge in Hb. destruct Hb as [[Hb1 Hb2] Hb3].
    rewrite andb_false_iff, !Z.leb_gt in Hb3. unfold cp. rewrite utf8_4 by (done || lia). split; [unfold scalar; lia|done].
Qed.

Lemma trail_utf8 k cp m s : 0 <= cp < 2 ^ 20 -> 0 <= m < 64 -> trail (S k) cp (z2b (0x80 + m) :: s) = trail k (cp * 64 + m) s.
Proof.
  intros Hc Hm. rewrite trail_S by done. assert (Hz : b2z (z2b (0x80 + m)) = 0x80 + m) by (apply b2z_z2b_small; lia).
  rewrite (proj2 (follows_range _)) by (rewrite Hz; lia). rewrite Hz. f_equal. lia.
Qed.

(** A scalar value's bytes are accepted, and the rest is looked at next. *)
Lemma utf8_accepts fuel cp tl : scalar cp -> utf8_loop (S fuel) (utf8 cp ++ tl) = utf8_loop fuel tl.
Proof.
  intros Hs. unfold utf8, scalar in *. pose proof (Z.mod_pos_bound cp 64 ltac:(lia)) as Hm.
  pose proof (Z.mod_pos_bound (cp / 64) 64 ltac:(lia)) as Hm1. pose proof (Z.mod_pos_bound (cp / 4096) 64 ltac:(lia)) as Hm2.
  destruct (Z.ltb_spec cp 0x80); [|destruct (Z.ltb_spec cp 0x800); [|destruct (Z.ltb_spec cp 0x10000)]].
  - cbn [app utf8_loop]. rewrite b2z_z2b_small by lia. by rewrite (proj2 (Z.ltb_lt _ _)).
  - assert (Hq : 2 <= cp / 64 < 32) by (Z.div_mod_to_equations; lia). cbn [app utf8_loop]. rewrite lead_spec. cbv zeta. rewrite b2z_z2b_small by lia.
    rewrite (proj2 (Z.ltb_ge (0xC0 + _) 0x80)), (proj2 (Z.leb_le 0xC0 _)), (proj2 (Z.ltb_lt _ 0xE0)) by lia. cbn [andb length]. replace (S (S (length tl)) <=? 1)%nat with false by done.
    rewrite trail_utf8 by lia. cbn [trail kMin drop]. replace ((0xC0 + cp / 64 - 0xC0) * 64 + cp mod 64) with cp by (Z.div_mod_to_equations; lia).
    rewrite (proj2 (Z.ltb_ge cp 0x80)), (proj2 (Z.ltb_ge _ cp)), (proj2 (Z.leb_gt _ cp)) by lia. done.
  - assert (Hq : 0 <= cp / 4096 < 16) by (Z.div_mod_to_equations; lia). cbn [app utf8_loop]. rewrite lead_spec. cbv zeta. rewrite b2z_z2b_small by lia.
    rewrite (proj2 (Z.ltb_ge (0xE0 + _) 0x80)), (proj2 (Z.leb_le 0xC0 _)), (proj2 (Z.ltb_ge _ 0xE0)), (proj2 (Z.leb_le 0xE0 _)), (proj2 (Z.ltb_lt _ 0xF0)) by lia.
    cbn [andb length]. replace (S (S (S (length tl))) <=? 2)%nat with false by done.
    rewrite !trail_utf8 by lia. cbn [trail kMin drop]. replace ((0xE0 + cp / 4096 - 0xE0) * 64 + cp / 64 mod 64) with (cp / 64) by (Z.div_mod_to_equations; lia).
    replace (cp / 64 * 64 + cp mod 64) with cp by (Z.div_mod_to_equations; lia).
    rewrite !(proj2 (Z.ltb_ge _ _)) by lia. destruct Hs.
    { by rewrite (proj2 (Z.leb_gt _ cp)) by lia. }
    by rewrite (proj2 (Z.leb_gt cp 0xDFFF)), andb_false_r by lia.
  - assert (Hq : 0 <= cp / 262144 < 5) by (Z.div_mod_to_equations; lia). cbn [app utf8_loop]. rewrite lead_spec. cbv zeta. rewrite b2z_z2b_small by lia.
    rewrite (proj2 (Z.ltb_ge (0xF0 + _) 0x80)), (proj2 (Z.leb_le 0xC0 _)), (proj2 (Z.ltb_ge _ 0xE0)), (proj2 (Z.leb_le 0xE0 _)), (proj2 (Z.ltb_ge _ 0xF0)),
      (proj2 (Z.leb_le 0xF0 _)), (proj2 (Z.ltb_lt _ 0xF8)) by lia.
    cbn [andb length]. replace (S (S (S (S (length tl)))) <=? 3)%nat with false by done.
    assert (H4 : cp / 262144 * 64 + cp / 4096 mod 64 = cp / 4096) by (Z.div_mod_to_equations; lia).
    assert (H3 : cp / 4096 * 64 + cp / 64 mod 64 = cp / 64) by (Z.div_mod_to_equations; lia).
    assert (H2 : cp / 64 * 64 + cp mod 64 = cp) by (Z.div_mod_to_equations; lia).
    assert (Hb : cp / 4096 < 2 ^ 14 /\ cp / 64 < 2 ^ 20 /\ 0 <= cp / 4096 /\ 0 <= cp / 64) by (Z.div_mod_to_equations; lia).
    replace (0xF0 + cp / 262144 - 0xF0) with (cp / 262144) by lia.
    rewrite trail_utf8, H4 by lia. rewrite trail_utf8, H3 by lia. rewrite trail_utf8, H2 by lia. cbn [trail kMin drop].
    rewrite !(proj2 (Z.ltb_ge _ _)) by lia. by rewrite (proj2 (Z.leb_gt cp 0xDFFF)), andb_false_r by lia.
Qed.

Lemma utf8_nonempty cp : (1 <= length (utf8 cp))%nat.
Proof. unfold utf8. destruct (_ <? _); [|destruct (_ <? _); [|destruct (_ <? _)]]; cbn; lia. Qed.

Lemma utf8_loop_spec fuel : forall s, (length s <= fuel)%nat ->
  utf8_loop fuel s = true <-> exists cps, Forall scalar cps /\ s = concat (map utf8 cps).
Proof.
  induction fuel as [|fuel IH]; intros s Hl.
  - destruct s; [|cbn in Hl; lia]. split; [intros _; by exists []|done].
  - split.
    + destruct s as [|c rest]; [intros _; by exists []|]. intros (cp & tl & Hs & Heq & Ht)%utf8_turn. apply IH in Ht as (cps & Hc & ->).
      * exists (cp :: cps). split; [by constructor|done].
      * rewrite Heq, length_app in Hl. pose proof (utf8_nonempty cp). lia.
    + intros (cps & Hc & ->). destruct Hc as [|cp cps Hs Hc]; [done|]. cbn [map concat]. rewrite utf8_accepts by done.
      apply IH; [|by exists cps]. cbn [map concat] in Hl. rewrite length_app in Hl. pose proof (utf8_nonempty cp). lia.
Qed.

(** C21. The UTF-8 check accepts exactly the byte strings that are the encodings of sequences of Unicode scalar values:
    nothing overlong, no surrogate, nothing past U+10FFFF, nothing cut short. *)
Theorem validUtf8_exact (s : list byte) :
  validUtf8 s = true <-> exists cps, Forall scalar cps /\ s = concat (map utf8 cps).
Proof. by apply utf8_loop_spec. Qed.

(** ** The table keeps the best *)

(** A scan's rows without a bound: one per SSID, the first of its strongest sightings. *)
Fixpoint raise (c : Row) (l : list Row) : list Row :=
  match l with
  | [] => [c]
  | r :: l => if bool_decide (rw_view r = rw_view c) then (if rw_rssi r <? rw_rssi c then c else r) :: l else r :: raise c l
  end.

Definition rows_heard (heard : list Sighting) : list Row :=
  foldl (fun l s => if publishable s then raise (row s) l else l) [] heard.

Lemma bytes_lt_irrefl a : bytes_lt a a = false.
Proof. induction a as [|x a IH]; [done|]. cbn. by rewrite Z.ltb_irrefl, IH, andb_false_r. Qed.

Lemma bytes_lt_trans a : forall b c, bytes_lt a b = true -> bytes_lt b c = true -> bytes_lt a c = true.
Proof.
  induction a as [|x a IH]; intros [|y b] [|z c]; cbn; try done.
  rewrite !orb_true_iff, !andb_true_iff, !Z.ltb_lt, !Z.eqb_eq. intros [H1|[H1 H1']] [H2|[H2 H2']]; try (left; lia).
  right. split; [lia|]. by apply (IH b).
Qed.

Lemma bytes_lt_total a : forall b, bytes_lt a b = false -> bytes_lt b a = false -> a = b.
Proof.
  induction a as [|x a IH]; intros [|y b]; cbn; try done.
  rewrite !orb_false_iff, !andb_false_iff, !Z.ltb_ge, !Z.eqb_neq. intros [H1 H1'] [H2 H2']. assert (Hxy : b2z x = b2z y) by lia.
  f_equal; [by rewrite <- (z2b_b2z x), <- (z2b_b2z y), Hxy|]. apply IH; [by destruct H1'|by destruct H2'].
Qed.

Lemma before_spec a b : before a b = true <-> rw_rssi b < rw_rssi a \/ (rw_rssi a = rw_rssi b /\ bytes_lt (rw_view a) (rw_view b) = true).
Proof.
  unfold before. destruct (Z.eqb_spec (rw_rssi a) (rw_rssi b)) as [He|He]; cbn [negb]; [|rewrite Z.ltb_lt]; intuition lia.
Qed.

Lemma before_trans a b c : before a b = true -> before b c = true -> before a c = true.
Proof.
  rewrite !before_spec. intros [H1|[H1 H1']] [H2|[H2 H2']]; [left; lia..|]. right. split; [lia|]. by apply (bytes_lt_trans _ (rw_view b)).
Qed.

Lemma before_asym a b : before a b = true -> before b a = false.
Proof.
  intros Hab. apply not_true_iff_false. intros Hba. pose proof (before_trans _ _ _ Hab Hba) as Haa. apply before_spec in Haa as [?|[_ H]]; [lia|].
  by rewrite bytes_lt_irrefl in H.
Qed.

Lemma before_total a b : rw_view a <> rw_view b -> before a b = false -> before b a = true.
Proof.
  intros Hne Hab. apply not_false_iff_true. intros Hba. apply Hne. 
  assert (Hr : rw_rssi a = rw_rssi b).
  { destruct (Z.lt_total (rw_rssi a) (rw_rssi b)) as [Hl|[He|Hl]]; [|done|].
    - assert (before b a = true) by (apply before_spec; by left). congruence.
    - assert (before a b = true) by (apply before_spec; by left). congruence. }
  unfold before in Hab, Hba. rewrite Hr, Z.eqb_refl in Hab, Hba. by apply bytes_lt_total.
Qed.

(** A stronger sighting of the same SSID goes wherever the old one went. *)
Lemma before_raised c b x : rw_rssi b < rw_rssi c -> before b x = true -> before c x = true.
Proof. rewrite !before_spec. intros Hl [H|[H _]]; left; lia. Qed.

Lemma raise_spec c l : NoDup (map rw_view l) ->
  (rw_view c ∉ map rw_view l /\ raise c l ≡ₚ c :: l)
  \/ exists u l0, l ≡ₚ u :: l0 /\ rw_view u = rw_view c /\ raise c l ≡ₚ (if rw_rssi u <? rw_rssi c then c else u) :: l0.
Proof.
  induction l as [|r l IH]; cbn [map raise]; intros Hnd; [by left; split; [set_solver|]|]. apply NoDup_cons in Hnd as [Hr Hnd].
  case_bool_decide as Hv; [right; by exists r, l|]. destruct (IH Hnd) as [[Hn Hp]|(u & l0 & Hl & Hu & Hp)].
  - left. split; [set_solver|]. rewrite Hp. apply Permutation_swap.
  - right. exists u, (r :: l0). split; [rewrite Hl; apply Permutation_swap|]. split; [done|]. rewrite Hp. apply Permutation_swap.
Qed.

Lemma insert_perm {A} (l : list A) i b : l !! i = Some b -> exists l0, l ≡ₚ b :: l0 /\ forall c, <[i := c]> l ≡ₚ c :: l0.
Proof.
  intros Hb. exists (delete i l). split; [by apply delete_Permutation|]. intros c. rewrite (delete_Permutation (<[i := c]> l) i c).
  - by rewrite !delete_take_drop, take_insert_ge, drop_insert_lt by lia.
  - apply list_lookup_insert_eq. by eapply lookup_lt_Some.
Qed.

(** [before] is a strict weak order, which is what [std::sort] asks of it. *)
Lemma before_between a b c : before c a = true -> before c b = true \/ before b a = true.
Proof.
  intros Hca. destruct (before c b) eqn:Hcb; [by left|]. destruct (before b a) eqn:Hba; [by right|]. exfalso.
  destruct (decide (rw_view c = rw_view b)) as [He|Hne].
  - assert (Hr : rw_rssi c = rw_rssi b \/ rw_rssi c <> rw_rssi b) by lia. rewrite before_spec in Hca. unfold before in Hcb, Hba.
    rewrite He in *. destruct (Z.eqb_spec (rw_rssi c) (rw_rssi b)), (Z.eqb_spec (rw_rssi b) (rw_rssi a)); cbn [negb] in *;
      rewrite ?Z.ltb_ge in *; intuition (lia || congruence).
  - apply before_total in Hcb; [|done]. pose proof (before_trans _ _ _ Hcb Hca). congruence.
Qed.

#[export] Instance not_after_trans : Transitive not_after.
Proof.
  unfold not_after. intros a b c Hab Hbc. apply not_true_iff_false. intros Hca. destruct (before_between a b c Hca); congruence.
Qed.

#[export] Instance not_after_total : Total not_after.
Proof. intros a b. unfold not_after. destruct (before b a) eqn:Hb; [right; by apply before_asym|by left]. Qed.

Lemma weakest_spec (r : list Row) n : (0 < n <= length r)%nat -> NoDup (map rw_view (take n r)) ->
  (weakest_of r n < n)%nat /\ forall i, (i < n)%nat -> i <> weakest_of r n -> before (row_at r i) (row_at r (weakest_of r n)) = true.
Proof.
  intros Hn Hnd. unfold weakest_of.
  assert (Hv : forall i j, (i < n)%nat -> (j < n)%nat -> i <> j -> rw_view (row_at r i) <> rw_view (row_at r j)).
  { intros i j Hi Hj Hne He. apply Hne. destruct (lookup_lt_is_Some_2 r i ltac:(lia)) as [x Hx], (lookup_lt_is_Some_2 r j ltac:(lia)) as [y Hy].
    unfold row_at in He. rewrite Hx, Hy in He. cbn in He. eapply (NoDup_lookup _ i j); [exact Hnd| |]; rewrite list_lookup_fmap, lookup_take_lt by done.
    - by rewrite Hx.
    - rewrite Hy. cbn. by rewrite He. }
  assert (Hk : forall k, (k < n)%nat -> let w := foldl (fun w i => if before (row_at r w) (row_at r i) then i else w) 0%nat (seq 1 k) in
    (w <= k)%nat /\ forall i, (i <= k)%nat -> i <> w -> before (row_at r i) (row_at r w) = true).
  { induction k as [|k IH]; intros Hk; cbv zeta; [split; [done|]; intros i Hi Hne; cbn in Hne; lia|].
    rewrite seq_S, foldl_app. cbn [foldl]. destruct (IH ltac:(lia)) as [Hw Hb]. set (w := foldl _ 0%nat (seq 1 k)) in *. cbn [Nat.add].
    destruct (before (row_at r w) (row_at r (S k))) eqn:Hbk.
    - split; [done|]. intros i Hi Hne. destruct (decide (i = w)) as [->|Hiw]; [done|]. eapply before_trans; [apply Hb; [lia|done]|done].
    - split; [lia|]. intros i Hi Hne. destruct (decide (i = S k)) as [->|Hik]; [|apply Hb; [lia|done]]. apply before_total; [|done].
      apply Hv; lia. }
  destruct (Hk (n - 1)%nat ltac:(lia)) as [Hw Hb]. cbv zeta in *. split; [lia|]. intros i Hi Hne. apply Hb; [lia|done].
Qed.

Lemma find_row_spec (r : list Row) n s :
  let a := foldl (fun a i => if bool_decide (rw_view (row_at r i) = s) then i else a) n (seq 0 n) in
  (a = n /\ forall i, (i < n)%nat -> rw_view (row_at r i) <> s) \/ ((a < n)%nat /\ rw_view (row_at r a) = s).
Proof.
  cbv zeta. assert (Hk : forall k, (k <= n)%nat -> let a := foldl (fun a i => if bool_decide (rw_view (row_at r i) = s) then i else a) n (seq 0 k) in
    (a = n /\ forall i, (i < k)%nat -> rw_view (row_at r i) <> s) \/ ((a < n)%nat /\ rw_view (row_at r a) = s)).
  { induction k as [|k IH]; intros Hk; cbv zeta; [by left; split; [|lia]|]. rewrite seq_S, foldl_app. cbn [foldl Nat.add].
    case_bool_decide as Hv; [by right|]. destruct (IH ltac:(lia)) as [[Ha Hi]|Ha]; [left|by right]. split; [done|].
    intros i Hlt. destruct (decide (i = k)) as [->|]; [done|]. apply Hi. lia. }
  by apply Hk.
Qed.

(** The table beside the unbounded one: it lacks only rows that all of its own come before, and only when full. *)
Definition keeps_best (t : list Row * nat) (u : list Row) : Prop :=
  let '(r, n) := t in
  length r = kRows /\ (n <= kRows)%nat /\ NoDup (map rw_view u)
  /\ exists rest, u ≡ₚ take n r ++ rest /\ ((n < kRows)%nat -> rest = []) /\ forall b x, b ∈ take n r -> x ∈ rest -> before b x = true.

Lemma row_view s : publishable s = true -> rw_view (row s) = sg_ssid s.
Proof.
  unfold publishable. rewrite negb_true_iff, !orb_false_iff. intros [[[_ Hl%Nat.ltb_ge] _] _]. unfold rw_view, row. cbn [rw_len rw_ssid Row_new].
  rewrite wrap_small by (unfold in_u, kSsidMax in *; lia). rewrite Nat2Z.id, splice_0. by rewrite take_app_length.
Qed.

Lemma NoDup_raise c l : NoDup (map rw_view l) -> NoDup (map rw_view (raise c l)).
Proof.
  intros Hnd. destruct (raise_spec c l Hnd) as [[Hn Hp]|(u & l0 & Hl & Hu & Hp)].
  - rewrite Hp. cbn. by constructor.
  - rewrite Hp. rewrite Hl in Hnd. cbn in *. destruct (_ <? _); [by rewrite <- Hu|done].
Qed.

Lemma elem_views l (x : Row) : x ∈ l -> rw_view x ∈ map rw_view l.
Proof. intros Hx. by apply list_elem_of_fmap_2. Qed.

Lemma NoDup_views_inj l (x y : Row) : NoDup (map rw_view l) -> x ∈ l -> y ∈ l -> rw_view x = rw_view y -> x = y.
Proof.
  intros Hnd [i Hi]%list_elem_of_lookup [j Hj]%list_elem_of_lookup Hv.
  assert (i = j); [|congruence]. eapply NoDup_lookup; [exact Hnd|..]; rewrite list_lookup_fmap; [by rewrite Hi|rewrite Hj; cbn; by rewrite Hv].
Qed.

(** A full table meets an SSID it does not have. *)
Lemma best_full c w (b0 rest u : list Row) :
  u ≡ₚ (w :: b0) ++ rest -> NoDup (map rw_view u) -> (forall b, b ∈ b0 -> before b w = true) ->
  (forall b x, b ∈ w :: b0 -> x ∈ rest -> before b x = true) -> rw_view c ∉ map rw_view (w :: b0) ->
  let kept := if before c w then c :: b0 else w :: b0 in
  exists rest', raise c u ≡ₚ kept ++ rest' /\ forall b x, b ∈ kept -> x ∈ rest' -> before b x = true.
Proof.
  intros Hu Hnd Hw Hr Hc. cbv zeta.
  assert (Hcw : before c w = false -> forall b, b ∈ w :: b0 -> before b c = true).
  { intros Hb b [->|Hin]%elem_of_cons; (apply before_total in Hb; [|cbn in Hc; set_solver]); [done|]. eapply before_trans; [by apply Hw|done]. }
  destruct (raise_spec c u Hnd) as [[Hn Hp]|(r0 & l0 & Hl & Hv & Hp)].
  - destruct (before c w) eqn:Hb.
    + exists (w :: rest). split; [rewrite Hp, Hu; cbn; apply Permutation_skip, Permutation_middle|].
      intros b x Hin [->|Hx]%elem_of_cons; apply elem_of_cons in Hin as [->|Hin]; [done|by apply Hw|eapply before_trans; [exact Hb|apply Hr; set_solver]|apply Hr; set_solver].
    + exists (c :: rest). split; [rewrite Hp, Hu; apply Permutation_middle|].
      intros b x Hin [->|Hx]%elem_of_cons; [by apply Hcw|by apply Hr].
  - assert (Hin : r0 ∈ rest).
    { assert (Hin : r0 ∈ (w :: b0) ++ rest) by (rewrite <- Hu, Hl; set_solver). apply elem_of_app in Hin as [Hin|Hin]; [|done].
      apply elem_views in Hin. rewrite Hv in Hin. done. }
    apply elem_of_Permutation in Hin as [rest0 Hrest]. assert (Hl0 : l0 ≡ₚ (w :: b0) ++ rest0).
    { apply (Permutation_cons_inv (a := r0)). rewrite <- Hl, Hu, Hrest. by rewrite <- Permutation_middle. }
    assert (Hr0 : forall b x, b ∈ w :: b0 -> x ∈ rest0 -> before b x = true) by (intros b x Hb Hx; apply Hr; [done|rewrite Hrest; set_solver]).
    assert (Hwr : before w r0 = true) by (apply Hr; [set_solver|rewrite Hrest; set_solver]).
    destruct (before c w) eqn:Hb.
    + assert (Hlt : rw_rssi r0 < rw_rssi c).
      { pose proof (before_trans _ _ _ Hb Hwr) as Hcr. apply before_spec in Hcr as [?|[_ Hcr]]; [done|]. rewrite Hv, bytes_lt_irrefl in Hcr. done. }
      rewrite (proj2 (Z.ltb_lt _ _) Hlt) in Hp. exists (w :: rest0).
      split; [rewrite Hp, Hl0; cbn; apply Permutation_skip, Permutation_middle|].
      intros b x Hin [->|Hx]%elem_of_cons; apply elem_of_cons in Hin as [->|Hin]; [done|by apply Hw|eapply before_trans; [exact Hb|apply Hr0; set_solver]|apply Hr0; set_solver].
    + eexists (_ :: rest0). split; [rewrite Hp, Hl0; apply Permutation_middle|].
      intros b x Hin [->|Hx]%elem_of_cons; [|by apply Hr0]. destruct (_ <? _); [by apply Hcw|]. apply Hr; [done|]. rewrite Hrest. set_solver.
Qed.

(** The table has the SSID: its row is raised. *)
Lemma best_same c b (b0 rest u : list Row) :
  u ≡ₚ (b :: b0) ++ rest -> NoDup (map rw_view u) -> (forall y x, y ∈ b :: b0 -> x ∈ rest -> before y x = true) -> rw_view b = rw_view c ->
  let kept := (if rw_rssi b <? rw_rssi c then c else b) :: b0 in
  raise c u ≡ₚ kept ++ rest /\ forall y x, y ∈ kept -> x ∈ rest -> before y x = true.
Proof.
  intros Hu Hnd Hr Hb. cbv zeta. destruct (raise_spec c u Hnd) as [[Hn _]|(r0 & l0 & Hl & Hv & Hp)].
  { exfalso. apply Hn. rewrite <- Hb. apply elem_views. rewrite Hu. set_solver. }
  assert (r0 = b) as ->.
  { eapply NoDup_views_inj; [exact Hnd|rewrite Hl; set_solver|rewrite Hu; set_solver|congruence]. }
  assert (Hl0 : l0 ≡ₚ b0 ++ rest) by (apply (Permutation_cons_inv (a := b)); by rewrite <- Hl, Hu).
  split; [by rewrite Hp, Hl0|]. intros y x [->|Hy]%elem_of_cons Hx; [|apply Hr; set_solver].
  destruct (Z.ltb_spec (rw_rssi b) (rw_rssi c)) as [Hlt|]; [eapply before_raised; [exact Hlt|]|]; apply Hr; set_solver.
Qed.

Lemma take_one_keeps t u s : keeps_best t u -> keeps_best (take_one t s) (if publishable s then raise (row s) u else u).
Proof.
  destruct t as [r n]. intros (Hr & Hn & Hnd & rest & Hu & Hrest & Hb). unfold take_one. destruct (publishable s) eqn:Hp; cbn [negb]; [|by split_and!; [..|exists rest]].
  pose proof (row_view s Hp) as Hv. set (c := row s) in *. assert (Hc : rw_rssi c = sg_rssi s) by done. clearbody c. rewrite <- Hv, <- Hc.
  pose proof (NoDup_raise c u Hnd) as Hnd'. pose proof (find_row_spec r n (rw_view c)) as Hf. cbv zeta in *. set (a := foldl _ n (seq 0 n)) in *. clearbody a.
  destruct Hf as [[-> Hno]|[Ha Hav]].
  - rewrite Nat.ltb_irrefl. assert (Hnin : rw_view c ∉ map rw_view (take n r)).
    { intros (x & Hx & Hin)%list_elem_of_fmap. apply list_elem_of_lookup in Hin as [i Hi]. apply lookup_lt_Some in Hi as Hlt. rewrite length_take in Hlt.
      rewrite lookup_take_lt in Hi by lia. apply (Hno i ltac:(lia)). unfold row_at. by rewrite Hi. }
    destruct (Nat.ltb_spec n kRows) as [Hlt|Hge].
    + specialize (Hrest Hlt) as ->. rewrite app_nil_r in Hu. split; [by rewrite length_insert|]. split; [lia|]. split; [done|]. exists [].
      split; [|split; [done|set_solver]]. rewrite app_nil_r, (take_S_r _ n c), take_insert_ge by (by rewrite ?list_lookup_insert_eq by lia).
      destruct (raise_spec c u Hnd) as [[_ Hperm]|(r0 & l0 & Hl & Hv0 & _)]; [by rewrite Hperm, Hu, <- Permutation_cons_append|].
      exfalso. apply Hnin. rewrite <- Hv0. apply elem_views. rewrite <- Hu, Hl. set_solver.
    + assert (n = kRows) as -> by lia. assert (Hndt : NoDup (map rw_view (take kRows r))).
      { rewrite Hu, map_app in Hnd. by apply NoDup_app in Hnd as [Hnd _]. }
      destruct (weakest_spec r kRows ltac:(rewrite Hr; unfold kRows, kPerChannel; lia) Hndt) as [Hw Hwb]. set (w := weakest_of r kRows) in *. clearbody w.
      rewrite take_ge in * by lia. destruct (lookup_lt_is_Some_2 r w ltac:(lia)) as [x Hx]. assert (Hxa : row_at r w = x) by (unfold row_at; by rewrite Hx).
      rewrite Hxa in *. destruct (insert_perm r w x Hx) as (b0 & Hperm & Hins).
      destruct (best_full c x b0 rest u) as (rest' & Hu' & Hb'); [by rewrite Hu, Hperm|done| |by intros b y Hin Hy; apply Hb; [rewrite Hperm|]|by rewrite <- Hperm|].
      { intros b Hin. assert (Hbr : b ∈ delete w r).
        { assert (Hd : b0 ≡ₚ delete w r) by (apply (Permutation_cons_inv (a := x)); rewrite <- Hperm; by apply delete_Permutation). by rewrite <- Hd. }
        apply elem_of_delete in Hbr as (i & Hi & Hlook). apply lookup_lt_Some in Hlook as Hil. specialize (Hwb i ltac:(lia) Hi).
        unfold row_at in Hwb. by rewrite Hlook in Hwb. }
      destruct (before c x).
      * split; [by rewrite length_insert|]. split; [done|]. split; [done|]. exists rest'. rewrite take_ge by (rewrite length_insert; lia).
        split; [by rewrite Hins|]. split; [lia|]. intros b y Hin Hy. rewrite Hins in Hin. by apply Hb'.
      * split; [done|]. split; [done|]. split; [done|]. exists rest'. rewrite take_ge by lia. split; [by rewrite Hperm|]. split; [lia|].
        intros b y Hin Hy. rewrite Hperm in Hin. by apply Hb'.
  - rewrite (proj2 (Nat.ltb_lt _ _) Ha). destruct (lookup_lt_is_Some_2 r a ltac:(lia)) as [b Hlook]. unfold row_at in *. rewrite Hlook in *. cbn [default Datatypes.id] in *.
    assert (Htl : take n r !! a = Some b) by by rewrite lookup_take_lt. destruct (insert_perm (take n r) a b Htl) as (b0 & Hperm & Hins).
    destruct (best_same c b b0 rest u) as [Hu' Hb']; [by rewrite Hu, Hperm|done|by intros y x Hin Hx; apply Hb; [rewrite Hperm|]|done|].
    destruct (rw_rssi b <? rw_rssi c).
    + split; [by rewrite length_insert|]. split; [done|]. split; [done|]. exists rest. rewrite take_insert_lt by done.
      split; [by rewrite Hins|]. split; [done|]. intros y x Hin Hx. rewrite Hins in Hin. by apply Hb'.
    + split; [done|]. split; [done|]. split; [done|]. exists rest. split; [by rewrite Hperm|]. done.
Qed.

Lemma sort_rows_sorted l : StronglySorted not_after (sort_rows l).
Proof. apply (sorting.Sorted_StronglySorted _), (Sorted_merge_sort not_after). Qed.

Lemma sort_rows_perm l : sort_rows l ≡ₚ l.
Proof. apply merge_sort_Permutation. Qed.

(** Rows of different SSIDs sort to one list only: the best before the rest. *)
Lemma sort_rows_split (best rest u : list Row) : u ≡ₚ best ++ rest -> NoDup (map rw_view u) ->
  (forall b x, b ∈ best -> x ∈ rest -> before b x = true) -> sort_rows u = sort_rows best ++ sort_rows rest.
Proof.
  intros Hu Hnd Hb. apply (StronglySorted_unique_strong not_after).
  - intros x y Hx Hy. rewrite sort_rows_perm in Hx. rewrite !sort_rows_perm, <- Hu in Hy. unfold not_after. intros Hxy Hyx.
    eapply NoDup_views_inj; [exact Hnd|done..|]. destruct (decide (rw_view x = rw_view y)) as [|Hne]; [done|]. apply before_total in Hyx; [congruence|done].
  - apply sort_rows_sorted.
  - apply StronglySorted_app. split_and!; [|apply sort_rows_sorted..]. intros x y Hx Hy. rewrite !sort_rows_perm in *. unfold not_after.
    by apply before_asym, Hb.
  - rewrite !sort_rows_perm. done.
Qed.

Lemma take_keeps heard : keeps_best (foldl take_one (replicate kRows Row_wiped, 0%nat) heard) (rows_heard heard).
Proof.
  unfold rows_heard. assert (Hk : forall t u, keeps_best t u ->
    keeps_best (foldl take_one t heard) (foldl (fun l s => if publishable s then raise (row s) l else l) u heard)).
  { induction heard as [|s heard IH]; intros t u Hk; [done|]. cbn [foldl]. by apply IH, take_one_keeps. }
  apply Hk. split; [apply length_replicate|]. split; [lia|]. split; [constructor|]. exists []. split_and!; [done|done|set_solver].
Qed.

(** C22. The table of a scan: whatever was heard, in whatever order, the fourteen rows the table keeps as it goes are the
    fourteen best of all, in the order of publication: one row per publishable SSID, with its strongest signal,
    the strongest first and equal ones by their bytes.  The number of the scan goes round the byte and is never 0. *)
Theorem table_keeps_the_best (v : VisibleNetworks) (heard : list Sighting) :
  let v' := vtake v heard in
  take (vn_n v') (vn_r v') = take kRows (sort_rows (rows_heard heard))
  /\ vn_n v' = Nat.min kRows (length (rows_heard heard)) /\ length (vn_r v') = kRows
  /\ NoDup (map rw_view (rows_heard heard))
  /\ (0 <= vn_scan v < 256 -> 1 <= vn_scan v' < 256 /\ vn_scan v' <> vn_scan v).
Proof.
  cbv zeta. unfold vtake. pose proof (take_keeps heard) as Hk. destruct (foldl take_one _ heard) as [r n]. cbn [vn_n vn_r vn_scan].
  destruct Hk as (Hr & Hn & Hnd & rest & Hu & Hrest & Hb). rewrite (sort_rows_split _ _ _ Hu Hnd Hb).
  assert (Hl : length (sort_rows (take n r)) = n) by (rewrite sort_rows_perm, length_take; lia).
  assert (Hlu : length (rows_heard heard) = (n + length rest)%nat) by (rewrite Hu, length_app, length_take; lia).
  split_and!; [| | |done|].
  - rewrite take_app_length' by done. destruct (Nat.eq_dec n kRows) as [He|Hne]; [by rewrite take_app_length' by lia|].
    rewrite Hrest by lia. change (sort_rows []) with (@nil Row). rewrite app_nil_r. symmetry. apply take_ge. lia.
  - rewrite Hlu. destruct (Nat.eq_dec n kRows) as [He|Hne]; [lia|]. rewrite (Hrest ltac:(lia)) in *. cbn [length]. lia.
  - rewrite length_app, Hl, length_drop. lia.
  - intros Hs. destruct (Z.eqb_spec (vn_scan v) 0xFF) as [->|Hne]; [lia|]. rewrite wrap_small by (unfold in_u; lia). lia.
Qed.

(** ** A channel's bytes *)

Lemma rows_heard_lengths heard : Forall (fun r => length (rw_view r) <= kSsidMax)%nat (rows_heard heard).
Proof.
  unfold rows_heard. assert (Hk : forall u, Forall (fun r => length (rw_view r) <= kSsidMax)%nat u ->
    Forall (fun r => length (rw_view r) <= kSsidMax)%nat (foldl (fun l s => if publishable s then raise (row s) l else l) u heard)); [|by apply Hk].
  induction heard as [|s heard IH]; intros u Hu; [done|]. cbn [foldl]. apply IH. destruct (publishable s) eqn:Hp; [|done].
  assert (Hs : (length (rw_view (row s)) <= kSsidMax)%nat).
  { rewrite row_view by done. unfold publishable in Hp. apply negb_true_iff in Hp. rewrite !orb_false_iff, Nat.ltb_ge in Hp. lia. }
  clear IH Hp. induction Hu as [|r u Hr Hu IH]; cbn [raise]; [by apply Forall_singleton|]. case_bool_decide; apply Forall_cons; [split; [by destruct (_ <? _)|done]|by split].
Qed.

Lemma vssid_length v heard i : (length (vssid (vtake v heard) i) <= kSsidMax)%nat.
Proof.
  unfold vssid. destruct (Nat.ltb_spec i (vn_n (vtake v heard))) as [Hi|Hi]; [|cbn; lia].
  destruct (table_keeps_the_best v heard) as (Ht & Hn & Hl & _). destruct (lookup_lt_is_Some_2 (vn_r (vtake v heard)) i ltac:(lia)) as [r Hr].
  unfold row_at. rewrite Hr. cbn [default Datatypes.id]. pose proof (rows_heard_lengths heard) as Hf. rewrite <- (sort_rows_perm (rows_heard heard)) in Hf.
  rewrite Forall_forall in Hf. apply Hf. rewrite <- (take_drop kRows (sort_rows _)), <- Ht. apply elem_of_app. left.
  apply list_elem_of_lookup. exists i. by rewrite lookup_take_lt.
Qed.

(** The two masks of the rows before [k]. *)
Definition mask_of (f : nat -> bool) (k : nat) : Z :=
  foldl (fun m i => if f i then u8 (Z.lor m (Z.shiftl 1 (Z.of_nat i))) else m) 0 (seq 0 k).

Lemma mask_of_bits f k : (k <= 8)%nat ->
  in_u 8 (mask_of f k) /\ forall i, (i < 8)%nat -> Z.testbit (mask_of f k) (Z.of_nat i) = (i <? k)%nat && f i.
Proof.
  induction k as [|k IH]; intros Hk; [split; [done|intros; apply Z.bits_0]|]. unfold mask_of in *. rewrite seq_S, foldl_app. cbn [foldl Nat.add].
  destruct (IH ltac:(lia)) as [Hr Hb]. set (m := foldl _ 0 (seq 0 k)) in *. clearbody m.
  assert (Hs : in_u 8 (Z.shiftl 1 (Z.of_nat k))) by (rewrite Z.shiftl_mul_pow2, Z.mul_1_l by lia; apply bit_range; lia).
  destruct (f k) eqn:Hf.
  - pose proof (lor_range 8 _ _ ltac:(lia) Hr Hs) as Hl. rewrite wrap_small by done. split; [done|]. intros i Hi. rewrite Z.lor_spec, Hb by done.
    rewrite Z.shiftl_mul_pow2, Z.mul_1_l, Z.pow2_bits_eqb by lia. destruct (decide (i = k)) as [->|Hne].
    + by rewrite Z.eqb_refl, orb_true_r, (proj2 (Nat.ltb_lt _ _)), Hf by lia.
    + rewrite (proj2 (Z.eqb_neq _ _)), orb_false_r by lia. f_equal. destruct (Nat.ltb_spec i k), (Nat.ltb_spec i (S k)); lia || done.
  - split; [done|]. intros i Hi. rewrite Hb by done. destruct (decide (i = k)) as [->|Hne]; [by rewrite Hf, !andb_false_r|]. f_equal.
    destruct (Nat.ltb_spec i k), (Nat.ltb_spec i (S k)); lia || done.
Qed.

Section Channel.
Context (v : VisibleNetworks) (list_ : SavedNetworks) (which : nat).
Hypothesis Hname : forall i, (length (vssid v i) <= kSsidMax)%nat.

Definition pub (i : nat) : nat := which * kPerChannel + i.
Definition sig_byte (i : nat) : byte := z2b (vrssi v (pub i)).
Definition name_bytes (i : nat) : list byte := pad kSsidMax (vssid v (pub i)).
Definition is_saved (i : nat) : bool := (pub i <? vn_n v)%nat && bool_decide (is_Some (find list_ (vssid v (pub i)))).

#[local] Abbreviation shown := (if (which * kPerChannel <? vn_n v)%nat then Nat.min kPerChannel (vn_n v - which * kPerChannel) else 0%nat).

Lemma shown_pub i : (i < kPerChannel)%nat -> (i <? shown)%nat = (pub i <? vn_n v)%nat.
Proof.
  intros Hi. unfold pub. destruct (Nat.ltb_spec (which * kPerChannel) (vn_n v)); destruct (Nat.ltb_spec (which * kPerChannel + i) (vn_n v));
    [apply Nat.ltb_lt|apply Nat.ltb_ge|lia|apply Nat.ltb_ge]; lia.
Qed.

Definition channel_upto (k : nat) : list byte :=
  replicate 4 Byte.x00 ++ (map sig_byte (seq 0 k) ++ replicate (kPerChannel - k) Byte.x00)
  ++ concat (map name_bytes (seq 0 k)) ++ replicate ((kPerChannel - k) * kSsidMax) Byte.x00.

Lemma length_names k : length (concat (map name_bytes (seq 0 k))) = (k * kSsidMax)%nat.
Proof.
  generalize 0%nat. induction k as [|k IH]; intros s; [done|]. cbn [seq map concat]. rewrite length_app, IH. unfold name_bytes. rewrite length_padded by done. lia.
Qed.

Lemma put_sig k : (k < kPerChannel)%nat ->
  <[(4 + k)%nat := sig_byte k]> (channel_upto k)
  = replicate 4 Byte.x00 ++ (map sig_byte (seq 0 (S k)) ++ replicate (kPerChannel - S k) Byte.x00)
    ++ concat (map name_bytes (seq 0 k)) ++ replicate ((kPerChannel - k) * kSsidMax) Byte.x00.
Proof.
  intros Hk. unfold channel_upto. rewrite insert_app_r_alt by (rewrite length_replicate; lia). rewrite length_replicate. f_equal.
  replace (4 + k - 4)%nat with k by lia. rewrite insert_app_l by (rewrite length_app, length_map, length_seq, length_replicate; lia). f_equal.
  rewrite insert_app_r_alt by (rewrite length_map, length_seq; lia). rewrite length_map, length_seq, Nat.sub_diag.
  replace (kPerChannel - k)%nat with (S (kPerChannel - S k)) by lia. rewrite seq_S, map_app, <- app_assoc. done.
Qed.

Lemma put_name k : (k < kPerChannel)%nat ->
  splice (4 + kPerChannel + k * kSsidMax) (vssid v (pub k)) (<[(4 + k)%nat := sig_byte k]> (channel_upto k)) = channel_upto (S k).
Proof.
  intros Hk. rewrite put_sig by done. unfold channel_upto. set (sigs := map sig_byte (seq 0 (S k)) ++ _).
  assert (Hs : length sigs = kPerChannel) by (unfold sigs; rewrite length_app, length_map, length_seq, length_replicate; lia). clearbody sigs.
  replace (4 + kPerChannel + k * kSsidMax)%nat with (length ((replicate 4 Byte.x00 ++ sigs) ++ concat (map name_bytes (seq 0 k))))
    by (rewrite !length_app, length_replicate, length_names, Hs; lia).
  replace (kPerChannel - k)%nat with (S (kPerChannel - S k)) by lia. rewrite Nat.mul_succ_l, Nat.add_comm, replicate_add.
  rewrite !app_assoc. rewrite <- (app_assoc _ (replicate kSsidMax _)). rewrite splice_pad by done.
  rewrite seq_S, map_app, concat_app. cbn [map concat Nat.add]. rewrite app_nil_r. unfold name_bytes at 3. by rewrite <- !app_assoc.
Qed.

Lemma splice_nil k (l : list byte) : splice k [] l = l.
Proof. unfold splice. cbn [length app]. by rewrite Nat.add_0_r, take_drop. Qed.

Lemma pack_loop k : (k <= kPerChannel)%nat ->
  foldl (pack_row v list_ (which * kPerChannel) shown) (replicate kChannelBytes Byte.x00, 0, 0) (seq 0 k)
  = (channel_upto k, mask_of (fun i => vsecured v (pub i)) k, mask_of is_saved k).
Proof.
  induction k as [|k IH]; intros Hk; [done|]. rewrite seq_S, foldl_app, IH by lia. cbn [foldl Nat.add]. unfold mask_of. rewrite !seq_S, !foldl_app. cbn [foldl Nat.add].
  unfold pack_row. pose proof (shown_pub k ltac:(lia)) as Hsh. rewrite Hsh, Nat.leb_antisym, Hsh.
  change (which * kPerChannel + k)%nat with (pub k). unfold vsecured, is_saved. pose proof (put_name k ltac:(lia)) as Hput.
  unfold sig_byte, vrssi, vssid in Hput |- *. destruct (pub k <? vn_n v)%nat; cbn [negb andb].
  - by rewrite Hput.
  - rewrite <- Hput, splice_nil. done.
Qed.
End Channel.

(** The bytes of a visible-networks channel: the scan, the number of rows, the two masks, seven signals and seven
    names of fixed width; bit [i] of the masks, signal [i] and name [i] are those of row [7 * which + i], and what is
    past the last row reads as no signal, no bit and the empty name. *)
Theorem channel_bytes_exact (v : VisibleNetworks) (heard : list Sighting) (list_ : SavedNetworks) (which : nat) :
  let v' := vtake v heard in
  exists secure saved_,
    pack v' which list_ = [z2b (vn_scan v'); z2b (Z.of_nat (Nat.min kPerChannel (vn_n v' - which * kPerChannel))); z2b secure; z2b saved_]
      ++ map (sig_byte v' which) (seq 0 kPerChannel) ++ concat (map (name_bytes v' which) (seq 0 kPerChannel))
    /\ length (pack v' which list_) = kChannelBytes /\ in_u 8 secure /\ in_u 8 saved_
    /\ forall i, (i < kPerChannel)%nat ->
         Z.testbit secure (Z.of_nat i) = vsecured v' (pub which i) /\ Z.testbit saved_ (Z.of_nat i) = is_saved v' list_ which i.
Proof.
  cbv zeta. set (v' := vtake v heard). assert (Hname : forall i, (length (vssid v' i) <= kSsidMax)%nat) by (intros; apply vssid_length). clearbody v'.
  destruct (mask_of_bits (fun i => vsecured v' (pub which i)) kPerChannel ltac:(unfold kPerChannel; lia)) as [Hr1 Hb1].
  destruct (mask_of_bits (is_saved v' list_ which) kPerChannel ltac:(unfold kPerChannel; lia)) as [Hr2 Hb2].
  exists (mask_of (fun i => vsecured v' (pub which i)) kPerChannel), (mask_of (is_saved v' list_ which) kPerChannel).
  assert (Hp : pack v' which list_ = [z2b (vn_scan v'); z2b (Z.of_nat (Nat.min kPerChannel (vn_n v' - which * kPerChannel)));
    z2b (mask_of (fun i => vsecured v' (pub which i)) kPerChannel); z2b (mask_of (is_saved v' list_ which) kPerChannel)]
      ++ map (sig_byte v' which) (seq 0 kPerChannel) ++ concat (map (name_bytes v' which) (seq 0 kPerChannel))).
  { unfold pack. rewrite pack_loop by done. rewrite splice_0. cbn [length]. unfold channel_upto. rewrite drop_app_length' by done.
    rewrite Nat.sub_diag. cbn [replicate Nat.mul]. rewrite !app_nil_r. f_equal. do 2 f_equal. f_equal. f_equal.
    destruct (Nat.ltb_spec (which * kPerChannel) (vn_n v')); lia. }
  split; [exact Hp|]. rewrite Hp, !length_app, length_map, length_seq, length_names by done. split; [done|]. split; [done|]. split; [done|].
  intros i Hi. rewrite Hb1, Hb2 by (unfold kPerChannel in *; lia). by rewrite (proj2 (Nat.ltb_lt _ _)).
Qed.
