(* ===== verification/InProcessLink.v ===== *)
(** * InProcessLink: the fault-injecting binding (transport/inprocess_binding.hpp), SPEC 13.6

    A hub and a client of one process joined by two directions, each with a fault profile and a bounded queue.
    The clock and the random generator are the caller's: time is set by an operation of the history, the
    generator is any [IRandom], one for both directions.  The array of a queue with its count is the list of
    the entries in use. *)

From S2P Require Import Prelude SerialArith Frame Estop Crypto HubWorld.
From stdpp Require Import list.
#[local] Open Scope Z_scope.

Record FaultProfile := mkFaultProfile {
  fp_mtu : Z; fp_loss_pct : Z; fp_dup_pct : Z; fp_reorder_pct : Z; fp_latency_us : Z; fp_jitter_us : Z;
  fp_binding : BindingKind }.

Definition FaultProfile_new : FaultProfile := mkFaultProfile 250 0 0 0 0 0 unspecified.

(** ** The queue *)

Record Entry := mkEntry { en_frame : FrameBuffer; en_deliverAtUs : Z }.

Module FrameQueue.
Definition kCapacity : nat := 16.

Definition push_back (fb : FrameBuffer) (deliverAtUs : Z) (q : list Entry) : bool * list Entry :=
  if (kCapacity <=? length q)%nat then (false, q) else (true, q ++ [mkEntry fb deliverAtUs]).

Definition push_front (fb : FrameBuffer) (deliverAtUs : Z) (q : list Entry) : bool * list Entry :=
  if (kCapacity <=? length q)%nat then (false, q) else (true, mkEntry fb deliverAtUs :: q).

Fixpoint swapLastTwo (q : list Entry) : list Entry :=
  match q with
  | [x; y] => [y; x]
  | x :: q => x :: swapLastTwo q
  | [] => []
  end.

(** The head only, and only when its time has come. *)
Definition popFront (nowUs : Z) (q : list Entry) : option FrameBuffer * list Entry :=
  match q with
  | [] => (None, q)
  | e :: rest => if timeReached nowUs (en_deliverAtUs e) then (Some (en_frame e), rest) else (None, q)
  end.
End FrameQueue.

Definition looksLikeEstop (frame : list byte) : bool :=
  (length frame =? kEstopFrameBytes)%nat && magic_at frame 0.

(** ** One direction *)

Record Direction := mkDirection { _profile : FaultProfile; _queue : list Entry }.

Definition Direction_new : Direction := mkDirection FaultProfile_new [].

(** What the dice say of a frame, in the order they are rolled. *)
Record Fate := mkFate { ft_lost : bool; ft_jitter : Z; ft_reorder : bool; ft_dup : bool }.

Section rng.
Context {R : Type} `{IRandom R}.

Definition draw_jitter (p : FaultProfile) (g : R) : Z * R :=
  if 0 <? fp_jitter_us p then
    let span := u32 (2 * fp_jitter_us p + 1) in
    let '(r, g) := rng_nextU32 g in
    (i32 (i32 (r mod span) - i32 (fp_jitter_us p)), g)
  else (0, g).

Definition draw_fate (p : FaultProfile) (g : R) : Fate * R :=
  let '(lossRoll, g) := rng_nextU32 g in
  let '(jitter, g) := draw_jitter p g in
  let '(reorderRoll, g) := rng_nextU32 g in
  let '(dupRoll, g) := rng_nextU32 g in
  (mkFate (lossRoll mod 100 <? fp_loss_pct p) jitter (reorderRoll mod 100 <? fp_reorder_pct p)
     (dupRoll mod 100 <? fp_dup_pct p), g).

Definition push (isEstop : bool) (fb : FrameBuffer) (deliverAt : Z) (q : list Entry) : bool * list Entry :=
  if isEstop then FrameQueue.push_front fb deliverAt q else FrameQueue.push_back fb deliverAt q.

(** The network takes the frame, or eats it. *)
Definition enqueue (nowUs : Z) (frame : list byte) (f : Fate) (d : Direction) : bool * Direction :=
  if ft_lost f then (true, d) else
  let isEstop := looksLikeEstop frame in
  let deliverAt := u32 (nowUs + fp_latency_us (_profile d) + u32 (ft_jitter f)) in
  let fb := FrameBuffer_from frame in
  let '(queued, q) := push isEstop fb deliverAt (_queue d) in
  if negb queued then (false, d) else
  let q := if negb isEstop && ft_reorder f then FrameQueue.swapLastTwo q else q in
  let q := if ft_dup f then snd (push isEstop fb deliverAt q) else q in
  (true, mkDirection (_profile d) q).

Definition dir_write (nowUs : Z) (frame : list byte) (g : R) (d : Direction) : bool * R * Direction :=
  if fp_mtu (_profile d) <? Z.of_nat (length frame) then (false, g, d) else
  let '(f, g) := draw_fate (_profile d) g in
  let '(taken, d) := enqueue nowUs frame f d in (taken, g, d).

Definition dir_read (nowUs : Z) (d : Direction) : option FrameBuffer * Direction :=
  let '(fb, q) := FrameQueue.popFront nowUs (_queue d) in (fb, mkDirection (_profile d) q).

Record Properties := mkProperties { pr_mtu : Z; pr_ordered : bool; pr_reliable : bool; pr_binding : BindingKind }.

Definition properties (d : Direction) : Properties :=
  let p := _profile d in
  mkProperties (fp_mtu p) (negb ((0 <? fp_reorder_pct p) || (0 <? fp_jitter_us p)))
    ((fp_loss_pct p =? 0) && (fp_dup_pct p =? 0)) (fp_binding p).

(** ** The link and its endpoints *)

Inductive Side := A | B.

Record InProcessLink := mkInProcessLink {
  _aToB : Direction; _bToA : Direction; lk_openA : bool; lk_openB : bool; lk_nowUs : Z; lk_rng : R }.

Definition InProcessLink_new (nowUs : Z) (g : R) : InProcessLink :=
  mkInProcessLink Direction_new Direction_new false false nowUs g.

#[export] Instance Side_eq_dec : EqDecision Side.
Proof. solve_decision. Defined.

Definition other (s : Side) : Side := match s with A => B | B => A end.

(** The direction that carries what [s] writes. *)
Definition out_of (s : Side) (l : InProcessLink) : Direction := match s with A => _aToB l | B => _bToA l end.

Definition set_out (s : Side) (d : Direction) (l : InProcessLink) : InProcessLink :=
  match s with
  | A => mkInProcessLink d (_bToA l) (lk_openA l) (lk_openB l) (lk_nowUs l) (lk_rng l)
  | B => mkInProcessLink (_aToB l) d (lk_openA l) (lk_openB l) (lk_nowUs l) (lk_rng l)
  end.

Definition set_rng (g : R) (l : InProcessLink) : InProcessLink :=
  mkInProcessLink (_aToB l) (_bToA l) (lk_openA l) (lk_openB l) (lk_nowUs l) g.

Definition is_open (s : Side) (l : InProcessLink) : bool := match s with A => lk_openA l | B => lk_openB l end.

Definition set_open (s : Side) (b : bool) (l : InProcessLink) : InProcessLink :=
  match s with
  | A => mkInProcessLink (_aToB l) (_bToA l) b (lk_openB l) (lk_nowUs l) (lk_rng l)
  | B => mkInProcessLink (_aToB l) (_bToA l) (lk_openA l) b (lk_nowUs l) (lk_rng l)
  end.

(** [profileA()], [profileB()]: the application writes through the reference. *)
Definition set_profile (s : Side) (p : FaultProfile) (l : InProcessLink) : InProcessLink :=
  set_out s (mkDirection p (_queue (out_of s l))) l.

Definition setUs (us : Z) (l : InProcessLink) : InProcessLink :=
  mkInProcessLink (_aToB l) (_bToA l) (lk_openA l) (lk_openB l) (u32 us) (lk_rng l).

Definition end_open (s : Side) (l : InProcessLink) : bool * InProcessLink := (true, set_open s true l).
Definition end_close (s : Side) (l : InProcessLink) : InProcessLink := set_open s false l.

Definition end_write (s : Side) (frame : list byte) (l : InProcessLink) : bool * InProcessLink :=
  if is_open s l then
    let '(taken, g, d) := dir_write (lk_nowUs l) frame (lk_rng l) (out_of s l) in (taken, set_rng g (set_out s d l))
  else (false, l).

Definition end_read (s : Side) (l : InProcessLink) : option FrameBuffer * InProcessLink :=
  if is_open s l then
    let '(fb, d) := dir_read (lk_nowUs l) (out_of (other s) l) in (fb, set_out (other s) d l)
  else (None, l).

(** ** Histories *)

Inductive LinkOp := o_open (s : Side) | o_close (s : Side) | o_write (s : Side) (frame : list byte) | o_read (s : Side)
  | o_time (us : Z).

Inductive Event := Accepted (s : Side) (frame : list byte) | Delivered (s : Side) (frame : list byte).

Definition step (o : LinkOp) (l : InProcessLink) : list Event * InProcessLink :=
  match o with
  | o_open s => ([], snd (end_open s l))
  | o_close s => ([], end_close s l)
  | o_write s frame => let '(taken, l) := end_write s frame l in (if taken then [Accepted s frame] else [], l)
  | o_read s =>
      let '(fb, l) := end_read s l in
      (match fb with Some fb => [Delivered s (fb_bytes fb)] | None => [] end, l)
  | o_time us => ([], setUs us l)
  end.

Fixpoint run (ops : list LinkOp) (l : InProcessLink) : list Event * InProcessLink :=
  match ops with
  | [] => ([], l)
  | o :: ops => let '(tr, l) := step o l in let '(tr', l) := run ops l in (tr ++ tr', l)
  end.
End rng.

Arguments InProcessLink : clear implicits.

Definition accepted (s : Side) (tr : list Event) : list (list byte) :=
  omap (fun e => match e with Accepted s' f => if decide (s' = s) then Some f else None | _ => None end) tr.

(** What endpoint [s] read. *)
Definition delivered (s : Side) (tr : list Event) : list (list byte) :=
  omap (fun e => match e with Delivered s' f => if decide (s' = s) then Some f else None | _ => None end) tr.

Definition waiting (d : Direction) : list (list byte) := map (fun e => fb_bytes (en_frame e)) (_queue d).

(** [ns] says how often each frame of a list arrives. *)
Definition copies (ns : list nat) (frames : list (list byte)) : list (list byte) :=
  concat (zip_with (fun n f => replicate n f) ns frames).

Definition plain (l : list (list byte)) : list (list byte) := List.filter (fun f => negb (looksLikeEstop f)) l.

Fixpoint estops_first (l : list (list byte)) : Prop :=
  match l with
  | [] => True
  | f :: l => (looksLikeEstop f = false -> Forall (fun f => looksLikeEstop f = false) l) /\ estops_first l
  end.

(** ** Lemmas: the queue *)

Notation wait q := (map (fun e => fb_bytes (en_frame e)) q).

Lemma push_spec b fb at_us q q' :
  push b fb at_us q = (true, q') ->
  wait q' = (if b then fb_bytes fb :: wait q else wait q ++ [fb_bytes fb])
  /\ (length q' <= FrameQueue.kCapacity)%nat
  /\ forall e, e ∈ q' <-> e = mkEntry fb at_us \/ e ∈ q.
Proof.
  unfold push, FrameQueue.push_front, FrameQueue.push_back.
  destruct b; destruct (Nat.leb_spec FrameQueue.kCapacity (length q)); intros [= <-].
  - cbn. split; [done|]. split; [lia|]. intros e. apply elem_of_cons.
  - rewrite map_app, length_app. cbn. split; [done|]. split; [lia|]. intros e.
    rewrite elem_of_app, list_elem_of_singleton. tauto.
Qed.

Lemma push_full b fb at_us q q' : push b fb at_us q = (false, q') -> q' = q /\ (FrameQueue.kCapacity <= length q)%nat.
Proof. unfold push, FrameQueue.push_front, FrameQueue.push_back. destruct b; case_match eqn:E; intros [= <-]; by apply Nat.leb_le in E. Qed.

Lemma swapLastTwo_perm q : FrameQueue.swapLastTwo q ≡ₚ q.
Proof.
  induction q as [|x [|y [|z q]] IH]; try done; [apply Permutation_swap|].
  change (FrameQueue.swapLastTwo (x :: y :: z :: q)) with (x :: FrameQueue.swapLastTwo (y :: z :: q)). by rewrite IH.
Qed.

Lemma plain_app l l' : plain (l ++ l') = plain l ++ plain l'.
Proof. apply List.filter_app. Qed.

Lemma estops_first_snoc l f : looksLikeEstop f = false -> estops_first l -> estops_first (l ++ [f]).
Proof.
  intros Hf. induction l as [|x l IH]; cbn; [by split|]. intros [H1 H2]. split; [|by apply IH].
  intros Hx. apply Forall_app. split; [by apply H1|by constructor].
Qed.

Lemma copies_snoc ns n acc f :
  length ns = length acc -> copies (ns ++ [n]) (acc ++ [f]) = copies ns acc ++ replicate n f.
Proof. intros. unfold copies. rewrite zip_with_app, concat_app by done. cbn. by rewrite app_nil_r. Qed.

Lemma copies_one ns acc : length ns = length acc -> Forall (fun n => n = 1%nat) ns -> copies ns acc = acc.
Proof.
  intros Hl Hn. revert acc Hl. induction Hn as [|n ns -> _ IH]; intros [|f acc] Hl; try done.
  unfold copies in *. cbn. f_equal. apply IH. by injection Hl.
Qed.

(** One frame and its fate: it waits [n] times more. *)
Lemma push_plain b fb at_us q q' :
  push b fb at_us q = (true, q') -> b = looksLikeEstop (fb_bytes fb) ->
  wait q' ≡ₚ wait q ++ [fb_bytes fb]
  /\ plain (wait q') = plain (wait q) ++ plain [fb_bytes fb]
  /\ (estops_first (wait q) -> estops_first (wait q')).
Proof.
  intros (Hw & _ & _)%push_spec Hb. rewrite Hw. cbn [plain List.filter]. destruct b; rewrite <- Hb; cbn [negb].
  - split; [apply Permutation_cons_append|]. cbn. rewrite <- Hb. cbn. rewrite app_nil_r.
    split; [done|]. intros He. by split.
  - split; [done|]. rewrite plain_app. cbn. rewrite <- Hb. cbn. split; [done|]. by apply estops_first_snoc.
Qed.

Lemma enqueue_spec nowUs frame f d taken d' :
  enqueue nowUs frame f d = (taken, d') -> (length frame <= kFrameBufferCapacity)%nat ->
  (length (_queue d) <= FrameQueue.kCapacity)%nat ->
  _profile d' = _profile d /\ (length (_queue d') <= FrameQueue.kCapacity)%nat
  /\ (forall e, e ∈ _queue d' -> e ∈ _queue d \/ en_deliverAtUs e = u32 (nowUs + fp_latency_us (_profile d) + u32 (ft_jitter f)))
  /\ if taken then exists n, (n <= 2)%nat /\ (ft_lost f = false -> 1 <= n)%nat /\ (ft_dup f = false -> n <= 1)%nat
       /\ waiting d' ≡ₚ waiting d ++ replicate n frame
       /\ (ft_reorder f = false -> plain (waiting d') = plain (waiting d ++ replicate n frame)
           /\ (estops_first (waiting d) -> estops_first (waiting d')))
     else d' = d.
Proof.
  unfold enqueue. intros He Hf Hd. destruct (ft_lost f).
  { injection He as <- <-. split; [done|]. split; [done|]. split; [by left|]. exists 0%nat. cbn. rewrite app_nil_r.
    split_and!; try done; lia. }
  set (at_us := u32 _) in *. set (fb := FrameBuffer_from frame) in *. set (b := looksLikeEstop frame) in *.
  assert (fb_bytes fb = frame) as Hfb by by apply FrameBuffer_from_bytes.
  destruct (push b fb at_us (_queue d)) as [[|] q] eqn:E1; cbn [negb] in He.
  2: { injection He as <- <-. split; [done|]. split; [done|]. split; [by left|done]. }
  set (q1 := if negb b && ft_reorder f then FrameQueue.swapLastTwo q else q) in *.
  assert (q1 ≡ₚ q) as Hq1 by (unfold q1; destruct (negb b && ft_reorder f); [apply swapLastTwo_perm|done]).
  assert (ft_reorder f = false -> q1 = q) as Hq1' by (intros Hr; unfold q1; rewrite Hr; by rewrite andb_false_r).
  destruct (push_spec _ _ _ _ _ E1) as (_ & Hl & He1).
  pose proof (push_plain _ _ _ _ _ E1 ltac:(by rewrite Hfb)) as (Hp & Hpl & Hef). rewrite Hfb in *.
  unfold waiting. injection He as <- <-. cbn [_queue _profile].
  assert (wait q1 ≡ₚ wait (_queue d) ++ [frame]) as Hw1 by by rewrite Hq1.
  assert (length q1 <= FrameQueue.kCapacity)%nat as Hl1 by by rewrite (Permutation_length Hq1).
  assert (forall e, e ∈ q1 -> e ∈ _queue d \/ en_deliverAtUs e = at_us) as He2.
  { intros e. rewrite Hq1. intros [-> |?]%He1; [by right|by left]. }
  destruct (ft_dup f); [destruct (push b fb at_us q1) as [[|] q2] eqn:E2; cbn [snd]|].
  - destruct (push_spec _ _ _ _ _ E2) as (_ & Hl2 & He3).
    pose proof (push_plain _ _ _ _ _ E2 ltac:(by rewrite Hfb)) as (Hp2 & Hpl2 & Hef2). rewrite Hfb in *.
    split; [done|]. split; [done|]. split; [intros e [-> |?]%He3; [by right|by apply He2]|].
    exists 2%nat. split_and!; try done; try lia. { rewrite Hp2, Hw1. by rewrite <- app_assoc. }
    intros Hr. rewrite Hq1' in * by done. split; [|tauto].
    rewrite Hpl2, Hpl, !plain_app. cbn [replicate]. change [frame; frame] with ([frame] ++ [frame]). by rewrite plain_app, app_assoc.
  - apply push_full in E2 as [-> _]. split; [done|]. split; [done|]. split; [done|]. exists 1%nat.
    split_and!; try done; try lia. intros Hr. rewrite Hq1' in * by done. split; [by rewrite Hpl, plain_app|done].
  - split; [done|]. split; [done|]. split; [done|]. exists 1%nat.
    split_and!; try done; try lia. intros Hr. rewrite Hq1' in * by done. split; [by rewrite Hpl, plain_app|done].
Qed.

(** ** Lemmas: one direction over its history *)

(** [times]: the readings of the clock, unwrapped. *)
Record Carries (p : FaultProfile) (times : list Z) (acc del : list (list byte)) (d : Direction) : Prop := {
  ca_profile : _profile d = p;
  ca_room : (length (_queue d) <= FrameQueue.kCapacity)%nat;
  ca_due : fp_jitter_us p <= 0 ->
    Forall (fun e => exists t, t ∈ times /\ en_deliverAtUs e = u32 (t + fp_latency_us p)) (_queue d);
  ca_flow : exists ns, length ns = length acc /\ Forall (fun n => n <= 2)%nat ns
    /\ (fp_loss_pct p <= 0 -> Forall (fun n => 1 <= n)%nat ns) /\ (fp_dup_pct p <= 0 -> Forall (fun n => n <= 1)%nat ns)
    /\ del ++ waiting d ≡ₚ copies ns acc
    /\ (fp_reorder_pct p <= 0 -> plain (del ++ waiting d) = plain (copies ns acc) /\ estops_first (waiting d)) }.

Lemma carries_new p times : Carries p times [] [] (mkDirection p []).
Proof.
  split; [done|cbn; lia|by constructor|]. exists []. split_and!; try done; by constructor.
Qed.

Lemma carries_later p times t acc del d : Carries p times acc del d -> Carries p (times ++ [t]) acc del d.
Proof.
  intros [H1 H2 H3 H4]. split; [done..| |done]. intros Hj. eapply Forall_impl; [exact (H3 Hj)|]; cbn beta.
  intros e (u & Hu & E). exists u. split; [|done]. apply elem_of_app. by left.
Qed.

Section carry.
Context {R : Type} `{IRandom R}.

Lemma roll_never p v : p <= 0 -> (v mod 100 <? p) = false.
Proof. intros. apply Z.ltb_ge. pose proof (Z.mod_pos_bound v 100). lia. Qed.

Lemma draw_fate_spec p (g : R) f g' : draw_fate p g = (f, g') ->
  (fp_loss_pct p <= 0 -> ft_lost f = false) /\ (fp_dup_pct p <= 0 -> ft_dup f = false)
  /\ (fp_reorder_pct p <= 0 -> ft_reorder f = false) /\ (fp_jitter_us p <= 0 -> ft_jitter f = 0).
Proof.
  unfold draw_fate, draw_jitter. destruct (rng_nextU32 g) as [r1 g1].
  destruct (Z.ltb_spec 0 (fp_jitter_us p)).
  - destruct (rng_nextU32 g1) as [r2 g2], (rng_nextU32 g2) as [r3 g3], (rng_nextU32 g3) as [r4 g4].
    intros [= <- _]. cbn. split_and!; try exact (roll_never _ _). lia.
  - destruct (rng_nextU32 g1) as [r3 g3], (rng_nextU32 g3) as [r4 g4].
    intros [= <- _]. cbn. split_and!; try exact (roll_never _ _). done.
Qed.

Lemma carries_write p times t acc del d nowUs frame (g g' : R) taken d' :
  dir_write nowUs frame g d = (taken, g', d') -> Carries p times acc del d ->
  fp_mtu p <= Z.of_nat kFrameBufferCapacity -> t ∈ times -> nowUs = u32 t ->
  Carries p times (if taken then acc ++ [frame] else acc) del d'.
Proof.
  intros E [Hp Hl Hd (ns & Hn & H2 & H1 & H0 & Hperm & Hord)] Hm Ht Hnow. unfold dir_write in E. rewrite Hp in E.
  destruct (Z.ltb_spec (fp_mtu p) (Z.of_nat (length frame))) as [|Hfit].
  { injection E as <- _ <-. split; try done. by exists ns. }
  destruct (draw_fate p g) as [f g1] eqn:Ef. destruct (enqueue nowUs frame f d) as [b d1] eqn:Eq. injection E as <- _ <-.
  destruct (draw_fate_spec _ _ _ _ Ef) as (F1 & F2 & F3 & F4).
  destruct (enqueue_spec _ _ _ _ _ _ Eq ltac:(lia) Hl) as (Q1 & Q2 & Q3 & Q4). rewrite Hp in Q1, Q3.
  split; [done|done| |].
  - intros Hj. apply Forall_forall. intros e [He|He]%Q3.
    + by apply (proj1 (Forall_forall _ _) (Hd Hj)).
    + exists t. split; [done|]. rewrite He, F4, Hnow by done. unfold wrap. rewrite Z.add_0_r. by rewrite Zplus_mod_idemp_l.
  - destruct b; [|rewrite Q4; by exists ns].
    destruct Q4 as (n & N2 & N1 & N0 & Np & No). exists (ns ++ [n]).
    rewrite copies_snoc, !length_app by done. split; [cbn; lia|].
    split; [by apply Forall_app; split; [|constructor]|].
    split; [intros Hz; apply Forall_app; split; [by apply H1|constructor; [by apply N1, F1|done]]|].
    split; [intros Hz; apply Forall_app; split; [by apply H0|constructor; [by apply N0, F2|done]]|].
    split; [by rewrite Np, app_assoc, Hperm|].
    intros Hz. destruct (Hord Hz) as [O1 O2]. destruct (No (F3 Hz)) as [O3 O4]. split; [|by apply O4].
    rewrite plain_app, O3, <- plain_app, app_assoc, plain_app, O1. by rewrite plain_app.
Qed.

Lemma carries_read p times acc del d nowUs fb d' :
  dir_read nowUs d = (fb, d') -> Carries p times acc del d ->
  Carries p times acc (del ++ match fb with Some fb => [fb_bytes fb] | None => [] end) d'.
Proof.
  intros E Hc. pose proof Hc as [Hp Hl Hd (ns & Hn & H2 & H1 & H0 & Hperm & Hord)].
  unfold dir_read, FrameQueue.popFront in E. destruct (_queue d) as [|e q] eqn:Eq; [|destruct (timeReached nowUs (en_deliverAtUs e))]; injection E as <- <-.
  - rewrite app_nil_r, <- Eq. by destruct d.
  - assert (waiting d = fb_bytes (en_frame e) :: waiting (mkDirection (_profile d) q)) as Hw by (unfold waiting; by rewrite Eq).
    rewrite Hw in *. split; cbn; [done|cbn in Hl; lia| |].
    + intros Hj. apply Hd in Hj. by apply Forall_cons in Hj as [_ ?].
    + exists ns. rewrite <- !app_assoc. split_and!; try done. intros Hz. destruct (Hord Hz) as [O1 [_ O2]]. by split.
  - rewrite app_nil_r, <- Eq. by destruct d.
Qed.

(** ** Lemmas: the link *)

Definition times (ops : list LinkOp) : list Z := omap (fun o => match o with o_time us => Some us | _ => None end) ops.

Lemma out_set s s' d (l : InProcessLink R) : out_of s (set_out s' d l) = if decide (s' = s) then d else out_of s l.
Proof. by destruct s, s'. Qed.

Lemma out_rng s g (l : InProcessLink R) : out_of s (set_rng g l) = out_of s l.
Proof. done. Qed.

Lemma out_open s s' b (l : InProcessLink R) : out_of s (set_open s' b l) = out_of s l.
Proof. by destruct s, s'. Qed.

(** Both directions, each with what went in and came out; the clock reads the last time. *)
Definition LinkInv (p : Side -> FaultProfile) (ts : list Z) (tr : list Event) (l : InProcessLink R) : Prop :=
  (exists t, t ∈ ts /\ lk_nowUs l = u32 t)
  /\ forall s, fp_mtu (p s) <= Z.of_nat kFrameBufferCapacity ->
       Carries (p s) ts (accepted s tr) (delivered (other s) tr) (out_of s l).

Lemma nowUs_set_out s d (l : InProcessLink R) : lk_nowUs (set_out s d l) = lk_nowUs l.
Proof. by destruct s. Qed.

Lemma other_inj s s' : other s = s' <-> s = other s'.
Proof. by destruct s, s'. Qed.

Lemma step_inv p ts tr o (l : InProcessLink R) :
  LinkInv p ts tr l -> let '(tr', l') := step o l in LinkInv p (ts ++ times [o]) (tr ++ tr') l'.
Proof.
  intros [(t & Ht & Hnow) Hs]. destruct o as [s'|s'|s' frame|s'|us]; cbn [times omap list_omap].
  - cbn. rewrite !app_nil_r. split; [exists t; by destruct s'|]. intros s Hm. rewrite out_open. by apply Hs.
  - cbn. rewrite !app_nil_r. split; [exists t; by destruct s'|]. intros s Hm. unfold end_close. rewrite out_open. by apply Hs.
  - cbn [step]. unfold end_write. destruct (is_open s' l); [|rewrite !app_nil_r; split; [by exists t|done]].
    destruct (dir_write (lk_nowUs l) frame (lk_rng l) (out_of s' l)) as [[taken g] d] eqn:E. rewrite app_nil_r.
    split; [exists t; split; [done|]; cbn; by rewrite nowUs_set_out|].
    intros s Hm. rewrite out_rng, out_set. unfold accepted, delivered. rewrite !omap_app.
    destruct (decide (s' = s)) as [->|Hne].
    + pose proof (carries_write _ _ t _ _ _ _ _ _ _ _ _ E (Hs s Hm) Hm Ht Hnow) as Hc.
      destruct taken; cbn; rewrite ?app_nil_r; [|done]. by rewrite decide_True.
    + destruct taken; cbn; rewrite ?app_nil_r; [|by apply Hs]. rewrite decide_False, app_nil_r by done. by apply Hs.
  - cbn [step]. unfold end_read. destruct (is_open s' l); [|rewrite !app_nil_r; split; [by exists t|done]].
    destruct (dir_read (lk_nowUs l) (out_of (other s') l)) as [fb d] eqn:E. rewrite app_nil_r.
    split; [exists t; split; [done|]; by rewrite nowUs_set_out|].
    intros s Hm. rewrite out_set. unfold accepted, delivered. rewrite !omap_app.
    destruct (decide (other s' = s)) as [<-|Hne].
    + pose proof (carries_read _ _ _ _ _ _ _ _ E (Hs (other s') Hm)) as Hc.
      destruct fb; cbn; rewrite ?app_nil_r in *; [|done]. rewrite decide_True by by destruct s'. done.
    + destruct fb; cbn; rewrite ?app_nil_r; [|by apply Hs].
      rewrite decide_False, app_nil_r by (intros ->; by destruct s). by apply Hs.
  - cbn. rewrite app_nil_r. split; [exists us; split; [apply elem_of_app; right; by apply list_elem_of_singleton|done]|].
    intros s Hm. apply carries_later. by destruct s; apply Hs.
Qed.

Lemma run_inv p ops : forall ts tr (l : InProcessLink R), LinkInv p ts tr l ->
  LinkInv p (ts ++ times ops) (tr ++ fst (run ops l)) (snd (run ops l)).
Proof.
  induction ops as [|o ops IH]; intros ts tr l Hl; [by rewrite !app_nil_r|].
  pose proof (step_inv p ts tr o l Hl) as Hs. cbn [run]. destruct (step o l) as [tr' l'].
  pose proof (IH _ _ _ Hs) as Hr. destruct (run ops l') as [tr'' l'']. cbn [fst snd] in *.
  rewrite <- !app_assoc in Hr. change (o :: ops) with ([o] ++ ops). unfold times in *. by rewrite omap_app.
Qed.

(** A link with its two profiles, before anything is opened. *)
Definition link_with (pA pB : FaultProfile) (startUs : Z) (g : R) : InProcessLink R :=
  set_profile B pB (set_profile A pA (InProcessLink_new (u32 startUs) g)).

Definition profile_of (pA pB : FaultProfile) (s : Side) : FaultProfile := match s with A => pA | B => pB end.

Lemma fresh_inv pA pB startUs g : LinkInv (profile_of pA pB) [startUs] [] (link_with pA pB startUs g).
Proof.
  split; [exists startUs; split; [by apply list_elem_of_singleton|done]|]. intros s _. destruct s; apply carries_new.
Qed.
End carry.

Section drain.
Context {R : Type} `{IRandom R}.

Lemma link_run_app ops ops' (l : InProcessLink R) :
  run (ops ++ ops') l = let '(tr, l1) := run ops l in let '(tr', l2) := run ops' l1 in (tr ++ tr', l2).
Proof.
  revert l. induction ops as [|o ops IH]; intros l; cbn [run app]; [by destruct (run ops' l)|].
  destruct (step o l) as [tr l1]. rewrite IH. destruct (run ops l1) as [tr1 l2], (run ops' l2) as [tr2 l3].
  by rewrite app_assoc.
Qed.

(** Sixteen reads empty a queue whose frames are all due. *)
Lemma reads_drain s n : forall (l : InProcessLink R),
  (length (_queue (out_of s l)) <= n)%nat -> is_open (other s) l = true ->
  Forall (fun e => timeReached (lk_nowUs l) (en_deliverAtUs e) = true) (_queue (out_of s l)) ->
  waiting (out_of s (snd (run (replicate n (o_read (other s))) l))) = [].
Proof.
  induction n as [|n IH]; intros l Hn Ho Hd.
  { unfold waiting. cbn. by destruct (_queue (out_of s l)); [|cbn in Hn; lia]. }
  cbn [replicate run step]. unfold end_read. rewrite Ho. unfold dir_read, FrameQueue.popFront.
  replace (other (other s)) with s by by destruct s.
  destruct (_queue (out_of s l)) as [|e q] eqn:Eq.
  - pose proof (IH (set_out s (mkDirection (_profile (out_of s l)) []) l)) as Hi.
    destruct (run _ _) as [tr l1]. cbn [snd] in *. apply Hi; rewrite ?out_set, ?decide_True by done; [cbn; lia|by destruct s|by constructor].
  - apply Forall_cons in Hd as [He Hq]. rewrite He.
    pose proof (IH (set_out s (mkDirection (_profile (out_of s l)) q) l)) as Hi.
    destruct (run _ _) as [tr l1]. cbn [snd] in *. apply Hi; rewrite ?out_set, ?decide_True by done.
    + cbn in *. lia.
    + by destruct s.
    + by rewrite nowUs_set_out.
Qed.
End drain.

(** ** Properties *)

(** The link keeps the promises of its [properties()]: whatever is written, read, opened, closed and whatever the
    clock and the dice do, a frame arrives or waits at most twice, no frame arrives that was not accepted, no more
    than sixteen wait; a reliable direction neither loses nor repeats one; an ordered one keeps the order of the
    frames that are no ESTOP, and every waiting ESTOP stands before them. *)
Theorem link_keeps_its_promises `{IRandom R} (pA pB : FaultProfile) (startUs : Z) (g : R) (ops : list LinkOp) (s : Side) :
  fp_mtu (profile_of pA pB s) <= Z.of_nat kFrameBufferCapacity ->
  let '(tr, l) := run ops (link_with pA pB startUs g) in
  let sent := accepted s tr in
  let come := delivered (other s) tr ++ waiting (out_of s l) in
  let pr := properties (out_of s l) in
  exists ns, length ns = length sent /\ Forall (fun n => n <= 2)%nat ns /\ come ≡ₚ copies ns sent
  /\ (length (waiting (out_of s l)) <= FrameQueue.kCapacity)%nat
  /\ (pr_reliable pr = true -> come ≡ₚ sent)
  /\ (pr_ordered pr = true -> plain come = plain (copies ns sent) /\ estops_first (waiting (out_of s l)))
  /\ (pr_reliable pr = true -> pr_ordered pr = true -> plain come = plain sent).
Proof.
  intros Hm. pose proof (run_inv _ ops _ _ _ (fresh_inv pA pB startUs g)) as [_ Hi]. specialize (Hi s Hm).
  destruct (run ops (link_with pA pB startUs g)) as [tr l]. cbn [fst snd app] in Hi.
  destruct Hi as [Hp Hl _ (ns & Hn & H2 & H1 & H0 & Hperm & Hord)]. cbv zeta.
  assert (pr_reliable (properties (out_of s l)) = true -> copies ns (accepted s tr) = accepted s tr) as Hrel.
  { unfold properties. rewrite Hp. cbn. intros [L D]%andb_true_iff. apply Z.eqb_eq in L, D. apply copies_one; [done|].
    specialize (H1 ltac:(lia)). specialize (H0 ltac:(lia)). apply Forall_forall. intros n Hin.
    apply (proj1 (Forall_forall _ _) H1) in Hin as ?. apply (proj1 (Forall_forall _ _) H0) in Hin as ?. cbn in *. lia. }
  assert (pr_ordered (properties (out_of s l)) = true -> fp_reorder_pct (profile_of pA pB s) <= 0) as Hz.
  { unfold properties. rewrite Hp. cbn. rewrite negb_true_iff, orb_false_iff, !Z.ltb_ge. tauto. }
  exists ns. split; [done|]. split; [done|]. split; [done|]. split; [unfold waiting; by rewrite length_map|].
  split; [intros E; by rewrite (Hrel E) in Hperm|]. split; [intros E; by apply Hord, Hz|].
  intros E1 E2. rewrite (Hrel E1) in Hord. by apply Hord, Hz.
Qed.

(** Nothing stays behind: once the clock stands past the latency of every write, within half its cycle, and the
    receiver is open, sixteen reads fetch all a reliable direction without jitter has accepted. *)
Theorem link_delivers_everything `{IRandom R} (pA pB : FaultProfile) (startUs t : Z) (g : R) (ops : list LinkOp) (s : Side) :
  let p := profile_of pA pB s in
  fp_mtu p <= Z.of_nat kFrameBufferCapacity -> fp_loss_pct p = 0 -> fp_dup_pct p = 0 -> fp_jitter_us p = 0 ->
  Forall (fun u => u + fp_latency_us p <= t < u + fp_latency_us p + 2 ^ 31) (startUs :: times ops) ->
  let '(tr, l) := run (ops ++ [o_open (other s); o_time t] ++ replicate 16 (o_read (other s))) (link_with pA pB startUs g) in
  waiting (out_of s l) = [] /\ delivered (other s) tr ≡ₚ accepted s tr
  /\ (fp_reorder_pct p = 0 -> plain (delivered (other s) tr) = plain (accepted s tr)).
Proof.
  intros p Hm Hloss Hdup Hj Ht.
  assert (waiting (out_of s (snd (run (ops ++ [o_open (other s); o_time t] ++ replicate 16 (o_read (other s)))
            (link_with pA pB startUs g)))) = []) as Hw.
  { pose proof (run_inv _ ops _ _ _ (fresh_inv pA pB startUs g)) as [_ Hi]. specialize (Hi s Hm).
    rewrite link_run_app. destruct (run ops (link_with pA pB startUs g)) as [tr l]. cbn [fst snd app] in Hi.
    destruct Hi as [Hp Hl Hd _]. cbn [app run step]. unfold end_open. cbn [snd].
    assert (out_of s (setUs t (set_open (other s) true l)) = out_of s l) as Ho by by destruct s.
    pose proof (reads_drain s 16 (setUs t (set_open (other s) true l))) as Hr.
    destruct (run (replicate 16 _) _) as [tr' l']. cbn [snd] in *. apply Hr; rewrite ?Ho; [done|by destruct s|].
    eapply Forall_impl; [apply Hd; fold p; by rewrite Hj|]. cbn beta. intros e (u & Hu & ->).
    apply (proj1 (Forall_forall _ _) Ht) in Hu.
    replace (lk_nowUs (setUs t _)) with (u32 (u + fp_latency_us p + (t - (u + fp_latency_us p)))) by (destruct s; cbn; f_equal; lia).
    pose proof (timeReached_elapsed (u + fp_latency_us p) 0 (t - (u + fp_latency_us p)) ltac:(lia)) as Hreach.
    rewrite Z.add_0_r in Hreach. fold p. rewrite Hreach. apply Z.leb_le. lia. }
  pose proof (run_inv _ (ops ++ [o_open (other s); o_time t] ++ replicate 16 (o_read (other s))) _ _ _
    (fresh_inv pA pB startUs g)) as [_ Hi]. specialize (Hi s Hm).
  destruct (run _ _) as [tr l]. cbn [fst snd app] in Hi, Hw.
  destruct Hi as [_ _ _ (ns & Hn & _ & H1 & H0 & Hperm & Hord)]. fold p in H1, H0, Hord. rewrite Hw, app_nil_r in *.
  assert (copies ns (accepted s tr) = accepted s tr) as Hc.
  { apply copies_one; [done|]. specialize (H1 ltac:(lia)). specialize (H0 ltac:(lia)). apply Forall_forall. intros n Hin.
    apply (proj1 (Forall_forall _ _) H1) in Hin as ?. apply (proj1 (Forall_forall _ _) H0) in Hin as ?. cbn in *. lia. }
  rewrite Hc in *. split; [done|]. split; [done|]. intros E. by apply Hord; lia.
Qed.

(** ** Witnesses and examples *)

Definition lossy : FaultProfile := mkFaultProfile 250 20 30 0 500 0 unspecified.
Definition clean : FaultProfile := mkFaultProfile 250 0 0 0 500 0 in_process.

Definition frame_of (n : Z) : list byte := replicate 8 (z2b n).

Definition estop_bytes : list byte := replicate 4 kEstopMagicByte ++ replicate 8 Byte.x00.

Definition chat : list LinkOp :=
  [o_open A; o_open B; o_write A (frame_of 1); o_write B (frame_of 2); o_time 300; o_read B; o_write A (frame_of 3);
   o_write A estop_bytes; o_time 700; o_read B; o_read A; o_close B; o_write B (frame_of 4)].

Lemma link_keeps_its_promises_witness :
  let '(tr, l) := run chat (link_with clean lossy 0 (XorShift32_new 7)) in
  delivered B tr ++ waiting (out_of A l) ≡ₚ accepted A tr.
Proof.
  pose proof (link_keeps_its_promises clean lossy 0 (XorShift32_new 7) chat A ltac:(vm_compute; discriminate)) as Hk.
  pose proof (eq_refl : pr_reliable (properties (out_of A (snd (run chat (link_with clean lossy 0 (XorShift32_new 7)))))) = true) as Hr.
  destruct (run chat (link_with clean lossy 0 (XorShift32_new 7))) as [tr l].
  destruct Hk as (ns & _ & _ & _ & _ & Hk & _). exact (Hk Hr).
Defined.

Lemma link_delivers_everything_witness :
  let '(tr, l) := run (chat ++ [o_open B; o_time 1300] ++ replicate 16 (o_read B)) (link_with clean lossy 0 (XorShift32_new 7)) in
  waiting (out_of A l) = [] /\ delivered B tr ≡ₚ accepted A tr.
Proof.
  pose proof (link_delivers_everything clean lossy 0 1300 (XorShift32_new 7) chat A ltac:(vm_compute; discriminate)
    eq_refl eq_refl eq_refl ltac:(repeat constructor; vm_compute; discriminate)) as Hk.
  destruct (run _ _) as [tr l]. destruct Hk as (H1 & H2 & _). by split.
Defined.

Example what_was_heard :
  let tr := fst (run (chat ++ [o_open B; o_time 1300] ++ replicate 16 (o_read B)) (link_with clean lossy 0 (XorShift32_new 7))) in
  delivered B tr = [estop_bytes; frame_of 1; frame_of 3] /\ accepted A tr = [frame_of 1; frame_of 3; estop_bytes].
Proof. vm_compute. done. Qed.

(** With a larger MTU than a frame buffer holds, a frame that does not fit it is accepted and arrives empty, on a
    direction that calls itself reliable. *)
Example oversized_frame_arrives_empty :
  let p := mkFaultProfile 1024 0 0 0 0 0 in_process in
  let '(tr, l) := run [o_open A; o_open B; o_write A (replicate 513 Byte.x01); o_read B] (link_with p p 0 (XorShift32_new 7)) in
  tr = [Accepted A (replicate 513 Byte.x01); Delivered B []] /\ pr_reliable (properties (out_of A l)) = true.
Proof. vm_compute. done. Qed.

(** Reordering takes an ESTOP at the end of the queue along: the next frame passes it. *)
Example reordering_passes_an_estop :
  let p := mkFaultProfile 250 0 0 100 0 0 in_process in
  delivered B (fst (run [o_open A; o_open B; o_write A estop_bytes; o_write A (frame_of 1); o_read B; o_read B]
                      (link_with p p 0 (XorShift32_new 7)))) = [frame_of 1; estop_bytes].
Proof. vm_compute. done. Qed.
